(* ===== verification/_CoqProject ===== *)
-Q . S2P
Prelude.v
Exceptions.v
BuildGraph.v
Kahn.v
GraphSpec.v
CliGraph.v
Keys.v
PyDict.v
Dashboard.v
Eff.v
PyBytes.v
BuildResult.v
BuildResultSpec.v
Console.v
Sha256.v
CacheNames.v
Ledger.v
CacheDisk.v
LocalCache.v
HttpCache.v
CacheFrame.v
CacheSpec.v
CacheOps.v
CacheClaims.v
CacheMirror.v
Store.v
StoreSpec.v
StoreClaims.v
RmwLock.v
Cleanup.v
TeardownSpec.v
CleanupRun.v
Parallel.v
Ipv4.v
Devices.v
Validate.v
Artifacts.v
Hypervisor.v
PlanSpec.v
Executor.v
Sidecar.v
Url.v
Xml.v
Shell.v
Conn.v
Naming.v
Creds.v
CloudInit.v
CloudInitSpec.v
Gateway.v
Remote.v
Ssh.v
Native.v
SshSpec.v
Qga.v
Pve.v
PveSpec.v
HostTools.v
Installer.v
InstallerSpec.v
Profile.v
Context.v
Preflight.v
PveClient.v
Libvirt.v
LibvirtSpec.v
LibvirtLaws.v
LibvirtRun.v
EsxiDriver.v
EsxiSpec.v
EsxiNet.v
EsxiGuest.v
Provision.v
VmBuild.v
NodeHooks.v
Lifecycle.v
RecordSpec.v
RunSpec.v
LifecycleSpec.v
Cli.v
