(* ===== verification/Prelude.v ===== *)
(** * TestRange: a verification of the orchestrator core

    TestRange declares a plan (pools, switches, VMs), freezes it into a dependency
    graph, builds each VM's disks on throw-away infrastructure, brings the plan up
    on a hypervisor and tears it down again.  What must not go wrong is spread over
    the code: nothing may be created that the on-disk ledger cannot reclaim, a disk
    may enter the cache only behind an explicit success record, nodes must come up
    in dependency order under any thread schedule, and two declarations must never
    share a name or an address.  This library models the code that decides these
    things (Python, under [src/testrange]) and proves them.

    ** How the program is represented

    - A Python call returns or raises: [result] here, with the exception classes
      and [except] tests of [exceptions.py] in [Exceptions].  Message texts are not
      modelled; an exception carries the values its message interpolates.
    - Code with effects is [act W A], state passing with results ([Eff]): changes
      made before an exception stay; [catch], [finally], [foldA] are [try/except],
      [finally] and [for].
    - [World] is what the state store acts on: run directories and their files, the
      [flock] holder, the clock, the backend behind the driver, a list of bits
      saying which system calls fail, and a ghost trace of the documents written
      and the driver calls made.
    - [CWorld] is what the cache acts on: the files under [isos/] and the sources
      outside it, the names [mkstemp] will draw, the remote server, and a schedule
      that says for every system call whether it works, fails half-way or is where
      the process is killed.
    - The driver, the cache manager as the run sees it, the builders and the
      communicators are classes over an arbitrary backend state ([Cleanup], [Context],
      [Lifecycle]): theorems hold whatever they do and raise.  The one assumption
      about a driver is [ProviderNames]: a composed name is not empty, which
      [Naming] shows of the three backends; [LifecycleSpec] adds, where it speaks
      of destroy calls, that a destroy raises no interrupt.
    - Threads: [parallel_map] is a step relation over all schedules ([Parallel]);
      the store's read-modify-write lock is an interleaving model ([RmwLock]) that
      justifies treating each ledger operation as one step elsewhere; the node
      hooks themselves are run one worker at a time ([NodeHooks]).
    - Python's [bytes], UTF-8 with replacement, base64, SHA-256, SHA-1, insertion-
      ordered dicts, [urllib.parse] and [ipaddress] are written out ([PyBytes],
      [Sha256], [PyDict], [Url], [Ipv4]).  The digest of a node key,
      [repr] of an address, Unicode case and word classes and the check of a
      bracketed host are parameters.

    ** Files and what they model

    - [Prelude], [Exceptions], [Eff]: results, exceptions, effects, shared lemmas.
    - [BuildGraph], [Kahn], [GraphSpec]: [graph/edge.py] and
      [graph/build_graph.py].  Construction succeeds exactly on acyclic declarations,
      each error names a real defect, waves are the longest-path levels.
    - [CliGraph]: the rendering of a graph in [cli.py].  The printed tree shows every
      declared edge exactly once.
    - [Keys]: [graph/keys.py].  The key walk is the fixpoint equation of cache keys,
      total, and independent of ordering edges.
    - [PyDict], [Dashboard]: [orchestrator/dashboard_state.py].  Any calls keep it well
      formed, and after a sweep no row is left unfinished.
    - [PyBytes], [BuildResult], [BuildResultSpec]: the build-result
      protocol of [orchestrator/vm_build.py].  A success verdict is sound, success
      records are recognized under every chunking, failure records read back.
    - [Console]: [_ansi.py] and the console mirror of [orchestrator/vm_build.py].  The
      scrubbed text has no terminal control left, and the mirror does not depend on
      how the console is cut into chunks.
    - [Sha256], [CacheNames], [CacheDisk], [LocalCache], [HttpCache]: the files of
      [cache]; [CacheFrame], [CacheSpec], [CacheOps], [CacheClaims],
      [CacheMirror]: what they guarantee.  The directory
      stays content-addressed through any session, failure or kill; additions and
      deletions are all or nothing; what is resolved was verified; lookups are exact;
      the server cannot change what the local cache does.
    - [Ledger], [Store], [StoreSpec], [StoreClaims], [RmwLock]:
      [state/schema.py], [state/store.py], [utils/fsutil.py].  Writes are atomic under
      any failing system call or crash, operations round-trip, reopening takes
      ownership or refuses, concurrent operations are linearizable.
    - [Cleanup], [TeardownSpec], [CleanupRun]: the destroy
      dispatch of [drivers/base.py], [orchestrator/teardown.py], [state/cleanup.py].
      Every recorded resource is attempted newest first, and accounted for; a live
      run is never touched; a drained run needs no backend; a sweep never aborts.
    - [Parallel], [Executor]: [orchestrator/_parallel.py] and the
      walks of [orchestrator/executor.py].  Draining, ordering, liveness, the worker
      cap, and gating of each node on what it depends on.
    - [Ipv4], [Devices], [Validate], [Artifacts]:
      [networks/base.py], [devices], [handles.py], [vms], [networks/validate.py],
      [orchestrator/artifacts.py].  The reserved layout fits the subnet, addresses
      are accepted exactly when free, disk and artifact names never collide.
    - [Hypervisor], [PlanSpec]: [hypervisor.py], [nodes.py] (assembly),
      [plan.py].  The container stays coherent; the graph is the declared one.
    - [Sidecar]: [networks/sidecar.py], with the lease file read back.
    - [Url], [Conn]: the teardown locators of [drivers/*/_client.py] and
      [drivers/libvirt/_conn.py] round-trip through [state.json].
    - [Naming]: [drivers/*/_naming.py].  Names are valid for their
      backend and collide only with a hash, MACs lie in their ranges, volume
      references parse back.
    - [Shell], [Creds], [CloudInit], [CloudInitSpec]: [credentials], [packages],
      [utils/sshkey.py], [builders/cloudinit.py], [builders/sidecar_iso.py].  The build
      hash covers everything baked into a disk, the netplan document is exact, install
      lines are read by the shell as the packages they name.
    - [Gateway]: [gateways/ssh_jump.py] as a step relation over its threads.  No bastion
      connection is orphaned, a closed gateway is not revived by an old thread, and an old
      thread accepts at most one client more.
    - [Ssh], [SshSpec], [Native]: [communicators].  A guest's shell reads the argument
      vector it was given as one command (exactly when its first word is one), attempts leak no socket, calls end with a result or the one promised
      exception, a closed session is probed before it is used.
    - [Remote]: calls to a service: time, requests, polling and retry loops, and the
      rules of error contracts ([within]).
    - [Qga]: [drivers/libvirt/_guest.py], [drivers/proxmox/_guest.py].  Files
      of any size survive the agent channel, handles are closed, errors keep the
      contract; the Proxmox write is exact and under the limit of its endpoint.
    - [Pve], [PveSpec]: the Proxmox driver over its API.  A volume reference is captured
      from the live disk of its VM, teardown deletes what is listed and does not take an
      error for absence, a run's switches leave no zone behind, what leaves the driver is
      [DriverError].  [PveClient]: its session, transfers, console and preflight; the
      handles that are open are exactly those in use.
    - [Xml], [Libvirt], [LibvirtSpec], [LibvirtLaws], [LibvirtRun]: the libvirt driver over
      libvirt-python.  The documents it sends are read back as what they describe; against
      a daemon that keeps libvirt's documented laws every operation does what its
      specification says, so that a run's objects are gone after its teardown, volumes
      give back what was written, and a shutdown ends.
    - [EsxiDriver], [EsxiSpec], [EsxiNet], [EsxiGuest]: the ESXi driver over vSphere.  The
      devices of a VM fit together, a run's switches leave the fabric as it was, the
      serial log is delivered exactly, a guest command gives back its own output and
      status.
    - [HostTools]: programs of the host and the files they work on:
      [drivers/_diskconvert.py] (a disk survives conversion and back) and
      [materialize_prepared] of [builders/base.py], with every interleaving of workers.
    - [Installer], [InstallerSpec]: [builders/proxmox.py], [builders/esxi.py],
      [builders/_proxmox_prepare.py], [builders/_esxi_prepare.py].  The answer file reads
      back as declared, the kickstart cannot fake its verdict, boot configurations are
      edited exactly and once, prepared images have the tree they should, the ESXi disk
      key covers what is installed.
    - [Profile]: [connect.py], [drivers/*/_profile.py],
      [drivers/_registry.py], [orchestrator/backend.py].
    - [Preflight]: [preflight.py].  The capacity gate accepts exactly what fits.
    - [Context], [Provision], [VmBuild], [NodeHooks]: [orchestrator/context.py],
      [provision.py], [vm_run.py], [build.py], [vm_build.py], the hooks of [nodes.py]
      and the walks of [executor.py] as programs.
    - [RecordSpec], [RunSpec]: over those programs, record before create
      for a whole run, and capture only behind a success verdict and a power-off;
      [RunSpec.RunDemo] executes a plan with a NAT switch and one VM.
    - [Lifecycle], [LifecycleSpec]: [orchestrator/runtime.py] and
      [orchestrator/runner.py].  A run that was connected disconnects and gives the
      signal handlers back; its ledger is torn down however it ends; a blocked plan
      touches nothing; a resume starts from the stamps of the ledger; the runner
      reports every test; [LifecycleSpec.LifecycleDemo] runs the plan above.
    - [Cli]: the verbs of [cli.py] over all of the above, and the functions of
      [orchestrator/runner.py] they call.  The exit code of [run] and of [cleanup] tells
      what happened, [preflight] refuses what a run would refuse, [cache purge] deletes
      nothing without being told to.

    ** Bounds and fuel

    - [BuildGraph]: each round of the wave loop settles a node, so one round per
      node plus one suffices; the cycle search enters and leaves each node once,
      so [2 * nodes + 2] steps suffice.  [GraphSpec] proves both (no construction
      reports [OutOfFuel]).
    - [BuildResult.marker_offsets]: one more than the length of the buffer, since
      every marker advances the scan.
    - [Provision.poll]: a poll sleeps two seconds, so a timeout bounds the number of
      rounds; the bounds are fields of [Env], and the deadline test itself is an
      operation of the driver interface.
    - [Ssh.connect_loop], [Ssh.wait_exit], [Native.probe_loop], [Remote.poll_rounds]: every round that does not
      end the loop sleeps, so the timeout over the sleep bounds the rounds; the theorems
      prove that the fuel is never used up.
    - [Qga.read_loop]: the agent says when a file ends, so the rounds are an argument; with
      more rounds than the file has bytes the round trip holds.
    - [Console.sub_rounds], [Console.feed_rounds]: a match and a line are not empty, so
      the length of the text is enough.
    - [Url.dec_digits]: a decimal has at most as many digits as its value plus one.
    - [InstallerSpec.expand], [InstallerSpec.toml_items]: the length of the text, since
      every round consumes a character.
    - [Libvirt.shutdown_rounds], [EsxiDriver.shutdown_wait]: every round sleeps, so the
      timeout bounds the rounds.  [Libvirt.recv_all]: the pieces of a download are bounded
      by its length.
    - [CliGraph.add_dep_node]: a dependency is in an earlier wave, so one more than the
      number of waves is deep enough.
    - [Exceptions.issubclass]: the hierarchy is at most four classes deep.

    ** Not modelled

    The argument parser, the [describe] verb, the layout of printed text, the live
    dashboard, progress reporting and logging: output on libraries.  The YAML dumper, the
    ISO writer, [xorriso], [qemu-img], the key algorithms, [paramiko] and the hypervisor
    SDKs are parameters; local file operations of the image preparation succeed, and file
    modes are not modelled.  The write lock of the cache, the lock of the dashboard and
    those of the drivers: their operations are sequences here.  A run's hooks are executed
    by one worker; the interleavings are in [Parallel], [Executor] and [RmwLock]. *)

From stdpp Require Export base list gmap strings sorting relations fin_maps.
From Stdlib Require Export Ascii ZArith.
From stdpp Require Import options.

(** ** Results: code that either returns a value or raises

    A Python call either returns or raises.  [result E A] is that outcome; the
    exception type [E] is fixed to [exn] in [Exceptions]. *)

Inductive result (E A : Type) : Type :=
  | Ok (a : A)
  | Raise (e : E).
Arguments Ok {E A} _.
Arguments Raise {E A} _.

Global Instance result_ret E : MRet (result E) := λ A a, Ok a.
Global Instance result_bind E : MBind (result E) := λ A B k m,
  match m with Ok a => k a | Raise e => Raise e end.
Global Instance result_fmap E : FMap (result E) := λ A B f m,
  match m with Ok a => Ok (f a) | Raise e => Raise e end.

Global Instance result_eq_dec `{EqDecision E, EqDecision A} : EqDecision (result E A).
Proof. solve_decision. Defined.

Definition is_ok {E A} (r : result E A) : bool :=
  match r with Ok _ => true | Raise _ => false end.

(** [guard_raise b e] is the Python idiom [if b: raise e]. *)
Definition raise_if {E} (b : bool) (e : E) : result E () :=
  if b then Raise e else Ok ().

Lemma bind_Ok {E A B} (m : result E A) (k : A → result E B) b :
  m ≫= k = Ok b ↔ ∃ a, m = Ok a ∧ k a = Ok b.
Proof. destruct m; cbn; naive_solver. Qed.

Lemma bind_Raise {E A B} (m : result E A) (k : A → result E B) e :
  m ≫= k = Raise e ↔ m = Raise e ∨ ∃ a, m = Ok a ∧ k a = Raise e.
Proof. destruct m; cbn; naive_solver. Qed.

Lemma raise_if_Ok {E} b (e : E) u : raise_if b e = Ok u ↔ b = false.
Proof. destruct b, u; cbn; naive_solver. Qed.

Lemma raise_if_Raise {E} b (e e' : E) : raise_if b e = Raise e' ↔ b = true ∧ e' = e.
Proof. destruct b; cbn; naive_solver. Qed.

(** A [for] loop whose body may raise: the loop state is threaded from the left
    and the first exception stops the loop. *)
Fixpoint foldM {E S A} (f : S → A → result E S) (s : S) (l : list A) : result E S :=
  match l with
  | [] => Ok s
  | x :: l => s' ← f s x; foldM f s' l
  end.

Lemma foldM_app {E S A} (f : S → A → result E S) s l1 l2 :
  foldM f s (l1 ++ l2) = (s' ← foldM f s l1; foldM f s' l2).
Proof.
  revert s. induction l1 as [|x l1 IH]; intros s; cbn; [done|].
  destruct (f s x); cbn; auto.
Qed.

(** The invariant rule of a [for] loop: [P done s] relates the items already
    processed with the loop state. *)
Lemma foldM_inv {E S A} (P : list A → S → Prop) (f : S → A → result E S) s l s' :
  P [] s →
  (∀ done x rest s1 s2, l = done ++ x :: rest → P done s1 → f s1 x = Ok s2 → P (done ++ [x]) s2) →
  foldM f s l = Ok s' → P l s'.
Proof.
  intros H0 Hstep. cut (∀ done todo s1, l = done ++ todo → P done s1 →
    foldM f s1 todo = Ok s' → P l s').
  { intros Hgen. by apply (Hgen [] l s). }
  intros done todo; revert done.
  induction todo as [|x todo IH]; intros done s1 -> HP; cbn.
  - intros [= ->]. by rewrite app_nil_r.
  - rewrite bind_Ok. intros (s2 & Hf & Hrest).
    eapply (IH (done ++ [x]) s2); [by rewrite <-app_assoc| |done].
    by eapply Hstep.
Qed.

(** A loop that raises did so at one of its items, after a normal prefix. *)
Lemma foldM_Raise {E S A} (f : S → A → result E S) s l e :
  foldM f s l = Raise e →
  ∃ l1 x l2 s', l = l1 ++ x :: l2 ∧ foldM f s l1 = Ok s' ∧ f s' x = Raise e.
Proof.
  revert s. induction l as [|x l IH]; intros s; cbn; [done|].
  destruct (f s x) as [s1|e1] eqn:Hf; cbn.
  - intros (l1 & y & l2 & s' & -> & Hl1 & Hy)%IH. exists (x :: l1), y, l2, s'.
    cbn. rewrite Hf. done.
  - intros [= ->]. exists [], x, l, s. done.
Qed.

(** ** Tactics *)

(** Splits every [_ ≫= _ = Ok _] hypothesis into its steps. *)
Ltac res_inv :=
  repeat match goal with
  | H : Ok _ = Ok _ |- _ => injection H as H; try subst
  | H : Raise _ = Raise _ |- _ => injection H as H; try subst
  | H : Ok _ = Raise _ |- _ => discriminate H
  | H : Raise _ = Ok _ |- _ => discriminate H
  | H : mret _ = Ok _ |- _ => cbv [mret result_ret] in H
  | H : mret _ = Raise _ |- _ => cbv [mret result_ret] in H
  | H : raise_if _ _ = Ok _ |- _ => apply raise_if_Ok in H
  | H : raise_if _ _ = Raise _ |- _ =>
      let He := fresh "He" in apply raise_if_Raise in H as [H He]; try subst
  | H : (_ ≫= _) = Ok _ |- _ =>
      let x := fresh "r" in let Hx := fresh "Hr" in
      apply bind_Ok in H as (x & Hx & H); try destruct x; cbn beta in H
  end.

(** Case analysis on the scrutinee of the first [if]/[match] in a hypothesis. *)
Ltac case_match_in H :=
  match type of H with
  | context [match ?x with _ => _ end] => let E := fresh "E" in destruct x eqn:E
  end.

(** A decidable fact about constants. *)
Ltac by_decide := match goal with |- ?P => exact (bool_decide_eq_true_1 P eq_refl) end.

(** Case analysis on the leading [raise_if (bool_decide P) e] of the goal. *)
Tactic Notation "raise_case" "as" ident(H) :=
  match goal with
  | |- context [raise_if (bool_decide ?P) _ ≫= _] =>
      destruct (decide P) as [H|H];
      [rewrite (bool_decide_true P) by exact H | rewrite (bool_decide_false P) by exact H];
      cbn [raise_if mbind result_bind]
  end.

Create HintDb tr discriminated.
Create HintDb py discriminated.
Create Rewrite HintDb py.

(** ** Strings as lists of characters *)

Abbreviation chars := String.list_ascii_of_string.

Lemma chars_app s t : chars (s +:+ t) = chars s ++ chars t.
Proof. induction s as [|c s IH]; [done|]. change (c :: chars (s +:+ t) = c :: chars s ++ chars t). by rewrite IH. Qed.

Lemma chars_inj s t : chars s = chars t → s = t.
Proof.
  intros H. rewrite <-(String.string_of_list_ascii_of_string s), <-(String.string_of_list_ascii_of_string t).
  by rewrite H.
Qed.

Lemma chars_of_list l : chars (String.string_of_list_ascii l) = l.
Proof. apply String.list_ascii_of_string_of_list_ascii. Qed.

Lemma app_string_inj_r s1 s2 t : s1 +:+ t = s2 +:+ t → s1 = s2.
Proof. intros H. apply (f_equal chars) in H. rewrite !chars_app in H. by apply app_inv_tail, chars_inj in H. Qed.

(** ** Sorting: Python's [sorted] on strings *)

Definition sorted (l : list string) : list string := merge_sort String.le l.

Lemma sorted_perm l : sorted l ≡ₚ l.
Proof. apply merge_sort_Permutation. Qed.

Lemma elem_of_sorted x l : x ∈ sorted l ↔ x ∈ l.
Proof. by rewrite sorted_perm. Qed.

Lemma length_sorted l : length (sorted l) = length l.
Proof. by rewrite sorted_perm. Qed.

Lemma NoDup_sorted l : NoDup (sorted l) ↔ NoDup l.
Proof. by rewrite sorted_perm. Qed.

Lemma Sorted_sorted l : StronglySorted String.le (sorted l).
Proof. apply StronglySorted_merge_sort; apply _. Qed.

(** [sorted] forgets the order of its argument: the reason a Python set, whose
    iteration order is unspecified, may be passed to it. *)
Global Instance sorted_proper : Proper ((≡ₚ) ==> (=)) sorted.
Proof.
  intros l1 l2 Hp. eapply (StronglySorted_unique String.le); [apply Sorted_sorted..|].
  by rewrite !sorted_perm.
Qed.

(** [sorted(l, key=key)] with an integer key: stable. *)
Fixpoint insert_by {A} (key : A → Z) (x : A) (l : list A) : list A :=
  match l with
  | [] => [x]
  | y :: l => if decide (key x < key y)%Z then x :: y :: l else y :: insert_by key x l
  end.
Definition sort_by {A} (key : A → Z) (l : list A) : list A := foldl (λ acc x, insert_by key x acc) [] l.

Lemma insert_by_perm {A} (key : A → Z) x l : insert_by key x l ≡ₚ x :: l.
Proof. induction l as [|y l IH]; cbn; [done|]. case_decide; [done|]. rewrite IH. apply Permutation_swap. Qed.
Lemma sort_by_perm {A} (key : A → Z) l : sort_by key l ≡ₚ l.
Proof.
  unfold sort_by. cut (∀ acc, foldl (λ acc x, insert_by key x acc) acc l ≡ₚ l ++ acc); [intros H; by rewrite H, app_nil_r|].
  induction l as [|x l IH]; intros acc; [done|]. cbn. rewrite IH, insert_by_perm. symmetry. apply Permutation_middle.
Qed.
Lemma insert_by_sorted {A} (key : A → Z) x l :
  StronglySorted (λ y z, key y ≤ key z)%Z l → StronglySorted (λ y z, key y ≤ key z)%Z (insert_by key x l).
Proof.
  induction 1 as [|y l Hl IH Hy]; cbn; [by repeat constructor|]. case_decide as Hlt.
  - constructor; [by constructor|]. constructor; [lia|]. eapply Forall_impl; [exact Hy|]. cbn. lia.
  - constructor; [done|]. rewrite insert_by_perm. constructor; [lia|done].
Qed.
Lemma sort_by_sorted {A} (key : A → Z) l : StronglySorted (λ y z, key y ≤ key z)%Z (sort_by key l).
Proof.
  unfold sort_by. cut (∀ acc, StronglySorted (λ y z, key y ≤ key z)%Z acc →
    StronglySorted (λ y z, key y ≤ key z)%Z (foldl (λ acc x, insert_by key x acc) acc l)); [intros H; apply H; constructor|].
  induction l as [|x l IH]; intros acc Hacc; [done|]. cbn. by apply IH, insert_by_sorted.
Qed.

Definition sorted_set (X : gset string) : list string := sorted (elements X).

Lemma elem_of_sorted_set x X : x ∈ sorted_set X ↔ x ∈ X.
Proof. unfold sorted_set. by rewrite elem_of_sorted, elem_of_elements. Qed.

Lemma NoDup_sorted_set X : NoDup (sorted_set X).
Proof. apply NoDup_sorted, NoDup_elements. Qed.

Lemma length_sorted_set X : length (sorted_set X) = size X.
Proof. unfold sorted_set. by rewrite length_sorted. Qed.

Lemma sorted_set_nil X : sorted_set X = [] ↔ X = ∅.
Proof.
  split; [|intros ->; done]. intros H. apply set_eq. intros x.
  rewrite <-elem_of_sorted_set, H. set_solver.
Qed.

#[export] Hint Rewrite elem_of_sorted elem_of_sorted_set length_sorted length_sorted_set
  NoDup_sorted : py.
#[export] Hint Resolve NoDup_sorted_set Sorted_sorted sorted_perm : py.

(** ** Lists *)

Lemma elem_of_concat {A} (ls : list (list A)) x : x ∈ concat ls ↔ ∃ l, l ∈ ls ∧ x ∈ l.
Proof.
  rewrite list_elem_of_In, in_concat. split; intros (l & ? & ?); exists l;
    by rewrite ?list_elem_of_In in *.
Qed.

(** Members of an earlier sublist come before members of a later one. *)
Lemma concat_before {A} (ls : list (list A)) i j li lj x y :
  i < j → ls !! i = Some li → ls !! j = Some lj → y ∈ li → x ∈ lj →
  ∃ l1 l2 l3, concat ls = l1 ++ y :: l2 ++ x :: l3.
Proof.
  intros Hij Hi Hj (a & b & ->)%list_elem_of_split (c & d & ->)%list_elem_of_split.
  assert (take j ls !! i = Some (a ++ y :: b)) as Hi' by (by rewrite lookup_take_lt).
  rewrite <-(take_drop_middle ls j _ Hj), <-(take_drop_middle _ i _ Hi').
  rewrite !concat_app. cbn.
  exists (concat (take i (take j ls)) ++ a), (b ++ concat (drop (S i) (take j ls)) ++ c),
    (d ++ concat (drop (S j) ls)).
  by rewrite <-!app_assoc.
Qed.

Lemma elem_of_concat_lookup {A} (ls : list (list A)) x :
  x ∈ concat ls ↔ ∃ i l, ls !! i = Some l ∧ x ∈ l.
Proof.
  rewrite elem_of_concat. split.
  - intros (l & [i Hi]%list_elem_of_lookup & Hx). eauto.
  - intros (i & l & Hi & Hx). exists l. split; [|done]. apply list_elem_of_lookup. eauto.
Qed.

Lemma NoDup_pivot {A} (l1 l2 l1' l2' : list A) x :
  NoDup (l1 ++ x :: l2) → l1 ++ x :: l2 = l1' ++ x :: l2' → l1 = l1' ∧ l2 = l2'.
Proof.
  revert l1'. induction l1 as [|a l1 IH]; intros [|b l1'] Hnd Heq; cbn in *.
  - naive_solver.
  - injection Heq as <- ->. apply NoDup_cons in Hnd as [Hn _]. set_solver.
  - injection Heq as -> <-. apply NoDup_cons in Hnd as [Hn _]. set_solver.
  - injection Heq as <- Heq. apply NoDup_cons in Hnd as [_ Hnd].
    by destruct (IH l1' Hnd Heq) as [-> ->].
Qed.

Lemma filter_all {A} (P : A → Prop) `{!∀ x, Decision (P x)} (l : list A) :
  (∀ x, x ∈ l → P x) → filter P l = l.
Proof.
  induction l as [|x l IH]; intros Hall; [done|].
  rewrite filter_cons_True by (apply Hall; set_solver). f_equal. apply IH. set_solver.
Qed.

Lemma filter_none {A} (P : A → Prop) `{!∀ x, Decision (P x)} (l : list A) :
  (∀ x, x ∈ l → ¬ P x) → filter P l = [].
Proof.
  induction l as [|x l IH]; intros Hall; [done|].
  rewrite filter_cons_False by (apply Hall; set_solver). apply IH. set_solver.
Qed.

Lemma NoDup_fmap_filter {A C} (f : A → C) (P : A → Prop) `{!∀ x, Decision (P x)} (l : list A) :
  NoDup (f <$> l) → NoDup (f <$> filter P l).
Proof.
  induction l as [|x l IH]; [done|]. rewrite fmap_cons, NoDup_cons. intros [Hx Hl].
  rewrite filter_cons. case_decide; [|by apply IH]. rewrite fmap_cons. apply NoDup_cons. split; [|by apply IH].
  intros (y & Hy & [_ Hin]%list_elem_of_filter)%list_elem_of_fmap. apply Hx.
  rewrite Hy. by apply list_elem_of_fmap_2.
Qed.
