(* ===== verification/Exceptions.v ===== *)
(** * Exceptions

    The exception classes the modelled code raises and catches: the hierarchy of
    [testrange/exceptions.py] and the Python built-ins the code raises itself.
    A raised exception is a class and the values its message interpolates (the
    English text of the messages is not modelled).  [isinstance] is the test an
    [except] clause makes. *)

From S2P Require Import Prelude.
From stdpp Require Import options.

Inductive exc_class : Type :=
  (** Python built-ins *)
  | ValueError | TypeError | KeyError | IndexError | AttributeError | AssertionError
  | NotImplementedError | OSError | FileNotFoundError | KeyboardInterrupt | JSONDecodeError | EOFError
  | ImportError
  (** [requests], [paramiko] *)
  | RequestException | SSHException
  (** [testrange/exceptions.py] *)
  | TestRangeError
  | PlanError | GraphError | DuplicateNodeError | DanglingDependencyError
  | SelfDependencyError | GraphCycleError
  | PreflightError
  | CacheError | CacheMissError
  | DriverError | GuestAgentError
  | ProfileError
  | StateError | StateLockedError
  | CommunicatorError | CommunicatorAlreadyBoundError
  | GatewayError
  | BuilderError | BuildNotReadyError | BuildFailedError
  (** [builders/_proxmox_prepare.py], [builders/_esxi_prepare.py] *)
  | ProxmoxPrepareError | EsxiPrepareError
  | OrchestratorError | BuildTimeoutError | BuildRequiredError
  (** Not a Python exception: a loop of the model ran out of its fuel.  Every
      fuelled function has a theorem that this does not happen. *)
  | OutOfFuel
  (** Not a Python exception either: a JSON field holds a value of a type the
      program never writes there (Python would carry it along untyped).  Never
      raised on a document the program wrote. *)
  | UntypedField
  (** The process was killed: what code would run afterwards has no effect. *)
  | Killed.

Global Instance exc_class_eq_dec : EqDecision exc_class.
Proof. solve_decision. Defined.

(** The direct base class, where it is one of the classes above. *)
Definition base_class (c : exc_class) : option exc_class :=
  match c with
  | PlanError | PreflightError | CacheError | DriverError | ProfileError | StateError
  | CommunicatorError | GatewayError | BuilderError | OrchestratorError => Some TestRangeError
  | GraphError => Some PlanError
  | DuplicateNodeError | DanglingDependencyError | SelfDependencyError
  | GraphCycleError => Some GraphError
  | CacheMissError => Some CacheError
  | GuestAgentError => Some DriverError
  | StateLockedError => Some StateError
  | CommunicatorAlreadyBoundError => Some CommunicatorError
  | BuildNotReadyError | BuildFailedError | ProxmoxPrepareError | EsxiPrepareError => Some BuilderError
  | BuildTimeoutError | BuildRequiredError => Some OrchestratorError
  | JSONDecodeError => Some ValueError
  | RequestException | FileNotFoundError => Some OSError
  | _ => None
  end.

(** The hierarchy is at most four classes deep. *)
Fixpoint subclass_fuel (fuel : nat) (c d : exc_class) : bool :=
  bool_decide (c = d) ||
  match fuel, base_class c with
  | S fuel, Some b => subclass_fuel fuel b d
  | _, _ => false
  end.
Definition issubclass : exc_class → exc_class → bool := subclass_fuel 4.

Record exn : Type := Exn { exn_class : exc_class; exn_args : list string }.

Global Instance exn_eq_dec : EqDecision exn.
Proof. solve_decision. Defined.

(** [except c]: whether the handler for class [c] catches [e]. *)
Definition isinstance (e : exn) (c : exc_class) : bool := issubclass (exn_class e) c.

(** [except Exception]: everything but the interrupt (and the model's own
    outcomes: no fuel left, process killed). *)
Definition is_exception (e : exn) : bool :=
  negb (bool_decide (exn_class e ∈ [KeyboardInterrupt; OutOfFuel; Killed])).

Abbreviation res := (result exn).

Definition raise {A} (c : exc_class) (args : list string) : res A := Raise (Exn c args).

(** [raise_when b c args] is [if b: raise c(args)]. *)
Abbreviation raise_when b c args := (raise_if b (Exn c args)).

Lemma issubclass_base c b d :
  base_class c = Some b → issubclass b d = true → issubclass c d = true.
Proof. destruct c; intros [= <-]; destruct d; vm_compute; congruence. Qed.

(** [m[k]] on a Python dict: a missing key raises [KeyError]. *)
Definition getitem {V} (m : gmap string V) (k : string) : res V :=
  match m !! k with Some v => Ok v | None => raise KeyError [k] end.

Lemma getitem_Ok {V} (m : gmap string V) k v : getitem m k = Ok v ↔ m !! k = Some v.
Proof. unfold getitem, raise. destruct (m !! k); naive_solver. Qed.

#[export] Hint Rewrite @getitem_Ok : py.
