(* ===== verification/BuildGraph.v ===== *)
(** * Edges of the build graph ([testrange/graph/edge.py])

    An edge [dependent -> dependency] between node names, with its relationship
    kind and its cacheability. *)

From S2P Require Import Prelude Exceptions.
From stdpp Require Import options.

Inductive EdgeKind : Type := KIND_ORDERING.

Inductive Cacheability : Type := ORDERING | BAKE | REPLAY.

Global Instance EdgeKind_eq_dec : EqDecision EdgeKind.
Proof. solve_decision. Defined.
Global Instance Cacheability_eq_dec : EqDecision Cacheability.
Proof. solve_decision. Defined.

Record Edge : Type := MkEdge {
  dependent : string;
  dependency : string;
  kind : EdgeKind;
  cacheability : Cacheability;
}.

Global Instance Edge_eq_dec : EqDecision Edge.
Proof. solve_decision. Defined.

(** [Edge(...)] with [__post_init__]: both endpoints must be non-empty names. *)
Definition new_edge (dependent dependency : string) (kind : EdgeKind) (c : Cacheability) : res Edge :=
  raise_when (bool_decide (dependent = "")) ValueError ["Edge.dependent"];;
  raise_when (bool_decide (dependency = "")) ValueError ["Edge.dependency"];;
  mret (MkEdge dependent dependency kind c).

(** The two-argument form, with the dataclass defaults. *)
Definition ordering_edge (dependent dependency : string) : res Edge :=
  new_edge dependent dependency KIND_ORDERING ORDERING.

Definition affects_cache_key (e : Edge) : bool :=
  negb (bool_decide (cacheability e = ORDERING)).

Lemma new_edge_Ok a b k c e :
  new_edge a b k c = Ok e ↔ a ≠ "" ∧ b ≠ "" ∧ e = MkEdge a b k c.
Proof.
  unfold new_edge. split.
  - intros H. res_inv. repeat case_bool_decide; done.
  - intros (Ha & Hb & ->). by rewrite !bool_decide_false.
Qed.

#[export] Hint Rewrite new_edge_Ok : py.

(** ** The build graph ([testrange/graph/build_graph.py], [graph/node.py])

    Construction of the frozen dependency DAG: duplicate, self and dangling
    checks, Kahn's algorithm by levels ([compute_waves]), the explicit-stack
    search for a concrete cycle ([find_cycle]) and the read accessors. *)

(** ** What the graph asks of a node: [Node.name] and [Node.kind] *)

Class Node (V : Type) : Type := {
  node_name : V → string;
  node_kind : V → string;
}.
#[export] Hint Mode Node ! : typeclass_instances.

(** Adjacency: [dict[str, frozenset[str]]]. *)
Abbreviation adjacency := (gmap string (gset string)).

Record BuildGraph (V : Type) : Type := MkBuildGraph {
  bg_name : string;
  bg_nodes : list V;
  bg_edges : list Edge;
  by_name : gmap string V;
  deps : adjacency;
  dependents : adjacency;
  waves : list (list V);
  content_waves : list (list V);
}.
Arguments MkBuildGraph {V} _ _ _ _ _ _ _ _.
Arguments bg_name {V} _.
Arguments bg_nodes {V} _.
Arguments bg_edges {V} _.
Arguments by_name {V} _.
Arguments deps {V} _.
Arguments dependents {V} _.
Arguments waves {V} _.
Arguments content_waves {V} _.

Section Construction.
Context `{Node V}.

(** The [by_name] loop: a second node of the same name is refused. *)
Definition add_node (by_name : gmap string V) (node : V) : res (gmap string V) :=
  raise_when (bool_decide (is_Some (by_name !! node_name node)))
    DuplicateNodeError [node_name node];;
  mret (<[node_name node := node]> by_name).

Definition index_nodes (nodes : list V) : res (gmap string V) := foldM add_node ∅ nodes.

(** [{n: set() for n in by_name}] *)
Definition empty_adjacency (by_name : gmap string V) : adjacency := (λ _, ∅) <$> by_name.

(** [m[k].add(x)] *)
Definition adj_add (m : adjacency) (k x : string) : res adjacency :=
  s ← getitem m k;
  mret (<[k := {[x]} ∪ s]> m).

(** One iteration of the edge loop: self edge, unknown dependent, unknown
    dependency, then the two adjacency updates. *)
Definition add_edge (by_name : gmap string V) (a : adjacency * adjacency) (e : Edge)
    : res (adjacency * adjacency) :=
  raise_when (bool_decide (dependent e = dependency e)) SelfDependencyError [dependent e];;
  raise_when (bool_decide (by_name !! dependent e = None))
    DanglingDependencyError [dependent e; dependency e; dependent e; "dependent"];;
  raise_when (bool_decide (by_name !! dependency e = None))
    DanglingDependencyError [dependent e; dependency e; dependency e; "dependency"];;
  d ← adj_add a.1 (dependent e) (dependency e);
  r ← adj_add a.2 (dependency e) (dependent e);
  mret (d, r).

(** The content sub-relation: cacheable edges only. *)
Definition add_content_edge (a : adjacency * adjacency) (e : Edge) : res (adjacency * adjacency) :=
  if affects_cache_key e then
    d ← adj_add a.1 (dependent e) (dependency e);
    r ← adj_add a.2 (dependency e) (dependent e);
    mret (d, r)
  else mret a.

(** ** [_compute_waves] *)

(** [sorted(name for name, d in deps.items() if not d)] *)
Definition initial_wave (deps : adjacency) : list string :=
  sorted_set (dom (filter (λ kv, kv.2 = ∅) deps)).

(** [if dependent not in done and deps[dependent] <= done: nxt.add(dependent)] *)
Definition visit_dependent (deps : adjacency) (done : gset string) (nxt : gset string)
    (dependent : string) : res (gset string) :=
  if decide (dependent ∈ done) then mret nxt
  else
    dd ← getitem deps dependent;
    mret (if decide (dd ⊆ done) then {[dependent]} ∪ nxt else nxt).

(** [for dependent in dependents[finished]: ...] *)
Definition visit_finished (deps dependents : adjacency) (done : gset string) (nxt : gset string)
    (finished : string) : res (gset string) :=
  ds ← getitem dependents finished;
  foldM (visit_dependent deps done) nxt (elements ds).

(** The double loop: the dependents of the wave just finished whose
    dependencies are now all done. *)
Definition next_wave (deps dependents : adjacency) (done : gset string) (current : list string)
    : res (gset string) :=
  foldM (visit_finished deps dependents done) ∅ current.

(** [while current: ...], with fuel. *)
Fixpoint waves_loop (fuel : nat) (by_name : gmap string V) (deps dependents : adjacency)
    (done : gset string) (waves : list (list V)) (current : list string)
    : res (gset string * list (list V)) :=
  match current with
  | [] => mret (done, waves)
  | _ =>
    match fuel with
    | 0 => raise OutOfFuel []
    | S fuel =>
      wave ← mapM (getitem by_name) current;
      let done := done ∪ list_to_set current in
      nxt ← next_wave deps dependents done current;
      waves_loop fuel by_name deps dependents done (waves ++ [wave]) (sorted_set nxt)
    end
  end.

(** ** [_find_cycle] *)

(** [for dep in deps: ...] over the frame's iterator: skip settled and black
    names, stop at a name on the path or at one to descend into. *)
Inductive scan_outcome : Type :=
  | Exhausted
  | BackEdge (dep : string)
  | Descend (dep : string) (rest : list string).

Fixpoint scan_deps (settled black on_path : gset string) (it : list string) : scan_outcome :=
  match it with
  | [] => Exhausted
  | dep :: it =>
    if decide (dep ∈ settled ∨ dep ∈ black) then scan_deps settled black on_path it
    else if decide (dep ∈ on_path) then BackEdge dep
    else Descend dep it
  end.

(** [[*path[path.index(dep):], dep]] *)
Definition close_cycle (path : list string) (dep : string) : res (list string) :=
  match list_find (eq dep) path with
  | Some (i, _) => mret (drop i path ++ [dep])
  | None => raise ValueError [dep]
  end.

(** [while frames: ...]: the top frame is the head of [frames]; [path] is in
    Python's order (root first).  Returns a cycle, or the black set once the
    stack is empty. *)
Fixpoint dfs_loop (fuel : nat) (deps : adjacency) (settled black : gset string)
    (frames : list (string * list string)) (path : list string) (on_path : gset string)
    : res (list string + gset string) :=
  match frames with
  | [] => mret (inr black)
  | (node, it) :: frames' =>
    match fuel with
    | 0 => raise OutOfFuel []
    | S fuel =>
      match scan_deps settled black on_path it with
      | BackEdge dep => c ← close_cycle path dep; mret (inl c)
      | Descend dep rest =>
          dd ← getitem deps dep;
          dfs_loop fuel deps settled black
            ((dep, sorted_set dd) :: (node, rest) :: frames')
            (path ++ [dep]) ({[dep]} ∪ on_path)
      | Exhausted =>
          dfs_loop fuel deps settled ({[node]} ∪ black) frames'
            (take (length path - 1) path) (on_path ∖ {[node]})
      end
    end
  end.

(** Each name is pushed at most once per root and popped at most once. *)
Definition dfs_fuel (deps : adjacency) : nat := 2 * size deps + 2.

Fixpoint find_cycle_from (deps : adjacency) (settled black : gset string) (roots : list string)
    : res (list string) :=
  match roots with
  | [] => raise AssertionError []
  | root :: roots =>
    if decide (root ∈ settled ∨ root ∈ black) then find_cycle_from deps settled black roots
    else
      dd ← getitem deps root;
      r ← dfs_loop (dfs_fuel deps) deps settled black [(root, sorted_set dd)] [root] {[root]};
      match r with
      | inl cycle => mret cycle
      | inr black => find_cycle_from deps settled black roots
      end
  end.

(** [for root in self._by_name]: insertion order, which is declaration order. *)
Definition find_cycle (nodes : list V) (self_deps : adjacency) (settled : gset string)
    : res (list string) :=
  find_cycle_from self_deps settled ∅ (node_name <$> nodes).

Definition compute_waves (nodes : list V) (by_name : gmap string V) (self_deps : adjacency)
    (deps dependents : adjacency) : res (list (list V)) :=
  '(done, waves) ← waves_loop (S (length nodes)) by_name deps dependents ∅ [] (initial_wave deps);
  if decide (size done = length nodes) then mret waves
  else
    cycle ← find_cycle nodes self_deps done;
    raise GraphCycleError cycle.

(** ** [BuildGraph.__init__] *)
Definition new_build_graph (name : string) (nodes : list V) (edges : list Edge)
    : res (BuildGraph V) :=
  raise_when (bool_decide (name = "")) ValueError ["BuildGraph.name"];;
  by_name ← index_nodes nodes;
  let empty := empty_adjacency by_name in
  '(deps, dependents) ← foldM (add_edge by_name) (empty, empty) edges;
  waves ← compute_waves nodes by_name deps deps dependents;
  '(cdeps, cdependents) ← foldM add_content_edge (empty, empty) edges;
  content_waves ← compute_waves nodes by_name deps cdeps cdependents;
  mret (MkBuildGraph name nodes edges by_name deps dependents waves content_waves).

(** ** Accessors *)

Definition node (g : BuildGraph V) (name : string) : res V := getitem (by_name g) name.

Definition contains (g : BuildGraph V) (name : string) : bool :=
  bool_decide (is_Some (by_name g !! name)).

Definition names (g : BuildGraph V) : list string := node_name <$> bg_nodes g.

Definition dependencies_of (g : BuildGraph V) (name : string) : res (list V) :=
  d ← getitem (deps g) name;
  mapM (getitem (by_name g)) (sorted_set d).

Definition dependents_of (g : BuildGraph V) (name : string) : res (list V) :=
  d ← getitem (dependents g) name;
  mapM (getitem (by_name g)) (sorted_set d).

(** [{e.dependency for e in edges if e.dependent == name and e.affects_cache_key}] *)
Definition content_set (edges : list Edge) (name : string) : gset string :=
  list_to_set (dependency <$> filter (λ e, dependent e = name ∧ affects_cache_key e = true) edges).

Definition content_dependencies_of (g : BuildGraph V) (name : string) : res (list V) :=
  mapM (getitem (by_name g)) (sorted_set (content_set (bg_edges g) name)).

Definition topological_order (g : BuildGraph V) : list V := concat (waves g).

Definition reverse_topological_order (g : BuildGraph V) : list V := reverse (topological_order g).
End Construction.
