(* ===== verification/Kahn.v ===== *)
(** * Kahn's algorithm by levels: what [waves_loop] computes

    Facts about [initial_wave], [next_wave] and [waves_loop] of [BuildGraph] for
    a well-formed pair of adjacency maps: the loop ends within its fuel, the
    waves it returns are the levels of the relation, and what it leaves out has
    no dependency-free member. *)

From S2P Require Import Prelude Exceptions BuildGraph.
From stdpp Require Import options.

(** The neighbours of [x]; empty for an unknown name. *)
Definition succs (m : adjacency) (x : string) : gset string := default ∅ (m !! x).

(** [x] directly depends on [y]. *)
Definition needs (deps : adjacency) (x y : string) : Prop := y ∈ succs deps x.

(** Two adjacency maps over the node names, converse to each other. *)
Record adj_wf (ns : gset string) (deps dependents : adjacency) : Prop := {
  adj_dom_deps : dom deps = ns;
  adj_dom_dependents : dom dependents = ns;
  adj_converse : ∀ x y, y ∈ succs deps x ↔ x ∈ succs dependents y;
}.

Lemma succs_lookup (m : adjacency) x d : m !! x = Some d → succs m x = d.
Proof. unfold succs. by intros ->. Qed.

Lemma lookup_succs (m : adjacency) x : x ∈ dom m → m !! x = Some (succs m x).
Proof. intros [d Hd]%elem_of_dom. unfold succs. by rewrite Hd. Qed.

Lemma getitem_succs (m : adjacency) x : x ∈ dom m → getitem m x = Ok (succs m x).
Proof. intros. by rewrite getitem_Ok, lookup_succs. Qed.

Lemma succs_in_dom (m : adjacency) x y : y ∈ succs m x → x ∈ dom m.
Proof. unfold succs. rewrite elem_of_dom. destruct (m !! x); cbn; set_solver. Qed.

Lemma adj_closed ns ds rs x y : adj_wf ns ds rs → y ∈ succs ds x → x ∈ ns ∧ y ∈ ns.
Proof.
  intros [Hd Hr Hc] Hy. split.
  - rewrite <-Hd. by eapply succs_in_dom.
  - rewrite <-Hr. eapply succs_in_dom. by apply Hc.
Qed.

(** A wave of nodes has the given names. *)
Definition wave_names `{Node V} (w : list V) : list string := node_name <$> w.

(** [by_name] maps each of the names to a node that carries it. *)
Definition names_ok `{Node V} (ns : gset string) (bn : gmap string V) : Prop :=
  dom bn = ns ∧ ∀ k n, bn !! k = Some n → node_name n = k.

Lemma mapM_getitem `{Node V} ns (bn : gmap string V) l :
  names_ok ns bn → (∀ x, x ∈ l → x ∈ ns) →
  ∃ w, mapM (getitem bn) l = Ok w ∧ wave_names w = l ∧ ∀ n, n ∈ w → bn !! node_name n = Some n.
Proof.
  intros [Hdom Hok]. induction l as [|x l IH]; intros Hl; cbn.
  - exists []. split_and!; [done..|set_solver].
  - assert (x ∈ dom bn) as [n Hn]%elem_of_dom by (rewrite Hdom; set_solver).
    assert (getitem bn x = Ok n) as -> by by rewrite getitem_Ok.
    destruct IH as (w & -> & Hw & Hin); [set_solver|].
    exists (n :: w). cbn. split_and!; [done| |].
    + f_equal; [by apply Hok|done].
    + intros n' [->|?]%elem_of_cons; [|auto]. by rewrite (Hok x n).
Qed.

Section Loop.
Set Default Proof Using "All".
Context `{Node V}.
Context (ns : gset string) (bn : gmap string V) (ds rs : adjacency).
Context (Hwf : adj_wf ns ds rs) (Hbn : names_ok ns bn).

(** Ready: not done yet, all dependencies done. *)
Definition ready (done : gset string) (x : string) : Prop :=
  x ∈ ns ∧ x ∉ done ∧ (succs ds x ⊆ done).

Lemma initial_wave_ready x : x ∈ initial_wave ds ↔ ready ∅ x.
Proof.
  destruct Hwf as [Hd Hr Hc]. unfold initial_wave, ready.
  rewrite elem_of_sorted_set, elem_of_dom. unfold is_Some.
  setoid_rewrite map_lookup_filter_Some. cbn. split.
  - intros (d & Hx & ->). rewrite <-Hd, elem_of_dom. unfold succs. rewrite Hx. cbn.
    split_and!; [by eexists|set_solver..].
  - intros (Hin & _ & Hs). rewrite <-Hd in Hin. exists (succs ds x).
    rewrite lookup_succs by done. split; [done|set_solver].
Qed.

Lemma visit_dependent_Ok done nxt y :
  y ∈ ns → visit_dependent ds done nxt y =
    Ok (if decide (y ∉ done ∧ (succs ds y ⊆ done)) then {[y]} ∪ nxt else nxt).
Proof.
  intros Hy. unfold visit_dependent. rewrite getitem_succs by (by rewrite (adj_dom_deps _ _ _ Hwf)).
  cbn. repeat case_decide; by intuition.
Qed.

Lemma visit_finished_Ok done nxt f :
  f ∈ ns →
  visit_finished ds rs done nxt f = foldM (visit_dependent ds done) nxt (elements (succs rs f)).
Proof.
  intros Hf. unfold visit_finished. by rewrite getitem_succs by (by rewrite (adj_dom_dependents _ _ _ Hwf)).
Qed.

Lemma visit_dependents_spec done nxt l :
  (∀ x, x ∈ l → x ∈ ns) →
  ∃ X, foldM (visit_dependent ds done) nxt l = Ok X ∧
    ∀ x, x ∈ X ↔ x ∈ nxt ∨ (x ∈ l ∧ x ∉ done ∧ (succs ds x ⊆ done)).
Proof.
  revert nxt. induction l as [|y l IH]; intros nxt Hl; cbn [foldM].
  - exists nxt. split; [done|set_solver].
  - rewrite visit_dependent_Ok by set_solver. cbn [mbind result_bind].
    edestruct IH as (X & -> & HX); [set_solver|].
    exists X. split; [done|]. intros x. rewrite HX.
    case_decide; set_solver.
Qed.

Lemma next_wave_spec done current :
  (∀ x, x ∈ current → x ∈ ns) →
  ∃ X, next_wave ds rs done current = Ok X ∧
    ∀ x, x ∈ X ↔ x ∉ done ∧ (succs ds x ⊆ done) ∧ ∃ f, f ∈ current ∧ f ∈ succs ds x.
Proof.
  intros Hcur. unfold next_wave.
  cut (∀ nxt : gset string, ∃ X, foldM (visit_finished ds rs done) nxt current = Ok X ∧
    ∀ x, x ∈ X ↔ x ∈ nxt ∨
      (x ∉ done ∧ (succs ds x ⊆ done) ∧ ∃ f, f ∈ current ∧ f ∈ succs ds x)).
  { intros Hgen. destruct (Hgen ∅) as (X & -> & HX). exists X. split; [done|].
    intros x. rewrite HX. set_solver. }
  induction current as [|f current IH]; intros nxt; cbn [foldM].
  - exists nxt. split; [done|set_solver].
  - rewrite visit_finished_Ok by set_solver.
    destruct (visit_dependents_spec done nxt (elements (succs rs f))) as (X & -> & HX);
      cbn [mbind result_bind].
    { intros x Hx%elem_of_elements%(adj_converse _ _ _ Hwf).
      by eapply adj_closed in Hx as [??]. }
    destruct (IH ltac:(set_solver) X) as (Y & -> & HY).
    exists Y. split; [done|]. intros x.
    rewrite HY, HX, elem_of_elements, <-(adj_converse _ _ _ Hwf). set_solver.
Qed.

(** ** The loop invariant *)

Record loop_inv (done : gset string) (ws : list (list string)) (current : list string) : Prop := {
  li_done : ∀ x, x ∈ done ↔ x ∈ concat ws;
  li_nodup : NoDup (concat ws);
  li_current : ∀ x, x ∈ current ↔ ready done x;
  li_current_nodup : NoDup current;
  li_ns : ∀ x, x ∈ done → x ∈ ns;
  li_level : ∀ i w x y, ws !! i = Some w → x ∈ w → y ∈ succs ds x →
    ∃ j w', j < i ∧ ws !! j = Some w' ∧ y ∈ w';
  li_tight : ∀ i w x, (ws ++ [current]) !! S i = Some w → x ∈ w →
    ∃ w' y, ws !! i = Some w' ∧ y ∈ w' ∧ y ∈ succs ds x;
  li_sorted : Forall (StronglySorted String.le) (ws ++ [current]);
  li_nonempty : Forall (.≠ []) ws;
}.

Lemma kahn_loop_inv_init : loop_inv ∅ [] (initial_wave ds).
Proof.
  split; cbn.
  - set_solver.
  - apply NoDup_nil_2.
  - intros x. apply initial_wave_ready.
  - apply NoDup_sorted_set.
  - set_solver.
  - intros i w x y. by rewrite lookup_nil.
  - done.
  - repeat constructor. apply Sorted_sorted.
  - constructor.
Qed.

Lemma loop_inv_step done ws current nxt :
  loop_inv done ws current → current ≠ [] →
  next_wave ds rs (done ∪ list_to_set current) current = Ok nxt →
  loop_inv (done ∪ list_to_set current) (ws ++ [current]) (sorted_set nxt).
Proof.
  intros [Hdone Hnd Hcur Hcnd Hns Hlev Htight Hsort Hne] Hcne Hnxt.
  destruct (next_wave_spec (done ∪ list_to_set current) current) as (X & HX1 & HX).
  { intros x. rewrite Hcur. by intros [??]. }
  rewrite HX1 in Hnxt. injection Hnxt as ->.
  split.
  - intros x. rewrite concat_app, elem_of_app, elem_of_union, elem_of_list_to_set, Hdone.
    cbn. by rewrite app_nil_r.
  - rewrite concat_app. cbn. rewrite app_nil_r. apply NoDup_app. split_and!; [done| |done].
    intros x Hx. rewrite Hcur. intros (_ & Hn & _). by rewrite Hdone in Hn.
  - intros x. rewrite elem_of_sorted_set, HX. unfold ready. split.
    + intros (Hn & Hsub & f & Hf & Hfx). split_and!; [|done..].
      by eapply adj_closed in Hfx as [??].
    + intros (Hin & Hn & Hsub). split_and!; [done..|].
      destruct (set_choose_or_empty (succs ds x ∖ done)) as [[f Hf]|He].
      * exists f. set_solver.
      * exfalso. apply Hn. apply elem_of_union_r, elem_of_list_to_set, Hcur.
        split_and!; [done|set_solver|set_solver].
  - apply NoDup_sorted_set.
  - intros x. rewrite elem_of_union, elem_of_list_to_set, Hcur. intros [?|[??]]; auto.
  - intros i w x y [Hi|[Hi Hw]]%lookup_app_Some Hxw Hy.
    + destruct (Hlev i w x y Hi Hxw Hy) as (j & w' & Hj & Hw' & Hyw').
      exists j, w'. split_and!; [done| |done]. by apply lookup_app_l_Some.
    + apply list_lookup_singleton_Some in Hw as [Hi' <-].
      apply Hcur in Hxw as (_ & _ & Hsub).
      assert (y ∈ concat ws) as (j & w' & Hj & Hyw')%elem_of_concat_lookup by (apply Hdone; set_solver).
      exists j, w'. split_and!; [apply lookup_lt_Some in Hj; lia| |done].
      by apply lookup_app_l_Some.
  - intros i w x [Hi|[Hi Hw]]%lookup_app_Some Hxw.
    + destruct (Htight i w x Hi Hxw) as (w' & y & Hw' & Hy & Hyx).
      exists w', y. split_and!; [|done..]. by apply lookup_app_l_Some.
    + apply list_lookup_singleton_Some in Hw as [Hi' <-].
      apply elem_of_sorted_set, HX in Hxw as (_ & _ & f & Hf & Hfx).
      exists current, f. split_and!; [|done..].
      rewrite length_app in Hi, Hi'. cbn in *.
      rewrite lookup_app_r by lia. replace (i - length ws) with 0 by lia. done.
  - apply Forall_app. split; [done|]. repeat constructor. apply Sorted_sorted.
  - apply Forall_app. split; [done|]. by repeat constructor.
Qed.

(** Every pass through the loop settles at least one more name. *)
Lemma loop_measure done ws x current :
  loop_inv done ws (x :: current) →
  size (ns ∖ (done ∪ list_to_set (x :: current))) < size (ns ∖ done).
Proof.
  intros HI. assert (ready done x) as (Hin & Hn & _) by (apply (li_current _ _ _ HI); set_solver).
  apply subset_size. split; [set_solver|]. intros Hs.
  assert (x ∈ ns ∖ (done ∪ list_to_set (x :: current))) by (apply Hs; set_solver). set_solver.
Qed.

(** What the loop returns: the invariant with nothing left to run. *)
Lemma waves_loop_spec fuel done acc current :
  loop_inv done (wave_names <$> acc) current →
  Forall (Forall (λ n, bn !! node_name n = Some n)) acc →
  size (ns ∖ done) < fuel →
  ∃ done' waves, waves_loop fuel bn ds rs done acc current = Ok (done', waves) ∧
    loop_inv done' (wave_names <$> waves) [] ∧
    Forall (Forall (λ n, bn !! node_name n = Some n)) waves.
Proof.
  revert done acc current. induction fuel as [|fuel IH]; intros done acc current HI Hacc Hsz; [lia|].
  destruct current as [|x current]; cbn [waves_loop].
  { exists done, acc. done. }
  destruct (mapM_getitem ns bn (x :: current)) as (w & -> & Hw & Hin); [done| |].
  { intros y Hy. by apply (li_current _ _ _ HI) in Hy as [??]. }
  cbn [mbind result_bind].
  destruct (next_wave_spec (done ∪ list_to_set (x :: current)) (x :: current)) as (X & HX & _).
  { intros y Hy. by apply (li_current _ _ _ HI) in Hy as [??]. }
  rewrite HX. cbn [mbind result_bind]. apply IH.
  - rewrite fmap_app. cbn [fmap list_fmap]. rewrite Hw. by apply loop_inv_step.
  - apply Forall_app. split; [done|]. repeat constructor. by apply Forall_forall.
  - pose proof (loop_measure _ _ _ _ HI). lia.
Qed.

(** Names left out of the waves each depend on another name left out. *)
Lemma loop_inv_stuck done ws x :
  loop_inv done ws [] → x ∈ ns → x ∉ done → ∃ y, y ∈ succs ds x ∧ y ∉ done ∧ y ∈ ns.
Proof.
  intros HI Hx Hn.
  destruct (set_choose_or_empty (succs ds x ∖ done)) as [[y Hy]|He].
  - exists y. apply elem_of_difference in Hy as [Hy Hny]. split_and!; [done..|].
    by eapply adj_closed in Hy as [??].
  - assert (x ∈ []) as []%elem_of_nil. apply (li_current _ _ _ HI).
    split_and!; [done..|set_solver].
Qed.
End Loop.

(** ** The cycle search: what [find_cycle] returns

    [find_cycle] is called with the settled names of a finished Kahn loop, so
    every unsettled name has an unsettled dependency.  Under that precondition
    the search never backtracks, needs at most one push per node, and returns a
    genuine cycle of the dependency relation. *)

(** Consecutive members of [l] are related. *)
Definition chain {A} (R : A → A → Prop) (l : list A) : Prop :=
  ∀ i x y, l !! i = Some x → l !! S i = Some y → R x y.

(** A closed walk of at least one step: the first and the last member coincide. *)
Definition is_cycle {A} (R : A → A → Prop) (c : list A) : Prop :=
  (∃ x mid, c = x :: mid ++ [x]) ∧ chain R c.

Definition acyclic {A} (R : A → A → Prop) : Prop := ∀ x, ¬ tc R x x.

Section Chain.
Context {A : Type} (R : A → A → Prop).

Lemma chain_singleton x : chain R [x].
Proof. intros i a b _. destruct i; done. Qed.

Lemma chain_cons x y l : chain R (x :: y :: l) ↔ R x y ∧ chain R (y :: l).
Proof.
  split.
  - intros Hc. split; [by apply (Hc 0)|]. intros i a b Ha Hb. by apply (Hc (S i)).
  - intros [Hxy Hc] [|i] a b Ha Hb; [naive_solver|]. by apply (Hc i).
Qed.

Lemma chain_snoc l x y : chain R (l ++ [x]) → R x y → chain R (l ++ [x] ++ [y]).
Proof.
  intros Hc Hxy i a b Ha Hb. rewrite app_assoc in Ha, Hb.
  destruct (decide (S i < length (l ++ [x]))) as [Hi|Hi].
  - rewrite lookup_app_l in Ha, Hb by lia. by apply (Hc i).
  - rewrite length_app in Hi. cbn in Hi.
    apply lookup_app_Some in Hb as [Hb|[_ Hb]].
    { apply lookup_lt_Some in Hb. rewrite length_app in Hb. cbn in Hb. lia. }
    apply list_lookup_singleton_Some in Hb as [Hb <-].
    rewrite length_app in Hb. cbn in Hb.
    rewrite lookup_app_l in Ha by (rewrite length_app; cbn; lia).
    rewrite lookup_app_r in Ha by lia.
    replace (i - length l) with 0 in Ha by lia. naive_solver.
Qed.

Lemma chain_drop n l : chain R l → chain R (drop n l).
Proof. intros Hc i a b. rewrite !lookup_drop, Nat.add_succ_r. apply Hc. Qed.

Lemma chain_tc x mid y : chain R (x :: mid ++ [y]) → tc R x y.
Proof.
  revert x. induction mid as [|z mid IH]; cbn; intros x [Hxy Hc]%chain_cons.
  - by apply tc_once.
  - eapply tc_l; [done|]. by apply IH.
Qed.

Lemma is_cycle_tc c : is_cycle R c → ∃ x, x ∈ c ∧ tc R x x.
Proof. intros [(x & mid & ->) Hc]. exists x. split; [set_solver|]. by eapply chain_tc. Qed.

Lemma is_cycle_impl (S : A → A → Prop) c :
  (∀ x y, R x y → S x y) → is_cycle R c → is_cycle S c.
Proof. intros HRS [Hs Hc]. split; [done|]. intros i x y Hx Hy. by eapply HRS, Hc. Qed.
End Chain.

Section Search.
Set Default Proof Using "All".
Context (ns : gset string) (ds : adjacency) (settled : gset string).
Context (Hdom : dom ds = ns).
Context (Hstuck : ∀ x, x ∈ ns → x ∉ settled → ∃ y, y ∈ succs ds x ∧ y ∉ settled ∧ y ∈ ns).
Context (Hclosed : ∀ x y, y ∈ succs ds x → y ∈ ns).

Lemma scan_deps_spec on_path it :
  (∃ y, y ∈ it ∧ y ∉ settled) →
  match scan_deps settled ∅ on_path it with
  | Exhausted => False
  | BackEdge d => d ∈ it ∧ d ∉ settled ∧ d ∈ on_path
  | Descend d _ => d ∈ it ∧ d ∉ settled ∧ d ∉ on_path
  end.
Proof.
  induction it as [|d it IH]; intros (y & Hy & Hn); cbn [scan_deps]; [set_solver|].
  case_decide as Hd.
  - assert (d ∈ settled) by set_solver.
    assert (y ∈ it) as Hy' by set_solver. specialize (IH ltac:(eauto)).
    destruct (scan_deps settled ∅ on_path it); set_solver.
  - case_decide; set_solver.
Qed.

Lemma close_cycle_spec l top d :
  chain (needs ds) (l ++ [top]) → needs ds top d → d ∈ l ++ [top] →
  ∃ c, close_cycle (l ++ [top]) d = Ok c ∧ is_cycle (needs ds) c.
Proof.
  intros Hc Hd Hin. unfold close_cycle.
  destruct (list_find (eq d) (l ++ [top])) as [[i d']|] eqn:Hf.
  2:{ apply list_find_None in Hf. rewrite Forall_forall in Hf. by destruct (Hf d Hin). }
  apply list_find_Some in Hf as (Hi & <- & _).
  exists (drop i (l ++ [top]) ++ [d]). split; [done|].
  assert (i < length (l ++ [top])) as Hlt by (by eapply lookup_lt_Some).
  split.
  - erewrite drop_S by done. cbn. eauto.
  - rewrite length_app in Hlt. cbn in Hlt.
    assert (chain (needs ds) (drop i l ++ [top] ++ [d])) as Hch.
    { apply chain_snoc; [|done].
      rewrite <-(drop_app_le l [top] i) by lia. by apply chain_drop. }
    rewrite drop_app_le by lia. by rewrite <-app_assoc.
Qed.

Lemma dfs_loop_spec fuel l top frames on_path :
  size ns - length l < fuel →
  NoDup (l ++ [top]) → (∀ x, x ∈ l ++ [top] → x ∈ ns ∧ x ∉ settled) →
  (∀ x, x ∈ on_path ↔ x ∈ l ++ [top]) →
  chain (needs ds) (l ++ [top]) →
  ∃ c, dfs_loop fuel ds settled ∅ ((top, sorted_set (succs ds top)) :: frames) (l ++ [top]) on_path
         = Ok (inl c) ∧ is_cycle (needs ds) c.
Proof.
  revert l top frames on_path. induction fuel as [|fuel IH];
    intros l top frames on_path Hf Hnd Hin Hon Hc; [lia|].
  cbn [dfs_loop].
  destruct (Hin top) as [Htn Hts]; [set_solver|].
  destruct (Hstuck top Htn Hts) as (y & Hy & Hys & Hyn).
  pose proof (scan_deps_spec on_path (sorted_set (succs ds top))) as Hscan.
  destruct (scan_deps _ _ _ _) as [|d|d rest].
  - destruct Hscan. exists y. by rewrite elem_of_sorted_set.
  - destruct Hscan as (Hd & Hds & Hdo); [exists y; by rewrite elem_of_sorted_set|].
    destruct (close_cycle_spec l top d) as (c & -> & Hcy); [done| |by apply Hon|].
    { by rewrite elem_of_sorted_set in Hd. }
    by exists c.
  - destruct Hscan as (Hd & Hds & Hdo); [exists y; by rewrite elem_of_sorted_set|].
    rewrite elem_of_sorted_set in Hd.
    rewrite getitem_succs by (rewrite Hdom; by eapply Hclosed). cbn [mbind result_bind].
    assert (length (l ++ [top]) ≤ size ns) as Hle.
    { rewrite <-(size_list_to_set (C:=gset string)) by done. apply subseteq_size.
      intros x Hx%elem_of_list_to_set. by apply Hin. }
    rewrite length_app in Hle. cbn in Hle. apply IH.
    + rewrite length_app. cbn. lia.
    + apply NoDup_app. split_and!; [done| |apply NoDup_singleton].
      intros x Hx ->%list_elem_of_singleton. by apply Hdo, Hon.
    + intros x [?|Hx]%elem_of_app; [by apply Hin|]. apply list_elem_of_singleton in Hx as ->.
      split; [by eapply Hclosed|done].
    + intros x. rewrite elem_of_union, elem_of_singleton, Hon, (elem_of_app (l ++ [top])),
        list_elem_of_singleton. tauto.
    + rewrite <-app_assoc. by apply chain_snoc.
Qed.

Lemma find_cycle_from_spec roots :
  (∀ x, x ∈ roots → x ∈ ns) → (∃ x, x ∈ roots ∧ x ∉ settled) →
  ∃ c, find_cycle_from ds settled ∅ roots = Ok c ∧ is_cycle (needs ds) c.
Proof.
  induction roots as [|root roots IH]; intros Hns (x & Hx & Hxs); cbn [find_cycle_from]; [set_solver|].
  case_decide as Hroot.
  - apply IH; [set_solver|]. exists x. split; [|done]. set_solver.
  - rewrite getitem_succs by (rewrite Hdom; set_solver). cbn [mbind result_bind].
    destruct (dfs_loop_spec (dfs_fuel ds) [] root [] {[root]}) as (c & Hd & Hc); cbn.
    + unfold dfs_fuel. rewrite <-Hdom, size_dom. lia.
    + apply NoDup_singleton.
    + intros y ->%list_elem_of_singleton. set_solver.
    + set_solver.
    + apply chain_singleton.
    + cbn in Hd. rewrite Hd. cbn. by exists c.
Qed.
End Search.
