(* ===== verification/GraphSpec.v ===== *)
(** * Correctness of [BuildGraph] construction

    When construction succeeds, what the waves are, and what every failure
    means; all stated on the declared nodes and edges. *)

From S2P Require Import Prelude Exceptions BuildGraph Kahn.
From stdpp Require Import options.

(** ** The abstract graph: names and the declared dependency relation *)

Definition edge_rel (edges : list Edge) (x y : string) : Prop :=
  ∃ e, e ∈ edges ∧ dependent e = x ∧ dependency e = y.

Definition content_edges (edges : list Edge) : list Edge :=
  filter (λ e, affects_cache_key e = true) edges.

Definition edge_ok (ns : gset string) (e : Edge) : Prop :=
  dependent e ≠ dependency e ∧ dependent e ∈ ns ∧ dependency e ∈ ns.

(** What a well-formed declaration is. *)
Record graph_decl_ok `{Node V} (name : string) (nodes : list V) (edges : list Edge) : Prop := {
  gd_name : name ≠ "";
  gd_nodup : NoDup (node_name <$> nodes);
  gd_edges : ∀ e, e ∈ edges → edge_ok (list_to_set (node_name <$> nodes)) e;
  gd_acyclic : acyclic (edge_rel edges);
}.

(** ** The adjacency loops *)

Definition adj_of (ns : gset string) (edges : list Edge) (a : adjacency * adjacency) : Prop :=
  dom a.1 = ns ∧ dom a.2 = ns ∧
  (∀ x y, y ∈ succs a.1 x ↔ edge_rel edges x y) ∧
  (∀ x y, x ∈ succs a.2 y ↔ edge_rel edges x y).

Lemma adj_of_wf ns edges a : adj_of ns edges a → adj_wf ns a.1 a.2.
Proof. intros (?&?&H1&H2). split; [done..|]. intros x y. by rewrite H1, H2. Qed.

Lemma adj_of_empty `{Node V} (bn : gmap string V) :
  adj_of (dom bn) [] (empty_adjacency bn, empty_adjacency bn).
Proof.
  unfold empty_adjacency.
  assert (∀ x, succs ((λ _ : V, (∅ : gset string)) <$> bn) x = ∅) as Hs.
  { intros x. unfold succs. rewrite lookup_fmap. by destruct (bn !! x). }
  split_and!; cbn; [by rewrite dom_fmap_L..| |]; intros x y; rewrite Hs;
    (split; [set_solver|intros (e & He & _); set_solver]).
Qed.

Lemma adj_add_Ok (m : adjacency) k x :
  k ∈ dom m → ∃ m', adj_add m k x = Ok m' ∧ dom m' = dom m ∧
    ∀ a y, y ∈ succs m' a ↔ (a = k ∧ y = x) ∨ y ∈ succs m a.
Proof.
  intros Hk. unfold adj_add. rewrite getitem_succs by done. cbn. eexists. split; [done|].
  split; [rewrite dom_insert_L; set_solver|].
  intros a y. unfold succs at 1. rewrite lookup_insert.
  case_decide as Heq; cbn; [subst a; set_solver|]. fold (succs m a). naive_solver.
Qed.

Lemma edge_rel_snoc edges e x y :
  edge_rel (edges ++ [e]) x y ↔ (x = dependent e ∧ y = dependency e) ∨ edge_rel edges x y.
Proof.
  unfold edge_rel. split.
  - intros (e' & [Hin|Hin]%elem_of_app & <- & <-); [right; eauto|].
    apply list_elem_of_singleton in Hin as ->. by left.
  - intros [[-> ->]|(e' & ? & ? & ?)]; [exists e|exists e']; set_solver.
Qed.

(** One edge entered into both maps. *)
Lemma adj_step ns edges a e :
  adj_of ns edges a → dependent e ∈ ns → dependency e ∈ ns →
  ∃ d r, adj_add a.1 (dependent e) (dependency e) = Ok d ∧
    adj_add a.2 (dependency e) (dependent e) = Ok r ∧ adj_of ns (edges ++ [e]) (d, r).
Proof.
  intros (Hd & Hr & H1 & H2) Hx Hy.
  destruct (adj_add_Ok a.1 (dependent e) (dependency e)) as (d & -> & Hdd & Hds); [by rewrite Hd|].
  destruct (adj_add_Ok a.2 (dependency e) (dependent e)) as (r & -> & Hrd & Hrs); [by rewrite Hr|].
  exists d, r. split_and!; [done..|]. split_and!; cbn; [congruence..| |]; intros x y.
  - rewrite Hds, edge_rel_snoc, H1. done.
  - rewrite Hrs, edge_rel_snoc, H2. naive_solver.
Qed.

Lemma content_edges_snoc edges e :
  content_edges (edges ++ [e]) =
    content_edges edges ++ (if affects_cache_key e then [e] else []).
Proof.
  unfold content_edges. rewrite filter_app. f_equal.
  rewrite filter_cons, filter_nil. case_decide; by destruct (affects_cache_key e).
Qed.

Section Adjacency.
Context `{Node V} (bn : gmap string V).
Set Default Proof Using "All".

(** The outcome of the edge loop on each of its branches. *)
Lemma add_edge_cases a e edges :
  adj_of (dom bn) edges a →
  (edge_ok (dom bn) e ∧ ∃ a', add_edge bn a e = Ok a' ∧ adj_of (dom bn) (edges ++ [e]) a') ∨
  (dependent e = dependency e ∧ add_edge bn a e = raise SelfDependencyError [dependent e]) ∨
  (∃ n role, n ∉ dom bn ∧ (n = dependent e ∨ n = dependency e) ∧
     add_edge bn a e = raise DanglingDependencyError [dependent e; dependency e; n; role]).
Proof.
  intros Ha. unfold add_edge, edge_ok.
  raise_case as Hself; [right; left; by split|].
  raise_case as H1.
  { right; right. exists (dependent e), "dependent". split_and!; [|by left|done].
    by apply not_elem_of_dom. }
  raise_case as H2.
  { right; right. exists (dependency e), "dependency". split_and!; [|by right|done].
    by apply not_elem_of_dom. }
  rewrite <-not_elem_of_dom in H1, H2. apply dec_stable in H1, H2.
  left. split; [done|].
  destruct (adj_step (dom bn) edges a e) as (d & r & Hd & Hr & Hdr); [done..|].
  cbn. rewrite Hd. cbn. rewrite Hr. cbn. eauto.
Qed.

Lemma add_edges_Ok edges :
  (∀ e, e ∈ edges → edge_ok (dom bn) e) →
  ∃ a, foldM (add_edge bn) (empty_adjacency bn, empty_adjacency bn) edges = Ok a ∧
    adj_of (dom bn) edges a.
Proof.
  intros Hok. induction edges as [|e edges IH] using rev_ind.
  - eexists. split; [done|]. apply adj_of_empty.
  - destruct IH as (a & Ha & Hadj); [set_solver|].
    rewrite foldM_app, Ha. cbn.
    destruct (add_edge_cases a e edges Hadj) as [(_ & a' & -> & Ha')|[[Hs _]|(n & role & Hn & Hx & _)]].
    + cbn. eauto.
    + destruct (Hok e) as [? _]; [set_solver|]. done.
    + destruct (Hok e) as (_ & ? & ?); [set_solver|]. naive_solver.
Qed.

Lemma add_edges_inv edges a :
  foldM (add_edge bn) (empty_adjacency bn, empty_adjacency bn) edges = Ok a →
  adj_of (dom bn) edges a ∧ ∀ e, e ∈ edges → edge_ok (dom bn) e.
Proof.
  apply (foldM_inv (λ l s, adj_of (dom bn) l s ∧ ∀ e, e ∈ l → edge_ok (dom bn) e)).
  - split; [apply adj_of_empty|set_solver].
  - intros l e rest s1 s2 _ [Hs1 Hl] Hs2.
    destruct (add_edge_cases s1 e l Hs1) as [(He & a' & Ha' & Hadj')|[[_ Hr]|(n & role & _ & _ & Hr)]];
      unfold raise in *; [|congruence..].
    rewrite Ha' in Hs2. injection Hs2 as ->. split; [done|]. intros e' [?|?]%elem_of_app; [auto|].
    set_solver.
Qed.

Lemma add_edges_Raise edges x :
  foldM (add_edge bn) (empty_adjacency bn, empty_adjacency bn) edges = Raise x →
  ∃ e, e ∈ edges ∧
    ((dependent e = dependency e ∧ x = Exn SelfDependencyError [dependent e]) ∨
     (∃ n role, n ∉ dom bn ∧ (n = dependent e ∨ n = dependency e) ∧
        x = Exn DanglingDependencyError [dependent e; dependency e; n; role])).
Proof.
  intros (l1 & e & l2 & a & -> & Ha & Hr)%foldM_Raise. exists e. split; [set_solver|].
  apply add_edges_inv in Ha as [Ha _].
  destruct (add_edge_cases a e l1 Ha) as [(_ & a' & Ha' & _)|[[Hs Hs']|(n & role & Hn & Hx & Hr')]].
  - congruence.
  - rewrite Hs' in Hr. injection Hr as <-. by left.
  - rewrite Hr' in Hr. injection Hr as <-. right. eauto.
Qed.

Lemma add_content_edges_Ok edges :
  (∀ e, e ∈ edges → edge_ok (dom bn) e) →
  ∃ a, foldM add_content_edge (empty_adjacency bn, empty_adjacency bn) edges = Ok a ∧
    adj_of (dom bn) (content_edges edges) a.
Proof.
  intros Hok. induction edges as [|e edges IH] using rev_ind.
  - eexists. split; [done|]. apply adj_of_empty.
  - destruct IH as (a & Ha & Hadj); [set_solver|].
    rewrite foldM_app, Ha, content_edges_snoc. cbn. unfold add_content_edge.
    destruct (affects_cache_key e).
    + destruct (Hok e) as (_ & ? & ?); [set_solver|].
      destruct (adj_step (dom bn) (content_edges edges) a e) as (d & r & -> & Hr & Hdr); [done..|].
      cbn. rewrite Hr. cbn. eauto.
    + cbn. exists a. by rewrite app_nil_r.
Qed.
End Adjacency.

(** ** The name index *)

Section Index.
Context `{Node V}.
Implicit Types nodes : list V.
Set Default Proof Using "All".

Lemma index_nodes_Ok nodes :
  NoDup (node_name <$> nodes) →
  ∃ bn, index_nodes nodes = Ok bn ∧ names_ok (list_to_set (node_name <$> nodes)) bn ∧
    ∀ n, n ∈ nodes → bn !! node_name n = Some n.
Proof.
  unfold index_nodes. induction nodes as [|n nodes IH] using rev_ind; intros Hnd.
  - exists ∅. split_and!; [done|split; [set_solver|]|set_solver].
    intros k n. by rewrite lookup_empty.
  - rewrite fmap_app in Hnd. apply NoDup_app in Hnd as (Hnd & Hdisj & _).
    destruct (IH Hnd) as (bn & Hbn & [Hdom Hnm] & Hin). rewrite foldM_app, Hbn. cbn.
    assert (node_name n ∉ dom bn) as Hfresh.
    { rewrite Hdom, elem_of_list_to_set. intros Hx. by apply (Hdisj _ Hx), list_elem_of_singleton. }
    unfold add_node. rewrite bool_decide_false by (by rewrite <-elem_of_dom).
    cbn. eexists. split; [done|]. split; [split|].
    + rewrite dom_insert_L, Hdom, fmap_app, list_to_set_app_L. cbn. set_solver.
    + intros k m. rewrite lookup_insert_Some. naive_solver.
    + intros m [Hm|Hm]%elem_of_app.
      * rewrite lookup_insert_ne; [by apply Hin|]. intros Heq. apply Hfresh.
        rewrite Heq, Hdom. apply elem_of_list_to_set. by apply list_elem_of_fmap_2.
      * apply list_elem_of_singleton in Hm as ->. by rewrite lookup_insert_eq.
Qed.

Lemma index_nodes_dom nodes bn :
  index_nodes nodes = Ok bn →
  NoDup (node_name <$> nodes) ∧ dom bn = list_to_set (node_name <$> nodes).
Proof.
  apply (foldM_inv (λ l m, NoDup (node_name <$> l) ∧ dom m = list_to_set (node_name <$> l))).
  - split; [apply NoDup_nil_2|set_solver].
  - intros l n rest m m' _ [Hnd Hdom]. unfold add_node. raise_case as Hf; [done|].
    intros [= <-]. rewrite fmap_app. split.
    + apply NoDup_app. split_and!; [done| |apply NoDup_singleton].
      intros x Hx ->%list_elem_of_singleton. apply Hf, elem_of_dom.
      by rewrite Hdom, elem_of_list_to_set.
    + rewrite dom_insert_L, Hdom, list_to_set_app_L. cbn. set_solver.
Qed.

(** A refusal names a node declared twice. *)
Lemma index_nodes_Raise nodes x :
  index_nodes nodes = Raise x →
  ∃ l1 n l2, nodes = l1 ++ n :: l2 ∧ node_name n ∈ node_name <$> l1 ∧
    x = Exn DuplicateNodeError [node_name n].
Proof.
  intros (l1 & n & l2 & m & -> & [_ Hdom]%index_nodes_dom & Hr)%foldM_Raise.
  exists l1, n, l2. split; [done|]. revert Hr. unfold add_node.
  raise_case as Hf; [|done]. intros [= <-]. split; [|done].
  by rewrite <-elem_of_dom, Hdom, elem_of_list_to_set in Hf.
Qed.
End Index.

(** ** The waves of a relation *)

Record waves_ok (ns : gset string) (R : string → string → Prop) (ws : list (list string)) : Prop := {
  wo_nodup : NoDup (concat ws);
  wo_names : ∀ x, x ∈ concat ws ↔ x ∈ ns;
  (** every dependency is in an earlier wave *)
  wo_level : ∀ i w x y, ws !! i = Some w → x ∈ w → R x y → ∃ j w', j < i ∧ ws !! j = Some w' ∧ y ∈ w';
  (** no node waits longer than it must *)
  wo_tight : ∀ i w x, ws !! S i = Some w → x ∈ w → ∃ w' y, ws !! i = Some w' ∧ y ∈ w' ∧ R x y;
  (** within a wave, nodes are ordered by name *)
  wo_sorted : Forall (StronglySorted String.le) ws;
  wo_nonempty : Forall (.≠ []) ws;
}.

Lemma waves_ok_acyclic ns (R : string → string → Prop) ws :
  waves_ok ns R ws → (∀ x y, R x y → x ∈ ns) → acyclic R.
Proof.
  intros [Hnd Hin Hlev _ _ _] Hdom.
  assert (∀ x y, tc R x y → ∀ i w, ws !! i = Some w → x ∈ w →
    ∃ j w', j < i ∧ ws !! j = Some w' ∧ y ∈ w') as Hdec.
  { intros x y Ht. induction Ht as [x y HR|x y z HR Ht IH]; intros i w Hi Hx; [by eapply Hlev|].
    destruct (Hlev i w x y Hi Hx HR) as (j & w' & Hj & Hw' & Hy).
    destruct (IH j w' Hw' Hy) as (k & w'' & Hk & ? & ?). exists k, w''. split_and!; [lia|done..]. }
  intros x Ht.
  assert (x ∈ concat ws) as (i & w & Hi & Hx)%elem_of_concat_lookup.
  { apply Hin. inversion Ht; eauto. }
  destruct (Hdec x x Ht i w Hi Hx) as (j & w' & Hj & Hw' & Hx').
  destruct (concat_before ws j i w' w x x) as (l1 & l2 & l3 & Heq); [done..|].
  rewrite Heq in Hnd. apply NoDup_app in Hnd as (_ & _ & [Hn _]%NoDup_cons). set_solver.
Qed.

Lemma loop_inv_waves_ok ns ds rs edges done ws :
  adj_of ns edges (ds, rs) → loop_inv ns ds done ws [] → done = ns → waves_ok ns (edge_rel edges) ws.
Proof.
  intros (_ & _ & Hrel & _) [Hd Hnd _ _ _ Hlev Htight Hs Hne] ->. cbn in Hrel. split; [done| | | | |done].
  - intros x. by rewrite <-Hd.
  - intros i w x y Hi Hx. rewrite <-Hrel. intros Hy; by eapply Hlev.
  - intros i w x Hi Hx. setoid_rewrite <-Hrel. eapply Htight; [|done].
    by apply lookup_app_l_Some.
  - by apply Forall_app in Hs as [? _].
Qed.

Section Waves.
Context `{Node V} (nodes : list V) (bn : gmap string V) (edges : list Edge).
Context (ds rs : adjacency).
Let ns : gset string := list_to_set (node_name <$> nodes).
Context (Hnd : NoDup (node_name <$> nodes)) (Hbn : names_ok ns bn).
Context (Hadj : adj_of ns edges (ds, rs)).
Set Default Proof Using "All".

Lemma size_ns : size ns = length nodes.
Proof. unfold ns. by rewrite size_list_to_set, length_fmap. Qed.

Lemma waves_loop_total :
  ∃ done ws, waves_loop (S (length nodes)) bn ds rs ∅ [] (initial_wave ds) = Ok (done, ws) ∧
    loop_inv ns ds done (wave_names <$> ws) [] ∧
    Forall (Forall (λ n, bn !! node_name n = Some n)) ws ∧
    (size done = length nodes ↔ done = ns).
Proof.
  pose proof (adj_of_wf _ _ _ Hadj) as Hwf.
  destruct (waves_loop_spec ns bn ds rs Hwf Hbn (S (length nodes)) ∅ [] (initial_wave ds))
    as (done & ws & Hl & HI & Hws).
  - by apply (kahn_loop_inv_init ns bn ds rs).
  - constructor.
  - rewrite difference_empty_L, size_ns. lia.
  - exists done, ws. split_and!; [done..|]. rewrite <-size_ns. split; [|by intros ->].
    intros Hsz. apply set_eq. intros x. split; [by apply (li_ns _ _ _ _ _ HI)|].
    destruct (decide (done ⊂ ns)) as [Hsub|Hsub]; [apply subset_size in Hsub; lia|].
    intros Hx. destruct (decide (x ∈ done)) as [|Hn]; [done|]. destruct Hsub. split.
    + intros y Hy. by apply (li_ns _ _ _ _ _ HI).
    + intros Hsup. by apply Hn, Hsup.
Qed.

(** A stuck loop exposes a cycle. *)
Lemma stuck_cycle done ws :
  loop_inv ns ds done ws [] → done ≠ ns →
  ∃ c, find_cycle nodes ds done = Ok c ∧ is_cycle (edge_rel edges) c.
Proof.
  intros HI Hne. pose proof (adj_of_wf _ _ _ Hadj) as Hwf.
  destruct (find_cycle_from_spec ns ds done (adj_dom_deps _ _ _ Hwf)) with (roots := node_name <$> nodes)
    as (c & Hc & Hcy).
  - intros x Hx Hn. by eapply (loop_inv_stuck ns bn ds rs).
  - intros x y Hy. by eapply adj_closed in Hy as [??].
  - intros x Hx. by apply elem_of_list_to_set.
  - destruct (set_choose_or_empty (ns ∖ done)) as [[x Hx]|He].
    + exists x. unfold ns in Hx. set_solver.
    + destruct Hne. apply set_eq. intros x. split; [by apply (li_ns _ _ _ _ _ HI)|set_solver].
  - exists c. split; [done|]. eapply is_cycle_impl; [|done].
    intros x y. destruct Hadj as (_ & _ & Hrel & _). apply Hrel.
Qed.

Lemma compute_waves_cases :
  (∃ ws, compute_waves nodes bn ds ds rs = Ok ws ∧ waves_ok ns (edge_rel edges) (wave_names <$> ws) ∧
     Forall (Forall (λ n, bn !! node_name n = Some n)) ws) ∨
  (∃ c, compute_waves nodes bn ds ds rs = raise GraphCycleError c ∧ is_cycle (edge_rel edges) c).
Proof.
  destruct waves_loop_total as (done & ws & Hl & HI & Hws & Hsz).
  unfold compute_waves. rewrite Hl. cbn [mbind result_bind]. case_decide as Hd.
  - left. exists ws. split_and!; [done| |done].
    eapply loop_inv_waves_ok; [done..|by apply Hsz].
  - right. destruct (stuck_cycle done _ HI) as (c & -> & Hc); [tauto|]. by exists c.
Qed.

Lemma compute_waves_acyclic self_deps :
  acyclic (edge_rel edges) →
  ∃ ws, compute_waves nodes bn self_deps ds rs = Ok ws ∧
    waves_ok ns (edge_rel edges) (wave_names <$> ws) ∧
    Forall (Forall (λ n, bn !! node_name n = Some n)) ws.
Proof.
  intros Hac. destruct waves_loop_total as (done & ws & Hl & HI & Hws & Hsz).
  destruct (decide (done = ns)) as [Heq|Hne].
  - exists ws. unfold compute_waves. rewrite Hl. cbn [mbind result_bind].
    rewrite decide_True by (by apply Hsz). split_and!; [done| |done].
    by eapply loop_inv_waves_ok.
  - destruct (stuck_cycle done _ HI Hne) as (c & _ & (x & _ & Hx)%is_cycle_tc).
    by destruct (Hac x).
Qed.
End Waves.

(** ** The constructed graph *)

Record graph_ok `{Node V} (g : BuildGraph V) (name : string) (nodes : list V) (edges : list Edge)
    : Prop := {
  go_decl : graph_decl_ok name nodes edges;
  go_nodes : bg_nodes g = nodes;
  go_edges : bg_edges g = edges;
  go_names : names_ok (list_to_set (node_name <$> nodes)) (by_name g);
  go_lookup : ∀ n, n ∈ nodes → by_name g !! node_name n = Some n;
  go_adj : adj_of (list_to_set (node_name <$> nodes)) edges (deps g, dependents g);
  go_waves : waves_ok (list_to_set (node_name <$> nodes)) (edge_rel edges) (wave_names <$> waves g);
  go_waves_nodes : Forall (Forall (λ n, by_name g !! node_name n = Some n)) (waves g);
  go_cwaves : waves_ok (list_to_set (node_name <$> nodes)) (edge_rel (content_edges edges))
                (wave_names <$> content_waves g);
  go_cwaves_nodes : Forall (Forall (λ n, by_name g !! node_name n = Some n)) (content_waves g);
}.

Lemma content_edge_rel edges x y : edge_rel (content_edges edges) x y → edge_rel edges x y.
Proof. intros (e & [_ He]%list_elem_of_filter & ? & ?). by exists e. Qed.

Lemma content_acyclic edges : acyclic (edge_rel edges) → acyclic (edge_rel (content_edges edges)).
Proof.
  intros Hac x Ht. apply (Hac x). revert Ht. generalize x at 2 4. intros y Ht.
  induction Ht; [apply tc_once|eapply tc_l]; eauto using content_edge_rel.
Qed.

(** What a failure of the constructor says about the declaration. *)
Inductive graph_error `{Node V} (name : string) (nodes : list V) (edges : list Edge) : exn → Prop :=
  | GE_name : name = "" → graph_error name nodes edges (Exn ValueError ["BuildGraph.name"])
  | GE_dup l1 n l2 : nodes = l1 ++ n :: l2 → node_name n ∈ node_name <$> l1 →
      graph_error name nodes edges (Exn DuplicateNodeError [node_name n])
  | GE_self e : e ∈ edges → dependent e = dependency e →
      graph_error name nodes edges (Exn SelfDependencyError [dependent e])
  | GE_dangling e n role : e ∈ edges → (n = dependent e ∨ n = dependency e) →
      n ∉ node_name <$> nodes →
      graph_error name nodes edges
        (Exn DanglingDependencyError [dependent e; dependency e; n; role])
  | GE_cycle c : is_cycle (edge_rel edges) c → graph_error name nodes edges (Exn GraphCycleError c).

Lemma graph_error_not_ok `{Node V} name (nodes : list V) edges e :
  graph_error name nodes edges e → ¬ graph_decl_ok name nodes edges.
Proof.
  intros Herr [Hn Hnd Hed Hac]. destruct Herr as [|l1 n l2 -> Hin|ed Hin Heq|ed n role Hin Hx Hn'|c Hc].
  - done.
  - rewrite fmap_app, NoDup_app in Hnd. destruct Hnd as (_ & Hd & _). apply (Hd _ Hin). cbn. set_solver.
  - by destruct (Hed ed Hin) as [? _].
  - destruct (Hed ed Hin) as (_ & H1%elem_of_list_to_set & H2%elem_of_list_to_set). naive_solver.
  - apply is_cycle_tc in Hc as (x & _ & Hx). by apply (Hac x).
Qed.

Lemma edges_closed ns (edges : list Edge) x y :
  (∀ e, e ∈ edges → edge_ok ns e) → edge_rel edges x y → x ∈ ns.
Proof. intros Hok (e & He & <- & _). by destruct (Hok e He) as (_ & ? & _). Qed.

(** Every run of the constructor ends in a well-formed graph or in a justified error. *)
Lemma new_build_graph_cases `{Node V} name (nodes : list V) edges :
  (∃ g, new_build_graph name nodes edges = Ok g ∧ graph_ok g name nodes edges) ∨
  (∃ e, new_build_graph name nodes edges = Raise e ∧ graph_error name nodes edges e).
Proof.
  unfold new_build_graph. raise_case as Hname; [right; eexists; split; [done|by constructor]|].
  destruct (index_nodes nodes) as [bn|e] eqn:Hi; cbn [mbind result_bind].
  2:{ right. apply index_nodes_Raise in Hi as (l1 & n & l2 & Hl & Hin & ->).
      eexists. split; [done|]. by eapply GE_dup. }
  pose proof (index_nodes_dom _ _ Hi) as [Hnd Hdom].
  destruct (index_nodes_Ok nodes Hnd) as (bn' & Hi' & Hbn & Hlk).
  rewrite Hi in Hi'. injection Hi' as <-.
  destruct (foldM (add_edge bn) (empty_adjacency bn, empty_adjacency bn) edges) as [[ds rs]|e] eqn:He;
    cbn [mbind result_bind].
  2:{ right. apply add_edges_Raise in He as (ed & Hin & [[Hs ->]|(n & role & Hn & Hx & ->)]);
      eexists; (split; [done|]); [by eapply GE_self|].
      eapply GE_dangling; [done..|]. by rewrite Hdom, elem_of_list_to_set in Hn. }
  apply add_edges_inv in He as [Hadj Hok]. rewrite Hdom in Hadj.
  destruct (compute_waves_cases nodes bn edges ds rs Hnd Hbn Hadj)
    as [(ws & -> & Hws & Hwn)|(c & -> & Hc)]; cbn [mbind result_bind].
  2:{ right. eexists. split; [done|]. by apply GE_cycle. }
  assert (acyclic (edge_rel edges)) as Hac.
  { eapply waves_ok_acyclic; [done|]. rewrite <-Hdom. intros x y. by apply edges_closed. }
  destruct (add_content_edges_Ok bn edges Hok) as ([cds crs] & -> & Hcadj). rewrite Hdom in Hcadj.
  cbn [mbind result_bind].
  destruct (compute_waves_acyclic nodes bn (content_edges edges) cds crs Hnd Hbn Hcadj ds)
    as (cws & -> & Hcws & Hcwn); [by apply content_acyclic|]. cbn.
  left. eexists. split; [done|]. rewrite Hdom in Hok. split; cbn; [by split|done..].
Qed.

Section Properties.
Context `{Node V}.
Implicit Types (g : BuildGraph V) (nodes : list V).
Set Default Proof Using "Type*".

Lemma new_build_graph_ok name nodes edges g :
  new_build_graph name nodes edges = Ok g → graph_ok g name nodes edges.
Proof.
  intros Hg. destruct (new_build_graph_cases name nodes edges) as [(g' & Hg' & Hok)|(e & He & _)];
    [|congruence]. rewrite Hg in Hg'. by injection Hg' as <-.
Qed.

(** C8: the constructor accepts a declaration exactly when the graph has a
    name, node names are unique, every edge joins two distinct declared nodes
    and the dependency relation has no cycle. *)
Theorem graph_accepts_iff name nodes edges :
  is_ok (new_build_graph name nodes edges) = true ↔ graph_decl_ok name nodes edges.
Proof.
  destruct (new_build_graph_cases name nodes edges) as [(g & -> & [])|(e & -> & He)]; cbn.
  - done.
  - split; [done|]. intros Hd. by apply graph_error_not_ok in He.
Qed.

(** Every refusal is justified by the declaration: an unnamed graph, a
    node declared twice, a self edge, an edge to an undeclared node, or a
    reported path that is a genuine cycle of the declared edges.  No other
    exception escapes (no key error, no assertion, no exhausted fuel). *)
Theorem graph_errors_justified name nodes edges e :
  new_build_graph name nodes edges = Raise e → graph_error name nodes edges e.
Proof.
  intros Hr. destruct (new_build_graph_cases name nodes edges) as [(g & Hg & _)|(e' & He' & Hj)];
    [congruence|]. rewrite Hr in He'. by injection He' as ->.
Qed.

Lemma concat_wave_names (ws : list (list V)) : concat (wave_names <$> ws) = node_name <$> concat ws.
Proof. unfold wave_names. induction ws as [|w ws IH]; cbn; [done|]. by rewrite fmap_app, IH. Qed.

(** Names determine nodes. *)
Lemma nodes_by_name nodes ws (bn : gmap string V) :
  NoDup (node_name <$> nodes) →
  (∀ n, n ∈ nodes → bn !! node_name n = Some n) →
  Forall (Forall (λ n, bn !! node_name n = Some n)) ws →
  NoDup (concat (wave_names <$> ws)) →
  (∀ x, x ∈ concat (wave_names <$> ws) ↔ x ∈ node_name <$> nodes) →
  concat ws ≡ₚ nodes.
Proof.
  intros Hnd Hlk Hws Hwnd Hin. rewrite <-Forall_concat in Hws.
  rewrite concat_wave_names in Hwnd. setoid_rewrite concat_wave_names in Hin. rewrite Forall_forall in Hws.
  apply NoDup_Permutation; [by eapply NoDup_fmap_1..|].
  intros n. split; intros Hn.
  - assert (node_name n ∈ node_name <$> nodes) as (m & Hm & Hm')%list_elem_of_fmap
      by (apply Hin, list_elem_of_fmap; eauto).
    assert (bn !! node_name n = Some m) by (rewrite Hm; auto).
    pose proof (Hws n Hn). congruence.
  - assert (node_name n ∈ node_name <$> concat ws) as (m & Hm & Hm')%list_elem_of_fmap
      by (apply Hin, list_elem_of_fmap; eauto).
    pose proof (Hws m Hm'). pose proof (Hlk n Hn). congruence.
Qed.

Lemma graph_waves_perm name nodes edges g : graph_ok g name nodes edges → concat (waves g) ≡ₚ nodes.
Proof.
  intros [[] _ _ _ Hlk _ Hw Hwn _ _]. eapply nodes_by_name; [done..|apply Hw|].
  intros x. by rewrite (wo_names _ _ _ Hw), elem_of_list_to_set.
Qed.

Lemma graph_cwaves_perm name nodes edges g :
  graph_ok g name nodes edges → concat (content_waves g) ≡ₚ nodes.
Proof.
  intros [[] _ _ _ Hlk _ _ _ Hw Hwn]. eapply nodes_by_name; [done..|apply Hw|].
  intros x. by rewrite (wo_names _ _ _ Hw), elem_of_list_to_set.
Qed.

(** The execution waves of a constructed graph partition its nodes; every
    dependency is in a strictly earlier wave, every node beyond the first
    wave has a dependency in the wave just before it (it never waits longer
    than it must), no wave is empty and each is sorted by name. *)
Theorem graph_waves_levels name nodes edges g :
  new_build_graph name nodes edges = Ok g →
  concat (waves g) ≡ₚ nodes ∧
  waves_ok (list_to_set (node_name <$> nodes)) (edge_rel edges) (wave_names <$> waves g).
Proof. intros Hg%new_build_graph_ok. split; [by eapply graph_waves_perm|by eapply go_waves]. Qed.

(** The materialize schedule is the wave decomposition of the cacheable
    edges alone: a partition of the nodes into the levels of that
    sub-relation.  With ordering edges only it is a single wave, so every
    node builds concurrently. *)
Theorem graph_content_waves_levels name nodes edges g :
  new_build_graph name nodes edges = Ok g →
  concat (content_waves g) ≡ₚ nodes ∧
  waves_ok (list_to_set (node_name <$> nodes)) (edge_rel (content_edges edges))
    (wave_names <$> content_waves g) ∧
  ((∀ e, e ∈ edges → cacheability e = ORDERING) → nodes ≠ [] →
    ∃ w, content_waves g = [w] ∧ w ≡ₚ nodes).
Proof.
  intros Hg%new_build_graph_ok. pose proof (graph_cwaves_perm _ _ _ _ Hg) as Hp.
  pose proof (go_cwaves _ _ _ _ Hg) as Hw. split_and!; [done..|].
  intros Hord Hne. destruct (content_waves g) as [|w [|w2 ws]].
  - by apply Permutation_nil_l in Hp.
  - exists w. split; [done|]. rewrite <-Hp. cbn. by rewrite app_nil_r.
  - exfalso. pose proof (wo_nonempty _ _ _ Hw) as Hn. apply Forall_cons in Hn as [_ [Hn _]%Forall_cons].
    destruct w2 as [|x w2]; [done|].
    destruct (wo_tight _ _ _ Hw 0 (wave_names (x :: w2)) (node_name x))
      as (w' & y & _ & _ & e & [Ha He]%list_elem_of_filter & _); [done|left|].
    unfold affects_cache_key in Ha. by rewrite (Hord e He) in Ha.
Qed.

(** In the topological order every node comes after everything it depends
    on, and in the teardown order before it. *)
Theorem graph_topological_order name nodes edges g e :
  new_build_graph name nodes edges = Ok g → e ∈ edges →
  (∃ l1 l2 l3, node_name <$> topological_order g =
     l1 ++ dependency e :: l2 ++ dependent e :: l3) ∧
  (∃ l1 l2 l3, node_name <$> reverse_topological_order g =
     l1 ++ dependent e :: l2 ++ dependency e :: l3).
Proof.
  intros Hg%new_build_graph_ok He. pose proof (go_waves _ _ _ _ Hg) as Hw.
  assert (dependent e ∈ concat (wave_names <$> waves g)) as (i & w & Hi & Hx)%elem_of_concat_lookup.
  { apply (wo_names _ _ _ Hw). by apply (gd_edges _ _ _ (go_decl _ _ _ _ Hg) e He). }
  destruct (wo_level _ _ _ Hw i w (dependent e) (dependency e)) as (j & w' & Hj & Hw' & Hy);
    [done..|by exists e|].
  destruct (concat_before (wave_names <$> waves g) j i w' w (dependent e) (dependency e)) as (l1 & l2 & l3 & Heq); [done..|].
  rewrite concat_wave_names in Heq. split; [by exists l1, l2, l3|].
  unfold reverse_topological_order. rewrite fmap_reverse. unfold topological_order. rewrite Heq.
  exists (reverse l3), (reverse l2), (reverse l1).
  rewrite reverse_app, reverse_cons, reverse_app, reverse_cons, <-!app_assoc. done.
Qed.
End Properties.

(** ** Concrete graphs *)

Module GraphDemo.
(** Nodes that are just names. *)
#[local] Instance name_node : Node string := {| node_name := id; node_kind := λ _, "vm" |}.

Definition nodes : list string := ["vm:web"; "vm:db"; "pool:p1"; "network:sw"].
Definition edge (a b : string) : Edge := MkEdge a b KIND_ORDERING ORDERING.
Definition edges : list Edge :=
  [edge "vm:web" "pool:p1"; edge "vm:web" "network:sw"; edge "vm:db" "pool:p1";
   edge "vm:web" "vm:db"].
Definition bake : Edge := MkEdge "vm:web" "vm:db" KIND_ORDERING BAKE.
Definition cyclic : list Edge :=
  [edge "vm:web" "vm:db"; edge "vm:db" "network:sw"; edge "network:sw" "vm:db"].

Definition waves_of (r : res (BuildGraph string)) : res (list (list string)) := waves <$> r.

Example demo_waves : waves_of (new_build_graph "p" nodes edges) =
  Ok [["network:sw"; "pool:p1"]; ["vm:db"]; ["vm:web"]].
Proof. vm_compute. reflexivity. Qed.

Example demo_content_waves : content_waves <$> new_build_graph "p" nodes (bake :: edges) =
  Ok [["network:sw"; "pool:p1"; "vm:db"]; ["vm:web"]].
Proof. vm_compute. reflexivity. Qed.

Example demo_cycle : waves_of (new_build_graph "p" nodes cyclic) =
  raise GraphCycleError ["vm:db"; "network:sw"; "vm:db"].
Proof. vm_compute. reflexivity. Qed.

Example demo_duplicate : waves_of (new_build_graph "p" ["a"; "b"; "a"] []) =
  raise DuplicateNodeError ["a"].
Proof. vm_compute. reflexivity. Qed.

Definition demo_graph : BuildGraph string :=
  match new_build_graph "p" nodes (bake :: edges) with
  | Ok g => g
  | Raise _ => MkBuildGraph "" [] [] ∅ ∅ ∅ [] []
  end.

Lemma demo_graph_built : new_build_graph "p" nodes (bake :: edges) = Ok demo_graph.
Proof. vm_compute. reflexivity. Qed.

Lemma graph_errors_justified_witness :
  graph_error "p" nodes cyclic (Exn GraphCycleError ["vm:db"; "network:sw"; "vm:db"]).
Proof. apply graph_errors_justified. vm_compute. reflexivity. Defined.

Lemma graph_waves_levels_witness :
  concat (waves demo_graph) ≡ₚ nodes ∧
  waves_ok (list_to_set (node_name <$> nodes)) (edge_rel (bake :: edges))
    (wave_names <$> waves demo_graph).
Proof. apply (graph_waves_levels "p" nodes (bake :: edges)), demo_graph_built. Defined.

Lemma graph_content_waves_levels_witness :
  concat (content_waves demo_graph) ≡ₚ nodes ∧
  waves_ok (list_to_set (node_name <$> nodes)) (edge_rel (content_edges (bake :: edges)))
    (wave_names <$> content_waves demo_graph) ∧
  ((∀ e, e ∈ bake :: edges → cacheability e = ORDERING) → nodes ≠ [] →
    ∃ w, content_waves demo_graph = [w] ∧ w ≡ₚ nodes).
Proof. apply (graph_content_waves_levels "p" nodes (bake :: edges)), demo_graph_built. Defined.

Lemma graph_topological_order_witness :
  (∃ l1 l2 l3, node_name <$> topological_order demo_graph =
     l1 ++ "vm:db" :: l2 ++ "vm:web" :: l3) ∧
  (∃ l1 l2 l3, node_name <$> reverse_topological_order demo_graph =
     l1 ++ "vm:web" :: l2 ++ "vm:db" :: l3).
Proof.
  apply (graph_topological_order "p" nodes (bake :: edges) demo_graph bake); [apply demo_graph_built|left].
Defined.
End GraphDemo.
