(* ===== verification/CliGraph.v ===== *)
(** * Rendering a build graph ([_graph] and its helpers in [cli.py])

    [testrange graph] prints the dependency tree of a plan: the nodes nothing depends on,
    with their dependencies beneath them, a node with dependencies expanded where it is
    first reached and referred to afterwards.  [graph_tree_exact] says that the tree shows
    every edge exactly once. *)

From S2P Require Import Prelude Exceptions BuildGraph Kahn GraphSpec.
From stdpp Require Import options.

(** A line of the tree: the node, the texts of its label, whether it refers to a tree
    above, and what hangs beneath it. *)
Inductive tree : Type := Branch (name : string) (label : list string) (shown_above : bool) (kids : list tree).

Definition root (t : tree) : string := match t with Branch x _ _ _ => x end.

Section Render.
Context `{Node V}.
Implicit Types (g : BuildGraph V) (keys : gmap string string) (misses : gset string).

Definition node_label (nd : V) keys misses (show_cache : bool) : list string :=
  node_name nd :: (if show_cache then
    ("  " +:+ default "-" (keys !! node_name nd)) ::
    (if decide (node_kind nd = "vm") then [if decide (node_name nd ∈ misses) then "  MISS (would build)" else "  hit (would clone)"] else [])
  else []).

Fixpoint add_dep_node (fuel : nat) g keys misses (show_cache : bool) (nd : V) (expanded : gset string) : res (tree * gset string) :=
  match fuel with
  | 0 => raise OutOfFuel []
  | S fuel =>
      ds ← dependencies_of g (node_name nd);
      let label := node_label nd keys misses show_cache in
      if decide (ds ≠ [] ∧ node_name nd ∈ expanded) then mret (Branch (node_name nd) label true [], expanded)
      else
        '(kids, expanded) ← foldM (λ '(kids, expanded) d,
            '(t, expanded) ← add_dep_node fuel g keys misses show_cache d expanded; mret (kids ++ [t], expanded))
          ([], {[node_name nd]} ∪ expanded) ds;
        mret (Branch (node_name nd) label false kids, expanded)
  end.

(** A node whose [dependents_of] is empty. *)
Definition is_sink g (nd : V) : res bool := ds ← dependents_of g (node_name nd); mret (bool_decide (ds = [])).
Fixpoint sinks_of g (ns : list V) : res (list V) :=
  match ns with
  | [] => mret []
  | n :: ns => s ← is_sink g n; rest ← sinks_of g ns; mret (if s : bool then n :: rest else rest)
  end.

(** [sorted(..., key=lambda n: n.name)], of nodes with different names *)
Definition by_names (ns : list V) : list V :=
  omap (λ x, head (filter (λ n, node_name n = x) ns)) (sorted (node_name <$> ns)).

Definition graph_tree g keys misses (show_cache : bool) : res (list tree) :=
  sinks ← sinks_of g (bg_nodes g);
  '(forest, _) ← foldM (λ '(forest, expanded) nd,
      '(t, expanded) ← add_dep_node (S (length (waves g))) g keys misses show_cache nd expanded; mret (forest ++ [t], expanded))
    ([], ∅) (by_names sinks);
  mret forest.

(** *** Graphviz *)

Definition shape_of (kind : string) : string :=
  if decide (kind = "pool") then "cylinder" else if decide (kind = "network") then "diamond"
  else if decide (kind = "sidecar") then "component" else if decide (kind = "vm") then "box" else "ellipse".
Definition QUOTE : string := String (ascii_of_nat 34) "".
Definition quoted (s : string) : string := QUOTE +:+ s +:+ QUOTE.

(** [sorted(g.edges, key=lambda e: (e.dependent, e.dependency))]: stable *)
Definition edge_le (e1 e2 : Edge) : bool :=
  if decide (dependent e1 = dependent e2) then bool_decide (String.le (dependency e1) (dependency e2)) else bool_decide (String.le (dependent e1) (dependent e2)).
Fixpoint insert_edge (e : Edge) (l : list Edge) : list Edge :=
  match l with [] => [e] | x :: l => if edge_le x e then x :: insert_edge e l else e :: x :: l end.
Definition sort_edges (l : list Edge) : list Edge := foldl (λ acc e, insert_edge e acc) [] l.

Definition render_dot g : list string :=
  ("digraph " +:+ quoted (bg_name g) +:+ " {") :: "  rankdir=BT;  // dependencies below their dependents" ::
  ((λ n, "  " +:+ quoted (node_name n) +:+ " [shape=" +:+ shape_of (node_kind n) +:+ "];") <$> topological_order g) ++
  ((λ e, "  " +:+ quoted (dependent e) +:+ " -> " +:+ quoted (dependency e) +:+ ";") <$> sort_edges (bg_edges g)) ++ ["}"].
End Render.

(** ** What a tree shows *)

Fixpoint tree_edges (t : tree) : list (string * string) :=
  match t with Branch x _ _ kids => ((λ k, (x, root k)) <$> kids) ++ concat (tree_edges <$> kids) end.
Fixpoint tree_lines (t : tree) : nat := match t with Branch _ _ _ kids => S (sum_list (tree_lines <$> kids)) end.

Lemma tree_lines_edges t : tree_lines t = S (length (tree_edges t)).
Proof.
  revert t. fix IH 1. intros [x l a kids]. cbn [tree_lines tree_edges]. f_equal. rewrite length_app, length_fmap.
  induction kids as [|k kids IHk]; [done|]. cbn. rewrite (IH k), IHk, length_app. lia.
Qed.

Lemma NoDup_fmap_elem {A B} (f : A → B) l x y : NoDup (f <$> l) → x ∈ l → y ∈ l → f x = f y → x = y.
Proof.
  intros Hnd [i Hi]%list_elem_of_lookup [j Hj]%list_elem_of_lookup Hf.
  assert (i = j) as ->; [|congruence]. eapply NoDup_lookup; [exact Hnd|rewrite list_lookup_fmap, Hi; done|rewrite list_lookup_fmap, Hj; cbn; by rewrite Hf].
Qed.
Lemma concat_index {A} (ls : list (list A)) i j v w x : NoDup (concat ls) → ls !! i = Some v → ls !! j = Some w → x ∈ v → x ∈ w → i = j.
Proof.
  intros Hnd Hi Hj Hv Hw. destruct (Nat.lt_trichotomy i j) as [Hlt|[?|Hlt]]; [|done|]; exfalso.
  - destruct (concat_before ls i j v w x x) as (l1 & l2 & l3 & Heq); [done..|]. rewrite Heq in Hnd.
    apply NoDup_app in Hnd as (_ & _ & [Hn _]%NoDup_cons). apply Hn, elem_of_app. right. by left.
  - destruct (concat_before ls j i w v x x) as (l1 & l2 & l3 & Heq); [done..|]. rewrite Heq in Hnd.
    apply NoDup_app in Hnd as (_ & _ & [Hn _]%NoDup_cons). apply Hn, elem_of_app. right. by left.
Qed.

Section Exact.
Context `{Node V}.
Context (g : BuildGraph V) (name : string) (nodes : list V) (edges : list Edge).
Hypothesis Hg : graph_ok g name nodes edges.
Set Default Proof Using "Type".

(** The dependencies of a name, in the order they are shown. *)
Definition shown_deps (x : string) : list string := sorted_set (succs (deps g) x).
(** The edges that leave a list of nodes. *)
Definition outs (l : list string) : list (string * string) := concat ((λ x, pair x <$> shown_deps x) <$> l).

Lemma lookup_names (ns : list string) :
  (∀ x, x ∈ ns → x ∈ node_name <$> nodes) → ∃ ds, mapM (getitem (by_name g)) ns = Ok ds ∧ node_name <$> ds = ns ∧ ∀ d, d ∈ ds → d ∈ nodes.
Proof using Hg.
  induction ns as [|x ns IH]; intros Hns; [by exists []; split_and!; [..|by intros d []%not_elem_of_nil]|].
  destruct IH as (ds & Hm & Hn & Hd); [intros y Hy; apply Hns; by right|].
  destruct (proj1 (list_elem_of_fmap _ _ _) (Hns x ltac:(by left))) as (n & -> & Hin).
  exists (n :: ds). cbn. unfold getitem. rewrite (go_lookup _ _ _ _ Hg n Hin). cbn. unfold getitem in Hm. rewrite Hm. cbn. rewrite Hn.
  split_and!; [done..|]. intros d [->|?]%elem_of_cons; auto.
Qed.

Lemma dependencies_shown x :
  x ∈ node_name <$> nodes → ∃ ds, dependencies_of g x = Ok ds ∧ node_name <$> ds = shown_deps x ∧ ∀ d, d ∈ ds → d ∈ nodes.
Proof using Hg.
  intros Hx. destruct (go_adj _ _ _ _ Hg) as (Hd & _ & Hs & _). unfold dependencies_of, getitem. cbn [fst snd] in *.
  assert (is_Some (deps g !! x)) as [d Hdx] by (apply elem_of_dom; rewrite Hd; by apply elem_of_list_to_set).
  rewrite Hdx. cbn [mbind result_bind]. unfold shown_deps, succs. rewrite Hdx. cbn.
  apply lookup_names. intros y Hy%elem_of_sorted_set.
  assert (edge_rel edges x y) as (e & He & <- & <-) by (apply Hs; unfold succs; by rewrite Hdx).
  apply (gd_edges _ _ _ (go_decl _ _ _ _ Hg)) in He as (_ & _ & Hy2). by apply elem_of_list_to_set in Hy2.
Qed.

Lemma shown_deps_edge x y : y ∈ shown_deps x ↔ edge_rel edges x y.
Proof using Hg. unfold shown_deps. rewrite elem_of_sorted_set. by apply (go_adj _ _ _ _ Hg). Qed.

(** The level of a name falls along every edge. *)
Definition level_below (x : string) (n : nat) : Prop := ∃ i w, i < n ∧ (wave_names <$> waves g) !! i = Some w ∧ x ∈ w.

Lemma level_dep x y n : level_below x (S n) → edge_rel edges x y → level_below y n.
Proof using Hg.
  intros (i & w & Hi & Hw & Hx) Hxy. destruct (wo_level _ _ _ (go_waves _ _ _ _ Hg) i w x y Hw Hx Hxy) as (j & w' & Hj & Hw' & Hy).
  exists j, w'. split; [lia|done].
Qed.
Lemma level_all x : x ∈ node_name <$> nodes → level_below x (length (waves g)).
Proof using Hg.
  intros Hx. assert (x ∈ concat (wave_names <$> waves g)) as (i & w & Hi & Hw)%elem_of_concat_lookup.
  { apply (wo_names _ _ _ (go_waves _ _ _ _ Hg)). by apply elem_of_list_to_set. }
  exists i, w. split; [|done]. apply lookup_lt_Some in Hi. by rewrite length_fmap in Hi.
Qed.

(** From [X] expanded to [X']: what is new is closed, and its edges are shown. *)
Record grown (X X' : gset string) (shown : list (string * string)) : Prop := {
  gw_sub : X ⊆ X';
  gw_names : ∀ x, x ∈ X' → x ∉ X → x ∈ node_name <$> nodes;
  gw_closed : ∀ x y, x ∈ X' → x ∉ X → y ∈ shown_deps x → y ∈ X';
  gw_shown : shown ≡ₚ outs (elements (X' ∖ X));
}.
Lemma grown_refl X : grown X X [].
Proof. split; [done|done|done|]. by rewrite difference_diag_L, elements_empty. Qed.
Lemma outs_union (X Y : gset string) : X ## Y → outs (elements (X ∪ Y)) ≡ₚ outs (elements X) ++ outs (elements Y).
Proof. intros Hd. unfold outs. rewrite elements_disj_union by done. by rewrite fmap_app, concat_app. Qed.
Lemma grown_trans X1 X2 X3 s1 s2 : grown X1 X2 s1 → grown X2 X3 s2 → grown X1 X3 (s1 ++ s2).
Proof.
  clear Hg. intros [A1 A2 A3 A4] [B1 B2 B3 B4]. split; [set_solver| | |].
  - intros x Hx Hn. destruct (decide (x ∈ X2)); auto.
  - intros x y Hx Hn Hy. destruct (decide (x ∈ X2)); [apply B1|]; eauto.
  - rewrite A4, B4, <-outs_union by set_solver. by replace (X3 ∖ X1) with ((X2 ∖ X1) ∪ (X3 ∖ X2)) by (apply set_eq; intros x; destruct (decide (x ∈ X2)); set_solver).
Qed.

(** The loop over the dependencies of a node, or over the sinks. *)
Lemma trees_grow (f : V → gset string → res (tree * gset string)) ds X kids0 :
  (∀ d X, d ∈ ds → ∃ t X', f d X = Ok (t, X') ∧ root t = node_name d ∧ node_name d ∈ X' ∧ grown X X' (tree_edges t)) →
  ∃ kids X', foldM (λ '(kids, X) d, '(t, X) ← f d X; mret (kids ++ [t], X)) (kids0, X) ds = Ok (kids0 ++ kids, X') ∧
    root <$> kids = node_name <$> ds ∧ (∀ d, d ∈ ds → node_name d ∈ X') ∧ grown X X' (concat (tree_edges <$> kids)).
Proof.
  clear Hg. revert X kids0. induction ds as [|d ds IH]; intros X kids0 Hf; cbn [foldM].
  { exists [], X. rewrite app_nil_r. split_and!; [done..|by intros d []%not_elem_of_nil|apply grown_refl]. }
  destruct (Hf d X ltac:(by left)) as (t & X1 & -> & Hr & Hin & Hgr). cbn [mbind result_bind mret result_ret].
  destruct (IH X1 (kids0 ++ [t])) as (kids & X2 & -> & Hrs & Hall & Hgr2); [intros d' X' Hd'; apply Hf; by right|].
  exists (t :: kids), X2. rewrite <-app_assoc. split_and!; [done|cbn; by rewrite Hr, Hrs| |cbn; by eapply grown_trans].
  intros d' [->|Hd']%elem_of_cons; [by apply (gw_sub _ _ _ Hgr2)|auto].
Qed.

Lemma add_dep_node_grows keys misses show fuel nd X :
  nd ∈ nodes → level_below (node_name nd) fuel →
  ∃ t X', add_dep_node fuel g keys misses show nd X = Ok (t, X') ∧ root t = node_name nd ∧ node_name nd ∈ X' ∧ grown X X' (tree_edges t).
Proof using Hg.
  revert nd X. induction fuel as [|fuel IH]; intros nd X Hnd Hlev; [destruct Hlev as (i & w & Hi & _); lia|].
  assert (node_name nd ∈ node_name <$> nodes) as Hname by (apply list_elem_of_fmap; eauto).
  destruct (dependencies_shown _ Hname) as (ds & Hds & Hn & Hin). cbn [add_dep_node]. rewrite Hds. cbn [mbind result_bind].
  case_decide as Hex.
  { exists (Branch (node_name nd) (node_label nd keys misses show) true []), X. split_and!; [done..|apply Hex|apply grown_refl]. }
  destruct (trees_grow (add_dep_node fuel g keys misses show) ds ({[node_name nd]} ∪ X) []) as (kids & X' & Hk & Hrs & Hall & Hgr).
  { intros d Y Hd. apply IH; [auto|]. eapply level_dep; [exact Hlev|]. apply shown_deps_edge. rewrite <-Hn. apply list_elem_of_fmap. eauto. }
  cbn [app] in Hk. rewrite Hk. cbn [mbind result_bind mret result_ret].
  exists (Branch (node_name nd) (node_label nd keys misses show) false kids), X'.
  assert (node_name nd ∈ X') as Hx' by (apply (gw_sub _ _ _ Hgr); set_solver). split_and!; [done..|].
  destruct Hgr as [G1 G2 G3 G4]. assert ((λ k, (node_name nd, root k)) <$> kids = pair (node_name nd) <$> shown_deps (node_name nd)) as Hpair.
  { rewrite <-Hn, <-Hrs, <-list_fmap_compose. done. }
  split; cbn [tree_edges]; [set_solver| | |].
  - intros x Hx Hnx. destruct (decide (x = node_name nd)) as [->|Hne]; [done|]. apply G2; set_solver.
  - intros x y Hx Hnx Hy. destruct (decide (x = node_name nd)) as [->|Hne]; [|eapply G3; set_solver].
    rewrite <-Hn in Hy. apply list_elem_of_fmap in Hy as (d & -> & Hd). auto.
  - rewrite Hpair, G4. destruct (decide (node_name nd ∈ X)) as [Hx|Hx].
    + assert (ds = []) as -> by (destruct ds; [done|]; exfalso; by apply Hex). rewrite <-Hn. cbn.
      by replace ({[node_name nd]} ∪ X) with X by set_solver.
    + replace (X' ∖ X) with ({[node_name nd]} ∪ X' ∖ ({[node_name nd]} ∪ X)) by (apply set_eq; intros x; destruct (decide (x = node_name nd)); set_solver).
      rewrite outs_union by set_solver. rewrite elements_singleton. unfold outs at 2. cbn. by rewrite app_nil_r.
Qed.

Lemma is_sink_iff nd : nd ∈ nodes → ∃ s, is_sink g nd = Ok s ∧ (s = true ↔ ∀ y, ¬ edge_rel edges y (node_name nd)).
Proof using Hg.
  intros Hnd. destruct (go_adj _ _ _ _ Hg) as (_ & Hd & _ & Hs). cbn [fst snd] in *. unfold is_sink, dependents_of, getitem.
  assert (is_Some (dependents g !! node_name nd)) as [d Hdx] by (apply elem_of_dom; rewrite Hd; apply elem_of_list_to_set, list_elem_of_fmap; eauto).
  assert (∀ y, y ∈ d ↔ edge_rel edges y (node_name nd)) as Hy by (intros y; rewrite <-Hs; unfold succs; by rewrite Hdx).
  rewrite Hdx. cbn [mbind result_bind]. destruct (lookup_names (sorted_set d)) as (ds & Hm & Hn & _).
  { intros y (e & He & <- & _)%elem_of_sorted_set%Hy. apply (gd_edges _ _ _ (go_decl _ _ _ _ Hg)) in He as (_ & He & _). by apply elem_of_list_to_set in He. }
  unfold getitem in Hm. rewrite Hm. cbn. eexists. split; [done|]. rewrite bool_decide_eq_true. split.
  - intros -> y. rewrite <-Hy. cbn in Hn. rewrite <-elem_of_sorted_set, <-Hn. apply not_elem_of_nil.
  - intros Hno. destruct ds as [|d0 ds]; [done|]. exfalso. apply (Hno (node_name d0)), Hy, elem_of_sorted_set. rewrite <-Hn. by left.
Qed.

Definition sink (nd : V) : Prop := ∀ y, ¬ edge_rel edges y (node_name nd).

Lemma sinks_of_spec ns :
  (∀ n, n ∈ ns → n ∈ nodes) → NoDup (node_name <$> ns) →
  ∃ l, sinks_of g ns = Ok l ∧ (∀ n, n ∈ l ↔ n ∈ ns ∧ sink n) ∧ NoDup (node_name <$> l).
Proof using Hg.
  induction ns as [|n ns IH]; intros Hin Hnd; [exists []; split_and!; [done|set_solver|constructor]|].
  apply NoDup_cons in Hnd as [Hn Hnd]. destruct IH as (l & Hl & Hiff & Hld); [intros; apply Hin; by right|done|].
  destruct (is_sink_iff n (Hin n ltac:(by left))) as (s & Hs & Hsi). cbn [sinks_of]. rewrite Hs, Hl. cbn. fold (sink n) in Hsi.
  destruct s; eexists; (split; [done|]).
  - split.
    + intros m. rewrite !elem_of_cons, Hiff. naive_solver.
    + cbn. constructor; [|done]. intros (m & Hm & [Hm' _]%Hiff)%list_elem_of_fmap. apply Hn. apply list_elem_of_fmap. eauto.
  - split; [|done]. intros m. rewrite elem_of_cons, Hiff. assert (¬ sink n) by (intros ?%Hsi; done). naive_solver.
Qed.

Lemma by_names_perm (ns : list V) : NoDup (node_name <$> ns) → by_names ns ≡ₚ ns ∧ node_name <$> by_names ns = sorted (node_name <$> ns).
Proof using Type.
  intros Hnd. assert (∀ xs : list string, (∀ x, x ∈ xs → x ∈ node_name <$> ns) → node_name <$> omap (λ x, head (filter (λ n, node_name n = x) ns)) xs = xs ∧
    ∀ n, n ∈ omap (λ x, head (filter (λ n, node_name n = x) ns)) xs → n ∈ ns) as Hxs.
  { induction xs as [|x xs IH]; intros Hx; [split; [done|by intros n []%not_elem_of_nil]|]. destruct IH as [IH1 IH2]; [intros; apply Hx; by right|].
    destruct (proj1 (list_elem_of_fmap _ _ _) (Hx x ltac:(by left))) as (n & -> & Hn). cbn.
    destruct (filter (λ n0, node_name n0 = node_name n) ns) as [|m ms] eqn:Hf.
    { assert (n ∈ filter (λ n0, node_name n0 = node_name n) ns) as Hn' by (by apply list_elem_of_filter). rewrite Hf in Hn'. by apply not_elem_of_nil in Hn'. }
    assert (m ∈ filter (λ n0, node_name n0 = node_name n) ns) as [Hm1 Hm2]%list_elem_of_filter by (rewrite Hf; by left).
    cbn. rewrite Hm1, IH1. split; [done|]. intros k [->|?]%elem_of_cons; auto. }
  destruct (Hxs (sorted (node_name <$> ns))) as [H1 H2]; [intros x; by rewrite elem_of_sorted|]. fold (by_names ns) in H1, H2. split; [|done].
  assert (NoDup (node_name <$> by_names ns)) as Hnd' by (rewrite H1; by apply NoDup_sorted).
  apply NoDup_Permutation; [by eapply NoDup_fmap_1..|]. intros n. split; [by apply H2|]. intros Hn.
  assert (node_name n ∈ node_name <$> by_names ns) as (m & Hm & Hm')%list_elem_of_fmap by (rewrite H1; apply elem_of_sorted, list_elem_of_fmap; eauto).
  by rewrite (NoDup_fmap_elem _ _ _ _ Hnd Hn (H2 m Hm') Hm).
Qed.

Lemma outs_edges l :
  (∀ x, x ∈ l ↔ x ∈ node_name <$> nodes) → NoDup l → remove_dups ((λ e, (dependent e, dependency e)) <$> edges) ≡ₚ outs l.
Proof using Hg.
  intros Hl Hnd. apply NoDup_Permutation; [apply NoDup_remove_dups| |].
  - unfold outs. clear Hl. induction Hnd as [|x l Hx _ IH]; cbn; [constructor|]. apply NoDup_app. split_and!; [| |done].
    + apply (NoDup_fmap_2 _). unfold shown_deps, sorted_set. apply NoDup_sorted, NoDup_elements.
    + intros [a c] (y & [= -> ->] & _)%list_elem_of_fmap (l' & Hl' & Hin)%elem_of_concat. apply list_elem_of_fmap in Hl' as (z & -> & Hz).
      apply list_elem_of_fmap in Hin as (y' & [= -> ->] & _). done.
  - intros [a c]. rewrite elem_of_remove_dups. unfold outs. rewrite elem_of_concat, list_elem_of_fmap. split.
    + intros (e & [= -> ->] & He). exists (pair (dependent e) <$> shown_deps (dependent e)). split.
      * apply list_elem_of_fmap. exists (dependent e). split; [done|]. apply Hl.
        apply (gd_edges _ _ _ (go_decl _ _ _ _ Hg)) in He as (_ & He & _). by apply elem_of_list_to_set in He.
      * apply list_elem_of_fmap. exists (dependency e). split; [done|]. apply shown_deps_edge. by exists e.
    + intros (l' & (x & -> & _)%list_elem_of_fmap & (y & [= -> ->] & (e & He & <- & <-)%shown_deps_edge)%list_elem_of_fmap). by exists e.
Qed.

(** Everything hangs beneath a sink. *)
Lemma all_reached (X : gset string) :
  (∀ n, n ∈ nodes → sink n → node_name n ∈ X) → (∀ x y, x ∈ X → edge_rel edges x y → y ∈ X) → ∀ x, x ∈ node_name <$> nodes → x ∈ X.
Proof using Hg.
  intros Hsinks Hclosed.
  assert (∀ k x i w, length (waves g) - i ≤ k → (wave_names <$> waves g) !! i = Some w → x ∈ w → x ∈ node_name <$> nodes → x ∈ X) as Hk.
  { induction k as [|k IH]; intros x i w Hi Hw Hx Hin.
    { apply lookup_lt_Some in Hw. rewrite length_fmap in Hw. lia. }
    destruct (proj1 (list_elem_of_fmap _ _ _) Hin) as (n & -> & Hn). destruct (is_sink_iff n Hn) as (s & _ & Hs). destruct s; [apply Hsinks; [done|exact (proj1 Hs eq_refl)]|].
    assert (∃ e, e ∈ edges ∧ dependency e = node_name n) as (e & He & Hdep).
    { destruct (decide (Exists (λ e, dependency e = node_name n) edges)) as [Hex|Hno]; [by apply Exists_exists in Hex|].
      exfalso. assert (false = true) as [=]. apply Hs. intros y (e & He & _ & Hd). apply Hno, Exists_exists. eauto. }
    assert (dependent e ∈ node_name <$> nodes) as Hin2.
    { apply (gd_edges _ _ _ (go_decl _ _ _ _ Hg)) in He as (_ & He & _). by apply elem_of_list_to_set in He. }
    apply (Hclosed (dependent e)); [|by exists e].
    destruct (level_all _ Hin2) as (j & w' & Hj & Hw' & Hy).
    destruct (wo_level _ _ _ (go_waves _ _ _ _ Hg) j w' (dependent e) (node_name n) Hw' Hy) as (i' & w2 & Hlt & Hw2 & Hx2); [by exists e|].
    assert (i' = i) as ->; [|eapply (IH (dependent e) j w'); [lia|done..]].
    eapply concat_index; [apply (wo_nodup _ _ _ (go_waves _ _ _ _ Hg))|done..]. }
  intros x Hx. destruct (level_all _ Hx) as (i & w & _ & Hw & Hxw). by eapply (Hk (length (waves g))); [lia|..].
Qed.
End Exact.

(** The declared edges as pairs of names, each once. *)
Definition edge_pairs (edges : list Edge) : list (string * string) := remove_dups ((λ e, (dependent e, dependency e)) <$> edges).

Section Shown.
Context `{Node V}.

(** C37: the printed tree is the graph.  Of a plan that was accepted, the tree is printed
    without running out of depth; its roots are the nodes nothing depends on, by name; the
    parent and child lines are the declared edges, each exactly once; every node has a
    line; and there are as many lines as roots and edges together. *)
Theorem graph_tree_exact name (nodes : list V) edges g keys misses show :
  new_build_graph name nodes edges = Ok g →
  ∃ forest, graph_tree g keys misses show = Ok forest ∧
    StronglySorted String.le (root <$> forest) ∧ (∀ x, x ∈ root <$> forest ↔ x ∈ node_name <$> nodes ∧ ∀ y, ¬ edge_rel edges y x) ∧
    concat (tree_edges <$> forest) ≡ₚ edge_pairs edges ∧
    (∀ x, x ∈ node_name <$> nodes → x ∈ root <$> forest ∨ x ∈ (concat (tree_edges <$> forest)).*2) ∧
    sum_list (tree_lines <$> forest) = length forest + length (edge_pairs edges).
Proof.
  intros Hg%new_build_graph_ok. pose proof (gd_nodup _ _ _ (go_decl _ _ _ _ Hg)) as Hnd.
  destruct (sinks_of_spec g name nodes edges Hg nodes) as (sinks & Hs & Hsi & Hsd); [done..|].
  destruct (by_names_perm sinks Hsd) as [Hbp Hbn]. unfold graph_tree. rewrite (go_nodes _ _ _ _ Hg), Hs. cbn [mbind result_bind].
  destruct (trees_grow g nodes (add_dep_node (S (length (waves g))) g keys misses show) (by_names sinks) ∅ []) as (forest & X & Hf & Hroots & Hall & [_ G2 G3 G4]).
  { intros d X Hd. apply (add_dep_node_grows g name nodes edges Hg).
    - rewrite Hbp, Hsi in Hd. apply Hd.
    - destruct (level_all g name nodes edges Hg (node_name d)) as (i & w & Hi & Hw); [|exists i, w; split; [lia|done]].
      apply list_elem_of_fmap. rewrite Hbp, Hsi in Hd. naive_solver. }
  cbn [app] in Hf. rewrite Hf. cbn [mbind result_bind mret result_ret]. exists forest. split; [done|].
  assert (∀ x, x ∈ root <$> forest ↔ x ∈ node_name <$> nodes ∧ ∀ y, ¬ edge_rel edges y x) as Hr.
  { intros x. rewrite Hroots, Hbn, elem_of_sorted, !list_elem_of_fmap. split.
    - intros (n & -> & [Hn Hk]%Hsi). split; [eauto|exact Hk].
    - intros [(n & -> & Hn) Hk]. exists n. split; [done|]. by apply Hsi. }
  assert (∀ x, x ∈ X ↔ x ∈ node_name <$> nodes) as HX.
  { intros x. split; [intros Hx; apply G2; set_solver|]. apply (all_reached g name nodes edges Hg).
    - intros n Hn Hk. apply Hall. rewrite Hbp. by apply Hsi.
    - intros a c Ha Hac. eapply G3; [exact Ha|set_solver|]. by apply (shown_deps_edge g name nodes edges Hg). }
  assert (concat (tree_edges <$> forest) ≡ₚ edge_pairs edges) as Hedges.
  { rewrite G4, difference_empty_L. symmetry. apply (outs_edges g name nodes edges Hg); [|apply NoDup_elements]. intros x. by rewrite elem_of_elements, HX. }
  split_and!; [rewrite Hroots, Hbn; apply Sorted_sorted|done|done| |].
  - intros x Hx. destruct (decide (Exists (λ e, dependency e = x) edges)) as [Hex|Hno].
    + right. apply Exists_exists in Hex as (e & He & <-). apply list_elem_of_fmap. exists (dependent e, dependency e). split; [done|].
      rewrite Hedges. apply elem_of_remove_dups, list_elem_of_fmap. eauto.
    + left. apply Hr. split; [done|]. intros y (e & He & _ & Hd). apply Hno, Exists_exists. eauto.
  - rewrite <-Hedges. clear. induction forest as [|t forest IH]; [done|]. cbn. rewrite tree_lines_edges, IH, length_app. lia.
Qed.
End Shown.

Module TreeDemo.
#[local] Instance name_node : Node string := {| node_name := id; node_kind := λ _, "vm" |}.
Definition edge (a b : string) : Edge := MkEdge a b KIND_ORDERING ORDERING.
Definition nodes : list string := ["web"; "db"; "pool"; "net"].
Definition edges : list Edge := [edge "web" "pool"; edge "web" "net"; edge "db" "pool"; edge "web" "db"; edge "db" "net"].
Definition graph : BuildGraph string :=
  match new_build_graph "p" nodes edges with Ok g => g | Raise _ => MkBuildGraph "" [] [] ∅ ∅ ∅ [] [] end.
Definition forest : list tree := match graph_tree graph ∅ {["db"]} false with Ok l => l | Raise _ => [] end.

Lemma graph_tree_exact_witness : root <$> forest = ["web"] ∧ concat (tree_edges <$> forest) ≡ₚ edge_pairs edges ∧ sum_list (tree_lines <$> forest) = 6.
Proof.
  destruct (graph_tree_exact "p" nodes edges graph ∅ {["db"]} false) as (l & Hl & _ & _ & He & _); [vm_compute; reflexivity|].
  split_and!; [vm_compute; reflexivity| |vm_compute; reflexivity]. unfold forest. rewrite Hl. exact He.
Defined.

Definition lines : list string := render_dot graph.
Example dot_lines : length lines = 12.
Proof. vm_compute. reflexivity. Qed.
End TreeDemo.
