(* ===== verification/Keys.v ===== *)
(** * The transitive cache-key walk ([testrange/graph/keys.py])

    [compute_cache_keys] visits the nodes in topological order and hands each
    node the keys of its content dependencies.  Hashing is the node's own
    business: the walk is stated for any [cache_key], which may raise. *)

From S2P Require Import Prelude Exceptions BuildGraph Kahn GraphSpec.
From stdpp Require Import options.

(** [Node.cache_key(ctx, dependency_keys)], the context being fixed. *)
Class NodeKey (V : Type) : Type := cache_key : V → gmap string string → res string.
#[export] Hint Mode NodeKey ! : typeclass_instances.

Section Walk.
Context `{Node V, !NodeKey V}.

(** [{dep.name: keys[dep.name] for dep in ...}] *)
Definition dependency_keys (keys : gmap string string) (deps : list V) : res (gmap string string) :=
  foldM (λ acc dep, k ← getitem keys (node_name dep); mret (<[node_name dep := k]> acc)) ∅ deps.

Definition key_step (g : BuildGraph V) (keys : gmap string string) (n : V) : res (gmap string string) :=
  cdeps ← content_dependencies_of g (node_name n);
  dk ← dependency_keys keys cdeps;
  k ← cache_key n dk;
  mret (<[node_name n := k]> keys).

Definition compute_cache_keys (g : BuildGraph V) : res (gmap string string) :=
  foldM (key_step g) ∅ (topological_order g).
End Walk.

(** ** Specification *)

(** The keys restricted to the content dependencies of [n]. *)
Definition content_keys (edges : list Edge) (keys : gmap string string) (n : string)
    : gmap string string :=
  filter (λ kv, kv.1 ∈ content_set edges n) keys.

Lemma content_keys_lookup edges keys n k v :
  content_keys edges keys n !! k = Some v ↔ keys !! k = Some v ∧ k ∈ content_set edges n.
Proof. unfold content_keys. by rewrite map_lookup_filter_Some. Qed.

Lemma elem_of_content_set edges n y :
  y ∈ content_set edges n ↔ edge_rel (content_edges edges) n y.
Proof.
  unfold content_set, edge_rel, content_edges. rewrite elem_of_list_to_set, list_elem_of_fmap.
  setoid_rewrite list_elem_of_filter. naive_solver.
Qed.

Section Theory.
Context `{Node V, !NodeKey V}.
Implicit Types (g : BuildGraph V) (nodes : list V).

Lemma dependency_keys_Ok (keys : gmap string string) (deps : list V) :
  (∀ d, d ∈ deps → is_Some (keys !! node_name d)) →
  ∃ dk, dependency_keys keys deps = Ok dk ∧
    ∀ k, dk !! k = if decide (k ∈ node_name <$> deps) then keys !! k else None.
Proof.
  unfold dependency_keys. induction deps as [|d deps IH] using rev_ind; intros Hall.
  - exists ∅. split; [done|]. intros k. rewrite lookup_empty. case_decide as Hd; [|done]. by apply not_elem_of_nil in Hd.
  - destruct IH as (dk & Hdk & Hk); [set_solver|].
    destruct (Hall d) as [v Hv]; [set_solver|].
    rewrite foldM_app, Hdk. cbn. assert (getitem keys (node_name d) = Ok v) as -> by by rewrite getitem_Ok.
    cbn. eexists. split; [done|]. intros k. rewrite fmap_app, lookup_insert.
    case_decide as Hd.
    + subst k. rewrite decide_True by (apply elem_of_app; right; apply list_elem_of_here). done.
    + rewrite Hk. case_decide as H1; case_decide as H2; try done; exfalso;
        rewrite elem_of_app in H2; cbn in H2; set_solver.
Qed.

Lemma content_dependencies_of_Ok name nodes edges g n :
  graph_ok g name nodes edges →
  ∃ ds, content_dependencies_of g n = Ok ds ∧ node_name <$> ds = sorted_set (content_set edges n).
Proof.
  intros Hg. unfold content_dependencies_of. rewrite (go_edges _ _ _ _ Hg).
  destruct (mapM_getitem _ (by_name g) (sorted_set (content_set edges n)) (go_names _ _ _ _ Hg))
    as (w & Hw & Hn & _).
  - intros y Hy. rewrite elem_of_sorted_set, elem_of_content_set in Hy.
    apply content_edge_rel in Hy as (e & He & <- & <-).
    by apply (gd_edges _ _ _ (go_decl _ _ _ _ Hg) e He).
  - by exists w.
Qed.

(** One step of the walk, once the content dependencies have keys. *)
Lemma key_step_eq name nodes edges g keys n :
  graph_ok g name nodes edges →
  (∀ y, y ∈ content_set edges (node_name n) → is_Some (keys !! y)) →
  key_step g keys n =
    (k ← cache_key n (content_keys edges keys (node_name n)); mret (<[node_name n := k]> keys)).
Proof.
  intros Hg Hall. unfold key_step.
  destruct (content_dependencies_of_Ok _ _ _ _ (node_name n) Hg) as (ds & -> & Hn).
  destruct (dependency_keys_Ok keys ds) as (dk & Hdk & Hk).
  { intros d Hd. apply Hall, elem_of_sorted_set. rewrite <-Hn. by apply list_elem_of_fmap_2. }
  cbn. rewrite Hdk. cbn. f_equal. f_equal. apply map_eq. intros k. rewrite Hk, Hn.
  apply option_eq. intros v. rewrite content_keys_lookup.
  case_decide as Hd; rewrite elem_of_sorted_set in Hd; naive_solver.
Qed.

(** The invariant of the walk after visiting [done]. *)
Definition keys_inv (edges : list Edge) (done : list V) (keys : gmap string string) : Prop :=
  dom keys = list_to_set (node_name <$> done) ∧
  ∀ n, n ∈ done → ∃ k, keys !! node_name n = Some k ∧
    cache_key n (content_keys edges keys (node_name n)) = Ok k.

(** Everything a node's content relation reaches was visited before it. *)
Lemma order_prefix_deps name nodes edges g l1 n l2 y :
  graph_ok g name nodes edges → topological_order g = l1 ++ n :: l2 →
  edge_rel edges (node_name n) y → y ∈ node_name <$> l1.
Proof.
  intros Hg Hord Hy. pose proof (go_waves _ _ _ _ Hg) as Hw.
  assert (node_name n ∈ concat (wave_names <$> waves g)) as (i & w & Hi & Hx)%elem_of_concat_lookup.
  { rewrite concat_wave_names. unfold topological_order in Hord. rewrite Hord, fmap_app. set_solver. }
  destruct (wo_level _ _ _ Hw i w _ _ Hi Hx Hy) as (j & w' & Hj & Hw' & Hyw).
  destruct (concat_before _ j i w' w _ _ Hj Hw' Hi Hyw Hx) as (a & b & c & Heq).
  pose proof (wo_nodup _ _ _ Hw) as Hnd. rewrite concat_wave_names in Heq, Hnd.
  unfold topological_order in Hord. rewrite Hord, fmap_app in Heq, Hnd. cbn in Heq, Hnd.
  replace (a ++ y :: b ++ node_name n :: c) with ((a ++ y :: b) ++ node_name n :: c) in Heq
    by (by rewrite <-app_assoc).
  apply NoDup_pivot in Heq as [-> _]; [set_solver|done].
Qed.

Lemma content_keys_insert edges keys n m k :
  m ∉ content_set edges n → keys !! m = None →
  content_keys edges (<[m := k]> keys) n = content_keys edges keys n.
Proof.
  intros Hm Hk. apply map_eq. intros y. apply option_eq. intros v.
  rewrite !content_keys_lookup, lookup_insert_Some. naive_solver.
Qed.

(** The walk maintains the invariant, and raises only what a node raises. *)
Lemma walk_step name nodes edges g l1 n l2 keys :
  graph_ok g name nodes edges → topological_order g = l1 ++ n :: l2 → keys_inv edges l1 keys →
  match cache_key n (content_keys edges keys (node_name n)) with
  | Raise e => key_step g keys n = Raise e
  | Ok k => key_step g keys n = Ok (<[node_name n := k]> keys) ∧
            keys_inv edges (l1 ++ [n]) (<[node_name n := k]> keys)
  end.
Proof.
  intros Hg Hord [Hdom Hinv].
  assert (∀ m y, m ∈ l1 ++ [n] → y ∈ content_set edges (node_name m) → y ∈ node_name <$> l1) as Hdeps.
  { intros m y Hm Hy%elem_of_content_set%content_edge_rel.
    apply elem_of_app in Hm as [(a & b & ->)%list_elem_of_split|Hm].
    - rewrite <-app_assoc in Hord. cbn in Hord.
      assert (y ∈ node_name <$> a); [by eapply order_prefix_deps|]. rewrite fmap_app. set_solver.
    - apply list_elem_of_singleton in Hm as ->. by eapply order_prefix_deps. }
  assert (NoDup (node_name <$> l1 ++ n :: l2)) as Hnd.
  { pose proof (wo_nodup _ _ _ (go_waves _ _ _ _ Hg)) as Hnd.
    rewrite concat_wave_names in Hnd. unfold topological_order in Hord. by rewrite Hord in Hnd. }
  assert (node_name n ∉ node_name <$> l1) as Hfresh.
  { rewrite fmap_app, NoDup_app in Hnd. destruct Hnd as (_ & Hd & _).
    intros Hx. apply (Hd _ Hx). cbn. set_solver. }
  assert (keys !! node_name n = None) as Hnone.
  { apply not_elem_of_dom. by rewrite Hdom, elem_of_list_to_set. }
  rewrite (key_step_eq _ _ _ _ keys n Hg).
  2:{ intros y Hy. apply elem_of_dom. rewrite Hdom, elem_of_list_to_set.
      eapply (Hdeps n); [set_solver|done]. }
  destruct (cache_key n _) as [k|e] eqn:Hk; cbn; [|done]. split; [done|]. split.
  - rewrite dom_insert_L, Hdom, fmap_app, list_to_set_app_L. cbn. set_solver.
  - intros m Hm. rewrite content_keys_insert; [|intros Hy; by apply Hfresh, (Hdeps m)|done].
    apply elem_of_app in Hm as [Hm|Hm].
    + destruct (Hinv m Hm) as (k' & Hk' & Hc). exists k'. split; [|done].
      rewrite lookup_insert_ne; [done|]. intros Heq. congruence.
    + apply list_elem_of_singleton in Hm as ->. exists k. by rewrite lookup_insert_eq.
Qed.

Lemma compute_cache_keys_inv name nodes edges g keys :
  graph_ok g name nodes edges → compute_cache_keys g = Ok keys →
  keys_inv edges (topological_order g) keys.
Proof.
  intros Hg. unfold compute_cache_keys. apply (foldM_inv (keys_inv edges)).
  - split; [set_solver|]. intros n Hn. set_solver.
  - intros l n rest k1 k2 Hl HI Hs. pose proof (walk_step _ _ _ _ _ _ _ _ Hg Hl HI) as Hw.
    destruct (cache_key n _); [|congruence]. destruct Hw as [Hw1 Hw2].
    rewrite Hs in Hw1. by injection Hw1 as ->.
Qed.

(** The walk gives every node a key, and that key is the node's own
    [cache_key] applied to the final keys of exactly its content
    dependencies: the keys are a solution of the transitive-key equations. *)
Theorem cache_keys_fixpoint name nodes edges g keys :
  new_build_graph name nodes edges = Ok g → compute_cache_keys g = Ok keys →
  dom keys = list_to_set (node_name <$> nodes) ∧
  ∀ n, n ∈ nodes → ∃ k, keys !! node_name n = Some k ∧
    cache_key n (content_keys edges keys (node_name n)) = Ok k.
Proof.
  intros Hg%new_build_graph_ok Hk. destruct (compute_cache_keys_inv _ _ _ _ _ Hg Hk) as [Hdom Hinv].
  pose proof (graph_waves_perm _ _ _ _ Hg) as Hp. fold (topological_order g) in Hp.
  split; [by rewrite Hdom, Hp|]. intros n Hn. apply Hinv. by rewrite Hp.
Qed.

(** A walk in which every visited node hashes returns, and carries any
    further invariant [P] to the end. *)
Lemma walk_total (P : list V → gmap string string → Prop) name nodes edges g :
  graph_ok g name nodes edges → P [] ∅ →
  (∀ l1 n l2 keys, topological_order g = l1 ++ n :: l2 → keys_inv edges l1 keys → P l1 keys →
     ∃ k, cache_key n (content_keys edges keys (node_name n)) = Ok k ∧
          P (l1 ++ [n]) (<[node_name n := k]> keys)) →
  ∃ keys, compute_cache_keys g = Ok keys ∧ keys_inv edges (topological_order g) keys ∧
    P (topological_order g) keys.
Proof.
  intros Hg H0 Hstep. unfold compute_cache_keys.
  cut (∀ todo done keys, topological_order g = done ++ todo → keys_inv edges done keys →
    P done keys → ∃ keys', foldM (key_step g) keys todo = Ok keys' ∧
      keys_inv edges (topological_order g) keys' ∧ P (topological_order g) keys').
  { intros Hgen. apply (Hgen _ []); [done|by split; set_solver|done]. }
  induction todo as [|n todo IH]; intros l keys Hl HI HP.
  - rewrite app_nil_r in Hl. subst l. by exists keys.
  - destruct (Hstep _ _ _ _ Hl HI HP) as (k & Hk & HP').
    pose proof (walk_step _ _ _ _ _ _ _ _ Hg Hl HI) as Hw. rewrite Hk in Hw.
    destruct Hw as [Hw HI']. cbn. rewrite Hw.
    apply (IH (l ++ [n])); [by rewrite <-app_assoc|done..].
Qed.

(** The walk itself never fails: if every node can hash its inputs, it
    returns keys for the whole graph (the lookup of an upstream key never
    misses). *)
Theorem cache_keys_total name nodes edges g :
  new_build_graph name nodes edges = Ok g →
  (∀ n dk, n ∈ nodes → is_ok (cache_key n dk) = true) →
  ∃ keys, compute_cache_keys g = Ok keys.
Proof.
  intros Hg%new_build_graph_ok Hall.
  destruct (walk_total (λ _ _, True) _ _ _ _ Hg I) as (keys & Hk & _); [|by exists keys].
  intros l1 n l2 keys Hl _ _. pose proof (graph_waves_perm _ _ _ _ Hg) as Hp.
  fold (topological_order g) in Hp.
  specialize (Hall n (content_keys edges keys (node_name n))).
  destruct (cache_key n _) as [k|e]; [by exists k|]. exfalso.
  assert (n ∈ nodes) by (rewrite <-Hp, Hl; set_solver). by specialize (Hall ltac:(done)).
Qed.

(** Stated on the declared edges alone: the keys a node is hashed with are those of the
    nodes it reaches over an edge that is more than an ordering. *)
Definition upstream_keys (edges : list Edge) (keys dk : gmap string string) (n : string) : Prop :=
  ∀ y v, dk !! y = Some v ↔
    keys !! y = Some v ∧ ∃ e, e ∈ edges ∧ dependent e = n ∧ dependency e = y ∧ cacheability e ≠ ORDERING.

Lemma upstream_content edges keys n : upstream_keys edges keys (content_keys edges keys n) n.
Proof.
  intros y v. rewrite content_keys_lookup. unfold content_set. rewrite elem_of_list_to_set, list_elem_of_fmap.
  setoid_rewrite list_elem_of_filter. unfold affects_cache_key. setoid_rewrite negb_true_iff. setoid_rewrite bool_decide_eq_false. naive_solver.
Qed.
Lemma upstream_unique edges keys dk n : upstream_keys edges keys dk n → dk = content_keys edges keys n.
Proof. intros Hu. apply map_eq. intros y. apply option_eq. intros v. by rewrite (Hu y v), (upstream_content edges keys n y v). Qed.

(** Keys that solve the equations are the ones the walk finds. *)
Lemma cache_keys_solution name nodes edges g keys :
  graph_ok g name nodes edges → dom keys = list_to_set (node_name <$> nodes) →
  (∀ n, n ∈ nodes → ∃ k, keys !! node_name n = Some k ∧ cache_key n (content_keys edges keys (node_name n)) = Ok k) →
  compute_cache_keys g = Ok keys.
Proof.
  intros Hg Hdom Hsol. pose proof (graph_waves_perm _ _ _ _ Hg) as Hp. fold (topological_order g) in Hp.
  destruct (walk_total (λ _ ks, ks ⊆ keys) _ _ _ _ Hg) as (keys2 & Hk2 & [Hdom2 _] & Hsub).
  - apply map_empty_subseteq.
  - intros l1 n l2 ks Hl [Hd _] Hsub. destruct (Hsol n) as (k & Hk & Hc); [rewrite <-Hp, Hl; set_solver|].
    exists k. split; [|by apply insert_subseteq_l]. rewrite <-Hc. f_equal.
    apply map_eq. intros y. apply option_eq. intros v. rewrite !content_keys_lookup.
    split; [intros [Hy ?]; split; [by eapply lookup_weaken|done]|]. intros [Hy Hin]. split; [|done].
    assert (y ∈ dom ks) as [v' Hv']%elem_of_dom.
    { rewrite Hd, elem_of_list_to_set. eapply order_prefix_deps; [done..|].
      by apply content_edge_rel, elem_of_content_set. }
    rewrite (lookup_weaken _ _ _ _ Hv' Hsub) in Hy. by simplify_eq.
  - rewrite Hk2. f_equal. apply map_subseteq_size_eq; [done|].
    rewrite <-!(size_dom (D:=gset string)). by rewrite Hdom, Hdom2, Hp.
Qed.

(** C40: the cache keys are the solution of the key equations.  On an accepted graph the
    walk returns [keys] if and only if they are keys of exactly the nodes and each node's
    key is its own hash, applied to the keys of the nodes it reaches over an edge that is
    more than an ordering.  So there is one solution at most, the walk finds it whenever
    there is one, and neither ordering edges, nor the order of declaration, nor parallel
    edges make a difference. *)
Theorem cache_keys_exact name nodes edges g keys :
  new_build_graph name nodes edges = Ok g →
  compute_cache_keys g = Ok keys ↔
  dom keys = list_to_set (node_name <$> nodes) ∧
  ∀ n, n ∈ nodes → ∃ k dk, keys !! node_name n = Some k ∧ upstream_keys edges keys dk (node_name n) ∧ cache_key n dk = Ok k.
Proof.
  intros Hg%new_build_graph_ok. pose proof (graph_waves_perm _ _ _ _ Hg) as Hp. fold (topological_order g) in Hp. split.
  - intros Hk. destruct (compute_cache_keys_inv _ _ _ _ _ Hg Hk) as [Hdom Hinv]. split; [by rewrite Hdom, Hp|].
    intros n Hn. destruct (Hinv n) as (k & Hk1 & Hk2); [by rewrite Hp|]. eexists k, _. split_and!; [done|apply upstream_content|done].
  - intros [Hdom Hall]. eapply cache_keys_solution; [done..|]. intros n (k & dk & Hk & ->%upstream_unique & Hc)%Hall. by exists k.
Qed.

(** Keys follow content, not placement.  Two graphs over the same nodes
    whose cacheable edges agree, whatever their ordering edges, their
    declaration order and their names, have the same keys. *)
Theorem cache_keys_placement name1 nodes1 edges1 g1 name2 nodes2 edges2 g2 keys :
  new_build_graph name1 nodes1 edges1 = Ok g1 → new_build_graph name2 nodes2 edges2 = Ok g2 →
  nodes1 ≡ₚ nodes2 → (∀ n, content_set edges1 n = content_set edges2 n) →
  compute_cache_keys g1 = Ok keys → compute_cache_keys g2 = Ok keys.
Proof.
  intros Hg1%new_build_graph_ok Hg2%new_build_graph_ok Hnodes Hcs Hk1.
  destruct (compute_cache_keys_inv _ _ _ _ _ Hg1 Hk1) as [Hdom1 Hinv1].
  pose proof (graph_waves_perm _ _ _ _ Hg1) as Hp1. fold (topological_order g1) in Hp1.
  eapply cache_keys_solution; [exact Hg2|by rewrite Hdom1, Hp1, Hnodes|].
  intros n Hn. destruct (Hinv1 n) as (k & Hk & Hc); [by rewrite Hp1, Hnodes|]. exists k. split; [done|]. rewrite <-Hc. f_equal.
  apply map_eq. intros y. apply option_eq. intros v. by rewrite !content_keys_lookup, Hcs.
Qed.
End Theory.

(** ** Concrete walks *)
Module KeysDemo.
#[local] Instance name_node : Node string := {| node_name := id; node_kind := λ _, "vm" |}.
(** A key that shows its inputs; a node named ["boom"] cannot be hashed. *)
#[local] Instance name_key : NodeKey string := λ n dk,
  if decide (n = "boom") then raise CacheMissError [n]
  else Ok ("h(" +:+ n +:+ String.concat "" ((λ kv, "," +:+ kv.1 +:+ "=" +:+ kv.2) <$> map_to_list dk) +:+ ")").

Definition bake (a b : string) : Edge := MkEdge a b KIND_ORDERING BAKE.
Definition order (a b : string) : Edge := MkEdge a b KIND_ORDERING ORDERING.
Definition keys_of (nodes : list string) (edges : list Edge) : res (list (string * string)) :=
  g ← new_build_graph "p" nodes edges; map_to_list <$> compute_cache_keys g.

Example demo_keys : keys_of ["a"; "b"; "c"] [bake "a" "b"; order "b" "c"] =
  Ok [("c", "h(c)"); ("a", "h(a,b=h(b))"); ("b", "h(b)")].
Proof. vm_compute. reflexivity. Qed.

Example demo_keys_raise : keys_of ["a"; "boom"] [bake "a" "boom"] = raise CacheMissError ["boom"].
Proof. vm_compute. reflexivity. Qed.

Definition built (nodes : list string) (edges : list Edge) : BuildGraph string :=
  match new_build_graph "p" nodes edges with
  | Ok g => g
  | Raise _ => MkBuildGraph "" [] [] ∅ ∅ ∅ [] []
  end.
Definition nodes1 : list string := ["a"; "b"; "c"].
Definition edges1 : list Edge := [bake "a" "b"; order "b" "c"].
Definition nodes2 : list string := ["c"; "a"; "b"].
Definition edges2 : list Edge := [order "c" "b"; bake "a" "b"].
Definition keys1 : gmap string string :=
  match compute_cache_keys (built nodes1 edges1) with Ok k => k | Raise _ => ∅ end.

Lemma cache_keys_fixpoint_witness :
  keys1 !! "a" = Some "h(a,b=h(b))" ∧
  ∃ k, keys1 !! "a" = Some k ∧ cache_key "a" (content_keys edges1 keys1 "a") = Ok k.
Proof.
  split; [vm_compute; reflexivity|].
  destruct (cache_keys_fixpoint "p" nodes1 edges1 (built nodes1 edges1) keys1) as [_ Hall];
    [vm_compute; reflexivity..|]. apply Hall. unfold nodes1. set_solver.
Defined.

Lemma cache_keys_exact_witness :
  compute_cache_keys (built nodes1 edges1) = Ok keys1 ∧
  ∃ k dk, keys1 !! "a" = Some k ∧ upstream_keys edges1 keys1 dk "a" ∧ cache_key "a" dk = Ok k.
Proof.
  assert (compute_cache_keys (built nodes1 edges1) = Ok keys1) as H by (vm_compute; reflexivity). split; [exact H|].
  apply (cache_keys_exact "p" nodes1 edges1 (built nodes1 edges1) keys1) in H as [_ Hall]; [|vm_compute; reflexivity].
  apply (Hall "a"). unfold nodes1. set_solver.
Defined.

Lemma cache_keys_total_witness : ∃ keys, compute_cache_keys (built nodes1 edges1) = Ok keys.
Proof.
  apply (cache_keys_total "p" nodes1 edges1); [vm_compute; reflexivity|].
  intros n dk Hn. unfold cache_key, name_key.
  rewrite decide_False; [reflexivity|]. intros ->. revert Hn. unfold nodes1. set_solver.
Defined.

Lemma cache_keys_placement_witness : compute_cache_keys (built nodes2 edges2) = Ok keys1.
Proof.
  apply (cache_keys_placement "p" nodes1 edges1 (built nodes1 edges1) "p" nodes2 edges2).
  - vm_compute. reflexivity.
  - vm_compute. reflexivity.
  - symmetry. apply (Permutation_cons_append ["a"; "b"] "c").
  - intros n. unfold content_set, edges1, edges2. rewrite !filter_cons. cbn.
    repeat case_decide; set_solver.
  - vm_compute. reflexivity.
Defined.
End KeysDemo.
