(* ===== verification/PyDict.v ===== *)
(** * Python dicts in insertion order

    Where the order of a [dict] is observable it is a list of bindings with distinct
    keys: assignment to a present key keeps its place, to a new one appends. *)

From S2P Require Import Prelude Exceptions.
From stdpp Require Import options.

Definition pydict (A : Type) : Type := list (string * A).

Section Dict.
Context {A : Type}.
Implicit Types (d : pydict A).

(** [d.get(k)] *)
Fixpoint dict_get (d : pydict A) (k : string) : option A :=
  match d with
  | [] => None
  | (k', v) :: d => if decide (k = k') then Some v else dict_get d k
  end.

(** [d[k] = v] *)
Fixpoint dict_set (d : pydict A) (k : string) (v : A) : pydict A :=
  match d with
  | [] => [(k, v)]
  | (k', v') :: d => if decide (k = k') then (k', v) :: d else (k', v') :: dict_set d k v
  end.

(** [d.setdefault(k, v)] *)
Definition dict_setdefault d (k : string) (v : A) : pydict A :=
  match dict_get d k with Some _ => d | None => dict_set d k v end.

(** [for k, v in d.items(): d[k] = f(k, v)] *)
Definition dict_map (f : string → A → A) d : pydict A := (λ '(k, v), (k, f k v)) <$> d.

(** The keys and the values, in order. *)
Definition dict_keys d : list string := fst <$> d.
Definition dict_values d : list A := snd <$> d.

Lemma dict_get_elem d k v : NoDup (dict_keys d) → (k, v) ∈ d ↔ dict_get d k = Some v.
Proof.
  induction d as [|[k' v'] d IH]; cbn [dict_get]; intros Hnd; [split; [by intros []%not_elem_of_nil|done]|].
  apply NoDup_cons in Hnd as [Hn Hnd]. rewrite elem_of_cons, IH by done. case_decide as Hk.
  - subst k'. split; [|intros [= ->]; by left]. intros [[= ->]|Hg]; [done|]. exfalso. apply Hn.
    apply IH in Hg; [|done]. apply list_elem_of_fmap. by exists (k, v).
  - split; [intros [[= -> ->]|?]; done|by right].
Qed.

Lemma dict_get_None d k : dict_get d k = None ↔ k ∉ dict_keys d.
Proof.
  induction d as [|[k' v'] d IH]; cbn [dict_get]; [split; [intros _; apply not_elem_of_nil|done]|].
  change (dict_keys ((k', v') :: d)) with (k' :: dict_keys d). rewrite not_elem_of_cons.
  case_decide; [naive_solver|]. rewrite IH. naive_solver.
Qed.

Lemma dict_keys_set d k v :
  dict_keys (dict_set d k v) = if decide (k ∈ dict_keys d) then dict_keys d else dict_keys d ++ [k].
Proof.
  induction d as [|[k' v'] d IH]; [by rewrite decide_False by apply not_elem_of_nil|]. cbn [dict_set].
  change (dict_keys ((k', v') :: d)) with (k' :: dict_keys d).
  destruct (decide (k = k')) as [->|Hk].
  - destruct (decide (k' ∈ k' :: dict_keys d)) as [_|[]]; [done|set_solver].
  - change (dict_keys ((k', v') :: dict_set d k v)) with (k' :: dict_keys (dict_set d k v)). rewrite IH.
    destruct (decide (k ∈ dict_keys d)), (decide (k ∈ k' :: dict_keys d)); set_solver.
Qed.

Lemma NoDup_dict_set d k v : NoDup (dict_keys d) → NoDup (dict_keys (dict_set d k v)).
Proof.
  intros Hnd. rewrite dict_keys_set. case_decide; [done|]. apply NoDup_app. split_and!; [done| |apply NoDup_singleton].
  intros x Hx ->%list_elem_of_singleton. done.
Qed.

Lemma NoDup_dict_setdefault d k v : NoDup (dict_keys d) → NoDup (dict_keys (dict_setdefault d k v)).
Proof. unfold dict_setdefault. destruct (dict_get d k); [done|apply NoDup_dict_set]. Qed.

Lemma dict_keys_map f d : dict_keys (dict_map f d) = dict_keys d.
Proof. unfold dict_keys, dict_map. rewrite <-list_fmap_compose. apply list_fmap_ext. by intros i [k v]. Qed.

Lemma dict_get_set_eq d k v : dict_get (dict_set d k v) k = Some v.
Proof.
  induction d as [|[k' v'] d IH]; cbn; [by rewrite decide_True|].
  case_decide as Hk; cbn; [by rewrite decide_True|by rewrite decide_False].
Qed.

Lemma dict_get_set_ne d k k' v : k ≠ k' → dict_get (dict_set d k v) k' = dict_get d k'.
Proof.
  intros Hne. induction d as [|[k2 v2] d IH]; cbn; [by rewrite decide_False|].
  case_decide as Hk; cbn; [subst; by rewrite !decide_False by done|]. by case_decide.
Qed.

Lemma dict_get_map f d k : dict_get (dict_map f d) k = f k <$> dict_get d k.
Proof. induction d as [|[k' v'] d IH]; cbn; [done|]. case_decide; [by subst|done]. Qed.

(** A property of every binding survives the updates. *)
Lemma Forall_dict_set (P : string * A → Prop) d k v : Forall P d → P (k, v) → Forall P (dict_set d k v).
Proof.
  intros Hd Hp. induction Hd as [|[k' v'] d Hb Hd IH]; cbn; [by repeat constructor|].
  case_decide; [subst|]; by constructor.
Qed.

Lemma Forall_dict_setdefault (P : string * A → Prop) d k v : Forall P d → P (k, v) → Forall P (dict_setdefault d k v).
Proof. unfold dict_setdefault. destruct (dict_get d k); [done|apply Forall_dict_set]. Qed.

Lemma Forall_dict_map (P Q : string * A → Prop) f d :
  Forall P d → (∀ k v, P (k, v) → Q (k, f k v)) → Forall Q (dict_map f d).
Proof. intros Hd HPQ. induction Hd as [|[k v] d Hb Hd IH]; cbn; constructor; auto. Qed.
End Dict.

(** ** Bounded deques *)

(** [deque(maxlen=n).append(x)]: the oldest element falls out. *)
Definition ring_append {A} (n : nat) (l : list A) (x : A) : list A :=
  let l' := l ++ [x] in drop (length l' - n) l'.

(** [l[-n:]] *)
Definition last_n {A} (n : nat) (l : list A) : list A := drop (length l - n) l.

Lemma ring_append_length {A} n (l : list A) x : length l ≤ n → length (ring_append n l x) ≤ n.
Proof. intros Hl. unfold ring_append. rewrite length_drop, length_app. cbn. lia. Qed.

(** Appending keeps exactly the last [n] of everything appended so far. *)
Lemma ring_append_last_n {A} n (l : list A) x : ring_append n (last_n n l) x = last_n n (l ++ [x]).
Proof.
  unfold ring_append, last_n. rewrite !length_app, length_drop. cbn.
  destruct (decide (length l ≤ n)) as [Hl|Hl].
  - replace (length l - n) with 0 by lia. rewrite drop_0, Nat.sub_0_r. done.
  - rewrite <-(drop_app_le l [x]) by lia. rewrite drop_drop. f_equal. lia.
Qed.

Lemma ring_fold_last_n {A} n (xs l : list A) : foldl (ring_append n) (last_n n l) xs = last_n n (l ++ xs).
Proof.
  revert l. induction xs as [|x xs IH]; intros l; cbn; [by rewrite app_nil_r|].
  rewrite ring_append_last_n, IH, <-app_assoc. done.
Qed.
