(* ===== verification/Dashboard.v ===== *)
(** * The dashboard ([orchestrator/dashboard_state.py])

    What the live view shows: VM stages, test outcomes, and two bounded panes of
    lines.  Each method runs under the dashboard's lock, so each is one step;
    [monotonic()] is the argument [now] in nanoseconds. *)

From S2P Require Import Prelude Exceptions PyDict.
From stdpp Require Import options.

Inductive VMStage : Type := PENDING | PROVISIONING | BUILDING | BOOTING | BINDING | READY | FAILED.

Global Instance VMStage_eq_dec : EqDecision VMStage.
Proof. solve_decision. Defined.

(** The [StrEnum] values. *)
Definition stage_value (s : VMStage) : string :=
  match s with
  | PENDING => "pending" | PROVISIONING => "provisioning" | BUILDING => "building" | BOOTING => "booting"
  | BINDING => "binding" | READY => "ready" | FAILED => "failed"
  end.

Definition is_terminal (s : VMStage) : bool := bool_decide (s ∈ [READY; FAILED]).

Inductive TestStatus : Type := running | passed | failed.

Record VMRecord : Type := MkVMRecord {
  rec_name : string;
  rec_stage : VMStage;
  rec_started_at : option Z;
  rec_detail : option string;
}.

Record VMView : Type := MkVMView {
  view_name : string;
  view_stage : VMStage;
  view_elapsed : option Z;
  view_detail : option string;
}.

Record TestRecord : Type := MkTestRecord {
  tr_name : string;
  tr_status : TestStatus;
  tr_duration : Z;
  tr_error : option string;
}.

Record DashboardState : Type := MkDashboard {
  d_vms : pydict VMRecord;
  d_tests : pydict TestRecord;
  d_log : list string;
  d_serial : list (string * string);
  d_log_max : nat;
  d_serial_max : nat;
}.

Record DashboardSnapshot : Type := MkSnapshot {
  s_vms : list VMView;
  s_tests : list TestRecord;
  s_log_lines : list string;
  s_serial_lines : list (string * string);
}.

Definition new_dashboard (log_maxlen serial_maxlen : nat) : DashboardState :=
  MkDashboard [] [] [] [] log_maxlen serial_maxlen.

Definition set_dvms (v : pydict VMRecord) (d : DashboardState) : DashboardState :=
  MkDashboard v (d_tests d) (d_log d) (d_serial d) (d_log_max d) (d_serial_max d).
Definition set_dtests (t : pydict TestRecord) (d : DashboardState) : DashboardState :=
  MkDashboard (d_vms d) t (d_log d) (d_serial d) (d_log_max d) (d_serial_max d).

Definition pending (name : string) : VMRecord := MkVMRecord name PENDING None None.

Definition seed_vms (names : list string) (d : DashboardState) : DashboardState :=
  set_dvms (foldl (λ vms n, dict_setdefault vms n (pending n)) (d_vms d) names) d.

Definition set_stage (now : Z) (name : string) (stage : VMStage) (detail : option string) (d : DashboardState) :
    DashboardState :=
  let rec := default (pending name) (dict_get (d_vms d) name) in
  let started := match rec_started_at rec with
    | None => if decide (stage = PENDING) then None else Some now
    | s => s end in
  let detail' := match detail with Some x => Some x | None => rec_detail rec end in
  set_dvms (dict_set (d_vms d) name (MkVMRecord (rec_name rec) stage started detail')) d.

(** [rec.detail or detail] *)
Definition or_detail (o : option string) (detail : string) : option string :=
  match o with Some x => if decide (x = "") then Some detail else Some x | None => Some detail end.

Definition abort_one (detail : string) (rec : VMRecord) : VMRecord :=
  if is_terminal (rec_stage rec) then rec
  else MkVMRecord (rec_name rec) FAILED (rec_started_at rec) (or_detail (rec_detail rec) detail).

Definition abort_unfinished (detail : string) (d : DashboardState) : DashboardState :=
  set_dvms (dict_map (λ _, abort_one detail) (d_vms d)) d.

Definition start_test (name : string) (d : DashboardState) : DashboardState :=
  set_dtests (dict_set (d_tests d) name (MkTestRecord name running 0 None)) d.

Definition finish_test (name : string) (ok : bool) (duration : Z) (error : option string) (d : DashboardState) :
    DashboardState :=
  set_dtests (dict_set (d_tests d) name (MkTestRecord name (if ok then passed else failed) duration error)) d.

Definition append_log (line : string) (d : DashboardState) : DashboardState :=
  MkDashboard (d_vms d) (d_tests d) (ring_append (d_log_max d) (d_log d) line) (d_serial d) (d_log_max d) (d_serial_max d).

Definition append_serial (vm line : string) (d : DashboardState) : DashboardState :=
  MkDashboard (d_vms d) (d_tests d) (d_log d) (ring_append (d_serial_max d) (d_serial d) (vm, line)) (d_log_max d) (d_serial_max d).

Definition view_of (now : Z) (rec : VMRecord) : VMView :=
  MkVMView (rec_name rec) (rec_stage rec) ((λ s, now - s)%Z <$> rec_started_at rec) (rec_detail rec).

Definition snapshot (now : Z) (d : DashboardState) : DashboardSnapshot :=
  MkSnapshot (view_of now <$> dict_values (d_vms d)) (dict_values (d_tests d)) (d_log d) (d_serial d).

(** ** Calls, in the order the lock serializes them *)

Inductive dash_call : Type :=
  | Seed (names : list string)
  | SetStage (name : string) (stage : VMStage) (detail : option string)
  | Abort (detail : string)
  | StartTest (name : string)
  | FinishTest (name : string) (ok : bool) (duration : Z) (error : option string)
  | Log (line : string)
  | Serial (vm line : string).

(** Each call with the clock reading it takes. *)
Definition dash_step (d : DashboardState) (c : Z * dash_call) : DashboardState :=
  match c.2 with
  | Seed ns => seed_vms ns d
  | SetStage n s de => set_stage c.1 n s de d
  | Abort de => abort_unfinished de d
  | StartTest n => start_test n d
  | FinishTest n p du er => finish_test n p du er d
  | Log l => append_log l d
  | Serial v l => append_serial v l d
  end.

Definition dash_run (calls : list (Z * dash_call)) (d : DashboardState) : DashboardState := foldl dash_step d calls.

(** ** The invariant *)

(** A VM that has no start time has done nothing: it is pending, or was swept. *)
Definition vm_ok (b : string * VMRecord) : Prop :=
  rec_name b.2 = b.1 ∧ (rec_started_at b.2 = None → rec_stage b.2 = PENDING ∨ rec_stage b.2 = FAILED).

Record dash_ok (d : DashboardState) : Prop := {
  ok_vm_keys : NoDup (dict_keys (d_vms d));
  ok_test_keys : NoDup (dict_keys (d_tests d));
  ok_vms : Forall vm_ok (d_vms d);
  ok_tests : Forall (λ b, tr_name b.2 = b.1) (d_tests d);
  ok_log : length (d_log d) ≤ d_log_max d;
  ok_serial : length (d_serial d) ≤ d_serial_max d;
}.

Lemma new_dashboard_ok n m : dash_ok (new_dashboard n m).
Proof. by split; cbn; [constructor..|lia|lia]. Qed.

Lemma get_vm_ok d n rec : Forall vm_ok d → NoDup (dict_keys d) → dict_get d n = Some rec → vm_ok (n, rec).
Proof. intros Hf Hnd Hg. apply dict_get_elem in Hg; [|done]. by eapply Forall_forall in Hg. Qed.

Lemma current_vm_ok d n :
  Forall vm_ok d → NoDup (dict_keys d) → vm_ok (n, default (pending n) (dict_get d n)).
Proof.
  intros Hf Hnd. destruct (dict_get d n) as [rec|] eqn:E; cbn [default]; [by eapply get_vm_ok|].
  split; [done|]. by left.
Qed.

Lemma seed_vms_ok ns d : dash_ok d → dash_ok (seed_vms ns d).
Proof.
  intros [Hk Htk Hv Ht Hl Hs]. cut (NoDup (dict_keys (foldl (λ vms n, dict_setdefault vms n (pending n)) (d_vms d) ns)) ∧
    Forall vm_ok (foldl (λ vms n, dict_setdefault vms n (pending n)) (d_vms d) ns)).
  { intros [H1 H2]. by split. }
  revert Hk Hv. generalize (d_vms d). induction ns as [|n ns IH]; intros v Hk Hv; cbn; [done|].
  apply IH; [by apply NoDup_dict_setdefault|]. apply Forall_dict_setdefault; [done|]. split; [done|by left].
Qed.

Lemma set_stage_ok now n s de d : dash_ok d → dash_ok (set_stage now n s de d).
Proof.
  intros [Hk Htk Hv Ht Hl Hs]. split; cbn; try done; [by apply NoDup_dict_set|]. apply Forall_dict_set; [done|].
  destruct (current_vm_ok _ n Hv Hk) as [Hn Hst]. split; [done|]. cbn. intros H0.
  destruct (rec_started_at _); [done|]. case_decide; [by left|done].
Qed.

Lemma abort_ok de d : dash_ok d → dash_ok (abort_unfinished de d).
Proof.
  intros [Hk Htk Hv Ht Hl Hs]. rewrite <-(dict_keys_map (λ _, abort_one de)) in Hk. split; try done.
  eapply Forall_dict_map; [exact Hv|]. intros n rec [Hn Hst]. unfold abort_one. destruct (is_terminal (rec_stage rec)); [done|].
  split; [done|]. by right.
Qed.

Lemma dash_step_ok d c : dash_ok d → dash_ok (dash_step d c).
Proof.
  intros Hok. destruct c as [now []]; cbn [dash_step snd fst].
  - by apply seed_vms_ok.
  - by apply set_stage_ok.
  - by apply abort_ok.
  - destruct Hok. split; cbn; try done; [by apply NoDup_dict_set|by apply Forall_dict_set].
  - destruct Hok. split; cbn; try done; [by apply NoDup_dict_set|by apply Forall_dict_set].
  - destruct Hok. split; cbn; try done. by apply ring_append_length.
  - destruct Hok. split; cbn; try done. by apply ring_append_length.
Qed.

(** Whatever calls the workers make, in whatever order, the dashboard stays
    well formed: one record per VM and per test, each under its own name, a VM without a
    start time pending or swept, and both panes within their bounds. *)
Theorem dashboard_well_formed calls n m : dash_ok (dash_run calls (new_dashboard n m)).
Proof.
  unfold dash_run. cut (∀ d, dash_ok d → dash_ok (foldl dash_step d calls)).
  { intros H. apply H, new_dashboard_ok. }
  induction calls as [|c calls IH]; intros d Hok; cbn; [done|]. by apply IH, dash_step_ok.
Qed.

(** ** The final frame *)

(** After the sweep every VM is in a terminal stage; the ones that already were keep
    their record; plan order is kept. *)
Lemma abort_terminal de d :
  Forall (λ b, is_terminal (rec_stage b.2) = true) (d_vms (abort_unfinished de d)).
Proof.
  cbn. eapply (Forall_dict_map (λ _, True)); [by apply Forall_true|]. intros n rec _. unfold abort_one. cbn.
  by destruct (is_terminal (rec_stage rec)) eqn:E.
Qed.

Lemma abort_get de d n : dict_get (d_vms (abort_unfinished de d)) n = abort_one de <$> dict_get (d_vms d) n.
Proof. apply (dict_get_map (λ _, abort_one de)). Qed.

(** The pane shows exactly the most recent lines. *)
Definition log_lines (calls : list (Z * dash_call)) : list string :=
  omap (λ c, match c.2 with Log l => Some l | _ => None end) calls.

Lemma dash_run_log calls d :
  d_log (dash_run calls d) = foldl (ring_append (d_log_max d)) (d_log d) (log_lines calls) ∧
  d_log_max (dash_run calls d) = d_log_max d.
Proof.
  unfold dash_run. revert d. induction calls as [|[now c] calls IH]; intros d; cbn; [done|].
  destruct (IH (dash_step d (now, c))) as [H1 H2]. rewrite H1, H2. by destruct c.
Qed.

(** A snapshot after any calls shows the last [n] log lines and nothing else; after
    a sweep it shows no VM in a stage it could still leave. *)
Theorem dashboard_final_frame calls n m now de :
  let d := dash_run calls (new_dashboard n m) in
  s_log_lines (snapshot now d) = last_n n (log_lines calls) ∧
  Forall (λ v, view_stage v = READY ∨ view_stage v = FAILED) (s_vms (snapshot now (abort_unfinished de d))) ∧
  (view_name <$> s_vms (snapshot now (abort_unfinished de d))) = (view_name <$> s_vms (snapshot now d)).
Proof.
  intros d. split_and!.
  - destruct (dash_run_log calls (new_dashboard n m)) as [H1 _]. unfold d. cbn [snapshot s_log_lines]. rewrite H1.
    apply (ring_fold_last_n n (log_lines calls) []).
  - cbn. unfold dict_values. rewrite !Forall_fmap. eapply Forall_impl; [apply (abort_terminal de d)|].
    intros [k rec] H. cbn in H |- *. unfold is_terminal in H. apply bool_decide_eq_true in H. set_solver.
  - cbn. unfold dict_values, dict_map. rewrite <-!list_fmap_compose. apply list_fmap_ext. intros i [k rec] _. cbn.
    unfold abort_one. by destruct (is_terminal (rec_stage rec)).
Qed.
