(* ===== verification/Eff.v ===== *)
(** * Effectful code

    A Python procedure reads and changes a world [W] and returns or raises; the
    changes made before an exception stay.  [act W A] is that shape, with the
    combinators the code uses: [try/except], [finally] and the [for] loop. *)

From S2P Require Import Prelude Exceptions.
From stdpp Require Import options.

Definition act (W A : Type) : Type := W → res A * W.

Global Instance act_ret W : MRet (act W) := λ A a w, (Ok a, w).
Global Instance act_bind W : MBind (act W) := λ A B k m w,
  match m w with
  | (Ok a, w') => k a w'
  | (Raise e, w') => (Raise e, w')
  end.

Definition lift {W A} (r : res A) : act W A := λ w, (r, w).
Definition throw {W A} (c : exc_class) (args : list string) : act W A := lift (raise c args).
Definition gets {W A} (f : W → A) : act W A := λ w, (Ok (f w), w).
Definition modify {W} (f : W → W) : act W () := λ w, (Ok (), f w).

(** [if b: raise c(args)] *)
Definition throw_when {W} (b : bool) (c : exc_class) (args : list string) : act W () :=
  lift (raise_when b c args).

(** [if b: body] *)
Definition act_when {W} (b : bool) (m : act W ()) : act W () := if b then m else mret ().

(** [try: m / except p as e: h]: the handler runs in the world [m] left. *)
Definition catch {W A} (m : act W A) (p : exn → bool) (h : exn → act W A) : act W A := λ w,
  match m w with
  | (Ok a, w') => (Ok a, w')
  | (Raise e, w') => if p e then h e w' else (Raise e, w')
  end.

(** [try: m / finally: f]: [f] always runs; its exception replaces [m]'s. *)
Definition finally {W A} (m : act W A) (f : act W ()) : act W A := λ w,
  let '(r, w1) := m w in
  match f w1 with
  | (Ok _, w2) => (r, w2)
  | (Raise e, w2) => (Raise e, w2)
  end.

(** [for x in l: s = body(s, x)] *)
Fixpoint foldA {W S A} (f : S → A → act W S) (s : S) (l : list A) : act W S :=
  match l with
  | [] => mret s
  | x :: l => s' ← f s x; foldA f s' l
  end.

Definition forA {W A} (f : A → act W ()) (l : list A) : act W () :=
  foldA (λ _, f) () l.

(** ** Equations *)

Lemma act_bind_Ok {W A B} (m : act W A) (k : A → act W B) w a w' :
  m w = (Ok a, w') → (m ≫= k) w = k a w'.
Proof. intros H. unfold mbind, act_bind. by rewrite H. Qed.

Lemma act_bind_Raise {W A B} (m : act W A) (k : A → act W B) w e w' :
  m w = (Raise e, w') → (m ≫= k) w = (Raise e, w').
Proof. intros H. unfold mbind, act_bind. by rewrite H. Qed.

(** The result of a bind, split by the outcome of its first part. *)
Lemma act_bind_inv {W A B} (m : act W A) (k : A → act W B) w r w' :
  (m ≫= k) w = (r, w') →
  (∃ a w1, m w = (Ok a, w1) ∧ k a w1 = (r, w')) ∨
  (∃ e, m w = (Raise e, w') ∧ r = Raise e).
Proof.
  unfold mbind, act_bind. destruct (m w) as [[a|e] w1]; intros H; [left; eauto|].
  right. exists e. by simplify_eq.
Qed.

Lemma act_bind_gets {W A B} (f : W → A) (k : A → act W B) w : (gets f ≫= k) w = k (f w) w.
Proof. done. Qed.

Lemma act_bind_ret {W A B} (a : A) (k : A → act W B) w : ((mret a : act W A) ≫= k) w = k a w.
Proof. done. Qed.

Lemma finally_inv {W A} (m : act W A) (f : act W ()) w r w' :
  finally m f w = (r, w') →
  ∃ r1 w1, m w = (r1, w1) ∧ ((f w1 = (Ok (), w') ∧ r = r1) ∨ ∃ e, f w1 = (Raise e, w') ∧ r = Raise e).
Proof.
  unfold finally. destruct (m w) as [r1 w1]. destruct (f w1) as [[[]|e] w2] eqn:E; intros [= <- <-];
    exists r1, w1; eauto.
Qed.

Lemma foldA_app {W S A} (f : S → A → act W S) s l1 l2 w :
  foldA f s (l1 ++ l2) w = (s' ← foldA f s l1; foldA f s' l2) w.
Proof.
  revert s w. induction l1 as [|x l1 IH]; intros s w; cbn; [done|].
  unfold mbind, act_bind in *. destruct (f s x w) as [[s1|e] w1]; [|done]. apply IH.
Qed.

(** ** Reasoning about every outcome

    [hoare P m Q]: from a world satisfying [P], the outcome and the world after
    [m] satisfy [Q]. *)
Definition hoare {W A} (P : W → Prop) (m : act W A) (Q : res A → W → Prop) : Prop :=
  ∀ w r w', P w → m w = (r, w') → Q r w'.

Lemma hoare_ret {W A} (P : W → Prop) (a : A) (Q : res A → W → Prop) :
  (∀ w, P w → Q (Ok a) w) → hoare P (mret a) Q.
Proof. intros H w r w' HP [= <- <-]. auto. Qed.

Lemma hoare_bind {W A B} (P : W → Prop) (m : act W A) (k : A → act W B)
    (R : res A → W → Prop) (Q : res B → W → Prop) :
  hoare P m R → (∀ a, hoare (R (Ok a)) (k a) Q) → (∀ e w, R (Raise e) w → Q (Raise e) w) →
  hoare P (m ≫= k) Q.
Proof.
  intros Hm Hk He w r w' HP [(a & w1 & H1 & H2)|(e & H1 & ->)]%act_bind_inv.
  - eapply Hk; [by eapply Hm|done].
  - apply He. by eapply Hm.
Qed.

Lemma hoare_catch {W A} (P : W → Prop) (m : act W A) p h (R Q : res A → W → Prop) :
  hoare P m R → (∀ e, p e = true → hoare (R (Raise e)) (h e) Q) →
  (∀ r w, R r w → (∀ e, r = Raise e → p e = false) → Q r w) →
  hoare P (catch m p h) Q.
Proof.
  intros Hm Hh HR w r w' HP. unfold catch. destruct (m w) as [[a|e] w1] eqn:E.
  - intros [= <- <-]. apply HR; [by eapply Hm|done].
  - destruct (p e) eqn:Hp.
    + intros Hr. eapply Hh; [done| |done]. by eapply Hm.
    + intros [= <- <-]. apply HR; [by eapply Hm|]. naive_solver.
Qed.

(** The invariant rule of an effectful [for] loop. *)
Lemma hoare_foldA {W S A} (I : list A → S → W → Prop) (Q : res S → W → Prop)
    (f : S → A → act W S) l s :
  (∀ done x rest s, l = done ++ x :: rest →
     hoare (I done s) (f s x) (λ r w, match r with
       | Ok s' => I (done ++ [x]) s' w
       | Raise e => Q (Raise e) w end)) →
  (∀ s w, I l s w → Q (Ok s) w) →
  hoare (I [] s) (foldA f s l) Q.
Proof.
  intros Hstep Hend. cut (∀ todo done s, l = done ++ todo → hoare (I done s) (foldA f s todo) Q).
  { intros H. by apply (H l []). }
  induction todo as [|x todo IH]; intros done s1 Hl; cbn.
  - apply hoare_ret. intros w Hw. apply Hend. by rewrite Hl, app_nil_r.
  - eapply hoare_bind; [by eapply Hstep| |done]. intros s2. cbn.
    apply (IH (done ++ [x])). by rewrite <-app_assoc.
Qed.

(** ** What a successful program does

    [okay_on view m Q]: whenever [m] returns, [Q] relates what [view] sees before, the
    value, and what it sees after. *)

Section Okay.
Context {W V : Type} (view : W → V).
Definition okay_on {A} (m : act W A) (Q : V → A → V → Prop) : Prop :=
  ∀ s a s', m s = (Ok a, s') → Q (view s) a (view s').

Lemma okay_weaken {A} (m : act W A) (P Q : V → A → V → Prop) :
  okay_on m P → (∀ v a v', P v a v' → Q v a v') → okay_on m Q.
Proof. intros H HPQ s a s' Hm. by apply HPQ, H. Qed.
Lemma okay_ret {A} (a : A) : okay_on (mret a) (λ v x v', x = a ∧ v' = v).
Proof. by intros s x s' [= <- <-]. Qed.
Lemma okay_lift {A} (r : res A) : okay_on (lift r) (λ v x v', r = Ok x ∧ v' = v).
Proof. by intros s x s' [= -> <-]. Qed.
Lemma okay_throw_when t c args : okay_on (throw_when t c args : act W ()) (λ v _ v', t = false ∧ v' = v).
Proof. intros s x s'. unfold throw_when, lift. intros [= H <-]. by apply raise_if_Ok in H. Qed.
Lemma okay_throw {A} c args (Q : V → A → V → Prop) : okay_on (throw c args : act W A) Q.
Proof. by intros s a s' [=]. Qed.
Lemma okay_gets {A} (f : W → A) : okay_on (gets f) (λ v _ v', v' = v).
Proof. by intros s x s' [= <- <-]. Qed.
Lemma okay_bind {A B} (m : act W A) (k : A → act W B) P (Q : A → V → B → V → Prop) :
  okay_on m P → (∀ a, okay_on (k a) (Q a)) → okay_on (m ≫= k) (λ v c v', ∃ a v1, P v a v1 ∧ Q a v1 c v').
Proof.
  intros Hm Hk s c s' [(a & s1 & H1 & H2)|(e & _ & [=])]%act_bind_inv. exists a, (view s1). split; [by apply Hm|by apply (Hk a)].
Qed.
Lemma okay_lift_Ok {A B} (a : A) (k : A → act W B) Q : okay_on (k a) Q → okay_on (lift (Ok a) ≫= k) Q.
Proof. done. Qed.
Lemma okay_if {A} (t : bool) (m1 m2 : act W A) P Q :
  okay_on m1 P → okay_on m2 Q → okay_on (if t then m1 else m2) (λ v a v', if t then P v a v' else Q v a v').
Proof. by destruct t. Qed.

Lemma okay_catch_throw {A} (m : act W A) p h P :
  okay_on m P → (∀ e, okay_on (h e) (λ _ _ _, False)) → okay_on (catch m p h) P.
Proof.
  intros Hm Hh s a s'. unfold catch. destruct (m s) as [[x|e] s1] eqn:Hs; [intros [= <- <-]; by apply Hm|].
  destruct (p e); [|done]. intros H. by apply Hh in H.
Qed.
End Okay.
