(* ===== verification/PyBytes.v ===== *)
(** * Python [bytes] and [str]

    [bytes] is a list of 8-bit characters; [str] is a list of code points.  The
    operations are the ones the code uses: [find], slices, UTF-8 decoding with
    replacement, [strip], the first field of [split]. *)

From S2P Require Import Prelude Exceptions.
From stdpp Require Import options.

Definition bytes : Type := list ascii.

(** A byte-string literal. *)
Definition b (s : string) : bytes := String.list_ascii_of_string s.
Abbreviation str := String.string_of_list_ascii.

Lemma str_b s : str (b s) = s.
Proof. apply String.string_of_list_ascii_of_string. Qed.
Lemma b_str l : b (str l) = l.
Proof. apply String.list_ascii_of_string_of_list_ascii. Qed.
Lemma str_inj l1 l2 : str l1 = str l2 → l1 = l2.
Proof. intros H%(f_equal b). by rewrite !b_str in H. Qed.


(** [data[i:j]] for [0 <= i] and [0 <= j]. *)
Definition slice {A} (data : list A) (i j : nat) : list A := take (j - i) (drop i data).

Fixpoint starts_with {A} `{EqDecision A} (pat data : list A) : bool :=
  match pat, data with
  | [], _ => true
  | x :: pat, y :: data => bool_decide (x = y) && starts_with pat data
  | _ :: _, [] => false
  end.

(** [data.find(pat)]: the least index at which [pat] occurs, [None] for [-1]. *)
Fixpoint find {A} `{EqDecision A} (pat data : list A) : option nat :=
  if starts_with pat data then Some 0
  else match data with
  | [] => None
  | _ :: data => S <$> find pat data
  end.

(** [data.find(pat, start)] *)
Definition find_from {A} `{EqDecision A} (pat data : list A) (start : nat) : option nat :=
  (λ i, start + i) <$> find pat (drop start data).

(** [pat in data] *)
Definition contains_sub {A} `{EqDecision A} (pat data : list A) : bool :=
  bool_decide (is_Some (find pat data)).

(** ** UTF-8 decoding with [errors="replace"] *)

Definition pystr : Type := list N.

Definition u (s : string) : pystr := N_of_ascii <$> b s.

Definition REPLACEMENT : N := 65533.

(** A continuation byte, between [lo] and [hi]. *)
Definition cont_in (lo hi : N) (c : ascii) : bool :=
  ((lo <=? N_of_ascii c) && (N_of_ascii c <=? hi))%N.
Definition low6 (c : ascii) : N := N.land (N_of_ascii c) 63.

(** The bounds of the byte after a three- or four-byte lead. *)
Definition second_lo (c0 : N) : N := if (c0 =? 224)%N then 160 else if (c0 =? 240)%N then 144 else 128.
Definition second_hi (c0 : N) : N := if (c0 =? 237)%N then 159 else if (c0 =? 244)%N then 143 else 191.

(** A maximal valid prefix of an ill-formed sequence is one replacement
    character; decoding resumes at the byte that broke it. *)
Fixpoint decode_replace (l : bytes) : pystr :=
  match l with
  | [] => []
  | x0 :: l1 =>
    let c0 := N_of_ascii x0 in
    if (c0 <? 128)%N then c0 :: decode_replace l1
    else if ((194 <=? c0) && (c0 <=? 223))%N then
      match l1 with
      | [] => [REPLACEMENT]
      | x1 :: l2 =>
        if cont_in 128 191 x1 then (N.lor (N.shiftl (N.land c0 31) 6) (low6 x1)) :: decode_replace l2
        else REPLACEMENT :: decode_replace l1
      end
    else if ((224 <=? c0) && (c0 <=? 239))%N then
      match l1 with
      | [] => [REPLACEMENT]
      | x1 :: l2 =>
        if cont_in (second_lo c0) (second_hi c0) x1 then
          match l2 with
          | [] => [REPLACEMENT]
          | x2 :: l3 =>
            if cont_in 128 191 x2 then
              (N.lor (N.shiftl (N.land c0 15) 12) (N.lor (N.shiftl (low6 x1) 6) (low6 x2))) :: decode_replace l3
            else REPLACEMENT :: decode_replace l2
          end
        else REPLACEMENT :: decode_replace l1
      end
    else if ((240 <=? c0) && (c0 <=? 244))%N then
      match l1 with
      | [] => [REPLACEMENT]
      | x1 :: l2 =>
        if cont_in (second_lo c0) (second_hi c0) x1 then
          match l2 with
          | [] => [REPLACEMENT]
          | x2 :: l3 =>
            if cont_in 128 191 x2 then
              match l3 with
              | [] => [REPLACEMENT]
              | x3 :: l4 =>
                if cont_in 128 191 x3 then
                  (N.lor (N.shiftl (N.land c0 7) 18)
                    (N.lor (N.shiftl (low6 x1) 12) (N.lor (N.shiftl (low6 x2) 6) (low6 x3)))) :: decode_replace l4
                else REPLACEMENT :: decode_replace l3
              end
            else REPLACEMENT :: decode_replace l2
          end
        else REPLACEMENT :: decode_replace l1
      end
    else REPLACEMENT :: decode_replace l1
  end.

(** ** [str] methods *)

(** [str.isspace] of one code point. *)
Definition is_space (c : N) : bool :=
  ((9 <=? c) && (c <=? 13) || (28 <=? c) && (c <=? 32) || (c =? 133) || (c =? 160) || (c =? 5760)
   || (8192 <=? c) && (c <=? 8202) || (c =? 8232) || (c =? 8233) || (c =? 8239) || (c =? 8287)
   || (c =? 12288))%N.

Fixpoint drop_while {A} (p : A → bool) (l : list A) : list A :=
  match l with
  | [] => []
  | x :: l' => if p x then drop_while p l' else l
  end.

Fixpoint take_while {A} (p : A → bool) (l : list A) : list A :=
  match l with
  | [] => []
  | x :: l' => if p x then x :: take_while p l' else []
  end.

(** [text.strip()] *)
Definition strip (s : pystr) : pystr := reverse (drop_while is_space (reverse (drop_while is_space s))).

(** [s.split(maxsplit=1)[0]] of a stripped, non-empty [s]. *)
Definition first_field (s : pystr) : pystr := take_while (λ c, negb (is_space c)) s.

Example decode_ascii : decode_replace (b "ok") = u "ok".
Proof. reflexivity. Qed.
(** A two-byte, a three-byte and a truncated sequence, and a stray byte. *)
Example decode_mixed :
  decode_replace (ascii_of_N <$> [195; 169; 226; 130; 172; 255; 226; 130]%N) = [233; 8364; 65533; 65533]%N.
Proof. reflexivity. Qed.

(** ** Lemmas *)

Lemma starts_with_spec {A} `{EqDecision A} (pat data : list A) :
  starts_with pat data = true ↔ pat `prefix_of` data.
Proof.
  revert data. induction pat as [|x pat IH]; intros data; cbn.
  - split; [intros _; apply prefix_nil|done].
  - destruct data as [|y data]; [split; [done|intros [k [=]]]|].
    rewrite andb_true_iff, bool_decide_eq_true, IH. split.
    + intros [-> Hp]. by apply prefix_cons.
    + intros Hp. split; [by apply prefix_cons_inv_1 in Hp|by apply prefix_cons_inv_2 in Hp].
Qed.

Lemma find_Some {A} `{EqDecision A} (pat data : list A) i :
  find pat data = Some i ↔
    pat `prefix_of` drop i data ∧ i ≤ length data ∧ ∀ j, j < i → ¬ pat `prefix_of` drop j data.
Proof.
  revert i. induction data as [|x data IH]; intros i; cbn [find].
  - destruct (starts_with pat []) eqn:Hs.
    + apply starts_with_spec in Hs. split.
      * intros [= <-]. split_and!; [done|done|lia].
      * intros (_ & Hi & _). cbn in Hi. f_equal. lia.
    + split; [done|]. intros (Hp & _ & _). rewrite drop_nil in Hp. apply starts_with_spec in Hp. congruence.
  - destruct (starts_with pat (x :: data)) eqn:Hs.
    + apply starts_with_spec in Hs. split.
      * intros [= <-]. split_and!; [done|lia|lia].
      * intros (_ & _ & Hmin). destruct i as [|i]; [done|]. destruct (Hmin 0); [lia|done].
    + assert (¬ pat `prefix_of` x :: data) as Hn by (rewrite <-starts_with_spec; by rewrite Hs).
      rewrite fmap_Some. setoid_rewrite IH. split.
      * intros (i' & (Hp & Hl & Hmin) & ->). cbn. split_and!; [done|lia|].
        intros [|j] Hj; [done|]. apply Hmin. lia.
      * intros (Hp & Hl & Hmin). destruct i as [|i]; [done|]. exists i. cbn in Hp, Hl. split_and!; [done|lia| |done].
        intros j Hj. apply (Hmin (S j)). lia.
Qed.

Lemma find_None {A} `{EqDecision A} (pat data : list A) :
  find pat data = None ↔ ∀ j, ¬ pat `prefix_of` drop j data.
Proof.
  split.
  - intros Hf j Hp. cut (∃ i, find pat data = Some i); [naive_solver|]. clear Hf. revert j Hp.
    induction data as [|x data IH]; intros j Hp; cbn [find].
    + rewrite drop_nil in Hp. apply starts_with_spec in Hp. rewrite Hp. eauto.
    + destruct (starts_with pat (x :: data)) eqn:Hs; [eauto|]. destruct j as [|j].
      * apply starts_with_spec in Hp. cbn [drop] in Hp. congruence.
      * destruct (IH j Hp) as [i ->]. eauto.
  - intros Hn. destruct (find pat data) as [i|] eqn:Hf; [|done]. apply find_Some in Hf as [Hp _]. by destruct (Hn i).
Qed.

(** Searching past a prefix in which the pattern does not start. *)
Lemma find_skip {A} `{EqDecision A} (pat l1 l2 : list A) :
  (∀ j, j < length l1 → ¬ pat `prefix_of` drop j (l1 ++ l2)) → pat `prefix_of` l2 →
  find pat (l1 ++ l2) = Some (length l1).
Proof.
  intros Hn Hp. apply find_Some. rewrite drop_app_length. split_and!; [done|rewrite length_app; lia|done].
Qed.

Lemma find_from_Some {A} `{EqDecision A} (pat data : list A) s i :
  find_from pat data s = Some i ↔ s ≤ i ∧ find pat (drop s data) = Some (i - s).
Proof.
  unfold find_from. rewrite fmap_Some. split.
  - intros (k & Hk & ->). split; [lia|]. by replace (s + k - s) with k by lia.
  - intros [Hi Hf]. exists (i - s). split; [done|lia].
Qed.

Lemma take_while_prefix {A} (p : A → bool) l1 x l2 :
  Forall (λ y, p y = true) l1 → p x = false → take_while p (l1 ++ x :: l2) = l1.
Proof. induction 1 as [|y l Hy _ IH]; intros Hx; cbn; [by rewrite Hx|]. rewrite Hy. by rewrite IH. Qed.

Lemma drop_while_app {A} (p : A → bool) l x t :
  Forall (λ y, p y = true) l → p x = false → drop_while p (l ++ x :: t) = x :: t.
Proof. induction 1 as [|y l Hy _ IH]; intros Hx; cbn; [by rewrite Hx|]. rewrite Hy. auto. Qed.

Lemma decode_app_ascii l1 l2 :
  Forall (λ c, (N_of_ascii c <? 128)%N = true) l1 →
  decode_replace (l1 ++ l2) = (N_of_ascii <$> l1) ++ decode_replace l2.
Proof. induction 1 as [|x l Hx _ IH]; [done|]. cbn. rewrite Hx. by rewrite IH. Qed.

(** ** Base64, as the failure log rides the serial console

    [a2b] is [base64.b64decode] ([binascii.a2b_base64], non-strict); [b2a] the
    encoder the guest runs; [decode_b64_tolerant] is the code's own salvage of a
    damaged block ([orchestrator/vm_build.py]). *)

(** The value of an alphabet character. *)
Definition b64_value (c : ascii) : option N :=
  let n := N_of_ascii c in
  if ((65 <=? n) && (n <=? 90))%N then Some (n - 65)%N
  else if ((97 <=? n) && (n <=? 122))%N then Some (n - 71)%N
  else if ((48 <=? n) && (n <=? 57))%N then Some (n + 4)%N
  else if (n =? 43)%N then Some 62%N
  else if (n =? 47)%N then Some 63%N
  else None.

(** The character of a 6-bit value. *)
Definition b64_char (v : N) : ascii :=
  ascii_of_N (if (v <? 26)%N then v + 65 else if (v <? 52)%N then v + 71 else if (v <? 62)%N then v - 4
    else if (v =? 62)%N then 43 else 47)%N.

(** [b in _B64_ALPHABET] *)
Definition in_alphabet (c : ascii) : bool := bool_decide (is_Some (b64_value c)).

(** ** Encoding *)
Fixpoint b2a (data : bytes) : bytes :=
  match data with
  | [] => []
  | [x] =>
      let n := N_of_ascii x in
      [b64_char (N.shiftr n 2); b64_char (N.shiftl (N.land n 3) 4); "="%char; "="%char]
  | [x; y] =>
      let n := N_of_ascii x in let m := N_of_ascii y in
      [b64_char (N.shiftr n 2); b64_char (N.lor (N.shiftl (N.land n 3) 4) (N.shiftr m 4));
       b64_char (N.shiftl (N.land m 15) 2); "="%char]
  | x :: y :: z :: data =>
      let n := N_of_ascii x in let m := N_of_ascii y in let k := N_of_ascii z in
      b64_char (N.shiftr n 2) :: b64_char (N.lor (N.shiftl (N.land n 3) 4) (N.shiftr m 4)) ::
      b64_char (N.lor (N.shiftl (N.land m 15) 2) (N.shiftr k 6)) :: b64_char (N.land k 63) :: b2a data
  end.

(** ** Decoding: the quantum position, the bits left over and the pads seen *)
Fixpoint a2b_loop (quad_pos : nat) (leftchar : N) (pads : nat) (l : bytes) : res bytes :=
  match l with
  | [] =>
      match quad_pos with
      | 0 => mret []
      | 1 => raise ValueError ["number of data characters cannot be 1 more than a multiple of 4"]
      | _ => raise ValueError ["Incorrect padding"]
      end
  | c :: l =>
      if bool_decide (c = "="%char) then
        if (2 <=? quad_pos) && (4 <=? quad_pos + S pads) then mret []
        else a2b_loop quad_pos leftchar (if 2 <=? quad_pos then S pads else pads) l
      else match b64_value c with
      | None => a2b_loop quad_pos leftchar pads l
      | Some v =>
          match quad_pos with
          | 0 => a2b_loop 1 v 0 l
          | 1 => (λ r, ascii_of_N (N.lor (N.shiftl leftchar 2) (N.shiftr v 4)) :: r) <$>
                   a2b_loop 2 (N.land v 15) 0 l
          | 2 => (λ r, ascii_of_N (N.lor (N.shiftl leftchar 4) (N.shiftr v 2)) :: r) <$>
                   a2b_loop 3 (N.land v 3) 0 l
          | _ => (λ r, ascii_of_N (N.lor (N.shiftl leftchar 6) v) :: r) <$> a2b_loop 0 0 0 l
          end
      end
  end.

Definition b64decode (l : bytes) : res bytes := a2b_loop 0 0 0 l.

(** The re-padding of the kept bytes, and their decoding. *)
Definition decode_compact (compact : bytes) : bytes :=
  let rem := length compact mod 4 in
  let compact :=
    if decide (rem = 1) then take (length compact - 1) compact
    else if decide (rem = 0) then compact
    else compact ++ repeat "="%char (4 - rem) in
  match compact with
  | [] => []
  | _ => match b64decode compact with
         | Ok r => r
         | Raise _ => []
         end
  end.

(** [_decode_b64_tolerant]: keep alphabet bytes, re-pad, decode. *)
Definition decode_b64_tolerant (raw : bytes) : bytes :=
  decode_compact (filter (λ c, in_alphabet c = true) raw).

Example b64_man : b2a (b "Man is") = b "TWFuIGlz".
Proof. reflexivity. Qed.
Example b64_tolerant_demo :
  decode_b64_tolerant (b "TWFu" ++ (ascii_of_N <$> [13; 10]%N) ++ b "IGlz" ++ b "!" ++ b "IG9rCg==") = b "Man is ok" ++ ["010"%char].
Proof. vm_compute. reflexivity. Qed.

(** ** Round trip *)

(** Every byte and 6-bit value, checked once and for all. *)
Definition all_bytes : list ascii := (λ n, ascii_of_nat n) <$> seq 0 256.

Lemma all_bytes_complete c : c ∈ all_bytes.
Proof.
  apply list_elem_of_fmap. exists (nat_of_ascii c). split; [by rewrite ascii_nat_embedding|].
  apply elem_of_seq. pose proof (nat_ascii_bounded c). lia.
Qed.

Lemma forall_bytes (P : ascii → Prop) `{!∀ c, Decision (P c)} :
  forallb (λ c, bool_decide (P c)) all_bytes = true → ∀ c, P c.
Proof.
  rewrite forallb_forall. intros Hall c. eapply bool_decide_eq_true_1, Hall.
  apply list_elem_of_In, all_bytes_complete.
Qed.

Lemma b64_value_bound c v : b64_value c = Some v → (v < 64)%N.
Proof.
  cut (∀ c, (match b64_value c with Some v => v <? 64 | None => true end)%N = true).
  { intros H Hc. specialize (H c). rewrite Hc in H. by apply N.ltb_lt. }
  clear. apply (forall_bytes (λ c, _ = true)). vm_compute. reflexivity.
Qed.

Lemma b64_char_value v : (v < 64)%N → b64_value (b64_char v) = Some v.
Proof.
  intros Hv. cut (forallb (λ n, bool_decide (b64_value (b64_char (N.of_nat n)) = Some (N.of_nat n))) (seq 0 64) = true).
  - rewrite forallb_forall. intros Hall. specialize (Hall (N.to_nat v)).
    rewrite in_seq, bool_decide_eq_true, N2Nat.id in Hall. apply Hall. lia.
  - vm_compute. reflexivity.
Qed.

Lemma pad_not_alphabet c v : b64_value c = Some v → c ≠ "="%char.
Proof. by intros Hc ->. Qed.

(** What a list of 6-bit values denotes; a last, lone value carries no byte. *)
Fixpoint dec4 (vs : list N) : bytes :=
  match vs with
  | v0 :: v1 :: rest =>
      ascii_of_N (N.lor (N.shiftl v0 2) (N.shiftr v1 4)) ::
      match rest with
      | v2 :: rest =>
          ascii_of_N (N.lor (N.shiftl (N.land v1 15) 4) (N.shiftr v2 2)) ::
          match rest with
          | v3 :: rest => ascii_of_N (N.lor (N.shiftl (N.land v2 3) 6) v3) :: dec4 rest
          | [] => []
          end
      | [] => []
      end
  | _ => []
  end.

(** The 6-bit values of a byte string. *)
Fixpoint enc6 (data : bytes) : list N :=
  match data with
  | [] => []
  | [x] => let n := N_of_ascii x in [N.shiftr n 2; N.shiftl (N.land n 3) 4]
  | [x; y] =>
      let n := N_of_ascii x in let m := N_of_ascii y in
      [N.shiftr n 2; N.lor (N.shiftl (N.land n 3) 4) (N.shiftr m 4); N.shiftl (N.land m 15) 2]
  | x :: y :: z :: data =>
      let n := N_of_ascii x in let m := N_of_ascii y in let k := N_of_ascii z in
      N.shiftr n 2 :: N.lor (N.shiftl (N.land n 3) 4) (N.shiftr m 4) ::
      N.lor (N.shiftl (N.land m 15) 2) (N.shiftr k 6) :: N.land k 63 :: enc6 data
  end.

Lemma list_ind3 {A} (P : list A → Prop) :
  P [] → (∀ x, P [x]) → (∀ x y, P [x; y]) → (∀ x y z l, P l → P (x :: y :: z :: l)) → ∀ l, P l.
Proof.
  intros H0 H1 H2 H3. fix IH 1. intros [|x [|y [|z l]]]; [done|apply H1|apply H2|apply H3, IH].
Qed.
Lemma list_ind4 {A} (P : list A → Prop) :
  P [] → (∀ x, P [x]) → (∀ x y, P [x; y]) → (∀ x y z, P [x; y; z]) →
  (∀ x y z t l, P l → P (x :: y :: z :: t :: l)) → ∀ l, P l.
Proof.
  intros H0 H1 H2 H3 H4. fix IH 1.
  intros [|x [|y [|z [|t l]]]]; [done|apply H1|apply H2|apply H3|apply H4, IH].
Qed.

(** Decoding alphabet characters, padded to whole quanta. *)
Lemma a2b_step c v q x p l :
  b64_value c = Some v →
  a2b_loop q x p (c :: l) =
    match q with
    | 0 => a2b_loop 1 v 0 l
    | 1 => (λ r, ascii_of_N (N.lor (N.shiftl x 2) (N.shiftr v 4)) :: r) <$> a2b_loop 2 (N.land v 15) 0 l
    | 2 => (λ r, ascii_of_N (N.lor (N.shiftl x 4) (N.shiftr v 2)) :: r) <$> a2b_loop 3 (N.land v 3) 0 l
    | _ => (λ r, ascii_of_N (N.lor (N.shiftl x 6) v) :: r) <$> a2b_loop 0 0 0 l
    end.
Proof. intros Hc. cbn. rewrite bool_decide_false by (by eapply pad_not_alphabet). by rewrite Hc. Qed.

Lemma a2b_padded l vs :
  Forall2 (λ c v, b64_value c = Some v) l vs → length l mod 4 ≠ 1 →
  b64decode (l ++ repeat "="%char (if decide (length l mod 4 = 0) then 0 else 4 - length l mod 4)) = Ok (dec4 vs).
Proof.
  intros HF. revert vs HF. unfold b64decode. induction l as [|x|x y|x y z|x y z t l IH] using list_ind4; intros vs HF Hm;
    repeat (let v := fresh "v" in let Hv := fresh "Hv" in apply Forall2_cons_inv_l in HF as (v & ? & Hv & HF & ->));
    try (apply Forall2_nil_inv_l in HF as ->).
  - done.
  - done.
  - cbn [length Nat.modulo Nat.divmod fst snd Nat.sub app]. by erewrite !a2b_step by done.
  - cbn [length Nat.modulo Nat.divmod fst snd Nat.sub app]. by erewrite !a2b_step by done.
  - assert (length (x :: y :: z :: t :: l) mod 4 = length l mod 4) as Heq.
    { cbn [length]. replace (S (S (S (S (length l))))) with (length l + 1 * 4) by lia. by rewrite Nat.Div0.mod_add. }
    rewrite Heq in *. cbn [app]. erewrite !a2b_step by done. rewrite (IH _ HF Hm). done.
Qed.

Lemma filter_alphabet_values raw :
  Forall2 (λ c v, b64_value c = Some v) (filter (λ c, in_alphabet c = true) raw) (omap b64_value raw).
Proof.
  induction raw as [|c raw IH]; [done|]. rewrite filter_cons. cbn [omap list_omap].
  destruct (b64_value c) as [v|] eqn:Hc.
  - rewrite decide_True by (unfold in_alphabet; by rewrite Hc). by constructor.
  - rewrite decide_False by (unfold in_alphabet; by rewrite Hc). done.
Qed.

Lemma dec4_snoc_lone vs v : length vs mod 4 = 0 → dec4 (vs ++ [v]) = dec4 vs.
Proof.
  induction vs as [|x|x y|x y z|x y z t l IH] using list_ind4; intros Hm; [done..|].
  cbn [app dec4]. rewrite IH; [done|]. cbn [length] in Hm.
  replace (S (S (S (S (length l))))) with (length l + 1 * 4) in Hm by lia. by rewrite Nat.Div0.mod_add in Hm.
Qed.

(** The tolerant decoder is total and denotes the alphabet bytes of its input:
    the decoding error the code guards against cannot happen. *)
Lemma decode_compact_values l vs :
  Forall2 (λ c v, b64_value c = Some v) l vs → decode_compact l = dec4 vs.
Proof.
  intros HF. unfold decode_compact.
  pose proof (Forall2_length _ _ _ HF) as Hlen. cbn zeta. destruct (decide (length l mod 4 = 1)) as [H1|H1].
  - destruct l as [|c l0 _] using rev_ind; [done|]. apply Forall2_app_inv_l in HF as (vs0 & vs1 & HF0 & HF1 & ->).
    apply Forall2_cons_inv_l in HF1 as (v & ? & Hv & HF1 & ->). apply Forall2_nil_inv_l in HF1 as ->.
    rewrite length_app in *. cbn [length] in *. replace (length l0 + 1 - 1) with (length l0) by lia.
    rewrite take_app_length. pose proof (Forall2_length _ _ _ HF0) as Hlen0.
    assert (length l0 mod 4 = 0) as Hm.
    { pose proof (Nat.Div0.add_mod (length l0) 1 4) as Hx. rewrite H1 in Hx.
      pose proof (Nat.mod_upper_bound (length l0) 4 ltac:(lia)) as Hb.
      destruct (length l0 mod 4) as [|[|[|[|]]]]; cbn in Hx; lia. }
    rewrite dec4_snoc_lone by (by rewrite <-Hlen0).
    pose proof (a2b_padded l0 vs0 HF0) as Hd. rewrite Hm in Hd. specialize (Hd ltac:(lia)).
    cbn [repeat decide] in Hd. rewrite decide_True, app_nil_r in Hd by done. rewrite Hd.
    destruct l0 as [|? ?]; [|done]. by apply Forall2_nil_inv_l in HF0 as ->.
  - pose proof (a2b_padded l vs HF H1) as Hd. destruct (decide (length l mod 4 = 0)) as [H0|H0].
    + rewrite app_nil_r in Hd. rewrite Hd. destruct l; [|done]. by apply Forall2_nil_inv_l in HF as ->.
    + rewrite Hd. destruct l; done.
Qed.

Lemma decode_b64_tolerant_values raw : decode_b64_tolerant raw = dec4 (omap b64_value raw).
Proof. apply decode_compact_values, filter_alphabet_values. Qed.

(** ** Bits *)

Lemma forall_bytes2 (P : ascii → ascii → bool) :
  forallb (λ c, forallb (P c) all_bytes) all_bytes = true → ∀ c d, P c d = true.
Proof.
  rewrite forallb_forall. intros Hall c d.
  specialize (Hall c (proj1 (list_elem_of_In _ _) (all_bytes_complete c))). rewrite forallb_forall in Hall.
  apply Hall, list_elem_of_In, all_bytes_complete.
Qed.

Section Bits.
Local Open Scope N_scope.
Abbreviation n_ := N_of_ascii.

Lemma bits_first c d :
  N.lor (N.shiftl (N.shiftr (n_ c) 2) 2) (N.shiftr (N.lor (N.shiftl (N.land (n_ c) 3) 4) (N.shiftr (n_ d) 4)) 4) = n_ c.
Proof. apply N.eqb_eq. revert c d. apply forall_bytes2. vm_compute. reflexivity. Qed.

Lemma bits_mid c d : N.land (N.lor (N.shiftl (N.land (n_ c) 3) 4) (N.shiftr (n_ d) 4)) 15 = N.shiftr (n_ d) 4.
Proof. apply N.eqb_eq. revert c d. apply forall_bytes2. vm_compute. reflexivity. Qed.

Lemma bits_second c d :
  N.lor (N.shiftl (N.shiftr (n_ c) 4) 4) (N.shiftr (N.lor (N.shiftl (N.land (n_ c) 15) 2) (N.shiftr (n_ d) 6)) 2) = n_ c.
Proof. apply N.eqb_eq. revert c d. apply forall_bytes2. vm_compute. reflexivity. Qed.

Lemma bits_low c d : N.land (N.lor (N.shiftl (N.land (n_ c) 15) 2) (N.shiftr (n_ d) 6)) 3 = N.shiftr (n_ d) 6.
Proof. apply N.eqb_eq. revert c d. apply forall_bytes2. vm_compute. reflexivity. Qed.

Lemma bits_third c : N.lor (N.shiftl (N.shiftr (n_ c) 6) 6) (N.land (n_ c) 63) = n_ c.
Proof.
  apply (forall_bytes (λ c, N.lor (N.shiftl (N.shiftr (n_ c) 6) 6) (N.land (n_ c) 63) = n_ c)).
  vm_compute. reflexivity.
Qed.

Lemma enc_bounds c d :
  N.shiftr (n_ c) 2 < 64 ∧ N.lor (N.shiftl (N.land (n_ c) 3) 4) (N.shiftr (n_ d) 4) < 64 ∧
  N.lor (N.shiftl (N.land (n_ c) 15) 2) (N.shiftr (n_ d) 6) < 64 ∧ N.land (n_ c) 63 < 64.
Proof.
  cut ((N.shiftr (n_ c) 2 <? 64) && (N.lor (N.shiftl (N.land (n_ c) 3) 4) (N.shiftr (n_ d) 4) <? 64) &&
    (N.lor (N.shiftl (N.land (n_ c) 15) 2) (N.shiftr (n_ d) 6) <? 64) && (N.land (n_ c) 63 <? 64) = true).
  { rewrite !andb_true_iff, !N.ltb_lt. tauto. }
  revert c d. apply (forall_bytes2 (λ c d, _)). vm_compute. reflexivity.
Qed.
End Bits.

Lemma enc6_bounds data : Forall (λ v, (v < 64)%N) (enc6 data).
Proof.
  induction data as [|x|x y|x y z l IH] using list_ind3; cbn [enc6]; [done|..].
  - pose proof (enc_bounds x "000"%char) as (H1 & H2 & _). cbn in H2. rewrite N.lor_0_r in H2. by repeat constructor.
  - pose proof (enc_bounds x y) as (H1 & H2 & _). pose proof (enc_bounds y "000"%char) as (_ & _ & H3 & _).
    cbn in H3. rewrite N.lor_0_r in H3. by repeat constructor.
  - pose proof (enc_bounds x y) as (H1 & H2 & _). pose proof (enc_bounds y z) as (_ & _ & H3 & _).
    pose proof (enc_bounds z z) as (_ & _ & _ & H4). by repeat constructor.
Qed.

Lemma b2a_values data : omap b64_value (b2a data) = enc6 data.
Proof.
  pose proof (enc6_bounds data) as Hb. revert Hb.
  induction data as [|x|x y|x y z l IH] using list_ind3; cbn [enc6 b2a omap list_omap]; intros Hb;
    repeat (apply Forall_cons in Hb as [? Hb]); rewrite ?b64_char_value by done; try done.
  by rewrite IH.
Qed.

(** The first two values of a quantum give its first byte, the third the next. *)
Lemma dec4_pair v0 v1 : dec4 [v0; v1] = [ascii_of_N (N.lor (N.shiftl v0 2) (N.shiftr v1 4))].
Proof. done. Qed.

(** Decoding any initial part of an encoding gives an initial part of the data. *)
Lemma dec4_take_enc6 data k : dec4 (take k (enc6 data)) `prefix_of` data.
Proof.
  revert k. induction data as [|x|x y|x y z l IH] using list_ind3; intros k.
  - by destruct k.
  - pose proof (bits_first x "000"%char) as H1. cbn in H1. rewrite N.lor_0_r in H1.
    destruct k as [|[|k]]; cbn; [apply prefix_nil..|]. by rewrite firstn_nil, H1, ascii_N_embedding.
  - pose proof (bits_first x y) as H1. pose proof (bits_mid x y) as H2.
    pose proof (bits_second y "000"%char) as H3. cbn in H3. rewrite N.lor_0_r in H3.
    destruct k as [|[|[|k]]]; cbn; rewrite ?firstn_nil, ?H1, ?H2, ?H3, ?ascii_N_embedding;
      [apply prefix_nil..|by exists [y]|done].
  - pose proof (bits_first x y) as H1. pose proof (bits_mid x y) as H2. pose proof (bits_second y z) as H3.
    pose proof (bits_low y z) as H4. pose proof (bits_third z) as H5.
    destruct k as [|[|[|[|k]]]]; cbn [enc6 take dec4];
      rewrite ?H1, ?H2, ?H3, ?H4, ?H5, ?ascii_N_embedding; [apply prefix_nil..|by exists (y :: z :: l)|by exists (z :: l)|].
    do 3 apply prefix_cons. apply IH.
Qed.

Lemma dec4_enc6 data : dec4 (enc6 data) = data.
Proof.
  induction data as [|x|x y|x y z l IH] using list_ind3; cbn [enc6 dec4]; [done|..].
  - pose proof (bits_first x "000"%char) as H1. cbn in H1. rewrite N.lor_0_r in H1. by rewrite H1, ascii_N_embedding.
  - pose proof (bits_second y "000"%char) as H3. cbn in H3. rewrite N.lor_0_r in H3.
    by rewrite bits_first, bits_mid, H3, !ascii_N_embedding.
  - by rewrite bits_first, bits_mid, bits_second, bits_low, bits_third, !ascii_N_embedding, IH.
Qed.

(** The salvaged log.  Whatever non-alphabet bytes (line wraps, carriage
    returns, padding) are mixed into the base64 text of [data], the tolerant
    decoder returns [data]; if the text was cut anywhere, it returns an initial
    part of [data]. *)
Theorem b64_log_salvage raw data k :
  omap b64_value raw = omap b64_value (take k (b2a data)) →
  decode_b64_tolerant raw `prefix_of` data ∧
  (length (b2a data) ≤ k → decode_b64_tolerant raw = data).
Proof.
  intros Hraw. rewrite decode_b64_tolerant_values, Hraw. split.
  - assert (∃ k', omap b64_value (take k (b2a data)) = take k' (enc6 data)) as [k' ->]; [|apply dec4_take_enc6].
    rewrite <-b2a_values. generalize (b2a data) as l. intros l. exists (length (omap b64_value (take k l))).
    rewrite <-(take_drop k l) at 3. rewrite omap_app. by rewrite take_app_length.
  - intros Hk. rewrite take_ge by done. by rewrite b2a_values, dec4_enc6.
Qed.

Lemma b64_log_salvage_witness :
  decode_b64_tolerant (b "TWFu" ++ (ascii_of_N <$> [13; 10]%N) ++ b "IGlzIG9r") = b "Man is ok".
Proof.
  apply (b64_log_salvage (b "TWFu" ++ (ascii_of_N <$> [13; 10]%N) ++ b "IGlzIG9r") (b "Man is ok") 12).
  - vm_compute. reflexivity.
  - vm_compute. lia.
Defined.
