(* ===== verification/BuildResult.v ===== *)
(** * The build-result protocol ([orchestrator/vm_build.py])

    The record a build VM writes to its serial console, its parser, and the loop
    that tails the console until the record, the end of the stream or the
    deadline. *)

From S2P Require Import Prelude Exceptions PyBytes.
From stdpp Require Import options.

Definition RESULT_MARKER : bytes := b "TESTRANGE-RESULT:".
Definition LOG_BEGIN : bytes := b "TESTRANGE-LOG-BEGIN".
Definition LOG_END : bytes := b "TESTRANGE-LOG-END".
Definition NL : bytes := ["010"%char].

(** What the code uses of the Unicode database: [\w] and [\d] beyond ASCII, the
    value of a digit, and the UTF-8 text of [repr]. *)
Class Unicode : Type := {
  u_word : N → bool;
  u_digit : N → option N;
  u_repr : pystr → bytes;
}.

Record BuildResult : Type := MkBuildResult {
  ok : bool;
  rc : option N;
  cmd : option pystr;
  log : bytes;
}.

Global Instance BuildResult_eq_dec : EqDecision BuildResult.
Proof. solve_decision. Defined.

Section Parser.
Context `{Unicode}.

(** ** The two regular expressions *)

Definition is_digit (c : N) : option N :=
  if (c <? 128)%N then
    if ((48 <=? c) && (c <=? 57))%N then Some (c - 48)%N else None
  else u_digit c.

(** [\w] *)
Definition is_word (c : N) : bool :=
  if (c <? 128)%N then
    ((48 <=? c) && (c <=? 57) || (65 <=? c) && (c <=? 90) || (97 <=? c) && (c <=? 122) || (c =? 95))%N
  else u_word c.

(** [\d+], greedy: the values of the leading digits. *)
Fixpoint digits (s : pystr) : list N :=
  match s with
  | [] => []
  | c :: s => match is_digit c with Some d => d :: digits s | None => [] end
  end.

(** [re.search] of a pattern that starts with [\b] and a word character:
    the first position at a boundary where the rest matches. *)
Fixpoint search {A} (m : pystr → option A) (boundary : bool) (s : pystr) : option A :=
  match (if boundary then m s else None) with
  | Some a => Some a
  | None =>
      match s with
      | [] => None
      | c :: s => search m (negb (is_word c)) s
      end
  end.

(** [rc=(\d+)] *)
Definition match_rc (s : pystr) : option (list N) :=
  if starts_with (u "rc=") s then
    match digits (drop 3 s) with [] => None | ds => Some ds end
  else None.

(** A greedy dot-star up to a closing quote: the text before the last quote of
    the line (which holds no newline), if there is one. *)
Fixpoint until_last_quote (s : pystr) : option pystr :=
  match s with
  | [] => None
  | c :: s =>
      match until_last_quote s with
      | Some r => Some (c :: r)
      | None => if (c =? 34)%N then Some [] else None
      end
  end.

(** The command field: [cmd=], a quote, anything, a quote. *)
Definition match_cmd (s : pystr) : option pystr :=
  if starts_with (u "cmd=") s then
    match drop 4 s with
    | c :: s => if (c =? 34)%N then until_last_quote s else None
    | [] => None
    end
  else None.

(** [int(digits)]: CPython refuses more than 4300 digits. *)
Definition int_of_digits (ds : list N) : res N :=
  raise_when (4300 <? length ds) ValueError ["int"];;
  mret (foldl (λ n d, 10 * n + d) 0 ds)%N.

(** ** [_extract_log] *)
Definition extract_log (segment : bytes) : bytes * bool :=
  match find LOG_BEGIN segment with
  | None => ([], false)
  | Some begin =>
      match find_from NL segment begin with
      | None => ([], false)
      | Some content_start =>
          match find_from LOG_END segment content_start with
          | None => ([], false)
          | Some end_ => (decode_b64_tolerant (slice segment (S content_start) end_), true)
          end
      end
  end.

(** ** [parse_build_result] *)

(** [while True: idx = data.find(_RESULT_MARKER, pos) ...] *)
Fixpoint marker_offsets (fuel : nat) (data : bytes) (pos : nat) : list nat :=
  match fuel with
  | 0 => []
  | S fuel =>
      match find_from RESULT_MARKER data pos with
      | None => []
      | Some idx => idx :: marker_offsets fuel data (idx + length RESULT_MARKER)
      end
  end.

(** The outcome of one candidate record. *)
Inductive candidate : Type :=
  | Verdict (r : option BuildResult)
  | Continue.

(** [text.split(maxsplit=1)[0] if text else ""] *)
Definition tag_of (text : pystr) : pystr :=
  match text with [] => [] | _ => first_field text end.

(** The verdict on a result line, by its first token. *)
Definition judge (final is_last : bool) (segment : bytes) (text : pystr) : res candidate :=
  let tag := tag_of text in
  if decide (tag = u "ok") then mret (Verdict (Some (MkBuildResult true None None [])))
  else if decide (tag = u "fail") then
    let '(log, complete) := extract_log segment in
    if complete || final then
      rc ← (match search match_rc true text with
            | Some ds => n ← int_of_digits ds; mret (Some n)
            | None => mret None
            end : res (option N));
      mret (Verdict (Some (MkBuildResult false rc (search match_cmd true text) log)))
    else mret (if is_last then Verdict None else Continue)
  else mret (if is_last then
      Verdict (Some (MkBuildResult false None None
        (b "unrecognized build-result token; raw line: " ++ u_repr text)))
    else Continue).

(** The body of the loop over the markers, on the segment up to the next one. *)
Definition examine (final is_last : bool) (segment : bytes) : res candidate :=
  let rest := drop (length RESULT_MARKER) segment in
  match find NL rest, final with
  | None, false => mret Continue
  | None, true => judge final is_last segment (strip (decode_replace rest))
  | Some nl, _ => judge final is_last segment (strip (decode_replace (take nl rest)))
  end.

(** The loop itself: each segment runs to the next marker, the last to the end. *)
Fixpoint examine_all (final : bool) (data : bytes) (offsets : list nat) : res (option BuildResult) :=
  match offsets with
  | [] => mret None
  | idx :: offsets =>
      let is_last := match offsets with [] => true | _ => false end in
      let stop := match offsets with [] => length data | next :: _ => next end in
      c ← examine final is_last (slice data idx stop);
      match c with
      | Verdict r => mret r
      | Continue => examine_all final data offsets
      end
  end.

Definition parse_build_result (data : bytes) (final : bool) : res (option BuildResult) :=
  examine_all final data (marker_offsets (S (length data)) data 0).

(** ** [_fallback_log] *)
Definition FALLBACK_TAIL_BYTES : nat := 4096.

(** [buffer[-_FALLBACK_TAIL_BYTES:]] *)
Definition tail_bytes (buffer : bytes) : bytes := drop (length buffer - FALLBACK_TAIL_BYTES) buffer.

Definition fallback_log (buffer : bytes) : bytes :=
  match find LOG_BEGIN buffer with
  | None => tail_bytes buffer
  | Some begin =>
      match find_from NL buffer begin with
      | None => tail_bytes buffer
      | Some content_start =>
          let stop := match find_from LOG_END buffer content_start with
                      | Some e => e | None => length buffer end in
          match decode_b64_tolerant (slice buffer (S content_start) stop) with
          | [] => tail_bytes buffer
          | decoded => decoded
          end
      end
  end.

(** ** [wait_for_build_result] *)

(** What the wait ends with: success, a failed build with its diagnostics, or
    the watchdog. *)
Inductive wait_outcome : Type :=
  | Returned
  | BuildFailed (rc : option N) (cmd : option pystr) (log : bytes)
  | TimedOut.

(** [_raise_or_return] *)
Definition raise_or_return (r : BuildResult) : wait_outcome :=
  if ok r then Returned else BuildFailed (rc r) (cmd r) (log r).

(** The sink yields chunks (possibly empty heartbeats); [late] says whether the
    deadline had passed when the chunk was processed.  The stream then closes. *)
Fixpoint tail_console (buffer : bytes) (stream : list (bytes * bool)) : res wait_outcome :=
  match stream with
  | [] =>
      final ← parse_build_result buffer true;
      mret (match final with
        | Some r => raise_or_return r
        | None => BuildFailed None None (fallback_log buffer)
        end)
  | (chunk, late) :: stream =>
      match chunk with
      | [] => if late : bool then mret TimedOut else tail_console buffer stream
      | _ =>
          let buffer := buffer ++ chunk in
          result ← parse_build_result buffer false;
          match result with
          | Some r => mret (raise_or_return r)
          | None => if late : bool then mret TimedOut else tail_console buffer stream
          end
      end
  end.

Definition wait_for_build_result (stream : list (bytes * bool)) : res wait_outcome :=
  tail_console [] stream.
End Parser.
