(* ===== verification/BuildResultSpec.v ===== *)
(** * The build-result protocol: correctness *)

From S2P Require Import Prelude Exceptions PyBytes BuildResult.
From stdpp Require Import options.

(** ** Occurrences of the marker *)

(** No proper suffix of the marker is a prefix of it, so occurrences never
    overlap. *)
Lemma marker_border_free k :
  0 < k < length RESULT_MARKER → drop k RESULT_MARKER ≠ take (length RESULT_MARKER - k) RESULT_MARKER.
Proof.
  intros Hk. cut (forallb (λ k, negb (bool_decide (drop k RESULT_MARKER = take (17 - k) RESULT_MARKER))) (seq 1 16) = true).
  - rewrite forallb_forall. intros Hall Heq. specialize (Hall k). rewrite in_seq in Hall.
    change (length RESULT_MARKER) with 17 in *. specialize (Hall ltac:(lia)).
    by rewrite bool_decide_true in Hall.
  - vm_compute. reflexivity.
Qed.

Lemma prefix_take_eq {A} (l1 l2 : list A) : l1 `prefix_of` l2 → take (length l1) l2 = l1.
Proof. intros [k ->]. apply take_app_length. Qed.

(** The first marker of a text whose chatter holds none. *)
Lemma find_marker pre post :
  find RESULT_MARKER pre = None → find RESULT_MARKER (pre ++ RESULT_MARKER ++ post) = Some (length pre).
Proof.
  intros Hn0. pose proof (proj1 (find_None _ _) Hn0) as Hn. apply find_skip; [|by eexists].
  intros j Hj Hp. set (q := drop j pre).
  assert (drop j (pre ++ RESULT_MARKER ++ post) = q ++ RESULT_MARKER ++ post) as Hd by (by rewrite drop_app_le by lia).
  rewrite Hd in Hp. clear Hd. assert (0 < length q) as Hq by (unfold q; rewrite length_drop; lia).
  apply prefix_take_eq in Hp. destruct (decide (length RESULT_MARKER ≤ length q)) as [Hl|Hl].
  - apply (Hn j). fold q. rewrite take_app_le in Hp by done. rewrite <-Hp at 1. apply prefix_take.
  - apply (marker_border_free (length q)); [lia|].
    rewrite take_app_ge in Hp by lia. rewrite <-Hp at 1. rewrite drop_app_length.
    by rewrite take_app_le by lia.
Qed.

Lemma marker_offsets_step fuel data pos idx :
  find_from RESULT_MARKER data pos = Some idx →
  marker_offsets (S fuel) data pos = idx :: marker_offsets fuel data (idx + length RESULT_MARKER).
Proof. intros Hf. cbn [marker_offsets]. by rewrite Hf. Qed.

(** Every offset is an occurrence of the marker. *)
Lemma marker_offsets_occur fuel data pos idx :
  idx ∈ marker_offsets fuel data pos → RESULT_MARKER `prefix_of` drop idx data.
Proof.
  revert pos. induction fuel as [|fuel IH]; intros pos; cbn [marker_offsets]; [intros H; by apply not_elem_of_nil in H|].
  destruct (find_from RESULT_MARKER data pos) as [i|] eqn:Hf; [|intros H; by apply not_elem_of_nil in H].
  intros [->|Hin]%elem_of_cons; [|by eapply IH].
  apply find_from_Some in Hf as [Hpos Hf]. apply find_Some in Hf as [Hp _].
  rewrite drop_drop in Hp. by replace (pos + (i - pos)) with i in Hp by lia.
Qed.

Section Spec.
Context `{Unicode}.

(** [line] is a result line of [data]: it follows a marker and ends at a
    newline, or, on the end-of-stream pass, possibly without one. *)
Definition result_line (final : bool) (data line : bytes) : Prop :=
  ∃ pre post, data = pre ++ RESULT_MARKER ++ line ++ post ∧ find NL line = None ∧
    (NL `prefix_of` post ∨ final = true).

Definition ok_line (line : bytes) : Prop := tag_of (strip (decode_replace line)) = u "ok".

Lemma judge_ok final last segment text r :
  judge final last segment text = Ok (Verdict (Some r)) → ok r = true → tag_of text = u "ok".
Proof.
  unfold judge. intros Heq Hr. destruct (decide (tag_of text = u "ok")) as [Ht|Ht]; [done|].
  destruct (decide (tag_of text = u "fail")).
  - destruct (extract_log segment) as [lg cm].
    destruct (cm || final); [apply bind_Ok in Heq as (? & _ & Heq)|destruct last];
      cbv [mret result_ret] in Heq; simplify_eq; done.
  - destruct last; cbv [mret result_ret] in Heq; simplify_eq; done.
Qed.

(** The part of a text before its first newline holds none. *)
Lemma find_take_None {A} `{EqDecision A} (pat l : list A) n :
  pat ≠ [] → find pat l = Some n → find pat (take n l) = None.
Proof.
  intros Hpat Hf. apply find_Some in Hf as (_ & Hlen & Hmin). apply (proj2 (find_None _ _)). intros j Hp.
  destruct (decide (j < n)) as [Hj|Hj].
  - apply (Hmin j Hj). etrans; [exact Hp|]. rewrite <-(take_drop n l) at 2.
    rewrite drop_app_le by (rewrite length_take; lia). by apply prefix_app_r.
  - rewrite drop_ge in Hp by (rewrite length_take; lia). by apply prefix_nil_inv in Hp.
Qed.

Lemma examine_ok final last data idx stop r :
  RESULT_MARKER `prefix_of` drop idx data → idx + length RESULT_MARKER ≤ stop →
  examine final last (slice data idx stop) = Ok (Verdict (Some r)) → ok r = true →
  ∃ line, result_line final data line ∧ ok_line line.
Proof.
  intros [tl Htl] Hstop Hex Hr.
  assert (slice data idx stop = RESULT_MARKER ++ take (stop - idx - length RESULT_MARKER) tl) as Hseg.
  { unfold slice. rewrite Htl, take_app_ge by lia. done. }
  set (body := take (stop - idx - length RESULT_MARKER) tl) in *.
  set (after := drop (stop - idx - length RESULT_MARKER) tl).
  assert (data = take idx data ++ RESULT_MARKER ++ body ++ after) as Hdata.
  { rewrite <-(take_drop idx data) at 1. rewrite Htl. unfold body, after. by rewrite take_drop. }
  rewrite Hseg in Hex. unfold examine in Hex. rewrite drop_app_length in Hex.
  destruct (find NL body) as [n|] eqn:Hnl.
  - exists (take n body). split; [|by eapply judge_ok]. exists (take idx data), (drop n body ++ after).
    split_and!; [by rewrite (app_assoc (take n body)), take_drop|by apply find_take_None|].
    left. apply find_Some in Hnl as (Hp & _ & _). etrans; [exact Hp|]. by apply prefix_app_r.
  - destruct final; [|by simplify_eq]. exists body. split; [|by eapply judge_ok].
    exists (take idx data), after. auto.
Qed.

Lemma marker_offsets_gap fuel data pos o1 o2 l1 l2 :
  marker_offsets fuel data pos = l1 ++ o1 :: o2 :: l2 → o1 + length RESULT_MARKER ≤ o2.
Proof.
  revert pos l1. induction fuel as [|fuel IH]; intros pos l1; cbn [marker_offsets]; [by destruct l1|].
  destruct (find_from RESULT_MARKER data pos) as [i|] eqn:Hf; [|by destruct l1].
  destruct l1 as [|x l1]; cbn [app]; intros [= -> Heq]; [|by eapply IH].
  destruct fuel as [|fuel]; [done|]. cbn [marker_offsets] in Heq. change (length RESULT_MARKER) with 17 in *.
  destruct (find_from RESULT_MARKER data (o1 + 17)) as [k|] eqn:Hk; [|done].
  injection Heq as -> _. by apply find_from_Some in Hk as [? _].
Qed.

(** A success verdict comes from an ok line. *)
Lemma parse_ok_line data final r :
  parse_build_result data final = Ok (Some r) → ok r = true →
  ∃ line, result_line final data line ∧ ok_line line.
Proof.
  unfold parse_build_result. set (all := marker_offsets _ data 0).
  cut (∀ offs before, all = before ++ offs → examine_all final data offs = Ok (Some r) → ok r = true →
    ∃ line, result_line final data line ∧ ok_line line).
  { intros Hc. by apply (Hc all []). }
  induction offs as [|idx offs IH]; intros before Hall; cbn [examine_all]; [done|].
  intros Hex Hr. apply bind_Ok in Hex as (c & Hc & Hex).
  assert (RESULT_MARKER `prefix_of` drop idx data) as Hocc.
  { apply (marker_offsets_occur (S (length data)) data 0). fold all. rewrite Hall. set_solver. }
  destruct c as [v|].
  - injection Hex as ->. eapply examine_ok; [done| |done|done].
    destruct offs as [|next offs].
    + destruct Hocc as [tl Htl]. apply (f_equal length) in Htl. rewrite length_drop, length_app in Htl. cbn in *. lia.
    + by eapply marker_offsets_gap.
  - apply (IH (before ++ [idx])); [by rewrite <-app_assoc|done|done].
Qed.

(** ** Tailing the console *)

(** The bytes of the first [k] chunks. *)
Definition received (stream : list (bytes * bool)) : bytes := concat stream.*1.

Lemma tail_console_sound buffer stream :
  tail_console buffer stream = Ok Returned →
  ∃ k final line, result_line final (buffer ++ received (take k stream)) line ∧ ok_line line ∧
    (final = true → k = length stream).
Proof.
  revert buffer. induction stream as [|[chunk late] stream IH]; intros buffer; cbn [tail_console].
  - intros (r & Hp & Hr)%bind_Ok. destruct r as [r|]; [|done]. unfold raise_or_return in Hr.
    destruct (ok r) eqn:Hok; [|done]. destruct (parse_ok_line _ _ _ Hp Hok) as (line & Hl & Ho).
    exists 0, true, line. cbn. by rewrite app_nil_r.
  - assert (∀ buf, tail_console buf stream = Ok Returned → buf = buffer ++ chunk →
      ∃ k final line, result_line final (buffer ++ received (take k ((chunk, late) :: stream))) line ∧ ok_line line ∧
        (final = true → k = length ((chunk, late) :: stream))) as Hrest.
    { intros buf (k & final & line & Hl & Ho & Hk)%IH ->. exists (S k), final, line. unfold received in *. cbn.
      rewrite app_assoc. split_and!; [done|done|]. intros Hf. by rewrite (Hk Hf). }
    destruct chunk as [|x chunk].
    + destruct late; [done|]. intros Ht. apply (Hrest _ Ht). by rewrite app_nil_r.
    + set (c := x :: chunk) in *. intros (r & Hp & Hr)%bind_Ok. destruct r as [r|].
      * unfold raise_or_return in Hr. destruct (ok r) eqn:Hok; [|done].
        destruct (parse_ok_line _ _ _ Hp Hok) as (line & Hl & Ho). exists 1, false, line. unfold received. cbn.
        by rewrite app_nil_r.
      * destruct late; [done|]. by apply (Hrest _ Hr).
Qed.

(** C16: a build is reported successful only if the guest said so: some result
    line received by then (complete, or cut off by the console closing) has
    [ok] as its first token. *)
Theorem build_success_sound stream :
  wait_for_build_result stream = Ok Returned →
  ∃ k final line, result_line final (received (take k stream)) line ∧ ok_line line ∧
    (final = true → k = length stream).
Proof. intros Hw. by apply (tail_console_sound [] stream). Qed.

(** ** The first record of a console *)

Lemma marker_no_newline : find NL RESULT_MARKER = None.
Proof. vm_compute. reflexivity. Qed.

Lemma find_None_prefix {A} `{EqDecision A} (pat l l' : list A) :
  l `prefix_of` l' → find pat l' = None → find pat l = None.
Proof.
  intros [k ->] Hn. apply (proj2 (find_None _ _)). intros j Hp.
  destruct (decide (j ≤ length l)) as [Hj|Hj].
  - apply (proj1 (find_None _ _) Hn j). rewrite drop_app_le by done. by apply prefix_app_r.
  - rewrite drop_ge in Hp by lia. apply (proj1 (find_None _ _) Hn (length (l ++ k))). by rewrite drop_ge.
Qed.

Lemma elem_of_find_NL l : find NL l = None → "010"%char ∉ l.
Proof.
  intros Hn (l1 & l2 & ->)%list_elem_of_split. apply (proj1 (find_None _ _) Hn (length l1)).
  rewrite drop_app_length. by exists l2.
Qed.

Lemma find_NL_None l : "010"%char ∉ l → find NL l = None.
Proof.
  intros Hn. apply (proj2 (find_None _ _)). intros j [k Hk]. apply Hn.
  rewrite <-(take_drop j l), Hk. set_solver.
Qed.

(** A pattern without newlines that does not occur in [x] starts only after the
    newline that ends [x]. *)
Lemma pat_after_line pat x post j :
  find NL pat = None → find pat x = None → pat `prefix_of` drop j (x ++ NL ++ post) → S (length x) ≤ j.
Proof.
  intros Hpat Hn Hp. destruct (decide (S (length x) ≤ j)) as [|Hj]; [done|]. exfalso.
  rewrite drop_app_le in Hp by lia. set (q := drop j x) in *.
  apply prefix_take_eq in Hp. destruct (decide (length pat ≤ length q)) as [Hl|Hl].
  - apply (proj1 (find_None _ _) Hn j). fold q. rewrite take_app_le in Hp by done.
    rewrite <-Hp at 1. apply prefix_take.
  - rewrite take_app_ge in Hp by lia.
    destruct (length pat - length q) as [|n] eqn:Hk; [lia|]. cbn [NL app take] in Hp.
    apply (elem_of_find_NL _ Hpat). rewrite <-Hp. set_solver.
Qed.

Lemma find_after_line pat x post :
  find NL pat = None → find pat x = None → pat `prefix_of` post →
  find pat (x ++ NL ++ post) = Some (S (length x)).
Proof.
  intros Hpat Hn Hp. rewrite app_assoc. replace (S (length x)) with (length (x ++ NL)) by (rewrite length_app; cbn; lia).
  apply find_skip; [|done]. intros j Hj Hjp. rewrite <-app_assoc in Hjp.
  pose proof (pat_after_line _ _ _ _ Hpat Hn Hjp). rewrite length_app in Hj. cbn in Hj. lia.
Qed.

(** A later marker starts after the newline of the first record's line. *)
Lemma marker_after_line line post j :
  find RESULT_MARKER line = None → RESULT_MARKER `prefix_of` drop j (line ++ NL ++ post) → S (length line) ≤ j.
Proof. intros. eapply pat_after_line; [apply marker_no_newline|done..]. Qed.

Lemma drop_shift {A} (l1 l2 : list A) i : drop (length l1 + i) (l1 ++ l2) = drop i l2.
Proof. rewrite <-drop_drop. by rewrite drop_app_length. Qed.

(** The first record of [data] and the verdict on it. *)
Lemma parse_first_record pre line post final :
  find RESULT_MARKER pre = None → find RESULT_MARKER line = None → find NL line = None →
  ∃ last tail offs, parse_build_result (pre ++ RESULT_MARKER ++ line ++ NL ++ post) final =
    (c ← judge final last (RESULT_MARKER ++ line ++ NL ++ tail) (strip (decode_replace line));
     match c with
     | Verdict r => mret r
     | Continue => examine_all final (pre ++ RESULT_MARKER ++ line ++ NL ++ post) offs
     end) ∧ tail `prefix_of` post ∧ (find RESULT_MARKER post = None → tail = post ∧ last = true).
Proof.
  intros Hpre Hline Hnl. set (data := pre ++ RESULT_MARKER ++ line ++ NL ++ post).
  unfold parse_build_result. rewrite (marker_offsets_step _ _ _ (length pre)).
  2:{ unfold find_from. rewrite drop_0. unfold data. by rewrite (find_marker pre _ Hpre). }
  set (offs := marker_offsets _ data _). cbn [examine_all].
  set (last := match offs with [] => true | _ => false end).
  set (stop := match offs with [] => length data | next :: _ => next end).
  assert (length pre + length RESULT_MARKER + S (length line) ≤ stop ∧
    (find RESULT_MARKER post = None → offs = [])) as [Hstop Hlast].
  { unfold stop. destruct offs as [|next offs'] eqn:Ho.
    - split; [|done]. unfold data. rewrite !length_app. cbn [NL length]. lia.
    - unfold offs in Ho. destruct (length data) as [|fuel]; [done|]. cbn [marker_offsets] in Ho.
      destruct (find_from RESULT_MARKER data (length pre + length RESULT_MARKER)) as [k|] eqn:Hf; [|done].
      injection Ho as -> _. apply find_from_Some in Hf as [Hge Hf].
      assert (drop (length pre + length RESULT_MARKER) data = line ++ NL ++ post) as Hd.
      { unfold data. rewrite (app_assoc pre), <-length_app. apply drop_app_length. }
      rewrite Hd in Hf. apply find_Some in Hf as (Hp & _ & _).
      pose proof (marker_after_line line post _ Hline Hp) as Hj. split; [lia|]. intros Hpost. exfalso.
      set (j := next - (length pre + length RESULT_MARKER)) in *.
      assert (drop j (line ++ NL ++ post) = drop (j - S (length line)) post) as Hdj.
      { rewrite app_assoc. replace j with (length (line ++ NL) + (j - S (length line))) at 1.
        - apply drop_shift.
        - rewrite length_app. cbn [NL length]. lia. }
      rewrite Hdj in Hp. by apply (proj1 (find_None _ _) Hpost (j - S (length line))). }
  set (m := stop - (length pre + length RESULT_MARKER + S (length line))).
  assert (slice data (length pre) stop = RESULT_MARKER ++ line ++ NL ++ take m post) as Hseg.
  { unfold slice, data. rewrite drop_app_length.
    replace (stop - length pre) with (length (RESULT_MARKER ++ line ++ NL) + m)
      by (rewrite !length_app; cbn [NL length]; unfold m; lia).
    assert (RESULT_MARKER ++ line ++ NL ++ post = (RESULT_MARKER ++ line ++ NL) ++ post) as ->
      by (by rewrite <-!app_assoc).
    rewrite take_app_add. by rewrite <-!app_assoc. }
  exists last, (take m post), offs. split_and!; [|apply prefix_take|].
  - rewrite Hseg. unfold examine. rewrite drop_app_length. cbn zeta.
    assert (find NL (line ++ NL ++ take m post) = Some (length line)) as ->.
    { apply find_skip; [|by eexists]. intros j Hj Hp. rewrite drop_app_le in Hp by lia.
      destruct (drop j line) as [|x q] eqn:Hq; [apply (f_equal length) in Hq; rewrite length_drop in Hq; cbn in Hq; lia|].
      apply prefix_cons_inv_1 in Hp. subst x. apply (elem_of_find_NL _ Hnl).
      rewrite <-(take_drop j line), Hq. set_solver. }
    by rewrite take_app_length.
  - intros Hpost. specialize (Hlast Hpost). unfold last. rewrite Hlast. split; [|done].
    apply take_ge. unfold m, stop. rewrite Hlast. unfold data. rewrite !length_app. cbn [NL length]. lia.
Qed.

Lemma parse_ok_record pre line post final :
  find RESULT_MARKER pre = None → find RESULT_MARKER line = None → find NL line = None → ok_line line →
  parse_build_result (pre ++ RESULT_MARKER ++ line ++ NL ++ post) final =
    Ok (Some (MkBuildResult true None None [])).
Proof.
  intros Hpre Hline Hnl Hok. destruct (parse_first_record pre line post final Hpre Hline Hnl)
    as (last & tail & offs & -> & _). unfold judge, ok_line in *. by rewrite decide_True.
Qed.

(** Nothing is decided on while the line is still arriving. *)
Lemma parse_incomplete pre line p :
  find RESULT_MARKER pre = None → find RESULT_MARKER line = None → find NL line = None →
  p `prefix_of` pre ++ RESULT_MARKER ++ line → parse_build_result p false = Ok None.
Proof.
  intros Hpre Hline Hnl Hp. destruct (find RESULT_MARKER p) as [i|] eqn:Hf.
  2:{ unfold parse_build_result. cbn [marker_offsets]. unfold find_from. by rewrite drop_0, Hf. }
  pose proof Hf as (Hi & Hlen & _)%find_Some.
  assert (∃ q, p = pre ++ RESULT_MARKER ++ q ∧ q `prefix_of` line) as (q & -> & Hq).
  { destruct Hp as [k Hk]. assert (length pre ≤ i) as Hge.
    { pose proof (find_marker pre line Hpre) as Hm. apply find_Some in Hm as (_ & _ & Hmin).
      destruct (decide (length pre ≤ i)) as [|Hlt]; [done|]. exfalso. apply (Hmin i); [lia|].
      rewrite Hk. rewrite drop_app_le by done. by apply prefix_app_r. }
    destruct Hi as [tl Htl]. assert (length pre + length RESULT_MARKER ≤ length p) as Hpl.
    { apply (f_equal length) in Htl. rewrite length_drop, length_app in Htl. lia. }
    exists (drop (length pre + length RESULT_MARKER) p).
    assert (take (length pre + length RESULT_MARKER) p = pre ++ RESULT_MARKER) as Ht.
    { rewrite <-(take_app_le p k), <-Hk, app_assoc by done. rewrite <-length_app. apply take_app_length. }
    split; [rewrite app_assoc, <-Ht; by rewrite take_drop|].
    assert (drop (length pre + length RESULT_MARKER) (p ++ k) = line) as Hd.
    { rewrite <-Hk, app_assoc, <-length_app. apply drop_app_length. }
    rewrite drop_app_le in Hd by done. by exists k. }
  unfold parse_build_result. rewrite (marker_offsets_step _ _ _ (length pre)).
  2:{ unfold find_from. rewrite drop_0. by rewrite (find_marker pre q Hpre). }
  assert (∀ fuel, marker_offsets fuel (pre ++ RESULT_MARKER ++ q) (length pre + length RESULT_MARKER) = []) as Hoff.
  { intros [|fuel]; [done|]. cbn [marker_offsets]. unfold find_from.
    rewrite app_assoc, <-length_app, drop_app_length. by rewrite (find_None_prefix _ _ _ Hq Hline). }
  rewrite Hoff. cbn [examine_all]. unfold slice. rewrite drop_app_length, take_ge by (rewrite !length_app; lia).
  unfold examine. rewrite drop_app_length. by rewrite (find_None_prefix _ _ _ Hq Hnl).
Qed.

Lemma tail_console_wait buffer stream rest :
  (∀ p, p `prefix_of` buffer ++ received stream → parse_build_result p false = Ok None) →
  Forall (λ x, x.2 = false) stream →
  tail_console buffer (stream ++ rest) = tail_console (buffer ++ received stream) rest.
Proof.
  revert buffer. induction stream as [|[chunk late] stream IH]; intros buffer Hp Hl.
  - unfold received. cbn. by rewrite app_nil_r.
  - apply Forall_cons in Hl as [Hlate Hl]. cbn in Hlate. subst late. unfold received in *. cbn [fmap list_fmap concat fst app] in *.
    rewrite app_assoc in *. cbn [tail_console]. destruct chunk as [|x chunk].
    + rewrite app_nil_r in *. by apply IH.
    + rewrite (Hp _ (prefix_app_r _ _ _ (reflexivity _))). cbn. by apply IH.
Qed.

(** A success record is recognized however the console is cut into
    chunks, as soon as its line is complete, even in the very chunk at which
    the deadline expires, and whatever follows it. *)
Theorem ok_record_recognized pre line post s1 chunk late s2 :
  find RESULT_MARKER pre = None → find RESULT_MARKER line = None → find NL line = None → ok_line line →
  received s1 `prefix_of` pre ++ RESULT_MARKER ++ line → chunk ≠ [] →
  received s1 ++ chunk = pre ++ RESULT_MARKER ++ line ++ NL ++ post →
  Forall (λ x, x.2 = false) s1 →
  wait_for_build_result (s1 ++ (chunk, late) :: s2) = Ok Returned.
Proof.
  intros Hpre Hline Hnl Hok Hs1 Hne Hdata Hlate. unfold wait_for_build_result.
  rewrite tail_console_wait; [|intros p Hp; apply (parse_incomplete pre line p Hpre Hline Hnl); by etrans|done]. cbn [app].
  destruct chunk as [|x chunk]; [done|]. cbn [tail_console]. rewrite Hdata.
  by rewrite (parse_ok_record pre line post false Hpre Hline Hnl Hok).
Qed.

(** ** The failure record *)

(** The line the guest prints: [fail rc=<digits> cmd=<quoted command>]. *)
Definition fail_line (ds : list N) (c : bytes) : bytes :=
  b " fail rc=" ++ ((λ d, ascii_of_N (48 + d)) <$> ds) ++ b " cmd=" ++ ["034"%char] ++ c ++ ["034"%char].

Definition ascii_text (c : bytes) : Prop := Forall (λ x, (N_of_ascii x <? 128)%N = true) c.

Definition fail_text (ds : list N) (c : bytes) : pystr :=
  u "fail rc=" ++ ((λ d, 48 + d)%N <$> ds) ++ u " cmd=" ++ [34%N] ++ (N_of_ascii <$> c) ++ [34%N].

Lemma digit_char d : (d < 10)%N → N_of_ascii (ascii_of_N (48 + d)) = (48 + d)%N.
Proof. intros Hd. apply N_ascii_embedding. lia. Qed.

Lemma strip_snoc s x y :
  is_space x = false → is_space y = false → strip (x :: s ++ [y]) = x :: s ++ [y].
Proof.
  intros Hx Hy. unfold strip. cbn [drop_while]. rewrite Hx.
  rewrite app_comm_cons, reverse_snoc. cbn [drop_while]. rewrite Hy.
  by rewrite reverse_cons, reverse_involutive.
Qed.

Lemma fail_line_text ds c :
  Forall (λ d, (d < 10)%N) ds → ascii_text c → strip (decode_replace (fail_line ds c)) = fail_text ds c.
Proof.
  intros Hds Hc. unfold fail_line.
  assert (decode_replace (b " fail rc=" ++ ((λ d, ascii_of_N (48 + d)) <$> ds) ++ b " cmd=" ++ ["034"%char] ++ c ++ ["034"%char]) =
    32%N :: fail_text ds c) as ->.
  { rewrite <-(app_nil_r (_ ++ _)), decode_app_ascii, app_nil_r.
    - rewrite !fmap_app. unfold fail_text. rewrite app_comm_cons. f_equal. f_equal.
      rewrite <-list_fmap_compose. apply list_fmap_ext. intros i d Hi. cbn. apply digit_char.
      rewrite Forall_lookup in Hds. by eapply Hds.
    - unfold ascii_text in Hc. apply Forall_app. split; [by repeat constructor|]. apply Forall_app. split.
      + apply Forall_fmap. eapply Forall_impl; [exact Hds|]. intros d Hd. unfold compose in *. cbn beta in *. rewrite digit_char by done.
        apply N.ltb_lt. lia.
      + repeat (apply Forall_app; split); [by repeat constructor..|done|by repeat constructor]. }
  unfold strip at 1. cbn [drop_while]. change (is_space 32) with true. cbv iota. fold (strip (fail_text ds c)).
  assert (fail_text ds c = 102%N ::
    (u "ail rc=" ++ ((λ d, 48 + d)%N <$> ds) ++ u " cmd=" ++ [34%N] ++ (N_of_ascii <$> c)) ++ [34%N]) as ->.
  { unfold fail_text. rewrite <-!app_assoc. done. }
  by apply strip_snoc.
Qed.

Lemma is_digit_ascii d : (d < 10)%N → is_digit (48 + d) = Some d.
Proof.
  intros Hd. unfold is_digit. replace (48 + d <? 128)%N with true by (symmetry; apply N.ltb_lt; lia).
  replace ((48 <=? 48 + d) && (48 + d <=? 57))%N with true
    by (symmetry; apply andb_true_iff; split; apply N.leb_le; lia). f_equal. lia.
Qed.

Lemma is_word_digit d : (d < 10)%N → is_word (48 + d) = true.
Proof.
  intros Hd. unfold is_word. replace (48 + d <? 128)%N with true by (symmetry; apply N.ltb_lt; lia).
  replace ((48 <=? 48 + d) && (48 + d <=? 57))%N with true
    by (symmetry; apply andb_true_iff; split; apply N.leb_le; lia). done.
Qed.

Lemma digits_text ds rest :
  Forall (λ d, (d < 10)%N) ds → digits (((λ d, 48 + d)%N <$> ds) ++ 32%N :: rest) = ds.
Proof.
  induction 1 as [|d ds Hd _ IH]; [done|]. cbn [fmap list_fmap app digits].
  rewrite is_digit_ascii by done. by rewrite IH.
Qed.

Lemma search_rc_text ds c :
  Forall (λ d, (d < 10)%N) ds → ds ≠ [] → search match_rc true (fail_text ds c) = Some ds.
Proof.
  intros Hds Hne. unfold fail_text. set (rest := (λ d, 48 + d)%N <$> ds).
  assert (∀ l, search match_rc true (u "fail rc=" ++ l) =
    match match_rc (u "rc=" ++ l) with Some a => Some a | None => search match_rc false (u "c=" ++ l) end) as Hs.
  { intros l. reflexivity. }
  assert (∀ l, match_rc (u "rc=" ++ l) = match digits l with [] => None | d => Some d end) as Hm.
  { intros l. reflexivity. }
  rewrite Hs, Hm. unfold rest.
  assert (∀ x, u " cmd=" ++ x = 32%N :: u "cmd=" ++ x) as -> by reflexivity.
  rewrite digits_text by done. by destruct ds.
Qed.

Lemma until_last_quote_snoc s : until_last_quote (s ++ [34%N]) = Some s.
Proof. induction s as [|x s IH]; [done|]. cbn. by rewrite IH. Qed.

(** Inside a run of digits there is no place for [cmd]. *)
Lemma search_cmd_digits ds bd l :
  Forall (λ d, (d < 10)%N) ds →
  search match_cmd bd (((λ d, 48 + d)%N <$> ds) ++ 32%N :: l) = search match_cmd true l.
Proof.
  intros Hds. revert bd. induction Hds as [|d ds Hd _ IH]; intros bd.
  - cbn [fmap list_fmap app search]. by destruct bd.
  - cbn [fmap list_fmap app]. change (search match_cmd bd (?c :: ?s)) with
      (match (if bd then match_cmd (c :: s) else None) with
       | Some a => Some a | None => search match_cmd (negb (is_word c)) s end).
    assert (∀ s, match_cmd ((48 + d)%N :: s) = None) as Hm.
    { intros s. unfold match_cmd. cbn [starts_with u b String.list_ascii_of_string fmap list_fmap].
      rewrite bool_decide_false; [done|]. cbn. lia. }
    rewrite Hm. destruct bd; apply IH.
Qed.

Lemma search_cmd_text ds c :
  Forall (λ d, (d < 10)%N) ds → search match_cmd true (fail_text ds c) = Some (N_of_ascii <$> c).
Proof.
  intros Hds. unfold fail_text.
  assert (∀ x, u " cmd=" ++ x = 32%N :: u "cmd=" ++ x) as -> by reflexivity.
  assert (∀ l, search match_cmd true (u "fail rc=" ++ l) = search match_cmd true l) as Hs.
  { intros l. reflexivity. }
  rewrite Hs, search_cmd_digits by done.
  assert (∀ l, search match_cmd true (u "cmd=" ++ [34%N] ++ l) =
    match until_last_quote l with Some r => Some r | None => search match_cmd false (u "md=" ++ [34%N] ++ l) end)
    as -> by reflexivity.
  by rewrite until_last_quote_snoc.
Qed.

(** ** The framed log *)

Definition log_block (body more : bytes) : bytes := LOG_BEGIN ++ NL ++ body ++ NL ++ LOG_END ++ more.

(** Base64 output and its line breaks. *)
Definition b64_text (x : ascii) : Prop := in_alphabet x = true ∨ x ∈ ["="; "010"; "013"]%char.

Lemma log_end_not_in_b64 body : Forall b64_text body → find LOG_END body = None.
Proof.
  intros Hb. apply (proj2 (find_None _ _)). intros j [k Hk].
  assert ("-"%char ∈ drop j body) as Hin.
  { rewrite Hk. apply elem_of_app. left. apply list_elem_of_In. vm_compute. tauto. }
  rewrite Forall_forall in Hb. destruct (Hb "-"%char) as [Hx|Hx]; [|done|].
  - rewrite <-(take_drop j body). apply elem_of_app. by right.
  - apply list_elem_of_In in Hx. cbn in Hx. naive_solver.
Qed.

Lemma extract_log_block x body more :
  find LOG_BEGIN x = None → Forall b64_text body →
  extract_log (x ++ NL ++ log_block body more) = (decode_b64_tolerant (body ++ NL), true).
Proof.
  intros Hx Hb. unfold extract_log, log_block.
  assert (find NL LOG_BEGIN = None) as HnB by (vm_compute; reflexivity).
  assert (find NL LOG_END = None) as HnE by (vm_compute; reflexivity).
  rewrite (find_after_line LOG_BEGIN x) by (done || by eexists).
  set (seg := x ++ NL ++ _). set (beg := S (length x)).
  assert (seg = (x ++ NL) ++ LOG_BEGIN ++ NL ++ body ++ NL ++ LOG_END ++ more) as Hseg by (by rewrite <-app_assoc).
  assert (length (x ++ NL) = beg) as Hbeg by (rewrite length_app; cbn; unfold beg; lia).
  assert (find_from NL seg beg = Some (beg + length LOG_BEGIN)) as ->.
  { unfold find_from. rewrite Hseg, <-Hbeg, drop_app_length.
    rewrite find_skip; [done| |by eexists]. intros j Hj Hp. rewrite drop_app_le in Hp by lia.
    apply (proj1 (find_None _ _) HnB j). destruct (drop j LOG_BEGIN) as [|y l] eqn:Hd.
    - apply (f_equal length) in Hd. rewrite length_drop in Hd. cbn in Hd, Hj. lia.
    - apply prefix_cons_inv_1 in Hp as Hy. rewrite <-Hy. by eexists. }
  set (cs := beg + length LOG_BEGIN).
  assert (drop cs seg = NL ++ body ++ NL ++ LOG_END ++ more) as Hcs.
  { unfold cs. rewrite Hseg, <-Hbeg, drop_shift. apply drop_app_length. }
  assert (find LOG_END (NL ++ body ++ NL ++ LOG_END ++ more) = Some (S (S (length body)))) as Hfe.
  { rewrite (app_assoc NL body). rewrite find_after_line; [done|done| |by eexists].
    apply log_end_not_in_b64, Forall_app. split; [|done]. constructor; [right; set_solver|constructor]. }
  assert (find_from LOG_END seg cs = Some (cs + S (S (length body)))) as ->.
  { unfold find_from. by rewrite Hcs, Hfe. }
  unfold slice. f_equal. f_equal. replace (cs + S (S (length body)) - S cs) with (length (body ++ NL))
    by (rewrite length_app; cbn; lia).
  replace (S cs) with (cs + 1) by lia. rewrite <-drop_drop, Hcs.
  change (drop 1 (NL ++ ?l)) with l. rewrite (app_assoc body NL). apply take_app_length.
Qed.

Lemma b64_exact raw data : omap b64_value raw = omap b64_value (b2a data) → decode_b64_tolerant raw = data.
Proof. intros Hr. by rewrite decode_b64_tolerant_values, Hr, b2a_values, dec4_enc6. Qed.

Lemma fail_line_no_newline ds c :
  Forall (λ d, (d < 10)%N) ds → "010"%char ∉ c → find NL (fail_line ds c) = None.
Proof.
  intros Hds Hc. apply find_NL_None. unfold fail_line. rewrite !elem_of_app. intros [Hi|[Hi|[Hi|[Hi|[Hi|Hi]]]]].
  - apply list_elem_of_In in Hi. vm_compute in Hi. naive_solver.
  - apply list_elem_of_fmap in Hi as (d & Hd & Hin). rewrite Forall_forall in Hds.
    specialize (Hds d Hin). apply (f_equal N_of_ascii) in Hd.
    rewrite digit_char in Hd by done. cbn in Hd. lia.
  - apply list_elem_of_In in Hi. vm_compute in Hi. naive_solver.
  - by apply list_elem_of_singleton in Hi.
  - done.
  - by apply list_elem_of_singleton in Hi.
Qed.

(** The failure record round-trips.  From the framed record a failing
    guest prints, after any chatter, the parser recovers the exit status, the
    failing command and the log, exactly. *)
Theorem fail_record_roundtrip pre ds c data body more :
  find RESULT_MARKER pre = None →
  Forall (λ d, (d < 10)%N) ds → ds ≠ [] → length ds ≤ 4300 →
  ascii_text c → "010"%char ∉ c → find RESULT_MARKER (fail_line ds c) = None →
  find LOG_BEGIN (RESULT_MARKER ++ fail_line ds c) = None →
  Forall b64_text body → omap b64_value body = omap b64_value (b2a data) →
  find RESULT_MARKER (log_block body more) = None →
  parse_build_result (pre ++ RESULT_MARKER ++ fail_line ds c ++ NL ++ log_block body more) false =
    Ok (Some (MkBuildResult false (Some (foldl (λ n d, 10 * n + d)%N 0%N ds)) (Some (N_of_ascii <$> c)) data)).
Proof.
  intros Hpre Hds Hne Hlen Hc Hnl Hm Hlb Hb Hv Hblk.
  destruct (parse_first_record pre (fail_line ds c) (log_block body more) false Hpre Hm (fail_line_no_newline _ _ Hds Hnl))
    as (last & tail & offs & -> & _ & Htail). destruct (Htail Hblk) as [-> ->].
  rewrite fail_line_text by done. unfold judge.
  assert (tag_of (fail_text ds c) = u "fail") as -> by reflexivity.
  rewrite decide_False by done. rewrite decide_True by done.
  rewrite (app_assoc RESULT_MARKER), extract_log_block by done. cbn [orb].
  rewrite search_rc_text, search_cmd_text by done. unfold int_of_digits.
  replace (4300 <? length ds) with false by (symmetry; apply Nat.ltb_ge; lia). cbn [raise_if mbind result_bind mret result_ret].
  rewrite (b64_exact (body ++ NL) data); [done|]. rewrite omap_app, Hv. by rewrite app_nil_r.
Qed.
End Spec.

(** ** Concrete consoles *)
Module BuildDemo.

(** A Unicode database with nothing beyond ASCII. *)
#[export] Instance plain : Unicode := {|
  u_word := λ _, false;
  u_digit := λ _, None;
  u_repr := λ s, ascii_of_N <$> s;
|}.

Definition boot : bytes := b "[ 1.0] systemd[1]: started" ++ NL.

Definition ok_stream : list (bytes * bool) :=
  [(boot ++ b "TESTRANGE-RES", false); ([], false); (b "ULT: ok" ++ NL, true)].

Lemma build_success_sound_witness :
  wait_for_build_result ok_stream = Ok Returned ∧
  ∃ k final line, result_line final (received (take k ok_stream)) line ∧ ok_line line ∧
    (final = true → k = length ok_stream).
Proof.
  split; [vm_compute; reflexivity|]. apply (build_success_sound ok_stream). vm_compute. reflexivity.
Defined.

Lemma ok_record_recognized_witness :
  wait_for_build_result ([(boot ++ b "TESTRANGE-RES", false); ([], false)] ++ (b "ULT: ok" ++ NL, true) :: []) = Ok Returned.
Proof.
  apply (ok_record_recognized boot (b " ok") [] [(boot ++ b "TESTRANGE-RES", false); ([], false)] (b "ULT: ok" ++ NL) true []);
    try (vm_compute; reflexivity).
  - exists (b "ULT: ok"). vm_compute. reflexivity.
  - intros Hnil. vm_compute in Hnil. inversion Hnil.
  - repeat constructor.
Defined.

Definition body : bytes := b "Ym9v" ++ NL ++ b "bQ==".

Lemma fail_record_roundtrip_witness :
  parse_build_result (boot ++ RESULT_MARKER ++ fail_line [1; 2; 7]%N (b "apt-get update") ++ NL ++ log_block body NL) false =
    Ok (Some (MkBuildResult false (Some 127%N) (Some (u "apt-get update")) (b "boom"))).
Proof.
  apply (fail_record_roundtrip boot [1; 2; 7]%N (b "apt-get update") (b "boom") body NL);
    try (vm_compute; reflexivity).
  - repeat constructor.
  - intros Hnil. inversion Hnil.
  - cbn. lia.
  - repeat constructor.
  - intros Hin. apply list_elem_of_In in Hin. vm_compute in Hin. repeat (destruct Hin as [Hin|Hin]; [inversion Hin|]). exact Hin.
  - repeat (constructor; [first [left; vm_compute; reflexivity | right; apply list_elem_of_In; vm_compute; tauto]|]). constructor.
Defined.

(** The verdict depends on where the console happens to be cut: an echoed
    token that is the last marker of the buffer when a chunk ends is a failure,
    although the whole stream holds a success record behind it. *)
Definition echoed : bytes := b "TESTRANGE-RESULT: $rc" ++ NL.
Definition success : bytes := b "TESTRANGE-RESULT: ok" ++ NL.

Lemma verdict_depends_on_chunking :
  received [(echoed, false); (success, false)] = received [(echoed ++ success, false)] ∧
  wait_for_build_result [(echoed ++ success, false)] = Ok Returned ∧
  ∃ log, wait_for_build_result [(echoed, false); (success, false)] = Ok (BuildFailed None None log).
Proof. split_and!; [vm_compute; reflexivity..|]. eexists. vm_compute. reflexivity. Qed.
End BuildDemo.
