(* ===== verification/Console.v ===== *)
(** * Console text: [_ansi.py] and [_ConsoleStreamer] of [orchestrator/vm_build.py]

    What a build VM prints is raw terminal output.  [scrub_terminal_control] removes the
    escape sequences and control characters; [feed] mirrors the console to the log line
    by line.  Proved here: the scrubbed text has no control character but newline and
    tab, exactly the sequences go and exactly the text stays ([scrub_exact]), and the
    mirror does not depend on how the console is cut into chunks. *)

From S2P Require Import Prelude Exceptions PyBytes BuildResult.
From stdpp Require Import options.

Local Open Scope N_scope.

(** ** The patterns of [_ansi.py] *)

Definition ESC : N := 27.
Definition BEL : N := 7.
Definition LBRACKET : N := 91.
Definition RBRACKET : N := 93.
Definition BACKSLASH : N := 92.

Definition between (lo hi c : N) : bool := (lo <=? c) && (c <=? hi).

(** Each pattern is a function giving what follows its match at the head of the text.
    The character classes around every repetition are disjoint, so the greedy match is
    the only one. *)

(** [\x1b\][^\x07\x1b]*(?:\x07|\x1b\\)] *)
Definition osc_body (c : N) : bool := negb (c =? BEL) && negb (c =? ESC).
Definition OSC (s : pystr) : option pystr :=
  match s with
  | e :: k :: s =>
      if (e =? ESC) && (k =? RBRACKET) then
        match drop_while osc_body s with
        | t :: rest =>
            if t =? BEL then Some rest
            else match rest with
              | t2 :: rest => if t2 =? BACKSLASH then Some rest else None
              | [] => None
              end
        | [] => None
        end
      else None
  | _ => None
  end.

(** [\x1b\[[0-?]*[ -/]*[@-~]] *)
Definition parameter : N → bool := between 48 63.
Definition intermediate : N → bool := between 32 47.
Definition final_byte : N → bool := between 64 126.
Definition CSI (s : pystr) : option pystr :=
  match s with
  | e :: k :: s =>
      if (e =? ESC) && (k =? LBRACKET) then
        match drop_while intermediate (drop_while parameter s) with
        | f :: rest => if final_byte f then Some rest else None
        | [] => None
        end
      else None
  | _ => None
  end.

(** [\x1b(?:[@-Z\\-_]|[ -/]*[0-~])] *)
Definition fe_byte (c : N) : bool := between 64 90 c || between 92 95 c.
Definition nf_final : N → bool := between 48 126.
Definition ESC_RE (s : pystr) : option pystr :=
  match s with
  | e :: s =>
      if e =? ESC then
        match s with
        | c :: rest =>
            if fe_byte c then Some rest
            else match drop_while intermediate s with
              | f :: rest => if nf_final f then Some rest else None
              | [] => None
              end
        | [] => None
        end
      else None
  | [] => None
  end.

(** [[\x00-\x08\x0b-\x1f\x7f]] *)
Definition C0 (c : N) : bool := between 0 8 c || between 11 31 c || (c =? 127).

(** [pattern.sub("", text)]: leftmost matches, not overlapping.  A match is never empty,
    so as many rounds as the text is long are enough. *)
Fixpoint sub_rounds (n : nat) (m : pystr → option pystr) (s : pystr) : pystr :=
  match n, s with
  | S n, c :: t =>
      match m s with
      | Some rest => sub_rounds n m rest
      | None => c :: sub_rounds n m t
      end
  | _, _ => []
  end.
Definition re_sub (m : pystr → option pystr) (s : pystr) : pystr := sub_rounds (length s) m s.

Definition scrub_terminal_control (text : pystr) : pystr :=
  filter (λ c, C0 c = false) (re_sub ESC_RE (re_sub CSI (re_sub OSC text))).

(** ** [_ConsoleStreamer] *)

Local Close Scope N_scope.

Record ConsoleStreamer : Type := MkStreamer {
  cs_pos : nat;
  cs_in_log_block : bool;
}.
Definition new_streamer : ConsoleStreamer := MkStreamer 0 false.

Definition NL : bytes := [ascii_of_nat 10].

(** What one complete line does: the new block flag and what is logged. *)
Definition stream_line (in_log : bool) (line : bytes) : bool * list pystr :=
  if contains_sub LOG_BEGIN line then (true, [])
  else if contains_sub LOG_END line then (false, [])
  else if in_log || contains_sub RESULT_MARKER line then (in_log, [])
  else
    let text := scrub_terminal_control (decode_replace line) in
    (in_log, if decide (text = []) then [] else [text]).

(** [while True: nl = buffer.find(...)]: every round moves past a newline, so one more
    round than the buffer is long is enough. *)
Fixpoint feed_rounds (n : nat) (buffer : bytes) (s : ConsoleStreamer) (out : list pystr) : ConsoleStreamer * list pystr :=
  match n with
  | 0 => (s, out)
  | S n =>
      match find_from NL buffer (cs_pos s) with
      | None => (s, out)
      | Some nl =>
          let '(flag, logged) := stream_line (cs_in_log_block s) (slice buffer (cs_pos s) nl) in
          feed_rounds n buffer (MkStreamer (nl + 1) flag) (out ++ logged)
      end
  end.
Definition feed (buffer : bytes) (s : ConsoleStreamer) (out : list pystr) : ConsoleStreamer * list pystr :=
  feed_rounds (S (length buffer)) buffer s out.

(** The loop of [wait_for_build_result]: [if chunk: buffer.extend(chunk);
    streamer.feed(buffer)]. *)
Definition mirror_chunk (st : bytes * (ConsoleStreamer * list pystr)) (chunk : bytes) : bytes * (ConsoleStreamer * list pystr) :=
  if decide (chunk = []) then st
  else let buffer := st.1 ++ chunk in (buffer, feed buffer st.2.1 st.2.2).
Definition mirror (chunks : list bytes) : list pystr :=
  (foldl mirror_chunk ([], (new_streamer, [])) chunks).2.2.

(** ** Substitution *)

(** Every match starts with an escape and consumes something. *)
Class EscPattern (m : pystr → option pystr) : Prop := {
  pat_shrinks : ∀ s rest, m s = Some rest → length rest < length s;
  pat_esc : ∀ c t, c ≠ ESC → m (c :: t) = None;
}.

Lemma length_drop_while {A} (p : A → bool) l : length (drop_while p l) ≤ length l.
Proof. induction l as [|x l IH]; cbn; [done|]. destruct (p x); cbn; lia. Qed.

(** A match consumes: case analysis on the pattern, bounding each [drop_while]. *)
Ltac shrinking :=
  intros s rest; cbv beta delta [OSC CSI ESC_RE]; intros H;
  repeat case_match; simplify_eq;
  repeat match goal with
  | E : drop_while ?p ?l = _ |- _ => pose proof (length_drop_while p l); rewrite E in *; clear E
  end;
  repeat match goal with
  | H : context [length (drop_while ?p ?l)] |- _ =>
      lazymatch goal with
      | _ : length (drop_while p l) ≤ length l |- _ => fail
      | _ => pose proof (length_drop_while p l)
      end
  end; cbn [length] in *; try lia.

Lemma eqb_esc c : c ≠ ESC → (c =? ESC)%N = false.
Proof. by rewrite N.eqb_neq. Qed.

Global Instance OSC_esc : EscPattern OSC.
Proof. split; [shrinking|]. intros c [|k t] Hc; cbn; [done|]. by rewrite eqb_esc. Qed.
Global Instance CSI_esc : EscPattern CSI.
Proof. split; [shrinking|]. intros c [|k t] Hc; cbn; [done|]. by rewrite eqb_esc. Qed.
Global Instance ESC_RE_esc : EscPattern ESC_RE.
Proof. split; [shrinking|]. intros c t Hc; cbn. by rewrite eqb_esc. Qed.

Section Sub.
Context (m : pystr → option pystr) {Hm : EscPattern m}.
Set Default Proof Using "Type*".

Lemma sub_rounds_enough n s : length s ≤ n → sub_rounds n m s = re_sub m s.
Proof.
  unfold re_sub. remember (length s) as k eqn:Hk. revert n s Hk.
  induction (lt_wf k) as [k _ IH]; intros n s -> Hn.
  destruct s as [|c t]; [by destruct n|]. destruct n as [|n]; cbn in Hn; [lia|]. cbn.
  destruct (m (c :: t)) as [rest|] eqn:E.
  - apply pat_shrinks in E. cbn in E.
    rewrite (IH (length rest)), <-(IH (length rest) ltac:(cbn; lia) (length t) rest) by (cbn; lia). done.
  - f_equal. apply (IH (length t)); cbn; lia.
Qed.

Lemma re_sub_Some s rest : m s = Some rest → re_sub m s = re_sub m rest.
Proof.
  intros E. pose proof (pat_shrinks _ _ E). destruct s as [|c t]; cbn in *; [lia|].
  unfold re_sub at 1. cbn. rewrite E. apply sub_rounds_enough. lia.
Qed.

Lemma re_sub_None c t : m (c :: t) = None → re_sub m (c :: t) = c :: re_sub m t.
Proof. intros E. unfold re_sub at 1. cbn. by rewrite E. Qed.

Lemma re_sub_keep l t : Forall (λ c, c ≠ ESC) l → re_sub m (l ++ t) = l ++ re_sub m t.
Proof. induction 1 as [|c l Hc _ IH]; [done|]. cbn [app]. rewrite re_sub_None by by apply pat_esc. by rewrite IH. Qed.
End Sub.

(** ** What is removed and what stays *)

(** A console text as a terminal reads it. *)
Inductive item : Type :=
  | Plain (c : N)                       (** a printable character, a newline or a tab *)
  | Control (c : N)                     (** a C0 control character other than escape *)
  | Osc (body : pystr) (st : bool)      (** set title and the like, ended by ST or BEL *)
  | Csi (ps ims : pystr) (f : N)        (** colour, cursor movement, erase *)
  | Nf (ims : pystr) (f : N).           (** charset selection, reset *)

Definition item_ok (i : item) : Prop :=
  match i with
  | Plain c => C0 c = false
  | Control c => C0 c = true ∧ c ≠ ESC
  | Osc body _ => Forall (λ c, osc_body c = true) body
  | Csi ps ims f => Forall (λ c, parameter c = true) ps ∧ Forall (λ c, intermediate c = true) ims ∧ final_byte f = true
  | Nf ims f => Forall (λ c, intermediate c = true) ims ∧ nf_final f = true ∧
      (ims = [] → f ≠ LBRACKET ∧ f ≠ RBRACKET)
  end.

Definition render_item (i : item) : pystr :=
  match i with
  | Plain c | Control c => [c]
  | Osc body st => ESC :: RBRACKET :: body ++ (if st then [ESC; BACKSLASH] else [BEL])
  | Csi ps ims f => ESC :: LBRACKET :: ps ++ ims ++ [f]
  | Nf ims f => ESC :: ims ++ [f]
  end.

Definition is_osc (i : item) : bool := match i with Osc _ _ => true | _ => false end.
Definition is_csi (i : item) : bool := match i with Csi _ _ _ => true | _ => false end.
Definition is_nf (i : item) : bool := match i with Nf _ _ => true | _ => false end.

Definition render_items (its : list item) : pystr := concat (render_item <$> its).
Definition plain_text (its : list item) : pystr :=
  concat ((λ i, match i with Plain c => [c] | _ => [] end) <$> its).

Ltac chars_lia :=
  unfold C0, osc_body, parameter, intermediate, final_byte, fe_byte, nf_final, between,
    ESC, BEL, LBRACKET, RBRACKET, BACKSLASH in *;
  rewrite ?orb_true_iff, ?orb_false_iff, ?andb_true_iff, ?andb_false_iff, ?negb_true_iff, ?N.eqb_eq, ?N.eqb_neq,
    ?N.leb_le, ?N.leb_gt in *; lia.

Lemma class_not_esc (p : N → bool) l :
  (∀ c, p c = true → c ≠ ESC) → Forall (λ c, p c = true) l → Forall (λ c, c ≠ ESC) l.
Proof. intros H Hl. eapply Forall_impl; [exact Hl|]. auto. Qed.

Lemma parameter_not_esc c : parameter c = true → c ≠ ESC.
Proof. intros. chars_lia. Qed.
Lemma intermediate_not_esc c : intermediate c = true → c ≠ ESC.
Proof. intros. chars_lia. Qed.

(** A sequence the pattern does not match stays whole. *)
Lemma re_sub_keep_esc m `{!EscPattern m} l t :
  m (ESC :: l ++ t) = None → Forall (λ c, c ≠ ESC) l → re_sub m (ESC :: l ++ t) = ESC :: l ++ re_sub m t.
Proof. intros Hm Hl. rewrite re_sub_None by done. by rewrite re_sub_keep. Qed.

Lemma OSC_match body st t : Forall (λ c, osc_body c = true) body → OSC (render_item (Osc body st) ++ t) = Some t.
Proof.
  intros Hb. unfold OSC. cbn [render_item app]. rewrite <-app_assoc. change (ESC =? ESC)%N with true.
  change (RBRACKET =? RBRACKET)%N with true. cbn [andb]. destruct st; cbn [app]; by rewrite drop_while_app.
Qed.

Lemma CSI_match ps ims f t : item_ok (Csi ps ims f) → CSI (render_item (Csi ps ims f) ++ t) = Some t.
Proof.
  intros (Hp & Hi & Hf). unfold CSI. cbn [render_item app]. rewrite <-!app_assoc. cbn [app].
  change (ESC =? ESC)%N with true. change (LBRACKET =? LBRACKET)%N with true. cbn [andb].
  assert (intermediate f = false) as Hfi by chars_lia. assert (parameter f = false) as Hfp by chars_lia.
  assert (drop_while parameter (ps ++ ims ++ f :: t) = ims ++ f :: t) as ->.
  { destruct Hi as [|x ims Hx Hi]; [by apply drop_while_app|]. apply drop_while_app; [done|]. chars_lia. }
  rewrite drop_while_app by done. by rewrite Hf.
Qed.

Lemma ESC_match ims f t : item_ok (Nf ims f) → ESC_RE (render_item (Nf ims f) ++ t) = Some t.
Proof.
  intros (Hi & Hf & _). unfold ESC_RE. cbn [render_item app]. rewrite <-!app_assoc. cbn [app].
  change (ESC =? ESC)%N with true. cbv iota. assert (intermediate f = false) as Hfi by chars_lia.
  destruct Hi as [|x ims Hx Hi]; cbn [app].
  - destruct (fe_byte f); [done|]. cbn [drop_while]. by rewrite Hfi, Hf.
  - assert (fe_byte x = false) as -> by chars_lia. change (x :: ims ++ f :: t) with ((x :: ims) ++ f :: t).
    rewrite drop_while_app by (done || by constructor). by rewrite Hf.
Qed.

(** The item at the head is kept by a pattern that is not its own. *)
Lemma head_kept i t m :
  item_ok i →
  (m = OSC ∧ is_osc i = false) ∨ (m = CSI ∧ is_osc i = false ∧ is_csi i = false) ∨
  (m = ESC_RE ∧ is_osc i = false ∧ is_csi i = false ∧ is_nf i = false) →
  re_sub m (render_item i ++ t) = render_item i ++ re_sub m t.
Proof.
  intros Hok Hm. assert (EscPattern m) by (destruct Hm as [[-> _]|[[-> _]|[-> _]]]; apply _).
  assert (∀ c, c ≠ ESC → re_sub m ([c] ++ t) = [c] ++ re_sub m t) as Hone.
  { intros c Hc. apply re_sub_keep; [done|]. by repeat constructor. }
  destruct i as [c|c|body st|ps ims f|ims f]; cbn [render_item].
  - apply Hone. cbn in Hok. chars_lia.
  - apply Hone, Hok.
  - by destruct Hm as [[_ [=]]|[[_ [[=] _]]|[_ [[=] _]]]].
  - destruct Hok as (Hp & Hi & Hf). apply (re_sub_keep_esc m (LBRACKET :: ps ++ ims ++ [f])).
    + destruct Hm as [[-> _]|[[_ [_ [=]]]|[_ [_ [[=] _]]]]]. done.
    + constructor; [done|]. repeat apply Forall_app_2; [by eapply class_not_esc, Hp; apply parameter_not_esc|
        by eapply class_not_esc, Hi; apply intermediate_not_esc|]. constructor; [chars_lia|done].
  - destruct Hok as (Hi & Hf & Hne). apply (re_sub_keep_esc m (ims ++ [f])).
    + destruct Hi as [|x ims Hx Hi]; cbn [app].
      * destruct (Hne eq_refl) as [H1 H2]. apply N.eqb_neq in H1, H2.
        destruct Hm as [[-> _]|[[-> _]|[_ [_ [_ [=]]]]]]; cbn; [by rewrite H2|by rewrite H1].
      * assert (x ≠ LBRACKET ∧ x ≠ RBRACKET) as [H1 H2] by (split; chars_lia). apply N.eqb_neq in H1, H2.
        destruct Hm as [[-> _]|[[-> _]|[_ [_ [_ [=]]]]]]; cbn; [by rewrite H2|by rewrite H1].
    + apply Forall_app_2; [by eapply class_not_esc, Hi; apply intermediate_not_esc|]. constructor; [chars_lia|done].
Qed.

(** One pass removes its own items and keeps the others. *)
Lemma pass_removes m `{!EscPattern m} (mine : item → bool) its :
  (∀ i t, i ∈ its → mine i = true → m (render_item i ++ t) = Some t) →
  (∀ i t, i ∈ its → mine i = false → re_sub m (render_item i ++ t) = render_item i ++ re_sub m t) →
  re_sub m (render_items its) = render_items (filter (λ i, mine i = false) its).
Proof.
  unfold render_items. induction its as [|i its IH]; intros Hm Hk; [done|]. cbn [fmap list_fmap concat].
  destruct (mine i) eqn:E.
  - rewrite filter_cons_False by by rewrite E. rewrite (re_sub_Some m _ _ (Hm i _ (list_elem_of_here _ _) E)).
    apply IH; intros; [apply Hm|apply Hk]; by try constructor.
  - rewrite filter_cons_True by done. rewrite Hk by by try constructor. cbn [fmap list_fmap concat]. f_equal.
    apply IH; intros; [apply Hm|apply Hk]; by try constructor.
Qed.

Lemma filter_C0_render its :
  Forall item_ok its → Forall (λ i, is_osc i = false ∧ is_csi i = false ∧ is_nf i = false) its →
  filter (λ c, C0 c = false) (render_items its) = plain_text its.
Proof.
  unfold render_items, plain_text, pystr. induction 1 as [|i its Hi _ IH]; intros Hf; [done|].
  apply Forall_cons in Hf as [(H1 & H2 & H3) Hf]. cbn [fmap list_fmap concat]. rewrite filter_app, IH by done.
  destruct i as [c|c| | |]; try done; cbn [render_item].
  - by rewrite filter_cons_True.
  - destruct Hi as [Hc _]. rewrite filter_cons_False by by rewrite Hc. done.
Qed.

Lemma plain_text_filter (p : item → bool) its :
  (∀ c, p (Plain c) = false) → plain_text (filter (λ i, p i = false) its) = plain_text its.
Proof.
  intros Hp. unfold plain_text. induction its as [|i its IH]; [done|]. cbn [fmap list_fmap concat].
  destruct (p i) eqn:E.
  - rewrite filter_cons_False by by rewrite E. rewrite IH. destruct i; [by rewrite Hp in E|done..].
  - rewrite filter_cons_True by done. cbn [fmap list_fmap concat]. by rewrite IH.
Qed.

(** Scrubbing is exact: of a console text made of characters, control characters and
    complete escape sequences, the sequences (titles, colours, cursor movement, charset
    selection) and the control characters go, and the text between them stays, newlines
    and tabs included. *)
Theorem scrub_exact its : Forall item_ok its → scrub_terminal_control (render_items its) = plain_text its.
Proof.
  intros Hok. unfold scrub_terminal_control.
  assert (∀ p : item → bool, ∀ l, Forall item_ok l → Forall item_ok (filter (λ i, p i = false) l)) as Hsub.
  { intros p l Hl. apply Forall_forall. intros i [_ Hi]%list_elem_of_filter. by eapply Forall_forall in Hi. }
  assert (∀ l i, Forall item_ok l → i ∈ l → item_ok i) as Hin by (intros l i Hl Hi; by eapply Forall_forall in Hi).
  rewrite (pass_removes OSC is_osc).
  2: { intros [] t Hi [=]. apply OSC_match. exact (Hin _ _ Hok Hi). }
  2: { intros i t Hi Ho. apply head_kept; [by eapply Hin|]. by left. }
  rewrite (pass_removes CSI is_csi).
  2: { intros [] t Hi [=]. apply CSI_match. exact (Hin _ _ (Hsub _ _ Hok) Hi). }
  2: { intros i t Hi Ho. apply head_kept; [by eapply Hin, Hi; apply Hsub|]. apply list_elem_of_filter in Hi as [? _]. auto. }
  rewrite (pass_removes ESC_RE is_nf).
  2: { intros [] t Hi [=]. apply ESC_match. exact (Hin _ _ (Hsub _ _ (Hsub _ _ Hok)) Hi). }
  2: { intros i t Hi Ho. apply head_kept; [by eapply Hin, Hi; repeat apply Hsub|].
       apply list_elem_of_filter in Hi as [? [? _]%list_elem_of_filter]. auto 6. }
  rewrite filter_C0_render; [by rewrite !plain_text_filter|by repeat apply Hsub|].
  apply Forall_forall. intros i [? [? [? _]%list_elem_of_filter]%list_elem_of_filter]%list_elem_of_filter. done.
Qed.

(** Whatever the guest sends, no control character but newline and tab is left. *)
Lemma scrub_printable t : Forall (λ c, c = 9 ∨ c = 10 ∨ 32 ≤ c ∧ c ≠ 127)%N (scrub_terminal_control t).
Proof. apply Forall_forall. intros c [Hc _]%list_elem_of_filter. chars_lia. Qed.

Lemma scrub_plain t : Forall (λ c, C0 c = false) t → scrub_terminal_control t = t.
Proof.
  intros H. assert (render_items (Plain <$> t) = t) as H1.
  { unfold render_items. clear H. induction t as [|c t IH]; [done|]. cbn. by rewrite IH. }
  assert (plain_text (Plain <$> t) = t) as H2.
  { unfold plain_text. clear H H1. induction t as [|c t IH]; [done|]. cbn. by rewrite IH. }
  rewrite <-H1 at 1. rewrite scrub_exact; [exact H2|]. by apply Forall_fmap.
Qed.

Lemma scrub_idemp t : scrub_terminal_control (scrub_terminal_control t) = scrub_terminal_control t.
Proof. apply scrub_plain. eapply Forall_impl; [apply scrub_printable|]. intros c Hc. cbn in Hc. chars_lia. Qed.

(** ** The mirror *)

(** The complete lines of a text, [cur] being the start of the first. *)
Fixpoint complete_lines (cur l : bytes) : list bytes :=
  match l with
  | [] => []
  | c :: l => if decide (c = ascii_of_nat 10) then cur :: complete_lines [] l else complete_lines (cur ++ [c]) l
  end.

Definition stream_step (st : bool * list pystr) (line : bytes) : bool * list pystr :=
  let '(flag, logged) := stream_line st.1 line in (flag, st.2 ++ logged).

(** The reference: one pass over the complete lines of the whole console. *)
Definition mirror_reference (console : bytes) : list pystr :=
  (foldl stream_step (false, []) (complete_lines [] console)).2.

(** A text that ends where a line does. *)
Definition boundary (p : bytes) : Prop := p = [] ∨ ∃ q, p = q ++ NL.

Lemma complete_lines_app_nl cur q x :
  complete_lines cur (q ++ NL ++ x) = complete_lines cur (q ++ NL) ++ complete_lines [] x.
Proof.
  revert cur. induction q as [|c q IH]; intros cur; cbn; [done|]. case_decide; cbn; by rewrite <-IH.
Qed.

Lemma complete_lines_app p x : boundary p → complete_lines [] (p ++ x) = complete_lines [] p ++ complete_lines [] x.
Proof. intros [->|[q ->]]; [done|]. rewrite <-app_assoc. apply complete_lines_app_nl. Qed.

Lemma complete_lines_none cur l : ascii_of_nat 10 ∉ l → complete_lines cur l = [].
Proof.
  revert cur. induction l as [|c l IH]; intros cur Hn; [done|]. cbn. rewrite decide_False by set_solver.
  apply IH. set_solver.
Qed.

Lemma complete_lines_line cur l : ascii_of_nat 10 ∉ l → complete_lines cur (l ++ NL) = [cur ++ l].
Proof.
  revert cur. induction l as [|c l IH]; intros cur Hn; cbn; [by rewrite app_nil_r|].
  rewrite decide_False by set_solver. rewrite IH by set_solver. by rewrite <-app_assoc.
Qed.

Lemma find_nl_None l : find NL l = None → ascii_of_nat 10 ∉ l.
Proof.
  rewrite find_None. intros Hf [i Hi]%list_elem_of_lookup. apply (Hf i). rewrite (drop_S _ _ _ Hi). by apply prefix_cons, prefix_nil.
Qed.

Lemma find_nl_Some l i :
  find NL l = Some i → l = take i l ++ NL ++ drop (S i) l ∧ ascii_of_nat 10 ∉ take i l ∧ i < length l.
Proof.
  rewrite find_Some. intros ([k Hk] & _ & Hmin). cbn in Hk.
  assert (l !! i = Some (ascii_of_nat 10)) as Hl.
  { rewrite <-(Nat.add_0_r i), <-lookup_drop, Hk. done. }
  split_and!; [|intros [j Hj]%list_elem_of_lookup|by eapply lookup_lt_Some].
  - rewrite <-(take_drop i l) at 1. f_equal. by rewrite (drop_S _ _ _ Hl).
  - apply lookup_take_Some in Hj as [Hj Hlt]. apply (Hmin j Hlt). rewrite (drop_S _ _ _ Hj). by apply prefix_cons, prefix_nil.
Qed.

(** The streamer has logged exactly the lines before its position, which is at a line
    boundary of the buffer. *)
Record streamed (buffer : bytes) (s : ConsoleStreamer) (out : list pystr) : Prop := {
  st_le : cs_pos s ≤ length buffer;
  st_boundary : boundary (take (cs_pos s) buffer);
  st_fold : foldl stream_step (false, []) (complete_lines [] (take (cs_pos s) buffer)) = (cs_in_log_block s, out);
}.

Lemma streamed_step buffer s out nl flag logged :
  streamed buffer s out → find_from NL buffer (cs_pos s) = Some nl →
  stream_line (cs_in_log_block s) (slice buffer (cs_pos s) nl) = (flag, logged) →
  streamed buffer (MkStreamer (nl + 1) flag) (out ++ logged) ∧ cs_pos s ≤ nl.
Proof.
  intros [Hle Hb Hf] [Hge Hfind]%find_from_Some Hline. split; [|done].
  destruct (find_nl_Some _ _ Hfind) as (Heq & Hnin & Hlt). rewrite length_drop in Hlt.
  assert (take (nl + 1) buffer = take (cs_pos s) buffer ++ slice buffer (cs_pos s) nl ++ NL) as Ht.
  { rewrite <-(take_drop (cs_pos s) buffer) at 1. rewrite take_app, length_take_le by done.
    rewrite take_ge by (rewrite length_take; lia). f_equal. rewrite Heq, app_assoc. unfold slice.
    rewrite take_app_le by (rewrite length_app, length_take, length_drop; cbn; lia).
    apply take_ge. rewrite length_app, length_take, length_drop. cbn. lia. }
  split; cbn [cs_pos cs_in_log_block].
  - lia.
  - right. rewrite Ht, app_assoc. eauto.
  - rewrite Ht, complete_lines_app, foldl_app, Hf by done. rewrite complete_lines_line by done. cbn [foldl app].
    unfold stream_step. cbn [fst snd]. by rewrite Hline.
Qed.

Lemma feed_rounds_streamed n buffer s out :
  streamed buffer s out → length buffer - cs_pos s < n →
  let '(s', out') := feed_rounds n buffer s out in
  streamed buffer s' out' ∧ ascii_of_nat 10 ∉ drop (cs_pos s') buffer.
Proof.
  revert s out. induction n as [|n IH]; intros s out Hs Hn; [lia|]. cbn [feed_rounds].
  destruct (find_from NL buffer (cs_pos s)) as [nl|] eqn:E.
  - destruct (stream_line _ _) as [flag logged] eqn:El. destruct (streamed_step _ _ _ _ _ _ Hs E El) as [Hs' Hge].
    apply IH; [done|]. apply st_le in Hs'. cbn in *. lia.
  - split; [done|]. apply find_nl_None. unfold find_from in E. by apply fmap_None in E.
Qed.

Lemma streamed_extend buffer s out chunk : streamed buffer s out → streamed (buffer ++ chunk) s out.
Proof.
  intros [Hle Hb Hf]. assert (take (cs_pos s) (buffer ++ chunk) = take (cs_pos s) buffer) as E by by apply take_app_le.
  split; rewrite ?E; [rewrite length_app; lia|done..].
Qed.

(** The live mirror shows the build's own output and does not depend on how the console
    arrives: however it is cut into chunks, what is logged is what one pass over the
    complete lines of the whole console gives, each line once and in order, scrubbed,
    with the result record and the base64 log block left out. *)
Theorem mirror_chunking chunks : mirror chunks = mirror_reference (concat chunks).
Proof.
  cut (∀ l buffer s out, streamed buffer s out → ascii_of_nat 10 ∉ drop (cs_pos s) buffer →
    (foldl mirror_chunk (buffer, (s, out)) l).2.2 = mirror_reference (buffer ++ concat l)).
  { intros H. apply (H chunks [] new_streamer []); [|set_solver]. split; [done|by left|done]. }
  induction l as [|c l IH]; intros buffer s out Hs Hnl; cbn [foldl concat].
  - rewrite app_nil_r. unfold mirror_reference. destruct Hs as [Hle Hb Hf].
    rewrite <-(take_drop (cs_pos s) buffer), complete_lines_app by done.
    rewrite (complete_lines_none [] (drop _ _)), app_nil_r, Hf by done. done.
  - unfold mirror_chunk at 2. case_decide as Hc; [subst; by apply IH|]. cbn [fst snd].
    pose proof (feed_rounds_streamed (S (length (buffer ++ c))) (buffer ++ c) s out (streamed_extend _ _ _ c Hs)) as Hf.
    unfold feed. destruct (feed_rounds _ _ _ _) as [s' out']. destruct Hf as [Hs' Hn']; [lia|].
    rewrite IH by done. by rewrite app_assoc.
Qed.

Module ConsoleDemo.
Definition esc (s : string) : bytes := ascii_of_nat 27 :: b s.
Definition boot : bytes := esc "[1;31mBooting" ++ esc "[0m" ++ NL.

Example mirror_demo :
  mirror [take 9 boot; drop 9 boot ++ b "TESTRANGE-LOG-BEGIN" ++ NL ++ b "aGk="; NL ++ b "TESTRANGE-LOG-END" ++ NL ++ b "done";
    NL ++ b "part"] = [u "Booting"; u "done"].
Proof. vm_compute. reflexivity. Qed.

(** A title sequence swallows newlines: an introducer and a bell many lines later take
    everything between them, although the function is said to preserve newlines. *)
Lemma title_swallows_lines :
  scrub_terminal_control (u "a" ++ [27; 93]%N ++ u "b" ++ [10]%N ++ u "error: disk full" ++ [10; 7]%N ++ u "c") = u "ac".
Proof. vm_compute. reflexivity. Qed.

Lemma scrub_exact_witness : scrub_terminal_control (render_items [Csi (u "1;31") [] 109; Plain 72; Plain 10; Nf (u "(") 66]) =
  plain_text [Csi (u "1;31") [] 109; Plain 72; Plain 10; Nf (u "(") 66].
Proof.
  apply scrub_exact. repeat constructor; cbn; try done.
Defined.
End ConsoleDemo.
