(* ===== verification/Sha256.v ===== *)
(** * SHA-256

    [hashlib.sha256(...).hexdigest()] (FIPS 180-4), which the cache names its
    files by.  Words are [N] below [2^32]; the digest is 64 lowercase hex
    characters. *)

From S2P Require Import Prelude Exceptions PyBytes.
From stdpp Require Import options.

Local Open Scope N_scope.

Definition w32 (x : N) : N := N.land x 4294967295.
Definition add32 (x y : N) : N := w32 (x + y).
Definition rotr (n x : N) : N := N.lor (N.shiftr x n) (w32 (N.shiftl x (32 - n))).
Definition not32 (x : N) : N := N.lxor x 4294967295.

Definition Ch (x y z : N) : N := N.lxor (N.land x y) (N.land (not32 x) z).
Definition Maj (x y z : N) : N := N.lxor (N.lxor (N.land x y) (N.land x z)) (N.land y z).
Definition Sigma0 (x : N) : N := N.lxor (N.lxor (rotr 2 x) (rotr 13 x)) (rotr 22 x).
Definition Sigma1 (x : N) : N := N.lxor (N.lxor (rotr 6 x) (rotr 11 x)) (rotr 25 x).
Definition sigma0 (x : N) : N := N.lxor (N.lxor (rotr 7 x) (rotr 18 x)) (N.shiftr x 3).
Definition sigma1 (x : N) : N := N.lxor (N.lxor (rotr 17 x) (rotr 19 x)) (N.shiftr x 10).

Definition round_constants : list N :=
  [1116352408; 1899447441; 3049323471; 3921009573; 961987163; 1508970993; 2453635748; 2870763221;
   3624381080; 310598401; 607225278; 1426881987; 1925078388; 2162078206; 2614888103; 3248222580;
   3835390401; 4022224774; 264347078; 604807628; 770255983; 1249150122; 1555081692; 1996064986;
   2554220882; 2821834349; 2952996808; 3210313671; 3336571891; 3584528711; 113926993; 338241895;
   666307205; 773529912; 1294757372; 1396182291; 1695183700; 1986661051; 2177026350; 2456956037;
   2730485921; 2820302411; 3259730800; 3345764771; 3516065817; 3600352804; 4094571909; 275423344;
   430227734; 506948616; 659060556; 883997877; 958139571; 1322822218; 1537002063; 1747873779;
   1955562222; 2024104815; 2227730452; 2361852424; 2428436474; 2756734187; 3204031479; 3329325298].

Record digest_state : Type := MkDigest { dA : N; dB : N; dC : N; dD : N; dE : N; dF : N; dG : N; dH : N }.

Definition initial_state : digest_state :=
  MkDigest 1779033703 3144134277 1013904242 2773480762 1359893119 2600822924 528734635 1541459225.

(** ** Padding and blocks *)

(** The [n] low bytes of [x], most significant first. *)
Fixpoint be_bytes (n : nat) (x : N) : bytes :=
  match n with
  | O => []
  | S n => be_bytes n (N.shiftr x 8) ++ [ascii_of_N (N.land x 255)]
  end.

Definition pad (msg : bytes) : bytes :=
  let len := N.of_nat (length msg) in
  let zeros := (64 - (len + 9) mod 64) mod 64 in
  msg ++ ascii_of_N 128 :: replicate (N.to_nat zeros) (ascii_of_N 0) ++ be_bytes 8 (len * 8).

(** The big-endian words of a byte string. *)
Fixpoint be_words (l : bytes) : list N :=
  match l with
  | a :: b :: c :: d :: l =>
      N.lor (N.shiftl (N_of_ascii a) 24) (N.lor (N.shiftl (N_of_ascii b) 16)
        (N.lor (N.shiftl (N_of_ascii c) 8) (N_of_ascii d))) :: be_words l
  | _ => []
  end.

(** ** Compression *)

(** The message schedule, as a window of the last 16 words, newest last: the
    round consumes the oldest word and appends the next. *)
Definition next_word (w : list N) : N :=
  add32 (add32 (sigma1 (nth 14 w 0)) (nth 9 w 0)) (add32 (sigma0 (nth 1 w 0)) (nth 0 w 0)).

Definition round (s : digest_state) (k w : N) : digest_state :=
  let t1 := add32 (add32 (add32 (dH s) (Sigma1 (dE s))) (Ch (dE s) (dF s) (dG s))) (add32 k w) in
  let t2 := add32 (Sigma0 (dA s)) (Maj (dA s) (dB s) (dC s)) in
  MkDigest (add32 t1 t2) (dA s) (dB s) (dC s) (add32 (dD s) t1) (dE s) (dF s) (dG s).

Fixpoint rounds (ks : list N) (w : list N) (s : digest_state) : digest_state :=
  match ks with
  | [] => s
  | k :: ks => rounds ks (tail w ++ [next_word w]) (round s k (nth 0 w 0))
  end.

Definition compress (s : digest_state) (block : list N) : digest_state :=
  let t := rounds round_constants block s in
  MkDigest (add32 (dA s) (dA t)) (add32 (dB s) (dB t)) (add32 (dC s) (dC t)) (add32 (dD s) (dD t))
    (add32 (dE s) (dE t)) (add32 (dF s) (dF t)) (add32 (dG s) (dG t)) (add32 (dH s) (dH t)).

Fixpoint compress_all (n : nat) (words : list N) (s : digest_state) : digest_state :=
  match n with
  | O => s
  | S n => compress_all n (drop 16 words) (compress s (take 16 words))
  end.

(** ** Hex digest *)

Definition hex_digit (x : N) : ascii :=
  if x <? 10 then ascii_of_N (48 + x) else ascii_of_N (87 + x).

Fixpoint hex_digits (n : nat) (x : N) : list ascii :=
  match n with
  | O => []
  | S n => hex_digits n (N.shiftr x 4) ++ [hex_digit (N.land x 15)]
  end.

Definition sha256_chars (msg : bytes) : list ascii :=
  let words := be_words (pad msg) in
  let s := compress_all (length words / 16)%nat words initial_state in
  hex_digits 8 (dA s) ++ hex_digits 8 (dB s) ++ hex_digits 8 (dC s) ++ hex_digits 8 (dD s) ++
  hex_digits 8 (dE s) ++ hex_digits 8 (dF s) ++ hex_digits 8 (dG s) ++ hex_digits 8 (dH s).

Definition sha256 (msg : bytes) : string := String.string_of_list_ascii (sha256_chars msg).

(** The test vectors of the standard. *)
Example sha256_abc :
  sha256 (b "abc") = "ba7816bf8f01cfea414140de5dae2223b00361a396177a9cb410ff61f20015ad".
Proof. vm_compute. reflexivity. Qed.
Example sha256_empty :
  sha256 [] = "e3b0c44298fc1c149afbf4c8996fb92427ae41e4649b934ca495991b7852b855".
Proof. vm_compute. reflexivity. Qed.
Example sha256_two_blocks :
  sha256 (b "abcdbcdecdefdefgefghfghighijhijkijkljklmklmnlmnomnopnopq") =
    "248d6a61d20638b8e5c026930c3e6039a33ce45964ff2167f6ecedd419db06c1".
Proof. vm_compute. reflexivity. Qed.

(** ** The form of a digest *)

(** [[0-9a-f]] *)
Definition is_hex (c : ascii) : bool :=
  let n := N_of_ascii c in ((48 <=? n) && (n <=? 57)) || ((97 <=? n) && (n <=? 102)).

Lemma is_hex_digit x : x < 16 → is_hex (hex_digit x) = true.
Proof.
  intros Hx. assert (x ∈ (N.of_nat <$> seq 0 16)) as Hin.
  { apply list_elem_of_fmap. exists (N.to_nat x). split; [lia|]. apply elem_of_seq. lia. }
  revert x Hx Hin. assert (∀ x, x ∈ N.of_nat <$> seq 0 16 → is_hex (hex_digit x) = true) as H; [|by auto].
  apply Forall_forall. vm_compute. repeat constructor.
Qed.

Lemma land_15_lt x : N.land x 15 < 16.
Proof. change 15 with (N.ones 4). rewrite N.land_ones. apply N.mod_lt. done. Qed.

Lemma length_hex_digits n x : length (hex_digits n x) = n.
Proof. revert x. induction n as [|n IH]; intros x; cbn; [done|]. rewrite length_app, IH. cbn. lia. Qed.

Lemma hex_digits_hex n x : Forall (λ c, is_hex c = true) (hex_digits n x).
Proof.
  revert x. induction n as [|n IH]; intros x; cbn [hex_digits]; [constructor|].
  apply Forall_app. split; [apply IH|]. constructor; [|done]. apply is_hex_digit, land_15_lt.
Qed.

Lemma sha256_hex msg : Forall (λ c, is_hex c = true) (sha256_chars msg).
Proof. unfold sha256_chars. rewrite !Forall_app. split_and!; apply hex_digits_hex. Qed.

Lemma length_sha256_chars msg : length (sha256_chars msg) = 64%nat.
Proof. unfold sha256_chars. by rewrite !length_app, !length_hex_digits. Qed.

Lemma sha256_list msg : String.list_ascii_of_string (sha256 msg) = sha256_chars msg.
Proof. apply String.list_ascii_of_string_of_list_ascii. Qed.

Global Opaque sha256_chars.

(** ** SHA-1 ([hashlib.sha1])

    The digest some backend names are shortened with (FIPS 180-4), with the padding and
    the 32-bit words of SHA-256. *)

Local Open Scope N_scope.

Definition rotl (n x : N) : N := N.lor (w32 (N.shiftl x n)) (N.shiftr x (32 - n)).

Record sha1_state : Type := MkSha1 { sA : N; sB : N; sC : N; sD : N; sE : N }.

Definition sha1_initial : sha1_state := MkSha1 1732584193 4023233417 2562383102 271733878 3285377520.

Definition parity (x y z : N) : N := N.lxor (N.lxor x y) z.

(** The function and the constant of each group of twenty rounds. *)
Definition sha1_f (t : nat) (x y z : N) : N :=
  if (t <? 20)%nat then Ch x y z else if (t <? 40)%nat then parity x y z
  else if (t <? 60)%nat then Maj x y z else parity x y z.
Definition sha1_k (t : nat) : N :=
  if (t <? 20)%nat then 1518500249 else if (t <? 40)%nat then 1859775393
  else if (t <? 60)%nat then 2400959708 else 3395469782.

Definition sha1_next (w : list N) : N :=
  rotl 1 (N.lxor (N.lxor (nth 13 w 0) (nth 8 w 0)) (N.lxor (nth 2 w 0) (nth 0 w 0))).

Definition sha1_round (t : nat) (s : sha1_state) (w : N) : sha1_state :=
  let tmp := add32 (add32 (add32 (rotl 5 (sA s)) (sha1_f t (sB s) (sC s) (sD s))) (add32 (sE s) (sha1_k t))) w in
  MkSha1 tmp (sA s) (rotl 30 (sB s)) (sC s) (sD s).

Fixpoint sha1_rounds (n t : nat) (w : list N) (s : sha1_state) : sha1_state :=
  match n with
  | O => s
  | S n => sha1_rounds n (S t) (tail w ++ [sha1_next w]) (sha1_round t s (nth 0 w 0))
  end.

Definition sha1_compress (s : sha1_state) (block : list N) : sha1_state :=
  let t := sha1_rounds 80 0 block s in
  MkSha1 (add32 (sA s) (sA t)) (add32 (sB s) (sB t)) (add32 (sC s) (sC t)) (add32 (sD s) (sD t)) (add32 (sE s) (sE t)).

Fixpoint sha1_compress_all (n : nat) (words : list N) (s : sha1_state) : sha1_state :=
  match n with
  | O => s
  | S n => sha1_compress_all n (drop 16 words) (sha1_compress s (take 16 words))
  end.

(** [hashlib.sha1(msg).hexdigest()] *)
Definition sha1_chars (msg : bytes) : list ascii :=
  let words := be_words (pad msg) in
  let s := sha1_compress_all (length words / 16)%nat words sha1_initial in
  hex_digits 8 (sA s) ++ hex_digits 8 (sB s) ++ hex_digits 8 (sC s) ++ hex_digits 8 (sD s) ++ hex_digits 8 (sE s).

(** The test vectors of the standard. *)
Example sha1_abc :
  String.string_of_list_ascii (sha1_chars (b "abc")) = "a9993e364706816aba3e25717850c26c9cd0d89d".
Proof. vm_compute. reflexivity. Qed.
Example sha1_empty : String.string_of_list_ascii (sha1_chars []) = "da39a3ee5e6b4b0d3255bfef95601890afd80709".
Proof. vm_compute. reflexivity. Qed.
Example sha1_two_blocks :
  String.string_of_list_ascii (sha1_chars (b "abcdbcdecdefdefgefghfghighijhijkijkljklmklmnlmnomnopnopq")) =
    "84983e441c3bd26ebaae4aa1f95129e5e54670f1".
Proof. vm_compute. reflexivity. Qed.

Lemma sha1_hex msg : Forall (λ c, is_hex c = true) (sha1_chars msg).
Proof. unfold sha1_chars. rewrite !Forall_app. split_and!; apply hex_digits_hex. Qed.

Lemma length_sha1_chars msg : length (sha1_chars msg) = 40%nat.
Proof. unfold sha1_chars. by rewrite !length_app, !length_hex_digits. Qed.

Global Opaque sha1_chars.
