(* ===== verification/CacheNames.v ===== *)
(** * Cache identifiers ([cache/_names.py], [cache/entry.py])

    The pretty-name validator and the sha test.  Both are regular expressions
    [^[class]{lo,hi}$] used with [re.match]: the run starts at the beginning and
    [$] holds at the end of the string or before a newline that ends it. *)

From S2P Require Import Prelude Exceptions PyBytes Sha256.
From stdpp Require Import options.

Definition newline : ascii := ascii_of_nat 10.

(** [$], at the rest of the input. *)
Definition dollar (rest : list ascii) : bool :=
  match rest with
  | [] => true
  | [c] => bool_decide (c = newline)
  | _ => false
  end.

(** [re.match(r"^[cls]{lo,hi}$", s)] *)
Definition match_run (cls : ascii → bool) (lo hi : nat) (s : list ascii) : bool :=
  existsb (λ n, bool_decide (n ≤ length s) && forallb cls (take n s) && dollar (drop n s))
    (seq lo (hi + 1 - lo)).

(** [[A-Za-z0-9._-]] *)
Definition name_char (c : ascii) : bool :=
  let n := N_of_ascii c in
  (((65 <=? n) && (n <=? 90)) || ((97 <=? n) && (n <=? 122)) || ((48 <=? n) && (n <=? 57))
   || (n =? 46) || (n =? 95) || (n =? 45))%N.

Definition NAME_RE (s : string) : bool := match_run name_char 1 255 (chars s).

Definition dot : ascii := ascii_of_nat 46.

Definition validate_name (name : string) : res () :=
  raise_when (negb (NAME_RE name)) CacheError [name];;
  raise_when (forallb (λ c, bool_decide (c = dot)) (chars name)) CacheError [name].

(** ** [CacheEntry] *)

Definition HEX_PAT (s : string) : bool := match_run is_hex 16 64 (chars s).

(** [CacheEntry(identifier).looks_like_sha]; the empty identifier is refused. *)
Definition CacheEntry (identifier : string) : res string :=
  raise_when (bool_decide (identifier = "")) ValueError ["identifier"];;
  mret identifier.

Definition looks_like_sha (identifier : string) : res bool :=
  i ← CacheEntry identifier;
  mret (HEX_PAT i).

(** ** What the expressions accept *)

Lemma dollar_true rest : dollar rest = true ↔ rest = [] ∨ rest = [newline].
Proof.
  destruct rest as [|c [|c' rest]]; cbn; [naive_solver| |naive_solver].
  rewrite bool_decide_eq_true. naive_solver.
Qed.

Lemma match_run_true cls lo hi s :
  match_run cls lo hi s = true ↔
    ∃ body tl, s = body ++ tl ∧ lo ≤ length body ≤ hi ∧ Forall (λ c, cls c = true) body ∧
      (tl = [] ∨ tl = [newline]).
Proof.
  unfold match_run. rewrite existsb_exists. split.
  - intros (n & Hn & H). apply in_seq in Hn.
    apply andb_prop in H as [H Hd]. apply andb_prop in H as [Hl Hc].
    apply bool_decide_eq_true in Hl. exists (take n s), (drop n s).
    rewrite take_drop, length_take_le by done. split_and!; [done|lia|lia| |by apply dollar_true].
    apply Forall_forall. intros c Hin. rewrite forallb_forall in Hc. apply Hc. by apply list_elem_of_In.
  - intros (body & tl & -> & [Hlo Hhi] & Hb & Htl). exists (length body). rewrite in_seq. split; [lia|].
    rewrite take_app_length, drop_app_length, length_app. apply andb_true_intro. split; [|by apply dollar_true].
    apply andb_true_intro. split; [apply bool_decide_eq_true; lia|]. apply forallb_forall.
    intros c Hin. rewrite Forall_forall in Hb. apply Hb. by apply list_elem_of_In.
Qed.

Lemma HEX_PAT_sha msg : HEX_PAT (sha256 msg) = true.
Proof.
  apply match_run_true. exists (sha256_chars msg), []. rewrite app_nil_r.
  rewrite sha256_list, length_sha256_chars. split_and!; [done|lia|lia|apply sha256_hex|by left].
Qed.

Lemma looks_like_sha_Ok i v : looks_like_sha i = Ok v ↔ i ≠ "" ∧ v = HEX_PAT i.
Proof.
  unfold looks_like_sha, CacheEntry. destruct (decide (i = "")) as [->|Hi]; [by split; [|intros [? _]]|].
  rewrite bool_decide_false by done. cbn [raise_if mbind result_bind mret result_ret].
  split; [by intros [= <-]|by intros [_ ->]].
Qed.

(** What [validate_name] accepts: up to 255 characters of the class, not all of
    them dots, and possibly one newline after them. *)
Lemma cache_name_Ok name :
  validate_name name = Ok () ↔
    ∃ body tl, chars name = body ++ tl ∧ 1 ≤ length body ≤ 255 ∧ Forall (λ c, name_char c = true) body ∧
      (tl = [] ∧ ¬ Forall (λ c, c = dot) body ∨ tl = [newline]).
Proof.
  unfold validate_name, NAME_RE. split.
  - intros H. res_inv. rewrite negb_false_iff in Hr. apply match_run_true in Hr as (body & tl & Hc & Hl & Hb & Htl).
    exists body, tl. split_and!; [done|lia|lia|done|]. destruct Htl as [-> | ->]; [left|by right]. split; [done|].
    rewrite Hc, app_nil_r in H. intros Hd. apply eq_true_false_abs in H; [done|]. apply forallb_forall.
    intros c Hin. apply bool_decide_eq_true. rewrite Forall_forall in Hd. apply Hd. by apply list_elem_of_In.
  - intros (body & tl & Hc & Hl & Hb & Htl). apply bind_Ok. exists (). rewrite !raise_if_Ok. split.
    + apply negb_false_iff, match_run_true. exists body, tl. split_and!; naive_solver.
    + destruct (forallb _ _) eqn:Hd; [|done]. exfalso. rewrite forallb_forall in Hd.
      assert (∀ c, c ∈ chars name → c = dot) as Hall.
      { intros c Hin%list_elem_of_In. by apply Hd, bool_decide_eq_true in Hin. }
      rewrite Hc in Hall. destruct Htl as [[-> Hn]| ->].
      * apply Hn, Forall_forall. intros c Hin. apply Hall. rewrite app_nil_r. done.
      * assert (newline = dot) as [=]. apply Hall. apply elem_of_app. right. by apply list_elem_of_singleton.
Qed.

Definition slash : ascii := ascii_of_nat 47.

(** A name can be used as a path component: it has no slash and is neither [.]
    nor [..]. *)
Lemma validate_name_component name :
  validate_name name = Ok () → slash ∉ chars name ∧ name ≠ "." ∧ name ≠ ".." ∧ name ≠ "".
Proof.
  intros (body & tl & Hc & Hl & Hb & Htl)%cache_name_Ok. split_and!.
  - rewrite Hc. intros [Hin|Hin]%elem_of_app.
    + rewrite Forall_forall in Hb. by apply Hb in Hin.
    + destruct Htl as [[-> _]| ->]; [by apply not_elem_of_nil in Hin|].
      apply list_elem_of_singleton in Hin. done.
  - intros ->. destruct body as [|c [|c' body]]; destruct Htl as [[-> Hd]| ->]; cbn in *; simplify_eq; try lia.
    apply Hd. repeat constructor.
  - intros ->. destruct body as [|c [|c' [|c2 body]]]; destruct Htl as [[-> Hd]| ->]; cbn in *; simplify_eq; try lia.
    apply Hd. repeat constructor.
  - intros ->. destruct body; cbn in *; [lia|done].
Qed.

(** [$] lets a newline at the end of a name through. *)
Example trailing_newline_accepted :
  validate_name (String "a" (String newline "")) = Ok () ∧ validate_name (String newline "") ≠ Ok ().
Proof. split; vm_compute; [reflexivity|discriminate]. Qed.

(** A name that is also a hex prefix is accepted, and looked up as a sha. *)
Example hex_name_accepted :
  validate_name "deadbeefdeadbeef" = Ok () ∧ looks_like_sha "deadbeefdeadbeef" = Ok true.
Proof. split; vm_compute; reflexivity. Qed.
