(* ===== verification/Ledger.v ===== *)
(** * The state document ([testrange/state/schema.py])

    [Resource], [NodeRecord] and [State] with their updates and their JSON form.
    A JSON text is represented by the value it denotes; an object's key order is
    immaterial (the writer sorts keys, the reader looks fields up by name). *)

From S2P Require Import Prelude Exceptions.
From stdpp Require Import options.

Inductive json : Type :=
  | JNull
  | JBool (b : bool)
  | JNum (z : Z)
  | JStr (s : string)
  | JArr (l : list json)
  | JObj (m : gmap string json).

(** ** Reading JSON fields *)

(** [data[k]]: only an object can be subscripted with a string. *)
Definition json_getitem (data : json) (k : string) : res json :=
  match data with
  | JObj m => getitem m k
  | _ => raise TypeError [k]
  end.

(** [data.get(k)]: only an object has [get]. *)
Definition json_get (data : json) (k : string) : res (option json) :=
  match data with
  | JObj m => mret (m !! k)
  | _ => raise AttributeError ["get"]
  end.

Definition as_str (j : json) : res string :=
  match j with JStr s => mret s | _ => raise UntypedField [] end.

(** A [str | None] field read with [.get]: absent and [null] are both [None]. *)
Definition as_opt_str (j : option json) : res (option string) :=
  match j with
  | None | Some JNull => mret None
  | Some (JStr s) => mret (Some s)
  | Some _ => raise UntypedField []
  end.

Definition get_str (data : json) (k dflt : string) : res string :=
  o ← json_get data k;
  match o with None => mret dflt | Some j => as_str j end.

(** [dict(data.get("metadata") or {})] *)
Definition as_metadata (o : option json) : res (gmap string json) :=
  match o with
  | None | Some JNull | Some (JBool false) | Some (JNum 0) | Some (JStr "") | Some (JArr []) => mret ∅
  | Some (JObj m) => mret m
  | Some (JBool true) | Some (JNum _) => raise TypeError ["dict"]
  | Some (JStr _) => raise ValueError ["dict"]
  | Some (JArr _) => raise UntypedField []
  end.

(** [int(x)] of a JSON value. *)
Definition py_int (j : json) : res Z :=
  match j with
  | JNum z => mret z
  | JBool b => mret (if b then 1%Z else 0%Z)
  | JStr _ => raise UntypedField []
  | JNull | JArr _ | JObj _ => raise TypeError ["int"]
  end.

(** [for x in j]: the items of a JSON value used as an iterable. *)
Definition json_iter (j : json) : res (list json) :=
  match j with
  | JArr l => mret l
  | JObj m => mret (JStr <$> sorted_set (dom m))
  | JStr s => mret ((λ c, JStr (String c "")) <$> String.list_ascii_of_string s)
  | JNull | JBool _ | JNum _ => raise TypeError ["iter"]
  end.

Definition get_list (data : json) (k : string) : res (list json) :=
  o ← json_get data k;
  match o with None => mret [] | Some j => json_iter j end.

Definition opt_json (o : option string) : json :=
  match o with Some s => JStr s | None => JNull end.

(** ** [Resource] *)

Record Resource : Type := MkResource {
  r_kind : string;
  backend_name : string;
  r_plan_name : option string;
  intent_at : string;
  outcome_at : option string;
  metadata : gmap string json;
}.

(** [{**self.metadata, **extra}]: the extra keys win. *)
Definition with_outcome (r : Resource) (at_ : string) (extra : gmap string json) : Resource :=
  MkResource (r_kind r) (backend_name r) (r_plan_name r) (intent_at r) (Some at_)
    (extra ∪ metadata r).

Definition resource_to_json (r : Resource) : json :=
  JObj (<["kind" := JStr (r_kind r)]>
       (<["backend_name" := JStr (backend_name r)]>
       (<["plan_name" := opt_json (r_plan_name r)]>
       (<["intent_at" := JStr (intent_at r)]>
       (<["outcome_at" := opt_json (outcome_at r)]>
       (<["metadata" := JObj (metadata r)]> ∅)))))).

Definition resource_from_json (data : json) : res Resource :=
  kind ← json_getitem data "kind" ≫= as_str;
  bn ← json_getitem data "backend_name" ≫= as_str;
  pn ← json_get data "plan_name" ≫= as_opt_str;
  ia ← json_getitem data "intent_at" ≫= as_str;
  oa ← json_get data "outcome_at" ≫= as_opt_str;
  md ← json_get data "metadata" ≫= as_metadata;
  mret (MkResource kind bn pn ia oa md).

(** ** [NodeRecord] *)

Record NodeRecord : Type := MkNodeRecord {
  nr_name : string;
  materialized_at : option string;
  realized_at : option string;
}.

Definition node_record_to_json (n : NodeRecord) : json :=
  JObj (<["name" := JStr (nr_name n)]>
       (<["materialized_at" := opt_json (materialized_at n)]>
       (<["realized_at" := opt_json (realized_at n)]> ∅))).

Definition node_record_from_json (data : json) : res NodeRecord :=
  name ← json_getitem data "name" ≫= as_str;
  m ← json_get data "materialized_at" ≫= as_opt_str;
  r ← json_get data "realized_at" ≫= as_opt_str;
  mret (MkNodeRecord name m r).

(** ** [State] *)

Definition SCHEMA_VERSION : Z := 1.
Definition PHASE_PREFLIGHT : string := "preflight".
Definition PHASE_BUILD : string := "build".
Definition PHASE_RUN : string := "run".
Definition PHASE_CLEANUP : string := "cleanup".
Definition PHASE_DONE : string := "done".
Definition PHASE_LEAKED : string := "leaked".

Record State : Type := MkState {
  schema_version : Z;
  run_id : string;
  plan_name : string;
  driver_class : string;
  driver_uri : string;
  phase : string;
  created_at : string;
  resources : list Resource;
  nodes : list NodeRecord;
}.

Definition set_resources (rs : list Resource) (s : State) : State :=
  MkState (schema_version s) (run_id s) (plan_name s) (driver_class s) (driver_uri s) (phase s)
    (created_at s) rs (nodes s).
Definition set_nodes (ns : list NodeRecord) (s : State) : State :=
  MkState (schema_version s) (run_id s) (plan_name s) (driver_class s) (driver_uri s) (phase s)
    (created_at s) (resources s) ns.
(** [replace(state, phase=phase)] *)
Definition with_phase (p : string) (s : State) : State :=
  MkState (schema_version s) (run_id s) (plan_name s) (driver_class s) (driver_uri s) p
    (created_at s) (resources s) (nodes s).

Definition with_resource (s : State) (r : Resource) : State :=
  set_resources (resources s ++ [r]) s.

Definition replace_resource (s : State) (name : string) (new : Resource) : res State :=
  raise_when (bool_decide (Forall (λ r, backend_name r ≠ name) (resources s)))
    StateError ["replace_resource"; name];;
  mret (set_resources
    ((λ r, if decide (backend_name r = name) then new else r) <$> resources s) s).

Definition remove_resource (s : State) (name : string) : State :=
  set_resources (filter (λ r, backend_name r ≠ name) (resources s)) s.

Definition with_node_record (s : State) (record : NodeRecord) : State :=
  set_nodes (filter (λ n, nr_name n ≠ nr_name record) (nodes s) ++ [record]) s.

Definition node_record (s : State) (name : string) : option NodeRecord :=
  snd <$> list_find (λ n, nr_name n = name) (nodes s).

Definition state_to_json (s : State) : json :=
  JObj (<["schema_version" := JNum (schema_version s)]>
       (<["run_id" := JStr (run_id s)]>
       (<["plan_name" := JStr (plan_name s)]>
       (<["driver_class" := JStr (driver_class s)]>
       (<["driver_uri" := JStr (driver_uri s)]>
       (<["phase" := JStr (phase s)]>
       (<["created_at" := JStr (created_at s)]>
       (<["resources" := JArr (resource_to_json <$> resources s)]>
       (<["nodes" := JArr (node_record_to_json <$> nodes s)]> ∅))))))))).

Definition state_from_json (data : json) : res State :=
  v ← json_get data "schema_version";
  version ← py_int (default (JNum 0) v);
  raise_when (bool_decide (version ≠ SCHEMA_VERSION)) StateError ["schema_version"];;
  rid ← get_str data "run_id" "";
  pn ← get_str data "plan_name" "";
  dc ← get_str data "driver_class" "";
  du ← get_str data "driver_uri" "";
  ph ← get_str data "phase" PHASE_PREFLIGHT;
  ca ← get_str data "created_at" "";
  rs ← get_list data "resources" ≫= mapM resource_from_json;
  ns ← get_list data "nodes" ≫= mapM node_record_from_json;
  mret (MkState version rid pn dc du ph ca rs ns).

(** ** Round trips *)

Lemma as_opt_str_json o : as_opt_str (Some (opt_json o)) = Ok o.
Proof. by destruct o. Qed.

Lemma resource_roundtrip r : resource_from_json (resource_to_json r) = Ok r.
Proof. destruct r as [k b [p|] i [o|] m]; reflexivity. Qed.

Lemma node_record_roundtrip n : node_record_from_json (node_record_to_json n) = Ok n.
Proof. destruct n as [k [m|] [r|]]; reflexivity. Qed.

Lemma mapM_roundtrip {A B} (f : A → B) (g : B → res A) l :
  (∀ x, g (f x) = Ok x) → mapM g (f <$> l) = Ok l.
Proof.
  intros Hfg. induction l as [|x l IH]; [done|]. cbn. rewrite Hfg. cbn. by rewrite IH.
Qed.

Lemma get_str_obj m k d v : m !! k = Some (JStr v) → get_str (JObj m) k d = Ok v.
Proof. unfold get_str. cbn. by intros ->. Qed.

Lemma get_list_obj m k l : m !! k = Some (JArr l) → get_list (JObj m) k = Ok l.
Proof. unfold get_list. cbn. by intros ->. Qed.

Lemma state_from_to_json s :
  state_from_json (state_to_json s) =
    if decide (schema_version s = SCHEMA_VERSION) then Ok s else raise StateError ["schema_version"].
Proof.
  unfold state_from_json.
  change (json_get (state_to_json s) "schema_version")
    with (@Ok exn _ (Some (JNum (schema_version s)))).
  cbn [mbind result_bind].
  change (default (JNum 0) _) with (JNum (schema_version s)).
  cbn [mbind result_bind py_int mret result_ret].
  case_decide as Hv; [rewrite bool_decide_false by naive_solver|by rewrite bool_decide_true].
  cbn [mbind result_bind raise_if]. unfold state_to_json.
  do 6 (erewrite get_str_obj by reflexivity; cbn [mbind result_bind]).
  rewrite (get_list_obj _ "resources" (resource_to_json <$> resources s)) by reflexivity.
  cbn [mbind result_bind]. rewrite (mapM_roundtrip _ _ _ resource_roundtrip). cbn [mbind result_bind].
  rewrite (get_list_obj _ "nodes" (node_record_to_json <$> nodes s)) by reflexivity.
  cbn [mbind result_bind]. rewrite (mapM_roundtrip _ _ _ node_record_roundtrip). by destruct s.
Qed.

(** Only documents of this schema version are read. *)
Lemma state_from_json_version j s : state_from_json j = Ok s → schema_version s = SCHEMA_VERSION.
Proof.
  unfold state_from_json. intros Hj. do 2 (apply bind_Ok in Hj as (? & _ & Hj)).
  apply bind_Ok in Hj as (u & Hu & Hj). apply raise_if_Ok, bool_decide_eq_false in Hu.
  do 8 (apply bind_Ok in Hj as (? & _ & Hj)). injection Hj as <-. cbn. by apply dec_stable.
Qed.
