(* ===== verification/CacheDisk.v ===== *)
(** * Which exceptions can escape

    Pure code that raises only [Exception]s (no interrupt): the readers of JSON
    documents, whatever the document holds. *)

From S2P Require Import Prelude Exceptions Ledger Eff PyBytes CacheNames.
From stdpp Require Import options.

Create HintDb tame discriminated.

(** Pure code that raises only [Exception]s. *)
Definition tame_res {A} (r : res A) : Prop := ∀ e, r = Raise e → is_exception e = true.

Lemma tame_ok {A} (a : A) : tame_res (Ok a).
Proof. by intros e. Qed.
Lemma tame_ret {A} (a : A) : tame_res (mret a).
Proof. by intros e. Qed.
Lemma tame_raise {A} c args :
  bool_decide (c ∈ [KeyboardInterrupt; OutOfFuel; Killed]) = false → tame_res (A := A) (raise c args).
Proof. intros Hc e [= <-]. unfold is_exception. cbn. by rewrite Hc. Qed.
Lemma tame_raise_if b c args :
  bool_decide (c ∈ [KeyboardInterrupt; OutOfFuel; Killed]) = false → tame_res (raise_when b c args).
Proof. intros Hc. destruct b; [by apply tame_raise|apply tame_ok]. Qed.
Lemma tame_bind {A C} (m : res A) (k : A → res C) :
  tame_res m → (∀ a, tame_res (k a)) → tame_res (m ≫= k).
Proof. intros Hm Hk e [->|(a & -> & He)]%bind_Raise; [by apply Hm|by eapply Hk]. Qed.
Lemma tame_mapM {A C} (f : A → res C) l : (∀ a, tame_res (f a)) → tame_res (mapM f l).
Proof.
  intros Hf. induction l as [|x l IH]; cbn; [apply tame_ok|].
  apply tame_bind; [done|intros y]. apply tame_bind; [done|intros ys]. apply tame_ret.
Qed.
#[export] Hint Resolve tame_ok tame_ret tame_raise tame_raise_if tame_bind tame_mapM : tame.
#[export] Hint Extern 1 (bool_decide _ = false) => reflexivity : tame.
#[export] Hint Extern 3 (tame_res (match ?x with _ => _ end)) => destruct x : tame.

Lemma tame_getitem {V} (m : gmap string V) k : tame_res (getitem m k).
Proof. unfold getitem. eauto with tame. Qed.
#[export] Hint Resolve tame_getitem : tame.

Lemma tame_json_getitem j k : tame_res (json_getitem j k).
Proof. destruct j; cbn; eauto with tame. Qed.
Lemma tame_json_get j k : tame_res (json_get j k).
Proof. destruct j; cbn; eauto with tame. Qed.
Lemma tame_as_str j : tame_res (as_str j).
Proof. destruct j; cbn; eauto with tame. Qed.
Lemma tame_as_opt_str j : tame_res (as_opt_str j).
Proof. destruct j as [[]|]; cbn; eauto with tame. Qed.
Lemma tame_as_metadata j : tame_res (as_metadata j).
Proof. unfold as_metadata. repeat case_match; eauto with tame. Qed.
Lemma tame_py_int j : tame_res (py_int j).
Proof. destruct j; cbn; eauto with tame. Qed.
Lemma tame_json_iter j : tame_res (json_iter j).
Proof. destruct j; cbn; eauto with tame. Qed.
#[export] Hint Resolve tame_json_getitem tame_json_get tame_as_str tame_as_opt_str tame_as_metadata
  tame_py_int tame_json_iter : tame.

Lemma tame_get_str j k d : tame_res (get_str j k d).
Proof. unfold get_str. eauto with tame. Qed.
Lemma tame_get_list j k : tame_res (get_list j k).
Proof. unfold get_list. eauto with tame. Qed.
Lemma tame_resource_from_json j : tame_res (resource_from_json j).
Proof. unfold resource_from_json. eauto 20 with tame. Qed.
Lemma tame_node_record_from_json j : tame_res (node_record_from_json j).
Proof. unfold node_record_from_json. eauto 20 with tame. Qed.
#[export] Hint Resolve tame_get_str tame_get_list tame_resource_from_json tame_node_record_from_json : tame.

(** Reading any document, whatever it holds, raises only [Exception]s. *)
Lemma tame_state_from_json j : tame_res (state_from_json j).
Proof. unfold state_from_json. eauto 40 with tame. Qed.
#[export] Hint Resolve tame_state_from_json : tame.

(** ** The file system and the network under the cache

    - A [path] is a directory and a file name; [None] is the cache directory
      [isos/], any other directory is [Some].
    - A file holds bytes, or a JSON text represented by the value it denotes.
    - [sched] decides what each system call does: it succeeds, fails with
      [OSError], or the process is killed there ([Dies]).  A write that fails or
      dies leaves the first [k] bytes.  Once killed, no call has an effect, so
      the file system is what a crash at that point leaves behind.
    - [tries] are the random parts [tempfile.mkstemp] draws.
    - The HTTP server and the web behind [urlopen] are the class [Http]: any
      state, any answers.

    [utils/fsutil.py] and the atomic-write helpers of [cache/local.py] are
    written on top. *)

Abbreviation path := (option string * string)%type.

Inductive file : Type :=
  | FBytes (d : bytes)
  | FJson (j : json).

Inductive fault : Type := Fine | Fails (k : nat) | Dies (k : nat).

Record CWorld (R : Type) : Type := MkCWorld {
  fs : gmap path file;
  alive : bool;
  sched : list fault;
  tries : list string;
  clock : string;
  remote : R;
}.
Arguments MkCWorld {R} _ _ _ _ _ _.
Arguments fs {R} _.
Arguments alive {R} _.
Arguments sched {R} _.
Arguments tries {R} _.
Arguments clock {R} _.
Arguments remote {R} _.

(** A [requests] response: status, text, the value of that text as JSON (if it is
    one), and the streamed body with whether the connection broke after it. *)
Record response : Type := MkResponse {
  status_code : Z;
  text : pystr;
  text_json : option json;
  chunks : list bytes;
  broken : bool;
}.

(** [resp.ok] *)
Definition ok (r : response) : bool := (status_code r <? 400)%Z.

(** [None] is a [RequestException] (no response at all). *)
Class Http (R : Type) : Type := {
  http_get : string → R → option response * R;
  http_put : string → file → R → option response * R;
  http_delete : string → R → option response * R;
  (** [urllib.request.urlopen(url)]: the body and whether it broke off *)
  url_open : string → R → option (list bytes * bool) * R;
}.
#[export] Hint Mode Http ! : typeclass_instances.

(** What the cache uses of the JSON and path libraries: the text of a value, the
    value of a text, the file [Path(src).expanduser().resolve()] names, [str] of a
    path, and the directory a relative path under [isos/] leads to. *)
Class PyEnv : Type := {
  json_text : json → bytes;
  json_loads : bytes → res json;
  resolve_source : string → path;
  show_path : path → string;
  resolve_dir : string → option string;
}.

Section Disk.
Context {R : Type} `{!Http R} `{!PyEnv}.
Implicit Types (w : CWorld R) (p : path).

Definition set_fs (f : gmap path file) w : CWorld R :=
  MkCWorld f (alive w) (sched w) (tries w) (clock w) (remote w).
Definition set_sched (s : list fault) w : CWorld R :=
  MkCWorld (fs w) (alive w) s (tries w) (clock w) (remote w).
Definition set_tries (t : list string) w : CWorld R :=
  MkCWorld (fs w) (alive w) (sched w) t (clock w) (remote w).
Definition set_remote (r : R) w : CWorld R :=
  MkCWorld (fs w) (alive w) (sched w) (tries w) (clock w) r.
Definition kill w : CWorld R :=
  MkCWorld (fs w) false (sched w) (tries w) (clock w) (remote w).

Definition bytes_of (f : file) : bytes :=
  match f with FBytes d => d | FJson j => json_text j end.

(** ** System calls *)

(** One system call; [torn k] is the effect of it being cut off. *)
Definition sys_torn (torn : nat → CWorld R → CWorld R) : act (CWorld R) () := λ w,
  if alive w then
    match sched w with
    | [] => (Ok (), w)
    | Fine :: s => (Ok (), set_sched s w)
    | Fails k :: s => (raise OSError [], torn k (set_sched s w))
    | Dies k :: s => (raise Killed [], kill (torn k (set_sched s w)))
    end
  else (raise Killed [], w).

Definition sys : act (CWorld R) () := sys_torn (λ _ w, w).

Definition put p (f : file) w : CWorld R := set_fs (<[p := f]> (fs w)) w.

(** [open(p).read()] *)
Definition read_path p : act (CWorld R) file :=
  sys;;
  o ← gets (λ w, fs w !! p);
  match o with Some f => mret f | None => throw OSError [p.2] end.

(** [p.exists()], [p.is_file()] *)
Definition exists_path p : act (CWorld R) bool := gets (λ w, bool_decide (is_Some (fs w !! p))).

(** Writing an open file. *)
Definition write_path p (f : file) : act (CWorld R) () :=
  sys_torn (λ k, put p (FBytes (take k (bytes_of f))));;
  modify (put p f).

(** [p.unlink(missing_ok=True)] *)
Definition unlink_path p : act (CWorld R) () :=
  sys;;
  modify (λ w, set_fs (delete p (fs w)) w).

(** [p.stat().st_size] *)
Definition stat_size p : act (CWorld R) Z :=
  f ← read_path p;
  mret (Z.of_nat (length (bytes_of f))).

(** The first drawn name that is free. *)
Fixpoint draw (taken : string → bool) (suffix : string) (l : list string) : option (string * list string) :=
  match l with
  | [] => None
  | c :: l =>
      let n := "tmp" +:+ c +:+ suffix in
      if taken n then draw taken suffix l else Some (n, l)
  end.

(** [tempfile.mkstemp(dir=d, suffix=suffix)] followed by [os.fchmod] *)
Definition mkstemp (d : option string) (suffix : string) : act (CWorld R) path :=
  sys;;
  w ← gets (λ w, w);
  match draw (λ n, bool_decide (is_Some (fs w !! (d, n)))) suffix (tries w) with
  | None => throw OSError ["No usable temporary file name found"]
  | Some (n, rest) =>
      modify (λ w, put (d, n) (FBytes []) (set_tries rest w));;
      sys;;
      mret (d, n)
  end.

(** [os.replace]: atomic. *)
Definition rename tmp dest : act (CWorld R) () :=
  sys;;
  o ← gets (λ w, fs w !! tmp);
  match o with
  | Some f => modify (λ w, set_fs (<[dest := f]> (delete tmp (fs w))) w)
  | None => throw OSError [tmp.2]
  end.

(** [durable_replace]: fsync the file, rename it, fsync the directory. *)
Definition durable_replace_path tmp dest : act (CWorld R) () :=
  sys;;
  rename tmp dest;;
  sys.

Definition always (e : exn) : bool := true.

(** [_atomic_materialize(path, write)] *)
Definition atomic_materialize p (f : file) : act (CWorld R) () :=
  tmp ← mkstemp p.1 ".partial";
  catch
    (write_path tmp f;;
     durable_replace_path tmp p)
    always
    (λ e, unlink_path tmp;; lift (Raise e)).

(** [_atomic_copy(src, dst)] *)
Definition atomic_copy src dst : act (CWorld R) () :=
  f ← read_path src;
  atomic_materialize dst (FBytes (bytes_of f)).

(** [_atomic_write_text(path, json.dumps(body) + "\n")] *)
Definition atomic_write_json p (j : json) : act (CWorld R) () :=
  atomic_materialize p (FJson j).

(** ** Paths under [isos/] *)

(** The text before and after the last slash. *)
Fixpoint rsplit_slash (l : list ascii) : option (list ascii * list ascii) :=
  match l with
  | [] => None
  | c :: l =>
      match rsplit_slash l with
      | Some (d, n) => Some (c :: d, n)
      | None => if bool_decide (c = slash) then Some ([], l) else None
      end
  end.

(** [self.isos / name] *)
Definition iso (name : string) : path :=
  match rsplit_slash (chars name) with
  | None => (None, name)
  | Some (d, n) => (resolve_dir (String.string_of_list_ascii d), String.string_of_list_ascii n)
  end.

Definition bin_path (sha : string) : path := iso (sha +:+ ".bin").
Definition sidecar_path (sha : string) : path := iso (sha +:+ ".json").

(** [sorted(self.isos.glob("*.json"))] *)
Definition glob_json w : list string :=
  sorted (snd <$> filter (λ p, p.1 = None ∧ chars ".json" `suffix_of` chars p.2) (elements (dom (fs w)))).

(** ** The network *)

(** A call to the server; a killed process makes none. *)
Definition call_remote {A} (f : R → option A * R) : act (CWorld R) (option A) := λ w,
  if alive w then let '(a, r) := f (remote w) in (Ok a, set_remote r w) else (raise Killed [], w).

End Disk.
