(* ===== verification/LocalCache.v ===== *)
(** * The local cache ([cache/local.py])

    [LocalCache] over the file system of [CacheDisk]: content-addressed [.bin]
    files with [.json] sidecars.  [_write_lock] serializes the sidecar updates of
    the process's threads; the model runs one operation at a time. *)

From S2P Require Import Prelude Exceptions Eff PyBytes Ledger Sha256 CacheNames CacheDisk.
From stdpp Require Import options.

Record CacheEntryInfo : Type := MkInfo {
  sha : string;
  entry_size : Z;
  names : list string;
  origin : option string;
  added_at : string;
  description : option string;
  info_path : option path;
}.

(** The fields of [info] with other names. *)
Definition with_names (info : CacheEntryInfo) (ns : list string) : CacheEntryInfo :=
  MkInfo (sha info) (entry_size info) ns (origin info) (added_at info) (description info) (info_path info).

Definition with_path (info : CacheEntryInfo) (p : option path) : CacheEntryInfo :=
  MkInfo (sha info) (entry_size info) (names info) (origin info) (added_at info) (description info) p.

(** [tuple(data.get("names") or ())] *)
Definition names_of (o : option json) : res (list string) :=
  match o with
  | None | Some JNull | Some (JBool false) | Some (JNum 0) | Some (JStr "") => mret []
  | Some j => l ← json_iter j; foldM (λ acc x, s ← as_str x; mret (acc ++ [s])) [] l
  end.

(** The entry a sidecar's JSON value describes; [path] is filled in by the caller. *)
Definition info_from_json (data : json) : res CacheEntryInfo :=
  sha ← json_getitem data "sha256" ≫= as_str;
  sz ← json_get data "size";
  size ← match sz with None => mret 0%Z | Some j => py_int j end;
  ns ← json_get data "names" ≫= names_of;
  origin ← json_get data "origin" ≫= as_opt_str;
  added ← get_str data "added_at" "";
  descr ← json_get data "description" ≫= as_opt_str;
  mret (MkInfo sha size ns origin added descr None).

(** The sidecar body [_write_sidecar] dumps. *)
Definition sidecar_body (info : CacheEntryInfo) : json :=
  JObj (<["sha256" := JStr (sha info)]>
       (<["size" := JNum (entry_size info)]>
       (<["names" := JArr (JStr <$> names info)]>
       (<["origin" := opt_json (origin info)]>
       (<["added_at" := JStr (added_at info)]>
       (<["description" := opt_json (description info)]> ∅)))))).

(** [dict.fromkeys]: the first occurrence of each key, in order. *)
Fixpoint dict_fromkeys (seen : list string) (l : list string) : list string :=
  match l with
  | [] => []
  | x :: l => if decide (x ∈ seen) then dict_fromkeys seen l else x :: dict_fromkeys (x :: seen) l
  end.

Section Local.
Context {R : Type} `{!Http R} `{!PyEnv}.

Definition url_scheme (src : string) : bool :=
  starts_with (chars "http://") (chars src) || starts_with (chars "https://") (chars src).

(** [_sha256_of(path)] *)
Definition sha256_of (p : path) : act (CWorld R) string :=
  f ← read_path p;
  mret (sha256 (bytes_of f)).

(** ** Sidecars *)

(** [json.loads(path.read_text())] *)
Definition load_json (f : file) : res json :=
  match f with FBytes d => json_loads d | FJson j => Ok j end.

Definition entry_of (f : file) : res CacheEntryInfo :=
  data ← load_json f;
  info ← info_from_json data;
  mret (with_path info (Some (bin_path (sha info)))).

Definition read_sidecar (p : path) : act (CWorld R) CacheEntryInfo :=
  f ← read_path p;
  lift (entry_of f).

Definition write_sidecar (p : path) (info : CacheEntryInfo) : act (CWorld R) () :=
  atomic_write_json p (sidecar_body info).

Definition append_alias (sidecar : path) (info : CacheEntryInfo) (new_name : string)
    (descr : option string) : act (CWorld R) CacheEntryInfo :=
  let new_info := MkInfo (sha info) (entry_size info) (names info ++ [new_name]) (origin info) (added_at info)
    (match descr with Some d => Some d | None => description info end) (info_path info) in
  write_sidecar sidecar new_info;;
  mret new_info.

(** [except (json.JSONDecodeError, OSError, KeyError)] *)
Definition bad_sidecar (e : exn) : bool :=
  isinstance e JSONDecodeError || isinstance e OSError || isinstance e KeyError.

(** One step of [iter_entries]: [None] is a sidecar that was skipped. *)
Definition try_sidecar (n : string) : act (CWorld R) (option CacheEntryInfo) :=
  catch (info ← read_sidecar (None, n); mret (Some info)) bad_sidecar (λ _, mret None).

(** [for info in self.iter_entries(): if p(info): return info] *)
Fixpoint first_entry (p : CacheEntryInfo → bool) (ns : list string) : act (CWorld R) (option CacheEntryInfo) :=
  match ns with
  | [] => mret None
  | n :: ns =>
      o ← try_sidecar n;
      match o with
      | Some info => if p info then mret (Some info) else first_entry p ns
      | None => first_entry p ns
      end
  end.

(** [list(self.iter_entries())] *)
Fixpoint all_entries (ns : list string) : act (CWorld R) (list CacheEntryInfo) :=
  match ns with
  | [] => mret []
  | n :: ns =>
      o ← try_sidecar n;
      l ← all_entries ns;
      mret (match o with Some info => info :: l | None => l end)
  end.

Definition list_entries : act (CWorld R) (list CacheEntryInfo) :=
  ns ← gets glob_json;
  all_entries ns.

Definition find_by_name (name : string) : act (CWorld R) (option CacheEntryInfo) :=
  ns ← gets glob_json;
  first_entry (λ info, bool_decide (name ∈ names info)) ns.

(** ** Operations *)

Definition resolve (identifier : string) : act (CWorld R) CacheEntryInfo :=
  is_sha ← lift (looks_like_sha identifier);
  if is_sha : bool then
    l ← list_entries;
    match filter (λ info, chars identifier `prefix_of` chars (sha info)) l with
    | [info] => mret info
    | [] => throw CacheMissError [identifier]
    | ms => throw CacheError (identifier :: (sha <$> ms))
    end
  else
    o ← find_by_name identifier;
    match o with
    | Some info => mret info
    | None => throw CacheMissError [identifier]
    end.

(** The download: the temporary is removed if the body does not arrive whole. *)
Definition download_url (url : string) : act (CWorld R) path :=
  tmp ← mkstemp None ".download.partial";
  catch
    (o ← call_remote (url_open url);
     match o with
     | None => throw OSError [url]
     | Some (body, cut) =>
         write_path tmp (FBytes (concat body));;
         if cut : bool then throw OSError [url] else mret tmp
     end)
    always
    (λ e, unlink_path tmp;; lift (Raise e)).

(** The two ways to get the content: [(path, origin)]. *)
Definition open_source (src : string) : act (CWorld R) (path * string) :=
  if url_scheme src then
    tmp ← download_url src;
    mret (tmp, src)
  else
    let p := resolve_source src in
    is_file ← exists_path p;
    throw_when (negb is_file) CacheError [src];;
    mret (p, show_path p).

(** The locked part of [add]. *)
Definition add_sidecar (digest : string) (source : path) (src_origin : string) (name descr : option string) :
    act (CWorld R) CacheEntryInfo :=
  let sidecar := sidecar_path digest in
  present ← exists_path sidecar;
  if present : bool then
    info ← read_sidecar sidecar;
    match name with
    | Some n =>
        if decide (n ≠ "" ∧ n ∉ names info) then append_alias sidecar info n descr else mret info
    | None => mret info
    end
  else
    sz ← stat_size (bin_path digest);
    at_ ← gets clock;
    let ns := match name with Some n => if decide (n = "") then [] else [n] | None => [] end in
    let info := MkInfo digest sz ns (Some src_origin) at_ descr (Some (bin_path digest)) in
    write_sidecar sidecar info;;
    mret info.

Definition add (src : string) (name descr : option string) : act (CWorld R) CacheEntryInfo :=
  match name with Some n => lift (validate_name n) | None => mret () end;;
  '(source, src_origin) ← open_source src;
  digest ← sha256_of source;
  let dst := bin_path digest in
  present ← exists_path dst;
  act_when (negb present && bool_decide (source ≠ dst)) (atomic_copy source dst);;
  act_when (url_scheme src) (unlink_path source);;
  add_sidecar digest source src_origin name descr.

Definition write_materialized_sidecar (info : CacheEntryInfo) : act (CWorld R) CacheEntryInfo :=
  let sidecar := sidecar_path (sha info) in
  present ← exists_path sidecar;
  if present : bool then
    existing ← read_sidecar sidecar;
    let merged := dict_fromkeys [] (names existing ++ names info) in
    if decide (merged = names existing) then mret existing
    else
      let existing := with_names existing merged in
      write_sidecar sidecar existing;;
      mret existing
  else
    write_sidecar sidecar info;;
    mret info.

(** Sidecar first: a reader never sees an entry whose bytes are gone. *)
Definition unlink_entry (info : CacheEntryInfo) : act (CWorld R) () :=
  unlink_path (sidecar_path (sha info));;
  unlink_path (bin_path (sha info)).

Definition local_delete (identifier : string) : act (CWorld R) CacheEntryInfo :=
  info ← resolve identifier;
  unlink_entry info;;
  mret info.

Definition purge : act (CWorld R) (list CacheEntryInfo) :=
  removed ← list_entries;
  forA unlink_entry removed;;
  mret removed.

Definition add_name (identifier new_name : string) : act (CWorld R) CacheEntryInfo :=
  lift (validate_name new_name);;
  info ← resolve identifier;
  if decide (new_name ∈ names info) then mret info
  else
    clash ← find_by_name new_name;
    match clash with
    | Some c => throw_when (bool_decide (sha c ≠ sha info)) CacheError [new_name; sha c]
    | None => mret ()
    end;;
    append_alias (sidecar_path (sha info)) info new_name None.

Definition forget_name (name : string) : act (CWorld R) CacheEntryInfo :=
  o ← find_by_name name;
  match o with
  | None => throw CacheMissError [name]
  | Some info =>
      let new_info := with_names info (filter (λ n, n ≠ name) (names info)) in
      write_sidecar (sidecar_path (sha info)) new_info;;
      mret new_info
  end.
End Local.
