(* ===== verification/HttpCache.v ===== *)
(** * The HTTP tier and the manager ([cache/http.py], [cache/manager.py])

    [HttpCache] talks to any server ([Http]); [CacheManager] puts it behind the
    local cache: local first, the server as a best-effort mirror. *)

From S2P Require Import Prelude Exceptions Eff PyBytes Ledger Sha256 CacheNames CacheDisk LocalCache.
From stdpp Require Import options.

(** [base_url.rstrip("/")] *)
Definition rstrip_slash (s : string) : string :=
  String.string_of_list_ascii (reverse (drop_while (λ c, bool_decide (c = slash)) (reverse (chars s)))).

(** The characters of a text, when they are all 7-bit. *)
Definition ascii_text (s : pystr) : option string :=
  if forallb (λ c, (c <? 128)%N) s then Some (String.string_of_list_ascii (ascii_of_N <$> s)) else None.

Section Tier.
Context {R : Type} `{!Http R} `{!PyEnv}.
(** [HttpCache.base_url], and whether [import requests] works. *)
Variables (base_url : string) (requests_installed : bool).

(** [HttpCache(base_url)] *)
Definition HttpCache_init (url : string) : res string :=
  raise_when (bool_decide (url = "")) CacheError ["base_url"];;
  mret (rstrip_slash url).

Definition url_of (p : string) : string :=
  base_url +:+ (if starts_with [slash] (chars p) then p else "/" +:+ p).

Definition import_requests : act (CWorld R) () := throw_when (negb requests_installed) CacheError ["requests"].

(** A transport failure becomes a [CacheError]. *)
Definition request (o : option response) (p : string) : act (CWorld R) response :=
  match o with Some r => mret r | None => throw CacheError [p] end.

Definition http_get_path (p : string) : act (CWorld R) response :=
  import_requests;;
  o ← call_remote (http_get (url_of p));
  request o p.

Definition http_put_path (p : string) (data : file) : act (CWorld R) response :=
  import_requests;;
  o ← call_remote (http_put (url_of p) data);
  request o p.

Definition http_delete_path (p : string) : act (CWorld R) response :=
  import_requests;;
  o ← call_remote (http_delete (url_of p));
  request o p.

Definition full_sha (s : string) : bool := HEX_PAT s && bool_decide (length (chars s) = 64).

(** ** Reading *)

Definition resolve_name (name : string) : act (CWorld R) string :=
  resp ← http_get_path ("/names/" +:+ name);
  throw_when (bool_decide (status_code resp = 404%Z)) CacheMissError [name];;
  throw_when (negb (ok resp)) CacheError [name];;
  let stripped := strip (text resp) in
  throw_when (bool_decide (stripped = [])) CacheError [name];;
  match ascii_text stripped with
  | Some s => if full_sha s then mret s else throw CacheError [name]
  | None => throw CacheError [name]
  end.

Definition http_read_sidecar (digest : string) : act (CWorld R) CacheEntryInfo :=
  resp ← http_get_path ("/isos/" +:+ digest +:+ ".json");
  throw_when (bool_decide (status_code resp = 404%Z)) CacheMissError [digest];;
  throw_when (negb (ok resp)) CacheError [digest];;
  data ← match text_json resp with Some j => mret j | None => throw JSONDecodeError [digest] end;
  lift (info_from_json data).

Definition http_resolve (identifier : string) : act (CWorld R) CacheEntryInfo :=
  is_sha ← lift (looks_like_sha identifier);
  digest ← (if is_sha && bool_decide (length (chars identifier) = 64) then mret identifier
            else resolve_name identifier);
  http_read_sidecar digest.

(** The streamed download: promoted only if the bytes hash to the name. *)
Definition fetch (digest : string) (dest : path) : act (CWorld R) () :=
  resp ← http_get_path ("/isos/" +:+ digest +:+ ".bin");
  throw_when (bool_decide (status_code resp = 404%Z)) CacheMissError [digest];;
  throw_when (negb (ok resp)) CacheError [digest];;
  tmp ← mkstemp dest.1 ".partial";
  finally
    (let body := concat (chunks resp) in
     write_path tmp (FBytes body);;
     throw_when (broken resp) RequestException [digest];;
     throw_when (bool_decide (sha256 body ≠ digest)) CacheError [digest; sha256 body];;
     durable_replace_path tmp dest)
    (unlink_path tmp).

(** ** Writing *)

Definition raise_for_put (resp : response) (p : string) : act (CWorld R) () :=
  throw_when (negb (bool_decide (status_code resp ∈ [200; 201; 204]%Z))) CacheError [p].

Definition put_name (name digest : string) : act (CWorld R) () :=
  lift (validate_name name);;
  resp ← http_put_path ("/names/" +:+ name) (FBytes (b digest));
  raise_for_put resp name.

Definition put_sidecar (digest : string) (info : CacheEntryInfo) : act (CWorld R) () :=
  resp ← http_put_path ("/isos/" +:+ digest +:+ ".json") (FJson (sidecar_body info));
  raise_for_put resp digest.

Definition push (info : CacheEntryInfo) (bin : path) : act (CWorld R) () :=
  _ ← stat_size bin;
  f ← read_path bin;
  resp ← http_put_path ("/isos/" +:+ sha info +:+ ".bin") f;
  raise_for_put resp (sha info);;
  put_sidecar (sha info) info;;
  forA (λ n, put_name n (sha info)) (names info).

Definition delete_quiet (p : string) : act (CWorld R) () :=
  resp ← http_delete_path p;
  throw_when (negb (bool_decide (status_code resp ∈ [200; 204; 404]%Z))) CacheError [p].

Definition http_delete_entry (info : CacheEntryInfo) : act (CWorld R) () :=
  forA (λ n, delete_quiet ("/names/" +:+ n)) (names info);;
  delete_quiet ("/isos/" +:+ sha info +:+ ".json");;
  delete_quiet ("/isos/" +:+ sha info +:+ ".bin").

Definition is_miss (e : exn) : bool := isinstance e CacheMissError.

Definition http_add_name (digest name : string) : act (CWorld R) () :=
  lift (validate_name name);;
  info ← catch (http_read_sidecar digest) is_miss (λ _, throw CacheError [name; digest]);
  act_when (bool_decide (name ∉ names info))
    (put_sidecar digest (with_names info (names info ++ [name])));;
  put_name name digest.

Definition http_forget_name (name : string) : act (CWorld R) () :=
  o ← catch (s ← resolve_name name; mret (Some s)) is_miss (λ _, mret None);
  match o with
  | None => mret ()
  | Some digest =>
      delete_quiet ("/names/" +:+ name);;
      i ← catch (info ← http_read_sidecar digest; mret (Some info)) is_miss (λ _, mret None);
      match i with
      | None => mret ()
      | Some info => put_sidecar digest (with_names info (filter (λ n, n ≠ name) (names info)))
      end
  end.

(** ** [CacheManager] *)

(** [self.http is not None] *)
Variable http : bool.

(** A mirror step: [try: ... except Exception: log]. *)
Definition swallow (m : act (CWorld R) ()) : act (CWorld R) () := catch m is_exception (λ _, mret ()).

Definition fetch_and_materialize (info : CacheEntryInfo) : act (CWorld R) CacheEntryInfo :=
  let dest := bin_path (sha info) in
  fetch (sha info) dest;;
  write_materialized_sidecar (with_path info (Some dest)).

(** [assert info.path is not None] *)
Definition the_path (info : CacheEntryInfo) : act (CWorld R) path :=
  match info_path info with Some p => mret p | None => throw AssertionError [] end.

Definition manager_resolve (identifier : string) (fetching : bool) : act (CWorld R) CacheEntryInfo :=
  o ← catch (info ← resolve identifier; mret (Some info)) (λ e, is_miss e && http) (λ _, mret None);
  match o with
  | Some info => mret info
  | None =>
      info ← http_resolve identifier;
      if fetching then fetch_and_materialize info else mret info
  end.

Definition resolve_path (identifier : string) : act (CWorld R) path :=
  info ← manager_resolve identifier true;
  the_path info.

Definition manager_add (src : string) (name descr : option string) : act (CWorld R) CacheEntryInfo :=
  info ← add src name descr;
  act_when http (p ← the_path info; swallow (push info p));;
  mret info.

Definition manager_delete (identifier : string) : act (CWorld R) CacheEntryInfo :=
  info ← local_delete identifier;
  act_when http (swallow (http_delete_entry info));;
  mret info.

Definition manager_purge : act (CWorld R) (list CacheEntryInfo) := purge.

Definition manager_add_name (identifier new_name : string) : act (CWorld R) CacheEntryInfo :=
  info ← add_name identifier new_name;
  act_when http (swallow (http_add_name (sha info) new_name));;
  mret info.

Definition manager_forget_name (name : string) : act (CWorld R) CacheEntryInfo :=
  info ← forget_name name;
  act_when http (swallow (http_forget_name name));;
  mret info.

Definition manager_push (identifier : string) : act (CWorld R) CacheEntryInfo :=
  throw_when (negb http) CacheError ["push"];;
  info ← resolve identifier;
  p ← the_path info;
  push info p;;
  mret info.

Definition manager_pull (identifier : string) : act (CWorld R) CacheEntryInfo :=
  throw_when (negb http) CacheError ["pull"];;
  info ← http_resolve identifier;
  fetch_and_materialize info.
End Tier.
