(* ===== verification/CacheFrame.v ===== *)
(** * What the cache's file operations leave unchanged

    Temporary files ([*.partial]) come and go; everything the cache reads is
    elsewhere.  [same_files] compares file systems up to temporaries; the
    operations that touch only temporaries are [quiet], those that change no file
    at all are [silent]; an atomic write happens or does not. *)

From S2P Require Import Prelude Exceptions Eff PyBytes Ledger Sha256 CacheNames CacheDisk LocalCache HttpCache.
From stdpp Require Import options.

(** ** Temporaries *)

Definition partial (p : path) : Prop := chars ".partial" `suffix_of` chars p.2.
Global Instance partial_dec p : Decision (partial p).
Proof. unfold partial. apply _. Defined.

(** Two suffixes with different last characters exclude each other. *)
Lemma suffix_last (l k1 k2 : list ascii) c1 c2 :
  (k1 ++ [c1]) `suffix_of` l → (k2 ++ [c2]) `suffix_of` l → c1 = c2.
Proof.
  intros [a ->] [a' H]. rewrite !app_assoc in H. by apply app_inj_tail in H as [_ ->].
Qed.

Lemma partial_json n : ¬ partial (None, n +:+ ".json").
Proof.
  intros H. cut ("l" = "n")%char; [done|]. eapply (suffix_last _ (chars ".partia") (chars ".jso")); [exact H|].
  cbn [snd]. rewrite chars_app. by exists (chars n).
Qed.

Lemma partial_bin n : ¬ partial (None, n +:+ ".bin").
Proof.
  intros H. cut ("l" = "n")%char; [done|]. eapply (suffix_last _ (chars ".partia") (chars ".bi")); [exact H|].
  cbn [snd]. rewrite chars_app. by exists (chars n).
Qed.

Lemma json_not_bin n m : n +:+ ".json" ≠ m +:+ ".bin".
Proof.
  intros H. apply (f_equal chars) in H. rewrite !chars_app in H.
  change (chars ".json") with (chars ".js" ++ ["o"; "n"]%char) in H.
  change (chars ".bin") with (chars ".b" ++ ["i"; "n"]%char) in H.
  rewrite !app_assoc in H. by apply app_inj_2 in H as [_ [=]].
Qed.

(** A hexadecimal name has no slash. *)
Lemma rsplit_slash_None l : slash ∉ l → rsplit_slash l = None.
Proof.
  induction l as [|c l IH]; [done|]. intros [Hc Hl]%not_elem_of_cons. cbn. rewrite IH by done.
  by rewrite bool_decide_false by done.
Qed.

Lemma iso_plain `{!PyEnv} n : slash ∉ chars n → iso n = (None, n).
Proof. intros Hs. unfold iso. by rewrite rsplit_slash_None. Qed.

Lemma slash_sha msg : slash ∉ chars (sha256 msg).
Proof.
  rewrite sha256_list. intros Hin. pose proof (sha256_hex msg) as H.
  rewrite Forall_forall in H. by apply H in Hin.
Qed.

Lemma bin_path_sha `{!PyEnv} msg : bin_path (sha256 msg) = (None, sha256 msg +:+ ".bin").
Proof.
  apply iso_plain. rewrite chars_app. intros [Hin|Hin]%elem_of_app; [by apply slash_sha in Hin|].
  repeat (apply elem_of_cons in Hin as [Heq|Hin]; [discriminate Heq|]). by apply not_elem_of_nil in Hin.
Qed.

Lemma sidecar_path_sha `{!PyEnv} msg : sidecar_path (sha256 msg) = (None, sha256 msg +:+ ".json").
Proof.
  apply iso_plain. rewrite chars_app. intros [Hin|Hin]%elem_of_app; [by apply slash_sha in Hin|].
  repeat (apply elem_of_cons in Hin as [Heq|Hin]; [discriminate Heq|]). by apply not_elem_of_nil in Hin.
Qed.

(** ** Equality up to temporaries *)

Definition same_files (f1 f2 : gmap path file) : Prop := ∀ p, ¬ partial p → f1 !! p = f2 !! p.
Infix "≃" := same_files (at level 70).

Global Instance same_files_equiv : Equivalence same_files.
Proof.
  split.
  - by intros f p.
  - intros f g H p Hp. by rewrite (H p Hp).
  - intros f g h H1 H2 p Hp. by rewrite (H1 p Hp), (H2 p Hp).
Qed.

Global Instance same_files_insert p f : Proper (same_files ==> same_files) (<[p := f]>).
Proof. intros f1 f2 H q Hq. destruct (decide (p = q)) as [->|]; simplify_map_eq; auto. Qed.

Global Instance same_files_delete p : Proper (same_files ==> same_files) (delete p).
Proof. intros f1 f2 H q Hq. destruct (decide (p = q)) as [->|]; simplify_map_eq; auto. Qed.

Lemma same_insert p f m : partial p → <[p := f]> m ≃ m.
Proof. intros Hp q Hq. rewrite lookup_insert_ne; [done|by intros ->]. Qed.

Lemma same_delete p m : partial p → delete p m ≃ m.
Proof. intros Hp q Hq. rewrite lookup_delete_ne; [done|by intros ->]. Qed.

(** ** Quiet and silent operations *)

Create HintDb frame discriminated.

Section Frame.
Context {R : Type} {HT : Http R} {PE : PyEnv}.
Implicit Types (w : CWorld R).

Definition quiet_fs {A} (m : act (CWorld R) A) : Prop := ∀ w r w', m w = (r, w') → fs w' ≃ fs w.
Definition silent {A} (m : act (CWorld R) A) : Prop := ∀ w r w', m w = (r, w') → fs w' = fs w.

Lemma silent_quiet {A} (m : act (CWorld R) A) : silent m → quiet_fs m.
Proof. intros H w r w' Hm. by rewrite (H _ _ _ Hm). Qed.

Lemma silent_ret {A} (a : A) : silent (mret a).
Proof. by intros w r w' [= <- <-]. Qed.
Lemma silent_lift {A} (r : res A) : silent (lift r).
Proof. by intros w r' w' [= <- <-]. Qed.
Lemma silent_throw {A} c args : silent (throw (A := A) c args).
Proof. apply silent_lift. Qed.
Lemma silent_throw_when x c args : silent (throw_when x c args).
Proof. apply silent_lift. Qed.
Lemma silent_gets {A} (f : CWorld R → A) : silent (gets f).
Proof. by intros w r w' [= <- <-]. Qed.
Lemma silent_bind {A B} (m : act (CWorld R) A) (k : A → act (CWorld R) B) :
  silent m → (∀ a, silent (k a)) → silent (m ≫= k).
Proof.
  intros Hm Hk w r w' [(a & w1 & H1 & H2)|(e & H1 & ->)]%act_bind_inv; [|by eapply Hm].
  by rewrite (Hk _ _ _ _ H2), (Hm _ _ _ H1).
Qed.
Lemma silent_catch {A} (m : act (CWorld R) A) p h : silent m → (∀ e, silent (h e)) → silent (catch m p h).
Proof.
  intros Hm Hh w r w'. unfold catch. destruct (m w) as [[a|e] w1] eqn:E; [|destruct (p e)].
  - intros [= <- <-]. by eapply Hm.
  - intros H. by rewrite (Hh _ _ _ _ H), (Hm _ _ _ E).
  - intros [= <- <-]. by eapply Hm.
Qed.
Lemma silent_when x (m : act (CWorld R) ()) : silent m → silent (act_when x m).
Proof. destruct x; [done|]. intros _. apply silent_ret. Qed.
Lemma silent_if {A} (x : bool) (m1 m2 : act (CWorld R) A) : silent m1 → silent m2 → silent (if x then m1 else m2).
Proof. by destruct x. Qed.
Lemma silent_forA {A} (f : A → act (CWorld R) ()) l : (∀ x, silent (f x)) → silent (forA f l).
Proof.
  intros Hf. unfold forA. generalize (). induction l as [|x l IH]; intros s; cbn [foldA]; [apply silent_ret|].
  apply silent_bind; [apply Hf|intros []; apply IH].
Qed.

Lemma silent_sys : silent sys.
Proof.
  intros w r w'. unfold sys, sys_torn. destruct (alive w); [|by intros [= <- <-]].
  destruct (sched w) as [|[| |] s]; by intros [= <- <-].
Qed.
Lemma silent_call {A} (f : R → option A * R) : silent (call_remote f).
Proof. intros w r w'. unfold call_remote. destruct (alive w), (f (remote w)); by intros [= <- <-]. Qed.

Hint Resolve silent_ret silent_lift silent_throw silent_throw_when silent_gets silent_bind silent_catch
  silent_when silent_if silent_forA silent_sys silent_call : frame.

Ltac silent_tac :=
  repeat first
    [ progress intros | solve [eauto 2 with frame]
    | apply silent_bind | apply silent_catch | apply silent_when | apply silent_forA
    | match goal with |- silent (match ?x with _ => _ end) => destruct x end ].

Lemma silent_read p : silent (read_path p).
Proof. unfold read_path. silent_tac. Qed.
Hint Resolve silent_read : frame.
Lemma silent_stat p : silent (stat_size p).
Proof. unfold stat_size. silent_tac. Qed.
Lemma silent_exists p : silent (exists_path p).
Proof. apply silent_gets. Qed.
Lemma silent_sha256_of p : silent (sha256_of p).
Proof. unfold sha256_of. silent_tac. Qed.
Lemma silent_read_sidecar p : silent (read_sidecar p).
Proof. unfold read_sidecar. silent_tac. Qed.
Hint Resolve silent_stat silent_exists silent_sha256_of silent_read_sidecar : frame.
Lemma silent_try_sidecar n : silent (try_sidecar n).
Proof. unfold try_sidecar. silent_tac. Qed.
Hint Resolve silent_try_sidecar : frame.
Lemma silent_first_entry p ns : silent (first_entry p ns).
Proof. induction ns; cbn [first_entry]; silent_tac. Qed.
Lemma silent_all_entries ns : silent (all_entries ns).
Proof. induction ns; cbn [all_entries]; silent_tac. Qed.
Hint Resolve silent_first_entry silent_all_entries : frame.
Lemma silent_list_entries : silent list_entries.
Proof. unfold list_entries. silent_tac. Qed.
Lemma silent_find_by_name n : silent (find_by_name n).
Proof. unfold find_by_name. silent_tac. Qed.
Hint Resolve silent_list_entries silent_find_by_name : frame.
Lemma silent_resolve i : silent (resolve i).
Proof. unfold resolve. silent_tac. Qed.
Hint Resolve silent_resolve : frame.

(** ** The HTTP tier changes no local file, but for the download *)
Context (base_url : string) (inst : bool).

Lemma silent_http_get p : silent (http_get_path base_url inst p).
Proof. unfold http_get_path, import_requests, request. silent_tac. Qed.
Lemma silent_http_put p d : silent (http_put_path base_url inst p d).
Proof. unfold http_put_path, import_requests, request. silent_tac. Qed.
Lemma silent_http_delete p : silent (http_delete_path base_url inst p).
Proof. unfold http_delete_path, import_requests, request. silent_tac. Qed.
Hint Resolve silent_http_get silent_http_put silent_http_delete : frame.
Lemma silent_resolve_name n : silent (resolve_name base_url inst n).
Proof. unfold resolve_name. silent_tac. Qed.
Lemma silent_http_read_sidecar n : silent (http_read_sidecar base_url inst n).
Proof. unfold http_read_sidecar. silent_tac. Qed.
Hint Resolve silent_resolve_name silent_http_read_sidecar : frame.
Lemma silent_http_resolve n : silent (http_resolve base_url inst n).
Proof. unfold http_resolve. silent_tac. Qed.
Lemma silent_raise_for_put r p : silent (raise_for_put (R := R) r p).
Proof. unfold raise_for_put. silent_tac. Qed.
Hint Resolve silent_http_resolve silent_raise_for_put : frame.
Lemma silent_put_name n d : silent (put_name base_url inst n d).
Proof. unfold put_name. silent_tac. Qed.
Lemma silent_put_sidecar n d : silent (put_sidecar base_url inst n d).
Proof. unfold put_sidecar. silent_tac. Qed.
Lemma silent_delete_quiet p : silent (delete_quiet base_url inst p).
Proof. unfold delete_quiet. silent_tac. Qed.
Hint Resolve silent_put_name silent_put_sidecar silent_delete_quiet : frame.
Lemma silent_push info p : silent (push base_url inst info p).
Proof. unfold push. silent_tac. Qed.
Lemma silent_http_delete_entry info : silent (http_delete_entry base_url inst info).
Proof. unfold http_delete_entry. silent_tac. Qed.
Lemma silent_http_add_name d n : silent (http_add_name base_url inst d n).
Proof. unfold http_add_name. silent_tac. Qed.
Lemma silent_http_forget_name n : silent (http_forget_name base_url inst n).
Proof. unfold http_forget_name. silent_tac. Qed.
Hint Resolve silent_push silent_http_delete_entry silent_http_add_name silent_http_forget_name : frame.
Lemma silent_swallow m : silent m → silent (swallow (R := R) m).
Proof. intros H. unfold swallow. silent_tac. Qed.
Lemma silent_the_path info : silent (the_path (R := R) info).
Proof. unfold the_path. silent_tac. Qed.
End Frame.

#[export] Hint Resolve silent_ret silent_lift silent_throw silent_throw_when silent_gets silent_sys silent_call
  silent_read silent_stat silent_exists silent_sha256_of silent_read_sidecar silent_try_sidecar
  silent_first_entry silent_all_entries silent_list_entries silent_find_by_name silent_resolve
  silent_http_get silent_http_put silent_http_delete silent_resolve_name silent_http_read_sidecar
  silent_http_resolve silent_push silent_http_delete_entry silent_http_add_name silent_http_forget_name
  silent_swallow silent_the_path silent_when : frame.

(** ** Temporaries and atomic writes *)

Section Atomic.
Context {R : Type} {HT : Http R} {PE : PyEnv}.
Implicit Types (w : CWorld R) (p : path).

Lemma quiet_bind {A B} (m : act (CWorld R) A) (k : A → act (CWorld R) B) :
  quiet_fs m → (∀ a, quiet_fs (k a)) → quiet_fs (m ≫= k).
Proof.
  intros Hm Hk w r w' [(a & w1 & H1 & H2)|(e & H1 & ->)]%act_bind_inv; [|by eapply Hm].
  etrans; [by eapply Hk|by eapply Hm].
Qed.

Lemma draw_partial taken l n rest suffix :
  chars ".partial" `suffix_of` chars suffix → draw taken suffix l = Some (n, rest) → chars ".partial" `suffix_of` chars n.
Proof.
  intros Hs. induction l as [|c l IH]; cbn [draw]; [done|]. case_match; [done|]. intros [= <- <-].
  rewrite !chars_app. by do 2 apply suffix_app_r.
Qed.

Lemma draw_free taken l n rest suffix : draw taken suffix l = Some (n, rest) → taken n = false.
Proof. induction l as [|c l IH]; cbn [draw]; [done|]. case_match; [done|]. by intros [= <- <-]. Qed.

(** A temporary is made at a partial path that was free, and nowhere else. *)
Lemma mkstemp_spec d suffix w r w' :
  chars ".partial" `suffix_of` chars suffix → mkstemp d suffix w = (r, w') →
  fs w' ≃ fs w ∧ ∀ tmp, r = Ok tmp → partial tmp ∧ tmp.1 = d.
Proof.
  intros Hs. unfold mkstemp.
  intros [(u1 & w1 & H1 & H)|(e & H1 & ->)]%act_bind_inv; apply silent_sys in H1; [|by rewrite H1].
  apply act_bind_inv in H as [(w2 & w2' & [= <- <-] & H)|(e & [=] & _)].
  destruct (draw _ _ _) as [[n rest]|] eqn:Hd; [|by apply silent_throw in H as Hf; injection H as <- <-; rewrite <-H1].
  assert (partial (d, n)) as Hp by (by eapply draw_partial).
  apply act_bind_inv in H as [(u2 & w3 & [= <- <-] & H)|(e & [=] & _)].
  apply act_bind_inv in H as [(u3 & w4 & H3 & [= <- <-])|(e & H3 & ->)]; apply silent_sys in H3; rewrite H3; cbn.
  - rewrite H1. split; [by apply same_insert|]. by intros tmp [= <-].
  - rewrite H1. split; [by apply same_insert|done].
Qed.

(** Writing a temporary is invisible. *)
Lemma write_partial_spec p f w r w' :
  partial p → write_path p f w = (r, w') →
  fs w' ≃ fs w ∧ (r = Ok () → fs w' = <[p := f]> (fs w)).
Proof.
  intros Hp. unfold write_path, sys_torn.
  intros [(u1 & w1 & H1 & [= <- <-])|(e & H1 & ->)]%act_bind_inv; revert H1.
  - destruct (alive w); [|done]. destruct (sched w) as [|[| |] s]; intros [= <- <-]; cbn;
      (split; [by apply same_insert|done]).
  - destruct (alive w); [|intros [= <- <-]; done]. destruct (sched w) as [|[| |] s]; intros [=]; subst; cbn;
      (split; [by apply same_insert|done]).
Qed.

Lemma unlink_spec p w r w' :
  unlink_path p w = (r, w') →
  (fs w' = delete p (fs w) ∧ r = Ok ()) ∨ (fs w' = fs w ∧ ∃ e, r = Raise e).
Proof.
  unfold unlink_path. intros [(u1 & w1 & H1 & [= <- <-])|(e & H1 & ->)]%act_bind_inv; apply silent_sys in H1; cbn.
  - left. by rewrite H1.
  - right. eauto.
Qed.

Lemma unlink_partial p : partial p → quiet_fs (unlink_path (R := R) p).
Proof. intros Hp w r w' [[-> _]|[-> _]]%unlink_spec; [by apply same_delete|done]. Qed.

Lemma rename_spec tmp dest w r w' :
  rename tmp dest w = (r, w') →
  (∃ f, fs w !! tmp = Some f ∧ fs w' = <[dest := f]> (delete tmp (fs w)) ∧ r = Ok ()) ∨
  (fs w' = fs w ∧ ∃ e, r = Raise e).
Proof.
  unfold rename. intros [(u1 & w1 & H1 & H)|(e & H1 & ->)]%act_bind_inv; apply silent_sys in H1; [|eauto].
  apply act_bind_inv in H as [(o & w2 & [= <- <-] & H)|(e & [=] & _)]. rewrite H1 in H.
  destruct (fs w !! tmp) as [f|] eqn:Hf; injection H as <- <-.
  - left. exists f. cbn. by rewrite H1.
  - right. eauto.
Qed.

Lemma durable_replace_spec tmp dest w r w' :
  durable_replace_path tmp dest w = (r, w') →
  (∃ f, fs w !! tmp = Some f ∧ fs w' = <[dest := f]> (delete tmp (fs w))) ∨
  (fs w' = fs w ∧ ∃ e, r = Raise e).
Proof.
  unfold durable_replace_path.
  intros [(u1 & w1 & H1 & H)|(e & H1 & ->)]%act_bind_inv; apply silent_sys in H1; [|eauto].
  apply act_bind_inv in H as [(u2 & w2 & H2 & H)|(e & H2 & ->)]; apply rename_spec in H2 as
    [(f & Hf & Hfs & Hr)|[Hfs [e' Hr]]]; try done.
  - apply silent_sys in H. left. exists f. by rewrite <-H1, H, Hfs, Hf.
  - right. rewrite Hfs, H1. eauto.
Qed.

(** What a write through a temporary does: the destination is replaced, or nothing
    visible happened and the call raised. *)
Definition atomically p (f : file) w (r : res ()) w' : Prop :=
  fs w' ≃ <[p := f]> (fs w) ∨ (fs w' ≃ fs w ∧ ∃ e, r = Raise e).

Lemma promote_spec tmp p f w r w' :
  partial tmp → fs w !! tmp = Some f → durable_replace_path tmp p w = (r, w') → atomically p f w r w'.
Proof.
  intros Htmp Hf [(f' & Hf' & Hfs)|[Hfs He]]%durable_replace_spec.
  - left. rewrite Hf in Hf'. injection Hf' as <-. rewrite Hfs. by rewrite same_delete.
  - right. by rewrite Hfs.
Qed.

Lemma atomically_same p f w1 w r w' : fs w1 ≃ fs w → atomically p f w1 r w' → atomically p f w r w'.
Proof. intros Hs [H|[H He]]; [left; by rewrite H, Hs|right; by rewrite H, Hs]. Qed.

Lemma atomic_materialize_spec p f w r w' : atomic_materialize p f w = (r, w') → atomically p f w r w'.
Proof.
  unfold atomic_materialize.
  intros [(tmp & w1 & H1 & H)|(e & H1 & ->)]%act_bind_inv;
    (apply mkstemp_spec in H1 as [Hs Ht]; [|reflexivity]); [|right; eauto].
  destruct (Ht tmp eq_refl) as [Htmp _].
  apply (atomically_same p f w1); [done|]. revert H. unfold catch.
  destruct ((write_path tmp f;; durable_replace_path tmp p) w1) as [r1 w2] eqn:E.
  assert (atomically p f w1 r1 w2) as Ha.
  { apply act_bind_inv in E as [([] & w3 & H3 & E)|(e & H3 & ->)]; apply write_partial_spec in H3 as [Hs3 Hok]; try done.
    - eapply (atomically_same _ _ w3); [done|]. eapply promote_spec; [done| |done].
      rewrite (Hok eq_refl). apply lookup_insert_eq.
    - right. eauto. }
  destruct r1 as [[]|e]; [by intros [= <- <-]|]. cbn [always].
  intros [(u & w3 & H3 & [= <- <-])|(e' & H3 & ->)]%act_bind_inv; apply unlink_partial in H3; try done;
    (destruct Ha as [Ha|[Ha _]]; [left|right]; rewrite H3, Ha; first [reflexivity|split; [reflexivity|eauto]]).
Qed.
End Atomic.
