(* ===== verification/CacheSpec.v ===== *)
(** * The cache as a map from digests to entries

    [view] reads the file system the way the cache does: an entry is a sidecar.
    [cache_ok] is the invariant: every [.bin] holds bytes that hash to its name, and
    every sidecar parses, describes the digest it is named after and has its [.bin].
    Each visible effect of an operation is one update of the view; everything else it
    writes is invisible.  This holds whatever system calls fail, wherever the process
    is killed, and whatever the server answers. *)

From S2P Require Import Prelude Exceptions Eff PyBytes Ledger Sha256 CacheNames CacheDisk LocalCache HttpCache.
From S2P Require Import CacheFrame.
From stdpp Require Import options.

(** ** Sidecars read back *)

Lemma names_of_strs ns : names_of (Some (JArr (JStr <$> ns))) = Ok ns.
Proof.
  cbn [names_of json_iter mret result_ret mbind result_bind].
  cut (∀ acc, foldM (λ acc x, s ← as_str x; mret (acc ++ [s])) acc (JStr <$> ns) = (Ok (acc ++ ns) : res (list string))).
  { intros H. apply (H []). }
  induction ns as [|n ns IH]; intros acc; [by rewrite app_nil_r|].
  cbn [fmap list_fmap foldM as_str mret result_ret mbind result_bind]. rewrite IH. by rewrite <-app_assoc.
Qed.

Lemma as_opt_str_opt_json o : as_opt_str (Some (opt_json o)) = Ok o.
Proof. by destruct o. Qed.

Lemma info_from_json_body info : info_from_json (sidecar_body info) = Ok (with_path info None).
Proof.
  unfold info_from_json, sidecar_body, get_str, json_getitem, json_get, getitem.
  repeat (first [rewrite lookup_insert_eq | rewrite lookup_insert_ne by discriminate];
    cbn [mbind result_bind mret result_ret as_str py_int]).
  rewrite names_of_strs. cbn [mbind result_bind]. rewrite !as_opt_str_opt_json. by destruct info.
Qed.

Section Spec.
Context {R : Type} {HT : Http R} {PE : PyEnv}.
Implicit Types (w : CWorld R) (f g : gmap path file) (h : string).

Lemma entry_of_body info :
  entry_of (FJson (sidecar_body info)) = Ok (with_path info (Some (bin_path (sha info)))).
Proof. unfold entry_of, load_json. cbn [mbind result_bind]. rewrite info_from_json_body. by destruct info. Qed.

Lemma entry_of_path x info : entry_of x = Ok info → info_path info = Some (bin_path (sha info)).
Proof. by intros (j & _ & (i & _ & [= <-])%bind_Ok)%bind_Ok. Qed.

(** ** The view and the invariant *)

Definition bin_at (f : gmap path file) (h : string) : option file := f !! (None, h +:+ ".bin").
Definition side_at (f : gmap path file) (h : string) : option file := f !! (None, h +:+ ".json").

Definition view (f : gmap path file) (h : string) : option CacheEntryInfo :=
  x ← side_at f h;
  match entry_of x with Ok info => Some info | Raise _ => None end.

Record cache_ok (f : gmap path file) : Prop := {
  ok_bin : ∀ h x, bin_at f h = Some x → sha256 (bytes_of x) = h;
  ok_side : ∀ h x, side_at f h = Some x →
    ∃ info, entry_of x = Ok info ∧ sha info = h ∧ is_Some (bin_at f h);
}.

Definition upd {A} (v : string → option A) (h : string) (x : option A) : string → option A :=
  λ k, if decide (k = h) then x else v k.

(** The invariant is kept and nothing visible changes; exactly [h] changes. *)
Definition unchanged f g : Prop := cache_ok f → cache_ok g ∧ ∀ k, view g k = view f k.
Definition changed h (x : option CacheEntryInfo) f g : Prop :=
  cache_ok f → cache_ok g ∧ ∀ k, view g k = upd (view f) h x k.

Lemma bin_at_same f g h : f ≃ g → bin_at f h = bin_at g h.
Proof. intros H. apply H, partial_bin. Qed.
Lemma side_at_same f g h : f ≃ g → side_at f h = side_at g h.
Proof. intros H. apply H, partial_json. Qed.

Lemma unchanged_same f g : g ≃ f → unchanged f g.
Proof.
  intros H [Hb Hs]. split.
  - split; [intros h x; rewrite (bin_at_same _ _ _ H); apply Hb|].
    intros h x. rewrite (side_at_same _ _ _ H), (bin_at_same _ _ _ H). apply Hs.
  - intros k. unfold view. by rewrite (side_at_same _ _ _ H).
Qed.

Lemma unchanged_refl f : unchanged f f.
Proof. by apply unchanged_same. Qed.

Lemma unchanged_trans f1 f2 f3 : unchanged f1 f2 → unchanged f2 f3 → unchanged f1 f3.
Proof.
  intros H1 H2 Hok. destruct (H1 Hok) as [Hok2 Hv2]. destruct (H2 Hok2) as [Hok3 Hv3].
  split; [done|]. intros k. by rewrite Hv3, Hv2.
Qed.

Lemma changed_l h x f1 f2 f3 : unchanged f1 f2 → changed h x f2 f3 → changed h x f1 f3.
Proof.
  intros H1 H2 Hok. destruct (H1 Hok) as [Hok2 Hv2]. destruct (H2 Hok2) as [Hok3 Hv3].
  split; [done|]. intros k. rewrite Hv3. unfold upd. by rewrite Hv2.
Qed.

Lemma changed_r h x f1 f2 f3 : changed h x f1 f2 → unchanged f2 f3 → changed h x f1 f3.
Proof.
  intros H1 H2 Hok. destruct (H1 Hok) as [Hok2 Hv2]. destruct (H2 Hok2) as [Hok3 Hv3].
  split; [done|]. intros k. by rewrite Hv3, Hv2.
Qed.

(** ** The four writes *)

Lemma side_insert_bin f h k x : side_at (<[(None, h +:+ ".bin") := x]> f) k = side_at f k.
Proof. unfold side_at. apply lookup_insert_ne. intros [= H]. by apply (json_not_bin k h). Qed.
Lemma bin_insert_side f h k x : bin_at (<[(None, h +:+ ".json") := x]> f) k = bin_at f k.
Proof. unfold bin_at. apply lookup_insert_ne. intros [= H]. by apply (json_not_bin h k). Qed.
Lemma side_delete_bin f h k : side_at (delete (None, h +:+ ".bin") f) k = side_at f k.
Proof. unfold side_at. apply lookup_delete_ne. intros [= H]. by apply (json_not_bin k h). Qed.
Lemma bin_delete_side f h k : bin_at (delete (None, h +:+ ".json") f) k = bin_at f k.
Proof. unfold bin_at. apply lookup_delete_ne. intros [= H]. by apply (json_not_bin h k). Qed.
Lemma side_insert f h k x : side_at (<[(None, h +:+ ".json") := x]> f) k = upd (side_at f) h (Some x) k.
Proof.
  unfold side_at, upd. case_decide as Hk; [subst; apply lookup_insert_eq|].
  apply lookup_insert_ne. intros [= H]. apply Hk. by apply app_string_inj_r in H.
Qed.
Lemma bin_insert f h k x : bin_at (<[(None, h +:+ ".bin") := x]> f) k = upd (bin_at f) h (Some x) k.
Proof.
  unfold bin_at, upd. case_decide as Hk; [subst; apply lookup_insert_eq|].
  apply lookup_insert_ne. intros [= H]. apply Hk. by apply app_string_inj_r in H.
Qed.
Lemma side_delete f h k : side_at (delete (None, h +:+ ".json") f) k = upd (side_at f) h None k.
Proof.
  unfold side_at, upd. case_decide as Hk; [subst; apply lookup_delete_eq|].
  apply lookup_delete_ne. intros [= H]. apply Hk. by apply app_string_inj_r in H.
Qed.
Lemma bin_delete f h k : bin_at (delete (None, h +:+ ".bin") f) k = upd (bin_at f) h None k.
Proof.
  unfold bin_at, upd. case_decide as Hk; [subst; apply lookup_delete_eq|].
  apply lookup_delete_ne. intros [= H]. apply Hk. by apply app_string_inj_r in H.
Qed.

Lemma write_bin_unchanged f h d : sha256 d = h → unchanged f (<[(None, h +:+ ".bin") := FBytes d]> f).
Proof.
  intros Hd [Hb Hs]. split; [|intros k; unfold view; by rewrite side_insert_bin]. split.
  - intros k x. rewrite bin_insert. unfold upd. case_decide; [intros [= <-]; by subst|apply Hb].
  - intros k x. rewrite side_insert_bin. intros (info & He & Hi & Hx)%Hs. exists info. split_and!; [done..|].
    rewrite bin_insert. unfold upd. case_decide; eauto.
Qed.

Lemma delete_bin_unchanged f h : side_at f h = None → unchanged f (delete (None, h +:+ ".bin") f).
Proof.
  intros Hn [Hb Hs]. split; [|intros k; unfold view; by rewrite side_delete_bin]. split.
  - intros k x. rewrite bin_delete. unfold upd. case_decide; [done|apply Hb].
  - intros k x. rewrite side_delete_bin. intros Hk. destruct (Hs k x Hk) as (info & He & Hi & Hx).
    exists info. split_and!; [done..|]. rewrite bin_delete. unfold upd. case_decide; [by simplify_eq|done].
Qed.

Lemma write_side_changed f h info :
  sha info = h → is_Some (bin_at f h) →
  changed h (Some (with_path info (Some (bin_path h)))) f (<[(None, h +:+ ".json") := FJson (sidecar_body info)]> f).
Proof.
  intros Hi Hbin [Hb Hs]. split; [split|].
  - intros k x. rewrite bin_insert_side. apply Hb.
  - intros k x. rewrite side_insert. unfold upd. case_decide as Hk.
    + intros [= <-]. subst k. rewrite entry_of_body, bin_insert_side, Hi. eexists. by rewrite <-Hi in *.
    + intros (info' & ? & ? & ?)%Hs. exists info'. by rewrite bin_insert_side.
  - intros k. unfold view. rewrite side_insert. unfold upd. case_decide; [|done].
    cbn [mbind option_bind]. by rewrite entry_of_body, Hi.
Qed.

Lemma delete_side_changed f h : changed h None f (delete (None, h +:+ ".json") f).
Proof.
  intros [Hb Hs]. split; [split|].
  - intros k x. rewrite bin_delete_side. apply Hb.
  - intros k x. rewrite side_delete. unfold upd. case_decide; [done|].
    intros (info' & ? & ? & ?)%Hs. exists info'. by rewrite bin_delete_side.
  - intros k. unfold view. rewrite side_delete. unfold upd. by case_decide.
Qed.

Lemma unchanged_changed h f g : unchanged f g → changed h (view f h) f g.
Proof.
  intros H Hok. destruct (H Hok) as [Hg Hv]. split; [done|]. intros k. rewrite Hv. unfold upd.
  by case_decide; subst.
Qed.

(** ** Entries the cache reads are entries of the view *)

Lemma view_Some f h info :
  cache_ok f → view f h = Some info → sha info = h ∧ is_Some (bin_at f h) ∧ (∃ msg, h = sha256 msg) ∧
    info_path info = Some (bin_path h).
Proof.
  intros [Hb Hs]. unfold view. intros (x & Hx & Hi)%bind_Some. destruct (entry_of x) eqn:E; [|done].
  injection Hi as ->. destruct (Hs h x Hx) as (i & Hi & Hh & [y Hy]). rewrite E in Hi. injection Hi as <-.
  split_and!; [done|eauto| |rewrite <-Hh; by eapply entry_of_path]. exists (bytes_of y). symmetry. by eapply Hb.
Qed.

Lemma elem_of_glob n w :
  n ∈ glob_json w ↔ ∃ h, n = h +:+ ".json" ∧ is_Some (side_at (fs w) h).
Proof.
  unfold glob_json. rewrite elem_of_sorted, list_elem_of_fmap. split.
  - intros ([d n'] & -> & [[Hd [l Hl]] Hin]%list_elem_of_filter). cbn [fst snd] in *. subst d.
    assert (n' = String.string_of_list_ascii l +:+ ".json") as Hn.
    { apply chars_inj. by rewrite Hl, chars_app, chars_of_list. }
    eexists. split; [exact Hn|]. unfold side_at. rewrite <-Hn. apply elem_of_dom. by apply elem_of_elements.
  - intros (h & -> & Hin). exists (None, h +:+ ".json"). split; [done|]. apply list_elem_of_filter.
    split; [split; [done|]|by apply elem_of_elements, elem_of_dom]. cbn [snd]. rewrite chars_app. by exists (chars h).
Qed.

Lemma read_path_Ok p w x w' : read_path p w = (Ok x, w') → fs w !! p = Some x ∧ fs w' = fs w.
Proof.
  intros H. pose proof (silent_read p _ _ _ H) as Hf. split; [|done]. revert H. unfold read_path.
  intros [(u & w1 & H1 & H)|(e & _ & [=])]%act_bind_inv. apply silent_sys in H1.
  apply act_bind_inv in H as [(o & w2 & [= <- <-] & H)|(e & [=] & _)]. rewrite H1 in H.
  destruct (fs w !! p); [by injection H as -> _|done].
Qed.

Lemma read_sidecar_Ok p w info w' :
  read_sidecar p w = (Ok info, w') → ∃ x, fs w !! p = Some x ∧ entry_of x = Ok info.
Proof.
  unfold read_sidecar. intros [(x & w1 & H1 & [= H _])|(e & _ & [=])]%act_bind_inv.
  apply read_path_Ok in H1 as [H1 _]. eauto.
Qed.

Lemma try_sidecar_Some n w info w' :
  try_sidecar n w = (Ok (Some info), w') → ∃ x, fs w !! (None, n) = Some x ∧ entry_of x = Ok info.
Proof.
  unfold try_sidecar, catch. destruct ((read_sidecar (None, n) ≫= _) w) as [[o|e] w1] eqn:E.
  - intros [= -> <-]. apply act_bind_inv in E as [(i & w2 & H & [= -> _])|(e & _ & [=])].
    by apply read_sidecar_Ok in H.
  - by destruct (bad_sidecar e).
Qed.

Lemma first_entry_Some p ns w info w' :
  first_entry p ns w = (Ok (Some info), w') →
  p info = true ∧ ∃ n x, n ∈ ns ∧ fs w !! (None, n) = Some x ∧ entry_of x = Ok info.
Proof.
  revert w. induction ns as [|n ns IH]; intros w; cbn [first_entry]; [done|].
  intros [(o & w1 & H1 & H)|(e & _ & [=])]%act_bind_inv.
  pose proof (silent_try_sidecar _ _ _ _ H1) as Hf.
  assert (first_entry p ns w1 = (Ok (Some info), w') → p info = true ∧
    ∃ m x, m ∈ n :: ns ∧ fs w !! (None, m) = Some x ∧ entry_of x = Ok info) as Hrest.
  { intros (Hp & m & x & Hm & Hx & He)%IH. rewrite Hf in Hx. split; [done|]. exists m, x. by rewrite elem_of_cons; auto. }
  destruct o as [i|]; [|auto]. destruct (p i) eqn:Hp; [|auto]. injection H as -> _. split; [done|].
  apply try_sidecar_Some in H1 as (x & Hx & He). exists n, x. by rewrite elem_of_cons; auto.
Qed.

Lemma all_entries_Ok ns w l w' :
  all_entries ns w = (Ok l, w') →
  ∀ info, info ∈ l → ∃ n x, n ∈ ns ∧ fs w !! (None, n) = Some x ∧ entry_of x = Ok info.
Proof.
  revert w l w'. induction ns as [|n ns IH]; intros w l w'; cbn [all_entries].
  - intros [= <- _] info []%not_elem_of_nil.
  - intros [(o & w1 & H1 & H)|(e & _ & [=])]%act_bind_inv.
    pose proof (silent_try_sidecar _ _ _ _ H1) as Hf.
    apply act_bind_inv in H as [(l' & w2 & H2 & [= <- <-])|(e & _ & [=])]. intros info Hin.
    assert (info ∈ l' → ∃ m x, m ∈ n :: ns ∧ fs w !! (None, m) = Some x ∧ entry_of x = Ok info) as Hrest.
    { intros (m & x & Hm & Hx & He)%(IH _ _ _ H2). rewrite Hf in Hx. exists m, x. by rewrite elem_of_cons; auto. }
    destruct o as [i|]; [|auto]. apply elem_of_cons in Hin as [->|Hin]; [|auto].
    apply try_sidecar_Some in H1 as (x & Hx & He). exists n, x. by rewrite elem_of_cons; auto.
Qed.

(** A sidecar listed by [glob] is an entry of the view. *)
Lemma glob_view w n x info :
  cache_ok (fs w) → n ∈ glob_json w → fs w !! (None, n) = Some x → entry_of x = Ok info →
  view (fs w) (sha info) = Some info.
Proof.
  intros Hok (h & -> & _)%elem_of_glob Hx He. destruct (ok_side _ Hok h x Hx) as (i & Hi & Hh & _).
  rewrite He in Hi. injection Hi as <-. unfold view, side_at. by rewrite Hh, Hx; cbn; rewrite He.
Qed.

Lemma find_by_name_Ok name w info w' :
  cache_ok (fs w) → find_by_name name w = (Ok (Some info), w') →
  view (fs w) (sha info) = Some info ∧ name ∈ names info.
Proof.
  intros Hok. unfold find_by_name. intros [(ns & w1 & [= <- <-] & H)|(e & _ & [=])]%act_bind_inv.
  apply first_entry_Some in H as (Hp & n & x & Hn & Hx & He). apply bool_decide_eq_true in Hp.
  split; [by eapply glob_view|done].
Qed.

Lemma list_entries_Ok w l w' :
  cache_ok (fs w) → list_entries w = (Ok l, w') → ∀ info, info ∈ l → view (fs w) (sha info) = Some info.
Proof.
  intros Hok. unfold list_entries. intros [(ns & w1 & [= <- <-] & H)|(e & _ & [=])]%act_bind_inv info Hin.
  destruct (all_entries_Ok _ _ _ _ H info Hin) as (n & x & Hn & Hx & He). by eapply glob_view.
Qed.

Lemma resolve_Ok i w info w' :
  cache_ok (fs w) → resolve i w = (Ok info, w') →
  view (fs w) (sha info) = Some info ∧
  (if HEX_PAT i then chars i `prefix_of` chars (sha info) else i ∈ names info).
Proof.
  intros Hok. unfold resolve. intros [(is_sha & w1 & [= Hs <-] & H)|(e & _ & [=])]%act_bind_inv.
  apply looks_like_sha_Ok in Hs as [_ ->]. destruct (HEX_PAT i).
  - apply act_bind_inv in H as [(l & w2 & H & Hm)|(e & _ & [=])].
    destruct (filter _ l) as [|j [|j' js]] eqn:Hf; try done. injection Hm as -> _.
    assert (info ∈ filter (λ info, chars i `prefix_of` chars (sha info)) l) as [Hp Hin]%list_elem_of_filter.
    { rewrite Hf. by apply list_elem_of_singleton. }
    split; [by eapply list_entries_Ok|done].
  - apply act_bind_inv in H as [([j|] & w2 & H & Hm)|(e & _ & [=])]; [|done]. injection Hm as -> _.
    by apply find_by_name_Ok in H.
Qed.
End Spec.
