(* ===== verification/CacheOps.v ===== *)
(** * Every cache operation is one update of the view

    [settles h x f r f']: the operation returned [x] having set [h] to it, or it
    raised having done all of that or nothing.  [local_delete], [add], [add_name],
    [forget_name] and the fetch of an entry settle; the operations of the manager
    keep the invariant. *)

From S2P Require Import Prelude Exceptions Eff PyBytes Ledger Sha256 CacheNames CacheDisk LocalCache HttpCache.
From S2P Require Import CacheFrame CacheSpec.
From stdpp Require Import options.

Section Ops.
Context {R : Type} {HT : Http R} {PE : PyEnv}.
Implicit Types (w : CWorld R) (f g : gmap path file) (h : string).

Definition settles h (x : CacheEntryInfo) f (r : res CacheEntryInfo) f' : Prop :=
  (r = Ok x ∧ changed h (Some x) f f') ∨
  ((∃ e, r = Raise e) ∧ (unchanged f f' ∨ changed h (Some x) f f')).

Lemma settles_l h x f f1 r f' : unchanged f f1 → settles h x f1 r f' → settles h x f r f'.
Proof. intros Hu [[-> H]|[He [H|H]]]; [left|right|right]; eauto using unchanged_trans, changed_l. Qed.

Lemma settles_silent {A} h x (m : act (CWorld R) A) w0 w e w' :
  silent m → m w = (Raise e, w') → fs w = fs w0 → settles h x (fs w0) (Raise e) (fs w').
Proof.
  intros Hm H Hw. right. split; [eauto|]. left. rewrite (Hm _ _ _ H), Hw. by apply unchanged_same.
Qed.

Lemma raise_settles h x f e f' : unchanged f f' → settles h x f (Raise e) f'.
Proof. right. eauto. Qed.

Lemma write_sidecar_settles h info w r w' :
  sha info = h → is_Some (bin_at (fs w) h) → info_path info = Some (bin_path h) →
  (write_sidecar (None, h +:+ ".json") info;; mret info) w = (r, w') → settles h info (fs w) r (fs w').
Proof.
  intros Hi Hb Hp H.
  assert (with_path info (Some (bin_path h)) = info) as Hpath by (rewrite <-Hp; by destruct info).
  assert (changed h (Some info) (fs w) (<[(None, h +:+ ".json") := FJson (sidecar_body info)]> (fs w))) as Hc.
  { rewrite <-Hpath at 1. by apply write_side_changed. }
  apply act_bind_inv in H as [([] & w1 & H1 & [= <- <-])|(e & H1 & ->)];
    apply atomic_materialize_spec in H1 as [H1|[H1 [e' [=]]]].
  - left. split; [done|]. eapply changed_r; [exact Hc|]. by apply unchanged_same.
  - right. split; [eauto|]. right. eapply changed_r; [exact Hc|]. by apply unchanged_same.
  - apply raise_settles. by apply unchanged_same.
Qed.

(** ** [add_name] and [forget_name] *)

Definition aliased (info : CacheEntryInfo) (n : string) (descr : option string) : CacheEntryInfo :=
  MkInfo (sha info) (entry_size info) (names info ++ [n]) (origin info) (added_at info)
    (match descr with Some d => Some d | None => description info end) (info_path info).

Lemma append_alias_settles h info n descr w r w' :
  cache_ok (fs w) → view (fs w) h = Some info →
  append_alias (None, h +:+ ".json") info n descr w = (r, w') → settles h (aliased info n descr) (fs w) r (fs w').
Proof.
  intros Hok Hv H. destruct (view_Some _ _ _ Hok Hv) as (Hh & Hb & _ & Hp).
  by apply write_sidecar_settles in H.
Qed.

Lemma view_sidecar_path f h info : cache_ok f → view f h = Some info → sidecar_path h = (None, h +:+ ".json").
Proof. intros Hok Hv. destruct (view_Some _ _ _ Hok Hv) as (_ & _ & [msg ->] & _). apply sidecar_path_sha. Qed.

Lemma view_bin_path f h info : cache_ok f → view f h = Some info → bin_path h = (None, h +:+ ".bin").
Proof. intros Hok Hv. destruct (view_Some _ _ _ Hok Hv) as (_ & _ & [msg ->] & _). apply bin_path_sha. Qed.

(** [add_name] raised before it wrote, found the name already there, or settled on
    the entry with the name appended. *)
Lemma add_name_spec i n w r w' :
  cache_ok (fs w) → add_name i n w = (r, w') →
  (∃ e, r = Raise e ∧ fs w' = fs w) ∨
  (∃ info, view (fs w) (sha info) = Some info ∧
    ((n ∈ names info ∧ r = Ok info ∧ fs w' = fs w) ∨
     (n ∉ names info ∧ settles (sha info) (aliased info n None) (fs w) r (fs w')))).
Proof.
  intros Hok. unfold add_name.
  intros [(u & w1 & [= _ <-] & H)|(e & [= _ <-] & ->)]%act_bind_inv; [|by left; eauto].
  apply act_bind_inv in H as [(info & w2 & H1 & H)|(e & H1 & ->)];
    apply silent_resolve in H1 as Hf; [|left; by eauto].
  apply resolve_Ok in H1 as [Hv _]; [|done]. rewrite <-Hf in Hv, Hok. rewrite <-Hf. clear Hf.
  case_decide as Hn; [injection H as <- <-; right; exists info; eauto|].
  apply act_bind_inv in H as [(c & w3 & H1 & H)|(e & H1 & ->)];
    apply silent_find_by_name in H1; [|left; by eauto].
  apply act_bind_inv in H as [([] & w4 & H2 & H)|(e & H2 & ->)].
  - assert (fs w4 = fs w3) as H4 by (destruct c; [by apply silent_throw_when in H2|by apply silent_ret in H2]).
    right. exists info. split; [done|]. right. split; [done|].
    rewrite (view_sidecar_path _ _ _ Hok Hv) in H. rewrite <-H1, <-H4 in *. by apply append_alias_settles.
  - left. exists e. split; [done|]. rewrite <-H1. destruct c; [by apply silent_throw_when in H2|done].
Qed.

Lemma forget_name_spec n w r w' :
  cache_ok (fs w) → forget_name n w = (r, w') →
  (∃ e, r = Raise e ∧ fs w' = fs w) ∨
  (∃ info, view (fs w) (sha info) = Some info ∧ n ∈ names info ∧
    settles (sha info) (with_names info (filter (λ m, m ≠ n) (names info))) (fs w) r (fs w')).
Proof.
  intros Hok. unfold forget_name.
  intros [(o & w1 & H1 & H)|(e & H1 & ->)]%act_bind_inv;
    apply silent_find_by_name in H1 as Hf; [|left; by eauto].
  destruct o as [info|]; [|injection H as <- <-; left; by eauto].
  apply find_by_name_Ok in H1 as [Hv Hn]; [|done]. rewrite <-Hf in *. right. exists info. split_and!; [done..|].
  rewrite (view_sidecar_path _ _ _ Hok Hv) in H. destruct (view_Some _ _ _ Hok Hv) as (Hh & Hb & _ & Hp).
  by apply write_sidecar_settles in H.
Qed.

(** ** [delete] and [purge] *)

Lemma unlink_entry_spec info w r w' :
  cache_ok (fs w) → view (fs w) (sha info) = Some info → unlink_entry info w = (r, w') →
  changed (sha info) None (fs w) (fs w') ∨ (unchanged (fs w) (fs w') ∧ ∃ e, r = Raise e).
Proof.
  intros Hok Hv. unfold unlink_entry. rewrite (view_sidecar_path _ _ _ Hok Hv), (view_bin_path _ _ _ Hok Hv).
  intros [(u & w1 & H1 & H)|(e & H1 & ->)]%act_bind_inv; apply unlink_spec in H1 as [[Hf Hr]|[Hf [e' Hr]]]; try done.
  - left. pose proof (delete_side_changed (fs w) (sha info)) as Hc. rewrite <-Hf in Hc.
    eapply changed_r; [exact Hc|]. apply unlink_spec in H as [[-> _]|[-> _]]; [|by apply unchanged_same].
    apply delete_bin_unchanged. rewrite Hf, side_delete. unfold upd. by rewrite decide_True.
  - right. rewrite Hf. split; [by apply unchanged_same|eauto].
Qed.

Lemma local_delete_spec i w r w' :
  cache_ok (fs w) → local_delete i w = (r, w') →
  (∃ e, r = Raise e ∧ unchanged (fs w) (fs w')) ∨
  (∃ info, view (fs w) (sha info) = Some info ∧ changed (sha info) None (fs w) (fs w') ∧
    (r = Ok info ∨ ∃ e, r = Raise e)).
Proof.
  intros Hok. unfold local_delete.
  intros [(info & w1 & H1 & H)|(e & H1 & ->)]%act_bind_inv;
    apply silent_resolve in H1 as Hf; [|left; rewrite Hf; eauto using unchanged_refl].
  apply resolve_Ok in H1 as [Hv _]; [|done]. rewrite <-Hf in *.
  apply act_bind_inv in H as [([] & w2 & H2 & [= <- <-])|(e & H2 & ->)];
    apply unlink_entry_spec in H2 as [Hc|[Hu [e' [=]]]]; try done; [right|right|left]; eauto 6.
Qed.

(** [purge] removes entries one by one. *)
Lemma purge_loop l w r w' :
  cache_ok (fs w) → NoDup (sha <$> l) → (∀ info, info ∈ l → view (fs w) (sha info) = Some info) →
  forA unlink_entry l w = (r, w') →
  cache_ok (fs w') ∧ ∃ k, k ≤ length l ∧ (r = Ok () → k = length l) ∧
    ∀ h, view (fs w') h = if decide (h ∈ sha <$> take k l) then None else view (fs w) h.
Proof.
  unfold forA. revert w. induction l as [|info l IH]; intros w Hok Hnd Hl; cbn [foldA].
  { intros [= <- <-]. split; [done|]. exists 0. split_and!; [done..|]. by intros h. }
  rewrite fmap_cons in Hnd. apply NoDup_cons in Hnd as [Hni Hnd].
  assert (view (fs w) (sha info) = Some info) as Hv by (apply Hl; set_solver).
  intros [([] & w1 & H1 & H)|(e & H1 & ->)]%act_bind_inv;
    apply unlink_entry_spec in H1 as [Hc|[Hu [e' [=]]]]; try done.
  - destruct (Hc Hok) as [Hok1 Hv1]. destruct (IH w1) as (Hok' & k & Hk & Hr & Hv'); try done.
    { intros i Hi. rewrite Hv1. unfold upd. rewrite decide_False; [apply Hl; set_solver|].
      intros Heq. apply Hni. rewrite <-Heq. by apply list_elem_of_fmap_2. }
    split; [done|]. exists (S k). cbn. split_and!; [lia|naive_solver|]. intros h. rewrite Hv', Hv1. unfold upd.
    repeat case_decide; set_solver.
  - destruct (Hc Hok) as [Hok1 Hv1]. split; [done|]. exists 1. cbn. split_and!; [lia|done|]. intros h.
    rewrite Hv1. unfold upd. destruct l; cbn; repeat case_decide; set_solver.
  - destruct (Hu Hok) as [Hok1 Hv1]. split; [done|]. exists 0. cbn. split_and!; [lia|done|]. intros h.
    rewrite Hv1. done.
Qed.

Lemma NoDup_glob w : NoDup (glob_json w).
Proof.
  unfold glob_json. apply NoDup_sorted, NoDup_fmap_2_strong; [|apply NoDup_filter, NoDup_elements].
  intros [d1 n1] [d2 n2] [[Hd1 _] _]%list_elem_of_filter [[Hd2 _] _]%list_elem_of_filter. cbn in *. naive_solver.
Qed.

Lemma all_entries_sublist ns w l w' :
  cache_ok (fs w) → (∀ n, n ∈ ns → n ∈ glob_json w) → all_entries ns w = (Ok l, w') →
  ((λ i, sha i +:+ ".json") <$> l) `sublist_of` ns.
Proof.
  revert w l w'. induction ns as [|n ns IH]; intros w l w' Hok Hns; cbn [all_entries].
  - intros [= <- _]. constructor.
  - intros [(o & w1 & H1 & H)|(e & _ & [=])]%act_bind_inv.
    pose proof (silent_try_sidecar _ _ _ _ H1) as Hf.
    apply act_bind_inv in H as [(l' & w2 & H2 & [= <- <-])|(e & _ & [=])].
    apply IH in H2; [|by rewrite Hf|intros m Hm; unfold glob_json; rewrite Hf; apply Hns; set_solver].
    destruct o as [i|]; [|by apply sublist_cons].
    apply try_sidecar_Some in H1 as (x & Hx & He).
    assert (n ∈ glob_json w) as (h & -> & _)%elem_of_glob by (apply Hns; set_solver).
    destruct (ok_side _ Hok h x Hx) as (i' & Hi' & <- & _). rewrite He in Hi'. injection Hi' as <-.
    rewrite fmap_cons. by apply sublist_skip.
Qed.

Lemma list_entries_NoDup w l w' : cache_ok (fs w) → list_entries w = (Ok l, w') → NoDup (sha <$> l).
Proof.
  intros Hok. unfold list_entries. intros [(ns & w1 & [= <- <-] & H)|(e & _ & [=])]%act_bind_inv.
  apply all_entries_sublist in H; [|done|done].
  apply (NoDup_fmap_1 (λ h, h +:+ ".json")). rewrite <-list_fmap_compose.
  eapply sublist_NoDup; [apply NoDup_glob|exact H].
Qed.

Lemma purge_spec w r w' :
  cache_ok (fs w) → purge w = (r, w') →
  cache_ok (fs w') ∧
  ∃ l k, (∀ info, info ∈ l → view (fs w) (sha info) = Some info) ∧ (∀ l', r = Ok l' → l' = l ∧ k = length l) ∧
    ∀ h, view (fs w') h = if decide (h ∈ sha <$> take k l) then None else view (fs w) h.
Proof.
  intros Hok. unfold purge.
  intros [(l & w1 & H1 & H)|(e & H1 & ->)]%act_bind_inv; apply silent_list_entries in H1 as Hf.
  - pose proof (list_entries_Ok _ _ _ Hok H1) as Hl. pose proof (list_entries_NoDup _ _ _ Hok H1) as Hnd.
    rewrite <-Hf in *. apply act_bind_inv in H as [([] & w2 & H2 & [= <- <-])|(e & H2 & ->)];
      apply purge_loop in H2 as (Hok' & k & Hk & Hr & Hv'); try done; split; try done; exists l, k;
      (split_and!; [done| |done]); [|done]. intros l' [= <-]. auto.
  - rewrite Hf. split; [done|]. exists [], 0. split_and!; [by intros info []%not_elem_of_nil|done|done].
Qed.

(** ** [add] *)

(** The entry after adding under [name]: the old one with the alias appended, or a
    fresh one. *)
Definition entry_after (old : option CacheEntryInfo) (fresh : CacheEntryInfo) (name descr : option string) :
    CacheEntryInfo :=
  match old with
  | None => fresh
  | Some info =>
      match name with
      | Some n => if decide (n ≠ "" ∧ n ∉ names info) then aliased info n descr else info
      | None => info
      end
  end.

Definition fresh_entry (h : string) (sz : Z) (at_ src_origin : string) (name descr : option string) : CacheEntryInfo :=
  MkInfo h sz (match name with Some n => if decide (n = "") then [] else [n] | None => [] end)
    (Some src_origin) at_ descr (Some (bin_path h)).

Lemma add_sidecar_settles h source o name descr w r w' :
  cache_ok (fs w) → is_Some (bin_at (fs w) h) → (∃ msg, h = sha256 msg) →
  add_sidecar h source o name descr w = (r, w') →
  ∃ sz at_, settles h (entry_after (view (fs w) h) (fresh_entry h sz at_ o name descr) name descr) (fs w) r (fs w').
Proof.
  intros Hok Hb [msg Hmsg]. unfold add_sidecar. rewrite Hmsg, sidecar_path_sha, <-Hmsg.
  intros [(p & w1 & [= <- <-] & H)|(e & [=] & _)]%act_bind_inv.
  change (fs w !! (None, h +:+ ".json")) with (side_at (fs w) h) in H.
  destruct (side_at (fs w) h) as [x|] eqn:Hx.
  - rewrite bool_decide_true in H by eauto. exists 0%Z, "".
    apply act_bind_inv in H as [(info & w1 & H1 & H)|(e & H1 & ->)];
      [|by eapply settles_silent; [apply silent_read_sidecar|done|]].
    pose proof (silent_read_sidecar _ _ _ _ H1) as Hf. apply read_sidecar_Ok in H1 as (x' & Hx' & He).
    change (side_at (fs w) h = Some x') in Hx'.
    assert (view (fs w) h = Some info) as Hv by (unfold view; rewrite Hx'; cbn; by rewrite He).
    rewrite Hv, <-Hf. rewrite <-Hf in Hv, Hok. cbn [entry_after].
    assert (∀ r w', (mret info : act (CWorld R) _) w1 = (r, w') → settles h info (fs w1) r (fs w')) as Hsame.
    { intros r1 w2 [= <- <-]. left. split; [done|]. rewrite <-Hv. apply unchanged_changed, unchanged_refl. }
    destruct name as [n|]; [|auto]. case_decide; [|auto]. by apply append_alias_settles.
  - rewrite bool_decide_false in H by (by intros []).
    assert (view (fs w) h = None) as Hv by (unfold view; by rewrite Hx). rewrite Hv. cbn [entry_after].
    apply act_bind_inv in H as [(sz & w1 & H1 & H)|(e & H1 & ->)];
      [|exists 0%Z, ""; by eapply settles_silent; [apply silent_stat|done|]].
    apply silent_stat in H1. exists sz. apply act_bind_inv in H as [(at_ & w2 & [= <- <-] & H)|(e & [=] & _)].
    exists (clock w1). rewrite <-H1. apply write_sidecar_settles in H; [done|done|by rewrite H1|done].
Qed.

Lemma download_url_spec url w r w' :
  download_url url w = (r, w') → fs w' ≃ fs w ∧ ∀ tmp, r = Ok tmp → partial tmp.
Proof.
  unfold download_url. intros [(tmp & w1 & H1 & H)|(e & H1 & ->)]%act_bind_inv;
    (apply mkstemp_spec in H1 as [Hs Ht]; [|by exists (chars ".download")]); [|done].
  destruct (Ht tmp eq_refl) as [Htmp _]. clear Ht. rewrite <-Hs. revert H. unfold catch.
  destruct ((call_remote _ ≫= _) w1) as [r2 w2] eqn:E.
  assert (fs w2 ≃ fs w1 ∧ ∀ t, r2 = Ok t → t = tmp) as [Hq Ht].
  { apply act_bind_inv in E as [(o & w3 & H3 & E)|(e & H3 & ->)]; apply silent_call in H3; [|by rewrite H3].
    rewrite <-H3. destruct o as [[body cut]|]; [|by injection E as <- <-].
    apply act_bind_inv in E as [(u & w4 & H4 & E)|(e & H4 & ->)]; apply write_partial_spec in H4 as [H4 _]; try done.
    destruct cut; injection E as <- <-; split; [done|done|done|naive_solver]. }
  destruct r2 as [t|e].
  - intros [= <- <-]. split; [done|]. intros t' [= <-]. by rewrite (Ht t eq_refl).
  - cbn [always]. intros [(u & w3 & H3 & [= <- <-])|(e' & H3 & ->)]%act_bind_inv;
      apply unlink_partial in H3; try done; split; try done; by rewrite H3.
Qed.

Lemma open_source_spec src w r w' :
  open_source src w = (r, w') →
  fs w' ≃ fs w ∧ ∀ p o, r = Ok (p, o) →
    if url_scheme src then partial p else p = resolve_source src ∧ fs w' = fs w.
Proof.
  unfold open_source. destruct (url_scheme src).
  - intros [(tmp & w1 & H1 & [= <- <-])|(e & H1 & ->)]%act_bind_inv; apply download_url_spec in H1 as [Hs Ht];
      split; try done. intros p o [= <- <-]. auto.
  - intros H. assert (fs w' = fs w) as Hf.
    { revert H. intros [(x & w1 & [= <- <-] & H)|(e & [=] & _)]%act_bind_inv.
      apply act_bind_inv in H as [(u & w1 & H1 & [= <- <-])|(e & H1 & ->)]; by apply silent_throw_when in H1. }
    rewrite Hf. split; [done|]. intros p o ->. split; [|done].
    apply act_bind_inv in H as [(x & w1 & [= <- <-] & H)|(e & [=] & _)].
    by apply act_bind_inv in H as [(u & w1 & H1 & [= <- <- <-])|(e & H1 & [=])].
Qed.

(** Copying the content into place is invisible, and leaves the [.bin] there. *)
Lemma copy_spec (source dst : path) x (absent : bool) w r w' :
  fs w !! source = Some x → dst = bin_path (sha256 (bytes_of x)) →
  absent = negb (bool_decide (is_Some (fs w !! dst))) && bool_decide (source ≠ dst) →
  act_when absent (atomic_copy source dst) w = (r, w') →
  unchanged (fs w) (fs w') ∧ (r = Ok () → is_Some (bin_at (fs w') (sha256 (bytes_of x)))).
Proof.
  intros Hx Hdst Hab. rewrite bin_path_sha in Hdst. destruct absent; cbn [act_when].
  - unfold atomic_copy. intros [(y & w1 & H1 & H)|(e & H1 & ->)]%act_bind_inv.
    + apply read_path_Ok in H1 as [Hy Hf]. rewrite Hx in Hy. injection Hy as <-.
      apply atomic_materialize_spec in H as [H|[H [e ->]]]; rewrite Hf, Hdst in *.
      * split; [|intros _; rewrite (bin_at_same _ _ _ H), bin_insert; unfold upd; rewrite decide_True by done; eauto].
        eapply unchanged_trans; [by apply write_bin_unchanged|]. by apply unchanged_same.
      * split; [by apply unchanged_same|done].
    + apply silent_read in H1. rewrite H1. split; [apply unchanged_refl|done].
  - intros [= <- <-]. split; [apply unchanged_refl|]. intros _. unfold bin_at. rewrite <-Hdst.
    symmetry in Hab. apply andb_false_iff in Hab as [Hab|Hab].
    + by apply negb_false_iff, bool_decide_eq_true in Hab.
    + apply bool_decide_eq_false, dec_stable in Hab. rewrite <-Hab. eauto.
Qed.

Lemma add_spec src name descr w r w' :
  cache_ok (fs w) → add src name descr w = (r, w') →
  (unchanged (fs w) (fs w') ∧ ∃ e, r = Raise e) ∨
  ∃ d sz at_ o,
    (url_scheme src = false → ∃ x, fs w !! resolve_source src = Some x ∧ d = bytes_of x) ∧
    settles (sha256 d) (entry_after (view (fs w) (sha256 d)) (fresh_entry (sha256 d) sz at_ o name descr) name descr)
      (fs w) r (fs w').
Proof.
  intros Hok. unfold add.
  intros [(u1 & w1 & H1 & H)|(e & H1 & ->)]%act_bind_inv;
    (assert (fs w1 = fs w) as Hf1 by (destruct name; [by apply silent_lift in H1|by apply silent_ret in H1]))
    || (left; destruct name; [apply silent_lift in H1; rewrite H1; eauto using unchanged_refl|done]).
  rewrite <-Hf1 in *. clear Hf1 H1 w.
  apply act_bind_inv in H as [([p o] & w2 & H2 & H)|(e & H2 & ->)];
    apply open_source_spec in H2 as [Hs Hp]; [|left; eauto using unchanged_same].
  specialize (Hp p o eq_refl). assert (unchanged (fs w1) (fs w2)) as Hu by (by apply unchanged_same).
  destruct (Hu Hok) as [Hok2 Hv2].
  apply act_bind_inv in H as [(h & w3 & H3 & H)|(e & H3 & ->)];
    [|apply silent_sha256_of in H3; left; rewrite H3; eauto].
  unfold sha256_of in H3. apply act_bind_inv in H3 as [(x & w4 & H4 & [= <- <-])|(e & _ & [=])].
  apply read_path_Ok in H4 as [Hx Hf4]. apply act_bind_inv in H as [(y & w5 & [= <- <-] & H)|(e & [=] & _)].
  rewrite <-Hf4 in *. apply act_bind_inv in H as [([] & w5 & H5 & H)|(e & H5 & ->)];
    eapply copy_spec in H5 as [Hu5 Hb]; try done; [|left; eauto using unchanged_trans].
  specialize (Hb eq_refl). assert (unchanged (fs w1) (fs w5)) as Hu15 by (by eapply unchanged_trans).
  apply act_bind_inv in H as [([] & w6 & H6 & H)|(e & H6 & ->)];
    (assert (fs w6 ≃ fs w5) as Hs6 || assert (fs w' ≃ fs w5) as Hs6);
    try (destruct (url_scheme src); [by apply unlink_partial in H6|by apply silent_ret in H6; rewrite H6]).
  2: { left. eauto using unchanged_trans, unchanged_same. }
  assert (unchanged (fs w1) (fs w6)) as Hu16 by (eapply unchanged_trans; [done|by apply unchanged_same]).
  destruct (Hu16 Hok) as [Hok6 Hv6].
  apply add_sidecar_settles in H as (sz & at_ & H); [|done|by rewrite (bin_at_same _ _ _ Hs6)|eauto].
  right. exists (bytes_of x), sz, at_, o. split; [|rewrite <-Hv6; by eapply settles_l].
  intros Hurl. rewrite Hurl in Hp. destruct Hp as [-> Hf2]. rewrite <-Hf2. eauto.
Qed.

(** ** The download from the server *)
Context (base_url : string) (inst : bool).

(** The part of a fetch that runs with its temporary open. *)
Lemma fetch_body_spec h resp tmp w r w' :
  partial tmp →
  (write_path tmp (FBytes (concat (chunks resp)));;
   throw_when (broken resp) RequestException [h];;
   throw_when (bool_decide (sha256 (concat (chunks resp)) ≠ h)) CacheError [h; sha256 (concat (chunks resp))];;
   durable_replace_path tmp (bin_path h)) w = (r, w') →
  unchanged (fs w) (fs w') ∧ (r = Ok () → (∃ msg, h = sha256 msg) ∧ is_Some (bin_at (fs w') h)).
Proof.
  intros Htmp H. set (body := concat (chunks resp)) in *.
  apply act_bind_inv in H as [([] & w6 & H6 & H)|(e & H6 & ->)]; apply write_partial_spec in H6 as [H6 Hw]; try done;
    [|split; [by apply unchanged_same|done]]. specialize (Hw eq_refl).
  apply act_bind_inv in H as [(u7 & w7 & H7 & H)|(e & H7 & ->)]; apply silent_throw_when in H7;
    [|rewrite H7; split; [by apply unchanged_same|done]].
  apply act_bind_inv in H as [(u8 & w8 & [= H8 <-] & H)|(e & H8 & ->)];
    [|apply silent_throw_when in H8; rewrite H8, H7; split; [by apply unchanged_same|done]].
  apply raise_if_Ok, bool_decide_eq_false, dec_stable in H8.
  eapply (promote_spec _ _ (FBytes body)) in H as [H|[H [e ->]]]; try done.
  - rewrite <-H8, bin_path_sha in H. rewrite <-H8. split.
    + eapply unchanged_trans; [by apply unchanged_same|]. rewrite <-H7.
      eapply unchanged_trans; [by apply (write_bin_unchanged _ _ body eq_refl)|by apply unchanged_same].
    + intros _. split; [eauto|]. rewrite (bin_at_same _ _ _ H), bin_insert. unfold upd. rewrite decide_True; eauto.
  - split; [|done]. apply unchanged_same. by rewrite H, H7.
  - rewrite H7, Hw. apply lookup_insert_eq.
Qed.

(** Whatever the server sends, a fetch is invisible; if it returns, the bytes named
    by the digest are there. *)
Lemma fetch_spec h w r w' :
  fetch base_url inst h (bin_path h) w = (r, w') →
  unchanged (fs w) (fs w') ∧ (r = Ok () → (∃ msg, h = sha256 msg) ∧ is_Some (bin_at (fs w') h)).
Proof.
  unfold fetch.
  intros [(resp & w1 & H1 & H)|(e & H1 & ->)]%act_bind_inv; apply silent_http_get in H1;
    [rewrite <-H1|rewrite H1; split; [apply unchanged_refl|done]].
  apply act_bind_inv in H as [(u2 & w2 & H2 & H)|(e & H2 & ->)]; apply silent_throw_when in H2;
    [rewrite <-H2|rewrite H2; split; [apply unchanged_refl|done]].
  apply act_bind_inv in H as [(u3 & w3 & H3 & H)|(e & H3 & ->)]; apply silent_throw_when in H3;
    [rewrite <-H3|rewrite H3; split; [apply unchanged_refl|done]].
  apply act_bind_inv in H as [(tmp & w4 & H4 & H)|(e & H4 & ->)];
    (apply mkstemp_spec in H4 as [H4 Ht]; [|reflexivity]); [|split; [by apply unchanged_same|done]].
  destruct (Ht tmp eq_refl) as [Htmp _].
  apply finally_inv in H as (r5 & w5 & H & Hfin). apply (fetch_body_spec h) in H as [Hu Hok5]; [|done].
  assert (fs w' ≃ fs w5 ∧ (r = r5 ∨ ∃ e, r = Raise e)) as [Hend Hr].
  { destruct Hfin as [[H5 ->]|(e & H5 & ->)]; apply unlink_partial in H5; eauto. }
  split.
  - eapply unchanged_trans; [by apply unchanged_same|]. eapply unchanged_trans; [done|by apply unchanged_same].
  - intros ->. rewrite (bin_at_same _ _ _ Hend). destruct Hr as [<-|[e [=]]]. auto.
Qed.

(** The entry after a fetch: what the server described, or the local entry with
    the server's names added. *)
Definition merged_entry (old : option CacheEntryInfo) (info : CacheEntryInfo) : CacheEntryInfo :=
  match old with
  | None => info
  | Some ex =>
      let merged := dict_fromkeys [] (names ex ++ names info) in
      if decide (merged = names ex) then ex else with_names ex merged
  end.

Lemma write_materialized_settles h info w r w' :
  cache_ok (fs w) → sha info = h → (∃ msg, h = sha256 msg) → is_Some (bin_at (fs w) h) →
  info_path info = Some (bin_path h) → write_materialized_sidecar info w = (r, w') →
  settles h (merged_entry (view (fs w) h) info) (fs w) r (fs w').
Proof.
  intros Hok Hh [msg Hmsg] Hb Hp. unfold write_materialized_sidecar. rewrite Hh, Hmsg, sidecar_path_sha, <-Hmsg.
  intros [(p & w1 & [= <- <-] & H)|(e & [=] & _)]%act_bind_inv.
  change (fs w !! (None, h +:+ ".json")) with (side_at (fs w) h) in H.
  destruct (side_at (fs w) h) as [x|] eqn:Hx.
  - rewrite bool_decide_true in H by eauto.
    apply act_bind_inv in H as [(ex & w1 & H1 & H)|(e & H1 & ->)];
      [|by eapply settles_silent; [apply silent_read_sidecar|done|]].
    pose proof (silent_read_sidecar _ _ _ _ H1) as Hf. apply read_sidecar_Ok in H1 as (x' & Hx' & He).
    change (side_at (fs w) h = Some x') in Hx'.
    assert (view (fs w) h = Some ex) as Hv by (unfold view; rewrite Hx'; cbn; by rewrite He).
    rewrite Hv, <-Hf. rewrite <-Hf in Hv, Hok, Hb. cbn [merged_entry]. cbv zeta in *.
    destruct (view_Some _ _ _ Hok Hv) as (Hsh & _ & _ & Hpx). case_decide.
    + injection H as <- <-. left. split; [done|]. rewrite <-Hv. apply unchanged_changed, unchanged_refl.
    + by apply write_sidecar_settles in H.
  - rewrite bool_decide_false in H by (by intros []).
    assert (view (fs w) h = None) as -> by (unfold view; by rewrite Hx).
    by apply write_sidecar_settles in H.
Qed.

Lemma fetch_and_materialize_spec info w r w' :
  cache_ok (fs w) → fetch_and_materialize base_url inst info w = (r, w') →
  (unchanged (fs w) (fs w') ∧ ∃ e, r = Raise e) ∨
  settles (sha info) (merged_entry (view (fs w) (sha info)) (with_path info (Some (bin_path (sha info))))) (fs w) r (fs w').
Proof.
  intros Hok. unfold fetch_and_materialize.
  intros [([] & w1 & H1 & H)|(e & H1 & ->)]%act_bind_inv; apply fetch_spec in H1 as [Hu Hb]; [|left; eauto].
  destruct (Hb eq_refl) as [Hmsg Hbin]. right. destruct (Hu Hok) as [Hok1 Hv1]. eapply settles_l; [done|].
  rewrite <-Hv1. by eapply (write_materialized_settles (sha info)).
Qed.
End Ops.
