(* ===== verification/CacheClaims.v ===== *)
(** * What the cache manager guarantees

    The invariant over all operations, all-or-nothing additions and removals, verified
    downloads, the mirror that cannot hurt, and lookups that find what was added. *)

From S2P Require Import Prelude Exceptions Eff PyBytes Ledger CacheDisk Sha256 CacheNames LocalCache HttpCache CacheFrame CacheSpec CacheOps.
From stdpp Require Import options.

Section Manager.
Context {R : Type} {HT : Http R} {PE : PyEnv}.
Context (base_url : string) (inst http : bool).
Implicit Types (w : CWorld R) (h : string).

(** ** The operations, as requests *)

Inductive request_op : Type :=
  | OpResolve (identifier : string) (fetching : bool)
  | OpAdd (src : string) (name descr : option string)
  | OpDelete (identifier : string)
  | OpPurge
  | OpAddName (identifier new_name : string)
  | OpForgetName (name : string)
  | OpPush (identifier : string)
  | OpPull (identifier : string).

Definition run_request (q : request_op) : act (CWorld R) () :=
  match q with
  | OpResolve i fe => _ ← manager_resolve base_url inst http i fe; mret ()
  | OpAdd s n d => _ ← manager_add base_url inst http s n d; mret ()
  | OpDelete i => _ ← manager_delete base_url inst http i; mret ()
  | OpPurge => _ ← manager_purge; mret ()
  | OpAddName i n => _ ← manager_add_name base_url inst http i n; mret ()
  | OpForgetName n => _ ← manager_forget_name base_url inst http n; mret ()
  | OpPush i => _ ← manager_push base_url inst http i; mret ()
  | OpPull i => _ ← manager_pull base_url inst http i; mret ()
  end.

(** A session: the requests in order, whatever each of them raised. *)
Definition session (qs : list request_op) w : CWorld R :=
  foldl (λ w q, snd (run_request q w)) w qs.

(** ** The invariant *)

Definition safe_op {A} (m : act (CWorld R) A) : Prop :=
  ∀ w r w', cache_ok (fs w) → m w = (r, w') → cache_ok (fs w').

Lemma safe_silent {A} (m : act (CWorld R) A) : silent m → safe_op m.
Proof. intros Hm w r w' Hok H. by rewrite (Hm _ _ _ H). Qed.

Lemma safe_bind_silent {A B} (m : act (CWorld R) A) (k : A → act (CWorld R) B) :
  safe_op m → (∀ a, silent (k a)) → safe_op (m ≫= k).
Proof.
  intros Hm Hk w r w' Hok [(a & w1 & H1 & H2)|(e & H1 & ->)]%act_bind_inv; [|by eapply Hm].
  rewrite (Hk _ _ _ _ H2). by eapply Hm.
Qed.

Lemma safe_silent_bind {A B} (m : act (CWorld R) A) (k : A → act (CWorld R) B) :
  silent m → (∀ a, safe_op (k a)) → safe_op (m ≫= k).
Proof.
  intros Hm Hk w r w' Hok [(a & w1 & H1 & H2)|(e & H1 & ->)]%act_bind_inv; apply Hm in H1 as Hf.
  - eapply (Hk a w1); [by rewrite Hf|done].
  - by rewrite Hf.
Qed.

Lemma unchanged_ok f g : cache_ok f → unchanged f g → cache_ok g.
Proof. intros Hf H. by apply H. Qed.

Lemma settles_ok h x f r f' : cache_ok f → settles h x f r f' → cache_ok f'.
Proof. intros Hf [[_ H]|[_ [H|H]]]; by apply H. Qed.

Lemma safe_add src name descr : safe_op (add src name descr).
Proof.
  intros w r w' Hok [[Hu _]|(d & sz & at_ & o & _ & Hs)]%add_spec;
    [by eapply unchanged_ok|by eapply settles_ok|done].
Qed.

Lemma safe_delete i : safe_op (local_delete i).
Proof.
  intros w r w' Hok [(e & _ & Hu)|(info & _ & Hc & _)]%local_delete_spec; [by eapply unchanged_ok|by apply Hc|done].
Qed.

Lemma safe_add_name i n : safe_op (add_name i n).
Proof.
  intros w r w' Hok [(e & _ & Hf)|(info & _ & [(_ & _ & Hf)|[_ Hs]])]%add_name_spec;
    [by rewrite Hf..|by eapply settles_ok|done].
Qed.

Lemma safe_forget_name n : safe_op (forget_name n).
Proof.
  intros w r w' Hok [(e & _ & Hf)|(info & _ & _ & Hs)]%forget_name_spec; [by rewrite Hf|by eapply settles_ok|done].
Qed.

Lemma safe_fetch info : safe_op (fetch_and_materialize base_url inst info).
Proof.
  intros w r w' Hok [[Hu _]|Hs]%fetch_and_materialize_spec; [by eapply unchanged_ok|by eapply settles_ok|done].
Qed.

Lemma silent_local_part i :
  silent (R := R) (catch (info ← resolve i; mret (Some info)) (λ e, is_miss e && http) (λ _, mret None)).
Proof. apply silent_catch; [apply silent_bind|]; intros; auto with frame. Qed.

Lemma run_request_safe q : safe_op (run_request q).
Proof.
  destruct q; cbn [run_request]; (apply safe_bind_silent; [|intros; apply silent_ret]).
  - apply safe_silent_bind; [apply silent_local_part|]. intros [info|]; [apply safe_silent, silent_ret|].
    apply safe_silent_bind; [apply silent_http_resolve|intros info].
    destruct fetching; [apply safe_fetch|apply safe_silent, silent_ret].
  - apply safe_bind_silent; [apply safe_add|intros info]. apply silent_bind; [|intros; apply silent_ret].
    apply silent_when, silent_bind; auto with frame.
  - apply safe_bind_silent; [apply safe_delete|intros info]. apply silent_bind; auto with frame.
  - intros w r w' Hok H. by apply purge_spec in H as [? _].
  - apply safe_bind_silent; [apply safe_add_name|intros info]. apply silent_bind; auto with frame.
  - apply safe_bind_silent; [apply safe_forget_name|intros info]. apply silent_bind; auto with frame.
  - apply safe_silent. apply silent_bind; [auto with frame|intros _]. apply silent_bind; [auto with frame|intros info].
    apply silent_bind; [auto with frame|intros p]. apply silent_bind; auto with frame.
  - apply safe_silent_bind; [auto with frame|intros _]. apply safe_silent_bind; [auto with frame|apply safe_fetch].
Qed.

(** C4: the cache directory stays sound over any session: every [<sha>.bin] holds bytes
    that hash to its name, every sidecar parses, is named after the digest it describes
    and has its bytes on disk.  It holds after every request, whatever the server answers,
    whichever system calls fail, and at whatever call the process is killed. *)
Theorem cache_invariant qs w : cache_ok (fs w) → cache_ok (fs (session qs w)).
Proof.
  unfold session. revert w. induction qs as [|q qs IH]; intros w Hok; [done|]. cbn [foldl]. apply IH.
  destruct (run_request q w) as [r w'] eqn:E. by eapply run_request_safe.
Qed.

(** ** Additions are all or nothing *)

(** C15: adding a local file either leaves every entry as it was, or sets exactly the
    entry of the file's digest to the old one with the alias appended (to a fresh one if
    there was none).  Returning means it was set, and the entry is the one returned; a
    failure or a kill at any system call gives one of the two, never a mixture. *)
Theorem add_all_or_nothing src name descr w r w' x :
  cache_ok (fs w) → url_scheme src = false → fs w !! resolve_source src = Some x →
  manager_add base_url inst http src name descr w = (r, w') →
  let h := sha256 (bytes_of x) in
  (∃ e, r = Raise e ∧ ∀ k, view (fs w') k = view (fs w) k) ∨
  (∃ sz at_ o,
    let y := entry_after (view (fs w) h) (fresh_entry h sz at_ o name descr) name descr in
    (∀ k, view (fs w') k = upd (view (fs w)) h (Some y) k) ∧ (r = Ok y ∨ ∃ e, r = Raise e)).
Proof.
  intros Hok Hurl Hx H h. unfold manager_add in H.
  assert (∃ r1 w1, add src name descr w = (r1, w1) ∧ fs w' = fs w1 ∧ (r = r1 ∨ ∃ e, r = Raise e)) as
    (r1 & w1 & Hadd & Hf & Hr).
  { apply act_bind_inv in H as [(info & w1 & H1 & H)|(e & H1 & ->)]; [|eauto 8].
    exists (Ok info), w1. split; [done|].
    apply act_bind_inv in H as [([] & w2 & H2 & [= <- <-])|(e & H2 & ->)];
      (split; [apply (silent_when _ _ (silent_bind _ _ (silent_the_path info)
        (λ p, silent_swallow _ (silent_push _ _ _ _)))) in H2; done|eauto]). }
  rewrite Hf. clear Hf H. apply add_spec in Hadd as [[Hu [e ->]]|(d & sz & at_ & o & Hd & Hs)]; [| |done].
  - left. destruct (Hu Hok) as [_ Hv]. destruct Hr as [->|[e' ->]]; eauto.
  - destruct (Hd Hurl) as (x' & Hx' & ->). rewrite Hx in Hx'. injection Hx' as <-.
    destruct Hs as [[-> Hc]|[[e ->] [Hu|Hc]]].
    + right. exists sz, at_, o. split; [apply Hc, Hok|done].
    + left. destruct (Hu Hok) as [_ Hv]. destruct Hr as [->|[e' ->]]; eauto.
    + right. exists sz, at_, o. split; [apply Hc, Hok|]. destruct Hr as [->|[e' ->]]; eauto.
Qed.

(** Deleting an entry either leaves every entry as it was, or removes exactly the
    entry the identifier resolved to; it never leaves a sidecar whose bytes are gone. *)
Theorem delete_all_or_nothing i w r w' :
  cache_ok (fs w) → manager_delete base_url inst http i w = (r, w') →
  cache_ok (fs w') ∧
  ((∃ e, r = Raise e ∧ ∀ k, view (fs w') k = view (fs w) k) ∨
   (∃ info, view (fs w) (sha info) = Some info ∧ (∀ k, view (fs w') k = upd (view (fs w)) (sha info) None k) ∧
     (r = Ok info ∨ ∃ e, r = Raise e))).
Proof.
  intros Hok H. unfold manager_delete in H.
  assert (∃ r1 w1, local_delete i w = (r1, w1) ∧ fs w' = fs w1 ∧ (r = r1 ∨ ∃ e, r = Raise e)) as
    (r1 & w1 & Hdel & Hf & Hr).
  { apply act_bind_inv in H as [(info & w1 & H1 & H)|(e & H1 & ->)]; [|eauto 8].
    exists (Ok info), w1. split; [done|].
    apply act_bind_inv in H as [([] & w2 & H2 & [= <- <-])|(e & H2 & ->)];
      (split; [apply (silent_when _ _ (silent_swallow _ (silent_http_delete_entry _ _ _))) in H2; done|eauto]). }
  rewrite Hf. split; [by eapply safe_delete|].
  apply local_delete_spec in Hdel as [(e & -> & Hu)|(info & Hv & Hc & Hr1)]; [| |done].
  - left. destruct (Hu Hok) as [_ Hv]. destruct Hr as [->|[e' ->]]; eauto.
  - right. exists info. split_and!; [done|apply Hc, Hok|]. destruct Hr as [->|[e' ->]]; eauto.
Qed.

(** ** Verified downloads *)

(** C14: when [resolve] returns with fetching on, from either tier and whatever the
    server sent, the entry's path is the content-addressed file of its digest, that file
    is there, its bytes hash to the digest, and the entry is now a local one. *)
Theorem resolve_verified i w info w' :
  cache_ok (fs w) → manager_resolve base_url inst http i true w = (Ok info, w') →
  ∃ x, info_path info = Some (None, sha info +:+ ".bin") ∧ fs w' !! (None, sha info +:+ ".bin") = Some x ∧
    sha256 (bytes_of x) = sha info ∧ view (fs w') (sha info) = Some info.
Proof.
  intros Hok. unfold manager_resolve.
  intros [(o & w1 & H1 & H)|(e & _ & [=])]%act_bind_inv.
  pose proof (silent_local_part i _ _ _ H1) as Hf.
  cut (cache_ok (fs w') ∧ view (fs w') (sha info) = Some info).
  { intros [Hok' Hv]. destruct (view_Some _ _ _ Hok' Hv) as (_ & [x Hx] & [msg Hmsg] & Hp).
    rewrite Hmsg, bin_path_sha, <-Hmsg in Hp. exists x. split_and!; [done|done|by eapply ok_bin|done]. }
  destruct o as [j|].
  - injection H as -> <-. revert H1. unfold catch.
    destruct ((resolve i ≫= _) w) as [[o|e] w2] eqn:E.
    + intros [= -> <-]. apply act_bind_inv in E as [(j & w3 & E & [= <- <-])|(e & _ & [=])].
      rewrite Hf. split; [done|]. by apply resolve_Ok in E as [? _].
    + by destruct (is_miss e && http).
  - apply act_bind_inv in H as [(j & w2 & H2 & H)|(e & _ & [=])]. apply silent_http_resolve in H2.
    assert (cache_ok (fs w2)) as Hok2 by (by rewrite H2, Hf).
    pose proof (safe_fetch _ _ _ _ Hok2 H) as Hok'. split; [done|].
    apply fetch_and_materialize_spec in H as [[_ [e [=]]]|[[[= ->] Hc]|[[e [=]] _]]]; [|done].
    destruct (Hc Hok2) as [_ Hv]. remember (merged_entry _ _) as y eqn:Hy.
    assert (sha y = sha j) as ->.
    { rewrite Hy. unfold merged_entry. destruct (view (fs w2) (sha j)) as [ex|] eqn:Hex; [|done].
      destruct (view_Some _ _ _ Hok2 Hex) as (Hsh & _). cbv zeta. by case_decide. }
    rewrite Hv. unfold upd. by rewrite decide_True.
Qed.
End Manager.

(** ** Lookups find what was added

    In a world where no system call fails, [resolve] is exact, and an addition can be
    looked up again by its name and by its digest. *)

Section Lookup.
Context {R : Type} {HT : Http R} {PE : PyEnv}.
Implicit Types (w : CWorld R) (h : string) (p : path).

(** The process is alive and no system call fails. *)
Definition calm_disk w : Prop := alive w = true ∧ sched w = [].

Lemma sys_calm w : calm_disk w → sys w = (Ok (), w).
Proof. intros [Ha Hs]. unfold sys, sys_torn. by rewrite Ha, Hs. Qed.

Lemma read_path_calm p w x : calm_disk w → fs w !! p = Some x → read_path p w = (Ok x, w).
Proof.
  intros Hc Hx. unfold read_path. rewrite (act_bind_Ok _ _ _ _ _ (sys_calm w Hc)).
  unfold mbind, act_bind, gets. by rewrite Hx.
Qed.

Lemma read_sidecar_calm p w x info :
  calm_disk w → fs w !! p = Some x → entry_of x = Ok info → read_sidecar p w = (Ok info, w).
Proof.
  intros Hc Hx He. unfold read_sidecar. rewrite (act_bind_Ok _ _ _ _ _ (read_path_calm _ _ _ Hc Hx)).
  unfold lift. by rewrite He.
Qed.

Lemma try_sidecar_calm n w x info :
  calm_disk w → fs w !! (None, n) = Some x → entry_of x = Ok info → try_sidecar n w = (Ok (Some info), w).
Proof.
  intros Hc Hx He. unfold try_sidecar, catch.
  by rewrite (act_bind_Ok _ _ _ _ _ (read_sidecar_calm _ _ _ _ Hc Hx He)).
Qed.

(** Every name of the list is a sidecar that parses. *)
Definition readable w (ns : list string) : Prop :=
  ∀ n, n ∈ ns → ∃ x info, fs w !! (None, n) = Some x ∧ entry_of x = Ok info.

Lemma first_entry_calm q ns w :
  calm_disk w → readable w ns →
  ∃ o, first_entry q ns w = (Ok o, w) ∧
    (o = None → ∀ n x info, n ∈ ns → fs w !! (None, n) = Some x → entry_of x = Ok info → q info = false).
Proof.
  intros Hc. induction ns as [|n ns IH]; intros Hr; cbn [first_entry].
  { exists None. split; [done|]. by intros _ n x info []%not_elem_of_nil. }
  destruct (Hr n) as (x & info & Hx & He); [set_solver|].
  rewrite (act_bind_Ok _ _ _ _ _ (try_sidecar_calm _ _ _ _ Hc Hx He)). cbn beta iota.
  destruct (q info) eqn:Hq; [exists (Some info); by split|].
  destruct IH as (o & Ho & Hn); [intros m Hm; apply Hr; set_solver|]. exists o. split; [done|].
  intros Hno m y info' [->|Hm]%elem_of_cons Hy Hey; [congruence|by eapply Hn].
Qed.

Lemma all_entries_calm ns w :
  calm_disk w → readable w ns →
  ∃ l, all_entries ns w = (Ok l, w) ∧
    ∀ n x info, n ∈ ns → fs w !! (None, n) = Some x → entry_of x = Ok info → info ∈ l.
Proof.
  intros Hc. induction ns as [|n ns IH]; intros Hr; cbn [all_entries].
  { exists []. split; [done|]. by intros n x info []%not_elem_of_nil. }
  destruct (Hr n) as (x & info & Hx & He); [set_solver|].
  destruct IH as (l & Hl & Hin); [intros m Hm; apply Hr; set_solver|]. exists (info :: l).
  rewrite (act_bind_Ok _ _ _ _ _ (try_sidecar_calm _ _ _ _ Hc Hx He)), (act_bind_Ok _ _ _ _ _ Hl). split; [done|].
  intros m y info' [->|Hm]%elem_of_cons Hy Hey; [|right; by eapply Hin].
  assert (info' = info) as -> by congruence. by left.
Qed.

Lemma readable_glob w : cache_ok (fs w) → readable w (glob_json w).
Proof.
  intros Hok n (h & -> & [x Hx])%elem_of_glob. destruct (ok_side _ Hok h x Hx) as (info & He & _). eauto.
Qed.

Lemma view_side f h info : view f h = Some info → ∃ x, side_at f h = Some x ∧ entry_of x = Ok info.
Proof. unfold view. intros (x & Hx & Hi)%bind_Some. exists x. destruct (entry_of x); naive_solver. Qed.

Lemma list_entries_calm w :
  calm_disk w → cache_ok (fs w) →
  ∃ l, list_entries w = (Ok l, w) ∧ NoDup (sha <$> l) ∧ ∀ info, info ∈ l ↔ view (fs w) (sha info) = Some info.
Proof.
  intros Hc Hok. destruct (all_entries_calm (glob_json w) w) as (l & Hl & Hin); [done|by apply readable_glob|].
  assert (list_entries w = (Ok l, w)) as H by (unfold list_entries; by rewrite (act_bind_Ok _ _ w (glob_json w) w)).
  exists l. split_and!; [done|by eapply list_entries_NoDup|]. intros info. split; [by eapply list_entries_Ok|].
  intros (x & Hx & He)%view_side. eapply (Hin (sha info +:+ ".json")); [|done..]. apply elem_of_glob. eauto.
Qed.

Lemma find_by_name_calm n w :
  calm_disk w → cache_ok (fs w) →
  ∃ o, find_by_name n w = (Ok o, w) ∧
    (o = None → ∀ h info, view (fs w) h = Some info → n ∉ names info).
Proof.
  intros Hc Hok.
  destruct (first_entry_calm (λ info, bool_decide (n ∈ names info)) (glob_json w) w) as (o & Ho & Hn);
    [done|by apply readable_glob|].
  exists o. split; [unfold find_by_name; by rewrite (act_bind_Ok _ _ w (glob_json w) w)|].
  intros Hno h info (x & Hx & He)%view_side. specialize (Hn Hno (h +:+ ".json") x info).
  apply (bool_decide_eq_false (n ∈ names info)), Hn; [apply elem_of_glob; eauto|done..].
Qed.

(** What an identifier designates: a digest prefix, or an alias. *)
Definition designates (i : string) (info : CacheEntryInfo) : Prop :=
  if HEX_PAT i then chars i `prefix_of` chars (sha info) else i ∈ names info.

(** Resolving is exact.  It returns only entries the identifier designates; if it
    designates one entry alone, that entry is returned; if it designates none, the
    result is [CacheMissError]; a digest prefix of two entries is refused.  The
    directory is not touched. *)
Theorem resolve_exact i w :
  cache_ok (fs w) → calm_disk w → i ≠ "" →
  ∃ r, resolve i w = (r, w) ∧
    (∀ info, r = Ok info → view (fs w) (sha info) = Some info ∧ designates i info) ∧
    (∀ info, view (fs w) (sha info) = Some info → designates i info →
       (∀ info', view (fs w) (sha info') = Some info' → designates i info' → info' = info) → r = Ok info) ∧
    ((∀ info, view (fs w) (sha info) = Some info → ¬ designates i info) → r = raise CacheMissError [i]) ∧
    (∀ info info', HEX_PAT i = true → view (fs w) (sha info) = Some info → view (fs w) (sha info') = Some info' →
       designates i info → designates i info' → sha info ≠ sha info' → ∃ args, r = raise CacheError args).
Proof.
  intros Hok Hc Hi.
  assert (∀ r, resolve i w = (r, w) → ∀ info, r = Ok info → view (fs w) (sha info) = Some info ∧ designates i info)
    as Hsound by (intros r Hr info ->; by apply resolve_Ok in Hr).
  unfold resolve in *. rewrite (act_bind_Ok _ _ w (HEX_PAT i) w) in * by (unfold lift; f_equal; by apply looks_like_sha_Ok).
  unfold designates in *. destruct (HEX_PAT i).
  - destruct (list_entries_calm w Hc Hok) as (l & Hl & Hnd & Hin). rewrite (act_bind_Ok _ _ _ _ _ Hl) in *.
    set (ms := filter (λ info, chars i `prefix_of` chars (sha info)) l) in *.
    assert (∀ info, info ∈ ms ↔ view (fs w) (sha info) = Some info ∧ chars i `prefix_of` chars (sha info)) as Hms
      by (intros info; unfold ms; rewrite list_elem_of_filter, Hin; tauto).
    destruct ms as [|j [|j' js]] eqn:Hm; eexists; (split; [reflexivity|]); (split; [by eapply Hsound|]).
    + split_and!; [|done|]; [intros info Hv Hd _|intros info info' _ Hv _ Hd]; exfalso; eapply not_elem_of_nil, Hms; eauto.
    + split_and!.
      * intros info Hv Hd Hu. f_equal. apply Hu; apply Hms; by left.
      * intros Hn. destruct (Hn j); apply Hms; by left.
      * intros info info' _ Hv Hv' Hd Hd' []. assert (info ∈ [j] ∧ info' ∈ [j]) as [H1 H2] by (by rewrite !Hms).
        apply list_elem_of_singleton in H1 as ->, H2 as ->. done.
    + split_and!; [|intros Hn; destruct (Hn j); apply Hms; by left|eauto].
      intros info _ _ Hu. exfalso. assert (j = info) as -> by (apply Hu; apply Hms; by left).
      assert (j' = info) as -> by (apply Hu; apply Hms; right; by left).
      assert (NoDup (sha <$> info :: info :: js)) as Hnd' by (rewrite <-Hm; by apply NoDup_fmap_filter).
      apply NoDup_cons in Hnd' as [[] _]. by left.
  - destruct (find_by_name_calm i w Hc Hok) as (o & Ho & Hn). rewrite (act_bind_Ok _ _ _ _ _ Ho) in *.
    destruct o as [j|]; eexists; (split; [reflexivity|]); (split; [by eapply Hsound|]).
    + destruct (Hsound _ eq_refl j eq_refl) as [Hv Hd]. split_and!; [|naive_solver|done].
      intros info _ _ Hu. by rewrite (Hu j).
    + split_and!; [|done|done]. intros info Hv Hd _. by destruct (Hn eq_refl (sha info) info).
Qed.

(** ** Additions succeed and can be found again *)

Definition temp_name (c : string) : string := "tmp" +:+ c +:+ ".partial".

(** [mkstemp] can make [k] more temporaries. *)
Definition roomy (k : nat) w : Prop :=
  k ≤ length (tries w) ∧ ∀ d c, c ∈ tries w → fs w !! (d, temp_name c) = None.

Lemma atomic_materialize_calm p x w c rest :
  calm_disk w → tries w = c :: rest → fs w !! (p.1, temp_name c) = None → p ≠ (p.1, temp_name c) →
  atomic_materialize p x w = (Ok (), set_fs (<[p := x]> (fs w)) (set_tries rest w)).
Proof.
  destruct w as [f a s t ck rm]. intros [Ha Hs] Ht Hfree Hp. cbn in Ha, Hs, Ht, Hfree. subst.
  unfold atomic_materialize, mkstemp, write_path, durable_replace_path, rename, sys, sys_torn, catch, gets,
    modify, mbind, act_bind, mret, act_ret. cbn -[temp_name]. fold (temp_name c).
  rewrite Hfree, bool_decide_false by (by intros [? [=]]). cbn -[temp_name].
  rewrite lookup_insert_eq. cbn -[temp_name].
  by rewrite insert_insert_eq, delete_insert_id.
Qed.

Lemma roomy_step k w c rest p x :
  roomy (S k) w → tries w = c :: rest → ¬ partial p → roomy k (set_fs (<[p := x]> (fs w)) (set_tries rest w)).
Proof.
  intros [Hk Hfree] Ht Hp. split; cbn; [rewrite Ht in Hk; cbn in Hk; lia|]. intros d c' Hc'.
  rewrite lookup_insert_ne; [apply Hfree; rewrite Ht; by right|]. intros ->. apply Hp. unfold partial. cbn [snd].
  unfold temp_name. rewrite !chars_app. by do 2 apply suffix_app_r.
Qed.

Lemma partial_temp d c : partial (d, temp_name c).
Proof. unfold partial, temp_name. cbn [snd]. rewrite !chars_app. by do 2 apply suffix_app_r. Qed.

(** With a free temporary, a write through one succeeds. *)
Lemma atomic_materialize_roomy k p x w :
  calm_disk w → roomy (S k) w → ¬ partial p →
  ∃ w', atomic_materialize p x w = (Ok (), w') ∧ fs w' = <[p := x]> (fs w) ∧ calm_disk w' ∧ roomy k w'.
Proof.
  intros Hc Hroom Hp. destruct (tries w) as [|c rest] eqn:Ht; [destruct Hroom as [Hk _]; rewrite Ht in Hk; cbn in Hk; lia|].
  eexists. split; [apply (atomic_materialize_calm _ _ _ c rest); try done|].
  - apply Hroom. rewrite Ht. by left.
  - intros Heq. apply Hp. rewrite Heq. apply partial_temp.
  - split_and!; [done|by destruct Hc|by apply (roomy_step _ _ c rest)].
Qed.

Lemma add_sidecar_total h source o name descr w x :
  calm_disk w → roomy 1 w → cache_ok (fs w) → bin_at (fs w) h = Some x → (∃ msg, h = sha256 msg) →
  ∃ info w', add_sidecar h source o name descr w = (Ok info, w') ∧ calm_disk w'.
Proof.
  intros Hc Hroom Hok Hb [msg Hmsg]. unfold add_sidecar, exists_path.
  assert (sidecar_path h = (None, h +:+ ".json")) as -> by (rewrite Hmsg; apply sidecar_path_sha).
  assert (bin_path h = (None, h +:+ ".bin")) as Hbp by (rewrite Hmsg; apply bin_path_sha).
  rewrite act_bind_gets. fold (side_at (fs w) h). destruct (side_at (fs w) h) as [y|] eqn:Hs.
  - rewrite bool_decide_true by eauto. destruct (ok_side _ Hok h y Hs) as (info & He & _).
    rewrite (act_bind_Ok _ _ w _ w (read_sidecar_calm _ _ _ _ Hc Hs He)).
    destruct name as [n|]; [|by exists info, w]. case_decide; [|by exists info, w].
    unfold append_alias, write_sidecar, atomic_write_json.
    edestruct atomic_materialize_roomy as (w' & Hw & _ & Hc' & _); [done|done|apply (partial_json h)|].
    rewrite (act_bind_Ok _ _ _ _ _ Hw). eexists _, w'. by split.
  - rewrite bool_decide_false by (by intros []). unfold stat_size. rewrite Hbp.
    assert ((f ← read_path (None, h +:+ ".bin"); mret (Z.of_nat (length (bytes_of f)))) w =
      (Ok (Z.of_nat (length (bytes_of x))), w)) as Hst by (by rewrite (act_bind_Ok _ _ _ _ _ (read_path_calm _ _ _ Hc Hb))).
    rewrite (act_bind_Ok _ _ _ _ _ Hst), act_bind_gets. cbv zeta. unfold write_sidecar, atomic_write_json.
    edestruct atomic_materialize_roomy as (w' & Hw & _ & Hc' & _); [done|done|apply (partial_json h)|].
    rewrite (act_bind_Ok _ _ _ _ _ Hw). eexists _, w'. by split.
Qed.

Lemma add_total src n descr w x :
  cache_ok (fs w) → calm_disk w → roomy 2 w → url_scheme src = false → fs w !! resolve_source src = Some x →
  validate_name n = Ok () →
  ∃ info w', add src (Some n) descr w = (Ok info, w') ∧ calm_disk w'.
Proof.
  intros Hok Hc Hroom Hurl Hx Hn. unfold add, open_source, exists_path. rewrite Hurl.
  rewrite (act_bind_Ok _ _ w () w) by (unfold lift; by rewrite Hn).
  rewrite (act_bind_Ok _ _ w (resolve_source src, show_path (resolve_source src)) w).
  2: { rewrite act_bind_gets, Hx. by rewrite bool_decide_true by eauto. }
  unfold sha256_of. rewrite (act_bind_Ok _ _ w (sha256 (bytes_of x)) w)
    by (by rewrite (act_bind_Ok _ _ _ _ _ (read_path_calm _ _ _ Hc Hx))).
  rewrite act_bind_gets, bin_path_sha. set (h := sha256 (bytes_of x)) in *. cbn [act_when].
  assert (∀ w1 y, calm_disk w1 → roomy 1 w1 → cache_ok (fs w1) → bin_at (fs w1) h = Some y →
    ∃ info w', (mret () ≫= λ _ : (), add_sidecar h (resolve_source src) (show_path (resolve_source src)) (Some n) descr) w1 =
      (Ok info, w') ∧ calm_disk w') as Hend by (intros; by eapply add_sidecar_total; eauto).
  fold (bin_at (fs w) h). destruct (bin_at (fs w) h) as [y|] eqn:Hb.
  { rewrite bool_decide_true by eauto. cbn [negb andb act_when]. rewrite act_bind_ret.
    apply (Hend w y); [done|split; [destruct Hroom; lia|by apply Hroom]|done..]. }
  rewrite (bool_decide_false (is_Some None)) by (by intros []). rewrite bool_decide_true.
  2: { intros Heq. unfold bin_at in Hb. rewrite <-Heq, Hx in Hb. done. }
  destruct (atomic_materialize_roomy 1 (None, h +:+ ".bin") (FBytes (bytes_of x)) w) as (w1 & Hw1 & Hf1 & Hc1 & Hr1);
    [done|done|apply partial_bin|].
  assert (atomic_copy (resolve_source src) (None, h +:+ ".bin") w = (Ok (), w1)) as Hcp
    by (unfold atomic_copy; by rewrite (act_bind_Ok _ _ _ _ _ (read_path_calm _ _ _ Hc Hx))).
  cbn [negb andb act_when]. rewrite (act_bind_Ok _ _ _ _ _ Hcp). apply (Hend w1 (FBytes (bytes_of x))); [done..| |].
  - rewrite Hf1. by apply write_bin_unchanged.
  - unfold bin_at. rewrite Hf1. apply lookup_insert_eq.
Qed.

Lemma full_digest_designates msg info :
  chars (sha256 msg) `prefix_of` chars (sha info) → (∃ msg', sha info = sha256 msg') → sha info = sha256 msg.
Proof.
  intros Hp [msg' Hm]. rewrite Hm in *. apply chars_inj. symmetry. apply prefix_length_eq; [done|].
  by rewrite !sha256_list, !length_sha256_chars.
Qed.

(** Adding a local file under a free, valid name that does not look like a digest
    succeeds, and the entry is then what both the name and the digest resolve to; its
    file holds bytes with the digest of the source. *)
Theorem add_then_resolve src n descr w x :
  cache_ok (fs w) → calm_disk w → roomy 2 w → url_scheme src = false → fs w !! resolve_source src = Some x →
  validate_name n = Ok () → HEX_PAT n = false →
  (∀ h info, view (fs w) h = Some info → n ∈ names info → h = sha256 (bytes_of x)) →
  ∃ info w' y, add src (Some n) descr w = (Ok info, w') ∧ sha info = sha256 (bytes_of x) ∧
    resolve n w' = (Ok info, w') ∧ resolve (sha info) w' = (Ok info, w') ∧
    fs w' !! (None, sha info +:+ ".bin") = Some y ∧ sha256 (bytes_of y) = sha256 (bytes_of x).
Proof.
  intros Hok Hc Hroom Hurl Hx Hn Hhex Hfree.
  destruct (add_total src n descr w x) as (info & w' & Hadd & Hc'); [done..|].
  pose proof (safe_add _ _ _ _ _ _ Hok Hadd) as Hok'.
  assert (n ≠ "") as Hne by (by apply validate_name_component in Hn as (_ & _ & _ & ?)).
  apply add_spec in Hadd as HS; [|done]. destruct HS as [[_ [e [=]]]|(d & sz & at_ & o & Hd & [[[= Hi] Hch]|[[e [=]] _]])].
  destruct (Hd Hurl) as (x' & Hx' & ->). rewrite Hx in Hx'. injection Hx' as <-. clear Hd.
  set (h := sha256 (bytes_of x)) in *. rewrite <-Hi in Hch. destruct (Hch Hok) as [_ Hv].
  assert (view (fs w') h = Some info) as Hvh by (rewrite Hv; unfold upd; by rewrite decide_True).
  destruct (view_Some _ _ _ Hok' Hvh) as (Hsh & [y Hy] & _).
  assert (n ∈ names info) as Hnin.
  { rewrite Hi. unfold entry_after, fresh_entry. destruct (view (fs w) h) as [old|]; [case_decide as Hdec|]; cbn.
    - apply elem_of_app. right. by left.
    - apply dec_stable. naive_solver.
    - rewrite decide_False by done. by left. }
  exists info, w', y. split_and!; [done|done| | |by rewrite Hsh|by apply (ok_bin _ Hok')].
  - destruct (resolve_exact n w') as (r & Hr & _ & Huniq & _); [done..|]. rewrite Hr. f_equal.
    unfold designates in Huniq. rewrite Hhex in Huniq. apply Huniq; [by rewrite Hsh|done|].
    intros info' Hv' Hn'. assert (sha info' = h) as Hh'.
    { rewrite Hv in Hv'. unfold upd in Hv'. case_decide; [done|by eapply Hfree]. }
    rewrite Hh', Hvh in Hv'. by injection Hv'.
  - destruct (resolve_exact (sha info) w') as (r & Hr & _ & Huniq & _); [done|done| |].
    { rewrite Hsh. intros H0. assert (length (chars h) = 0) as Hl by (by rewrite H0).
      unfold h in Hl. by rewrite sha256_list, length_sha256_chars in Hl. }
    rewrite Hr. f_equal. unfold designates in Huniq. rewrite Hsh in *. unfold h in *. rewrite HEX_PAT_sha in Huniq.
    apply Huniq; rewrite ?Hsh; [done|done|]. intros info' Hv' Hp.
    assert (sha info' = sha256 (bytes_of x)) as Hh'.
    { apply full_digest_designates; [done|]. by destruct (view_Some _ _ _ Hok' Hv') as (_ & _ & ? & _). }
    rewrite Hh', Hvh in Hv'. by injection Hv'.
Qed.
End Lookup.
