(* ===== verification/CacheMirror.v ===== *)
(** * The HTTP tier is a best-effort mirror

    Whatever the server does, [add], [delete], [add_name] and [forget_name] of the
    manager give the local operation's outcome and the local operation's directory. *)

From S2P Require Import Prelude Exceptions Eff PyBytes Ledger CacheDisk Sha256 CacheNames LocalCache HttpCache CacheFrame CacheSpec CacheOps CacheClaims.
From stdpp Require Import options.

(** ** Parsing raises only [Exception]s *)

Lemma tame_foldM {S A} (f : S → A → res S) s l : (∀ s x, tame_res (f s x)) → tame_res (foldM f s l).
Proof.
  intros Hf. revert s. induction l as [|x l IH]; intros s; cbn; [apply tame_ok|]. by apply tame_bind.
Qed.
#[export] Hint Resolve tame_foldM : tame.

Lemma tame_names_of o : tame_res (names_of o).
Proof. unfold names_of. repeat case_match; eauto with tame. Qed.
Lemma tame_validate_name n : tame_res (validate_name n).
Proof. unfold validate_name. eauto with tame. Qed.
#[export] Hint Resolve tame_names_of tame_validate_name : tame.

Lemma tame_info_from_json j : tame_res (info_from_json j).
Proof.
  unfold info_from_json.
  repeat first [progress intros | apply tame_bind | solve [eauto 4 with tame]
    | match goal with |- tame_res (match ?x with _ => _ end) => destruct x end].
Qed.

Section Mirror.
Context {R : Type} {HT : Http R} {PE : PyEnv}.
Context (base_url : string) (inst http : bool).
Implicit Types (w : CWorld R).

(** ** What the mirror raises, it may swallow, unless the process died *)

Definition mortal {A} (m : act (CWorld R) A) : Prop :=
  ∀ w e w', m w = (Raise e, w') → is_exception e = true ∨ exn_class e = Killed.

Lemma mortal_lift {A} (r : res A) : tame_res r → mortal (lift r).
Proof. intros Hr w e w' [= -> _]. left. by apply Hr. Qed.
Lemma mortal_ret {A} (a : A) : mortal (mret a).
Proof. by intros w e w'. Qed.
Lemma mortal_gets {A} (f : CWorld R → A) : mortal (gets f).
Proof. by intros w e w'. Qed.
Lemma mortal_throw {A} c args :
  bool_decide (c ∈ [KeyboardInterrupt; OutOfFuel; Killed]) = false → mortal (throw (A := A) c args).
Proof. intros Hc. by apply mortal_lift, tame_raise. Qed.
Lemma mortal_throw_when b c args :
  bool_decide (c ∈ [KeyboardInterrupt; OutOfFuel; Killed]) = false → mortal (throw_when b c args).
Proof. intros Hc. by apply mortal_lift, tame_raise_if. Qed.
Lemma mortal_bind {A C} (m : act (CWorld R) A) (k : A → act (CWorld R) C) :
  mortal m → (∀ a, mortal (k a)) → mortal (m ≫= k).
Proof. intros Hm Hk w e w' [(a & w1 & _ & H)|(e' & H & [= ->])]%act_bind_inv; [by eapply Hk|by eapply Hm]. Qed.
Lemma mortal_when b m : mortal m → mortal (act_when b m).
Proof. destruct b; [done|]. intros _. apply mortal_ret. Qed.
Lemma mortal_catch {A} (m : act (CWorld R) A) p h : mortal m → (∀ e, mortal (h e)) → mortal (catch m p h).
Proof.
  intros Hm Hh w e w'. unfold catch. destruct (m w) as [[a|e1] w1] eqn:E; [done|]. destruct (p e1).
  - by apply Hh.
  - intros [= -> ->]. by eapply Hm.
Qed.
Lemma mortal_forA {A} (f : A → act (CWorld R) ()) l : (∀ x, mortal (f x)) → mortal (forA f l).
Proof.
  intros Hf. unfold forA. generalize (). induction l as [|x l IH]; intros s; cbn [foldA]; [apply mortal_ret|].
  apply mortal_bind; [apply Hf|intros []; apply IH].
Qed.
Lemma mortal_sys : mortal sys.
Proof.
  intros w e w'. unfold sys, sys_torn. destruct (alive w); [|intros [= <- _]; by right].
  destruct (sched w) as [|[| |] s]; intros [= <- _]; [by left|by right].
Qed.
Lemma mortal_call {A} (f : R → option A * R) : mortal (call_remote f).
Proof.
  intros w e w'. unfold call_remote. destruct (alive w), (f (remote w)); [done|]. intros [= <- _]. by right.
Qed.

Hint Resolve mortal_lift mortal_ret mortal_gets mortal_throw mortal_throw_when mortal_sys mortal_call
  tame_validate_name tame_info_from_json : mortal.

Ltac mortal_tac :=
  repeat first
    [ progress intros | solve [eauto 2 with mortal]
    | apply mortal_bind | apply mortal_catch | apply mortal_when | apply mortal_forA
    | apply mortal_throw; reflexivity | apply mortal_throw_when; reflexivity
    | match goal with |- mortal (match ?x with _ => _ end) => destruct x end ].

Lemma mortal_read p : mortal (read_path p).
Proof. unfold read_path. mortal_tac. Qed.
Lemma mortal_http_get p : mortal (http_get_path base_url inst p).
Proof. unfold http_get_path, import_requests, request. mortal_tac. Qed.
Lemma mortal_http_put p d : mortal (http_put_path base_url inst p d).
Proof. unfold http_put_path, import_requests, request. mortal_tac. Qed.
Lemma mortal_http_delete p : mortal (http_delete_path base_url inst p).
Proof. unfold http_delete_path, import_requests, request. mortal_tac. Qed.
Hint Resolve mortal_read mortal_http_get mortal_http_put mortal_http_delete : mortal.
Lemma mortal_resolve_name n : mortal (resolve_name base_url inst n).
Proof. unfold resolve_name. mortal_tac. Qed.
Lemma mortal_http_read_sidecar n : mortal (http_read_sidecar base_url inst n).
Proof. unfold http_read_sidecar. mortal_tac. Qed.
Hint Resolve mortal_resolve_name mortal_http_read_sidecar : mortal.
Lemma mortal_put_name n d : mortal (put_name base_url inst n d).
Proof. unfold put_name, raise_for_put. mortal_tac. Qed.
Lemma mortal_put_sidecar n d : mortal (put_sidecar base_url inst n d).
Proof. unfold put_sidecar, raise_for_put. mortal_tac. Qed.
Lemma mortal_delete_quiet p : mortal (delete_quiet base_url inst p).
Proof. unfold delete_quiet. mortal_tac. Qed.
Hint Resolve mortal_put_name mortal_put_sidecar mortal_delete_quiet : mortal.
Lemma mortal_push info p : mortal (push base_url inst info p).
Proof. unfold push, stat_size, raise_for_put. mortal_tac. Qed.
Lemma mortal_http_delete_entry info : mortal (http_delete_entry base_url inst info).
Proof. unfold http_delete_entry. mortal_tac. Qed.
Lemma mortal_http_add_name d n : mortal (http_add_name base_url inst d n).
Proof. unfold http_add_name. mortal_tac. Qed.
Lemma mortal_http_forget_name n : mortal (http_forget_name base_url inst n).
Proof. unfold http_forget_name. mortal_tac. Qed.

(** A swallowed mirror step returns without touching a file, or the process died. *)
Lemma swallow_spec m w :
  silent m → mortal m →
  ∃ w', fs w' = fs w ∧
    (swallow m w = (Ok (), w') ∨ ∃ e, exn_class e = Killed ∧ swallow m w = (Raise e, w')).
Proof.
  intros Hs Hm. unfold swallow, catch. destruct (m w) as [[[]|e] w'] eqn:E; exists w';
    (split; [by eapply Hs|]); [by left|].
  destruct (is_exception e) eqn:He; [by left|]. destruct (Hm _ _ _ E); [congruence|eauto].
Qed.

Lemma after_mirror {A} (m : act (CWorld R) ()) (a : A) w :
  silent m → mortal m →
  ∃ w', fs w' = fs w ∧
    ((act_when http (swallow m);; mret a) w = (Ok a, w') ∨
     ∃ e, exn_class e = Killed ∧ (act_when http (swallow m);; mret a) w = (Raise e, w')).
Proof.
  intros Hs Hm. destruct http; cbn [act_when]; [|exists w; split; [done|by left]].
  destruct (swallow_spec m w Hs Hm) as (w' & Hf & [H|(e & He & H)]); exists w'; (split; [done|]).
  - left. by rewrite (act_bind_Ok _ _ _ _ _ H).
  - right. exists e. split; [done|]. by rewrite (act_bind_Raise _ _ _ _ _ H).
Qed.

(** ** The mirrored operations *)

Inductive mirrored : Type :=
  | MAdd (src : string) (name descr : option string)
  | MDelete (identifier : string)
  | MAddName (identifier new_name : string)
  | MForgetName (name : string).

Definition local_op (q : mirrored) : act (CWorld R) CacheEntryInfo :=
  match q with
  | MAdd s n d => add s n d
  | MDelete i => local_delete i
  | MAddName i n => add_name i n
  | MForgetName n => forget_name n
  end.

Definition manager_op (q : mirrored) : act (CWorld R) CacheEntryInfo :=
  match q with
  | MAdd s n d => manager_add base_url inst http s n d
  | MDelete i => manager_delete base_url inst http i
  | MAddName i n => manager_add_name base_url inst http i n
  | MForgetName n => manager_forget_name base_url inst http n
  end.

(** An entry [add] returns has its path. *)
Lemma add_has_path src name descr w info w' :
  cache_ok (fs w) → add src name descr w = (Ok info, w') → ∃ p, info_path info = Some p.
Proof.
  intros Hok H. pose proof (safe_add _ _ _ _ _ _ Hok H) as Hok'.
  apply add_spec in H as [[_ [e [=]]]|(d & sz & at_ & o & _ & [[[= Hi] Hc]|[[e [=]] _]])]; [|done].
  destruct (Hc Hok) as [_ Hv]. rewrite <-Hi in Hv.
  assert (view (fs w') (sha256 d) = Some info) as Hvh by (rewrite Hv; unfold upd; by rewrite decide_True).
  destruct (view_Some _ _ _ Hok' Hvh) as (_ & _ & _ & Hp). eauto.
Qed.

(** C36: the server cannot make a local operation fail or change its effect: when the
    local operation raises, so does the manager's, the same; when it returns an entry,
    the manager's returns that entry with the same files on disk, unless the process
    is killed in between. *)
Theorem mirror_best_effort q w :
  cache_ok (fs w) →
  match local_op q w with
  | (Raise e, w1) => manager_op q w = (Raise e, w1)
  | (Ok info, w1) => ∃ w2, fs w2 = fs w1 ∧
      (manager_op q w = (Ok info, w2) ∨ ∃ e, exn_class e = Killed ∧ manager_op q w = (Raise e, w2))
  end.
Proof.
  intros Hok. destruct (local_op q w) as [[info|e] w1] eqn:E; destruct q; cbn [local_op manager_op] in *;
    unfold manager_add, manager_delete, manager_add_name, manager_forget_name;
    rewrite ?(act_bind_Ok _ _ _ _ _ E), ?(act_bind_Raise _ _ _ _ _ E); try done.
  - destruct (add_has_path _ _ _ _ _ _ Hok E) as [p Hp]. unfold the_path. rewrite Hp.
    apply after_mirror; [apply silent_push|apply mortal_push].
  - apply after_mirror; [apply silent_http_delete_entry|apply mortal_http_delete_entry].
  - apply after_mirror; [apply silent_http_add_name|apply mortal_http_add_name].
  - apply after_mirror; [apply silent_http_forget_name|apply mortal_http_forget_name].
Qed.
End Mirror.

(** ** A cache at work

    A small server (a map from URLs to files) and a host with two files: the theorems
    of the cache applied to concrete runs, and what the code does in four corner cases. *)

Module CacheDemo.

Definition server : Type := gmap string (file * bool).

Definition found (x : file) (cut : bool) : response :=
  match x with
  | FBytes d => MkResponse 200 (N_of_ascii <$> d) None [d] cut
  | FJson j => MkResponse 200 (u "{}") (Some j) [] cut
  end.
Definition status (n : Z) : response := MkResponse n [] None [] false.

(** A stored file may be marked to break off while it is sent. *)
Definition serve (url : string) (r : server) : option response * server :=
  (Some match r !! url with Some (x, cut) => found x cut | None => status 404 end, r).

#[local] Instance demo_http : Http server := {
  http_get := serve;
  http_put := λ url x r, (Some (status 201), <[url := (x, false)]> r);
  http_delete := λ url r, (Some (status 204), delete url r);
  url_open := λ url r, (None, r);
}.

#[local] Instance demo_env : PyEnv := {
  json_text := λ _, b "{}";
  json_loads := λ _, raise JSONDecodeError [];
  resolve_source := λ s, (Some "host", s);
  show_path := λ p, p.2;
  resolve_dir := λ _, Some "elsewhere";
}.

Definition host : gmap path file :=
  <[(Some "host", "debian.iso") := FBytes (b "debian")]> (<[(Some "host", "alpine.iso") := FBytes (b "alpine")]> ∅).

Definition world0 (r : server) (s : list fault) : CWorld server :=
  MkCWorld host true s ["a"; "b"; "c"; "d"; "e"; "f"; "g"; "h"] "2026-01-01T00:00:00Z" r.

Lemma host_ok : cache_ok host.
Proof.
  split.
  - intros h x H. unfold bin_at, host in H. rewrite !lookup_insert_ne in H by done. by rewrite lookup_empty in H.
  - intros h x H. unfold side_at, host in H. rewrite !lookup_insert_ne in H by done. by rewrite lookup_empty in H.
Qed.

Lemma host_view h : view host h = None.
Proof. unfold view, side_at, host. by rewrite !lookup_insert_ne, lookup_empty by done. Qed.

Abbreviation url := "https://cache".

(** ** Witnesses *)

Lemma cache_invariant_witness :
  cache_ok host ∧
  cache_ok (fs (session url true true
    [OpAdd "debian.iso" (Some "debian-13") None; OpAdd "alpine.iso" None None; OpDelete "debian-13"; OpPurge]
    (world0 ∅ [Fine; Fine; Fine; Fine; Fine; Fails 3; Fine; Fine; Fine; Dies 2]))).
Proof. split; [apply host_ok|]. apply cache_invariant. apply host_ok. Defined.

Lemma add_all_or_nothing_witness :
  let w := world0 ∅ [Fine; Fine; Fine; Fine; Fine; Fine; Dies 2] in
  let h := sha256 (b "debian") in
  let '(r, w') := manager_add url true true "debian.iso" (Some "debian-13") None w in
  url_scheme "debian.iso" = false ∧ fs w !! resolve_source "debian.iso" = Some (FBytes (b "debian")) ∧
  ((∃ e, r = Raise e ∧ ∀ k, view (fs w') k = view (fs w) k) ∨
   (∃ sz at_ o,
     let y := entry_after (view (fs w) h) (fresh_entry h sz at_ o (Some "debian-13") None) (Some "debian-13") None in
     (∀ k, view (fs w') k = upd (view (fs w)) h (Some y) k) ∧ (r = Ok y ∨ ∃ e, r = Raise e))).
Proof.
  intros w h. destruct (manager_add _ _ _ _ _ _ w) as [r w'] eqn:E. split; [done|]. split; [reflexivity|].
  apply (add_all_or_nothing url true true "debian.iso" (Some "debian-13") None w r w' (FBytes (b "debian")));
    [apply host_ok|reflexivity|reflexivity|exact E].
Defined.

Lemma delete_all_or_nothing_witness :
  let '(r, w') := manager_delete url true true "debian-13" (world0 ∅ []) in
  cache_ok host ∧ cache_ok (fs w').
Proof.
  destruct (manager_delete _ _ _ _ _) as [r w'] eqn:E. split; [apply host_ok|].
  apply (delete_all_or_nothing url true true "debian-13" (world0 ∅ []) r w' host_ok E).
Defined.

(** The server's copy of [debian.iso], under its name. *)
Definition stocked : server :=
  let h := sha256 (b "debian") in
  <["https://cache/names/debian-13" := (FBytes (b h), false)]>
  (<["https://cache/isos/" +:+ h +:+ ".json" :=
      (FJson (sidecar_body (MkInfo h 6 ["debian-13"] None "" None None)), false)]>
  (<["https://cache/isos/" +:+ h +:+ ".bin" := (FBytes (b "debian"), false)]> ∅)).

Lemma resolve_verified_witness :
  ∃ info w' x, manager_resolve url true true "debian-13" true (world0 stocked []) = (Ok info, w') ∧
    fs w' !! (None, sha info +:+ ".bin") = Some x ∧ sha256 (bytes_of x) = sha info.
Proof.
  assert (is_ok (manager_resolve url true true "debian-13" true (world0 stocked [])).1 = true) as Hok
    by (vm_compute; reflexivity).
  destruct (manager_resolve url true true "debian-13" true (world0 stocked [])) as [[info|e] w'] eqn:E.
  - destruct (resolve_verified url true true "debian-13" (world0 stocked []) info w' host_ok E) as (x & _ & Hx & Hs & _).
    exists info, w', x. split; [reflexivity|]. split; [exact Hx|exact Hs].
  - discriminate Hok.
Defined.

Lemma resolve_exact_witness :
  ∃ r, resolve "debian-13" (world0 ∅ []) = (r, world0 ∅ []) ∧ r = raise CacheMissError ["debian-13"].
Proof.
  destruct (resolve_exact "debian-13" (world0 ∅ [])) as (r & Hr & _ & _ & Hmiss & _); [apply host_ok|done|done|].
  exists r. split; [done|]. apply Hmiss. intros info H. exfalso. cbn [fs world0] in H. rewrite host_view in H. discriminate H.
Defined.

Lemma host_roomy : roomy 2 (world0 ∅ []).
Proof.
  split; [cbn; lia|]. intros d c Hc. unfold temp_name. cbn [fs world0]. unfold host.
  cbn [tries world0] in Hc.
  rewrite !lookup_insert_ne; [apply lookup_empty|intros [= _ H]..];
    repeat (apply elem_of_cons in Hc as [->|Hc]; [discriminate H|]); by apply not_elem_of_nil in Hc.
Qed.

Lemma add_then_resolve_witness :
  ∃ info w', add "debian.iso" (Some "debian-13") None (world0 ∅ []) = (Ok info, w') ∧
    resolve "debian-13" w' = (Ok info, w') ∧ resolve (sha info) w' = (Ok info, w').
Proof.
  destruct (add_then_resolve "debian.iso" "debian-13" None (world0 ∅ []) (FBytes (b "debian")))
    as (info & w' & y & H1 & _ & H2 & H3 & _).
  - apply host_ok.
  - done.
  - apply host_roomy.
  - reflexivity.
  - reflexivity.
  - vm_compute. reflexivity.
  - vm_compute. reflexivity.
  - intros h info Hv. cbn [fs world0] in Hv. rewrite host_view in Hv. discriminate Hv.
  - exists info, w'. split; [exact H1|]. split; [exact H2|exact H3].
Defined.

Lemma mirror_best_effort_witness :
  let q := MAdd "debian.iso" (Some "debian-13") None in
  match local_op q (world0 ∅ []) with
  | (Raise e, w1) => manager_op url false true q (world0 ∅ []) = (Raise e, w1)
  | (Ok info, w1) => ∃ w2, fs w2 = fs w1 ∧
      (manager_op url false true q (world0 ∅ []) = (Ok info, w2) ∨
       ∃ e, exn_class e = Killed ∧ manager_op url false true q (world0 ∅ []) = (Raise e, w2))
  end.
Proof. apply (mirror_best_effort url false true). apply host_ok. Defined.

(** ** Corner cases of the code *)

(** Two additions under one name both succeed, and the name still resolves to the
    first: the smaller digest wins, not the later addition. *)
Lemma duplicate_name_accepted :
  let '(r1, w1) := add "alpine.iso" (Some "base") None (world0 ∅ []) in
  let '(r2, w2) := add "debian.iso" (Some "base") None w1 in
  let '(r3, _) := resolve "base" w2 in
  (sha <$> r1, sha <$> r2, sha <$> r3) =
    (Ok (sha256 (b "alpine")), Ok (sha256 (b "debian")), Ok (sha256 (b "alpine"))).
Proof. vm_compute. reflexivity. Qed.

(** A valid name that looks like a digest prefix can be added but not looked up. *)
Lemma hex_name_not_found :
  let '(r1, w1) := add "debian.iso" (Some "deadbeefdeadbeef") None (world0 ∅ []) in
  is_ok r1 = true ∧ (resolve "deadbeefdeadbeef" w1).1 = raise CacheMissError ["deadbeefdeadbeef"].
Proof. vm_compute. done. Qed.

(** A server whose sidecar for one digest names another: asking for the first
    digest returns the other one's bytes. *)
Definition lying : server :=
  let h := sha256 (b "debian") in
  let h' := sha256 (b "alpine") in
  <["https://cache/isos/" +:+ h +:+ ".json" := (FJson (sidecar_body (MkInfo h' 6 [] None "" None None)), false)]>
  (<["https://cache/isos/" +:+ h' +:+ ".bin" := (FBytes (b "alpine"), false)]> ∅).

Lemma swapped_payload_accepted :
  sha <$> (manager_resolve url true true (sha256 (b "debian")) true (world0 lying [])).1 = Ok (sha256 (b "alpine")).
Proof. vm_compute. reflexivity. Qed.

(** A connection that breaks during the download escapes as a raw
    [RequestException], which is not a [CacheError]. *)
Definition cut_off : server :=
  let h := sha256 (b "debian") in <["https://cache/isos/" +:+ h +:+ ".bin" := (FBytes (b "deb"), true)]> stocked.

Lemma broken_stream_escapes :
  ∃ args, (manager_resolve url true true "debian-13" true (world0 cut_off [])).1 = raise RequestException args ∧
    isinstance (Exn RequestException args) CacheError = false.
Proof. eexists. split; [vm_compute; reflexivity|reflexivity]. Qed.
End CacheDemo.
