(* ===== verification/Store.v ===== *)
(** * The world the orchestrator acts on

    The state root on disk (one directory per run), the clock, the process id, the backend
    behind the driver and the order in which durable effects happened.

    - Files are kept by name; a JSON text is the value it denotes, [Torn] is the
      text an interrupted write leaves.
    - [holder] is the open file description holding the [flock] on the run's
      [state.lock] (each [StateStore] opens its own).
    - [faults] decides, one bit per system call, whether that call fails with
      [OSError]; an exhausted list means no more failures.
    - [trace] is ghost: the replacements of [state.json] and the driver calls,
      in order. *)

From S2P Require Import Prelude Exceptions Eff Ledger.
From stdpp Require Import pretty.
From stdpp Require Import options.

Inductive content : Type :=
  | Doc (j : json)
  | Text (s : string)
  | Torn.

Record RunDir : Type := MkRunDir {
  files : gmap string content;
  holder : option nat;
}.

(** What a driver call does, as far as the ledger is concerned. *)
Inductive call : Type :=
  | CConnect
  | CDisconnect
  | CCreate (kind name : string)
  | CDestroy (kind name : string) (ok : bool)
  | CUse (op name : string).

Inductive event : Type :=
  | EvState (run : string) (s : json)
  | EvGone (run : string)
  | EvCall (c : call).

Record World (B : Type) : Type := MkWorld {
  run_dirs : gmap string RunDir;
  faults : list bool;
  now : string;
  getpid : nat;
  backend : B;
  trace : list event;
}.
Arguments MkWorld {B} _ _ _ _ _ _.
Arguments run_dirs {B} _.
Arguments faults {B} _.
Arguments now {B} _.
Arguments getpid {B} _.
Arguments backend {B} _.
Arguments trace {B} _.

Section World.
Context {B : Type}.
Implicit Types (w : World B).

Definition set_run_dirs (d : gmap string RunDir) w : World B :=
  MkWorld d (faults w) (now w) (getpid w) (backend w) (trace w).
Definition set_faults (f : list bool) w : World B :=
  MkWorld (run_dirs w) f (now w) (getpid w) (backend w) (trace w).
Definition set_backend (b : B) w : World B :=
  MkWorld (run_dirs w) (faults w) (now w) (getpid w) b (trace w).
Definition emit (e : event) w : World B :=
  MkWorld (run_dirs w) (faults w) (now w) (getpid w) (backend w) (trace w ++ [e]).

(** One system call: it fails if the environment says so. *)
Definition syscall : act (World B) () := λ w,
  match faults w with
  | [] => (Ok (), w)
  | f :: fs => (if f then raise OSError [] else Ok (), set_faults fs w)
  end.

Definition run_dir (d : string) : act (World B) RunDir := λ w,
  match run_dirs w !! d with
  | Some r => (Ok r, w)
  | None => (raise OSError [d], w)
  end.

Definition put_dir (d : string) (r : RunDir) : act (World B) () :=
  modify (λ w, set_run_dirs (<[d := r]> (run_dirs w)) w).

Definition set_file (d name : string) (c : content) : act (World B) () :=
  r ← run_dir d;
  put_dir d (MkRunDir (<[name := c]> (files r)) (holder r)).

(** [path.exists()] *)
Definition file_exists (d name : string) : act (World B) bool :=
  gets (λ w, bool_decide (is_Some (run_dirs w !! d ≫= λ r, files r !! name))).

(** [path.is_dir()] of the run directory *)
Definition dir_exists (d : string) : act (World B) bool :=
  gets (λ w, bool_decide (is_Some (run_dirs w !! d))).

(** [mkdir(parents=True, exist_ok=True)] *)
Definition mkdir (d : string) : act (World B) () :=
  syscall;;
  modify (λ w, match run_dirs w !! d with
    | Some _ => w
    | None => set_run_dirs (<[d := MkRunDir ∅ None]> (run_dirs w)) w
    end).

Definition read_file (d name : string) : act (World B) content :=
  syscall;;
  r ← run_dir d;
  match files r !! name with
  | Some c => mret c
  | None => throw OSError [name]
  end.

(** [path.write_text(...)]: a failing write may leave a torn file. *)
Definition write_file (d name : string) (c : content) : act (World B) () :=
  run_dir d;;
  catch syscall (λ _, true) (λ e, set_file d name Torn;; lift (Raise e));;
  set_file d name c.

(** [tmp.replace(dest)] is atomic: it happens or it does not. *)
Definition replace_file (d tmp dest : string) : act (World B) () :=
  syscall;;
  r ← run_dir d;
  match files r !! tmp with
  | Some c =>
      put_dir d (MkRunDir (<[dest := c]> (delete tmp (files r))) (holder r));;
      match c, decide (dest = "state.json") with
      | Doc j, left _ => modify (emit (EvState d j))
      | _, _ => mret ()
      end
  | None => throw OSError [tmp]
  end.

(** [path.unlink(missing_ok=True)] *)
Definition unlink (d name : string) : act (World B) () :=
  syscall;;
  ro ← gets (λ w, run_dirs w !! d);
  match ro with
  | None => mret ()
  | Some r =>
      put_dir d (MkRunDir (delete name (files r)) (holder r));;
      act_when (bool_decide (name = "state.json" ∧ is_Some (files r !! name)))
        (modify (emit (EvGone d)))
  end.

(** [path.rmdir()] refuses a non-empty directory. *)
Definition rmdir (d : string) : act (World B) () :=
  syscall;;
  r ← run_dir d;
  if decide (files r = ∅) then modify (λ w, set_run_dirs (delete d (run_dirs w)) w)
  else throw OSError [d].

(** [utils/fsutil.py]: fsync the data, rename, fsync the directory. *)
Definition durable_replace (d tmp dest : string) : act (World B) () :=
  syscall;;
  replace_file d tmp dest;;
  syscall.

(** The effect of the owner dying at this point: the kernel drops its lock;
    the files stay as they are. *)
Definition crash (self : nat) (w : World B) : World B :=
  set_run_dirs ((λ r, MkRunDir (files r)
    (if decide (holder r = Some self) then None else holder r)) <$> run_dirs w) w.
End World.

(** ** The state store ([testrange/state/store.py])

    Ownership of a run through the advisory lock, and the read-modify-write
    operations on [state.json].  The in-process [_rmw_lock] makes each of them
    one step for the other threads; [RmwLock] justifies that view. *)

(** A [StateStore] instance: its run directory and its open-file identity.
    [_lock_fd is not None] is [holder = Some (st_self self)]. *)
Record StateStore : Type := MkStore { st_run : string; st_self : nat }.

Definition state_json : string := "state.json".
Definition state_json_partial : string := "state.json.partial".
Definition state_pid : string := "state.pid".
Definition state_pid_partial : string := "state.pid.partial".
Definition state_lock : string := "state.lock".

Section Store.
Context {B : Type}.
Implicit Types (self : StateStore).

(** ** The advisory lock *)

(** [os.open(lock_path, O_CREAT | O_RDWR)] *)
Definition open_lock (self : StateStore) : act (World B) RunDir :=
  syscall;;
  r ← run_dir (st_run self);
  let r' := MkRunDir (<[state_lock := default (Text "") (files r !! state_lock)]> (files r)) (holder r) in
  put_dir (st_run self) r';;
  mret r'.

Definition set_holder (self : StateStore) (h : option nat) : act (World B) () :=
  r ← run_dir (st_run self);
  put_dir (st_run self) (MkRunDir (files r) h).

Definition holds_lock (self : StateStore) : act (World B) bool :=
  gets (λ w, bool_decide ((run_dirs w !! st_run self ≫= holder) = Some (st_self self))).

(** [_acquire_lock] *)
Definition acquire_lock (self : StateStore) : act (World B) () :=
  held ← holds_lock self;
  act_when (negb held) (
    r ← open_lock self;
    throw_when (bool_decide (is_Some (holder r))) StateLockedError [st_run self];;
    set_holder self (Some (st_self self))).

(** [_release_lock] *)
Definition release_lock (self : StateStore) : act (World B) () :=
  held ← holds_lock self;
  act_when held (set_holder self None).

(** Probes the lock through a descriptor of its own. *)
Definition is_running (self : StateStore) : act (World B) bool :=
  r ← open_lock self;
  mret (bool_decide (is_Some (holder r))).

Definition require_dead (self : StateStore) : act (World B) () :=
  running ← is_running self;
  throw_when running StateLockedError [st_run self].

(** ** Files *)

Definition store_exists (self : StateStore) : act (World B) bool :=
  file_exists (st_run self) state_json.

Definition store_read (self : StateStore) : act (World B) State :=
  ex ← store_exists self;
  throw_when (negb ex) StateError ["no state"];;
  c ← read_file (st_run self) state_json;
  match c with
  | Doc j => lift (state_from_json j)
  | Text _ | Torn => throw StateError ["corrupt state.json"]
  end.

(** [_write_state_atomic] *)
Definition write_state_atomic (self : StateStore) (s : State) : act (World B) () :=
  write_file (st_run self) state_json_partial (Doc (state_to_json s));;
  durable_replace (st_run self) state_json_partial state_json.

(** [_write_pid_atomic] *)
Definition write_pid_atomic (self : StateStore) (pid : nat) : act (World B) () :=
  write_file (st_run self) state_pid_partial (Text (pretty pid +:+ String "010" ""));;
  replace_file (st_run self) state_pid_partial state_pid.

(** ** Lifecycle *)

Definition initialize (self : StateStore) (rid plan dclass duri : string) : act (World B) State :=
  mkdir (st_run self);;
  ex ← store_exists self;
  throw_when ex StateError ["state already exists"];;
  t ← gets now;
  let s := MkState SCHEMA_VERSION rid plan dclass duri PHASE_PREFLIGHT t [] [] in
  acquire_lock self;;
  pid ← gets getpid;
  write_pid_atomic self pid;;
  write_state_atomic self s;;
  mret s.

Definition reopen (self : StateStore) : act (World B) State :=
  ex ← store_exists self;
  throw_when (negb ex) StateError ["no state to resume"];;
  require_dead self;;
  acquire_lock self;;
  pid ← gets getpid;
  write_pid_atomic self pid;;
  store_read self.

Definition release (self : StateStore) : act (World B) () :=
  release_lock self;;
  unlink (st_run self) state_pid.

Definition remove (self : StateStore) : act (World B) () :=
  release_lock self;;
  ex ← store_exists self;
  act_when ex (unlink (st_run self) state_json);;
  unlink (st_run self) state_pid;;
  unlink (st_run self) state_lock;;
  unlink (st_run self) state_json_partial;;
  unlink (st_run self) state_pid_partial;;
  catch (rmdir (st_run self)) (λ e, isinstance e OSError) (λ _, mret ()).

(** ** Read-modify-write *)

Definition rmw (self : StateStore) (f : State → res State) : act (World B) () :=
  s ← store_read self;
  s' ← lift (f s);
  write_state_atomic self s'.

Definition record_intent (self : StateStore) (kind name : string) (plan : option string)
    (md : gmap string json) : act (World B) Resource :=
  t ← gets now;
  let r := MkResource kind name plan t None md in
  rmw self (λ s, mret (with_resource s r));;
  mret r.

(** The body of [confirm]'s loop: the first matching resource, with its outcome,
    replaces every resource of that name. *)
Definition confirm_state (name t : string) (md : gmap string json) (s : State) : res State :=
  match list_find (λ r, backend_name r = name) (resources s) with
  | Some (_, r) => replace_resource s name (with_outcome r t md)
  | None => raise StateError ["confirm"; name]
  end.

Definition confirm (self : StateStore) (name : string) (md : gmap string json) : act (World B) () :=
  t ← gets now;
  rmw self (confirm_state name t md).

Definition forget (self : StateStore) (name : string) : act (World B) () :=
  rmw self (λ s, mret (remove_resource s name)).

Definition set_phase (self : StateStore) (p : string) : act (World B) () :=
  rmw self (λ s, mret (with_phase p s)).

(** [prior = state.node_record(name) or NodeRecord(name=name)] *)
Definition prior_record (s : State) (name : string) : NodeRecord :=
  default (MkNodeRecord name None None) (node_record s name).

Definition mark_node_materialized (self : StateStore) (name : string) : act (World B) () :=
  t ← gets now;
  rmw self (λ s, let p := prior_record s name in
    mret (with_node_record s (MkNodeRecord (nr_name p) (Some t) (realized_at p)))).

Definition mark_node_realized (self : StateStore) (name : string) : act (World B) () :=
  t ← gets now;
  rmw self (λ s, let p := prior_record s name in
    mret (with_node_record s (MkNodeRecord (nr_name p) (materialized_at p) (Some t)))).
End Store.
