(* ===== verification/StoreSpec.v ===== *)
(** * What the state store guarantees

    Atomic replacement of [state.json] under any failure of a system call, exact
    effect of each read-modify-write on the ledger, ownership by the lock. *)

From S2P Require Import Prelude Exceptions Eff Ledger Store.
From stdpp Require Import options.

Section Spec.
Context {B : Type}.
Implicit Types (self : StateStore) (w : World B) (d n : string).

Definition file_at w d n : option content := run_dirs w !! d ≫= λ r, files r !! n.
Definition holder_at w d : option nat := run_dirs w !! d ≫= holder.

(** The ledger of run [d]: the document [state.json] holds, if it is readable. *)
Definition state_at w d : option State :=
  c ← file_at w d state_json;
  match c with
  | Doc j => match state_from_json j with Ok s => Some s | Raise _ => None end
  | _ => None
  end.

(** [w'] differs from [w] only in the files of run [d], in the system-call
    outcomes consumed and in the trace. *)
Record frame d w w' : Prop := {
  fr_other : ∀ d', d' ≠ d → run_dirs w' !! d' = run_dirs w !! d';
  fr_holder : holder_at w' d = holder_at w d;
  fr_dir : is_Some (run_dirs w' !! d) ↔ is_Some (run_dirs w !! d);
  fr_now : now w' = now w;
  fr_backend : backend w' = backend w;
  fr_faults : faults w' `suffix_of` faults w;
}.

Lemma frame_refl d w : frame d w w.
Proof. split; done. Qed.

Lemma frame_trans d w1 w2 w3 : frame d w1 w2 → frame d w2 w3 → frame d w1 w3.
Proof.
  intros [] []. split; try congruence; try (by etrans). intros d' Hd. by rewrite fr_other1, fr_other0.
Qed.

Lemma syscall_inv w r w' :
  syscall w = (r, w') → run_dirs w' = run_dirs w ∧ now w' = now w ∧ backend w' = backend w ∧
    trace w' = trace w ∧ faults w' `suffix_of` faults w ∧
    (r = Ok () ∨ r = raise OSError [] ∧ true ∈ faults w).
Proof.
  unfold syscall. destruct (faults w) as [|f fs] eqn:F; intros [= <- <-]; cbn.
  - rewrite F. auto 10.
  - split_and!; [done..| |].
    + by exists [f].
    + destruct f; [right|left; done]. split; [done|]. set_solver.
Qed.

Lemma syscall_frame d w r w' : syscall w = (r, w') → frame d w w'.
Proof.
  intros (Hd & Hn & Hb & _ & Hf & _)%syscall_inv.
  split; [intros; by rewrite Hd|unfold holder_at; by rewrite Hd|by rewrite Hd|done..].
Qed.

Lemma file_at_dir w w' d n : run_dirs w' = run_dirs w → file_at w' d n = file_at w d n.
Proof. unfold file_at. by intros ->. Qed.

Lemma set_file_eq d n c w rd :
  run_dirs w !! d = Some rd →
  set_file d n c w =
    (Ok (), set_run_dirs (<[d := MkRunDir (<[n := c]> (files rd)) (holder rd)]> (run_dirs w)) w).
Proof. intros H. unfold set_file, run_dir, mbind, act_bind. by rewrite H. Qed.

Lemma frame_put d w rd rd' :
  run_dirs w !! d = Some rd → holder rd' = holder rd →
  frame d w (set_run_dirs (<[d := rd']> (run_dirs w)) w).
Proof.
  intros Hd Hh. split; cbn; [|..].
  - intros d' Hne. by rewrite lookup_insert_ne.
  - unfold holder_at. cbn. rewrite lookup_insert_eq, Hd. by cbn.
  - rewrite lookup_insert_eq, Hd. naive_solver.
  - done.
  - done.
  - done.
Qed.

Lemma file_at_put d n m c w rd :
  run_dirs w !! d = Some rd →
  file_at (set_run_dirs (<[d := MkRunDir (<[n := c]> (files rd)) (holder rd)]> (run_dirs w)) w) d m =
    if decide (m = n) then Some c else file_at w d m.
Proof.
  intros Hd. unfold file_at. cbn. rewrite lookup_insert_eq, Hd. cbn.
  case_decide; simplify_map_eq; done.
Qed.

Lemma write_file_inv d n c w r w' :
  is_Some (run_dirs w !! d) → write_file d n c w = (r, w') →
  frame d w w' ∧ trace w' = trace w ∧ (∀ m, m ≠ n → file_at w' d m = file_at w d m) ∧
  (r = Ok () ∧ file_at w' d n = Some c ∨ r = raise OSError [] ∧ true ∈ faults w).
Proof.
  intros [rd Hd]. unfold write_file, run_dir. unfold mbind at 1, act_bind at 1. rewrite Hd.
  unfold catch, mbind, act_bind. destruct (syscall w) as [r1 w1] eqn:Hs.
  pose proof (syscall_frame d _ _ _ Hs) as Hf. apply syscall_inv in Hs as (Hrd & _ & _ & Ht & _ & Hr).
  assert (run_dirs w1 !! d = Some rd) as Hd1 by by rewrite Hrd.
  destruct Hr as [->|[-> Hin]]; rewrite (set_file_eq _ _ _ _ _ Hd1); cbn; intros [= <- <-];
    (split_and!; [eapply frame_trans, frame_put; done|done| |]).
  - intros m Hm. rewrite file_at_put, decide_False by done. by apply file_at_dir.
  - left. split; [done|]. by rewrite file_at_put, decide_True.
  - intros m Hm. rewrite file_at_put, decide_False by done. by apply file_at_dir.
  - auto.
Qed.

(** The event a replacement of [dest] by [c] leaves. *)
Definition replace_event d dest (c : content) : list event :=
  match c with
  | Doc j => if decide (dest = "state.json") then [EvState d j] else []
  | _ => []
  end.

Lemma replace_file_inv d a b c w r w' :
  file_at w d a = Some c → a ≠ b → replace_file d a b w = (r, w') →
  frame d w w' ∧ (∀ m, m ≠ a → m ≠ b → file_at w' d m = file_at w d m) ∧
  (r = Ok () ∧ file_at w' d b = Some c ∧ file_at w' d a = None ∧
     trace w' = trace w ++ replace_event d b c ∨
   r = raise OSError [] ∧ true ∈ faults w ∧ trace w' = trace w ∧
     ∀ m, file_at w' d m = file_at w d m).
Proof.
  intros Ha Hab. unfold file_at in Ha. apply bind_Some in Ha as (rd & Hd & Ha).
  unfold replace_file, run_dir. unfold mbind at 1, act_bind at 1.
  destruct (syscall w) as [r1 w1] eqn:Hs.
  pose proof (syscall_frame d _ _ _ Hs) as Hf. apply syscall_inv in Hs as (Hrd & _ & _ & Ht & _ & Hr).
  assert (run_dirs w1 !! d = Some rd) as Hd1 by by rewrite Hrd.
  destruct Hr as [->|[-> Hin]].
  - unfold mbind, act_bind. rewrite Hd1, Ha. cbn.
    set (w2 := set_run_dirs (<[d := MkRunDir (<[b := c]> (delete a (files rd))) (holder rd)]> (run_dirs w1)) w1).
    assert (frame d w w2) as Hf2 by (eapply frame_trans, frame_put; done).
    assert (∀ m, file_at w2 d m = (<[b := c]> (delete a (files rd))) !! m) as Hfile.
    { intros m. unfold file_at. cbn. by rewrite lookup_insert_eq. }
    intros Hfin. assert (r = Ok () ∧ run_dirs w' = run_dirs w2 ∧ frame d w w' ∧
      trace w' = trace w2 ++ replace_event d b c) as (-> & Hrd' & Hf' & Ht').
    { unfold replace_event. destruct c; [destruct (decide _)|..]; cbn in Hfin;
        injection Hfin as <- <-; rewrite ?app_nil_r; split_and!; try done.
      destruct Hf2. by split. }
    split; [done|]. split; [|left; split_and!]; [|done|..].
    + intros m Hma Hmb. rewrite (file_at_dir _ _ _ _ Hrd'), Hfile.
      unfold file_at. rewrite Hd. cbn. by rewrite lookup_insert_ne, lookup_delete_ne.
    + rewrite (file_at_dir _ _ _ _ Hrd'), Hfile. by rewrite lookup_insert_eq.
    + rewrite (file_at_dir _ _ _ _ Hrd'), Hfile. by rewrite lookup_insert_ne, lookup_delete_eq.
    + rewrite Ht'. cbn. by rewrite Ht.
  - intros [= <- <-]. split; [done|]. split; [intros m _ _; by apply file_at_dir|].
    right. split_and!; try done. intros m. by apply file_at_dir.
Qed.

(** ** The ledger under a write *)

Definition ledger_same d w w' : Prop := state_at w' d = state_at w d ∧ trace w' = trace w.
Definition ledger_step d w w' (s : State) : Prop :=
  state_at w' d = Some s ∧ trace w' = trace w ++ [EvState d (state_to_json s)].

(** The files other than the document and its temporary. *)
Definition other_files_same d w w' : Prop :=
  ∀ m, m ≠ state_json → m ≠ state_json_partial → file_at w' d m = file_at w d m.

Lemma state_at_doc w d s :
  schema_version s = SCHEMA_VERSION → file_at w d state_json = Some (Doc (state_to_json s)) →
  state_at w d = Some s.
Proof.
  intros Hv Hf. unfold state_at. rewrite Hf. cbn [mbind option_bind]. by rewrite state_from_to_json, decide_True.
Qed.

Lemma state_at_file w w' d :
  file_at w' d state_json = file_at w d state_json → state_at w' d = state_at w d.
Proof. unfold state_at. by intros ->. Qed.

Lemma state_at_dir w d s : state_at w d = Some s → is_Some (run_dirs w !! d).
Proof.
  unfold state_at, file_at. intros (c & (r & Hr & _)%bind_Some & _)%bind_Some. by rewrite Hr.
Qed.

Lemma state_at_version w d s : state_at w d = Some s → schema_version s = SCHEMA_VERSION.
Proof.
  unfold state_at. intros (c & _ & Hc)%bind_Some. destruct c as [j|?|]; try done.
  destruct (state_from_json j) as [s'|] eqn:Hj; [|done]. injection Hc as ->.
  by eapply state_from_json_version.
Qed.

Lemma elem_of_suffix {A} (x : A) l1 l2 : l1 `suffix_of` l2 → x ∈ l1 → x ∈ l2.
Proof. intros [k ->] H. set_solver. Qed.

Lemma write_state_atomic_inv self s w r w' :
  is_Some (run_dirs w !! st_run self) → schema_version s = SCHEMA_VERSION →
  write_state_atomic self s w = (r, w') →
  frame (st_run self) w w' ∧ other_files_same (st_run self) w w' ∧
  (r = Ok () ∧ ledger_step (st_run self) w w' s ∨
   r = raise OSError [] ∧ true ∈ faults w ∧
     (ledger_same (st_run self) w w' ∨ ledger_step (st_run self) w w' s)).
Proof.
  intros Hd Hv. unfold write_state_atomic. set (d := st_run self) in *.
  intros [([] & w1 & H1 & H2)|(e & H1 & ->)]%act_bind_inv.
  2:{ apply write_file_inv in H1 as (Hf & Ht & Hm & [[? _]|[? Hin]]); [done| |done].
      split; [done|]. split; [intros m _ Hm2; by apply Hm|]. right. simplify_eq.
      split_and!; try done. left. split; [|done]. by apply state_at_file, Hm. }
  apply write_file_inv in H1 as (Hf1 & Ht1 & Hm1 & [[_ Hp]|[? _]]); [|done|done].
  assert (∀ w2, faults w2 `suffix_of` faults w1 → true ∈ faults w2 → true ∈ faults w) as Hin.
  { intros w2 Hs H. eapply elem_of_suffix; [apply (fr_faults _ _ _ Hf1)|]. by eapply elem_of_suffix. }
  unfold durable_replace in H2.
  apply act_bind_inv in H2 as [([] & w2 & Hs2 & H2)|(e & Hs2 & ->)].
  2:{ pose proof (syscall_frame d _ _ _ Hs2) as Hf2.
      apply syscall_inv in Hs2 as (Hrd & _ & _ & Ht2 & _ & [?|[? ?]]); [done|]. simplify_eq.
      split; [by eapply frame_trans|]. split.
      { intros m Ha Hb. rewrite (file_at_dir _ _ _ _ Hrd). by apply Hm1. }
      right. split_and!; [done|by eapply Hin|]. left. split; [|congruence].
      apply state_at_file. rewrite (file_at_dir _ _ _ _ Hrd). by apply Hm1. }
  pose proof (syscall_frame d _ _ _ Hs2) as Hf2.
  apply syscall_inv in Hs2 as (Hrd2 & _ & _ & Ht2 & Hsuf2 & _).
  assert (file_at w2 d state_json_partial = Some (Doc (state_to_json s))) as Hp2
    by (by rewrite (file_at_dir _ _ _ _ Hrd2)).
  apply act_bind_inv in H2 as [([] & w3 & Hs3 & H3)|(e & Hs3 & ->)].
  2:{ apply (replace_file_inv _ _ _ _ _ _ _ Hp2) in Hs3 as (Hf3 & Hm3 & [[? _]|(? & ? & Ht3 & Ha3)]);
        [done| |done]. simplify_eq.
      split; [by eapply frame_trans, frame_trans|]. split.
      { intros m Ha Hb. rewrite Ha3, (file_at_dir _ _ _ _ Hrd2). by apply Hm1. }
      right. split_and!; [done|by eapply Hin|]. left. split; [|congruence].
      apply state_at_file. rewrite Ha3, (file_at_dir _ _ _ _ Hrd2). by apply Hm1. }
  apply (replace_file_inv _ _ _ _ _ _ _ Hp2) in Hs3
    as (Hf3 & Hm3 & [(_ & Hj3 & _ & Ht3)|[? _]]); [|done|done].
  pose proof (syscall_frame d _ _ _ H3) as Hf4.
  apply syscall_inv in H3 as (Hrd4 & _ & _ & Ht4 & _ & Hr).
  assert (ledger_step d w w' s) as Hstep.
  { split; [apply state_at_doc; [done|by rewrite (file_at_dir _ _ _ _ Hrd4)]|].
    rewrite Ht4, Ht3, Ht2, Ht1. done. }
  split; [by eapply frame_trans, frame_trans, frame_trans|]. split.
  { intros m Ha Hb. rewrite (file_at_dir _ _ _ _ Hrd4), Hm3, (file_at_dir _ _ _ _ Hrd2) by done. by apply Hm1. }
  destruct Hr as [->|[-> Ht]]; [by left|]. right. split_and!; [done| |by right].
  apply (Hin w3); [|done]. etrans; [apply (fr_faults _ _ _ Hf3)|done].
Qed.

Lemma store_read_inv self w r w' s :
  state_at w (st_run self) = Some s → store_read self w = (r, w') →
  frame (st_run self) w w' ∧ run_dirs w' = run_dirs w ∧ trace w' = trace w ∧
  (r = Ok s ∨ r = raise OSError [] ∧ true ∈ faults w).
Proof.
  intros Hs. pose proof Hs as Hs'. unfold state_at in Hs.
  apply bind_Some in Hs as (c & Hc & Hs). destruct c as [j|?|]; try done.
  destruct (state_from_json j) as [s'|] eqn:Hj; [|done]. injection Hs as ->.
  unfold store_read, store_exists, file_exists, gets. unfold mbind at 1, act_bind at 1.
  fold (file_at w (st_run self) state_json). rewrite Hc, bool_decide_true by done.
  cbn [negb]. unfold throw_when, lift, raise_if. unfold mbind at 1, act_bind at 1.
  unfold file_at in Hc. apply bind_Some in Hc as (rd & Hd & Hc).
  unfold read_file. intros [(c & w1 & H1 & H2)|(e & H1 & ->)]%act_bind_inv;
    apply act_bind_inv in H1 as [([] & w2 & H1 & H3)|(e' & H1 & He)]; try done;
    pose proof (syscall_frame (st_run self) _ _ _ H1) as Hf;
    apply syscall_inv in H1 as (Hrd & _ & _ & Ht & _ & Hr).
  - unfold run_dir, mbind, act_bind in H3. rewrite Hrd, Hd, Hc in H3. injection H3 as <- <-.
    rewrite Hj in H2. injection H2 as <- <-. split_and!; [done..|by left].
  - unfold run_dir, mbind, act_bind in H3. rewrite Hrd, Hd, Hc in H3. done.
  - destruct Hr as [|[? ?]]; [done|]. unfold raise in *. simplify_eq. split_and!; [done..|by right].
Qed.

Lemma rmw_inv self f w r w' s :
  state_at w (st_run self) = Some s → (∀ s', f s = Ok s' → schema_version s' = SCHEMA_VERSION) →
  rmw self f w = (r, w') →
  frame (st_run self) w w' ∧ other_files_same (st_run self) w w' ∧
  ((∃ s', f s = Ok s' ∧ r = Ok () ∧ ledger_step (st_run self) w w' s') ∨
   (∃ e, r = Raise e ∧ (f s = Raise e ∨ e = Exn OSError [] ∧ true ∈ faults w) ∧
      (ledger_same (st_run self) w w' ∨
       ∃ s', f s = Ok s' ∧ ledger_step (st_run self) w w' s'))).
Proof.
  intros Hs Hf. unfold rmw.
  intros [(s1 & w1 & H1 & H2)|(e & H1 & ->)]%act_bind_inv;
    apply (store_read_inv _ _ _ _ _ Hs) in H1 as (Hf1 & Hrd & Ht & Hr).
  2:{ destruct Hr as [|[He Hin]]; [done|]. unfold raise in He. simplify_eq. split; [done|].
      split; [intros m _ _; by apply file_at_dir|]. right. eexists. split; [done|].
      split; [by right|]. left. split; [by apply state_at_file, file_at_dir|done]. }
  destruct Hr as [Hr|[Hr _]]; [|done]. simplify_eq.
  assert (state_at w1 (st_run self) = state_at w (st_run self)) as Hst by by apply state_at_file, file_at_dir.
  unfold lift, mbind, act_bind in H2. destruct (f s) as [s2|e] eqn:Hfs.
  2:{ injection H2 as <- <-. split; [done|]. split; [intros m _ _; by apply file_at_dir|].
      right. exists e. split; [done|]. split; [by left|]. left. by split. }
  apply write_state_atomic_inv in H2 as (Hf2 & Ho & Hout); [|by rewrite Hrd; eapply state_at_dir|by apply Hf].
  split; [by eapply frame_trans|]. split.
  { intros m Ha Hb. rewrite Ho by done. by apply file_at_dir. }
  unfold ledger_step, ledger_same in *. rewrite Ht, Hst in Hout.
  destruct Hout as [[-> Hl]|(-> & Hin & Hl)]; [left; eauto|]. right. eexists. split; [done|]. split.
  { right. split; [done|]. eapply elem_of_suffix; [apply (fr_faults _ _ _ Hf1)|done]. }
  destruct Hl as [Hl|Hl]; [by left|right; eauto].
Qed.

(** ** Without failing system calls *)

Lemma syscall_ok w : faults w = [] → syscall w = (Ok (), w).
Proof. unfold syscall. by intros ->. Qed.

Lemma frame_no_faults d w w' : frame d w w' → faults w = [] → faults w' = [].
Proof. intros Hf Hn. pose proof (fr_faults _ _ _ Hf) as Hs. rewrite Hn in Hs. by apply suffix_nil_inv in Hs. Qed.

(** Reading leaves the world alone when no system call fails. *)
Definition reads {A} (m : act (World B) A) : Prop := ∀ w, faults w = [] → (m w).2 = w.

Lemma reads_bind {A C} (m : act (World B) A) (k : A → act (World B) C) :
  reads m → (∀ a, reads (k a)) → reads (m ≫= k).
Proof.
  intros Hm Hk w Hw. specialize (Hm w Hw). unfold mbind, act_bind.
  destruct (m w) as [[a|e] w1]; cbn in *; subst; [by apply Hk|done].
Qed.

Lemma reads_store_read self : reads (store_read self).
Proof.
  apply reads_bind; [done|intros ex]. apply reads_bind; [done|intros []]. apply reads_bind.
  - apply reads_bind; [intros w Hw; by rewrite syscall_ok|intros []]. apply reads_bind.
    + intros w _. unfold run_dir. by destruct (run_dirs w !! _).
    + intros rd. by destruct (files rd !! state_json).
  - by intros [j|?|].
Qed.

Lemma store_read_ok self w s :
  faults w = [] → state_at w (st_run self) = Some s → store_read self w = (Ok s, w).
Proof.
  intros Hnf Hs. pose proof (reads_store_read self w Hnf) as Hw.
  destruct (store_read self w) as [r w'] eqn:Hr. cbn in Hw. subst w'.
  apply (store_read_inv _ _ _ _ _ Hs) in Hr as (_ & _ & _ & [->|[_ Hin]]); [done|].
  rewrite Hnf in Hin. by apply not_elem_of_nil in Hin.
Qed.

Lemma rmw_ok self f w s s' :
  faults w = [] → state_at w (st_run self) = Some s → f s = Ok s' →
  schema_version s' = SCHEMA_VERSION →
  ∃ w', rmw self f w = (Ok (), w') ∧ faults w' = [] ∧ frame (st_run self) w w' ∧
    other_files_same (st_run self) w w' ∧ ledger_step (st_run self) w w' s'.
Proof.
  intros Hnf Hs Hf Hv. destruct (rmw self f w) as [r w'] eqn:Hr. exists w'.
  apply (rmw_inv _ _ _ _ _ s Hs) in Hr as (Hfr & Ho & Hout); [|intros s1 Hs1; congruence].
  pose proof (frame_no_faults _ _ _ Hfr Hnf) as Hnf'.
  destruct Hout as [(s1 & Hf1 & -> & Hl)|(e & _ & [He|[_ Hin]] & _)].
  - rewrite Hf in Hf1. injection Hf1 as <-. done.
  - congruence.
  - rewrite Hnf in Hin. by apply not_elem_of_nil in Hin.
Qed.

(** [remove] deletes the store's own files and the directory once empty. *)
Definition own_files : gset string :=
  {[state_json; state_pid; state_lock; state_json_partial; state_pid_partial]}.

Definition foreign_files (fs : gmap string content) : gmap string content :=
  filter (λ kv, kv.1 ∉ own_files) fs.

Lemma unlink_ok d n w rd :
  faults w = [] → run_dirs w !! d = Some rd →
  unlink d n w = (Ok (),
    (if decide (n = "state.json" ∧ is_Some (files rd !! n)) then emit (EvGone d) else id)
    (set_run_dirs (<[d := MkRunDir (delete n (files rd)) (holder rd)]> (run_dirs w)) w)).
Proof.
  intros Hnf Hd. unfold unlink, gets, put_dir, modify, act_when, mbind, act_bind.
  rewrite (syscall_ok w Hnf), Hd. case_decide as Hn; [rewrite bool_decide_true by done|rewrite bool_decide_false by done]; done.
Qed.

(** The world with run [d]'s directory replaced. *)
Definition with_dir d (rd : RunDir) w : World B := set_run_dirs (<[d := rd]> (run_dirs w)) w.

Lemma release_lock_ok self w rd :
  run_dirs w !! st_run self = Some rd →
  release_lock self w = (Ok (), with_dir (st_run self) (MkRunDir (files rd)
    (if decide (holder rd = Some (st_self self)) then None else holder rd)) w).
Proof.
  intros Hd. unfold release_lock, holds_lock, gets, act_when, set_holder, run_dir, put_dir, modify, with_dir.
  unfold mbind, act_bind, option_bind. rewrite Hd. case_decide as Hh.
  - rewrite bool_decide_true by done. cbn. by rewrite Hd.
  - rewrite bool_decide_false by done. cbn. f_equal. destruct w as [ds ? ? ? ?]. cbn in *.
    unfold set_run_dirs. cbn. f_equal. symmetry. apply insert_id. rewrite Hd. by destruct rd.
Qed.

Lemma remove_ok self w rd :
  faults w = [] → run_dirs w !! st_run self = Some rd →
  ∃ w', remove self w = (Ok (), w') ∧ faults w' = [] ∧ now w' = now w ∧ backend w' = backend w ∧
    trace w' = trace w ++ (if decide (is_Some (files rd !! state_json)) then [EvGone (st_run self)] else []) ∧
    run_dirs w' = if decide (foreign_files (files rd) = ∅) then delete (st_run self) (run_dirs w)
      else <[st_run self := MkRunDir (foreign_files (files rd))
        (if decide (holder rd = Some (st_self self)) then None else holder rd)]> (run_dirs w).
Proof.
  intros Hnf Hd. set (d := st_run self) in *.
  set (h := if decide (holder rd = Some (st_self self)) then None else holder rd).
  unfold remove. fold d. erewrite act_bind_Ok by (by apply release_lock_ok). fold d h.
  set (w1 := with_dir d (MkRunDir (files rd) h) w).
  assert (run_dirs w1 !! d = Some (MkRunDir (files rd) h)) as Hd1 by (cbn; apply lookup_insert_eq).
  unfold store_exists, file_exists. unfold gets at 1. unfold mbind at 1, act_bind at 1. fold d.
  rewrite Hd1. cbn [mbind option_bind files].
  set (fs2 := delete state_json (files rd)).
  set (ev := if decide (is_Some (files rd !! state_json)) then [EvGone d] else []).
  assert (∃ w2, act_when (bool_decide (is_Some (files rd !! state_json))) (unlink d state_json) w1 = (Ok (), w2) ∧
    faults w2 = [] ∧ now w2 = now w ∧ backend w2 = backend w ∧ trace w2 = trace w ++ ev ∧
    run_dirs w2 = <[d := MkRunDir fs2 h]> (run_dirs w)) as (w2 & E2 & Hnf2 & Hn2 & Hb2 & Ht2 & Hrd2).
  { unfold act_when, ev. case_bool_decide as Hs.
    - rewrite (unlink_ok _ _ _ _ (Hnf : faults w1 = []) Hd1).
      rewrite (decide_True (P := is_Some _)) by done. rewrite decide_True by done. eexists. split_and!; try done. cbn.
      by rewrite insert_insert_eq.
    - rewrite decide_False by done. eexists. split_and!; try done; cbn; [by rewrite app_nil_r|].
      f_equal. f_equal. unfold fs2. symmetry. apply delete_id. by apply eq_None_not_Some. }
  erewrite act_bind_Ok by exact E2.
  assert (∀ n fs w3, n ≠ "state.json" → faults w3 = [] → run_dirs w3 = <[d := MkRunDir fs h]> (run_dirs w) →
    now w3 = now w → backend w3 = backend w → trace w3 = trace w ++ ev →
    ∃ w4, unlink d n w3 = (Ok (), w4) ∧ faults w4 = [] ∧
      run_dirs w4 = <[d := MkRunDir (delete n fs) h]> (run_dirs w) ∧
      now w4 = now w ∧ backend w4 = backend w ∧ trace w4 = trace w ++ ev) as Hun.
  { intros n fs w3 Hn Hf3 Hr3 ? ? ?. erewrite unlink_ok; [|done|by rewrite Hr3; apply lookup_insert_eq].
    rewrite decide_False by naive_solver. eexists. split_and!; try done. cbn.
    by rewrite Hr3, insert_insert_eq. }
  destruct (Hun state_pid fs2 w2) as (w3 & E3 & ? & ? & ? & ? & ?); [done..|].
  erewrite act_bind_Ok by exact E3.
  destruct (Hun state_lock (delete state_pid fs2) w3) as (w4 & E4 & ? & ? & ? & ? & ?); [done..|].
  erewrite act_bind_Ok by exact E4.
  destruct (Hun state_json_partial (delete state_lock (delete state_pid fs2)) w4) as (w5 & E5 & ? & ? & ? & ? & ?); [done..|].
  erewrite act_bind_Ok by exact E5.
  destruct (Hun state_pid_partial (delete state_json_partial (delete state_lock (delete state_pid fs2))) w5) as (w6 & E6 & Hnf6 & Hrd6 & ? & ? & ?); [done..|].
  erewrite act_bind_Ok by exact E6.
  set (fs6 := delete state_pid_partial _) in Hrd6.
  assert (fs6 = foreign_files (files rd)) as Hfs.
  { unfold fs6, fs2, foreign_files, own_files. apply map_eq. intros k. apply option_eq. intros c.
    rewrite !lookup_delete_Some, map_lookup_filter_Some. cbn. set_solver. }
  unfold catch, rmdir, run_dir. unfold mbind, act_bind. rewrite (syscall_ok w6 Hnf6), Hrd6, lookup_insert_eq.
  cbn [files]. rewrite Hfs in *. case_decide; cbn.
  - eexists. split_and!; try done. cbn. rewrite Hrd6. by rewrite delete_insert_eq.
  - eexists. split_and!; done.
Qed.

Lemma release_ok self w rd :
  faults w = [] → run_dirs w !! st_run self = Some rd →
  release self w = (Ok (), with_dir (st_run self) (MkRunDir (delete state_pid (files rd))
    (if decide (holder rd = Some (st_self self)) then None else holder rd)) w).
Proof.
  intros Hnf Hd. unfold release. erewrite act_bind_Ok by (by apply release_lock_ok).
  erewrite unlink_ok; [|done|by apply lookup_insert_eq]. rewrite decide_False by (by intros [? _]).
  unfold with_dir, id. cbn. unfold set_run_dirs. cbn. by rewrite insert_insert_eq.
Qed.

(** The foreign files survive every operation on the store's own files. *)
Definition foreign_same d w w' : Prop := ∀ m, m ∉ own_files → file_at w' d m = file_at w d m.

Lemma other_files_foreign d w w' : other_files_same d w w' → foreign_same d w w'.
Proof. intros Ho m Hm. apply Ho; intros ->; apply Hm; unfold own_files; set_solver. Qed.

Lemma foreign_same_trans d w1 w2 w3 : foreign_same d w1 w2 → foreign_same d w2 w3 → foreign_same d w1 w3.
Proof. intros H1 H2 m Hm. by rewrite H2, H1. Qed.

Lemma foreign_files_same d w w' rd rd' :
  run_dirs w !! d = Some rd → run_dirs w' !! d = Some rd' → foreign_same d w w' →
  foreign_files (files rd') = foreign_files (files rd).
Proof.
  intros Hd Hd' Ho. unfold foreign_files. apply map_eq. intros k. apply option_eq. intros c.
  rewrite !map_lookup_filter_Some. cbn. unfold foreign_same, file_at in Ho. rewrite Hd, Hd' in Ho. cbn in Ho.
  split; intros [Hk Hn]; (split; [|done]); [by rewrite <-Ho|by rewrite Ho].
Qed.

(** The lock probe: it only creates the lock file. *)
Lemma open_lock_inv self w r w' rd :
  run_dirs w !! st_run self = Some rd → open_lock self w = (r, w') →
  frame (st_run self) w w' ∧ trace w' = trace w ∧
  (∀ m, m ≠ state_lock → file_at w' (st_run self) m = file_at w (st_run self) m) ∧
  (∃ rd', r = Ok rd' ∧ holder rd' = holder rd ∨ r = raise OSError [] ∧ true ∈ faults w).
Proof.
  intros Hd. unfold open_lock.
  intros [([] & w1 & H1 & H2)|(e & H1 & ->)]%act_bind_inv;
    pose proof (syscall_frame (st_run self) _ _ _ H1) as Hf1;
    apply syscall_inv in H1 as (Hrd & _ & _ & Ht & _ & Hr).
  - unfold run_dir, mbind, act_bind in H2. rewrite Hrd, Hd in H2. cbn in H2. injection H2 as <- <-.
    split_and!.
    + eapply frame_trans; [done|]. eapply frame_put; [by rewrite Hrd|done].
    + done.
    + intros m Hm. unfold file_at. cbn. rewrite lookup_insert_eq, Hd. cbn. by rewrite lookup_insert_ne.
    + eexists. by left.
  - destruct Hr as [[=]|[[= ->] Hin]]. split_and!; [done|done|intros; by apply file_at_dir|].
    exists rd. right. done.
Qed.

Lemma require_dead_inv self w r w' rd :
  run_dirs w !! st_run self = Some rd → require_dead self w = (r, w') →
  frame (st_run self) w w' ∧ trace w' = trace w ∧
  (∀ m, m ≠ state_lock → file_at w' (st_run self) m = file_at w (st_run self) m) ∧
  (r = raise OSError [] ∧ true ∈ faults w ∨
   r = match holder rd with Some _ => raise StateLockedError [st_run self] | None => Ok () end).
Proof.
  intros Hd. unfold require_dead, is_running.
  intros [(b & w1 & H1 & H2)|(e & H1 & ->)]%act_bind_inv;
    apply act_bind_inv in H1 as [(rd1 & w2 & H1 & H3)|(e1 & H1 & H3)]; try done;
    apply (open_lock_inv _ _ _ _ _ Hd) in H1 as (Hf & Ht & Hfl & rd' & [[Hr Hh]|[Hr Hin]]); try done.
  - injection H3 as <- <-. injection H2 as <- <-. injection Hr as ->. split_and!; [done..|]. right.
    rewrite Hh. by destruct (holder rd).
  - injection Hr as ->. injection H3 as ->. split_and!; [done..|]. by left.
Qed.

Lemma acquire_lock_ok self w rd :
  faults w = [] → run_dirs w !! st_run self = Some rd → holder rd = None →
  ∃ w', acquire_lock self w = (Ok (), w') ∧ faults w' = [] ∧ trace w' = trace w ∧ now w' = now w ∧
    backend w' = backend w ∧ holder_at w' (st_run self) = Some (st_self self) ∧
    (∀ m, m ≠ state_lock → file_at w' (st_run self) m = file_at w (st_run self) m) ∧
    (∀ d', d' ≠ st_run self → run_dirs w' !! d' = run_dirs w !! d').
Proof.
  intros Hnf Hd Hh. destruct (open_lock self w) as [r1 w1] eqn:E1. pose proof E1 as E1'.
  apply (open_lock_inv _ _ _ _ _ Hd) in E1' as (Hf & Ht & Hfl & rd' & [[-> Hh']|[_ Hin]]);
    [|rewrite Hnf in Hin; by apply not_elem_of_nil in Hin].
  destruct (proj2 (fr_dir _ _ _ Hf)) as [rd1 Hd1]; [by rewrite Hd|].
  exists (with_dir (st_run self) (MkRunDir (files rd1) (Some (st_self self))) w1).
  split.
  { unfold acquire_lock, holds_lock, gets. unfold mbind at 1, act_bind at 1. rewrite Hd. cbn [mbind option_bind].
    rewrite Hh, bool_decide_false by done. unfold act_when. cbn [negb]. erewrite act_bind_Ok by exact E1.
    rewrite Hh', Hh, bool_decide_false by (by intros [? ?]).
    unfold throw_when, lift, raise_if, set_holder, run_dir, put_dir, modify, mbind, act_bind. by rewrite Hd1. }
  pose proof (frame_no_faults _ _ _ Hf Hnf) as Hnf1.
  split_and!; [done|done|apply Hf|apply Hf| | |].
  - unfold holder_at. cbn. by rewrite lookup_insert_eq.
  - intros m Hm. rewrite <-Hfl by done. unfold file_at. cbn. by rewrite lookup_insert_eq, Hd1.
  - intros d' Hne. cbn. rewrite lookup_insert_ne by done. by apply Hf.
Qed.

Lemma write_pid_ok self pid w :
  faults w = [] → is_Some (run_dirs w !! st_run self) →
  ∃ w', write_pid_atomic self pid w = (Ok (), w') ∧ faults w' = [] ∧ frame (st_run self) w w' ∧
    trace w' = trace w ∧
    (∀ m, m ≠ state_pid → m ≠ state_pid_partial → file_at w' (st_run self) m = file_at w (st_run self) m).
Proof.
  intros Hnf Hd. unfold write_pid_atomic.
  set (c := Text _). destruct (write_file (st_run self) state_pid_partial c w) as [r1 w1] eqn:E1. pose proof E1 as E1'.
  apply write_file_inv in E1' as (Hf1 & Ht1 & Hm1 & [[-> Hp]|[_ Hin]]);
    [|rewrite Hnf in Hin; by apply not_elem_of_nil in Hin|done].
  pose proof (frame_no_faults _ _ _ Hf1 Hnf) as Hnf1.
  destruct (replace_file (st_run self) state_pid_partial state_pid w1) as [r2 w2] eqn:E2. pose proof E2 as E2'.
  apply (replace_file_inv _ _ _ _ _ _ _ Hp) in E2' as (Hf2 & Hm2 & [(-> & _ & _ & Ht2)|(_ & Hin & _)]);
    [|rewrite Hnf1 in Hin; by apply not_elem_of_nil in Hin|done].
  exists w2. split; [by erewrite act_bind_Ok by exact E1|].
  split; [by eapply frame_no_faults|]. split; [by eapply frame_trans|].
  split; [by rewrite Ht2, Ht1, app_nil_r|]. intros m Ha Hb. rewrite Hm2 by done. by apply Hm1.
Qed.

(** ** Operations that only touch files: they raise [OSError] at most, and make
    no driver call. *)
Definition no_calls (t : list event) : Prop := ∀ c, EvCall c ∉ t.

Definition fs_act {A} (m : act (World B) A) : Prop := ∀ w r w', m w = (r, w') →
  (∃ t, trace w' = trace w ++ t ∧ no_calls t) ∧ (∀ e, r = Raise e → isinstance e OSError = true) ∧
  backend w' = backend w ∧ now w' = now w ∧ faults w' `suffix_of` faults w.

Lemma no_calls_app t1 t2 : no_calls t1 → no_calls t2 → no_calls (t1 ++ t2).
Proof. intros H1 H2 c. rewrite elem_of_app. firstorder. Qed.

Lemma fs_act_bind {A C} (m : act (World B) A) (k : A → act (World B) C) :
  fs_act m → (∀ a, fs_act (k a)) → fs_act (m ≫= k).
Proof.
  intros Hm Hk w r w' [(a & w1 & H1 & H2)|(e & H1 & ->)]%act_bind_inv.
  - apply Hm in H1 as ((t1 & Ht1 & Hq1) & _ & Hb1 & Hn1 & Hf1).
    apply Hk in H2 as ((t2 & Ht2 & Hq2) & He & Hb2 & Hn2 & Hf2).
    split_and!; [|done|congruence|congruence|by etrans].
    exists (t1 ++ t2). rewrite Ht2, Ht1, <-app_assoc. split; [done|by apply no_calls_app].
  - apply Hm in H1 as (Ht & He & ?). split; [done|]. split; [|done]. intros e' [= ->]. by apply He.
Qed.

Lemma fs_act_quiet {A} (m : act (World B) A) :
  (∀ w, ∃ r f, (m w).1 = r ∧ (∀ e, r = Raise e → isinstance e OSError = true) ∧
     (m w).2 = set_run_dirs f w) → fs_act m.
Proof.
  intros H w r w' E. destruct (H w) as (r1 & f & Hr & He & Hw). rewrite E in Hr, Hw. cbn in *. subst.
  split_and!; try done. exists []. split; [by rewrite app_nil_r|intros c; apply not_elem_of_nil].
Qed.

Lemma fs_act_syscall : fs_act syscall.
Proof.
  intros w r w' (Hd & Hn & Hb & Ht & Hf & Hr)%syscall_inv. split_and!; try done.
  - exists []. rewrite app_nil_r. split; [done|]. intros c. apply not_elem_of_nil.
  - destruct Hr as [->|[-> _]]; [done|]. by intros e [= <-].
Qed.

Lemma fs_act_run_dir d : fs_act (run_dir d).
Proof.
  apply fs_act_quiet. intros w. unfold run_dir.
  destruct (run_dirs w !! d) as [rd|]; cbn; eexists _, (run_dirs w); (split; [done|]);
    (split; [by intros e [= <-]|by destruct w]).
Qed.

Lemma fs_act_put_dir d rd : fs_act (put_dir d rd).
Proof. apply fs_act_quiet. intros w. by eexists _, _. Qed.

Lemma fs_act_gets {A} (f : World B → A) : fs_act (gets f).
Proof. apply fs_act_quiet. intros w. eexists _, (run_dirs w). split; [done|]. by destruct w. Qed.

Lemma fs_act_ret {A} (a : A) : fs_act (mret a).
Proof. apply (fs_act_gets (λ _, a)). Qed.

Lemma fs_act_gone d : fs_act (modify (emit (EvGone d))).
Proof.
  intros w r w' [= <- <-]. split_and!; try done. exists [EvGone d]. split; [done|]. intros c Hc. by apply list_elem_of_singleton in Hc.
Qed.

Lemma fs_act_when (b : bool) m : fs_act m → fs_act (act_when b m).
Proof. destruct b; [done|]. intros _. apply fs_act_ret. Qed.

Lemma fs_act_unlink d n : fs_act (unlink d n).
Proof.
  apply fs_act_bind; [apply fs_act_syscall|intros []]. apply fs_act_bind; [apply fs_act_gets|intros [rd|]].
  - apply fs_act_bind; [apply fs_act_put_dir|intros []]. apply fs_act_when, fs_act_gone.
  - apply fs_act_ret.
Qed.

Lemma fs_act_release_lock self : fs_act (release_lock self).
Proof.
  apply fs_act_bind; [apply fs_act_gets|intros b]. apply fs_act_when.
  apply fs_act_bind; [apply fs_act_run_dir|intros rd]. apply fs_act_put_dir.
Qed.

Lemma fs_act_rmdir d : fs_act (rmdir d).
Proof.
  apply fs_act_bind; [apply fs_act_syscall|intros []]. apply fs_act_bind; [apply fs_act_run_dir|intros rd].
  case_decide; apply fs_act_quiet; intros w.
  - by eexists _, _.
  - eexists _, (run_dirs w). split; [done|]. split; [by intros e [= <-]|by destruct w].
Qed.

Lemma fs_act_release self : fs_act (release self).
Proof. apply fs_act_bind; [apply fs_act_release_lock|intros []]. apply fs_act_unlink. Qed.

Lemma fs_act_remove self : fs_act (remove self).
Proof.
  unfold remove. apply fs_act_bind; [apply fs_act_release_lock|intros []].
  apply fs_act_bind; [apply fs_act_gets|intros b].
  apply fs_act_bind; [apply fs_act_when, fs_act_unlink|intros []].
  do 4 (apply fs_act_bind; [apply fs_act_unlink|intros []]).
  intros w r w'. unfold catch. destruct (rmdir (st_run self) w) as [[[]|e] w1] eqn:E.
  - intros [= <- <-]. by apply (fs_act_rmdir (st_run self)).
  - apply fs_act_rmdir in E as (Ht & He & ?). rewrite (He e eq_refl). intros [= <- <-]. done.
Qed.
End Spec.
