(* ===== verification/StoreClaims.v ===== *)
(** * The state store: correctness *)

From S2P Require Import Prelude Exceptions Eff Ledger Store StoreSpec.
From stdpp Require Import options.

Section Claims.
Context {B : Type}.
Implicit Types (self : StateStore) (w : World B).

(** C5: a ledger mutation is all or nothing.  Whatever system call fails, and
    also if the owner dies right after, [state.json] reads as the old document
    or as the new one; it is the new one if the call returned, and the old one
    if the mutation itself was refused. *)
Theorem state_write_atomic self f w r w' s owner :
  state_at w (st_run self) = Some s →
  (∀ s', f s = Ok s' → schema_version s' = SCHEMA_VERSION) → rmw self f w = (r, w') →
  let after := state_at (crash owner w') (st_run self) in
  match f s with
  | Raise _ => after = Some s ∧ ∃ e, r = Raise e
  | Ok s' => (after = Some s ∨ after = Some s') ∧ (r = Ok () → after = Some s')
  end.
Proof.
  intros Hs Hf Hr. cbn zeta.
  assert (state_at (crash owner w') (st_run self) = state_at w' (st_run self)) as ->.
  { unfold state_at, file_at, crash. cbn. rewrite lookup_fmap. by destruct (run_dirs w' !! st_run self). }
  apply (rmw_inv _ _ _ _ _ _ Hs Hf) in Hr as (_ & _ & Hout). unfold ledger_same, ledger_step in Hout.
  destruct Hout as [(s' & -> & -> & Hl & _)|(e & -> & He & Hl)]; [by auto|].
  destruct (f s) as [s'|e'].
  - split; [|done]. destruct Hl as [[-> _]|(? & [= <-] & Hl & _)]; auto.
  - split; [|by eauto]. destruct Hl as [[-> _]|(? & [=] & _)]. done.
Qed.

(** What is written is what is read back: a document of this schema
    version round-trips, also through the file; any other version is refused
    loudly instead of being read with this version's assumptions. *)
Theorem ledger_roundtrip self s w r w' :
  is_Some (run_dirs w !! st_run self) → faults w = [] → write_state_atomic self s w = (r, w') →
  r = Ok () ∧
  (store_read self w').1 =
    if decide (schema_version s = SCHEMA_VERSION) then Ok s else raise StateError ["schema_version"].
Proof.
  intros [rd Hd] Hnf. unfold write_state_atomic. set (d := st_run self) in *.
  assert (∃ w1, write_file d state_json_partial (Doc (state_to_json s)) w = (Ok (), w1) ∧ faults w1 = [] ∧
    file_at w1 d state_json_partial = Some (Doc (state_to_json s))) as (w1 & E1 & Hnf1 & Hp1).
  { destruct (write_file d state_json_partial _ w) as [r1 w1] eqn:E1. exists w1. pose proof E1 as E1'.
    apply write_file_inv in E1' as (Hf & _ & _ & [[-> Hp]|[_ Hin]]); [|rewrite Hnf in Hin; by apply not_elem_of_nil in Hin|by rewrite Hd].
    split_and!; [done|by eapply frame_no_faults|done]. }
  erewrite act_bind_Ok by exact E1. unfold durable_replace. erewrite act_bind_Ok by (by apply syscall_ok).
  destruct (replace_file d state_json_partial state_json w1) as [r2 w2] eqn:E2. pose proof E2 as E2'.
  apply (replace_file_inv _ _ _ _ _ _ _ Hp1) in E2' as (Hf2 & _ & [(-> & Hj2 & _)|(_ & Hin & _)]);
    [|rewrite Hnf1 in Hin; by apply not_elem_of_nil in Hin|done].
  pose proof (frame_no_faults _ _ _ Hf2 Hnf1) as Hnf2.
  erewrite act_bind_Ok by exact E2. rewrite (syscall_ok w2 Hnf2). intros [= <- <-]. split; [done|].
  unfold file_at in Hj2. apply bind_Some in Hj2 as (rd2 & Hd2 & Hj2).
  unfold store_read, store_exists, file_exists, gets, throw_when, lift, read_file, run_dir. fold d.
  unfold mbind, act_bind, option_bind. rewrite Hd2, Hj2, bool_decide_true by done. cbn [negb raise_if].
  rewrite (syscall_ok w2 Hnf2), Hd2, Hj2. cbn [fst mret act_ret]. apply state_from_to_json.
Qed.

(** ** Node stamps *)

Lemma node_record_Some s n r : node_record s n = Some r → r ∈ nodes s ∧ nr_name r = n.
Proof.
  unfold node_record. intros ([i r'] & Hf & [= ->])%fmap_Some.
  apply list_find_Some in Hf as (Hl & Hn & _). split; [by eapply list_elem_of_lookup_2|done].
Qed.

Lemma node_record_elem s r :
  NoDup (nr_name <$> nodes s) → r ∈ nodes s → node_record s (nr_name r) = Some r.
Proof.
  intros Hnd Hr. unfold node_record.
  destruct (list_find_elem_of (λ n, nr_name n = nr_name r) (nodes s) r Hr eq_refl) as [[i r'] Hf].
  rewrite Hf. cbn. apply list_find_Some in Hf as (Hl & Hn & _).
  apply list_elem_of_lookup in Hr as [j Hj]. f_equal.
  assert (i = j) as ->; [|congruence].
  eapply NoDup_lookup; [done|..]; rewrite list_lookup_fmap; [by rewrite Hl|rewrite Hj; cbn; by rewrite Hn].
Qed.

Lemma node_record_None s n : node_record s n = None ↔ n ∉ nr_name <$> nodes s.
Proof.
  unfold node_record. rewrite fmap_None, list_find_None, Forall_forall, list_elem_of_fmap.
  setoid_rewrite list_elem_of_In. naive_solver.
Qed.

(** Upserting keeps one record per node and touches no other record. *)
Lemma with_node_record_lookup s r n :
  NoDup (nr_name <$> nodes s) →
  NoDup (nr_name <$> nodes (with_node_record s r)) ∧
  node_record (with_node_record s r) n = if decide (n = nr_name r) then Some r else node_record s n.
Proof.
  intros Hnd. set (rest := filter (λ m, nr_name m ≠ nr_name r) (nodes s)).
  assert (nodes (with_node_record s r) = rest ++ [r]) as Hn by done.
  assert (NoDup (nr_name <$> nodes (with_node_record s r))) as Hnd'.
  { rewrite Hn, fmap_app. apply NoDup_app. split_and!.
    - by apply NoDup_fmap_filter.
    - intros x (m & Hx & [Hne Hm]%list_elem_of_filter)%list_elem_of_fmap Hs%list_elem_of_singleton. congruence.
    - apply NoDup_singleton. }
  split; [done|]. case_decide as Heq.
  - subst n. apply node_record_elem; [done|]. rewrite Hn. set_solver.
  - destruct (node_record s n) as [m|] eqn:Hm.
    + apply node_record_Some in Hm as [Hm <-]. apply node_record_elem; [done|].
      rewrite Hn, elem_of_app. left. apply list_elem_of_filter. done.
    + apply node_record_None. apply node_record_None in Hm. rewrite Hn, fmap_app, elem_of_app.
      intros [(m & -> & [_ Hx]%list_elem_of_filter)%list_elem_of_fmap|Hx]; [|set_solver].
      apply Hm. by apply list_elem_of_fmap_2.
Qed.

Lemma prior_record_name s n : nr_name (prior_record s n) = n.
Proof.
  unfold prior_record. destruct (node_record s n) as [r|] eqn:E; [|done].
  by apply node_record_Some in E as [_ ?].
Qed.

(** Stamping a node's completion sets that stamp to the current time,
    keeps the node's other stamp and every other node's record, and never
    gives a node two records; resources and phase are untouched. *)
Theorem node_stamp_upsert self w s n (realize : bool) :
  faults w = [] → state_at w (st_run self) = Some s → NoDup (nr_name <$> nodes s) →
  ∃ w' s', (if realize then mark_node_realized self n else mark_node_materialized self n) w = (Ok (), w') ∧
    state_at w' (st_run self) = Some s' ∧ resources s' = resources s ∧ phase s' = phase s ∧
    NoDup (nr_name <$> nodes s') ∧
    node_record s' n = Some (if realize
      then MkNodeRecord n (node_record s n ≫= materialized_at) (Some (now w))
      else MkNodeRecord n (Some (now w)) (node_record s n ≫= realized_at)) ∧
    ∀ m, m ≠ n → node_record s' m = node_record s m.
Proof.
  intros Hnf Hs Hnd.
  set (p := prior_record s n). set (r := if realize then MkNodeRecord (nr_name p) (materialized_at p) (Some (now w))
      else MkNodeRecord (nr_name p) (Some (now w)) (realized_at p)).
  set (f := λ s : State, Ok (E:=exn) (let p := prior_record s n in with_node_record s
    (if realize then MkNodeRecord (nr_name p) (materialized_at p) (Some (now w))
      else MkNodeRecord (nr_name p) (Some (now w)) (realized_at p)))).
  destruct (rmw_ok self f w s (with_node_record s r) Hnf Hs eq_refl)
    as (w' & E & _ & _ & _ & Hs' & _).
  { exact (state_at_version _ _ _ Hs). }
  exists w', (with_node_record s r). pose proof (prior_record_name s n) as Hpn. fold p in Hpn.
  split_and!; [|done|done|done| | |].
  - destruct realize; unfold mark_node_realized, mark_node_materialized; exact E.
  - by apply (with_node_record_lookup s r n).
  - rewrite (proj2 (with_node_record_lookup s r n Hnd)).
    rewrite decide_True by (unfold r; by destruct realize). f_equal. unfold r. rewrite Hpn. unfold p, prior_record.
    by destruct realize, (node_record s n).
  - intros m Hm. rewrite (proj2 (with_node_record_lookup s r m Hnd)), decide_False; [done|].
    unfold r. destruct realize; cbn; congruence.
Qed.

(** ** Ownership *)

Lemma reopen_dead_ok self w s rd :
  faults w = [] → state_at w (st_run self) = Some s → run_dirs w !! st_run self = Some rd →
  holder rd = None →
  ∃ w', reopen self w = (Ok s, w') ∧ state_at w' (st_run self) = Some s ∧
    holder_at w' (st_run self) = Some (st_self self).
Proof.
  intros Hnf Hs Hd Hh. unfold reopen, store_exists, file_exists, gets. unfold mbind at 1, act_bind at 1.
  fold (file_at w (st_run self) state_json). rewrite bool_decide_true.
  2:{ unfold state_at in Hs. apply bind_Some in Hs as (c & Hc & _). by rewrite Hc. }
  unfold throw_when, lift at 1, raise_if. cbn [negb]. unfold mbind at 1, act_bind at 1.
  destruct (require_dead self w) as [r1 w1] eqn:E1. pose proof E1 as E1'.
  apply (require_dead_inv _ _ _ _ _ Hd) in E1' as (Hf1 & _ & Hfl1 & Hr). rewrite Hh in Hr.
  destruct Hr as [[_ Hin]| ->]; [rewrite Hnf in Hin; by apply not_elem_of_nil in Hin|].
  pose proof (frame_no_faults _ _ _ Hf1 Hnf) as Hnf1.
  destruct (proj2 (fr_dir _ _ _ Hf1)) as [rd1 Hd1]; [by rewrite Hd|].
  assert (holder rd1 = None) as Hh1.
  { pose proof (fr_holder _ _ _ Hf1) as Hx. unfold holder_at in Hx. rewrite Hd, Hd1 in Hx. cbn in Hx. congruence. }
  destruct (acquire_lock_ok self w1 rd1 Hnf1 Hd1 Hh1) as (w2 & E2 & Hnf2 & _ & _ & _ & Hh2 & Hfl2 & _).
  assert (state_at w2 (st_run self) = Some s) as Hs2.
  { rewrite <-Hs. apply state_at_file. rewrite Hfl2 by done. by apply Hfl1. }
  destruct (write_pid_ok self (getpid w2) w2 Hnf2 (state_at_dir _ _ _ Hs2)) as (w3 & E3 & Hnf3 & Hf3 & _ & Hfl3).
  assert (state_at w3 (st_run self) = Some s) as Hs3 by (rewrite <-Hs2; by apply state_at_file, Hfl3).
  exists w3. split_and!; [|done|by rewrite (fr_holder _ _ _ Hf3)].
  erewrite act_bind_Ok by exact E1. erewrite act_bind_Ok by exact E2. unfold mbind at 1, act_bind at 1.
  erewrite act_bind_Ok by exact E3.
  by apply store_read_ok.
Qed.

(** A run can be taken over exactly when its owner is gone.  While any
    process holds the lock, resuming is refused and the ledger is untouched;
    once that process died, resuming returns the ledger it left, and the new
    process owns the run. *)
Theorem reopen_ownership self w s owner :
  faults w = [] → state_at w (st_run self) = Some s → holder_at w (st_run self) = Some owner →
  (∃ w', reopen self w = (raise StateLockedError [st_run self], w') ∧
     state_at w' (st_run self) = Some s ∧ holder_at w' (st_run self) = Some owner) ∧
  (∃ w', reopen self (crash owner w) = (Ok s, w') ∧ state_at w' (st_run self) = Some s ∧
     holder_at w' (st_run self) = Some (st_self self)).
Proof.
  intros Hnf Hs Hh. pose proof Hh as Hh0. unfold holder_at in Hh. apply bind_Some in Hh as (rd & Hd & Hh). split.
  - unfold reopen, store_exists, file_exists, gets. unfold mbind at 1, act_bind at 1.
    fold (file_at w (st_run self) state_json). rewrite bool_decide_true.
    2:{ unfold state_at in Hs. apply bind_Some in Hs as (c & Hc & _). by rewrite Hc. }
    unfold throw_when, lift at 1, raise_if. cbn [negb]. unfold mbind at 1, act_bind at 1.
    destruct (require_dead self w) as [r1 w1] eqn:E1. pose proof E1 as E1'.
    apply (require_dead_inv _ _ _ _ _ Hd) in E1' as (Hf1 & _ & Hfl1 & Hr). rewrite Hh in Hr.
    destruct Hr as [[_ Hin]| ->]; [rewrite Hnf in Hin; by apply not_elem_of_nil in Hin|].
    exists w1. split_and!; [by erewrite act_bind_Raise by exact E1| |by rewrite (fr_holder _ _ _ Hf1)].
    rewrite <-Hs. by apply state_at_file, Hfl1.
  - assert (run_dirs (crash owner w) !! st_run self = Some (MkRunDir (files rd) None)) as Hdc.
    { cbn. rewrite lookup_fmap, Hd. cbn. by rewrite Hh, decide_True. }
    eapply (reopen_dead_ok self (crash owner w) s); [done| |done|done].
    rewrite <-Hs. apply state_at_file. unfold file_at. by rewrite Hdc, Hd.
Qed.
End Claims.

(** ** Concrete stores *)
Module StoreDemo.
Definition s0 : State := MkState SCHEMA_VERSION "r" "p" "d" "u" PHASE_RUN "t0"
  [MkResource "pool" "a" None "t0" None ∅] [MkNodeRecord "pool:a" (Some "t0") None].
Definition dir0 : RunDir := MkRunDir {[ state_json := Doc (state_to_json s0) ]} (Some 1).
Definition w0 (fs : list bool) : World () := MkWorld {[ "r" := dir0 ]} fs "t1" 7 () [].
Definition self : StateStore := MkStore "r" 2.

(** The directory fsync failing leaves the new document; an earlier failure the old one. *)
Example late_fault : phase <$> state_at (set_phase self PHASE_DONE (w0 [false; false; false; false; true])).2 "r" = Some PHASE_DONE.
Proof. vm_compute. reflexivity. Qed.
Example early_fault : phase <$> state_at (set_phase self PHASE_DONE (w0 [false; false; false; true])).2 "r" = Some PHASE_RUN.
Proof. vm_compute. reflexivity. Qed.

Lemma state_write_atomic_witness :
  let '(r, w') := rmw self (λ s, mret (with_phase PHASE_DONE s)) (w0 [false; true]) in
  state_at (crash 1 w') "r" = Some s0 ∨ state_at (crash 1 w') "r" = Some (with_phase PHASE_DONE s0).
Proof.
  destruct (rmw self (λ s, mret (with_phase PHASE_DONE s)) (w0 [false; true])) as [r w'] eqn:E.
  pose proof (state_write_atomic self (λ s, mret (with_phase PHASE_DONE s)) (w0 [false; true]) r w' s0 1) as H.
  cbv zeta iota beta in H. apply H.
  - vm_compute. reflexivity.
  - intros s' [= <-]. reflexivity.
  - exact E.
Defined.

Lemma ledger_roundtrip_witness :
  let '(r, w') := write_state_atomic self (with_phase PHASE_DONE s0) (w0 []) in
  r = Ok () ∧ (store_read self w').1 = Ok (with_phase PHASE_DONE s0).
Proof.
  destruct (write_state_atomic self (with_phase PHASE_DONE s0) (w0 [])) as [r w'] eqn:E.
  apply (ledger_roundtrip self (with_phase PHASE_DONE s0) (w0 []) r w'); [by eexists|reflexivity|exact E].
Defined.

Lemma node_stamp_upsert_witness :
  ∃ w' s', mark_node_realized self "pool:a" (w0 []) = (Ok (), w') ∧ state_at w' "r" = Some s' ∧
    node_record s' "pool:a" = Some (MkNodeRecord "pool:a" (Some "t0") (Some "t1")).
Proof.
  destruct (node_stamp_upsert self (w0 []) s0 "pool:a" true) as (w' & s' & H1 & H2 & _ & _ & _ & H3 & _).
  - reflexivity.
  - vm_compute. reflexivity.
  - apply NoDup_singleton.
  - exists w', s'. auto.
Defined.

Lemma reopen_ownership_witness :
  ∃ w', reopen self (crash 1 (w0 [])) = (Ok s0, w') ∧ holder_at w' "r" = Some 2.
Proof.
  destruct (reopen_ownership self (w0 []) s0 1) as [_ (w' & H1 & _ & H2)].
  - reflexivity.
  - vm_compute. reflexivity.
  - vm_compute. reflexivity.
  - exists w'. auto.
Defined.
End StoreDemo.
