(* ===== verification/RmwLock.v ===== *)
(** * Concurrent workers and the read-modify-write lock ([StateStore._rmw_lock])

    The run's workers record, confirm and forget resources concurrently.  Each
    operation takes the lock, reads the document, computes the new one, writes it
    and releases.  Here those are separate steps of separate threads, interleaved
    arbitrarily: the executions are exactly the sequential ones. *)

From S2P Require Import Prelude Exceptions Ledger Store.
From stdpp Require Import options.

(** One read-modify-write operation: what it computes from the document read. *)
Definition rmw_op : Type := State → res State.

Inductive pc : Type :=
  | Idle
  | Locked
  | Loaded (s : State)
  | Stored.

Record thread : Type := MkThread { todo : list rmw_op; t_pc : pc }.

(** [log] is ghost: the operations that took effect, in order. *)
Record conf : Type := MkConf {
  shared : State;
  lock : option nat;
  threads : list thread;
  log : list (nat * rmw_op);
}.

Inductive step : conf → conf → Prop :=
  | step_acquire c i f fs :
      lock c = None → threads c !! i = Some (MkThread (f :: fs) Idle) →
      step c (MkConf (shared c) (Some i) (<[i := MkThread (f :: fs) Locked]> (threads c)) (log c))
  | step_load c i f fs :
      threads c !! i = Some (MkThread (f :: fs) Locked) →
      step c (MkConf (shared c) (lock c) (<[i := MkThread (f :: fs) (Loaded (shared c))]> (threads c)) (log c))
  | step_store c i f fs s s' :
      threads c !! i = Some (MkThread (f :: fs) (Loaded s)) → f s = Ok s' →
      step c (MkConf s' (lock c) (<[i := MkThread fs Stored]> (threads c)) (log c ++ [(i, f)]))
  | step_release c i fs :
      threads c !! i = Some (MkThread fs Stored) →
      step c (MkConf (shared c) None (<[i := MkThread fs Idle]> (threads c)) (log c))
  | step_raise c i f fs s e :
      (* the exception leaves the [with] block and ends the worker *)
      threads c !! i = Some (MkThread (f :: fs) (Loaded s)) → f s = Raise e →
      step c (MkConf (shared c) None (<[i := MkThread [] Idle]> (threads c)) (log c)).

Definition start (s : State) (work : list (list rmw_op)) : conf :=
  MkConf s None ((λ fs, MkThread fs Idle) <$> work) [].

(** ** Sequential meaning *)

Definition apply_log (s : State) (l : list (nat * rmw_op)) : res State :=
  foldM (λ s f, f.2 s) s l.

(** The operations of thread [i] in the log. *)
Definition of_thread (i : nat) (l : list (nat * rmw_op)) : list rmw_op :=
  snd <$> filter (λ p, p.1 = i) l.

Record conf_inv (s0 : State) (work : list (list rmw_op)) (c : conf) : Prop := {
  ci_log : apply_log s0 (log c) = Ok (shared c);
  ci_lock : ∀ i t, threads c !! i = Some t → t_pc t ≠ Idle → lock c = Some i;
  ci_loaded : ∀ i t s, threads c !! i = Some t → t_pc t = Loaded s → s = shared c;
  ci_len : length (threads c) = length work;
  ci_order : ∀ i t fs, threads c !! i = Some t → work !! i = Some fs →
    of_thread i (log c) ++ todo t = fs ∨
    todo t = [] ∧ t_pc t = Idle ∧
      ∃ f rest s e, fs = of_thread i (log c) ++ f :: rest ∧ f s = Raise e;
  ci_owner : ∀ p, p ∈ log c → p.1 < length work;
}.

Lemma of_thread_snoc i l j f :
  of_thread i (l ++ [(j, f)]) = of_thread i l ++ if decide (j = i) then [f] else [].
Proof.
  unfold of_thread. rewrite filter_app, fmap_app. f_equal. rewrite filter_cons. cbn.
  by destruct (decide (j = i)).
Qed.

Lemma start_inv s work : conf_inv s work (start s work).
Proof.
  split; cbn; try done.
  - intros i t (fs & -> & Hi)%list_lookup_fmap_Some. done.
  - intros i t s' (fs & -> & Hi)%list_lookup_fmap_Some. done.
  - by rewrite length_fmap.
  - intros i t fs (fs' & -> & Hi)%list_lookup_fmap_Some Hw. left. cbn. congruence.
  - intros p Hp. by apply not_elem_of_nil in Hp.
Qed.

(** Splits the lookup of a thread into the one that stepped and the others. *)
Ltac thread_cases H :=
  apply list_lookup_insert_Some in H as [(<- & <- & _)|[? H]]; cbn in *.

Lemma step_inv s work c c' : conf_inv s work c → step c c' → conf_inv s work c'.
Proof.
  intros HI Hs. pose proof HI as [Hlog Hlock Hld Hlen Hord Hown].
  destruct Hs as [c i f fs Hl Hi|c i f fs Hi|c i f fs sl s' Hi Hf|c i fs Hi|c i f fs sl e Hi Hf].
  - split; cbn [shared lock threads log]; try done.
    + intros j t Hj Hp. thread_cases Hj; [done|]. specialize (Hlock j t Hj Hp). congruence.
    + intros j t s1 Hj Hp. thread_cases Hj; [done|]. by eapply Hld.
    + by rewrite length_insert.
    + intros j t fs' Hj Hw. thread_cases Hj; [by destruct (Hord _ _ _ Hi Hw) as [?|[? _]]; [left|]|by eapply Hord].
  - split; cbn [shared lock threads log]; try done.
    + intros j t Hj Hp. thread_cases Hj; [by eapply Hlock|]. by eapply Hlock.
    + intros j t s1 Hj Hp. thread_cases Hj; [congruence|]. by eapply Hld.
    + by rewrite length_insert.
    + intros j t fs' Hj Hw. thread_cases Hj; [by destruct (Hord _ _ _ Hi Hw) as [?|[? _]]; [left|]|by eapply Hord].
  - assert (sl = shared c) as -> by by eapply Hld. assert (lock c = Some i) as Hli by by eapply Hlock.
    assert (i < length work) as Hiw by (rewrite <-Hlen; by eapply lookup_lt_Some).
    split; cbn [shared lock threads log].
    + unfold apply_log. rewrite foldM_app. unfold apply_log in Hlog. rewrite Hlog. cbn. by rewrite Hf.
    + intros j t Hj Hp. thread_cases Hj; [done|]. by eapply Hlock.
    + intros j t s1 Hj Hp. thread_cases Hj; [done|]. assert (lock c = Some j) by (eapply Hlock; [done|by rewrite Hp]).
      congruence.
    + by rewrite length_insert.
    + intros j t fs' Hj Hw. rewrite of_thread_snoc. thread_cases Hj.
      * rewrite decide_True by done. destruct (Hord _ _ _ Hi Hw) as [<-|[? _]]; [|done]. left. cbn.
        by rewrite <-app_assoc.
      * rewrite decide_False, app_nil_r by done. by eapply Hord.
    + intros p [Hp| ->%list_elem_of_singleton]%elem_of_app; [by apply Hown|done].
  - assert (lock c = Some i) as Hli by by eapply Hlock. split; cbn [shared lock threads log]; try done.
    + intros j t Hj Hp. thread_cases Hj; [done|]. assert (lock c = Some j) by by eapply Hlock. congruence.
    + intros j t s1 Hj Hp. thread_cases Hj; [done|]. by eapply Hld.
    + by rewrite length_insert.
    + intros j t fs' Hj Hw. thread_cases Hj; [destruct (Hord _ _ _ Hi Hw) as [?|(? & ? & ?)]; [by left|done]|].
      by eapply Hord.
  - assert (lock c = Some i) as Hli by by eapply Hlock. split; cbn [shared lock threads log]; try done.
    + intros j t Hj Hp. thread_cases Hj; [done|]. assert (lock c = Some j) by by eapply Hlock. congruence.
    + intros j t s1 Hj Hp. thread_cases Hj; [done|]. by eapply Hld.
    + by rewrite length_insert.
    + intros j t fs' Hj Hw. thread_cases Hj; [|by eapply Hord].
      right. split_and!; [done|done|]. destruct (Hord _ _ _ Hi Hw) as [<-|[? _]]; [|done]. by exists f, fs, sl, e.
Qed.

Lemma steps_inv s work c : rtc step (start s work) c → conf_inv s work c.
Proof.
  intros Hr. cut (∀ c0, conf_inv s work c0 → rtc step c0 c → conf_inv s work c).
  { intros Hc. eapply Hc; [apply start_inv|done]. }
  intros c0 HI Hr0. clear Hr. induction Hr0 as [|c1 c2 c3 H1 _ IH]; [done|]. by eapply IH, step_inv.
Qed.

(** C6: however the workers interleave, the document is at every moment the
    result of running, one after the other, the operations that took effect;
    each worker's operations take effect in its own order; at most one worker
    is inside the lock. *)
Theorem rmw_linearizable s work c :
  rtc step (start s work) c →
  apply_log s (log c) = Ok (shared c) ∧
  (∀ i fs, work !! i = Some fs → of_thread i (log c) `prefix_of` fs) ∧
  (∀ i j t u, threads c !! i = Some t → threads c !! j = Some u →
     t_pc t ≠ Idle → t_pc u ≠ Idle → i = j).
Proof.
  intros [Hlog Hlock _ Hlen Hord _]%steps_inv. split_and!; [done| |].
  - intros i fs Hw. destruct (lookup_lt_is_Some_2 (threads c) i) as [t Ht].
    { rewrite Hlen. by eapply lookup_lt_Some. }
    destruct (Hord i t fs Ht Hw) as [<-|(_ & _ & f & rest & ? & ? & -> & _)]; by eexists.
  - intros i j t u Hi Hj Hti Huj. pose proof (Hlock _ _ Hi Hti). pose proof (Hlock _ _ Hj Huj). congruence.
Qed.

(** ** No lost update *)

Definition record_op (r : Resource) : rmw_op := λ s, mret (with_resource s r).

Lemma apply_records s l s' :
  (∀ p, p ∈ l → ∃ r, p.2 = record_op r) → apply_log s l = Ok s' →
  ∀ r, r ∈ resources s ∨ record_op r ∈ l.*2 → r ∈ resources s'.
Proof.
  revert s. induction l as [|[i f] l IH]; intros s Hall Hap r Hr; cbn in *.
  - injection Hap as ->. destruct Hr as [Hr|Hr]; [done|by apply not_elem_of_nil in Hr].
  - destruct (Hall (i, f)) as [r0 Hf]; [apply list_elem_of_here|]. cbn in Hf. subst f. cbn in Hap.
    apply (IH _ (λ p Hp, Hall p (list_elem_of_further _ _ _ Hp)) Hap). cbn.
    destruct Hr as [Hr|Hr]; [left; set_solver|]. apply elem_of_cons in Hr as [Heq|Hr]; [|by right].
    left. apply (f_equal (λ f, f s)) in Heq. unfold record_op, mret, result_ret, with_resource in Heq.
    injection Heq as Heq. apply app_inj_tail in Heq as [_ ->]. set_solver.
Qed.

Lemma log_of_thread c i f : f ∈ of_thread i (log c) → f ∈ (log c).*2.
Proof.
  unfold of_thread. intros ([j f'] & -> & Hp)%list_elem_of_fmap. apply list_elem_of_filter in Hp as [_ Hp].
  by apply (list_elem_of_fmap_2 snd).
Qed.

(** No recorded resource is lost: when every worker only records and all
    have finished, each resource any of them recorded is in the document. *)
Theorem no_lost_intent s work c :
  (∀ i fs f, work !! i = Some fs → f ∈ fs → ∃ r, f = record_op r) →
  rtc step (start s work) c → (∀ i t, threads c !! i = Some t → todo t = []) →
  ∀ i fs r, work !! i = Some fs → record_op r ∈ fs → r ∈ resources (shared c).
Proof.
  intros Hrec Hr%steps_inv Hdone i fs r Hw Hin. pose proof Hr as [Hlog _ _ Hlen Hord Hown].
  assert (∀ j gs, work !! j = Some gs → of_thread j (log c) = gs) as Hall.
  { intros j gs Hj. destruct (lookup_lt_is_Some_2 (threads c) j) as [t Ht].
    { rewrite Hlen. by eapply lookup_lt_Some. }
    destruct (Hord j t gs Ht Hj) as [Heq|(_ & _ & f & rest & s1 & e & -> & He)].
    - by rewrite (Hdone j t Ht), app_nil_r in Heq.
    - destruct (Hrec j _ f Hj) as [r0 ->]; [set_solver|done]. }
  apply (apply_records s (log c)); [|done|].
  - intros [j f] Hp. destruct (lookup_lt_is_Some_2 work j (Hown _ Hp)) as [gs Hj].
    eapply (Hrec j gs f Hj). rewrite <-(Hall j gs Hj). unfold of_thread.
    apply list_elem_of_fmap. exists (j, f). split; [done|]. by apply list_elem_of_filter.
  - right. apply (log_of_thread c i). by rewrite (Hall i fs Hw).
Qed.

(** ** A concrete interleaving *)
Module RmwDemo.
Definition s0 : State := MkState SCHEMA_VERSION "r" "p" "d" "u" PHASE_RUN "t" [] [].
Definition ra : Resource := MkResource "pool" "a" None "t" None ∅.
Definition rb : Resource := MkResource "pool" "b" None "t" None ∅.
Definition work : list (list rmw_op) := [[record_op ra]; [record_op rb]].
Definition final : conf :=
  MkConf (with_resource (with_resource s0 rb) ra) None [MkThread [] Idle; MkThread [] Idle]
    [(1, record_op rb); (0, record_op ra)].

(** The second worker goes first. *)
Lemma final_reachable : rtc step (start s0 work) final.
Proof.
  eapply rtc_l; [by apply (step_acquire _ 1 (record_op rb) [])|].
  eapply rtc_l; [by apply (step_load _ 1 (record_op rb) [])|].
  eapply rtc_l; [by apply (step_store _ 1 (record_op rb) [] s0 (with_resource s0 rb))|].
  eapply rtc_l; [by apply (step_release _ 1 [])|].
  eapply rtc_l; [by apply (step_acquire _ 0 (record_op ra) [])|].
  eapply rtc_l; [by apply (step_load _ 0 (record_op ra) [])|].
  eapply rtc_l; [by apply (step_store _ 0 (record_op ra) [] (with_resource s0 rb)
    (with_resource (with_resource s0 rb) ra))|].
  eapply rtc_l; [by apply (step_release _ 0 [])|]. apply rtc_refl.
Qed.

Lemma rmw_linearizable_witness :
  apply_log s0 (log final) = Ok (shared final) ∧ of_thread 0 (log final) `prefix_of` [record_op ra].
Proof.
  destruct (rmw_linearizable s0 work final final_reachable) as (H1 & H2 & _).
  split; [exact H1|]. apply (H2 0). reflexivity.
Defined.

Lemma no_lost_intent_witness : ra ∈ resources (shared final) ∧ rb ∈ resources (shared final).
Proof.
  assert (∀ i fs f, work !! i = Some fs → f ∈ fs → ∃ r, f = record_op r) as Hrec.
  { intros [|[|i]] fs f; intros [= <-] ->%list_elem_of_singleton; eauto. }
  assert (∀ i t, threads final !! i = Some t → todo t = []) as Hdone.
  { intros [|[|i]] t; by intros [= <-]. }
  split.
  - apply (no_lost_intent s0 work final Hrec final_reachable Hdone 0 [record_op ra]); [reflexivity|].
    apply list_elem_of_here.
  - apply (no_lost_intent s0 work final Hrec final_reachable Hdone 1 [record_op rb]); [reflexivity|].
    apply list_elem_of_here.
Defined.
End RmwDemo.
