(* ===== verification/Cleanup.v ===== *)
(** * The driver, as the ledger-driven code sees it ([testrange/drivers/base.py])

    The backend SDKs are outside the model: a driver is an instance of [Driver],
    whose operations act on an arbitrary backend state and may raise anything.
    The [destroy] dispatch of the base class is the code's own. *)

From S2P Require Import Prelude Exceptions Eff Ledger Store StoreSpec.
From stdpp Require Import options.

(** A call into the backend. *)
Abbreviation op B A := (B → res A * B).

(** The abstract methods of [HypervisorDriver] that reclaim resources, the pure
    name composition, and the registry that rebuilds a driver from [state.json]. *)
Class Driver (B : Type) : Type := {
  driver_for_name : string → string → res ();
  drv_connect : op B ();
  drv_disconnect : op B ();
  compose_volume_ref : string → string → string;
  destroy_switch : string → op B ();
  destroy_network : string → op B ();
  destroy_pool : string → op B ();
  destroy_vm : string → op B ();
  delete_volume : string → op B ();
}.
#[export] Hint Mode Driver ! : typeclass_instances.

Section Calls.
Context {B : Type}.

(** Runs a backend operation and records the call in the trace. *)
Definition perform {A} (o : op B A) (c : res A → call) : act (World B) A := λ w,
  let '(r, b) := o (backend w) in
  (r, emit (EvCall (c r)) (set_backend b w)).
End Calls.

Section Dispatch.
Context `{Driver B}.

Definition network_kinds : list string := ["network"; "build_network"].
Definition pool_kinds : list string := ["pool"; "build_pool"].
Definition vm_kinds : list string := ["vm"; "build_vm"; "sidecar_vm"].
Definition volume_kinds : list string :=
  ["build_disk"; "build_seed"; "boot_iso"; "run_disk"; "data_disk"; "base_image"; "volume";
   "sidecar_disk"; "sidecar_config"].
Definition switch_kinds : list string := ["switch"; "build_switch"].

(** [str(metadata.get("pool_backend"))], refused when falsy. *)
Definition pool_backend_of (kind : string) (md : gmap string json) : res string :=
  match md !! "pool_backend" with
  | None | Some JNull | Some (JBool false) | Some (JNum 0) | Some (JStr "") | Some (JArr []) =>
      raise ValueError [kind]
  | Some (JStr p) => mret p
  | Some (JObj m) => if decide (m = ∅) then raise ValueError [kind] else raise UntypedField []
  | Some _ => raise UntypedField []
  end.

Definition fails {A} (e : exn) : op B A := λ b, (Raise e, b).

Definition destroy_kind (kind name : string) (md : gmap string json) : op B () :=
  if decide (kind ∈ network_kinds) then destroy_network name
  else if decide (kind ∈ pool_kinds) then destroy_pool name
  else if decide (kind ∈ vm_kinds) then destroy_vm name
  else if decide (kind ∈ volume_kinds) then
    match pool_backend_of kind md with
    | Ok p => delete_volume (compose_volume_ref (B:=B) p name)
    | Raise e => fails e
    end
  else if decide (kind ∈ switch_kinds) then destroy_switch name
  else fails (Exn NotImplementedError [kind]).

(** [driver.destroy(r.kind, r.backend_name, **dict(r.metadata))]: a metadata key
    that repeats a positional parameter is a [TypeError] of the call itself. *)
Definition destroy_resource (r : Resource) : op B () :=
  if decide (metadata r !! "kind" = None ∧ metadata r !! "backend_name" = None
             ∧ metadata r !! "self" = None)
  then destroy_kind (r_kind r) (backend_name r) (metadata r)
  else fails (Exn TypeError ["destroy"]).

Definition destroy (r : Resource) : act (World B) () :=
  perform (destroy_resource r) (λ o, CDestroy (r_kind r) (backend_name r) (is_ok o)).

Definition connect : act (World B) () := perform drv_connect (λ _, CConnect).
Definition disconnect : act (World B) () := perform drv_disconnect (λ _, CDisconnect).
End Dispatch.

(** ** Teardown and recovery ([orchestrator/teardown.py], [state/cleanup.py])

    Both reverse the ledger: every recorded resource is destroyed newest first,
    and forgotten once its destroy returned. *)

Section Cleanup.
Context `{Driver B}.

(** The loop body both share: destroy, forget, note the success; an [Exception]
    is noted and the loop goes on. *)
Definition attempt {S} (self : StateStore) (on_ok : S → S) (on_err : exn → S → S)
    (r : Resource) (s : S) : act (World B) S :=
  catch (destroy r;; forget self (backend_name r);; mret (on_ok s))
    is_exception (λ e, mret (on_err e s)).

(** ** [teardown] *)

Definition teardown_one (self : StateStore) (counts : nat * nat) (r : Resource)
    : act (World B) (nat * nat) :=
  attempt self (λ '(ok, failed), (S ok, failed)) (λ _ '(ok, failed), (ok, S failed)) r counts.

(** [try: m / except Exception: log] *)
Definition best_effort (m : act (World B) ()) : act (World B) () :=
  catch m is_exception (λ _, mret ()).

Definition teardown (self : StateStore) : act (World B) () :=
  best_effort (set_phase self PHASE_CLEANUP);;
  so ← catch (s ← store_read self; mret (Some s)) is_exception (λ _, mret None);
  match (so : option State) with
  | None => mret ()
  | Some s =>
      foldA (teardown_one self) (0, 0) (reverse (resources s));;
      remaining ← catch (s ← store_read self; mret (resources s)) is_exception (λ _, mret []);
      match remaining with
      | [] => best_effort (set_phase self PHASE_DONE;; release self;; remove self)
      | _ => mret ()
      end
  end.

(** ** [cleanup_run] *)

Record CleanupResult : Type := MkCleanupResult {
  cr_run_id : string;
  destroyed : list string;
  skipped : list string;
  errors : list (string * exn);
}.

Definition cleanup_one (self : StateStore) (acc : list string * list (string * exn)) (r : Resource)
    : act (World B) (list string * list (string * exn)) :=
  attempt self (λ '(d, e), (d ++ [backend_name r], e))
    (λ x '(d, e), (d, e ++ [(backend_name r, x)])) r acc.

(** The part of [cleanup_run] after the ledger has been read. *)
Definition cleanup_body (self : StateStore) (dry_run : bool) (state : State)
    : act (World B) CleanupResult :=
  let run := st_run self in
  if dry_run then
    mret (MkCleanupResult run [] (backend_name <$> reverse (resources state)) [])
  else
    match resources state with
    | [] =>
        set_phase self PHASE_DONE;;
        remove self;;
        mret (MkCleanupResult run [] [] [])
    | _ =>
        lift (driver_for_name (B:=B) (driver_class state) (driver_uri state));;
        connect;;
        '(d, e) ← finally (
            set_phase self PHASE_CLEANUP;;
            foldA (cleanup_one self) ([], []) (reverse (resources state)))
          disconnect;
        final ← store_read self;
        match resources final, e with
        | [], [] => set_phase self PHASE_DONE;; remove self
        | [], _ => set_phase self PHASE_DONE
        | _, _ => mret ()
        end;;
        mret (MkCleanupResult run d [] e)
    end.

Definition cleanup_run (self : StateStore) (dry_run : bool) : act (World B) CleanupResult :=
  ex ← store_exists self;
  throw_when (negb ex) StateError ["no state.json"; st_run self];;
  require_dead self;;
  state ← store_read self;
  cleanup_body self dry_run state.

(** ** [forget_run] *)
Definition forget_run (self : StateStore) : act (World B) (list string) :=
  isd ← dir_exists (st_run self);
  throw_when (negb isd) StateError ["no run dir"; st_run self];;
  require_dead self;;
  ex ← store_exists self;
  forgotten ← (if (ex : bool) then
      catch (s ← store_read self; mret (backend_name <$> resources s))
        (λ e, isinstance e StateError) (λ _, mret [])
    else mret []);
  remove self;;
  mret forgotten.

(** ** [cleanup_all] *)

(** The run directories of the state root, sorted by name. *)
Definition find_run_dirs : act (World B) (list string) :=
  gets (λ w, sorted_set (dom (run_dirs w))).

Definition cleanup_all_one (fresh : nat) (dry_run : bool) (run : string)
    : act (World B) CleanupResult :=
  let failed tag e := MkCleanupResult run [] [] [(tag, e)] in
  catch (cleanup_run (MkStore run fresh) dry_run) is_exception (λ e,
    mret (if isinstance e StateLockedError then failed "(locked)" e
          else if isinstance e StateError then failed "(state)" e
          else failed "(driver)" e)).

Definition cleanup_all (fresh : nat) (dry_run : bool) : act (World B) (list CleanupResult) :=
  ds ← find_run_dirs;
  foldA (λ acc d, r ← cleanup_all_one fresh dry_run d; mret (acc ++ [r])) [] ds.

(** ** [list_runs] *)

Record RunInfo : Type := MkRunInfo {
  ri_run_id : string;
  ri_running : bool;
  ri_phase : string;
  ri_plan_name : string;
  ri_created_at : string;
  resource_count : nat;
  ri_error : option exn;
}.

Definition run_info (fresh : nat) (d : string) : act (World B) RunInfo :=
  let self := MkStore d fresh in
  let bad running e := MkRunInfo d running "" "" "" 0 (Some e) in
  running ← is_running self;
  ex ← store_exists self;
  if (ex : bool) then
    catch
      (s ← store_read self;
       mret (MkRunInfo d running (phase s) (plan_name s) (created_at s) (length (resources s)) None))
      (λ e, isinstance e StateError) (λ e, mret (bad running e))
  else mret (bad running (Exn StateError ["no state.json"])).

Definition list_runs (fresh : nat) : act (World B) (list RunInfo) :=
  ds ← find_run_dirs;
  foldA (λ acc d, i ← run_info fresh d; mret (acc ++ [i])) [] ds.
End Cleanup.

(** ** What teardown and cleanup guarantee

    Every recorded resource is attempted, newest first, whatever fails; nothing
    leaves the ledger unless its destroy returned; a drained run disappears; a
    live run is never touched. *)

(** ** The destroys of a trace *)

Definition destroy_call (e : event) : option (string * string * bool) :=
  match e with EvCall (CDestroy k n ok) => Some (k, n, ok) | _ => None end.

(** Every destroy attempted, in order. *)
Definition destroy_calls (t : list event) : list (string * string) :=
  fst <$> omap destroy_call t.

(** The names whose destroy returned. *)
Definition destroyed_names (t : list event) : list string :=
  omap (λ c, if c.2 : bool then Some c.1.2 else None) (omap destroy_call t).

Lemma destroy_calls_app t1 t2 : destroy_calls (t1 ++ t2) = destroy_calls t1 ++ destroy_calls t2.
Proof. unfold destroy_calls. by rewrite omap_app, fmap_app. Qed.
Lemma destroyed_names_app t1 t2 :
  destroyed_names (t1 ++ t2) = destroyed_names t1 ++ destroyed_names t2.
Proof. unfold destroyed_names. by rewrite omap_app, omap_app. Qed.

Definition resource_id (r : Resource) : string * string := (r_kind r, backend_name r).

Section Spec.
Context `{Driver B}.
Implicit Types (self : StateStore) (w : World B) (d : string).

(** [frame] without the backend. *)
Record loose_frame d w w' : Prop := {
  lf_other : ∀ d', d' ≠ d → run_dirs w' !! d' = run_dirs w !! d';
  lf_holder : holder_at w' d = holder_at w d;
  lf_dir : is_Some (run_dirs w' !! d) ↔ is_Some (run_dirs w !! d);
  lf_now : now w' = now w;
  lf_faults : faults w' `suffix_of` faults w;
}.

Lemma frame_loose d w w' : frame d w w' → loose_frame d w w'.
Proof. intros []. by split. Qed.
Lemma loose_frame_refl d w : loose_frame d w w.
Proof. by split. Qed.
Lemma loose_frame_trans d w1 w2 w3 : loose_frame d w1 w2 → loose_frame d w2 w3 → loose_frame d w1 w3.
Proof.
  intros [] []. split; try congruence; try (by etrans). intros d' Hd. by rewrite lf_other1, lf_other0.
Qed.

Lemma perform_inv {A} (o : op B A) c w r w' :
  perform o c w = (r, w') →
  run_dirs w' = run_dirs w ∧ faults w' = faults w ∧ now w' = now w ∧
  trace w' = trace w ++ [EvCall (c r)] ∧ o (backend w) = (r, backend w').
Proof.
  unfold perform. destruct (o (backend w)) as [r1 b]. intros [= <- <-]. done.
Qed.

Lemma perform_frame {A} (o : op B A) c w r w' d :
  perform o c w = (r, w') → loose_frame d w w'.
Proof.
  intros (Hd & Hf & Hn & _ & _)%perform_inv.
  split; [intros; by rewrite Hd|unfold holder_at; by rewrite Hd|by rewrite Hd|done|by rewrite Hf].
Qed.

Lemma state_at_dirs w w' d : run_dirs w' = run_dirs w → state_at w' d = state_at w d.
Proof. intros. by apply state_at_file, file_at_dir. Qed.

Lemma other_files_dirs w w' d : run_dirs w' = run_dirs w → other_files_same d w w'.
Proof. intros Hd m _ _. by apply file_at_dir. Qed.

Lemma other_files_trans d w1 w2 w3 :
  other_files_same d w1 w2 → other_files_same d w2 w3 → other_files_same d w1 w3.
Proof. intros H1 H2 m Ha Hb. by rewrite H2, H1. Qed.

(** What one loop iteration does, by the outcome of the destroy. *)
Lemma attempt_inv {S} self on_ok on_err r (s : S) w res w' st :
  state_at w (st_run self) = Some st →
  attempt self on_ok on_err r s w = (res, w') →
  ∃ o t, destroy_resource r (backend w) = (o, backend w') ∧
    loose_frame (st_run self) w w' ∧ other_files_same (st_run self) w w' ∧
    trace w' = trace w ++ EvCall (CDestroy (r_kind r) (backend_name r) (is_ok o)) :: t ∧
    (t = [] ∨ ∃ j, t = [EvState (st_run self) j]) ∧
    match o with
    | Raise e => run_dirs w' = run_dirs w ∧ res = if is_exception e then Ok (on_err e s) else Raise e
    | Ok _ =>
        res = Ok (on_ok s) ∧ state_at w' (st_run self) = Some (remove_resource st (backend_name r)) ∨
        res = Ok (on_err (Exn OSError []) s) ∧ true ∈ faults w ∧
          (state_at w' (st_run self) = Some st ∨
           state_at w' (st_run self) = Some (remove_resource st (backend_name r)))
    end.
Proof.
  intros Hst. unfold attempt, catch, destroy. unfold mbind at 1, act_bind at 1.
  destruct (perform _ _ w) as [r1 w1] eqn:Hp.
  pose proof (perform_frame _ _ _ _ _ (st_run self) Hp) as Hf1.
  apply perform_inv in Hp as (Hd & Hfa & _ & Ht & Ho). destruct r1 as [[]|e].
  2:{ intros Hres. exists (Raise e), []. destruct (is_exception e) eqn:He; injection Hres as <- <-;
        (split_and!; [done|done|by apply other_files_dirs|done|by left|done|done]). }
  assert (state_at w1 (st_run self) = Some st) as Hst1 by (by rewrite (state_at_dirs w)).
  destruct ((forget self (backend_name r);; mret (on_ok s)) w1) as [r2 w2] eqn:Hfg. cbn.
  intros Hres. exists (Ok ()).
  assert (∃ r3, forget self (backend_name r) w1 = (r3, w2) ∧
    r2 = match r3 with Ok _ => Ok (on_ok s) | Raise e => Raise e end) as (r3 & Hr3 & ->).
  { apply act_bind_inv in Hfg as [([] & w3 & ? & Hm)|(e & ? & ->)]; [|eauto].
    injection Hm as <- <-. eauto. }
  apply (rmw_inv _ _ _ _ _ st) in Hr3 as (Hf & Ho3 & Hout); [|done|].
  2:{ intros s' [= <-]. exact (state_at_version _ _ _ Hst1). }
  pose proof (loose_frame_trans _ _ _ _ Hf1 (frame_loose _ _ _ Hf)) as Hlf.
  pose proof (other_files_trans _ _ _ _ (other_files_dirs _ _ (st_run self) Hd) Ho3) as Hof.
  pose proof (fr_backend _ _ _ Hf) as Hb. unfold ledger_step, ledger_same in Hout.
  rewrite <-Hb in Ho. rewrite Ht in Hout.
  destruct Hout as [(s' & [= <-] & -> & Hs & Ht2)|(e & -> & He & Hl)].
  - injection Hres as <- <-. exists [EvState (st_run self) (state_to_json (remove_resource st (backend_name r)))].
    split_and!; [done|done|done| |by eauto|by left]. rewrite Ht2, <-app_assoc. done.
  - destruct He as [[=]|[-> Hin]]. cbn in Hres. injection Hres as <- <-. rewrite Hfa in Hin.
    destruct Hl as [[Hs Ht2]|(s' & [= <-] & Hs & Ht2)].
    + exists []. split_and!; [done|done|done|done|by left|]. right. split_and!; try done. left. congruence.
    + exists [EvState (st_run self) (state_to_json (remove_resource st (backend_name r)))].
      split_and!; [done|done|done| |by eauto|]; [by rewrite Ht2, <-app_assoc|]. right. split_and!; try done. by right.
Qed.

(** ** The destroy loop *)

(** A trace segment with no destroy in it. *)
Definition quiet (t : list event) : Prop := omap destroy_call t = [].

Lemma destroy_calls_attempt t k n ok t' :
  quiet t' → destroy_calls (t ++ EvCall (CDestroy k n ok) :: t') = destroy_calls t ++ [(k, n)].
Proof. intros Hq. rewrite destroy_calls_app. unfold destroy_calls. cbn. by rewrite Hq. Qed.

Lemma destroyed_names_attempt t k n ok t' :
  quiet t' →
  destroyed_names (t ++ EvCall (CDestroy k n ok) :: t') =
    destroyed_names t ++ if ok : bool then [n] else [].
Proof. intros Hq. rewrite destroyed_names_app. unfold destroyed_names. cbn. rewrite Hq. by destruct ok. Qed.

(** The ledger and the trace after attempting [done], started from [w0]. *)
Record loop_inv self st0 w0 (done : list Resource) w (t : list event) (st : State) : Prop := {
  li_state : state_at w (st_run self) = Some st;
  li_frame : loose_frame (st_run self) w0 w;
  li_files : other_files_same (st_run self) w0 w;
  li_trace : trace w = trace w0 ++ t;
  li_calls : destroy_calls t = resource_id <$> done;
  li_sub : resources st `sublist_of` resources st0;
  li_kept : ∀ r, r ∈ resources st0 → r ∈ resources st ∨ backend_name r ∈ destroyed_names t;
  li_exact : true ∉ faults w0 →
    resources st = filter (λ r, backend_name r ∉ destroyed_names t) (resources st0);
  li_rest : st = set_resources (resources st) st0;
}.

Lemma loop_inv_init self st0 w0 :
  state_at w0 (st_run self) = Some st0 → loop_inv self st0 w0 [] w0 [] st0.
Proof.
  intros Hst. split; try done.
  - by rewrite app_nil_r.
  - by left.
  - intros _. symmetry. apply filter_all. intros x _. apply not_elem_of_nil.
  - by destruct st0.
Qed.

Lemma filter_filter_app (P Q : list string) (rs : list Resource) :
  filter (λ r, backend_name r ∉ Q) (filter (λ r, backend_name r ∉ P) rs) =
  filter (λ r, backend_name r ∉ P ++ Q) rs.
Proof. rewrite list_filter_filter. apply list_filter_iff. intros r. set_solver. Qed.

(** The invariant is kept whether or not the resource left the ledger, as long
    as it left only after its destroy returned. *)
Lemma loop_inv_keep self st0 w0 done w t st r ok w' t' :
  loop_inv self st0 w0 done w t st →
  state_at w' (st_run self) = Some st → loose_frame (st_run self) w w' →
  other_files_same (st_run self) w w' → quiet t' → (ok = true → true ∈ faults w) →
  trace w' = trace w ++ EvCall (CDestroy (r_kind r) (backend_name r) ok) :: t' →
  loop_inv self st0 w0 (done ++ [r]) w' (t ++ EvCall (CDestroy (r_kind r) (backend_name r) ok) :: t') st.
Proof.
  intros [] Hst Hlf Hof Hq Hok Ht. split; try done.
  - by eapply loose_frame_trans.
  - by eapply other_files_trans.
  - by rewrite Ht, li_trace0, <-app_assoc.
  - rewrite destroy_calls_attempt, li_calls0, fmap_app; done.
  - intros r' Hr'. rewrite destroyed_names_attempt by done. destruct (li_kept0 r' Hr'); set_solver.
  - intros Hnf. rewrite destroyed_names_attempt by done.
    destruct ok; [|rewrite app_nil_r; auto].
    destruct Hnf. eapply elem_of_suffix; [apply (lf_faults _ _ _ li_frame0)|auto].
Qed.

Lemma loop_inv_forget self st0 w0 done w t st r w' t' :
  loop_inv self st0 w0 done w t st →
  state_at w' (st_run self) = Some (remove_resource st (backend_name r)) →
  loose_frame (st_run self) w w' → other_files_same (st_run self) w w' → quiet t' →
  trace w' = trace w ++ EvCall (CDestroy (r_kind r) (backend_name r) true) :: t' →
  loop_inv self st0 w0 (done ++ [r]) w'
    (t ++ EvCall (CDestroy (r_kind r) (backend_name r) true) :: t') (remove_resource st (backend_name r)).
Proof.
  intros [] Hst Hlf Hof Hq Ht. split; try done.
  - by eapply loose_frame_trans.
  - by eapply other_files_trans.
  - by rewrite Ht, li_trace0, <-app_assoc.
  - rewrite destroy_calls_attempt, li_calls0, fmap_app; done.
  - cbn. etrans; [apply sublist_filter|done].
  - intros r' Hr'. rewrite destroyed_names_attempt by done. cbn.
    rewrite list_elem_of_filter. destruct (li_kept0 r' Hr') as [Hin|Hin]; [|set_solver].
    destruct (decide (backend_name r' = backend_name r)) as [->|]; set_solver.
  - intros Hnf. rewrite destroyed_names_attempt by done. cbn. rewrite li_exact0 by done.
    rewrite <-filter_filter_app. apply list_filter_iff. intros r'. set_solver.
  - rewrite li_rest0. by destruct st0.
Qed.

(** Backend calls raise only [Exception]s: nobody interrupts the process. *)
Definition uninterrupted : Prop :=
  ∀ r (b : B) e b', destroy_resource r b = (Raise e, b') → is_exception e = true.

Section Loop.
Context {S : Type} (self : StateStore) (on_ok : Resource → S → S) (on_err : Resource → exn → S → S).
Context (J : list Resource → S → list event → Prop) (w0 : World B).
Hypothesis J_ok : ∀ done s t r t', quiet t' → J done s t →
  J (done ++ [r]) (on_ok r s) (t ++ EvCall (CDestroy (r_kind r) (backend_name r) true) :: t').
Hypothesis J_err : ∀ done s t r e t' ok, quiet t' → (ok = true → true ∈ faults w0) → J done s t →
  J (done ++ [r]) (on_err r e s) (t ++ EvCall (CDestroy (r_kind r) (backend_name r) ok) :: t').
Set Default Proof Using "All".

Definition destroy_loop (s : S) (l : list Resource) : act (World B) S :=
  foldA (λ s r, attempt self (on_ok r) (on_err r) r s) s l.

(** However the loop ends, it attempted a prefix of [l] in order and the ledger
    is sound; it stops early only on an interrupt. *)
Lemma destroy_loop_inv st0 s0 l r w' :
  state_at w0 (st_run self) = Some st0 → J [] s0 [] →
  destroy_loop s0 l w0 = (r, w') →
  match r with
  | Ok s => ∃ t st, loop_inv self st0 w0 l w' t st ∧ J l s t
  | Raise e => is_exception e = false ∧ (∃ r (b b' : B), destroy_resource r b = (Raise e, b')) ∧
      ∃ done t st, done `prefix_of` l ∧ loop_inv self st0 w0 done w' t st
  end.
Proof.
  intros Hst HJ. revert r w'.
  cut (hoare (λ w, ∃ t st, loop_inv self st0 w0 [] w t st ∧ J [] s0 t) (destroy_loop s0 l)
    (λ r w', match r with
      | Ok s => ∃ t st, loop_inv self st0 w0 l w' t st ∧ J l s t
      | Raise e => is_exception e = false ∧ (∃ r (b b' : B), destroy_resource r b = (Raise e, b')) ∧
          ∃ done t st, done `prefix_of` l ∧ loop_inv self st0 w0 done w' t st
      end)).
  { intros Hh r w' Hr. eapply (Hh w0); [|done]. exists [], st0. split; [by apply loop_inv_init|done]. }
  apply (hoare_foldA (λ done s w, ∃ t st, loop_inv self st0 w0 done w t st ∧ J done s t)); [|done].
  intros done x rest s1 Hl w res w1 (t & st & HI & HJ1) Hat.
  apply (attempt_inv _ _ _ _ _ _ _ _ _ (li_state _ _ _ _ _ _ _ HI)) in Hat
    as (o & t' & Ho & Hlf & Hof & Ht & Hq & Hout).
  assert (quiet t') as Hq' by (destruct Hq as [->|[j ->]]; done).
  assert (true ∈ faults w → true ∈ faults w0) as Hfl.
  { intros Hin. eapply elem_of_suffix; [apply (lf_faults _ _ _ (li_frame _ _ _ _ _ _ _ HI))|done]. }
  destruct o as [[]|e].
  - destruct Hout as [[-> Hs]|(-> & Hin & [Hs|Hs])].
    + eexists _, _. split; [by eapply loop_inv_forget|by apply J_ok].
    + eexists _, _. split; [by eapply (loop_inv_keep _ _ _ _ _ _ _ _ true)|apply J_err; auto].
    + eexists _, _. split; [by eapply loop_inv_forget|apply J_err; auto].
  - destruct Hout as [Hd ->]. cbn in Ht.
    assert (state_at w1 (st_run self) = Some st) as Hs1.
    { rewrite (state_at_dirs w) by done. apply (li_state _ _ _ _ _ _ _ HI). }
    assert (loop_inv self st0 w0 (done ++ [x]) w1
      (t ++ EvCall (CDestroy (r_kind x) (backend_name x) false) :: t') st) as HI'.
    { by eapply loop_inv_keep. }
    destruct (is_exception e) eqn:He.
    + eexists _, _. split; [done|]. by apply J_err.
    + split; [done|]. split; [by eexists _, _, _|]. eexists _, _, _. split; [|done]. rewrite Hl. exists rest. by rewrite <-app_assoc.
Qed.
End Loop.
End Spec.
