(* ===== verification/TeardownSpec.v ===== *)
(** * Teardown ([orchestrator/teardown.py]): correctness *)

From S2P Require Import Prelude Exceptions Eff Ledger Store StoreSpec Cleanup.
From stdpp Require Import options.

Section Teardown.
Context `{Driver B}.
Implicit Types (self : StateStore) (w : World B).

Lemma no_calls_quiet t : no_calls t → quiet t.
Proof.
  unfold quiet. induction t as [|e t IH]; intros Hn; [done|]. cbn.
  assert (destroy_call e = None) as ->.
  { destruct e as [| |c]; [done|done|]. exfalso. apply (Hn c). set_solver. }
  apply IH. intros c Hc. apply (Hn c). set_solver.
Qed.

Lemma quiet_destroy_calls t : quiet t → destroy_calls t = [].
Proof. unfold destroy_calls. by intros ->. Qed.
Lemma quiet_destroyed_names t : quiet t → destroyed_names t = [].
Proof. unfold destroyed_names. by intros ->. Qed.
Lemma quiet_app t1 t2 : quiet t1 → quiet t2 → quiet (t1 ++ t2).
Proof. unfold quiet. rewrite omap_app. by intros -> ->. Qed.
Lemma quiet_nil : quiet [].
Proof. done. Qed.
Lemma quiet_state d j : quiet [EvState d j].
Proof. done. Qed.

Lemma oserror_exception e : isinstance e OSError = true → is_exception e = true.
Proof. destruct e as [c a]. unfold isinstance. cbn. by destruct c. Qed.

Lemma best_effort_Ok (m : act (World B) ()) w r w' :
  (∀ e, (m w).1 = Raise e → is_exception e = true) →
  best_effort m w = (r, w') → r = Ok () ∧ w' = (m w).2.
Proof.
  intros Hm. unfold best_effort, catch. destruct (m w) as [[[]|e] w1]; [by intros [= <- <-]|].
  rewrite (Hm e eq_refl). by intros [= <- <-].
Qed.

(** Setting the phase keeps the resources, whatever fails. *)
Lemma best_effort_set_phase self p w r w' s :
  state_at w (st_run self) = Some s → best_effort (set_phase self p) w = (r, w') →
  r = Ok () ∧ frame (st_run self) w w' ∧ other_files_same (st_run self) w w' ∧
  (∃ t, trace w' = trace w ++ t ∧ quiet t) ∧
  (state_at w' (st_run self) = Some (with_phase p s) ∨
   true ∈ faults w ∧ state_at w' (st_run self) = Some s).
Proof.
  intros Hs Hb. destruct (set_phase self p w) as [r1 w1] eqn:Hr.
  pose proof Hr as Hr'. unfold set_phase in Hr'.
  apply (rmw_inv _ _ _ _ _ s Hs) in Hr' as (Hf & Ho & Hout).
  2:{ intros s' [= <-]. exact (state_at_version _ _ _ Hs). }
  assert (r = Ok () ∧ w' = w1) as [-> ->].
  { apply best_effort_Ok in Hb; [by rewrite Hr in Hb|]. rewrite Hr. cbn.
    intros e ->. destruct Hout as [(? & _ & [=] & _)|(e' & [= ->] & [[=]|[-> _]] & _)]. done. }
  split; [done|]. split; [done|]. split; [done|].
  destruct Hout as [(s' & [= <-] & _ & Hl & Ht)|(e & _ & [[=]|[_ Hin]] & [[Hl Ht]|(s' & [= <-] & Hl & Ht)])].
  - split; [eexists; split; [done|apply quiet_state]|by left].
  - split; [exists []; rewrite app_nil_r; by split|right; split; [done|congruence]].
  - split; [eexists; split; [done|apply quiet_state]|by left].
Qed.

(** The read that feeds the loop, and the one that looks at what is left. *)
Lemma guarded_read self {A} (f : State → A) (dflt : A) w r w' s :
  state_at w (st_run self) = Some s →
  catch (s ← store_read self; mret (f s)) is_exception (λ _, mret dflt) w = (r, w') →
  run_dirs w' = run_dirs w ∧ trace w' = trace w ∧ frame (st_run self) w w' ∧
  (r = Ok (f s) ∨ true ∈ faults w ∧ r = Ok dflt).
Proof.
  intros Hs. unfold catch. unfold mbind at 1, act_bind at 1. destruct (store_read self w) as [r1 w1] eqn:Hr.
  apply (store_read_inv _ _ _ _ _ Hs) in Hr as (Hf & Hd & Ht & [->|[-> Hin]]); intros [= <- <-];
    split_and!; [done..|by left|done|done|done|by right].
Qed.

Lemma guarded_read_ok self {A} (f : State → A) (dflt : A) w s :
  faults w = [] → state_at w (st_run self) = Some s →
  catch (s ← store_read self; mret (f s)) is_exception (λ _, mret dflt) w = (Ok (f s), w).
Proof. intros Hnf Hs. unfold catch. by erewrite act_bind_Ok by (by apply store_read_ok). Qed.

(** The counts of the summary line: attempts that succeeded and that failed. *)
Definition counts_ok (done : list Resource) (c : nat * nat) (_ : list event) : Prop :=
  c.1 + c.2 = length done.

Lemma teardown_loop self w st0 r w' :
  state_at w (st_run self) = Some st0 →
  foldA (teardown_one self) (0, 0) (reverse (resources st0)) w = (r, w') → uninterrupted (B:=B) →
  ∃ c t st, r = Ok c ∧ loop_inv self st0 w (reverse (resources st0)) w' t st.
Proof.
  intros Hs Hl Hun.
  change (destroy_loop self (λ _ '(ok, failed), (S ok, failed)) (λ _ _ '(ok, failed), (ok, S failed))
    (0, 0) (reverse (resources st0)) w = (r, w')) in Hl.
  apply (destroy_loop_inv self _ _ counts_ok w) with (st0 := st0) in Hl; [|..|done|done].
  - destruct r as [c|e]; [destruct Hl as (t & st & HI & _); eauto|].
    destruct Hl as (He & (x & b & b' & Hx) & _). by rewrite (Hun _ _ _ _ Hx) in He.
  - intros done [ok f] t x t' _. unfold counts_ok. rewrite length_app. cbn. lia.
  - intros done [ok f] t x e t' o _ _. unfold counts_ok. rewrite length_app. cbn. lia.
Qed.

Lemma fs_quiet {A} (m : act (World B) A) w r w' :
  fs_act m → m w = (r, w') → ∃ t, trace w' = trace w ++ t ∧ quiet t.
Proof. intros Hm Hr. apply Hm in Hr as ((t & Ht & Hq) & _). eauto using no_calls_quiet. Qed.

(** Finalizing never escapes, and makes no driver call. *)
Lemma finalize_quiet self w r w' s :
  state_at w (st_run self) = Some s →
  best_effort (set_phase self PHASE_DONE;; release self;; remove self) w = (r, w') →
  r = Ok () ∧ ∃ t, trace w' = trace w ++ t ∧ quiet t.
Proof.
  intros Hs Hb. assert (fs_act (B:=B) (release self;; remove self)) as Hfs.
  { apply fs_act_bind; [apply fs_act_release|intros []; apply fs_act_remove]. }
  unfold best_effort, catch in Hb. unfold mbind at 1, act_bind at 1 in Hb.
  destruct (set_phase self PHASE_DONE w) as [r1 w1] eqn:Hp.
  assert (best_effort (set_phase self PHASE_DONE) w =
    match r1 with Raise e => if is_exception e then (Ok (), w1) else (Raise e, w1) | Ok _ => (Ok (), w1) end) as Hbe.
  { unfold best_effort, catch. rewrite Hp. by destruct r1 as [[]|e]. }
  destruct r1 as [[]|e].
  - apply (best_effort_set_phase _ _ _ _ _ _ Hs) in Hbe as (_ & _ & _ & (t1 & Ht1 & Hq1) & _).
    destruct ((release self;; remove self) w1) as [r2 w2] eqn:Hr2.
    pose proof (fs_quiet _ _ _ _ Hfs Hr2) as (t2 & Ht2 & Hq2). apply Hfs in Hr2 as (_ & He & _).
    assert (r = Ok () ∧ w' = w2) as [-> ->].
    { destruct r2 as [[]|e]; [by injection Hb as <- <-|].
      rewrite (oserror_exception e) in Hb by auto. by injection Hb as <- <-. }
    split; [done|]. exists (t1 ++ t2). rewrite Ht2, Ht1, <-app_assoc. split; [done|by apply quiet_app].
  - destruct (is_exception e) eqn:He; apply (best_effort_set_phase _ _ _ _ _ _ Hs) in Hbe
      as ([=] & _ & _ & Ht & _). by injection Hb as <- <-.
Qed.

(** Teardown returns normally whatever goes wrong: file operations failing,
    drivers raising.  Unless the ledger itself could not be read, it attempts
    to destroy every recorded resource, each exactly once, newest first. *)
Lemma teardown_attempts_all self w r w' s :
  uninterrupted (B:=B) → state_at w (st_run self) = Some s → teardown self w = (r, w') →
  r = Ok () ∧ ∃ t, trace w' = trace w ++ t ∧
    (destroy_calls t = resource_id <$> reverse (resources s) ∨
     true ∈ faults w ∧ destroy_calls t = []).
Proof.
  intros Hun Hs. unfold teardown.
  intros [([] & w1 & H1 & Hr)|(e & H1 & ->)]%act_bind_inv;
    apply (best_effort_set_phase _ _ _ _ _ _ Hs) in H1 as (Hok & Hf1 & _ & (t1 & Ht1 & Hq1) & Hs1); [|done].
  assert (∃ s1, state_at w1 (st_run self) = Some s1 ∧ resources s1 = resources s) as (s1 & Hs1' & Hrs).
  { destruct Hs1 as [?|[_ ?]]; eauto. }
  assert (true ∈ faults w1 → true ∈ faults w) as Hfl.
  { apply elem_of_suffix, (fr_faults _ _ _ Hf1). }
  apply act_bind_inv in Hr as [(so & w2 & H2 & Hr)|(e & H2 & ->)];
    destruct (guarded_read self Some None _ _ _ _ Hs1' H2) as (Hd2 & Ht2 & Hf2 & Hso); [|by destruct Hso as [|[_ ?]]].
  destruct Hso as [[= ->]|[Hin [= ->]]].
  2:{ injection Hr as <- <-. split; [done|]. exists t1. rewrite Ht2. split; [done|]. right.
      split; [auto|by apply quiet_destroy_calls]. }
  assert (state_at w2 (st_run self) = Some s1) as Hs2 by (by rewrite (state_at_dirs w1)).
  apply act_bind_inv in Hr as [(c & w3 & H3 & Hr)|(e & H3 & ->)];
    apply (teardown_loop _ _ _ _ _ Hs2) in H3 as (c' & t3 & s3 & Hc & HI); [|done|done|done].
  pose proof (li_state _ _ _ _ _ _ _ HI) as Hs3.
  apply act_bind_inv in Hr as [(rem & w4 & H4 & Hr)|(e & H4 & ->)];
    destruct (guarded_read self resources [] _ _ _ _ Hs3 H4) as (Hd4 & Ht4 & Hf4 & Hrem); [|by destruct Hrem as [|[_ ?]]].
  assert (r = Ok () ∧ ∃ t5, trace w' = trace w4 ++ t5 ∧ quiet t5) as (-> & t5 & Ht5 & Hq5).
  { destruct rem as [|x rem].
    - eapply finalize_quiet; [|done]. by rewrite (state_at_dirs w3).
    - injection Hr as <- <-. split; [done|]. exists []. rewrite app_nil_r. done. }
  split; [done|]. exists (t1 ++ t3 ++ t5). split.
  { rewrite Ht5, Ht4, (li_trace _ _ _ _ _ _ _ HI), Ht2, Ht1. by rewrite <-!app_assoc. }
  left. rewrite !destroy_calls_app, (quiet_destroy_calls t1), (quiet_destroy_calls t5), app_nil_r by done. cbn.
  rewrite (li_calls _ _ _ _ _ _ _ HI). by rewrite Hrs.
Qed.

Lemma loose_no_faults d w w' : loose_frame d w w' → faults w = [] → faults w' = [].
Proof. intros Hf Hn. pose proof (lf_faults _ _ _ Hf) as Hs. rewrite Hn in Hs. by apply suffix_nil_inv in Hs. Qed.

(** Finalizing a drained ledger removes the run. *)
Lemma finalize_ok self w s rd :
  faults w = [] → state_at w (st_run self) = Some s → run_dirs w !! st_run self = Some rd →
  ∃ w', best_effort (set_phase self PHASE_DONE;; release self;; remove self) w = (Ok (), w') ∧
    (∃ t, trace w' = trace w ++ t ∧ quiet t) ∧
    (∀ d', d' ≠ st_run self → run_dirs w' !! d' = run_dirs w !! d') ∧
    run_dirs w' !! st_run self =
      (if decide (foreign_files (files rd) = ∅) then None
       else Some (MkRunDir (foreign_files (files rd))
         (if decide (holder rd = Some (st_self self)) then None else holder rd))).
Proof.
  intros Hnf Hs Hd. destruct (rmw_ok self (λ s, mret (with_phase PHASE_DONE s)) w s _ Hnf Hs eq_refl)
    as (w1 & E1 & Hnf1 & Hf1 & Ho1 & Hs1 & Ht1); [exact (state_at_version _ _ _ Hs)|].
  destruct (run_dirs w1 !! st_run self) as [rd1|] eqn:Hd1; [|by destruct (state_at_dir _ _ _ Hs1); congruence].
  assert (holder rd1 = holder rd) as Hh.
  { pose proof (fr_holder _ _ _ Hf1) as Hh. unfold holder_at in Hh. rewrite Hd, Hd1 in Hh. done. }
  pose proof (release_ok self w1 rd1 Hnf1 Hd1) as E2. set (w2 := with_dir _ _ w1) in E2.
  assert (run_dirs w2 !! st_run self = Some (MkRunDir (delete state_pid (files rd1))
    (if decide (holder rd1 = Some (st_self self)) then None else holder rd1))) as Hd2 by apply lookup_insert_eq.
  destruct (remove_ok self w2 _ Hnf1 Hd2) as (w3 & E3 & _ & _ & _ & Ht3 & Hd3).
  exists w3. split.
  { unfold best_effort, catch. unfold set_phase. erewrite act_bind_Ok by exact E1.
    erewrite act_bind_Ok by exact E2. by rewrite E3. }
  assert (foreign_files (delete state_pid (files rd1)) = foreign_files (files rd)) as Hff.
  { rewrite <-(foreign_files_same _ _ _ _ _ Hd Hd1 (other_files_foreign _ _ _ Ho1)). unfold foreign_files. apply map_filter_delete_not.
    intros c _. cbn. unfold own_files. set_solver. }
  cbn [files holder] in Ht3, Hd3. rewrite Hff, Hh in Hd3. split; [|split].
  - eexists. rewrite Ht3. change (trace w2) with (trace w1). rewrite Ht1, <-app_assoc. split; [done|]. apply (quiet_app [_]); [done|]. by destruct (decide (is_Some _)).
  - intros d' Hne. rewrite Hd3, <-(fr_other _ _ _ Hf1 d' Hne).
    case_decide; cbn; [rewrite lookup_delete_ne by done|rewrite lookup_insert_ne by done];
      by rewrite lookup_insert_ne.
  - rewrite Hd3. case_decide; [apply lookup_delete_eq|]. rewrite lookup_insert_eq.
    by repeat case_decide; naive_solver.
Qed.

(** Up to the final bookkeeping: what the loop leaves. *)
Lemma teardown_drains self w s rd :
  uninterrupted (B:=B) → faults w = [] → state_at w (st_run self) = Some s →
  run_dirs w !! st_run self = Some rd →
  ∃ w2 t2 s2 rd2,
    teardown self w = match resources s2 with
      | [] => best_effort (set_phase self PHASE_DONE;; release self;; remove self) w2
      | _ => (Ok (), w2)
      end ∧
    faults w2 = [] ∧ state_at w2 (st_run self) = Some s2 ∧ run_dirs w2 !! st_run self = Some rd2 ∧
    holder rd2 = holder rd ∧ foreign_files (files rd2) = foreign_files (files rd) ∧
    (∀ d', d' ≠ st_run self → run_dirs w2 !! d' = run_dirs w !! d') ∧
    trace w2 = trace w ++ t2 ∧ destroy_calls t2 = resource_id <$> reverse (resources s) ∧
    s2 = with_phase PHASE_CLEANUP
      (set_resources (filter (λ r, backend_name r ∉ destroyed_names t2) (resources s)) s).
Proof.
  intros Hun Hnf Hs Hd. set (s1 := with_phase PHASE_CLEANUP s).
  destruct (rmw_ok self (λ s, mret (with_phase PHASE_CLEANUP s)) w s s1 Hnf Hs eq_refl)
    as (w1 & E1 & Hnf1 & Hf1 & Ho1 & Hs1 & Ht1); [exact (state_at_version _ _ _ Hs)|].
  change (set_phase self PHASE_CLEANUP w = (Ok (), w1)) in E1.
  destruct (foldA (teardown_one self) (0, 0) (reverse (resources s1)) w1) as [rl w2] eqn:E2.
  pose proof (teardown_loop _ _ _ _ _ Hs1 E2 Hun) as (c & t2 & s2 & -> & HI).
  assert (faults w2 = []) as Hnf2 by (by eapply loose_no_faults; [apply (li_frame _ _ _ _ _ _ _ HI)|]).
  pose proof (li_state _ _ _ _ _ _ _ HI) as Hs2.
  destruct (run_dirs w2 !! st_run self) as [rd2|] eqn:Hd2; [|by destruct (state_at_dir _ _ _ Hs2); congruence].
  exists w2, (EvState (st_run self) (state_to_json s1) :: t2), s2, rd2. split_and!; try done.
  - unfold teardown.
    assert (best_effort (set_phase self PHASE_CLEANUP) w = (Ok (), w1)) as Eb
      by (unfold best_effort, catch; by rewrite E1).
    erewrite act_bind_Ok by exact Eb. erewrite act_bind_Ok by (by apply guarded_read_ok).
    cbv iota beta. erewrite act_bind_Ok by exact E2. erewrite act_bind_Ok by (by apply guarded_read_ok).
    by destruct (resources s2).
  - pose proof (fr_holder _ _ _ Hf1) as H1. pose proof (lf_holder _ _ _ (li_frame _ _ _ _ _ _ _ HI)) as H2.
    unfold holder_at in H1, H2. rewrite Hd2, H1, Hd in H2. done.
  - apply (foreign_files_same _ _ _ _ _ Hd Hd2), other_files_foreign. by eapply other_files_trans, (li_files _ _ _ _ _ _ _ HI).
  - intros d' Hne. rewrite (lf_other _ _ _ (li_frame _ _ _ _ _ _ _ HI) d' Hne). by apply (fr_other _ _ _ Hf1).
  - rewrite (li_trace _ _ _ _ _ _ _ HI), Ht1. by rewrite <-app_assoc.
  - apply (li_calls _ _ _ _ _ _ _ HI).
  - rewrite (li_rest _ _ _ _ _ _ _ HI), (li_exact _ _ _ _ _ _ _ HI) by (rewrite Hnf1; apply not_elem_of_nil).
    done.
Qed.

(** C3: teardown accounts for every resource, when no file operation fails and no destroy
    of the driver is interrupted.  Then every resource of the ledger is asked to be
    destroyed, newest first; the ones whose destroy raised stay in the ledger (and only
    those), in the cleanup phase; when none is left the ledger and the run's other own
    files are gone, and so is its directory unless a foreign file is in it.  Other runs
    are untouched.  Without working files it is not so: [teardown_read_fault_drops_ledger]
    below loses the ledger to one failing read. *)
Theorem teardown_accounts self w s rd :
  uninterrupted (B:=B) → faults w = [] → state_at w (st_run self) = Some s →
  run_dirs w !! st_run self = Some rd →
  ∃ w' t, teardown self w = (Ok (), w') ∧ trace w' = trace w ++ t ∧
    destroy_calls t = resource_id <$> reverse (resources s) ∧
    (∀ d', d' ≠ st_run self → run_dirs w' !! d' = run_dirs w !! d') ∧
    let left := filter (λ r, backend_name r ∉ destroyed_names t) (resources s) in
    match left with
    | [] => run_dirs w' !! st_run self =
        (if decide (foreign_files (files rd) = ∅) then None
         else Some (MkRunDir (foreign_files (files rd))
           (if decide (holder rd = Some (st_self self)) then None else holder rd)))
    | _ => state_at w' (st_run self) = Some (with_phase PHASE_CLEANUP (set_resources left s)) ∧
        holder_at w' (st_run self) = holder rd
    end.
Proof.
  intros Hun Hnf Hs Hd.
  destruct (teardown_drains _ _ _ _ Hun Hnf Hs Hd)
    as (w2 & t2 & s2 & rd2 & Hred & Hnf2 & Hs2 & Hd2 & Hh & Hff & Hoth & Ht2 & Hdc & Hst).
  rewrite Hred. clear Hred. assert (resources s2 = filter (λ r, backend_name r ∉ destroyed_names t2) (resources s)) as Hrs.
  { by rewrite Hst. }
  destruct (resources s2) as [|x rs] eqn:Hr2.
  - destruct (finalize_ok self w2 s2 rd2 Hnf2 Hs2 Hd2) as (w3 & E3 & (t3 & Ht3 & Hq3) & Ho3 & Hd3).
    exists w3, (t2 ++ t3). rewrite destroy_calls_app, destroyed_names_app, (quiet_destroy_calls t3 Hq3),
      (quiet_destroyed_names t3 Hq3), !app_nil_r.
    split_and!; [done|by rewrite Ht3, Ht2, <-app_assoc|done| |].
    + intros d' Hne. rewrite Ho3 by done. by apply Hoth.
    + cbn zeta. rewrite <-Hrs. by rewrite Hd3, Hff, Hh.
  - exists w2, t2. split_and!; [done..|]. cbn zeta. rewrite <-Hrs. split.
    + rewrite Hs2, Hst. f_equal. f_equal. by rewrite <-Hrs.
    + unfold holder_at. by rewrite Hd2.
Qed.
End Teardown.

(** ** A concrete driver

    Its state is the list of names whose destroy raises [DriverError]. *)
Module DriverDemo.
Definition try_destroy (n : string) : op (list string) () := λ b,
  (if decide (n ∈ b) then raise DriverError [n] else Ok (), b).
Instance demo_driver : Driver (list string) := {|
  driver_for_name n _ := if decide (n = "demo") then Ok () else raise DriverError [n];
  drv_connect := λ b, (if decide ("connect" ∈ b) then raise DriverError ["connect"] else Ok (), b);
  drv_disconnect := λ b, (Ok (), b);
  compose_volume_ref p n := p +:+ "/" +:+ n;
  destroy_switch := try_destroy;
  destroy_network := try_destroy;
  destroy_pool := try_destroy;
  destroy_vm := try_destroy;
  delete_volume := try_destroy;
|}.

Lemma demo_uninterrupted : uninterrupted (B := list string).
Proof.
  intros r b e b'. unfold destroy_resource, destroy_kind, fails, pool_backend_of, raise, mret, result_ret.
  cbn. unfold try_destroy, raise. repeat case_match; intros; simplify_eq; done.
Qed.

Definition res_of (k n : string) (md : gmap string json) : Resource := MkResource k n None "t0" None md.
Definition in_pool : gmap string json := {[ "pool_backend" := JStr "p" ]}.
Definition demo_state : State :=
  MkState SCHEMA_VERSION "r1" "plan" "demo" "demo://" PHASE_RUN "t0"
    [res_of "pool" "p" ∅; res_of "network" "n" ∅; res_of "run_disk" "d" in_pool; res_of "vm" "v" ∅] [].
Definition demo_dir : RunDir :=
  MkRunDir {[ state_json := Doc (state_to_json demo_state); state_pid := Text "1"; state_lock := Text "" ]} (Some 7).
Definition demo_world (fs : list bool) (bad : list string) : World (list string) :=
  MkWorld {[ "r1" := demo_dir ]} fs "t1" 7 bad [].
Definition store : StateStore := MkStore "r1" 7.

Definition names_left {A} (r : res A * World (list string)) : option (list string) :=
  (λ s, backend_name <$> resources s) <$> state_at r.2 "r1".

Example demo_clean : run_dirs (teardown store (demo_world [] [])).2 !! "r1" = None.
Proof. vm_compute. reflexivity. Qed.

Example demo_partial : names_left (teardown store (demo_world [] ["n"])) = Some ["n"].
Proof. vm_compute. reflexivity. Qed.

Lemma teardown_attempts_all_witness :
  let '(r, w') := teardown store (demo_world [true; false; false; true] ["n"]) in
  r = Ok () ∧ ∃ t, trace w' = [] ++ t ∧
    (destroy_calls t = resource_id <$> reverse (resources demo_state) ∨
     true ∈ [true; false; false; true] ∧ destroy_calls t = []).
Proof.
  destruct (teardown store (demo_world [true; false; false; true] ["n"])) as [r w'] eqn:E.
  apply (teardown_attempts_all store (demo_world [true; false; false; true] ["n"]) r w' demo_state).
  - exact demo_uninterrupted.
  - vm_compute. reflexivity.
  - exact E.
Defined.

Lemma teardown_accounts_witness :
  ∃ w' t, teardown store (demo_world [] ["n"]) = (Ok (), w') ∧ trace w' = [] ++ t ∧
    destroy_calls t = resource_id <$> reverse (resources demo_state).
Proof.
  destruct (teardown_accounts store (demo_world [] ["n"]) demo_state demo_dir) as (w' & t & H1 & H2 & H3 & _).
  - exact demo_uninterrupted.
  - reflexivity.
  - vm_compute. reflexivity.
  - vm_compute. reflexivity.
  - exists w', t. auto.
Defined.

(** The read after the loop failing once is taken for an empty ledger: the run
    is deleted although ["n"] was never destroyed. *)
Lemma teardown_read_fault_drops_ledger :
  let '(r, w') := teardown store (demo_world (repeat false 21 ++ [true]) ["n"]) in
  r = Ok () ∧ "n" ∉ destroyed_names (trace w') ∧ run_dirs w' !! "r1" = None.
Proof. vm_compute. split; [reflexivity|]. split; [|reflexivity]. intros Hn. by repeat (inversion Hn as [|? ? ? Hn']; clear Hn; rename Hn' into Hn). Qed.
End DriverDemo.
