(* ===== verification/CleanupRun.v ===== *)
(** * Recovery ([state/cleanup.py]): correctness of [cleanup_run] and [cleanup_all] *)

From S2P Require Import Prelude Exceptions Eff Ledger Store StoreSpec Cleanup.
From S2P Require Import TeardownSpec CacheDisk.
From stdpp Require Import options.

(** ** Local operations: they leave the other runs alone and raise only
    [Exception]s *)
Section Local.
Context `{Driver B} (d : string).
Implicit Types (w : World B).

Definition local {A} (m : act (World B) A) : Prop := ∀ w r w', m w = (r, w') →
  tame_res r ∧ (∀ d', d' ≠ d → run_dirs w' !! d' = run_dirs w !! d').

Lemma local_bind {A C} (m : act (World B) A) (k : A → act (World B) C) :
  local m → (∀ a, local (k a)) → local (m ≫= k).
Proof.
  intros Hm Hk w r w' [(a & w1 & H1 & H2)|(e & H1 & ->)]%act_bind_inv.
  - apply Hm in H1 as [_ H1]. apply Hk in H2 as [Ht H2]. split; [done|].
    intros d' Hd. by rewrite H2, H1.
  - apply Hm in H1 as [Ht H1]. split; [|done]. intros e' [= ->]. by apply Ht.
Qed.
Lemma local_lift {A} (r : res A) : tame_res r → local (lift r).
Proof. intros Hr w r' w' [= <- <-]. done. Qed.
Lemma local_ret {A} (a : A) : local (mret a).
Proof. apply (local_lift (Ok a)), tame_ok. Qed.
Lemma local_gets {A} (f : World B → A) : local (gets f).
Proof. intros w r w' [= <- <-]. split; [apply tame_ok|done]. Qed.
Lemma local_throw {A} c args :
  bool_decide (c ∈ [KeyboardInterrupt; OutOfFuel; Killed]) = false → local (A := A) (throw c args).
Proof. intros Hc. by apply local_lift, tame_raise. Qed.
Lemma local_throw_when b c args :
  bool_decide (c ∈ [KeyboardInterrupt; OutOfFuel; Killed]) = false → local (throw_when b c args).
Proof. intros Hc. by apply local_lift, tame_raise_if. Qed.
Lemma local_when b m : local m → local (act_when b m).
Proof. destruct b; [done|]. intros _. apply local_ret. Qed.
Lemma local_catch {A} (m : act (World B) A) p h : local m → (∀ e, local (h e)) → local (catch m p h).
Proof.
  intros Hm Hh w r w'. unfold catch. destruct (m w) as [[a|e] w1] eqn:E; apply Hm in E as [Ht Hd].
  - by intros [= <- <-].
  - destruct (p e); [|by intros [= <- <-]]. intros [Ht2 Hd2]%Hh. split; [done|].
    intros d' Hne. by rewrite Hd2, Hd.
Qed.
Lemma local_finally {A} (m : act (World B) A) f : local m → local f → local (finally m f).
Proof.
  intros Hm Hf w r w'. unfold finally. destruct (m w) as [r1 w1] eqn:E1; apply Hm in E1 as [Ht Hd].
  destruct (f w1) as [[u|e] w2] eqn:E2; apply Hf in E2 as [Ht2 Hd2]; intros [= <- <-];
    (split; [first [done|intros e' [= ->]; by apply Ht2]|]); intros d' Hne; by rewrite Hd2, Hd.
Qed.
Lemma local_foldA {S A} (f : S → A → act (World B) S) l s :
  (∀ s x, local (f s x)) → local (foldA f s l).
Proof.
  intros Hf. revert s. induction l as [|x l IH]; intros s; cbn; [apply local_ret|by apply local_bind].
Qed.
Lemma local_syscall : local syscall.
Proof.
  intros w r w' (Hd & _ & _ & _ & _ & Hr)%syscall_inv. rewrite Hd. split; [|done].
  destruct Hr as [->|[-> _]]; [apply tame_ok|by apply tame_raise].
Qed.
Lemma local_run_dir d' : local (run_dir d').
Proof.
  intros w r w'. unfold run_dir. destruct (run_dirs w !! d'); intros [= <- <-]; (split; [|done]);
    [apply tame_ok|by apply tame_raise].
Qed.
Lemma local_put_dir rd : local (put_dir d rd).
Proof. intros w r w' [= <- <-]. split; [apply tame_ok|]. intros d' Hd. cbn. by rewrite lookup_insert_ne. Qed.
Lemma local_emit e : local (modify (emit e)).
Proof. intros w r w' [= <- <-]. split; [apply tame_ok|done]. Qed.
Lemma local_perform {A} (o : op B A) c : (∀ b, tame_res (o b).1) → local (perform o c).
Proof.
  intros Ho w r w' (Hd & _ & _ & _ & Hr)%perform_inv. rewrite Hd. split; [|done].
  specialize (Ho (backend w)). by rewrite Hr in Ho.
Qed.

(** The directory itself is removed only by [rmdir]. *)
Lemma local_rmdir : local (rmdir d).
Proof.
  apply local_bind; [apply local_syscall|intros _]. apply local_bind; [apply local_run_dir|intros rd].
  case_decide; [|by apply local_throw]. intros w r w' [= <- <-]. split; [apply tame_ok|].
  intros d' Hd. cbn. by rewrite lookup_delete_ne.
Qed.

(** The backend and the registry raise only [Exception]s. *)
Record polite : Prop := {
  po_destroy : uninterrupted (B:=B);
  po_name : ∀ n u, tame_res (driver_for_name (B:=B) n u);
  po_connect : ∀ b, tame_res (drv_connect (B:=B) b).1;
  po_disconnect : ∀ b, tame_res (drv_disconnect (B:=B) b).1;
}.
End Local.

#[export] Hint Resolve local_bind local_lift local_ret local_gets local_throw local_throw_when local_when
  local_catch local_finally local_foldA local_syscall local_run_dir local_put_dir local_emit
  local_rmdir : tame.
#[export] Hint Extern 3 (local _ (match ?x with _ => _ end)) => destruct x : tame.
#[export] Hint Extern 3 (local _ (let '_ := ?x in _)) => destruct x : tame.

Section LocalStore.
Context `{Driver B} (self : StateStore).

Lemma local_set_file n c : local (B:=B) (st_run self) (set_file (st_run self) n c).
Proof. unfold set_file. eauto with tame. Qed.
Hint Resolve local_set_file : tame.
Lemma local_read_file n : local (B:=B) (st_run self) (read_file (st_run self) n).
Proof. unfold read_file. eauto 10 with tame. Qed.
Lemma local_write_file n c : local (B:=B) (st_run self) (write_file (st_run self) n c).
Proof.
  apply local_bind; [apply local_run_dir|intros _]. apply local_bind; [|intros _; apply local_set_file].
  intros w r w'. unfold catch. destruct (syscall w) as [[u|e] w1] eqn:E; apply local_syscall with (d := st_run self) in E as [Ht Hd].
  - by intros [= <- <-].
  - intros [([] & w2 & H1 & [= <- <-])|(e' & H1 & ->)]%act_bind_inv; apply local_set_file in H1 as [Ht1 Hd1];
      (split; [done|]); intros d' Hne; by rewrite Hd1, Hd.
Qed.
Lemma local_replace_file a b : local (B:=B) (st_run self) (replace_file (st_run self) a b).
Proof. unfold replace_file. eauto 20 with tame. Qed.
Lemma local_unlink n : local (B:=B) (st_run self) (unlink (st_run self) n).
Proof. unfold unlink. eauto 20 with tame. Qed.
Hint Resolve local_read_file local_write_file local_replace_file local_unlink : tame.
Lemma local_durable_replace a b : local (B:=B) (st_run self) (durable_replace (st_run self) a b).
Proof. unfold durable_replace. eauto 20 with tame. Qed.
Hint Resolve local_durable_replace : tame.
Lemma local_open_lock : local (B:=B) (st_run self) (open_lock self).
Proof. unfold open_lock. eauto 20 with tame. Qed.
Hint Resolve local_open_lock : tame.
Lemma local_require_dead : local (B:=B) (st_run self) (require_dead self).
Proof. unfold require_dead, is_running. eauto 20 with tame. Qed.
Lemma local_store_read : local (B:=B) (st_run self) (store_read self).
Proof. unfold store_read, store_exists, file_exists. eauto 20 with tame. Qed.
Lemma local_write_state s : local (B:=B) (st_run self) (write_state_atomic self s).
Proof. unfold write_state_atomic. eauto 20 with tame. Qed.
Hint Resolve local_require_dead local_store_read local_write_state : tame.
Lemma local_rmw f : (∀ s, tame_res (f s)) → local (B:=B) (st_run self) (rmw self f).
Proof. intros Hf. unfold rmw. eauto 20 with tame. Qed.
Hint Resolve local_rmw : tame.
Lemma local_release_lock : local (B:=B) (st_run self) (release_lock self).
Proof. unfold release_lock, holds_lock, set_holder. eauto 20 with tame. Qed.
Hint Resolve local_release_lock : tame.
Lemma local_remove : local (B:=B) (st_run self) (remove self).
Proof. unfold remove, store_exists, file_exists. eauto 30 with tame. Qed.
Hint Resolve local_remove : tame.

Lemma local_cleanup_run dry : polite (B:=B) → local (B:=B) (st_run self) (cleanup_run self dry).
Proof.
  intros [Hd Hn Hc Hdc].
  assert (∀ acc r, local (B:=B) (st_run self) (cleanup_one self acc r)) as Hone.
  { intros acc r. unfold cleanup_one, attempt, forget, destroy.
    assert (local (B:=B) (st_run self) (perform (destroy_resource r) (λ o, CDestroy (r_kind r) (backend_name r) (is_ok o)))).
    { apply local_perform. intros b e He. destruct (destroy_resource r b) as [o b'] eqn:E. cbn in He. subst o.
      by eapply Hd. }
    eauto 20 with tame. }
  assert (local (B:=B) (st_run self) connect) by (by apply local_perform).
  assert (local (B:=B) (st_run self) disconnect) by (by apply local_perform).
  unfold cleanup_run, cleanup_body, store_exists, file_exists, set_phase. eauto 40 with tame.
Qed.
End LocalStore.

(** ** The recovery theorems *)
Section Recovery.
Context `{Driver B}.
Implicit Types (self : StateStore) (w : World B).

Lemma cleanup_live_inv self dry w r w' h :
  holder_at w (st_run self) = Some h → is_Some (file_at w (st_run self) state_json) →
  cleanup_run self dry w = (r, w') →
  (∃ e, r = Raise e ∧ (isinstance e StateLockedError = true ∨ isinstance e OSError = true)) ∧
  trace w' = trace w ∧ backend w' = backend w ∧ state_at w' (st_run self) = state_at w (st_run self) ∧
  ∀ d', d' ≠ st_run self → run_dirs w' !! d' = run_dirs w !! d'.
Proof.
  unfold holder_at. intros (rd & Hd & Hh)%bind_Some Hex. unfold cleanup_run, store_exists, file_exists.
  unfold gets. unfold mbind at 1, act_bind at 1. fold (file_at w (st_run self) state_json).
  rewrite bool_decide_true by done. unfold throw_when, lift, raise_if. cbn [negb].
  unfold mbind at 1, act_bind at 1.
  intros [([] & w1 & H1 & _)|(e & H1 & ->)]%act_bind_inv;
    apply (require_dead_inv _ _ _ _ _ Hd) in H1 as (Hf & Ht & Hfl & Hr); rewrite Hh in Hr;
    [by destruct Hr as [[[=] _]|[=]]|].
  split; [|split_and!; [done|by apply fr_backend in Hf|by apply state_at_file, Hfl|apply Hf]].
  exists e. split; [done|]. destruct Hr as [[[= ->] _]|[= ->]]; [by right|by left].
Qed.

(** Cleanup of a run whose owner holds the lock raises (a lock error, or
    the failing system call) before reading the ledger or calling the backend:
    the ledger, the backend and the other runs are as before. *)
Theorem cleanup_refuses_live self dry w r w' h :
  holder_at w (st_run self) = Some h → is_Some (file_at w (st_run self) state_json) →
  cleanup_run self dry w = (r, w') →
  (∃ e, r = Raise e ∧ (isinstance e StateLockedError = true ∨ isinstance e OSError = true)) ∧
  trace w' = trace w ∧ backend w' = backend w ∧ state_at w' (st_run self) = state_at w (st_run self) ∧
  ∀ d', d' ≠ st_run self → run_dirs w' !! d' = run_dirs w !! d'.
Proof. apply cleanup_live_inv. Qed.

(** Past the lock probe, on a dead run with a readable ledger. *)
Lemma cleanup_prefix self dry w s :
  faults w = [] → state_at w (st_run self) = Some s → holder_at w (st_run self) = None →
  ∃ w1, frame (st_run self) w w1 ∧ faults w1 = [] ∧ trace w1 = trace w ∧
    state_at w1 (st_run self) = Some s ∧ foreign_same (st_run self) w w1 ∧
    cleanup_run self dry w = cleanup_body self dry s w1.
Proof.
  intros Hnf Hs Hh. destruct (state_at_dir _ _ _ Hs) as [rd Hd].
  assert (holder rd = None) as Hrh by (unfold holder_at in Hh; by rewrite Hd in Hh).
  destruct (require_dead self w) as [r1 w1] eqn:H1. pose proof H1 as H1'.
  apply (require_dead_inv _ _ _ _ _ Hd) in H1' as (Hf & Ht & Hfl & Hr).
  rewrite Hrh in Hr. destruct Hr as [[_ Hin]| ->]; [rewrite Hnf in Hin; by apply not_elem_of_nil in Hin|].
  assert (state_at w1 (st_run self) = Some s) as Hs1 by (rewrite <-Hs; by apply state_at_file, Hfl).
  pose proof (frame_no_faults _ _ _ Hf Hnf) as Hnf1.
  exists w1. split_and!; [done..| |].
  { intros m Hm. apply Hfl. intros ->. apply Hm. unfold own_files. set_solver. }
  unfold cleanup_run, store_exists, file_exists, gets. unfold mbind at 1, act_bind at 1.
  fold (file_at w (st_run self) state_json). rewrite bool_decide_true.
  2:{ unfold state_at in Hs. apply bind_Some in Hs as (c & Hc & _). by rewrite Hc. }
  unfold throw_when, lift at 1, raise_if. cbn [negb]. unfold mbind at 1, act_bind at 1.
  erewrite act_bind_Ok by exact H1. by erewrite act_bind_Ok by (by apply store_read_ok).
Qed.

(** A run whose ledger is empty is reclaimed without any driver call, so
    even when its driver is unknown or its backend is unreachable. *)
Theorem cleanup_drained_offline self w s rd :
  faults w = [] → state_at w (st_run self) = Some s → run_dirs w !! st_run self = Some rd →
  holder rd = None → resources s = [] →
  ∃ w' t, cleanup_run self false w = (Ok (MkCleanupResult (st_run self) [] [] []), w') ∧
    trace w' = trace w ++ t ∧ no_calls t ∧ backend w' = backend w ∧
    run_dirs w' !! st_run self =
      if decide (foreign_files (files rd) = ∅) then None
      else Some (MkRunDir (foreign_files (files rd)) None).
Proof.
  intros Hnf Hs Hd Hh Hrs.
  destruct (cleanup_prefix self false w s Hnf Hs) as (w1 & Hf1 & Hnf1 & Ht1 & Hs1 & Hfo1 & ->).
  { unfold holder_at. by rewrite Hd. }
  unfold cleanup_body. rewrite Hrs.
  destruct (rmw_ok self (λ s, mret (with_phase PHASE_DONE s)) w1 s _ Hnf1 Hs1 eq_refl)
    as (w2 & E2 & Hnf2 & Hf2 & Ho2 & Hs2 & Ht2); [exact (state_at_version _ _ _ Hs)|].
  destruct (state_at_dir _ _ _ Hs2) as [rd2 Hd2].
  destruct (remove_ok self w2 rd2 Hnf2 Hd2) as (w3 & E3 & _ & _ & Hb3 & Ht3 & Hd3).
  assert (holder rd2 = None) as Hh2.
  { pose proof (fr_holder _ _ _ (frame_trans _ _ _ _ Hf1 Hf2)) as Hx. unfold holder_at in Hx.
    rewrite Hd, Hd2 in Hx. cbn in Hx. congruence. }
  assert (foreign_files (files rd2) = foreign_files (files rd)) as Hff.
  { apply (foreign_files_same _ _ _ _ _ Hd Hd2). by eapply foreign_same_trans, other_files_foreign. }
  exists w3. eexists. split; [unfold set_phase; erewrite act_bind_Ok by exact E2; by erewrite act_bind_Ok by exact E3|].
  rewrite Ht3, Ht2, Ht1, <-app_assoc. split; [done|]. split; [|split].
  - intros c. destruct (decide _); set_unfold; naive_solver.
  - rewrite Hb3, (fr_backend _ _ _ Hf2). apply (fr_backend _ _ _ Hf1).
  - rewrite Hd3, Hff, Hh2. destruct (decide (foreign_files (files rd) = ∅)); [apply lookup_delete_eq|].
    rewrite lookup_insert_eq. done.
Qed.

(** The names whose destroy raised. *)
Definition failed_names (t : list event) : list string :=
  omap (λ c, if c.2 : bool then None else Some c.1.2) (omap destroy_call t).

Lemma failed_names_attempt t k n ok t' :
  quiet t' →
  failed_names (t ++ EvCall (CDestroy k n ok) :: t') = failed_names t ++ if ok : bool then [] else [n].
Proof.
  intros Hq. unfold failed_names. rewrite omap_app, omap_app. cbn. rewrite Hq. by destruct ok.
Qed.
Lemma failed_names_quiet t1 t2 t3 :
  quiet t1 → quiet t3 → failed_names (t1 ++ t2 ++ t3) = failed_names t2.
Proof. intros H1 H3. unfold failed_names. rewrite !omap_app, H1, H3. cbn. by rewrite app_nil_r. Qed.

(** The result lists mirror the trace. *)
Definition buckets_ok (w0 : World B) (_ : list Resource) (acc : list string * list (string * exn))
    (t : list event) : Prop :=
  true ∉ faults w0 → acc.1 = destroyed_names t ∧ acc.2.*1 = failed_names t.

Lemma cleanup_loop self w st0 r w' :
  state_at w (st_run self) = Some st0 →
  foldA (cleanup_one self) ([], []) (reverse (resources st0)) w = (r, w') → uninterrupted (B:=B) →
  ∃ acc t st, r = Ok acc ∧ loop_inv self st0 w (reverse (resources st0)) w' t st ∧
    buckets_ok w (reverse (resources st0)) acc t.
Proof.
  intros Hs Hl Hun.
  change (destroy_loop self (λ r '(d, e), (d ++ [backend_name r], e))
    (λ r x '(d, e), (d, e ++ [(backend_name r, x)])) ([], []) (reverse (resources st0)) w = (r, w')) in Hl.
  apply (destroy_loop_inv self _ _ (buckets_ok w) w) with (st0 := st0) in Hl; [|..|done|done].
  - destruct r as [acc|e]; [destruct Hl as (t & st & HI & HJ); eauto 6|].
    destruct Hl as (He & (x & b & b' & Hx) & _). by rewrite (Hun _ _ _ _ Hx) in He.
  - intros done [ds es] t x t' Hq HJ Hnf. destruct (HJ Hnf) as [Hd He]. cbn in *.
    by rewrite destroyed_names_attempt, failed_names_attempt, app_nil_r, Hd, He.
  - intros done [ds es] t x e t' ok Hq Hok HJ Hnf. destruct (HJ Hnf) as [Hd He]. cbn in *.
    destruct ok; [by destruct Hnf; auto|].
    by rewrite destroyed_names_attempt, failed_names_attempt, app_nil_r, fmap_app, Hd, He.
Qed.

(** The backend can be reached: the driver is registered and connects. *)
Record reachable (s : State) (b : B) : Prop := {
  re_name : driver_for_name (B:=B) (driver_class s) (driver_uri s) = Ok ();
  re_connect : (drv_connect b).1 = Ok ();
  re_disconnect : ∀ b' : B, (drv_disconnect b').1 = Ok ();
}.

Lemma perform_ok {A} (o : op B A) c w a :
  (o (backend w)).1 = Ok a →
  ∃ w', perform o c w = (Ok a, w') ∧ run_dirs w' = run_dirs w ∧ faults w' = faults w ∧
    trace w' = trace w ++ [EvCall (c (Ok a))].
Proof.
  intros Ho. destruct (perform o c w) as [r w'] eqn:E. pose proof (perform_inv _ _ _ _ _ E) as (Hd & Hf & _ & Ht & Hr).
  rewrite Hr in Ho. cbn in Ho. subst r. by exists w'.
Qed.

(** The destroying half of [cleanup_body], up to the disconnect. *)
Lemma cleanup_drains self w s :
  uninterrupted (B:=B) → reachable s (backend w) → faults w = [] → state_at w (st_run self) = Some s →
  ∃ w2 t2 acc,
    (lift (driver_for_name (B:=B) (driver_class s) (driver_uri s));; connect;;
     finally (set_phase self PHASE_CLEANUP;;
       foldA (cleanup_one self) ([], []) (reverse (resources s))) disconnect) w = (Ok acc, w2) ∧
    faults w2 = [] ∧ foreign_same (st_run self) w w2 ∧ holder_at w2 (st_run self) = holder_at w (st_run self) ∧
    trace w2 = trace w ++ t2 ∧ destroy_calls t2 = resource_id <$> reverse (resources s) ∧
    acc.1 = destroyed_names t2 ∧ acc.2.*1 = failed_names t2 ∧
    state_at w2 (st_run self) = Some (with_phase PHASE_CLEANUP
      (set_resources (filter (λ r, backend_name r ∉ destroyed_names t2) (resources s)) s)).
Proof.
  intros Hun [Hn Hc Hdc] Hnf Hs.
  destruct (perform_ok drv_connect (λ _, CConnect) w () Hc) as (w1 & E1 & Hd1 & Hnf1 & Ht1).
  rewrite Hnf in Hnf1. assert (state_at w1 (st_run self) = Some s) as Hs1 by (by rewrite (state_at_dirs w)).
  set (s1 := with_phase PHASE_CLEANUP s).
  destruct (rmw_ok self (λ s, mret (with_phase PHASE_CLEANUP s)) w1 s s1 Hnf1 Hs1 eq_refl)
    as (w2 & E2 & Hnf2 & Hf2 & Ho2 & Hs2 & Ht2); [exact (state_at_version _ _ _ Hs)|].
  destruct (foldA (cleanup_one self) ([], []) (reverse (resources s1)) w2) as [rl w3] eqn:E3.
  pose proof (cleanup_loop _ _ _ _ _ Hs2 E3 Hun) as (acc & t3 & s3 & -> & HI & HJ).
  pose proof (loose_no_faults _ _ _ (li_frame _ _ _ _ _ _ _ HI) Hnf2) as Hnf3.
  destruct (perform_ok drv_disconnect (λ _, CDisconnect) w3 () (Hdc _)) as (w4 & E4 & Hd4 & Hnf4 & Ht4).
  assert (true ∉ faults w2) as Hnt by (rewrite Hnf2; apply not_elem_of_nil).
  destruct (HJ Hnt) as [Hacc1 Hacc2].
  set (t0 := [EvCall CConnect; EvState (st_run self) (state_to_json s1)]).
  exists w4, (t0 ++ t3 ++ [EvCall CDisconnect]), acc.
  assert (destroyed_names (t0 ++ t3 ++ [EvCall CDisconnect]) = destroyed_names t3) as Hdn.
  { rewrite !destroyed_names_app. cbn. by rewrite app_nil_r. }
  rewrite Hdn. split_and!.
  - rewrite Hn. erewrite act_bind_Ok by done. erewrite act_bind_Ok by exact E1.
    unfold finally, set_phase. erewrite act_bind_Ok by exact E2.
    change (resources s1) with (resources s) in E3. rewrite E3.
    change (disconnect w3 = (Ok (), w4)) in E4. by rewrite E4.
  - by rewrite Hnf4.
  - eapply foreign_same_trans; [|eapply foreign_same_trans, foreign_same_trans].
    + intros m _. by apply file_at_dir.
    + by apply other_files_foreign.
    + apply other_files_foreign, (li_files _ _ _ _ _ _ _ HI).
    + intros m _. by apply file_at_dir.
  - unfold holder_at. rewrite Hd4. fold (holder_at w3 (st_run self)).
    rewrite (lf_holder _ _ _ (li_frame _ _ _ _ _ _ _ HI)), (fr_holder _ _ _ Hf2). unfold holder_at. by rewrite Hd1.
  - rewrite Ht4, (li_trace _ _ _ _ _ _ _ HI), Ht2, Ht1. unfold t0. rewrite <-!app_assoc. done.
  - rewrite !destroy_calls_app. cbn. rewrite app_nil_r. apply (li_calls _ _ _ _ _ _ _ HI).
  - done.
  - by rewrite failed_names_quiet.
  - rewrite (state_at_dirs w3) by done. rewrite (li_state _ _ _ _ _ _ _ HI). f_equal.
    rewrite (li_rest _ _ _ _ _ _ _ HI), (li_exact _ _ _ _ _ _ _ HI) by done. done.
Qed.

(** The final bookkeeping of [cleanup_body], by what is left and what failed. *)
Definition cleanup_finish (self : StateStore) (left : list Resource) (es : list (string * exn))
    : act (World B) () :=
  match left, es with
  | [], [] => set_phase self PHASE_DONE;; remove self
  | [], _ => set_phase self PHASE_DONE
  | _, _ => mret ()
  end.

Lemma cleanup_finish_ok self left es w s rd :
  faults w = [] → run_dirs w !! st_run self = Some rd → holder rd = None →
  state_at w (st_run self) = Some (with_phase PHASE_CLEANUP (set_resources left s)) →
  ∃ w' t, cleanup_finish self left es w = (Ok (), w') ∧ trace w' = trace w ++ t ∧ quiet t ∧
    match left, es with
    | [], [] => run_dirs w' !! st_run self =
        if decide (foreign_files (files rd) = ∅) then None
        else Some (MkRunDir (foreign_files (files rd)) None)
    | [], _ => state_at w' (st_run self) = Some (with_phase PHASE_DONE (set_resources [] s))
    | _, _ => state_at w' (st_run self) = Some (with_phase PHASE_CLEANUP (set_resources left s))
    end.
Proof.
  intros Hnf Hd Hh Hs. destruct left as [|x lf]; [|exists w, []; rewrite app_nil_r; done].
  destruct (rmw_ok self (λ s, mret (with_phase PHASE_DONE s)) w _ _ Hnf Hs eq_refl)
    as (w3 & E3 & Hnf3 & Hf3 & Ho3 & Hs3 & Ht3); [exact (state_at_version _ _ _ Hs)|].
  destruct es as [|y es]; [|eexists w3, _; done].
  destruct (state_at_dir _ _ _ Hs3) as [rd3 Hd3].
  destruct (remove_ok self w3 rd3 Hnf3 Hd3) as (w4 & E4 & _ & _ & _ & Ht4 & Hd4).
  exists w4. eexists. split; [unfold cleanup_finish, set_phase; erewrite act_bind_Ok by exact E3; exact E4|].
  rewrite Ht4, Ht3, <-app_assoc. split; [done|]. split.
  { apply (quiet_app [_]); [done|]. by destruct (decide (is_Some _)). }
  assert (holder rd3 = None) as Hh3.
  { pose proof (fr_holder _ _ _ Hf3) as Hx. unfold holder_at in Hx. rewrite Hd, Hd3 in Hx. cbn in Hx. congruence. }
  assert (foreign_files (files rd3) = foreign_files (files rd)) as Hff.
  { by apply (foreign_files_same _ _ _ _ _ Hd Hd3), other_files_foreign. }
  rewrite Hd4, Hff, Hh3. destruct (decide (foreign_files (files rd) = ∅)); [apply lookup_delete_eq|].
  by rewrite lookup_insert_eq.
Qed.

(** Cleanup of a dead run with a reachable backend replays the ledger in
    reverse and reports what happened: [destroyed] and [errors] are the destroys
    that returned and that raised, in order; the ledger keeps exactly the
    resources not destroyed, and the run is gone once nothing failed. *)
Theorem cleanup_run_accounts self w s rd :
  uninterrupted (B:=B) → reachable s (backend w) → faults w = [] → state_at w (st_run self) = Some s →
  run_dirs w !! st_run self = Some rd → holder rd = None → resources s ≠ [] →
  ∃ w' t res, cleanup_run self false w = (Ok res, w') ∧ trace w' = trace w ++ t ∧
    destroy_calls t = resource_id <$> reverse (resources s) ∧
    destroyed res = destroyed_names t ∧ (errors res).*1 = failed_names t ∧ skipped res = [] ∧
    let left := filter (λ r, backend_name r ∉ destroyed_names t) (resources s) in
    match left, errors res with
    | [], [] => run_dirs w' !! st_run self =
        if decide (foreign_files (files rd) = ∅) then None
        else Some (MkRunDir (foreign_files (files rd)) None)
    | [], _ => state_at w' (st_run self) = Some (with_phase PHASE_DONE (set_resources [] s))
    | _, _ => state_at w' (st_run self) = Some (with_phase PHASE_CLEANUP (set_resources left s))
    end.
Proof.
  intros Hun Hre Hnf Hs Hd Hh Hne.
  destruct (cleanup_prefix self false w s Hnf Hs) as (w1 & Hf1 & Hnf1 & Ht1 & Hs1 & Hfo1 & ->).
  { unfold holder_at. by rewrite Hd. }
  rewrite <-(fr_backend _ _ _ Hf1) in Hre.
  destruct (cleanup_drains self w1 s Hun Hre Hnf1 Hs1)
    as (w2 & t2 & [ds es] & E2 & Hnf2 & Hfo2 & Hh2 & Ht2 & Hdc & Hds & Hes & Hs2). cbn in Hds, Hes.
  set (left := filter (λ r, backend_name r ∉ destroyed_names t2) (resources s)) in *.
  assert (cleanup_body self false s w1 =
    (cleanup_finish self left es;; mret (MkCleanupResult (st_run self) ds [] es)) w2) as Hbody.
  { unfold cleanup_body. destruct (resources s) as [|x rs] eqn:Hrs; [done|]. rewrite <-Hrs in *.
    apply act_bind_inv in E2 as [([] & wa & Ea & E2)|(? & _ & [=])].
    apply act_bind_inv in E2 as [([] & wb & Eb & E2)|(? & _ & [=])].
    erewrite act_bind_Ok by exact Ea. erewrite act_bind_Ok by exact Eb.
    erewrite act_bind_Ok by exact E2. cbv iota beta. by erewrite act_bind_Ok by (by apply store_read_ok). }
  destruct (state_at_dir _ _ _ Hs2) as [rd2 Hd2].
  assert (holder rd2 = None) as Hh2'.
  { rewrite (fr_holder _ _ _ Hf1) in Hh2. unfold holder_at in Hh2. rewrite Hd, Hd2 in Hh2. cbn in Hh2. congruence. }
  assert (foreign_files (files rd2) = foreign_files (files rd)) as Hff.
  { apply (foreign_files_same _ _ _ _ _ Hd Hd2). by eapply foreign_same_trans. }
  destruct (cleanup_finish_ok self left es w2 s rd2 Hnf2 Hd2 Hh2' Hs2) as (w3 & t3 & E3 & Ht3 & Hq3 & Hend).
  rewrite Hff in Hend.
  exists w3, (t2 ++ t3), (MkCleanupResult (st_run self) ds [] es).
  rewrite destroy_calls_app, destroyed_names_app, (quiet_destroy_calls t3 Hq3),
    (quiet_destroyed_names t3 Hq3), !app_nil_r. cbn [destroyed errors skipped].
  split_and!; [|by rewrite Ht3, Ht2, Ht1, <-app_assoc|done|done| |done|exact Hend].
  - rewrite Hbody. by erewrite act_bind_Ok by exact E3.
  - rewrite Hes. symmetry. by apply (failed_names_quiet [] t2 t3).
Qed.

(** ** The sweep *)

Lemma cleanup_run_id self dry :
  hoare (λ _ : World B, True) (cleanup_run self dry)
    (λ r _, ∀ res, r = Ok res → cr_run_id res = st_run self).
Proof.
  unfold cleanup_run, cleanup_body.
  repeat (apply (hoare_bind _ _ _ (λ _ _, True)); [done|intros ?|done]).
  destruct dry; [apply hoare_ret; by intros ? _ ? [= <-]|].
  case_match; repeat (apply (hoare_bind _ _ _ (λ _ _, True)); [done|intros ?|done]).
  - apply hoare_ret; by intros ? _ ? [= <-].
  - case_match. repeat (apply (hoare_bind _ _ _ (λ _ _, True)); [done|intros ?|done]).
    apply hoare_ret; by intros ? _ ? [= <-].
Qed.

(** A run whose owner is alive. *)
Definition live w d : Prop := is_Some (holder_at w d) ∧ is_Some (file_at w d state_json).

Lemma live_dirs w w' d : run_dirs w' !! d = run_dirs w !! d → live w d → live w' d.
Proof. unfold live, holder_at, file_at. by intros ->. Qed.

Lemma cleanup_all_one_inv fresh dry d w r w' :
  polite (B:=B) → cleanup_all_one fresh dry d w = (r, w') →
  (∃ res, r = Ok res ∧ cr_run_id res = d ∧ (live w d → errors res ≠ [])) ∧
  (∀ d', d' ≠ d → run_dirs w' !! d' = run_dirs w !! d') ∧
  (live w d → state_at w' d = state_at w d).
Proof.
  intros Hp. unfold cleanup_all_one, catch.
  destruct (cleanup_run (MkStore d fresh) dry w) as [r1 w1] eqn:E.
  pose proof (local_cleanup_run (MkStore d fresh) dry Hp _ _ _ E) as [Ht Ho]. cbn in Ho.
  assert (live w d → (∃ e, r1 = Raise e) ∧ state_at w1 d = state_at w d) as Hlive.
  { intros [[h Hh] Hf].
    pose proof (cleanup_live_inv (MkStore d fresh) dry w r1 w1 h Hh Hf E) as ((e & -> & _) & _ & _ & Hs & _).
    eauto. }
  destruct r1 as [res|e].
  - intros [= <- <-]. split_and!; [|done|naive_solver].
    exists res. split_and!; [done|by eapply (cleanup_run_id (MkStore d fresh))|naive_solver].
  - rewrite (Ht e eq_refl). intros [= <- <-]. split_and!; [|done|naive_solver].
    eexists. split; [done|]. by repeat case_match.
Qed.

(** The sweep always returns, with one result per run directory in name
    order, whatever fails in any of them; a run with a live owner keeps its
    ledger and is reported as an error. *)
Theorem cleanup_all_total fresh dry w r w' :
  polite (B:=B) → cleanup_all fresh dry w = (r, w') →
  ∃ results, r = Ok results ∧ cr_run_id <$> results = sorted_set (dom (run_dirs w)) ∧
    ∀ d, live w d → state_at w' d = state_at w d ∧
      ∃ res, res ∈ results ∧ cr_run_id res = d ∧ errors res ≠ [].
Proof.
  intros Hp. unfold cleanup_all, find_run_dirs, gets. unfold mbind at 1, act_bind at 1.
  set (ds := sorted_set (dom (run_dirs w))). pose proof (NoDup_sorted_set (dom (run_dirs w))) as Hnd. fold ds in Hnd.
  set (I := λ (done : list string) (acc : list CleanupResult) (w1 : World B),
    cr_run_id <$> acc = done ∧ (∀ d, d ∉ done → run_dirs w1 !! d = run_dirs w !! d) ∧
    (∀ d, d ∈ done → live w d → state_at w1 d = state_at w d ∧
      ∃ res, res ∈ acc ∧ cr_run_id res = d ∧ errors res ≠ [])).
  intros Hrun. assert (match r with Ok acc => I ds acc w' | Raise _ => False end) as HI.
  { revert Hrun. apply (hoare_foldA I (λ r w, match r with Ok acc => I ds acc w | Raise _ => False end)).
    2:{ done. }
    2:{ split_and!; [done..|]. intros d Hd. by apply not_elem_of_nil in Hd. }
    intros done x rest acc Hl w1 r1 w2 (Hids & Hrest & Hlive) Hx.
    assert (x ∉ done) as Hxd by (rewrite Hl, NoDup_app in Hnd; set_solver).
    apply act_bind_inv in Hx as [(res & w3 & H1 & [= <- <-])|(e & H1 & ->)];
      apply cleanup_all_one_inv in H1 as ((res' & Hr & Hid & Herr) & Ho & Hst); [|done|done|done].
    injection Hr as <-. assert (live w x → live w1 x) as Hlx by (apply live_dirs; by apply Hrest).
    split_and!; [by rewrite fmap_app, Hids, <-Hid| |].
    - intros d Hd. rewrite Ho by set_solver. apply Hrest. set_solver.
    - intros d [Hd| ->%list_elem_of_singleton]%elem_of_app Hld.
      + destruct (Hlive d Hd Hld) as (Hs & y & Hy & ?). split; [|exists y; set_solver].
        rewrite <-Hs. unfold state_at, file_at. rewrite Ho; [done|]. intros ->. done.
      + split; [|exists res; set_solver]. rewrite Hst by auto. unfold state_at, file_at. by rewrite Hrest. }
  destruct r as [results|]; [|done]. destruct HI as (Hids & _ & Hlive).
  exists results. split_and!; [done..|]. intros d Hld. apply Hlive; [|done].
  unfold ds. apply elem_of_sorted_set, elem_of_dom. destruct Hld as [[h Hh] _]. unfold holder_at in Hh.
  apply bind_Some in Hh as (rd & -> & _). done.
Qed.
End Recovery.

(** ** Concrete recoveries *)
Module CleanupDemo.
Import DriverDemo.

Definition dead (s : State) : RunDir :=
  MkRunDir {[ state_json := Doc (state_to_json s); state_pid := Text "1"; "notes.txt" := Text "mine" ]} None.
Definition drained : State := set_resources [] demo_state.
Definition world (bad : list string) : World (list string) :=
  MkWorld {[ "r1" := demo_dir; "r2" := dead demo_state; "r3" := dead drained ]} [] "t1" 7 bad [].
Definition fresh_store (run : string) : StateStore := MkStore run 9.

Lemma demo_polite : polite (B := list string).
Proof.
  split; [exact demo_uninterrupted|..]; intros; cbn; try case_decide; first [apply tame_ok|by apply tame_raise].
Qed.

Definition summary (r : res (list CleanupResult)) : list (string * list string * list string) :=
  match r with
  | Ok rs => (λ x, (cr_run_id x, destroyed x, (errors x).*1)) <$> rs
  | Raise _ => []
  end.

Example sweep_ids :
  summary (cleanup_all 9 false (world ["n"])).1 =
  [("r1", [], ["(locked)"]); ("r2", ["v"; "d"; "p"], ["n"]); ("r3", [], [])].
Proof. vm_compute. reflexivity. Qed.

Lemma cleanup_refuses_live_witness :
  let '(r, w') := cleanup_run (fresh_store "r1") false (world []) in
  trace w' = [] ∧ state_at w' "r1" = state_at (world []) "r1".
Proof.
  destruct (cleanup_run (fresh_store "r1") false (world [])) as [r w'] eqn:E.
  destruct (cleanup_refuses_live (fresh_store "r1") false (world []) r w' 7) as (_ & Ht & _ & Hs & _).
  - vm_compute. reflexivity.
  - vm_compute. eauto.
  - exact E.
  - split; assumption.
Defined.

Lemma cleanup_drained_offline_witness :
  ∃ w' t, cleanup_run (fresh_store "r3") false (world ["connect"]) =
      (Ok (MkCleanupResult "r3" [] [] []), w') ∧ trace w' = [] ++ t ∧ no_calls t.
Proof.
  destruct (cleanup_drained_offline (fresh_store "r3") (world ["connect"]) drained (dead drained))
    as (w' & t & H1 & H2 & H3 & _).
  - reflexivity.
  - vm_compute. reflexivity.
  - vm_compute. reflexivity.
  - reflexivity.
  - reflexivity.
  - exists w', t. auto.
Defined.

Lemma cleanup_run_accounts_witness :
  ∃ w' t res, cleanup_run (fresh_store "r2") false (world ["n"]) = (Ok res, w') ∧ trace w' = [] ++ t ∧
    destroyed res = destroyed_names t.
Proof.
  destruct (cleanup_run_accounts (fresh_store "r2") (world ["n"]) demo_state (dead demo_state))
    as (w' & t & res & H1 & H2 & _ & H3 & _).
  - exact demo_uninterrupted.
  - split; [vm_compute; reflexivity|vm_compute; reflexivity|intros b; reflexivity].
  - reflexivity.
  - vm_compute. reflexivity.
  - vm_compute. reflexivity.
  - reflexivity.
  - discriminate.
  - exists w', t, res. auto.
Defined.

Lemma cleanup_all_total_witness :
  let '(r, w') := cleanup_all 9 false (world ["n"; "connect"]) in
  ∃ results, r = Ok results ∧
    cr_run_id <$> results = sorted_set (dom (run_dirs (world ["n"; "connect"]))).
Proof.
  destruct (cleanup_all 9 false (world ["n"; "connect"])) as [r w'] eqn:E.
  destruct (cleanup_all_total 9 false (world ["n"; "connect"]) r w') as (results & H1 & H2 & _).
  - exact demo_polite.
  - exact E.
  - exists results. auto.
Defined.

(** Listing the runs leaves a lock file behind in a run that had none. *)
Lemma list_runs_creates_lock :
  file_at (world []) "r3" state_lock = None ∧
  file_at (list_runs 9 (world [])).2 "r3" state_lock = Some (Text "").
Proof. split; vm_compute; reflexivity. Qed.
End CleanupDemo.
