(* ===== verification/Parallel.v ===== *)
(** * The bounded worker pool ([orchestrator/_parallel.py])

    [parallel_map] as a step relation: the calling thread (submit, wait, scan,
    cancel, collect, leave the [with] block) interleaved with the pool's workers.
    Every interleaving the executor allows is a run of the relation; the item
    function is any relation from items to outcomes. *)

From S2P Require Import Prelude Exceptions.
From stdpp Require Import options.

Definition DEFAULT_MAX_WORKERS : Z := 8.

(** [resolve_workers] *)
Definition resolve_workers (n_items : Z) (jobs : option Z) : Z :=
  if decide (n_items ≤ 1)%Z then 1
  else
    let cap := match jobs with None => DEFAULT_MAX_WORKERS | Some j => j end in
    Z.min (Z.max cap 1) n_items.

Section Pool.
Context {A R : Type}.

(** The possible outcomes of [fn(item)]. *)
Variable fn : A → res R → Prop.

(** The life of a [Future]; [Unsubmitted] before [ex.submit]. *)
Inductive fut : Type :=
  | Unsubmitted
  | Queued
  | Running
  | Finished (r : res R)
  | Cancelled.

(** What an observer of the items sees. *)
Inductive ev : Type :=
  | Start (a : A)
  | Finish (a : A) (r : res R).

(** Where the calling thread is. *)
Inductive main_pc : Type :=
  | Submitting (k : nat)
  | Waiting
  | Scanning (not_done : list nat) (i : nat)
  | Cancelling (not_done : list nat) (e : exn)
  | Collecting (i : nat) (acc : list R)
  | Leaving (r : res (list R))
  | Returned (r : res (list R)).

Record pool : Type := MkPool {
  work : list A;
  workers : nat;
  futures : list fut;
  main : main_pc;
  observed : list ev;
}.

Definition set_main (c : pool) (m : main_pc) : pool :=
  MkPool (work c) (workers c) (futures c) m (observed c).
Definition set_future (c : pool) (i : nat) (f : fut) (m : main_pc) : pool :=
  MkPool (work c) (workers c) (<[i := f]> (futures c)) m (observed c).
Definition observe (c : pool) (i : nat) (f : fut) (e : ev) : pool :=
  MkPool (work c) (workers c) (<[i := f]> (futures c)) (main c) (observed c ++ [e]).

Definition is_running_fut (f : fut) : bool := match f with Running => true | _ => false end.
Definition running (c : pool) : nat := length (filter (λ f, is_running_fut f = true) (futures c)).

(** [fut.done()] *)
Definition fut_done (f : fut) : bool :=
  match f with Finished _ | Cancelled => true | _ => false end.

(** [fut.cancel()] takes effect only on work that has not started. *)
Definition cancel (f : fut) : fut := match f with Queued => Cancelled | f => f end.

(** [fut.done() and fut.exception() is not None] *)
Definition failed (f : fut) : option exn :=
  match f with Finished (Raise e) => Some e | _ => None end.

Inductive pool_step (c : pool) : pool → Prop :=
  (** a free worker takes the oldest queued item *)
  | step_take i a :
      futures c !! i = Some Queued → (∀ j, j < i → futures c !! j ≠ Some Queued) →
      work c !! i = Some a → running c < workers c →
      pool_step c (observe c i Running (Start a))
  | step_done i a r :
      futures c !! i = Some Running → work c !! i = Some a → fn a r →
      pool_step c (observe c i (Finished r) (Finish a r))
  (** [futures = [ex.submit(fn, item) for item in work]] *)
  | step_submit k :
      main c = Submitting k → k < length (work c) →
      pool_step c (set_future c k Queued (Submitting (S k)))
  | step_submitted k :
      main c = Submitting k → length (work c) ≤ k → pool_step c (set_main c Waiting)
  (** [wait(futures, return_when=FIRST_EXCEPTION)]: everything unfinished is in
      [not_done] *)
  | step_wait nd :
      main c = Waiting →
      (Forall (λ f, fut_done f = true) (futures c) ∨ Exists (λ f, is_Some (failed f)) (futures c)) →
      NoDup nd → (∀ i, i ∈ nd → i < length (work c)) →
      (∀ i f, futures c !! i = Some f → fut_done f = false → i ∈ nd) →
      pool_step c (set_main c (Scanning nd 0))
  (** [for fut in futures: ...] *)
  | step_scan_pass nd i f :
      main c = Scanning nd i → futures c !! i = Some f → failed f = None →
      pool_step c (set_main c (Scanning nd (S i)))
  | step_scan_hit nd i f e :
      main c = Scanning nd i → futures c !! i = Some f → failed f = Some e →
      pool_step c (set_main c (Cancelling nd e))
  | step_scan_end nd i :
      main c = Scanning nd i → length (work c) ≤ i → pool_step c (set_main c (Collecting 0 []))
  | step_cancel i nd e f :
      main c = Cancelling (i :: nd) e → futures c !! i = Some f →
      pool_step c (set_future c i (cancel f) (Cancelling nd e))
  | step_reraise e :
      main c = Cancelling [] e → pool_step c (set_main c (Leaving (Raise e)))
  (** [[fut.result() for fut in futures]] *)
  | step_collect i acc x :
      main c = Collecting i acc → futures c !! i = Some (Finished (Ok x)) →
      pool_step c (set_main c (Collecting (S i) (acc ++ [x])))
  | step_collect_raise i acc e :
      main c = Collecting i acc → futures c !! i = Some (Finished (Raise e)) →
      pool_step c (set_main c (Leaving (Raise e)))
  | step_collected i acc :
      main c = Collecting i acc → length (work c) ≤ i → pool_step c (set_main c (Leaving (Ok acc)))
  (** [__exit__]: [shutdown(wait=True)] joins the workers *)
  | step_join r :
      main c = Leaving r → Forall (λ f, f ≠ Queued ∧ f ≠ Running) (futures c) →
      pool_step c (set_main c (Returned r)).

Definition pool_start (items : list A) (n : nat) : pool :=
  MkPool items n (replicate (length items) Unsubmitted) (Submitting 0) [].

(** [[fn(item) for item in work]] *)
Inductive inline_run : list A → list ev → res (list R) → Prop :=
  | inline_nil : inline_run [] [] (Ok [])
  | inline_raise a l e : fn a (Raise e) → inline_run (a :: l) [Start a; Finish a (Raise e)] (Raise e)
  | inline_ok a l x tr xs :
      fn a (Ok x) → inline_run l tr (Ok xs) →
      inline_run (a :: l) (Start a :: Finish a (Ok x) :: tr) (Ok (x :: xs))
  | inline_later a l x tr e :
      fn a (Ok x) → inline_run l tr (Raise e) →
      inline_run (a :: l) (Start a :: Finish a (Ok x) :: tr) (Raise e).

(** [parallel_map]: what it returns and what was observed on the way. *)
Inductive parallel_map (jobs : option Z) (items : list A) : list ev → res (list R) → Prop :=
  | pm_empty : items = [] → parallel_map jobs items [] (Ok [])
  | pm_inline tr r :
      items ≠ [] → resolve_workers (Z.of_nat (length items)) jobs = 1%Z → inline_run items tr r →
      parallel_map jobs items tr r
  | pm_pool c r :
      items ≠ [] → resolve_workers (Z.of_nat (length items)) jobs ≠ 1%Z →
      rtc pool_step (pool_start items (Z.to_nat (resolve_workers (Z.of_nat (length items)) jobs))) c →
      main c = Returned r → parallel_map jobs items (observed c) r.
End Pool.
Arguments fut : clear implicits.
Arguments ev : clear implicits.
Arguments pool : clear implicits.
Arguments main_pc : clear implicits.

(** ** The worker pool: correctness of every interleaving *)

Lemma zip_insert_r {A B} (l : list A) (k : list B) i a b :
  l !! i = Some a → zip l (<[i := b]> k) = <[i := (a, b)]> (zip l k).
Proof.
  revert k i. induction l as [|x l IH]; intros k i Hi; [done|].
  destruct k as [|y k], i as [|i]; cbn in *; try done; [by simplify_eq|]. f_equal. by apply IH.
Qed.

(** Updating one element adds at most what [f] newly selects there. *)
Lemma omap_insert_new {A B} (f : A → option B) (l : list A) i x y z :
  l !! i = Some x → f x = None → f y = Some z → omap f (<[i := y]> l) ≡ₚ omap f l ++ [z].
Proof.
  intros Hi Hx Hy. rewrite <-(take_drop_middle l i x Hi) at 2.
  rewrite insert_take_drop by (by eapply lookup_lt_Some). rewrite !omap_app. cbn. rewrite Hx, Hy.
  rewrite <-app_assoc. f_equiv. by rewrite Permutation_cons_append.
Qed.

Lemma omap_insert_same {A B} (f : A → option B) (l : list A) i x y :
  l !! i = Some x → f x = f y → omap f (<[i := y]> l) = omap f l.
Proof.
  intros Hi Hxy. rewrite <-(take_drop_middle l i x Hi) at 2.
  rewrite insert_take_drop by (by eapply lookup_lt_Some). rewrite !omap_app. cbn. by rewrite Hxy.
Qed.

Section Spec.
Context {A R : Type} (fn : A → res R → Prop).
Set Default Proof Using "Type".
Implicit Types (c : pool A R) (fs : list (fut R)) (f : fut R).

(** The items seen starting, and seen finishing with an outcome. *)
Definition starts (tr : list (ev A R)) : list A :=
  omap (λ e, match e with Start a => Some a | Finish _ _ => None end) tr.
Definition finishes (tr : list (ev A R)) : list (A * res R) :=
  omap (λ e, match e with Start _ => None | Finish a r => Some (a, r) end) tr.

Definition has_started (x : A * fut R) : option A :=
  match x.2 with Running | Finished _ => Some x.1 | _ => None end.
Definition has_finished (x : A * fut R) : option (A * res R) :=
  match x.2 with Finished r => Some (x.1, r) | _ => None end.

(** What the workers maintain. *)
Record pool_inv (items : list A) (n : nat) c : Prop := {
  pi_work : work c = items;
  pi_workers : workers c = n;
  pi_len : length (futures c) = length items;
  pi_bound : running c ≤ n;
  pi_starts : starts (observed c) ≡ₚ omap has_started (zip items (futures c));
  pi_finishes : finishes (observed c) ≡ₚ omap has_finished (zip items (futures c));
  pi_fn : ∀ a r, (a, r) ∈ finishes (observed c) → fn a r;
}.

Lemma zip_lookup (items : list A) fs i a f :
  items !! i = Some a → fs !! i = Some f → zip items fs !! i = Some (a, f).
Proof. intros Ha Hf. apply lookup_zip_with_Some. eauto. Qed.

(** A change of a future that neither starts nor finishes anything. *)
Lemma pool_inv_quiet items n c i a f f' m :
  pool_inv items n c → items !! i = Some a → futures c !! i = Some f →
  has_started (a, f) = has_started (a, f') → has_finished (a, f) = has_finished (a, f') →
  is_running_fut f = is_running_fut f' → pool_inv items n (set_future c i f' m).
Proof.
  intros [H1 H2 H3 H4 H5 H6 H7] Ha Hf Hs Hd Hr.
  split; cbn [set_future work workers futures observed]; try done.
  - by rewrite length_insert.
  - unfold running in *. cbn [futures]. enough (filter (λ f, is_running_fut f = true) (<[i:=f']> (futures c))
      ≡ₚ filter (λ f, is_running_fut f = true) (<[i:=f]> (futures c))) as ->.
    { by rewrite list_insert_id by done. }
    rewrite !insert_take_drop by (by eapply lookup_lt_Some). rewrite !filter_app, !filter_cons, Hr.
    f_equiv. destruct (decide _) as [Hx|]; [|done]. destruct f, f'; done.
  - rewrite (zip_insert_r _ _ _ a), (omap_insert_same _ _ _ (a, f)) by eauto using zip_lookup. done.
  - rewrite (zip_insert_r _ _ _ a), (omap_insert_same _ _ _ (a, f)) by eauto using zip_lookup. done.
Qed.

Lemma pool_inv_main items n c m : pool_inv items n c → pool_inv items n (set_main c m).
Proof. intros [H1 H2 H3 H4 H5 H6 H7]. by split. Qed.

Lemma running_insert fs i f f' :
  fs !! i = Some f →
  length (filter (λ f, is_running_fut f = true) (<[i := f']> fs)) + (if is_running_fut f then 1 else 0) =
  length (filter (λ f, is_running_fut f = true) fs) + (if is_running_fut f' then 1 else 0).
Proof.
  intros Hf. rewrite <-(take_drop_middle fs i f Hf) at 2.
  rewrite insert_take_drop by (by eapply lookup_lt_Some). rewrite !filter_app, !filter_cons, !length_app.
  destruct (is_running_fut f), (is_running_fut f'); repeat case_decide; cbn; try done; lia.
Qed.

(** ** The calling thread *)

Definition submitted fs : Prop := Unsubmitted ∉ fs.
Definition all_ok (l : list R) fs : Prop := fs = (λ x, Finished (Ok x)) <$> l.
Definition some_failed (e : exn) fs : Prop := Finished (Raise e) ∈ fs.
Definition failed_from (i : nat) fs : Prop := ∃ j f e, i ≤ j ∧ fs !! j = Some f ∧ failed f = Some e.
Definition queued_in (nd : list nat) fs : Prop := ∀ i, fs !! i = Some Queued → i ∈ nd.

Definition main_ok c : Prop :=
  let fs := futures c in
  match main c with
  | Submitting k => (∀ i f, fs !! i = Some f → f = Unsubmitted ↔ k ≤ i) ∧ Cancelled ∉ fs
  | Waiting => submitted fs ∧ Cancelled ∉ fs
  | Scanning nd i => submitted fs ∧ ((∃ l, all_ok l fs) ∨ failed_from i fs) ∧ queued_in nd fs
      ∧ Forall (λ i, i < length fs) nd
  | Cancelling nd e => submitted fs ∧ some_failed e fs ∧ queued_in nd fs ∧ Forall (λ i, i < length fs) nd
  | Collecting i acc => ∃ l, all_ok l fs ∧ acc = take i l
  | Leaving (Ok l) | Returned (Ok l) => all_ok l fs
  | Leaving (Raise e) => submitted fs ∧ some_failed e fs ∧ Queued ∉ fs
  | Returned (Raise e) => submitted fs ∧ some_failed e fs ∧ Queued ∉ fs ∧ Running ∉ fs
  end.

(** What a worker does to a future. *)
Inductive advance : fut R → fut R → Prop :=
  | adv_take : advance Queued Running
  | adv_done r : advance Running (Finished r).

Lemma elem_of_insert (fs : list (fut R)) i f f' g :
  fs !! i = Some f → g ≠ f' → g ∈ <[i := f']> fs → g ∈ fs.
Proof.
  intros Hf Hg [j Hj]%list_elem_of_lookup.
  apply list_lookup_insert_Some in Hj as [(_ & -> & _)|[_ Hj]]; [done|]. by eapply list_elem_of_lookup_2.
Qed.

Lemma elem_of_insert_keep (fs : list (fut R)) i f f' g :
  fs !! i = Some f → g ≠ f → g ∈ fs → g ∈ <[i := f']> fs.
Proof.
  intros Hf Hg [j Hj]%list_elem_of_lookup. apply list_elem_of_lookup. exists j.
  rewrite list_lookup_insert_ne; [done|]. intros ->. congruence.
Qed.

Lemma all_ok_no_step l fs i f f' : all_ok l fs → fs !! i = Some f → ¬ advance f f'.
Proof. intros -> (x & -> & _)%list_lookup_fmap_Some Ha. inversion Ha. Qed.

Lemma failed_Some f e : failed f = Some e ↔ f = Finished (Raise e).
Proof. destruct f as [| | |[]|]; cbn; naive_solver. Qed.

Lemma some_failed_elem fs : (∃ e, some_failed e fs) ↔ failed_from 0 fs.
Proof.
  split.
  - intros [e [j Hj]%list_elem_of_lookup]. exists j, (Finished (Raise e)), e. split_and!; [lia|done|done].
  - intros (j & f & e & _ & Hj & He%failed_Some). subst. exists e. by eapply list_elem_of_lookup_2.
Qed.

(** Nothing a worker does disturbs the calling thread. *)
Lemma main_ok_advance c i f f' o :
  main_ok c → futures c !! i = Some f → advance f f' →
  main_ok (MkPool (work c) (workers c) (<[i := f']> (futures c)) (main c) o).
Proof.
  intros Hm Hf Ha. unfold main_ok in *. cbn [main futures].
  assert (∀ g, g ∈ [Unsubmitted; Cancelled] → g ∉ futures c → g ∉ <[i := f']> (futures c)) as Hno.
  { intros g Hg Hn Hin. apply Hn. eapply elem_of_insert; [done| |done]. intros ->. inversion Ha; subst; set_solver. }
  assert (∀ e, some_failed e (futures c) → some_failed e (<[i := f']> (futures c))) as Hsf.
  { intros e He. eapply elem_of_insert_keep; [done| |done]. intros <-. inversion Ha. }
  assert (∀ nd, queued_in nd (futures c) → queued_in nd (<[i := f']> (futures c))) as Hqi.
  { intros nd Hq j Hj. apply Hq. apply list_lookup_insert_Some in Hj as [(_ & -> & _)|[_ Hj]]; [inversion Ha|done]. }
  assert (Queued ∉ futures c → Queued ∉ <[i := f']> (futures c)) as Hq0.
  { intros Hn Hin. apply Hn. eapply elem_of_insert; [done| |done]. intros <-. inversion Ha. }
  assert (∀ l, all_ok l (futures c) → False) as Hao by (intros l Hl; by eapply all_ok_no_step).
  destruct (main c) as [k| |nd k|nd e|k acc|[l|e]|[l|e]].
  - destruct Hm as [Hk Hc]. split; [|apply Hno; [set_solver|done]]. intros j g Hj.
    apply list_lookup_insert_Some in Hj as [(<- & <- & _)|[_ Hj]]; [|by eapply Hk].
    rewrite <-(Hk _ _ Hf). split; intros ->; inversion Ha.
  - destruct Hm. split; apply Hno; set_solver.
  - destruct Hm as (Hs & Hor & Hq & Hnd). rewrite length_insert. split_and!; [apply Hno; set_solver| |auto|done].
    destruct Hor as [[l Hl]|(j & g & e & Hj & Hg & He)]; [by exfalso; eapply Hao|]. right. exists j, g, e.
    split_and!; [done| |done]. rewrite list_lookup_insert_ne; [done|]. intros ->. apply failed_Some in He as ->.
    assert (f = Finished (Raise e)) as -> by congruence. inversion Ha.
  - destruct Hm as (Hs & He & Hq & Hnd). rewrite length_insert. split_and!; [apply Hno; set_solver|auto..].
  - destruct Hm as (l & Hl & _). by exfalso; eapply Hao.
  - by exfalso; eapply Hao.
  - destruct Hm as (Hs & He & Hq). split_and!; [apply Hno; set_solver|auto..].
  - by exfalso; eapply Hao.
  - destruct Hm as (Hs & He & Hq & Hr). exfalso. inversion Ha; subst.
    + apply Hq. by eapply list_elem_of_lookup_2.
    + apply Hr. by eapply list_elem_of_lookup_2.
Qed.

Lemma pool_inv_step items n c c' :
  pool_inv items n c → main_ok c → pool_step fn c c' → pool_inv items n c'.
Proof.
  intros HI Hm Hs. pose proof HI as [H1 H2 H3 H4 H5 H6 H7]. destruct Hs; try by apply pool_inv_main.
  - rewrite H1 in *. pose proof (running_insert (futures c) i Queued Running) as Hr.
    split; cbn [observe work workers futures observed]; try done.
    + by rewrite length_insert.
    + specialize (Hr ltac:(done)). unfold running in *. cbn [futures is_running_fut observe] in *. lia.
    + unfold starts. rewrite omap_app. fold (starts (observed c)). rewrite H5, (zip_insert_r _ _ _ a) by done.
      symmetry. by apply (omap_insert_new has_started _ _ (a, Queued)); [apply zip_lookup|..].
    + unfold finishes. rewrite omap_app. cbn. rewrite app_nil_r. fold (finishes (observed c)).
      rewrite H6, (zip_insert_r _ _ _ a), (omap_insert_same _ _ _ (a, Queued)) by eauto using zip_lookup. done.
    + unfold finishes. rewrite omap_app. cbn. by rewrite app_nil_r.
  - rewrite H1 in *. pose proof (running_insert (futures c) i Running (Finished r)) as Hr.
    split; cbn [observe work workers futures observed]; try done.
    + by rewrite length_insert.
    + specialize (Hr ltac:(done)). unfold running in *. cbn [futures is_running_fut observe] in *. lia.
    + unfold starts. rewrite omap_app. cbn. rewrite app_nil_r. fold (starts (observed c)).
      rewrite H5, (zip_insert_r _ _ _ a), (omap_insert_same _ _ _ (a, Running)) by eauto using zip_lookup. done.
    + unfold finishes. rewrite omap_app. fold (finishes (observed c)). rewrite H6, (zip_insert_r _ _ _ a) by done.
      symmetry. by apply (omap_insert_new has_finished _ _ (a, Running)); [apply zip_lookup|..].
    + unfold finishes. intros a' r'. rewrite omap_app, elem_of_app. cbn. intros [Hi|Hi]; [by apply H7|].
      apply list_elem_of_singleton in Hi. by simplify_eq.
  - destruct (lookup_lt_is_Some_2 (work c) k) as [a Ha]; [done|].
    destruct (lookup_lt_is_Some_2 (futures c) k) as [f Hf]; [by rewrite H3, <-H1|].
    unfold main_ok in Hm. rewrite H in Hm. assert (f = Unsubmitted) as -> by (by apply (proj1 Hm _ _ Hf)).
    rewrite H1 in Ha. by apply (pool_inv_quiet _ _ _ _ a Unsubmitted).
  - destruct (lookup_lt_is_Some_2 items i) as [a Ha]; [rewrite <-H3; by eapply lookup_lt_Some|].
    apply (pool_inv_quiet _ _ _ _ a f); try done; by destruct f.
Qed.

Lemma main_ok_step items n c c' : pool_inv items n c → main_ok c → pool_step fn c c' → main_ok c'.
Proof.
  intros [H1 _ H3 _ _ _ _] Hm Hs. assert (length (futures c) = length (work c)) as Hlen by congruence. clear H1 H3.
  destruct Hs as [i a Hi _ _ _|i a r Hi _ _|k Hk Hlt|k Hk Hge|nd Hk Hor Hnd Hin Hall|nd i f Hk Hf He
    |nd i f e Hk Hf He|nd i Hk Hge|i nd e f Hk Hf|e Hk|i acc x Hk Hx|i acc e Hk Hx|i acc Hk Hge|r Hk Hall];
    try (unfold main_ok in Hm; rewrite Hk in Hm); cbn [set_main set_future].
  - eapply main_ok_advance; [done..|constructor].
  - eapply main_ok_advance; [done..|constructor].
  - unfold main_ok. cbn. destruct Hm as [Hu Hc]. split.
    + intros j f Hj. apply list_lookup_insert_Some in Hj as [(<- & <- & _)|[Hne Hj]]; [split; [done|lia]|].
      rewrite (Hu _ _ Hj). lia.
    + destruct (lookup_lt_is_Some_2 (futures c) k) as [f Hf]; [by rewrite Hlen|].
      intros Hi. apply Hc. by apply (elem_of_insert _ k f Queued).
  - unfold main_ok. cbn. destruct Hm as [Hu Hc]. split; [|done]. intros [j Hj]%list_elem_of_lookup.
    apply lookup_lt_Some in Hj as Hlt. apply Hu in Hj. destruct Hj as [Hj _]. specialize (Hj eq_refl). lia.
  - unfold main_ok. cbn. destruct Hm as [Hu Hc]. split_and!; [done| | |].
    + destruct (decide (Exists (λ f, is_Some (failed f)) (futures c))) as [He|He].
      { right. apply Exists_exists in He as (f & [j Hj]%list_elem_of_lookup & [e He]).
        exists j, f, e. split_and!; [lia|done|done]. }
      destruct Hor as [Hor|Hor]; [|done]. left. apply not_Exists_Forall in He; [|intros; apply _].
      clear -Hor He Hc. induction (futures c) as [|f fs IH]; [by exists []|].
      apply Forall_cons in Hor as [Hf Hor]. apply Forall_cons in He as [Hf' He].
      destruct IH as [l Hl]; [first [done|set_solver]..|]. destruct f as [| | |[x|e]|]; try done.
      * exists (x :: l). unfold all_ok in *. by subst fs.
      * destruct Hf'. by eexists.
      * set_solver.
    + intros i Hi. by apply (Hall i Queued).
    + rewrite Hlen. by apply Forall_forall.
  - unfold main_ok. cbn. destruct Hm as (Hs & [Hl|(j & g & e & Hj & Hg & Hge)] & Hq & Hnd); split_and!; auto.
    right. exists j, g, e. split_and!; [|done|done]. destruct (decide (i = j)) as [->|]; [congruence|lia].
  - unfold main_ok. cbn. destruct Hm as (Hs & _ & Hq & Hnd). split_and!; auto. apply failed_Some in He as ->.
    by eapply list_elem_of_lookup_2.
  - unfold main_ok. cbn. destruct Hm as (Hs & [[l Hl]|(j & g & e & Hj & Hg & Hge')] & Hq & Hnd); [by exists l|].
    apply lookup_lt_Some in Hg. lia.
  - unfold main_ok. cbn. destruct Hm as (Hs & He & Hq & Hnd). apply Forall_cons in Hnd as [_ Hnd].
    rewrite length_insert. split_and!; [| | |done].
    + intros Hi. apply Hs. eapply elem_of_insert; [done| |done]. intros Hcf. destruct f; try done.
      apply Hs. by eapply list_elem_of_lookup_2.
    + destruct (decide (is_Some (failed f))) as [[e' Hf']|Hnf].
      * apply failed_Some in Hf' as ->. by rewrite list_insert_id.
      * eapply elem_of_insert_keep; [done| |done]. intros <-. by destruct Hnf.
    + intros j Hj. apply list_lookup_insert_Some in Hj as [(<- & Hc & _)|[Hne Hj]]; [by destruct f|].
      specialize (Hq _ Hj). set_solver.
  - unfold main_ok. cbn. destruct Hm as (Hs & He & Hq & _). split_and!; [done..|].
    intros [j Hj]%list_elem_of_lookup. apply Hq in Hj. by apply not_elem_of_nil in Hj.
  - unfold main_ok. cbn. destruct Hm as (l & Hl & ->). exists l. split; [done|].
    rewrite Hl in Hx. apply list_lookup_fmap_Some in Hx as (y & ? & Hy). simplify_eq. by rewrite (take_S_r _ _ _ Hy).
  - destruct Hm as (l & Hl & _). rewrite Hl in Hx. by apply list_lookup_fmap_Some in Hx as (y & ? & _).
  - unfold main_ok. cbn. destruct Hm as (l & Hl & ->). rewrite take_ge; [done|]. rewrite Hl, length_fmap in Hlen. lia.
  - unfold main_ok. cbn. destruct r as [l|e]; [done|]. destruct Hm as (Hs & He & Hq). split_and!; [done..|].
    intros Hr. rewrite Forall_forall in Hall. by destruct (Hall _ Hr).
Qed.

(** ** Reachable configurations *)

Lemma zip_replicate_none {C} (g : A * fut R → option C) (items : list A) f :
  (∀ a, g (a, f) = None) → omap g (zip items (replicate (length items) f)) = [].
Proof. intros Hg. induction items as [|a l IH]; [done|]. cbn. by rewrite Hg. Qed.

Lemma reachable_inv items n c :
  rtc (pool_step fn) (pool_start items n) c → pool_inv items n c ∧ main_ok c.
Proof.
  cut (pool_inv items n (pool_start items n) ∧ main_ok (pool_start items n)).
  { intros H0 Hr. induction Hr as [|c1 c2 c3 Hs _ IH]; [done|]. apply IH. destruct H0.
    split; [by eapply pool_inv_step|by eapply main_ok_step]. }
  split; [split; cbn; try done|].
  - by rewrite length_replicate.
  - unfold running. cbn. induction (length items) as [|k IH]; [cbn; lia|]. cbn. done.
  - by rewrite (zip_replicate_none has_started).
  - by rewrite (zip_replicate_none has_finished).
  - intros a r Hi. by apply not_elem_of_nil in Hi.
  - cbn. split; [|intros [i [? _]%lookup_replicate]%list_elem_of_lookup; done].
    intros i f [-> _]%lookup_replicate. split; [lia|done].
Qed.

Lemma zip_all_ok (items : list A) (l : list R) :
  length l = length items →
  omap has_started (zip items ((λ x, Finished (Ok x)) <$> l)) = items ∧
  omap has_finished (zip items ((λ x, Finished (Ok x)) <$> l)) = zip items (Ok <$> l).
Proof.
  revert l. induction items as [|a items IH]; intros [|x l] Hl; try done. cbn in *.
  destruct (IH l) as [H1 H2]; [lia|]. by rewrite H1, H2.
Qed.

(** With no future running, what started has finished. *)
Lemma drained_zip (items : list A) fs :
  Running ∉ fs → omap has_started (zip items fs) = fst <$> omap has_finished (zip items fs).
Proof.
  clear fn. revert fs. induction items as [|a items IH]; intros [|f fs] Hr; try done. cbn.
  rewrite IH by set_solver. destruct f; try done. set_solver.
Qed.

Lemma started_submseteq (items : list A) fs : omap has_started (zip items fs) ⊆+ items.
Proof.
  revert fs. induction items as [|a items IH]; intros [|f fs]; cbn; [done|done|by apply submseteq_nil_l|].
  destruct f; cbn; auto using submseteq_skip, submseteq_cons.
Qed.

(** The contract of a finished [parallel_map], on either path. *)
Definition map_outcome (items : list A) (tr : list (ev A R)) (r : res (list R)) : Prop :=
  starts tr ≡ₚ (finishes tr).*1 ∧ starts tr ⊆+ items ∧ Forall (λ p, fn p.1 p.2) (finishes tr) ∧
  match r with
  | Ok xs => length xs = length items ∧ starts tr ≡ₚ items ∧ finishes tr ≡ₚ zip items (Ok <$> xs)
  | Raise e => ∃ a, (a, Raise e) ∈ finishes tr
  end.

Lemma inline_outcome items tr r : inline_run fn items tr r → map_outcome items tr r.
Proof.
  unfold map_outcome. induction 1 as [|a l e Hf|a l x tr xs Hf _ IH|a l x tr e Hf _ IH]; cbn.
  - done.
  - split_and!; [done|by apply submseteq_skip, submseteq_nil_l|by constructor|].
    exists a. set_solver.
  - destruct IH as (H1 & H2 & H3 & H4 & H5 & H6). split_and!; [by rewrite H1|by apply submseteq_skip|by constructor|lia
      |by rewrite H5|by rewrite H6].
  - destruct IH as (H1 & H2 & H3 & b & Hb). split_and!; [by rewrite H1|by apply submseteq_skip|by constructor|].
    exists b. set_solver.
Qed.

Lemma pool_outcome items n c r :
  rtc (pool_step fn) (pool_start items n) c → main c = Returned r → map_outcome items (observed c) r.
Proof.
  intros Hr Hm. destruct (reachable_inv _ _ _ Hr) as [[H1 H2 H3 H4 H5 H6 H7] Hok].
  assert (Running ∉ futures c) as Hnr.
  { unfold main_ok in Hok. rewrite Hm in Hok. destruct r as [l|e]; [|by apply Hok].
    rewrite Hok. intros (x & ? & _)%list_elem_of_fmap. done. }
  split_and!.
  - by rewrite H5, H6, drained_zip.
  - rewrite H5. apply started_submseteq.
  - apply Forall_forall. intros [a x]. apply H7.
  - unfold main_ok in Hok. rewrite Hm in Hok. destruct r as [l|e].
    + assert (length l = length items) as Hl by (by rewrite <-H3, Hok, length_fmap).
      rewrite H5, H6, Hok. by destruct (zip_all_ok items l Hl) as [-> ->].
    + destruct Hok as (_ & [i Hi]%list_elem_of_lookup & _).
      destruct (lookup_lt_is_Some_2 items i) as [a Ha]; [rewrite <-H3; by eapply lookup_lt_Some|].
      exists a. rewrite H6. apply list_elem_of_omap. exists (a, Finished (Raise e)). split; [|done].
      eapply list_elem_of_lookup_2. by apply zip_lookup.
Qed.

Lemma parallel_map_outcome jobs items tr r : parallel_map fn jobs items tr r → map_outcome items tr r.
Proof.
  destruct 1 as [->|tr r _ _ Hi|c r _ _ Hr Hm]; [by apply inline_outcome; constructor|by apply inline_outcome|].
  by eapply pool_outcome.
Qed.

(** Whatever the interleaving, [parallel_map] returns only when every item
    that started has finished (in-flight work is drained, never abandoned); it
    returns the results in input order when all items succeeded, each having run
    exactly once, and otherwise raises the exception of an item that failed. *)
Theorem parallel_map_contract jobs items tr r :
  parallel_map fn jobs items tr r →
  starts tr ≡ₚ (finishes tr).*1 ∧ starts tr ⊆+ items ∧
  match r with
  | Ok xs => Forall2 fn items (Ok <$> xs) ∧ starts tr ≡ₚ items ∧ finishes tr ≡ₚ zip items (Ok <$> xs)
  | Raise e => ∃ a, (a, Raise e) ∈ finishes tr ∧ fn a (Raise e)
  end.
Proof.
  intros (H1 & H2 & H3 & H4)%parallel_map_outcome. split_and!; [done..|]. rewrite Forall_forall in H3.
  destruct r as [xs|e]; [|by destruct H4 as [a Ha]; exists a; split; [|apply (H3 (a, Raise e))]].
  destruct H4 as (Hl & Hs & Hf). split_and!; [|done..].
  apply Forall2_same_length_lookup_2; [by rewrite length_fmap|]. intros i a x Ha Hx.
  apply (H3 (a, x)). rewrite Hf. eapply list_elem_of_lookup_2, lookup_zip_with_Some. eauto.
Qed.

(** ** Every run ends *)

Definition rank f : nat :=
  match f with Unsubmitted => 3 | Queued => 2 | Running => 1 | Finished _ | Cancelled => 0 end.
Definition main_rank (n : nat) (m : main_pc R) : nat :=
  match m with
  | Submitting k => 3 * n + 7 + (n - k)
  | Waiting => 3 * n + 6
  | Scanning nd i => n + 4 + (n - i) + length nd
  | Cancelling nd _ => n + 3 + length nd
  | Collecting i _ => 2 + (n - i)
  | Leaving _ => 1
  | Returned _ => 0
  end.
Definition measure c : nat := sum_list (rank <$> futures c) + main_rank (length (work c)) (main c).

Lemma sum_rank_insert fs i f f' :
  fs !! i = Some f → sum_list (rank <$> <[i := f']> fs) + rank f = sum_list (rank <$> fs) + rank f'.
Proof.
  intros Hf. rewrite <-(take_drop_middle fs i f Hf) at 2.
  rewrite insert_take_drop by (by eapply lookup_lt_Some). rewrite !fmap_app. cbn. induction (rank <$> take i fs) as [|x l IH]; cbn; lia.
Qed.

Lemma step_measure c c' : length (futures c) = length (work c) → main_ok c → pool_step fn c c' → measure c' < measure c.
Proof.
  intros Hlen Hok Hs. unfold measure.
  destruct Hs as [i a Hi _ _ _|i a r Hi _ _|k Hk Hlt|k Hk Hge|nd Hk Hor Hnd Hin Hall|nd i f Hk Hf He
    |nd i f e Hk Hf He|nd i Hk Hge|i nd e f Hk Hf|e Hk|i acc x Hk Hx|i acc e Hk Hx|i acc Hk Hge|r Hk Hall];
    cbn [set_main set_future observe work futures main]; try (rewrite Hk; cbn [main_rank length]).
  - pose proof (sum_rank_insert _ _ _ Running Hi) as Hr. cbn in Hr. lia.
  - pose proof (sum_rank_insert _ _ _ (Finished r) Hi) as Hr. cbn in Hr. lia.
  - destruct (lookup_lt_is_Some_2 (futures c) k) as [f Hf]; [by rewrite Hlen|].
    pose proof (sum_rank_insert _ _ _ Queued Hf) as Hr.
    unfold main_ok in Hok. rewrite Hk in Hok. assert (f = Unsubmitted) as -> by (by apply (proj1 Hok _ _ Hf)).
    cbn in Hr. lia.
  - lia.
  - assert (length nd ≤ length (work c)) as Hb.
    { rewrite <-(length_seq (length (work c)) 0). apply submseteq_length, NoDup_submseteq; [done|].
      intros j Hj. apply elem_of_seq. specialize (Hin _ Hj). lia. }
    lia.
  - apply lookup_lt_Some in Hf. lia.
  - lia.
  - lia.
  - pose proof (sum_rank_insert _ _ _ (cancel f) Hf) as Hr. destruct f; cbn [cancel rank] in *; lia.
  - lia.
  - apply lookup_lt_Some in Hx. lia.
  - lia.
  - lia.
  - lia.
Qed.

Lemma reachable_terminates items n c :
  rtc (pool_step fn) (pool_start items n) c → Acc (flip (pool_step fn)) c.
Proof.
  remember (measure c) as m eqn:Hm. revert c Hm. induction (lt_wf m) as [m _ IH]. intros c -> Hr.
  constructor. intros c' Hs. destruct (reachable_inv _ _ _ Hr) as [HI Hok].
  eapply IH; [|done|by eapply rtc_r]. eapply step_measure; [|done..].
  by rewrite (pi_work _ _ _ HI), (pi_len _ _ _ HI).
Qed.

(** A queued future can be taken, or some future is running. *)
Lemma worker_step items n c :
  (∀ a, ∃ r, fn a r) → 0 < n → pool_inv items n c → Exists (λ f, f = Queued ∨ f = Running) (futures c) →
  ∃ c', pool_step fn c c'.
Proof.
  intros Htot Hn [H1 H2 H3 H4 _ _ _] Hex.
  destruct (decide (Exists (λ f, is_running_fut f = true) (futures c))) as [Hr|Hr].
  - apply Exists_exists in Hr as (f & [i Hi]%list_elem_of_lookup & Hf). destruct f; try done.
    destruct (lookup_lt_is_Some_2 (work c) i) as [a Ha]; [rewrite H1, <-H3; by eapply lookup_lt_Some|].
    destruct (Htot a) as [r Hfr]. eexists. by eapply step_done.
  - apply not_Exists_Forall in Hr; [|apply _].
    assert (running c = 0) as H0.
    { unfold running. rewrite filter_none; [done|]. by rewrite Forall_forall in Hr. }
    destruct (list_find (λ f, rank f = 2) (futures c)) as [[i f]|] eqn:Hl.
    + apply list_find_Some in Hl as (Hi & Hf & Hmin). destruct f; try done.
      destruct (lookup_lt_is_Some_2 (work c) i) as [a Ha]; [rewrite H1, <-H3; by eapply lookup_lt_Some|].
      eexists. eapply step_take; [done| |done|lia]. intros j Hj Hq. by apply (Hmin j Queued Hq Hj).
    + apply list_find_None in Hl. exfalso. apply Exists_exists in Hex as (f & Hin & Hf).
      rewrite Forall_forall in Hl, Hr. destruct Hf as [-> | ->]; [by apply (Hl _ Hin)|by apply (Hr _ Hin)].
Qed.

Lemma reachable_progress items n c :
  (∀ a, ∃ r, fn a r) → 0 < n → rtc (pool_step fn) (pool_start items n) c →
  (∃ r, main c = Returned r) ∨ ∃ c', pool_step fn c c'.
Proof.
  intros Htot Hn Hr. destruct (reachable_inv _ _ _ Hr) as [HI Hok]. pose proof HI as [H1 H2 H3 _ _ _ _].
  assert (Exists (λ f, f = Queued ∨ f = Running) (futures c) → ∃ c', pool_step fn c c') as Hw
    by (by apply (worker_step items n)).
  unfold main_ok in Hok. destruct (main c) as [k| |nd i|[|i nd] e|i acc|r|r] eqn:Hm; [right..|by left; exists r].
  - destruct (decide (k < length (work c))); eexists; [by eapply step_submit|eapply step_submitted; [done|lia]].
  - destruct Hok as [Hs Hc].
    destruct (decide (Exists (λ f, rank f ≠ 0) (futures c))) as [He|He].
    + apply Hw. apply Exists_exists in He as (f & Hin & Hf). apply Exists_exists. exists f. split; [done|].
      destruct f; try done; [by left|by right].
    + apply not_Exists_Forall in He; [|apply _]. eexists.
      apply (step_wait fn c []); [done| |constructor|by intros i Hi%not_elem_of_nil|].
      * left. eapply Forall_impl; [exact He|]. intros f Hf. cbn in Hf. destruct f; cbn in Hf; lia || done.
      * intros i f Hi Hd. eapply Forall_lookup_1 in He; [|done]. cbn in He. destruct f; cbn in He; lia || done.
  - destruct (futures c !! i) as [f|] eqn:Hf.
    + destruct (failed f) as [e|] eqn:He; eexists; [by eapply step_scan_hit|by eapply step_scan_pass].
    + eexists. eapply step_scan_end; [done|]. rewrite H1, <-H3. by apply lookup_ge_None.
  - eexists. by eapply step_reraise.
  - destruct Hok as (_ & _ & _ & [Hi _]%Forall_cons). apply lookup_lt_is_Some_2 in Hi as [f Hf].
    eexists. by eapply step_cancel.
  - destruct Hok as (l & Hl & ->). destruct (futures c !! i) as [f|] eqn:Hf.
    + pose proof Hf as Hf'. rewrite Hl in Hf'. apply list_lookup_fmap_Some in Hf' as (x & -> & _).
      eexists. by eapply step_collect.
    + eexists. eapply step_collected; [done|]. rewrite H1, <-H3. by apply lookup_ge_None.
  - destruct (decide (Exists (λ f, rank f = 1 ∨ rank f = 2) (futures c))) as [He|He].
    + apply Hw. eapply Exists_impl; [exact He|]. intros f Hf. cbn in Hf. destruct f; cbn in Hf; auto; lia.
    + apply not_Exists_Forall in He; [|apply _]. eexists. eapply step_join; [done|].
      eapply Forall_impl; [exact He|]. intros f Hf. cbn in Hf. split; intros ->; cbn in Hf; lia.
Qed.

Lemma resolve_workers_bounds n jobs :
  (1 ≤ resolve_workers n jobs)%Z ∧ (resolve_workers n jobs ≤ Z.max 1 n)%Z ∧
  (resolve_workers n jobs ≤ Z.max 1 (default DEFAULT_MAX_WORKERS jobs))%Z.
Proof. unfold resolve_workers. case_decide; destruct jobs; cbn; unfold DEFAULT_MAX_WORKERS; lia. Qed.

(** C35: the pool never runs more items at once than the cap ([--jobs], or
    eight), never deadlocks while the items themselves return, and every
    schedule of it ends. *)
Theorem parallel_map_live jobs items c :
  (∀ a, ∃ r, fn a r) →
  rtc (pool_step fn) (pool_start items (Z.to_nat (resolve_workers (Z.of_nat (length items)) jobs))) c →
  (Z.of_nat (running c) ≤ Z.max 1 (default DEFAULT_MAX_WORKERS jobs))%Z ∧
  ((∃ r, main c = Returned r) ∨ ∃ c', pool_step fn c c') ∧
  Acc (flip (pool_step fn)) c.
Proof.
  intros Htot Hr. destruct (resolve_workers_bounds (Z.of_nat (length items)) jobs) as (Hlo & _ & Hhi).
  split_and!; [|refine (reachable_progress items _ c Htot _ Hr); lia|by eapply reachable_terminates].
  destruct (reachable_inv _ _ _ Hr) as [HI _]. pose proof (pi_bound _ _ _ HI). lia.
Qed.
End Spec.

(** ** A schedule: three items, two workers, the second item fails while the first
    is in flight and the third is still queued. *)
Module ParallelDemo.

Definition job (n : nat) (r : res nat) : Prop := r = if decide (n = 2) then raise OSError ["two"] else Ok n.
Definition boom : exn := Exn OSError ["two"].
Definition last : pool nat nat :=
  MkPool [1; 2; 3] 2 [Finished (Ok 1); Finished (Raise boom); Cancelled] (Returned (Raise boom))
    [Start 1; Start 2; Finish 2 (Raise boom); Finish 1 (Ok 1)].

Local Tactic Notation "go" uconstr(s) := eapply rtc_l; [eapply s; try reflexivity; try (vm_compute; lia)|].

Lemma schedule : rtc (pool_step job) (pool_start [1; 2; 3] 2) last.
Proof.
  go (step_submit job _ 0). go (step_submit job _ 1).
  go (step_take job _ 0).
  go (step_submit job _ 2).
  go (step_take job _ 1); [intros [|j] Hj; cbn; [done|lia]|].
  go (step_submitted job _ 3).
  go (step_done job _ 1).
  go (step_wait job _ [0; 2]).
  { right. right. left. by eexists. }
  { apply (bool_decide_unpack _). reflexivity. }
  { intros i Hi. cbn. repeat (apply elem_of_cons in Hi as [->|Hi]; [lia|]). by apply not_elem_of_nil in Hi. }
  { intros [|[|[|i]]] f [= <-]; cbn; try done; intros _; apply (bool_decide_unpack _); reflexivity. }
  go (step_scan_pass job _ [0; 2] 0). go (step_scan_hit job _ [0; 2] 1).
  go (step_cancel job _ 0). go (step_cancel job _ 2). go (step_reraise job).
  go (step_done job _ 0). go (step_join job).
  { repeat constructor; done. }
  apply rtc_refl.
Qed.

Lemma parallel_map_contract_witness :
  starts (observed last) ≡ₚ (finishes (observed last)).*1 ∧ starts (observed last) ⊆+ [1; 2; 3] ∧
  ∃ a, (a, Raise boom) ∈ finishes (observed last) ∧ job a (Raise boom).
Proof.
  apply (parallel_map_contract job (Some 2%Z) [1; 2; 3] (observed last) (Raise boom)).
  apply (pm_pool job (Some 2%Z) [1; 2; 3] last); [discriminate|vm_compute; discriminate|exact schedule|reflexivity].
Defined.

Lemma parallel_map_live_witness :
  (Z.of_nat (running last) ≤ 2)%Z ∧ Acc (flip (pool_step job)) last.
Proof.
  destruct (parallel_map_live job (Some 2%Z) [1; 2; 3] last) as (H1 & _ & H3).
  - intros a. eexists. reflexivity.
  - exact schedule.
  - split; assumption.
Defined.
End ParallelDemo.
