(* ===== verification/Ipv4.v ===== *)
(** * IPv4 addresses and networks

    The part of Python's [ipaddress] the program relies on: parsing and printing
    of addresses, networks in strict form (prefix, netmask or hostmask notation)
    and interfaces.  An address is a 32-bit number. *)

From S2P Require Import Prelude Exceptions.
From stdpp Require Import options.

Local Open Scope Z_scope.

Definition ALL_ONES : Z := 2 ^ 32 - 1.

(** ** Decimal text *)

(** [s.split(c)] *)
Fixpoint split (c : ascii) (s : string) : list string :=
  match s with
  | EmptyString => [EmptyString]
  | String x s =>
      if decide (x = c) then EmptyString :: split c s
      else match split c s with
           | [] => [String x EmptyString]
           | w :: ws => String x w :: ws
           end
  end.

(** [c.join(l)] *)
Fixpoint join (c : string) (l : list string) : string :=
  match l with
  | [] => EmptyString
  | [x] => x
  | x :: l => x +:+ c +:+ join c l
  end.

Definition digit (a : ascii) : option Z :=
  let n := Z.of_N (N_of_ascii a) in
  if decide (48 ≤ n ≤ 57) then Some (n - 48) else None.

(** [int(s)] of a text that [isascii() and isdigit()] accepts; [None] otherwise. *)
Fixpoint digits_value (acc : Z) (s : string) : option Z :=
  match s with
  | EmptyString => Some acc
  | String a s => d ← digit a; digits_value (10 * acc + d) s
  end.
Definition decimal (s : string) : option Z :=
  match s with EmptyString => None | _ => digits_value 0 s end.

Definition digit_char (d : Z) : ascii := ascii_of_N (Z.to_N (48 + d)).

(** [str(n)] of a byte. *)
Definition print_octet (n : Z) : string :=
  if decide (n < 10) then String (digit_char n) ""
  else if decide (n < 100) then String (digit_char (n / 10)) (String (digit_char (n mod 10)) "")
  else String (digit_char (n / 100))
         (String (digit_char (n / 10 mod 10)) (String (digit_char (n mod 10)) "")).

(** ** Addresses *)

(** [_parse_octet]: at most three digits, no leading zero, at most 255. *)
Definition parse_octet (s : string) : option Z :=
  n ← decimal s;
  if decide ((String.length s ≤ 3)%nat ∧ (s = "0" ∨ String.get 0 s ≠ Some "0"%char) ∧ n ≤ 255)
  then Some n else None.

(** [_ip_int_from_string] *)
Definition ip_of_octets (a b c d : Z) : Z := 2 ^ 24 * a + 2 ^ 16 * b + 2 ^ 8 * c + d.

Definition parse_ip (s : string) : option Z :=
  match split "."%char s with
  | [a; b; c; d] =>
      a ← parse_octet a; b ← parse_octet b; c ← parse_octet c; d ← parse_octet d;
      Some (ip_of_octets a b c d)
  | _ => None
  end.

(** [_string_from_ip_int] *)
Definition octet (k : Z) (ip : Z) : Z := Z.land (Z.shiftr ip (8 * k)) 255.
Definition print_ip (ip : Z) : string :=
  join "." [print_octet (octet 3 ip); print_octet (octet 2 ip);
            print_octet (octet 1 ip); print_octet (octet 0 ip)].

(** [IPv4Address(s)]: a bad text is an [AddressValueError], which is a [ValueError]. *)
Definition IPv4Address (s : string) : res Z :=
  match parse_ip s with Some ip => mret ip | None => raise ValueError [s] end.

(** [address + offset] *)
Definition addr_add (ip k : Z) : res Z :=
  if decide (0 ≤ ip + k ≤ ALL_ONES) then mret (ip + k) else raise ValueError ["address"].

(** ** Networks *)

Record IPv4Network : Type := MkNet { network_address : Z; prefixlen : Z }.

Global Instance IPv4Network_eq_dec : EqDecision IPv4Network.
Proof. solve_decision. Defined.

(** [_ip_int_from_prefix] *)
Definition mask_of_prefix (p : Z) : Z := Z.lxor ALL_ONES (Z.shiftr ALL_ONES p).
Definition netmask (n : IPv4Network) : Z := mask_of_prefix (prefixlen n).
Definition hostmask (n : IPv4Network) : Z := Z.lxor (netmask n) ALL_ONES.
Definition broadcast_address (n : IPv4Network) : Z := Z.lor (network_address n) (hostmask n).

(** [address in network] *)
Definition in_network (ip : Z) (n : IPv4Network) : bool :=
  bool_decide (Z.land ip (netmask n) = network_address n).

(** [n.bit_length()] of a non-negative number *)
Definition bit_length (n : Z) : Z := if decide (n = 0) then 0 else Z.log2 n + 1.

(** [_count_righthand_zero_bits] *)
Definition trailing_zeroes (n bits : Z) : Z :=
  if decide (n = 0) then bits
  else Z.min bits (bit_length (Z.land (Z.lnot n) (n - 1))).

(** [_prefix_from_ip_int] *)
Definition prefix_from_ip_int (ip : Z) : option Z :=
  let tz := trailing_zeroes ip 32 in
  let p := 32 - tz in
  if decide (Z.shiftr ip tz = Z.shiftl 1 p - 1) then Some p else None.

(** [_make_netmask]: a prefix length, a netmask or a hostmask. *)
Definition parse_mask (s : string) : option Z :=
  match decimal s with
  | Some p => if decide (p ≤ 32) then Some p else None
  | None =>
      ip ← parse_ip s;
      match prefix_from_ip_int ip with
      | Some p => Some p
      | None => prefix_from_ip_int (Z.lxor ip ALL_ONES)
      end
  end.

(** [_split_addr_prefix]: the address text and the optional mask text. *)
Definition split_prefix (s : string) : option (string * option string) :=
  match split "/"%char s with
  | [a] => Some (a, None)
  | [a; m] => Some (a, Some m)
  | _ => None
  end.

(** [IPv4Interface(s)]: an address with its (unchecked) network. *)
Definition parse_interface (s : string) : option (Z * Z) :=
  '(a, m) ← split_prefix s;
  ip ← parse_ip a;
  p ← (match m with None => Some 32 | Some m => parse_mask m end);
  Some (ip, p).

Definition IPv4Interface (s : string) : res (Z * Z) :=
  match parse_interface s with Some i => mret i | None => raise ValueError [s] end.

(** [iface.network] *)
Definition interface_network (i : Z * Z) : IPv4Network :=
  MkNet (Z.land i.1 (mask_of_prefix i.2)) i.2.

(** [ip_network(s, strict=True)], where only an [IPv4Network] is accepted: a
    text that is not an IPv4 network (an IPv6 one included) is refused, and so is
    one with host bits set. *)
Definition ip_network_strict (s : string) : res IPv4Network :=
  match parse_interface s with
  | Some (ip, p) =>
      if decide (Z.land ip (mask_of_prefix p) = ip) then mret (MkNet ip p)
      else raise ValueError [s]
  | None => raise ValueError [s]
  end.

(** [str(network)] *)
Definition print_prefix (p : Z) : string := print_octet p.
Definition print_network (n : IPv4Network) : string :=
  print_ip (network_address n) +:+ "/" +:+ print_prefix (prefixlen n).

(** ** Examples *)

Example parse_demo : parse_ip "192.168.10.1" = Some 3232238081. Proof. reflexivity. Qed.
Example parse_leading_zero : parse_ip "192.168.010.1" = None. Proof. reflexivity. Qed.
Example print_demo : print_ip 3232238081 = "192.168.10.1". Proof. reflexivity. Qed.
Example net_demo : ip_network_strict "192.168.10.0/24" = Ok (MkNet 3232238080 24). Proof. reflexivity. Qed.
Example net_mask_demo : ip_network_strict "10.0.0.0/255.255.254.0" = Ok (MkNet 167772160 23). Proof. vm_compute. reflexivity. Qed.
Example net_hostmask_demo : ip_network_strict "10.0.0.0/0.0.0.255" = Ok (MkNet 167772160 24). Proof. vm_compute. reflexivity. Qed.
Example net_host_form : is_ok (ip_network_strict "192.168.10.1/24") = false. Proof. vm_compute. reflexivity. Qed.

(** ** IPv4: the text round trip and the arithmetic of networks *)

Local Open Scope Z_scope.

(** ** Octets *)

Definition octets : list Z := Z.of_nat <$> seq 0 256.

Lemma elem_of_octets n : 0 ≤ n ≤ 255 → n ∈ octets.
Proof.
  intros Hn. unfold octets. apply list_elem_of_fmap. exists (Z.to_nat n). split; [lia|].
  apply elem_of_seq. lia.
Qed.

Lemma parse_print_octet n : 0 ≤ n ≤ 255 → parse_octet (print_octet n) = Some n.
Proof.
  intros Hn%elem_of_octets.
  assert (Forall (λ n, parse_octet (print_octet n) = Some n) octets) as Hall.
  { unfold octets. apply Forall_fmap, (Forall_seq _ 0 256). intros k Hk.
    do 256 (destruct k as [|k]; [vm_compute; reflexivity|]). lia. }
  rewrite Forall_forall in Hall. by apply Hall.
Qed.

Lemma digit_Some a d : digit a = Some d → 0 ≤ d ≤ 9 ∧ a = digit_char d.
Proof.
  unfold digit, digit_char. case_decide as Hn; [|done]. intros [= <-]. split; [lia|].
  replace (Z.to_N (48 + (Z.of_N (N_of_ascii a) - 48))) with (N_of_ascii a) by lia.
  by rewrite ascii_N_embedding.
Qed.

Lemma div10 a b : 0 ≤ b ≤ 9 → (10 * a + b) / 10 = a.
Proof. intros Hb. symmetry. apply Z.div_unique_pos with b; lia. Qed.
Lemma mod10 a b : 0 ≤ b ≤ 9 → (10 * a + b) mod 10 = b.
Proof. intros Hb. symmetry. apply Z.mod_unique_pos with a; lia. Qed.

(** An octet has one text. *)
Lemma print_parse_octet s n : parse_octet s = Some n → 0 ≤ n ≤ 255 ∧ print_octet n = s.
Proof.
  unfold parse_octet. intros (v & Hv & Hn)%bind_Some. case_decide as Hd; [|done]. injection Hn as <-.
  destruct Hd as (Hlen & Hz & Hmax).
  destruct s as [|a [|b [|c [|e s]]]]; [done| | | |cbn in Hlen; lia]; cbn in Hv.
  - apply bind_Some in Hv as (d & [Hd ->]%digit_Some & [= <-]). split; [lia|].
    unfold print_octet. rewrite decide_True by lia. by replace (10 * 0 + d) with d by lia.
  - apply bind_Some in Hv as (d & [Hd ->]%digit_Some & (d2 & [Hd2 ->]%digit_Some & [= <-])%bind_Some).
    assert (d ≠ 0) as Hd0. { intros ->. destruct Hz as [?|[]]; [discriminate|reflexivity]. }
    split; [lia|]. unfold print_octet. rewrite decide_False, decide_True by lia.
    rewrite (div10 (10 * 0 + d) d2), (mod10 (10 * 0 + d) d2) by lia.
    by replace (10 * 0 + d) with d by lia.
  - apply bind_Some in Hv as (d & [Hd ->]%digit_Some & (d2 & [Hd2 ->]%digit_Some &
      (d3 & [Hd3 ->]%digit_Some & [= <-])%bind_Some)%bind_Some).
    assert (d ≠ 0) as Hd0. { intros ->. destruct Hz as [?|[]]; [discriminate|reflexivity]. }
    split; [lia|]. unfold print_octet. rewrite decide_False, decide_False by lia.
    set (v := 10 * (10 * (10 * 0 + d) + d2) + d3).
    assert (v / 100 = d) as -> by (symmetry; apply Z.div_unique_pos with (10 * d2 + d3); unfold v; lia).
    unfold v. rewrite (div10 (10 * (10 * 0 + d) + d2) d3), (mod10 (10 * (10 * 0 + d) + d2) d3) by lia.
    rewrite (mod10 (10 * 0 + d) d2) by lia. done.
Qed.

(** ** Addresses *)

Fixpoint no_char (c : ascii) (s : string) : Prop :=
  match s with EmptyString => True | String a s => a ≠ c ∧ no_char c s end.

Lemma split_word c w : no_char c w → split c w = [w].
Proof.
  induction w as [|a w IH]; cbn [split no_char]; [done|]. intros [Ha Hw]. rewrite decide_False by done. by rewrite IH.
Qed.

Lemma split_app c w s : no_char c w → split c (w +:+ String c s) = w :: split c s.
Proof.
  assert (∀ x l, split c (String x l) = if decide (x = c) then "" :: split c l
    else match split c l with [] => [String x ""] | w :: ws => String x w :: ws end) as Hs by done.
  induction w as [|a w IH].
  - intros _. change ("" +:+ String c s) with (String c s). by rewrite Hs, decide_True.
  - intros [Ha Hw]. change (String a w +:+ ?t) with (String a (w +:+ t)). by rewrite Hs, decide_False, IH.
Qed.

Lemma split_nonempty c s : split c s ≠ [].
Proof. destruct s as [|a s]; cbn [split]; [done|]. case_decide; [done|]. by destruct (split c s). Qed.

Lemma join_split c s : join (String c "") (split c s) = s.
Proof.
  induction s as [|a s IH]; cbn [split]; [done|]. pose proof (split_nonempty c s) as Hne.
  case_decide as Hc.
  - subst a. destruct (split c s) as [|w ws]; [done|]. cbn in *. by rewrite IH.
  - destruct (split c s) as [|w ws]; [done|]. destruct ws as [|w2 ws]; cbn in *; by rewrite <-IH.
Qed.

Lemma digit_char_no c d : 0 ≤ d ≤ 9 → (N_of_ascii c < 48)%N → digit_char d ≠ c.
Proof.
  intros Hd Hc <-. unfold digit_char in Hc. rewrite N_ascii_embedding in Hc by lia. lia.
Qed.

Lemma print_octet_no_char c n : 0 ≤ n ≤ 255 → (N_of_ascii c < 48)%N → no_char c (print_octet n).
Proof.
  intros Hn Hc. unfold print_octet. repeat case_decide; cbn; repeat split; apply digit_char_no; try done;
    try (pose proof (Z.mod_pos_bound n 10)); try (pose proof (Z.mod_pos_bound (n / 10) 10)); try lia.
  - split; [apply Z.div_pos; lia|]. enough (n / 10 < 10) by lia. apply Z.div_lt_upper_bound; lia.
  - split; [apply Z.div_pos; lia|]. enough (n / 100 < 10) by lia. apply Z.div_lt_upper_bound; lia.
Qed.

Lemma octet_div k ip : 0 ≤ k → octet k ip = (ip / 2 ^ (8 * k)) mod 256.
Proof.
  intros Hk. unfold octet. rewrite Z.shiftr_div_pow2 by lia. change 255 with (Z.ones 8).
  rewrite Z.land_ones by lia. done.
Qed.

Lemma octet_range k ip : 0 ≤ k → 0 ≤ octet k ip ≤ 255.
Proof. intros Hk. rewrite octet_div by done. pose proof (Z.mod_pos_bound (ip / 2 ^ (8 * k)) 256). lia. Qed.

Lemma ip_of_octet ip :
  0 ≤ ip ≤ ALL_ONES → ip_of_octets (octet 3 ip) (octet 2 ip) (octet 1 ip) (octet 0 ip) = ip.
Proof.
  intros Hip. unfold ip_of_octets. rewrite !octet_div by lia. unfold ALL_ONES in Hip. cbn in *.
  change (Z.pow_pos 2 24) with 16777216 in *. change (Z.pow_pos 2 16) with 65536. change (Z.pow_pos 2 8) with 256.
  change (Z.pow_pos 2 32) with 4294967296 in *. change (2 ^ 0) with 1.
  Z.to_euclidean_division_equations. lia.
Qed.

Lemma octets_ip a b c d :
  0 ≤ a ≤ 255 → 0 ≤ b ≤ 255 → 0 ≤ c ≤ 255 → 0 ≤ d ≤ 255 →
  let ip := ip_of_octets a b c d in
  0 ≤ ip ≤ ALL_ONES ∧ octet 3 ip = a ∧ octet 2 ip = b ∧ octet 1 ip = c ∧ octet 0 ip = d.
Proof.
  intros Ha Hb Hc Hd ip. unfold ip, ip_of_octets, ALL_ONES. rewrite !octet_div by lia. cbn.
  change (Z.pow_pos 2 24) with 16777216 in *. change (Z.pow_pos 2 16) with 65536. change (Z.pow_pos 2 8) with 256.
  change (Z.pow_pos 2 32) with 4294967296 in *.
  split_and!; Z.to_euclidean_division_equations; lia.
Qed.

Lemma parse_print_ip ip : 0 ≤ ip ≤ ALL_ONES → parse_ip (print_ip ip) = Some ip.
Proof.
  intros Hip. unfold parse_ip, print_ip, join.
  pose proof (λ k Hk, print_octet_no_char "." (octet k ip) (octet_range k ip Hk) eq_refl) as Hno.
  assert (∀ w s, w +:+ "." +:+ s = w +:+ String "." s) as Hs by done. rewrite !Hs.
  rewrite !split_app, split_word by (apply Hno; lia).
  rewrite !parse_print_octet by (apply octet_range; lia). cbn. by rewrite ip_of_octet.
Qed.

Lemma print_parse_ip s ip : parse_ip s = Some ip → 0 ≤ ip ≤ ALL_ONES ∧ print_ip ip = s.
Proof.
  unfold parse_ip. destruct (split "." s) as [|a [|b [|c [|d [|]]]]] eqn:Hs; try done.
  intros (x1 & [H1 E1]%print_parse_octet & (x2 & [H2 E2]%print_parse_octet & (x3 & [H3 E3]%print_parse_octet &
    (x4 & [H4 E4]%print_parse_octet & [= <-])%bind_Some)%bind_Some)%bind_Some)%bind_Some.
  destruct (octets_ip x1 x2 x3 x4) as (Hr & O3 & O2 & O1 & O0); [done..|]. split; [done|].
  unfold print_ip. rewrite O3, O2, O1, O0, E1, E2, E3, E4, <-Hs. apply join_split.
Qed.

(** Addresses print and parse back, both ways: every 32-bit address has
    exactly one accepted text, the dotted quad without leading zeros. *)
Theorem ipv4_roundtrip :
  (∀ ip, 0 ≤ ip ≤ ALL_ONES → IPv4Address (print_ip ip) = Ok ip) ∧
  (∀ s ip, IPv4Address s = Ok ip → 0 ≤ ip ≤ ALL_ONES ∧ print_ip ip = s).
Proof.
  unfold IPv4Address. split.
  - intros ip Hip. by rewrite parse_print_ip.
  - intros s ip. destruct (parse_ip s) as [x|] eqn:Hp; [|done]. intros [= ->]. by apply print_parse_ip.
Qed.

Lemma print_ip_inj a b : 0 ≤ a ≤ ALL_ONES → 0 ≤ b ≤ ALL_ONES → print_ip a = print_ip b → a = b.
Proof.
  intros Ha Hb Heq. pose proof (parse_print_ip a Ha) as H1. rewrite Heq, parse_print_ip in H1 by done.
  by injection H1.
Qed.

(** ** Networks *)

Lemma mask_bits p i : 0 ≤ p ≤ 32 → 0 ≤ i → Z.testbit (mask_of_prefix p) i = bool_decide (32 - p ≤ i < 32).
Proof.
  intros Hp Hi. unfold mask_of_prefix. change ALL_ONES with (Z.ones 32).
  rewrite Z.lxor_spec, Z.shiftr_spec, !Z.testbit_ones by lia.
  destruct (decide (32 - p ≤ i < 32)); [rewrite bool_decide_true by done|rewrite bool_decide_false by done];
    repeat (match goal with |- context [Z.leb ?a ?b] => destruct (Z.leb_spec a b) end);
    repeat (match goal with |- context [Z.ltb ?a ?b] => destruct (Z.ltb_spec a b) end); cbn; try done; lia.
Qed.

(** The masked address is the address rounded down to its block. *)
Lemma land_mask ip p :
  0 ≤ ip ≤ ALL_ONES → 0 ≤ p ≤ 32 → Z.land ip (mask_of_prefix p) = 2 ^ (32 - p) * (ip / 2 ^ (32 - p)).
Proof.
  intros Hip Hp. rewrite Z.mul_comm, <-Z.shiftl_mul_pow2, <-Z.shiftr_div_pow2 by lia.
  apply Z.bits_inj'. intros i Hi. rewrite Z.land_spec, mask_bits, Z.shiftl_spec by done.
  destruct (decide (32 - p ≤ i)) as [Hl|Hl].
  - rewrite Z.shiftr_spec by lia. replace (i - (32 - p) + (32 - p)) with i by lia.
    destruct (decide (i < 32)) as [Hu|Hu]; [rewrite bool_decide_true by lia; by rewrite andb_true_r|].
    rewrite bool_decide_false by lia. rewrite andb_false_r. symmetry.
    destruct (decide (ip = 0)) as [->|Hz]; [apply Z.testbit_0_l|]. apply Z.bits_above_log2; [lia|].
    apply Z.log2_lt_pow2; [lia|]. unfold ALL_ONES in Hip.
    enough (2 ^ 32 ≤ 2 ^ i) by lia. apply Z.pow_le_mono_r; lia.
  - rewrite bool_decide_false by lia. rewrite andb_false_r. symmetry. apply Z.testbit_neg_r. lia.
Qed.

Record net_ok (n : IPv4Network) : Prop := {
  no_prefix : 0 ≤ prefixlen n ≤ 32;
  no_addr : 0 ≤ network_address n ≤ ALL_ONES;
  no_block : ∃ k, network_address n = 2 ^ (32 - prefixlen n) * k;
}.

Lemma digits_value_pos s acc v : 0 ≤ acc → digits_value acc s = Some v → 0 ≤ v.
Proof.
  revert acc. induction s as [|a s IH]; intros acc Hacc; cbn [digits_value]; [by intros [= <-]|].
  intros (d & [Hd _]%digit_Some & Hv)%bind_Some. eapply IH; [|done]. lia.
Qed.

Lemma prefix_from_ip_int_range ip p : prefix_from_ip_int ip = Some p → 0 ≤ p ≤ 32.
Proof.
  unfold prefix_from_ip_int. case_decide; [|done]. intros [= <-].
  unfold trailing_zeroes, bit_length. repeat case_decide; try lia.
  pose proof (Z.log2_nonneg (Z.land (Z.lnot ip) (ip - 1))). lia.
Qed.

Lemma parse_mask_range s p : parse_mask s = Some p → 0 ≤ p ≤ 32.
Proof.
  unfold parse_mask, decimal. destruct s as [|a s].
  - cbn [parse_ip split]. intros (ip & _ & Hp)%bind_Some. destruct (prefix_from_ip_int ip) eqn:E;
      [simplify_eq; by eapply prefix_from_ip_int_range|by eapply prefix_from_ip_int_range].
  - destruct (digits_value 0 (String a s)) as [v|] eqn:Hv.
    + case_decide; [|done]. intros [= <-]. apply digits_value_pos in Hv; lia.
    + intros (ip & _ & Hp)%bind_Some. destruct (prefix_from_ip_int ip) eqn:E;
      [simplify_eq; by eapply prefix_from_ip_int_range|by eapply prefix_from_ip_int_range].
Qed.

Lemma parse_interface_range s ip p : parse_interface s = Some (ip, p) → 0 ≤ ip ≤ ALL_ONES ∧ 0 ≤ p ≤ 32.
Proof.
  unfold parse_interface. intros ([a m] & _ & (x & [Hx _]%print_parse_ip & (q & Hq & [= <- <-])%bind_Some)%bind_Some)%bind_Some.
  split; [done|]. destruct m as [m|]; [by eapply parse_mask_range|]. simplify_eq. lia.
Qed.

Lemma ip_network_ok s n : ip_network_strict s = Ok n → net_ok n.
Proof.
  unfold ip_network_strict. destruct (parse_interface s) as [[ip p]|] eqn:Hp; [|done].
  apply parse_interface_range in Hp as [Hip Hpr]. case_decide as Hm; [|done].
  cbv [mret result_ret]. intros [= <-]. split; cbn; [done|done|].
  rewrite land_mask in Hm by done. by eexists.
Qed.

Lemma in_network_iff ip n :
  net_ok n → 0 ≤ ip ≤ ALL_ONES →
  in_network ip n = true ↔ network_address n ≤ ip < network_address n + 2 ^ (32 - prefixlen n).
Proof.
  intros [Hp Ha [k Hk]] Hip. unfold in_network, netmask. rewrite bool_decide_eq_true, land_mask by done.
  rewrite Hk. assert (0 < 2 ^ (32 - prefixlen n)) as Hpos by (apply Z.pow_pos_nonneg; lia).
  set (h := 2 ^ (32 - prefixlen n)) in *.
  pose proof (Z.div_mod ip h ltac:(lia)). pose proof (Z.mod_pos_bound ip h Hpos). split; [nia|].
  intros Hr. f_equal. symmetry. apply Z.div_unique_pos with (ip - h * k); nia.
Qed.

Lemma broadcast_eq n : net_ok n → broadcast_address n = network_address n + 2 ^ (32 - prefixlen n) - 1.
Proof.
  intros [Hp Ha [k Hk]]. unfold broadcast_address, hostmask, netmask.
  set (h := 32 - prefixlen n) in *.
  assert (Z.lxor (mask_of_prefix (prefixlen n)) ALL_ONES = Z.ones h) as ->.
  { apply Z.bits_inj'. intros i Hi. change ALL_ONES with (Z.ones 32).
    rewrite Z.lxor_spec, mask_bits, !Z.testbit_ones by (unfold h; lia). fold h.
    destruct (decide (h ≤ i < 32)); [rewrite bool_decide_true by done|rewrite bool_decide_false by done];
    repeat (match goal with |- context [Z.leb ?a ?b] => destruct (Z.leb_spec a b) end);
    repeat (match goal with |- context [Z.ltb ?a ?b] => destruct (Z.ltb_spec a b) end); cbn; try done; lia. }
  assert (Z.land (network_address n) (Z.ones h) = 0) as H0.
  { rewrite Z.land_ones, Hk, Z.mul_comm by (unfold h; lia). apply Z.mod_mul. apply Z.pow_nonzero; unfold h; lia. }
  rewrite <-Z.lxor_lor, <-Z.add_nocarry_lxor by done. rewrite Z.ones_equiv. lia.
Qed.
