(* ===== verification/Devices.v ===== *)
(** * Network declarations ([networks/base.py], [networks/_addressing_consts.py],
      [devices/network/base.py])

    [StaticAddr], [Network], [Sidecar], [Switch] with the checks of their
    constructors, and what is derived from a switch's subnet. *)

From S2P Require Import Prelude Exceptions Ipv4.
From stdpp Require Import options.

Local Open Scope Z_scope.

(** ** The reserved layout of a subnet *)

Definition SIDECAR_OFFSET : Z := 1.
Definition MGMT_OFFSET : Z := 2.
Definition BUILD_NIC_OFFSET : Z := 3.
Definition DHCP_RANGE_LO : Z := 10.
Definition DHCP_RANGE_HI : Z := 99.
Definition USER_STATIC_LO : Z := 100.
Definition USER_STATIC_HI : Z := 254.
Definition SIDECAR_CACHE_NAME : string := "testrange-sidecar".

(** ** Address modes *)

Record StaticAddr : Type := MkStaticAddr { sa_addr : string; gw : option string; dns : list string }.

(** [for entry in self.dns: IPv4Address(entry)] and the like, where the
    [ValueError] is re-raised as a [ValueError]. *)
Definition check_ip (what s : string) : res () :=
  match IPv4Address s with Ok _ => mret () | Raise _ => raise ValueError [what; s] end.

(** [StaticAddr.__post_init__], for a tuple of [dns] texts. *)
Definition new_static_addr (addr : string) (gw : option string) (dns : list string) : res StaticAddr :=
  match IPv4Interface addr with Ok _ => mret () | Raise _ => raise ValueError ["addr"; addr] end;;
  match gw with None => mret () | Some g => check_ip "gw" g end;;
  foldM (λ _ entry, check_ip "dns" entry) () dns;;
  mret (MkStaticAddr addr gw dns).

(** [StaticAddr.host] *)
Definition host (a : StaticAddr) : res string :=
  i ← IPv4Interface (sa_addr a);
  mret (print_ip i.1).

Definition contains_char (c : ascii) (s : string) : bool :=
  bool_decide (c ∈ String.list_ascii_of_string s).

(** [StaticAddr.cidr(derived_prefix_len)] *)
Definition static_cidr (a : StaticAddr) (derived_prefix_len : option Z) : res string :=
  i ← IPv4Interface (sa_addr a);
  if contains_char "/" (sa_addr a) then mret (print_ip i.1 +:+ "/" +:+ print_prefix i.2)
  else match derived_prefix_len with
       | None => raise ValueError [sa_addr a]
       | Some p => mret (print_ip i.1 +:+ "/" +:+ print_prefix p)
       end.

(** [DHCPAddr | StaticAddr]; a NIC's [addr] is an [option] of it. *)
Inductive addr_mode : Type :=
  | DHCPAddr
  | Static (a : StaticAddr).

(** ** [Network], [Sidecar] *)

Record Network : Type := MkNetwork { net_name : string }.

Definition new_network (name : string) : res Network :=
  raise_when (bool_decide (name = "")) ValueError ["Network.name"];;
  mret (MkNetwork name).

Record Sidecar : Type := MkSidecar {
  sc_dhcp : bool;
  sc_dns : bool;
  sc_nat : bool;
  sc_addr : option StaticAddr;
}.

Definition new_sidecar (dhcp dns nat : bool) (addr : option StaticAddr) : res Sidecar :=
  raise_when (negb (dhcp || dns || nat)) ValueError ["Sidecar"];;
  match addr with
  | None => mret ()
  | Some a =>
      raise_when (negb nat) ValueError ["Sidecar.addr"; "nat"];;
      raise_when (negb (contains_char "/" (sa_addr a))) ValueError ["Sidecar.addr"; sa_addr a]
  end;;
  mret (MkSidecar dhcp dns nat addr).

(** ** [Switch] *)

Record Switch : Type := MkSwitch {
  sw_name : string;
  networks : list Network;
  cidr : string;
  uplink : option string;
  mgmt : bool;
  sidecar : option Sidecar;
}.

Definition new_switch (name : string) (nets : list Network) (cidr : string) (uplink : option string)
    (mgmt : bool) (sidecar : option Sidecar) : res Switch :=
  raise_when (bool_decide (name = "")) ValueError ["Switch.name"];;
  raise_when (bool_decide (uplink = Some "")) ValueError ["Switch.uplink"];;
  parsed ← ip_network_strict cidr;
  raise_when (bool_decide (24 < prefixlen parsed)) ValueError ["Switch.cidr"; cidr];;
  raise_when (match sidecar with Some sc => sc_nat sc && bool_decide (uplink = None) | None => false end)
    ValueError [name; "nat requires uplink"];;
  mret (MkSwitch name nets cidr uplink mgmt sidecar).

(** [Switch.network], re-parsed on each use. *)
Definition sw_network (sw : Switch) : res IPv4Network := ip_network_strict (cidr sw).

(** [str(self.network.network_address + offset)] *)
Definition slot_ip (sw : Switch) (offset : Z) : res string :=
  n ← sw_network sw;
  ip ← addr_add (network_address n) offset;
  mret (print_ip ip).
Definition sidecar_ip (sw : Switch) : res string := slot_ip sw SIDECAR_OFFSET.
Definition mgmt_ip (sw : Switch) : res string := slot_ip sw MGMT_OFFSET.

Definition needs_sidecar (sw : Switch) : bool := bool_decide (is_Some (sidecar sw)).

(** ** [NetworkAddressing], [BuildNic] *)

Record NetworkAddressing : Type := MkNetworkAddressing {
  na_cidr : string;
  na_prefix_len : Z;
  na_dhcp : bool;
  na_gateway : option string;
  na_dns_server : option string;
}.

Definition from_switch (sw : Switch) : res NetworkAddressing :=
  n ← sw_network sw;
  let flag f := match sidecar sw with Some sc => f sc | None => false end in
  gateway ← (if flag sc_nat then ip ← sidecar_ip sw; mret (Some ip) else mret None);
  dns_server ← (if flag sc_dns then ip ← sidecar_ip sw; mret (Some ip) else mret None);
  mret (MkNetworkAddressing (cidr sw) (prefixlen n) (flag sc_dhcp) gateway dns_server).

Record BuildNic : Type := MkBuildNic {
  bn_mac : string;
  bn_network : string;
  bn_addr : StaticAddr;
  bn_addressing : NetworkAddressing;
}.

(** ** The transient build switch ([orchestrator/build.py]) *)

Definition BUILD_CIDR : string := "10.97.99.0/24".
Definition BUILD_NETWORK_NAME : string := "build".
Definition BUILD_SWITCH_NAME : string := "__build".

Definition default_build_switch : res Switch :=
  net ← new_network BUILD_NETWORK_NAME;
  sc ← new_sidecar true true false None;
  new_switch BUILD_SWITCH_NAME [net] BUILD_CIDR None false (Some sc).

Definition resolve_build_switch (declared : option Switch) : res Switch :=
  match declared with None => default_build_switch | Some sw => mret sw end.

(** ** Addresses on the build switch ([orchestrator/vm_build.py]) *)

Definition zrange (lo hi : Z) : list Z := seqZ lo (hi - lo).

Definition BUILD_IP_SLOTS : list Z :=
  zrange BUILD_NIC_OFFSET DHCP_RANGE_LO ++ zrange USER_STATIC_LO (USER_STATIC_HI + 1).

Definition build_ip_offset (vm_index : nat) : res Z :=
  match BUILD_IP_SLOTS !! vm_index with
  | Some o => mret o
  | None => raise OrchestratorError ["build address"]
  end.

(** ** Handles, devices and VM declarations ([handles.py], [devices], [vms/spec.py],
      [vms/recipe.py]) *)

Local Open Scope Z_scope.

(** ** Handles: a handle is its plan-level name, with its kind *)

Record PoolHandle : Type := MkPoolHandle { ph_name : string }.
Record NetworkHandle : Type := MkNetworkHandle { nh_name : string; nh_switch : string }.

Inductive Handle : Type :=
  | HPool (h : PoolHandle)
  | HSwitch (name : string)
  | HNetwork (h : NetworkHandle)
  | HVM (name : string).

Definition new_pool_handle (name : string) : res PoolHandle :=
  raise_when (bool_decide (name = "")) ValueError ["PoolHandle"];;
  mret (MkPoolHandle name).
Definition new_network_handle (name switch : string) : res NetworkHandle :=
  raise_when (bool_decide (name = "")) ValueError ["NetworkHandle"];;
  raise_when (bool_decide (switch = "")) ValueError ["NetworkHandle"; name];;
  mret (MkNetworkHandle name switch).

(** [Handle.node_name]; a network resolves to the node of its switch. *)
Definition pool_node_name (h : PoolHandle) : string := "pool:" +:+ ph_name h.
Definition network_node_name (h : NetworkHandle) : string := "network:" +:+ nh_switch h.
Definition handle_node_name (h : Handle) : string :=
  match h with
  | HPool h => pool_node_name h
  | HSwitch name => "network:" +:+ name
  | HNetwork h => network_node_name h
  | HVM name => "vm:" +:+ name
  end.

(** ** Devices *)

Record StoragePool : Type := MkStoragePool { sp_name : string; sp_size_gb : Z }.

Definition new_storage_pool (name : string) (size_gb : Z) : res StoragePool :=
  raise_when (bool_decide (name = "")) ValueError ["StoragePool.name"];;
  raise_when (bool_decide (size_gb < 1)) ValueError ["StoragePool.size_gb"];;
  mret (MkStoragePool name size_gb).

Record Disk : Type := MkDisk { d_pool : PoolHandle; d_size_gb : Z }.
Record NetworkIface : Type := MkIface { n_network : NetworkHandle; n_addr : option addr_mode }.

Inductive Device : Type :=
  | CPU (count : Z) (nested : bool)
  | Memory (size_mb : Z)
  | OSDrive (d : Disk)
  | HardDrive (d : Disk)
  | Nic (n : NetworkIface).

(** The [__post_init__] of each device. *)
Definition check_device (d : Device) : res () :=
  match d with
  | CPU count _ => raise_when (bool_decide (count < 1)) ValueError ["CPU.count"]
  | Memory size => raise_when (bool_decide (size < 1)) ValueError ["Memory.size_mb"]
  | OSDrive d | HardDrive d => raise_when (bool_decide (d_size_gb d < 1)) ValueError ["size_gb"]
  | Nic _ => mret ()
  end.

(** ** [VMSpec] *)

Definition FIRMWARES : list string := ["bios"; "uefi"].

Record VMSpec : Type := MkVMSpec {
  vs_name : string;
  devices : list Device;
  firmware : string;
}.

Definition is_cpu (d : Device) : bool := match d with CPU _ _ => true | _ => false end.
Definition is_memory (d : Device) : bool := match d with Memory _ => true | _ => false end.
Definition is_os_drive (d : Device) : bool := match d with OSDrive _ => true | _ => false end.
Definition count_devices (f : Device → bool) (devs : list Device) : nat :=
  length (filter (λ d, f d = true) devs).

Definition new_vm_spec (name : string) (devs : list Device) (firmware : string) : res VMSpec :=
  raise_when (bool_decide (name = "")) ValueError ["VMSpec.name"];;
  raise_when (bool_decide (firmware ∉ FIRMWARES)) ValueError [name; firmware];;
  raise_when (bool_decide (count_devices is_cpu devs ≠ 1%nat)) ValueError [name; "CPU"];;
  raise_when (bool_decide (count_devices is_memory devs ≠ 1%nat)) ValueError [name; "Memory"];;
  raise_when (bool_decide (count_devices is_os_drive devs ≠ 1%nat)) ValueError [name; "OSDrive"];;
  mret (MkVMSpec name devs firmware).

(** [next(d for d in self.devices if isinstance(d, OSDrive))]: a spec that
    passed its constructor has one. *)
Definition os_drive (s : VMSpec) : res Disk :=
  match omap (λ d, match d with OSDrive x => Some x | _ => None end) (devices s) with
  | x :: _ => mret x
  | [] => raise AssertionError ["StopIteration"]
  end.
(** [VMSpec.cpu] and [VMSpec.memory], as the numbers that are read of them. *)
Definition first_cpu (s : VMSpec) : res Z :=
  match omap (λ d, match d with CPU n _ => Some n | _ => None end) (devices s) with
  | n :: _ => mret n | [] => raise AssertionError ["StopIteration"] end.
Definition first_memory (s : VMSpec) : res Z :=
  match omap (λ d, match d with Memory n => Some n | _ => None end) (devices s) with
  | n :: _ => mret n | [] => raise AssertionError ["StopIteration"] end.
Definition data_drives (s : VMSpec) : list Disk :=
  omap (λ d, match d with HardDrive x => Some x | _ => None end) (devices s).
Definition nics (s : VMSpec) : list NetworkIface :=
  omap (λ d, match d with Nic x => Some x | _ => None end) (devices s).

(** ** [VMRecipe], over any builder and communicator *)

Record VMRecipe (Bld Com : Type) : Type := MkRecipe {
  spec : VMSpec;
  builder : Bld;
  communicator : Com;
}.
Arguments MkRecipe {Bld Com} _ _ _.
Arguments spec {Bld Com} _.
Arguments builder {Bld Com} _.
Arguments communicator {Bld Com} _.

Definition vm_name {Bld Com} (v : VMRecipe Bld Com) : string := vs_name (spec v).

Lemma os_drive_total name devs fw s : new_vm_spec name devs fw = Ok s → ∃ d, os_drive s = Ok d.
Proof.
  unfold new_vm_spec. intros H. res_inv. unfold os_drive. cbn. subst.
  match goal with H : bool_decide (count_devices is_os_drive _ ≠ _) = false |- _ =>
    apply bool_decide_eq_false, dec_stable in H; rename H into Hc end.
  destruct (omap _ devs) as [|d l] eqn:Hd; [|by eexists]. exfalso. unfold count_devices in Hc.
  rewrite filter_none in Hc; [done|]. intros x Hx Ht. destruct x; try done.
  assert (d ∈ @nil Disk) as Hin%not_elem_of_nil; [|done]. rewrite <-Hd. apply list_elem_of_omap. by exists (OSDrive d).
Qed.
