(* ===== verification/Validate.v ===== *)
(** * Plan validation ([networks/validate.py], [vms/validate.py]) *)

From S2P Require Import Prelude Exceptions Ipv4 Devices.
From stdpp Require Import options.

(** ** Names *)

Definition char_in (lo hi : N) (c : ascii) : bool := bool_decide (lo ≤ N_of_ascii c ≤ hi)%N.
Definition is_letter (c : ascii) : bool := char_in 65 90 c || char_in 97 122 c.
Definition is_num (c : ascii) : bool := char_in 48 57 c.

(** [[A-Za-z0-9_][A-Za-z0-9_.-]*], as a [fullmatch]. *)
Definition safe_first (c : ascii) : bool := is_letter c || is_num c || bool_decide (c = "_"%char).
Definition safe_rest (c : ascii) : bool :=
  safe_first c || bool_decide (c = "."%char) || bool_decide (c = "-"%char).
Definition safe_name (s : string) : bool :=
  match s with
  | EmptyString => false
  | String c s => safe_first c && forallb safe_rest (String.list_ascii_of_string s)
  end.

Definition validate_name (value kind : string) : res string :=
  raise_when (bool_decide (value = "")) ValueError [kind];;
  raise_when (negb (safe_name value)) ValueError [kind; value];;
  mret value.

(** [value.startswith("__")] *)
Definition is_reserved (s : string) : bool := String.prefix "__" s.

(** A name that ends in a separator, [data] in any case, and digits. *)
Definition lower (c : ascii) : ascii :=
  if char_in 65 90 c then ascii_of_N (N_of_ascii c + 32) else c.

Fixpoint drop_digits (r : list ascii) : list ascii :=
  match r with
  | c :: r' => if is_num c then drop_digits r' else r
  | [] => []
  end.

Definition data_marked (s : string) : bool :=
  match reverse (String.list_ascii_of_string s) with
  | c :: r =>
      is_num c &&
      match drop_digits r with
      | c4 :: c3 :: c2 :: c1 :: sep :: _ =>
          bool_decide ([lower c1; lower c2; lower c3; lower c4] = ["d"; "a"; "t"; "a"]%char)
          && bool_decide (sep ∈ ["-"; "_"; "."]%char)
      | _ => false
      end
  | [] => false
  end.

(** [{n for n in l if l.count(n) > 1}] *)
Definition duplicates (l : list string) : gset string :=
  list_to_set (filter (λ n, 1 < length (filter (eq n) l)) l).

Section Plan.
Context {Bld Com : Type}.
Implicit Types (vms : list (VMRecipe Bld Com)) (switches : list Switch) (pools : list StoragePool).

(** ** [validate_vm_plan] *)

Definition check_os_pool (pool_names : gset string) (r : VMRecipe Bld Com) : res () :=
  d ← os_drive (spec r);
  raise_when (bool_decide (ph_name (d_pool d) ∉ pool_names)) ValueError [vm_name r; ph_name (d_pool d)].

Definition validate_vm_plan vms pools : res () :=
  let pool_names : gset string := list_to_set (sp_name <$> pools) in
  let vm_names := vm_name <$> vms in
  raise_when (bool_decide (duplicates vm_names ≠ ∅)) ValueError (sorted_set (duplicates vm_names));;
  foldM (λ _ r, validate_name (vm_name r) "VMSpec.name";; mret ()) () vms;;
  let reserved := filter (λ n, is_reserved n = true) vm_names in
  raise_when (bool_decide (reserved ≠ [])) ValueError reserved;;
  let marked := filter (λ n, data_marked n = true) vm_names in
  raise_when (bool_decide (marked ≠ [])) ValueError marked;;
  foldM (λ _ r, check_os_pool pool_names r) () vms.

(** ** [validate_addressing] *)

(** The first switch that declares each network name. *)
Definition switch_for switches : gmap string Switch :=
  foldl (λ m sw, foldl (λ m net, if decide (is_Some (m !! net_name net)) then m
                                 else <[net_name net := sw]> m) m (networks sw)) ∅ switches.

(** One NIC of the double loop: the VM's name, the NIC's index, the NIC. *)
Record site : Type := MkSite { s_vm : string; s_idx : nat; s_nic : NetworkIface }.

Definition sites vms : list site :=
  concat ((λ vm, imap (MkSite (vm_name vm)) (nics (spec vm))) <$> vms).

Inductive reason : Type :=
  | UnknownNetwork | NotAnAddress | NotInSubnet | IsNetworkAddress | IsBroadcast
  | CollidesSidecar | CollidesMgmt | InDhcpPool | Duplicate.

Inductive site_check : Type :=
  | Skip
  | Bad (why : reason)
  | Good (switch static_ip : string).

(** The checks of one NIC against its switch, in the code's order. *)
Definition check_static (sw : Switch) (a : StaticAddr) : res site_check :=
  static_ip ← host a;
  subnet ← sw_network sw;
  match IPv4Address static_ip with
  | Raise _ => mret (Bad NotAnAddress)
  | Ok addr =>
      if negb (in_network addr subnet) then mret (Bad NotInSubnet)
      else if decide (addr = network_address subnet) then mret (Bad IsNetworkAddress)
      else if decide (addr = broadcast_address subnet) then mret (Bad IsBroadcast)
      else
        side ← (if needs_sidecar sw then
                  s ← addr_add (network_address subnet) SIDECAR_OFFSET; mret (bool_decide (addr = s))
                else mret false);
        if side : bool then mret (Bad CollidesSidecar)
        else
          mg ← (if mgmt sw then
                  s ← addr_add (network_address subnet) MGMT_OFFSET; mret (bool_decide (addr = s))
                else mret false);
          if mg : bool then mret (Bad CollidesMgmt)
          else
            pool ← (if match sidecar sw with Some sc => sc_dhcp sc | None => false end then
                      lo ← addr_add (network_address subnet) DHCP_RANGE_LO;
                      hi ← addr_add (network_address subnet) DHCP_RANGE_HI;
                      mret (bool_decide (lo ≤ addr ≤ hi)%Z)
                    else mret false);
            if pool : bool then mret (Bad InDhcpPool)
            else mret (Good (sw_name sw) static_ip)
  end.

Definition check_site (owner : gmap string Switch) (s : site) : res site_check :=
  match owner !! nh_name (n_network (s_nic s)) with
  | None => mret (Bad UnknownNetwork)
  | Some sw =>
      match n_addr (s_nic s) with
      | Some (Static a) => check_static sw a
      | _ => mret Skip
      end
  end.

(** [problems] and [seen_per_switch] *)
Abbreviation addressing_state := (list (site * reason) * gmap string (gmap string site))%type.

Definition address_step (owner : gmap string Switch) (st : addressing_state) (s : site)
    : res addressing_state :=
  let '(problems, seen) := st in
  c ← check_site owner s;
  match c with
  | Skip => mret (problems, seen)
  | Bad why => mret (problems ++ [(s, why)], seen)
  | Good switch static_ip =>
      let used := default ∅ (seen !! switch) in
      match used !! static_ip with
      | Some _ => mret (problems ++ [(s, Duplicate)], <[switch := used]> seen)
      | None => mret (problems, <[switch := <[static_ip := s]> used]> seen)
      end
  end.

Definition validate_addressing switches vms : res () :=
  '(problems, _) ← foldM (address_step (switch_for switches)) ([], ∅) (sites vms);
  raise_when (bool_decide (length problems ≠ 0)) ValueError ((λ p, s_vm p.1) <$> problems).

(** ** [validate_hypervisor_plan] *)

Definition check_nic_network (net_names : gset string) (s : site) : res () :=
  raise_when (bool_decide (nh_name (n_network (s_nic s)) ∉ net_names)) ValueError
    [s_vm s; nh_name (n_network (s_nic s))].

Definition validate_hypervisor_plan switches pools vms : res () :=
  let all_nets := concat ((λ s, net_name <$> networks s) <$> switches) in
  let net_names : gset string := list_to_set all_nets in
  validate_vm_plan vms pools;;
  raise_when (bool_decide (duplicates all_nets ≠ ∅)) ValueError (sorted_set (duplicates all_nets));;
  foldM (λ _ s, validate_name (sw_name s) "Switch.name";; mret ()) () switches;;
  foldM (λ _ n, validate_name n "Network.name";; mret ()) () all_nets;;
  let reserved := filter (λ n, is_reserved n = true) ((sw_name <$> switches) ++ all_nets) in
  raise_when (bool_decide (reserved ≠ [])) ValueError reserved;;
  foldM (λ _ s, check_nic_network net_names s) () (sites vms);;
  validate_addressing switches vms.
End Plan.

Example marked_demo : data_marked <$> ["web-data0"; "web.DATA12"; "web-data"; "data1"; "x_data7"] =
  [true; true; false; false; true].
Proof. vm_compute. reflexivity. Qed.

(** ** Plan validation: what an accepted plan guarantees *)

(** ** Well-formed declarations: what the constructors let through *)

Definition static_ok (a : StaticAddr) : Prop :=
  ∃ addr gw dns, new_static_addr addr gw dns = Ok a.
Definition switch_ok (sw : Switch) : Prop :=
  ∃ name nets c up mg sc, new_switch name nets c up mg sc = Ok sw.

(** The address a static NIC stands for. *)
Definition ip_of (a : StaticAddr) : Z :=
  match parse_interface (sa_addr a) with Some (ip, _) => ip | None => 0 end.

Lemma static_ok_ip a : static_ok a → (0 ≤ ip_of a ≤ ALL_ONES)%Z ∧ host a = Ok (print_ip (ip_of a)).
Proof.
  intros (addr & g & d & Ha). unfold new_static_addr in Ha. unfold ip_of, host, IPv4Interface in *.
  destruct (parse_interface addr) as [[ip p]|] eqn:Hp; [|done]. res_inv.
  cbn [sa_addr]. rewrite Hp. apply parse_interface_range in Hp as [Hip _]. by split.
Qed.

Lemma switch_ok_network sw :
  switch_ok sw → ∃ n, sw_network sw = Ok n ∧ net_ok n ∧ (prefixlen n ≤ 24)%Z.
Proof.
  intros (name & nets & c & up & mg & sc & H). unfold new_switch in H. res_inv. cbn.
  match goal with H : ip_network_strict _ = Ok ?n |- _ => exists n; pose proof (ip_network_ok _ _ H) end.
  split_and!; [done|done|]. 
  match goal with H : bool_decide (24 < _)%Z = false |- _ => apply bool_decide_eq_false in H; lia end.
Qed.

(** A /24 or larger block holds every reserved slot strictly between its network
    and broadcast addresses. *)
Lemma slot_range n k :
  net_ok n → (prefixlen n ≤ 24)%Z → (0 ≤ k ≤ 254)%Z →
  (network_address n + k < broadcast_address n)%Z ∧ (broadcast_address n ≤ ALL_ONES)%Z ∧
  addr_add (network_address n) k = Ok (network_address n + k)%Z.
Proof.
  intros Hn Hp Hk. rewrite broadcast_eq by done. destruct Hn as [Hr Ha [q Hq]].
  assert (2 ^ 8 ≤ 2 ^ (32 - prefixlen n))%Z as Hb by (apply Z.pow_le_mono_r; lia). cbn in Hb.
  assert (network_address n + 2 ^ (32 - prefixlen n) - 1 ≤ ALL_ONES)%Z as Hhi.
  { unfold ALL_ONES in *. assert (2 ^ 32 = 2 ^ (32 - prefixlen n) * 2 ^ prefixlen n)%Z as Hs.
    { rewrite <-Z.pow_add_r by lia. f_equal. lia. }
    rewrite Hs in *. set (h := (2 ^ (32 - prefixlen n))%Z) in *. set (m := (2 ^ prefixlen n)%Z) in *.
    assert (q < m)%Z as Hqm by nia. nia. }
  split_and!; [lia|lia|]. unfold addr_add. by rewrite decide_True by lia.
Qed.

(** The reserved layout fits.  A switch that its constructor accepted has a
    subnet in which the sidecar, the host adapter, the build addresses, the whole
    DHCP pool and the whole user-static range are distinct host addresses: none
    is the network or the broadcast address, or leaves the subnet. *)
Theorem switch_layout_fits name nets c up mg sc sw :
  new_switch name nets c up mg sc = Ok sw →
  ∃ n, sw_network sw = Ok n ∧
    sidecar_ip sw = Ok (print_ip (network_address n + SIDECAR_OFFSET)) ∧
    mgmt_ip sw = Ok (print_ip (network_address n + MGMT_OFFSET)) ∧
    ∀ k, (SIDECAR_OFFSET ≤ k ≤ USER_STATIC_HI)%Z →
      in_network (network_address n + k) n = true ∧
      (network_address n < network_address n + k < broadcast_address n)%Z ∧
      parse_ip (print_ip (network_address n + k)) = Some (network_address n + k)%Z.
Proof.
  intros Hsw. destruct (switch_ok_network sw) as (n & Hn & Hok & Hp); [by repeat eexists|].
  exists n. split; [done|]. unfold sidecar_ip, mgmt_ip, slot_ip. rewrite Hn. cbn [mbind result_bind].
  destruct (slot_range n SIDECAR_OFFSET Hok Hp) as (_ & _ & ->); [unfold SIDECAR_OFFSET; lia|].
  destruct (slot_range n MGMT_OFFSET Hok Hp) as (_ & _ & ->); [unfold MGMT_OFFSET; lia|].
  split_and!; [done..|]. intros k Hk. unfold SIDECAR_OFFSET, USER_STATIC_HI in Hk.
  destruct (slot_range n k Hok Hp) as (Hlt & Hhi & _); [lia|]. pose proof (no_addr _ Hok).
  split_and!; [|lia|lia|apply parse_print_ip; lia].
  apply in_network_iff; [done|lia|]. rewrite broadcast_eq in Hlt by done. lia.
Qed.

(** ** Addressing *)

(** An address a guest on [sw] may be given. *)
Record usable (sw : Switch) (n : IPv4Network) (ip : Z) : Prop := {
  us_host : (network_address n < ip < broadcast_address n)%Z;
  us_sidecar : needs_sidecar sw = true → ip ≠ (network_address n + SIDECAR_OFFSET)%Z;
  us_mgmt : mgmt sw = true → ip ≠ (network_address n + MGMT_OFFSET)%Z;
  us_pool : ∀ sc, sidecar sw = Some sc → sc_dhcp sc = true →
    ¬ (network_address n + DHCP_RANGE_LO ≤ ip ≤ network_address n + DHCP_RANGE_HI)%Z;
}.

Lemma check_static_cases sw a :
  switch_ok sw → static_ok a →
  ∃ n, sw_network sw = Ok n ∧
    ((usable sw n (ip_of a) ∧ check_static sw a = Ok (Good (sw_name sw) (print_ip (ip_of a)))) ∨
     (¬ usable sw n (ip_of a) ∧ ∃ why, check_static sw a = Ok (Bad why))).
Proof.
  intros Hsw (Hip & Hh)%static_ok_ip. destruct (switch_ok_network sw Hsw) as (n & Hn & Hok & Hp).
  exists n. split; [done|]. unfold check_static. rewrite Hh, Hn. cbn [mbind result_bind].
  unfold IPv4Address. rewrite parse_print_ip by done. cbv [mret result_ret].
  set (ip := ip_of a) in *. pose proof (in_network_iff ip n Hok Hip) as Hin.
  pose proof (broadcast_eq n Hok) as Hbc.
  destruct (in_network ip n) eqn:Hi; cbn [negb].
  2:{ right. split; [|by eexists]. intros [[??] _ _ _]. enough (false = true) by done. apply Hin. lia. }
  destruct (proj1 Hin eq_refl) as [Hlo Hhi].
  case_decide as Hna; [right; split; [|by eexists]; intros [[??] _ _ _]; lia|].
  case_decide as Hb; [right; split; [|by eexists]; intros [[??] _ _ _]; lia|].
  destruct (slot_range n SIDECAR_OFFSET Hok Hp) as (_ & _ & ->); [unfold SIDECAR_OFFSET; lia|].
  destruct (slot_range n MGMT_OFFSET Hok Hp) as (_ & _ & ->); [unfold MGMT_OFFSET; lia|].
  destruct (slot_range n DHCP_RANGE_LO Hok Hp) as (_ & _ & ->); [unfold DHCP_RANGE_LO; lia|].
  destruct (slot_range n DHCP_RANGE_HI Hok Hp) as (_ & _ & ->); [unfold DHCP_RANGE_HI; lia|].
  cbn [mbind result_bind].
  assert (∀ (P : Prop) `{Decision P} (c : bool) (k : bool → res site_check),
    ((if c then Ok (bool_decide P) else Ok false) ≫= k) = k (c && bool_decide P)) as Hk by (by intros ? ? []).
  rewrite !Hk. destruct (needs_sidecar sw && bool_decide (ip = _)) eqn:Hs.
  { apply andb_true_iff in Hs as [Hs1 Hs2%bool_decide_eq_true]. right. split; [|by eexists]. by intros [_ H _ _]; apply H. }
  destruct (mgmt sw && bool_decide (ip = _)) eqn:Hm.
  { apply andb_true_iff in Hm as [Hm1 Hm2%bool_decide_eq_true]. right. split; [|by eexists]. by intros [_ _ H _]; apply H. }
  destruct (match sidecar sw with Some sc => sc_dhcp sc | None => false end && bool_decide _) eqn:Hd.
  { apply andb_true_iff in Hd as [Hd1 Hd2%bool_decide_eq_true]. right. split; [|by eexists]. intros [_ _ _ H].
    destruct (sidecar sw) as [sc|]; [|done]. by apply (H sc). }
  left. split; [|done]. split.
  - lia.
  - intros H1 H2. rewrite H1, bool_decide_true in Hs by done. done.
  - intros H1 H2. rewrite H1, bool_decide_true in Hm by done. done.
  - intros sc H1 H2 H3. rewrite H1, H2, bool_decide_true in Hd by done. done.
Qed.

Lemma switch_for_in switches x sw : switch_for switches !! x = Some sw → sw ∈ switches.
Proof.
  unfold switch_for.
  cut (∀ m : gmap string Switch, (∀ x sw, m !! x = Some sw → sw ∈ switches) → ∀ l, l ⊆ switches →
    ∀ x sw, foldl (λ (m : gmap string Switch) sw, foldl (λ m net, if decide (is_Some (m !! net_name net)) then m
      else <[net_name net := sw]> m) m (networks sw)) m l !! x = Some sw → sw ∈ switches).
  { intros Hc. apply (Hc ∅); [by intros ? ? ?%lookup_empty_Some|done]. }
  intros m Hm l. revert m Hm. induction l as [|s l IH]; intros m Hm Hl; cbn; [apply Hm|].
  apply IH; [|set_solver]. assert (s ∈ switches) as Hs by set_solver. clear IH Hl.
  revert m Hm. induction (networks s) as [|net ns IHn]; intros m Hm; cbn; [apply Hm|].
  apply IHn. intros y t. case_decide; [apply Hm|]. rewrite lookup_insert_Some. naive_solver.
Qed.

(** The address a NIC claims on its switch, and whether it may. *)
Definition claim_of (owner : gmap string Switch) (s : site) : option (string * Z) :=
  match owner !! nh_name (n_network (s_nic s)), n_addr (s_nic s) with
  | Some sw, Some (Static a) => Some (sw_name sw, ip_of a)
  | _, _ => None
  end.

Definition site_ok (owner : gmap string Switch) (s : site) : Prop :=
  ∃ sw, owner !! nh_name (n_network (s_nic s)) = Some sw ∧
    ∀ a, n_addr (s_nic s) = Some (Static a) →
      ∃ n, sw_network sw = Ok n ∧ usable sw n (ip_of a).

Definition site_valid (s : site) : Prop := ∀ a, n_addr (s_nic s) = Some (Static a) → static_ok a.

Section Addressing.
Context (owner : gmap string Switch).
Hypothesis Hown : ∀ x sw, owner !! x = Some sw → switch_ok sw.
Set Default Proof Using "All".

(** The three outcomes of a NIC's checks. *)
Lemma check_site_cases s :
  site_valid s →
  (site_ok owner s ∧ claim_of owner s = None ∧ check_site owner s = Ok Skip) ∨
  (∃ sw ip, site_ok owner s ∧ claim_of owner s = Some (sw, ip) ∧ (0 ≤ ip ≤ ALL_ONES)%Z ∧
     check_site owner s = Ok (Good sw (print_ip ip))) ∨
  (¬ site_ok owner s ∧ ∃ why, check_site owner s = Ok (Bad why)).
Proof.
  intros Hv. unfold check_site, claim_of, site_ok, site_valid in *.
  destruct (owner !! nh_name (n_network (s_nic s))) as [sw|] eqn:Ho.
  2:{ right; right. split; [|by eexists]. by intros (? & ? & _). }
  destruct (n_addr (s_nic s)) as [[|a]|] eqn:Ha.
  1,3: left; split_and!; try done; exists sw; split; [done|]; by intros.
  destruct (check_static_cases sw a (Hown _ _ Ho) (Hv a eq_refl)) as (n & Hn & [[Hu ->]|(Hu & why & ->)]).
  - right; left. exists (sw_name sw), (ip_of a). split_and!; try done; [|by apply static_ok_ip, Hv..].
    exists sw. split; [done|]. intros a' [= <-]. by exists n.
  - right; right. split; [|by eexists]. intros (sw' & [= <-] & Hx). destruct (Hx a eq_refl) as (n' & Hn' & Hu').
    rewrite Hn in Hn'. injection Hn' as <-. done.
Qed.

Definition seen_ok (l : list site) (seen : gmap string (gmap string site)) : Prop :=
  ∀ sw ip, (0 ≤ ip ≤ ALL_ONES)%Z →
    is_Some (default ∅ (seen !! sw) !! print_ip ip) ↔ (sw, ip) ∈ omap (claim_of owner) l.

Definition all_good (l : list site) : Prop :=
  (∀ s, s ∈ l → site_ok owner s) ∧ NoDup (omap (claim_of owner) l).

Lemma claims_snoc l s :
  omap (claim_of owner) (l ++ [s]) =
  omap (claim_of owner) l ++ match claim_of owner s with Some c => [c] | None => [] end.
Proof. rewrite omap_app. cbn. by destruct (claim_of owner s). Qed.

Lemma all_good_snoc l s :
  all_good (l ++ [s]) ↔
  all_good l ∧ site_ok owner s ∧ ∀ c, claim_of owner s = Some c → c ∉ omap (claim_of owner) l.
Proof.
  unfold all_good. rewrite claims_snoc, NoDup_app. split.
  - intros (Ha & Hn & Hd & _). split_and!; [|done| |].
    + intros s0 Hs. apply Ha, elem_of_app. by left.
    + apply Ha, elem_of_app. right. by apply list_elem_of_singleton.
    + intros c Hc Hin. apply (Hd c Hin). rewrite Hc. by apply list_elem_of_singleton.
  - intros ([Ha Hn] & Hs & Hc). split_and!; [|done| |].
    + intros s0 [?|Heq]%elem_of_app; [auto|]. by apply list_elem_of_singleton in Heq as ->.
    + intros c Hin. destruct (claim_of owner s) as [c'|]; [|apply not_elem_of_nil].
      intros ->%list_elem_of_singleton. by apply (Hc c').
    + destruct (claim_of owner s); [apply NoDup_singleton|constructor].
Qed.

Lemma seen_ok_snoc l s seen sw ip :
  seen_ok l seen → claim_of owner s = Some (sw, ip) → (0 ≤ ip ≤ ALL_ONES)%Z →
  seen_ok (l ++ [s]) (<[sw := <[print_ip ip := s]> (default ∅ (seen !! sw))]> seen).
Proof.
  intros Hs Hc Hip sw' ip' Hip'. rewrite claims_snoc, Hc, elem_of_app, list_elem_of_singleton, <-(Hs _ _ Hip').
  destruct (decide (sw' = sw)) as [->|Hne].
  - rewrite lookup_insert_eq. cbn [default from_option id]. destruct (decide (ip' = ip)) as [->|Hni].
    + rewrite lookup_insert_eq. split; [by right|by intros _].
    + rewrite lookup_insert_ne by (intros ?%print_ip_inj; congruence). split; [by left|by intros [?|[=]]].
  - rewrite lookup_insert_ne by done. split; [by left|by intros [?|[=]]].
Qed.

Lemma address_loop l :
  (∀ s, s ∈ l → site_valid s) →
  ∃ problems seen, foldM (address_step owner) ([], ∅) l = Ok (problems, seen) ∧
    (problems = [] ↔ all_good l) ∧ (problems = [] → seen_ok l seen).
Proof.
  induction l as [|s l IH] using rev_ind; intros Hv.
  - exists [], ∅. split; [done|]. split; [split; [|done]; split; [by intros ? ?%not_elem_of_nil|constructor]|].
    intros _ sw ip _. rewrite lookup_empty. cbn. rewrite lookup_empty. split; [by intros []|by intros ?%not_elem_of_nil].
  - destruct IH as (ps & seen & Hf & Hg & Hs); [intros; apply Hv, elem_of_app; by left|].
    rewrite foldM_app, Hf. cbn [mbind result_bind foldM]. setoid_rewrite all_good_snoc.
    assert (site_valid s) as Hvs by (apply Hv, elem_of_app; right; by apply list_elem_of_singleton).
    assert (∀ x : site * reason, ps ++ [x] = [] → False) as Hne by (by intros x []%app_nil).
    destruct (check_site_cases s Hvs) as [(Hok & Hc & Hcs)|[(sw & ip & Hok & Hc & Hip & Hcs)|(Hok & why & Hcs)]];
      unfold address_step; rewrite Hcs; cbn [mbind result_bind mret result_ret].
    + exists ps, seen. split_and!; [done| |].
      * rewrite Hg, Hc. naive_solver.
      * intros Hp sw ip Hip. rewrite claims_snoc, Hc, app_nil_r. by apply Hs.
    + destruct (default ∅ (seen !! sw) !! print_ip ip) as [o|] eqn:Hu; eexists _, _; (split; [done|]).
      * split; [|by intros ?%Hne]. split; [by intros ?%Hne|]. intros (Hx & _ & Hd). exfalso.
        apply (Hd _ Hc). apply Hs; [by apply Hg|done|]. by rewrite Hu.
      * split; [|intros Hp; apply seen_ok_snoc; auto]. rewrite Hg. split; [|tauto]. intros Hx.
        split_and!; [done..|]. intros c Hc'. rewrite Hc in Hc'. injection Hc' as <-.
        intros Hin%Hs; [|by apply Hg|done]. rewrite Hu in Hin. by destruct Hin.
    + eexists _, _. split; [done|]. split; [|by intros ?%Hne]. split; [by intros ?%Hne|tauto].
Qed.
End Addressing.

(** A plan's static addresses are accepted exactly when every NIC is on a
    declared network and every static address is a host address of its switch's
    subnet, outside the slots the switch occupies and its DHCP pool, and used
    once on that switch, even across the switch's networks.  Every refusal is a
    [ValueError]. *)
Theorem validate_addressing_iff {Bld Com} switches (vms : list (VMRecipe Bld Com)) :
  Forall switch_ok switches → Forall site_valid (sites vms) →
  let owner := switch_for switches in
  (validate_addressing switches vms = Ok () ↔
     (∀ s, s ∈ sites vms → site_ok owner s) ∧ NoDup (omap (claim_of owner) (sites vms))) ∧
  (∀ e, validate_addressing switches vms = Raise e → exn_class e = ValueError).
Proof.
  intros Hsw Hv owner. pose proof (proj1 (Forall_forall _ _) Hsw) as Hsw'. pose proof (proj1 (Forall_forall _ _) Hv) as Hv'.
  destruct (address_loop owner) with (l := sites vms) as (ps & seen & Hf & Hg & _);
    [intros x sw Hx; by eapply Hsw', switch_for_in|done|].
  unfold validate_addressing. fold owner. rewrite Hf. cbn [mbind result_bind]. unfold all_good in Hg. rewrite <-Hg.
  destruct ps as [|p ps]; cbn; split; try done; by intros e [= <-].
Qed.

(** ** Build addresses *)

Lemma build_slots_spec :
  NoDup BUILD_IP_SLOTS ∧ length BUILD_IP_SLOTS = 162 ∧
  Forall (λ o, MGMT_OFFSET < o ≤ USER_STATIC_HI ∧ ¬ (DHCP_RANGE_LO ≤ o ≤ DHCP_RANGE_HI))%Z BUILD_IP_SLOTS.
Proof.
  split; [apply (bool_decide_unpack _); vm_compute; exact I|]. split; [vm_compute; reflexivity|].
  apply (bool_decide_unpack _). vm_compute. exact I.
Qed.

(** Concurrent builds get distinct addresses: the first 162 VMs of a plan
    have pairwise distinct host offsets on the build switch, none of which is the
    sidecar's, the host adapter's or in the DHCP pool; a larger plan is refused. *)
Theorem build_addresses_distinct i :
  (162 ≤ i → build_ip_offset i = raise OrchestratorError ["build address"]) ∧
  (i < 162 → ∃ o, build_ip_offset i = Ok o ∧
     (MGMT_OFFSET < o ≤ USER_STATIC_HI)%Z ∧ ¬ (DHCP_RANGE_LO ≤ o ≤ DHCP_RANGE_HI)%Z ∧
     ∀ j, build_ip_offset j = Ok o → j = i).
Proof.
  destruct build_slots_spec as (Hnd & Hlen & Hall). unfold build_ip_offset. split.
  - intros Hi. rewrite <-Hlen in Hi. by rewrite (proj2 (lookup_ge_None _ _) Hi).
  - intros Hi. rewrite <-Hlen in Hi. apply lookup_lt_is_Some_2 in Hi as [o Ho]. exists o. rewrite Ho.
    eapply Forall_lookup_1 in Hall as [H1 H2]; [|done]. split_and!; [done..|lia|lia|done|].
    intros j. destruct (BUILD_IP_SLOTS !! j) as [o'|] eqn:Hj; [|done]. cbv [mret result_ret]. intros [= ->].
    by eapply NoDup_lookup.
Qed.

(** ** A plan's addresses *)
Module AddressingDemo.

Definition side : Sidecar := MkSidecar true true false None.
Definition sw : Switch := MkSwitch "sw1" [MkNetwork "lan"] "10.0.0.0/24" None false (Some side).
Definition vm (name addr : string) : VMRecipe () () :=
  MkRecipe (MkVMSpec name [CPU 1 false; Memory 512; OSDrive (MkDisk (MkPoolHandle "p1") 10);
    Nic (MkIface (MkNetworkHandle "lan" "sw1") (Some (Static (MkStaticAddr addr None []))))] "bios") () ().

Lemma switch_layout_fits_witness :
  ∃ n, sw_network sw = Ok n ∧ sidecar_ip sw = Ok (print_ip (network_address n + SIDECAR_OFFSET)).
Proof.
  destruct (switch_layout_fits "sw1" [MkNetwork "lan"] "10.0.0.0/24" None false (Some side) sw) as (n & H1 & H2 & _).
  - vm_compute. reflexivity.
  - exists n. split; assumption.
Defined.

(** Two VMs with one address: refused; with two: accepted. *)
Lemma validate_addressing_iff_witness :
  validate_addressing [sw] [vm "a" "10.0.0.100"; vm "b" "10.0.0.101"] = Ok () ∧
  NoDup (omap (claim_of (switch_for [sw])) (sites [vm "a" "10.0.0.100"; vm "b" "10.0.0.101"])) ∧
  is_ok (validate_addressing [sw] [vm "a" "10.0.0.100"; vm "b" "10.0.0.100"]) = false.
Proof.
  assert (validate_addressing [sw] [vm "a" "10.0.0.100"; vm "b" "10.0.0.101"] = Ok ()) as Hok by (vm_compute; reflexivity).
  split; [exact Hok|]. split; [|vm_compute; reflexivity].
  apply (validate_addressing_iff [sw] [vm "a" "10.0.0.100"; vm "b" "10.0.0.101"]).
  - constructor; [|constructor]. exists "sw1", [MkNetwork "lan"], "10.0.0.0/24", None, false, (Some side). vm_compute. reflexivity.
  - repeat constructor; intros a Ha; injection Ha as <-; unfold static_ok.
    + exists "10.0.0.100", None, []. vm_compute. reflexivity.
    + exists "10.0.0.101", None, []. vm_compute. reflexivity.
  - exact Hok.
Defined.

Lemma build_addresses_distinct_witness : build_ip_offset 7 = Ok 100%Z ∧ ∀ j, build_ip_offset j = Ok 100%Z → j = 7.
Proof.
  split; [vm_compute; reflexivity|].
  destruct (build_addresses_distinct 7) as [_ H]. destruct (H ltac:(lia)) as (o & Ho & _ & _ & Hinj).
  vm_compute in Ho. injection Ho as <-. exact Hinj.
Defined.

(** The layout reserves [.3] to [.9] for the infrastructure; validation accepts a
    user's static address there. *)
Lemma infra_slot_accepted : validate_addressing [sw] [vm "a" "10.0.0.3"] = Ok ().
Proof. vm_compute. reflexivity. Qed.
End AddressingDemo.
