(* ===== verification/Artifacts.v ===== *)
(** * Names of disks and cached artifacts ([orchestrator/artifacts.py]), and why
      they never collide *)

From S2P Require Import Prelude Exceptions Ipv4 Devices Validate.
From stdpp Require Import pretty.
From stdpp Require Import options.

Definition BUILT_PREFIX : string := "_built_".
Definition built_artifact_name (config_hash role : string) : string :=
  BUILT_PREFIX +:+ config_hash +:+ "__" +:+ role.
Definition data_disk_role (idx : nat) : string := "data" +:+ pretty idx.
Definition built_artifact_roles (num_data_disks : nat) : list string :=
  "os" :: (data_disk_role <$> seq 0 num_data_disks).

(** ** The decimal text of an index *)

Lemma pretty_go_num x s : Forall (λ c, is_num c = true) (chars s) →
  Forall (λ c, is_num c = true) (chars (pretty_N_go x s)).
Proof.
  revert s. induction (N.lt_wf_0 x) as [x _ IH]; intros s Hs.
  destruct (decide (x = 0)%N) as [->|Hx]; [by rewrite pretty_N_go_0|].
  rewrite pretty_N_go_step by lia. apply IH; [by apply N.div_lt; lia|]. cbn. constructor; [|done].
  unfold pretty_N_char. by repeat case_match.
Qed.

Lemma pretty_go_length x s : (0 < x)%N → length (chars s) < length (chars (pretty_N_go x s)).
Proof.
  revert s. induction (N.lt_wf_0 x) as [x _ IH]; intros s Hx. rewrite pretty_N_go_step by done.
  destruct (decide (x `div` 10 = 0)%N) as [->|Hd]; [rewrite pretty_N_go_0; cbn; lia|].
  specialize (IH (x `div` 10)%N ltac:(by apply N.div_lt) (String (pretty_N_char (x `mod` 10)) s) (proj1 (N.neq_0_lt_0 _) Hd)).
  etrans; [|exact IH]. cbn. lia.
Qed.

Lemma pretty_nat_num (n : nat) :
  Forall (λ c, is_num c = true) (chars (pretty n)) ∧ chars (pretty n) ≠ [].
Proof.
  unfold pretty, pretty_nat, pretty, pretty_N. case_decide as Hn; [by split; [repeat constructor|]|].
  split; [by apply pretty_go_num; constructor|]. intros H0.
  pose proof (pretty_go_length (N.of_nat n) "") as Hl. rewrite H0 in Hl. cbn in Hl. lia.
Qed.

Lemma drop_digits_app ds r : Forall (λ c, is_num c = true) ds → drop_digits (ds ++ r) = drop_digits r.
Proof. induction 1 as [|d ds Hd _ IH]; cbn; [done|]. by rewrite Hd. Qed.

(** The name of a data disk carries the marker VM names may not. *)
Lemma data_disk_marked (a : string) (i : nat) : data_marked (a +:+ "-" +:+ data_disk_role i) = true.
Proof.
  unfold data_marked, data_disk_role. rewrite !chars_app, !reverse_app.
  destruct (pretty_nat_num i) as [Hn Hne]. apply Forall_reverse in Hn.
  destruct (reverse (chars (pretty i))) as [|d ds] eqn:Hr; [by destruct Hne; apply (inj reverse); rewrite Hr|].
  apply Forall_cons in Hn as [Hd Hds]. rewrite <-!app_assoc. cbn [app]. rewrite Hd. cbn [andb].
  rewrite drop_digits_app by done. reflexivity.
Qed.

Lemma digits_cancel ds1 ds2 r1 r2 c1 c2 :
  Forall (λ c, is_num c = true) ds1 → Forall (λ c, is_num c = true) ds2 →
  is_num c1 = false → is_num c2 = false →
  ds1 ++ c1 :: r1 = ds2 ++ c2 :: r2 → ds1 = ds2 ∧ r1 = r2.
Proof.
  intros H1. revert ds2. induction H1 as [|d ds1 Hd _ IH]; intros [|d2 ds2] H2 Hc1 Hc2 Heq; cbn in Heq.
  - by simplify_eq.
  - apply Forall_cons in H2 as [? _]. simplify_eq. congruence.
  - simplify_eq. congruence.
  - apply Forall_cons in H2 as [_ H2]. injection Heq as <- Heq. destruct (IH ds2) as [-> ->]; done.
Qed.

Lemma data_disk_inj (a b : string) (i j : nat) :
  a +:+ "-" +:+ data_disk_role i = b +:+ "-" +:+ data_disk_role j → a = b ∧ i = j.
Proof.
  intros Heq%(f_equal (λ s, reverse (chars s))). unfold data_disk_role in Heq.
  rewrite !chars_app, !reverse_app, <-!app_assoc in Heq. cbn in Heq.
  apply digits_cancel in Heq as [Hd Hr]; [|apply Forall_reverse, pretty_nat_num..|done|done].
  apply (inj reverse), chars_inj, (inj pretty) in Hd. split; [|done]. simplify_eq.
  by apply chars_inj.
Qed.

Lemma duplicates_empty l : duplicates l = ∅ → NoDup l.
Proof.
  intros Hd. apply NoDup_alt. intros i j x Hi Hj.
  destruct (decide (i = j)) as [|Hne]; [done|]. exfalso.
  assert (x ∈ duplicates l) as Hx; [|set_solver]. unfold duplicates. apply elem_of_list_to_set, list_elem_of_filter.
  split; [|by eapply list_elem_of_lookup_2].
  assert (∀ i j, i < j → l !! i = Some x → l !! j = Some x → 1 < length (filter (eq x) l)) as Hlt.
  { clear. intros i j Hij Hi Hj. rewrite <-(take_drop_middle l i x Hi), filter_app, length_app, filter_cons_True by done.
    cbn. enough (0 < length (filter (eq x) (drop (S i) l))) by lia.
    assert (x ∈ filter (eq x) (drop (S i) l)) as Hin.
    { apply list_elem_of_filter. split; [done|]. eapply (list_elem_of_lookup_2 _ (j - S i)).
      rewrite lookup_drop. by replace (S i + (j - S i)) with j by lia. }
    destruct (filter (eq x) (drop (S i) l)); [by apply not_elem_of_nil in Hin|cbn; lia]. }
  destruct (decide (i < j)); [by apply (Hlt i j)|apply (Hlt j i); [lia|done|done]].
Qed.

Lemma foldM_unit_Ok {A} (f : A → res ()) l :
  foldM (λ _ x, f x) () l = Ok () → Forall (λ x, f x = Ok ()) l.
Proof.
  induction l as [|x l IH]; cbn; [constructor|]. intros ([] & Hx & Hl)%bind_Ok. constructor; auto.
Qed.

Lemma validate_name_Ok s k x : validate_name s k = Ok x → safe_name s = true.
Proof. unfold validate_name. intros H. res_inv. by destruct (safe_name x). Qed.

Lemma filter_flag_nil {A} (f : A → bool) (l : list A) :
  filter (λ x, f x = true) l = [] → Forall (λ x, f x = false) l.
Proof.
  intros Hf. apply Forall_forall. intros x Hx. destruct (f x) eqn:Hfx; [|done].
  assert (x ∈ @nil A) as Hin; [|by apply not_elem_of_nil in Hin]. rewrite <-Hf. by apply list_elem_of_filter.
Qed.

(** What the VM half of validation establishes. *)
Lemma validate_vm_plan_inv {Bld Com} (vms : list (VMRecipe Bld Com)) pools :
  validate_vm_plan vms pools = Ok () →
  NoDup (vm_name <$> vms) ∧ Forall (λ v, safe_name (vm_name v) = true) vms ∧
  Forall (λ n, is_reserved n = false) (vm_name <$> vms) ∧ Forall (λ n, data_marked n = false) (vm_name <$> vms) ∧
  Forall (λ v, check_os_pool (list_to_set (sp_name <$> pools)) v = Ok ()) vms.
Proof.
  unfold validate_vm_plan. intros H. res_inv.
  repeat match goal with H : bool_decide (_ ≠ _) = false |- _ => apply bool_decide_eq_false, dec_stable in H end.
  split_and!; [by apply duplicates_empty| |by apply (filter_flag_nil is_reserved)|by apply (filter_flag_nil data_marked)|by apply foldM_unit_Ok].
  match goal with H : foldM (λ _ r, validate_name _ _ ≫= _) () vms = Ok () |- _ => apply foldM_unit_Ok in H; rename H into Hn end.
  eapply Forall_impl; [exact Hn|]. intros v (x & Hx & _)%bind_Ok. by eapply validate_name_Ok.
Qed.

(** Disks never share a backend name.  In a plan that validation accepted,
    no VM's name (hence no VM's OS disk) is the name of another VM's data disk,
    two data disks coincide only if they are the same disk of the same VM, and
    the VMs' names are distinct and safe to interpolate. *)
Theorem disk_names_distinct {Bld Com} (vms : list (VMRecipe Bld Com)) pools :
  validate_vm_plan vms pools = Ok () →
  NoDup (vm_name <$> vms) ∧ Forall (λ v, safe_name (vm_name v) = true) vms ∧
  (∀ v w i, v ∈ vms → w ∈ vms → vm_name v ≠ vm_name w +:+ "-" +:+ data_disk_role i) ∧
  (∀ v w i j, v ∈ vms → w ∈ vms →
     vm_name v +:+ "-" +:+ data_disk_role i = vm_name w +:+ "-" +:+ data_disk_role j →
     vm_name v = vm_name w ∧ i = j).
Proof.
  intros (Hnd & Hsafe & _ & Hmark & _)%validate_vm_plan_inv. split_and!; [done..| |].
  - intros v w i Hv _ Heq. rewrite Forall_forall in Hmark.
    specialize (Hmark (vm_name v) ltac:(by apply list_elem_of_fmap_2)). by rewrite Heq, data_disk_marked in Hmark.
  - intros v w i j _ _ Heq. by apply data_disk_inj.
Qed.

Lemma role_no_underscore n r : r ∈ built_artifact_roles n → "_"%char ∉ chars r.
Proof.
  unfold built_artifact_roles. intros [->|(i & -> & _)%list_elem_of_fmap]%elem_of_cons.
  - intros Hin%list_elem_of_In. cbn in Hin. naive_solver.
  - unfold data_disk_role. rewrite chars_app, elem_of_app. intros [Hin%list_elem_of_In|Hin].
    + cbn in Hin. naive_solver.
    + destruct (pretty_nat_num i) as [Hn _]. rewrite Forall_forall in Hn. by apply Hn in Hin.
Qed.

Lemma underscore_cancel (l1 l2 r1 r2 : list ascii) :
  "_"%char ∉ l1 → "_"%char ∉ l2 → l1 ++ "_"%char :: r1 = l2 ++ "_"%char :: r2 → l1 = l2 ∧ r1 = r2.
Proof.
  revert l2. induction l1 as [|x l1 IH]; intros [|y l2] H1 H2 Heq; cbn in Heq; simplify_eq; [done|set_solver..|].
  destruct (IH l2) as [-> ->]; [set_solver..|done|done].
Qed.

(** A cached disk is found under the VM and role it was captured for only:
    the artifact name determines the configuration hash and the role. *)
Theorem artifact_name_injective h1 h2 n1 n2 r1 r2 :
  r1 ∈ built_artifact_roles n1 → r2 ∈ built_artifact_roles n2 →
  built_artifact_name h1 r1 = built_artifact_name h2 r2 → h1 = h2 ∧ r1 = r2.
Proof.
  intros H1%role_no_underscore H2%role_no_underscore Heq%(f_equal (λ s, reverse (chars s))).
  unfold built_artifact_name, BUILT_PREFIX in Heq. rewrite !chars_app, !reverse_app, <-!app_assoc in Heq.
  cbn in Heq. apply underscore_cancel in Heq as [Hr Hh]; [|by rewrite elem_of_reverse..].
  apply (inj reverse), chars_inj in Hr. split; [|done]. injection Hh as Hh.
  by apply app_inv_tail, (inj reverse), chars_inj in Hh.
Qed.


(** ** Two VMs in a pool *)
Module ArtifactsDemo.
Definition vm (name : string) : VMRecipe () () :=
  MkRecipe (MkVMSpec name [CPU 1 false; Memory 512; OSDrive (MkDisk (MkPoolHandle "p1") 10);
    HardDrive (MkDisk (MkPoolHandle "p1") 5)] "bios") () ().
Definition pools : list StoragePool := [MkStoragePool "p1" 100].

Lemma disk_names_distinct_witness :
  validate_vm_plan [vm "web"; vm "db"] pools = Ok () ∧ is_ok (validate_vm_plan [vm "web"; vm "web-data0"] pools) = false ∧
  NoDup ["web"; "db"].
Proof.
  assert (validate_vm_plan [vm "web"; vm "db"] pools = Ok ()) as Hok by (vm_compute; reflexivity).
  split; [exact Hok|]. split; [vm_compute; reflexivity|].
  destruct (disk_names_distinct [vm "web"; vm "db"] pools Hok) as [H _]. exact H.
Defined.

Lemma artifact_name_injective_witness :
  built_artifact_name "abc" "data0" = "_built_abc__data0" ∧ "abc" = "abc" ∧ "data0" = "data0".
Proof.
  split; [vm_compute; reflexivity|]. apply (artifact_name_injective "abc" "abc" 1 2 "data0" "data0").
  - right. left.
  - right. left.
  - reflexivity.
Defined.
End ArtifactsDemo.
