(* ===== verification/Hypervisor.v ===== *)
(** * The plan container ([hypervisor.py], [handles.py])

    [Hypervisor] is mutable while the plan is written and frozen by [Plan].  Its
    registries are insertion-ordered dicts keyed by the declarations' own names,
    kept here as the lists of their values; the network registry is a map. *)

From S2P Require Import Prelude Exceptions Eff Devices BuildGraph Validate.
From stdpp Require Import options.

Record Hypervisor (Bld Com : Type) : Type := MkHypervisor {
  build_switch : option Switch;
  declared_pools : list StoragePool;
  declared_switches : list Switch;
  declared_vms : list (VMRecipe Bld Com);
  network_handles : gmap string NetworkHandle;
  explicit_edges : list (string * string);
  frozen : bool;
}.
Arguments MkHypervisor {Bld Com} _ _ _ _ _ _ _.
Arguments build_switch {Bld Com} _.
Arguments declared_pools {Bld Com} _.
Arguments declared_switches {Bld Com} _.
Arguments declared_vms {Bld Com} _.
Arguments network_handles {Bld Com} _.
Arguments explicit_edges {Bld Com} _.
Arguments frozen {Bld Com} _.

Section Container.
Context {Bld Com : Type}.
Implicit Types (h : Hypervisor Bld Com).

Definition new_hypervisor (bs : option Switch) : Hypervisor Bld Com :=
  MkHypervisor bs [] [] [] ∅ [] false.

Definition require_mutable (action : string) : act (Hypervisor Bld Com) () :=
  f ← gets frozen;
  throw_when f ValueError [action].

Definition add_pool (pool : StoragePool) : act (Hypervisor Bld Com) PoolHandle :=
  require_mutable "add_pool";;
  ps ← gets declared_pools;
  throw_when (bool_decide (sp_name pool ∈ sp_name <$> ps)) ValueError ["pool"; sp_name pool];;
  handle ← lift (new_pool_handle (sp_name pool));
  modify (λ h, MkHypervisor (build_switch h) (declared_pools h ++ [pool]) (declared_switches h)
    (declared_vms h) (network_handles h) (explicit_edges h) (frozen h));;
  mret handle.

(** [for net in switch.networks: if net.name in self._network_handles: raise] *)
Definition check_networks (handles : gmap string NetworkHandle) (nets : list Network) : res () :=
  foldM (λ _ net, raise_when (bool_decide (is_Some (handles !! net_name net))) ValueError
    ["network"; net_name net]) () nets.

(** [self._network_handles[net.name] = NetworkHandle(net.name, switch=switch.name)] *)
Definition register_network (sw : string) (net : Network) : act (Hypervisor Bld Com) () :=
  handle ← lift (new_network_handle (net_name net) sw);
  modify (λ h, MkHypervisor (build_switch h) (declared_pools h) (declared_switches h)
    (declared_vms h) (<[net_name net := handle]> (network_handles h)) (explicit_edges h) (frozen h)).

Definition add_switch (sw : Switch) : act (Hypervisor Bld Com) Handle :=
  require_mutable "add_switch";;
  h ← gets id;
  throw_when (bool_decide (sw_name sw ∈ sw_name <$> declared_switches h)) ValueError ["switch"; sw_name sw];;
  lift (check_networks (network_handles h) (networks sw));;
  throw_when (bool_decide (sw_name sw = "")) ValueError ["SwitchHandle"];;
  modify (λ h, MkHypervisor (build_switch h) (declared_pools h) (declared_switches h ++ [sw])
    (declared_vms h) (network_handles h) (explicit_edges h) (frozen h));;
  forA (register_network (sw_name sw)) (networks sw);;
  mret (HSwitch (sw_name sw)).

Definition add_vm (recipe : VMRecipe Bld Com) : act (Hypervisor Bld Com) Handle :=
  require_mutable "add_vm";;
  vs ← gets declared_vms;
  throw_when (bool_decide (vm_name recipe ∈ vm_name <$> vs)) ValueError ["VM"; vm_name recipe];;
  throw_when (bool_decide (vm_name recipe = "")) ValueError ["VMHandle"];;
  modify (λ h, MkHypervisor (build_switch h) (declared_pools h) (declared_switches h)
    (declared_vms h ++ [recipe]) (network_handles h) (explicit_edges h) (frozen h));;
  mret (HVM (vm_name recipe)).

(** [Hypervisor.vm]: the devices packed in their fixed order. *)
Definition hyp_vm (name : string) (cpu memory os : Device) (bld : Bld) (com : Com)
    (vm_nics data_disks : list Device) (fw : string) : act (Hypervisor Bld Com) Handle :=
  s ← lift (new_vm_spec name ([cpu; memory; os] ++ data_disks ++ vm_nics) fw);
  add_vm (MkRecipe s bld com).

Definition add_explicit_edge (dependent dependency : string) : act (Hypervisor Bld Com) () :=
  require_mutable "add an ordering edge";;
  modify (λ h, MkHypervisor (build_switch h) (declared_pools h) (declared_switches h)
    (declared_vms h) (network_handles h) (explicit_edges h ++ [(dependent, dependency)]) (frozen h)).

(** [VMHandle.needs( *others )] *)
Definition needs (vm : string) (others : list Handle) : act (Hypervisor Bld Com) () :=
  let self := handle_node_name (HVM vm) in
  forA (λ other,
    throw_when (bool_decide (handle_node_name other = self)) ValueError [vm];;
    add_explicit_edge self (handle_node_name other)) others.

Definition freeze : act (Hypervisor Bld Com) () :=
  modify (λ h, MkHypervisor (build_switch h) (declared_pools h) (declared_switches h)
    (declared_vms h) (network_handles h) (explicit_edges h) true).

(** [hyp.networks[name]] *)
Definition networks_getitem (name : string) : act (Hypervisor Bld Com) NetworkHandle :=
  h ← gets id;
  match network_handles h !! name with
  | Some x => mret x
  | None => throw KeyError ["network"; name]
  end.
End Container.

(** ** Node kinds and graph assembly ([nodes.py], [plan.py])

    [assemble_graph] turns the frozen container into the build graph: one node
    per pool, switch, sidecar and VM, the edges implied by the typed references,
    and the explicit [needs] edges. *)

Section Nodes.
Context {Bld Com : Type}.

Inductive PlanNode : Type :=
  | PoolNode (pool : StoragePool)
  | NetworkNode (sw : Switch)
  | SidecarNode (sw : Switch)
  | VMNode (recipe : VMRecipe Bld Com) (index : nat).

Definition plan_node_name (n : PlanNode) : string :=
  match n with
  | PoolNode p => "pool:" +:+ sp_name p
  | NetworkNode sw => "network:" +:+ sw_name sw
  | SidecarNode sw => "sidecar:" +:+ sw_name sw
  | VMNode v _ => "vm:" +:+ vm_name v
  end.
Definition plan_node_kind (n : PlanNode) : string :=
  match n with
  | PoolNode _ => "pool" | NetworkNode _ => "network" | SidecarNode _ => "sidecar" | VMNode _ _ => "vm"
  end.
#[export] Instance plan_node : Node PlanNode := { node_name := plan_node_name; node_kind := plan_node_kind }.

(** [nodes] and [edges] of [assemble_graph] *)
Definition assembly : Type := list PlanNode * list Edge.

(** [edges.setdefault((dependent, dependency), Edge(dependent, dependency))] *)
Definition setdefault_edge (es : list Edge) (a b : string) : res (list Edge) :=
  e ← ordering_edge a b;
  mret (if decide (Exists (λ x, dependent x = a ∧ dependency x = b) es) then es else es ++ [e]).

Definition link (st : assembly) (a b : string) : res assembly :=
  es ← setdefault_edge st.2 a b;
  mret (st.1, es).

Definition add_plan_node (st : assembly) (n : PlanNode) : assembly := (st.1 ++ [n], st.2).

(** The body of the loop over the switches. *)
Definition assemble_switch (first_pool : option StoragePool) (st : assembly) (sw : Switch) : res assembly :=
  let st := add_plan_node st (NetworkNode sw) in
  if needs_sidecar sw then
    match first_pool with
    | None => raise OrchestratorError [sw_name sw; "no pools"]
    | Some p =>
        let side := SidecarNode sw in
        st ← link (add_plan_node st side) (plan_node_name side) (plan_node_name (NetworkNode sw));
        link st (plan_node_name side) ("pool:" +:+ sp_name p)
    end
  else mret st.

(** [switch_by_network_node] *)
Definition switch_by_network_node (switches : list Switch) : gmap string Switch :=
  foldl (λ m sw, <[plan_node_name (NetworkNode sw) := sw]> m) ∅ switches.

Definition assemble_nic (owner : gmap string Switch) (vm : string) (st : assembly) (nic : NetworkIface)
    : res assembly :=
  let net := network_node_name (n_network nic) in
  st ← link st vm net;
  match owner !! net with
  | Some sw => if needs_sidecar sw then link st vm ("sidecar:" +:+ sw_name sw) else mret st
  | None => mret st
  end.

(** The body of the loop over the VMs. *)
Definition assemble_vm (owner : gmap string Switch) (st : assembly) (iv : nat * VMRecipe Bld Com)
    : res assembly :=
  let node := VMNode iv.2 iv.1 in
  let name := plan_node_name node in
  let s := spec iv.2 in
  os ← os_drive s;
  st ← link (add_plan_node st node) name (pool_node_name (d_pool os));
  st ← foldM (λ st hd, link st name (pool_node_name (d_pool hd))) st (data_drives s);
  foldM (assemble_nic owner name) st (nics s).

Definition assemble (hyp : Hypervisor Bld Com) : res assembly :=
  let pools := declared_pools hyp in
  let switches := declared_switches hyp in
  st ← foldM (assemble_switch (head pools)) (PoolNode <$> pools, []) switches;
  st ← foldM (assemble_vm (switch_by_network_node switches)) st (imap pair (declared_vms hyp));
  foldM (λ st e, link st e.1 e.2) st (explicit_edges hyp).

Definition assemble_graph (name : string) (hyp : Hypervisor Bld Com) : res (BuildGraph PlanNode) :=
  st ← assemble hyp;
  new_build_graph name st.1 st.2.

(** ** [Plan(name, hypervisor)] *)

Record Plan : Type := MkPlan {
  p_name : string;
  p_hypervisor : Hypervisor Bld Com;
  p_graph : BuildGraph PlanNode;
}.

Definition new_plan (name : string) : act (Hypervisor Bld Com) Plan :=
  throw_when (bool_decide (name = "")) ValueError ["Plan.name"];;
  h ← gets id;
  lift (validate_hypervisor_plan (declared_switches h) (declared_pools h) (declared_vms h));;
  freeze;;
  h ← gets id;
  g ← lift (assemble_graph name h);
  mret (MkPlan name h g).
End Nodes.
Arguments PlanNode : clear implicits.
Arguments Plan : clear implicits.
