(* ===== verification/PlanSpec.v ===== *)
(** * The assembled graph: which edges a plan has *)

From S2P Require Import Prelude Exceptions Eff BuildGraph Kahn GraphSpec Ipv4 Devices.
From S2P Require Import Validate Artifacts Hypervisor.
From stdpp Require Import options.

Section Assembly.
Context {Bld Com : Type}.
Implicit Types (st : assembly (Bld:=Bld) (Com:=Com)) (hyp : Hypervisor Bld Com).

Lemma link_Ok st a b st' :
  link st a b = Ok st' →
  st'.1 = st.1 ∧ ∀ x y, edge_rel st'.2 x y ↔ edge_rel st.2 x y ∨ (x = a ∧ y = b).
Proof.
  unfold link, setdefault_edge. intros (es & (e & He & Hes)%bind_Ok & Hst)%bind_Ok.
  apply new_edge_Ok in He as (_ & _ & ->). cbv [mret result_ret] in *. simplify_eq.
  split; [done|]. intros x y. cbn. case_decide as Hex.
  - split; [by left|]. intros [?|[-> ->]]; [done|]. apply Exists_exists in Hex as (e & Hin & Ha & Hb).
    by exists e.
  - rewrite edge_rel_snoc. cbn. tauto.
Qed.

(** A loop whose body adds the nodes [N x] and the edges [R x]. *)
Lemma fold_assembly {A} (f : assembly → A → res assembly) (N : A → list (PlanNode Bld Com))
    (R : A → string → string → Prop) st l st' :
  (∀ st x st', x ∈ l → f st x = Ok st' →
     st'.1 = st.1 ++ N x ∧ ∀ a b, edge_rel st'.2 a b ↔ edge_rel st.2 a b ∨ R x a b) →
  foldM f st l = Ok st' →
  st'.1 = st.1 ++ concat (N <$> l) ∧
  ∀ a b, edge_rel st'.2 a b ↔ edge_rel st.2 a b ∨ ∃ x, x ∈ l ∧ R x a b.
Proof.
  revert st. induction l as [|x l IH]; intros st Hf; cbn.
  - intros [= <-]. rewrite app_nil_r. split; [done|]. intros a b. split; [by left|]. intros [?|(? & ?%not_elem_of_nil & _)]; done.
  - intros (st1 & Hx & Hl)%bind_Ok. apply Hf in Hx as [Hn He]; [|by left].
    apply IH in Hl as [Hn' He']; [|intros; apply Hf; [by right|done]].
    split; [by rewrite Hn', Hn, <-app_assoc|]. intros a b. rewrite He', He. setoid_rewrite elem_of_cons. naive_solver.
Qed.

(** ** The edges of a plan *)

(** Stated on the declarations alone: a NIC names its switch, and the sidecar a VM waits
    for is that of the declared switch with that name. *)
Inductive plan_edge hyp : string → string → Prop :=
  | pe_sidecar_net sw :
      sw ∈ declared_switches hyp → needs_sidecar sw = true →
      plan_edge hyp ("sidecar:" +:+ sw_name sw) ("network:" +:+ sw_name sw)
  | pe_sidecar_pool sw p :
      sw ∈ declared_switches hyp → needs_sidecar sw = true → head (declared_pools hyp) = Some p →
      plan_edge hyp ("sidecar:" +:+ sw_name sw) ("pool:" +:+ sp_name p)
  | pe_os v d :
      v ∈ declared_vms hyp → os_drive (spec v) = Ok d →
      plan_edge hyp ("vm:" +:+ vm_name v) ("pool:" +:+ ph_name (d_pool d))
  | pe_data v d :
      v ∈ declared_vms hyp → d ∈ data_drives (spec v) →
      plan_edge hyp ("vm:" +:+ vm_name v) ("pool:" +:+ ph_name (d_pool d))
  | pe_nic v nic :
      v ∈ declared_vms hyp → nic ∈ nics (spec v) →
      plan_edge hyp ("vm:" +:+ vm_name v) ("network:" +:+ nh_switch (n_network nic))
  | pe_nic_sidecar v nic sw :
      v ∈ declared_vms hyp → nic ∈ nics (spec v) →
      sw ∈ declared_switches hyp → sw_name sw = nh_switch (n_network nic) → needs_sidecar sw = true →
      plan_edge hyp ("vm:" +:+ vm_name v) ("sidecar:" +:+ sw_name sw)
  | pe_explicit a b : (a, b) ∈ explicit_edges hyp → plan_edge hyp a b.

(** The switch the assembly finds for a NIC is the declared one of that name. *)
Definition nic_switch (switches : list Switch) (nic : NetworkIface) : option Switch :=
  switch_by_network_node (Bld:=Bld) (Com:=Com) switches !! network_node_name (n_network nic).

Lemma nic_switch_iff switches nic sw :
  NoDup (sw_name <$> switches) →
  nic_switch switches nic = Some sw ↔ sw ∈ switches ∧ sw_name sw = nh_switch (n_network nic).
Proof.
  unfold nic_switch, switch_by_network_node, network_node_name. induction switches as [|x l IH] using rev_ind; intros Hnd.
  - cbn. rewrite lookup_empty, elem_of_nil. naive_solver.
  - rewrite fmap_app in Hnd. apply NoDup_app in Hnd as (Hnd & Hd & _). rewrite foldl_snoc. cbn [plan_node_name].
    rewrite elem_of_app, list_elem_of_singleton. destruct (decide (sw_name x = nh_switch (n_network nic))) as [Heq|Hne].
    + rewrite Heq, lookup_insert_eq. split; [intros [= <-]; by auto|]. intros [[Hin| ->] Hsw]; [|done].
      exfalso. apply (Hd (sw_name sw)); [by apply list_elem_of_fmap_2|]. rewrite Hsw, <-Heq. cbn. by left.
    + rewrite lookup_insert_ne by (by intros [= ?]). rewrite IH by done. split; [by intuition|]. intros [[Hin| ->] Hsw]; [by split|done].
Qed.

Definition switch_nodes (sw : Switch) : list (PlanNode Bld Com) :=
  NetworkNode sw :: if needs_sidecar sw then [SidecarNode sw] else [].

Definition plan_nodes hyp : list (PlanNode Bld Com) :=
  (PoolNode <$> declared_pools hyp) ++ concat (switch_nodes <$> declared_switches hyp) ++
  imap (λ i v, VMNode v i) (declared_vms hyp).

Lemma assemble_switch_Ok first_pool st sw st' :
  assemble_switch first_pool st sw = Ok st' →
  st'.1 = st.1 ++ switch_nodes sw ∧
  ∀ a b, edge_rel st'.2 a b ↔ edge_rel st.2 a b ∨
    (needs_sidecar sw = true ∧ a = "sidecar:" +:+ sw_name sw ∧
     (b = "network:" +:+ sw_name sw ∨ ∃ p, first_pool = Some p ∧ b = "pool:" +:+ sp_name p)).
Proof.
  unfold assemble_switch, switch_nodes. destruct (needs_sidecar sw).
  - destruct first_pool as [p|]; [|done]. intros (st1 & [H1 E1]%link_Ok & [H2 E2]%link_Ok)%bind_Ok.
    cbn in H1. split; [by rewrite H2, H1, <-app_assoc|]. intros a b. rewrite E2, E1. cbn. naive_solver.
  - intros [= <-]. cbn. split; [done|]. naive_solver.
Qed.

Lemma assemble_vm_Ok switches st i v st' :
  assemble_vm (switch_by_network_node (Bld:=Bld) (Com:=Com) switches) st (i, v) = Ok st' →
  st'.1 = st.1 ++ [VMNode v i] ∧
  ∀ a b, edge_rel st'.2 a b ↔ edge_rel st.2 a b ∨
    (a = "vm:" +:+ vm_name v ∧
     ((∃ d, (os_drive (spec v) = Ok d ∨ d ∈ data_drives (spec v)) ∧ b = "pool:" +:+ ph_name (d_pool d)) ∨
      ∃ nic, nic ∈ nics (spec v) ∧
        (b = "network:" +:+ nh_switch (n_network nic) ∨
         ∃ sw, nic_switch switches nic = Some sw ∧ needs_sidecar sw = true ∧ b = "sidecar:" +:+ sw_name sw))).
Proof.
  unfold assemble_vm. cbn [fst snd]. intros (os & Hos & (st1 & [H1 E1]%link_Ok & (st2 & H2 & H3)%bind_Ok)%bind_Ok)%bind_Ok.
  apply (fold_assembly _ (λ _, []) (λ hd a b, a = "vm:" +:+ vm_name v ∧ b = pool_node_name (d_pool hd))) in H2 as [N2 E2].
  2:{ intros s x s' _ [Hn He]%link_Ok. rewrite app_nil_r. by split. }
  apply (fold_assembly _ (λ _, []) (λ nic a b, a = "vm:" +:+ vm_name v ∧
     (b = network_node_name (n_network nic) ∨
      ∃ sw, nic_switch switches nic = Some sw ∧ needs_sidecar sw = true ∧ b = "sidecar:" +:+ sw_name sw))) in H3 as [N3 E3].
  2:{ clear. intros s x s' _. unfold assemble_nic, nic_switch. intros (s1 & [Hn He]%link_Ok & Hs)%bind_Ok.
      rewrite app_nil_r. destruct (_ !! _) as [sw|] eqn:Hl.
      - destruct (needs_sidecar sw) eqn:Hns.
        + apply link_Ok in Hs as [Hn' He']. split; [congruence|]. intros a b. rewrite He', He. naive_solver.
        + injection Hs as <-. split; [done|]. intros a b. rewrite He.
          split; [tauto|]. intros [?|(-> & [->|(sw' & [= <-] & ? & _)])]; [by left|by right|congruence].
      - injection Hs as <-. split; [done|]. intros a b. rewrite He.
        split; [tauto|]. intros [?|(-> & [->|(sw' & ? & ? & _)])]; [by left|by right|done]. }
  assert (∀ {A} (l : list A), concat ((λ _, @nil (PlanNode Bld Com)) <$> l) = []) as Hnil by (clear; intros A l; by induction l).
  rewrite Hnil, app_nil_r in N2, N3. cbn in H1. split; [congruence|]. intros a b. rewrite E3, E2, E1. cbn.
  unfold pool_node_name, network_node_name. clear Hnil N2 N3 H1 E1 E2 E3. split.
  - intros [[[?|[-> ->]]|(d & Hd & -> & ->)]|(nic & Hnic & -> & Hb)]; [by left|right; split; [done|]..].
    + left. exists os. auto.
    + left. exists d. auto.
    + right. by exists nic.
  - intros [?|[-> [(d & [Hd|Hd] & ->)|(nic & Hnic & Hb)]]]; [by left; left; left|left..|right].
    + left. right. rewrite Hos in Hd. injection Hd as <-. done.
    + right. by exists d.
    + by exists nic.
Qed.

Lemma imap_pair_elem {A} (l : list A) iv : iv ∈ imap pair l ↔ l !! iv.1 = Some iv.2.
Proof.
  rewrite list_elem_of_lookup. destruct iv as [i v]. cbn. split.
  - intros (j & (x & Hx & [= -> ->])%list_lookup_imap_Some). done.
  - intros Hl. exists i. rewrite list_lookup_imap, Hl. done.
Qed.

Lemma assemble_spec hyp st :
  assemble hyp = Ok st →
  st.1 = plan_nodes hyp ∧ (NoDup (sw_name <$> declared_switches hyp) → ∀ a b, edge_rel st.2 a b ↔ plan_edge hyp a b).
Proof.
  unfold assemble. intros (st1 & H1 & (st2 & H2 & H3)%bind_Ok)%bind_Ok.
  apply (fold_assembly _ switch_nodes (λ sw a b, needs_sidecar sw = true ∧ a = "sidecar:" +:+ sw_name sw ∧
    (b = "network:" +:+ sw_name sw ∨ ∃ p, head (declared_pools hyp) = Some p ∧ b = "pool:" +:+ sp_name p)))
    in H1 as [N1 E1]; [|intros; by apply assemble_switch_Ok].
  apply (fold_assembly _ (λ iv, [VMNode iv.2 iv.1]) (λ iv a b, let v := iv.2 in
    (a = "vm:" +:+ vm_name v ∧
     ((∃ d, (os_drive (spec v) = Ok d ∨ d ∈ data_drives (spec v)) ∧ b = "pool:" +:+ ph_name (d_pool d)) ∨
      ∃ nic, nic ∈ nics (spec v) ∧
        (b = "network:" +:+ nh_switch (n_network nic) ∨
         ∃ sw, nic_switch (declared_switches hyp) nic = Some sw ∧ needs_sidecar sw = true ∧ b = "sidecar:" +:+ sw_name sw)))))
    in H2 as [N2 E2]; [|intros s [i v] s' _; by apply assemble_vm_Ok].
  apply (fold_assembly _ (λ _, []) (λ e a b, a = e.1 ∧ b = e.2)) in H3 as [N3 E3];
    [|intros s x s' _ [Hn He]%link_Ok; rewrite app_nil_r; by split].
  assert (∀ {A} (l : list A), concat ((λ _, @nil (PlanNode Bld Com)) <$> l) = []) as Hnil by (clear; intros A l; by induction l).
  assert (∀ (l : list (nat * VMRecipe Bld Com)), concat ((λ iv, [VMNode iv.2 iv.1]) <$> l) = (λ iv, VMNode iv.2 iv.1) <$> l) as Hone
    by (clear; intros l; induction l as [|x l IH]; [done|cbn; by rewrite IH]).
  split.
  - rewrite N3, N2, N1, Hnil, app_nil_r, Hone. unfold plan_nodes. cbn. rewrite <-app_assoc. repeat f_equal.
    rewrite fmap_imap. done.
  - intros Hnd a b. rewrite E3, E2, E1. clear -a Hnd. split.
    + intros [[[(e & He & _)|(sw & Hsw & Hn & -> & [->|(p & Hp & ->)])]|([i v] & Hv & -> & Hb)]|([x y] & Hx & -> & ->)].
      * by apply not_elem_of_nil in He.
      * by constructor.
      * by econstructor.
      * apply imap_pair_elem, list_elem_of_lookup_2 in Hv. cbn in Hv.
        destruct Hb as [(d & [Hd|Hd] & ->)|(nic & Hnic & [->|(sw & Hsw & Hn & ->)])];
          [by eapply pe_os|by eapply pe_data|by eapply pe_nic|].
        apply nic_switch_iff in Hsw as [? ?]; [|done]. by eapply pe_nic_sidecar.
      * by apply pe_explicit.
    + assert (∀ v, v ∈ declared_vms hyp → ∃ i, (i, v) ∈ imap pair (declared_vms hyp)) as Hvm.
      { intros v [i Hi]%list_elem_of_lookup. exists i. by apply imap_pair_elem. }
      destruct 1 as [sw Hsw Hn|sw p Hsw Hn Hp|v d [i Hi]%Hvm Hd|v d [i Hi]%Hvm Hd|v nic [i Hi]%Hvm Hn|v nic sw [i Hi]%Hvm Hn Hs Heq Hns|x y He].
      * left; left; right. exists sw. auto.
      * left; left; right. exists sw. split_and!; [done..|]. right. by exists p.
      * left; right. exists (i, v). split; [done|]. cbn. split; [done|]. left. exists d. auto.
      * left; right. exists (i, v). split; [done|]. cbn. split; [done|]. left. exists d. auto.
      * left; right. exists (i, v). split; [done|]. cbn. split; [done|]. right. exists nic. auto.
      * left; right. exists (i, v). split; [done|]. cbn. split; [done|]. right. exists nic. split; [done|]. right.
        exists sw. split; [by apply nic_switch_iff|done].
      * right. by exists (x, y).
Qed.
End Assembly.

(** ** The container's invariant *)
Section Container.
Context {Bld Com : Type}.
Implicit Types (h : Hypervisor Bld Com).

Record hyp_ok h : Prop := {
  ho_pools : NoDup (sp_name <$> declared_pools h);
  ho_switches : NoDup (sw_name <$> declared_switches h);
  ho_vms : NoDup (vm_name <$> declared_vms h);
  ho_networks : ∀ x nh, network_handles h !! x = Some nh → nh_name nh = x ∧
    ∃ sw, sw ∈ declared_switches h ∧ sw_name sw = nh_switch nh ∧ MkNetwork x ∈ networks sw;
}.

(** What user code does to the container before it is frozen. *)
Inductive hyp_op : Type :=
  | OpPool (p : StoragePool)
  | OpSwitch (sw : Switch)
  | OpVm (v : VMRecipe Bld Com)
  | OpNeeds (vm : string) (others : list Handle).

Definition run_op (o : hyp_op) : act (Hypervisor Bld Com) () :=
  match o with
  | OpPool p => add_pool p;; mret ()
  | OpSwitch sw => add_switch sw;; mret ()
  | OpVm v => add_vm v;; mret ()
  | OpNeeds vm others => needs vm others
  end.

(** Leaves the container alone when frozen, and well-formed always. *)
Definition keeps {A} (m : act (Hypervisor Bld Com) A) : Prop :=
  ∀ h r h', m h = (r, h') → (hyp_ok h → hyp_ok h') ∧ (frozen h = true → h' = h).

Lemma keeps_ret {A} (a : A) : keeps (mret a).
Proof. intros h r h' [= <- <-]. done. Qed.

Lemma keeps_bind {A B} (m : act _ A) (k : A → act _ B) : keeps m → (∀ a, keeps (k a)) → keeps (m ≫= k).
Proof.
  intros Hm Hk h r h' [(a & h1 & H1 & H2)|(e & H1 & ->)]%act_bind_inv; [|by eapply Hm].
  apply Hm in H1 as [I1 F1]. apply Hk in H2 as [I2 F2]. split; [auto|]. intros Hf.
  rewrite <-(F1 Hf). apply F2. by rewrite F1.
Qed.

(** An operation guarded by [require_mutable]. *)
Lemma keeps_guarded {A} s (m : act (Hypervisor Bld Com) A) :
  (∀ h r h', frozen h = false → m h = (r, h') → hyp_ok h → hyp_ok h') → keeps (require_mutable s;; m).
Proof.
  intros Hm h r h'. unfold require_mutable, gets, throw_when, lift, mbind, act_bind, raise_if.
  destruct (frozen h) eqn:Hf; [intros [= <- <-]; done|]. intros H. split; [by eapply Hm|done].
Qed.

Lemma keeps_forA {A} (f : A → act _ ()) l : (∀ x, keeps (f x)) → keeps (forA f l).
Proof.
  intros Hf. unfold forA. induction l as [|x l IH]; cbn; [apply keeps_ret|]. apply keeps_bind; [apply Hf|]. by intros [].
Qed.

Ltac run_guard H := unfold gets, throw_when, lift, modify, mbind, act_bind, raise_if, mret, act_ret in H; cbn in H.

Lemma add_pool_keeps p : keeps (add_pool p).
Proof.
  apply keeps_guarded. intros h r h' _ H Hok. pose proof Hok as [H1 H2 H3 H4]. run_guard H. case_bool_decide as Hin; [by simplify_eq|].
  unfold new_pool_handle, raise_if in H. case_bool_decide; cbn in H; simplify_eq; [done|].
  split; cbn; try done. rewrite fmap_app. apply NoDup_app. split_and!; [done|set_solver|apply NoDup_singleton].
Qed.

Lemma add_vm_keeps v : keeps (add_vm v).
Proof.
  apply keeps_guarded. intros h r h' _ H Hok. pose proof Hok as [H1 H2 H3 H4]. run_guard H. case_bool_decide as Hin; [by simplify_eq|].
  case_bool_decide; simplify_eq; [done|].
  split; cbn; try done. rewrite fmap_app. apply NoDup_app. split_and!; [done|set_solver|apply NoDup_singleton].
Qed.

Lemma register_networks_ok sw l h r h' :
  hyp_ok h → sw ∈ declared_switches h → l ⊆ networks sw →
  forA (register_network (sw_name sw)) l h = (r, h') → hyp_ok h'.
Proof.
  revert h. unfold forA. induction l as [|n l IH]; intros h Hok Hsw Hl H; cbn in H; [by injection H as <- <-|].
  apply act_bind_inv in H as [([] & h1 & H1 & H2)|(e & H1 & ->)]; unfold register_network in H1; run_guard H1;
    unfold new_network_handle, raise_if in H1; repeat (case_bool_decide; cbn in H1; simplify_eq); [|done..].
  eapply IH; [| | |exact H2]; [|done|set_solver]. destruct Hok as [H3 H4 H5 H6]. split; cbn; [done..|].
  intros x nh. rewrite lookup_insert_Some. intros [[<- <-]|[_ Hx]]; [|by apply H6]. split; [done|].
  exists sw. split_and!; [done..|]. apply Hl. destruct n. by left.
Qed.

Lemma throw_when_inv {W} b c args (w : W) r w' :
  throw_when b c args w = (r, w') → w' = w ∧ (r = Ok () → b = false).
Proof. unfold throw_when, lift, raise_if. destruct b; intros [= <- <-]; done. Qed.

Lemma add_switch_keeps sw : keeps (add_switch sw).
Proof.
  apply keeps_guarded. intros h r h' _ H Hok. unfold gets at 1 in H. unfold mbind at 1, act_bind at 1 in H.
  cbn [id] in H. apply act_bind_inv in H as [([] & h1 & H1 & H)|(e & H1 & ->)];
    apply throw_when_inv in H1 as [-> Hin]; [|done]. specialize (Hin eq_refl). apply bool_decide_eq_false in Hin.
  apply act_bind_inv in H as [([] & h2 & H2 & H)|(e & H2 & ->)]; unfold lift in H2; simplify_eq; [|done].
  apply act_bind_inv in H as [([] & h3 & H3 & H)|(e & H3 & ->)];
    apply throw_when_inv in H3 as [-> _]; [|done].
  unfold modify in H. unfold mbind at 1, act_bind at 1 in H.
  destruct Hok as [P1 P2 P3 P4].
  assert (∃ r2, forA (register_network (sw_name sw)) (networks sw)
    (MkHypervisor (build_switch h2) (declared_pools h2) (declared_switches h2 ++ [sw]) (declared_vms h2)
       (network_handles h2) (explicit_edges h2) (frozen h2)) = (r2, h')) as [r2 Hr].
  { apply act_bind_inv in H as [(a & h4 & H4 & [= <- <-])|(e & H4 & ->)]; by eexists. }
  eapply register_networks_ok; [| | |exact Hr]; [|apply elem_of_app; right; by left|done].
  split; cbn; [done| |done|].
  - rewrite fmap_app. apply NoDup_app. split_and!; [done|set_solver|apply NoDup_singleton].
  - intros x nh Hx. destruct (P4 x nh Hx) as (Hn & sw' & Hs & ?). split; [done|]. exists sw'. split; [|done].
    apply elem_of_app. by left.
Qed.

Lemma needs_keeps vm others : keeps (needs vm others).
Proof.
  apply keeps_forA. intros o. apply keeps_bind.
  - intros h r h' H. run_guard H. by simplify_eq.
  - intros _. apply keeps_guarded. intros h r h' _ H [H1 H2 H3 H4]. run_guard H. simplify_eq. by split.
Qed.

Lemma run_op_keeps o : keeps (run_op o).
Proof.
  destruct o; cbn.
  - apply keeps_bind; [apply add_pool_keeps|intros; apply keeps_ret].
  - apply keeps_bind; [apply add_switch_keeps|intros; apply keeps_ret].
  - apply keeps_bind; [apply add_vm_keeps|intros; apply keeps_ret].
  - apply needs_keeps.
Qed.

(** The container after any sequence of operations, whether they succeeded or
    raised. *)
Definition run_ops (ops : list hyp_op) h : Hypervisor Bld Com := foldl (λ h o, (run_op o h).2) h ops.

Lemma run_ops_ok ops h : hyp_ok h → hyp_ok (run_ops ops h).
Proof.
  revert h. induction ops as [|o ops IH]; intros h Hok; cbn; [done|]. apply IH.
  destruct (run_op o h) as [r h'] eqn:E. by apply (run_op_keeps o) in E as [E _]; apply E.
Qed.

Lemma new_hypervisor_ok bs : hyp_ok (new_hypervisor bs).
Proof. split; cbn; [constructor..|]. by intros x nh ?%lookup_empty_Some. Qed.

(** The container stays coherent.  Whatever is registered, in whatever
    order and with whatever failures, pool, switch and VM names are unique and
    every network handle belongs to a declared switch that carries that network;
    and once frozen the container never changes again. *)
Theorem container_coherent bs ops h o :
  hyp_ok (run_ops ops (new_hypervisor bs)) ∧ (frozen h = true → (run_op o h).2 = h).
Proof.
  split; [apply run_ops_ok, new_hypervisor_ok|]. intros Hf.
  destruct (run_op o h) as [r h'] eqn:E. by apply (run_op_keeps o) in E as [_ E]; apply E.
Qed.

(** ** Node names *)

Lemma app_inj_l s s1 s2 : s +:+ s1 = s +:+ s2 → s1 = s2.
Proof. intros H%(f_equal chars). rewrite !chars_app in H. by apply app_inv_head, chars_inj in H. Qed.

Lemma NoDup_prefixed {A} (f g : A → string) (pre : string) l :
  (∀ x, f x = pre +:+ g x) → NoDup (g <$> l) → NoDup (f <$> l).
Proof.
  intros Hf. induction l as [|x l IH]; cbn; [done|]. intros [Hx Hl]%NoDup_cons. apply NoDup_cons. split; [|auto].
  intros (y & Hy & Hin)%list_elem_of_fmap. apply Hx. rewrite !Hf in Hy. apply app_inj_l in Hy as ->.
  by apply list_elem_of_fmap_2.
Qed.

Lemma plan_nodes_perm h :
  node_name <$> plan_nodes h ≡ₚ
  ((λ p, "pool:" +:+ sp_name p) <$> declared_pools h) ++
  ((λ s, "network:" +:+ sw_name s) <$> declared_switches h) ++
  ((λ s, "sidecar:" +:+ sw_name s) <$> filter (λ s, needs_sidecar s = true) (declared_switches h)) ++
  ((λ v, "vm:" +:+ vm_name v) <$> declared_vms h).
Proof.
  unfold plan_nodes. rewrite !fmap_app, <-list_fmap_compose. f_equiv; [done|]. rewrite app_assoc. f_equiv.
  - induction (declared_switches h) as [|s l IH]; [done|]. cbn [fmap list_fmap concat]. rewrite fmap_app, IH.
    unfold switch_nodes. rewrite filter_cons. destruct (needs_sidecar s); case_decide; try done; cbn.
    constructor. by rewrite Permutation_middle.
  - rewrite fmap_imap, <-imap_const. done.
Qed.

Lemma switch_names_nodup h : NoDup (node_name <$> plan_nodes h) → NoDup (sw_name <$> declared_switches h).
Proof.
  rewrite plan_nodes_perm. intros (_ & _ & (Hnd & _)%NoDup_app)%NoDup_app.
  rewrite (list_fmap_compose sw_name (String.append "network:")) in Hnd. by apply NoDup_fmap_1 in Hnd.
Qed.

Lemma plan_names_nodup h : hyp_ok h → NoDup (node_name <$> plan_nodes h).
Proof.
  intros [H1 H2 H3 _]. rewrite plan_nodes_perm.
  assert (∀ {X Y} (f : X → string) (g : Y → string) (p q : ascii) (l : list X) (l' : list Y),
    p ≠ q → (∀ x, ∃ s, f x = String p s) → (∀ y, ∃ s, g y = String q s) → ∀ z, z ∈ f <$> l → z ∉ g <$> l') as Hd.
  { intros X Y f g p q l l' Hpq Hf Hg z (x & -> & _)%list_elem_of_fmap (y & Hy & _)%list_elem_of_fmap.
    destruct (Hf x) as [s Hs], (Hg y) as [t Ht]. rewrite Hs, Ht in Hy. by simplify_eq. }
  assert (NoDup (sw_name <$> filter (λ s, needs_sidecar s = true) (declared_switches h))) as H4 by (by apply NoDup_fmap_filter).
  apply NoDup_app. split_and!; [by eapply NoDup_prefixed| |apply NoDup_app; split_and!;
    [by eapply NoDup_prefixed| |apply NoDup_app; split_and!; [by eapply NoDup_prefixed| |by eapply NoDup_prefixed]]].
  - intros z Hz. rewrite !not_elem_of_app. split_and!; revert z Hz; (eapply Hd; [|intros; eexists; reflexivity..]; done).
  - intros z Hz. rewrite !not_elem_of_app. split_and!; revert z Hz; (eapply Hd; [|intros; eexists; reflexivity..]; done).
  - eapply Hd; [|intros; eexists; reflexivity..]; done.
Qed.
End Container.
(** ** What validation and assembly can raise *)
Section Refusals.
Context {Bld Com : Type}.
Implicit Types (h : Hypervisor Bld Com).

(** Raises nothing but [ValueError] (or fails an internal assertion). *)
Definition plain {A} (r : res A) : Prop :=
  ∀ e, r = Raise e → exn_class e ∈ [ValueError; AssertionError].

Lemma plain_ok {A} (a : A) : plain (Ok a). Proof. by intros e. Qed.
Lemma plain_raise {A} c args : c ∈ [ValueError; AssertionError] → plain (A:=A) (raise c args).
Proof. intros Hc e [= <-]. done. Qed.
Lemma plain_if b args : plain (raise_when b ValueError args).
Proof. destruct b; [|apply plain_ok]. intros e [= <-]. by left. Qed.
Lemma plain_bind {A B} (m : res A) (k : A → res B) : plain m → (∀ a, plain (k a)) → plain (m ≫= k).
Proof. intros Hm Hk e [?|(a & _ & ?)]%bind_Raise; [by apply Hm|by eapply Hk]. Qed.
Lemma plain_foldM {A S} (f : S → A → res S) s l : (∀ s x, plain (f s x)) → plain (foldM f s l).
Proof. intros Hf. revert s. induction l as [|x l IH]; intros s; [apply plain_ok|]. by apply plain_bind. Qed.

Create HintDb plain.
#[local] Hint Resolve plain_ok plain_if plain_bind plain_foldM : plain.

(** Walks through binds, loops and case distinctions. *)
Ltac solve_plain :=
  repeat first
    [ apply plain_bind; [|intros] | apply plain_foldM; intros | apply plain_if | apply plain_ok
    | apply plain_raise; by set_solver | progress cbv zeta | progress case_match | done ].

Lemma os_drive_plain s : plain (os_drive s).
Proof. unfold os_drive. case_match; [|apply plain_ok]. apply plain_raise. set_solver. Qed.
Lemma addr_add_plain a k : plain (addr_add a k).
Proof. unfold addr_add. case_decide; [apply plain_ok|apply plain_raise; set_solver]. Qed.
Lemma ip_network_plain s : plain (ip_network_strict s).
Proof.
  unfold ip_network_strict. destruct (parse_interface s) as [[]|]; [case_decide|];
    [apply plain_ok|apply plain_raise; set_solver..].
Qed.
Lemma interface_plain s : plain (IPv4Interface s).
Proof. unfold IPv4Interface. case_match; [apply plain_ok|apply plain_raise; set_solver]. Qed.
Lemma validate_name_plain s k : plain (validate_name s k).
Proof. unfold validate_name. solve_plain. Qed.

Lemma plain_cond {A} (b : bool) (m : res A) (x : A) : plain m → plain (if b then m else mret x).
Proof. destruct b; [done|intros _; apply plain_ok]. Qed.

Lemma check_static_plain sw a : plain (check_static sw a).
Proof.
  unfold check_static, host. apply plain_bind; [apply plain_bind; [apply interface_plain|intros; apply plain_ok]|].
  intros ip. apply plain_bind; [apply ip_network_plain|]. intros n. destruct (IPv4Address ip); [|apply plain_ok].
  destruct (negb _); [apply plain_ok|]. do 2 (case_decide; [apply plain_ok|]).
  apply plain_bind; [apply plain_cond, plain_bind; [apply addr_add_plain|intros; apply plain_ok]|].
  intros []; [apply plain_ok|].
  apply plain_bind; [apply plain_cond, plain_bind; [apply addr_add_plain|intros; apply plain_ok]|].
  intros []; [apply plain_ok|].
  apply plain_bind; [apply plain_cond, plain_bind; [apply addr_add_plain|intros; apply plain_bind;
    [apply addr_add_plain|intros; apply plain_ok]]|].
  intros []; apply plain_ok.
Qed.

Lemma address_step_plain owner st s : plain (address_step owner st s).
Proof.
  unfold address_step. destruct st. apply plain_bind.
  - unfold check_site. destruct (_ !! _); [|apply plain_ok]. destruct (n_addr _) as [[]|]; try apply plain_ok.
    apply check_static_plain.
  - intros []; [apply plain_ok..|]. case_match; apply plain_ok.
Qed.

Lemma validate_plan_plain switches pools (vms : list (VMRecipe Bld Com)) :
  plain (validate_hypervisor_plan switches pools vms).
Proof.
  unfold validate_hypervisor_plan, validate_vm_plan, validate_addressing, check_nic_network, check_os_pool. cbv zeta.
  repeat first [ apply plain_bind; [|intros] | apply plain_foldM; intros | apply plain_if
    | apply validate_name_plain | apply os_drive_plain | apply address_step_plain | apply plain_ok ].
  match goal with |- plain (let '(_, _) := ?st in _) => destruct st end. apply plain_if.
Qed.

Definition assembly_classes : list exc_class := [ValueError; AssertionError; OrchestratorError].

Lemma link_raise (st : assembly (Bld:=Bld) (Com:=Com)) a b e : link st a b = Raise e → exn_class e = ValueError.
Proof.
  unfold link, setdefault_edge, ordering_edge, new_edge. intros H.
  repeat (apply bind_Raise in H as [H|(? & _ & H)]); try done; apply raise_if_Raise in H as [_ ->]; done.
Qed.

Lemma foldM_raise_class {A S} (P : exc_class → Prop) (f : S → A → res S) s l e :
  (∀ s x e, f s x = Raise e → P (exn_class e)) → foldM f s l = Raise e → P (exn_class e).
Proof. intros Hf (l1 & x & l2 & s' & _ & _ & Hx)%foldM_Raise. by eapply Hf. Qed.

Lemma assemble_raise h e : assemble h = Raise e → exn_class e ∈ assembly_classes.
Proof.
  assert (∀ c, c = ValueError → c ∈ assembly_classes) as Hv by (intros c ->; set_solver).
  unfold assemble. intros [H|(st1 & _ & [H|(st2 & _ & H)]%bind_Raise)]%bind_Raise;
    revert H; apply (foldM_raise_class (λ c, c ∈ assembly_classes)).
  - intros st sw e'. unfold assemble_switch. destruct (needs_sidecar sw); [|done].
    destruct (head _); [|intros [= <-]; set_solver].
    intros [?|(s' & _ & ?)]%bind_Raise; eapply Hv, link_raise; done.
  - intros st [i v] e'. unfold assemble_vm. intros [H|(os & _ & [H|(s1 & _ & [H|(s2 & _ & H)]%bind_Raise)]%bind_Raise)]%bind_Raise.
    + apply os_drive_plain in H. set_solver.
    + by eapply Hv, link_raise.
    + apply Hv. revert H. apply (foldM_raise_class (λ c, c = ValueError)). intros; by eapply link_raise.
    + apply Hv. revert H. apply (foldM_raise_class (λ c, c = ValueError)). intros s x e0. unfold assemble_nic.
      intros [?|(s' & _ & H)]%bind_Raise; [by eapply link_raise|]. destruct (_ !! _); [|done].
      destruct (needs_sidecar _); [|done]. by eapply link_raise.
  - intros st x e' H. by eapply Hv, link_raise.
Qed.

Lemma new_plan_cases name h r h' :
  new_plan name h = (r, h') →
  (∃ e, r = Raise e ∧ h' = h ∧ exn_class e ∈ [ValueError; AssertionError]) ∨
  (frozen h' = true ∧ plan_nodes h' = plan_nodes h ∧ (∀ a b, plan_edge h' a b ↔ plan_edge h a b) ∧
   name ≠ "" ∧ validate_hypervisor_plan (declared_switches h) (declared_pools h) (declared_vms h) = Ok () ∧
   r = (g ← assemble_graph name h'; Ok (MkPlan name h' g))).
Proof.
  unfold new_plan. intros [([] & h1 & H1 & H)|(e & H1 & ->)]%act_bind_inv.
  2:{ left. exists e. unfold throw_when, lift, raise_if in H1. case_bool_decide; simplify_eq. split_and!; [done..|]. set_solver. }
  unfold throw_when, lift, raise_if in H1. case_bool_decide as Hn; [done|]. injection H1 as <-.
  unfold gets at 1 in H. unfold mbind at 1, act_bind at 1 in H. cbn [id] in H.
  apply act_bind_inv in H as [([] & h2 & H2 & H)|(e & H2 & ->)]; unfold lift in H2; simplify_eq.
  2:{ left. exists e. split_and!; [done..|]. by eapply validate_plan_plain. }
  right. unfold freeze, modify, gets, lift in H. unfold mbind, act_bind in H. cbn [id] in H.
  set (h'' := MkHypervisor _ _ _ _ _ _ true) in H.
  assert ((g ← assemble_graph name h''; Ok (MkPlan name h'' g)) = r ∧ h' = h'') as [<- ->].
  { destruct (assemble_graph name h'') as [g|e]; cbn in H; by injection H as <- <-. }
  split_and!; try done. intros a b. split; destruct 1; econstructor; done.
Qed.

(** C38: the graph a plan is frozen into is the declared one.  Its nodes are the
    pools, switches, sidecars and VMs of the container, and its edges are exactly
    the implied ones (a VM on its disks' pools, its NICs' switches and those
    switches' sidecars; a sidecar on its switch and the first pool) and the
    explicit [needs]; the container is frozen, and the declaration is valid. *)
Theorem plan_graph_faithful name h p h' :
  new_plan name h = (Ok p, h') →
  frozen h' = true ∧ p_hypervisor p = h' ∧ bg_nodes (p_graph p) = plan_nodes h ∧
  (∀ a b, edge_rel (bg_edges (p_graph p)) a b ↔ plan_edge h a b) ∧
  validate_hypervisor_plan (declared_switches h) (declared_pools h) (declared_vms h) = Ok ().
Proof.
  intros [(e & ? & _)|(Hf & Hn & He & _ & Hv & Hr)]%new_plan_cases; [done|].
  symmetry in Hr. apply bind_Ok in Hr as (g & (st & [Hs Hse]%assemble_spec & Hg)%bind_Ok & [= <-]).
  apply new_build_graph_ok in Hg. split_and!; try done; cbn.
  - by rewrite (go_nodes _ _ _ _ Hg), Hs.
  - intros a b. rewrite (go_edges _ _ _ _ Hg), Hse, He; [done|]. apply switch_names_nodup. rewrite <-Hs. apply (gd_nodup _ _ _ (go_decl _ _ _ _ Hg)).
Qed.

(** A refused plan is refused for a reason of its own.  From a coherent
    container, [Plan] never reports a duplicate node; a reported cycle is a closed
    walk of the plan's edges; a dangling dependency names an endpoint of one of
    the plan's edges that no node has. *)
Theorem plan_refusals_justified name h e h' :
  hyp_ok h → new_plan name h = (Raise e, h') →
  exn_class e ≠ DuplicateNodeError ∧
  (exn_class e = GraphCycleError → is_cycle (plan_edge h) (exn_args e)) ∧
  (exn_class e = DanglingDependencyError →
     ∃ a b n, plan_edge h a b ∧ (n = a ∨ n = b) ∧ n ∉ node_name <$> plan_nodes h ∧ n ∈ exn_args e).
Proof.
  intros Hok [(e' & [= ->] & _ & Hc)|(Hf & Hn & He & Hname & _ & Hr)]%new_plan_cases.
  { rewrite !elem_of_cons, elem_of_nil in Hc. destruct Hc as [Hc|[Hc|[]]]; rewrite Hc; done. }
  symmetry in Hr. apply bind_Raise in Hr as [[Ha|(st & [Hs Hse]%assemble_spec & Hg)]%bind_Raise|(g & _ & ?)]; [| |done].
  { apply assemble_raise in Ha. unfold assembly_classes in Ha. rewrite !elem_of_cons, elem_of_nil in Ha.
    destruct Ha as [Ha|[Ha|[Ha|[]]]]; rewrite Ha; done. }
  assert (NoDup (sw_name <$> declared_switches h')) as Hsw by (apply switch_names_nodup; rewrite Hn; by apply plan_names_nodup).
  specialize (Hse Hsw). destruct (new_build_graph_cases name st.1 st.2) as [(g & Hg' & _)|(e' & He' & Hge)]; [congruence|].
  rewrite Hg in He'. injection He' as <-. rewrite Hs, Hn in Hge. destruct Hge as [|l1 n l2 Hl Hin|ed Hin Heq|ed n role Hin Hor Hnot|c Hc].
  - done.
  - exfalso. pose proof (plan_names_nodup h Hok) as Hnd. rewrite Hl, fmap_app in Hnd. apply NoDup_app in Hnd as (_ & Hd & _).
    apply (Hd _ Hin). cbn. by left.
  - done.
  - split_and!; [done..|]. intros _. exists (dependent ed), (dependency ed), n. split_and!; [|done|done|cbn; set_solver].
    apply He, Hse. by exists ed.
  - split_and!; [done| |done]. intros _. cbn. eapply is_cycle_impl; [|exact Hc]. intros a b Hab. by apply He, Hse.
Qed.
End Refusals.

(** ** A plan written out *)
Module PlanDemo.

Definition sw1 : Switch := MkSwitch "sw1" [MkNetwork "lan"] "10.0.0.0/24" None false (Some (MkSidecar true true false None)).
Definition vm (name : string) : VMRecipe () () :=
  MkRecipe (MkVMSpec name [CPU 1 false; Memory 512; OSDrive (MkDisk (MkPoolHandle "p1") 10);
    Nic (MkIface (MkNetworkHandle "lan" "sw1") (Some DHCPAddr))] "bios") () ().

(** A repeated pool is refused and changes nothing. *)
Definition ops : list (hyp_op (Bld:=()) (Com:=())) :=
  [OpPool (MkStoragePool "p1" 100); OpSwitch sw1; OpVm (vm "web"); OpVm (vm "db"); OpPool (MkStoragePool "p1" 5);
   OpNeeds "web" [HVM "db"]].
Definition declared : Hypervisor () () := run_ops ops (new_hypervisor None).
(** The same, with the two VMs needing each other. *)
Definition circular : Hypervisor () () := run_ops [OpNeeds "db" [HVM "web"]] declared.

Lemma container_coherent_witness :
  hyp_ok declared ∧ length (declared_pools declared) = 1 ∧ (run_op (OpVm (vm "late")) (freeze declared).2).2 = (freeze declared).2.
Proof.
  destruct (container_coherent None ops (freeze declared).2 (OpVm (vm "late"))) as [H1 H2].
  split; [exact H1|]. split; [vm_compute; reflexivity|]. apply H2. vm_compute. reflexivity.
Defined.

Lemma plan_graph_faithful_witness :
  match new_plan "demo" declared with
  | (Ok p, h') => frozen h' = true ∧ node_name <$> bg_nodes (p_graph p) =
      ["pool:p1"; "network:sw1"; "sidecar:sw1"; "vm:web"; "vm:db"] ∧
      edge_rel (bg_edges (p_graph p)) "vm:web" "vm:db" ∧ edge_rel (bg_edges (p_graph p)) "vm:web" "sidecar:sw1"
  | (Raise _, _) => False
  end.
Proof.
  destruct (new_plan "demo" declared) as [[p|e] h'] eqn:E; [|vm_compute in E; discriminate].
  destruct (plan_graph_faithful "demo" declared p h' E) as (H1 & _ & H3 & H4 & _).
  split; [exact H1|]. split; [rewrite H3; vm_compute; reflexivity|].
  split; apply H4; [apply pe_explicit; vm_compute; left|].
  apply (pe_nic_sidecar declared (vm "web") (MkIface (MkNetworkHandle "lan" "sw1") (Some DHCPAddr)) sw1); [vm_compute; left|vm_compute; left|vm_compute; left|reflexivity|reflexivity].
Defined.

Lemma plan_refusals_justified_witness :
  match new_plan "demo" circular with
  | (Raise e, _) => exn_class e = GraphCycleError ∧ is_cycle (plan_edge circular) (exn_args e)
  | (Ok _, _) => False
  end.
Proof.
  destruct (new_plan "demo" circular) as [[p|e] h'] eqn:E; [vm_compute in E; discriminate|].
  assert (exn_class e = GraphCycleError) as Hc by (vm_compute in E; injection E as <- _; reflexivity).
  split; [exact Hc|].
  destruct (plan_refusals_justified "demo" circular e h') as (_ & H & _).
  - apply run_ops_ok, run_ops_ok, new_hypervisor_ok.
  - exact E.
  - exact (H Hc).
Defined.
End PlanDemo.
