(* ===== verification/Executor.v ===== *)
(** * The executor's walks ([orchestrator/executor.py])

    A walk dispatches each wave to the worker pool and gates the next wave on it.
    What a hook does is a relation from nodes to outcomes; [run_hook] below adds
    the ledger stamp around it. *)

From S2P Require Import Prelude Exceptions Eff BuildGraph Kahn GraphSpec Parallel.
From stdpp Require Import options.

Section Walk.
Context {V : Type} (hook : V → res () → Prop) (jobs : option Z).

(** [for wave in waves: parallel_map(hook, wave, jobs=ctx.jobs)] *)
Inductive walk : list (list V) → list (ev V ()) → res () → Prop :=
  | walk_done : walk [] [] (Ok ())
  | walk_stop wave rest tr e :
      parallel_map hook jobs wave tr (Raise e) → walk (wave :: rest) tr (Raise e)
  | walk_next wave rest tr xs tr' r :
      parallel_map hook jobs wave tr (Ok xs) → walk rest tr' r → walk (wave :: rest) (tr ++ tr') r.

Lemma starts_app (t1 t2 : list (ev V ())) : starts (t1 ++ t2) = starts t1 ++ starts t2.
Proof. apply omap_app. Qed.
Lemma finishes_app (t1 t2 : list (ev V ())) : finishes (t1 ++ t2) = finishes t1 ++ finishes t2.
Proof. apply omap_app. Qed.

Lemma ok_zip (l : list V) (xs : list ()) :
  length xs = length l → zip l (Ok (E:=exn) <$> xs) = (λ v, (v, Ok ())) <$> l.
Proof.
  revert xs. induction l as [|v l IH]; intros [|[] xs] Hl; try done. cbn in *. by rewrite IH by lia.
Qed.

(** What a walk did: everything it started it drained; on success every node of
    every wave completed once; on failure the exception is some node's. *)
Lemma walk_outcome ws tr r :
  walk ws tr r →
  starts tr ≡ₚ (finishes tr).*1 ∧ starts tr ⊆+ concat ws ∧
  match r with
  | Ok _ => finishes tr ≡ₚ (λ v, (v, Ok ())) <$> concat ws
  | Raise e => ∃ v, (v, Raise e) ∈ finishes tr ∧ hook v (Raise e)
  end.
Proof.
  induction 1 as [|w rest tr e (H1 & H2 & H3 & a & Ha)%parallel_map_outcome
    |w rest tr xs tr' r (H1 & H2 & H3 & H4 & H5 & H6)%parallel_map_outcome _ (I1 & I2 & I3)].
  - done.
  - split_and!; [done|by apply submseteq_inserts_r|]. exists a. split; [done|]. rewrite Forall_forall in H3.
    by apply (H3 (a, Raise e)).
  - rewrite ok_zip in H6 by done. rewrite starts_app, finishes_app, fmap_app. cbn [concat].
    split_and!; [by rewrite H1, I1|by apply submseteq_app|]. destruct r as [u|e].
    + by rewrite H6, I3, fmap_app.
    + destruct I3 as (v & Hv & ?). exists v. split; [|done]. apply elem_of_app. by right.
Qed.

(** A node of wave [k] starts only after every node of the earlier waves has
    completed. *)
Lemma walk_gated ws tr r :
  walk ws tr r → NoDup (concat ws) →
  ∀ i v, tr !! i = Some (Start v) → ∀ j k w w' u,
    ws !! k = Some w → v ∈ w → j < k → ws !! j = Some w' → u ∈ w' →
    Finish u (Ok ()) ∈ take i tr.
Proof.
  induction 1 as [|w0 rest tr e Hm|w0 rest tr xs tr' r Hm Hw IH]; intros Hnd i v Hi j k w w' u Hk Hv Hjk Hj Hu.
  - done.
  - exfalso. apply parallel_map_outcome in Hm as (_ & Hsub & _). destruct k as [|k]; [lia|]. cbn in Hk.
    cbn in Hnd. apply NoDup_app in Hnd as (_ & Hd & _). apply (Hd v).
    + eapply elem_of_submseteq; [|exact Hsub]. apply list_elem_of_omap. exists (Start v). split; [|done].
      by eapply list_elem_of_lookup_2.
    + apply elem_of_concat_lookup. by exists k, w.
  - destruct k as [|k]; [lia|]. cbn in Hk. cbn in Hnd. apply NoDup_app in Hnd as (_ & Hd & Hnd).
    apply parallel_map_outcome in Hm as (_ & Hsub & _ & Hlen & _ & Hfin).
    destruct (decide (i < length tr)) as [Hlt|Hge].
    { exfalso. rewrite lookup_app_l in Hi by done. apply (Hd v).
      - eapply elem_of_submseteq; [|exact Hsub]. apply list_elem_of_omap. exists (Start v). split; [|done].
        by eapply list_elem_of_lookup_2.
      - apply elem_of_concat_lookup. by exists k, w. }
    rewrite lookup_app_r in Hi by lia. rewrite take_app_ge by lia. apply elem_of_app.
    destruct j as [|j]; cbn in Hj.
    + left. injection Hj as ->.
      assert ((u, Ok ()) ∈ finishes tr) as Hf.
      { rewrite Hfin, ok_zip by done. apply list_elem_of_fmap. by exists u. }
      apply list_elem_of_omap in Hf as ([a|a b] & Hin & [= -> ->]). done.
    + right. eapply (IH Hnd (i - length tr) v Hi j k); [done|done|lia|done|done].
Qed.
End Walk.

(** ** Gating by the graph *)
Section Gate.
Context `{Node V} (hook : V → res () → Prop) (jobs : option Z).

Lemma name_in_wave (ws : list (list V)) k names x :
  (wave_names <$> ws) !! k = Some names → x ∈ names → ∃ w v, ws !! k = Some w ∧ v ∈ w ∧ node_name v = x.
Proof.
  intros (w & -> & Hw)%list_lookup_fmap_Some Hx. unfold wave_names in Hx.
  apply list_elem_of_fmap in Hx as (v & -> & Hv). by exists w, v.
Qed.

(** In a walk of the waves of a relation [R], a node's dependencies complete
    before it starts. *)
Lemma walk_respects ns R (ws : list (list V)) tr r :
  waves_ok ns R (wave_names <$> ws) → walk hook jobs ws tr r →
  ∀ i v d, tr !! i = Some (Start v) → R (node_name v) d →
    ∃ u, node_name u = d ∧ Finish u (Ok ()) ∈ take i tr.
Proof.
  intros Hok Hw i v d Hi HR.
  assert (NoDup (concat ws)) as Hnd.
  { pose proof (wo_nodup _ _ _ Hok) as Hn. rewrite concat_wave_names in Hn. by eapply NoDup_fmap_1. }
  destruct (walk_outcome hook jobs _ _ _ Hw) as (_ & Hsub & _).
  assert (v ∈ concat ws) as (k & w & Hk & Hv)%elem_of_concat_lookup.
  { eapply elem_of_submseteq; [|exact Hsub]. apply list_elem_of_omap. exists (Start v). split; [|done].
    by eapply list_elem_of_lookup_2. }
  destruct (wo_level _ _ _ Hok k (wave_names w) (node_name v) d) as (j & ns' & Hj & Hns & Hd).
  { by rewrite list_lookup_fmap, Hk. }
  { unfold wave_names. by apply list_elem_of_fmap_2. }
  { done. }
  destruct (name_in_wave ws j ns' d Hns Hd) as (w' & u & Hw' & Hu & Hun). exists u. split; [done|].
  by eapply (walk_gated hook jobs ws tr r Hw Hnd i v Hi j k w w').
Qed.

(** C9: a run brings nodes up in dependency order.  In [realize_graph], under
    any worker count and interleaving, a node's hook starts only after the hooks
    of everything it depends on have returned; every started hook finishes before
    the walk ends; on success every node was realized exactly once, and on failure
    the walk raises a hook's exception. *)
Theorem realize_walk_gated name nodes edges g tr r :
  new_build_graph name nodes edges = Ok g → walk hook jobs (waves g) tr r →
  (∀ i v e, tr !! i = Some (Start v) → e ∈ edges → dependent e = node_name v →
     ∃ u, node_name u = dependency e ∧ Finish u (Ok ()) ∈ take i tr) ∧
  starts tr ≡ₚ (finishes tr).*1 ∧ starts tr ⊆+ nodes ∧
  match r with
  | Ok _ => finishes tr ≡ₚ (λ v, (v, Ok ())) <$> nodes
  | Raise e => ∃ v, (v, Raise e) ∈ finishes tr ∧ hook v (Raise e)
  end.
Proof.
  intros Hg%new_build_graph_ok Hw. pose proof (graph_waves_perm _ _ _ _ Hg) as Hperm.
  destruct (walk_outcome hook jobs _ _ _ Hw) as (H1 & H2 & H3). split_and!.
  - intros i v e Hi He Hd. eapply (walk_respects _ _ _ _ _ (go_waves _ _ _ _ Hg) Hw); [done|].
    exists e. by rewrite Hd.
  - done.
  - by rewrite <-Hperm.
  - destruct r; [by rewrite <-Hperm|done].
Qed.

(** A build waits for what its cache key depends on: in [materialize_graph]
    a node's hook starts only after those of its cacheable dependencies have
    returned; every started hook finishes before the walk ends, and on success
    every node was materialized exactly once. *)
Theorem materialize_walk_gated name nodes edges g tr r :
  new_build_graph name nodes edges = Ok g → walk hook jobs (content_waves g) tr r →
  (∀ i v e, tr !! i = Some (Start v) → e ∈ edges → affects_cache_key e = true → dependent e = node_name v →
     ∃ u, node_name u = dependency e ∧ Finish u (Ok ()) ∈ take i tr) ∧
  starts tr ≡ₚ (finishes tr).*1 ∧ starts tr ⊆+ nodes ∧
  match r with
  | Ok _ => finishes tr ≡ₚ (λ v, (v, Ok ())) <$> nodes
  | Raise e => ∃ v, (v, Raise e) ∈ finishes tr ∧ hook v (Raise e)
  end.
Proof.
  intros Hg%new_build_graph_ok Hw. pose proof (graph_cwaves_perm _ _ _ _ Hg) as Hperm.
  destruct (walk_outcome hook jobs _ _ _ Hw) as (H1 & H2 & H3). split_and!.
  - intros i v e Hi He Ha Hd. eapply (walk_respects _ _ _ _ _ (go_cwaves _ _ _ _ Hg) Hw); [done|].
    exists e. rewrite Hd. split_and!; [|done|done]. unfold content_edges. by apply list_elem_of_filter.
  - done.
  - by rewrite <-Hperm.
  - destruct r; [by rewrite <-Hperm|done].
Qed.
End Gate.

(** ** Two nodes, one needing the other, brought up by one worker; the second
    fails. *)
Module WalkDemo.
#[local] Instance name_node : Node string := {| node_name := id; node_kind := λ _, "vm" |}.

Definition hook (n : string) (r : res ()) : Prop := r = if decide (n = "web") then raise OSError ["web"] else Ok ().
Definition boom : exn := Exn OSError ["web"].
Definition bake : Edge := MkEdge "web" "db" KIND_ORDERING BAKE.

Definition demo : list (ev string ()) := [Start "db"; Finish "db" (Ok ()); Start "web"; Finish "web" (Raise boom)].

Lemma demo_walk : walk hook (Some 1%Z) [["db"]; ["web"]] demo (Raise boom).
Proof.
  apply (walk_next hook (Some 1%Z) ["db"] [["web"]] [Start "db"; Finish "db" (Ok ())] [()]
    [Start "web"; Finish "web" (Raise boom)] (Raise boom)).
  - apply pm_inline; [done|done|]. by apply inline_ok; [|constructor].
  - apply walk_stop. apply pm_inline; [done|done|]. by apply inline_raise.
Qed.

Definition demo_graph (r : res (BuildGraph string)) : BuildGraph string :=
  match r with Ok g => g | Raise _ => MkBuildGraph "" [] [] ∅ ∅ ∅ [] [] end.
Definition g : BuildGraph string := demo_graph (new_build_graph "p" ["web"; "db"] [bake]).

Lemma realize_walk_gated_witness :
  (∃ u, u = "db" ∧ Finish u (Ok ()) ∈ take 2 demo) ∧ ∃ v, (v, Raise boom) ∈ finishes demo ∧ hook v (Raise boom).
Proof.
  destruct (realize_walk_gated hook (Some 1%Z) "p" ["web"; "db"] [bake] g demo (Raise boom)) as (H1 & _ & _ & H4).
  - vm_compute. reflexivity.
  - assert (waves g = [["db"]; ["web"]]) as -> by (vm_compute; reflexivity). exact demo_walk.
  - split; [|exact H4]. apply (H1 2 "web" bake); [reflexivity|left|reflexivity].
Defined.

Lemma materialize_walk_gated_witness :
  (∃ u, u = "db" ∧ Finish u (Ok ()) ∈ take 2 demo) ∧ ∃ v, (v, Raise boom) ∈ finishes demo ∧ hook v (Raise boom).
Proof.
  destruct (materialize_walk_gated hook (Some 1%Z) "p" ["web"; "db"] [bake] g demo (Raise boom)) as (H1 & _ & _ & H4).
  - vm_compute. reflexivity.
  - assert (content_waves g = [["db"]; ["web"]]) as -> by (vm_compute; reflexivity). exact demo_walk.
  - split; [|exact H4]. apply (H1 2 "web" bake); [reflexivity|left|reflexivity|reflexivity].
Defined.
End WalkDemo.
