(* ===== verification/Sidecar.v ===== *)
(** * The sidecar's configuration files ([networks/sidecar.py])

    Pure renderers over a switch and the plan's VMs, and the parser of the lease
    file the sidecar writes. *)

From S2P Require Import Prelude Exceptions PyBytes Ipv4 Devices.
From stdpp Require Import options.

Definition LEASEFILE : string := "/var/lib/misc/dnsmasq.leases".
Definition SIDECAR_DNSMASQ_CONF : string := "/etc/dnsmasq.conf".
Definition SIDECAR_SWITCH_NIC : string := "eth0".
Definition SIDECAR_UPLINK_NIC : string := "eth1".
Definition nl : string := String "010" "".
Definition quote : string := String "034" "".

Definition uplink_network_name (sw : Switch) : string := "__uplink__" +:+ sw_name sw.

(** [_sidecar]: the renderers are called on switches that carry one. *)
Definition the_sidecar (sw : Switch) : res Sidecar :=
  match sidecar sw with Some sc => mret sc | None => raise AssertionError [sw_name sw] end.

(** The sidecar's NICs: a network name and a static address or DHCP. *)
Definition sidecar_nic_specs (sw : Switch) : res (list (string * option string)) :=
  sc ← the_sidecar sw;
  match networks sw with
  | [] => raise ValueError [sw_name sw]
  | net :: _ =>
      ip ← sidecar_ip sw;
      if sc_nat sc then
        up ← (match sc_addr sc with Some a => h ← host a; mret (Some h) | None => mret None end : res (option string));
        mret [(net_name net, Some ip); (uplink_network_name sw, up)]
      else mret [(net_name net, Some ip)]
  end.

Definition render_sidecar_interfaces (sw : Switch) : res string :=
  sc ← the_sidecar sw;
  subnet ← sw_network sw;
  ip ← sidecar_ip sw;
  let base := ["auto lo"; "iface lo inet loopback"; ""; "auto " +:+ SIDECAR_SWITCH_NIC;
    "iface " +:+ SIDECAR_SWITCH_NIC +:+ " inet static"; "    address " +:+ ip;
    "    netmask " +:+ print_ip (netmask subnet); ""] in
  up ← (if sc_nat sc then
    match sc_addr sc with
    | Some a =>
        c ← static_cidr a None;
        iface ← IPv4Interface c;
        mret (["auto " +:+ SIDECAR_UPLINK_NIC; "iface " +:+ SIDECAR_UPLINK_NIC +:+ " inet static";
          "    address " +:+ print_ip iface.1;
          "    netmask " +:+ print_ip (netmask (interface_network iface))] ++
          match gw a with Some g => ["    gateway " +:+ g] | None => [] end ++ [""])
    | None => mret ["auto " +:+ SIDECAR_UPLINK_NIC; "iface " +:+ SIDECAR_UPLINK_NIC +:+ " inet dhcp"; ""]
    end
    else mret [] : res (list string));
  mret (join nl (base ++ up)).

Section Dnsmasq.
Context {Bld Com : Type}.
Variable mac_for : string → nat → string.

(** The lines for one NIC of one VM. *)
Definition nic_lines (on_switch : list string) (sc : Sidecar) (vm : string) (idx : nat) (nic : NetworkIface)
    : res (list string) :=
  if decide (nh_name (n_network nic) ∈ on_switch) then
    match n_addr nic with
    | Some (Static a) =>
        if sc_dns sc then
          h ← host a;
          mret ["host-record=" +:+ vm +:+ "." +:+ nh_name (n_network nic) +:+ "," +:+ h]
        else mret []
    | Some DHCPAddr =>
        mret (if sc_dhcp sc then ["dhcp-host=" +:+ mac_for vm idx +:+ "," +:+ vm] else [])
    | None => mret []
    end
  else mret [].

Definition vm_lines (on_switch : list string) (sc : Sidecar) (v : VMRecipe Bld Com) : res (list string) :=
  foldM (λ acc '(idx, nic), l ← nic_lines on_switch sc (vm_name v) idx nic; mret (acc ++ l)) []
    (imap pair (nics (spec v))).

Definition render_dnsmasq_conf (sw : Switch) (vms : list (VMRecipe Bld Com)) : res string :=
  sc ← the_sidecar sw;
  let l1 := if sc_dhcp sc then
    ["dhcp-leasefile=" +:+ LEASEFILE; "dhcp-authoritative"; "interface=" +:+ SIDECAR_SWITCH_NIC; "bind-interfaces"]
    else [] in
  let l2 := if sc_dns sc then [] else ["port=0"] in
  let l3 := match sc_addr sc with
    | Some a => if sc_dns sc && bool_decide (dns a ≠ []) then "no-resolv" :: ((λ s, "server=" +:+ s) <$> dns a) else []
    | None => [] end in
  l4 ← (if sc_dhcp sc then
    subnet ← sw_network sw;
    lo ← addr_add (network_address subnet) DHCP_RANGE_LO;
    hi ← addr_add (network_address subnet) DHCP_RANGE_HI;
    ip ← sidecar_ip sw;
    mret ["dhcp-range=" +:+ print_ip lo +:+ "," +:+ print_ip hi +:+ "," +:+ print_ip (netmask subnet) +:+ ",12h";
      if sc_nat sc then "dhcp-option=option:router," +:+ ip else "dhcp-option=3";
      if sc_dns sc then "dhcp-option=option:dns-server," +:+ ip else "dhcp-option=6"]
    else mret [] : res (list string));
  let l5 := if sc_dns sc then
    match last (networks sw) with Some n => ["domain=" +:+ net_name n +:+ "," +:+ cidr sw] | None => [] end
    else [] in
  l6 ← foldM (λ acc v, l ← vm_lines (net_name <$> networks sw) sc v; mret (acc ++ l)) [] vms;
  mret (join nl (["# rendered by testrange — sidecar dnsmasq config"] ++ l1 ++ l2 ++ l3 ++ l4 ++ l5 ++ l6) +:+ nl).
End Dnsmasq.

Definition render_nftables_ruleset (sw : Switch) : res string :=
  sc ← the_sidecar sw;
  mret (if sc_nat sc then
    "flush ruleset" +:+ nl +:+ "table ip nat {" +:+ nl +:+ "    chain postrouting {" +:+ nl +:+
    "        type nat hook postrouting priority srcnat;" +:+ nl +:+
    "        oifname " +:+ quote +:+ SIDECAR_UPLINK_NIC +:+ quote +:+ " masquerade" +:+ nl +:+
    "    }" +:+ nl +:+ "}" +:+ nl
    else "flush ruleset" +:+ nl).

Definition render_sysctl_conf (sw : Switch) : res string :=
  sc ← the_sidecar sw;
  mret (if sc_nat sc then "net.ipv4.ip_forward=1" +:+ nl else "").

(** ** The lease file *)

(** [str.splitlines] *)
Definition is_line_break (c : N) : bool :=
  bool_decide (c ∈ [10; 11; 12; 13; 28; 29; 30; 133; 8232; 8233]%N).

Fixpoint splitlines_from (cur s : pystr) : list pystr :=
  match s with
  | [] => match cur with [] => [] | _ => [cur] end
  | 13%N :: ((10%N :: s') as _) => cur :: splitlines_from [] s'
  | c :: s => if is_line_break c then cur :: splitlines_from [] s else splitlines_from (cur ++ [c]) s
  end.
Definition splitlines (s : pystr) : list pystr := splitlines_from [] s.

(** [str.split()]: the maximal runs of non-space characters. *)
Fixpoint fields_from (cur s : pystr) : list pystr :=
  match s with
  | [] => match cur with [] => [] | _ => [cur] end
  | c :: s =>
      if is_space c then match cur with [] => fields_from [] s | _ => cur :: fields_from [] s end
      else fields_from (cur ++ [c]) s
  end.
Definition fields (s : pystr) : list pystr := fields_from [] s.

Section Leases.
(** [str.lower] *)
Variable str_lower : pystr → pystr.

Definition lease_step (leases : gmap pystr pystr) (line : pystr) : gmap pystr pystr :=
  match fields line with
  | _ :: mac :: ip :: _ =>
      if decide (58%N ∈ mac ∧ 46%N ∈ ip) then <[str_lower mac := ip]> leases else leases
  | _ => leases
  end.

Definition parse_dnsmasq_leases (text : pystr) : gmap pystr pystr :=
  foldl lease_step ∅ (splitlines text).
End Leases.

(** ** Reading back what dnsmasq writes *)

Record lease : Type := MkLease { l_expiry : pystr; l_mac : pystr; l_ip : pystr; l_rest : pystr }.

Definition word (s : pystr) : Prop := s ≠ [] ∧ Forall (λ c, is_space c = false) s.

Record lease_ok (l : lease) : Prop := {
  lo_expiry : word (l_expiry l);
  lo_mac : word (l_mac l) ∧ 58%N ∈ l_mac l;
  lo_ip : word (l_ip l) ∧ 46%N ∈ l_ip l;
  lo_rest : Forall (λ c, is_line_break c = false) (l_rest l);
}.

Definition lease_line (l : lease) : pystr :=
  l_expiry l ++ [32%N] ++ l_mac l ++ [32%N] ++ l_ip l ++ [32%N] ++ l_rest l.

Lemma line_break_space c : is_line_break c = true → is_space c = true.
Proof.
  unfold is_line_break. rewrite bool_decide_eq_true, !elem_of_cons, elem_of_nil.
  intros H. repeat (destruct H as [->|H]; [reflexivity|]). done.
Qed.

Lemma fields_word cur w s :
  Forall (λ c, is_space c = false) w → cur ++ w ≠ [] →
  fields_from cur (w ++ 32%N :: s) = (cur ++ w) :: fields_from [] s.
Proof.
  intros Hw. revert cur. induction Hw as [|c w Hc _ IH]; intros cur Hne; cbn [app fields_from].
  - rewrite app_nil_r in *. by destruct cur.
  - rewrite Hc, IH; by rewrite <-app_assoc.
Qed.

Lemma fields_lease l : lease_ok l →
  ∃ tl, fields (lease_line l) = l_expiry l :: l_mac l :: l_ip l :: tl.
Proof.
  intros [[H1 H1'] [[H2 H2'] _] [[H3 H3'] _] _]. unfold fields, lease_line. cbn [app].
  rewrite !fields_word by done. by eexists.
Qed.

Lemma splitlines_line cur l s :
  Forall (λ c, is_line_break c = false) l →
  splitlines_from cur (l ++ 10%N :: s) = (cur ++ l) :: splitlines_from [] s.
Proof.
  intros Hl. revert cur. induction Hl as [|c l Hc _ IH]; intros cur.
  - cbn. by rewrite app_nil_r.
  - assert (c ≠ 13%N) as Hr by (intros ->; done).
    transitivity (splitlines_from (cur ++ [c]) (l ++ 10%N :: s)); [|by rewrite IH, <-app_assoc].
    cbn [app splitlines_from]. rewrite Hc. repeat (case_match; try done).
Qed.

Lemma word_no_break w : Forall (λ c, is_space c = false) w → Forall (λ c, is_line_break c = false) w.
Proof.
  intros Hw. eapply Forall_impl; [exact Hw|]. intros c Hc. cbn in Hc. destruct (is_line_break c) eqn:E; [|done].
  apply line_break_space in E. congruence.
Qed.

Lemma lease_line_no_break l : lease_ok l → Forall (λ c, is_line_break c = false) (lease_line l).
Proof.
  intros [[_ H1] [[_ H2] _] [[_ H3] _]]. unfold lease_line. rewrite !Forall_app.
  split_and!; try (by apply word_no_break); try (by repeat constructor); done.
Qed.

(** The lease file reads back.  From the file dnsmasq writes, one line per
    lease in order, the parser recovers exactly the MAC-to-address map, the last
    lease of a MAC winning. *)
Theorem leases_roundtrip str_lower (leases : list lease) :
  Forall lease_ok leases →
  parse_dnsmasq_leases str_lower (concat ((λ l, lease_line l ++ [10%N]) <$> leases)) =
  foldl (λ m l, <[str_lower (l_mac l) := l_ip l]> m) ∅ leases.
Proof.
  unfold parse_dnsmasq_leases, splitlines. generalize (∅ : gmap pystr pystr). induction leases as [|l ls IH]; intros m Hok; [done|].
  apply Forall_cons in Hok as [Hl Hls]. cbn [fmap list_fmap concat]. rewrite <-app_assoc. cbn [app].
  rewrite splitlines_line by (by apply lease_line_no_break). cbn [app foldl]. rewrite IH by done. f_equal.
  unfold lease_step. destruct (fields_lease l Hl) as [tl ->]. destruct Hl as [_ [_ Hm] [_ Hi] _].
  by rewrite decide_True.
Qed.

Module SidecarDemo.
Definition uni (s : string) : pystr := N_of_ascii <$> String.list_ascii_of_string s.
Definition ls : list lease :=
  [MkLease (uni "1700000000") (uni "52:54:00:00:00:01") (uni "10.0.0.10") (uni "web *");
   MkLease (uni "1700000001") (uni "52:54:00:00:00:02") (uni "10.0.0.11") (uni "db *")].

Lemma leases_roundtrip_witness :
  parse_dnsmasq_leases id (concat ((λ l, lease_line l ++ [10%N]) <$> ls)) =
  <[uni "52:54:00:00:00:02" := uni "10.0.0.11"]> (<[uni "52:54:00:00:00:01" := uni "10.0.0.10"]> ∅).
Proof.
  apply (leases_roundtrip id ls). repeat constructor; try discriminate; apply list_elem_of_In; vm_compute; tauto.
Defined.
End SidecarDemo.
