(* ===== verification/Url.v ===== *)
(** * Locators ([urllib.parse])

    The part of Python's [urllib.parse] the teardown locators go through: [quote],
    [quote_plus], [unquote], [urlencode], [urlparse] with its derived attributes, and
    [parse_qs].  A [str] is its UTF-8 bytes ([unquote] of bytes that are not UTF-8
    would be replaced by Python; here they stay). *)

From S2P Require Import Prelude Exceptions PyBytes.
From stdpp Require Import options.

Abbreviation text := (list ascii).

Definition chr (n : nat) : ascii := ascii_of_nat n.
Definition PCT : ascii := chr 37.
Definition PLUS : ascii := chr 43.
Definition SPACE : ascii := chr 32.
Definition AMP : ascii := chr 38.
Definition EQUALS : ascii := chr 61.
Definition COLON : ascii := chr 58.
Definition SLASH : ascii := chr 47.
Definition QMARK : ascii := chr 63.
Definition HASHC : ascii := chr 35.
Definition AT : ascii := chr 64.
Definition LBR : ascii := chr 91.
Definition RBR : ascii := chr 93.

Definition in_range (lo hi : nat) (c : ascii) : bool := (lo <=? nat_of_ascii c) && (nat_of_ascii c <=? hi).
Definition is_upper : ascii → bool := in_range 65 90.
Definition is_lower : ascii → bool := in_range 97 122.
Definition is_digit : ascii → bool := in_range 48 57.
Definition is_alpha (c : ascii) : bool := is_upper c || is_lower c.
Definition is_alnum (c : ascii) : bool := is_alpha c || is_digit c.

Definition to_lower_char (c : ascii) : ascii := if is_upper c then ascii_of_nat (nat_of_ascii c + 32) else c.
(** [s.lower()] of an ASCII text *)
Definition to_lower (l : text) : text := to_lower_char <$> l.

(** ** Percent encoding *)

(** [_ALWAYS_SAFE]: letters, digits and [_.-~] *)
Definition unreserved (c : ascii) : bool := is_alnum c || bool_decide (c ∈ b "_.-~").

Definition hex_value (c : ascii) : option nat :=
  let n := nat_of_ascii c in
  if is_digit c then Some (n - 48)
  else if in_range 65 70 c then Some (n - 55)
  else if in_range 97 102 c then Some (n - 87)
  else None.
Definition upper_hex (n : nat) : ascii := ascii_of_nat (if n <? 10 then 48 + n else 55 + n).

Definition pct_encode (c : ascii) : text :=
  let n := nat_of_ascii c in [PCT; upper_hex (n / 16); upper_hex (n mod 16)].

(** [quote(s, safe)] *)
Definition quote (safe : ascii → bool) (l : text) : text :=
  concat ((λ c, if unreserved c || safe c then [c] else pct_encode c) <$> l).

(** [quote(s, safe="")] *)
Definition quote_all : text → text := quote (λ _, false).

(** [s.replace(a, b)] of single characters *)
Definition replace_char (a b : ascii) (l : text) : text := (λ c, if decide (c = a) then b else c) <$> l.

(** [quote_plus(s)] *)
Definition quote_plus (l : text) : text :=
  if decide (SPACE ∈ l) then replace_char SPACE PLUS (quote (λ c, bool_decide (c = SPACE)) l) else quote_all l.

(** [unquote(s)] *)
Fixpoint unquote (l : text) : text :=
  match l with
  | [] => []
  | c :: tl =>
      if decide (c = PCT) then
        match tl with
        | h :: lo :: rest =>
            match hex_value h, hex_value lo with
            | Some x, Some y => ascii_of_nat (16 * x + y) :: unquote rest
            | _, _ => c :: unquote tl
            end
        | _ => c :: unquote tl
        end
      else c :: unquote tl
  end.

Definition unquote_plus (l : text) : text := unquote (replace_char PLUS SPACE l).

(** ** Splitting *)

(** [s.partition(c)] *)
Fixpoint partition (c : ascii) (l : text) : text * bool * text :=
  match l with
  | [] => ([], false, [])
  | x :: l => if decide (x = c) then ([], true, l) else let '(a, f, z) := partition c l in (x :: a, f, z)
  end.

(** [s.rpartition(c)] *)
Definition rpartition (c : ascii) (l : text) : text * bool * text :=
  let '(a, f, z) := partition c (reverse l) in
  if f : bool then (reverse z, true, reverse a) else ([], false, l).

(** [s.split(c)] *)
Fixpoint split_on (c : ascii) (l : text) : list text :=
  match l with
  | [] => [[]]
  | x :: l =>
      if decide (x = c) then [] :: split_on c l
      else match split_on c l with [] => [[x]] | w :: ws => (x :: w) :: ws end
  end.

Fixpoint join_with (c : ascii) (l : list text) : text :=
  match l with
  | [] => []
  | [x] => x
  | x :: l => x ++ c :: join_with c l
  end.

(** ** [urlparse] *)

Record ParseResult : Type := MkParsed {
  scheme : text;
  netloc : text;
  url_path : text;
  query : text;
}.

(** Leading C0 controls and spaces, and tabs and newlines anywhere, are removed. *)
Definition sanitize (l : text) : text :=
  filter (λ c, nat_of_ascii c ∉ [9; 10; 13]) (drop_while (λ c, nat_of_ascii c <=? 32) l).

Definition scheme_char (c : ascii) : bool := is_alnum c || bool_decide (c ∈ b "+-.").

(** The scheme and the rest, when the text before the first colon is one. *)
Definition split_scheme (l : text) : text * text :=
  let '(a, found, z) := partition COLON l in
  match a with
  | c :: _ => if found && is_alpha c && forallb scheme_char a then (to_lower a, z) else ([], l)
  | [] => ([], l)
  end.

Definition netloc_end (c : ascii) : bool := bool_decide (c ∈ [SLASH; QMARK; HASHC]).

(** [l.split(c, 1)] when [c in l]: what precedes, what follows. *)
Definition cut (c : ascii) (l : text) : text * text := let '(a, _, z) := partition c l in (a, z).

Section Parse.
(** [_check_bracketed_netloc], [ipaddress]'s judgement of an IPv6 literal. *)
Variable check_bracketed : text → res ().

Definition urlparse (l : text) : res ParseResult :=
  let '(sc, rest) := split_scheme (sanitize l) in
  '(nl, rest) ← (match rest with
    | x :: y :: rest' =>
        if decide (x = SLASH ∧ y = SLASH) then
          let nl := take_while (negb ∘ netloc_end) rest' in
          raise_when (xorb (bool_decide (LBR ∈ nl)) (bool_decide (RBR ∈ nl))) ValueError ["Invalid IPv6 URL"];;
          (if decide (LBR ∈ nl ∧ RBR ∈ nl) then check_bracketed nl else mret ());;
          mret (nl, drop_while (negb ∘ netloc_end) rest')
        else mret ([], rest)
    | _ => mret ([], rest)
    end : res (text * text));
  let rest := (cut HASHC rest).1 in
  let '(p, q) := cut QMARK rest in
  mret (MkParsed sc nl p q).
End Parse.

(** [.username], [.password] *)
Definition userinfo (r : ParseResult) : option text * option text :=
  let '(info, have_info, _) := rpartition AT (netloc r) in
  if have_info : bool then
    let '(u, have_pw, p) := partition COLON info in (Some u, if have_pw : bool then Some p else None)
  else (None, None).

(** [_hostinfo]: the host and the port texts *)
Definition hostinfo (r : ParseResult) : text * option text :=
  let '(_, _, info) := rpartition AT (netloc r) in
  let '(_, have_br, bracketed) := partition LBR info in
  let '(h, p) := if have_br : bool then
      let '(h, _, tl) := partition RBR bracketed in let '(_, _, p) := partition COLON tl in (h, p)
    else let '(h, _, p) := partition COLON info in (h, p) in
  (h, match p with [] => None | _ => Some p end).

(** [.hostname]: lowercased, but for an IPv6 zone *)
Definition hostname (r : ParseResult) : option text :=
  match (hostinfo r).1 with
  | [] => None
  | h => let '(h, pct, zone) := partition PCT h in Some (to_lower h ++ (if pct : bool then [PCT] else []) ++ zone)
  end.

(** The value of a text of digits. *)
Definition digits_nat (l : text) : nat := foldl (λ acc c, 10 * acc + (nat_of_ascii c - 48)) 0 l.

(** [.port] *)
Definition port_of (r : ParseResult) : res (option nat) :=
  match (hostinfo r).2 with
  | None => mret None
  | Some p =>
      raise_when (negb (forallb is_digit p)) ValueError ["port"];;
      raise_when (negb (Z.of_nat (digits_nat p) <=? 65535)%Z) ValueError ["port"];;
      mret (Some (digits_nat p))
  end.

(** ** Queries *)

(** [urlencode({k: v, ...})] *)
Definition urlencode (kvs : list (text * text)) : text :=
  join_with AMP ((λ '(k, v), quote_plus k ++ EQUALS :: quote_plus v) <$> kvs).

(** [parse_qs(query)], as the list of its bindings: blank values are dropped. *)
Definition parse_pair (nv : text) : option (text * text) :=
  let '(n, found, v) := partition EQUALS nv in
  if decide (nv = [] ∨ found = false ∨ v = []) then None else Some (unquote_plus n, unquote_plus v).
Definition parse_qs (q : text) : list (text * text) := omap parse_pair (split_on AMP q).

(** [q.get(key, [default])[0]] *)
Definition qs_get (q : list (text * text)) (key dflt : text) : text :=
  match list_find (λ kv, kv.1 = key) q with Some (_, (_, v)) => v | None => dflt end.

(** ** Decimal numbers *)

(** [str(n)] *)
Fixpoint dec_digits (fuel n : nat) (acc : text) : text :=
  match fuel with
  | 0 => acc
  | S fuel =>
      let acc := ascii_of_nat (48 + n mod 10) :: acc in
      if n <? 10 then acc else dec_digits fuel (n / 10) acc
  end.
Definition str_nat (n : nat) : text := dec_digits (S n) n [].

(** [int(s)] of an ASCII text: surrounding blanks, a sign, digits with single
    underscores between them. *)
Definition is_blank (c : ascii) : bool := in_range 9 13 c || in_range 28 32 c.
Definition UNDERSCORE : ascii := chr 95.
Definition strip_blanks (l : text) : text := reverse (drop_while is_blank (reverse (drop_while is_blank l))).
Definition py_int (l : text) : res Z :=
  let '(neg, ds) := match strip_blanks l with
    | c :: tl => if decide (c = chr 45) then (true, tl) else if decide (c = PLUS) then (false, tl) else (false, c :: tl)
    | [] => (false, [])
    end in
  raise_when (negb (forallb (λ w, match w with [] => false | _ => forallb is_digit w end) (split_on UNDERSCORE ds)))
    ValueError ["int"];;
  let v := Z.of_nat (digits_nat (filter (λ c, c ≠ UNDERSCORE) ds)) in
  mret (if neg : bool then - v else v)%Z.

(** ** Locators: what is encoded comes back *)

(** ** Percent encoding *)

Lemma hex_value_upper n : n < 16 → hex_value (upper_hex n) = Some n.
Proof. intros Hn. do 16 (destruct n as [|n]; [reflexivity|]). lia. Qed.

Lemma unquote_pct c rest : unquote (pct_encode c ++ rest) = c :: unquote rest.
Proof.
  unfold pct_encode. cbn [app unquote]. rewrite decide_True by done.
  assert (nat_of_ascii c < 256) by apply nat_ascii_bounded.
  rewrite !hex_value_upper by (apply Nat.Div0.div_lt_upper_bound || apply Nat.mod_upper_bound; lia). f_equal.
  rewrite <-(Nat.div_mod_eq (nat_of_ascii c) 16). apply ascii_nat_embedding.
Qed.

Lemma unreserved_not_pct c : unreserved c = true → c ≠ PCT.
Proof. by intros Hc ->. Qed.

Lemma unquote_quote safe l rest :
  safe PCT = false → unquote (quote safe l ++ rest) = l ++ unquote rest.
Proof.
  intros Hs. unfold quote. induction l as [|c l IH]; [done|]. cbn [fmap list_fmap concat].
  rewrite <-app_assoc. destruct (unreserved c || safe c) eqn:Hc; [|by rewrite unquote_pct, IH].
  cbn [app unquote]. rewrite decide_False; [by rewrite IH|]. intros ->. by rewrite Hs in Hc.
Qed.

Lemma unquote_quote_all l : unquote (quote_all l) = l.
Proof. rewrite <-(app_nil_r (quote_all l)). unfold quote_all. rewrite unquote_quote by done. apply app_nil_r. Qed.

(** The characters encoded text is made of. *)
Definition quoted_char (c : ascii) : Prop := unreserved c = true ∨ c = PCT.

Lemma upper_hex_unreserved n : n < 16 → unreserved (upper_hex n) = true.
Proof. intros Hn. do 16 (destruct n as [|n]; [reflexivity|]). lia. Qed.

Lemma pct_encode_chars c : Forall quoted_char (pct_encode c).
Proof.
  assert (nat_of_ascii c < 256) by apply nat_ascii_bounded.
  unfold pct_encode. rewrite !Forall_cons. split_and!; [by right| | |constructor]; left; apply upper_hex_unreserved;
    (apply Nat.Div0.div_lt_upper_bound || apply Nat.mod_upper_bound; lia).
Qed.

Lemma quote_chars (P : ascii → Prop) safe l :
  (∀ c, quoted_char c → P c) → (∀ c, c ∈ l → safe c = true → P c) → Forall P (quote safe l).
Proof.
  intros HP Hs. unfold quote. induction l as [|c l IH]; cbn; [constructor|]. apply Forall_app. split.
  - destruct (unreserved c) eqn:Hu; cbn; [constructor; [|done]; apply HP; by left|].
    destruct (safe c) eqn:Hc; [constructor; [|done]; apply Hs; [by left|done]|].
    eapply Forall_impl; [apply pct_encode_chars|done].
  - apply IH. intros x Hx. apply Hs. by right.
Qed.

Lemma quote_all_chars l : Forall quoted_char (quote_all l).
Proof. by apply quote_chars. Qed.

Lemma replace_char_id a z l : a ∉ l → replace_char a z l = l.
Proof.
  unfold replace_char. induction l as [|c l IH]; intros Hn; [done|]. apply not_elem_of_cons in Hn as [Hc Hl].
  cbn. rewrite decide_False by congruence. by rewrite IH.
Qed.

Lemma replace_char_inv a z l : z ∉ l → replace_char z a (replace_char a z l) = l.
Proof.
  unfold replace_char. induction l as [|c l IH]; intros Hn; [done|]. apply not_elem_of_cons in Hn as [Hc Hl].
  cbn. rewrite IH by done. f_equal. destruct (decide (c = a)) as [->|Hca]; [by rewrite decide_True|].
  by rewrite decide_False by congruence.
Qed.

Lemma quoted_not_plus c : quoted_char c → c ≠ PLUS.
Proof. intros [Hc| ->] Heq; [by subst c|done]. Qed.

Lemma Forall_not_elem (P : ascii → Prop) c l : Forall P l → ¬ P c → c ∉ l.
Proof. intros Hl Hc Hin. rewrite Forall_forall in Hl. by apply Hc, Hl. Qed.

Lemma unquote_quote_plus l : unquote_plus (quote_plus l) = l.
Proof.
  unfold unquote_plus, quote_plus. destruct (decide (SPACE ∈ l)) as [Hs|Hs].
  - rewrite replace_char_inv.
    + rewrite <-(app_nil_r (quote _ l)), unquote_quote by done. apply app_nil_r.
    + eapply (Forall_not_elem (λ c, quoted_char c ∨ c = SPACE)); [|by intros [H%quoted_not_plus|[=]]].
      apply quote_chars; [by left|]. intros c _ Hc%bool_decide_eq_true. by right.
  - rewrite replace_char_id, unquote_quote_all; [done|]. eapply Forall_not_elem; [apply quote_all_chars|].
    by intros H%quoted_not_plus.
Qed.

Lemma quote_plus_chars l : Forall (λ c, quoted_char c ∨ c = PLUS) (quote_plus l).
Proof.
  unfold quote_plus. destruct (decide (SPACE ∈ l)).
  - unfold replace_char. apply Forall_fmap. apply quote_chars.
    + intros c Hc. cbn. case_decide; [by right|by left].
    + intros c _ Hc%bool_decide_eq_true. cbn. rewrite decide_True by done. by right.
  - eapply Forall_impl; [apply quote_all_chars|]. by left.
Qed.

Lemma quote_plus_nil l : quote_plus l = [] ↔ l = [].
Proof.
  split; [|by intros ->]. intros Hq. apply (f_equal unquote_plus) in Hq. by rewrite unquote_quote_plus in Hq.
Qed.

(** ** Splitting *)

Lemma partition_app c l1 l2 : c ∉ l1 → partition c (l1 ++ c :: l2) = (l1, true, l2).
Proof.
  induction l1 as [|x l1 IH]; intros Hn; cbn; [by rewrite decide_True|].
  apply not_elem_of_cons in Hn as [Hx Hl]. rewrite decide_False by congruence. by rewrite IH.
Qed.

Lemma partition_none c l : c ∉ l → partition c l = (l, false, []).
Proof.
  induction l as [|x l IH]; intros Hn; cbn; [done|]. apply not_elem_of_cons in Hn as [Hx Hl].
  rewrite decide_False by congruence. by rewrite IH.
Qed.

Lemma rpartition_app c l1 l2 : c ∉ l2 → rpartition c (l1 ++ c :: l2) = (l1, true, l2).
Proof.
  intros Hn. unfold rpartition. rewrite reverse_app, reverse_cons, <-app_assoc. cbn.
  rewrite partition_app by (by rewrite elem_of_reverse). by rewrite !reverse_involutive.
Qed.

Lemma split_on_word c w : c ∉ w → split_on c w = [w].
Proof.
  induction w as [|x w IH]; intros Hn; [done|]. apply not_elem_of_cons in Hn as [Hx Hw]. cbn.
  rewrite decide_False by congruence. by rewrite IH.
Qed.

Lemma split_on_app c w l : c ∉ w → split_on c (w ++ c :: l) = w :: split_on c l.
Proof.
  induction w as [|x w IH]; intros Hn; cbn; [by rewrite decide_True|]. apply not_elem_of_cons in Hn as [Hx Hw].
  rewrite decide_False by congruence. by rewrite IH.
Qed.

Lemma split_on_join c ws : ws ≠ [] → Forall (λ w, c ∉ w) ws → split_on c (join_with c ws) = ws.
Proof.
  intros Hne Hws. induction Hws as [|w ws Hw Hws IH]; [done|]. destruct ws as [|w2 ws]; [by apply split_on_word|].
  change (join_with c (w :: w2 :: ws)) with (w ++ c :: join_with c (w2 :: ws)). by rewrite split_on_app, IH.
Qed.

(** ** Queries *)

Definition query_char (c : ascii) : Prop := quoted_char c ∨ c = PLUS ∨ c = EQUALS ∨ c = AMP.

Lemma pair_chars (k v : text) :
  Forall (λ c, quoted_char c ∨ c = PLUS ∨ c = EQUALS) (quote_plus k ++ EQUALS :: quote_plus v).
Proof.
  apply Forall_app. split; [|constructor; [by right; right|]]; (eapply Forall_impl; [apply quote_plus_chars|naive_solver]).
Qed.

Lemma parse_pair_encoded k v :
  v ≠ [] → parse_pair (quote_plus k ++ EQUALS :: quote_plus v) = Some (k, v).
Proof.
  intros Hv. unfold parse_pair. rewrite partition_app.
  - rewrite decide_False, !unquote_quote_plus; [done|]. intros [Hn|[[=]|Hn]]; [by destruct (quote_plus k)|].
    by apply Hv, quote_plus_nil.
  - eapply Forall_not_elem; [apply quote_plus_chars|]. intros [Hc|[=]]. by destruct Hc.
Qed.

Lemma parse_pair_blank k : parse_pair (quote_plus k ++ [EQUALS]) = None.
Proof.
  unfold parse_pair. rewrite partition_app.
  - by rewrite decide_True by auto.
  - eapply Forall_not_elem; [apply quote_plus_chars|]. intros [Hc|[=]]. by destruct Hc.
Qed.

(** Encoding then parsing keeps every binding but the blank ones. *)
Lemma parse_urlencode kvs : kvs ≠ [] → parse_qs (urlencode kvs) = filter (λ kv, kv.2 ≠ []) kvs.
Proof.
  intros Hne. unfold parse_qs, urlencode. rewrite split_on_join.
  - clear Hne. induction kvs as [|[k v] kvs IH]; [done|]. cbn [fmap list_fmap omap list_omap]. rewrite filter_cons, <-IH.
    destruct v as [|x v].
    + rewrite decide_False by naive_solver. change (quote_plus []) with (@nil ascii). by rewrite parse_pair_blank.
    + rewrite decide_True by done. by rewrite parse_pair_encoded.
  - by destruct kvs.
  - apply Forall_fmap, Forall_true. intros [k v]. cbn. eapply Forall_not_elem; [apply pair_chars|].
    intros [Hc|[[=]|[=]]]. by destruct Hc.
Qed.

Lemma urlencode_chars kvs : Forall query_char (urlencode kvs).
Proof.
  unfold urlencode. induction kvs as [|[k v] kvs IH]; [constructor|]. cbn [fmap list_fmap].
  assert (Forall query_char (quote_plus k ++ EQUALS :: quote_plus v)) as Hp.
  { eapply Forall_impl; [apply pair_chars|]. unfold query_char. naive_solver. }
  destruct ((λ '(k, v), quote_plus k ++ EQUALS :: quote_plus v) <$> kvs) as [|w ws] eqn:E; [done|].
  change (Forall query_char ((quote_plus k ++ EQUALS :: quote_plus v) ++ AMP :: join_with AMP (w :: ws))).
  apply Forall_app. split; [done|]. constructor; [by right; right; right|done].
Qed.

Lemma qs_get_here k v q d : qs_get ((k, v) :: q) k d = v.
Proof. unfold qs_get. cbn. by rewrite decide_True. Qed.

Lemma qs_get_skip k k' v q d : k' ≠ k → qs_get ((k', v) :: q) k d = qs_get q k d.
Proof. intros Hk. unfold qs_get. cbn. rewrite decide_False by done. by destruct (list_find _ q) as [[i [x y]]|]. Qed.

(** ** Parsing a locator *)

Lemma filter_Forall {A} (P : A → Prop) `{!∀ x, Decision (P x)} (l : list A) : Forall P l → filter P l = l.
Proof. intros Hl. apply filter_all. by apply Forall_forall. Qed.

Lemma forallb_all {A} (f : A → bool) l : Forall (λ x, f x = true) l → forallb f l = true.
Proof. induction 1 as [|x l Hx _ IH]; cbn; [done|]. by rewrite Hx. Qed.

(** Visible characters are left alone by the sanitizing of [urlsplit]. *)
Definition sane (c : ascii) : Prop := 32 < nat_of_ascii c.

Lemma sanitize_id l : Forall sane l → sanitize l = l.
Proof.
  intros Hl. unfold sanitize. assert (drop_while (λ c, nat_of_ascii c <=? 32) l = l) as ->.
  { destruct Hl as [|c l Hc Hl]; [done|]. cbn. unfold sane in Hc. by destruct (Nat.leb_spec (nat_of_ascii c) 32); [lia|]. }
  apply filter_Forall. eapply Forall_impl; [exact Hl|]. unfold sane. intros c Hc Hin.
  repeat (apply elem_of_cons in Hin as [Hin|Hin]; [lia|]). by apply not_elem_of_nil in Hin.
Qed.

Lemma unreserved_sane c : unreserved c = true → sane c.
Proof. destruct c as [[] [] [] [] [] [] [] []]; vm_compute; (discriminate || (intros _; lia)). Qed.

Lemma quoted_sane c : quoted_char c → sane c.
Proof. intros [H| ->]; [by apply unreserved_sane|vm_compute; lia]. Qed.

Lemma query_sane q : Forall query_char q → Forall sane q.
Proof.
  intros Hq. eapply Forall_impl; [exact Hq|]. intros c [Hc|[->|[->| ->]]]; [by apply quoted_sane|vm_compute; lia..].
Qed.

Lemma query_no_hash q : Forall query_char q → HASHC ∉ q.
Proof. intros Hq. eapply Forall_not_elem; [exact Hq|]. intros [[?|?]|[?|[?|?]]]; done. Qed.

Lemma take_drop_while_end {A} (P : A → bool) l1 l2 :
  Forall (λ x, P x = true) l1 → (match l2 with [] => True | y :: _ => P y = false end) →
  take_while P (l1 ++ l2) = l1 ∧ drop_while P (l1 ++ l2) = l2.
Proof.
  intros H1 H2. induction H1 as [|x l1 Hx _ [IH1 IH2]]; cbn.
  - destruct l2 as [|y l2]; [done|]. cbn. by rewrite H2.
  - by rewrite Hx, IH1, IH2.
Qed.

(** A scheme the parser accepts and does not change. *)
Definition scheme_ok (sc : text) : Prop :=
  match sc with c :: _ => is_alpha c = true | [] => False end ∧ forallb scheme_char sc = true ∧ to_lower sc = sc ∧
  COLON ∉ sc ∧ Forall sane sc.

Definition netloc_char (c : ascii) : Prop := netloc_end c = false ∧ c ≠ LBR ∧ c ≠ RBR ∧ sane c.

Lemma urlparse_built check sc nl p q :
  scheme_ok sc → Forall netloc_char nl →
  (p = [] ∨ ∃ p', p = SLASH :: p') → QMARK ∉ p → HASHC ∉ p → Forall sane p →
  HASHC ∉ q → Forall sane q →
  urlparse check (sc ++ COLON :: SLASH :: SLASH :: nl ++ p ++ QMARK :: q) = Ok (MkParsed sc nl p q).
Proof.
  intros (Ha & Hsc & Hlow & Hcol & Hss) Hnl Hp Hpq Hph Hps Hqh Hqs. unfold urlparse.
  rewrite sanitize_id.
  2:{ apply Forall_app. split; [done|]. do 3 (constructor; [vm_compute; lia|]). apply Forall_app. split.
      - eapply Forall_impl; [exact Hnl|]. by intros c (_ & _ & _ & ?).
      - apply Forall_app. split; [done|]. constructor; [vm_compute; lia|done]. }
  unfold split_scheme. rewrite partition_app by done. destruct sc as [|c sc]; [done|]. rewrite Ha, Hsc, Hlow. cbn [andb].
  rewrite decide_True by done.
  destruct (take_drop_while_end (negb ∘ netloc_end) nl (p ++ QMARK :: q)) as [-> ->].
  { eapply Forall_impl; [exact Hnl|]. intros x (Hx & _). cbn. by rewrite Hx. }
  { by destruct Hp as [->|[p' ->]]. }
  assert (LBR ∉ nl ∧ RBR ∉ nl) as [HL HR].
  { split; (eapply Forall_not_elem; [exact Hnl|]); by intros (_ & ? & ? & _). }
  rewrite !bool_decide_false by done. rewrite decide_False by naive_solver. cbn [xorb raise_when raise_if mbind result_bind mret result_ret].
  unfold cut. rewrite (partition_none HASHC).
  - cbn [fst]. by rewrite partition_app.
  - rewrite elem_of_app, elem_of_cons. naive_solver.
Qed.

(** ** Numbers *)

Lemma digits_nat_app l1 l2 : digits_nat (l1 ++ l2) = foldl (λ acc c, 10 * acc + (nat_of_ascii c - 48)) (digits_nat l1) l2.
Proof. apply foldl_app. Qed.

Lemma dec_digits_value fuel n acc :
  n < fuel → digits_nat (dec_digits fuel n acc) = foldl (λ acc c, 10 * acc + (nat_of_ascii c - 48)) n acc.
Proof.
  revert n acc. induction fuel as [|fuel IH]; intros n acc Hn; [lia|]. cbn [dec_digits].
  assert (nat_of_ascii (ascii_of_nat (48 + n mod 10)) - 48 = n mod 10) as Hd.
  { pose proof (Nat.mod_upper_bound n 10). rewrite nat_ascii_embedding by lia. lia. }
  pose proof (Nat.div_mod_eq n 10). destruct (Nat.ltb_spec n 10) as [Hlt|Hge].
  - unfold digits_nat. cbn [foldl]. rewrite Hd. f_equal. rewrite Nat.mod_small; lia.
  - rewrite IH by (pose proof (Nat.div_lt n 10); lia). cbn [foldl]. rewrite Hd. f_equal. lia.
Qed.

Lemma dec_digits_chars fuel n acc :
  Forall (λ c, is_digit c = true) acc → Forall (λ c, is_digit c = true) (dec_digits fuel n acc).
Proof.
  revert n acc. induction fuel as [|fuel IH]; intros n acc Hacc; cbn [dec_digits]; [done|].
  assert (Forall (λ c, is_digit c = true) (ascii_of_nat (48 + n mod 10) :: acc)) as H.
  { constructor; [|done]. pose proof (Nat.mod_upper_bound n 10). unfold is_digit, in_range.
    rewrite nat_ascii_embedding by lia. rewrite !(proj2 (Nat.leb_le _ _)) by lia. done. }
  destruct (n <? 10); [done|by apply IH].
Qed.

Lemma str_nat_digits n : Forall (λ c, is_digit c = true) (str_nat n).
Proof. by apply dec_digits_chars. Qed.

Lemma str_nat_value n : digits_nat (str_nat n) = n.
Proof. unfold str_nat. by rewrite dec_digits_value by lia. Qed.

Lemma str_nat_inj n m : str_nat n = str_nat m → n = m.
Proof. intros H. by rewrite <-(str_nat_value n), H, str_nat_value. Qed.

Lemma str_nat_ne n : str_nat n ≠ [].
Proof.
  unfold str_nat. cbn [dec_digits]. destruct (n <? 10); [done|]. generalize (n / 10) as m, (ascii_of_nat (48 + n mod 10)) as c.
  intros m c. assert (∀ fuel m acc, acc ≠ [] → dec_digits fuel m acc ≠ []) as H; [|by apply H].
  induction fuel as [|fuel IH]; intros k acc Hacc; cbn [dec_digits]; [done|]. destruct (k <? 10); [done|by apply IH].
Qed.

Lemma digit_unreserved c : is_digit c = true → unreserved c = true.
Proof. intros Hc. unfold unreserved, is_alnum. by rewrite Hc, orb_true_r. Qed.

Lemma drop_while_none {A} (P : A → bool) l : Forall (λ x, P x = false) l → drop_while P l = l.
Proof. by intros [|x l' Hx _]; cbn; rewrite ?Hx. Qed.

Lemma py_int_str_nat n : py_int (str_nat n) = Ok (Z.of_nat n).
Proof.
  unfold py_int. pose proof (str_nat_digits n) as Hd. pose proof (str_nat_value n) as Hv. pose proof (str_nat_ne n) as Hne.
  set (l := str_nat n) in *. clearbody l.
  assert (Forall (λ c, is_blank c = false) l) as Hb.
  { eapply Forall_impl; [exact Hd|]. intros c. destruct c as [[] [] [] [] [] [] [] []]; vm_compute; congruence. }
  assert (strip_blanks l = l) as ->.
  { unfold strip_blanks. rewrite (drop_while_none _ l) by done. rewrite drop_while_none; [apply reverse_involutive|].
    by apply Forall_reverse. }
  destruct l as [|c l]; [done|]. pose proof Hd as Hd'. apply Forall_cons in Hd' as [Hc _].
  rewrite decide_False by (intros ->; discriminate Hc). rewrite decide_False by (intros ->; discriminate Hc).
  rewrite split_on_word by (eapply Forall_not_elem; [exact Hd|done]).
  pose proof (forallb_all is_digit (c :: l) Hd) as Hf. cbn [forallb] in Hf |- *. rewrite Hf. cbn [andb negb raise_when raise_if mbind result_bind].
  rewrite filter_Forall; [by rewrite Hv|]. eapply Forall_impl; [exact Hd|]. by intros x Hx ->.
Qed.
