(* ===== verification/Xml.v ===== *)
(** * XML documents ([xml.sax.saxutils], and a reader)

    The libvirt driver writes XML by pasting texts together, with [escape] and
    [quoteattr] of the standard library around the values it does not trust.  [read_xml]
    is an XML reader for such documents (elements, attributes, character data and
    references; no prolog, comments or name spaces).  [node] is a document with the way
    each value is pasted; [read_print] says that a well-formed [node] is read back as the
    element it stands for, whatever characters its values have. *)

From S2P Require Import Prelude Exceptions PyBytes Url.
From stdpp Require Import options.

Definition LT : ascii := chr 60.
Definition GT : ascii := chr 62.
Definition QUOT : ascii := chr 34.
Definition APOS : ascii := chr 39.
Definition TAB : ascii := chr 9.
Definition LF : ascii := chr 10.
Definition CR : ascii := chr 13.
Definition SEMI : ascii := chr 59.

(** ** [escape] and [quoteattr] *)

(** [data.replace(c, r)] for one character [c] *)
Definition replace_with (c : ascii) (r : text) (l : text) : text := l ≫= λ x, if decide (x = c) then r else [x].

Definition escape (l : text) : text :=
  replace_with LT (b "&lt;") (replace_with GT (b "&gt;") (replace_with AMP (b "&amp;") l)).
Definition escape_attr (l : text) : text :=
  replace_with TAB (b "&#9;") (replace_with CR (b "&#13;") (replace_with LF (b "&#10;") (escape l))).
Definition quoteattr (l : text) : text :=
  let data := escape_attr l in
  if decide (QUOT ∈ data) then
    if decide (APOS ∈ data) then QUOT :: replace_with QUOT (b "&quot;") data ++ [QUOT] else APOS :: data ++ [APOS]
  else QUOT :: data ++ [QUOT].

(** ** Elements *)

(** An element: its name, attributes, the character data directly in it, and its child
    elements. *)
Inductive xml : Type :=
  | Elem (name : text) (attrs : list (text * text)) (content : text) (children : list xml).

Definition xml_name (x : xml) : text := let 'Elem n _ _ _ := x in n.
Definition xml_attrs (x : xml) : list (text * text) := let 'Elem _ a _ _ := x in a.
Definition xml_content (x : xml) : text := let 'Elem _ _ c _ := x in c.
Definition xml_children (x : xml) : list xml := let 'Elem _ _ _ k := x in k.

(** The child elements of a name, and the attribute of a name. *)
Definition kids (n : string) (x : xml) : list xml := filter (λ k, xml_name k = b n) (xml_children x).
Definition attr (n : string) (x : xml) : option text := snd <$> head (filter (λ a, a.1 = b n) (xml_attrs x)).

(** ** Reading *)

(** Ends of line, normalised before anything else. *)
Fixpoint normalize_eol (l : text) : text :=
  match l with
  | [] => []
  | c :: l => if decide (c = CR) then
                match l with
                | d :: l' => if decide (d = LF) then LF :: normalize_eol l' else LF :: normalize_eol l
                | [] => [LF]
                end
              else c :: normalize_eol l
  end.

(** The characters of a document. *)
Definition legal (c : ascii) : bool := (32 <=? nat_of_ascii c) || bool_decide (c ∈ [TAB; LF; CR]).
Definition blank (c : ascii) : bool := bool_decide (c ∈ [SPACE; TAB; LF; CR]).
Definition name_char (c : ascii) : bool := is_alnum c || bool_decide (c ∈ b "_-.:").

(** A literal character in character data, and in an attribute value. *)
Definition text_char (c : ascii) : option ascii := if legal c then Some c else None.
Definition attr_char (c : ascii) : option ascii :=
  if blank c then Some SPACE else if legal c && negb (bool_decide (c = LT)) then Some c else None.

(** [&name;] and [&#digits;] *)
Definition reference (name : text) : option ascii :=
  if decide (name = b "amp") then Some AMP
  else if decide (name = b "lt") then Some LT
  else if decide (name = b "gt") then Some GT
  else if decide (name = b "quot") then Some QUOT
  else if decide (name = b "apos") then Some APOS
  else match name with
       | c :: ds =>
           if bool_decide (c = HASHC) && bool_decide (ds ≠ []) && forallb is_digit ds && (digits_nat ds <? 256) && legal (chr (digits_nat ds))
           then Some (chr (digits_nat ds)) else None
       | [] => None
       end.

(** A text with its references replaced; [pending] is the reference being read. *)
Fixpoint expand (literal : ascii → option ascii) (pending : option text) (l : text) : option text :=
  match l with
  | [] => match pending with None => Some [] | Some _ => None end
  | c :: l =>
      match pending with
      | Some name => if decide (c = SEMI) then x ← reference name; t ← expand literal None l; Some (x :: t)
                     else expand literal (Some (name ++ [c])) l
      | None => if decide (c = AMP) then expand literal (Some []) l
                else x ← literal c; t ← expand literal None l; Some (x :: t)
      end
  end.

Definition lex_name (l : text) : option (text * text) :=
  match take_while name_char l with [] => None | n => Some (n, drop_while name_char l) end.
Definition skip_blank : text → text := drop_while blank.

Definition lex_value (l : text) : option (text * text) :=
  match l with
  | q :: l =>
      if decide (q ∈ [QUOT; APOS]) then
        let '(v, found, rest) := partition q l in
        if found : bool then v' ← expand attr_char None v; Some (v', rest) else None
      else None
  | [] => None
  end.

Definition lex_attr (l : text) : option (text * text * text) :=
  nl ← lex_name l;
  match skip_blank nl.2 with
  | c :: l => if decide (c = EQUALS) then vl ← lex_value (skip_blank l); Some (nl.1, vl.1, vl.2) else None
  | [] => None
  end.

(** The attributes of a tag, up to its end: whether it is an empty-element tag. *)
Fixpoint lex_attrs (n : nat) (l : text) : option (list (text * text) * bool * text) :=
  match n with
  | 0 => None
  | S n =>
      match skip_blank l with
      | c :: l' =>
          if decide (c = GT) then Some ([], false, l')
          else if decide (c = SLASH) then
            match l' with d :: l'' => if decide (d = GT) then Some ([], true, l'') else None | [] => None end
          else if from_option blank false (head l) then
            avl ← lex_attr (skip_blank l);
            rest ← lex_attrs n avl.2;
            Some (avl.1 :: rest.1.1, rest.1.2, rest.2)
          else None
      | [] => None
      end
  end.

Inductive token : Type :=
  | TOpen (name : text) (attrs : list (text * text))
  | TEmpty (name : text) (attrs : list (text * text))
  | TClose (name : text)
  | TChars (t : text).

Definition lex_token (l : text) : option (token * text) :=
  match l with
  | [] => None
  | c :: l' =>
      if decide (c = LT) then
        if from_option (λ d, bool_decide (d = SLASH)) false (head l') then
          nl ← lex_name (tail l');
          match skip_blank nl.2 with d :: l'' => if decide (d = GT) then Some (TClose nl.1, l'') else None | [] => None end
        else
          nl ← lex_name l';
          ae ← lex_attrs (length l) nl.2;
          if decide (NoDup ae.1.1.*1) then Some (if ae.1.2 : bool then TEmpty nl.1 ae.1.1 else TOpen nl.1 ae.1.1, ae.2) else None
      else
        t ← expand text_char None (take_while (λ c, negb (bool_decide (c = LT))) l);
        Some (TChars t, drop_while (λ c, negb (bool_decide (c = LT))) l)
  end.

Fixpoint lex (n : nat) (l : text) : option (list token) :=
  match l with
  | [] => Some []
  | _ => match n with
         | 0 => None
         | S n => tl ← lex_token l; ts ← lex n tl.2; Some (tl.1 :: ts)
         end
  end.

(** An open element: its name, attributes, character data, and children, newest first. *)
Record frame : Type := MkFrame { fr_name : text; fr_attrs : list (text * text); fr_content : text; fr_kids : list xml }.
Definition add_kid (x : xml) (f : frame) : frame := MkFrame (fr_name f) (fr_attrs f) (fr_content f) (x :: fr_kids f).
Definition add_chars (t : text) (f : frame) : frame := MkFrame (fr_name f) (fr_attrs f) (fr_content f ++ t) (fr_kids f).
Definition close_frame (f : frame) : xml := Elem (fr_name f) (fr_attrs f) (fr_content f) (reverse (fr_kids f)).

Fixpoint build (stack : list frame) (ts : list token) : option xml :=
  match ts with
  | [] => None
  | t :: ts =>
      let finish x stack := match stack with
        | f :: stack => build (add_kid x f :: stack) ts
        | [] => match ts with [] => Some x | _ => None end
        end in
      match t, stack with
      | TOpen n a, _ => build (MkFrame n a [] [] :: stack) ts
      | TEmpty n a, _ => finish (Elem n a [] []) stack
      | TClose n, f :: stack => if decide (fr_name f = n) then finish (close_frame f) stack else None
      | TChars t, f :: stack => build (add_chars t f :: stack) ts
      | _, [] => None
      end
  end.

Definition read_xml (l : text) : option xml :=
  let l := normalize_eol l in
  ts ← lex (length l) l; build [] ts.

(** ** Writing *)

(** How a value is pasted: between single quotes or by [quoteattr]; as it is or by
    [escape]. *)
Inductive quoting : Type := Single | Quoteattr.
Inductive escaping : Type := Raw | Escaped.

Inductive node : Type :=
  | Leaf (name : string) (attrs : list (string * quoting * text))
  | Text (name : string) (attrs : list (string * quoting * text)) (how : escaping) (content : text)
  | Node (name : string) (attrs : list (string * quoting * text)) (children : list node).

Definition print_value (q : quoting) (v : text) : text :=
  match q with Single => APOS :: v ++ [APOS] | Quoteattr => quoteattr v end.
Definition print_attr (a : string * quoting * text) : text := SPACE :: b a.1.1 ++ EQUALS :: print_value a.1.2 a.2.
Definition print_attrs (l : list (string * quoting * text)) : text := concat (print_attr <$> l).
Definition print_content (how : escaping) (t : text) : text := match how with Raw => t | Escaped => escape t end.
Definition open_tag (n : string) (a : list (string * quoting * text)) : text := LT :: b n ++ print_attrs a ++ [GT].
Definition close_tag (n : string) : text := LT :: SLASH :: b n ++ [GT].

Fixpoint print_node (x : node) : text :=
  match x with
  | Leaf n a => LT :: b n ++ print_attrs a ++ [SLASH; GT]
  | Text n a how t => open_tag n a ++ print_content how t ++ close_tag n
  | Node n a k => open_tag n a ++ concat (print_node <$> k) ++ close_tag n
  end.

Definition attrs_of (l : list (string * quoting * text)) : list (text * text) := (λ a, (b a.1.1, a.2)) <$> l.

(** The element a document stands for. *)
Fixpoint element (x : node) : xml :=
  match x with
  | Leaf n a => Elem (b n) (attrs_of a) [] []
  | Text n a _ t => Elem (b n) (attrs_of a) t []
  | Node n a k => Elem (b n) (attrs_of a) [] (element <$> k)
  end.

(** A value that may be pasted the way it is. *)
Definition value_ok (q : quoting) (v : text) : Prop :=
  match q with
  | Single => Forall (λ c, legal c = true ∧ c ∉ [LT; AMP; APOS; TAB; LF; CR]) v
  | Quoteattr => Forall (λ c, legal c = true) v
  end.
Definition content_ok (how : escaping) (t : text) : Prop :=
  match how with
  | Raw => Forall (λ c, legal c = true ∧ c ∉ [LT; AMP; CR]) t
  | Escaped => Forall (λ c, legal c = true ∧ c ≠ CR) t
  end.
Definition name_ok (n : string) : Prop := n ≠ "" ∧ Forall (λ c, name_char c = true) (b n).
Definition attrs_ok (l : list (string * quoting * text)) : Prop :=
  Forall (λ a, name_ok a.1.1 ∧ value_ok a.1.2 a.2) l ∧ NoDup (attrs_of l).*1.

Fixpoint node_ok (x : node) : Prop :=
  match x with
  | Leaf n a => name_ok n ∧ attrs_ok a
  | Text n a how t => name_ok n ∧ attrs_ok a ∧ content_ok how t
  | Node n a k => name_ok n ∧ attrs_ok a ∧ foldr (λ y P, node_ok y ∧ P) True k
  end.

(** ** Characters *)

Lemma replace_with_cons c r x l : replace_with c r (x :: l) = replace_with c r [x] ++ replace_with c r l.
Proof. unfold replace_with. cbn. by rewrite app_nil_r. Qed.
Lemma replace_with_app c r l1 l2 : replace_with c r (l1 ++ l2) = replace_with c r l1 ++ replace_with c r l2.
Proof. apply bind_app. Qed.

Lemma escape_cons x l : escape (x :: l) = escape [x] ++ escape l.
Proof. unfold escape. by rewrite (replace_with_cons AMP), !replace_with_app. Qed.
Lemma escape_attr_cons x l : escape_attr (x :: l) = escape_attr [x] ++ escape_attr l.
Proof. unfold escape_attr. by rewrite escape_cons, !replace_with_app. Qed.
Definition escape_quot (l : text) : text := replace_with QUOT (b "&quot;") (escape_attr l).
Lemma escape_quot_cons x l : escape_quot (x :: l) = escape_quot [x] ++ escape_quot l.
Proof. unfold escape_quot. by rewrite escape_attr_cons, replace_with_app. Qed.

Ltac each_char c := destruct c as [[] [] [] [] [] [] [] []].

(** A replacement made character by character is undone by reading. *)
Lemma expand_pieces literal (f : text → text) (p : ascii → bool) l :
  f [] = [] → (∀ x l, f (x :: l) = f [x] ++ f l) →
  (∀ c rest, p c = true → expand literal None (f [c] ++ rest) = (t ← expand literal None rest; Some (c :: t))) →
  Forall (λ c, p c = true) l → expand literal None (f l) = Some l.
Proof.
  intros Hnil Hcons Hc. induction 1 as [|c l Hp _ IH]; [by rewrite Hnil|]. rewrite Hcons, Hc by done. by rewrite IH.
Qed.

Lemma expand_escape l : Forall (λ c, legal c = true) l → expand text_char None (escape l) = Some l.
Proof.
  apply expand_pieces; [done|apply escape_cons|]. intros c rest Hp. each_char c; first [discriminate Hp|reflexivity].
Qed.
Lemma expand_escape_attr l : Forall (λ c, legal c = true) l → expand attr_char None (escape_attr l) = Some l.
Proof.
  apply expand_pieces; [done|apply escape_attr_cons|]. intros c rest Hp. each_char c; first [discriminate Hp|reflexivity].
Qed.
Lemma expand_escape_quot l : Forall (λ c, legal c = true) l → expand attr_char None (escape_quot l) = Some l.
Proof.
  apply expand_pieces; [done|apply escape_quot_cons|]. intros c rest Hp. each_char c; first [discriminate Hp|reflexivity].
Qed.
Lemma attr_char_id c : legal c = true → c ∉ [LT; AMP; APOS; TAB; LF; CR] → attr_char c = Some c.
Proof. intros Hl Hn. each_char c; first [discriminate Hl|reflexivity|exfalso; apply Hn; by_decide]. Qed.

(** A text of characters that stand for themselves. *)
Lemma expand_literal literal l : Forall (λ c, literal c = Some c ∧ c ≠ AMP) l → expand literal None l = Some l.
Proof. induction 1 as [|c l [Hl Hn] _ IH]; [done|]. cbn [expand]. by rewrite decide_False, Hl, IH by done. Qed.
Lemma expand_raw l : Forall (λ c, legal c = true ∧ c ∉ [LT; AMP; CR]) l → expand text_char None l = Some l.
Proof.
  intros H. apply expand_literal. eapply Forall_impl; [exact H|]. intros c [Hl Hn]. unfold text_char. rewrite Hl. split; [done|set_solver].
Qed.
Lemma expand_single l :
  Forall (λ c, legal c = true ∧ c ∉ [LT; AMP; APOS; TAB; LF; CR]) l → expand attr_char None l = Some l.
Proof.
  intros H. apply expand_literal. eapply Forall_impl; [exact H|]. intros c [Hl Hn]. split; [by apply attr_char_id|set_solver].
Qed.

(** What a replacement does not contain. *)
Lemma pieces_without (f : text → text) (p : ascii → bool) (x : ascii) l :
  f [] = [] → (∀ y l, f (y :: l) = f [y] ++ f l) → (∀ c, p c = true → x ∉ f [c]) → Forall (λ c, p c = true) l → x ∉ f l.
Proof.
  intros Hnil Hcons Hc. induction 1 as [|c l Hp _ IH]; [rewrite Hnil; apply not_elem_of_nil|].
  rewrite Hcons. intros [H|H]%elem_of_app; [by apply (Hc c)|done].
Qed.
Lemma char_all {P : ascii → Prop} l : Forall P l → ∀ x, ¬ P x → x ∉ l.
Proof. intros H x Hx Hin. rewrite Forall_forall in H. by apply Hx, H. Qed.



Lemma escape_no_LT l : LT ∉ escape l.
Proof. apply (pieces_without escape (λ _, true)); [done|apply escape_cons|intros c _; each_char c; by_decide|by apply Forall_true]. Qed.
Lemma escape_no_CR l : Forall (λ c, c ≠ CR) l → CR ∉ escape l.
Proof.
  intros H. apply (pieces_without escape (λ c, negb (bool_decide (c = CR)))); [done|apply escape_cons| |].
  - intros c Hc. each_char c; first [discriminate Hc|by_decide].
  - eapply Forall_impl; [exact H|]. intros c Hc. by rewrite bool_decide_eq_false_2.
Qed.
Lemma escape_attr_no_CR l : CR ∉ escape_attr l.
Proof. apply (pieces_without escape_attr (λ _, true)); [done|apply escape_attr_cons|intros c _; each_char c; by_decide|by apply Forall_true]. Qed.
Lemma escape_quot_no_QUOT l : QUOT ∉ escape_quot l.
Proof. apply (pieces_without escape_quot (λ _, true)); [done|apply escape_quot_cons|intros c _; each_char c; by_decide|by apply Forall_true]. Qed.
Lemma escape_quot_no_CR l : CR ∉ escape_quot l.
Proof. apply (pieces_without escape_quot (λ _, true)); [done|apply escape_quot_cons|intros c _; each_char c; by_decide|by apply Forall_true]. Qed.

Lemma normalize_eol_id l : CR ∉ l → normalize_eol l = l.
Proof. induction l as [|c l IH]; [done|]. intros [H1 H2]%not_elem_of_cons. cbn. by rewrite decide_False, IH by congruence. Qed.

(** ** Tags *)

Lemma name_char_not c : name_char c = true → c ∉ [LT; GT; QUOT; APOS; TAB; LF; CR; SEMI; SPACE; SLASH; EQUALS; AMP].
Proof. each_char c; intros H; first [discriminate H|by_decide]. Qed.

Lemma lex_name_app n l :
  name_ok n → from_option (λ c, negb (name_char c)) false (head l) = true → lex_name (b n ++ l) = Some (b n, l).
Proof.
  intros [Hne Hn] Hl. destruct l as [|c l]; [done|]. cbn in Hl. apply negb_true_iff in Hl. unfold lex_name.
  rewrite take_while_prefix, drop_while_app by done. destruct n; [done|]. done.
Qed.

Lemma lex_value_print q v rest : value_ok q v → lex_value (print_value q v ++ rest) = Some (v, rest).
Proof.
  intros Hv. destruct q; cbn [print_value].
  - cbn [app]. unfold lex_value. rewrite decide_True by set_solver. rewrite <-app_assoc. cbn [app].
    rewrite partition_app; [|by eapply char_all; [exact Hv|]; cbn; intros [_ H]; set_solver].
    by rewrite (expand_single _ Hv).
  - unfold quoteattr. cbn in Hv. fold (escape_quot v). repeat case_decide; cbn [app]; unfold lex_value; rewrite decide_True by set_solver;
      rewrite <-app_assoc; cbn [app].
    + rewrite partition_app by apply escape_quot_no_QUOT. by rewrite expand_escape_quot.
    + rewrite partition_app by done. by rewrite expand_escape_attr.
    + rewrite partition_app by done. by rewrite expand_escape_attr.
Qed.

Lemma value_head q v rest : from_option blank true (head (print_value q v ++ rest)) = false.
Proof. destruct q; cbn; [done|]. unfold quoteattr. by repeat case_decide. Qed.

Lemma skip_blank_id l : from_option blank true (head l) = false → skip_blank l = l.
Proof. destruct l as [|c l]; [done|]. cbn. by intros ->. Qed.
Lemma skip_blank_name n l : name_ok n → skip_blank (b n ++ l) = b n ++ l.
Proof.
  intros [Hne Hn]. apply skip_blank_id. destruct n as [|c n]; [done|]. apply Forall_cons in Hn as [Hc _]. apply name_char_not in Hc.
  cbn. unfold blank. rewrite bool_decide_eq_false. set_solver.
Qed.

Lemma lex_attr_print a rest :
  name_ok a.1.1 → value_ok a.1.2 a.2 → lex_attr (b a.1.1 ++ EQUALS :: print_value a.1.2 a.2 ++ rest) = Some (b a.1.1, a.2, rest).
Proof.
  intros Hn Hv. unfold lex_attr. rewrite lex_name_app by done. cbn [option_bind mbind fst snd].
  rewrite skip_blank_id by done. rewrite decide_True by done. rewrite skip_blank_id by apply value_head.
  by rewrite lex_value_print.
Qed.

Lemma lex_attrs_print (e : bool) a rest n :
  attrs_ok a → length a < n →
  lex_attrs n (print_attrs a ++ (if e then [SLASH; GT] else [GT]) ++ rest) = Some (attrs_of a, e, rest).
Proof.
  intros [Ha _]. revert n. induction Ha as [|x a [Hn Hv] _ IH]; intros [|n] Hlt; cbn [length] in Hlt; try lia; cbn [lex_attrs].
  - by destruct e.
  - unfold print_attrs. cbn [fmap list_fmap concat]. fold (print_attrs a). rewrite <-app_assoc.
    set (L := print_attrs a ++ _) in *.
    assert (skip_blank (print_attr x ++ L) = b x.1.1 ++ EQUALS :: print_value x.1.2 x.2 ++ L) as Hs.
    { unfold print_attr. rewrite <-app_comm_cons, <-app_assoc. cbn [app].
      change (skip_blank (SPACE :: ?t)) with (skip_blank t). by apply skip_blank_name. }
    rewrite Hs. destruct (b x.1.1) as [|c t] eqn:Hb; [destruct Hn as [Hne _]; by destruct x.1.1|].
    destruct (proj1 (Forall_cons _ _ _) (eq_ind _ _ (proj2 Hn) _ Hb)) as [Hc _]. apply name_char_not in Hc.
    cbn [app]. rewrite !decide_False by set_solver. change (from_option blank false (head (print_attr x ++ L))) with true. cbn iota.
    rewrite app_comm_cons, <-Hb. rewrite lex_attr_print by done. cbn [mbind option_bind fst snd]. rewrite IH by lia. done.
Qed.

(** The tokens of a document. *)
Fixpoint tokens (x : node) : list token :=
  match x with
  | Leaf n a => [TEmpty (b n) (attrs_of a)]
  | Text n a _ t => TOpen (b n) (attrs_of a) :: (match t with [] => [] | _ => [TChars t] end) ++ [TClose (b n)]
  | Node n a k => TOpen (b n) (attrs_of a) :: concat (tokens <$> k) ++ [TClose (b n)]
  end.

(** What follows a piece of a document: nothing, or a tag. *)
Definition tag_next (l : text) : Prop := l = [] ∨ head l = Some LT.

(** [l] is read as the tokens [ts], whatever tags follow. *)
Definition lexes (l : text) (ts : list token) : Prop :=
  (∀ n rest, tag_next rest → lex (length ts + n) (l ++ rest) = (ts' ← lex n rest; Some (ts ++ ts'))) ∧ length ts ≤ length l ∧ tag_next l.

Lemma lexes_nil : lexes [] [].
Proof. split; [|split; [done|by left]]. intros n rest _. cbn. by destruct (lex n rest). Qed.

Lemma lexes_app l1 l2 ts1 ts2 : lexes l1 ts1 → lexes l2 ts2 → lexes (l1 ++ l2) (ts1 ++ ts2).
Proof.
  intros (H1 & L1 & N1) (H2 & L2 & N2). split; [|split].
  - intros n rest Hr. rewrite length_app, <-Nat.add_assoc, <-app_assoc, H1.
    + rewrite H2 by done. destruct (lex n rest); cbn; [by rewrite app_assoc|done].
    + destruct N2 as [->|N2]; [done|]. right. by destruct l2.
  - rewrite !length_app. lia.
  - destruct N1 as [->|N1]; [done|]. right. by destruct l1.
Qed.

Lemma lexes_concat {A} (f : A → text) (g : A → list token) k :
  Forall (λ x, lexes (f x) (g x)) k → lexes (concat (f <$> k)) (concat (g <$> k)).
Proof. induction 1 as [|x k Hx _ IH]; [apply lexes_nil|]. by apply lexes_app. Qed.

(** One token. *)
Lemma lexes_token c l t :
  (∀ rest, tag_next rest → lex_token (c :: l ++ rest) = Some (t, rest)) → c = LT → lexes (c :: l) [t].
Proof.
  intros Ht Hc. split; [|split; [cbn; lia|right; by rewrite Hc]]. intros n rest Hr. cbn [length Nat.add app lex].
  rewrite Ht by done. cbn. by destruct (lex n rest).
Qed.

Lemma lex_tag (e : bool) n a m rest :
  name_ok n → attrs_ok a →
  lex (S m) ((LT :: b n ++ print_attrs a ++ (if e then [SLASH; GT] else [GT])) ++ rest) =
  (ts ← lex m rest; Some ((if e then TEmpty (b n) (attrs_of a) else TOpen (b n) (attrs_of a)) :: ts)).
Proof.
  intros Hn Ha. cbn [app lex]. unfold lex_token. rewrite decide_True by done.
  assert (∃ c t, b n = c :: t ∧ c ≠ SLASH) as (c & t & Hb & Hc).
  { destruct Hn as [Hne Hn]. destruct n as [|c n]; [done|]. apply Forall_cons in Hn as [Hc _]. apply name_char_not in Hc.
    exists c, (b n). split; [done|set_solver]. }
  replace (from_option _ false (head _)) with false by (rewrite Hb; cbn; by rewrite bool_decide_eq_false_2).
  rewrite <-!app_assoc. rewrite lex_name_app; [|done|].
  - cbn [mbind option_bind fst snd]. rewrite lex_attrs_print; [|done|].
    + cbn [mbind option_bind fst snd]. rewrite decide_True by (by destruct Ha). by destruct e.
    + cbn [length]. rewrite !length_app. assert (length a ≤ length (print_attrs a)); [|lia].
      unfold print_attrs. clear. induction a as [|x a IH]; [done|]. cbn [fmap list_fmap concat]. rewrite length_app. cbn. lia.
  - destruct a as [|x a]; [by destruct e|done].
Qed.
Lemma lexes_tag (e : bool) n a :
  name_ok n → attrs_ok a →
  lexes (LT :: b n ++ print_attrs a ++ (if e then [SLASH; GT] else [GT])) [if e then TEmpty (b n) (attrs_of a) else TOpen (b n) (attrs_of a)].
Proof.
  intros Hn Ha. split; [|split; [cbn; lia|by right]]. intros m rest _. cbn [length Nat.add]. rewrite lex_tag by done.
  by destruct (lex m rest).
Qed.

Lemma lexes_close n : name_ok n → lexes (close_tag n) [TClose (b n)].
Proof.
  intros Hn. apply lexes_token; [|done]. intros rest _. unfold lex_token. rewrite decide_True by done. cbn [app head from_option tail].
  rewrite bool_decide_eq_true_2 by done. rewrite <-app_assoc. rewrite lex_name_app by done. cbn [mbind option_bind fst snd].
  rewrite skip_blank_id by done. cbn [app]. by rewrite decide_True.
Qed.

Lemma print_content_no how t : content_ok how t → LT ∉ print_content how t ∧ CR ∉ print_content how t.
Proof.
  destruct how; cbn; intros H.
  - split; (eapply char_all; [exact H|]); cbn; intros [_ Hx]; set_solver.
  - split; [apply escape_no_LT|]. apply escape_no_CR. eapply Forall_impl; [exact H|]. naive_solver.
Qed.
Lemma expand_content how t : content_ok how t → expand text_char None (print_content how t) = Some t.
Proof.
  destruct how; cbn; intros H; [by apply expand_raw|]. apply expand_escape. eapply Forall_impl; [exact H|]. naive_solver.
Qed.
Lemma print_content_nil how t : print_content how t = [] → t = [].
Proof.
  destruct how; [done|]. destruct t as [|c t]; [done|]. cbn [print_content]. rewrite escape_cons. intros [H _]%app_nil.
  exfalso. revert H. each_char c; discriminate.
Qed.

(** Character data before a tag. *)
Lemma lex_content how t n rest :
  content_ok how t → t ≠ [] → head rest = Some LT →
  lex (S n) (print_content how t ++ rest) = (ts ← lex n rest; Some (TChars t :: ts)).
Proof.
  intros Ht Hne Hr. destruct (print_content_no how t Ht) as [HL _]. pose proof (expand_content _ _ Ht) as He.
  destruct (print_content how t) as [|c l] eqn:E; [by apply print_content_nil in E|]. destruct rest as [|d rest]; [done|].
  injection Hr as ->. apply not_elem_of_cons in HL as Hc. destruct Hc as [Hc _].
  assert (Forall (λ x, negb (bool_decide (x = LT)) = true) (c :: l)) as Hall.
  { apply Forall_forall. intros x Hx. rewrite bool_decide_eq_false_2; [done|]. by intros ->. }
  cbn [lex app]. unfold lex_token. rewrite decide_False by done. rewrite app_comm_cons, take_while_prefix, drop_while_app by done.
  rewrite He. cbn. by destruct (lex n (LT :: rest)).
Qed.

Lemma lexes_text n a how t :
  name_ok n → attrs_ok a → content_ok how t → lexes (print_node (Text n a how t)) (tokens (Text n a how t)).
Proof.
  intros Hn Ha Ht. pose proof (λ m rest, lex_tag false n a m rest Hn Ha) as H1. destruct (lexes_close n Hn) as (H3 & L3 & _).
  cbn [print_node tokens]. split; [|split; [|by right]].
  - intros m rest Hr. rewrite <-!app_assoc. cbn [length Nat.add]. unfold open_tag. rewrite H1. destruct t as [|x t].
    + destruct (print_content how []) eqn:E; [|by destruct how]. cbn [app length Nat.add].
      pose proof (H3 m rest Hr) as H4. cbn [length Nat.add] in H4. rewrite H4. by destruct (lex m rest).
    + cbn [app length Nat.add]. rewrite lex_content by done. pose proof (H3 m rest Hr) as H4. cbn [length Nat.add] in H4. rewrite H4. by destruct (lex m rest).
  - cbn. rewrite !length_app. cbn. rewrite !length_app. cbn. destruct t as [|x t]; cbn; [lia|].
    destruct (print_content how (x :: t)) eqn:E; [by apply print_content_nil in E|]. cbn. lia.
Qed.

(** Induction on documents, with the hypothesis for the children. *)
Lemma node_nested (P : node → Prop) :
  (∀ n a, P (Leaf n a)) → (∀ n a h t, P (Text n a h t)) → (∀ n a k, Forall P k → P (Node n a k)) → ∀ x, P x.
Proof.
  intros H1 H2 H3. fix IH 1. intros [n a|n a h t|n a k]; [apply H1|apply H2|]. apply H3.
  induction k as [|y k IHk]; constructor; [apply IH|apply IHk].
Qed.

Lemma nodes_ok k : foldr (λ y P, node_ok y ∧ P) True k ↔ Forall node_ok k.
Proof. induction k as [|y k IH]; [done|]. cbn. rewrite IH. by rewrite Forall_cons. Qed.

Lemma lexes_node x : node_ok x → lexes (print_node x) (tokens x).
Proof.
  induction x as [n a|n a h t|n a k IH] using node_nested; cbn [node_ok].
  - intros [Hn Ha]. apply (lexes_tag true n a Hn Ha).
  - intros (Hn & Ha & Ht). by apply lexes_text.
  - rewrite nodes_ok. intros (Hn & Ha & Hk). cbn [print_node tokens]. apply (lexes_app _ _ [_]); [apply (lexes_tag false n a Hn Ha)|].
    apply lexes_app; [|by apply lexes_close]. apply lexes_concat. rewrite Forall_forall in *. auto.
Qed.

(** ** The element of the tokens *)

Definition add_kids (l : list xml) (f : frame) : frame := MkFrame (fr_name f) (fr_attrs f) (fr_content f) (reverse l ++ fr_kids f).

Lemma build_node x f stack ts : build (f :: stack) (tokens x ++ ts) = build (add_kid (element x) f :: stack) ts.
Proof.
  revert f stack ts. induction x as [n a|n a h t|n a k IH] using node_nested; intros f stack ts; cbn [tokens element].
  - done.
  - destruct t as [|c t]; cbn [app build fr_name add_chars]; rewrite decide_True by done; done.
  - assert (∀ g ts, build (g :: f :: stack) (concat (tokens <$> k) ++ ts) = build (add_kids (element <$> k) g :: f :: stack) ts) as Hk.
    { clear ts. induction IH as [|y k Hy _ IHk]; intros g ts; [by destruct g|]. cbn [fmap list_fmap concat]. rewrite <-app_assoc, Hy.
      etransitivity; [apply IHk|]. unfold add_kids, add_kid. cbn [fr_name fr_attrs fr_content fr_kids]. by rewrite reverse_cons, <-app_assoc. }
    cbn [app build]. rewrite <-app_assoc, Hk. cbn [app build fr_name add_kids]. rewrite decide_True by done.
    unfold close_frame, add_kids. cbn [fr_name fr_attrs fr_content fr_kids]. by rewrite app_nil_r, reverse_involutive.
Qed.

Lemma build_root x : build [] (tokens x) = Some (element x).
Proof.
  destruct x as [n a|n a h t|n a k]; cbn [tokens element].
  - done.
  - destruct t as [|c t]; cbn [app build fr_name add_chars]; rewrite decide_True by done; done.
  - assert (∀ g, build [g] (concat (tokens <$> k) ++ [TClose (b n)]) = build [add_kids (element <$> k) g] [TClose (b n)]) as Hk.
    { induction k as [|y k IHk]; intros g; [by destruct g|]. cbn [fmap list_fmap concat]. rewrite <-app_assoc, build_node.
      etransitivity; [apply IHk|]. unfold add_kids, add_kid. cbn [fr_name fr_attrs fr_content fr_kids]. by rewrite reverse_cons, <-app_assoc. }
    cbn [app build]. rewrite Hk. cbn [app build fr_name add_kids]. rewrite decide_True by done.
    unfold close_frame, add_kids. cbn [fr_name fr_attrs fr_content fr_kids]. by rewrite app_nil_r, reverse_involutive.
Qed.

(** No carriage return is written. *)
Lemma print_value_no_CR q v : value_ok q v → CR ∉ print_value q v.
Proof.
  destruct q; cbn; intros H.
  - rewrite not_elem_of_cons, not_elem_of_app. split_and!; [done| |set_solver]. eapply char_all; [exact H|]. cbn. intros [_ Hx]. set_solver.
  - unfold quoteattr. fold (escape_quot v). pose proof (escape_attr_no_CR v). pose proof (escape_quot_no_CR v).
    repeat case_decide; rewrite not_elem_of_cons, not_elem_of_app; (split_and!; [done|done|set_solver]).
Qed.
Lemma name_no_CR n : name_ok n → CR ∉ b n.
Proof. intros [_ H]. by eapply char_all; [exact H|]. Qed.
Lemma print_attrs_no_CR a : attrs_ok a → CR ∉ print_attrs a.
Proof.
  intros [H _]. induction H as [|x a [Hn Hv] _ IH]; [apply not_elem_of_nil|]. unfold print_attrs. cbn [fmap list_fmap concat].
  rewrite not_elem_of_app. split; [|done]. unfold print_attr. rewrite not_elem_of_cons, not_elem_of_app, not_elem_of_cons.
  split_and!; [done|by apply name_no_CR|done|by apply print_value_no_CR].
Qed.
Lemma print_no_CR x : node_ok x → CR ∉ print_node x.
Proof.
  assert (∀ n a e, name_ok n → attrs_ok a → CR ∉ e → CR ∉ LT :: b n ++ print_attrs a ++ e) as Htag.
  { intros n a e Hn Ha He. rewrite not_elem_of_cons, !not_elem_of_app. split_and!; [done|by apply name_no_CR|by apply print_attrs_no_CR|done]. }
  assert (∀ n, name_ok n → CR ∉ close_tag n) as Hclose.
  { intros n Hn. unfold close_tag. rewrite !not_elem_of_cons, not_elem_of_app. split_and!; [done|done|by apply name_no_CR|by_decide]. }
  induction x as [n a|n a h t|n a k IH] using node_nested; cbn [node_ok print_node].
  - intros [Hn Ha]. apply Htag; [done|done|by_decide].
  - intros (Hn & Ha & Ht). rewrite !not_elem_of_app. split_and!; [apply Htag; [done|done|by_decide]|by apply print_content_no|auto].
  - rewrite nodes_ok. intros (Hn & Ha & Hk). rewrite !not_elem_of_app. split_and!; [apply Htag; [done|done|by_decide]| |auto].
    rewrite elem_of_concat. intros (l & (y & -> & Hy)%list_elem_of_fmap & Hin). rewrite Forall_forall in IH, Hk. by apply (IH y Hy (Hk y Hy)).
Qed.

(** What is written is read back. *)
Lemma read_print x : node_ok x → read_xml (print_node x) = Some (element x).
Proof.
  intros Hx. unfold read_xml. rewrite normalize_eol_id by by apply print_no_CR. destruct (lexes_node x Hx) as (Hl & Hlen & _).
  specialize (Hl (length (print_node x) - length (tokens x)) [] (or_introl eq_refl)). rewrite app_nil_r in Hl.
  replace (length (tokens x) + _) with (length (print_node x)) in Hl by lia. rewrite Hl.
  assert (∀ n, lex n [] = Some []) as -> by (by intros []). cbn. rewrite app_nil_r. apply build_root.
Qed.
