(* ===== verification/Shell.v ===== *)
(** * Command lines ([shlex], and the words a POSIX shell reads)

    [shlex.quote] and [shlex.join], through which every command of
    [communicators/ssh.py] goes, and a reference reader of the shell.  The lexer knows
    words, blanks, single and double quotes, [&&], [;], [>], [2>] and [$?]; a character the
    shell would interpret makes it give up ([None]).  A word keeps the place of its first
    quote, because the shell takes a word that is wholly bare and reserved ([if], [time])
    for syntax, and a word in front of the command that begins with a bare [NAME=] for an
    assignment: [simple_command] and [shell_commands] read words that way.
    [lex_join] is the round trip of the words; which words of an argument vector the shell
    runs as a command is [command_word].  How the shell finds the command it was given (a
    builtin, a function, a program) is not modelled. *)

From S2P Require Import Prelude Exceptions PyBytes Url.
From stdpp Require Import options.

Definition SQUOTE : ascii := chr 39.
Definition DQUOTE : ascii := chr 34.
Definition GT : ascii := chr 62.
Definition SEMI : ascii := chr 59.
Definition DOLLAR : ascii := chr 36.
Definition TWO : ascii := chr 50.

(** ** [shlex] *)

(** The complement of [[^\w@%+=:,./-]] (ASCII). *)
Definition shell_safe (c : ascii) : bool := is_alnum c || bool_decide (c ∈ b "_@%+=:,./-").

(** [s.replace("'", ...)]: each quote becomes an end quote, a quoted quote and a start
    quote. *)
Definition escape_quotes (s : text) : text :=
  concat ((λ c, if decide (c = SQUOTE) then [SQUOTE; DQUOTE; SQUOTE; DQUOTE; SQUOTE] else [c]) <$> s).

Definition shlex_quote (s : text) : text :=
  match s with
  | [] => [SQUOTE; SQUOTE]
  | _ => if forallb shell_safe s then s else SQUOTE :: escape_quotes s ++ [SQUOTE]
  end.

Definition shlex_join (argv : list text) : text := join_with SPACE (shlex_quote <$> argv).

(** ** The shell *)

(** In [Word w q], [q] is the number of characters in front of the first quote of the
    word, and [None] when it has no quote. *)
Inductive shell_token : Type :=
  | Word (w : text) (q : option nat)
  | AndIf
  | OutTo
  | Semi
  | ErrTo
  | LastStatus.

Inductive quoting : Type := Bare | Single | Double.

(** Characters with a meaning of their own outside quotes. *)
Definition shell_special (c : ascii) : bool :=
  bool_decide (c ∈ b "|<()$`\*?[]#~!{}^") || bool_decide (c = chr 10).

Definition is_sep (c : ascii) : bool := bool_decide (c = SPACE) || bool_decide (c = chr 9).

(** A word being read, with the place of its first quote. *)
Definition partial_word : Type := option (text * option nat).
Definition flush (cur : partial_word) : list shell_token := match cur with Some (w, q) => [Word w q] | None => [] end.
Definition grow (c : ascii) (cur : partial_word) : partial_word :=
  match cur with Some (w, q) => Some (w ++ [c], q) | None => Some ([c], None) end.
Definition open_quote (cur : partial_word) : partial_word :=
  match cur with Some (w, q) => Some (w, Some (default (length w) q)) | None => Some ([], Some 0) end.
Definition stream_number (cur : partial_word) : bool := match cur with Some (w, None) => forallb is_digit w | _ => false end.

Definition ends_word (l : text) : bool := match l with [] => true | c :: _ => is_sep c || bool_decide (c = SEMI) end.

(** [cur] is the word being read, if one has started.  A number in front of [>] names a
    stream: read for [2] at the start of a word, given up otherwise. *)
Fixpoint lex (q : quoting) (cur : partial_word) (l : text) : option (list shell_token) :=
  match l with
  | [] => match q with Bare => Some (flush cur) | _ => None end
  | c :: l =>
      match q with
      | Bare =>
          if is_sep c then app (flush cur) <$> lex Bare None l
          else if decide (c = AMP) then
            match l with
            | c2 :: l => if decide (c2 = AMP) then app (flush cur ++ [AndIf]) <$> lex Bare None l else None
            | [] => None
            end
          else if decide (c = SEMI) then app (flush cur ++ [Semi]) <$> lex Bare None l
          else if decide (c = GT) then
            if stream_number cur then None else app (flush cur ++ [OutTo]) <$> lex Bare None l
          else if decide (c = SQUOTE) then lex Single (open_quote cur) l
          else if decide (c = DQUOTE) then lex Double (open_quote cur) l
          else if decide (c = TWO ∧ cur = None ∧ head l = Some GT) then
            match l with _ :: l => app [ErrTo] <$> lex Bare None l | [] => None end
          else if decide (c = DOLLAR ∧ cur = None ∧ head l = Some QMARK ∧ ends_word (tail l) = true) then
            match l with _ :: l => app [LastStatus] <$> lex Bare None l | [] => None end
          else if shell_special c then None
          else lex Bare (grow c cur) l
      | Single =>
          if decide (c = SQUOTE) then lex Bare cur l else lex Single (grow c cur) l
      | Double =>
          if decide (c = DQUOTE) then lex Bare cur l
          else if bool_decide (c ∈ b "$`\") then None
          else lex Double (grow c cur) l
      end
  end.

Definition shell_tokens (l : text) : option (list shell_token) := lex Bare None l.

(** ** The round trip *)

Lemma safe_char c :
  shell_safe c = true → is_sep c = false ∧ c ≠ AMP ∧ c ≠ SEMI ∧ c ≠ GT ∧ c ≠ SQUOTE ∧ c ≠ DQUOTE ∧ c ≠ DOLLAR ∧ shell_special c = false.
Proof. revert c. refine (forall_bytes (λ c, _ → _) _). vm_compute. reflexivity. Qed.

(** A safe character that does not start the name of a stream goes into the word. *)
Lemma lex_safe_char c cur rest :
  shell_safe c = true → (cur ≠ None ∨ c ≠ TWO ∨ head rest ≠ Some GT) → lex Bare cur (c :: rest) = lex Bare (grow c cur) rest.
Proof.
  intros Hc Hcur. destruct (safe_char c Hc) as (H1 & H2 & H3 & H4 & H5 & H6 & H7 & H8). cbn [lex].
  rewrite H1, !(decide_False (P:=c = _)), H8 by done. rewrite decide_False by naive_solver. by rewrite decide_False by naive_solver.
Qed.

Lemma lex_safe w acc q rest :
  Forall (λ c, shell_safe c = true) w → lex Bare (Some (acc, q)) (w ++ rest) = lex Bare (Some (acc ++ w, q)) rest.
Proof.
  intros Hw. revert acc. induction Hw as [|c w Hc _ IH]; intros acc; [by rewrite app_nil_r|].
  cbn [app]. rewrite lex_safe_char by (done || by left). cbn [grow]. rewrite IH. by rewrite <-app_assoc.
Qed.

Lemma lex_quoted w acc k rest :
  lex Single (Some (acc, Some k)) (escape_quotes w ++ SQUOTE :: rest) = lex Bare (Some (acc ++ w, Some k)) rest.
Proof.
  unfold escape_quotes. revert acc. induction w as [|c w IH]; intros acc; [by rewrite app_nil_r|].
  cbn [fmap list_fmap concat]. destruct (decide (c = SQUOTE)) as [->|Hc].
  - rewrite <-app_assoc. etrans; [apply (IH (acc ++ [SQUOTE]))|]. by rewrite <-app_assoc.
  - cbn [app lex]. rewrite decide_False by done. cbn [grow]. rewrite IH. by rewrite <-app_assoc.
Qed.

Lemma forallb_Forall {A} (p : A → bool) l : forallb p l = true → Forall (λ c, p c = true) l.
Proof. rewrite forallb_forall. intros H. apply Forall_forall. intros x Hx. by apply H, list_elem_of_In. Qed.

(** Plain words need no quotes. *)
Definition plain_word (w : text) : bool := bool_decide (w ≠ []) && forallb shell_safe w.

Lemma quote_plain w : plain_word w = true → shlex_quote w = w.
Proof. intros [Hne Hs]%andb_true_iff. apply bool_decide_eq_true in Hne. unfold shlex_quote. destruct w; [done|]. by rewrite Hs. Qed.

(** A quoted argument, as the shell reads it: bare, or quoted from its first character. *)
Definition as_word (w : text) : text * option nat := (w, if plain_word w then None else Some 0).
Definition arg_word (w : text) : shell_token := Word w (as_word w).2.

Lemma lex_quote w rest : head rest ≠ Some GT → lex Bare None (shlex_quote w ++ rest) = lex Bare (Some (as_word w)) rest.
Proof.
  intros Hrest. unfold as_word, plain_word. destruct w as [|c w]; [done|]. rewrite bool_decide_true by done. cbn [andb].
  unfold shlex_quote. destruct (forallb shell_safe (c :: w)) eqn:E.
  - apply forallb_Forall, Forall_cons in E as [Hc Hw]. cbn [app]. rewrite lex_safe_char; [cbn [grow]; by rewrite lex_safe|done|].
    destruct w as [|c' w]; [by right; right|]. right. right. cbn. intros [= ->]. apply Forall_cons in Hw as [Hw _]. by vm_compute in Hw.
  - change (lex Bare None ((SQUOTE :: escape_quotes (c :: w) ++ [SQUOTE]) ++ rest))
      with (lex Single (Some ([], Some 0)) ((escape_quotes (c :: w) ++ [SQUOTE]) ++ rest)).
    rewrite <-app_assoc. apply lex_quoted.
Qed.

Lemma lex_words ws cur rest :
  head rest ≠ Some GT →
  lex Bare cur (concat ((λ w, SPACE :: shlex_quote w) <$> ws) ++ rest) =
  match ws with [] => lex Bare cur rest
  | _ => app (flush cur ++ (arg_word <$> take (length ws - 1) ws)) <$> lex Bare (as_word <$> last ws) rest end.
Proof.
  intros Hrest. revert cur. induction ws as [|w ws IH]; intros cur; [done|]. cbn [fmap list_fmap concat].
  rewrite <-app_assoc. change (lex Bare cur ((SPACE :: shlex_quote w) ++ concat ((λ w, SPACE :: shlex_quote w) <$> ws) ++ rest))
    with (app (flush cur) <$> lex Bare None (shlex_quote w ++ concat ((λ w, SPACE :: shlex_quote w) <$> ws) ++ rest)).
  rewrite lex_quote, IH by (by destruct ws). destruct ws as [|w' ws]; cbn [length Nat.sub take fmap list_fmap]; [by rewrite app_nil_r|].
  rewrite last_cons_cons. rewrite <-option_fmap_compose. apply option_fmap_ext. intros l. cbn.
  rewrite Nat.sub_0_r. by rewrite <-app_assoc.
Qed.

Lemma join_with_cons c w ws : join_with c (w :: ws) = w ++ concat ((λ v, c :: v) <$> ws).
Proof.
  revert w. induction ws as [|v ws IH]; intros w; [cbn; by rewrite app_nil_r|].
  change (join_with c (w :: v :: ws)) with (w ++ c :: join_with c (v :: ws)). by rewrite IH.
Qed.

(** The words of a quoted argument vector, in front of a line that ends there. *)
Lemma lex_join argv : lex Bare None (shlex_join argv) = Some (arg_word <$> argv).
Proof.
  unfold shlex_join. destruct argv as [|w ws]; [done|]. rewrite fmap_cons, join_with_cons, lex_quote by (by destruct ws).
  rewrite <-list_fmap_compose. rewrite <-(app_nil_r (concat _)), lex_words by done.
  destruct ws as [|v ws]; [done|]. destruct (exists_last (l:=v :: ws)) as (l & x & E); [done|]. rewrite E.
  rewrite last_snoc, length_app, Nat.add_sub, take_app_length. cbn. by rewrite fmap_app.
Qed.

(** Quoted words in front of the rest of a line. *)
Lemma lex_join_app w ws rest :
  lex Bare None (shlex_join (w :: ws) ++ SPACE :: rest) = app (arg_word <$> w :: ws) <$> lex Bare None rest.
Proof.
  unfold shlex_join. rewrite fmap_cons, join_with_cons, <-app_assoc, lex_quote by (by destruct ws). rewrite <-list_fmap_compose, lex_words by done.
  destruct ws as [|v ws]; [done|]. destruct (exists_last (l:=v :: ws)) as (l & x & E); [done|]. rewrite E.
  rewrite last_snoc, length_app, Nat.add_sub, take_app_length.
  change (lex Bare (as_word <$> Some x) (SPACE :: rest)) with (app [arg_word x] <$> lex Bare None rest).
  rewrite <-option_fmap_compose. destruct (lex Bare None rest) as [toks|]; [|done]. cbn [fmap option_fmap option_map compose flush].
  rewrite fmap_cons, fmap_app. cbn. by rewrite <-app_assoc.
Qed.

Definition bare_word (w : text) : shell_token := Word w None.

Lemma tokens_plain ws : forallb plain_word ws = true → shell_tokens (join_with SPACE ws) = Some (bare_word <$> ws).
Proof.
  intros Hp%forallb_Forall. transitivity (Some (arg_word <$> ws)).
  - rewrite <-lex_join. unfold shell_tokens, shlex_join. do 2 f_equal.
    induction Hp as [|w ws Hw _ IH]; [done|]. cbn [fmap list_fmap]. rewrite quote_plain by done. by f_equal.
  - f_equal. apply list_fmap_ext. intros i w Hw. eapply Forall_lookup_1 in Hp; [|exact Hw]. unfold arg_word, as_word. by rewrite Hp.
Qed.

(** ** Commands

    The first word of a command, when no character of it is quoted, may be reserved; the
    words in front of the command word that begin with a bare name and [=] (or [+=]) are
    assignments.  The reserved words are those of POSIX and the ones [bash] and [ksh] add,
    but for those with a character the lexer gives up on. *)
Definition RESERVED : list text :=
  [b "if"; b "then"; b "else"; b "elif"; b "fi"; b "do"; b "done"; b "case"; b "esac"; b "while"; b "until"; b "for"; b "in";
   b "function"; b "select"; b "time"; b "coproc"].
Definition reserved (w : text) (q : option nat) : bool := bool_decide (q = None) && bool_decide (w ∈ RESERVED).

Definition is_name (w : text) : bool :=
  match w with [] => false | c :: _ => negb (is_digit c) && forallb (λ c, is_alnum c || bool_decide (c ∈ b "_")) w end.
Definition drop_plus (w : text) : text := if decide (last w = Some (chr 43)) then take (length w - 1) w else w.
Definition assignment (w : text) (q : option nat) : bool :=
  let '(name, found, _) := partition EQUALS w in
  found && match q with Some k => bool_decide (length name < k) | None => true end && is_name (drop_plus name).

Record command : Type := MkCommand { c_assigns : list text; c_words : list text }.

Fixpoint split_assigns (l : list (text * option nat)) : command :=
  match l with
  | (w, q) :: l' =>
      if assignment w q then let c := split_assigns l' in MkCommand (w :: c_assigns c) (c_words c)
      else MkCommand [] (l.*1)
  | [] => MkCommand [] []
  end.

(** A command has a first word, and that is not reserved. *)
Definition simple_command (l : list (text * option nat)) : option command :=
  match l with
  | [] => None
  | (w, q) :: _ => if reserved w q then None else Some (split_assigns l)
  end.

(** Commands joined by [&&]. *)
Fixpoint and_list (cur : list (text * option nat)) (l : list shell_token) : option (list command) :=
  match l with
  | [] => (λ c, [c]) <$> simple_command cur
  | Word w q :: l => and_list (cur ++ [(w, q)]) l
  | AndIf :: l => c ← simple_command cur; cs ← and_list [] l; Some (c :: cs)
  | _ => None
  end.

Definition shell_commands (line : text) : option (list command) :=
  toks ← shell_tokens line;
  match toks with [] => Some [] | _ => and_list [] toks end.

(** The words that, bare in front of a command, are not its name. *)
Definition command_word (w : text) : bool := negb (forallb shell_safe w && (bool_decide (w ∈ RESERVED) || assignment w None)).

Lemma quoted_assignment w : assignment w (Some 0) = false.
Proof. unfold assignment. destruct (partition EQUALS w) as [[name found] z]. by destruct found. Qed.
Lemma quoted_command w :
  command_word w = true ↔ reserved w (as_word w).2 = false ∧ assignment w (as_word w).2 = false.
Proof.
  unfold command_word, as_word, plain_word, reserved. destruct w as [|c w]; [by vm_compute|].
  rewrite (bool_decide_true (c :: w ≠ [])) by done. cbn [andb snd]. destruct (forallb shell_safe (c :: w)).
  - cbn [andb]. rewrite negb_true_iff. by rewrite orb_false_iff.
  - by rewrite quoted_assignment.
Qed.

(** Where the command begins. *)
Lemma split_assigns_app l :
  l.*1 = c_assigns (split_assigns l) ++ c_words (split_assigns l) ∧
  Forall (λ w, ∃ q, (w, q) ∈ l ∧ assignment w q = true) (c_assigns (split_assigns l)).
Proof.
  induction l as [|[w q] l [IH1 IH2]]; [done|]. cbn [split_assigns]. destruct (assignment w q) eqn:Ha; cbn [c_assigns c_words]; [|by split].
  split; [by cbn; f_equal|]. constructor; [exists q; split; [left|done]|]. eapply Forall_impl; [exact IH2|].
  intros v (q' & Hin & Hv). exists q'. split; [by right|done].
Qed.

Lemma command_of_args a argv : command_word a = true → simple_command (as_word <$> a :: argv) = Some (MkCommand [] (a :: argv)).
Proof.
  intros [Hr Ha]%quoted_command. rewrite fmap_cons, (surjective_pairing (as_word a)). cbn [simple_command split_assigns]. cbn [fst as_word] in *.
  rewrite Hr, Ha. do 2 f_equal. cbn. f_equal. induction argv as [|w ws IH]; [done|]. cbn. by f_equal.
Qed.

Lemma and_list_words cur ws l : and_list cur ((arg_word <$> ws) ++ l) = and_list (cur ++ (as_word <$> ws)) l.
Proof.
  revert cur. induction ws as [|w ws IH]; intros cur; [by rewrite app_nil_r|]. cbn [fmap list_fmap app].
  change (and_list cur (arg_word w :: (arg_word <$> ws) ++ l)) with (and_list (cur ++ [as_word w]) ((arg_word <$> ws) ++ l)).
  rewrite IH. by rewrite <-app_assoc.
Qed.

(** The commands of a quoted argument vector. *)
Lemma commands_join a argv : shell_commands (shlex_join (a :: argv)) = (λ c, [c]) <$> simple_command (as_word <$> a :: argv).
Proof.
  unfold shell_commands, shell_tokens. rewrite lex_join. cbn [mbind option_bind].
  pose proof (and_list_words [] (a :: argv) []) as H. rewrite app_nil_r in H. exact H.
Qed.

Lemma joined_command argv :
  (shell_commands (shlex_join argv) = Some [MkCommand [] argv] ↔ ∃ a args, argv = a :: args ∧ command_word a = true) ∧
  (∀ cs, shell_commands (shlex_join argv) = Some cs →
     (argv = [] ∧ cs = []) ∨
     ∃ assigns words, cs = [MkCommand assigns words] ∧ argv = assigns ++ words ∧ Forall (λ w, command_word w = false) assigns).
Proof.
  destruct argv as [|a argv].
  { split; [split; [by vm_compute|by intros (a & args & [=] & _)]|]. intros cs. vm_compute. intros [= <-]. by left. }
  rewrite commands_join. split; [split|].
  - intros H. exists a, argv. split; [done|]. apply quoted_command. revert H. rewrite fmap_cons, (surjective_pairing (as_word a)).
    cbn [simple_command split_assigns fst as_word]. destruct (reserved a _); [done|]. by destruct (assignment a _).
  - intros (a' & args & [= <- <-] & H). by rewrite command_of_args.
  - intros cs (c & H & ->)%fmap_Some. right. exists (c_assigns c), (c_words c). split; [by destruct c|].
    revert H. rewrite fmap_cons, (surjective_pairing (as_word a)). cbn [simple_command]. rewrite <-(surjective_pairing (as_word a)), <-fmap_cons.
    destruct (reserved _ _); [done|]. intros H. apply (inj Some) in H as <-. destruct (split_assigns_app (as_word <$> a :: argv)) as [H1 H2]. split.
    + rewrite <-H1, <-list_fmap_compose. symmetry. apply list_fmap_id.
    + eapply Forall_impl; [exact H2|]. intros w (q & (v & [= -> ->] & _)%list_elem_of_fmap & Hq). apply not_true_iff_false.
      intros [_ Hw]%quoted_command. cbn in Hw. congruence.
Qed.
