(* ===== verification/Naming.v ===== *)
(** * Backend names ([drivers/libvirt/_naming.py], [drivers/proxmox/_naming.py],
      [drivers/esxi/_naming.py])

    The deterministic names, addresses and volume references each backend derives from
    plan names.  A text is its UTF-8 bytes: every byte of a character outside ASCII is
    outside the classes below, as the character is; [lower()] is that of ASCII. *)

From S2P Require Import Prelude Exceptions PyBytes Sha256 Url Conn.
From stdpp Require Import options.

Definition DASH : ascii := chr 45.

(** ** Sanitizing *)

(** [re.sub(r"[^cls]+", "-", s)] *)
Fixpoint sub_runs (cls : ascii → bool) (in_run : bool) (l : text) : text :=
  match l with
  | [] => []
  | c :: l =>
      if cls c then c :: sub_runs cls false l
      else if in_run then sub_runs cls true l else DASH :: sub_runs cls true l
  end.

(** [re.sub(r"-{2,}", "-", s)] *)
Fixpoint collapse (after_dash : bool) (l : text) : text :=
  match l with
  | [] => []
  | c :: l =>
      if decide (c = DASH) then (if after_dash then collapse true l else c :: collapse true l)
      else c :: collapse false l
  end.

(** [s.strip("-")] *)
Definition is_dash (c : ascii) : bool := bool_decide (c = DASH).
Definition strip_dashes (l : text) : text := reverse (drop_while is_dash (reverse (drop_while is_dash l))).

Definition HASH_SUFFIX_LEN : nat := 6.

(** The tail of the three sanitizers: a hash is appended when sanitizing changed the
    text ([reference]) or it is too long. *)
Definition fit (cap : nat) (cleaned reference value : text) : text :=
  if decide (cleaned ≠ reference ∨ cap < length cleaned) then
    let suffix := take HASH_SUFFIX_LEN (sha256_chars value) in
    take (cap - length suffix - 1) cleaned ++ DASH :: suffix
  else cleaned.

(** [[A-Za-z0-9_.-]], [[a-z0-9-]] *)
Definition name_class (c : ascii) : bool := is_alnum c || bool_decide (c ∈ b "_.-").
Definition dns_class (c : ascii) : bool := is_lower c || is_digit c || is_dash c.

(** [f"tr-{kind}-{run_id[:8]}-{name}"] *)
Definition composed (run_id kind name : string) : text :=
  b "tr-" ++ b kind ++ DASH :: take 8 (b run_id) ++ DASH :: b name.

(** [_SUFFIXES], the same table in the three modules. *)
Definition SUFFIXES : gmap string string :=
  {[ "build_disk" := ".qcow2"; "run_disk" := ".qcow2"; "data_disk" := ".qcow2"; "base_image" := ".qcow2";
     "build_seed" := ".iso"; "boot_iso" := ".iso"; "sidecar_disk" := ".qcow2"; "sidecar_config" := ".iso" ]}.
Definition naming_volume_suffix (kind : string) : res string := getitem SUFFIXES kind.

(** ** Hardware addresses *)

(** The [i]-th byte of [hashlib.sha256(s).digest()] *)
Definition digest_byte (msg : text) (i : nat) : nat :=
  let h := sha256_chars msg in
  16 * default 0 (h !! (2 * i) ≫= hex_value) + default 0 (h !! (2 * i + 1) ≫= hex_value).

(** [f"{b:02x}"] of a byte *)
Definition lower_hex (n : nat) : ascii := ascii_of_nat (if n <? 10 then 48 + n else 87 + n).
Definition hex2 (n : nat) : text := [lower_hex (n / 16); lower_hex (n mod 16)].
Definition mac_text (octets : list nat) : string := str (join_with COLON (hex2 <$> octets)).

Definition mac_message (plan_name vm_name : string) (nic_idx : Z) : text :=
  b plan_name ++ SLASH :: b vm_name ++ SLASH :: str_int nic_idx.

(** [s.endswith(suffix)], [s.rsplit(".", 1)[0]] *)
Definition ends_with (suffix l : text) : bool := bool_decide (drop (length l - length suffix) l = suffix).
Definition DOT : ascii := chr 46.
Definition stem (l : text) : text := let '(a, found, _) := rpartition DOT l in if found : bool then a else l.

(** ** libvirt *)
Module Lv.
Definition NAME_MAX : nat := 60.
Definition cleaned (value : text) : text :=
  collapse false (text_or (strip_dashes (sub_runs name_class false value)) (b "x")).
Definition lv_name (value : text) : text := fit NAME_MAX (cleaned value) value value.
Definition compose_resource_name (run_id kind name : string) : string := str (lv_name (composed run_id kind name)).
Definition bridge_name (network_backend_name : string) : string :=
  str (b "trb-" ++ take 10 (sha256_chars (b network_backend_name))).
Definition mac_octets (plan vm : string) (nic : Z) : list nat :=
  2 :: (digest_byte (mac_message plan vm nic) <$> seq 0 5).
Definition compose_mac (plan vm : string) (nic : Z) : string := mac_text (mac_octets plan vm nic).
Definition compose_volume_ref (pool vol : string) : string := pool +:+ "/" +:+ vol.
End Lv.

(** ** Proxmox *)
Module Pve.
Definition NAME_MAX : nat := 60.
Definition cleaned (value : text) : text :=
  text_or (collapse false (strip_dashes (sub_runs dns_class false (to_lower value)))) (b "x").
Definition pve_name (value : text) : text := fit NAME_MAX (cleaned value) (to_lower value) value.
Definition compose_resource_name (run_id kind name : string) : string := str (pve_name (composed run_id kind name)).
Definition mac_octets : string → string → Z → list nat := Lv.mac_octets.
Definition compose_mac (plan vm : string) (nic : Z) : string := mac_text (mac_octets plan vm nic).

Definition filename (pool vol : string) : text := sub_runs name_class false (b pool ++ b "__" ++ b vol).
Definition compose_volume_ref (storage pool vol : string) : string :=
  let content := if ends_with (b ".iso") (b vol) then b "iso" else b "import" in
  str (b storage ++ COLON :: content ++ SLASH :: filename pool vol).

Definition vnet_id (backend_name : string) : string := str (chr 118 :: take 7 (sha1_chars (b backend_name))).

(** [s.split(sep, 1)[1]] for a one-character separator: missing, an [IndexError] *)
Definition after (c : ascii) (l : text) : res text :=
  let '(_, found, z) := partition c l in if found : bool then mret z else raise IndexError [].

(** [pool_backend, vol_name = filename.split("__", 1)] *)
Definition parse_disk_ref (ref : string) : res (string * string) :=
  rest ← after COLON (b ref);
  fname ← after SLASH rest;
  match find (b "__") fname with
  | Some i => mret (str (take i fname), str (drop (i + 2) fname))
  | None => raise ValueError [ref]
  end.

Definition volid_relpath (volid : string) : res string :=
  rest ← after COLON (b volid);
  let '(head, _, fname) := partition SLASH rest in
  if decide (head = b "iso") then mret (str (b "template/iso/" ++ fname))
  else if decide (head = b "import") then mret (str (b "import/" ++ fname))
  else if decide (head ≠ [] ∧ forallb is_digit head = true) then mret (str (b "images/" ++ head ++ SLASH :: fname))
  else raise ValueError [volid].

(** [re.fullmatch(re.escape(vm) + r"-data(\d+)", base)] and the index *)
Definition disk_scsi_index (vol_name vm_backend_name : string) : option nat :=
  let base := stem (b vol_name) in
  let vm := b vm_backend_name in
  if decide (base = vm) then Some 0
  else
    let pre := vm ++ b "-data" in
    if starts_with pre base then
      let ds := drop (length pre) base in
      if decide (ds ≠ [] ∧ forallb is_digit ds = true) then Some (digits_nat ds + 1) else None
    else None.
End Pve.

(** ** ESXi *)
Module Esxi.
Definition NAME_MAX : nat := 78.
Definition cleaned (value : text) : text :=
  text_or (collapse false (strip_dashes (sub_runs name_class false value))) (b "x").
Definition esxi_name (value : text) : text := fit NAME_MAX (cleaned value) value value.
Definition compose_resource_name (run_id kind name : string) : string := str (esxi_name (composed run_id kind name)).

Definition mac_octets (plan vm : string) (nic : Z) : list nat :=
  let d := digest_byte (mac_message plan vm nic) in [0; 80; 86; Nat.land (d 0) 63; d 1; d 2].
Definition compose_mac (plan vm : string) (nic : Z) : string := mac_text (mac_octets plan vm nic).

Definition backend_filename (vol_name : text) : text :=
  if ends_with (b ".iso") vol_name then vol_name else stem vol_name ++ b ".vmdk".
Definition compose_volume_ref (datastore pool vol : string) : string :=
  str (LBR :: b datastore ++ RBR :: SPACE :: b pool ++ SLASH :: backend_filename (b vol)).

(** [\s] of ASCII; [.] is any character but a newline *)
Definition is_ws (c : ascii) : bool := is_blank c.
Definition NEWLINE : ascii := chr 10.

(** [^\[(?P<ds>[^\]]+)\]\s+(?P<path>.+)$]: the blanks are greedy but leave one character
    to the path, which stops at the first newline; [$] needs the rest to be empty or that
    newline alone at the end. *)
Definition match_path (l : text) : option text :=
  let p := take_while (λ c, negb (bool_decide (c = NEWLINE))) l in
  match p, drop (length p) l with
  | [], _ => None
  | _, [] => Some p
  | _, [_] => Some p
  | _, _ => None
  end.
(** [\s+] before the path: longest first *)
Fixpoint blanks_then_path (l : text) : option text :=
  match l with
  | c :: l => if is_ws c then match blanks_then_path l with Some p => Some p | None => match_path l end else None
  | [] => None
  end.
Definition parse_volume_ref (ref : string) : res (string * string) :=
  match b ref with
  | c :: l =>
      if decide (c = LBR) then
        let '(ds, found, rest) := partition RBR l in
        match ds, found, blanks_then_path rest with
        | _ :: _, true, Some p => mret (str ds, str p)
        | _, _, _ => raise ValueError [ref]
        end
      else raise ValueError [ref]
  | [] => raise ValueError [ref]
  end.

Definition ref_dir (ref : string) : res string :=
  '(_, path) ← parse_volume_ref ref;
  let '(a, found, _) := rpartition SLASH (b path) in
  mret (if found : bool then str a else "").

(** [_short] *)
Definition short (prefix value : string) : string := str (b prefix ++ take 8 (sha1_chars (b value))).
Definition vswitch_name : string → string := short "trs-".
Definition portgroup_name : string → string := short "trp-".
Definition mgmt_portgroup_name : string → string := short "trm-".
Definition uplink_vswitch_name : string → string := short "tru-".
Definition uplink_portgroup_name : string → string := short "trx-".
End Esxi.

(** ** Backend names: form, distinctness, round trips *)

(** ** The sanitizer *)

Lemma not_or_and (P Q : Prop) : ¬ (P ∨ Q) → ¬ P ∧ ¬ Q.
Proof. tauto. Qed.

Lemma hex_digit_or_lower c : is_hex c = true → is_digit c || is_lower c = true.
Proof. destruct c as [[] [] [] [] [] [] [] []]; vm_compute; congruence. Qed.

Lemma hex_name c : is_hex c = true → name_class c = true.
Proof. destruct c as [[] [] [] [] [] [] [] []]; vm_compute; congruence. Qed.
Lemma hex_dns c : is_hex c = true → dns_class c = true.
Proof. destruct c as [[] [] [] [] [] [] [] []]; vm_compute; congruence. Qed.
Lemma dns_name c : dns_class c = true → name_class c = true.
Proof. destruct c as [[] [] [] [] [] [] [] []]; vm_compute; congruence. Qed.

Lemma length_hash_suffix v : length (take HASH_SUFFIX_LEN (sha256_chars v)) = 6.
Proof. rewrite length_take, length_sha256_chars. done. Qed.

Section Sanitize.
Variable cls : ascii → bool.
Hypothesis cls_dash : cls DASH = true.
Hypothesis cls_hex : ∀ c, is_hex c = true → cls c = true.
Abbreviation ok := (λ c, cls c = true).
Set Default Proof Using "Type".

Lemma sub_runs_ok r l : Forall ok (sub_runs cls r l).
Proof using cls_dash.
  revert r. induction l as [|c l IH]; intros r; cbn; [constructor|].
  destruct (cls c) eqn:Hc; [by constructor|]. destruct r; [apply IH|by constructor].
Qed.

Lemma sub_runs_id r l : Forall ok l → sub_runs cls r l = l.
Proof. intros Hl. revert r. induction Hl as [|c l Hc _ IH]; intros r; cbn; [done|]. by rewrite Hc, IH. Qed.

Lemma Forall_collapse (P : ascii → Prop) d l : Forall P l → Forall P (collapse d l).
Proof.
  intros Hl. revert d. induction Hl as [|c l Hc _ IH]; intros d; cbn; [constructor|].
  case_decide; [destruct d; [apply IH|by constructor]|by constructor].
Qed.

Lemma Forall_drop_while (P : ascii → Prop) f l : Forall P l → Forall P (drop_while f l).
Proof. induction 1 as [|c l Hc Hl IH]; cbn; [constructor|]. destruct (f c); [done|by constructor]. Qed.

Lemma Forall_strip (P : ascii → Prop) l : Forall P l → Forall P (strip_dashes l).
Proof. intros Hl. apply Forall_reverse, Forall_drop_while, Forall_reverse, Forall_drop_while, Hl. Qed.

(** Every result has the right characters and fits. *)
Lemma fit_ok cap cleaned reference value :
  8 ≤ cap → cleaned ≠ [] → Forall ok cleaned →
  Forall ok (fit cap cleaned reference value) ∧ 1 ≤ length (fit cap cleaned reference value) ≤ cap.
Proof using cls_dash cls_hex.
  intros Hcap Hne Hok. unfold fit. case_decide as Hd.
  - rewrite length_hash_suffix. split.
    + apply Forall_app. split; [by apply Forall_take|]. constructor; [done|].
      apply Forall_take. eapply Forall_impl; [apply sha256_hex|done].
    + rewrite length_app, length_take. cbn [length]. rewrite length_hash_suffix. lia.
  - apply not_or_and in Hd as [_ Hl]. split; [done|]. destruct cleaned; [done|cbn in *; lia].
Qed.

(** Two values with one name: one of them is that name, or their hashes agree, or
    neither was changed. *)
Lemma fit_collision cap c1 r1 v1 c2 r2 v2 :
  fit cap c1 r1 v1 = fit cap c2 r2 v2 →
  (c1 = r1 ∧ c2 = r2 ∧ r1 = r2) ∨ (c1 = r1 ∧ fit cap c1 r1 v1 = r1) ∨ (c2 = r2 ∧ fit cap c2 r2 v2 = r2) ∨
  take HASH_SUFFIX_LEN (sha256_chars v1) = take HASH_SUFFIX_LEN (sha256_chars v2).
Proof.
  unfold fit. intros Heq. destruct (decide (c1 ≠ r1 ∨ cap < length c1)) as [H1|H1],
    (decide (c2 ≠ r2 ∨ cap < length c2)) as [H2|H2].
  - right. right. right. apply app_inj_2 in Heq as [_ Heq].
    + exact (f_equal tail Heq).
    + cbn [length]. rewrite !length_hash_suffix. reflexivity.
  - right. right. left. apply not_or_and in H2 as [H2 _]. destruct (decide (c2 = r2)) as [->|]; [split; reflexivity|tauto].
  - right. left. apply not_or_and in H1 as [H1 _]. destruct (decide (c1 = r1)) as [->|]; [split; reflexivity|tauto].
  - left. apply not_or_and in H1 as [H1 _], H2 as [H2 _].
    destruct (decide (c1 = r1)) as [->|]; [|tauto]. destruct (decide (c2 = r2)) as [->|]; [|tauto].
    split; [reflexivity|]. split; [reflexivity|exact Heq].
Qed.
End Sanitize.

Lemma text_or_ne l d : d ≠ [] → text_or l d ≠ [].
Proof. by destruct l. Qed.

Lemma collapse_ne l : l ≠ [] → collapse false l ≠ [].
Proof. destruct l as [|c l]; [done|]. cbn. by case_decide. Qed.

(** The three cleaned texts: never empty, and of their class. *)
Lemma lv_cleaned_ok v : Lv.cleaned v ≠ [] ∧ Forall (λ c, name_class c = true) (Lv.cleaned v).
Proof.
  split; [by apply collapse_ne, text_or_ne|]. apply Forall_collapse. unfold text_or.
  pose proof (Forall_strip _ _ (sub_runs_ok name_class eq_refl false v)) as H.
  destruct (strip_dashes _); [by repeat constructor|done].
Qed.

Lemma esxi_cleaned_ok v : Esxi.cleaned v ≠ [] ∧ Forall (λ c, name_class c = true) (Esxi.cleaned v).
Proof.
  split; [by apply text_or_ne|]. unfold Esxi.cleaned, text_or.
  pose proof (Forall_collapse _ false _ (Forall_strip _ _ (sub_runs_ok name_class eq_refl false v))) as H.
  destruct (collapse _ _); [by repeat constructor|done].
Qed.

Lemma pve_cleaned_ok v : Pve.cleaned v ≠ [] ∧ Forall (λ c, dns_class c = true) (Pve.cleaned v).
Proof.
  split; [by apply text_or_ne|]. unfold Pve.cleaned, text_or.
  pose proof (Forall_collapse _ false _ (Forall_strip _ _ (sub_runs_ok dns_class eq_refl false (to_lower v)))) as H.
  destruct (collapse _ _); [by repeat constructor|done].
Qed.

Lemma lv_name_ok v : Forall (λ c, name_class c = true) (Lv.lv_name v) ∧ 1 ≤ length (Lv.lv_name v) ≤ Lv.NAME_MAX.
Proof. destruct (lv_cleaned_ok v). apply fit_ok; [done|apply hex_name|unfold Lv.NAME_MAX; lia|done..]. Qed.
Lemma esxi_name_ok v : Forall (λ c, name_class c = true) (Esxi.esxi_name v) ∧ 1 ≤ length (Esxi.esxi_name v) ≤ Esxi.NAME_MAX.
Proof. destruct (esxi_cleaned_ok v). apply fit_ok; [done|apply hex_name|unfold Esxi.NAME_MAX; lia|done..]. Qed.
Lemma pve_name_ok v : Forall (λ c, dns_class c = true) (Pve.pve_name v) ∧ 1 ≤ length (Pve.pve_name v) ≤ Pve.NAME_MAX.
Proof. destruct (pve_cleaned_ok v). apply fit_ok; [done|apply hex_dns|unfold Pve.NAME_MAX; lia|done..]. Qed.

(** ** Ends of a Proxmox name *)

Lemma drop_while_head f (l : text) c tl : drop_while f l = c :: tl → f c = false.
Proof. induction l as [|x l IH]; cbn; [done|]. destruct (f x) eqn:Hx; [done|]. by intros [= -> ->]. Qed.

Lemma drop_while_suffix f (l : text) : ∃ k, l = k ++ drop_while f l.
Proof.
  induction l as [|x l [k Hk]]; [by exists []|]. cbn. destruct (f x); [|by exists []]. exists (x :: k). cbn. by rewrite <-Hk.
Qed.

Lemma dash_false c : is_dash c = false → c ≠ DASH.
Proof. by intros H%bool_decide_eq_false. Qed.

Lemma strip_head l c tl : strip_dashes l = c :: tl → c ≠ DASH.
Proof.
  unfold strip_dashes. intros Hs. destruct (drop_while_suffix is_dash (reverse (drop_while is_dash l))) as [k Hk].
  apply (f_equal reverse) in Hk. rewrite reverse_involutive, reverse_app, Hs in Hk. cbn in Hk.
  apply dash_false. by eapply drop_while_head.
Qed.

Lemma strip_last l c tl : strip_dashes l = tl ++ [c] → c ≠ DASH.
Proof.
  unfold strip_dashes. intros Hs%(f_equal reverse). rewrite reverse_involutive, reverse_snoc in Hs.
  apply dash_false. by eapply drop_while_head.
Qed.

Lemma collapse_snoc d l c : c ≠ DASH → collapse d (l ++ [c]) = collapse d l ++ [c].
Proof.
  intros Hc. revert d. induction l as [|x l IH]; intros d; cbn; [by rewrite decide_False|].
  case_decide; [destruct d|]; by rewrite IH.
Qed.

(** The first and the last character are not dashes. *)
Definition dash_ends (l : text) : Prop :=
  match head l with Some c => c ≠ DASH | None => False end ∧ match last l with Some c => c ≠ DASH | None => False end.

Lemma dash_ends_collapse l :
  (∀ c tl, l = c :: tl → c ≠ DASH) → (∀ c tl, l = tl ++ [c] → c ≠ DASH) → l ≠ [] → dash_ends (collapse false l).
Proof.
  intros Hh Hl Hne. split.
  - destruct l as [|c l]; [done|]. cbn. rewrite decide_False by (by eapply Hh). cbn. by eapply Hh.
  - destruct l as [|c l _] using rev_ind; [done|]. rewrite collapse_snoc by (by eapply Hl). rewrite last_snoc. by eapply Hl.
Qed.

Lemma pve_cleaned_ends v : dash_ends (Pve.cleaned v).
Proof.
  unfold Pve.cleaned, text_or. set (s := strip_dashes _). destruct (decide (s = [])) as [->|Hne]; [by split|].
  assert (dash_ends (collapse false s)) as H.
  { apply dash_ends_collapse; [intros c tl; apply strip_head|intros c tl; apply strip_last|done]. }
  by destruct (collapse false s); [destruct H as [[] _]|].
Qed.

Lemma hash_last v : ∃ l c, take HASH_SUFFIX_LEN (sha256_chars v) = l ++ [c] ∧ is_hex c = true.
Proof.
  pose proof (length_hash_suffix v) as Hl. pose proof (Forall_take _ HASH_SUFFIX_LEN _ (sha256_hex v)) as Hx.
  generalize dependent (take HASH_SUFFIX_LEN (sha256_chars v)). intros x Hl Hx.
  destruct x as [|c l _] using rev_ind; [discriminate Hl|]. exists l, c. split; [reflexivity|].
  apply Forall_app in Hx as [_ Hx]. by apply Forall_cons in Hx as [Hx _].
Qed.

Lemma hex_not_dash c : is_hex c = true → c ≠ DASH.
Proof. by intros H ->. Qed.

Lemma fit_ends cap cleaned reference value : 8 ≤ cap → dash_ends cleaned → dash_ends (fit cap cleaned reference value).
Proof.
  intros Hcap Hd. unfold fit. destruct (decide _) as [_|_]; [|exact Hd]. rewrite length_hash_suffix. destruct Hd as [Hh _]. split.
  - destruct cleaned as [|c l]; [destruct Hh|]. replace (cap - 6 - 1) with (S (cap - 8)) by lia. exact Hh.
  - destruct (hash_last value) as (l & c & -> & Hc). rewrite (app_comm_cons l [c] DASH), app_assoc, last_snoc.
    by apply hex_not_dash.
Qed.

(** C39: the names handed to a backend are valid there, whatever the plan calls things:
    libvirt and ESXi names are made of letters, digits, dots, underscores and dashes, at
    most 60 and 78 long; Proxmox names are DNS labels: lower-case letters, digits and
    dashes, at most 60, neither starting nor ending with a dash.  None is empty. *)
Theorem backend_names_valid rid kind name :
  (Forall (λ c, name_class c = true) (b (Lv.compose_resource_name rid kind name)) ∧
   1 ≤ length (b (Lv.compose_resource_name rid kind name)) ≤ 60) ∧
  (Forall (λ c, name_class c = true) (b (Esxi.compose_resource_name rid kind name)) ∧
   1 ≤ length (b (Esxi.compose_resource_name rid kind name)) ≤ 78) ∧
  (Forall (λ c, dns_class c = true) (b (Pve.compose_resource_name rid kind name)) ∧
   1 ≤ length (b (Pve.compose_resource_name rid kind name)) ≤ 60 ∧ dash_ends (b (Pve.compose_resource_name rid kind name))).
Proof.
  unfold Lv.compose_resource_name, Esxi.compose_resource_name, Pve.compose_resource_name. rewrite !b_str. split; [apply lv_name_ok|].
  split; [apply esxi_name_ok|]. destruct (pve_name_ok (composed rid kind name)) as [H1 H2]. split; [exact H1|].
  split; [exact H2|]. apply fit_ends; [unfold Pve.NAME_MAX; lia|apply pve_cleaned_ends].
Qed.

(** ** Distinctness *)

(** The parts of a composed name can be told apart. *)
Lemma composed_inj rid k1 n1 k2 n2 :
  DASH ∉ b k1 → DASH ∉ b k2 → composed rid k1 n1 = composed rid k2 n2 → k1 = k2 ∧ n1 = n2.
Proof.
  unfold composed. intros H1 H2 Heq. apply app_inv_head in Heq.
  apply (f_equal (partition DASH)) in Heq. rewrite !partition_app in Heq by done.
  apply (f_equal (λ x, (x.1.1, x.2))) in Heq. cbn in Heq. assert (b k1 = b k2) as Hk by congruence.
  assert (take 8 (b rid) ++ DASH :: b n1 = take 8 (b rid) ++ DASH :: b n2) as Hn by congruence.
  apply app_inv_head in Hn. split; [rewrite <-(str_b k1), <-(str_b k2); congruence|].
  rewrite <-(str_b n1), <-(str_b n2). congruence.
Qed.

(** The six characters of the hash a changed name carries. *)
Definition name_hash (v : text) : text := take HASH_SUFFIX_LEN (sha256_chars v).

(** Within a run, two resources of a libvirt backend never share a name by accident
    of sanitizing or truncation: different kinds or plan names that end up with one
    backend name either agree in the hash of their full names, or one of them is, letter
    by letter, the hashed name of the other. *)
Theorem libvirt_names_distinct rid k1 n1 k2 n2 :
  DASH ∉ b k1 → DASH ∉ b k2 → (k1, n1) ≠ (k2, n2) →
  Lv.compose_resource_name rid k1 n1 = Lv.compose_resource_name rid k2 n2 →
  let v1 := composed rid k1 n1 in let v2 := composed rid k2 n2 in
  name_hash v1 = name_hash v2 ∨ Lv.lv_name v2 = v1 ∨ Lv.lv_name v1 = v2.
Proof.
  intros H1 H2 Hne Heq%str_inj v1 v2. fold v1 v2 in Heq.
  pose proof Heq as Hc. apply fit_collision in Hc as [(_ & _ & Hv)|[(_ & Hv)|[(_ & Hv)|Hv]]].
  - apply composed_inj in Hv as [-> ->]; [by destruct Hne|exact H1|exact H2].
  - right. left. rewrite <-Heq. exact Hv.
  - right. right. rewrite Heq. exact Hv.
  - left. exact Hv.
Qed.

(** On Proxmox one more pair meets: names that differ in case only. *)
Lemma pve_names_distinct v1 v2 :
  Pve.pve_name v1 = Pve.pve_name v2 →
  to_lower v1 = to_lower v2 ∨ name_hash v1 = name_hash v2 ∨ Pve.pve_name v2 = to_lower v1 ∨ Pve.pve_name v1 = to_lower v2.
Proof.
  intros Heq. pose proof Heq as Hc. apply fit_collision in Hc as [(_ & _ & Hv)|[(_ & Hv)|[(_ & Hv)|Hv]]].
  - left. exact Hv.
  - right. right. left. rewrite <-Heq. exact Hv.
  - right. right. right. rewrite Heq. exact Hv.
  - right. left. exact Hv.
Qed.

(** ** Hardware addresses *)

Lemma hex_value_lt c n : hex_value c = Some n → n < 16.
Proof. destruct c as [[] [] [] [] [] [] [] []]; vm_compute; intros [= <-]; lia. Qed.

Lemma digest_byte_lt msg i : digest_byte msg i < 256.
Proof.
  unfold digest_byte. set (h := sha256_chars msg). clearbody h.
  assert (∀ o : option nat, (∀ n, o = Some n → n < 16) → default 0 o < 16) as Hd by (intros [n|] H; cbn; [auto|lia]).
  assert (∀ j, default 0 (h !! j ≫= hex_value) < 16) as Hj.
  { intros j. apply Hd. intros n. destruct (h !! j); cbn; [apply hex_value_lt|done]. }
  pose proof (Hj (2 * i)). pose proof (Hj (2 * i + 1)). lia.
Qed.

(** Every address a backend assigns is one it accepts: six octets; on libvirt and
    Proxmox locally administered and unicast, on ESXi in VMware's manual range
    [00:50:56:00:00:00] to [00:50:56:3f:ff:ff]. *)
Theorem macs_in_range plan vm nic :
  (∀ o, o ∈ Lv.mac_octets plan vm nic → o < 256) ∧ length (Lv.mac_octets plan vm nic) = 6 ∧
  (∃ rest, Lv.mac_octets plan vm nic = 2 :: rest ∧ Nat.testbit 2 0 = false ∧ Nat.testbit 2 1 = true) ∧
  (∃ x y z, Esxi.mac_octets plan vm nic = [0; 80; 86; x; y; z] ∧ x ≤ 63 ∧ y < 256 ∧ z < 256).
Proof.
  split_and!.
  - intros o [->|(i & -> & _)%list_elem_of_fmap]%elem_of_cons; [lia|apply digest_byte_lt].
  - reflexivity.
  - eexists. split; [reflexivity|]. split; reflexivity.
  - unfold Esxi.mac_octets. eexists _, _, _. split; [reflexivity|]. split; [|split; apply digest_byte_lt].
    change 63 with (Nat.ones 6) at 1. rewrite Nat.land_ones.
    pose proof (Nat.mod_upper_bound (digest_byte (mac_message plan vm nic) 0) (2 ^ 6) ltac:(discriminate)) as Hm.
    change (2 ^ 6) with 64 in *. lia.
Qed.

(** ** Volume references *)

Lemma no_underscore l : Forall (λ c, dns_class c = true) l → UNDERSCORE ∉ l.
Proof. intros Hl. by eapply Forall_not_elem; [exact Hl|]. Qed.

(** The separator is found where it was put. *)
Lemma find_separator l1 l2 : UNDERSCORE ∉ l1 → find (b "__") (l1 ++ b "__" ++ l2) = Some (length l1).
Proof.
  intros Hn. apply find_skip; [|by exists l2]. intros j Hj [k Hk].
  destruct (l1 !! j) as [c|] eqn:Hc; [|apply lookup_ge_None in Hc; lia].
  assert (drop j (l1 ++ b "__" ++ l2) = c :: drop (S j) (l1 ++ b "__" ++ l2)) as Hd.
  { apply drop_S. by rewrite lookup_app_l. }
  rewrite Hd in Hk. apply (f_equal head) in Hk. injection Hk as ->. apply Hn. by eapply list_elem_of_lookup_2.
Qed.

Lemma pve_name_chars rid kind name :
  Forall (λ c, dns_class c = true) (b (Pve.compose_resource_name rid kind name)).
Proof. unfold Pve.compose_resource_name. rewrite b_str. apply pve_name_ok. Qed.

Lemma parse_disk_ref_compose storage pool vol :
  COLON ∉ b storage → Forall (λ c, dns_class c = true) (b pool) → Forall (λ c, name_class c = true) (b vol) →
  Pve.parse_disk_ref (Pve.compose_volume_ref storage pool vol) = Ok (pool, vol).
Proof.
  intros Hst Hp Hv. unfold Pve.parse_disk_ref, Pve.compose_volume_ref, Pve.after. rewrite b_str, partition_app by done.
  cbn [mbind result_bind mret result_ret].
  assert (∀ x y : text, partition SLASH ((if ends_with (b ".iso") (b vol) then b "iso" else b "import") ++ SLASH :: y) =
    ((if ends_with (b ".iso") (b vol) then b "iso" else b "import"), true, y)) as Hpt.
  { intros _ y. apply partition_app. destruct (ends_with _ _); by intros H%list_elem_of_In; vm_compute in H; intuition discriminate. }
  rewrite (Hpt []). cbn [mbind result_bind]. unfold Pve.filename. rewrite sub_runs_id.
  2:{ rewrite !Forall_app. split_and!; [eapply Forall_impl; [exact Hp|apply dns_name]|by repeat constructor|exact Hv]. }
  cbn [mbind result_bind mret result_ret]. rewrite find_separator by (by apply no_underscore). rewrite take_app_length.
  rewrite app_assoc, drop_app_length', !str_b by (rewrite length_app; cbn; lia). done.
Qed.

(** A Proxmox volume reference can be taken apart again: for the pool and VM names
    the driver composes (whatever the plan calls them) and any volume name built on them
    with letters, digits, dots, underscores and dashes, parsing the reference gives back
    the pool and the volume. *)
Theorem disk_ref_roundtrip storage rid pool kind vm suffix :
  COLON ∉ b storage → Forall (λ c, name_class c = true) (b suffix) →
  let p := Pve.compose_resource_name rid "pool" pool in
  let v := Pve.compose_resource_name rid kind vm +:+ suffix in
  Pve.parse_disk_ref (Pve.compose_volume_ref storage p v) = Ok (p, v).
Proof.
  intros Hst Hs p v. apply parse_disk_ref_compose; [done|apply pve_name_chars|].
  assert (∀ x y : string, b (x +:+ y) = b x ++ b y) as Happ.
  { intros x y. induction x as [|a x IH]; [done|]. change (a :: b (x +:+ y) = a :: b x ++ b y). by rewrite IH. }
  unfold v. rewrite Happ. apply Forall_app. split; [|done]. eapply Forall_impl; [apply pve_name_chars|apply dns_name].
Qed.

(** A disk finds its slot: the OS disk is slot 0, data disk [i] slot [i + 1]. *)
Lemma stem_ext l ext : DOT ∉ ext → stem (l ++ DOT :: ext) = l.
Proof. intros He. unfold stem. by rewrite rpartition_app. Qed.

Lemma starts_with_app (l1 l2 : text) : starts_with l1 (l1 ++ l2) = true.
Proof. apply starts_with_spec. by exists l2. Qed.

(** The disks of a Proxmox VM are attached in the order they are recovered: the OS
    disk [<vm>.<ext>] is slot 0 and data disk [<vm>-data<i>.<ext>] is slot [i + 1], for
    every VM name. *)
Theorem disk_slots vm ext i :
  DOT ∉ b ext →
  Pve.disk_scsi_index (str (b vm ++ DOT :: b ext)) vm = Some 0 ∧
  Pve.disk_scsi_index (str ((b vm ++ b "-data" ++ str_nat i) ++ DOT :: b ext)) vm = Some (i + 1).
Proof.
  intros He. unfold Pve.disk_scsi_index. rewrite !b_str, !stem_ext by done. rewrite decide_True by done. split; [done|].
  rewrite decide_False.
  2:{ intros Heq%(f_equal length). rewrite !length_app in Heq. cbn in Heq. lia. }
  rewrite (app_assoc (b vm)), starts_with_app, drop_app_length. rewrite decide_True.
  - by rewrite str_nat_value.
  - split; [apply str_nat_ne|]. apply forallb_all, str_nat_digits.
Qed.

(** *** ESXi *)

Lemma take_while_all (f : ascii → bool) l : Forall (λ c, f c = true) l → take_while f l = l.
Proof. induction 1 as [|c l Hc _ IH]; cbn; [done|]. by rewrite Hc, IH. Qed.

(** An ESXi reference can be taken apart again: the datastore (non-empty, without a
    closing bracket) and the path, whose first character is not blank and which has no
    line break. *)
Theorem esxi_ref_roundtrip ds pool vol c tl :
  ds ≠ "" → RBR ∉ b ds → b pool = c :: tl → is_blank c = false →
  Esxi.NEWLINE ∉ b pool → Esxi.NEWLINE ∉ Esxi.backend_filename (b vol) →
  Esxi.parse_volume_ref (Esxi.compose_volume_ref ds pool vol) =
    Ok (ds, str (b pool ++ SLASH :: Esxi.backend_filename (b vol))).
Proof.
  intros Hds Hbr Hpool Hc Hp Hf. unfold Esxi.parse_volume_ref, Esxi.compose_volume_ref. rewrite b_str.
  rewrite decide_True, partition_app by done. set (fn := Esxi.backend_filename (b vol)) in *.
  assert (Esxi.match_path (b pool ++ SLASH :: fn) = Some (b pool ++ SLASH :: fn)) as Hm.
  { unfold Esxi.match_path. cbv zeta. rewrite take_while_all.
    - rewrite Hpool. change ((c :: tl) ++ SLASH :: fn) with (c :: tl ++ SLASH :: fn). cbv iota. by rewrite drop_all.
    - apply Forall_forall. intros x Hx. apply negb_true_iff, bool_decide_eq_false. intros ->.
      apply elem_of_app in Hx as [Hx|Hx]; [done|]. by apply elem_of_cons in Hx as [[=]|Hx]. }
  assert (Esxi.blanks_then_path (SPACE :: b pool ++ SLASH :: fn) = Some (b pool ++ SLASH :: fn)) as ->.
  { change (match Esxi.blanks_then_path (b pool ++ SLASH :: fn) with Some p => Some p | None =>
      Esxi.match_path (b pool ++ SLASH :: fn) end = Some (b pool ++ SLASH :: fn)).
    assert (Esxi.blanks_then_path (b pool ++ SLASH :: fn) = None) as ->; [|exact Hm].
    rewrite Hpool. cbn [app Esxi.blanks_then_path]. unfold Esxi.is_ws. by rewrite Hc. }
  destruct (b ds) as [|x l] eqn:E; [by apply b_nil in E|]. rewrite <-E, str_b. done.
Qed.

(** ** Examples *)
Module NamingDemo.
Example vm_name : Lv.compose_resource_name "20240101-101010-abcdef" "vm" "web" = "tr-vm-20240101-web".
Proof. vm_compute. reflexivity. Qed.

Lemma libvirt_names_distinct_witness :
  let v1 := composed "20240101-101010-abcdef" "vm" "web-b42b01" in
  let v2 := composed "20240101-101010-abcdef" "vm" "web!" in
  name_hash v1 = name_hash v2 ∨ Lv.lv_name v2 = v1 ∨ Lv.lv_name v1 = v2.
Proof.
  apply (libvirt_names_distinct "20240101-101010-abcdef" "vm" "web-b42b01" "vm" "web!").
  - intros H%list_elem_of_In. vm_compute in H. intuition discriminate.
  - intros H%list_elem_of_In. vm_compute in H. intuition discriminate.
  - discriminate.
  - vm_compute. reflexivity.
Defined.

Lemma disk_ref_roundtrip_witness :
  let p := Pve.compose_resource_name "20240101-101010-abcdef" "pool" "My Pool" in
  let v := Pve.compose_resource_name "20240101-101010-abcdef" "vm" "web_1" +:+ "-data0.qcow2" in
  Pve.parse_disk_ref (Pve.compose_volume_ref "local" p v) = Ok (p, v).
Proof.
  apply (disk_ref_roundtrip "local" "20240101-101010-abcdef" "My Pool" "vm" "web_1" "-data0.qcow2").
  - intros H%list_elem_of_In. vm_compute in H. intuition discriminate.
  - vm_compute. repeat (constructor; [reflexivity|]). constructor.
Defined.

Lemma disk_slots_witness : Pve.disk_scsi_index "tr-vm-20240101-web-data3.qcow2" "tr-vm-20240101-web" = Some 4.
Proof.
  destruct (disk_slots "tr-vm-20240101-web" "qcow2" 3) as [_ H].
  - intros H%list_elem_of_In. vm_compute in H. intuition discriminate.
  - exact H.
Defined.

Lemma esxi_ref_roundtrip_witness :
  Esxi.parse_volume_ref (Esxi.compose_volume_ref "datastore1" "pool" "web.qcow2") = Ok ("datastore1", "pool/web.vmdk").
Proof.
  apply (esxi_ref_roundtrip "datastore1" "pool" "web.qcow2" "p" (b "ool")).
  - discriminate.
  - intros H%list_elem_of_In. vm_compute in H. intuition discriminate.
  - reflexivity.
  - reflexivity.
  - intros H%list_elem_of_In. vm_compute in H. intuition discriminate.
  - intros H%list_elem_of_In. vm_compute in H. intuition discriminate.
Defined.

(** Two runs of one day share the names of their resources. *)
Lemma same_day_runs_share_names :
  Lv.compose_resource_name "20240101-101010-abcdef" "vm" "web" = Lv.compose_resource_name "20240101-235959-000000" "vm" "web".
Proof. vm_compute. reflexivity. Qed.

(** Proxmox names of plan names that differ in case only are the same. *)
Lemma case_only_collision :
  Pve.compose_resource_name "20240101-101010-abcdef" "vm" "Web" = Pve.compose_resource_name "20240101-101010-abcdef" "vm" "web".
Proof. vm_compute. reflexivity. Qed.
End NamingDemo.
