(* ===== verification/Creds.v ===== *)
(** * Credentials, packages and keys ([credentials], [packages], [utils/sshkey.py])

    Pure data the builders render into a guest, checked where it is constructed: user
    and package names reach a guest-side shell, so their alphabets are restricted.  The
    key pair of [SSHKey.generate] is derived from its comment; the algorithms of the
    [cryptography] package are parameters, the seed and the ECDSA scalar are computed. *)

From S2P Require Import Prelude Exceptions PyBytes Sha256 CacheNames Url Shell Conn Naming.
From stdpp Require Import options.

(** ** Keys *)

Record SSHKey : Type := MkKey {
  key_pub : string;
  key_priv : string;
  auth_line : string;
  key_algorithm : string;
}.

(** [hashlib.sha256(comment.encode()).digest()] *)
Definition key_seed (comment : string) : list nat := (λ i, digest_byte (b comment) i) <$> seq 0 32.

(** [int.from_bytes(seed, "big")] *)
Definition from_bytes_big (l : list nat) : Z := foldl (λ acc x, acc * 256 + Z.of_nat x)%Z 0%Z l.

(** The P-256 scalar: [(int.from_bytes(seed, "big") >> 1) or 1] *)
Definition ecdsa_scalar (seed : list nat) : Z :=
  let n := Z.shiftr (from_bytes_big seed) 1 in if (n =? 0)%Z then 1%Z else n.

(** The [cryptography] package: private keys of a type [K] and their encodings. *)
Class Crypto (K : Type) : Type := {
  ed25519_from_private_bytes : list nat → K;
  derive_p256 : Z → K;
  public_pem : K → string;
  public_openssh : K → string;
  private_openssh : K → string;
}.

Inductive key_class : Type := Ed25519 | Ecdsa.

Section Keys.
Context {K : Type} {C : Crypto K}.

(** [_private_key] of [SSHKey] and of [EcdsaKey] *)
Definition private_key (cls : key_class) (seed : list nat) : K :=
  match cls with
  | Ed25519 => ed25519_from_private_bytes seed
  | Ecdsa => derive_p256 (ecdsa_scalar seed)
  end.

Definition algorithm_of (cls : key_class) : string := match cls with Ed25519 => "ed25519" | Ecdsa => "ecdsa" end.

Definition generate (cls : key_class) (comment : string) : SSHKey :=
  let private := private_key cls (key_seed comment) in
  MkKey (public_pem private) (private_openssh private) (public_openssh private +:+ " " +:+ comment) (algorithm_of cls).
End Keys.

(** ** Credentials *)

(** [^[a-zA-Z_][a-zA-Z0-9_-]*$], with [re.match] *)
Definition user_head (c : ascii) : bool := is_alpha c || bool_decide (c = UNDERSCORE).
Definition user_char (c : ascii) : bool := is_alnum c || bool_decide (c ∈ b "_-").
Definition USERNAME_RE (s : text) : bool :=
  match s with
  | c :: rest => user_head c && dollar (drop_while user_char rest)
  | [] => false
  end.

(** [Credential.__post_init__] *)
Definition check_username (username : string) : res () :=
  raise_when (bool_decide (username = "")) ValueError ["username"];;
  raise_when (negb (USERNAME_RE (b username))) ValueError [username].

Record PosixCred : Type := MkPosixCred {
  cr_username : string;
  cr_admin : bool;
  cr_password : option string;
  cr_ssh_key : option SSHKey;
  cr_groups : list string;
}.

(** [PosixCred(...)] *)
Definition new_posix_cred (c : PosixCred) : res PosixCred :=
  check_username (cr_username c);;
  raise_when (bool_decide (cr_password c = None) && bool_decide (cr_ssh_key c = None)) ValueError [cr_username c];;
  mret c.

(** ** Packages *)

Inductive Package : Type :=
  | Apt (name : string)
  | Pip (name : string) (insecure : bool).
Definition package_name (p : Package) : string := match p with Apt n | Pip n _ => n end.

(** [[A-Za-z0-9][A-Za-z0-9._+-]*], with [fullmatch] *)
Definition package_char (c : ascii) : bool := is_alnum c || bool_decide (c ∈ b "._+-").
Definition PACKAGE_RE (s : text) : bool :=
  match s with
  | c :: rest => is_alnum c && forallb package_char rest
  | [] => false
  end.

(** [Package.__post_init__] *)
Definition new_package (p : Package) : res Package :=
  raise_when (bool_decide (package_name p = "")) ValueError ["name"];;
  raise_when (negb (PACKAGE_RE (b (package_name p)))) ValueError [package_name p];;
  mret p.

(** ** What is accepted *)

Lemma from_bytes_big_bounds l :
  Forall (λ x, x < 256) l → (0 ≤ from_bytes_big l < 256 ^ Z.of_nat (length l))%Z.
Proof.
  unfold from_bytes_big. intros Hl.
  cut (∀ acc k, (0 ≤ acc < 256 ^ Z.of_nat k)%Z →
    (0 ≤ foldl (λ acc x, acc * 256 + Z.of_nat x)%Z acc l < 256 ^ Z.of_nat (k + length l))%Z).
  { intros H. apply (H 0%Z 0). done. }
  induction Hl as [|x l Hx _ IH]; intros acc k Hacc; cbn [foldl length]; [by rewrite Nat.add_0_r|].
  replace (k + S (length l)) with (S k + length l) by lia. apply IH. rewrite Nat2Z.inj_succ, Z.pow_succ_r by lia. lia.
Qed.

Definition P256_ORDER : Z := 0xffffffff00000000ffffffffffffffffbce6faada7179e84f3b9cac2fc632551.

(** The scalar of an ECDSA key is one: it lies strictly between zero and the order of
    the curve, whatever the comment hashes to. *)
Lemma ecdsa_scalar_in_range comment :
  (1 ≤ ecdsa_scalar (key_seed comment) < 2 ^ 255 ∧ 2 ^ 255 < P256_ORDER)%Z.
Proof.
  split; [|done]. unfold ecdsa_scalar.
  assert (0 ≤ from_bytes_big (key_seed comment) < 256 ^ 32)%Z as Hb.
  { apply (from_bytes_big_bounds (key_seed comment)). unfold key_seed. apply Forall_fmap, Forall_forall.
    intros i _. apply digest_byte_lt. }
  generalize dependent (from_bytes_big (key_seed comment)). intros n Hn. rewrite Z.shiftr_div_pow2 by done.
  change (2 ^ 1)%Z with 2%Z. change (256 ^ 32)%Z with (2 * 2 ^ 255)%Z in Hn.
  pose proof (Z.div_pos n 2 ltac:(lia) ltac:(lia)). pose proof (Z.div_lt_upper_bound n 2 (2 ^ 255) ltac:(lia) ltac:(lia)).
  destruct (n / 2 =? 0)%Z eqn:E; [done|]. apply Z.eqb_neq in E. lia.
Qed.

(** An accepted user name is a POSIX name, up to a newline at its end. *)
Lemma username_shape username :
  check_username username = Ok () ↔
  ∃ c w tl, b username = c :: w ++ tl ∧ user_head c = true ∧ Forall (λ x, user_char x = true) w ∧ (tl = [] ∨ tl = [newline]).
Proof.
  assert (∀ l, l = take_while user_char l ++ drop_while user_char l) as Hsplit.
  { induction l as [|x l IH]; cbn; [done|]. destruct (user_char x); cbn; congruence. }
  assert (∀ l, Forall (λ x, user_char x = true) (take_while user_char l)) as Htake.
  { induction l as [|x l IH]; cbn; [done|]. destruct (user_char x) eqn:E; by constructor. }
  unfold check_username, raise_when. destruct (decide (username = "")) as [->|Hne].
  - split; [done|]. intros (c & w & tl & H & _). done.
  - rewrite bool_decide_false by done. cbn [mbind result_bind]. destruct (USERNAME_RE (b username)) eqn:E; cbn [negb].
    + split; [intros _|done]. destruct (b username) as [|c rest]; [done|]. apply andb_true_iff in E as [Hc Hd].
      apply dollar_true in Hd. exists c, (take_while user_char rest), (drop_while user_char rest). split_and!; auto. by rewrite <-Hsplit.
    + split; [done|]. intros (c & w & tl & Hu & Hc & Hw & Htl). rewrite Hu in E. cbn in E. rewrite Hc in E.
      cbn in E. assert (drop_while user_char (w ++ tl) = tl) as Ht.
      { clear -Hw Htl. induction Hw as [|x w Hx _ IH]; cbn; [by destruct Htl as [->| ->]|]. by rewrite Hx. }
      rewrite Ht in E. destruct Htl as [->| ->]; done.
Qed.

(** A package name is one plain shell word. *)
Lemma package_plain p p' : new_package p = Ok p' → p' = p ∧ plain_word (b (package_name p)) = true.
Proof.
  unfold new_package, raise_when. case_bool_decide as Hn; [done|]. cbn [mbind result_bind].
  destruct (PACKAGE_RE _) eqn:E; cbn [negb]; [|done]. intros [= <-]. split; [done|].
  unfold plain_word. destruct (b (package_name p)) as [|c rest]; [done|]. apply andb_true_iff in E as [Hc Hr].
  apply andb_true_iff. split; [by apply bool_decide_eq_true|]. cbn [forallb]. apply andb_true_iff.
  assert (∀ x, package_char x = true → shell_safe x = true) as Himp.
  { refine (forall_bytes (λ x, _ → _) _). vm_compute. reflexivity. }
  split; [apply Himp; unfold package_char; by rewrite Hc|].
  apply forallb_forall. intros x Hx. apply Himp. rewrite forallb_forall in Hr. auto.
Qed.

(** The user-name check uses [$], which also matches before a final newline: such a name
    passes although the check is there to keep metacharacters out of a guest's shell. *)
Lemma newline_username_accepted : check_username ("root" +:+ String newline "") = Ok ().
Proof. reflexivity. Qed.
