(* ===== verification/CloudInit.v ===== *)
(** * The cloud-init builder ([builders/cloudinit.py], [builders/sidecar_iso.py])

    The three documents of a seed, the provisioning script, and the hash that keys the
    built disks.  [yaml.safe_dump] and the ISO writer are parameters; a document is the
    value that is dumped.  Of the dumper two documented facts are used: loading gives
    the value back, so it is injective, and no line of its output is a document marker. *)

From S2P Require Import Prelude Exceptions PyBytes Sha256 CacheNames Ledger Ipv4 Devices Validate.
From S2P Require Import Url Shell Conn Naming Creds.
From stdpp Require Import options.

Definition LF : ascii := chr 10.
Definition PIPE : ascii := chr 124.

(** ["\n".join(lines)], [" ".join(words)] *)
Definition lines (l : list text) : text := join_with LF l.
Definition words (l : list text) : text := join_with SPACE l.

(** A double quote and a backslash, for texts that contain them. *)
Definition dq : text := [DQUOTE].

(** ** The provisioning script *)

Definition SERIAL_DEVICE : text := b "/dev/ttyS0".
Definition FAIL_LOG_TAIL_BYTES : nat := 16384.

Definition PROVISION_PREAMBLE : text := lines [
  b "__tr_serial=" ++ SERIAL_DEVICE;
  b "__tr_emit_fail() {";
  b "    __tr_rc=$?";
  b "    __tr_cmd=$BASH_COMMAND";
  b "    {";
  b "        printf 'TESTRANGE-RESULT: fail rc=%s cmd=" ++ dq ++ b "%s" ++ dq ++ b "\n' " ++
    dq ++ b "$__tr_rc" ++ dq ++ b " " ++ dq ++ b "$__tr_cmd" ++ dq;
  b "        printf 'TESTRANGE-LOG-BEGIN\n'";
  b "        tail -c " ++ str_nat FAIL_LOG_TAIL_BYTES ++ b " /var/log/cloud-init-output.log 2>/dev/null | base64";
  b "        printf 'TESTRANGE-LOG-END\n'";
  b "    } > " ++ dq ++ b "$__tr_serial" ++ dq ++ b " 2>/dev/null";
  b "    poweroff -f";
  b "}";
  b "trap __tr_emit_fail ERR";
  b "set -eE"].

Definition PROVISION_FOOTER : text := lines [
  b "sync";
  b "printf 'TESTRANGE-RESULT: ok\n' > " ++ dq ++ SERIAL_DEVICE ++ dq ++ b " 2>/dev/null";
  b "poweroff"].

(** [f"apt-get install -y {' '.join(apt_pkgs)}"] *)
Definition apt_install_line (apt_pkgs : list text) : text := b "apt-get install -y " ++ words apt_pkgs.

Definition PIP_BASE : text := b "pip3 install --break-system-packages".
Definition PIP_TRUSTED : text := b " --trusted-host pypi.org --trusted-host files.pythonhosted.org ".

(** [_render_pip_install_lines] *)
Definition pip_install_lines (pips : list (text * bool)) : list text :=
  let secure := fst <$> filter (λ p, p.2 = false) pips in
  let insecure := fst <$> filter (λ p, p.2 = true) pips in
  (if decide (secure = []) then [] else [PIP_BASE ++ b " " ++ words secure]) ++
  (if decide (insecure = []) then [] else [PIP_BASE ++ PIP_TRUSTED ++ words insecure]).

(** [_render_provision_script] *)
Definition provision_script (apt_pkgs : list text) (pips : list (text * bool)) (post_install_commands : list text) : text :=
  lines (PROVISION_PREAMBLE ::
    (if decide (apt_pkgs = []) then []
     else [b "export DEBIAN_FRONTEND=noninteractive"; b "apt-get update"; apt_install_line apt_pkgs]) ++
    pip_install_lines pips ++ post_install_commands ++ [PROVISION_FOOTER]) ++ [LF].

(** ** The builder *)

Record CloudInitBuilder : Type := MkCloudInit {
  ci_base : string;
  ci_credentials : list PosixCred;
  ci_packages : list Package;
  ci_post_install_commands : list string;
  ci_insecure_pkg_manager : bool;
}.

(** [NativeAgentProvision] *)
Record NativeAgentProvision : Type := MkAgent { na_packages : list string; na_enable_commands : list string }.

(** [__init__] with [_validate_init_params]; that a package is [Apt] or [Pip] holds by
    type. *)
Definition new_cloud_init (bd : CloudInitBuilder) : res CloudInitBuilder :=
  raise_when (bool_decide ("" ∈ ci_post_install_commands bd)) ValueError ["post_install_commands"];;
  raise_when (bool_decide (duplicates (cr_username <$> ci_credentials bd) ≠ ∅)) ValueError ["credentials"];;
  mret bd.

Definition jobj (l : list (string * json)) : json := JObj (list_to_map l).

(** One entry of [users] *)
Definition user_entry (c : PosixCred) : json :=
  JObj (list_to_map (
    (if cr_admin c then [("groups", JArr (JStr <$> (if decide (cr_groups c = []) then ["sudo"] else cr_groups c)));
        ("sudo", JStr "ALL=(ALL) NOPASSWD:ALL")]
     else if decide (cr_groups c = []) then [] else [("groups", JArr (JStr <$> cr_groups c))]) ++
    match cr_ssh_key c with Some k => [("ssh_authorized_keys", JArr [JStr (auth_line k)])] | None => [] end ++
    (if decide (cr_username c = "root") then [] else [("shell", JStr "/bin/bash")]) ++
    [("name", JStr (cr_username c)); ("lock_passwd", JBool false)])).

Definition has_password (c : PosixCred) : bool := bool_decide (default "" (cr_password c) ≠ "").
Definition chpasswd_entry (c : PosixCred) : json :=
  jobj [("name", JStr (cr_username c)); ("type", JStr "text"); ("password", JStr (default "" (cr_password c)))].

Definition INSECURE_APT_CONFIG : text := lines [
  b "Acquire::https::Verify-Peer " ++ dq ++ b "false" ++ dq ++ b ";";
  b "Acquire::https::Verify-Host " ++ dq ++ b "false" ++ dq ++ b ";"; []].
Definition write_file (path : string) (content : text) : json :=
  jobj [("path", JStr path); ("content", JStr (str content)); ("owner", JStr "root:root"); ("permissions", JStr "0644")].
Definition insecure_write_files (insecure : bool) : list json :=
  if insecure then [write_file "/etc/apt/apt.conf.d/99-testrange-insecure" INSECURE_APT_CONFIG] else [].
Definition DISABLE_NETWORK : json :=
  write_file "/etc/cloud/cloud.cfg.d/99-testrange-disable-network.cfg" (b "network: {config: disabled}" ++ [LF]).

Definition is_apt (p : Package) : bool := match p with Apt _ => true | Pip _ _ => false end.
Definition apt_names (bd : CloudInitBuilder) (agent : option NativeAgentProvision) : list text :=
  b <$> from_option na_packages [] agent ++ (package_name <$> filter (λ p, is_apt p = true) (ci_packages bd)).
Definition pip_names (bd : CloudInitBuilder) : list (text * bool) :=
  omap (λ p, match p with Pip n i => Some (b n, i) | Apt _ => None end) (ci_packages bd).

(** The script of [runcmd]: the agent's packages and commands come first. *)
Definition builder_script (bd : CloudInitBuilder) (agent : option NativeAgentProvision) : text :=
  provision_script (apt_names bd agent) (pip_names bd)
    (b <$> from_option na_enable_commands [] agent ++ ci_post_install_commands bd).

(** [render_user_data], the value dumped after the header *)
Definition user_data_body (bd : CloudInitBuilder) (agent : option NativeAgentProvision) : json :=
  JObj (list_to_map (
    [("ssh_pwauth", JBool true);
     ("users", JArr (if decide (ci_credentials bd = []) then [jobj [("name", JStr "root"); ("lock_passwd", JBool false)]]
                     else user_entry <$> ci_credentials bd));
     ("write_files", JArr (insecure_write_files (ci_insecure_pkg_manager bd) ++ [DISABLE_NETWORK]));
     ("runcmd", JArr [JArr [JStr "bash"; JStr "-c"; JStr (str (builder_script bd agent))]])] ++
    (let pw := filter (λ c, has_password c = true) (ci_credentials bd) in
     if decide (pw = []) then []
     else [("chpasswd", jobj [("users", JArr (chpasswd_entry <$> pw)); ("expire", JBool false)])]))).

(** [render_meta_data] *)
Definition meta_data_body (s : VMSpec) : json :=
  jobj [("instance-id", JStr ("iid-" +:+ vs_name s)); ("local-hostname", JStr (vs_name s))].

(** [_nic_netplan_entry] *)
Definition lower (s : string) : string := str (to_lower (b s)).
Definition netplan_entry (addr : option addr_mode) (mac : string) (sub : option NetworkAddressing)
    (emit_default_route : bool) : res json :=
  let matched := ("match", jobj [("macaddress", JStr (lower mac))]) in
  match addr with
  | None => mret (jobj [matched; ("dhcp4", JBool false); ("dhcp6", JBool false); ("optional", JBool true)])
  | Some DHCPAddr => mret (jobj [matched; ("dhcp4", JBool true); ("dhcp6", JBool false)])
  | Some (Static a) =>
      address ← static_cidr a (na_prefix_len <$> sub);
      let servers := if decide (dns a = []) then option_list (sub ≫= na_dns_server) else dns a in
      let gateway := match gw a with Some g => Some g | None => sub ≫= na_gateway end in
      mret (jobj (matched :: ("addresses", JArr [JStr address]) ::
        (if decide (servers = []) then [] else [("nameservers", jobj [("addresses", JArr (JStr <$> servers))])]) ++
        match gateway with
        | Some g => if emit_default_route then [("routes", JArr [jobj [("to", JStr "default"); ("via", JStr g)]])] else []
        | None => []
        end))
  end.

Definition is_static (n : NetworkIface) : bool := match n_addr n with Some (Static _) => true | _ => false end.

(** The loop over the declared NICs; [seen] is [first_static_seen]. *)
Fixpoint declared_stanzas (idx : nat) (seen : bool) (ns : list (NetworkIface * string)) (addressing : gmap string NetworkAddressing)
    (acc : gmap string json) : res (gmap string json) :=
  match ns with
  | [] => mret acc
  | (n, mac) :: ns =>
      e ← netplan_entry (n_addr n) mac (addressing !! nh_name (n_network n)) (is_static n && negb seen);
      declared_stanzas (S idx) (seen || is_static n) ns addressing (<[str (b "id" ++ str_nat idx) := e]> acc)
  end.

(** [render_network_config], the value dumped *)
Definition ethernets (s : VMSpec) (addressing : gmap string NetworkAddressing) (build_nic : BuildNic) (macs : list string)
    : res (gmap string json) :=
  raise_when (bool_decide (length macs ≠ length (nics s))) ValueError [vs_name s];;
  e ← netplan_entry (Some (Static (bn_addr build_nic))) (bn_mac build_nic) (Some (bn_addressing build_nic)) true;
  declared_stanzas 0 false (zip (nics s) macs) addressing {[ "build0" := e ]}.
Definition network_body (e : gmap string json) : json := jobj [("version", JNum 2); ("ethernets", JObj e)].

(** ** The seed and its hash *)

Section Seed.
(** [yaml.safe_dump(value, default_flow_style=False, sort_keys=True)] *)
Variable safe_dump : json → text.
(** [pycdlib]: the image with a label and files (8.3 path, Rock Ridge name, Joliet path,
    bytes) *)
Variable iso_image : string → list (string * string * string * bytes) → bytes.

Definition render_user_data (bd : CloudInitBuilder) (agent : option NativeAgentProvision) : text :=
  b "#cloud-config" ++ LF :: safe_dump (user_data_body bd agent).
Definition render_meta_data (s : VMSpec) : text := safe_dump (meta_data_body s).
Definition render_network_config (s : VMSpec) (addressing : gmap string NetworkAddressing) (build_nic : BuildNic)
    (macs : list string) : res text :=
  e ← ethernets s addressing build_nic macs;
  mret (safe_dump (network_body e)).

(** ["|".join([f"os:{...}"] + [f"data{i}:{...}"])] *)
Definition disks_text (os : Z) (data : list Z) : text :=
  join_with PIPE ((b "os:" ++ str_int os) :: imap (λ i size, b "data" ++ str_nat i ++ COLON :: str_int size) data).

Definition MARKER : text := b "---".
Definition combined (u m n disks base sidecar : text) : text :=
  b "user-data:" ++ LF :: u ++ LF :: MARKER ++ LF :: b "meta-data:" ++ LF :: m ++ LF :: MARKER ++ LF ::
  b "network-config:" ++ LF :: n ++ LF :: MARKER ++ LF :: (b "disks:" ++ disks) ++ LF :: MARKER ++ LF ::
  (b "base:" ++ base) ++ LF :: MARKER ++ LF :: b "sidecar:" ++ sidecar.

(** The text that is hashed. *)
Definition hash_input (bd : CloudInitBuilder) (s : VMSpec) (addressing : gmap string NetworkAddressing)
    (base_sha sidecar_sha : string) (macs : list string) (build_nic : BuildNic) (agent : option NativeAgentProvision) : res text :=
  n ← render_network_config s addressing build_nic macs;
  os ← os_drive s;
  mret (combined (render_user_data bd agent) (render_meta_data s) n
    (disks_text (d_size_gb os) (d_size_gb <$> data_drives s)) (b base_sha) (b sidecar_sha)).

Definition cloud_config_hash (bd : CloudInitBuilder) (s : VMSpec) (addressing : gmap string NetworkAddressing)
    (base_sha sidecar_sha : string) (macs : list string) (build_nic : BuildNic) (agent : option NativeAgentProvision) : res string :=
  t ← hash_input bd s addressing base_sha sidecar_sha macs build_nic agent;
  mret (str (take 16 (sha256_chars t))).

Definition cloud_render_seed (bd : CloudInitBuilder) (s : VMSpec) (addressing : gmap string NetworkAddressing)
    (macs : list string) (build_nic : BuildNic) (agent : option NativeAgentProvision) : res bytes :=
  n ← render_network_config s addressing build_nic macs;
  mret (iso_image "cidata" [
    ("/USERDATA.;1", "user-data", "/user-data", render_user_data bd agent);
    ("/METADATA.;1", "meta-data", "/meta-data", render_meta_data s);
    ("/NETWORKC.;1", "network-config", "/network-config", n)]).

(** [build_sidecar_config_iso] *)
Definition sidecar_config_iso (dnsmasq_conf interfaces nftables_ruleset sysctl_conf : text) : bytes :=
  iso_image "TR_SIDECAR_CFG" [
    ("/DNSMASQ.;1", "dnsmasq.conf", "/dnsmasq.conf", dnsmasq_conf);
    ("/INTERFAC.;1", "interfaces", "/interfaces", interfaces);
    ("/NFTABLES.;1", "nftables.nft", "/nftables.nft", nftables_ruleset);
    ("/SYSCTL.;1", "sysctl.conf", "/sysctl.conf", sysctl_conf)].
End Seed.
