(* ===== verification/CloudInitSpec.v ===== *)
(** * What the cloud-init builder guarantees

    [build_hash_covers]: two builds that share a cache key have the same seed documents,
    disk sizes, base image and sidecar image (or SHA-256 collides).  [netplan_exact]: the
    network document has exactly the declared interfaces, each matched by its MAC, and at
    most one declared default route.  [install_lines_inert]: package names reach the
    guest's shell as plain words. *)

From S2P Require Import Prelude Exceptions PyBytes Sha256 CacheNames Ledger Ipv4 Devices Validate.
From S2P Require Import Url Shell Conn Naming Creds CloudInit.
From stdpp Require Import options.

(** ** Lines *)

Lemma split_on_ne c l : split_on c l ≠ [].
Proof. destruct l as [|x l]; cbn; [done|]. case_decide; [done|]. by destruct (split_on c l). Qed.

Lemma split_on_cut c l1 l2 : split_on c (l1 ++ c :: l2) = split_on c l1 ++ split_on c l2.
Proof.
  induction l1 as [|x l1 IH]; cbn; [by rewrite decide_True|]. case_decide; [by rewrite IH|]. rewrite IH.
  pose proof (split_on_ne c l1). by destruct (split_on c l1).
Qed.

Lemma join_with_split c l : join_with c (split_on c l) = l.
Proof.
  induction l as [|x l IH]; [done|]. cbn [split_on]. pose proof (split_on_ne c l) as Hne. case_decide as Hx.
  - subst x. destruct (split_on c l) as [|w ws] eqn:E; [done|].
    change (join_with c ([] :: w :: ws)) with (c :: join_with c (w :: ws)). by rewrite IH.
  - destruct (split_on c l) as [|w ws]; [done|]. rewrite join_with_cons in *. by rewrite <-IH.
Qed.

Lemma split_on_inj c l1 l2 : split_on c l1 = split_on c l2 → l1 = l2.
Proof. intros H. by rewrite <-(join_with_split c l1), H, join_with_split. Qed.

(** Two lists cut at the first occurrence of an element. *)
Lemma cut_at {A} (x : A) l1 l2 r1 r2 : x ∉ l1 → x ∉ l2 → l1 ++ x :: r1 = l2 ++ x :: r2 → l1 = l2 ∧ r1 = r2.
Proof.
  revert l2. induction l1 as [|y l1 IH]; intros [|z l2] H1 H2; cbn; intros H; simplify_eq; [done|set_solver..|].
  destruct (IH l2) as [-> ->]; set_solver.
Qed.

(** ** The disks *)

Lemma str_int_inj x y : str_int x = str_int y → x = y.
Proof.
  unfold str_int. assert (∀ n m, str_nat n ≠ chr 45 :: str_nat m) as Hd.
  { intros n m H. pose proof (str_nat_digits n) as Hn. rewrite H in Hn. by apply Forall_cons in Hn as [[=] _]. }
  repeat case_decide; intros He.
  - injection He as He%str_nat_inj. lia.
  - by destruct (Hd (Z.to_nat y) (Z.to_nat (- x))).
  - by destruct (Hd (Z.to_nat x) (Z.to_nat (- y))).
  - apply str_nat_inj in He. lia.
Qed.

Lemma not_in_str_nat c n : is_digit c = false → c ∉ str_nat n.
Proof. intros Hc Hin. pose proof (str_nat_digits n) as Hn. rewrite Forall_forall in Hn. apply Hn in Hin. congruence. Qed.

Lemma not_in_str_int c x : is_digit c = false → c ≠ chr 45 → c ∉ str_int x.
Proof. intros Hc Hd. unfold str_int. case_decide; [apply not_elem_of_cons; split; [done|]|]; by apply not_in_str_nat. Qed.

Lemma disks_text_parts os data :
  split_on PIPE (disks_text os data) =
    (b "os:" ++ str_int os) :: imap (λ i size, b "data" ++ str_nat i ++ COLON :: str_int size) data.
Proof.
  apply split_on_join; [done|]. assert (∀ x, PIPE ∉ str_int x) as Hp by (intros x; by apply not_in_str_int).
  constructor; [apply not_elem_of_app; split; [set_solver|apply Hp]|]. apply Forall_forall. intros w Hw.
  apply list_elem_of_lookup in Hw as [i Hi]. rewrite list_lookup_imap in Hi. apply fmap_Some in Hi as (x & _ & ->).
  rewrite !not_elem_of_app, not_elem_of_cons. split_and!; [set_solver|by apply not_in_str_nat|done|apply Hp].
Qed.

Lemma disks_text_inj os1 data1 os2 data2 :
  disks_text os1 data1 = disks_text os2 data2 → os1 = os2 ∧ data1 = data2.
Proof.
  intros H. apply (f_equal (split_on PIPE)) in H. rewrite !disks_text_parts in H. injection H as Hos Hdata.
  split; [by apply str_int_inj|]. apply list_eq. intros i. apply (f_equal (.!! i)) in Hdata.
  rewrite !list_lookup_imap in Hdata. destruct (data1 !! i), (data2 !! i); cbn in Hdata; simplify_eq; [|done].
  f_equal. by apply str_int_inj.
Qed.

Lemma lf_not_in_disks os data : LF ∉ disks_text os data.
Proof.
  unfold disks_text. rewrite join_with_cons. assert (∀ x, LF ∉ str_int x) as Hp by (intros x; by apply not_in_str_int).
  rewrite !not_elem_of_app. split; [split; [set_solver|apply Hp]|].
  intros (w & (i & Hi)%list_elem_of_lookup & Hin)%elem_of_concat.
  rewrite list_lookup_fmap, list_lookup_imap in Hi. destruct (data !! i) as [x|]; [|done]. cbn in Hi. simplify_eq.
  revert Hin. change (LF ∉ PIPE :: b "data" ++ str_nat i ++ COLON :: str_int x).
  rewrite not_elem_of_cons, !not_elem_of_app, not_elem_of_cons. split_and!; [done|set_solver|by apply not_in_str_nat|done|apply Hp].
Qed.

(** ** The hashed text *)

Lemma combined_lines u m n disks base sidecar :
  LF ∉ disks → LF ∉ base →
  split_on LF (combined u m n disks base sidecar) =
    (b "user-data:" :: split_on LF u) ++ MARKER :: (b "meta-data:" :: split_on LF m) ++ MARKER ::
    (b "network-config:" :: split_on LF n) ++ MARKER :: [b "disks:" ++ disks] ++ MARKER ::
    [b "base:" ++ base] ++ MARKER :: split_on LF (b "sidecar:" ++ sidecar).
Proof.
  intros Hd Hb. unfold combined.
  assert (LF ∉ b "disks:" ++ disks) as H1 by set_solver. assert (LF ∉ b "base:" ++ base) as H2 by set_solver.
  rewrite !split_on_cut, !(split_on_word LF (b _ ++ _)), !(split_on_word LF (b _)), !(split_on_word LF MARKER) by
    (done || by apply (bool_decide_unpack (_ ∉ _))).
  by rewrite <-?app_assoc.
Qed.

Lemma combined_inj u1 m1 n1 d1 b1 s1 u2 m2 n2 d2 b2 s2 :
  MARKER ∉ split_on LF u1 → MARKER ∉ split_on LF m1 → MARKER ∉ split_on LF n1 →
  MARKER ∉ split_on LF u2 → MARKER ∉ split_on LF m2 → MARKER ∉ split_on LF n2 →
  LF ∉ d1 → LF ∉ b1 → LF ∉ d2 → LF ∉ b2 →
  combined u1 m1 n1 d1 b1 s1 = combined u2 m2 n2 d2 b2 s2 →
  u1 = u2 ∧ m1 = m2 ∧ n1 = n2 ∧ d1 = d2 ∧ b1 = b2 ∧ s1 = s2.
Proof.
  intros Hu1 Hm1 Hn1 Hu2 Hm2 Hn2 Hd1 Hb1 Hd2 Hb2 H. apply (f_equal (split_on LF)) in H.
  rewrite !combined_lines in H by done.
  assert (∀ w l, MARKER ∉ l → w ≠ MARKER → MARKER ∉ w :: l) as Hc by set_solver.
  assert (∀ p t, b p ++ t = MARKER → take 1 (b p) = take 1 MARKER ∨ b p = []) as Hp.
  { intros p t. destruct (b p) as [|c q]; [by right|]. cbn. intros [= -> _]. by left. }
  apply cut_at in H as [Hu H]; [|by apply Hc..]. apply cut_at in H as [Hm H]; [|by apply Hc..].
  apply cut_at in H as [Hn H]; [|by apply Hc..].
  apply cut_at in H as [Hd H]; [|apply Hc; [set_solver|intros [[=]|[=]]%Hp]..].
  apply cut_at in H as [Hb H]; [|apply Hc; [set_solver|intros [[=]|[=]]%Hp]..].
  injection Hu as Hu%split_on_inj. injection Hm as Hm%split_on_inj. injection Hn as Hn%split_on_inj.
  apply split_on_inj in H. injection Hd as Hd. injection Hb as Hb. by apply app_inv_head in H.
Qed.

(** The inputs of a build's cache key. *)
Record build_inputs : Type := MkInputs {
  in_builder : CloudInitBuilder;
  in_spec : VMSpec;
  in_addressing : gmap string NetworkAddressing;
  in_base_sha : string;
  in_sidecar_sha : string;
  in_macs : list string;
  in_build_nic : BuildNic;
  in_agent : option NativeAgentProvision;
}.

Section Hash.
Variable safe_dump : json → text.
(** A document never contains a line that would end it. *)
Hypothesis dump_no_marker : ∀ v, MARKER ∉ split_on LF (safe_dump v).

Definition key_text (i : build_inputs) : res text :=
  hash_input safe_dump (in_builder i) (in_spec i) (in_addressing i) (in_base_sha i) (in_sidecar_sha i) (in_macs i)
    (in_build_nic i) (in_agent i).
Definition key_of (i : build_inputs) : res string :=
  cloud_config_hash safe_dump (in_builder i) (in_spec i) (in_addressing i) (in_base_sha i) (in_sidecar_sha i) (in_macs i)
    (in_build_nic i) (in_agent i).

(** What a build is made of: the seed documents, the disk sizes, the two images. *)
Definition same_build (i j : build_inputs) : Prop :=
  render_user_data safe_dump (in_builder i) (in_agent i) = render_user_data safe_dump (in_builder j) (in_agent j) ∧
  render_meta_data safe_dump (in_spec i) = render_meta_data safe_dump (in_spec j) ∧
  render_network_config safe_dump (in_spec i) (in_addressing i) (in_build_nic i) (in_macs i) =
    render_network_config safe_dump (in_spec j) (in_addressing j) (in_build_nic j) (in_macs j) ∧
  (d_size_gb <$> os_drive (in_spec i)) = (d_size_gb <$> os_drive (in_spec j)) ∧
  d_size_gb <$> data_drives (in_spec i) = d_size_gb <$> data_drives (in_spec j) ∧
  in_base_sha i = in_base_sha j ∧ in_sidecar_sha i = in_sidecar_sha j.

Lemma key_text_inv i t :
  key_text i = Ok t → ∃ n os,
    render_network_config safe_dump (in_spec i) (in_addressing i) (in_build_nic i) (in_macs i) = Ok n ∧
    os_drive (in_spec i) = Ok os ∧
    t = combined (render_user_data safe_dump (in_builder i) (in_agent i)) (render_meta_data safe_dump (in_spec i)) n
      (disks_text (d_size_gb os) (d_size_gb <$> data_drives (in_spec i))) (b (in_base_sha i)) (b (in_sidecar_sha i)).
Proof.
  unfold key_text, hash_input. intros (n & Hn & (os & Hos & [= <-])%bind_Ok)%bind_Ok. eauto.
Qed.

Lemma network_no_marker s a bn ms n : render_network_config safe_dump s a bn ms = Ok n → MARKER ∉ split_on LF n.
Proof using dump_no_marker. unfold render_network_config. intros (e & _ & [= <-])%bind_Ok. apply dump_no_marker. Qed.

Lemma user_data_no_marker bd ag : MARKER ∉ split_on LF (render_user_data safe_dump bd ag).
Proof using dump_no_marker.
  unfold render_user_data. rewrite split_on_cut. rewrite split_on_word by by apply (bool_decide_unpack (_ ∉ _)).
  apply not_elem_of_cons. split; [done|apply dump_no_marker].
Qed.

Lemma key_text_inj i j t :
  LF ∉ b (in_base_sha i) → LF ∉ b (in_base_sha j) → key_text i = Ok t → key_text j = Ok t → same_build i j.
Proof using dump_no_marker.
  intros Hi Hj (n1 & os1 & Hn1 & Hos1 & ->)%key_text_inv (n2 & os2 & Hn2 & Hos2 & Heq)%key_text_inv.
  apply combined_inj in Heq as (Hu & Hm & Hn & Hd & Hb & Hs);
    try first [apply user_data_no_marker|apply dump_no_marker|apply lf_not_in_disks|done|by eapply network_no_marker].
  apply disks_text_inj in Hd as [Ho Hdd]. unfold same_build. rewrite Hn1, Hn2, Hos1, Hos2. cbn.
  split_and!; [done..|congruence|congruence|done|by apply chars_inj|by apply chars_inj].
Qed.

(** C17: the key of a built disk set covers everything the build depends on.  Two builds
    with the same key have the same user-data, meta-data and network documents, the same
    OS and data disk sizes, and the same base and sidecar images, unless the two texts
    that are hashed differ and collide in the first 16 digits of SHA-256. *)
Theorem build_hash_covers i j h :
  LF ∉ b (in_base_sha i) → LF ∉ b (in_base_sha j) → key_of i = Ok h → key_of j = Ok h →
  same_build i j ∨
  ∃ t1 t2, key_text i = Ok t1 ∧ key_text j = Ok t2 ∧ t1 ≠ t2 ∧ take 16 (sha256_chars t1) = take 16 (sha256_chars t2).
Proof using dump_no_marker.
  intros Hi Hj. unfold key_of, cloud_config_hash. fold (key_text i) (key_text j).
  intros (t1 & H1 & E1)%bind_Ok (t2 & H2 & E2)%bind_Ok.
  destruct (decide (t1 = t2)) as [<-|Hne]; [left; by eapply key_text_inj|]. right. exists t1, t2. split_and!; try done.
  injection E1 as E1. injection E2 as E2. rewrite <-E2 in E1. apply (f_equal chars) in E1.
  by rewrite !chars_of_list in E1.
Qed.
End Hash.

(** ** The network document *)

Definition stanza (idx : nat) : string := str (b "id" ++ str_nat idx).

Lemma stanza_inj i j : stanza i = stanza j → i = j.
Proof. intros H%(f_equal chars). unfold stanza in H. rewrite !chars_of_list in H. apply app_inv_head in H. by apply str_nat_inj. Qed.

Lemma stanza_not_build i : stanza i ≠ "build0".
Proof. intros H%(f_equal chars). unfold stanza in H. rewrite chars_of_list in H. done. Qed.

Lemma declared_stanzas_spec ns idx seen addressing acc e :
  declared_stanzas idx seen ns addressing acc = Ok e →
  (∀ i n mac, ns !! i = Some (n, mac) → ∃ st, e !! stanza (idx + i) = Some st ∧
     netplan_entry (n_addr n) mac (addressing !! nh_name (n_network n))
       (is_static n && negb (seen || existsb (λ x, is_static x.1) (take i ns))) = Ok st) ∧
  (∀ k, (∀ i, i < length ns → k ≠ stanza (idx + i)) → e !! k = acc !! k).
Proof.
  revert idx seen acc. induction ns as [|[n mac] ns IH]; intros idx seen acc; cbn [declared_stanzas].
  { intros [= <-]. split; [done|]. auto. }
  intros (st & Hst & H)%bind_Ok. apply IH in H as [Hin Hout]. fold (stanza idx) in Hout. split.
  - intros [|i] n' mac'; cbn [lookup list_lookup take existsb].
    + intros [= <- <-]. exists st. rewrite orb_false_r. split; [|done]. rewrite Nat.add_0_r, Hout; [by rewrite lookup_insert_eq|].
      intros j _ He%stanza_inj. lia.
    + intros Hi. destruct (Hin i n' mac' Hi) as (st' & He & Hn). exists st'.
      rewrite <-Nat.add_succ_comm. split; [done|]. cbn [fst]. by rewrite orb_assoc.
  - intros k Hk. rewrite Hout.
    + rewrite lookup_insert_ne; [done|]. intros <-. apply (Hk 0); cbn; [lia|]. by rewrite Nat.add_0_r.
    + intros i Hi. rewrite Nat.add_succ_comm. apply Hk. cbn. lia.
Qed.

(** A stanza sets a default route only where it was asked to. *)
Definition has_route (j : json) : bool := match j with JObj m => bool_decide (is_Some (m !! "routes")) | _ => false end.
Definition mac_of (j : json) : option json :=
  match j with JObj m => match m !! "match" with Some (JObj m') => m' !! "macaddress" | _ => None end | _ => None end.

Lemma netplan_entry_mac addr mac sub r st : netplan_entry addr mac sub r = Ok st → mac_of st = Some (JStr (lower mac)).
Proof.
  unfold netplan_entry, jobj. destruct addr as [[|a]|]; [intros [= <-]; done| |intros [= <-]; done].
  intros (ad & _ & [= <-])%bind_Ok. cbn [list_to_map fst snd foldr]. unfold mac_of. by rewrite lookup_insert_eq.
Qed.

Lemma netplan_entry_route addr mac sub r st : netplan_entry addr mac sub r = Ok st → has_route st = true → r = true.
Proof.
  unfold netplan_entry, jobj. destruct addr as [[|a]|]; [intros [= <-]; done| |intros [= <-]; done].
  intros (ad & _ & [= <-])%bind_Ok. destruct r; [done|]. unfold has_route. rewrite bool_decide_eq_true.
  intros [x Hx]. repeat case_decide; repeat case_match; cbn in Hx; simplify_map_eq.
Qed.

(** The network document is exactly the declared one.  When it is rendered, it has
    the build NIC and one stanza per declared NIC, in order and nothing else, each
    matched by the MAC it was given; and at most one declared NIC gets the default
    route, the first with a static address. *)
Theorem netplan_exact s addressing bn macs e :
  ethernets s addressing bn macs = Ok e →
  length macs = length (nics s) ∧
  (∀ i n mac, nics s !! i = Some n → macs !! i = Some mac → ∃ st, e !! stanza i = Some st ∧
     mac_of st = Some (JStr (lower mac)) ∧
     (has_route st = true → is_static n = true ∧ ∀ j m, j < i → nics s !! j = Some m → is_static m = false)) ∧
  (∃ st, e !! "build0" = Some st ∧ mac_of st = Some (JStr (lower (bn_mac bn)))) ∧
  (∀ k, is_Some (e !! k) → k = "build0" ∨ ∃ i, i < length (nics s) ∧ k = stanza i).
Proof.
  unfold ethernets, raise_when. case_bool_decide as Hlen; [done|]. cbn [mbind result_bind].
  intros (b0 & Hb0 & [Hin Hout]%declared_stanzas_spec)%bind_Ok. split; [done|].
  assert (length (zip (nics s) macs) = length (nics s)) as Hz by (rewrite length_zip; lia). split_and!.
  - intros i n mac Hn Hm. assert (zip (nics s) macs !! i = Some (n, mac)) as Hi by (apply lookup_zip_Some; done).
    destruct (Hin i n mac Hi) as (st & He & Hst). exists st. split; [done|]. split; [by eapply netplan_entry_mac|].
    intros Hr. eapply netplan_entry_route in Hr; [|exact Hst]. apply andb_true_iff in Hr as [Hs Hns]. split; [done|].
    intros j m Hj Hm'. apply negb_true_iff in Hns. cbn [orb] in Hns. destruct (is_static m) eqn:E; [|done].
    destruct (lookup_lt_is_Some_2 macs j) as [mac' Hmac']; [apply lookup_lt_Some in Hm'; lia|].
    assert (existsb (λ x, is_static x.1) (take i (zip (nics s) macs)) = true); [|congruence].
    apply existsb_exists. exists (m, mac'). split; [|done]. apply list_elem_of_In, list_elem_of_lookup. exists j.
    apply lookup_take_Some. split; [by apply lookup_zip_Some|done].
  - exists b0. split; [|by eapply netplan_entry_mac]. rewrite Hout; [by rewrite lookup_singleton_eq|].
    intros i _ He. by eapply stanza_not_build.
  - intros k Hk. destruct (decide (k ∈ stanza <$> seq 0 (length (nics s)))) as [Hex|Hnex].
    { right. apply list_elem_of_fmap in Hex as (i & -> & Hi). exists i. apply elem_of_seq in Hi. split; [lia|done]. }
    left. rewrite Hout in Hk; [by apply lookup_singleton_is_Some in Hk|]. intros i Hi ->. apply Hnex.
    apply list_elem_of_fmap. exists i. split; [done|]. apply elem_of_seq. lia.
Qed.

(** ** The install lines *)

Lemma words_prefix (ps ws : list text) :
  ps ≠ [] → ws ≠ [] → words ps ++ SPACE :: words ws = words (ps ++ ws).
Proof.
  intros Hp Hw. unfold words. induction ps as [|p ps IH]; [done|]. destruct ps as [|q ps].
  - destruct ws as [|w ws]; [done|]. done.
  - change (join_with SPACE (p :: q :: ps)) with (p ++ SPACE :: join_with SPACE (q :: ps)).
    change ((p :: q :: ps) ++ ws) with (p :: q :: ps ++ ws).
    change (join_with SPACE (p :: q :: ps ++ ws)) with (p ++ SPACE :: join_with SPACE ((q :: ps) ++ ws)).
    rewrite <-IH by done. by rewrite <-app_assoc.
Qed.

Lemma tokens_prefixed (ps ws : list text) :
  ps ≠ [] → ws ≠ [] → forallb plain_word ps = true → forallb plain_word ws = true →
  shell_tokens (words ps ++ SPACE :: words ws) = Some (bare_word <$> ps ++ ws).
Proof. intros. rewrite words_prefix by done. apply tokens_plain. by rewrite forallb_app, andb_true_iff. Qed.

Definition valid_packages (ps : list Package) : Prop := Forall (λ p, new_package p = Ok p) ps.

Lemma valid_names_plain ps : valid_packages ps → forallb plain_word (b ∘ package_name <$> ps) = true.
Proof.
  intros H. apply forallb_all, Forall_fmap. eapply Forall_impl; [exact H|]. intros p Hp. by apply package_plain in Hp as [_ ?].
Qed.

(** Package names reach the guest's shell as plain words.  For packages that passed
    their own check, the shell reads each install line of the provisioning script as the
    installer's command line followed by exactly the package names: none is taken for an
    option separator, an operator or an expansion. *)
Theorem install_lines_inert bd agent :
  valid_packages (ci_packages bd) → valid_packages (Apt <$> from_option na_packages [] agent) →
  let apts := apt_names bd agent in
  let secure := fst <$> filter (λ p, p.2 = false) (pip_names bd) in
  let insecure := fst <$> filter (λ p, p.2 = true) (pip_names bd) in
  (apts ≠ [] → shell_tokens (apt_install_line apts) = Some (bare_word <$> [b "apt-get"; b "install"; b "-y"] ++ apts)) ∧
  (secure ≠ [] → shell_tokens (PIP_BASE ++ b " " ++ words secure) =
     Some (bare_word <$> [b "pip3"; b "install"; b "--break-system-packages"] ++ secure)) ∧
  (insecure ≠ [] → shell_tokens (PIP_BASE ++ PIP_TRUSTED ++ words insecure) =
     Some (bare_word <$> [b "pip3"; b "install"; b "--break-system-packages"; b "--trusted-host"; b "pypi.org";
       b "--trusted-host"; b "files.pythonhosted.org"] ++ insecure)).
Proof.
  intros Hp Ha apts secure insecure.
  assert (forallb plain_word apts = true) as H1.
  { unfold apts, apt_names. rewrite fmap_app, forallb_app, andb_true_iff. split.
    - apply valid_names_plain in Ha. by rewrite <-list_fmap_compose in Ha.
    - rewrite <-list_fmap_compose. apply valid_names_plain. apply Forall_forall. intros p [_ Hin]%list_elem_of_filter.
      by eapply Forall_forall in Hin; [|exact Hp]. }
  assert (∀ v, forallb plain_word (fst <$> filter (λ p, p.2 = v) (pip_names bd)) = true) as H2.
  { intros v. apply forallb_all, Forall_fmap, Forall_forall. intros [n i] [_ Hin]%list_elem_of_filter.
    unfold pip_names in Hin. apply list_elem_of_omap in Hin as ([|m j] & Hm & Hsome); [done|]. injection Hsome as <- <-.
    eapply Forall_forall in Hm; [|exact Hp]. by apply package_plain in Hm as [_ ?]. }
  split_and!; intros Hne.
  - exact (tokens_prefixed [b "apt-get"; b "install"; b "-y"] apts ltac:(done) Hne eq_refl H1).
  - exact (tokens_prefixed [b "pip3"; b "install"; b "--break-system-packages"] secure ltac:(done) Hne eq_refl (H2 _)).
  - exact (tokens_prefixed [b "pip3"; b "install"; b "--break-system-packages"; b "--trusted-host"; b "pypi.org";
      b "--trusted-host"; b "files.pythonhosted.org"] insecure ltac:(done) Hne eq_refl (H2 _)).
Qed.

Module CloudInitDemo.
(** A dumper in flow style: texts are escaped, so that nothing it prints has a newline. *)
Definition COMMA : ascii := chr 44.
Fixpoint flow (n : nat) (j : json) : text :=
  match n with
  | 0 => b "~"
  | S n =>
      match j with
      | JNull => b "null"
      | JBool v => if v then b "true" else b "false"
      | JNum z => b "#" ++ str_int z
      | JStr s => DQUOTE :: quote_all (b s) ++ [DQUOTE]
      | JArr l => b "[" ++ concat ((λ v, flow n v ++ [COMMA]) <$> l) ++ b "]"
      | JObj m => b "{" ++ concat ((λ kv, quote_all (b kv.1) ++ COLON :: flow n kv.2 ++ [COMMA]) <$> map_to_list m) ++ b "}"
      end
  end.

Lemma lf_not_quoted s : LF ∉ quote_all s.
Proof. eapply Forall_not_elem; [apply quote_all_chars|]. vm_compute. by intros [H|H]. Qed.

Lemma lf_not_concat (ls : list text) : Forall (λ l, LF ∉ l) ls → LF ∉ concat ls.
Proof. intros H (l & Hl & Hin)%elem_of_concat. eapply Forall_forall in Hl; [|exact H]. by apply Hl. Qed.

Lemma flow_no_lf n j : LF ∉ flow n j.
Proof.
  revert j. induction n as [|n IH]; intros j; [set_solver|]. destruct j as [|[]|z|s|l|m]; cbn [flow]; try set_solver.
  - apply not_elem_of_app. split; [set_solver|by apply not_in_str_int].
  - rewrite not_elem_of_cons, not_elem_of_app. split_and!; [done|apply lf_not_quoted|set_solver].
  - rewrite !not_elem_of_app. split_and!; [set_solver| |set_solver]. apply lf_not_concat, Forall_fmap, Forall_forall.
    intros v _. cbn. rewrite not_elem_of_app. split; [apply IH|set_solver].
  - rewrite !not_elem_of_app. split_and!; [set_solver| |set_solver]. apply lf_not_concat, Forall_fmap, Forall_forall.
    intros kv _. cbn. rewrite !not_elem_of_app, not_elem_of_cons, not_elem_of_app.
    split_and!; [apply lf_not_quoted|done|apply IH|set_solver].
Qed.

Lemma flow_no_marker n j : MARKER ∉ split_on LF (flow n j).
Proof.
  rewrite split_on_word by apply flow_no_lf. apply not_elem_of_cons. split; [|set_solver].
  destruct n as [|n]; [done|]. destruct j as [|[]|z|s|l|m]; done.
Qed.

Definition web : VMSpec := MkVMSpec "web" [CPU 2 false; Memory 1024; OSDrive (MkDisk (MkPoolHandle "p") 10);
  HardDrive (MkDisk (MkPoolHandle "p") 5); Nic (MkIface (MkNetworkHandle "lan" "sw") (Some (Static (MkStaticAddr "10.0.0.20" None []))));
  Nic (MkIface (MkNetworkHandle "lan" "sw") (Some DHCPAddr))] "bios".
Definition lan : NetworkAddressing := MkNetworkAddressing "10.0.0.0/24" 24 true (Some "10.0.0.1") (Some "10.0.0.1").
Definition nic : BuildNic := MkBuildNic "52:54:00:00:00:01" "build" (MkStaticAddr "10.97.99.10" None [])
  (MkNetworkAddressing "10.97.99.0/24" 24 false (Some "10.97.99.1") None).
Definition admin : PosixCred := MkPosixCred "admin" true (Some "pw") None [].
Definition debian (base : string) : CloudInitBuilder :=
  MkCloudInit base [admin] [Apt "nginx"; Pip "requests" false; Pip "old" true] ["systemctl enable nginx"] false.
Definition macs : list string := ["52:54:00:AA:00:01"; "52:54:00:AA:00:02"].
Definition inputs (base : string) : build_inputs :=
  MkInputs (debian base) web {[ "lan" := lan ]} "cafe" "beef" macs nic None.

(** The name of the base image is not part of the key; its content is. *)
Lemma build_hash_covers_witness :
  key_of (flow 8) (inputs "debian-13") = key_of (flow 8) (inputs "debian-testing") ∧
  (same_build (flow 8) (inputs "debian-13") (inputs "debian-testing") ∨
   ∃ t1 t2, key_text (flow 8) (inputs "debian-13") = Ok t1 ∧ key_text (flow 8) (inputs "debian-testing") = Ok t2 ∧
     t1 ≠ t2 ∧ take 16 (sha256_chars t1) = take 16 (sha256_chars t2)).
Proof.
  assert (∃ h, key_of (flow 8) (inputs "debian-13") = Ok h) as [h Hh] by (eexists; vm_compute; reflexivity).
  assert (key_of (flow 8) (inputs "debian-testing") = key_of (flow 8) (inputs "debian-13")) as E by reflexivity.
  split; [symmetry; exact E|].
  refine (build_hash_covers (flow 8) (flow_no_marker 8) (inputs "debian-13") (inputs "debian-testing") h _ _ Hh _).
  - apply (bool_decide_unpack (_ ∉ _)). vm_compute. exact I.
  - apply (bool_decide_unpack (_ ∉ _)). vm_compute. exact I.
  - exact (eq_trans E Hh).
Defined.

Lemma netplan_exact_witness :
  ∃ e, ethernets web {[ "lan" := lan ]} nic macs = Ok e ∧ length macs = length (nics web) ∧ is_Some (e !! stanza 0).
Proof.
  assert (∃ e, ethernets web {[ "lan" := lan ]} nic macs = Ok e) as [e He] by (eexists; vm_compute; reflexivity).
  exists e. split; [exact He|]. destruct (netplan_exact web {[ "lan" := lan ]} nic macs e He) as (Hl & Hs & _). split; [exact Hl|].
  destruct (Hs 0 (MkIface (MkNetworkHandle "lan" "sw") (Some (Static (MkStaticAddr "10.0.0.20" None [])))) "52:54:00:AA:00:01")
    as (st & Hst & _); [reflexivity|reflexivity|]. exists st. exact Hst.
Defined.

Lemma install_lines_inert_witness :
  shell_tokens (apt_install_line (apt_names (debian "x") None)) =
    Some (bare_word <$> [b "apt-get"; b "install"; b "-y"] ++ apt_names (debian "x") None).
Proof.
  apply (install_lines_inert (debian "x") None); [repeat constructor|constructor|discriminate].
Defined.
End CloudInitDemo.
