(* ===== verification/Gateway.v ===== *)
(** * The SSH jump gateway ([gateways/ssh_jump.py])

    A gateway multiplexes channels over one lazily dialled bastion connection and serves
    local listeners from daemon threads, while any caller may close it.  The sections
    under [self._lock] are one step each; everything outside the lock interleaves with
    every other thread.  A thread blocked in [accept] is not woken by closing the socket
    from another thread: on Linux the call keeps the kernel's socket, and the next client
    to connect is still accepted.  The arrival of a client is therefore a step of the
    environment that does not ask whether the socket was closed.  Proved: no bastion
    connection is ever left that neither the gateway nor a [close()] in progress holds
    (PROXY-2), a closed gateway is not revived by a thread that was serving before, each
    of those accepts at most one client more and none is left but blocked in [accept], and
    a deliberate call after [close()] works again (PROXY-3). *)

From S2P Require Import Prelude Exceptions PyBytes.
From stdpp Require Import options.

(** ** State *)

(** A [_serve] thread: about to call [accept], blocked in it, or holding an accepted
    connection that is yet to be given a channel. *)
Inductive serve_phase : Type := AtTop | Accepting | Dialing | Finished.
#[export] Instance serve_phase_eq_dec : EqDecision serve_phase.
Proof. solve_decision. Defined.

Record serve_thread : Type := MkServe {
  sv_listener : nat;
  sv_generation : nat;
  sv_phase : serve_phase;
  sv_accepted : nat;   (** the clients it has accepted *)
}.

Record Gateway : Type := MkGateway {
  (** configuration *)
  gw_password : option string;
  gw_pkey_text : option string;
  (** [_client], [_listeners], [_generation]; connections and sockets are numbers *)
  gw_client : option nat;
  gw_listeners : list nat;
  gw_generation : nat;
  (** outside the object: the connections that are up, the sockets not closed yet, the
      threads, the connections a [close()] has taken and is about to close *)
  gw_live : gset nat;
  gw_open : gset nat;
  gw_threads : list serve_thread;
  gw_closing : list nat;
  gw_next : nat;
}.

Definition new_gateway (password pkey_text : option string) : Gateway :=
  MkGateway password pkey_text None [] 0 ∅ ∅ [] [] 0.

Definition set_client c g := MkGateway (gw_password g) (gw_pkey_text g) c (gw_listeners g) (gw_generation g)
  (gw_live g) (gw_open g) (gw_threads g) (gw_closing g) (gw_next g).
Definition set_threads t g := MkGateway (gw_password g) (gw_pkey_text g) (gw_client g) (gw_listeners g) (gw_generation g)
  (gw_live g) (gw_open g) t (gw_closing g) (gw_next g).

(** What the network and the key parser do when the bastion is dialled. *)
Record dial : Type := MkDial {
  key_parses : bool;      (** some key class accepts [pkey_text] *)
  connects : bool;        (** [client.connect(...)] returns *)
}.

(** ** The locked sections *)

(** [_ensure_jump] *)
Definition truthy (o : option string) : bool := bool_decide (default "" o ≠ "").
Definition ensure_jump (d : dial) (g : Gateway) : res nat * Gateway :=
  match gw_client g with
  | Some c => (Ok c, g)
  | None =>
      if truthy (gw_pkey_text g) && negb (key_parses d) then (raise GatewayError ["pkey"], g)
      else if negb (truthy (gw_pkey_text g)) && negb (truthy (gw_password g)) then (raise GatewayError ["auth"], g)
      else if negb (connects d) then (raise SSHException ["connect"], g)
      else
        let c := gw_next g in
        (Ok c, MkGateway (gw_password g) (gw_pkey_text g) (Some c) (gw_listeners g) (gw_generation g)
          ({[ c ]} ∪ gw_live g) (gw_open g) (gw_threads g) (gw_closing g) (S c))
  end.

(** The locked part of [_channel_to]; the channel is opened on the result outside it. *)
Definition channel_to (generation : option nat) (d : dial) (g : Gateway) : res nat * Gateway :=
  match generation with
  | Some n => if decide (n = gw_generation g) then ensure_jump d g else (raise GatewayError ["closed"], g)
  | None => ensure_jump d g
  end.

(** The locked part of [open_local_forward], and the thread started after it; [binds] is
    whether the listener could be bound. *)
Definition open_local_forward (d : dial) (binds : bool) (g : Gateway) : res nat * Gateway :=
  match ensure_jump d g with
  | (Raise e, g) => (Raise e, g)
  | (Ok _, g) =>
      if negb binds then (raise OSError ["bind"], g)
      else
        let l := gw_next g in
        (Ok l, MkGateway (gw_password g) (gw_pkey_text g) (gw_client g) (gw_listeners g ++ [l]) (gw_generation g)
          (gw_live g) ({[ l ]} ∪ gw_open g) (gw_threads g ++ [MkServe l (gw_generation g) AtTop 0]) (gw_closing g) (S l))
  end.

(** The locked part of [close]: the connection is taken, to be closed afterwards. *)
Definition close_locked (g : Gateway) : Gateway :=
  MkGateway (gw_password g) (gw_pkey_text g) None [] (S (gw_generation g))
    (gw_live g) (gw_open g ∖ list_to_set (gw_listeners g)) (gw_threads g)
    (gw_closing g ++ option_list (gw_client g)) (gw_next g).

(** [client.close()], after the lock *)
Definition close_client (c : nat) (rest : list nat) (g : Gateway) : Gateway :=
  MkGateway (gw_password g) (gw_pkey_text g) (gw_client g) (gw_listeners g) (gw_generation g)
    (gw_live g ∖ {[ c ]}) (gw_open g) (gw_threads g) rest (gw_next g).

(** ** Steps *)

Definition set_phase (t : serve_thread) (p : serve_phase) : serve_thread :=
  MkServe (sv_listener t) (sv_generation t) p (sv_accepted t).
Definition accepts (t : serve_thread) : serve_thread :=
  MkServe (sv_listener t) (sv_generation t) Dialing (S (sv_accepted t)).
Definition set_thread (i : nat) (t : serve_thread) (g : Gateway) : Gateway := set_threads (<[i := t]> (gw_threads g)) g.

(** What the threads and the closes in progress do on their own. *)
Inductive own : Gateway → Gateway → Prop :=
  (** [listener.accept()] is called on an open socket, and blocks *)
  | own_block i t g :
      gw_threads g !! i = Some t → sv_phase t = AtTop → sv_listener t ∈ gw_open g →
      own g (set_thread i (set_phase t Accepting) g)
  (** it is called on a closed one: [except OSError: return] *)
  | own_return i t g :
      gw_threads g !! i = Some t → sv_phase t = AtTop → sv_listener t ∉ gw_open g →
      own g (set_thread i (set_phase t Finished) g)
  (** [self._channel_to(..., generation=generation)]; on any failure, and after handing
      a channel to its pump, the thread accepts again *)
  | own_dial i t d r g g' :
      gw_threads g !! i = Some t → sv_phase t = Dialing → channel_to (Some (sv_generation t)) d g = (r, g') →
      own g (set_thread i (set_phase t AtTop) g')
  | own_close c l1 l2 g :
      gw_closing g = l1 ++ c :: l2 → own g (close_client c (l1 ++ l2) g).

(** How the environment ends a blocked [accept], whether the socket was closed meanwhile
    or not: a client connects, or the call fails. *)
Inductive arrival : Gateway → Gateway → Prop :=
  | ar_client i t g : gw_threads g !! i = Some t → sv_phase t = Accepting → arrival g (set_thread i (accepts t) g)
  | ar_failure i t g :
      gw_threads g !! i = Some t → sv_phase t = Accepting → arrival g (set_thread i (set_phase t Finished) g).

Definition background (g g' : Gateway) : Prop := own g g' ∨ arrival g g'.

(** What a caller does. *)
Inductive deliberate : Gateway → Gateway → Prop :=
  | call_open_socket d r g g' : channel_to None d g = (r, g') → deliberate g g'
  | call_open_forward d binds r g g' : open_local_forward d binds g = (r, g') → deliberate g g'
  | call_close g : deliberate g (close_locked g).

Definition gstep (g g' : Gateway) : Prop := background g g' ∨ deliberate g g'.

(** ** [_pump] *)

(** What [recv] gives on a readable side. *)
Inductive recv_result : Type := Data (d : bytes) | Eof | Broken.

(** One round of [select]: what each side has, and whether the other accepts it. *)
Record pump_round : Type := MkRound {
  from_left : option (recv_result * bool);
  from_right : option (recv_result * bool);
}.

(** One direction of one round: [inl] what was forwarded, or the end. *)
Definition pump_side (o : option (recv_result * bool)) : option bytes :=
  match o with
  | None => Some []
  | Some (Data d, sent) => if sent : bool then Some d else None
  | Some (_, _) => None
  end.

(** The bytes sent to the right and to the left until either side ends; both sockets are
    closed then. *)
Fixpoint pump (rounds : list pump_round) : bytes * bytes * bool :=
  match rounds with
  | [] => ([], [], false)
  | r :: rounds =>
      match pump_side (from_left r) with
      | None => ([], [], true)
      | Some l =>
          match pump_side (from_right r) with
          | None => (l, [], true)
          | Some d => let '(rs, ls, closed) := pump rounds in (l ++ rs, d ++ ls, closed)
          end
      end
  end.

(** ** Every connection is held *)

(** The bastion connections that are up are the gateway's own and those a [close()] is
    about to close; identifiers are fresh, threads belong to no later generation, and
    the open sockets are the registered ones, each under the current generation. *)
Record gateway_ok (g : Gateway) : Prop := {
  ok_held : ∀ c, c ∈ gw_live g → gw_client g = Some c ∨ c ∈ gw_closing g;
  ok_client : ∀ c, gw_client g = Some c → c < gw_next g;
  ok_closing : ∀ c, c ∈ gw_closing g → c < gw_next g ∧ gw_client g ≠ Some c;
  ok_listeners : ∀ l, l ∈ gw_open g → l ∈ gw_listeners g;
  ok_listeners_lt : ∀ l, l ∈ gw_listeners g → l < gw_next g;
  ok_generation : Forall (λ t, sv_generation t ≤ gw_generation g) (gw_threads g);
  ok_threads : Forall (λ t, sv_listener t ∈ gw_open g → sv_generation t = gw_generation g) (gw_threads g);
  ok_thread_lt : Forall (λ t, sv_listener t < gw_next g) (gw_threads g);
}.

Lemma new_gateway_ok pw pk : gateway_ok (new_gateway pw pk).
Proof. split; cbn; try done; set_solver. Qed.

(** Dialling adds at most one connection, the gateway's own. *)
Lemma ensure_jump_cases d g r g' :
  ensure_jump d g = (r, g') →
  (g' = g ∧ (is_Some (gw_client g) ∨ is_ok r = false)) ∨
  (gw_client g = None ∧ r = Ok (gw_next g) ∧
   g' = MkGateway (gw_password g) (gw_pkey_text g) (Some (gw_next g)) (gw_listeners g) (gw_generation g)
     ({[ gw_next g ]} ∪ gw_live g) (gw_open g) (gw_threads g) (gw_closing g) (S (gw_next g))).
Proof.
  unfold ensure_jump. destruct (gw_client g) as [c|] eqn:E; [intros [= <- <-]; left; eauto|].
  repeat case_match; intros [= <- <-]; eauto.
Qed.

Lemma ensure_jump_ok d g r g' :
  ensure_jump d g = (r, g') → gateway_ok g →
  gateway_ok g' ∧ gw_threads g' = gw_threads g ∧ gw_generation g' = gw_generation g ∧ gw_open g' = gw_open g.
Proof.
  intros [[-> _]|(Hc & -> & ->)]%ensure_jump_cases; intros Hg; [done|].
  destruct Hg as [Hheld Hcl Hclo Hl Hllt Hgen Hth Htl]. split; [|done]. split; cbn.
  - intros c [->%elem_of_singleton|Hin]%elem_of_union; [by left|]. destruct (Hheld c Hin) as [?|?]; [congruence|by right].
  - intros c [= <-]. lia.
  - intros c [Hlt _]%Hclo. split; [lia|]. intros [= <-]. lia.
  - done.
  - intros l Hin%Hllt. lia.
  - done.
  - done.
  - eapply Forall_impl; [exact Htl|]. cbn. lia.
Qed.

Lemma channel_to_ok gen d g r g' :
  channel_to gen d g = (r, g') → gateway_ok g →
  gateway_ok g' ∧ gw_threads g' = gw_threads g ∧ gw_generation g' = gw_generation g ∧ gw_open g' = gw_open g.
Proof.
  unfold channel_to. destruct gen as [n|]; [case_decide|]; intros Hr Hg; [by eapply ensure_jump_ok| |by eapply ensure_jump_ok].
  by simplify_eq.
Qed.

(** Moving a thread on keeps everything. *)
Lemma set_thread_ok g i t t' :
  gateway_ok g → gw_threads g !! i = Some t → sv_listener t' = sv_listener t → sv_generation t' = sv_generation t →
  gateway_ok (set_thread i t' g).
Proof.
  intros [Hheld Hcl Hclo Hl Hllt Hgen Hth Htl] Hi Hl' Hg'.
  split; cbn; try done; (apply Forall_insert; [done|]); rewrite ?Hl', ?Hg'.
  - exact (Forall_lookup_1 _ _ _ _ Hgen Hi).
  - exact (Forall_lookup_1 _ _ _ _ Hth Hi).
  - exact (Forall_lookup_1 _ _ _ _ Htl Hi).
Qed.

Lemma close_locked_ok g : gateway_ok g → gateway_ok (close_locked g).
Proof.
  intros [Hheld Hcl Hclo Hl Hllt Hgen Hth Htl]. split; cbn.
  - intros c Hin. right. apply elem_of_app. destruct (Hheld c Hin) as [->|?]; [right; set_solver|by left].
  - done.
  - intros c [Hin|Hin]%elem_of_app; [by split; [apply Hclo|]|]. split; [|done]. apply Hcl. by destruct (gw_client g); set_solver.
  - set_solver.
  - set_solver.
  - eapply Forall_impl; [exact Hgen|]. cbn. lia.
  - eapply Forall_impl; [exact Hth|]. cbn. intros t _ [Hin Hn]%elem_of_difference. apply Hl in Hin. set_solver.
  - done.
Qed.

Lemma close_client_ok g c l1 l2 : gateway_ok g → gw_closing g = l1 ++ c :: l2 → gateway_ok (close_client c (l1 ++ l2) g).
Proof.
  intros [Hheld Hcl Hclo Hl Hllt Hgen Hth Htl] Hc. split; cbn; try done.
  - intros x [Hin Hne]%elem_of_difference. destruct (Hheld x Hin) as [?|Hx]; [by left|]. right. rewrite Hc in Hx. set_solver.
  - intros x Hx. apply Hclo. rewrite Hc. set_solver.
Qed.

Lemma open_local_forward_ok d binds g r g' : open_local_forward d binds g = (r, g') → gateway_ok g → gateway_ok g'.
Proof.
  unfold open_local_forward. destruct (ensure_jump d g) as [[c|e] g1] eqn:E; intros H Hg;
    apply ensure_jump_ok in E as (Hg1 & _); [|done|by simplify_eq|done].
  destruct binds; cbn [negb] in H; simplify_eq; [|done].
  destruct Hg1 as [Hheld Hcl Hclo Hl Hllt Hgen Hth Htl]. split; cbn.
  - done.
  - intros x Hx%Hcl. lia.
  - intros x [Hx ?]%Hclo. split; [lia|done].
  - intros l [->%elem_of_singleton|Hin]%elem_of_union; [set_solver|]. apply elem_of_app. left. auto.
  - intros l [Hin| ->%list_elem_of_singleton]%elem_of_app; [apply Hllt in Hin; lia|lia].
  - apply Forall_app. split; [done|]. by repeat constructor.
  - apply Forall_app. split; [|by repeat constructor]. apply Forall_forall. intros t Ht.
    intros [Heq%elem_of_singleton|Hin]%elem_of_union.
    + eapply Forall_forall in Htl; [|exact Ht]. cbn in Htl. lia.
    + eapply Forall_forall in Hth; [|exact Ht]. auto.
  - apply Forall_app. split; [|by repeat constructor]. eapply Forall_impl; [exact Htl|]. cbn. lia.
Qed.

Lemma background_ok g g' : background g g' → gateway_ok g → gateway_ok g'.
Proof.
  intros [Hb|Hb] Hg.
  - destruct Hb as [i t g Hi _ _|i t g Hi _ _|i t d r g g' Hi _ Hc|c l1 l2 g Hc]; [by eapply set_thread_ok..| |by apply close_client_ok].
    apply channel_to_ok in Hc as (Hg' & Ht & _); [|done]. eapply set_thread_ok; [done|by rewrite Ht|done..].
  - destruct Hb as [i t g Hi _|i t g Hi _]; by eapply set_thread_ok.
Qed.

Lemma gstep_ok g g' : gstep g g' → gateway_ok g → gateway_ok g'.
Proof.
  intros [Hb|Hd] Hg; [by eapply background_ok|]. destruct Hd as [d r g g' Hc|d bd r g g' Hc|g].
  - by apply channel_to_ok in Hc as [? _].
  - by eapply open_local_forward_ok.
  - by apply close_locked_ok.
Qed.

Lemma reachable_ok pw pk g : rtc gstep (new_gateway pw pk) g → gateway_ok g.
Proof.
  intros H. cut (∀ g0, gateway_ok g0 → rtc gstep g0 g → gateway_ok g); [|clear H].
  { intros Hc. eapply Hc; [|exact H]. apply new_gateway_ok. }
  intros g0 Hg0. induction 1 as [|g0 g1 g2 Hs _ IH]; [done|]. by eapply IH, gstep_ok.
Qed.

(** ** After a close *)

(** A closed gateway: no connection of its own, no open socket, every thread stale. *)
Record closed (g : Gateway) : Prop := {
  cl_client : gw_client g = None;
  cl_open : gw_open g = ∅;
  cl_stale : Forall (λ t, sv_generation t < gw_generation g) (gw_threads g);
}.

Lemma close_locked_closed g : gateway_ok g → closed (close_locked g).
Proof.
  intros Hg. split; cbn; [done| |].
  - apply set_eq. intros l. split; [|set_solver]. intros [Hin Hn]%elem_of_difference. apply (ok_listeners _ Hg) in Hin. set_solver.
  - eapply Forall_impl; [apply (ok_generation _ Hg)|]. cbn. lia.
Qed.

(** The steps a stale thread has left at most, and the clients it may still accept. *)
Definition phase_weight (t : serve_thread) : nat :=
  match sv_phase t with Accepting => 3 | Dialing => 2 | AtTop => 1 | Finished => 0 end.
Definition work_left (g : Gateway) : nat := sum_list_with phase_weight (gw_threads g) + length (gw_closing g).
Definition may_accept (t : serve_thread) : nat := match sv_phase t with Accepting => 1 | _ => 0 end.
Definition no_more (t t' : serve_thread) : Prop := sv_accepted t' + may_accept t' ≤ sv_accepted t + may_accept t.

#[local] Instance no_more_preorder : PreOrder no_more.
Proof. split; unfold no_more; [intros x; lia|]. intros x y z. lia. Qed.

Lemma weight_insert l i t t' :
  l !! i = Some t → sum_list_with phase_weight (<[i := t']> l) + phase_weight t = sum_list_with phase_weight l + phase_weight t'.
Proof.
  revert i. induction l as [|x l IH]; intros [|i] Hi; simplify_eq/=; [lia|]. apply IH in Hi. lia.
Qed.

(** A step of a closed gateway only winds down. *)
Record winds_down (g g' : Gateway) : Prop := {
  wd_closed : closed g';
  wd_live : gw_live g' ⊆ gw_live g;
  wd_threads : Forall2 no_more (gw_threads g) (gw_threads g');
  wd_work : work_left g' < work_left g;
}.

Lemma thread_winds_down g i t t' :
  closed g → gw_threads g !! i = Some t → sv_generation t' = sv_generation t → no_more t t' → phase_weight t' < phase_weight t →
  winds_down g (set_thread i t' g).
Proof.
  intros [Hc Hl Hst] Hi Hgen Hmore Hw. split; cbn; [split; cbn; [done..|]|done| |].
  - apply Forall_insert; [done|]. rewrite Hgen. exact (Forall_lookup_1 _ _ _ _ Hst Hi).
  - rewrite <-(list_insert_id (gw_threads g) i t Hi) at 1. by apply Forall2_insert.
  - pose proof (weight_insert _ _ _ t' Hi). unfold work_left. cbn. lia.
Qed.

(** The phases of a thread that moves, in numbers. *)
Ltac moving :=
  unfold no_more, may_accept, phase_weight;
  match goal with H : sv_phase _ = _ |- _ => rewrite H end; cbn; lia.

(** A stale thread is refused, so nothing is dialled; a closed socket is not accepted on
    again. *)
Lemma closed_step g g' : closed g → background g g' → winds_down g g'.
Proof.
  intros Hcl Hb. pose proof Hcl as [_ Hl Hst].
  destruct Hb as [Hb|Hb]; [destruct Hb as [i t g Hi Hp Hin|i t g Hi Hp _|i t d r g g' Hi Hp Hch|c l1 l2 g Hc]|destruct Hb as [i t g Hi Hp|i t g Hi Hp]].
  - rewrite Hl in Hin. set_solver.
  - eapply thread_winds_down; [done..|moving|moving].
  - unfold channel_to in Hch. rewrite decide_False in Hch; [|pose proof (Forall_lookup_1 _ _ _ _ Hst Hi); cbn in *; lia].
    injection Hch as _ <-. eapply thread_winds_down; [done..|moving|moving].
  - destruct Hcl. split; cbn; [by split|set_solver|reflexivity|]. unfold work_left. cbn. rewrite Hc, !length_app. cbn. lia.
  - eapply thread_winds_down; [done..|moving|moving].
  - eapply thread_winds_down; [done..|moving|moving].
Qed.

Lemma closed_run g g' :
  closed g → rtc background g g' → closed g' ∧ gw_live g' ⊆ gw_live g ∧ Forall2 no_more (gw_threads g) (gw_threads g').
Proof.
  intros Hg. induction 1 as [g|g g1 g2 Hs _ IH]; [done|]. destruct (closed_step _ _ Hg Hs) as [H1 H2 H3 _].
  destruct (IH H1) as (? & ? & ?). split_and!; [done|set_solver|by etrans].
Qed.

Lemma closed_sn g : closed g → sn background g.
Proof.
  remember (work_left g) as n eqn:Hn. revert g Hn. induction (lt_wf n) as [n _ IH]; intros g -> Hg. constructor. intros g' Hs.
  destruct (closed_step _ _ Hg Hs) as [H1 _ _ H3]. by eapply (IH (work_left g')).
Qed.

Lemma closed_nf g :
  gateway_ok g → closed g → nf own g → gw_live g = ∅ ∧ Forall (λ t, sv_phase t = Finished ∨ sv_phase t = Accepting) (gw_threads g).
Proof.
  intros Hg [Hc Hl Hst] Hnf. split.
  - apply set_eq. intros c. split; [|set_solver]. intros Hin. destruct (ok_held _ Hg c Hin) as [?|Hcl]; [congruence|].
    apply list_elem_of_split in Hcl as (l1 & l2 & Heq). destruct Hnf. eexists. by apply own_close.
  - apply Forall_lookup. intros i t Hi. destruct (sv_phase t) eqn:Hp; [|by right| |by left]; destruct Hnf.
    + eexists. eapply own_return; [done|done|]. rewrite Hl. set_solver.
    + destruct (channel_to (Some (sv_generation t)) (MkDial true true) g) as [r g'] eqn:E. eexists. by eapply own_dial.
Qed.

(** C33: a gateway never loses a bastion connection.  In every state that callers, clients
    and serving threads can reach, each connection that is up is the gateway's own or one
    a [close()] in progress is about to close.  And [close()] is final for what came
    before it: whatever the serving threads and the clients that still reach them do next,
    in whatever order, they come to rest; no connection is dialled and no socket is open;
    a thread that was blocked in [accept] may accept one client more, and any other none;
    and when nothing is left for the gateway itself to do, no connection is up and every
    thread has ended or is still blocked in [accept]. *)
Theorem gateway_no_orphan pw pk g :
  rtc gstep (new_gateway pw pk) g →
  (∀ c, c ∈ gw_live g → gw_client g = Some c ∨ c ∈ gw_closing g) ∧
  sn background (close_locked g) ∧
  ∀ g', rtc background (close_locked g) g' →
    gw_client g' = None ∧ gw_live g' ⊆ gw_live g ∧ gw_open g' = ∅ ∧
    Forall2 (λ t t', sv_accepted t' ≤ sv_accepted t + (if decide (sv_phase t = Accepting) then 1 else 0)) (gw_threads g) (gw_threads g') ∧
    (nf own g' → gw_live g' = ∅ ∧ Forall (λ t, sv_phase t = Finished ∨ sv_phase t = Accepting) (gw_threads g')).
Proof.
  intros H%reachable_ok. pose proof (close_locked_closed _ H) as Hc. split; [apply H|]. split; [by apply closed_sn|].
  intros g' Hr. destruct (closed_run _ _ Hc Hr) as (Hc' & Hl & Ht). split_and!; [apply Hc'|done|apply Hc'| |].
  - eapply Forall2_impl; [exact Ht|]. intros t t'. unfold no_more, may_accept. case_decide as Hd; [rewrite Hd; lia|].
    destruct (sv_phase t); lia || done.
  - apply closed_nf; [|done]. clear Hc Hl Hc' Ht. assert (gateway_ok (close_locked g)) as Hok by by apply close_locked_ok. revert Hok.
    induction Hr as [|g1 g2 g3 Hs _ IH]; [done|]. intros Hok. by eapply IH, background_ok.
Qed.

(** A close is not terminal: a deliberate call dials again, and the connection is the
    gateway's own. *)
Lemma reopen_after_close g d :
  truthy (gw_password g) = true → truthy (gw_pkey_text g) = false → connects d = true →
  ∃ c g', channel_to None d (close_locked g) = (Ok c, g') ∧ gw_client g' = Some c ∧ c ∈ gw_live g'.
Proof.
  intros Hp Hk Hd. unfold channel_to, ensure_jump. cbn [close_locked gw_client gw_password gw_pkey_text]. rewrite Hp, Hk, Hd.
  cbn. eexists _, _. split; [done|]. cbn. set_solver.
Qed.

(** What the pump sends on is what it received, in order, up to the end of either side. *)
Lemma pump_exact rounds rs ls closed :
  pump rounds = (rs, ls, closed) →
  (∃ k, rs = concat (take k ((λ r, default [] (pump_side (from_left r))) <$> rounds))) ∧
  (∃ k, ls = concat (take k ((λ r, default [] (pump_side (from_right r))) <$> rounds))).
Proof.
  revert rs ls closed. induction rounds as [|r rounds IH]; intros rs ls cl; cbn; [intros [= <- <- <-]; split; by exists 0|].
  destruct (pump_side (from_left r)) as [l|] eqn:E1; [|intros [= <- <- <-]; split; by exists 0].
  destruct (pump_side (from_right r)) as [d|] eqn:E2; [|intros [= <- <- <-]; split; [exists 1|by exists 0]; cbn; by rewrite app_nil_r].
  destruct (pump rounds) as [[rs' ls'] cl'] eqn:E. intros [= <- <- <-]. destruct (IH _ _ _ eq_refl) as [[k1 H1] [k2 H2]].
  split; [exists (S k1)|exists (S k2)]; cbn; by f_equal.
Qed.

Module GatewayDemo.
Definition yes : dial := MkDial true true.
Definition g0 : Gateway := new_gateway (Some "pw") None.
Definition g1 : Gateway := (open_local_forward yes true g0).2.
Definition g2 : Gateway := set_thread 0 (MkServe 1 0 Accepting 0) g1.
Definition g3 : Gateway := set_thread 0 (MkServe 1 0 Dialing 1) g2.

(** The race of PROXY-2: a thread that accepted before the close dials after it, and is
    refused. *)
Example late_dial_refused :
  channel_to (Some 0) yes (close_locked g3) = (raise GatewayError ["closed"], close_locked g3).
Proof. reflexivity. Qed.

(** Closing the listener does not unblock the loop that accepts on it: the gateway has
    nothing left to do, and the thread is still there, for the next client. *)
Definition g4 : Gateway := close_client 0 [] (close_locked g2).
Example blocked_accept_survives_close :
  own (close_locked g2) g4 ∧ gw_threads g4 = [MkServe 1 0 Accepting 0] ∧ nf own g4 ∧
  arrival g4 (set_thread 0 (MkServe 1 0 Dialing 1) g4).
Proof.
  split; [by apply (own_close 0 [] [])|]. split; [done|]. split; [|by apply (ar_client 0 (MkServe 1 0 Accepting 0))].
  intros [g' Hs]. remember g4 as g eqn:Hg. destruct Hs as [i t ? Hi Hp _|i t ? Hi Hp _|i t d r ? ? Hi Hp _|c l1 l2 ? Hc]; subst;
    [destruct i as [|i]; simplify_eq/=..|by destruct l1].
Qed.

Lemma gateway_no_orphan_witness :
  rtc gstep g0 g2 ∧ ∀ g', rtc background (close_locked g2) g' → gw_client g' = None ∧ gw_live g' ⊆ {[ 0 ]}.
Proof.
  assert (rtc gstep g0 g2) as H.
  { eapply rtc_l; [right; apply (call_open_forward yes true (Ok 1) g0 g1); reflexivity|].
    eapply rtc_l; [left; left; apply (own_block 0 (MkServe 1 0 AtTop 0) g1); [reflexivity|reflexivity|]|apply rtc_refl].
    apply (bool_decide_unpack (_ ∈ _)). vm_compute. exact I. }
  split; [exact H|]. intros g' Hr.
  destruct (gateway_no_orphan (Some "pw") None g2 H) as (_ & _ & Hc). destruct (Hc g' Hr) as (H1 & H2 & _). split; [exact H1|].
  intros c Hin%H2. revert Hin. cbn. set_solver.
Defined.
End GatewayDemo.
