(* ===== verification/Remote.v ===== *)
(** * Calls to the outside: time, polling, retries

    Code that talks to a service makes calls that may raise anything and take time, and
    loops that sleep between calls.  [Remote Q E] is the outside state, the clock (in
    milliseconds) and the requests made so far; the two loops of the drivers, polling
    against a timeout and retrying a transient failure, are written once.  [within p m]
    says that time does not go back in [m] and that what it raises satisfies [p]; its
    rules carry the error contracts of the modules that use this one. *)

From S2P Require Import Prelude Exceptions Eff.
From stdpp Require Import options.

(** An operation of the outside: what it gives, and how long it takes. *)
Definition ext_op (E A : Type) : Type := E → res A * E * nat.

(** How much longer than asked a sleep takes. *)
Class Sleeper (E : Type) : Type := oversleep : Z → E → nat * E.
#[export] Hint Mode Sleeper ! : typeclass_instances.

Record Remote (Q E : Type) : Type := MkRemote {
  rm_ext : E;
  rm_clock : Z;
  rm_sent : list Q;
}.
Arguments MkRemote {Q E} _ _ _.
Arguments rm_ext {Q E} _.
Arguments rm_clock {Q E} _.
Arguments rm_sent {Q E} _.

Section Remote.
Context {Q E : Type} `{!Sleeper E}.
Abbreviation R A := (act (Remote Q E) A).

(** A call, noted as the request [q]. *)
Definition rcall {A} (q : Q) (o : ext_op E A) : R A := λ s,
  let '(r, e, dt) := o (rm_ext s) in (r, MkRemote e (rm_clock s + Z.of_nat dt) (rm_sent s ++ [q])).

Definition rsleep (d : Z) : R () := λ s,
  let '(extra, e) := oversleep d (rm_ext s) in (Ok (), MkRemote e (rm_clock s + d + Z.of_nat extra) (rm_sent s)).

(** [while True: probe; if now - start > timeout: raise late; sleep(interval)] *)
Fixpoint poll_rounds {A} (n : nat) (interval timeout start : Z) (probe : R (option A)) (late : exn) : R A :=
  match n with
  | 0 => throw OutOfFuel []
  | S n =>
      r ← probe;
      match r with
      | Some a => mret a
      | None =>
          now ← gets rm_clock;
          if decide (timeout < now - start)%Z then lift (Raise late)
          else rsleep interval;; poll_rounds n interval timeout start probe late
      end
  end.
Definition poll_fuel (interval timeout : Z) : nat := Z.to_nat (timeout / interval) + 3.
Definition poll_from {A} (interval timeout start : Z) (probe : R (option A)) (late : exn) : R A :=
  poll_rounds (poll_fuel interval timeout) interval timeout start probe late.

(** [for attempt in range(1, attempts + 1): try: m; return; except Exception as e:
    if attempt == attempts or not again(e): raise; sleep(backoff)] *)
Fixpoint retry {A} (attempts : nat) (again : exn → bool) (backoff : Z) (m : R A) : R A :=
  match attempts with
  | 0 | 1 => m
  | S n => catch m (λ e, is_exception e && again e) (λ _, rsleep backoff;; retry n again backoff m)
  end.

(** ** Error contracts *)

Lemma raise_when_raises t c args e : raise_when t c args = Raise e → e = Exn c args.
Proof. destruct t; [by intros [= <-]|discriminate]. Qed.

Definition within {A} (p : exn → bool) (m : R A) : Prop :=
  ∀ s r s', m s = (r, s') → (rm_clock s ≤ rm_clock s')%Z ∧ ∀ e, r = Raise e → p e = true.

Lemma within_ret {A} p (a : A) : within p (mret a).
Proof. intros s r s' [= <- <-]. split; [lia|done]. Qed.
Lemma within_gets {A} p (f : Remote Q E → A) : within p (gets f).
Proof. intros s r s' [= <- <-]. split; [lia|done]. Qed.
Lemma within_lift {A} (p : exn → bool) (r : res A) : (∀ e, r = Raise e → p e = true) → within p (lift r).
Proof. intros Hr s r' s' [= <- <-]. split; [lia|done]. Qed.
Lemma within_bind {A B} p (m : R A) (k : A → R B) : within p m → (∀ a, within p (k a)) → within p (m ≫= k).
Proof.
  intros Hm Hk s r s' [(a & s1 & H1 & H2)|(e & H1 & ->)]%act_bind_inv; destruct (Hm _ _ _ H1) as [Hc He].
  - destruct (Hk _ _ _ _ H2) as [Hc2 He2]. split; [lia|done].
  - split; [done|]. intros e' [= <-]. by apply He.
Qed.
Lemma within_weaken {A} (p q : exn → bool) (m : R A) : (∀ e, p e = true → q e = true) → within p m → within q m.
Proof. intros Hpq Hm s r s' H. destruct (Hm _ _ _ H) as [Hc He]. split; [done|]. auto. Qed.
Lemma within_catch {A} (p q h : exn → bool) (m : R A) k :
  within p m → (∀ e, p e = true → h e = true → within q (k e)) → (∀ e, p e = true → h e = false → q e = true) →
  within q (catch m h k).
Proof.
  intros Hm Hk Hq s r s'. unfold catch. destruct (m s) as [[a|e] s1] eqn:Hs; destruct (Hm _ _ _ Hs) as [Hc He].
  - intros [= <- <-]. split; [done|discriminate].
  - specialize (He e eq_refl). destruct (h e) eqn:Hh.
    + intros H. destruct (Hk e He Hh _ _ _ H) as [Hc2 He2]. split; [lia|done].
    + intros [= <- <-]. split; [done|]. intros e' [= <-]. by apply Hq.
Qed.
Lemma within_finally {A} p (m : R A) f : within p m → within p f → within p (finally m f).
Proof.
  intros Hm Hf s r s'. unfold finally. destruct (m s) as [r1 s1] eqn:Hs. destruct (Hm _ _ _ Hs) as [Hc He].
  destruct (f s1) as [[[]|e] s2] eqn:Hs2; destruct (Hf _ _ _ Hs2) as [Hc2 He2]; intros [= <- <-]; (split; [lia|]); [done|].
  intros e' [= <-]. by apply He2.
Qed.
Lemma within_call {A} (p : exn → bool) q (o : ext_op E A) :
  (∀ e x, (o e).1.1 = Raise x → p x = true) → within p (rcall q o).
Proof.
  intros Ho s r s'. unfold rcall. specialize (Ho (rm_ext s)). destruct (o (rm_ext s)) as [[r0 e] dt]. intros [= <- <-].
  split; [cbn; lia|exact Ho].
Qed.
Lemma within_sleep p d : (0 ≤ d)%Z → within p (rsleep d).
Proof. intros Hd s r s'. unfold rsleep. destruct (oversleep _ _). intros [= <- <-]. split; [cbn; lia|done]. Qed.

(** A poll that starts after [start] stays within its rounds: it raises what its probe
    raises, or [late]. *)
Lemma poll_rounds_within {A} n interval timeout start (probe : R (option A)) late (p : exn → bool) s r s' :
  within p probe → p late = true → (0 < interval)%Z →
  (start ≤ rm_clock s)%Z → (timeout < rm_clock s - start + interval * (Z.of_nat n - 1))%Z → 0 < n →
  poll_rounds n interval timeout start probe late s = (r, s') →
  (rm_clock s ≤ rm_clock s')%Z ∧ ∀ e, r = Raise e → p e = true.
Proof.
  intros Hp Hl Hi. revert s r s'. induction n as [|n IH]; intros s r s' Hst Ht Hn; [lia|]. cbn [poll_rounds].
  intros [([a|] & s1 & H1 & H2)|(e & H1 & ->)]%act_bind_inv; destruct (Hp _ _ _ H1) as [Hc He].
  - injection H2 as <- <-. split; [done|discriminate].
  - rewrite act_bind_gets in H2. case_decide as Hlate.
    { injection H2 as <- <-. split; [done|]. by intros e [= <-]. }
    apply act_bind_inv in H2 as [([] & s2 & Hs & H2)|(e & Hs & ->)]; unfold rsleep in Hs; destruct (oversleep _ _) as [x e'];
      [|discriminate]. injection Hs as <-. destruct n as [|n]; [lia|].
    apply IH in H2; [|cbn; lia|cbn; lia|lia]. cbn in H2. destruct H2 as [Hc2 He2]. split; [lia|done].
  - split; [done|]. intros e' [= <-]. by apply He.
Qed.

Lemma poll_within {A} interval timeout start (probe : R (option A)) late (p : exn → bool) s r s' :
  within p probe → p late = true → (0 < interval)%Z → (start ≤ rm_clock s)%Z →
  poll_from interval timeout start probe late s = (r, s') →
  (rm_clock s ≤ rm_clock s')%Z ∧ ∀ e, r = Raise e → p e = true.
Proof.
  intros Hp Hl Hi Hst. unfold poll_from. apply poll_rounds_within; unfold poll_fuel; [done..| |lia].
  pose proof (Z.mul_succ_div_gt timeout interval Hi). lia.
Qed.

(** [start = time.monotonic()], some work, then the poll. *)
Lemma within_poll_after {A B} interval timeout (m : R B) (probe : Z → B → R (option A)) late (p : exn → bool) :
  within p m → (∀ start b, within p (probe start b)) → p late = true → (0 < interval)%Z →
  within p (start ← gets rm_clock; b ← m; poll_from interval timeout start (probe start b) late).
Proof.
  intros Hm Hp Hl Hi s r s'. rewrite act_bind_gets.
  intros [(b & s1 & H1 & H2)|(e & H1 & ->)]%act_bind_inv; destruct (Hm _ _ _ H1) as [Hc He].
  - eapply poll_within in H2 as [Hc2 He2]; [|by apply Hp|done..]. split; [lia|done].
  - split; [done|]. intros e' [= <-]. by apply He.
Qed.

(** What a poll keeps: [I] while it goes on, [P] of what it returns, [B] when it fails. *)
Lemma poll_inv {A} (I B : Remote Q E → Prop) (P : A → Remote Q E → Prop) n interval timeout start probe late s r s' :
  (∀ s r s', I s → probe s = (r, s') → match r with Ok None => I s' | Ok (Some a) => P a s' | Raise _ => B s' end) →
  (∀ s s', I s → rsleep interval s = (Ok (), s') → I s') → (∀ s, I s → B s) →
  I s → poll_rounds n interval timeout start probe late s = (r, s') →
  match r with Ok a => P a s' | Raise _ => B s' end.
Proof.
  intros Hp Hs HB. revert s r s'. induction n as [|n IH]; intros s r s' HI; cbn [poll_rounds].
  { intros [= <- <-]. by apply HB. }
  intros [(o & s1 & H1 & H2)|(e & H1 & ->)]%act_bind_inv; pose proof (Hp _ _ _ HI H1) as H.
  - destruct o as [a|]; [by injection H2 as <- <-|]. rewrite act_bind_gets in H2. case_decide; [injection H2 as <- <-; by apply HB|].
    apply act_bind_inv in H2 as [([] & s2 & Hs1 & H2)|(e & Hs1 & _)].
    + eapply IH, H2. by eapply Hs.
    + unfold rsleep in Hs1. destruct (oversleep _ _). discriminate.
  - exact H.
Qed.

Lemma within_retry {A} n again backoff (m : R A) p : (0 ≤ backoff)%Z → within p m → within p (retry n again backoff m).
Proof.
  intros Hb Hm. induction n as [|[|n] IH]; cbn [retry]; [done..|].
  eapply within_catch; [done|intros; apply within_bind; [by apply within_sleep|done]|done].
Qed.

(** A retried call is made at most as often as there are attempts, and only a transient
    failure is tried again. *)
Lemma retry_inv {A} n again backoff (m : R A) s r s' :
  retry (S n) again backoff m s = (r, s') →
  (∃ s1, m s1 = (r, s')) ∧ (∀ e, (m s).1 = Raise e → is_exception e && again e = false → m s = (r, s')).
Proof.
  revert s. induction n as [|n IH]; intros s; cbn [retry]; [eauto|]. unfold catch at 1.
  destruct (m s) as [[a|e] s1] eqn:Hs.
  - intros [= <- <-]. split; [eauto|done].
  - destruct (is_exception e && again e) eqn:Ha.
    + intros [([] & s2 & _ & H)|(e' & H & _)]%act_bind_inv.
      * apply IH in H as [H _]. split; [done|]. intros e' [= <-]. by rewrite Ha.
      * unfold rsleep in H. destruct (oversleep _ _). discriminate.
    + intros [= <- <-]. split; eauto.
Qed.
End Remote.

#[export] Hint Resolve within_ret within_gets within_bind : within.

(** ** What is asked for

    [emits_on is_change m P]: [P] of the outcome of [m] and of the requests it made that
    change something. *)

Section Trace.
Context {Rq E : Type} (is_change : Rq → bool).
Definition changes_of (s : Remote Rq E) : list Rq := filter (λ q, is_change q = true) (rm_sent s).

Definition emits_on {A} (m : act (Remote Rq E) A) (P : res A → list Rq → Prop) : Prop :=
  ∀ s r s', m s = (r, s') → ∃ l, changes_of s' = changes_of s ++ l ∧ P r l.

Lemma emits_weaken {A} (m : act (Remote Rq E) A) (P Q : res A → list Rq → Prop) : emits_on m P → (∀ r l, P r l → Q r l) → emits_on m Q.
Proof. intros Hm HPQ s r s' H. destruct (Hm _ _ _ H) as (l & Hl & HP). eauto. Qed.
Lemma emits_lift {A} (r : res A) : emits_on (lift r) (λ x l, x = r ∧ l = []).
Proof. intros s x s' [= <- <-]. exists []. by rewrite app_nil_r. Qed.
Lemma emits_ret {A} (a : A) : emits_on (mret a) (λ x l, x = Ok a ∧ l = []).
Proof. apply emits_lift. Qed.
Lemma emits_gets {A} (f : Remote Rq E → A) : emits_on (gets f) (λ x l, is_ok x = true ∧ l = []).
Proof. intros s x s' [= <- <-]. exists []. by rewrite app_nil_r. Qed.
Lemma emits_throw_when t c args :
  emits_on (throw_when t c args : act (Remote Rq E) ()) (λ x l, l = [] ∧ x = if t then Raise (Exn c args) else Ok ()).
Proof. intros s x s' [= <- <-]. exists []. rewrite app_nil_r. by destruct t. Qed.
Lemma emits_bind {A B} (m : act (Remote Rq E) A) (k : A → act (Remote Rq E) B) P (Q : A → res B → list Rq → Prop) :
  emits_on m P → (∀ a, emits_on (k a) (Q a)) →
  emits_on (m ≫= k) (λ r l, (∃ a l1 l2, P (Ok a) l1 ∧ Q a r l2 ∧ l = l1 ++ l2) ∨ (∃ e, P (Raise e) l ∧ r = Raise e)).
Proof.
  intros Hm Hk s r s' [(a & s1 & H1 & H2)|(e & H1 & ->)]%act_bind_inv; destruct (Hm _ _ _ H1) as (l1 & E1 & HP).
  - destruct (Hk _ _ _ _ H2) as (l2 & E2 & HQ). exists (l1 ++ l2). split; [by rewrite E2, E1, app_assoc|]. left. eauto 10.
  - exists l1. split; [done|]. right. eauto.
Qed.
Lemma emits_catch {A} (m : act (Remote Rq E) A) p h P (Q : exn → res A → list Rq → Prop) :
  emits_on m P → (∀ e, emits_on (h e) (Q e)) →
  emits_on (catch m p h) (λ r l, (P r l ∧ ∀ e, r = Raise e → p e = false) ∨ (∃ e l1 l2, p e = true ∧ P (Raise e) l1 ∧ Q e r l2 ∧ l = l1 ++ l2)).
Proof.
  intros Hm Hh s r s'. unfold catch. destruct (m s) as [[a|e] s1] eqn:Hs; destruct (Hm _ _ _ Hs) as (l1 & E1 & HP).
  - intros [= <- <-]. exists l1. split; [done|]. left. by split.
  - destruct (p e) eqn:Hp.
    + intros H. destruct (Hh _ _ _ _ H) as (l2 & E2 & HQ). exists (l1 ++ l2). split; [by rewrite E2, E1, app_assoc|]. right. eauto 10.
    + intros [= <- <-]. exists l1. split; [done|]. left. split; [done|]. by intros e' [= <-].
Qed.

Lemma emits_assoc {A B C} (m : act (Remote Rq E) A) (k : A → act (Remote Rq E) B) (f : B → act (Remote Rq E) C) P : emits_on ((m ≫= k) ≫= f) P → emits_on (m ≫= λ a, k a ≫= f) P.
Proof.
  intros H s r s' Hs. apply (H s). revert Hs. unfold mbind, act_bind. by destruct (m s) as [[a|e] s1].
Qed.

Lemma emits_rcall {A} q (o : ext_op E A) :
  emits_on (rcall q o) (λ r l, l = (if is_change q then [q] else []) ∧ ∃ e e' dt, o e = (r, e', dt)).
Proof.
  intros s r s'. unfold rcall. destruct (o (rm_ext s)) as [[r0 e] dt] eqn:Ho. intros [= <- <-]. eexists. split; [|split; [done|eauto]].
  unfold changes_of. cbn [rm_sent]. rewrite filter_app, filter_cons, filter_nil. destruct (is_change q); [by rewrite decide_True|by rewrite decide_False].
Qed.
End Trace.
