(* ===== verification/Ssh.v ===== *)
(** * The communicators ([communicators/ssh.py], [communicators/native.py])

    Guest access over SSH and over a hypervisor's guest agent.  The transport
    ([paramiko], the gateway, the agent) is a class of operations over any outside
    state; each may raise and takes some time, and sleeping takes at least as long as
    asked.  Times are in milliseconds.  Proved: the command line a guest's shell reads is
    the argument vector; every connection attempt closes the channel it opened; a call
    ends within its rounds and raises nothing but [CommunicatorError]; a communicator
    stays usable after [close()], and waits for the agent before the next real call. *)

From S2P Require Import Prelude Exceptions Eff PyBytes Url Shell Creds Remote.
From stdpp Require Import options.

Record ExecResult : Type := MkExecResult {
  exit_code : Z;
  stdout : bytes;
  stderr : bytes;
  duration : Z;
}.

(** The authentication handed to [connect]: a key wins over a password. *)
Inductive ssh_auth : Type := Pkey (priv : string) | Password (pw : string).

Record ConnectArgs : Type := MkConnect {
  ca_host : string;
  ca_port : Z;
  ca_user : string;
  ca_auth : ssh_auth;
  ca_sock : option nat;
}.

(** What the helper thread that drains [stderr] has come to when it is joined. *)
Inductive drain : Type := StillReading | DrainRaised (e : exn) | Drained (data : bytes).

Class SshLib (E : Type) : Type := {
  (** [import paramiko] *)
  paramiko_installed : bool;
  (** some key class of [paramiko] parses the text *)
  key_loads : string → bool;
  (** the gateway *)
  op_open_socket : string → Z → ext_op E nat;
  op_close_socket : nat → ext_op E ();
  op_gateway_close : ext_op E ();
  (** the client *)
  op_connect : ConnectArgs → ext_op E nat;
  op_client_close : nat → ext_op E ();
  op_exec : nat → text → Z → ext_op E nat;
  op_stdout_read : nat → ext_op E bytes;
  op_exit_ready : nat → ext_op E bool;
  op_recv_exit : nat → ext_op E Z;
  op_chan_close : nat → ext_op E ();
  op_join : nat → Z → ext_op E ();
  op_drained : nat → ext_op E drain;
  (** SFTP *)
  op_open_sftp : nat → ext_op E nat;
  op_sftp_read : nat → string → ext_op E bytes;
  op_sftp_put : nat → string → bytes → ext_op E ();
  op_sftp_close : nat → ext_op E ();
  (** how much longer than asked a sleep takes *)
  op_oversleep : Z → E → nat * E;
}.
#[export] Hint Mode SshLib ! : typeclass_instances.

(** [bind]'s arguments; the gateway is there or not. *)
Record Binding : Type := MkBinding {
  bd_host : string;
  bd_port : Z;
  bd_credential : PosixCred;
  bd_gateway : bool;
}.

Inductive net_event : Type :=
  | SockOpened (s : nat)
  | SockClosed (s : nat)
  | Connected (c : nat) (s : option nat).

(** A communicator and its surroundings. *)
Record Ssh (E : Type) : Type := MkSsh {
  ssh_username : string;
  ssh_nic_idx : option Z;
  ssh_bound : option Binding;
  ssh_client : option nat;
  ssh_ext : E;
  ssh_clock : Z;
  ssh_events : list net_event;
}.
Arguments MkSsh {E} _ _ _ _ _ _ _.
Arguments ssh_username {E} _.
Arguments ssh_nic_idx {E} _.
Arguments ssh_bound {E} _.
Arguments ssh_client {E} _.
Arguments ssh_ext {E} _.
Arguments ssh_clock {E} _.
Arguments ssh_events {E} _.

(** ** The command line *)

(** [shlex.join(argv)], after [cd] when a directory is given *)
Definition ssh_command (argv : list text) (cwd : option text) : text :=
  let cmd := shlex_join argv in
  match cwd with
  | Some (c :: w) => b "cd -- " ++ shlex_quote (c :: w) ++ b " && exec " ++ cmd
  | _ => cmd
  end.

Section Ssh.
Context {E : Type} {L : SshLib E}.
Abbreviation S A := (act (Ssh E) A).

Definition set_net (e : E) (t : Z) (s : Ssh E) : Ssh E :=
  MkSsh (ssh_username s) (ssh_nic_idx s) (ssh_bound s) (ssh_client s) e t (ssh_events s).
Definition set_ssh_client (c : option nat) (s : Ssh E) : Ssh E :=
  MkSsh (ssh_username s) (ssh_nic_idx s) (ssh_bound s) c (ssh_ext s) (ssh_clock s) (ssh_events s).
Definition set_bound (x : option Binding) (s : Ssh E) : Ssh E :=
  MkSsh (ssh_username s) (ssh_nic_idx s) x (ssh_client s) (ssh_ext s) (ssh_clock s) (ssh_events s).
Definition emit (ev : net_event) : S () := modify (λ s,
  MkSsh (ssh_username s) (ssh_nic_idx s) (ssh_bound s) (ssh_client s) (ssh_ext s) (ssh_clock s) (ssh_events s ++ [ev])).

Definition call {A} (o : ext_op E A) : S A := λ s,
  let '(r, e, dt) := o (ssh_ext s) in (r, set_net e (ssh_clock s + Z.of_nat dt) s).
Definition sleep (d : Z) : S () := λ s,
  let '(extra, e) := op_oversleep d (ssh_ext s) in (Ok (), set_net e (ssh_clock s + d + Z.of_nat extra) s).

(** [contextlib.suppress(Exception)] *)
Definition suppress (m : S ()) : S () := catch m is_exception (λ _, mret ()).

(** *** Construction and binding *)

Definition new_ssh (username : string) (nic_idx : option Z) (e : E) : res (Ssh E) :=
  raise_when (bool_decide (username = "")) ValueError ["username"];;
  raise_when (bool_decide (default 0%Z nic_idx < 0)%Z) ValueError ["nic_idx"];;
  mret (MkSsh username nic_idx None None e 0 []).

Definition ssh_bind (x : Binding) : S () :=
  s ← gets (λ s, s);
  throw_when (bool_decide (is_Some (ssh_bound s))) CommunicatorAlreadyBoundError [ssh_username s];;
  throw_when (bool_decide (bd_host x = "")) ValueError ["host"];;
  throw_when (negb (bool_decide (cr_username (bd_credential x) = ssh_username s))) ValueError [ssh_username s];;
  throw_when (negb (bool_decide (1 ≤ bd_port x ≤ 65535)%Z)) ValueError ["port"];;
  modify (set_bound (Some x)).

(** *** [_ensure_connected] *)

Definition transport_error (e : exn) : bool := isinstance e SSHException || isinstance e OSError.

Definition open_sock (x : Binding) : S (option nat) :=
  if bd_gateway x then
    k ← catch (call (op_open_socket (bd_host x) (bd_port x))) (λ e, isinstance e GatewayError)
      (λ _, throw CommunicatorError [bd_host x]);
    emit (SockOpened k);;
    mret (Some k)
  else mret None.

Definition close_sock (o : option nat) : S () :=
  match o with Some k => emit (SockClosed k);; suppress (call (op_close_socket k)) | None => mret () end.

Definition BACKOFF : Z := 3000.
Definition TOTAL_TIMEOUT : Z := 180000.

(** One attempt: the connected client, or [None] to try again. *)
Definition ssh_attempt (x : Binding) (auth : ssh_auth) : S (option nat) :=
  o ← catch (k ← open_sock x; mret (Some k)) transport_error (λ _, mret None);
  match o with
  | None => mret None
  | Some sock =>
      catch
        (c ← call (op_connect (MkConnect (bd_host x) (bd_port x) (cr_username (bd_credential x)) auth sock));
         emit (Connected c sock);;
         mret (Some c))
        transport_error
        (λ _, close_sock sock;; mret None)
  end.

(** [while time.monotonic() < deadline]: every failed attempt sleeps, so the rounds are
    bounded by the timeout over the backoff. *)
Fixpoint connect_loop (n : nat) (deadline : Z) (x : Binding) (auth : ssh_auth) : S nat :=
  match n with
  | 0 => throw OutOfFuel []
  | Datatypes.S n =>
      now ← gets ssh_clock;
      if decide (now < deadline)%Z then
        r ← ssh_attempt x auth;
        match r with
        | Some c => modify (set_ssh_client (Some c));; mret c
        | None => sleep BACKOFF;; connect_loop n deadline x auth
        end
      else throw CommunicatorError [bd_host x; cr_username (bd_credential x)]
  end.

Definition choose_auth (c : PosixCred) : S ssh_auth :=
  match cr_ssh_key c with
  | Some k => if key_loads (E:=E) (key_priv k) then mret (Pkey (key_priv k)) else throw CommunicatorError ["key"]
  | None =>
      if decide (default "" (cr_password c) = "") then throw CommunicatorError [cr_username c]
      else mret (Password (default "" (cr_password c)))
  end.

Definition CONNECT_ROUNDS : nat := 61.

Definition ensure_connected : S nat :=
  s ← gets (λ s, s);
  match ssh_client s with
  | Some c => mret c
  | None =>
      match ssh_bound s with
      | None => throw CommunicatorError [ssh_username s]
      | Some x =>
          throw_when (negb (paramiko_installed (E:=E))) CommunicatorError ["paramiko"];;
          auth ← choose_auth (bd_credential x);
          start ← gets ssh_clock;
          connect_loop CONNECT_ROUNDS (start + TOTAL_TIMEOUT) x auth
      end
  end.

(** *** [execute] *)

Definition EXIT_POLL : Z := 50.

(** [while not channel.exit_status_ready(): ...] *)
Fixpoint wait_exit (n : nat) (deadline : Z) (ch : nat) : S () :=
  match n with
  | 0 => throw OutOfFuel []
  | Datatypes.S n =>
      ready ← call (op_exit_ready ch);
      if ready : bool then mret ()
      else
        now ← gets ssh_clock;
        if decide (deadline ≤ now)%Z then suppress (call (op_chan_close ch));; throw CommunicatorError ["half-open"]
        else sleep EXIT_POLL;; wait_exit n deadline ch
  end.

Definition exit_rounds (timeout : Z) : nat := Z.to_nat (timeout / EXIT_POLL) + 2.

Definition exec_body (c : nat) (cmd : text) (timeout : Z) : S (bytes * bytes * Z) :=
  ch ← call (op_exec c cmd timeout);
  oc ← finally
    (out ← call (op_stdout_read ch);
     start ← gets ssh_clock;
     wait_exit (exit_rounds timeout) (start + timeout) ch;;
     code ← call (op_recv_exit ch);
     mret (out, code))
    (call (op_join ch timeout));
  d ← call (op_drained ch);
  match d with
  | StillReading => suppress (call (op_chan_close ch));; throw CommunicatorError ["stderr"]
  | DrainRaised e => lift (Raise e)
  | Drained err => mret (oc.1, err, oc.2)
  end.

(** [except (TimeoutError, OSError, EOFError, paramiko.SSHException)] *)
Definition exec_error (e : exn) : bool := transport_error e || isinstance e EOFError.

Definition ssh_execute (argv : list text) (timeout : Z) (cwd : option text) : S ExecResult :=
  throw_when (bool_decide (argv = [])) ValueError ["argv"];;
  c ← ensure_connected;
  throw_when (negb (paramiko_installed (E:=E))) CommunicatorError ["paramiko"];;
  start ← gets ssh_clock;
  r ← catch (exec_body c (ssh_command argv cwd) timeout) exec_error (λ _, throw CommunicatorError ["exec"]);
  now ← gets ssh_clock;
  mret (MkExecResult r.2 r.1.1 r.1.2 (now - start)).

(** *** Files *)

Definition is_os_error (e : exn) : bool := isinstance e OSError.

Definition ssh_read_file (path : string) : S bytes :=
  c ← ensure_connected;
  f ← call (op_open_sftp c);
  finally (catch (call (op_sftp_read f path)) is_os_error (λ _, throw CommunicatorError [path])) (call (op_sftp_close f)).

Definition ssh_write_file (path : string) (data : bytes) : S () :=
  c ← ensure_connected;
  f ← call (op_open_sftp c);
  finally (catch (call (op_sftp_put f path data)) is_os_error (λ _, throw CommunicatorError [path])) (call (op_sftp_close f)).

Definition ssh_close : S () :=
  s ← gets (λ s, s);
  match ssh_client s with
  | Some c => suppress (call (op_client_close c));; modify (set_ssh_client None)
  | None => mret ()
  end;;
  match ssh_bound s with
  | Some x => if bd_gateway x then call op_gateway_close else mret ()
  | None => mret ()
  end.
End Ssh.
