(* ===== verification/Native.v ===== *)
(** * Guest access through a native guest agent ([communicators/native.py])

    A communicator bound to the three callables of a driver's guest agent.  The
    callables are a class of operations over any outside state, each of which may raise
    and takes some time; times are in milliseconds.  Proved: after [close()] no call
    reaches the guest before the agent has answered a probe, the probing ends, and what
    a real call gives is what the agent gave. *)

From S2P Require Import Prelude Exceptions Eff PyBytes Url Shell Remote Ssh.
From stdpp Require Import options.

(** The callables given to [bind], and how much longer than asked a sleep takes. *)
Class GuestAgent (E : Type) : Type := {
  agent_exec : list text → Z → option text → ext_op E ExecResult;
  agent_read : string → ext_op E bytes;
  agent_write : string → bytes → ext_op E ();
  agent_oversleep : Z → E → nat * E;
}.
#[export] Hint Mode GuestAgent ! : typeclass_instances.

(** What reached the agent: a probe and whether it answered, or a real call. *)
Inductive agent_event : Type := Probe (answered : bool) | Real.

Record Native (E : Type) : Type := MkNative {
  nat_bound : bool;
  nat_live : bool;
  nat_ext : E;
  nat_clock : Z;
  nat_events : list agent_event;
}.
Arguments MkNative {E} _ _ _ _ _.
Arguments nat_bound {E} _.
Arguments nat_live {E} _.
Arguments nat_ext {E} _.
Arguments nat_clock {E} _.
Arguments nat_events {E} _.

Definition RECONNECT_TIMEOUT : Z := 120000.
Definition RECONNECT_BACKOFF : Z := 2000.
Definition RECONNECT_ROUNDS : nat := 61.

Section Native.
Context {E : Type} {L : GuestAgent E}.
Abbreviation C A := (act (Native E) A).

Definition new_native (e : E) : Native E := MkNative false false e 0 [].
Definition set_live (v : bool) (s : Native E) : Native E :=
  MkNative (nat_bound s) v (nat_ext s) (nat_clock s) (nat_events s).

Definition native_bind : C () :=
  s ← gets (λ s, s);
  throw_when (nat_bound s) CommunicatorAlreadyBoundError [];;
  modify (λ s, MkNative true true (nat_ext s) (nat_clock s) (nat_events s)).

(** A call of a bound callable, noted with what came of it. *)
Definition agent_call {A} (note : bool → agent_event) (o : ext_op E A) : C A := λ s,
  let '(r, e, dt) := o (nat_ext s) in
  (r, MkNative (nat_bound s) (nat_live s) e (nat_clock s + Z.of_nat dt)
        (nat_events s ++ [note (match r with Ok _ => true | Raise _ => false end)])).

Definition native_sleep (d : Z) : C () := λ s,
  let '(extra, e) := agent_oversleep d (nat_ext s) in
  (Ok (), MkNative (nat_bound s) (nat_live s) e (nat_clock s + d + Z.of_nat extra) (nat_events s)).

Definition check_bound : C () :=
  bound ← gets nat_bound;
  throw_when (negb bound) CommunicatorError [].

(** [while time.monotonic() < deadline]: every unanswered probe sleeps. *)
Fixpoint probe_loop (n : nat) (deadline : Z) : C () :=
  match n with
  | 0 => throw OutOfFuel []
  | Datatypes.S n =>
      now ← gets nat_clock;
      if decide (now < deadline)%Z then
        up ← catch (agent_call Probe (agent_exec [b "true"] 10000 None);; mret true)
               (λ e, isinstance e GuestAgentError) (λ _, mret false);
        if up : bool then modify (set_live true)
        else native_sleep RECONNECT_BACKOFF;; probe_loop n deadline
      else throw CommunicatorError []
  end.

Definition reconnect_if_needed : C () :=
  live ← gets nat_live;
  if live : bool then mret ()
  else start ← gets nat_clock; probe_loop RECONNECT_ROUNDS (start + RECONNECT_TIMEOUT).

Definition guest_call {A} (o : ext_op E A) : C A :=
  check_bound;; reconnect_if_needed;; agent_call (λ _, Real) o.

Definition native_execute (argv : list text) (timeout : Z) (cwd : option text) : C ExecResult :=
  guest_call (agent_exec argv timeout cwd).
Definition native_read_file (path : string) : C bytes := guest_call (agent_read path).
Definition native_write_file (path : string) (data : bytes) : C () := guest_call (agent_write path data).

Definition native_close : C () := modify (set_live false).
End Native.

Section Facts.
Context {E : Type} {L : GuestAgent E}.
Set Default Proof Using "Type".

(** What a call that reached the agent leaves: the agent's own answer. *)
Definition answered {A} (o : ext_op E A) (s : Native E) (r : res A) (s' : Native E) : Prop :=
  r = (o (nat_ext s)).1.1 ∧ nat_ext s' = (o (nat_ext s)).1.2 ∧ nat_bound s' = nat_bound s ∧ nat_live s' = nat_live s.

Lemma agent_call_inv {A} note (o : ext_op E A) s r s' :
  agent_call note o s = (r, s') →
  answered o s r s' ∧ (nat_clock s ≤ nat_clock s')%Z ∧
  nat_events s' = nat_events s ++ [note (match r with Ok _ => true | Raise _ => false end)].
Proof.
  unfold agent_call, answered. destruct (o (nat_ext s)) as [[r0 e] dt]. intros [= <- <-]. cbn. split_and!; [done..|lia|done].
Qed.

(** One probe: answered, unanswered, or failed otherwise. *)
Lemma probe_inv (s : Native E) r s' :
  catch (agent_call Probe (agent_exec [b "true"] 10000 None);; mret true)
    (λ e, isinstance e GuestAgentError) (λ _, mret false) s = (r, s') →
  nat_bound s' = nat_bound s ∧ nat_live s' = nat_live s ∧ (nat_clock s ≤ nat_clock s')%Z ∧
  match r with
  | Ok up => nat_events s' = nat_events s ++ [Probe up]
  | Raise e => isinstance e GuestAgentError = false ∧ nat_events s' = nat_events s ++ [Probe false]
  end.
Proof.
  unfold catch. destruct ((agent_call _ _ ;; _) s) as [[a|e] s1] eqn:Hp.
  - intros [= <- <-]. apply act_bind_inv in Hp as [(x & s2 & Hp & [= <- <-])|(? & _ & [=])].
    by apply agent_call_inv in Hp as ((_ & _ & Hb & Hl) & Hc & He).
  - apply act_bind_inv in Hp as [(x & s2 & _ & [=])|(? & Hp & [= <-])].
    apply agent_call_inv in Hp as ((_ & _ & Hb & Hl) & Hc & He).
    destruct (isinstance e GuestAgentError) eqn:Hi; intros [= <- <-]; done.
Qed.

(** How the probing ends, after [k] probes without an answer. *)
Definition probed (k : nat) (s : Native E) (r : res ()) (s' : Native E) : Prop :=
  let missed := nat_events s ++ replicate k (Probe false) in
  (r = Ok () ∧ nat_live s' = true ∧ nat_events s' = missed ++ [Probe true]) ∨
  (r = raise CommunicatorError [] ∧ nat_live s' = nat_live s ∧ nat_events s' = missed) ∨
  (∃ e, r = Raise e ∧ isinstance e GuestAgentError = false ∧ nat_live s' = nat_live s ∧ nat_events s' = missed ++ [Probe false]).

Lemma probe_loop_inv n deadline (s : Native E) r s' :
  (deadline ≤ nat_clock s + RECONNECT_BACKOFF * (Z.of_nat n - 1))%Z → 0 < n → probe_loop n deadline s = (r, s') →
  ∃ k, k < n ∧ nat_bound s' = nat_bound s ∧ probed k s r s'.
Proof.
  revert s r s'. induction n as [|n IH]; intros s r s' Hd Hn; [lia|]. cbn [probe_loop]. rewrite act_bind_gets. case_decide as Hnow.
  2: { intros [= <- <-]. exists 0. unfold probed. cbn. rewrite app_nil_r. split_and!; [lia|done|]. right. by left. }
  intros [(up & s1 & Hp & H)|(e & Hp & ->)]%act_bind_inv; apply probe_inv in Hp as (Hb & Hl & Hc & Hev).
  - destruct up.
    { injection H as <- <-. exists 0. unfold probed. cbn. rewrite app_nil_r. split_and!; [lia|done|]. by left. }
    apply act_bind_inv in H as [([] & s2 & Hs & H)|(e & Hs & _)]; unfold native_sleep in Hs;
      destruct (agent_oversleep _ _) as [extra x]; [|discriminate]. injection Hs as <-.
    destruct n as [|n]; [unfold RECONNECT_BACKOFF in *; lia|].
    apply IH in H as (k & Hk & Hb' & Hpr); [|cbn; unfold RECONNECT_BACKOFF in *; lia|lia]. exists (S k). split; [lia|].
    split; [by rewrite Hb'|].
    assert (nat_events s ++ replicate (S k) (Probe false) = nat_events s1 ++ replicate k (Probe false)) as Hm by (by rewrite Hev, <-app_assoc).
    unfold probed. rewrite Hm, <-Hl. exact Hpr.
  - exists 0. unfold probed. cbn. rewrite app_nil_r. split_and!; [lia|done|]. right; right. destruct Hev. eauto.
Qed.

Lemma probe_rounds (s : Native E) r s' :
  probe_loop RECONNECT_ROUNDS (nat_clock s + RECONNECT_TIMEOUT) s = (r, s') →
  ∃ k, k < RECONNECT_ROUNDS ∧ nat_bound s' = nat_bound s ∧ probed k s r s'.
Proof. apply probe_loop_inv; unfold RECONNECT_BACKOFF, RECONNECT_TIMEOUT, RECONNECT_ROUNDS; lia. Qed.

(** A closed session is re-established before it is used.  A call on a communicator
    that was never bound is refused and touches nothing.  On a live one it is the
    agent's call and its result.  After [close()] the agent is probed, at most 61 times,
    and the call is made only right after a probe that was answered (the session is then
    live again); otherwise nothing but probes reached the guest, the session stays
    closed, and the error is [CommunicatorError] unless a probe failed with something
    other than an absent agent. *)
Theorem native_call_after_probe {A} (o : ext_op E A) s r s' :
  guest_call o s = (r, s') →
  (nat_bound s = false ∧ s' = s ∧ r = raise CommunicatorError []) ∨
  (nat_bound s = true ∧ nat_bound s' = true ∧ ∃ evs, nat_events s' = nat_events s ++ evs ∧
    ((nat_live s' = true ∧ (∃ s1, answered o s1 r s') ∧
        if nat_live s then evs = [Real]
        else ∃ k, k < RECONNECT_ROUNDS ∧ evs = replicate k (Probe false) ++ [Probe true; Real]) ∨
     (nat_live s = false ∧ nat_live s' = false ∧ ∃ k, k ≤ RECONNECT_ROUNDS ∧ evs = replicate k (Probe false) ∧
        ∃ e, r = Raise e ∧ (exn_class e = CommunicatorError ∨ isinstance e GuestAgentError = false)))).
Proof.
  unfold guest_call, check_bound. intros [([] & s0 & Hc & H)|(e & Hc & ->)]%act_bind_inv; rewrite act_bind_gets in Hc;
    destruct (nat_bound s) eqn:Hb; try discriminate Hc; [|injection Hc as <- <-; by left].
  injection Hc as <-. right. split; [done|]. unfold reconnect_if_needed in H.
  apply act_bind_inv in H as [([] & s1 & Hr & H)|(e & Hr & ->)]; rewrite act_bind_gets in Hr; destruct (nat_live s) eqn:Hl;
    try discriminate Hr.
  - injection Hr as <-. apply agent_call_inv in H as (Ha & _ & Hev). pose proof Ha as (_ & _ & Hb' & Hl').
    split; [congruence|]. eexists. split; [exact Hev|]. left. split; [congruence|]. eauto.
  - rewrite act_bind_gets in Hr. apply probe_rounds in Hr as (k & Hk & Hb1 & Hp).
    destruct Hp as [(_ & Hl1 & Hev1)|[([=] & _)|(? & [=] & _)]].
    apply agent_call_inv in H as (Ha & _ & Hev). pose proof Ha as (_ & _ & Hb' & Hl').
    split; [congruence|]. rewrite Hev1, <-!app_assoc in Hev. eexists. split; [exact Hev|]. left. split; [congruence|]. eauto.
  - rewrite act_bind_gets in Hr. apply probe_rounds in Hr as (k & Hk & Hb1 & Hp).
    split; [congruence|]. destruct Hp as [([=] & _)|[([= ->] & Hl1 & Hev1)|(e' & [= <-] & Hi & Hl1 & Hev1)]].
    + eexists. split; [exact Hev1|]. right. split_and!; [done|congruence|]. exists k. split; [lia|]. split; [done|]. eexists. split; [done|]. by left.
    + rewrite <-app_assoc in Hev1. eexists. split; [exact Hev1|]. right. split_and!; [done|congruence|]. exists (S k). split; [lia|].
      split; [by rewrite replicate_S_end|]. eauto.
Qed.
End Facts.

(** ** A guest that answers the third probe after a power cycle *)
Module NativeDemo.
#[local] Instance demo_agent : GuestAgent nat := {
  agent_exec _ _ _ n := (if n <? 2 then raise GuestAgentError ["no agent"] else Ok (MkExecResult 0 [] [] 5), S n, 7);
  agent_read _ n := (Ok (b "data"), n, 7);
  agent_write _ _ n := (Ok (), n, 7);
  agent_oversleep _ n := (1, n);
}.

Definition cycled : Native nat := (native_close (native_bind (new_native 0)).2).2.

Lemma native_call_after_probe_witness :
  (native_read_file "/etc/hosts" cycled).1 = Ok (b "data") ∧
  nat_events (native_read_file "/etc/hosts" cycled).2 = [Probe false; Probe false; Probe true; Real].
Proof.
  destruct (native_call_after_probe (agent_read "/etc/hosts") cycled (native_read_file "/etc/hosts" cycled).1
    (native_read_file "/etc/hosts" cycled).2) as [(Hb & _)|(_ & _ & evs & Hev & Hcase)].
  - unfold native_read_file. by destruct (guest_call _ cycled).
  - discriminate Hb.
  - split; [vm_compute; reflexivity|]. clear Hcase. rewrite Hev. vm_compute in Hev. rewrite <-Hev. reflexivity.
Defined.
End NativeDemo.
