(* ===== verification/SshSpec.v ===== *)
(** * What the SSH communicator guarantees

    The words a guest's shell reads, the sockets of connection attempts, the rounds and
    the exceptions of a call.  About the transport only which exceptions it raises is
    assumed ([well_behaved]). *)

From S2P Require Import Prelude Exceptions Eff PyBytes Url Shell Creds Remote Ssh.
From stdpp Require Import options.

(** C34: the guest's shell reads a command line as the argument vector of [execute].  With a
    directory, it reads a change to that directory and then [exec] with exactly the
    arguments, whatever they contain (blanks, quotes, metacharacters, nothing at all).
    Without one, it reads one command whose words are exactly the arguments if and only if
    there is a first argument and the shell takes that for a command word: not a reserved
    word ([if], [time]) and not of the form [NAME=...], both of which [shlex.quote]
    leaves bare.  And whatever it reads is at most one command, of which only leading
    arguments of that form are taken away, as assignments: no argument starts a command of
    its own. *)
Theorem ssh_command_words argv cwd :
  match cwd with
  | Some (c :: w) =>
      shell_commands (ssh_command argv cwd) = Some [MkCommand [] [b "cd"; b "--"; c :: w]; MkCommand [] (b "exec" :: argv)]
  | _ =>
      (shell_commands (ssh_command argv cwd) = Some [MkCommand [] argv] ↔ ∃ a args, argv = a :: args ∧ command_word a = true) ∧
      (∀ cs, shell_commands (ssh_command argv cwd) = Some cs →
         (argv = [] ∧ cs = []) ∨
         ∃ assigns words, cs = [MkCommand assigns words] ∧ argv = assigns ++ words ∧ Forall (λ w, command_word w = false) assigns)
  end.
Proof.
  assert (∀ cwd, match cwd with Some (_ :: _) => False | _ => True end → ssh_command argv cwd = shlex_join argv) as Hplain by by intros [[|]|].
  destruct cwd as [[|c w]|]; [rewrite Hplain by done; apply joined_command| |rewrite Hplain by done; apply joined_command].
  clear Hplain. unfold shell_commands, shell_tokens, ssh_command.
  assert (lex Bare None (b "cd -- " ++ shlex_quote (c :: w) ++ b " && exec " ++ shlex_join argv) =
    Some ((arg_word <$> [b "cd"; b "--"; c :: w]) ++ AndIf :: (arg_word <$> b "exec" :: argv))) as ->.
  { transitivity (app [bare_word (b "cd")] <$> (app [bare_word (b "--")] <$>
      lex Bare None (shlex_quote (c :: w) ++ b " && exec " ++ shlex_join argv))); [done|]. rewrite lex_quote by done.
    transitivity (app [bare_word (b "cd")] <$> (app [bare_word (b "--")] <$> (app [arg_word (c :: w)] <$> (app [AndIf] <$> (app [] <$>
      (app [bare_word (b "exec")] <$> lex Bare None (shlex_join argv))))))); [done|]. by rewrite lex_join. }
  cbn [mbind option_bind]. transitivity (and_list [] ((arg_word <$> [b "cd"; b "--"; c :: w]) ++ AndIf :: (arg_word <$> b "exec" :: argv))); [done|].
  rewrite and_list_words. cbn [app]. change (and_list (as_word <$> ?l) (AndIf :: ?r)) with (c ← simple_command (as_word <$> l); cs ← and_list [] r; Some (c :: cs)).
  rewrite command_of_args by done. cbn [mbind option_bind]. rewrite <-(app_nil_r (arg_word <$> _)), and_list_words.
  change (and_list ?l []) with ((λ c, [c]) <$> simple_command l). cbn [app]. by rewrite command_of_args by done.
Qed.

(** The documentation promises no shell (docs/user/running-tests.md, [execute]).  One is
    there: the first of these arguments becomes a variable of the second, and a reserved
    word is no command at all. *)
Example ssh_command_assigns : shell_commands (ssh_command [b "A=1"; b "env"] None) = Some [MkCommand [b "A=1"] [b "env"]].
Proof. vm_compute. done. Qed.
Example ssh_command_reserved : shell_commands (ssh_command [b "time"; b "true"] None) = None.
Proof. vm_compute. done. Qed.

Section Spec.
Context {E : Type} {L : SshLib E}.
Set Default Proof Using "Type".

(** ** Operations of the outside change only the outside and the clock *)

Record quiet (s s' : Ssh E) : Prop := {
  q_clock : (ssh_clock s ≤ ssh_clock s')%Z;
  q_user : ssh_username s' = ssh_username s;
  q_bound : ssh_bound s' = ssh_bound s;
  q_client : ssh_client s' = ssh_client s;
  q_events : ssh_events s' = ssh_events s;
}.

Lemma quiet_refl s : quiet s s.
Proof. by split. Qed.
Lemma quiet_trans s1 s2 s3 : quiet s1 s2 → quiet s2 s3 → quiet s1 s3.
Proof. intros [] []. split; [lia|congruence..]. Qed.

Lemma call_inv {A} (o : ext_op E A) s r s' : call o s = (r, s') → quiet s s' ∧ r = (o (ssh_ext s)).1.1.
Proof. unfold call. destruct (o (ssh_ext s)) as [[r0 e] dt]. intros [= <- <-]. split; [|done]. split; cbn; [lia|done..]. Qed.

Lemma sleep_inv d s r s' : (0 ≤ d)%Z → sleep d s = (r, s') → quiet s s' ∧ r = Ok () ∧ (ssh_clock s + d ≤ ssh_clock s')%Z.
Proof.
  intros Hd. unfold sleep. destruct (op_oversleep d (ssh_ext s)) as [x e]. intros [= <- <-].
  split; [split; cbn; [lia|done..]|]. split; [done|]. cbn. lia.
Qed.

Lemma suppress_inv (o : ext_op E ()) s r s' :
  (∀ e x, (o e).1.1 = Raise x → is_exception x = true) → suppress (call o) s = (r, s') → quiet s s' ∧ r = Ok ().
Proof.
  intros Ho. unfold suppress, catch. destruct (call o s) as [[[]|x] s1] eqn:Hc; apply call_inv in Hc as [Hq Hr].
  - by intros [= <- <-].
  - rewrite (Ho _ _ (eq_sym Hr)). by intros [= <- <-].
Qed.

(** ** What the transport may raise *)

Definition raises {A} (p : exn → bool) (o : ext_op E A) : Prop := ∀ e x, (o e).1.1 = Raise x → p x = true.

Record well_behaved : Prop := {
  wb_open h p : raises (λ x, transport_error x || isinstance x GatewayError) (op_open_socket h p);
  wb_connect a : raises transport_error (op_connect a);
  wb_close_socket k : raises is_exception (op_close_socket k);
  wb_chan_close k : raises is_exception (op_chan_close k);
  wb_exec c cmd t : raises exec_error (op_exec c cmd t);
  wb_read ch : raises exec_error (op_stdout_read ch);
  wb_ready ch : raises exec_error (op_exit_ready ch);
  wb_recv ch : raises exec_error (op_recv_exit ch);
  wb_join ch t : raises exec_error (op_join ch t);
  wb_drained ch : raises exec_error (op_drained ch);
  wb_drain ch (e : E) x : (op_drained ch e).1.1 = Ok (DrainRaised x) → exec_error x = true;
}.

Hypothesis Hwb : well_behaved.

Definition comm_error {A} (r : res A) : Prop := ∃ args, r = raise CommunicatorError args.

(** ** Connecting *)

Definition opened (o : option nat) : list net_event := match o with Some k => [SockOpened k] | None => [] end.
(** A failed attempt: what it opened it closed. *)
Definition failed_events (o : option nat) : list net_event :=
  match o with Some k => [SockOpened k; SockClosed k] | None => [] end.

(** A state that differs by time and by events. *)
Record logged (s s' : Ssh E) (evs : list net_event) : Prop := {
  l_clock : (ssh_clock s ≤ ssh_clock s')%Z;
  l_bound : ssh_bound s' = ssh_bound s;
  l_client : ssh_client s' = ssh_client s;
  l_events : ssh_events s' = ssh_events s ++ evs;
}.

Lemma quiet_logged s s' : quiet s s' → logged s s' [].
Proof. intros []. split; [done..|by rewrite app_nil_r]. Qed.
Lemma logged_trans s1 s2 s3 e1 e2 : logged s1 s2 e1 → logged s2 s3 e2 → logged s1 s3 (e1 ++ e2).
Proof. intros [] []. split; [lia|congruence|congruence|]. rewrite l_events1, l_events0. by rewrite app_assoc. Qed.
Lemma emit_logged ev s r s' : emit ev s = (r, s') → logged s s' [ev] ∧ r = Ok ().
Proof. intros [= <- <-]. by split. Qed.

Lemma open_sock_inv x s r s' :
  open_sock x s = (r, s') →
  (∃ o, r = Ok o ∧ logged s s' (opened o)) ∨
  (∃ e, r = Raise e ∧ logged s s' [] ∧ (transport_error e = true ∨ comm_error (Raise (A:=option nat) e))).
Proof using Hwb.
  unfold open_sock. destruct (bd_gateway x); [|intros [= <- <-]; left; exists None; split; [done|by apply quiet_logged, quiet_refl]].
  intros [(k & s1 & H1 & H2)|(e & H1 & ->)]%act_bind_inv; unfold catch in H1.
  - destruct (call _ s) as [[k'|e] s0] eqn:Hc; [|destruct (isinstance e GatewayError); discriminate]. injection H1 as -> <-.
    apply call_inv in Hc as [Hq _]. apply act_bind_inv in H2 as [([] & s2 & H2 & [= <- <-])|(e & H2 & _)]; [|discriminate].
    apply emit_logged in H2 as [Hl _]. left. exists (Some k). split; [done|]. by apply (logged_trans _ _ _ [] _ (quiet_logged _ _ Hq)).
  - destruct (call _ s) as [[k'|e'] s0] eqn:Hc; [discriminate|]. apply call_inv in Hc as [Hq Hr].
    pose proof (wb_open Hwb _ _ _ _ (eq_sym Hr)) as Hp. cbv beta in Hp. right. exists e.
    destruct (isinstance e' GatewayError) eqn:Hg; injection H1 as <- <-.
    + split; [done|]. split; [by apply quiet_logged|]. right. by eexists.
    + rewrite orb_false_r in Hp. split; [done|]. split; [by apply quiet_logged|]. by left.
Qed.

Lemma close_sock_inv o s r s' :
  close_sock o s = (r, s') → r = Ok () ∧ logged s s' (match o with Some k => [SockClosed k] | None => [] end).
Proof using Hwb.
  destruct o as [k|]; cbn; [|intros [= <- <-]; split; [done|by apply quiet_logged, quiet_refl]].
  intros [([] & s1 & H1 & H2)|(e & H1 & _)]%act_bind_inv; [|discriminate]. apply emit_logged in H1 as [Hl _].
  apply suppress_inv in H2 as [Hq ->]; [|apply (wb_close_socket Hwb)]. split; [done|].
  exact (logged_trans _ _ _ _ [] Hl (quiet_logged _ _ Hq)).
Qed.

Lemma ssh_attempt_inv x auth s r s' :
  ssh_attempt x auth s = (r, s') →
  (r = Ok None ∧ ∃ o, logged s s' (failed_events o)) ∨
  (∃ c o, r = Ok (Some c) ∧ logged s s' (opened o ++ [Connected c o])) ∨
  (comm_error r ∧ logged s s' []).
Proof using Hwb.
  unfold ssh_attempt. intros [(o & s1 & H1 & H2)|(e & H1 & ->)]%act_bind_inv; unfold catch in H1.
  - destruct ((open_sock x ≫= _) s) as [[o'|e] s0] eqn:Hb.
    + injection H1 as -> <-. apply act_bind_inv in Hb as [(k & s2 & Hk & [= <- <-])|(e & _ & [=])].
      apply open_sock_inv in Hk as [(k' & [= ->] & Hl)|(e & [=] & _)]. unfold catch in H2.
      destruct ((call _ ≫= _) s2) as [[o|e] s3] eqn:Hc.
      * injection H2 as <- <-. right; left. apply act_bind_inv in Hc as [(c & s4 & Hc & Hm)|(e & _ & [=])].
        apply call_inv in Hc as [Hq _]. apply act_bind_inv in Hm as [([] & s5 & Hm & [= <- <-])|(e & Hm & _)]; [|discriminate].
        apply emit_logged in Hm as [Hl' _]. exists c, k'. split; [done|].
        eapply logged_trans; [exact Hl|]. exact (logged_trans _ _ _ [] _ (quiet_logged _ _ Hq) Hl').
      * apply act_bind_inv in Hc as [(c & s4 & _ & Hm)|(e' & Hc & [= <-])].
        { apply act_bind_inv in Hm as [([] & s5 & _ & [=])|(e' & Hm & _)]. discriminate. }
        apply call_inv in Hc as [Hq Hr]. rewrite (wb_connect Hwb _ _ _ (eq_sym Hr)) in H2.
        apply act_bind_inv in H2 as [([] & s5 & Hcl & [= <- <-])|(e' & Hcl & _)]; apply close_sock_inv in Hcl as [Hok Hl']; [|discriminate].
        left. split; [done|]. exists k'. pose proof (logged_trans _ _ _ _ _ (logged_trans _ _ _ _ [] Hl (quiet_logged _ _ Hq)) Hl') as Hall.
        destruct k'; exact Hall.
    + apply act_bind_inv in Hb as [(k & s2 & _ & [=])|(e' & Hk & [= <-])].
      apply open_sock_inv in Hk as [(k' & [=] & _)|(e' & [= <-] & Hl & Ht)].
      destruct (transport_error e); [|discriminate]. injection H1 as <- <-. injection H2 as <- <-.
      left. split; [done|]. by exists None.
  - destruct ((open_sock x ≫= _) s) as [[o'|e'] s0] eqn:Hb; [discriminate|].
    apply act_bind_inv in Hb as [(k & s2 & _ & [=])|(e'' & Hk & [= <-])].
    apply open_sock_inv in Hk as [(k' & [=] & _)|(e'' & [= <-] & Hl & Ht)].
    destruct (transport_error e') eqn:Hte; [discriminate|]. injection H1 as <- <-. right; right. split; [|done].
    destruct Ht as [Ht|[args [= ->]]]; [discriminate|]. by eexists.
Qed.

(** How a sequence of attempts ends, and what it leaves. *)
Definition connect_outcome (s : Ssh E) (r : res nat) (s' : Ssh E) : Prop :=
  ∃ failed, let evs := ssh_events s ++ concat (failed_events <$> failed) in
    (∃ c o, r = Ok c ∧ ssh_client s' = Some c ∧ ssh_events s' = evs ++ opened o ++ [Connected c o]) ∨
    (comm_error r ∧ ssh_client s' = ssh_client s ∧ ssh_events s' = evs).

Lemma connect_loop_inv n deadline x auth s r s' :
  (deadline ≤ ssh_clock s + BACKOFF * (Z.of_nat n - 1))%Z → 0 < n →
  connect_loop n deadline x auth s = (r, s') →
  connect_outcome s r s' ∧ ssh_bound s' = ssh_bound s ∧ (ssh_clock s ≤ ssh_clock s')%Z.
Proof using Hwb.
  revert s r s'. induction n as [|n IH]; intros s r s' Hd Hn; [lia|]. cbn [connect_loop]. rewrite act_bind_gets. case_decide as Hnow.
  2: { intros [= <- <-]. split; [|done]. exists []. right. split; [by eexists|]. split; [done|]. cbn. by rewrite app_nil_r. }
  intros [(o & s1 & H1 & H2)|(e & H1 & ->)]%act_bind_inv; apply ssh_attempt_inv in H1 as [(Ho & k & Hl)|[(c & k & Ho & Hl)|[He Hl]]];
    try discriminate Ho; destruct Hl as [Hclk Hbd Hcl Hev].
  - injection Ho as ->. apply act_bind_inv in H2 as [([] & s2 & Hs & H2)|(e & Hs & _)];
      (apply sleep_inv in Hs as (Hq & Hok & Hsl); [|done]); [|discriminate].
    destruct n as [|n]; [unfold BACKOFF in *; lia|].
    apply IH in H2 as ((failed & Hout) & Hbd' & Hclk'); [|unfold BACKOFF in *; lia|lia]. destruct Hq as [Hq1 Hq2 Hq3 Hq4 Hq5].
    split; [|split; [congruence|lia]]. exists (k :: failed). cbn zeta in *. rewrite fmap_cons. cbn [concat].
    rewrite Hq5, Hev, Hq4, Hcl, <-app_assoc in Hout. exact Hout.
  - injection Ho as ->. cbn in H2. apply act_bind_inv in H2 as [([] & s2 & [= <-] & [= <- <-])|(e & [=] & _)].
    split; [|done]. exists []. left. exists c, k. cbn. by rewrite app_nil_r.
  - destruct He as [args [=]].
  - destruct He as [args [= ->]]. split; [|done]. exists []. right. split; [by eexists|]. split; [done|]. by rewrite Hev.
Qed.

Lemma choose_auth_inv c (s : Ssh E) r s' :
  choose_auth c s = (r, s') → s' = s ∧ ((∃ a, r = Ok a) ∨ comm_error r).
Proof.
  unfold choose_auth. destruct (cr_ssh_key c) as [k|]; [destruct (key_loads _)|case_decide]; intros [= <- <-];
    (split; [done|]); first [by left; eexists|by right; eexists].
Qed.

Lemma ensure_connected_inv s r s' :
  ensure_connected s = (r, s') →
  (∃ c, ssh_client s = Some c ∧ r = Ok c ∧ s' = s) ∨ connect_outcome s r s'.
Proof using Hwb.
  unfold ensure_connected. rewrite act_bind_gets. destruct (ssh_client s) as [c|] eqn:Hc; [intros [= <- <-]; eauto|].
  assert (∀ c args, (raise c args, s) = (r, s') → c = CommunicatorError → connect_outcome s r s') as Hfail.
  { intros c args [= <- <-] ->. exists []. right. split; [by eexists|]. split; [done|]. cbn. by rewrite app_nil_r. }
  destruct (ssh_bound s) as [x|]; [|intros H; right; by eapply Hfail].
  unfold throw_when. destruct (paramiko_installed (E:=E)); [|intros H; right; eapply (Hfail CommunicatorError); [exact H|done]].
  intros [(? & s1 & [= <- <-] & H)|(e & [=] & _)]%act_bind_inv. right.
  apply act_bind_inv in H as [(auth & s1 & Ha & H)|(e & Ha & ->)]; apply choose_auth_inv in Ha as [-> Ha].
  - rewrite act_bind_gets in H. apply connect_loop_inv in H as [H _]; [exact H| |];
      unfold BACKOFF, CONNECT_ROUNDS, TOTAL_TIMEOUT; lia.
  - destruct Ha as [[? [=]]|[args [= ->]]]. by eapply Hfail.
Qed.

(** The sockets opened through the gateway and not closed yet, the last one first. *)
Fixpoint drop_socket (k : nat) (live : list nat) : list nat :=
  match live with
  | [] => []
  | j :: live => if decide (j = k) then live else j :: drop_socket k live
  end.
Definition track (live : list nat) (ev : net_event) : list nat :=
  match ev with
  | SockOpened k => k :: live
  | SockClosed k => drop_socket k live
  | Connected _ _ => live
  end.
Definition open_sockets (evs : list net_event) : list nat := foldl track [] evs.

Lemma failed_events_open failed evs :
  open_sockets (evs ++ concat (failed_events <$> failed)) = open_sockets evs.
Proof.
  unfold open_sockets. rewrite foldl_app. generalize (foldl track [] evs). intros live.
  induction failed as [|[k|] failed IH] using rev_ind; [done|..]; rewrite fmap_app, concat_app, foldl_app, IH; cbn; [|done].
  by rewrite decide_True.
Qed.

(** No connection attempt leaks its channel to the bastion.  Whatever a guest that
    is still booting does to the attempts, when the call is over the sockets open
    through the gateway are those open before it, and one more if and only if it
    returned a client: the one that client is connected over.  The call ends, within
    its rounds, with a client or with [CommunicatorError]. *)
Theorem ssh_sockets_closed (s : Ssh E) r s' :
  ensure_connected s = (r, s') →
  (∃ c, ssh_client s = Some c ∧ r = Ok c ∧ s' = s) ∨
  (∃ c o before, r = Ok c ∧ ssh_client s' = Some c ∧ ssh_events s' = before ++ [Connected c o] ∧
    open_sockets (ssh_events s') = option_list o ++ open_sockets (ssh_events s)) ∨
  (comm_error r ∧ ssh_client s' = ssh_client s ∧ open_sockets (ssh_events s') = open_sockets (ssh_events s)).
Proof using Hwb.
  intros [?|(failed & [(c & o & -> & Hc & Hev)|(He & Hc & Hev)])]%ensure_connected_inv; [by left|right; left|right; right].
  - eexists c, o, _. split; [done|]. split; [done|]. split; [by rewrite Hev, app_assoc|].
    rewrite Hev, <-(failed_events_open failed (ssh_events s)). unfold open_sockets. rewrite foldl_app. by destruct o.
  - split; [done|]. split; [done|]. by rewrite Hev, failed_events_open.
Qed.

(** ** The exceptions of a call *)

Definition only {A} (p : exn → bool) (m : act (Ssh E) A) : Prop :=
  ∀ s r s', m s = (r, s') → (∃ a, r = Ok a) ∨ ∃ e, r = Raise e ∧ p e = true.

Lemma only_raise {A} p (m : act (Ssh E) A) s e s' : only p m → m s = (Raise e, s') → p e = true.
Proof. intros Hm H. by destruct (Hm _ _ _ H) as [[? [=]]|(e' & [= <-] & ?)]. Qed.
Lemma only_ret {A} p (a : A) : only p (mret a).
Proof. intros s r s' [= <- <-]. eauto. Qed.
Lemma only_gets {A} p (f : Ssh E → A) : only p (gets f).
Proof. intros s r s' [= <- <-]. eauto. Qed.
Lemma only_lift_raise {A} p e : p e = true → only p (lift (Raise e) : act (Ssh E) A).
Proof. intros Hp s r s' [= <- <-]. eauto. Qed.
Lemma only_bind {A C} p (m : act (Ssh E) A) (k : A → act (Ssh E) C) : only p m → (∀ a, only p (k a)) → only p (m ≫= k).
Proof.
  intros Hm Hk s r s' [(a & s1 & _ & H)|(e & H & ->)]%act_bind_inv; [by eapply Hk|].
  destruct (Hm _ _ _ H) as [[? [=]]|(e' & [= <-] & ?)]. eauto.
Qed.
Lemma only_finally {A} p (m : act (Ssh E) A) f : only p m → only p f → only p (finally m f).
Proof.
  intros Hm Hf s r s' (r1 & s1 & H1 & [[_ ->]|(e & H2 & ->)])%finally_inv; [by eapply Hm|].
  destruct (Hf _ _ _ H2) as [[? [=]]|(e' & [= <-] & ?)]. eauto.
Qed.
Lemma only_call {A} (p : exn → bool) (o : ext_op E A) : raises p o → only p (call o).
Proof. intros Ho s r s' [_ ->]%call_inv. destruct (o (ssh_ext s)).1.1 eqn:Eq; [eauto|]. right. eexists. split; [done|]. by eapply Ho. Qed.
Lemma only_impl {A} (p q : exn → bool) (m : act (Ssh E) A) : (∀ e, p e = true → q e = true) → only p m → only q m.
Proof. intros Hpq Hm s r s' H. destruct (Hm _ _ _ H) as [?|(e & -> & ?)]; [by left|]. right. eauto. Qed.

(** What may come out of the body of [execute]. *)
Definition body_error (e : exn) : bool := exec_error e || bool_decide (exn_class e = CommunicatorError).

Lemma only_body {A} (o : ext_op E A) : raises exec_error o → only body_error (call o).
Proof. intros Ho. eapply only_impl, only_call, Ho. intros e He. unfold body_error. by rewrite He. Qed.

Lemma only_suppress (p : exn → bool) o : raises is_exception o → only p (suppress (call o)).
Proof. intros Ho s r s' [_ ->]%suppress_inv; [eauto|done]. Qed.

Lemma wait_exit_inv n deadline ch (s : Ssh E) r s' :
  (deadline ≤ ssh_clock s + EXIT_POLL * (Z.of_nat n - 1))%Z → 0 < n → wait_exit n deadline ch s = (r, s') →
  (∃ a, r = Ok a) ∨ ∃ e, r = Raise e ∧ body_error e = true.
Proof using Hwb.
  revert s r s'. induction n as [|n IH]; intros s r s' Hd Hn; [lia|]. cbn [wait_exit].
  intros [([|] & s1 & H1 & H2)|(e & H1 & ->)]%act_bind_inv.
  - injection H2 as <- <-. eauto.
  - apply call_inv in H1 as [[Hq _ _ _ _] _]. rewrite act_bind_gets in H2. case_decide as Hdl.
    + apply act_bind_inv in H2 as [([] & s2 & _ & [= <- <-])|(e & H2 & ->)]; [right; by eexists|].
      apply suppress_inv in H2 as [_ [=]]. apply (wb_chan_close Hwb).
    + apply act_bind_inv in H2 as [([] & s2 & Hs & H2)|(e & Hs & ->)];
        (apply sleep_inv in Hs as (Hq2 & Hok & Hsl); [|done]); [|discriminate Hok].
      destruct n as [|n]; [unfold EXIT_POLL in *; lia|]. eapply IH in H2; [done| |lia]. unfold EXIT_POLL in *. lia.
  - right. exists e. split; [done|]. eapply only_raise, H1. apply only_body, (wb_ready Hwb).
Qed.

Lemma only_wait ch timeout :
  (0 ≤ timeout)%Z → only body_error (start ← gets ssh_clock; wait_exit (exit_rounds timeout) (start + timeout) ch).
Proof using Hwb.
  intros Ht s r s'. rewrite act_bind_gets. apply wait_exit_inv; unfold exit_rounds, EXIT_POLL; [|lia].
  pose proof (Z.div_pos timeout 50 Ht ltac:(lia)). pose proof (Z.mul_succ_div_gt timeout 50 ltac:(lia)). lia.
Qed.

Lemma only_exec_body c cmd timeout : (0 ≤ timeout)%Z → only body_error (exec_body c cmd timeout).
Proof using Hwb.
  intros Ht. unfold exec_body. apply only_bind; [apply only_body, (wb_exec Hwb)|intros ch].
  apply only_bind; [apply only_finally; [|apply only_body, (wb_join Hwb)]|intros oc].
  - apply only_bind; [apply only_body, (wb_read Hwb)|intros out]. intros s r s' H.
    pose proof (only_wait ch timeout Ht s) as Hw. rewrite act_bind_gets in Hw. cbv beta in Hw.
    change ((wait_exit (exit_rounds timeout) (ssh_clock s + timeout) ch ≫= λ _, call (op_recv_exit ch) ≫= λ code, mret (out, code)) s
      = (r, s')) in H.
    destruct (wait_exit _ _ ch s) as [rw sw] eqn:Eqw. destruct (Hw _ _ eq_refl) as [[[] ->]|(e & -> & He)].
    + rewrite (act_bind_Ok _ _ _ _ _ Eqw) in H. eapply (only_bind body_error), H; [apply only_body, (wb_recv Hwb)|].
      intros code. apply only_ret.
    + rewrite (act_bind_Raise _ _ _ _ _ Eqw) in H. injection H as <- <-. eauto.
  - intros s r s' [(d & s1 & Hdr & H)|(e & Hdr & ->)]%act_bind_inv.
    + destruct d as [|e|err].
      * eapply (only_bind body_error), H; [apply only_suppress, (wb_chan_close Hwb)|intros []; by apply only_lift_raise].
      * injection H as <- <-. right. exists e. split; [done|]. apply call_inv in Hdr as [_ Hdr].
        unfold body_error. by rewrite (wb_drain Hwb _ _ _ (eq_sym Hdr)).
      * injection H as <- <-. eauto.
    + right. exists e. split; [done|]. eapply only_raise, Hdr. apply only_body, (wb_drained Hwb).
Qed.

(** A command ends, one way or another, with the one exception callers are promised.
    For a non-empty argument vector [execute] returns a result or raises
    [CommunicatorError], whatever the transport raises at whatever point and however
    long it takes: no loop of it goes on for ever, and no exception of the SSH library
    or of the socket gets out. *)
Theorem ssh_execute_boundary argv timeout cwd (s : Ssh E) r s' :
  argv ≠ [] → (0 ≤ timeout)%Z → ssh_execute argv timeout cwd s = (r, s') →
  (∃ x, r = Ok x) ∨ comm_error r.
Proof using Hwb.
  intros Hne Ht. unfold ssh_execute, throw_when. rewrite bool_decide_false by done.
  intros [(? & s0 & [= <- <-] & H)|(e & [=] & _)]%act_bind_inv.
  apply act_bind_inv in H as [(c & s1 & _ & H)|(e & H & ->)].
  - destruct (paramiko_installed (E:=E)); [|right; injection H as <- <-; by eexists].
    apply act_bind_inv in H as [(? & s2 & [= <- <-] & H)|(e & [=] & _)]. rewrite act_bind_gets in H.
    apply act_bind_inv in H as [(x & s2 & _ & H)|(e & H & ->)]; [injection H as <- <-; eauto|]. right. unfold catch in H.
    destruct (exec_body c _ timeout s1) as [[x|e'] s2] eqn:Eqb; [discriminate|].
    destruct (only_exec_body c _ timeout Ht _ _ _ Eqb) as [[? [=]]|(e'' & [= <-] & He)].
    destruct (exec_error e') eqn:Ex; [injection H as <- <-; by eexists|]. injection H as <- <-.
    unfold body_error in He. rewrite Ex in He. apply bool_decide_eq_true in He. destruct e' as [cl args]. cbn in He. subst cl. by eexists.
  - apply ensure_connected_inv in H as [(c & _ & [=] & _)|(failed & [(c & o & [=] & _)|[[args [= ->]] _]])]. right. by eexists.
Qed.
End Spec.

(** ** Sessions *)
Section Session.
Context {E : Type} {L : SshLib E}.
Set Default Proof Using "Type".

(** A communicator is bound once, and never to another user's credential. *)
Lemma ssh_bind_once x (s : Ssh E) r s' :
  ssh_bind x s = (r, s') →
  (r = Ok () ∧ ssh_bound s = None ∧ s' = set_bound (Some x) s ∧ bd_host x ≠ "" ∧
    cr_username (bd_credential x) = ssh_username s ∧ (1 ≤ bd_port x ≤ 65535)%Z) ∨
  (s' = s ∧ ∃ args, r = raise (if ssh_bound s then CommunicatorAlreadyBoundError else ValueError) args).
Proof.
  unfold ssh_bind, throw_when, raise_when. rewrite act_bind_gets. destruct (bool_decide (is_Some _)) eqn:Hb.
  { apply bool_decide_eq_true in Hb as [y Hy]. intros [= <- <-]. right. rewrite Hy. split; [done|by eexists]. }
  apply bool_decide_eq_false, eq_None_not_Some in Hb. rewrite Hb.
  destruct (bool_decide (bd_host x = "")) eqn:Hh; [intros [= <- <-]; right; split; [done|by eexists]|].
  destruct (bool_decide (_ = ssh_username s)) eqn:Hu; [|intros [= <- <-]; right; split; [done|by eexists]].
  destruct (bool_decide (1 ≤ _ ≤ _)%Z) eqn:Hp; intros [= <- <-]; [left|right; split; [done|by eexists]].
  apply bool_decide_eq_false in Hh. apply bool_decide_eq_true in Hu, Hp. done.
Qed.

(** [close()] is not terminal: the binding stays, so the next call connects anew. *)
Lemma ssh_close_keeps_binding (s : Ssh E) r s' :
  (∀ c, raises (E:=E) is_exception (op_client_close c)) → ssh_close s = (r, s') →
  ssh_client s' = None ∧ ssh_bound s' = ssh_bound s ∧ ssh_events s' = ssh_events s.
Proof.
  intros Hc. unfold ssh_close. rewrite act_bind_gets.
  intros [([] & s1 & H1 & H2)|(e & H1 & ->)]%act_bind_inv.
  - assert (ssh_client s1 = None ∧ ssh_bound s1 = ssh_bound s ∧ ssh_events s1 = ssh_events s) as (Hcl & Hb & Hev).
    { destruct (ssh_client s) as [c|] eqn:Eqc; [|by injection H1 as <-].
      apply act_bind_inv in H1 as [([] & s2 & H1 & [= <-])|(e & _ & [=])].
      destruct (suppress_inv _ _ _ _ (Hc c) H1) as [[] _]. done. }
    destruct (ssh_bound s) as [y|]; [destruct (bd_gateway y)|]; try (by injection H2 as <- <-).
    apply call_inv in H2 as [[] _]. split_and!; congruence.
  - destruct (ssh_client s) as [c|]; [|discriminate].
    apply act_bind_inv in H1 as [([] & s2 & _ & [=])|(e' & H1 & _)].
    by destruct (suppress_inv _ _ _ _ (Hc c) H1) as [_ [=]].
Qed.

(** What opening the SFTP session raises, [read_file] and [write_file] raise as it is:
    the call is made before the handler that turns a failure into [CommunicatorError]. *)
Lemma sftp_open_escapes path data c e (s : Ssh E) :
  ssh_client s = Some c → (op_open_sftp c (ssh_ext s)).1.1 = Raise e →
  (ssh_read_file path s).1 = Raise e ∧ (ssh_write_file path data s).1 = Raise e.
Proof.
  intros Hc He. unfold ssh_read_file, ssh_write_file.
  assert (ensure_connected s = (Ok c, s)) as Hen by (unfold ensure_connected; by rewrite act_bind_gets, Hc).
  rewrite !(act_bind_Ok _ _ _ _ _ Hen). destruct (call (op_open_sftp c) s) as [r s1] eqn:Hr.
  destruct (call_inv _ _ _ _ Hr) as [_ ->]. rewrite He in Hr. by rewrite !(act_bind_Raise _ _ _ _ _ Hr).
Qed.
End Session.

(** ** A session that comes up on the third attempt *)
Module SshDemo.

(** The outside counts the operations made on it: the first two connections are refused,
    the exit status comes late, an SFTP session is refused. *)
Definition refuse {A} : res A := raise SSHException ["refused"].
Definition tick {A} (a : res A) : ext_op nat A := λ n, (a, S n, 10).

#[local] Instance demo_lib : SshLib nat := {
  paramiko_installed := true;
  key_loads _ := true;
  op_open_socket _ _ n := (Ok n, S n, 10);
  op_close_socket _ := tick (Ok ());
  op_gateway_close := tick (Ok ());
  op_connect _ n := (if n <? 6 then refuse else Ok n, S n, 10);
  op_client_close _ := tick (Ok ());
  op_exec _ _ _ := tick (Ok 0);
  op_stdout_read _ := tick (Ok (b "hello"));
  op_exit_ready _ n := (Ok (12 <=? n), S n, 10);
  op_recv_exit _ := tick (Ok 3%Z);
  op_chan_close _ := tick (Ok ());
  op_join _ _ := tick (Ok ());
  op_drained _ := tick (Ok (Drained (b "oops")));
  op_open_sftp _ := tick refuse;
  op_sftp_read _ _ := tick (Ok []);
  op_sftp_put _ _ _ := tick (Ok ());
  op_sftp_close _ := tick (Ok ());
  op_oversleep _ n := (1, S n);
}.

Lemma demo_well_behaved : well_behaved (E:=nat).
Proof.
  split; unfold raises; try (by intros; cbn in *; simplify_eq).
  intros a e x. cbn [op_connect demo_lib fst]. destruct (e <? 6); [by intros [= <-]|discriminate].
Defined.

Definition cred : PosixCred := MkPosixCred "ada" false (Some "pw") None [].
Definition demo_ssh : Ssh nat :=
  MkSsh "ada" None (Some (MkBinding "10.0.0.7" 22 cred true)) None 0 0 [].
Definition after_connect : Ssh nat := (ensure_connected demo_ssh).2.

Lemma ssh_sockets_closed_witness :
  open_sockets (ssh_events after_connect) = [8] ∧ ssh_client after_connect = Some 9.
Proof.
  destruct (ssh_sockets_closed demo_well_behaved demo_ssh (ensure_connected demo_ssh).1 after_connect)
    as [(c & Hc & _)|[(c & o & before & Hr & Hcl & Hev & Ho)|[[args Hr] _]]].
  - unfold after_connect. by destruct (ensure_connected demo_ssh).
  - discriminate Hc.
  - vm_compute in Hr. injection Hr as <-. split; [|exact Hcl]. vm_compute. reflexivity.
  - vm_compute in Hr. discriminate Hr.
Defined.

Lemma ssh_execute_boundary_witness :
  ∃ x, (ssh_execute [b "id"] 1000 None demo_ssh).1 = Ok x ∧ exit_code x = 3%Z ∧ stderr x = b "oops".
Proof.
  destruct (ssh_execute_boundary demo_well_behaved [b "id"] 1000 None demo_ssh
    (ssh_execute [b "id"] 1000 None demo_ssh).1 (ssh_execute [b "id"] 1000 None demo_ssh).2) as [[x Hx]|[args Hx]].
  - discriminate.
  - done.
  - by destruct (ssh_execute [b "id"] 1000 None demo_ssh).
  - exists x. split; [exact Hx|]. vm_compute in Hx. injection Hx as <-. done.
  - vm_compute in Hx. discriminate Hx.
Defined.

(** A refused SFTP session comes out of [read_file] as the SSH library's exception. *)
Lemma read_file_leaks_transport_error : (ssh_read_file "/etc/hosts" after_connect).1 = refuse.
Proof. exact (proj1 (sftp_open_escapes "/etc/hosts" [] 9 _ after_connect eq_refl eq_refl)). Qed.
End SshDemo.
