(* ===== verification/Qga.v ===== *)
(** * The QEMU guest agent ([drivers/libvirt/_guest.py], [drivers/proxmox/_guest.py])

    The three callables a driver binds a native communicator to, over libvirt's raw
    agent channel and over Proxmox's REST helpers.  The agent itself is a class of
    operations over any outside state; what its file commands do, where a theorem needs
    it, is the class of laws [QgaFiles], the documented behaviour of the protocol. *)

From S2P Require Import Prelude Exceptions Eff PyBytes Ledger Url Shell Remote Ssh.
From stdpp Require Import options.

(** What is sent to a guest. *)
Inductive agent_request : Type :=
  | Command (command : json)
  | PostExec (argv : list text)
  | GetStatus (pid : json)
  | GetFile (path : text)
  | PostFile (path : text) (content : text).

Class AgentLib (E : Type) : Type := {
  (** [json.loads(libvirt_qemu.qemuAgentCommand(dom, json.dumps(command), timeout, 0))] *)
  qemu_agent_command : json → Z → ext_op E json;
  (** the [agent] endpoints of the Proxmox API *)
  pve_exec : list text → ext_op E json;
  pve_exec_status : json → ext_op E json;
  pve_file_read : text → ext_op E json;
  pve_file_write : text → text → ext_op E ();
  (** [str(value)] of a value that is not a string *)
  py_str : json → text;
  #[global] agent_sleeper :: Sleeper E;
}.
#[export] Hint Mode AgentLib ! : typeclass_instances.

Definition jobject (l : list (string * json)) : json := JObj (list_to_map l).
Definition jtext (t : text) : json := JStr (str t).

(** [bool(value)] of an optional value *)
Definition json_truthy (o : option json) : bool :=
  match o with
  | None | Some JNull | Some (JBool false) | Some (JStr "") | Some (JArr []) => false
  | Some (JNum z) => bool_decide (z ≠ 0)%Z
  | Some (JObj m) => bool_decide (m ≠ ∅)
  | Some _ => true
  end.

Definition AGENT_TIMEOUT : Z := 30.
Definition POLL_INTERVAL : Z := 250.
Definition READ_CHUNK : Z := 256 * 1024.
Definition WRITE_CHUNK : nat := Z.to_nat (32 * 1024).

(** [[data[start:start+n] for start in range(0, len(data), n)]]; every piece takes at
    least one byte. *)
Fixpoint chunk_rounds (fuel n : nat) (data : bytes) : list bytes :=
  match fuel, data with
  | S fuel, _ :: _ => take n data :: chunk_rounds fuel n (drop n data)
  | _, _ => []
  end.
Definition chunks_of (n : nat) (data : bytes) : list bytes := chunk_rounds (length data) n data.

Section Agent.
Context {E : Type} {L : AgentLib E}.
Abbreviation R A := (act (Remote agent_request E) A).

(** [except Exception as e: raise GuestAgentError(...) from e] *)
Definition agent_guard {A} (m : R A) : R A := catch m is_exception (λ _, throw GuestAgentError []).

(** ** libvirt *)

Definition agent_command (command : json) : R json :=
  reply ← rcall (Command command) (qemu_agent_command command AGENT_TIMEOUT);
  ret ← lift (json_get reply "return");
  mret (default JNull ret).

(** [_b64] *)
Definition b64_field (o : option json) : res bytes :=
  if json_truthy o then
    match o with
    | Some (JStr s) => b64decode (b s)
    | _ => raise TypeError ["b64decode"]
    end
  else mret [].

Definition field (o : json) (k : string) : R (option json) := lift (json_get o k).

Definition guest_exec (argv : list text) : json :=
  jobject [("execute", JStr "guest-exec");
    ("arguments", jobject [("path", jtext (default [] (head argv))); ("arg", JArr (jtext <$> tail argv)); ("capture-output", JBool true)])].
Definition guest_exec_status (pid : json) : json :=
  jobject [("execute", JStr "guest-exec-status"); ("arguments", jobject [("pid", pid)])].

(** The result of a status reply that says [exited]; [None] to poll again. *)
Definition libvirt_status (pid : json) (start : Z) : R (option ExecResult) :=
  status ← agent_command (guest_exec_status pid);
  exited ← field status "exited";
  if json_truthy exited then
    code ← field status "exitcode";
    code ← lift (Ledger.py_int (default (JNum (-1)) code));
    out ← field status "out-data";
    out ← lift (b64_field out);
    err ← field status "err-data";
    err ← lift (b64_field err);
    now ← gets rm_clock;
    mret (Some (MkExecResult code out err (now - start)))
  else mret None.

(** [make_execute(...)._execute] *)
Definition libvirt_execute (argv : list text) (timeout : Z) : R ExecResult :=
  start ← gets rm_clock;
  pid ← agent_guard
    (throw_when (bool_decide (argv = [])) IndexError ["argv"];;
     ret ← agent_command (guest_exec argv);
     lift (json_getitem ret "pid"));
  poll_from POLL_INTERVAL timeout start (agent_guard (libvirt_status pid start)) (Exn GuestAgentError []).

Definition guest_file_open (path : text) (mode : string) : json :=
  jobject [("execute", JStr "guest-file-open"); ("arguments", jobject [("path", jtext path); ("mode", JStr mode)])].
Definition guest_file_read (handle : json) : json :=
  jobject [("execute", JStr "guest-file-read"); ("arguments", jobject [("handle", handle); ("count", JNum READ_CHUNK)])].
Definition guest_file_write (handle : json) (chunk : bytes) : json :=
  jobject [("execute", JStr "guest-file-write");
    ("arguments", jobject [("handle", handle); ("buf-b64", jtext (b2a chunk))])].
Definition guest_file_close (handle : json) : json :=
  jobject [("execute", JStr "guest-file-close"); ("arguments", jobject [("handle", handle)])].

(** [while True: ...; if res.get("eof"): break]: the agent decides when it ends, so the
    rounds are an argument. *)
Fixpoint read_loop (n : nat) (handle : json) (chunks : bytes) : R bytes :=
  match n with
  | 0 => throw OutOfFuel []
  | S n =>
      r ← agent_command (guest_file_read handle);
      buf ← field r "buf-b64";
      chunk ← lift (b64_field buf);
      eof ← field r "eof";
      if json_truthy eof then mret (chunks ++ chunk) else read_loop n handle (chunks ++ chunk)
  end.

Definition with_handle {A} (path : text) (mode : string) (body : json → R A) : R A :=
  handle ← agent_command (guest_file_open path mode);
  finally (body handle) (agent_command (guest_file_close handle);; mret ()).

Definition libvirt_read_file (rounds : nat) (path : text) : R bytes :=
  agent_guard (with_handle path "r" (λ handle, read_loop rounds handle [])).

Definition libvirt_write_file (path : text) (data : bytes) : R () :=
  agent_guard (with_handle path "w" (λ handle,
    forA (λ chunk, agent_command (guest_file_write handle chunk);; mret ()) (chunks_of WRITE_CHUNK data))).

(** ** Proxmox *)

Definition MAX_ENCODED_WRITE_LEN : Z := 60000.
Definition RAW_WRITE_CHUNK : nat := Z.to_nat (MAX_ENCODED_WRITE_LEN / 4 * 3).

(** [_to_bytes]: a string carries one byte per character *)
Definition to_bytes (o : option json) : bytes :=
  match o with
  | None | Some JNull => []
  | Some (JStr s) => b s
  | Some j => py_str (E:=E) j
  end.

Definition pve_status (pid : json) (start : Z) : R (option ExecResult) :=
  status ← rcall (GetStatus pid) (pve_exec_status pid);
  exited ← field status "exited";
  if json_truthy exited then
    code ← field status "exitcode";
    code ← lift (Ledger.py_int (default (JNum (-1)) code));
    out ← field status "out-data";
    err ← field status "err-data";
    now ← gets rm_clock;
    mret (Some (MkExecResult code (to_bytes out) (to_bytes err) (now - start)))
  else mret None.

(** [_run_exec]: only the launch is inside the [try] *)
Definition run_exec (argv : list text) (timeout : Z) : R ExecResult :=
  start ← gets rm_clock;
  pid ← agent_guard (ret ← rcall (PostExec argv) (pve_exec argv); lift (json_getitem ret "pid"));
  poll_from POLL_INTERVAL timeout start (pve_status pid start) (Exn GuestAgentError []).

Definition pve_read_file (path : text) : R bytes :=
  result ← agent_guard (rcall (GetFile path) (pve_file_read path));
  truncated ← field result "truncated";
  throw_when (json_truthy truncated) GuestAgentError ["truncated"];;
  content ← field result "content";
  mret (to_bytes content).

Definition post_write (path : text) (encoded : text) : R () :=
  agent_guard (rcall (PostFile path encoded) (pve_file_write path encoded)).

Definition part_name (path : text) (n : nat) : text := path ++ b ".tr-part" ++ str_nat n.
Definition cat_line (parts : list text) (path : text) : text :=
  b "cat " ++ shlex_join parts ++ b " > " ++ shlex_quote path.
Definition rm_line (parts : list text) : text := b "rm -f " ++ shlex_join parts.
Definition sh (line : text) : list text := [b "sh"; b "-c"; line].

(** The loop over the chunks: the parts written, and the exception that ended it. *)
Fixpoint write_parts (path : text) (n : nat) (cs : list bytes) (parts : list text) : R (list text * res ()) := λ s,
  match cs with
  | [] => (Ok (parts, Ok ()), s)
  | c :: cs =>
      match post_write (part_name path n) (b2a c) s with
      | (Ok _, s) => write_parts path (S n) cs (parts ++ [part_name path n]) s
      | (Raise e, s) => (Ok (parts, Raise e), s)
      end
  end.

(** [if parts: ... with contextlib.suppress(GuestAgentError): _run_exec(... rm ...)] *)
Definition drop_parts (parts : list text) : R () :=
  if decide (parts = []) then mret ()
  else catch (run_exec (sh (rm_line parts)) 60000;; mret ()) (λ e, isinstance e GuestAgentError) (λ _, mret ()).

(** [_write_chunked] *)
Definition write_chunked (path : text) (data : bytes) : R () :=
  w ← write_parts path 0 (chunks_of RAW_WRITE_CHUNK data) [];
  finally
    (lift w.2;;
     res ← run_exec (sh (cat_line w.1 path)) 120000;
     throw_when (bool_decide (exit_code res ≠ 0%Z)) GuestAgentError ["assembly"])
    (drop_parts w.1).

Definition pve_write_file (path : text) (data : bytes) : R () :=
  let encoded := b2a data in
  if decide (Z.of_nat (length encoded) ≤ MAX_ENCODED_WRITE_LEN)%Z then post_write path encoded
  else write_chunked path data.
End Agent.

(** ** What the guest-agent transports guarantee

    For any agent: the libvirt callables raise nothing but [GuestAgentError], and every
    handle they open they close.  For an agent that keeps the protocol's file commands
    ([QgaFiles], [PveGuest]): what is written is what is read back, whatever its size,
    and every message stays under the agent's limits. *)

(** ** Pieces *)

Lemma chunk_rounds_spec fuel n data :
  0 < n → length data ≤ fuel →
  concat (chunk_rounds fuel n data) = data ∧ Forall (λ c, 0 < length c ≤ n) (chunk_rounds fuel n data).
Proof.
  intros Hn. revert data. induction fuel as [|fuel IH]; intros data Hf; [by destruct data; [|cbn in Hf; lia]|].
  destruct data as [|x data]; [done|]. cbn [chunk_rounds concat]. cbn [length] in Hf.
  destruct (IH (drop n (x :: data))) as [Hc Hl]; [rewrite length_drop; cbn [length]; lia|]. split.
  - rewrite Hc. apply take_drop.
  - constructor; [|done]. rewrite length_take. cbn [length]. lia.
Qed.

Lemma chunks_of_concat n data : 0 < n → concat (chunks_of n data) = data.
Proof. intros Hn. by apply chunk_rounds_spec. Qed.
Lemma chunks_of_size n data : 0 < n → Forall (λ c, 0 < length c ≤ n) (chunks_of n data).
Proof. intros Hn. by apply chunk_rounds_spec. Qed.

Lemma length_b2a data : length (b2a data) = 4 * ((length data + 2) / 3).
Proof.
  induction data as [|x|x y|x y z l IH] using list_ind3; [done..|]. cbn [b2a length]. rewrite IH.
  replace (S (S (S (length l))) + 2) with (length l + 2 + 1 * 3) by lia. rewrite Nat.div_add by done. lia.
Qed.

(** Every character but the padding, with its value. *)
Lemma b2a_decodes data : b64decode (b2a data) = Ok data.
Proof.
  unfold b64decode. pose proof (enc6_bounds data) as Hb. rewrite <-(dec4_enc6 data) at 2. revert Hb.
  induction data as [|x|x y|x y z l IH] using list_ind3; cbn [enc6 b2a]; intros Hb;
    repeat (apply Forall_cons in Hb as [? Hb]); [done|..].
  - erewrite !a2b_step by (by apply b64_char_value). done.
  - erewrite !a2b_step by (by apply b64_char_value). done.
  - erewrite !a2b_step by (by apply b64_char_value). rewrite IH by done. done.
Qed.

Section Errors.
Context {E : Type} {L : AgentLib E}.
Set Default Proof Using "Type".
Abbreviation R A := (act (Remote agent_request E) A).

(** The channel raises exceptions, not interrupts. *)
Definition channel_raises : Prop :=
  ∀ command timeout (e : E) x, (qemu_agent_command command timeout e).1.1 = Raise x → is_exception x = true.

Definition agent_error (e : exn) : bool := bool_decide (e = Exn GuestAgentError []).

Lemma within_guard {A} (p q : exn → bool) (m : R A) :
  within p m → q (Exn GuestAgentError []) = true → (∀ e, p e = true → is_exception e = false → q e = true) →
  within q (agent_guard m).
Proof.
  intros Hm Hq Hp. eapply within_catch; [done| |done]. intros e _ _. apply within_lift. by intros e' [= <-].
Qed.

Lemma json_get_exception j k e : json_get j k = Raise e → is_exception e = true.
Proof. destruct j; intros [=]; by subst. Qed.
Lemma json_getitem_exception j k e : json_getitem j k = Raise e → is_exception e = true.
Proof. destruct j; cbn; unfold getitem; try (intros [= <-]; done). destruct (m !! k); [done|]. by intros [= <-]. Qed.
Lemma b64decode_exception l e : b64decode l = Raise e → is_exception e = true.
Proof.
  unfold b64decode. generalize 0 at 1 as q. generalize 0%N as x. generalize 0 as p. induction l as [|c l IH]; intros p x q; cbn.
  - destruct q as [|[|q]]; [done|..]; by intros [= <-].
  - assert (∀ f : bytes → bytes, ∀ q x p, f <$> a2b_loop q x p l = Raise e → is_exception e = true) as Hf.
    { intros f q' x' p'. destruct (a2b_loop q' x' p' l) eqn:Eq; [done|]. intros [= <-]. by eapply IH. }
    destruct (bool_decide _); [destruct (_ && _); [done|apply IH]|]. destruct (b64_value c); [|apply IH].
    destruct q as [|[|[|q]]]; [apply IH|apply Hf..].
Qed.
Lemma b64_field_exception o e : b64_field o = Raise e → is_exception e = true.
Proof. unfold b64_field. destruct (json_truthy o); [|done]. destruct o as [[]|]; first [by intros [= <-]|apply b64decode_exception]. Qed.
Lemma py_int_exception j e : Ledger.py_int j = Raise e → is_exception e = true.
Proof. destruct j; intros [=]; by subst. Qed.

Hypothesis Hch : channel_raises.

Lemma within_command c : within is_exception (agent_command c : R json).
Proof using Hch.
  apply within_bind; [by apply within_call; intros; eapply Hch|intros reply].
  apply within_bind; [apply within_lift, json_get_exception|intros; apply within_ret].
Qed.

Lemma within_status pid start : within is_exception (libvirt_status pid start : R _).
Proof using Hch.
  apply within_bind; [apply within_command|intros status].
  apply within_bind; [apply within_lift, json_get_exception|intros exited]. destruct (json_truthy exited); [|apply within_ret].
  repeat first
    [apply within_ret|apply within_gets
    |apply within_bind; [first [apply within_lift; first [apply json_get_exception|apply py_int_exception|apply b64_field_exception]|apply within_gets]|intros ?]].
Qed.

Lemma within_handle {A} (p : exn → bool) path mode (body : json → R A) :
  (∀ e, is_exception e = true → p e = true) → (∀ h, within p (body h)) → within p (with_handle path mode body).
Proof using Hch.
  intros Hp Hb. apply within_bind; [by eapply within_weaken, within_command|intros h]. apply within_finally; [done|].
  apply within_bind; [by eapply within_weaken, within_command|intros; apply within_ret].
Qed.

Lemma within_forA {A} p (f : A → R ()) l : (∀ a, within p (f a)) → within p (forA f l).
Proof.
  intros Hf. unfold forA. generalize tt. induction l as [|a l IH]; intros u; [apply within_ret|].
  apply within_bind; [apply Hf|intros; apply IH].
Qed.

Lemma within_read n h acc : within (λ e, is_exception e || bool_decide (e = Exn OutOfFuel [])) (read_loop n h acc : R _).
Proof using Hch.
  assert (∀ A (m : R A), within is_exception m → within (λ e, is_exception e || bool_decide (e = Exn OutOfFuel [])) m) as Hw.
  { intros A m. apply within_weaken. intros e ->. done. }
  revert acc. induction n as [|n IH]; intros acc; cbn [read_loop].
  { apply within_lift. by intros e [= <-]. }
  apply within_bind; [apply Hw, within_command|intros r].
  apply within_bind; [apply Hw, within_lift, json_get_exception|intros buf].
  apply within_bind; [apply Hw, within_lift, b64_field_exception|intros chunk].
  apply within_bind; [apply Hw, within_lift, json_get_exception|intros eof].
  destruct (json_truthy eof); [apply within_ret|apply IH].
Qed.

(** The error contract of the libvirt agent channel.  Whatever the channel raises and
    whatever documents it answers with, executing a command and writing a file end, with
    a result or with [GuestAgentError]; reading a file as well, unless the agent never
    reports the end of the file. *)
Theorem libvirt_agent_boundary argv timeout path data rounds :
  within agent_error (libvirt_execute argv timeout : R _) ∧
  within agent_error (libvirt_write_file path data : R _) ∧
  within (λ e, agent_error e || bool_decide (e = Exn OutOfFuel [])) (libvirt_read_file rounds path : R _).
Proof using Hch.
  assert (∀ e, is_exception e = true → is_exception e = false → agent_error e = true) as Hno by congruence.
  split_and!.
  - apply within_poll_after; [|intros start pid|done..].
    + eapply within_guard; [|done|exact Hno]. apply within_bind; [apply within_lift|intros].
      { unfold raise_if. destruct (bool_decide _); [|done]. by intros e [= <-]. }
      apply within_bind; [apply within_command|intros; apply within_lift, json_getitem_exception].
    + eapply within_guard; [apply within_status|done|exact Hno].
  - eapply within_guard; [|done|exact Hno]. apply within_handle; [done|intros h]. apply within_forA. intros c.
    apply within_bind; [apply within_command|intros; apply within_ret].
  - eapply within_guard; [apply within_handle; [|intros h; apply within_read]|done|].
    + intros e He. cbv beta. by rewrite He.
    + intros e He Hx. cbv beta in He. rewrite Hx in He. cbn in He. by rewrite He, orb_true_r.
Qed.
End Errors.

(** ** Handles *)
Section Handles.
Context {E : Type} {L : AgentLib E}.
Set Default Proof Using "Type".
Abbreviation R A := (act (Remote agent_request E) A).

Lemma agent_command_sent c (s : Remote agent_request E) r s' :
  agent_command c s = (r, s') → rm_sent s' = rm_sent s ++ [Command c].
Proof.
  unfold agent_command, rcall. intros H. apply act_bind_inv in H as [(reply & s1 & H1 & H2)|(e & H1 & ->)];
    destruct (qemu_agent_command _ _ _) as [[r0 e0] dt]; injection H1 as _ <-; [|done].
  apply act_bind_inv in H2 as [(x & s2 & [= _ <-] & [= _ <-])|(e & [= _ <-] & ->)]; done.
Qed.

(** What a body sends under an open handle, between the open and the close. *)
Lemma with_handle_sent {A} path mode (body : json → R A) s r s' :
  with_handle path mode body s = (r, s') →
  (rm_sent s' = rm_sent s ++ [Command (guest_file_open path mode)] ∧ ∃ e, r = Raise e) ∨
  ∃ h rb s1 s2, rm_sent s1 = rm_sent s ++ [Command (guest_file_open path mode)] ∧ body h s1 = (rb, s2) ∧
    rm_sent s' = rm_sent s2 ++ [Command (guest_file_close h)] ∧ (∀ a, r = Ok a → rb = Ok a).
Proof.
  unfold with_handle. intros [(h & s1 & H1 & H2)|(e & H1 & ->)]%act_bind_inv; apply agent_command_sent in H1; [right|left; eauto].
  unfold finally in H2. destruct (body h s1) as [rb s2] eqn:Hb. exists h, rb, s1, s2. split; [done|]. split; [done|].
  destruct ((agent_command _ ;; _) s2) as [[[]|e] s3] eqn:Hc;
    (apply act_bind_inv in Hc as [(x & s4 & Hc & Hr)|(e' & Hc & Hr)]; apply agent_command_sent in Hc);
    try discriminate Hr; injection H2 as <- <-; try (injection Hr as <-); (split; [congruence|naive_solver]).
Qed.

Lemma writes_sent h cs (s : Remote agent_request E) r s' :
  forA (λ chunk, agent_command (guest_file_write h chunk);; mret ()) cs s = (r, s') →
  ∃ k, rm_sent s' = rm_sent s ++ ((λ c, Command (guest_file_write h c)) <$> take k cs) ∧ (r = Ok () → k = length cs).
Proof.
  unfold forA. generalize tt. revert s. induction cs as [|c cs IH]; intros s u0.
  { intros [= <- <-]. exists 0. by rewrite app_nil_r. }
  intros [(x & s1 & H1 & H2)|(e & H1 & ->)]%act_bind_inv.
  - apply act_bind_inv in H1 as [(y & s2 & H1 & [= <- <-])|(e & _ & [=])]. apply agent_command_sent in H1.
    apply IH in H2 as (k & Hs & Hk). exists (S k). rewrite Hs, H1, <-app_assoc. split; [done|]. intros ->. cbn. by rewrite Hk.
  - apply act_bind_inv in H1 as [(y & s2 & _ & [=])|(e' & H1 & _)]. apply agent_command_sent in H1. by exists 1.
Qed.

Lemma reads_sent n h acc (s : Remote agent_request E) r s' :
  read_loop n h acc s = (r, s') → ∃ k, rm_sent s' = rm_sent s ++ replicate k (Command (guest_file_read h)).
Proof.
  revert acc s. induction n as [|n IH]; intros acc s; cbn [read_loop].
  { intros [= <- <-]. exists 0. by rewrite app_nil_r. }
  intros [(x & s1 & H1 & H2)|(e & H1 & ->)]%act_bind_inv; apply agent_command_sent in H1; [|by exists 1].
  repeat (apply act_bind_inv in H2 as [(? & ? & [= _ <-] & H2)|(? & [= _ <-] & _)]; [|by exists 1]).
  destruct (json_truthy _).
  - injection H2 as _ <-. by exists 1.
  - apply IH in H2 as [k Hk]. exists (S k). by rewrite Hk, H1, <-app_assoc.
Qed.

Lemma guard_sent {A} (m : R A) s r s' :
  agent_guard m s = (r, s') → ∃ r0, m s = (r0, s') ∧ ∀ a, r = Ok a → r0 = Ok a.
Proof.
  unfold agent_guard, catch. destruct (m s) as [[a|e] s1]; [intros [= <- <-]; eauto|].
  destruct (is_exception e); intros [= <- <-]; eexists; (split; [done|]); naive_solver.
Qed.

(** A handle that was opened is closed.  Whatever the agent answers and raises, the
    commands of a file transfer are an open and, when it gave a handle, transfers on
    that handle and one close of it, last; a write that reports success has sent every
    piece of the data, in order, none over the agent's limit of 32 KiB. *)
Theorem agent_handles_closed path data rounds (s : Remote agent_request E) :
  (∀ r s', libvirt_write_file path data s = (r, s') → ∃ rest, rm_sent s' = rm_sent s ++ Command (guest_file_open path "w") :: rest ∧
    ((rest = [] ∧ r ≠ Ok ()) ∨ ∃ h pieces, rest = ((λ c, Command (guest_file_write h c)) <$> pieces) ++ [Command (guest_file_close h)] ∧
       Forall (λ c, length c ≤ WRITE_CHUNK) pieces ∧ concat pieces `prefix_of` data ∧ (r = Ok () → concat pieces = data))) ∧
  (∀ r s', libvirt_read_file rounds path s = (r, s') → ∃ rest, rm_sent s' = rm_sent s ++ Command (guest_file_open path "r") :: rest ∧
    (rest = [] ∨ ∃ h k, rest = replicate k (Command (guest_file_read h)) ++ [Command (guest_file_close h)])).
Proof.
  split.
  - intros r s' (r0 & H & Hr)%guard_sent. apply with_handle_sent in H as [[Hs [e ->]]|(h & rb & s1 & s2 & H1 & Hb & H2 & Hok)].
    { exists []. split; [done|]. left. split; [done|]. intros Heq. by apply Hr in Heq. }
    apply writes_sent in Hb as (k & Hs & Hk). rewrite H2, Hs, H1. eexists. split; [by rewrite <-!app_assoc|]. right.
    assert (0 < WRITE_CHUNK) as Hpos by (unfold WRITE_CHUNK; lia).
    exists h, (take k (chunks_of WRITE_CHUNK data)). split; [done|]. split; [|split].
    + apply Forall_take. eapply Forall_impl; [by apply chunks_of_size|]. cbn. lia.
    + rewrite <-(chunks_of_concat WRITE_CHUNK data Hpos) at 2. rewrite <-(take_drop k (chunks_of _ data)) at 2.
      rewrite concat_app. by eexists.
    + intros Heq. rewrite Hk by auto. rewrite firstn_all. by apply chunks_of_concat.
  - intros r s' (r0 & H & Hr)%guard_sent. apply with_handle_sent in H as [[Hs [e ->]]|(h & rb & s1 & s2 & H1 & Hb & H2 & Hok)].
    { exists []. split; [done|]. by left. }
    apply reads_sent in Hb as [k Hs]. rewrite H2, Hs, H1. eexists. split; [by rewrite <-!app_assoc|]. right. by exists h, k.
Qed.
End Handles.

(** ** The agent's file commands *)

(** A command answered with [rep] under [return]. *)
Definition answers {E} {L : AgentLib E} (c : json) (e : E) (rep : json) (e' : E) : Prop :=
  ∃ reply dt, qemu_agent_command c AGENT_TIMEOUT e = (Ok reply, e', dt) ∧ json_get reply "return" = Ok (Some rep).

(** The documented behaviour of [guest-file-open], [-read], [-write] and [-close]: the
    files of the guest, the paths that can be written, the open handles with their
    positions. *)
Class QgaFiles (E : Type) {L : AgentLib E} : Type := {
  gf_files : E → gmap string bytes;
  gf_writable : E → string → Prop;
  gf_handles : E → gmap Z (string * nat);
  gf_open_r e path c : gf_files e !! str path = Some c → ∃ h e', answers (guest_file_open path "r") e (JNum h) e' ∧
    gf_handles e !! h = None ∧ gf_files e' = gf_files e ∧ gf_handles e' = <[h := (str path, 0)]> (gf_handles e);
  gf_open_w e path : gf_writable e (str path) → ∃ h e', answers (guest_file_open path "w") e (JNum h) e' ∧
    gf_handles e !! h = None ∧ gf_files e' = <[str path := []]> (gf_files e) ∧ gf_handles e' = <[h := (str path, 0)]> (gf_handles e);
  gf_read e h p pos c : gf_handles e !! h = Some (p, pos) → gf_files e !! p = Some c → ∃ m n eof e',
    answers (guest_file_read (JNum h)) e (JObj m) e' ∧
    m !! "buf-b64" = Some (jtext (b2a (take n (drop pos c)))) ∧ m !! "eof" = Some (JBool eof) ∧
    n ≤ length (drop pos c) ∧ (if eof then length (drop pos c) = n else 0 < n) ∧
    gf_files e' = gf_files e ∧ gf_handles e' = <[h := (p, pos + n)]> (gf_handles e);
  gf_write e h p pos c d : gf_handles e !! h = Some (p, pos) → gf_files e !! p = Some c → length d ≤ WRITE_CHUNK → ∃ rep e',
    answers (guest_file_write (JNum h) d) e rep e' ∧
    gf_files e' = <[p := take pos c ++ d ++ drop (pos + length d) c]> (gf_files e) ∧
    gf_handles e' = <[h := (p, pos + length d)]> (gf_handles e);
  gf_close e h p : gf_handles e !! h = Some p → ∃ rep e', answers (guest_file_close (JNum h)) e rep e' ∧
    gf_files e' = gf_files e ∧ gf_handles e' = delete h (gf_handles e);
}.

Lemma str_b2a_nil x : str (b2a x) = "" → x = [].
Proof. destruct x as [|y [|z [|t x]]]; [done|discriminate..]. Qed.
Lemma b64_field_b2a x : b64_field (Some (jtext (b2a x))) = Ok x.
Proof.
  unfold b64_field, jtext. destruct (str (b2a x)) as [|c t] eqn:Es; cbn [json_truthy].
  - by rewrite (str_b2a_nil x Es).
  - rewrite <-Es, b_str. apply b2a_decodes.
Qed.

Section Files.
Context {E : Type} {L : AgentLib E} {F : QgaFiles E}.
Set Default Proof Using "Type".
Abbreviation R A := (act (Remote agent_request E) A).

Lemma agent_command_answers c (s : Remote agent_request E) rep e' :
  answers c (rm_ext s) rep e' → ∃ s', agent_command c s = (Ok rep, s') ∧ rm_ext s' = e'.
Proof.
  intros (reply & dt & Hc & Hr). unfold agent_command. eexists.
  erewrite act_bind_Ok; [|unfold rcall; by rewrite Hc]. unfold mbind, act_bind, lift. by rewrite Hr.
Qed.

Lemma read_loop_file n h p pos c acc (s : Remote agent_request E) :
  gf_handles (rm_ext s) !! h = Some (p, pos) → gf_files (rm_ext s) !! p = Some c → length (drop pos c) < n →
  ∃ s' pos', read_loop n (JNum h) acc s = (Ok (acc ++ drop pos c), s') ∧ gf_files (rm_ext s') = gf_files (rm_ext s) ∧
    gf_handles (rm_ext s') = <[h := (p, pos')]> (gf_handles (rm_ext s)).
Proof.
  revert pos acc s. induction n as [|n IH]; intros pos acc s Hh Hf Hn; [lia|]. cbn [read_loop].
  destruct (gf_read _ _ _ _ _ Hh Hf) as (m & k & eof & e' & Ha & Hbuf & Heof & Hk & Hend & Hf' & Hh').
  destruct (agent_command_answers _ _ _ _ Ha) as (s1 & H1 & <-). rewrite (act_bind_Ok _ _ _ _ _ H1).
  unfold field, mbind, act_bind, lift, json_get, mret, result_ret. rewrite Hbuf, b64_field_b2a, Heof.
  destruct eof; cbn [json_truthy].
  - exists s1, (pos + k). rewrite take_ge by lia. done.
  - destruct (IH (pos + k) (acc ++ take k (drop pos c)) s1) as (s' & pos' & H & Hfs & Hhs).
    + rewrite Hh'. apply lookup_insert_eq.
    + by rewrite Hf'.
    + cbv iota in Hend. rewrite length_drop in Hn, Hk |- *. lia.
    + exists s', pos'. rewrite H, <-app_assoc, <-drop_drop, take_drop. split; [done|]. split; [congruence|].
      by rewrite Hhs, Hh', insert_insert_eq.
Qed.

Lemma writes_file h p cs pre (s : Remote agent_request E) :
  gf_handles (rm_ext s) !! h = Some (p, length pre) → gf_files (rm_ext s) !! p = Some pre →
  Forall (λ c, 0 < length c ≤ WRITE_CHUNK) cs →
  ∃ s' pos', forA (λ chunk, agent_command (guest_file_write (JNum h) chunk);; mret ()) cs s = (Ok (), s') ∧
    gf_files (rm_ext s') = <[p := pre ++ concat cs]> (gf_files (rm_ext s)) ∧
    gf_handles (rm_ext s') = <[h := (p, pos')]> (gf_handles (rm_ext s)).
Proof.
  unfold forA. revert pre s. induction cs as [|c cs IH]; intros pre s Hh Hf Hc.
  { exists s, (length pre). cbn. by rewrite app_nil_r, !insert_id by done. }
  apply Forall_cons in Hc as [Hc Hcs].
  destruct (gf_write _ _ _ _ _ c Hh Hf) as (rep & e' & Ha & Hf' & Hh'); [lia|].
  rewrite firstn_all, drop_ge, app_nil_r in Hf' by lia.
  destruct (agent_command_answers _ _ _ _ Ha) as (s1 & H1 & <-).
  assert ((agent_command (guest_file_write (JNum h) c);; mret () : R ()) s = (Ok (), s1)) as Hx
    by exact (act_bind_Ok _ (λ _, mret ()) _ _ _ H1).
  cbn [foldA]. rewrite (act_bind_Ok _ _ _ _ _ Hx).
  destruct (IH (pre ++ c) s1) as (s' & pos' & H & Hfs & Hhs).
  - rewrite Hh', length_app. apply lookup_insert_eq.
  - rewrite Hf'. apply lookup_insert_eq.
  - done.
  - exists s', pos'. split; [exact H|]. rewrite Hfs, Hhs, Hf', Hh', !insert_insert_eq. cbn [concat]. by rewrite app_assoc.
Qed.

(** Open, transfer, close: no handle is left behind. *)
Lemma with_handle_file {A} path mode (body : json → R A) (s : Remote agent_request E) h e1 a p files :
  answers (guest_file_open path mode) (rm_ext s) (JNum h) e1 → gf_handles (rm_ext s) !! h = None →
  (∀ s1, rm_ext s1 = e1 → ∃ s2 pos, body (JNum h) s1 = (Ok a, s2) ∧ gf_files (rm_ext s2) = files ∧
     gf_handles (rm_ext s2) = <[h := (p, pos)]> (gf_handles (rm_ext s))) →
  ∃ s', with_handle path mode body s = (Ok a, s') ∧ gf_files (rm_ext s') = files ∧ gf_handles (rm_ext s') = gf_handles (rm_ext s).
Proof.
  intros Ho Hfresh Hbody. destruct (agent_command_answers _ _ _ _ Ho) as (s1 & H1 & He1).
  destruct (Hbody s1 He1) as (s2 & pos & H2 & Hf2 & Hh2).
  destruct (gf_close (rm_ext s2) h (p, pos)) as (rep & e3 & Hc & Hf3 & Hh3); [rewrite Hh2; apply lookup_insert_eq|].
  destruct (agent_command_answers _ _ _ _ Hc) as (s3 & H3 & <-). exists s3. split.
  - unfold with_handle. rewrite (act_bind_Ok _ _ _ _ _ H1). unfold finally. rewrite H2.
    by rewrite (act_bind_Ok _ _ _ _ _ H3).
  - split; [congruence|]. by rewrite Hh3, Hh2, delete_insert_id.
Qed.

Lemma agent_guard_Ok {A} (m : R A) s a s' : m s = (Ok a, s') → agent_guard m s = (Ok a, s').
Proof. intros H. unfold agent_guard, catch. by rewrite H. Qed.

(** C30: files of any size survive the agent channel.  Against an agent that keeps its
    protocol, writing [data] to a path that can be written succeeds, the file is exactly
    [data] and no other file changes; reading it back gives [data]; and neither leaves
    a handle open. *)
Theorem qga_file_roundtrip path data rounds (s : Remote agent_request E) :
  gf_writable (rm_ext s) (str path) → length data < rounds →
  ∃ s1 s2, libvirt_write_file path data s = (Ok (), s1) ∧ libvirt_read_file rounds path s1 = (Ok data, s2) ∧
    gf_files (rm_ext s1) = <[str path := data]> (gf_files (rm_ext s)) ∧ gf_files (rm_ext s2) = gf_files (rm_ext s1) ∧
    gf_handles (rm_ext s1) = gf_handles (rm_ext s) ∧ gf_handles (rm_ext s2) = gf_handles (rm_ext s).
Proof.
  intros Hw Hn. destruct (gf_open_w _ _ Hw) as (h & e1 & Ho & Hfresh & Hf1 & Hh1).
  destruct (with_handle_file path "w" (λ handle, forA (λ chunk, agent_command (guest_file_write handle chunk);; mret ())
    (chunks_of WRITE_CHUNK data)) s h e1 () (str path) (<[str path := data]> (gf_files (rm_ext s))) Ho Hfresh) as (s1 & H1 & Hfs1 & Hhs1).
  { intros s1 <-. destruct (writes_file h (str path) (chunks_of WRITE_CHUNK data) [] s1) as (s2 & pos & H & Hf & Hh).
    - rewrite Hh1. apply lookup_insert_eq.
    - rewrite Hf1. apply lookup_insert_eq.
    - apply chunks_of_size. unfold WRITE_CHUNK. lia.
    - exists s2, pos. split; [exact H|]. rewrite Hf, Hf1, Hh, Hh1, !insert_insert_eq. cbn [app].
      by rewrite chunks_of_concat by (unfold WRITE_CHUNK; lia). }
  assert (gf_files (rm_ext s1) !! str path = Some data) as Hdata by (rewrite Hfs1; apply lookup_insert_eq).
  destruct (gf_open_r _ _ _ Hdata) as (h2 & e2 & Ho2 & Hfresh2 & Hf2 & Hh2).
  destruct (with_handle_file path "r" (λ handle, read_loop rounds handle []) s1 h2 e2 data (str path) (gf_files (rm_ext s1)) Ho2 Hfresh2)
    as (s2 & H2 & Hfs2 & Hhs2).
  { intros s2 <-. destruct (read_loop_file rounds h2 (str path) 0 data [] s2) as (s3 & pos & H & Hf & Hh).
    - rewrite Hh2. apply lookup_insert_eq.
    - by rewrite Hf2.
    - done.
    - exists s3, pos. split; [exact H|]. by rewrite Hf, Hf2, Hh, Hh2, insert_insert_eq. }
  exists s1, s2. split_and!; [by apply agent_guard_Ok..|done|done|done|congruence].
Qed.
End Files.

(** ** Proxmox: one-shot writes, and parts joined by the guest's shell *)

(** The two command lines the transport runs, as the shell reads them. *)
Inductive shell_cmd : Type := Cat (parts : list text) (out : text) | RmF (targets : list text).

(** An operand, not an option. *)
Definition operand (w : text) : bool := match w with [] => false | c :: _ => bool_decide (c ≠ chr 45) end.

Fixpoint split_out (l : list shell_token) : option (list text * text) :=
  match l with
  | [OutTo; Word p _] => Some ([], p)
  | Word w _ :: l => (λ x, (w :: x.1, x.2)) <$> split_out l
  | _ => None
  end.
Fixpoint all_words (l : list shell_token) : option (list text) :=
  match l with
  | [] => Some []
  | Word w _ :: l => cons w <$> all_words l
  | _ => None
  end.

Definition parse_cmd (line : text) : option shell_cmd :=
  match shell_tokens line with
  | Some (Word c _ :: l) =>
      if decide (c = b "cat") then
        '(ws, out) ← split_out l;
        if forallb operand ws then Some (Cat ws out) else None
      else if decide (c = b "rm") then
        match l with
        | Word f _ :: l => if decide (f = b "-f") then ws ← all_words l; if forallb operand ws then Some (RmF ws) else None else None
        | _ => None
        end
      else None
  | _ => None
  end.

(** The files a command may change, and what it does when it succeeds. *)
Definition touched (c : shell_cmd) : list string := match c with Cat _ out => [str out] | RmF ws => str <$> ws end.
Definition run_cmd (c : shell_cmd) (f : gmap string bytes) : option (gmap string bytes) :=
  match c with
  | Cat ws out => (λ cs, <[str out := concat cs]> f) <$> mapM (λ w, f !! str w) ws
  | RmF ws => Some (foldr delete f (str <$> ws))
  end.
Definition same_outside (l : list string) (f f' : gmap string bytes) : Prop := ∀ p, p ∉ l → f' !! p = f !! p.

(** A guest behind the Proxmox agent endpoints: a successful write stores the decoded
    bytes, a command the shell reads as [cat] or [rm] changes only the files it names,
    and one that reports exit status 0 has done its work. *)
Class PveGuest (E : Type) {L : AgentLib E} : Type := {
  pg_files : E → gmap string bytes;
  pg_running : E → json → shell_cmd → gmap string bytes → Prop;
  pg_write e path enc r e' dt : pve_file_write path enc e = (r, e', dt) →
    same_outside [str path] (pg_files e) (pg_files e') ∧
    (r = Ok () → ∀ d, b64decode enc = Ok d → pg_files e' !! str path = Some d);
  pg_exec e line c r e' dt : parse_cmd line = Some c → pve_exec (sh line) e = (r, e', dt) →
    same_outside (touched c) (pg_files e) (pg_files e') ∧
    (∀ reply pid, r = Ok reply → json_getitem reply "pid" = Ok pid → pg_running e' pid c (pg_files e));
  pg_frame e pid c f : pg_running e pid c f → same_outside (touched c) f (pg_files e);
  pg_sleep e pid c f d : pg_running e pid c f → pg_running (oversleep d e).2 pid c f;
  pg_status e pid c f r e' dt : pg_running e pid c f → pve_exec_status pid e = (r, e', dt) →
    same_outside (touched c) f (pg_files e');
  pg_more e pid c f st x e' dt : pg_running e pid c f → pve_exec_status pid e = (Ok st, e', dt) →
    json_get st "exited" = Ok x → json_truthy x = false → pg_running e' pid c f;
  pg_done e pid c f st x e' dt : pg_running e pid c f → pve_exec_status pid e = (Ok st, e', dt) →
    json_get st "exited" = Ok x → json_truthy x = true →
    ∀ code f', json_get st "exitcode" = Ok code → Ledger.py_int (default (JNum (-1)) code) = Ok 0%Z → run_cmd c f = Some f' →
      pg_files e' = f';
}.

Lemma split_out_words ws out : split_out ((arg_word <$> ws) ++ [OutTo; arg_word out]) = Some (ws, out).
Proof. induction ws as [|w ws IH]; [done|]. cbn [fmap list_fmap app split_out]. by rewrite IH. Qed.
Lemma all_words_words ws : all_words (arg_word <$> ws) = Some ws.
Proof. induction ws as [|w ws IH]; [done|]. cbn [fmap list_fmap all_words]. by rewrite IH. Qed.

Lemma parse_cat w ws out : forallb operand (w :: ws) = true → parse_cmd (cat_line (w :: ws) out) = Some (Cat (w :: ws) out).
Proof.
  intros Hw. unfold parse_cmd, cat_line, shell_tokens.
  assert (lex Bare None (b "cat " ++ shlex_join (w :: ws) ++ b " > " ++ shlex_quote out) =
    Some (bare_word (b "cat") :: (arg_word <$> w :: ws) ++ [OutTo; arg_word out])) as ->.
  { transitivity (app [bare_word (b "cat")] <$> lex Bare None (shlex_join (w :: ws) ++ SPACE :: (b "> " ++ shlex_quote out))); [done|].
    rewrite lex_join_app.
    transitivity (app [bare_word (b "cat")] <$> (app (arg_word <$> w :: ws) <$> (app [OutTo] <$> (app [] <$> lex Bare None (shlex_quote out))))); [done|].
    rewrite <-(app_nil_r (shlex_quote out)), lex_quote by done. done. }
  cbn [bare_word]. rewrite decide_True by done. rewrite split_out_words. cbn [mbind option_bind]. by rewrite Hw.
Qed.

Lemma parse_rm ws : forallb operand ws = true → parse_cmd (rm_line ws) = Some (RmF ws).
Proof.
  intros Hw. unfold parse_cmd, rm_line, shell_tokens.
  assert (lex Bare None (b "rm -f " ++ shlex_join ws) = Some (bare_word (b "rm") :: bare_word (b "-f") :: (arg_word <$> ws))) as ->.
  { transitivity (app [bare_word (b "rm")] <$> (app [bare_word (b "-f")] <$> lex Bare None (shlex_join ws))); [done|]. by rewrite lex_join. }
  cbn [bare_word]. rewrite decide_False, decide_True by done. rewrite decide_True by done. rewrite all_words_words. cbn [mbind option_bind]. by rewrite Hw.
Qed.

Lemma part_name_inj path n m : part_name path n = part_name path m → n = m.
Proof. unfold part_name. intros H%app_inv_head%app_inv_head. by apply str_nat_inj. Qed.
Lemma part_name_ne path n : part_name path n ≠ path.
Proof. intros H%(f_equal length). unfold part_name in H. rewrite !length_app in H. cbn in H. lia. Qed.
Lemma part_operand path n : operand path = true → operand (part_name path n) = true.
Proof. by destruct path. Qed.

(** What was posted as files. *)
Definition is_post (q : agent_request) : bool := match q with PostFile _ _ => true | _ => false end.
Definition posts {E} (s : Remote agent_request E) : list agent_request := filter (λ q, is_post q = true) (rm_sent s).

Section PveFiles.
Context {E : Type} {L : AgentLib E} {G : PveGuest E}.
Set Default Proof Using "Type".
Abbreviation R A := (act (Remote agent_request E) A).
Abbreviation files s := (pg_files (rm_ext s)).

Lemma same_outside_refl l f : same_outside l f f.
Proof. done. Qed.
Lemma same_outside_trans l f g h : same_outside l f g → same_outside l g h → same_outside l f h.
Proof. intros H1 H2 p Hp. rewrite H2 by done. by apply H1. Qed.

Lemma rcall_inv {A} q (o : ext_op E A) (s : Remote agent_request E) r s' :
  rcall q o s = (r, s') → (∃ dt, o (rm_ext s) = (r, rm_ext s', dt)) ∧ rm_sent s' = rm_sent s ++ [q].
Proof. unfold rcall. destruct (o (rm_ext s)) as [[r0 e] dt]. intros [= <- <-]. eauto. Qed.

Lemma posts_app (s s' : Remote agent_request E) q :
  rm_sent s' = rm_sent s ++ [q] → posts s' = posts s ++ (if is_post q then [q] else []).
Proof. intros H. unfold posts. rewrite H, filter_app, filter_cons, filter_nil. destruct (is_post q) eqn:Ep; [by rewrite decide_True|by rewrite decide_False]. Qed.

Lemma run_exec_inv line c timeout (s : Remote agent_request E) r s' :
  parse_cmd line = Some c → run_exec (sh line) timeout s = (r, s') →
  posts s' = posts s ∧ same_outside (touched c) (files s) (files s') ∧
  (∀ x f', r = Ok x → exit_code x = 0%Z → run_cmd c (files s) = Some f' → files s' = f').
Proof.
  intros Hc. unfold run_exec. rewrite act_bind_gets.
  intros [(pid & s1 & H1 & H2)|(e & H1 & ->)]%act_bind_inv; apply guard_sent in H1 as (r0 & H1 & Hr0).
  - specialize (Hr0 _ eq_refl). subst r0. apply act_bind_inv in H1 as [(reply & s0 & H1 & [= Hpid <-])|(? & _ & [=])].
    apply rcall_inv in H1 as [[dt H1] Hs]. apply posts_app in Hs. rewrite app_nil_r in Hs.
    destruct (pg_exec _ _ _ _ _ _ Hc H1) as [_ Hrun]. specialize (Hrun _ _ eq_refl Hpid).
    set (I t := posts t = posts s ∧ pg_running (rm_ext t) pid c (files s)).
    set (B t := posts t = posts s ∧ same_outside (touched c) (files s) (files t)).
    set (P x t := B t ∧ ∀ f', exit_code x = 0%Z → run_cmd c (files s) = Some f' → files t = f').
    unfold poll_from in H2.
    assert (match r with Ok x => P x s' | Raise _ => B s' end) as H.
    { refine (poll_inv I B P _ _ _ _ _ _ s0 r s' _ _ _ _ H2).
      - clear - G. intros t r' t' [Hp Hr] Ht. unfold pve_status in Ht.
        apply act_bind_inv in Ht as [(st & t1 & Ht & H)|(e & Ht & ->)]; apply rcall_inv in Ht as [[dt Ht] Hs];
          apply posts_app in Hs; rewrite app_nil_r in Hs; pose proof (pg_status _ _ _ _ _ _ _ Hr Ht) as Hsame;
          [|split; [congruence|done]].
        apply act_bind_inv in H as [(ex & t2 & [= Hex <-] & H)|(e & [= Hex <-] & ->)]; [|split; [congruence|done]].
        destruct (json_truthy ex) eqn:Htr.
        + assert (B t1) as HB by (split; [congruence|done]).
          apply act_bind_inv in H as [(code & t2 & [= Hcode <-] & H)|(e & [= _ <-] & ->)]; [|done].
          apply act_bind_inv in H as [(n & t2 & [= Hn <-] & H)|(e & [= _ <-] & ->)]; [|done].
          apply act_bind_inv in H as [(out & t2 & [= _ <-] & H)|(e & [= _ <-] & ->)]; [|done].
          apply act_bind_inv in H as [(err & t2 & [= _ <-] & H)|(e & [= _ <-] & ->)]; [|done].
          rewrite act_bind_gets in H. injection H as <- <-. split; [done|]. cbn [exit_code]. intros f' -> Hrc.
          by eapply pg_done.
        + injection H as <- <-. split; [congruence|]. by eapply pg_more.
      - intros t t' [Hp Hr] Ht. unfold rsleep in Ht. pose proof (pg_sleep _ _ _ _ POLL_INTERVAL Hr) as Hr'.
        destruct (oversleep _ _) as [x e]. injection Ht as <-. done.
      - intros t [Hp Hr]. split; [done|]. by eapply pg_frame.
      - done. }
    destruct r as [x|e].
    + destruct H as [[Hp Hsame] Hx]. split; [done|]. split; [done|]. intros y f' [= <-]. apply Hx.
    + destruct H as [Hp Hsame]. done.
  - apply act_bind_inv in H1 as [(reply & s0 & H1 & [= _ <-])|(e' & H1 & _)]; apply rcall_inv in H1 as [[dt H1] Hs];
      apply posts_app in Hs; rewrite app_nil_r in Hs; destruct (pg_exec _ _ _ _ _ _ Hc H1) as [Hsame _]; done.
Qed.

Lemma post_write_inv path enc (s : Remote agent_request E) r s' :
  post_write path enc s = (r, s') →
  posts s' = posts s ++ [PostFile path enc] ∧ same_outside [str path] (files s) (files s') ∧
  (∀ d, r = Ok () → b64decode enc = Ok d → files s' !! str path = Some d).
Proof.
  intros (r0 & H & Hr)%guard_sent. apply rcall_inv in H as [[dt H] Hs]. apply posts_app in Hs.
  destruct (pg_write _ _ _ _ _ _ H) as [Hsame Hd]. split; [done|]. split; [done|]. intros d ->. apply Hd. by apply Hr.
Qed.

(** The request of the [i]-th part. *)
Definition part_post (path : text) (i : nat) (c : bytes) : agent_request := PostFile (part_name path i) (b2a c).

Lemma write_parts_inv path cs n parts (s : Remote agent_request E) r s' :
  write_parts path n cs parts s = (r, s') →
  ∃ k rw, r = Ok (parts ++ (part_name path <$> seq n k), rw) ∧ k ≤ length cs ∧ (rw = Ok () → k = length cs) ∧
    (∀ p, (∀ i, p ≠ str (part_name path i)) → files s' !! p = files s !! p) ∧
    (∀ i, i < n → files s' !! str (part_name path i) = files s !! str (part_name path i)) ∧
    (∀ i c, i < k → cs !! i = Some c → files s' !! str (part_name path (n + i)) = Some c) ∧
    ∃ j, posts s' = posts s ++ imap (λ i c, part_post path (n + i) c) (take j cs).
Proof.
  revert n parts s. induction cs as [|c cs IH]; intros n parts s; cbn [write_parts].
  { intros [= <- <-]. exists 0, (Ok ()). cbn. rewrite !app_nil_r. split_and!; try done. exists 0. by rewrite app_nil_r. }
  destruct (post_write (part_name path n) (b2a c) s) as [[[]|e] s1] eqn:Hw; apply post_write_inv in Hw as (Hp & Hsame & Hd).
  - intros (k & rw & -> & Hk & Hrw & Hout & Hlow & Hin & j & Hj)%IH. exists (S k), rw. cbn [seq fmap list_fmap length].
    rewrite <-app_assoc. split; [done|]. split; [lia|]. split; [intros Hok; by rewrite Hrw|]. split_and!.
    + intros q Hq. rewrite Hout by done. apply Hsame. intros Hin1%list_elem_of_singleton. by eapply Hq.
    + intros i Hi. rewrite Hlow by lia. apply Hsame. intros Heq%list_elem_of_singleton. apply str_inj, part_name_inj in Heq. lia.
    + intros [|i] x Hi Hx.
      * injection Hx as <-. rewrite Nat.add_0_r, Hlow by lia. apply Hd; [done|]. apply b2a_decodes.
      * rewrite <-Nat.add_succ_comm. apply Hin; [lia|done].
    + exists (S j). rewrite Hj, Hp, <-app_assoc. cbn [take imap]. rewrite Nat.add_0_r. do 2 f_equal. apply imap_ext.
      intros i x _. cbn. by rewrite Nat.add_succ_r.
  - intros [= <- <-]. exists 0, (Raise e). cbn. rewrite app_nil_r. split_and!; try done; try lia.
    + intros q Hq. apply Hsame. intros Hin1%list_elem_of_singleton. by eapply Hq.
    + intros i Hi. apply Hsame. intros Heq%list_elem_of_singleton. apply str_inj, part_name_inj in Heq. lia.
    + exists 1. rewrite Hp. cbn. by rewrite Nat.add_0_r.
Qed.

(** Every message is under the limit of the endpoint. *)
Definition within_cap (q : agent_request) : Prop :=
  match q with PostFile _ enc => (Z.of_nat (length enc) ≤ MAX_ENCODED_WRITE_LEN)%Z | _ => True end.

Lemma raw_chunk_value : Z.of_nat RAW_WRITE_CHUNK = 45000%Z.
Proof. unfold RAW_WRITE_CHUNK. rewrite Z2Nat.id; done. Qed.

Lemma raw_chunk_fits c : length c ≤ RAW_WRITE_CHUNK → (Z.of_nat (length (b2a c)) ≤ MAX_ENCODED_WRITE_LEN)%Z.
Proof.
  intros Hc. rewrite length_b2a. unfold MAX_ENCODED_WRITE_LEN.
  assert (Z.of_nat (length c) ≤ 45000)%Z by (rewrite <-raw_chunk_value; lia).
  rewrite Nat2Z.inj_mul, Nat2Z.inj_div, Nat2Z.inj_add. change (Z.of_nat 2) with 2%Z. change (Z.of_nat 3) with 3%Z.
  assert ((Z.of_nat (length c) + 2) / 3 < 15001)%Z by (apply Z.div_lt_upper_bound; lia). lia.
Qed.

Lemma parts_within_cap path n j data :
  Forall within_cap (imap (λ i c, part_post path (n + i) c) (take j (chunks_of RAW_WRITE_CHUNK data))).
Proof.
  assert (Forall (λ c, 0 < length c ≤ RAW_WRITE_CHUNK) (take j (chunks_of RAW_WRITE_CHUNK data))) as Hc.
  { apply Forall_take, chunks_of_size. pose proof raw_chunk_value. lia. }
  revert n. induction Hc as [|c cs Hc _ IH]; intros n; cbn [imap]; [done|]. constructor.
  - apply raw_chunk_fits. lia.
  - rewrite (imap_ext _ (λ i c, part_post path (S n + i) c)); [apply IH|]. intros i x _. cbn. by rewrite Nat.add_succ_r.
Qed.

(** After a successful assembly the target is the data. *)
Lemma cat_parts path cs (f : gmap string bytes) :
  (∀ i c, cs !! i = Some c → f !! str (part_name path i) = Some c) →
  run_cmd (Cat (part_name path <$> seq 0 (length cs)) path) f = Some (<[str path := concat cs]> f).
Proof.
  intros Hf. cbn [run_cmd]. assert (mapM (λ w, f !! str w) (part_name path <$> seq 0 (length cs)) = Some cs) as ->; [|done].
  apply mapM_Some. apply Forall2_same_length_lookup_2; [by rewrite length_fmap, length_seq|].
  intros i w c Hw Hc. apply list_lookup_fmap_Some in Hw as (k & -> & [-> _]%lookup_seq). by apply Hf.
Qed.

(** The cleanup of the part files touches nothing else. *)
Lemma cleanup_parts parts (s : Remote agent_request E) r s' :
  forallb operand parts = true →
  drop_parts parts s = (r, s') →
  posts s' = posts s ∧ same_outside (str <$> parts) (files s) (files s').
Proof.
  intros Hop. unfold drop_parts. case_decide; [by intros [= <- <-]|]. unfold catch. destruct ((run_exec _ _ ;; _) s) as [r0 s1] eqn:Hr.
  assert (∃ r1, run_exec (sh (rm_line parts)) 60000 s = (r1, s1)) as [r1 Hx].
  { apply act_bind_inv in Hr as [(x & s2 & Hr & [= _ <-])|(e & Hr & _)]; eauto. }
  eapply run_exec_inv in Hx as (Hp & Hsame & _); [|by apply parse_rm].
  destruct r0 as [[]|e]; [by intros [= <- <-]|]. destruct (isinstance e GuestAgentError); by intros [= <- <-].
Qed.

(** Writing through the Proxmox endpoint.  Whatever fails, only the target and its
    part files change and every message is under the 60000-character limit; and when the
    write of a file of any size to an absolute path reports success, the target holds
    exactly the data. *)
Theorem pve_write_exact path data (s : Remote agent_request E) r s' :
  operand path = true → pve_write_file path data s = (r, s') →
  (r = Ok () → files s' !! str path = Some data) ∧
  (∀ p, p ≠ str path → (∀ i, p ≠ str (part_name path i)) → files s' !! p = files s !! p) ∧
  ∃ ps, posts s' = posts s ++ ps ∧ Forall within_cap ps.
Proof.
  intros Hop. unfold pve_write_file. case_decide as Hlen.
  { intros (Hp & Hsame & Hd)%post_write_inv. split; [intros ->; apply Hd; [done|apply b2a_decodes]|]. split.
    - intros p Hp1 _. apply Hsame. by rewrite list_elem_of_singleton.
    - eexists. split; [done|]. by constructor. }
  unfold write_chunked. intros [(w & s1 & H1 & H2)|(e & H1 & ->)]%act_bind_inv;
    apply write_parts_inv in H1 as (k & rw & Heq & Hk & Hrw & Hout & _ & Hin & j & Hj); [|discriminate].
  injection Heq as ->. cbn [fst snd app] in H2. unfold finally in H2.
  set (parts := part_name path <$> seq 0 k) in *.
  assert (forallb operand parts = true) as Hops.
  { apply forallb_forall. intros x (i & -> & _)%list_elem_of_In%list_elem_of_fmap. by apply part_operand. }
  destruct ((lift rw ;; _) s1) as [rb s2] eqn:Hb.
  assert (posts s2 = posts s1 ∧ same_outside [str path] (files s1) (files s2) ∧ (rb = Ok () → files s2 !! str path = Some data)) as (Hp2 & Hs2 & Hd2).
  { apply act_bind_inv in Hb as [([] & s3 & [= -> <-] & Hb)|(e & [= _ <-] & ->)]; [|by split_and!; try discriminate].
    assert (k = length (chunks_of RAW_WRITE_CHUNK data)) as Hkl by by apply Hrw.
    assert (∃ w0 ws, parts = w0 :: ws) as (w0 & ws & Hparts).
    { destruct k as [|k]; [|by eexists _, _]. exfalso. apply Hlen.
      assert (data = []) as ->; [|done].
      rewrite <-(chunks_of_concat RAW_WRITE_CHUNK data) by (pose proof raw_chunk_value; lia).
      by destruct (chunks_of RAW_WRITE_CHUNK data). }
    assert (parse_cmd (cat_line parts path) = Some (Cat parts path)) as Hparse by (rewrite Hparts in Hops |- *; by apply parse_cat).
    apply act_bind_inv in Hb as [(x & s3 & Hx & Hb)|(e & Hx & ->)]; (eapply run_exec_inv in Hx as (Hp & Hs & Hdone); [|done]);
      [|by split_and!; try discriminate].
    unfold throw_when, lift in Hb. injection Hb as Hrb <-. split; [done|]. split; [done|]. intros ->.
    unfold raise_if in Hrb. destruct (bool_decide (exit_code x ≠ 0%Z)) eqn:Hcode; [discriminate|].
    apply bool_decide_eq_false, dec_stable in Hcode.
    rewrite (Hdone x (<[str path := data]> (files s1)) eq_refl Hcode); [apply lookup_insert_eq|].
    unfold parts. rewrite Hkl, cat_parts.
    - by rewrite chunks_of_concat by (pose proof raw_chunk_value; lia).
    - intros i c Hc. apply (Hin i c); [|done]. rewrite Hkl. by eapply lookup_lt_Some. }
  destruct (drop_parts parts s2) as [rc s3] eqn:Hc.
  eapply cleanup_parts in Hc as [Hp3 Hs3]; [|done].
  assert (posts s' = posts s3 ∧ files s' = files s3 ∧ (r = Ok () → rb = Ok ())) as (Hp' & Hf' & Hr').
  { destruct rc as [[]|e]; injection H2 as <- <-; naive_solver. }
  assert (∀ p, (∀ i, p ≠ str (part_name path i)) → files s3 !! p = files s2 !! p) as Hclean.
  { intros p Hp. apply Hs3. intros (x & -> & (i & -> & _)%list_elem_of_fmap)%list_elem_of_fmap. by eapply Hp. }
  split_and!.
  - intros Hr. rewrite Hf', Hclean; [by auto|]. intros i Heq%str_inj. symmetry in Heq. by apply part_name_ne in Heq.
  - intros p Hp1 Hp2'. rewrite Hf', Hclean by done. rewrite Hs2 by (by rewrite list_elem_of_singleton). by apply Hout.
  - exists (imap (λ i c, part_post path (0 + i) c) (take j (chunks_of RAW_WRITE_CHUNK data))).
    split; [congruence|apply parts_within_cap].
Qed.
End PveFiles.

(** ** A guest that keeps the protocol *)
Module QgaDemo.

Record guest : Type := MkGuest {
  g_files : gmap string bytes;
  g_handles : gmap Z (string * nat);
  g_procs : gmap Z (shell_cmd * nat);
}.

Definition ok (rep : json) : res json := Ok (jobject [("return", rep)]).
Definition refused {A} : res A := raise ValueError ["refused"].

Definition arg (c : json) (k : string) : option json :=
  match json_getitem c "arguments" with Ok (JObj m) => m !! k | _ => None end.

Definition guest_try (c : json) (e : guest) : option (json * guest) :=
  let set_handles hs := MkGuest (g_files e) hs (g_procs e) in
  match json_getitem c "execute", arg c "handle", arg c "path", arg c "mode" with
  | Ok (JStr "guest-file-open"), _, Some (JStr p), Some (JStr mode) =>
      let h := fresh (dom (g_handles e)) in
      let hs := <[h := (p, 0)]> (g_handles e) in
      if decide (mode = "w") then Some (JNum h, MkGuest (<[p := []]> (g_files e)) hs (g_procs e))
      else match g_files e !! p with Some _ => Some (JNum h, set_handles hs) | None => None end
  | Ok (JStr "guest-file-read"), Some (JNum h), _, _ =>
      match g_handles e !! h with
      | Some (p, pos) =>
          let rest := drop pos (default [] (g_files e !! p)) in
          let n := min 3 (length rest) in
          Some (jobject [("buf-b64", jtext (b2a (take n rest))); ("eof", JBool (bool_decide (length rest = n)))],
           set_handles (<[h := (p, pos + n)]> (g_handles e)))
      | None => None
      end
  | Ok (JStr "guest-file-write"), Some (JNum h), _, _ =>
      match g_handles e !! h, b64_field (arg c "buf-b64") with
      | Some (p, pos), Ok d =>
          let file := default [] (g_files e !! p) in
          Some (JNull, MkGuest (<[p := take pos file ++ d ++ drop (pos + length d) file]> (g_files e))
             (<[h := (p, pos + length d)]> (g_handles e)) (g_procs e))
      | _, _ => None
      end
  | Ok (JStr "guest-file-close"), Some (JNum h), _, _ => Some (JNull, set_handles (delete h (g_handles e)))
  | _, _, _, _ => None
  end.

Definition guest_command (c : json) (e : guest) : res json * guest :=
  match guest_try c e with Some (rep, e') => (ok rep, e') | None => (refused, e) end.

Definition guest_exec_line (argv : list text) (e : guest) : res json * guest :=
  match argv with
  | [_; _; line] =>
      match parse_cmd line with
      | Some c =>
          let pid := fresh (dom (g_procs e)) in
          (Ok (jobject [("pid", JNum pid)]), MkGuest (g_files e) (g_handles e) (<[pid := (c, 1)]> (g_procs e)))
      | None => (refused, e)
      end
  | _ => (refused, e)
  end.

(** A process is seen running once, then its work is done. *)
Definition guest_status (pid : json) (e : guest) : res json * guest :=
  match pid with
  | JNum z =>
      match g_procs e !! z with
      | Some (c, S n) => (Ok (jobject [("exited", JBool false)]), MkGuest (g_files e) (g_handles e) (<[z := (c, n)]> (g_procs e)))
      | Some (c, 0) =>
          let code := match run_cmd c (g_files e) with Some _ => 0%Z | None => 1%Z end in
          (Ok (jobject [("exited", JBool true); ("exitcode", JNum code)]),
           MkGuest (default (g_files e) (run_cmd c (g_files e))) (g_handles e) (delete z (g_procs e)))
      | None => (refused, e)
      end
  | _ => (refused, e)
  end.

Definition guest_write (path enc : text) (e : guest) : res () * guest :=
  match b64decode enc with
  | Ok d => (Ok (), MkGuest (<[str path := d]> (g_files e)) (g_handles e) (g_procs e))
  | Raise x => (Raise x, e)
  end.

#[export] Instance guest_lib : AgentLib guest := {
  qemu_agent_command c _ e := (guest_command c e, 5);
  pve_exec argv e := (guest_exec_line argv e, 5);
  pve_exec_status pid e := (guest_status pid e, 5);
  pve_file_read p e := (match g_files e !! str p with Some c => Ok (jobject [("content", jtext c)]) | None => refused end, e, 5);
  pve_file_write p enc e := (guest_write p enc e, 5);
  py_str _ := [];
  agent_sleeper _ e := (1, e);
}.

(** The command interpreter on the commands the transport sends. *)
Lemma guest_open_eq path mode e :
  guest_try (guest_file_open path mode) e =
    let h := fresh (dom (g_handles e)) in
    let hs := <[h := (str path, 0)]> (g_handles e) in
    if decide (mode = "w") then Some (JNum h, MkGuest (<[str path := []]> (g_files e)) hs (g_procs e))
    else match g_files e !! str path with Some _ => Some (JNum h, MkGuest (g_files e) hs (g_procs e)) | None => None end.
Proof. reflexivity. Qed.

Lemma guest_read_eq h p pos c e :
  g_handles e !! h = Some (p, pos) → g_files e !! p = Some c →
  guest_try (guest_file_read (JNum h)) e =
    let n := min 3 (length (drop pos c)) in
    Some (jobject [("buf-b64", jtext (b2a (take n (drop pos c)))); ("eof", JBool (bool_decide (length (drop pos c) = n)))],
     MkGuest (g_files e) (<[h := (p, pos + n)]> (g_handles e)) (g_procs e)).
Proof.
  intros Hh Hf. transitivity (match g_handles e !! h with
      | Some (p, pos) =>
          let rest := drop pos (default [] (g_files e !! p)) in
          let n := min 3 (length rest) in
          Some (jobject [("buf-b64", jtext (b2a (take n rest))); ("eof", JBool (bool_decide (length rest = n)))],
           MkGuest (g_files e) (<[h := (p, pos + n)]> (g_handles e)) (g_procs e))
      | None => None
      end); [reflexivity|]. rewrite Hh, Hf. reflexivity.
Qed.

Lemma guest_write_eq h p pos c d e :
  g_handles e !! h = Some (p, pos) → g_files e !! p = Some c →
  guest_try (guest_file_write (JNum h) d) e =
    Some (JNull, MkGuest (<[p := take pos c ++ d ++ drop (pos + length d) c]> (g_files e))
       (<[h := (p, pos + length d)]> (g_handles e)) (g_procs e)).
Proof.
  intros Hh Hf. transitivity (match g_handles e !! h, b64_field (Some (jtext (b2a d))) with
      | Some (p, pos), Ok d =>
          let file := default [] (g_files e !! p) in
          Some (JNull, MkGuest (<[p := take pos file ++ d ++ drop (pos + length d) file]> (g_files e))
             (<[h := (p, pos + length d)]> (g_handles e)) (g_procs e))
      | _, _ => None
      end); [reflexivity|]. rewrite Hh, b64_field_b2a, Hf. reflexivity.
Qed.

Lemma guest_close_eq h e :
  guest_try (guest_file_close (JNum h)) e = Some (JNull, MkGuest (g_files e) (delete h (g_handles e)) (g_procs e)).
Proof. reflexivity. Qed.

Lemma guest_answers c (e : guest) rep e' : guest_try c e = Some (rep, e') → answers c e rep e'.
Proof.
  intros H. eexists _, _. split; [cbn [qemu_agent_command guest_lib]; unfold guest_command; rewrite H; reflexivity|reflexivity].
Qed.

#[export] Instance guest_files : QgaFiles guest.
Proof.
  refine {| gf_files := g_files; gf_writable _ p := p ≠ ""; gf_handles := g_handles |}.
  - intros e path c Hc. exists (fresh (dom (g_handles e))). eexists. split.
    { apply guest_answers. rewrite guest_open_eq, Hc. reflexivity. }
    split; [apply not_elem_of_dom, is_fresh|done].
  - intros e path _. exists (fresh (dom (g_handles e))). eexists. split.
    { apply guest_answers. rewrite guest_open_eq. reflexivity. }
    split; [apply not_elem_of_dom, is_fresh|done].
  - intros e h p pos c Hh Hf. eexists _, (min 3 (length (drop pos c))), _, _. split.
    { apply guest_answers. rewrite (guest_read_eq _ _ _ _ _ Hh Hf). reflexivity. }
    split; [reflexivity|]. split; [reflexivity|]. split; [lia|]. split; [|done].
    case_bool_decide; [done|]. destruct (length (drop pos c)); lia.
  - intros e h p pos c d Hh Hf Hd. eexists _, _. split.
    { apply guest_answers. rewrite (guest_write_eq _ _ _ _ _ _ Hh Hf). reflexivity. }
    done.
  - intros e h p Hh. eexists _, _. split; [apply guest_answers; rewrite guest_close_eq; reflexivity|done].
Defined.

Lemma run_cmd_outside c f f' : run_cmd c f = Some f' → same_outside (touched c) f f'.
Proof.
  destruct c as [ws out|ws]; cbn [run_cmd touched].
  - destruct (mapM _ _); [|done]. intros [= <-] p Hp. rewrite lookup_insert_ne; [done|]. intros <-. apply Hp. by constructor.
  - intros [= <-] p Hp. induction (str <$> ws) as [|w l IH]; [done|]. cbn [foldr].
    apply not_elem_of_cons in Hp as [Hne Hp]. rewrite lookup_delete_ne by done. by apply IH.
Qed.

#[export] Instance guest_pve : PveGuest guest.
Proof.
  refine {| pg_files := g_files;
    pg_running e pid c f := ∃ z n, pid = JNum z ∧ g_procs e !! z = Some (c, n) ∧ g_files e = f |}.
  - intros e path enc r e' dt [= H _]. unfold guest_write in H. destruct (b64decode enc) as [d|x]; injection H as <- <-.
    + split; [|intros _ d' [= <-]; apply lookup_insert_eq]. intros p Hp. apply lookup_insert_ne.
      intros <-. apply Hp. by constructor.
    + by split.
  - intros e line c r e' dt Hc [= H _]. unfold guest_exec_line, sh in H. rewrite Hc in H. injection H as <- <-. split; [done|].
    intros reply pid [= <-] [= <-]. eexists _, _. split; [done|]. split; [apply lookup_insert_eq|done].
  - intros e pid c f (z & n & _ & _ & <-). done.
  - done.
  - intros e pid c f r e' dt (z & n & -> & Hz & <-) [= H _]. unfold guest_status in H. rewrite Hz in H.
    destruct n as [|n]; injection H as <- <-; [|done]. cbn [g_files]. destruct (run_cmd c (g_files e)) eqn:Hr; [|done].
    by apply run_cmd_outside.
  - intros e pid c f st x e' dt (z & n & -> & Hz & <-) [= H _]. unfold guest_status in H. rewrite Hz in H.
    destruct n as [|n]; injection H as <- <-; [intros [= <-]; done|]. intros _ _. eexists _, _.
    split; [done|]. split; [apply lookup_insert_eq|done].
  - intros e pid c f st x e' dt (z & n & -> & Hz & <-) [= H _]. unfold guest_status in H. rewrite Hz in H.
    destruct n as [|n]; injection H as <- <-; [|intros [= <-]; done]. intros _ _ code f' _ _ Hr. cbn [g_files]. by rewrite Hr.
Defined.

Definition guest0 : Remote agent_request guest := MkRemote (MkGuest {[ "/etc/motd" := b "hi" ]} ∅ ∅) 0 [].

Lemma guest_channel_raises : channel_raises (E:=guest).
Proof.
  intros c t e x. cbn [qemu_agent_command guest_lib fst]. unfold guest_command. destruct (guest_try c e) as [[rep e']|]; [discriminate|].
  by intros [= <-].
Defined.

Lemma libvirt_agent_boundary_witness :
  ∃ e, (libvirt_execute [] 1000 guest0).1 = Raise e ∧ agent_error e = true.
Proof.
  destruct (libvirt_execute [] 1000 guest0) as [[x|e] s'] eqn:He; [by vm_compute in He|].
  destruct (libvirt_agent_boundary guest_channel_raises [] 1000 [] [] 0) as [H _].
  exists e. split; [done|]. exact (proj2 (H _ _ _ He) e eq_refl).
Defined.

Lemma qga_file_roundtrip_witness :
  ∃ s1 s2, libvirt_write_file (b "/tmp/x") (b "hello, guest") guest0 = (Ok (), s1) ∧
    libvirt_read_file 20 (b "/tmp/x") s1 = (Ok (b "hello, guest"), s2).
Proof.
  destruct (qga_file_roundtrip (b "/tmp/x") (b "hello, guest") 20 guest0) as (s1 & s2 & H1 & H2 & _).
  - discriminate.
  - vm_compute. lia.
  - by exists s1, s2.
Defined.

Definition written : res () * Remote agent_request guest := pve_write_file (b "/tmp/x") (b "hello") guest0.
Lemma pve_write_exact_witness : g_files (rm_ext written.2) !! "/tmp/x" = Some (b "hello").
Proof.
  destruct (pve_write_exact (b "/tmp/x") (b "hello") guest0 written.1 written.2) as (H & _).
  - reflexivity.
  - apply surjective_pairing.
  - apply H. vm_compute. reflexivity.
Defined.

(** A transport whose status poll fails in mid-flight, and whose second part write is
    cut off after the file was created. *)
#[local] Instance flaky_lib : AgentLib guest := {
  qemu_agent_command c _ e := (guest_command c e, 5);
  pve_exec argv e := (guest_exec_line argv e, 5);
  pve_exec_status _ e := (raise RequestException ["connection reset"], e, 5);
  pve_file_read _ e := (refused, e, 5);
  pve_file_write p enc e := ((raise RequestException ["timeout"], (guest_write p enc e).2), 5);
  py_str _ := [];
  agent_sleeper _ e := (1, e);
}.

(** A failing status poll leaves the Proxmox transport as the HTTP library's exception,
    where the libvirt transport turns it into [GuestAgentError]. *)
Lemma pve_poll_leaks :
  (run_exec (L:=flaky_lib) (sh (b "cat /a > /b")) 1000 guest0).1 = raise RequestException ["connection reset"].
Proof. vm_compute. reflexivity. Qed.

(** A part whose write was cut off is not cleaned up: it was not yet in the list. *)
Lemma failed_part_left c cs :
  (write_parts (L:=flaky_lib) (b "/x") 0 (c :: cs) [] guest0).1 = Ok ([], raise GuestAgentError []) ∧
  g_files (rm_ext (write_parts (L:=flaky_lib) (b "/x") 0 (c :: cs) [] guest0).2) !! "/x.tr-part0" = Some c.
Proof.
  cbn [write_parts]. unfold post_write, agent_guard, catch, rcall. cbn [pve_file_write flaky_lib guest0 rm_ext].
  unfold guest_write. rewrite b2a_decodes. split; [reflexivity|]. apply lookup_insert_eq.
Qed.
End QgaDemo.
