(* ===== verification/Pve.v ===== *)
(** * The Proxmox driver ([drivers/proxmox/_vm.py], [_storage.py], [_sdn.py], [driver.py])

    Every operation of the driver as a program over the Proxmox API, one operation of
    [PveApi] per endpoint, each of which may raise anything.  Requests that change the
    cluster are noted ([pve_request]), so that theorems can speak of what was asked.
    Values of a VM configuration are the strings sent for them. *)

From S2P Require Import Prelude Exceptions Eff PyBytes PyDict Url Conn Sha256 Naming Ipv4 Devices Remote.
From stdpp Require Import options.

(** A request: a read, or a change. *)
Inductive pve_request : Type :=
  | Read (what : string)
  | PostZone (zone : string) | DelZone (zone : string)
  | PostVnet (vnet zone : string) | DelVnet (vnet : string)
  | PostSubnet (vnet cidr gateway : string) | DelSubnet (vnet subnet : string)
  | ApplySdn
  | PostVm (config : gmap string string) | DelVm (vmid : Z)
  | Power (vmid : Z) (action : string)
  | Resize (vmid : Z) (size : Z)
  | PostSnapshot (vmid : Z) (name : string) (mem : bool) | DelSnapshot (vmid : Z) (name : string) | Rollback (vmid : Z) (name : string)
  | DelContent (volid : string)
  | SftpPut (path : string) | SftpGet (path : string).

(** What a changing endpoint answers: the identifier of a task, another text, or no
    text. *)
Definition reply : Type := option string.

Class PveApi (E : Type) : Type := {
  pv_vms : ext_op E (list (string * Z));
  pv_content : ext_op E (list string);
  pv_config : Z → ext_op E (gmap string string);
  pv_nextid : ext_op E Z;
  pv_power : Z → ext_op E string;
  pv_snapshots : Z → ext_op E (list (string * Z));
  pv_zones : ext_op E (list string);
  pv_vnets : ext_op E (list (string * option string));
  pv_subnets : string → ext_op E (list (string * option string));
  pv_storage_path : ext_op E (option string);
  (** [Tasks.blocking_status]: [None] after the timeout, or the exit status *)
  pv_task : string → Z → ext_op E (option (option string));
  (** a request that changes the cluster *)
  pv_change : pve_request → ext_op E reply;
  (** the SSH session of the byte transfers: connecting and opening the channel, the
      directories, the transfers, closing *)
  pv_open_sftp : ext_op E ();
  pv_makedirs : string → ext_op E ();
  pv_sftp_put : string → ext_op E ();
  pv_sftp_get : string → ext_op E ();
  pv_close_sftp : ext_op E ();
  (** [str(e)], and membership in the proxmoxer and [requests] families *)
  exn_str : exn → text;
  is_pve_error : exn → bool;
  #[global] pve_sleeper :: Sleeper E;
}.
#[export] Hint Mode PveApi ! : typeclass_instances.

Definition TASK_TIMEOUT : Z := 600.

(** The driver: its storage, the zone minted for it, the uplinks of the profile, and the
    vnet of each network it created. *)
Record PveDriver : Type := MkPveDriver {
  pd_storage : string;
  pd_zone : string;
  pd_uplinks : gmap string string;
}.

Section Pve.
Context {E : Type} {L : PveApi E}.
Abbreviation R A := (act (Remote pve_request E) A).

Definition get {A} (what : string) (o : ext_op E A) : R A := rcall (Read what) o.
Definition change (q : pve_request) : R reply := rcall q (pv_change q).

(** ** Tasks *)

Definition is_upid (r : reply) : option string :=
  match r with Some s => if starts_with (b "UPID:") (b s) then Some s else None | None => None end.

Definition wait_task (upid : string) (timeout : Z) : R () :=
  status ← get "task" (pv_task upid timeout);
  match status with
  | None => throw DriverError [upid]
  | Some exit_status => throw_when (negb (bool_decide (exit_status = Some "OK"))) DriverError [upid]
  end.

Definition await_with (timeout : Z) (r : reply) : R () :=
  match is_upid r with Some upid => wait_task upid timeout | None => mret () end.
Definition await (r : reply) : R () := await_with TASK_TIMEOUT r.
Definition do_change (q : pve_request) : R () := r ← change q; await r.

(** ** Names to identifiers *)

(** [{v["name"]: int(v["vmid"]) for v in ... if v.get("name")}] *)
Definition named (vs : list (string * Z)) : pydict Z :=
  foldl (λ d v, if decide (v.1 = "") then d else dict_set d v.1 v.2) [] vs.
Definition list_vms : R (pydict Z) := vs ← get "qemu" pv_vms; mret (named vs).

Definition resolve_vmid (name : string) : R Z :=
  vms ← list_vms;
  match dict_get vms name with Some vmid => mret vmid | None => throw DriverError [name] end.

(** The loop of [resolve_disk]: the longest name that owns the volume. *)
Definition better (vol_name : string) (best : option (Z * nat) * string) (v : string * Z) : option (Z * nat) * string :=
  match Pve.disk_scsi_index vol_name v.1 with
  | Some idx => if String.length best.2 <? String.length v.1 then (Some (v.2, idx), v.1) else best
  | None => best
  end.
Definition owner_of (vol_name : string) (vms : pydict Z) : option (Z * nat) :=
  (foldl (better vol_name) (None, "") vms).1.
Definition resolve_disk (disk_ref : string) : R (Z * nat) :=
  pv ← lift (Pve.parse_disk_ref disk_ref);
  vms ← list_vms;
  match owner_of pv.2 vms with Some o => mret o | None => throw DriverError [disk_ref] end.

Definition content_volume_exists (volid : string) : R bool :=
  content ← get "content" pv_content;
  mret (bool_decide (volid ∈ content)).

(** ** Creating a VM *)

Definition jnum (z : Z) : string := str (str_int z).
Definition key (prefix : string) (n : nat) : string := str (b prefix ++ str_nat n).

Definition blank_disk (storage : string) (size : Z) : string := storage +:+ ":" +:+ jnum size +:+ ",format=qcow2".
Definition imported_disk (storage ref : string) : string := storage +:+ ":0,import-from=" +:+ ref.
Definition cdrom (ref : string) : string := ref +:+ ",media=cdrom".
Definition nic_value (mac bridge : string) : string := "virtio=" +:+ mac +:+ ",bridge=" +:+ bridge.

(** [drive.bus if isinstance(drive, ProxmoxHardDrive) else "scsi"] of each data drive,
    in order; the disk [i] is attached at slot [i + 1] of its bus. *)
Fixpoint data_disks (storage : string) (is_build : bool) (i : nat) (refs : list string) (drives : list Disk) (buses : list string)
    (config : gmap string string) : res (gmap string string) :=
  match refs with
  | [] => mret config
  | ref :: refs =>
      match drives, buses with
      | d :: drives, bus :: buses =>
          let value := if is_build then blank_disk storage (d_size_gb d) else imported_disk storage ref in
          data_disks storage is_build (S i) refs drives buses (<[key bus (S i) := value]> config)
      | _, _ => raise IndexError ["data_drives"]
      end
  end.

Fixpoint nic_entries (plan vm : string) (idx : nat) (ns : list NetworkIface) (refs : gmap string string) (config : gmap string string)
    : res (gmap string string) :=
  match ns with
  | [] => mret config
  | n :: ns =>
      bridge ← getitem refs (nh_name (n_network n));
      nic_entries plan vm (S idx) ns refs
        (<[key "net" idx := nic_value (Pve.compose_mac plan vm (Z.of_nat idx)) bridge]> config)
  end.

Record VmRequest : Type := MkVmRequest {
  vr_name : string;
  vr_spec : VMSpec;
  vr_buses : list string;
  vr_plan : string;
  vr_os_disk : string;
  vr_seed : option string;
  vr_networks : gmap string string;
  vr_data : list string;
  vr_build_nic : option BuildNic;
  vr_boot_media : option string;
}.

Definition is_build (q : VmRequest) : bool := bool_decide (is_Some (vr_seed q)) || bool_decide (is_Some (vr_boot_media q)).
Definition installer_origin (q : VmRequest) : bool := bool_decide (is_Some (vr_boot_media q)).

(** The configuration before the disks. *)
Definition base_config (storage : string) (q : VmRequest) (cpus mem size : Z) : gmap string string :=
  let common := list_to_map [
    ("name", vr_name q); ("cores", jnum cpus); ("memory", jnum mem); ("scsihw", "virtio-scsi-single"); ("ostype", "l26");
    ("agent", "1"); ("serial0", "socket"); ("boot", "order=scsi0");
    ("scsi0", if installer_origin q then blank_disk storage size else imported_disk storage (vr_os_disk q))] in
  if decide (firmware (vr_spec q) = "uefi") then
    <["bios" := "ovmf"]> (<["machine" := "q35"]> (<["efidisk0" := storage +:+ ":1,efitype=4m,pre-enrolled-keys=0"]> common))
  else common.

Definition attach (k : string) (o : option string) (c : gmap string string) : gmap string string :=
  match o with Some ref => <[k := cdrom ref]> c | None => c end.

Definition vm_config (storage : string) (q : VmRequest) : res (gmap string string) :=
  cpus ← first_cpu (vr_spec q);
  mem ← first_memory (vr_spec q);
  os ← os_drive (vr_spec q);
  c ← data_disks storage (is_build q) 0 (vr_data q) (data_drives (vr_spec q)) (vr_buses q)
        (base_config storage q cpus mem (d_size_gb os));
  let c := attach "ide0" (vr_boot_media q) (attach "ide2" (vr_seed q) c) in
  match vr_build_nic q with
  | Some nic => bridge ← getitem (vr_networks q) (bn_network nic); mret (<["net0" := nic_value (bn_mac nic) bridge]> c)
  | None => nic_entries (vr_plan q) (vs_name (vr_spec q)) 0 (nics (vr_spec q)) (vr_networks q) c
  end.

Definition lower_contains (pat : string) (e : exn) : bool := contains_sub (b pat) (to_lower (exn_str (E:=E) e)).

(** [_post_new_vm]: a taken identifier is allocated again, three attempts in all *)
Fixpoint post_new_vm (attempts : nat) (config : gmap string string) : R Z :=
  vmid ← get "nextid" pv_nextid;
  catch (do_change (PostVm (<["vmid" := jnum vmid]> config));; mret vmid)
    (λ e, is_exception e && (1 <? attempts) && lower_contains "already exists" e)
    (λ _, match attempts with S n => post_new_vm n config | 0 => throw DriverError [] end).

(** [_wait_unlocked] *)
Definition unlocked (vmid : Z) : R (option ()) :=
  config ← get "config" (pv_config vmid);
  mret (if decide (default "" (config !! "lock") = "") then Some () else None).
Definition wait_unlocked (vmid : Z) : R () :=
  start ← gets rm_clock;
  poll_from 1000 300000 start (unlocked vmid) (Exn DriverError [jnum vmid]).

Definition resize_os_disk (vmid size : Z) : R () :=
  retry 8 (λ e, lower_contains "timeout" e || lower_contains "lock" e) 4000 (do_change (Resize vmid size)).

Definition create_vm (storage : string) (q : VmRequest) : R string :=
  config ← lift (vm_config storage q);
  vmid ← post_new_vm 3 config;
  wait_unlocked vmid;;
  (if bool_decide (is_Some (vr_seed q)) && negb (installer_origin q) then
     os ← lift (os_drive (vr_spec q));
     resize_os_disk vmid (d_size_gb os);;
     wait_unlocked vmid
   else mret ());;
  mret ("vm:" +:+ jnum vmid).

(** ** Lifecycle *)

(** [_await_lock_retry] *)
Definition lock_retry (m : R ()) : R () :=
  retry 10 (λ e, lower_contains "got timeout" e && lower_contains "lock" e) 3000 m.

Definition start_vm (name : string) : R () := vmid ← resolve_vmid name; do_change (Power vmid "start").
Definition shutdown_vm (name : string) (timeout : Z) : R () :=
  vmid ← resolve_vmid name;
  lock_retry (r ← change (Power vmid "shutdown"); await_with (timeout + 30) r).

Definition destroy_vm (name : string) : R () :=
  vms ← list_vms;
  match dict_get vms name with
  | None => mret ()
  | Some vmid =>
      catch (do_change (Power vmid "stop")) is_exception (λ _, mret ());;
      do_change (DelVm vmid)
  end.

Definition get_vm_power_state (name : string) : R string :=
  vmid ← resolve_vmid name;
  status ← get "status" (pv_power vmid);
  mret (if decide (status = "stopped") then "shutoff" else status).

(** ** Snapshots *)

(** [snaps.sort(key=...)]: stable, by the time of the snapshot *)
Definition sort_by_time (l : list (string * Z)) : list (string * Z) := sort_by snd l.
Definition snapshot_names (vmid : Z) : R (list string) :=
  snaps ← get "snapshot" (pv_snapshots vmid);
  mret (fst <$> sort_by_time (filter (λ s, s.1 ≠ "current") snaps)).

Definition create_snapshot (name snap : string) (mem : bool) : R () :=
  vmid ← resolve_vmid name;
  running ← (if mem then state ← get_vm_power_state name; mret (bool_decide (state = "running")) else mret true);
  throw_when (negb running) DriverError [name];;
  snaps ← snapshot_names vmid;
  throw_when (bool_decide (snap ∈ snaps)) DriverError [snap; name];;
  do_change (PostSnapshot vmid snap mem).

Definition list_snapshots (name : string) : R (list string) := vmid ← resolve_vmid name; snapshot_names vmid.

Definition delete_snapshot (name snap : string) : R () :=
  vmid ← resolve_vmid name;
  snaps ← snapshot_names vmid;
  if decide (snap ∈ snaps) then lock_retry (do_change (DelSnapshot vmid snap)) else mret ().

Definition restore_snapshot (name snap : string) : R () :=
  vmid ← resolve_vmid name;
  snaps ← snapshot_names vmid;
  throw_when (bool_decide (snap ∉ snaps)) DriverError [snap; name];;
  lock_retry (do_change (Rollback vmid snap)).

(** ** Storage *)

Definition storage_path : R string :=
  p ← get "storage" pv_storage_path;
  match p with
  | None | Some "" => throw DriverError ["storage"]
  | Some p => mret p
  end.

(** [path.rstrip("/")] *)
Definition rstrip_slash (l : text) : text := reverse (drop_while (λ c, bool_decide (c = SLASH)) (reverse l)).
Definition host_path (volid : string) : R string :=
  root ← storage_path;
  rel ← lift (Pve.volid_relpath volid);
  mret (str (rstrip_slash (b root) ++ SLASH :: b rel)).

(** [sftp_put]: the session and its channel are opened before the [try] *)
Definition sftp_put (path : string) : R () :=
  get "sftp" pv_open_sftp;;
  finally
    (catch (get "sftp" (pv_makedirs path);; rcall (SftpPut path) (pv_sftp_put path)) is_exception (λ _, throw DriverError [path]))
    (get "sftp" pv_close_sftp).
Definition sftp_get (path : string) : R () :=
  get "sftp" pv_open_sftp;;
  finally (rcall (SftpGet path) (pv_sftp_get path)) (get "sftp" pv_close_sftp).

Definition create_pool (name : string) : R string := storage_path;; mret ("pool:" +:+ name).

Definition delete_content (volid : string) : R () := do_change (DelContent volid).

(** [volid.split("/", 1)[-1]] *)
Definition file_of (volid : string) : text :=
  let '(a, found, z) := partition SLASH (b volid) in if found : bool then z else a.
Definition destroy_pool (name : string) : R () :=
  content ← get "content" pv_content;
  forA (λ volid, if starts_with (b name ++ b "__") (file_of volid) then delete_content volid else mret ()) content.

Definition write_to_pool (ref : string) : R string := path ← host_path ref; sftp_put path;; mret ref.

Definition upload_to_pool (ref : string) : R string :=
  present ← content_volume_exists ref;
  if present : bool then mret ref else path ← host_path ref; sftp_put path;; mret ref.

(** The disk at a slot: the first bus that has it, a CD-ROM skipped. *)
Definition BUSES : list string := ["scsi"; "virtio"; "sata"; "ide"].
Definition is_cdrom (v : string) : bool := contains_sub (b "media=cdrom") (b v).
Definition disk_at (config : gmap string string) (slot : nat) : option string :=
  match filter (λ bus, from_option (λ v, negb (is_cdrom v)) false (config !! key bus slot) = true) BUSES with
  | bus :: _ => config !! key bus slot
  | [] => None
  end.
(** [str(entry).split(",", 1)[0]] *)
Definition before_comma (v : string) : string := let '(a, _, _) := partition (chr 44) (b v) in str a.

Definition download_from_pool (ref : string) : R () :=
  o ← resolve_disk ref;
  config ← get "config" (pv_config o.1);
  match disk_at config o.2 with
  | None | Some "" => throw DriverError [ref]
  | Some entry => path ← host_path (before_comma entry); sftp_get path
  end.

Definition delete_volume (ref : string) : R () :=
  present ← content_volume_exists ref;
  if present : bool then delete_content ref else mret ().

(** ** Networks *)

Definition apply_sdn : R () := do_change ApplySdn.

Definition ensure_zone (zone : string) : R () :=
  zones ← get "zones" pv_zones;
  if decide (zone ∈ zones) then mret () else change (PostZone zone);; mret ().

Definition ensure_mgmt_subnet (vid : string) (sw : Switch) : R () :=
  net ← lift (sw_network sw);
  let c := print_network net in
  present ← get "subnets" (pv_subnets vid);
  if decide (Some c ∈ present.*2) then mret ()
  else gw ← lift (mgmt_ip sw); change (PostSubnet vid c gw);; mret ().

Definition create_switch_sdn (zone : string) (sw : Switch) (name : string) (resolved : option string) : R (option string) :=
  let vid := Pve.vnet_id name in
  ensure_zone zone;;
  existing ← get "vnets" pv_vnets;
  (if decide (vid ∈ existing.*1) then mret () else change (PostVnet vid zone);; mret ());;
  (if mgmt sw then ensure_mgmt_subnet vid sw else mret ());;
  apply_sdn;;
  mret (match uplink sw, sidecar sw with Some _, Some sc => if sc_nat sc then resolved else None | _, _ => None end).

(** The last entry of a name, as the dict comprehension keeps it. *)
Definition last_entry {A} (l : list (string * A)) (k : string) : option A :=
  snd <$> last (filter (λ x, x.1 = k) l).

Definition destroy_switch (name : string) : R () :=
  let vid := Pve.vnet_id name in
  vnets ← get "vnets" pv_vnets;
  match last_entry vnets vid with
  | None => mret ()
  | Some zone =>
      subs ← get "subnets" (pv_subnets vid);
      forA (λ s, change (DelSubnet vid s.1);; mret ()) subs;;
      change (DelVnet vid);;
      remaining ← get "vnets" pv_vnets;
      (match zone with
       | Some z => if decide (Some z ∈ remaining.*2) then mret () else change (DelZone z);; mret ()
       | None => mret ()
       end);;
      apply_sdn
  end.

(** ** The driver boundary *)

(** [_translates] *)
Definition translates {A} (m : R A) : R A := catch m (is_pve_error (E:=E)) (λ _, throw DriverError []).

Definition create_switch (d : PveDriver) (sw : Switch) (name : string) : R (option string) :=
  translates (
    resolved ← (match uplink sw with
                | None => mret None
                | Some u => match pd_uplinks d !! u with Some i => mret (Some i) | None => throw DriverError [sw_name sw; u] end
                end);
    create_switch_sdn (pd_zone d) sw name resolved).

(** [{name: self._vnet_by_network.get(backend, backend) for ...}] *)
Definition resolved_refs (vnets : gmap string string) (refs : gmap string string) : gmap string string :=
  (λ backend, default backend (vnets !! backend)) <$> refs.

(** [create_vm] of the driver: the vnet of each network is looked up first *)
Definition driver_create_vm (d : PveDriver) (vnets : gmap string string) (q : VmRequest) : R string :=
  translates (create_vm (pd_storage d) (MkVmRequest (vr_name q) (vr_spec q) (vr_buses q) (vr_plan q) (vr_os_disk q) (vr_seed q)
    (resolved_refs vnets (vr_networks q)) (vr_data q) (vr_build_nic q) (vr_boot_media q))).
End Pve.

(** Networks share the vnet of their switch; what was created is noted under its composed
    name for the NICs.  Volumes are sized in [create_vm]. *)
Definition create_network (vnets : gmap string string) (backend_name switch_backend_name : string) : string * gmap string string :=
  let vnet := Pve.vnet_id switch_backend_name in (vnet, <[backend_name := vnet]> vnets).
Definition create_blank_volume (target_ref : string) (size_gb : Z) : string := target_ref.
Definition resize_volume (target_ref : string) (size_gb : Z) : string := target_ref.

(** [ProxmoxHardDrive] *)
Definition PVE_DISK_BUSES : list string := ["scsi"; "virtio"; "sata"; "ide"].
Definition check_pve_bus (bus : string) : res () := raise_when (bool_decide (bus ∉ PVE_DISK_BUSES)) ValueError [bus].
