(* ===== verification/PveSpec.v ===== *)
(** * What the Proxmox driver guarantees

    The disk a volume reference is captured from is the one the VM was created with;
    teardown asks for deletions of what the cluster lists and of nothing else; a switch
    leaves neither vnet nor zone behind; what leaves the driver is [DriverError]. *)

From S2P Require Import Prelude Exceptions Eff PyBytes PyDict Url Conn Sha256 Naming Ipv4 Devices Console Remote Pve.
From stdpp Require Import options.

(** ** Keys of a configuration *)

Lemma str_nat_head n : ∃ c t, str_nat n = c :: t ∧ is_digit c = true.
Proof.
  pose proof (str_nat_digits n) as Hd. pose proof (str_nat_ne n). destruct (str_nat n) as [|c t]; [done|].
  apply Forall_cons in Hd as [Hc _]. eauto.
Qed.

Ltac bus_cases := repeat match goal with
  | H : _ ∈ BUSES |- _ => unfold BUSES in H; rewrite ?elem_of_cons, ?elem_of_nil in H; destruct H as [->|[->|[->|[->|[]]]]] end.

Lemma key_inj bus bus' n m : bus ∈ BUSES → bus' ∈ BUSES → key bus n = key bus' m → bus = bus' ∧ n = m.
Proof.
  intros H1 H2 Hk%str_inj. destruct (str_nat_head n) as (c & t & En & Hc), (str_nat_head m) as (c' & t' & Em & Hc').
  bus_cases; rewrite ?En, ?Em in Hk; try discriminate Hk;
    (split; [done|]; apply str_nat_inj; rewrite En, Em; cbn in Hk; by simplify_eq).
Qed.

(** The keys of a configuration that are not of the form bus and slot. *)
Definition plain_keys : list string :=
  ["name"; "cores"; "memory"; "scsihw"; "ostype"; "agent"; "serial0"; "boot"; "bios"; "machine"; "efidisk0"].

Lemma key_not_plain bus n k : bus ∈ BUSES → k ∈ plain_keys → key bus n ≠ k.
Proof.
  intros Hb Hk Heq. apply (f_equal b) in Heq. unfold key in Heq. rewrite b_str in Heq.
  destruct (str_nat_head n) as (c & t & En & Hc). rewrite En in Heq. unfold plain_keys in Hk.
  repeat (apply elem_of_cons in Hk as [->|Hk]); try (by apply not_elem_of_nil in Hk); bus_cases; cbn in Heq; simplify_eq.
Qed.

Lemma key_not_net bus n m : bus ∈ BUSES → key bus n ≠ key "net" m.
Proof. intros Hb Heq%str_inj. bus_cases; discriminate Heq. Qed.

Lemma base_config_keys storage q cpus mem size bus n :
  bus ∈ BUSES → is_Some (base_config storage q cpus mem size !! key bus n) ↔ bus = "scsi" ∧ n = 0.
Proof.
  intros Hb. pose proof (λ k, key_not_plain bus n k Hb) as Hne. unfold base_config.
  assert (∀ m : gmap string string, is_Some (<["bios" := "ovmf"]> (<["machine" := "q35"]>
    (<["efidisk0" := storage +:+ ":1,efitype=4m,pre-enrolled-keys=0"]> m)) !! key bus n) ↔ is_Some (m !! key bus n)) as Hu.
  { intros m. rewrite !lookup_insert_ne; [done|symmetry; apply Hne; by_decide..]. }
  transitivity (key bus n = "scsi0").
  - case_decide; [rewrite Hu|]; cbn [list_to_map foldr uncurry]; (do 8 (rewrite lookup_insert_ne; [|symmetry; apply Hne; by_decide]));
    (rewrite lookup_insert_is_Some', lookup_empty; split; [intros [Heq|[? [=]]]; by rewrite <-Heq|intros Heq; left; by rewrite Heq]).
  - split; [|intros [-> ->]; reflexivity]. intros H. apply (key_inj bus "scsi" n 0); [done|by_decide|exact H].
Qed.

(** ** Who owns a volume *)

Lemma named_keys vs : NoDup (dict_keys (named vs)) ∧ "" ∉ dict_keys (named vs).
Proof.
  unfold named. cut (∀ d : pydict Z, NoDup (dict_keys d) ∧ "" ∉ dict_keys d →
    NoDup (dict_keys (foldl (λ d v, if decide (v.1 = "") then d else dict_set d v.1 v.2) d vs)) ∧
    "" ∉ dict_keys (foldl (λ d v, if decide (v.1 = "") then d else dict_set d v.1 v.2) d vs)).
  { intros H. apply H. split; [constructor|apply not_elem_of_nil]. }
  induction vs as [|[k v] vs IH]; intros d Hd; [done|]. cbn [foldl fst snd]. apply IH.
  case_decide as Hk; [done|]. destruct Hd as [Hn He]. rewrite dict_keys_set. case_decide as Hin; [done|]. split.
  - apply NoDup_app. split; [done|]. split; [|apply NoDup_singleton]. intros x Hx Heq%list_elem_of_singleton. by subst.
  - intros [?|Heq%list_elem_of_singleton]%elem_of_app; [done|]. by subst.
Qed.

(** The fold keeps the longest owner met so far. *)
Definition owners_upto (vol : string) (seen : list (string * Z)) (best : option (Z * nat) * string) : Prop :=
  match best.1 with
  | None => best.2 = "" ∧ ∀ v, v ∈ seen → Pve.disk_scsi_index vol v.1 = None
  | Some (vmid, idx) => (best.2, vmid) ∈ seen ∧ Pve.disk_scsi_index vol best.2 = Some idx ∧
      ∀ v i, v ∈ seen → Pve.disk_scsi_index vol v.1 = Some i → String.length v.1 ≤ String.length best.2
  end.

Lemma better_step vol seen best v :
  v.1 ≠ "" → owners_upto vol seen best → owners_upto vol (seen ++ [v]) (better vol best v).
Proof.
  intros Hv. unfold owners_upto, better. destruct v as [n z]. cbn [fst snd] in *.
  destruct best as [[[vmid idx]|] bn]; cbn [fst snd]; destruct (Pve.disk_scsi_index vol n) as [i|] eqn:Hi.
  - intros (Hin & Hidx & Hmax). destruct (String.length bn <? String.length n) eqn:Hlt; cbn [fst snd].
    + apply Nat.ltb_lt in Hlt. split; [set_solver|]. split; [done|]. intros v j [Hs| ->%list_elem_of_singleton]%elem_of_app Hj; [|done].
      specialize (Hmax _ _ Hs Hj). lia.
    + apply Nat.ltb_ge in Hlt. split; [set_solver|]. split; [done|]. intros v j [Hs| ->%list_elem_of_singleton]%elem_of_app Hj; [eauto|done].
  - intros (Hin & Hidx & Hmax). split; [set_solver|]. split; [done|].
    intros v j [Hs| ->%list_elem_of_singleton]%elem_of_app Hj; [eauto|]. cbn in Hj. congruence.
  - intros [-> Hnone]. destruct n as [|a n]; [done|]. cbn [String.length Nat.ltb Nat.leb fst snd]. split; [set_solver|]. split; [done|].
    intros v j [Hs| ->%list_elem_of_singleton]%elem_of_app Hj; [rewrite Hnone in Hj by done; done|done].
  - intros [-> Hnone]. split; [done|]. intros v [Hs| ->%list_elem_of_singleton]%elem_of_app; [auto|done].
Qed.

Lemma owner_fold vol l seen best :
  (∀ v, v ∈ l → v.1 ≠ "") → owners_upto vol seen best → owners_upto vol (seen ++ l) (foldl (better vol) best l).
Proof.
  revert seen best. induction l as [|v l IH]; intros seen best Hl Hb; [by rewrite app_nil_r|]. cbn [foldl].
  rewrite cons_middle, app_assoc. apply IH; [intros; apply Hl; by right|]. apply better_step; [apply Hl; by left|done].
Qed.

Lemma owner_of_longest vol vs name vmid idx :
  dict_get (named vs) name = Some vmid → Pve.disk_scsi_index vol name = Some idx →
  (∀ n i, n ∈ dict_keys (named vs) → n ≠ name → Pve.disk_scsi_index vol n = Some i → String.length n < String.length name) →
  owner_of vol (named vs) = Some (vmid, idx).
Proof.
  intros Hget Hidx Hlong. destruct (named_keys vs) as [Hnd Hne]. unfold owner_of.
  assert (owners_upto vol ([] ++ named vs) (foldl (better vol) (None, "") (named vs))) as H.
  { apply owner_fold; [|split; [done|by intros ? ?%not_elem_of_nil]]. intros v Hv Heq. apply Hne. rewrite <-Heq.
    apply list_elem_of_fmap. by exists v. }
  cbn [app] in H. apply (dict_get_elem _ _ _ Hnd) in Hget as Hin.
  destruct (foldl (better vol) (None, "") (named vs)) as [[[v i]|] bn]; unfold owners_upto in H; cbn [fst snd] in *.
  - destruct H as (Hb & Hi & Hmax). specialize (Hmax _ _ Hin Hidx). cbn [fst] in Hmax.
    assert (bn ∈ dict_keys (named vs)) as Hbn by (apply list_elem_of_fmap; by exists (bn, v)).
    destruct (decide (bn = name)) as [->|Hx]; [|specialize (Hlong _ _ Hbn Hx Hi); lia].
    apply (dict_get_elem _ _ _ Hnd) in Hb. congruence.
  - destruct H as [_ H]. specialize (H _ Hin). cbn in H. congruence.
Qed.

Lemma disk_index_inv vol n i :
  Pve.disk_scsi_index vol n = Some i →
  stem (b vol) = b n ∨ ∃ ds, stem (b vol) = b n ++ b "-data" ++ ds ∧ Forall (λ c, is_digit c = true) ds.
Proof.
  unfold Pve.disk_scsi_index. case_decide as He; [by left|]. destruct (starts_with _ _) eqn:Hs; [|done].
  apply starts_with_spec in Hs as [k Hk]. rewrite Hk, drop_app_length. case_decide as Hd; [|done]. intros _. right.
  exists k. split; [by rewrite <-app_assoc|]. apply Forall_forall. intros c Hc. destruct Hd as [_ Hd].
  rewrite forallb_forall in Hd. by apply Hd, list_elem_of_In.
Qed.

Lemma data_suffix_cancel (l1 l2 d1 d2 : text) :
  Forall (λ c, is_digit c = true) d1 → Forall (λ c, is_digit c = true) d2 →
  l1 ++ b "-data" ++ d1 = l2 ++ b "-data" ++ d2 → l1 = l2.
Proof.
  intros H1 H2 Heq%(f_equal (λ l, drop_while is_digit (reverse l))). rewrite !reverse_app, <-!app_assoc in Heq.
  change (reverse (b "-data")) with (b "atad-") in Heq. cbn [app b String.list_ascii_of_string] in Heq.
  rewrite !drop_while_app in Heq by (done || by apply Forall_reverse). simplify_eq. by apply (inj reverse).
Qed.

Lemma length_b s : length (b s) = String.length s.
Proof. induction s as [|c s IH]; [done|]. cbn. by rewrite <-IH. Qed.

(** The volume of slot [k] of a VM: the OS disk, or a data disk. *)
Definition slot_stem (name : string) (slot : nat) : text :=
  match slot with 0 => b name | S i => b name ++ b "-data" ++ str_nat i end.
Definition slot_volume (name ext : string) (slot : nat) : string := str (slot_stem name slot ++ DOT :: b ext).

Lemma slot_owner name ext slot vs vmid :
  DOT ∉ b ext → dict_get (named vs) name = Some vmid →
  (∀ i, str (slot_stem name (S i)) ∉ dict_keys (named vs)) →
  owner_of (slot_volume name ext slot) (named vs) = Some (vmid, slot).
Proof.
  intros He Hget Hno. assert (stem (b (slot_volume name ext slot)) = slot_stem name slot) as Hstem.
  { unfold slot_volume. by rewrite b_str, stem_ext. }
  apply owner_of_longest with name; [done|..].
  - unfold slot_volume. destruct slot as [|i]; [apply (disk_slots name ext 0 He)|].
    cbn [slot_stem]. rewrite (proj2 (disk_slots name ext i He)). f_equal. lia.
  - intros n i Hn Hne Hi. apply disk_index_inv in Hi. rewrite Hstem in Hi. rewrite <-!length_b. destruct slot as [|j]; cbn [slot_stem] in *.
    + destruct Hi as [Heq|(ds & Heq & _)]; [apply (f_equal str) in Heq; rewrite !str_b in Heq; congruence|].
      rewrite Heq, !length_app. cbn. lia.
    + exfalso. destruct Hi as [Heq|(ds & Heq & Hds)].
      * apply (Hno j). cbn [slot_stem]. rewrite Heq, str_b. done.
      * apply data_suffix_cancel in Heq; [|apply str_nat_digits|done]. apply (f_equal str) in Heq. rewrite !str_b in Heq. congruence.
Qed.

(** ** The disks of a configuration *)

(** The bus a disk is attached to. *)
Definition slot_bus (q : VmRequest) (slot : nat) : option string :=
  match slot with 0 => Some "scsi" | S i => if i <? length (vr_data q) then vr_buses q !! i else None end.

Lemma is_Some_insert_key bus n bus' m v (c : gmap string string) :
  bus ∈ BUSES → bus' ∈ BUSES →
  is_Some (<[key bus' m := v]> c !! key bus n) ↔ (bus = bus' ∧ n = m) ∨ is_Some (c !! key bus n).
Proof.
  intros Hb Hb'. rewrite lookup_insert_is_Some'. split; (intros [H|H]; [left|by right]).
  - by apply key_inj in H as [-> ->].
  - by destruct H as [-> ->].
Qed.

Lemma data_disks_keys storage bld i refs drives buses c c' bus n :
  Forall (λ x, x ∈ BUSES) buses → bus ∈ BUSES → data_disks storage bld i refs drives buses c = Ok c' →
  is_Some (c' !! key bus n) ↔ (∃ j, j < length refs ∧ n = i + S j ∧ buses !! j = Some bus) ∨ is_Some (c !! key bus n).
Proof.
  intros Hbs Hb. revert i drives buses c Hbs. induction refs as [|r refs IH]; intros i drives buses c Hbs; cbn [data_disks].
  { intros [= <-]. split; [by right|]. by intros [(j & Hj & _)|?]; [cbn in Hj; lia|]. }
  destruct drives as [|d drives]; [done|]. destruct buses as [|bs buses]; [done|]. apply Forall_cons in Hbs as [Hbs0 Hbs].
  intros H. rewrite (IH _ _ _ _ Hbs H), is_Some_insert_key by done. cbn [length]. split.
  - intros [(j & Hj & -> & Hl)|[[-> ->]|?]]; [|left; exists 0; split; [lia|]; split; [lia|done]|by right].
    left. exists (S j). split; [lia|]. split; [lia|done].
  - intros [(j & Hj & -> & Hl)|?]; [|by right; right]. destruct j as [|j]; cbn in Hl.
    + injection Hl as ->. right; left. split; [done|lia].
    + left. exists j. split; [lia|]. split; [lia|done].
Qed.

Lemma nic_entries_keys plan vm idx ns refs c c' bus n :
  bus ∈ BUSES → nic_entries plan vm idx ns refs c = Ok c' → c' !! key bus n = c !! key bus n.
Proof.
  intros Hb. revert idx c. induction ns as [|x ns IH]; intros idx c; cbn [nic_entries]; [by intros [= <-]|].
  destruct (getitem refs _) as [bridge|]; [|done]. intros H. apply IH in H. rewrite H.
  apply lookup_insert_ne. symmetry. by apply key_not_net.
Qed.

Lemma attach_keys m o (c : gmap string string) bus n :
  bus ∈ BUSES →
  is_Some (attach (key "ide" m) o c !! key bus n) ↔ (bus = "ide" ∧ n = m ∧ is_Some o) ∨ is_Some (c !! key bus n).
Proof.
  intros Hb. destruct o as [ref|]; cbn [attach].
  - rewrite is_Some_insert_key by (done || by_decide). naive_solver.
  - split; [by right|]. by intros [(_ & _ & [? [=]])|?].
Qed.

(** The slots of the configuration that is posted. *)
Lemma vm_config_slots storage q cfg bus n :
  vm_config storage q = Ok cfg → Forall (λ x, x ∈ BUSES) (vr_buses q) → bus ∈ BUSES →
  is_Some (cfg !! key bus n) ↔
    slot_bus q n = Some bus ∨ (bus = "ide" ∧ n = 2 ∧ is_Some (vr_seed q)) ∨ (bus = "ide" ∧ n = 0 ∧ is_Some (vr_boot_media q)).
Proof.
  unfold vm_config. intros (cpus & _ & (mem & _ & (os & _ & (c & Hd & H)%bind_Ok)%bind_Ok)%bind_Ok)%bind_Ok Hbs Hb.
  assert (cfg !! key bus n = attach "ide0" (vr_boot_media q) (attach "ide2" (vr_seed q) c) !! key bus n) as ->.
  { destruct (vr_build_nic q) as [nic|].
    - destruct (getitem _ _) as [bridge|]; [|done]. injection H as <-.
      change "net0" with (key "net" 0). apply lookup_insert_ne. symmetry. by apply key_not_net.
    - by apply (nic_entries_keys _ _ _ _ _ _ _ bus n Hb) in H. }
  change "ide0" with (key "ide" 0). change "ide2" with (key "ide" 2).
  rewrite !attach_keys, (data_disks_keys _ _ _ _ _ _ _ _ _ _ Hbs Hb Hd), base_config_keys by done. unfold slot_bus.
  destruct n as [|i].
  - split; [intros [?|[?|[(j & _ & ? & _)|[-> _]]]]; [naive_solver|naive_solver|lia|by left]|].
    intros [[= <-]|[?|?]]; [do 3 right; done|naive_solver|by left].
  - destruct (i <? length (vr_data q)) eqn:Hi.
    + apply Nat.ltb_lt in Hi. split.
      * intros [?|[?|[(j & Hj & [= ->] & Hl)|[_ ?]]]]; [naive_solver|naive_solver|by left|done].
      * intros [Hl|[?|?]]; [do 2 right; left; by exists i|by right; left|by left].
    + apply Nat.ltb_ge in Hi. split; [intros [?|[?|[(j & Hj & [= ->] & Hl)|[_ ?]]]]; [naive_solver|naive_solver|lia|done]|].
      intros [?|[?|?]]; [done|by right; left|by left].
Qed.

(** What the cluster reports for a VM has the slots of what was posted, each with a value
    of its own, a CD-ROM where a CD-ROM was posted and nowhere else. *)
Record live_config (cfg cfg' : gmap string string) : Prop := {
  lc_slots bus n : bus ∈ BUSES → is_Some (cfg' !! key bus n) ↔ is_Some (cfg !! key bus n);
  lc_values bus n v v' : bus ∈ BUSES → cfg !! key bus n = Some v → cfg' !! key bus n = Some v' → is_cdrom v' = is_cdrom v ∧ v' ≠ "";
}.

Lemma disk_at_slot storage q cfg cfg' slot bus :
  vm_config storage q = Ok cfg → Forall (λ x, x ∈ BUSES) (vr_buses q) → live_config cfg cfg' →
  slot_bus q slot = Some bus → bus ∈ BUSES → (∀ v, cfg !! key bus slot = Some v → is_cdrom v = false) →
  ∃ v, v ≠ "" ∧ cfg' !! key bus slot = Some v ∧ disk_at cfg' slot = Some v.
Proof.
  intros Hc Hbs [Hs Hd] Hslot Hb Hdisk.
  destruct (proj2 (vm_config_slots _ _ _ _ slot Hc Hbs Hb)) as [v0 Hv0]; [by left|].
  destruct (proj2 (Hs bus slot Hb)) as [v Hv]; [by eexists|].
  destruct (Hd _ _ _ _ Hb Hv0 Hv) as [Hcd Hne]. rewrite (Hdisk _ Hv0) in Hcd. exists v. split; [done|]. split; [done|].
  assert (∀ bus', bus' ∈ BUSES → bus' ≠ bus → bus' ≠ "ide" → cfg' !! key bus' slot = None) as Hother.
  { intros bus' Hb' Hn Hi. apply eq_None_not_Some. intros H%(Hs _ _ Hb').
    apply (vm_config_slots _ _ _ _ _ Hc Hbs Hb') in H as [H|[[? _]|[? _]]]; [congruence|done..]. }
  assert (from_option (λ v, negb (is_cdrom v)) false (cfg' !! key bus slot) = true) as Hme by (rewrite Hv; cbn; by rewrite Hcd).
  assert (∀ bus', bus' ∈ BUSES → bus' ≠ bus → bus' ≠ "ide" →
    from_option (λ v, negb (is_cdrom v)) false (cfg' !! key bus' slot) ≠ true) as Hno by (intros; by rewrite Hother).
  unfold disk_at, BUSES. bus_cases;
    repeat first [rewrite filter_cons_True by exact Hme|rewrite filter_cons_False by (apply Hno; (done || by_decide))]; exact Hv.
Qed.

Section Spec.
Context {E : Type} {L : PveApi E}.
Set Default Proof Using "Type".
Abbreviation R A := (act (Remote pve_request E) A).

Lemma get_inv {A} what (o : ext_op E A) (s : Remote pve_request E) r s' :
  get what o s = (r, s') → (∃ dt, o (rm_ext s) = (r, rm_ext s', dt)) ∧ rm_sent s' = rm_sent s ++ [Read what].
Proof. unfold get, rcall. destruct (o (rm_ext s)) as [[r0 e] dt]. intros [= <- <-]. eauto. Qed.

Lemma get_Ok {A} what (o : ext_op E A) (s : Remote pve_request E) a e dt :
  o (rm_ext s) = (Ok a, e, dt) → ∃ s', get what o s = (Ok a, s') ∧ rm_ext s' = e.
Proof. intros H. unfold get, rcall. rewrite H. eauto. Qed.

(** ** Capturing a disk *)

(** What is captured is the disk of the VM.  A VM was created from [q]; its disk of
    slot [slot] (the OS disk, or a data disk on whatever bus was chosen for it) is known
    to the orchestrator by the reference composed for it before the VM existed.  When no
    VM is named after one of its data disks, downloading that reference finds the VM by
    its name among all VMs of the node and transfers the volume the cluster now reports
    at that slot, never the staged image nor a CD-ROM. *)
Theorem pve_download_live storage q cfg cfg' bus slot pool ext vs vmid e1 e2 dt1 dt2 (s : Remote pve_request E) :
  vm_config storage q = Ok cfg → Forall (λ x, x ∈ BUSES) (vr_buses q) → live_config cfg cfg' →
  slot_bus q slot = Some bus → (∀ v, cfg !! key bus slot = Some v → is_cdrom v = false) →
  Forall (λ c, dns_class c = true) (b pool) → Forall (λ c, dns_class c = true) (b (vr_name q)) →
  Forall (λ c, name_class c = true) (b ext) → DOT ∉ b ext → COLON ∉ b storage →
  pv_vms (rm_ext s) = (Ok vs, e1, dt1) → pv_config vmid e1 = (Ok cfg', e2, dt2) →
  dict_get (named vs) (vr_name q) = Some vmid → (∀ i, str (slot_stem (vr_name q) (S i)) ∉ dict_keys (named vs)) →
  ∃ entry s2, cfg' !! key bus slot = Some entry ∧ rm_ext s2 = e2 ∧
    download_from_pool (Pve.compose_volume_ref storage pool (slot_volume (vr_name q) ext slot)) s =
    (path ← host_path (before_comma entry); sftp_get path) s2.
Proof.
  intros Hc Hbs Hlive Hslot Hdisk Hpool Hname Hext Hdot Hst Hvms Hcfg Hget Hno.
  assert (bus ∈ BUSES) as Hb.
  { destruct slot as [|i]; cbn [slot_bus] in Hslot; [injection Hslot as <-; by_decide|]. destruct (i <? length (vr_data q)); [|done].
    rewrite Forall_forall in Hbs. by eapply Hbs, list_elem_of_lookup_2. }
  destruct (disk_at_slot _ _ _ _ _ _ Hc Hbs Hlive Hslot Hb Hdisk) as (entry & Hne & He & Hat).
  destruct (get_Ok "qemu" pv_vms s _ _ _ Hvms) as (s1 & Hs1 & <-).
  destruct (get_Ok "config" (pv_config vmid) s1 _ _ _ Hcfg) as (s2 & Hs2 & <-). exists entry, s2. split; [done|]. split; [done|].
  unfold download_from_pool. rewrite (act_bind_Ok _ _ s (vmid, slot) s1).
  - cbn [fst snd]. rewrite (act_bind_Ok _ _ _ _ _ Hs2), Hat. by destruct entry.
  - unfold resolve_disk. rewrite parse_disk_ref_compose; [|done|done|].
    + assert ((list_vms : R _) s = (Ok (named vs), s1)) as Hlist by (unfold list_vms; by rewrite (act_bind_Ok _ _ _ _ _ Hs1)).
      erewrite act_bind_Ok by reflexivity. rewrite (act_bind_Ok _ _ _ _ _ Hlist). cbn [snd].
      by rewrite slot_owner with (vmid := vmid).
    + unfold slot_volume. rewrite b_str, Forall_app. split.
      * assert (Forall (λ c, name_class c = true) (b (vr_name q))) as Hn by (eapply Forall_impl; [exact Hname|apply dns_name]).
        destruct slot as [|i]; cbn [slot_stem]; [done|]. rewrite !Forall_app. split_and!; [done|by repeat constructor|].
        eapply Forall_impl; [apply str_nat_digits|]. intros c Hcd. unfold name_class, is_alnum. rewrite Hcd. by rewrite orb_true_r.
      * constructor; [done|done].
Qed.

(** ** Teardown *)

(** The changes asked for. *)
Definition is_change (q : pve_request) : bool := match q with Read _ => false | _ => true end.
Definition changes (s : Remote pve_request E) : list pve_request := filter (λ q, is_change q = true) (rm_sent s).

Lemma changes_app (s s' : Remote pve_request E) q :
  rm_sent s' = rm_sent s ++ [q] → changes s' = changes s ++ (if is_change q then [q] else []).
Proof.
  intros H. unfold changes. rewrite H, filter_app, filter_cons, filter_nil.
  destruct (is_change q) eqn:Ep; [by rewrite decide_True|by rewrite decide_False].
Qed.

Lemma get_changes {A} what (o : ext_op E A) (s : Remote pve_request E) r s' :
  get what o s = (r, s') → changes s' = changes s ∧ ∃ dt, o (rm_ext s) = (r, rm_ext s', dt).
Proof. intros [H Hs]%get_inv. apply changes_app in Hs. rewrite app_nil_r in Hs. done. Qed.

Lemma await_changes t r0 (s : Remote pve_request E) r s' : await_with t r0 s = (r, s') → changes s' = changes s.
Proof.
  unfold await_with. destruct (is_upid r0) as [u|]; [|by intros [= <- <-]]. unfold wait_task.
  intros [(st & s1 & H1 & H2)|(e & H1 & ->)]%act_bind_inv; apply get_changes in H1 as [H1 _]; [|done].
  destruct st; by injection H2 as <- <-.
Qed.

Lemma do_change_inv q (s : Remote pve_request E) r s' :
  is_change q = true → do_change q s = (r, s') → changes s' = changes s ++ [q].
Proof.
  intros Hq. unfold do_change, change, rcall. intros [(x & s1 & H1 & H2)|(e & H1 & ->)]%act_bind_inv;
    destruct (pv_change q (rm_ext s)) as [[r0 e0] dt]; injection H1 as _ <-.
  - apply await_changes in H2. rewrite H2. rewrite (changes_app s _ q) by done. by rewrite Hq.
  - rewrite (changes_app s _ q) by done. by rewrite Hq.
Qed.

(** Teardown deletes what is there, and an error is not absence.  Deleting a volume
    or destroying a VM first lists what the cluster has.  If the listing fails, that
    failure is what the call raises and nothing is changed; what is not listed is
    success without a change; what is listed is asked to be deleted, exactly once, a VM
    after an attempt to stop it. *)
Theorem pve_teardown_exact ref name (s : Remote pve_request E) :
  (∀ r s', delete_volume ref s = (r, s') → ∃ listing e dt, pv_content (rm_ext s) = (listing, e, dt) ∧
    match listing with
    | Raise x => r = Raise x ∧ changes s' = changes s
    | Ok l => if decide (ref ∈ l) then changes s' = changes s ++ [DelContent ref] else r = Ok () ∧ changes s' = changes s
    end) ∧
  (∀ r s', destroy_vm name s = (r, s') → ∃ listing e dt, pv_vms (rm_ext s) = (listing, e, dt) ∧
    match listing with
    | Raise x => r = Raise x ∧ changes s' = changes s
    | Ok vs => match dict_get (named vs) name with
        | None => r = Ok () ∧ changes s' = changes s
        | Some vmid => changes s' = changes s ++ [Power vmid "stop"; DelVm vmid] ∨
            (∃ x, r = Raise x ∧ is_exception x = false ∧ changes s' = changes s ++ [Power vmid "stop"])
        end
    end).
Proof.
  split; intros r s'.
  - unfold delete_volume, content_volume_exists. intros [(p & s1 & H1 & H2)|(e & H1 & ->)]%act_bind_inv;
      apply act_bind_inv in H1 as [(l & s2 & H1 & H3)|(e' & H1 & H3)]; apply get_changes in H1 as [Hc [dt H1]];
      (eexists _, _, _; split; [exact H1|]); try discriminate H3.
    + injection H3 as <- <-. destruct (bool_decide (ref ∈ l)) eqn:Hin.
      * apply bool_decide_eq_true in Hin. rewrite decide_True by done. apply do_change_inv in H2; [congruence|done].
      * apply bool_decide_eq_false in Hin. rewrite decide_False by done. by injection H2 as <- <-.
    + injection H3 as ->. done.
  - unfold destroy_vm, list_vms. intros [(p & s1 & H1 & H2)|(e & H1 & ->)]%act_bind_inv;
      apply act_bind_inv in H1 as [(l & s2 & H1 & H3)|(e' & H1 & H3)]; apply get_changes in H1 as [Hc [dt H1]];
      (eexists _, _, _; split; [exact H1|]); try discriminate H3.
    + injection H3 as <- <-. destruct (dict_get (named l) name) as [vmid|]; [|by injection H2 as <- <-].
      unfold catch in H2. apply act_bind_inv in H2 as [([] & s1 & H2 & H3)|(x & H2 & ->)];
        destruct (do_change (Power vmid "stop") s2) as [[[]|y] s3] eqn:Hd; apply do_change_inv in Hd; try done;
        try discriminate H2.
      * injection H2 as <-. apply do_change_inv in H3; [|done]. left. rewrite H3, Hd, Hc. by rewrite <-app_assoc.
      * destruct (is_exception y); [|discriminate]. injection H2 as <-. apply do_change_inv in H3; [|done]. left.
        rewrite H3, Hd, Hc. by rewrite <-app_assoc.
      * destruct (is_exception y) eqn:Hy; [discriminate|]. injection H2 as <- <-. right. exists y. rewrite Hd, Hc. done.
    + injection H3 as ->. done.
Qed.
End Spec.

(** ** The switch fabric *)

(** The fabric of the cluster as the endpoints document it: reads list the zones and the
    vnets with their zones, a successful change is made. *)
Class SdnLaws (E : Type) {L : PveApi E} : Type := {
  sdn_zones : E → gset string;
  sdn_vnets : E → gmap string (option string);
  sdn_read_zones e l e' dt : pv_zones e = (Ok l, e', dt) →
    (∀ z, z ∈ l ↔ z ∈ sdn_zones e) ∧ sdn_zones e' = sdn_zones e ∧ sdn_vnets e' = sdn_vnets e;
  sdn_read_vnets e l e' dt : pv_vnets e = (Ok l, e', dt) →
    (∀ v z, (v, z) ∈ l ↔ sdn_vnets e !! v = Some z) ∧ sdn_zones e' = sdn_zones e ∧ sdn_vnets e' = sdn_vnets e;
  sdn_read_subnets v e l e' dt : pv_subnets v e = (Ok l, e', dt) → sdn_zones e' = sdn_zones e ∧ sdn_vnets e' = sdn_vnets e;
  sdn_read_task u t e st e' dt : pv_task u t e = (Ok st, e', dt) → sdn_zones e' = sdn_zones e ∧ sdn_vnets e' = sdn_vnets e;
  sdn_change q e r e' dt : pv_change q e = (Ok r, e', dt) →
    match q with
    | PostZone z => sdn_zones e' = {[ z ]} ∪ sdn_zones e ∧ sdn_vnets e' = sdn_vnets e
    | DelZone z => sdn_zones e' = sdn_zones e ∖ {[ z ]} ∧ sdn_vnets e' = sdn_vnets e
    | PostVnet v z => sdn_zones e' = sdn_zones e ∧ sdn_vnets e' = <[v := Some z]> (sdn_vnets e)
    | DelVnet v => sdn_zones e' = sdn_zones e ∧ sdn_vnets e' = delete v (sdn_vnets e)
    | PostSubnet _ _ _ | DelSubnet _ _ | ApplySdn => sdn_zones e' = sdn_zones e ∧ sdn_vnets e' = sdn_vnets e
    | _ => True
    end;
}.

Section Sdn.
Context {E : Type} {L : PveApi E} {F : SdnLaws E}.
Set Default Proof Using "Type".
Abbreviation R A := (act (Remote pve_request E) A).
Abbreviation zones s := (sdn_zones (rm_ext s)).
Abbreviation vnets s := (sdn_vnets (rm_ext s)).

Definition same_sdn (s s' : Remote pve_request E) : Prop := zones s' = zones s ∧ vnets s' = vnets s.

Lemma change_inv q (s : Remote pve_request E) r s' :
  change q s = (r, s') → ∃ dt, pv_change q (rm_ext s) = (r, rm_ext s', dt).
Proof. unfold change, rcall. destruct (pv_change q (rm_ext s)) as [[r0 e] dt]. intros [= <- <-]. eauto. Qed.

Lemma apply_sdn_Ok (s : Remote pve_request E) s' : apply_sdn s = (Ok (), s') → same_sdn s s'.
Proof.
  unfold apply_sdn, do_change, await, await_with, wait_task.
  intros [(x & s1 & [dt H1]%change_inv & H2)|(e & _ & [=])]%act_bind_inv. apply sdn_change in H1 as [Hz Hv].
  destruct (is_upid x); [|injection H2 as <-; done].
  apply act_bind_inv in H2 as [(st & s2 & [[dt2 H2] _]%get_inv & H3)|(e & _ & [=])]. apply sdn_read_task in H2 as [Hz2 Hv2].
  unfold same_sdn. destruct st; [|discriminate]. injection H3 as _ <-. split; congruence.
Qed.

Lemma ensure_zone_Ok z (s : Remote pve_request E) s' :
  ensure_zone z s = (Ok (), s') → zones s' = {[ z ]} ∪ zones s ∧ vnets s' = vnets s.
Proof.
  unfold ensure_zone. intros [(l & s1 & [[dt H1] _]%get_inv & H2)|(e & _ & [=])]%act_bind_inv.
  apply sdn_read_zones in H1 as (Hl & Hz & Hv). case_decide as Hin.
  - injection H2 as <-. rewrite Hz, Hv. split; [|done]. apply Hl in Hin. set_solver.
  - apply act_bind_inv in H2 as [(x & s2 & [dt2 H2]%change_inv & [= <-])|(e & _ & [=])].
    apply sdn_change in H2 as [Hz2 Hv2]. split; congruence.
Qed.

Lemma mgmt_subnet_Ok vid sw (s : Remote pve_request E) s' : ensure_mgmt_subnet vid sw s = (Ok (), s') → same_sdn s s'.
Proof.
  unfold ensure_mgmt_subnet. intros [(net & s0 & [= _ <-] & H)|(e & _ & [=])]%act_bind_inv.
  apply act_bind_inv in H as [(l & s1 & [[dt H1] _]%get_inv & H2)|(e & _ & [=])]. apply sdn_read_subnets in H1.
  case_decide; [injection H2 as <-; done|].
  apply act_bind_inv in H2 as [(gw & s2 & [= _ <-] & H2)|(e & _ & [=])].
  apply act_bind_inv in H2 as [(x & s2 & [dt2 H2]%change_inv & [= <-])|(e & _ & [=])].
  apply sdn_change in H2 as [Hz2 Hv2]. destruct H1. split; congruence.
Qed.

Lemma create_switch_Ok zone sw name res (s : Remote pve_request E) u s' :
  create_switch_sdn zone sw name res s = (Ok u, s') → vnets s !! Pve.vnet_id name = None →
  zones s' = {[ zone ]} ∪ zones s ∧ vnets s' = <[Pve.vnet_id name := Some zone]> (vnets s).
Proof.
  unfold create_switch_sdn. intros [([] & s1 & [Hz1 Hv1]%ensure_zone_Ok & H)|(e & _ & [=])]%act_bind_inv Hnew.
  apply act_bind_inv in H as [(l & s2 & [[dt H2] _]%get_inv & H)|(e & _ & [=])]. apply sdn_read_vnets in H2 as (Hl & Hz2 & Hv2).
  apply act_bind_inv in H as [([] & s3 & H3 & H)|(e & _ & [=])].
  rewrite decide_False in H3.
  2:{ intros ([v z] & Heq & Hin)%list_elem_of_fmap. cbn [fst] in Heq. subst v. apply Hl in Hin. congruence. }
  apply act_bind_inv in H3 as [(x & s4 & [dt4 H4]%change_inv & [= <-])|(e & _ & [=])]. apply sdn_change in H4 as [Hz4 Hv4].
  apply act_bind_inv in H as [([] & s5 & H5 & H)|(e & _ & [=])].
  assert (same_sdn s4 s5) as [Hz5 Hv5] by (destruct (mgmt sw); [by eapply mgmt_subnet_Ok|by injection H5 as <-]).
  apply act_bind_inv in H as [([] & s6 & [Hz6 Hv6]%apply_sdn_Ok & [= _ <-])|(e & _ & [=])]. split; congruence.
Qed.

Lemma del_subnets_Ok vid (l : list (string * option string)) (s : Remote pve_request E) s' :
  forA (λ x, change (DelSubnet vid x.1);; mret ()) l s = (Ok (), s') → same_sdn s s'.
Proof.
  unfold forA. revert s. induction l as [|x l IH]; intros s; cbn [foldA]; [by intros [= <-]|].
  intros [([] & s1 & H1 & H2)|(e & _ & [=])]%act_bind_inv.
  apply act_bind_inv in H1 as [(y & s2 & [dt H1]%change_inv & [= <-])|(e & _ & [=])]. apply sdn_change in H1 as [Hz Hv].
  apply IH in H2 as [Hz2 Hv2]. split; congruence.
Qed.

Lemma last_entry_Some (l : list (string * option string)) (m : gmap string (option string)) k z :
  (∀ v z, (v, z) ∈ l ↔ m !! v = Some z) → m !! k = Some z → last_entry l k = Some z.
Proof.
  intros Hl Hk. unfold last_entry. assert ((k, z) ∈ filter (λ x, x.1 = k) l) as Hin by (apply list_elem_of_filter; split; [done|by apply Hl]).
  destruct (last (filter (λ x, x.1 = k) l)) as [[v z']|] eqn:Elast.
  - apply last_Some in Elast as [l' Heq]. assert ((v, z') ∈ filter (λ x, x.1 = k) l) as [Hv Hz]%list_elem_of_filter by (rewrite Heq; set_solver).
    cbn in Hv. subst v. apply Hl in Hz. cbn. congruence.
  - apply last_None in Elast. rewrite Elast in Hin. by apply not_elem_of_nil in Hin.
Qed.

Lemma destroy_switch_Ok name z (s : Remote pve_request E) s' :
  destroy_switch name s = (Ok (), s') → vnets s !! Pve.vnet_id name = Some (Some z) →
  vnets s' = delete (Pve.vnet_id name) (vnets s) ∧
  ((zones s' = zones s ∧ ∃ v, vnets s' !! v = Some (Some z)) ∨
   (zones s' = zones s ∖ {[ z ]} ∧ ∀ v, vnets s' !! v ≠ Some (Some z))).
Proof.
  unfold destroy_switch. intros [(l & s1 & [[dt H1] _]%get_inv & H)|(e & _ & [=])]%act_bind_inv Hz.
  apply sdn_read_vnets in H1 as (Hl & Hz1 & Hv1). rewrite (last_entry_Some l (vnets s) _ (Some z) Hl Hz) in H.
  apply act_bind_inv in H as [(subs & s2 & [[dt2 H2] _]%get_inv & H)|(e & _ & [=])]. apply sdn_read_subnets in H2 as [Hz2 Hv2].
  apply act_bind_inv in H as [([] & s3 & [Hz3 Hv3]%del_subnets_Ok & H)|(e & _ & [=])].
  apply act_bind_inv in H as [(x & s4 & [dt4 H4]%change_inv & H)|(e & _ & [=])]. apply sdn_change in H4 as [Hz4 Hv4].
  apply act_bind_inv in H as [(rem & s5 & [[dt5 H5] _]%get_inv & H)|(e & _ & [=])]. apply sdn_read_vnets in H5 as (Hr & Hz5 & Hv5).
  apply act_bind_inv in H as [([] & s6 & H6 & [Hz7 Hv7]%apply_sdn_Ok)|(e & _ & [=])].
  assert (vnets s5 = delete (Pve.vnet_id name) (vnets s)) as Hv by congruence.
  case_decide as Hin.
  - injection H6 as <-. split; [congruence|]. left. split; [congruence|]. apply list_elem_of_fmap in Hin as ([v z'] & Heq & Hin).
    cbn [snd] in Heq. subst z'. apply Hr in Hin. exists v. congruence.
  - apply act_bind_inv in H6 as [(y & s8 & [dt6 H6]%change_inv & [= <-])|(e & _ & [=])]. apply sdn_change in H6 as [Hz6 Hv6].
    split; [congruence|]. right. split; [congruence|]. intros v Hv'. apply Hin, list_elem_of_fmap. exists (v, Some z).
    split; [done|]. apply Hr. congruence.
Qed.

(** The vnets of a run on top of what was there. *)
Definition run_vnets (zone : string) (names : list string) (m : gmap string (option string)) : gmap string (option string) :=
  list_to_map ((λ n, (Pve.vnet_id n, Some zone)) <$> names) ∪ m.

Lemma run_vnets_lookup zone names m v :
  run_vnets zone names m !! v = if decide (v ∈ Pve.vnet_id <$> names) then Some (Some zone) else m !! v.
Proof.
  unfold run_vnets. case_decide as Hin.
  - apply lookup_union_Some_l. induction names as [|n names IH]; [by apply not_elem_of_nil in Hin|]. cbn [fmap list_fmap list_to_map foldr] in *.
    destruct (decide (v = Pve.vnet_id n)) as [->|Hne]; [apply lookup_insert_eq|]. rewrite lookup_insert_ne by done.
    apply IH. apply elem_of_cons in Hin as [?|?]; done.
  - apply lookup_union_r. induction names as [|n names IH]; [apply lookup_empty|]. cbn [fmap list_fmap list_to_map foldr] in *.
    apply not_elem_of_cons in Hin as [Hne Hin]. rewrite lookup_insert_ne by done. by apply IH.
Qed.

Definition names_of (l : list (Switch * string * option string)) : list string := (λ x, x.1.2) <$> l.
Definition make_switches (zone : string) (l : list (Switch * string * option string)) : R () :=
  forA (λ x, create_switch_sdn zone x.1.1 x.1.2 x.2;; mret ()) l.
Definition drop_switches (names : list string) : R () := forA destroy_switch names.

Lemma make_switches_Ok zone l (s : Remote pve_request E) s' :
  make_switches zone l s = (Ok (), s') → NoDup (Pve.vnet_id <$> names_of l) →
  (∀ x, x ∈ l → vnets s !! Pve.vnet_id x.1.2 = None) →
  vnets s' = run_vnets zone (names_of l) (vnets s) ∧
  zones s' = if decide (l = []) then zones s else {[ zone ]} ∪ zones s.
Proof.
  unfold make_switches, forA. revert s. induction l as [|[[sw n] res] l IH]; intros s; cbn [foldA names_of fmap list_fmap].
  { intros [= <-] _ _. split; [|done]. apply map_eq. intros v. rewrite run_vnets_lookup. by rewrite decide_False by apply not_elem_of_nil. }
  intros [([] & s1 & H1 & H2)|(e & _ & [=])]%act_bind_inv [Hn Hnd]%NoDup_cons Hnew.
  apply act_bind_inv in H1 as [(y & s2 & H1 & [= <-])|(e & _ & [=])].
  apply create_switch_Ok in H1 as [Hz1 Hv1]; [|apply (Hnew (sw, n, res)); by left]. cbn [fst snd] in *.
  apply IH in H2 as [Hv2 Hz2]; [|done|].
  - split.
    + rewrite Hv2, Hv1. apply map_eq. intros v. rewrite !run_vnets_lookup. cbn [fmap list_fmap].
      destruct (decide (v = Pve.vnet_id n)) as [->|Hne].
      * rewrite decide_False, lookup_insert_eq, decide_True by (done || by left). done.
      * rewrite lookup_insert_ne by done. destruct (decide (v ∈ Pve.vnet_id <$> names_of l)).
        { rewrite decide_True by (by right). done. }
        { rewrite decide_False; [done|]. by apply not_elem_of_cons. }
    + rewrite Hz2, Hz1. case_decide; [done|]. rewrite decide_False by done. set_solver.
  - intros x Hx. rewrite Hv1, lookup_insert_ne; [apply Hnew; by right|]. intros Heq. apply Hn. rewrite Heq.
    apply list_elem_of_fmap. exists x.1.2. split; [done|]. apply list_elem_of_fmap. by exists x.
Qed.

Lemma drop_switches_Ok zone names m (zs : gset string) (s : Remote pve_request E) s' :
  drop_switches names s = (Ok (), s') → NoDup (Pve.vnet_id <$> names) →
  (∀ n, n ∈ names → m !! Pve.vnet_id n = None) → (∀ v, m !! v ≠ Some (Some zone)) → zone ∉ zs →
  vnets s = run_vnets zone names m → zones s = (if decide (names = []) then zs else {[ zone ]} ∪ zs) →
  vnets s' = m ∧ zones s' = zs.
Proof.
  unfold drop_switches, forA. intros H Hnd Hnew Hm Hzs. revert s H. induction names as [|n names IH]; intros s; cbn [foldA].
  { intros [= <-] Hv Hz. rewrite decide_True in Hz by done. split; [|done]. rewrite Hv. apply map_eq. intros v. rewrite run_vnets_lookup.
    by rewrite decide_False by apply not_elem_of_nil. }
  intros [([] & s1 & H1 & H2)|(e & _ & [=])]%act_bind_inv Hv Hz. cbn [fmap list_fmap] in Hnd. apply NoDup_cons in Hnd as [Hn Hnd].
  rewrite decide_False in Hz by done.
  apply (destroy_switch_Ok n zone) in H1 as [Hv1 Hz1]; [|rewrite Hv, run_vnets_lookup; by rewrite decide_True by by left].
  assert (vnets s1 = run_vnets zone names m) as Hv'.
  { rewrite Hv1, Hv. apply map_eq. intros v. rewrite !run_vnets_lookup. destruct (decide (v = Pve.vnet_id n)) as [->|Hne].
    - rewrite lookup_delete_eq, decide_False by done. symmetry. apply Hnew. by left.
    - rewrite lookup_delete_ne by done. rewrite run_vnets_lookup. cbn [fmap list_fmap].
      destruct (decide (v ∈ Pve.vnet_id <$> names)); [by rewrite decide_True by by right|].
      rewrite decide_False; [done|]. by apply not_elem_of_cons. }
  apply IH in H2; [done|done|intros; apply Hnew; by right|done|].
  destruct Hz1 as [[Hz1 [v Hx]]|[Hz1 Hx]]; rewrite Hz1, Hz.
  - rewrite decide_False; [done|]. intros ->. rewrite Hv', run_vnets_lookup, decide_False in Hx by apply not_elem_of_nil. by apply Hm in Hx.
  - rewrite decide_True; [set_solver|]. destruct names as [|n' names]; [done|]. exfalso. apply (Hx (Pve.vnet_id n')).
    rewrite Hv', run_vnets_lookup. by rewrite decide_True by by left.
Qed.

(** C29: a run leaves no fabric behind.  The switches of a run are created in the zone
    minted for it and destroyed newest first, by a driver that need not know the zone;
    when every call succeeded, the zones and the vnets of the cluster are those there
    were before, whatever other zones and vnets it has. *)
Theorem sdn_run_leaves_nothing zone l (s s1 s2 : Remote pve_request E) :
  zone ∉ zones s → (∀ v, vnets s !! v ≠ Some (Some zone)) →
  NoDup (Pve.vnet_id <$> names_of l) → (∀ x, x ∈ l → vnets s !! Pve.vnet_id x.1.2 = None) →
  make_switches zone l s = (Ok (), s1) → drop_switches (reverse (names_of l)) s1 = (Ok (), s2) →
  zones s2 = zones s ∧ vnets s2 = vnets s.
Proof.
  intros Hz Hv Hnd Hnew H1 H2. apply make_switches_Ok in H1 as [Hv1 Hz1]; [|done..].
  apply (drop_switches_Ok zone _ (vnets s) (zones s)) in H2 as [? ?]; [done|..|done|done| |].
  - rewrite fmap_reverse. by rewrite reverse_Permutation.
  - intros n Hn. rewrite elem_of_reverse in Hn. apply list_elem_of_fmap in Hn as (x & -> & Hx). by apply Hnew.
  - rewrite Hv1. apply map_eq. intros v. rewrite !run_vnets_lookup, fmap_reverse. apply decide_ext. by rewrite elem_of_reverse.
  - rewrite Hz1. apply decide_ext. rewrite <-!length_zero_iff_nil, length_reverse. unfold names_of. by rewrite length_fmap.
Qed.
End Sdn.

(** ** What leaves the driver *)
Create HintDb contract.

Section Boundary.
Context {E : Type} {L : PveApi E}.
Set Default Proof Using "Type".
Abbreviation R A := (act (Remote pve_request E) A).

Definition driver_error (e : exn) : bool := isinstance e DriverError.
Definition api_error (e : exn) : bool := is_pve_error (E:=E) e || driver_error e.

(** The control plane raises the exceptions of its libraries. *)
Record api_raises : Prop := {
  ar_vms (e : E) x : (pv_vms e).1.1 = Raise x → api_error x = true;
  ar_content (e : E) x : (pv_content e).1.1 = Raise x → api_error x = true;
  ar_power v (e : E) x : (pv_power v e).1.1 = Raise x → api_error x = true;
  ar_snapshots v (e : E) x : (pv_snapshots v e).1.1 = Raise x → api_error x = true;
  ar_vnets (e : E) x : (pv_vnets e).1.1 = Raise x → api_error x = true;
  ar_subnets v (e : E) x : (pv_subnets v e).1.1 = Raise x → api_error x = true;
  ar_task u t (e : E) x : (pv_task u t e).1.1 = Raise x → api_error x = true;
  ar_change q (e : E) x : (pv_change q e).1.1 = Raise x → api_error x = true;
}.
Hypothesis Hapi : api_raises.

Lemma within_throw {A} c args : api_error (Exn c args) = true → within api_error (throw c args : R A).
Proof. intros H. apply within_lift. by intros e [= <-]. Qed.
Lemma within_throw_when c args t : api_error (Exn c args) = true → within api_error (throw_when t c args : R ()).
Proof. intros H. apply within_lift. unfold raise_if. destruct t; [|done]. by intros e [= <-]. Qed.
Lemma within_forA_api {A} (f : A → R ()) l : (∀ a, within api_error (f a)) → within api_error (forA f l).
Proof.
  intros Hf. unfold forA. induction l as [|a l IH]; [apply within_ret|]. apply within_bind; [apply Hf|intros []; apply IH].
Qed.
Lemma driver_api c args : driver_error (Exn c args) = true → api_error (Exn c args) = true.
Proof. intros H. unfold api_error. by rewrite H, orb_true_r. Qed.
Lemma within_translates {A} (m : R A) : within api_error m → within driver_error (translates m).
Proof.
  intros Hm. eapply within_catch; [exact Hm|intros e _ _; apply within_lift; by intros e' [= <-]|].
  intros e He Hp. unfold api_error in He. by rewrite Hp in He.
Qed.

(** One step of an error contract: the rule for the head of the program. *)
Ltac contract := repeat match goal with
  | |- within _ (mret _) => apply within_ret
  | |- within _ (gets _) => apply within_gets
  | |- within _ (throw _ _) => apply within_throw, driver_api; reflexivity
  | |- within _ (throw_when _ _ _) => apply within_throw_when, driver_api; reflexivity
  | |- within _ (_ ≫= _) => apply within_bind; [|intros ?]
  | |- within _ (retry _ _ _ _) => apply within_retry; [done|]
  | |- within _ (forA _ _) => apply within_forA_api; intros ?
  | |- within _ (rcall _ _) => apply within_call; first
      [exact (ar_vms Hapi)|exact (ar_content Hapi)|exact (ar_power Hapi _)|exact (ar_snapshots Hapi _)
      |exact (ar_vnets Hapi)|exact (ar_subnets Hapi _)|exact (ar_task Hapi _ _)|exact (ar_change Hapi _)]
  | |- within _ (match ?x with _ => _ end) => destruct x
  | |- within _ (if ?x then _ else _) => destruct x
  end.

Lemma within_await t r : within api_error (await_with t r : R ()).
Proof using Hapi. unfold await_with, wait_task, get. contract. Qed.
Lemma within_do_change q : within api_error (do_change q : R ()).
Proof using Hapi. unfold do_change, change, await. contract. apply within_await. Qed.
Lemma within_resolve name : within api_error (resolve_vmid name : R Z).
Proof using Hapi. unfold resolve_vmid, list_vms, get. contract. Qed.
Lemma within_snapshots v : within api_error (snapshot_names v : R _).
Proof using Hapi. unfold snapshot_names, get. contract. Qed.
Lemma within_power name : within api_error (get_vm_power_state name : R _).
Proof using Hapi. unfold get_vm_power_state, get. contract. apply within_resolve. Qed.
Lemma within_stop v : within api_error (catch (do_change (Power v "stop")) is_exception (λ _, mret ()) : R ()).
Proof using Hapi. eapply within_catch; [apply within_do_change|intros; apply within_ret|done]. Qed.

Hint Resolve within_await within_do_change within_resolve within_snapshots within_power within_stop : contract.

Lemma within_lock_retry (m : R ()) : within api_error m → within api_error (lock_retry m).
Proof. intros Hm. by apply within_retry. Qed.

Lemma within_start name : within api_error (start_vm name : R ()).
Proof using Hapi. unfold start_vm. contract; eauto with contract. Qed.
Lemma within_shutdown name timeout : within api_error (shutdown_vm name timeout : R ()).
Proof using Hapi.
  unfold shutdown_vm. contract; [eauto with contract|]. apply within_lock_retry. unfold change. contract. eauto with contract.
Qed.
Lemma within_destroy_vm name : within api_error (destroy_vm name : R ()).
Proof using Hapi. unfold destroy_vm, list_vms, get. contract; eauto with contract. Qed.
Lemma within_destroy_switch name : within api_error (destroy_switch name : R ()).
Proof using Hapi. unfold destroy_switch, apply_sdn, get, change. contract; eauto with contract. Qed.
Lemma within_delete_volume ref : within api_error (delete_volume ref : R ()).
Proof using Hapi. unfold delete_volume, content_volume_exists, delete_content, get. contract; eauto with contract. Qed.
Lemma within_destroy_pool name : within api_error (destroy_pool name : R ()).
Proof using Hapi. unfold destroy_pool, delete_content, get. contract; eauto with contract. Qed.
Lemma within_snapshot_ops name snap mem :
  within api_error (create_snapshot name snap mem : R ()) ∧ within api_error (delete_snapshot name snap : R ()) ∧
  within api_error (restore_snapshot name snap : R ()).
Proof using Hapi.
  unfold create_snapshot, delete_snapshot, restore_snapshot. split_and!; contract; try apply within_lock_retry; eauto with contract.
Qed.

(** What leaves the driver is [DriverError].  If the control plane raises only the
    exceptions of its own libraries, the lifecycle, snapshot and teardown operations
    return or raise [DriverError], which is what teardown and recovery catch; the retries
    and the task waits they contain end. *)
Theorem pve_boundary name snap mem timeout :
  Forall (within driver_error) [
    translates (start_vm name); translates (shutdown_vm name timeout); translates (destroy_vm name);
    translates (create_snapshot name snap mem); translates (delete_snapshot name snap); translates (restore_snapshot name snap);
    translates (delete_volume name); translates (destroy_pool name); translates (destroy_switch name) : R ()].
Proof using Hapi.
  destruct (within_snapshot_ops name snap mem) as (Hc & Hd & Hr).
  repeat apply Forall_cons_2; [..|apply Forall_nil_2]; apply within_translates.
  - exact (within_start name).
  - exact (within_shutdown name timeout).
  - exact (within_destroy_vm name).
  - exact Hc.
  - exact Hd.
  - exact Hr.
  - exact (within_delete_volume name).
  - exact (within_destroy_pool name).
  - exact (within_destroy_switch name).
Qed.
End Boundary.

(** ** A cluster *)
Module PveDemo.

Record cluster : Type := MkCluster {
  c_zones : gset string;
  c_vnets : gmap string (option string);
  c_vms : list (string * Z);
  c_config : gmap string string;
}.

Definition cluster_change (q : pve_request) (e : cluster) : cluster :=
  let sdn zs vs := MkCluster zs vs (c_vms e) (c_config e) in
  match q with
  | PostZone z => sdn ({[ z ]} ∪ c_zones e) (c_vnets e)
  | DelZone z => sdn (c_zones e ∖ {[ z ]}) (c_vnets e)
  | PostVnet v z => sdn (c_zones e) (<[v := Some z]> (c_vnets e))
  | DelVnet v => sdn (c_zones e) (delete v (c_vnets e))
  | _ => e
  end.

#[export] Instance cluster_api : PveApi cluster := {
  pv_vms e := (Ok (c_vms e), e, 1);
  pv_content e := (Ok [], e, 1);
  pv_config _ e := (Ok (c_config e), e, 1);
  pv_nextid e := (Ok 100%Z, e, 1);
  pv_power _ e := (Ok "running", e, 1);
  pv_snapshots _ e := (Ok [], e, 1);
  pv_zones e := (Ok (elements (c_zones e)), e, 1);
  pv_vnets e := (Ok (map_to_list (c_vnets e)), e, 1);
  pv_subnets _ e := (Ok [], e, 1);
  pv_storage_path e := (Ok (Some "/var/lib/vz"), e, 1);
  pv_task _ _ e := (Ok (Some (Some "OK")), e, 1);
  pv_change q e := (Ok (Some "UPID:1"), cluster_change q e, 1);
  pv_open_sftp e := (raise SSHException ["refused"], e, 1);
  pv_makedirs _ e := (Ok (), e, 1);
  pv_sftp_put _ e := (Ok (), e, 1);
  pv_sftp_get _ e := (Ok (), e, 1);
  pv_close_sftp e := (Ok (), e, 1);
  exn_str e := b (default "" (head (exn_args e)));
  is_pve_error e := isinstance e RequestException;
  pve_sleeper _ e := (0, e);
}.

#[export] Instance cluster_sdn : SdnLaws cluster.
Proof.
  refine {| sdn_zones := c_zones; sdn_vnets := c_vnets |}.
  - intros e l e' dt [= <- <- _]. split; [intros z; apply elem_of_elements|done].
  - intros e l e' dt [= <- <- _]. split; [intros v z; apply elem_of_map_to_list|done].
  - by intros v e l e' dt [= <- <- _].
  - by intros u t e st e' dt [= <- <- _].
  - intros q e r e' dt [= <- <- _]. by destruct q.
Defined.

Definition spec : VMSpec := MkVMSpec "web"
  [CPU 2 false; Memory 1024; OSDrive (MkDisk (MkPoolHandle "p") 10); HardDrive (MkDisk (MkPoolHandle "p") 5); HardDrive (MkDisk (MkPoolHandle "p") 7)]
  "bios".
(** A build of that VM: a seed, and two data disks on the given buses. *)
Definition build_of (buses : list string) : VmRequest :=
  MkVmRequest "tr-vm-x-web" spec buses "plan" "local:import/os" (Some "local:iso/seed.iso") ∅ ["r0"; "r1"] None None.

Definition posted : gmap string string := default ∅ (match vm_config "local" (build_of ["scsi"; "virtio"]) with Ok c => Some c | Raise _ => None end).
(** What the cluster reports: the volumes it allocated. *)
Definition reported : gmap string string :=
  <["scsi0" := "local:100/vm-100-disk-0.qcow2,size=10G"]> (<["scsi1" := "local:100/vm-100-disk-1.qcow2,size=5G"]>
    (<["virtio2" := "local:100/vm-100-disk-2.qcow2,size=7G"]> posted)).
Definition demo : Remote pve_request cluster :=
  MkRemote (MkCluster {[ "other" ]} {[ "v0" := Some "other" ]} [("tr-vm-x-db", 90%Z); ("tr-vm-x-web", 100%Z)] reported) 0 [].

Lemma reported_live : live_config posted reported.
Proof.
  assert (∀ bus n v, bus ∈ BUSES → posted !! key bus n = Some v →
    (bus, n) ∈ [("scsi", 0); ("scsi", 1); ("virtio", 2); ("ide", 2)]) as Hslots.
  { intros bus n v Hb Hv. assert (is_Some (posted !! key bus n)) as H by by eexists.
    apply (vm_config_slots "local" (build_of ["scsi"; "virtio"]) posted bus n eq_refl ltac:(repeat constructor; by_decide) Hb) in H.
    destruct H as [H|[(-> & -> & _)|(_ & _ & [? [=]])]]; [|by_decide].
    destruct n as [|[|[|n]]]; cbn in H; simplify_eq; by_decide. }
  split.
  - intros bus n Hb. unfold reported. change "scsi0" with (key "scsi" 0). change "scsi1" with (key "scsi" 1).
    change "virtio2" with (key "virtio" 2). rewrite !is_Some_insert_key by (done || by_decide). split; [|by auto].
    intros [[-> ->]|[[-> ->]|[[-> ->]|H]]]; [by eexists; reflexivity..|done].
  - intros bus n v v' Hb Hv Hv'. specialize (Hslots bus n v Hb Hv).
    repeat (apply elem_of_cons in Hslots as [[= -> ->]|Hslots]); [..|by apply not_elem_of_nil in Hslots];
      vm_compute in Hv, Hv'; injection Hv as <-; injection Hv' as <-; (split; [reflexivity|discriminate]).
Defined.

Lemma not_in_list {A} `{EqDecision A} (x : A) (l : list A) : bool_decide (x ∈ l) = false → x ∉ l.
Proof. apply bool_decide_eq_false_1. Qed.

Lemma pve_download_live_witness :
  ∃ s2, download_from_pool (Pve.compose_volume_ref "local" "tr-pool-x-p" "tr-vm-x-web-data1.qcow2") demo =
    (path ← host_path "local:100/vm-100-disk-2.qcow2"; sftp_get path) s2.
Proof.
  destruct (pve_download_live "local" (build_of ["scsi"; "virtio"]) posted reported "virtio" 2 "tr-pool-x-p" "qcow2"
    (c_vms (rm_ext demo)) 100 (rm_ext demo) (rm_ext demo) 1 1 demo) as (entry & s2 & He & _ & H).
  - reflexivity.
  - repeat constructor; by_decide.
  - exact reported_live.
  - reflexivity.
  - intros v Hv. vm_compute in Hv. injection Hv as <-. reflexivity.
  - repeat constructor.
  - repeat constructor.
  - repeat constructor.
  - apply not_in_list. reflexivity.
  - apply not_in_list. reflexivity.
  - reflexivity.
  - reflexivity.
  - reflexivity.
  - intros i Hi. change (dict_keys (named (c_vms (rm_ext demo)))) with ["tr-vm-x-db"; "tr-vm-x-web"] in Hi.
    repeat (apply elem_of_cons in Hi as [Hi|Hi]); [..|by apply not_elem_of_nil in Hi];
      apply (f_equal (λ s, length (b s))) in Hi; rewrite b_str in Hi; cbn [slot_stem] in Hi; rewrite !length_app in Hi; vm_compute in Hi; lia.
  - exists s2. vm_compute in He. injection He as <-. exact H.
Defined.

Definition lan : Switch := MkSwitch "lan" [] "10.0.0.0/24" None false None.
Definition two : list (Switch * string * option string) := [((lan, "tr-sw-a"), None); ((lan, "tr-sw-b"), None)].
Definition up : Remote pve_request cluster := (make_switches "tr0001" two demo).2.
Definition down : Remote pve_request cluster := (drop_switches (reverse (names_of two)) up).2.

Lemma sdn_run_leaves_nothing_witness :
  sdn_zones (rm_ext down) = sdn_zones (rm_ext demo) ∧ sdn_vnets (rm_ext down) = sdn_vnets (rm_ext demo).
Proof.
  refine (sdn_run_leaves_nothing "tr0001" two demo up down _ _ _ _ _ _).
  - apply (bool_decide_eq_true_1 ("tr0001" ∉ c_zones (rm_ext demo))). vm_compute. reflexivity.
  - intros v Hv. apply elem_of_map_to_list, list_elem_of_In in Hv. vm_compute in Hv. destruct Hv as [Hv|[]]. discriminate Hv.
  - apply (bool_decide_eq_true_1 (NoDup (Pve.vnet_id <$> names_of two))). vm_compute. reflexivity.
  - intros x Hx. apply list_elem_of_In in Hx. destruct Hx as [<-|[<-|[]]]; vm_compute; reflexivity.
  - unfold up. vm_compute. reflexivity.
  - unfold down, up. vm_compute. reflexivity.
Defined.

Lemma cluster_raises : api_raises (E:=cluster).
Proof. split; intros; discriminate. Defined.

Lemma pve_boundary_witness :
  ∃ e, (translates (start_vm "gone") demo).1 = Raise e ∧ driver_error e = true.
Proof.
  destruct (translates (start_vm "gone") demo) as [[x|e] s'] eqn:He; [by vm_compute in He|].
  pose proof (pve_boundary cluster_raises "gone" "" false 0) as H. apply Forall_cons_1 in H as [H _].
  exists e. split; [done|]. exact (proj2 (H _ _ _ He) e eq_refl).
Defined.

(** The second data disk of a build on the [ide] bus gets the slot of the seed: the seed
    replaces it, and the configuration has no such disk. *)
Lemma second_ide_disk_lost cfg :
  vm_config "local" (build_of ["scsi"; "ide"]) = Ok cfg →
  cfg !! "ide2" = Some "local:iso/seed.iso,media=cdrom" ∧ disk_at cfg 2 = None.
Proof. intros [= <-]. vm_compute. done. Qed.

(** A refused SSH connection leaves the upload as the SSH library's exception. *)
Lemma upload_leaks_transport_error : (upload_to_pool "local:import/x" demo).1 = raise SSHException ["refused"].
Proof. vm_compute. reflexivity. Qed.
End PveDemo.
