(* ===== verification/HostTools.v ===== *)
(** * Host programs ([drivers/_diskconvert.py], [builders/base.py], subprocess use)

    Three modules run a program of the host: [qemu-img] for disk formats and [xorriso]
    for installer images.  The files of the host are a map from resolved paths to bytes;
    the programs are a parameter that gets the argument vector and the files.  Local
    file operations succeed and permissions are not modelled.  [materialize_prepared],
    the one place where several workers write the same file, is a step relation over
    every interleaving. *)

From S2P Require Import Prelude Exceptions Eff PyBytes Url Sidecar.
From stdpp Require Import options.

Abbreviation files := (gmap string bytes).
Abbreviation HostAct A := (act (gmap string bytes) A).

(** [subprocess.CompletedProcess], with captured text *)
Record Completed : Type := MkCompleted { returncode : Z; out_text : string; err_text : string }.

Class Host : Type := {
  (** [shutil.which] *)
  which : string → option string;
  (** [subprocess.run(argv)]: it raises when the program cannot be started *)
  run_program : list string → files → res Completed * files;
  (** [tempfile.mkdtemp(prefix=...)]: a directory nothing lies in *)
  mkdtemp : string → files → string;
}.

(** ** Files *)

Definition file_exists (p : string) : HostAct bool := gets (λ w, bool_decide (is_Some (w !! p))).
Definition write_file_at (p : string) (data : bytes) : HostAct () := modify (<[p := data]>).
Definition read_file_at (p : string) : HostAct bytes := λ w,
  (match w !! p with Some data => Ok data | None => raise FileNotFoundError [p] end, w).
(** [unlink(missing_ok=True)] *)
Definition unlink (p : string) : HostAct () := modify (delete p).

(** [Path(d) / name] *)
Definition in_dir (d name : string) : string := d +:+ "/" +:+ name.
Definition below (d p : string) : bool := starts_with (b d ++ [SLASH]) (b p).
Definition rmtree (d : string) : HostAct () := modify (filter (λ kv, below d kv.1 = false)).

(** [with tempfile.TemporaryDirectory(prefix=...) as td: body] *)
Definition with_tempdir {HT : Host} {A} (prefix : string) (body : string → HostAct A) : HostAct A :=
  td ← gets (mkdtemp prefix);
  finally (body td) (rmtree td).

(** [(stream or "").strip()] *)
Definition stripped (t : string) : pystr := strip (decode_replace (b t)).

(** *** What a piece of code may change *)

Definition touches {A} (P : string → Prop) (m : HostAct A) : Prop :=
  ∀ w r w', m w = (r, w') → ∀ p, ¬ P p → w' !! p = w !! p.

Lemma touches_ret {A} P (a : A) : touches P (mret a).
Proof. by intros w r w' [= <- <-]. Qed.
Lemma touches_lift {A} P (r : res A) : touches P (lift r : HostAct A).
Proof. by intros w r' w' [= <- <-]. Qed.
Lemma touches_gets {A} P (f : files → A) : touches P (gets f).
Proof. by intros w r w' [= <- <-]. Qed.
Lemma touches_bind {A B} P (m : HostAct A) (k : A → HostAct B) : touches P m → (∀ a, touches P (k a)) → touches P (m ≫= k).
Proof.
  intros Hm Hk w r w' [(a & w1 & H1 & H2)|(e & H1 & ->)]%act_bind_inv p Hp; [|by eapply Hm].
  rewrite (Hk a _ _ _ H2 p Hp). by eapply Hm.
Qed.
Lemma touches_catch {A} P (m : HostAct A) h k : touches P m → (∀ e, touches P (k e)) → touches P (catch m h k).
Proof.
  intros Hm Hk w r w'. unfold catch. destruct (m w) as [[a|e] w1] eqn:E; [intros [= <- <-]; by eapply Hm|].
  destruct (h e); [|intros [= <- <-]; by eapply Hm]. intros H p Hp. rewrite (Hk e _ _ _ H p Hp). by eapply Hm.
Qed.
Lemma touches_write (P : string → Prop) p data : P p → touches P (write_file_at p data).
Proof. intros HP w r w' [= <- <-] q Hq. rewrite lookup_insert_ne; [done|]. by intros ->. Qed.
Lemma touches_unlink (P : string → Prop) p : P p → touches P (unlink p).
Proof. intros HP w r w' [= <- <-] q Hq. rewrite lookup_delete_ne; [done|]. by intros ->. Qed.
Lemma touches_weaken {A} (P Q : string → Prop) (m : HostAct A) : (∀ p, P p → Q p) → touches P m → touches Q m.
Proof. intros HPQ Hm w r w' H p Hp. eapply Hm; [done|]. auto. Qed.

Lemma rmtree_lookup d (w : files) p : (filter (λ kv, below d kv.1 = false) w : files) !! p = if below d p then None else w !! p.
Proof.
  destruct (below d p) eqn:E.
  - apply map_lookup_filter_None. right. intros x _. cbn. congruence.
  - destruct (w !! p) as [x|] eqn:Hx; [by apply map_lookup_filter_Some|apply map_lookup_filter_None; by left].
Qed.

Lemma below_in_dir d name : below d (in_dir d name) = true.
Proof.
  unfold below, in_dir. apply starts_with_spec. exists (b name).
  change b with chars. rewrite !chars_app. by rewrite <-app_assoc.
Qed.
Lemma in_dir_inj d n1 n2 : in_dir d n1 = in_dir d n2 → n1 = n2.
Proof. unfold in_dir. intros H. apply (inj (String.app "/")), (inj (String.app d)). done. Qed.

Section Tempdir.
Context {HT : Host}.

(** A temporary directory leaves no trace: what is changed outside it is what its body
    changes outside it, and its result is its body's. *)
Lemma with_tempdir_inv {A} prefix (body : string → HostAct A) w r w' :
  with_tempdir prefix body w = (r, w') →
  ∃ w1, body (mkdtemp prefix w) w = (r, w1) ∧ ∀ p, w' !! p = if below (mkdtemp prefix w) p then None else w1 !! p.
Proof.
  unfold with_tempdir. rewrite act_bind_gets. intros (r1 & w1 & H1 & [(H2 & ->)|(e & H2 & _)])%finally_inv; [|discriminate].
  exists w1. split; [done|]. injection H2 as <-. apply rmtree_lookup.
Qed.

Lemma touches_tempdir {A} (P : string → Prop) prefix (body : string → HostAct A) :
  (∀ w p, below (mkdtemp prefix w) p = true → w !! p = None) →
  (∀ td, touches (λ p, P p ∨ below td p = true) (body td)) → touches P (with_tempdir prefix body).
Proof.
  intros Hf Hb w r w' (w1 & H1 & Hw)%with_tempdir_inv p Hp. rewrite Hw. destruct (below _ p) eqn:E; [by rewrite Hf|].
  eapply Hb; [exact H1|]. intros [?|?]; [done|congruence].
Qed.
End Tempdir.

(** [subprocess.run(argv, check=True)] with the two handlers every caller has: a
    non-zero exit and a program that is gone become [err]. *)
Definition run_checked {HT : Host} (err : exc_class) (argv : list string) : HostAct () :=
  r ← catch (run_program argv) (λ e, isinstance e FileNotFoundError) (λ e, throw err (exn_args e));
  throw_when (bool_decide (returncode r ≠ 0%Z)) err [err_text r].

Lemma run_checked_Ok {HT : Host} err argv w w' :
  run_checked err argv w = (Ok (), w') → ∃ r, run_program argv w = (Ok r, w') ∧ returncode r = 0%Z.
Proof.
  unfold run_checked, catch. intros [(r & w1 & H1 & H2)|(e & _ & [=])]%act_bind_inv.
  destruct (run_program argv w) as [[r1|e] w2]; [injection H1 as <- <-|destruct (isinstance e _); discriminate].
  unfold throw_when, lift, raise_if in H2. case_bool_decide as Hz; [discriminate|]. injection H2 as <-. eauto.
Qed.

Lemma run_checked_Raise {HT : Host} err argv w e w' :
  run_checked err argv w = (Raise e, w') → exn_class e = err ∨ run_program argv w = (Raise e, w') ∧ isinstance e FileNotFoundError = false.
Proof.
  unfold run_checked, catch. intros [(r & w1 & _ & H2)|(e1 & H1 & [= <-])]%act_bind_inv.
  - unfold throw_when, lift, raise_if in H2. case_bool_decide; [injection H2 as <- _; by left|discriminate].
  - destruct (run_program argv w) as [[r1|e2] w2]; [discriminate|]. destruct (isinstance e2 _) eqn:Hi.
    + injection H1 as <- _. by left.
    + injection H1 as <- <-. by right.
Qed.

(** ** [drivers/_diskconvert.py] *)

Section DiskConvert.
Context {HT : Host}.

Definition qemu_img_path : option string := which "qemu-img".

Definition require_qemu_img : res string :=
  match qemu_img_path with Some p => mret p | None => raise DriverError ["qemu-img"] end.

Definition qemu_run (argv : list string) : HostAct () := run_checked DriverError argv.

Definition opt_args (o : option string) (f : string → list string) : list string :=
  match o with Some x => f x | None => [] end.

Definition convert_argv (qemu_img src dst out_format : string) (in_format subformat : option string) : list string :=
  [qemu_img; "convert"] ++ opt_args in_format (λ f, ["-f"; f]) ++ ["-O"; out_format] ++
  opt_args subformat (λ s, ["-o"; "subformat=" +:+ s]) ++ [src; dst].

Definition convert (src dst out_format : string) (in_format subformat : option string) : HostAct string :=
  qemu_img ← lift require_qemu_img;
  there ← file_exists src;
  throw_when (negb there) DriverError [src];;
  qemu_run (convert_argv qemu_img src dst out_format in_format subformat);;
  mret dst.

Definition qcow2_to_vmdk (src dst subformat : string) : HostAct string :=
  convert src dst "vmdk" (Some "qcow2") (Some subformat).
Definition vmdk_to_qcow2 (src dst : string) : HostAct string := convert src dst "qcow2" (Some "vmdk") None.
End DiskConvert.

(** What conversion does with a disk.  [disk_of fmt data] is the disk a file holds, read
    in a format; the documented behaviour of [qemu-img convert] is a hypothesis: when it
    exits with success the destination holds, in the output format, the disk the source
    held in the input format, and no other file is written. *)
Section Conversion.
Context {HT : Host} {D : Type} (disk_of : string → bytes → option D).

Definition converts : Prop := ∀ q src dst f g sub w r w',
  which "qemu-img" = Some q → run_program (convert_argv q src dst g (Some f) sub) w = (Ok r, w') → returncode r = 0%Z →
  (∃ data, w' !! dst = Some data ∧ disk_of g data = (w !! src ≫= disk_of f)) ∧ (∀ p, p ≠ dst → w' !! p = w !! p).

Lemma convert_Ok src dst g f sub w d w' :
  converts → convert src dst g (Some f) sub w = (Ok d, w') →
  d = dst ∧ is_Some (w !! src) ∧ (∃ data, w' !! dst = Some data ∧ disk_of g data = (w !! src ≫= disk_of f)) ∧
  (∀ p, p ≠ dst → w' !! p = w !! p).
Proof.
  intros Hc. unfold convert, require_qemu_img, qemu_img_path. destruct (which "qemu-img") as [q|] eqn:Hq; [|discriminate].
  intros [(? & ? & [= <- <-] & H)|(e & He & _)]%act_bind_inv; [|discriminate]. unfold file_exists in H. rewrite act_bind_gets in H.
  case_bool_decide as Hsrc; cbn [negb] in H; [|discriminate].
  apply act_bind_inv in H as [([] & ? & [= <-] & H)|(e & He & _)]; [|discriminate].
  apply act_bind_inv in H as [([] & w1 & Hr & [= <- <-])|(e & He & [=])].
  apply run_checked_Ok in Hr as (r & Hrun & Hz). destruct (Hc _ _ _ _ _ _ _ _ _ Hq Hrun Hz) as [Hd Hp]. done.
Qed.

(** A disk survives the trip to a backend that keeps another format and back: converting
    a qcow2 to a vmdk, in any subformat, and that vmdk back to a third file gives a qcow2
    with the disk of the first, and leaves the first as it was. *)
Theorem vmdk_roundtrip src mid dst sub w w1 w2 x y :
  converts → mid ≠ src → dst ≠ src →
  qcow2_to_vmdk src mid sub w = (Ok x, w1) → vmdk_to_qcow2 mid dst w1 = (Ok y, w2) →
  w2 !! src = w !! src ∧ ∃ data, w2 !! dst = Some data ∧ disk_of "qcow2" data = (w !! src ≫= disk_of "qcow2").
Proof.
  intros Hc Hm Hd H1 H2. apply convert_Ok in H1 as (-> & _ & (d1 & Hd1 & He1) & Hp1); [|done].
  apply convert_Ok in H2 as (-> & _ & (d2 & Hd2 & He2) & Hp2); [|done].
  split; [by rewrite Hp2, Hp1|]. exists d2. split; [done|]. rewrite He2, Hd1. cbn. exact He1.
Qed.
End Conversion.

(** Conversion fails with [DriverError] only, as long as starting the program raises
    nothing of another kind than what the handler takes. *)
Lemma convert_boundary {HT : Host} src dst g f sub w e w' :
  (∀ argv w e, (run_program argv w).1 = Raise e → isinstance e FileNotFoundError = true) →
  convert src dst g f sub w = (Raise e, w') → isinstance e DriverError = true.
Proof.
  intros Hrun. unfold convert, require_qemu_img. destruct qemu_img_path as [q|]; [|by intros [= <- _]].
  intros [(? & ? & [= <- <-] & H1)|(e1 & He & _)]%act_bind_inv; [|discriminate]. unfold file_exists in H1.
  rewrite act_bind_gets in H1. case_bool_decide; cbn [negb] in H1; [|by injection H1 as <- _].
  apply act_bind_inv in H1 as [([] & ? & [= <-] & H1)|(e1 & He & _)]; [|discriminate].
  apply act_bind_inv in H1 as [([] & w1 & _ & [=])|(e1 & Hr & [= <-])].
  apply run_checked_Raise in Hr as [Hr|[Hr Hi]]; [by unfold isinstance; rewrite Hr|].
  rewrite Hrun with (argv := convert_argv q src dst g f sub) (w := w) in Hi; [done|by rewrite Hr].
Qed.

(** ** [materialize_prepared] ([builders/base.py])

    A prepared image is built at a path nobody else has and renamed onto its place. *)

Section Materialize.
Context {HT : Host}.

(** [tmp.replace(dest)] *)
Definition rename (src dst : string) : HostAct () := λ w,
  match w !! src with
  | Some data => (Ok (), <[dst := data]> (delete src w))
  | None => (raise FileNotFoundError [src], w)
  end.

(** [mkdtemp], [try] and [rmtree] in [finally], as [with_tempdir] has them. *)
Definition materialize_prepared (parent name : string) (build : string → HostAct ()) : HostAct () :=
  with_tempdir (in_dir parent ".tr-prep-") (λ tmpdir,
    let tmp := in_dir tmpdir name in
    build tmp;; rename tmp (in_dir parent name)).

(** [if not prepared.exists(): materialize_prepared(...)]; [return prepared] *)
Definition prepare_cached (parent name : string) (build : string → HostAct ()) : HostAct string :=
  there ← file_exists (in_dir parent name);
  act_when (negb there) (materialize_prepared parent name build);;
  mret (in_dir parent name).
End Materialize.

(** *** Every interleaving

    Workers of one build phase that derive the same prepared path.  A file being written
    is [Torn] until the program that writes it is done.  What a worker may find in the
    way of its own steps (no space, a failing [xorriso], an interrupt) is the failing
    branch; [rmtree(ignore_errors=True)] may leave the directory behind. *)
Module Race.

Inductive content : Type :=
  | Torn
  | Whole (data : bytes).

Inductive worker : Type :=
  | Entered
  | Missing                      (** [prepared] did not exist *)
  | Building (tmp : string)      (** inside [build(tmp)] *)
  | Built (tmp : string)
  | Cleaning (tmp : string) (ok : bool)   (** the [finally] *)
  | Returned
  | Failed.

Record world : Type := MkWorld { disk : gmap string content; pool : gmap nat worker }.

Section Steps.
(** The prepared path, and what [build] can produce for it. *)
Variable prepared : string.
Variable good : bytes → Prop.

(** The temporary paths in use. *)
Definition holds (st : worker) (tmp : string) : Prop :=
  match st with Building t | Built t | Cleaning t _ => t = tmp | _ => False end.
Definition in_use (w : world) (tmp : string) : Prop := ∃ i st, pool w !! i = Some st ∧ holds st tmp.

Inductive step : world → world → Prop :=
  | StepHit d p i :
      p !! i = Some Entered → is_Some (d !! prepared) → step (MkWorld d p) (MkWorld d (<[i := Returned]> p))
  | StepMiss d p i :
      p !! i = Some Entered → d !! prepared = None → step (MkWorld d p) (MkWorld d (<[i := Missing]> p))
  | StepTempdir d p i tmp :
      p !! i = Some Missing → tmp ≠ prepared → d !! tmp = None → ¬ in_use (MkWorld d p) tmp →
      step (MkWorld d p) (MkWorld d (<[i := Building tmp]> p))
  | StepNoTempdir d p i :
      p !! i = Some Missing → step (MkWorld d p) (MkWorld d (<[i := Failed]> p))
  | StepWrite d p i tmp :
      p !! i = Some (Building tmp) → step (MkWorld d p) (MkWorld (<[tmp := Torn]> d) p)
  | StepBuilt d p i tmp data :
      p !! i = Some (Building tmp) → good data →
      step (MkWorld d p) (MkWorld (<[tmp := Whole data]> d) (<[i := Built tmp]> p))
  | StepBuildFails d p i tmp :
      p !! i = Some (Building tmp) → step (MkWorld d p) (MkWorld d (<[i := Cleaning tmp false]> p))
  | StepReplace d p i tmp c :
      p !! i = Some (Built tmp) → d !! tmp = Some c →
      step (MkWorld d p) (MkWorld (<[prepared := c]> (delete tmp d)) (<[i := Cleaning tmp true]> p))
  | StepReplaceFails d p i tmp :
      p !! i = Some (Built tmp) → step (MkWorld d p) (MkWorld d (<[i := Cleaning tmp false]> p))
  | StepClean d p i tmp ok d' :
      p !! i = Some (Cleaning tmp ok) → (d' = d ∨ d' = delete tmp d) →
      step (MkWorld d p) (MkWorld d' (<[i := if ok then Returned else Failed]> p)).

Definition whole (w : world) : Prop := ∃ data, disk w !! prepared = Some (Whole data) ∧ good data.

(** A worker that is past its rename, or that found the file. *)
Definition past (st : worker) : bool := match st with Cleaning _ true | Returned => true | _ => false end.

Record inv (w : world) : Prop := {
  inv_prepared : disk w !! prepared = None ∨ whole w;
  inv_private : ∀ i st tmp, pool w !! i = Some st → holds st tmp → tmp ≠ prepared ∧
    ∀ j st', pool w !! j = Some st' → holds st' tmp → j = i;
  inv_built : ∀ i tmp, pool w !! i = Some (Built tmp) → ∃ data, disk w !! tmp = Some (Whole data) ∧ good data;
  inv_past : ∀ i st, pool w !! i = Some st → past st = true → whole w;
}.

Lemma inv_start d n :
  (d !! prepared = None ∨ ∃ data, d !! prepared = Some (Whole data) ∧ good data) → inv (MkWorld d (gset_to_gmap Entered (set_seq 0 n))).
Proof.
  intros Hd. assert (∀ i st, (gset_to_gmap Entered (set_seq 0 n) : gmap nat worker) !! i = Some st → st = Entered) as Hst.
  { intros i st [_ Hst]%lookup_gset_to_gmap_Some. done. }
  split; cbn [disk pool]; [done|..].
  - intros i st tmp ->%Hst. done.
  - intros i tmp [=]%Hst.
  - intros i st ->%Hst. done.
Qed.

(** A step that gives worker [i] the state [st'] and changes at most its own file. *)
Lemma inv_move d p i st st' d' :
  inv (MkWorld d p) → p !! i = Some st →
  (∀ tmp, holds st' tmp → tmp ≠ prepared ∧ (holds st tmp ∨ ¬ in_use (MkWorld d p) tmp)) →
  (d' !! prepared = d !! prepared ∨ whole (MkWorld d' p)) →
  (∀ j tmp, j ≠ i → p !! j = Some (Built tmp) → d' !! tmp = d !! tmp) →
  (∀ tmp, st' = Built tmp → ∃ data, d' !! tmp = Some (Whole data) ∧ good data) →
  (past st' = true → past st = true ∨ whole (MkWorld d' p) ∨ is_Some (d !! prepared)) →
  inv (MkWorld d' (<[i := st']> p)).
Proof.
  intros [Hp Hpr Hb Hpa] Hi Hh Hd' Hf Hb' Hpast.
  assert (whole (MkWorld d p) → whole (MkWorld d' p)) as Hw.
  { intros (data & H1 & H2). destruct Hd' as [Hd'|Hd']; [|done]. exists data. cbn in *. by rewrite Hd'. }
  split; cbn [disk pool] in *.
  - destruct Hd' as [Hd'|Hd']; [|by right]. rewrite Hd'. destruct Hp as [Hp|Hp]; [by left|right; by apply Hw].
  - intros j sj tmp Hj Hs. apply lookup_insert_Some in Hj as [[<- <-]|[Hne Hj]].
    + destruct (Hh tmp Hs) as [Hne Hold]. split; [done|]. intros k sk Hk Hsk.
      apply lookup_insert_Some in Hk as [[<- _]|[Hki Hk]]; [done|]. destruct Hold as [Hold|Hold].
      * by eapply (Hpr _ _ _ Hi Hold).
      * destruct Hold. by exists k, sk.
    + destruct (Hpr _ _ _ Hj Hs) as [Hne' Hun]. split; [done|]. intros k sk Hk Hsk.
      apply lookup_insert_Some in Hk as [[<- <-]|[Hki Hk]]; [|by eapply Hun]. destruct (Hh tmp Hsk) as [_ [Hold|Hold]].
      * by eapply Hun.
      * destruct Hold. by exists j, sj.
  - intros j tmp Hj. apply lookup_insert_Some in Hj as [[<- ->]|[Hne Hj]]; [by apply Hb'|].
    rewrite (Hf j tmp) by done. by eapply Hb.
  - intros j sj Hj Hs. apply lookup_insert_Some in Hj as [[<- <-]|[Hne Hj]]; [|by apply Hw; eapply Hpa].
    destruct (Hpast Hs) as [Ho|[Ho|[c Ho]]]; [by apply Hw; eapply Hpa|done|].
    destruct Hp as [Hp|Hp]; [congruence|by apply Hw].
Qed.

(** Another worker's file is not mine. *)
Lemma inv_other w i st tmp j tmp' :
  inv w → pool w !! i = Some st → holds st tmp → j ≠ i → pool w !! j = Some (Built tmp') → tmp' ≠ tmp.
Proof. intros Hi H1 H2 Hne H3 ->. apply Hne. by eapply (inv_private _ Hi _ _ _ H1 H2). Qed.

Lemma inv_step w w' : inv w → step w w' → inv w'.
Proof.
  intros Hi Hs. destruct Hs as [d p i Hp He|d p i Hp He|d p i tmp Hp Hne Hd Hu|d p i Hp|d p i tmp Hp|d p i tmp data Hp Hg
    |d p i tmp Hp|d p i tmp c Hp Hc|d p i tmp Hp|d p i tmp ok d' Hp Hd'].
  - eapply inv_move; try done; eauto.
  - eapply inv_move; try done; eauto.
  - eapply inv_move; try done; eauto. intros tmp' <-. eauto.
  - eapply inv_move; try done; eauto.
  - rewrite <-(insert_id p i (Building tmp)) by done. destruct (inv_private _ Hi _ _ tmp Hp eq_refl) as [Hne _].
    eapply inv_move; try done; [by intros t <-; split; [|by left]|left; by rewrite lookup_insert_ne|].
    intros j t Hj Ht. rewrite lookup_insert_ne; [done|]. intros <-. by eapply (inv_other _ i).
  - destruct (inv_private _ Hi _ _ tmp Hp eq_refl) as [Hne _].
    eapply inv_move; try done; [by intros t <-; split; [|by left]|left; by rewrite lookup_insert_ne|..].
    + intros j t Hj Ht. rewrite lookup_insert_ne; [done|]. intros <-. by eapply (inv_other _ i).
    + intros t [= <-]. exists data. by rewrite lookup_insert_eq.
  - destruct (inv_private _ Hi _ _ tmp Hp eq_refl) as [Hne _]. eapply inv_move; try done; eauto. intros t <-. split; [done|by left].
  - destruct (inv_private _ Hi _ _ tmp Hp eq_refl) as [Hne _]. destruct (inv_built _ Hi i tmp Hp) as (data & Hd & Hg).
    assert (whole (MkWorld (<[prepared:=c]> (delete tmp d)) p)) as Hw.
    { exists data. cbn in *. rewrite lookup_insert_eq. split; [congruence|done]. }
    eapply inv_move; try done; eauto; [by intros t <-; split; [|by left]|].
    intros j t Hj Ht. destruct (inv_private _ Hi _ _ t Ht eq_refl) as [Hnt _].
    rewrite lookup_insert_ne by done. rewrite lookup_delete_ne; [done|]. intros <-. by eapply (inv_other _ i).
  - destruct (inv_private _ Hi _ _ tmp Hp eq_refl) as [Hne _]. eapply inv_move; try done; eauto. intros t <-. split; [done|by left].
  - destruct (inv_private _ Hi _ _ tmp Hp eq_refl) as [Hne _].
    assert (∀ t, t ≠ tmp → d' !! t = d !! t) as Hd by (intros t Ht; destruct Hd' as [->| ->]; [done|by rewrite lookup_delete_ne]).
    eapply inv_move; try done; [by destruct ok|left; by apply Hd| |by destruct ok|by destruct ok; auto].
    intros j t Hj Ht. apply Hd. intros ->. by eapply (inv_other _ i).
Qed.

Lemma inv_steps w w' : inv w → rtc step w w' → inv w'.
Proof. intros Hi. induction 1; eauto using inv_step. Qed.

(** A prepared image that is there stays. *)
Lemma whole_step w w' : inv w → step w w' → whole w → whole w'.
Proof.
  intros Hi Hs Hw. pose proof (inv_step _ _ Hi Hs) as Hi'. destruct (inv_prepared _ Hi') as [Hn|]; [|done]. exfalso.
  destruct Hw as (data & Hd & _). cbn in Hd.
  destruct Hs as [| | | |d p i tmp Hp|d p i tmp data' Hp Hg| |d p i tmp c Hp Hc| |d p i tmp ok d' Hp Hd']; cbn in *; try congruence.
  - destruct (inv_private _ Hi _ _ tmp Hp eq_refl) as [Hne _]. rewrite lookup_insert_ne in Hn by done. congruence.
  - destruct (inv_private _ Hi _ _ tmp Hp eq_refl) as [Hne _]. rewrite lookup_insert_ne in Hn by done. congruence.
  - by rewrite lookup_insert_eq in Hn.
  - destruct (inv_private _ Hi _ _ tmp Hp eq_refl) as [Hne _].
    destruct Hd' as [->| ->]; [congruence|]. rewrite lookup_delete_ne in Hn by done. congruence.
Qed.

(** C31: preparing an installer image is safe among any number of workers.  From a disk on
    which the prepared path is absent or holds a whole image, in every interleaving of
    the workers and wherever builds fail, the path is absent or holds a whole image at
    every moment; once it is there it stays; and it is there as soon as one worker has
    returned. *)
Theorem prepared_never_torn d n w w' :
  (d !! prepared = None ∨ ∃ data, d !! prepared = Some (Whole data) ∧ good data) →
  rtc step (MkWorld d (gset_to_gmap Entered (set_seq 0 n))) w → rtc step w w' →
  (disk w !! prepared = None ∨ whole w) ∧ (whole w → whole w') ∧ ((∃ i, pool w !! i = Some Returned) → whole w).
Proof.
  intros Hd%(inv_start _ n) Hw Hw'. pose proof (inv_steps _ _ Hd Hw) as Hi. split_and!.
  - apply (inv_prepared _ Hi).
  - clear Hw Hd. induction Hw' as [|x y z Hxy _ IH]; [done|]. intros Hx. apply IH; [by eapply inv_step|by eapply whole_step].
  - intros [i Hr]. by eapply (inv_past _ Hi).
Qed.
End Steps.
End Race.

(** ** Instances *)
Module HostDemo.

(** A [qemu-img] that writes the format in front of the disk. *)
Definition demo_disk (fmt : string) (data : bytes) : option bytes :=
  if starts_with (b fmt ++ [COLON]) data then Some (drop (length (b fmt ++ [COLON])) data) else None.
Definition demo_qemu : Host := {|
  which := λ _, Some "/usr/bin/qemu-img";
  run_program := λ argv w,
    match argv with
    | _ :: _ :: _ :: f :: _ :: g :: rest =>
        match (match rest with [src; dst] => Some (src, dst) | [_; _; src; dst] => Some (src, dst) | _ => None end) with
        | Some (src, dst) =>
            match w !! src with
            | Some data => match demo_disk f data with
                | Some d => (Ok (MkCompleted 0 "" ""), <[dst := b g ++ [COLON] ++ d]> w)
                | None => (Ok (MkCompleted 1 "" "bad image"), w)
                end
            | None => (Ok (MkCompleted 1 "" "no such file"), w)
            end
        | None => (Ok (MkCompleted 1 "" "usage"), w)
        end
    | _ => (Ok (MkCompleted 1 "" "usage"), w)
    end;
  mkdtemp := λ prefix _, prefix;
|}.

Lemma demo_converts : @converts demo_qemu bytes demo_disk.
Proof.
  intros q src dst f g sub w r w' _ H Hz.
  assert (∃ d, w !! src ≫= demo_disk f = Some d ∧ w' = <[dst := b g ++ [COLON] ++ d]> w) as (d & Hd & ->).
  { destruct sub; cbn in H; destruct (w !! src) as [data|]; cbn; try (by injection H as <- <-);
      destruct (demo_disk f data) as [d|]; try (by injection H as <- <-); injection H as <- <-; eauto. }
  split; [|by intros p Hp; rewrite lookup_insert_ne]. eexists. rewrite lookup_insert_eq. split; [done|]. rewrite Hd.
  unfold demo_disk. rewrite app_assoc. assert (starts_with (b g ++ [COLON]) ((b g ++ [COLON]) ++ d) = true) as ->
    by (apply starts_with_spec; by eexists). by rewrite drop_app_length.
Qed.

Lemma vmdk_roundtrip_witness :
  let w : files := {[ "/c/a.qcow2" := b "qcow2:disk" ]} in
  let w1 := (@qcow2_to_vmdk demo_qemu "/c/a.qcow2" "/t/a.vmdk" "streamOptimized" w).2 in
  let w2 := (@vmdk_to_qcow2 demo_qemu "/t/a.vmdk" "/c/b.qcow2" w1).2 in
  w2 !! "/c/a.qcow2" = Some (b "qcow2:disk") ∧ ∃ data, w2 !! "/c/b.qcow2" = Some data ∧ demo_disk "qcow2" data = Some (b "disk").
Proof.
  intros w w1 w2.
  destruct (@vmdk_roundtrip demo_qemu bytes demo_disk "/c/a.qcow2" "/t/a.vmdk" "/c/b.qcow2" "streamOptimized" w w1 w2 "/t/a.vmdk" "/c/b.qcow2")
    as [H1 H2]; [apply demo_converts|done|done|vm_compute; reflexivity|vm_compute; reflexivity|]. split; [exact H1|exact H2].
Defined.

(** Two workers miss; one finishes while the other is writing. *)
Definition P : string := "/c/x.iso".
Definition start : Race.world := Race.MkWorld ∅ (gset_to_gmap Race.Entered (set_seq 0 2)).
Definition half_way : Race.world :=
  Race.MkWorld (<[P := Race.Whole (b "iso")]> (<["/c/t1" := Race.Torn]> ∅))
    (<[0 := Race.Returned]> (<[1 := Race.Building "/c/t1"]> ∅)).

Lemma demo_race : rtc (Race.step P (λ d, d = b "iso")) start half_way.
Proof.
  assert (start = Race.MkWorld ∅ {[ 0 := Race.Entered; 1 := Race.Entered ]}) as -> by (vm_compute; reflexivity).
  eapply rtc_l; [apply (Race.StepMiss _ _ _ _ 0); [vm_compute; reflexivity..]|].
  eapply rtc_l; [apply (Race.StepMiss _ _ _ _ 1); [vm_compute; reflexivity..]|].
  eapply rtc_l; [apply (Race.StepTempdir _ _ _ _ 0 "/c/t0"); [vm_compute; reflexivity|done|done|]|].
  { intros (i & st & Hi & Hh). cbn in Hi. repeat (apply lookup_insert_Some in Hi as [[_ <-]|[_ Hi]]; [done|]). by apply lookup_singleton_Some in Hi as [_ <-]. }
  eapply rtc_l; [apply (Race.StepTempdir _ _ _ _ 1 "/c/t1"); [vm_compute; reflexivity|done|done|]|].
  { intros (i & st & Hi & Hh). cbn in Hi. repeat (apply lookup_insert_Some in Hi as [[_ <-]|[_ Hi]]; [done|]). by apply lookup_singleton_Some in Hi as [_ <-]. }
  eapply rtc_l; [apply (Race.StepBuilt _ _ _ _ 0 "/c/t0" (b "iso")); [vm_compute; reflexivity|done]|].
  eapply rtc_l; [apply (Race.StepReplace _ _ _ _ 0 "/c/t0" (Race.Whole (b "iso"))); [vm_compute; reflexivity..]|].
  eapply rtc_l; [apply (Race.StepWrite _ _ _ _ 1 "/c/t1"); vm_compute; reflexivity|].
  eapply rtc_l; [eapply (Race.StepClean _ _ _ _ 0 "/c/t0" true); [vm_compute; reflexivity|by left]|].
  apply (eq_rect _ (λ w, rtc _ w half_way) (rtc_refl _ half_way)). vm_compute. reflexivity.
Qed.

Lemma prepared_never_torn_witness : Race.whole P (λ d, d = b "iso") half_way.
Proof.
  apply (Race.prepared_never_torn P (λ d, d = b "iso") ∅ 2 half_way half_way); [by left|exact demo_race|apply rtc_refl|].
  exists 0. vm_compute. reflexivity.
Defined.
End HostDemo.
