(* ===== verification/Installer.v ===== *)
(** * The installer builders ([builders/proxmox.py], [builders/esxi.py] and their
      [_prepare] modules)

    Both builders install a hypervisor unattended on a blank disk.  The Proxmox builder
    renders [answer.toml] into a seed image and a first-boot script into the boot image;
    the ESXi builder renders [ks.cfg] and patches the boot configurations of the image.
    Texts that only pass through are their UTF-8 bytes; the two files that are edited line
    by line are code points, decoded and encoded as the code does it. *)

From S2P Require Import Prelude Exceptions Eff PyBytes BuildResult Sha256 CacheNames Ledger Ipv4 Devices Validate.
From S2P Require Import Sidecar Url Shell Conn Naming Creds CloudInit Remote Ssh HostTools.
From stdpp Require Import options.

(** ** [str.replace] *)

(** Every occurrence from the left; [skip] characters belong to the one just replaced. *)
Fixpoint replace_from {A} `{EqDecision A} (p r : list A) (skip : nat) (s : list A) : list A :=
  match s with
  | [] => []
  | c :: s' =>
      match skip with
      | S k => replace_from p r k s'
      | 0 => if starts_with p s then r ++ replace_from p r (length p - 1) s' else c :: replace_from p r 0 s'
      end
  end.
Definition replace {A} `{EqDecision A} (p r s : list A) : list A := replace_from p r 0 s.

(** ** Encoding *)

(** [s.encode("utf-8")] of scalar values *)
Definition utf8_char (c : N) : bytes :=
  ascii_of_N <$>
  (if (c <? 128)%N then [c]
   else if (c <? 2048)%N then [192 + c / 64; 128 + c mod 64]
   else if (c <? 65536)%N then [224 + c / 4096; 128 + c / 64 mod 64; 128 + c mod 64]
   else [240 + c / 262144; 128 + c / 4096 mod 64; 128 + c / 64 mod 64; 128 + c mod 64])%N.
Definition utf8 (s : pystr) : bytes := concat (utf8_char <$> s).

(** [read_text()]: a strict decode, which a file passes when decoding with replacement
    lost nothing, and universal newlines. *)
Fixpoint universal_newlines (s : pystr) : pystr :=
  match s with
  | [] => []
  | 13%N :: ((10%N :: s') as _) => 10%N :: universal_newlines s'
  | 13%N :: s => 10%N :: universal_newlines s
  | c :: s => c :: universal_newlines s
  end.
Definition decode_text (data : bytes) : res pystr :=
  let s := decode_replace data in
  raise_when (bool_decide (utf8 s ≠ data)) ValueError ["utf-8"];;
  mret (universal_newlines s).

Definition join_str (sep : pystr) (ls : list pystr) : pystr :=
  match ls with [] => [] | l :: ls => l ++ concat ((λ x, sep ++ x) <$> ls) end.
Definition lstrip (s : pystr) : pystr := drop_while is_space s.
Definition rstrip (s : pystr) : pystr := reverse (drop_while is_space (reverse s)).

(** ** TOML strings *)

Definition BSLASH : ascii := chr 92.
Definition TAB : ascii := chr 9.
Definition CR : ascii := chr 13.
Definition DEL : ascii := chr 127.

Definition lower_hex (n : nat) : ascii := ascii_of_nat (if n <? 10 then 48 + n else 87 + n).
(** [f"\\u{ord(c):04x}"] of a byte *)
Definition u_escape (c : ascii) : text :=
  let n := nat_of_ascii c in b "\u00" ++ [lower_hex (n / 16); lower_hex (n mod 16)].

(** [_toml_str] *)
Definition toml_str (value : text) : text :=
  let escaped := replace [DQUOTE] (b "\" ++ dq) (replace [BSLASH] (b "\\") value) in
  let escaped := replace [TAB] (b "\t") (replace [CR] (b "\r") (replace [LF] (b "\n") escaped)) in
  let escaped := concat ((λ c, if (32 <=? nat_of_ascii c) && bool_decide (c ≠ DEL) then [c] else u_escape c) <$> escaped) in
  dq ++ escaped ++ dq.

(** ** [ProxmoxAnswerBuilder] *)

Record ProxmoxAnswerBuilder : Type := MkAnswer {
  pa_installer_iso : string;
  pa_credentials : list PosixCred;
  pa_packages : list Package;
  pa_post_install_commands : list string;
  pa_country : string;
  pa_keyboard : string;
  pa_timezone : string;
  pa_fqdn_domain : string;
  pa_mailto : string;
  pa_filesystem : string;
  pa_disk_device : string;
  pa_partition_label : string;
  pa_network_interface : string;
  pa_apt_insecure : bool;
}.

(** [_root_credential], of the two builders *)
Fixpoint root_credential (creds : list PosixCred) : res PosixCred :=
  match creds with
  | [] => raise ValueError ["no root credential"]
  | c :: creds => if decide (cr_username c = "root") then mret c else root_credential creds
  end.

(** [__init__] with [_validate_init_params]; every credential is a [PosixCred] and every
    package an [Apt] or a [Pip] by type. *)
Definition new_answer_builder (bd : ProxmoxAnswerBuilder) : res ProxmoxAnswerBuilder :=
  root ← root_credential (pa_credentials bd);
  raise_when (negb (has_password root)) ValueError ["password"];;
  raise_when (bool_decide ("" ∈ pa_post_install_commands bd)) ValueError ["post_install_commands"];;
  raise_when (bool_decide (duplicates (cr_username <$> pa_credentials bd) ≠ ∅)) ValueError ["credentials"];;
  mret bd.

(** The authorized keys of every credential, in order *)
Definition ssh_key_lines (creds : list PosixCred) : list text :=
  omap (λ c, b ∘ auth_line <$> cr_ssh_key c) creds.

(** What the network block says: [None] is the lease of the installer. *)
Record static_network : Type := MkStatic { sn_cidr : string; sn_gateway : option string; sn_dns : option string }.

Definition network_facts (s : VMSpec) (addressing : gmap string NetworkAddressing) : res (option static_network) :=
  match nics s with
  | n :: _ =>
      match n_addr n with
      | Some (Static a) =>
          let sub := addressing !! nh_name (n_network n) in
          cidr ← static_cidr a (na_prefix_len <$> sub);
          let gateway := match gw a with Some g => Some g | None => sub ≫= na_gateway end in
          let server := match dns a with d :: _ => Some d | [] => sub ≫= na_dns_server end in
          mret (Some (MkStatic cidr gateway server))
      | _ => mret None
      end
  | [] => mret None
  end.

(** [f"{key} = {_toml_str(value)}"] *)
Definition kv (key : string) (value : text) : text := b key ++ b " = " ++ toml_str value.
Definition kv_opt (key : string) (value : option string) : list text :=
  match value with Some v => [kv key (b v)] | None => [] end.

(** [_network_block] *)
Definition network_lines (bd : ProxmoxAnswerBuilder) (facts : option static_network) : list text :=
  match facts with
  | None => [b "source = " ++ dq ++ b "from-dhcp" ++ dq]
  | Some n =>
      [b "source = " ++ dq ++ b "from-answer" ++ dq; kv "cidr" (b (sn_cidr n))] ++
      kv_opt "gateway" (sn_gateway n) ++ kv_opt "dns" (sn_dns n) ++
      [kv "filter.ID_NET_NAME" (b (pa_network_interface bd))]
  end.
Definition network_block (bd : ProxmoxAnswerBuilder) (s : VMSpec) (addressing : gmap string NetworkAddressing) : res (list text) :=
  facts ← network_facts s addressing;
  mret (network_lines bd facts).

Definition COMMA_SPACE : text := b ", ".
Definition join_text (sep : text) (ls : list text) : text :=
  match ls with [] => [] | l :: ls => l ++ concat ((λ x, sep ++ x) <$> ls) end.
Definition toml_array (vs : list text) : text := b "[" ++ join_text COMMA_SPACE (toml_str <$> vs) ++ b "]".

(** The lines of [build_answer_toml] *)
Definition answer_lines (bd : ProxmoxAnswerBuilder) (s : VMSpec) (root_password : text) (net : list text) : list text :=
  let ssh_keys := ssh_key_lines (pa_credentials bd) in
  [b "[global]"; kv "country" (b (pa_country bd)); kv "keyboard" (b (pa_keyboard bd)); kv "timezone" (b (pa_timezone bd));
   kv "fqdn" (b (vs_name s) ++ b "." ++ b (pa_fqdn_domain bd)); kv "mailto" (b (pa_mailto bd));
   kv "root-password" root_password] ++
  (if decide (ssh_keys = []) then [] else [b "root-ssh-keys = " ++ toml_array ssh_keys]) ++
  [[]; b "[network]"] ++ net ++
  [[]; b "[disk-setup]"; kv "filesystem" (b (pa_filesystem bd)); b "disk-list = " ++ toml_array [b (pa_disk_device bd)];
   []; b "[first-boot]"; b "source = " ++ dq ++ b "from-iso" ++ dq; b "ordering = " ++ dq ++ b "network-online" ++ dq].

(** [build_answer_toml] *)
Definition build_answer_toml (bd : ProxmoxAnswerBuilder) (s : VMSpec) (addressing : gmap string NetworkAddressing) : res text :=
  root ← root_credential (pa_credentials bd);
  net ← network_block bd s addressing;
  mret (lines (answer_lines bd s (b (default "" (cr_password root))) net) ++ [LF]).

(** *** The first-boot script *)

Definition FIRST_BOOT_LOG : text := b "/var/log/testrange-first-boot.log".
Definition quoted (s : string) : text := dq ++ b s ++ dq.

Definition FIRST_BOOT_PROLOGUE : text := lines [
  b "#!/bin/bash";
  b "exec > >(tee -a " ++ FIRST_BOOT_LOG ++ b ") 2>&1";
  b "__tr_serial=" ++ SERIAL_DEVICE;
  b "__tr_emit_fail() {";
  b "    __tr_rc=$?";
  b "    __tr_cmd=$BASH_COMMAND";
  b "    {";
  b "        printf 'TESTRANGE-RESULT: fail rc=%s cmd=" ++ quoted "%s" ++ b "\n' " ++ quoted "$__tr_rc" ++ b " " ++ quoted "$__tr_cmd";
  b "        printf 'TESTRANGE-LOG-BEGIN\n'";
  b "        tail -c " ++ str_nat FAIL_LOG_TAIL_BYTES ++ b " " ++ FIRST_BOOT_LOG ++ b " 2>/dev/null | base64";
  b "        printf 'TESTRANGE-LOG-END\n'";
  b "    } > " ++ quoted "$__tr_serial" ++ b " 2>/dev/null";
  b "    poweroff -f";
  b "}";
  b "trap __tr_emit_fail ERR";
  b "set -eE"].

(** [_network_flip] *)
Definition network_flip (nic : text) : text := lines [
  b "NIC=" ++ dq ++ nic ++ dq;
  b "BR=" ++ quoted "vmbr0";
  b "ip addr flush dev " ++ quoted "$BR" ++ b " 2>/dev/null || true";
  b "ip addr flush dev " ++ quoted "$NIC" ++ b " 2>/dev/null || true";
  b "ip route flush dev " ++ quoted "$BR" ++ b " 2>/dev/null || true";
  b "while ip route show default 2>/dev/null | grep -q .; do";
  b "  ip route del default 2>/dev/null || break";
  b "done";
  b "ip link set " ++ quoted "$NIC" ++ b " up";
  b "ip link set " ++ quoted "$BR" ++ b " up";
  b "dhclient -1 -v " ++ quoted "$BR"].

(** [_pin_mgmt_nic] *)
Definition pin_mgmt_nic (nic : text) : text := lines [
  b "mkdir -p /etc/systemd/network";
  b "cat >/etc/systemd/network/10-testrange-mgmt.link <<'EOF'";
  b "[Match]";
  b "Driver=virtio_net";
  [];
  b "[Link]";
  b "Name=" ++ nic;
  b "EOF"].

Definition REPO_SWAP : text := lines [
  b "rm -f /etc/apt/sources.list.d/pve-enterprise.list \";
  b "      /etc/apt/sources.list.d/pve-enterprise.sources \";
  b "      /etc/apt/sources.list.d/ceph.list \";
  b "      /etc/apt/sources.list.d/ceph.sources";
  b "codename=" ++ dq ++ b "$(. /etc/os-release && echo " ++ quoted "$VERSION_CODENAME" ++ b ")" ++ dq;
  b "echo " ++ quoted "deb http://download.proxmox.com/debian/pve $codename pve-no-subscription" ++ b " \";
  b "  > /etc/apt/sources.list.d/pve-no-subscription.list";
  b "export DEBIAN_FRONTEND=noninteractive"].

Definition APT_INSECURE_CONF : text := b "/etc/apt/apt.conf.d/99-testrange-insecure".
Definition APT_INSECURE : text := lines [
  b "mkdir -p /etc/apt/apt.conf.d";
  b "cat >" ++ APT_INSECURE_CONF ++ b " <<'EOF'";
  b "Acquire::https::Verify-Peer " ++ quoted "false" ++ b ";";
  b "Acquire::https::Verify-Host " ++ quoted "false" ++ b ";";
  b "EOF"].

Definition PVE_FIRSTBOOT_SENTINEL : text := b "/var/lib/proxmox-first-boot/pending-first-boot-setup".
Definition FIRST_BOOT_FOOTER : text := lines [
  b "rm -f " ++ PVE_FIRSTBOOT_SENTINEL;
  b "sync";
  b "printf 'TESTRANGE-RESULT: ok\n' > " ++ SERIAL_DEVICE ++ b " 2>/dev/null";
  b "systemctl poweroff"].

(** [_first_boot_script]; [_pip_install_lines] is the function of the cloud-init builder,
    word for word. *)
Definition first_boot_script (bd : ProxmoxAnswerBuilder) : text :=
  let apt_pkgs := b ∘ package_name <$> filter (λ p, is_apt p = true) (pa_packages bd) in
  let pips := omap (λ p, match p with Pip n i => Some (b n, i) | Apt _ => None end) (pa_packages bd) in
  lines (
    [FIRST_BOOT_PROLOGUE; network_flip (b (pa_network_interface bd)); pin_mgmt_nic (b (pa_network_interface bd)); REPO_SWAP] ++
    (if pa_apt_insecure bd then [APT_INSECURE] else []) ++
    [b "apt-get update"] ++
    (if decide (apt_pkgs = []) then [] else [apt_install_line apt_pkgs]) ++
    pip_install_lines pips ++ (b <$> pa_post_install_commands bd) ++
    (if pa_apt_insecure bd then [b "rm -f " ++ APT_INSECURE_CONF] else []) ++
    [FIRST_BOOT_FOOTER]) ++ [LF].

Definition first_boot_digest (bd : ProxmoxAnswerBuilder) : text := sha256_chars (first_boot_script bd).

(** *** The key of the installed disk *)

Definition SEP : text := LF :: MARKER ++ [LF].

Definition answer_hash_input (bd : ProxmoxAnswerBuilder) (s : VMSpec) (addressing : gmap string NetworkAddressing)
    (base_sha sidecar_sha : string) : res text :=
  root ← root_credential (pa_credentials bd);
  net ← network_block bd s addressing;
  os ← os_drive s;
  let settings := join_with PIPE (b <$> [pa_country bd; pa_keyboard bd; pa_timezone bd; pa_fqdn_domain bd; pa_mailto bd]) in
  mret (b "settings:" ++ settings ++ SEP ++ b "fqdn:" ++ b (vs_name s) ++ b "." ++ b (pa_fqdn_domain bd) ++ SEP ++
    b "root-password:" ++ b (default "" (cr_password root)) ++ SEP ++
    b "ssh-keys:" ++ join_with PIPE (ssh_key_lines (pa_credentials bd)) ++ SEP ++
    b "network:" ++ [LF] ++ lines net ++ SEP ++
    b "disks:" ++ b (pa_filesystem bd) ++ b ":" ++ b (pa_disk_device bd) ++ b ":" ++ str_int (d_size_gb os) ++ SEP ++
    b "first-boot:" ++ take 24 (first_boot_digest bd) ++ SEP ++
    b "base:" ++ b base_sha ++ SEP ++ b "sidecar:" ++ b sidecar_sha).

Definition answer_config_hash (bd : ProxmoxAnswerBuilder) (s : VMSpec) (addressing : gmap string NetworkAddressing)
    (base_sha sidecar_sha : string) : res string :=
  t ← answer_hash_input bd s addressing base_sha sidecar_sha;
  mret (str (take 16 (sha256_chars t))).

(** The image writer is the parameter of [CloudInit]. *)
Definition answer_render_seed (iso_image : string → list (string * string * string * bytes) → bytes)
    (bd : ProxmoxAnswerBuilder) (s : VMSpec) (addressing : gmap string NetworkAddressing) : res bytes :=
  answer ← build_answer_toml bd s addressing;
  mret (iso_image (pa_partition_label bd) [("/ANSWER.;1", "", "/answer.toml", answer)]).

(** [wait_ready], of the two builders: [execute] is injected. *)
Definition installer_wait_ready {W} (execute : list text → Z → act W ExecResult) : act W () :=
  r ← execute [b "true"] 300000%Z;
  throw_when (bool_decide (exit_code r ≠ 0%Z)) BuildNotReadyError ["SSH"].

(** ** [_proxmox_prepare.py] *)

Definition auto_installer_mode_toml (label : text) : text :=
  b "mode = " ++ quoted "partition" ++ [LF] ++ b "partition_label = " ++ dq ++ label ++ dq ++ [LF].
Definition PREPARE_ISO_RECIPE : text := b "grub-serial-console-v1".
Definition GRUB_TOKEN : pystr := u "proxmox-start-auto-installer".
Definition GRUB_CFG_ISO_PATH : string := "/boot/grub/grub.cfg".

Definition is_auto_entry (line : pystr) : bool := contains_sub GRUB_TOKEN line && starts_with (u "linux") (lstrip line).
Definition with_console (line : pystr) : pystr :=
  if contains_sub (u "console=ttyS0") line then line
  else rstrip (replace (u "splash=silent") (u "splash=verbose") (replace (u " quiet ") (u " ") line)) ++ u " console=ttyS0,115200".

(** The loop: the lines so far and [patched]. *)
Definition grub_step (acc : list pystr * bool) (line : pystr) : list pystr * bool :=
  if is_auto_entry line then (acc.1 ++ [with_console line], true) else (acc.1 ++ [line], acc.2).
Definition grub_with_serial_console (grub_cfg : pystr) : res pystr :=
  let '(out, patched) := foldl grub_step ([], false) (splitlines grub_cfg) in
  raise_when (negb patched) ProxmoxPrepareError [GRUB_CFG_ISO_PATH];;
  mret (join_str [10%N] out ++ [10%N]).

Definition extract_argv (xorriso iso path dest : string) : list string :=
  [xorriso; "-osirrox"; "on"; "-indev"; iso; "-extract"; path; dest].

Section Prepare.
Context {HT : Host}.

Definition extract_grub_cfg (xorriso iso dest : string) : HostAct bool :=
  _ ← run_program (extract_argv xorriso iso GRUB_CFG_ISO_PATH dest);
  file_exists dest.

Definition pve_commit_argv (xorriso vanilla out mode_toml first_boot : string) (grub_map : list string) : list string :=
  [xorriso; "-return_with"; "FAILURE"; "32"; "-indev"; vanilla; "-outdev"; out; "-boot_image"; "any"; "keep";
   "-overwrite"; "on"; "-map"; mode_toml; "/auto-installer-mode.toml"; "-map"; first_boot; "/proxmox-first-boot"] ++
  grub_map ++ ["-commit"].

(** [prepare_iso] *)
Definition pve_prepare_iso (vanilla out : string) (partition_label first_boot_script : text) : HostAct () :=
  match which "xorriso" with
  | None => throw ProxmoxPrepareError ["xorriso"]
  | Some xorriso =>
      unlink out;;
      with_tempdir "testrange-pve-prep-" (λ td,
        let mode_toml := in_dir td "auto-installer-mode.toml" in
        write_file_at mode_toml (auto_installer_mode_toml partition_label);;
        let first_boot := in_dir td "proxmox-first-boot" in
        write_file_at first_boot first_boot_script;;
        let grub_src := in_dir td "grub-orig.cfg" in
        let grub_out := in_dir td "grub.cfg" in
        found ← extract_grub_cfg xorriso vanilla grub_src;
        grub_map ← (if (found : bool) then
            data ← read_file_at grub_src;
            cfg ← lift (decode_text data ≫= grub_with_serial_console);
            write_file_at grub_out (utf8 cfg);;
            mret ["-map"; grub_out; GRUB_CFG_ISO_PATH]
          else mret [] : HostAct (list string));
        run_checked ProxmoxPrepareError (pve_commit_argv xorriso vanilla out mode_toml first_boot grub_map))
  end.

(** The name beside the vanilla image; [stem] is [media_path.stem]. *)
Definition pve_prepared_name (stem : string) (bd : ProxmoxAnswerBuilder) : string :=
  let digest := take 16 (sha256_chars (first_boot_digest bd ++ [chr 0] ++ b (pa_partition_label bd) ++ [chr 0] ++ PREPARE_ISO_RECIPE)) in
  stem +:+ "-prepared-" +:+ str digest +:+ ".iso".

(** [prepare_boot_media], of the file [media] in the directory [parent] *)
Definition pve_prepare_boot_media (parent stem media : string) (bd : ProxmoxAnswerBuilder) : HostAct string :=
  prepare_cached parent (pve_prepared_name stem bd)
    (λ tmp, pve_prepare_iso media tmp (b (pa_partition_label bd)) (first_boot_script bd)).
End Prepare.

(** ** [_esxi_prepare.py] *)

Definition KICKSTART_KERNELOPT : text := b "runweasel ks=cdrom:/ks.cfg logPort=com1 gdbPort=none systemMediaSize=min".
Definition BOOTCFG_BIOS : string := "/BOOT.CFG".
Definition BOOTCFG_UEFI : string := "/EFI/BOOT/BOOT.CFG".

(** [_firstboot] *)
Definition firstboot (ssh_key : option text) (allow_tcp_forwarding : bool) : list text :=
  [[]; b "%firstboot --interpreter=busybox"] ++
  match ssh_key with
  | Some ((_ :: _) as key) =>
      [b "mkdir -p /etc/ssh/keys-root"; b "cat > /etc/ssh/keys-root/authorized_keys <<'KEYEOF'"; key; b "KEYEOF";
       b "chmod 600 /etc/ssh/keys-root/authorized_keys"; b "chown root:root /etc/ssh/keys-root/authorized_keys";
       b "cat > /etc/rc.local.d/local.sh <<'RCEOF'"; b "#!/bin/sh"] ++
      (if allow_tcp_forwarding then
        [b "grep -vi '^AllowTcpForwarding' /etc/ssh/sshd_config > /etc/ssh/sshd_config.tr";
         b "echo 'AllowTcpForwarding yes' >> /etc/ssh/sshd_config.tr";
         b "mv /etc/ssh/sshd_config.tr /etc/ssh/sshd_config"] else []) ++
      [b "vim-cmd hostsvc/enable_ssh"; b "esxcli network firewall ruleset set --enabled true --ruleset-id sshServer";
       b "/etc/init.d/SSH restart"; b "exit 0"; b "RCEOF"; b "chmod +x /etc/rc.local.d/local.sh"]
  | _ => []
  end ++
  [b "if [ ! -f /etc/vmware/.tr-rebooted ]; then"; b "touch /etc/vmware/.tr-rebooted"; b "/sbin/auto-backup.sh"; b "reboot";
   b "fi"; b "/sbin/auto-backup.sh"].

(** The comment that opens the file; its dash is one character of three bytes. *)
Definition KS_HEADER : text :=
  b "# Generated by ESXiKickstartBuilder " ++ (ascii_of_nat <$> [226; 128; 148]) ++ b " do not edit by hand.".

Definition ks_install (root_password : text) (license : option text) : list text :=
  [KS_HEADER; b "accepteula"] ++
  match license with Some ((_ :: _) as l) => [b "serialnum --esx=" ++ l] | _ => [] end ++
  [b "rootpw " ++ root_password; b "install --firstdisk --overwritevmfs"; b "network --bootproto=dhcp --device=vmnic0"; b "reboot"; []].
Definition ks_result : list text :=
  [b "%post --interpreter=busybox --ignorefailure=true"; b "_t=TESTRANGE"; b "_r=RESULT";
   b "vsish -e set /system/log " ++ quoted "${_t}-${_r}: ok"; b "sleep 2"; b "poweroff -f"].

Definition kickstart_lines (root_password : text) (ssh_key license : option text) (allow_tcp_forwarding : bool) : list text :=
  ks_install root_password license ++ ks_result ++ firstboot ssh_key allow_tcp_forwarding.

(** [render_kickstart] *)
Definition render_kickstart (root_password : text) (ssh_key license : option text) (allow_tcp_forwarding : bool) : res text :=
  raise_when (bool_decide (root_password = [])) EsxiPrepareError ["root_password"];;
  mret (lines (kickstart_lines root_password ssh_key license allow_tcp_forwarding) ++ [LF]).

(** [_patch_bootcfg] of the bytes of a file *)
Definition KS_SOURCE : pystr := u "ks=cdrom:/ks.cfg".
Definition KERNELOPT : pystr := u "kernelopt=".
Definition KERNELOPT_LINE : pystr := KERNELOPT ++ (N_of_ascii <$> KICKSTART_KERNELOPT).
Definition bootcfg_step (acc : list pystr * bool) (line : pystr) : list pystr * bool :=
  if starts_with KERNELOPT line then (acc.1 ++ [KERNELOPT_LINE], true) else (acc.1 ++ [line], acc.2).
Definition patch_bootcfg (raw : bytes) : bytes :=
  let text := decode_replace raw in
  if contains_sub KS_SOURCE text then raw
  else
    let '(new_lines, seen) := foldl bootcfg_step ([], false) (splitlines text) in
    let new_lines := if seen then new_lines else new_lines ++ [KERNELOPT_LINE] in
    let sep := if contains_sub [CR; LF] raw then [13; 10]%N else [10%N] in
    utf8 (join_str sep new_lines ++ sep).

Section EsxiPrepare.
Context {HT : Host}.

Definition absent_words : list text := [b "not found"; b "no such file"; b "cannot determine attributes"].

(** [_extract] *)
Definition esxi_extract (xorriso iso iso_path out : string) : HostAct bool :=
  proc ← run_program (extract_argv xorriso iso iso_path out);
  if decide (returncode proc ≠ 0%Z) then
    if existsb (λ s, contains_sub s (to_lower (b (err_text proc)))) absent_words then mret false
    else unlink out;; throw EsxiPrepareError [iso_path]
  else file_exists out.

Definition patch_file (p : string) : HostAct () :=
  raw ← read_file_at p;
  write_file_at p (patch_bootcfg raw).

Definition esxi_commit_argv (xorriso vanilla out ks bios : string) (uefi : option string) : list string :=
  [xorriso; "-return_with"; "FAILURE"; "32"; "-compliance"; "lowercase"; "-indev"; vanilla; "-rockridge"; "off";
   "-outdev"; out; "-boot_image"; "any"; "patch"; "-map"; ks; "/ks.cfg"; "-map"; bios; BOOTCFG_BIOS] ++
  opt_args uefi (λ p, ["-map"; p; BOOTCFG_UEFI]) ++ ["-commit"].

(** [prepare_iso] *)
Definition esxi_prepare_iso (vanilla out : string) (kickstart : text) : HostAct () :=
  match which "xorriso" with
  | None => throw EsxiPrepareError ["xorriso"]
  | Some xorriso =>
      unlink out;;
      with_tempdir "testrange-esxi-prep-" (λ td,
        let ks_path := in_dir td "ks.cfg" in
        write_file_at ks_path kickstart;;
        let bios_cfg := in_dir td "BOOT.CFG" in
        have_bios ← esxi_extract xorriso vanilla BOOTCFG_BIOS bios_cfg;
        throw_when (negb have_bios) EsxiPrepareError [vanilla];;
        patch_file bios_cfg;;
        let uefi_cfg := in_dir td "BOOT.EFI.CFG" in
        have_efi ← esxi_extract xorriso vanilla BOOTCFG_UEFI uefi_cfg;
        act_when have_efi (patch_file uefi_cfg);;
        run_checked EsxiPrepareError (esxi_commit_argv xorriso vanilla out ks_path bios_cfg (if (have_efi : bool) then Some uefi_cfg else None)))
  end.
End EsxiPrepare.

(** ** [ESXiKickstartBuilder] *)

Record ESXiKickstartBuilder : Type := MkKickstart {
  ek_installer_iso : string;
  ek_credentials : list PosixCred;
  ek_license : option string;
  ek_enable_ssh : bool;
  ek_allow_tcp_forwarding : bool;
}.

(** [_reject_control_chars] *)
Definition has_control (value : text) : bool := existsb (λ c, nat_of_ascii c <? 32) value.
Definition reject_control_chars (value : text) (what : string) : res () :=
  raise_when (has_control value) ValueError [what].

(** [_validate_credentials] *)
Definition validate_credentials (creds : list PosixCred) : res () :=
  root ← root_credential creds;
  raise_when (negb (has_password root)) ValueError ["password"];;
  reject_control_chars (b (default "" (cr_password root))) "root password";;
  raise_when (bool_decide ((key_algorithm <$> cr_ssh_key root) = Some "ed25519")) ValueError ["ed25519"];;
  foldM (λ _ c, match cr_ssh_key c with Some k => reject_control_chars (b (auth_line k)) (cr_username c) | None => mret () end) () creds;;
  raise_when (bool_decide (duplicates (cr_username <$> creds) ≠ ∅)) ValueError ["credentials"].

(** [_validate_license] *)
Definition validate_license (license : option string) : res () :=
  match license with
  | None => mret ()
  | Some l =>
      reject_control_chars (b l) "license";;
      raise_when (bool_decide (stripped l = [])) ValueError ["license"]
  end.

(** [__init__] *)
Definition new_kickstart_builder (bd : ESXiKickstartBuilder) : res ESXiKickstartBuilder :=
  validate_credentials (ek_credentials bd);;
  validate_license (ek_license bd);;
  root ← root_credential (ek_credentials bd);
  raise_when (ek_enable_ssh bd && bool_decide (cr_ssh_key root = None)) ValueError ["ssh_key"];;
  mret bd.

(** [_render_kickstart] *)
Definition builder_kickstart (bd : ESXiKickstartBuilder) : res text :=
  root ← root_credential (ek_credentials bd);
  let ssh_key := if ek_enable_ssh bd then b ∘ auth_line <$> cr_ssh_key root else None in
  render_kickstart (b (default "" (cr_password root))) ssh_key (b <$> ek_license bd) (ek_allow_tcp_forwarding bd).

Definition esxi_hash_input (bd : ESXiKickstartBuilder) (s : VMSpec) (base_sha sidecar_sha : string) : res text :=
  root ← root_credential (ek_credentials bd);
  ks ← builder_kickstart bd;
  os ← os_drive s;
  mret (b "root-password:" ++ b (default "" (cr_password root)) ++ SEP ++
    b "ssh-key:" ++ b (from_option auth_line "" (cr_ssh_key root)) ++ SEP ++
    b "license:" ++ b (default "None" (ek_license bd)) ++ SEP ++
    b "kickstart:" ++ take 16 (sha256_chars ks) ++ SEP ++
    b "disk:" ++ str_int (d_size_gb os) ++ SEP ++ b "firmware:" ++ b (firmware s) ++ SEP ++
    b "kernelopt:" ++ KICKSTART_KERNELOPT ++ SEP ++
    b "base:" ++ b base_sha ++ SEP ++ b "sidecar:" ++ b sidecar_sha).

(** [config_hash] *)
Definition esxi_config_hash (bd : ESXiKickstartBuilder) (s : VMSpec) (base_sha sidecar_sha : string) : res string :=
  t ← esxi_hash_input bd s base_sha sidecar_sha;
  mret (str (take 16 (sha256_chars t))).

Definition esxi_prepared_name (stem : string) (kickstart : text) : string :=
  let digest := take 16 (sha256_chars (kickstart ++ [LF] ++ b "---KERNELOPT---" ++ [LF] ++ KICKSTART_KERNELOPT)) in
  stem +:+ "-esxi-" +:+ str digest +:+ ".iso".

(** [prepare_boot_media] *)
Definition esxi_prepare_boot_media {HT : Host} (parent stem media : string) (bd : ESXiKickstartBuilder) : HostAct string :=
  kickstart ← lift (builder_kickstart bd);
  prepare_cached parent (esxi_prepared_name stem kickstart) (λ tmp, esxi_prepare_iso media tmp kickstart).
