(* ===== verification/InstallerSpec.v ===== *)
(** * What the installer builders guarantee

    [answer_reads_back]: a TOML reader gets exactly the declared document out of
    [answer.toml], whatever characters a password or a key has.  [grub_serial_exact]: the
    boot menu is changed in the automated entry only, and once.  [bootcfg_exact]: the same
    of the ESXi boot configurations.  [kickstart_silent]: the source of [ks.cfg] never
    reads as a build result, and running its report does.  [esxi_hash_covers]: the key of
    an installed disk covers what is baked into it.  [pve_media_exact]: what is in a
    prepared image, and that nothing else of the host changes. *)

From S2P Require Import Prelude Exceptions Eff PyBytes BuildResult BuildResultSpec Sha256 CacheNames Ledger Ipv4 Devices Validate.
From S2P Require Import Sidecar Url Shell Conn Naming Creds CloudInit CloudInitSpec Remote Ssh HostTools Installer.
From stdpp Require Import options.

(** ** TOML, as far as an answer file uses it *)

Inductive toml_value : Type :=
  | TStr (v : text)
  | TArr (vs : list text).

(** A basic string after its opening quote: the value and what follows the closing
    quote.  Raw control characters other than the tab are an error, and so is an escape
    the language does not have; escapes above U+007F are not used and not read. *)
Definition short_escape (c : ascii) : option ascii :=
  if decide (c = DQUOTE) then Some DQUOTE else if decide (c = BSLASH) then Some BSLASH
  else if decide (c = chr 110) then Some LF else if decide (c = chr 114) then Some CR
  else if decide (c = chr 116) then Some TAB else if decide (c = chr 98) then Some (chr 8)
  else if decide (c = chr 102) then Some (chr 12) else None.
Definition hex4 (h1 h2 h3 h4 : ascii) : option nat :=
  a ← hex_value h1; c ← hex_value h2; d ← hex_value h3; e ← hex_value h4;
  Some (((a * 16 + c) * 16 + d) * 16 + e).
Definition push (c : ascii) (r : option (text * text)) : option (text * text) :=
  match r with Some (v, rest) => Some (c :: v, rest) | None => None end.

Fixpoint toml_basic (l : text) : option (text * text) :=
  match l with
  | [] => None
  | c :: l =>
      if decide (c = DQUOTE) then Some ([], l)
      else if decide (c = BSLASH) then
        match l with
        | [] => None
        | d :: l1 =>
            if decide (d = chr 117) then
              match l1 with
              | h1 :: h2 :: h3 :: h4 :: l2 =>
                  match hex4 h1 h2 h3 h4 with
                  | Some n => if n <? 128 then push (ascii_of_nat n) (toml_basic l2) else None
                  | None => None
                  end
              | _ => None
              end
            else match short_escape d with Some x => push x (toml_basic l1) | None => None end
        end
      else if (32 <=? nat_of_ascii c) && bool_decide (c ≠ DEL) || bool_decide (c = TAB) then push c (toml_basic l)
      else None
  end.

(** The items of an array, up to its closing bracket. *)
Fixpoint toml_items (fuel : nat) (l : text) : option (list text) :=
  match fuel, l with
  | S fuel, c :: l =>
      if decide (c = DQUOTE) then
        match toml_basic l with
        | Some (v, sep :: rest) =>
            if decide (sep = RBR) then match rest with [] => Some [v] | _ => None end
            else match rest with
            | sp :: rest => if decide (sep = chr 44 ∧ sp = SPACE) then cons v <$> toml_items fuel rest else None
            | [] => None
            end
        | _ => None
        end
      else None
  | _, _ => None
  end.

Definition read_value (l : text) : option toml_value :=
  match l with
  | c :: l =>
      if decide (c = DQUOTE) then match toml_basic l with Some (v, []) => Some (TStr v) | _ => None end
      else if decide (c = LBR) then TArr <$> toml_items (length l) l
      else None
  | [] => None
  end.

Definition key_char (c : ascii) : bool := is_alnum c || bool_decide (c ∈ b "_-.").

Definition read_pair (l : text) : option (text * toml_value) :=
  match take_while key_char l, drop_while key_char l with
  | (_ :: _) as key, c1 :: c2 :: c3 :: v =>
      if decide ([c1; c2; c3] = b " = ") then pair key <$> read_value v else None
  | _, _ => None
  end.

Definition read_header (l : text) : option text :=
  match l with
  | c :: l => if decide (c = LBR ∧ drop_while key_char l = [RBR]) then Some (take_while key_char l) else None
  | [] => None
  end.

Abbreviation table := (list (text * toml_value)).

(** The pairs before the first header, and the tables. *)
Fixpoint read_lines (ls : list text) : option (table * list (text * table)) :=
  match ls with
  | [] => Some ([], [])
  | l :: ls =>
      match read_lines ls with
      | Some (ps, tables) =>
          match l with
          | [] => Some (ps, tables)
          | _ => match read_header l with
                 | Some name => Some ([], (name, ps) :: tables)
                 | None => match read_pair l with Some p => Some (p :: ps, tables) | None => None end
                 end
          end
      | None => None
      end
  end.

Definition read_toml (t : text) : option (list (text * table)) :=
  match read_lines (split_on LF t) with Some ([], tables) => Some tables | _ => None end.

(** ** Escaping *)

Lemma replace_one (a : ascii) r s : replace [a] r s = concat ((λ c, if decide (c = a) then r else [c]) <$> s).
Proof.
  unfold replace. induction s as [|c s IH]; [done|]. cbn [replace_from starts_with length Nat.sub fmap list_fmap concat].
  rewrite andb_true_r. case_bool_decide as Hc; [rewrite decide_True by done|rewrite decide_False by congruence]; by rewrite IH.
Qed.

Lemma concat_fmap_concat {A B C} (f : B → list C) (g : A → list B) l :
  concat (f <$> concat (g <$> l)) = concat ((λ x, concat (f <$> g x)) <$> l).
Proof. induction l as [|x l IH]; [done|]. cbn. by rewrite fmap_app, concat_app, IH. Qed.

(** What one character becomes. *)
Definition esc (c : ascii) : text :=
  if decide (c = BSLASH) then b "\\" else if decide (c = DQUOTE) then BSLASH :: dq
  else if decide (c = LF) then b "\n" else if decide (c = CR) then b "\r" else if decide (c = TAB) then b "\t"
  else if (32 <=? nat_of_ascii c) && bool_decide (c ≠ DEL) then [c] else u_escape c.

Lemma toml_str_chars v : toml_str v = DQUOTE :: concat (esc <$> v) ++ dq.
Proof.
  unfold toml_str. rewrite !replace_one, !concat_fmap_concat. cbn [app dq]. do 3 f_equal.
  apply list_fmap_ext. intros _ c _. revert c. refine (forall_bytes _ _). vm_compute. reflexivity.
Qed.

Lemma toml_basic_esc c l : toml_basic (esc c ++ l) = push c (toml_basic l).
Proof. destruct c as [[] [] [] [] [] [] [] []]; reflexivity. Qed.

Lemma toml_basic_chars v rest : toml_basic (concat (esc <$> v) ++ DQUOTE :: rest) = Some (v, rest).
Proof. induction v as [|c v IH]; [done|]. cbn [fmap list_fmap concat]. by rewrite <-app_assoc, toml_basic_esc, IH. Qed.

Lemma lf_not_in_esc v : LF ∉ concat (esc <$> v).
Proof.
  intros (l & Hin & Hl)%elem_of_concat. apply list_elem_of_fmap in Hin as (c & -> & _). revert Hl.
  apply (bool_decide_unpack (LF ∉ esc c)). revert c. refine (forall_bytes (λ c, Is_true (bool_decide (LF ∉ esc c))) _). vm_compute. reflexivity.
Qed.
Lemma lf_not_in_toml v : LF ∉ toml_str v.
Proof.
  rewrite toml_str_chars. unfold dq. rewrite not_elem_of_cons, not_elem_of_app. split_and!; [done|apply lf_not_in_esc|].
  by rewrite list_elem_of_singleton.
Qed.

(** A value reads back as it was given. *)
Lemma read_value_str v : read_value (toml_str v) = Some (TStr v).
Proof. rewrite toml_str_chars. cbn [read_value]. rewrite decide_True by done. unfold dq. by rewrite toml_basic_chars. Qed.

Lemma toml_items_array fuel vs :
  vs ≠ [] → length vs ≤ fuel → toml_items fuel (join_text COMMA_SPACE (toml_str <$> vs) ++ b "]") = Some vs.
Proof.
  revert fuel. induction vs as [|v vs IH]; intros [|fuel] Hne Hl; [done|done|cbn in Hl; lia|]. cbn [fmap list_fmap join_text].
  rewrite toml_str_chars. unfold dq. destruct vs as [|w vs].
  - cbn [fmap list_fmap concat]. rewrite app_nil_r. cbn [app toml_items]. rewrite decide_True by done.
    rewrite <-app_assoc. cbn [app]. by rewrite toml_basic_chars.
  - cbn [app toml_items]. rewrite decide_True by done. cbn [fmap list_fmap concat]. rewrite <-!app_assoc. cbn [app]. rewrite toml_basic_chars.
    change (COMMA_SPACE ++ toml_str w ++ concat ((λ x, COMMA_SPACE ++ x) <$> (toml_str <$> vs)) ++ b "]")
      with (chr 44 :: SPACE :: toml_str w ++ concat ((λ x, COMMA_SPACE ++ x) <$> (toml_str <$> vs)) ++ b "]").
    cbv iota. rewrite decide_False, decide_True by done. specialize (IH fuel). cbn [fmap list_fmap join_text] in IH. rewrite <-app_assoc in IH.
    rewrite IH; [done|done|cbn in Hl |- *; lia].
Qed.

Lemma read_value_array vs : vs ≠ [] → read_value (toml_array vs) = Some (TArr vs).
Proof.
  intros Hne. unfold toml_array. change (b "[" ++ ?x) with (LBR :: x). cbn [read_value]. rewrite decide_False, decide_True by done.
  rewrite toml_items_array; [done|done|]. destruct vs as [|v vs]; [done|]. cbn [fmap list_fmap join_text].
  rewrite !length_app. cut (length vs ≤ length (concat ((λ x, COMMA_SPACE ++ x) <$> (toml_str <$> vs)))); [change (length (b "]")) with 1; cbn [length]; lia|].
  clear. induction vs as [|v vs IH]; [cbn; lia|]. rewrite !fmap_cons. cbn [concat length]. rewrite !length_app.
  change (length COMMA_SPACE) with 2. lia.
Qed.

(** ** Documents *)

Definition render_value (v : toml_value) : text := match v with TStr v => toml_str v | TArr vs => toml_array vs end.
Definition render_pair (p : text * toml_value) : text := p.1 ++ b " = " ++ render_value p.2.
Definition render_table (t : text * table) : list text := (b "[" ++ t.1 ++ b "]") :: (render_pair <$> t.2).
Definition render_doc (d : list (text * table)) : list text :=
  match d with [] => [] | t :: d => render_table t ++ concat ((λ t, [] :: render_table t) <$> d) end.

Definition is_key (k : text) : bool := bool_decide (k ≠ []) && forallb key_char k.
Definition pair_ok (p : text * toml_value) : Prop := is_key p.1 = true ∧ p.2 ≠ TArr [].
Definition table_ok (t : text * table) : Prop := is_key t.1 = true ∧ Forall pair_ok t.2.

Lemma key_split k c rest :
  is_key k = true → key_char c = false → take_while key_char (k ++ c :: rest) = k ∧ drop_while key_char (k ++ c :: rest) = c :: rest.
Proof.
  intros [_ Hk%forallb_Forall]%andb_true_iff Hc. split; [by apply take_while_prefix|].
  induction Hk as [|x k Hx _ IH]; cbn; [by rewrite Hc|]. by rewrite Hx.
Qed.

Lemma read_pair_rendered p : pair_ok p → read_pair (render_pair p) = Some p ∧ read_header (render_pair p) = None ∧ render_pair p ≠ [].
Proof.
  destruct p as [k v]. intros [Hk Hv]. cbn in Hk, Hv. unfold render_pair. cbn [fst snd].
  change (b " = " ++ ?x) with (SPACE :: EQUALS :: SPACE :: x).
  destruct (key_split k SPACE (EQUALS :: SPACE :: render_value v) Hk eq_refl) as [Ht Hd].
  destruct k as [|c k]; [done|]. split_and!; [|..|done].
  - unfold read_pair. rewrite Ht, Hd. rewrite decide_True by done. destruct v as [v|vs]; cbn [render_value].
    + by rewrite read_value_str.
    + rewrite read_value_array by congruence. done.
  - unfold read_header. cbn [app]. rewrite decide_False; [done|]. intros [-> _]. by vm_compute in Hk.
Qed.

Lemma read_pairs ps ls ps' ts :
  Forall pair_ok ps → read_lines ls = Some (ps', ts) → read_lines ((render_pair <$> ps) ++ ls) = Some (ps ++ ps', ts).
Proof.
  intros Hps Hls. induction Hps as [|p ps Hp _ IH]; [done|]. cbn [fmap list_fmap app read_lines]. rewrite IH.
  destruct (read_pair_rendered p Hp) as (Hr & Hh & Hne). rewrite Hh, Hr. by destruct (render_pair p).
Qed.

Lemma read_table t ls ts :
  table_ok t → read_lines ls = Some ([], ts) → read_lines (render_table t ++ ls) = Some ([], t :: ts).
Proof.
  destruct t as [name ps]. intros [Hn Hps] Hls. unfold render_table. cbn [fst snd app read_lines]. cbn in Hn, Hps.
  rewrite (read_pairs _ _ _ _ Hps Hls), app_nil_r.
  destruct (key_split name RBR [] Hn eq_refl) as [Ht Hd]. change (b "[" ++ name ++ b "]") with (LBR :: name ++ [RBR]).
  unfold read_header. rewrite decide_True by done. by rewrite Ht.
Qed.

Lemma read_tables d : Forall table_ok d → read_lines (concat ((λ t, [] :: render_table t) <$> d) ++ [[]]) = Some ([], d).
Proof.
  induction 1 as [|t d Ht _ IH]; [done|]. cbn [fmap list_fmap concat]. rewrite <-app_assoc. cbn [app read_lines].
  change (render_table t ++ ?x) with (render_table t ++ x). by rewrite (read_table _ _ _ Ht IH).
Qed.

Lemma lf_not_in_pair p : LF ∉ p.1 → LF ∉ render_pair p.
Proof.
  intros Hk. unfold render_pair. rewrite !not_elem_of_app. split_and!; [done|by apply (bool_decide_unpack (_ ∉ _))|].
  destruct p.2 as [v|vs]; cbn [render_value]; [apply lf_not_in_toml|]. unfold toml_array. rewrite !not_elem_of_app.
  split_and!; [by apply (bool_decide_unpack (_ ∉ _))| |by apply (bool_decide_unpack (_ ∉ _))].
  destruct vs as [|v vs]; [apply not_elem_of_nil|]. cbn [fmap list_fmap join_text]. rewrite not_elem_of_app. split; [apply lf_not_in_toml|].
  intros (l & Hin & Hl)%elem_of_concat. apply list_elem_of_fmap in Hin as (x & -> & Hx).
  apply list_elem_of_fmap in Hx as (y & -> & _). apply elem_of_app in Hl as [Hl|Hl]; [|by eapply lf_not_in_toml].
  revert Hl. by apply (bool_decide_unpack (_ ∉ _)).
Qed.

Lemma key_no_lf k : is_key k = true → LF ∉ k.
Proof. intros [_ Hk%forallb_Forall]%andb_true_iff Hin. rewrite Forall_forall in Hk. by apply Hk in Hin. Qed.

Lemma lf_not_in_doc d : Forall table_ok d → Forall (λ l, LF ∉ l) (render_doc d).
Proof.
  assert (∀ t, table_ok t → Forall (λ l, LF ∉ l) (render_table t)) as Ht.
  { intros [n ps] [Hn Hps]. unfold render_table. constructor.
    - cbn [fst]. rewrite !not_elem_of_app. split_and!; [by apply (bool_decide_unpack (_ ∉ _))|by apply key_no_lf|by apply (bool_decide_unpack (_ ∉ _))].
    - apply Forall_fmap. cbn in Hps |- *. eapply Forall_impl; [exact Hps|]. intros p [Hp _]. by apply lf_not_in_pair, key_no_lf. }
  destruct 1 as [|t d H1 H2]; [constructor|]. cbn [render_doc]. apply Forall_app. split; [by apply Ht|].
  induction H2 as [|t' d H2 _ IH]; [constructor|]. cbn [fmap list_fmap concat]. apply Forall_app. split; [|done].
  constructor; [apply not_elem_of_nil|by apply Ht].
Qed.

Lemma split_lines_end ls : Forall (λ l, LF ∉ l) ls → ls ≠ [] → split_on LF (lines ls ++ [LF]) = ls ++ [[]].
Proof.
  intros Hls Hne. rewrite split_on_cut. f_equal. unfold lines. by apply split_on_join.
Qed.

(** A rendered document reads back. *)
Lemma read_rendered d : d ≠ [] → Forall table_ok d → read_toml (lines (render_doc d) ++ [LF]) = Some d.
Proof.
  intros Hne Hd. unfold read_toml. rewrite split_lines_end; [|by apply lf_not_in_doc|by destruct d].
  destruct Hd as [|t d Ht Hd]; [done|]. cbn [render_doc]. rewrite <-app_assoc.
  by rewrite (read_table _ _ _ Ht (read_tables _ Hd)).
Qed.

(** ** [answer.toml] *)

Definition opt_pair (key : string) (v : option string) : table :=
  match v with Some v => [(b key, TStr (b v))] | None => [] end.

(** The document a builder declares for a VM. *)
Definition answer_document (bd : ProxmoxAnswerBuilder) (s : VMSpec) (root : PosixCred) (net : option static_network)
    : list (text * table) :=
  let str k v := (b k, TStr (b v)) in
  let keys := ssh_key_lines (pa_credentials bd) in
  [(b "global",
     [str "country" (pa_country bd); str "keyboard" (pa_keyboard bd); str "timezone" (pa_timezone bd);
      (b "fqdn", TStr (b (vs_name s) ++ b "." ++ b (pa_fqdn_domain bd))); str "mailto" (pa_mailto bd);
      str "root-password" (default "" (cr_password root))] ++
     (if decide (keys = []) then [] else [(b "root-ssh-keys", TArr keys)]));
   (b "network", match net with
     | None => [str "source" "from-dhcp"]
     | Some n => [str "source" "from-answer"; str "cidr" (sn_cidr n)] ++ opt_pair "gateway" (sn_gateway n) ++
         opt_pair "dns" (sn_dns n) ++ [str "filter.ID_NET_NAME" (pa_network_interface bd)]
     end);
   (b "disk-setup", [str "filesystem" (pa_filesystem bd); (b "disk-list", TArr [b (pa_disk_device bd)])]);
   (b "first-boot", [str "source" "from-iso"; str "ordering" "network-online"])].

Lemma answer_document_ok bd s root net : Forall table_ok (answer_document bd s root net).
Proof.
  assert (∀ k v, is_key (b k) = true → Forall pair_ok (opt_pair k v)) as Ho.
  { intros k [v|] Hk; constructor; [|constructor]. by split. }
  unfold answer_document. repeat constructor; try done; cbn [snd].
  - case_decide; repeat constructor; cbn; congruence.
  - destruct net as [n|]; [|repeat constructor; done]. cbn [snd].
    apply Forall_app. split; [repeat constructor; done|]. rewrite !Forall_app. split_and!; [by apply Ho..|repeat constructor; done].
Qed.

Lemma answer_lines_document bd s root net :
  answer_lines bd s (b (default "" (cr_password root))) (network_lines bd net) = render_doc (answer_document bd s root net).
Proof.
  assert (∀ k v, render_pair <$> opt_pair k v = kv_opt k v) as Ho by (by intros k [v|]).
  unfold answer_document, render_doc, render_table, answer_lines, network_lines. cbn [fst snd]. rewrite !fmap_cons, fmap_nil.
  cbn [concat fst snd]. rewrite app_nil_r. destruct net as [n|]; case_decide; rewrite ?fmap_app, ?Ho; cbn [fmap list_fmap app];
    rewrite <-?app_assoc; reflexivity.
Qed.

Lemma ret_Ok_inv {A} (a t : A) : (mret a : res A) = Ok t → t = a.
Proof. by intros [= ->]. Qed.

(** C32: the answer file means what was declared.  Whenever it is rendered, a TOML reader
    gets the declared document out of it, table by table and value by value, for every
    password, key, name and setting: quotes, backslashes, line ends and control
    characters in a value stay in that value. *)
Theorem answer_reads_back bd s addressing t :
  build_answer_toml bd s addressing = Ok t →
  ∃ root net, root_credential (pa_credentials bd) = Ok root ∧ network_facts s addressing = Ok net ∧
    read_toml t = Some (answer_document bd s root net).
Proof.
  unfold build_answer_toml, network_block. intros (root & Hr & H)%bind_Ok. apply bind_Ok in H as (nl & Hn & ->%ret_Ok_inv).
  apply bind_Ok in Hn as (net & Hnet & ->%ret_Ok_inv). exists root, net. split_and!; [done..|].
  rewrite answer_lines_document. apply read_rendered; [done|apply answer_document_ok].
Qed.

(** ** Editing lines *)

Section Substrings.
Context {A : Type} `{EqDecision A}.
Implicit Types p r s t l : list A.

Lemma contains_sub_spec p s : contains_sub p s = true ↔ ∃ l1 l2, s = l1 ++ p ++ l2.
Proof.
  unfold contains_sub. rewrite bool_decide_eq_true. split.
  - intros [i (Hp & _ & _)%find_Some]. destruct Hp as [k Hk]. exists (take i s), k. by rewrite <-Hk, take_drop.
  - intros (l1 & l2 & ->). destruct (find p (l1 ++ p ++ l2)) eqn:E; [done|]. exfalso.
    eapply find_None in E. apply E. erewrite drop_app_length. by eexists.
Qed.

(** One of two texts begins with the other. *)
Definition compat p t : bool := starts_with p t || starts_with t p.

Lemma prefix_compat p t l : p `prefix_of` t ++ l → compat p t = true.
Proof.
  intros H. unfold compat. apply orb_true_iff. rewrite !starts_with_spec.
  apply prefix_weak_total with (t ++ l); [done|by apply prefix_app_r].
Qed.

(** No occurrence of [p] can begin in [t], or begin before [t] and reach into it. *)
Definition apart p t : bool :=
  forallb (λ i, negb (compat (drop i p) t)) (seq 1 (length p - 1)) && forallb (λ j, negb (compat p (drop j t))) (seq 0 (length t)).

Lemma forallb_seq (f : nat → bool) a n i : forallb f (seq a n) = true → a ≤ i < a + n → f i = true.
Proof. rewrite forallb_forall. intros H Hi. apply H, list_elem_of_In, elem_of_seq. lia. Qed.

(** Replacing leaves a text alone in which, and across whose end, nothing begins. *)
Lemma replace_pass p r t l :
  (∀ j, j < length t → ¬ p `prefix_of` drop j t ++ l) → replace_from p r 0 (t ++ l) = t ++ replace_from p r 0 l.
Proof.
  induction t as [|x t IH]; intros H; [done|]. cbn [app replace_from].
  assert (starts_with p (x :: t ++ l) = false) as ->.
  { apply not_true_is_false. rewrite starts_with_spec. apply (H 0). cbn. lia. }
  f_equal. apply IH. intros j Hj. apply (H (S j)). cbn. lia.
Qed.

Lemma replace_skip p r k s : k ≤ length s → replace_from p r k s = replace_from p r 0 (drop k s).
Proof. revert s. induction k as [|k IH]; intros [|x s] Hk; cbn in *; [done..|lia|]. apply IH. lia. Qed.

Lemma apart_pass p t l : apart p t = true → ∀ j, j < length t → ¬ p `prefix_of` drop j t ++ l.
Proof.
  intros [_ H2]%andb_true_iff j Hj Hp. apply prefix_compat in Hp.
  apply (forallb_seq _ _ _ j) in H2; [|lia]. cbv beta in H2. by rewrite Hp in H2.
Qed.

Lemma replace_keeps p r t s :
  p ≠ [] → apart p t = true → contains_sub t s = true → contains_sub t (replace p r s) = true.
Proof.
  intros Hne Ha (l1 & l2 & ->)%contains_sub_spec. apply contains_sub_spec. unfold replace.
  cut (∃ m1, replace_from p r 0 (l1 ++ t ++ l2) = m1 ++ t ++ replace_from p r 0 l2); [intros [m1 ->]; eauto|].
  revert l1. refine (induction_ltof1 _ (@length A) _ _). unfold ltof. intros l1 IH.
  destruct l1 as [|x l1]; [exists []; cbn [app]; apply replace_pass, apart_pass, Ha|]. cbn [app replace_from].
  destruct (starts_with p (x :: l1 ++ t ++ l2)) eqn:E; [|destruct (IH l1) as [m1 ->]; [cbn; lia|by exists (x :: m1)]].
  apply starts_with_spec in E. destruct (decide (length p ≤ length (x :: l1))) as [Hl|Hl]; cbn in Hl.
  - rewrite replace_skip by (rewrite length_app; lia). rewrite drop_app_le by lia.
    destruct (IH (drop (length p - 1) l1)) as [m1 ->]; [rewrite length_drop; destruct p; cbn in *; [done|lia]|].
    exists (r ++ m1). by rewrite <-app_assoc.
  - exfalso. apply andb_true_iff in Ha as [Ha _]. apply (forallb_seq _ _ _ (S (length l1))) in Ha; [|lia].
    apply negb_true_iff in Ha. rewrite (prefix_compat _ t l2) in Ha; [done|].
    destruct E as [k Hk]. exists k. apply (f_equal (drop (S (length l1)))) in Hk.
    change (x :: l1 ++ t ++ l2) with ((x :: l1) ++ t ++ l2) in Hk. rewrite (drop_app_le p) in Hk by lia.
    rewrite <-Hk. change (S (length l1)) with (length (x :: l1)). by rewrite drop_app_length.
Qed.

Lemma elem_of_replace p r k s x : x ∈ replace_from p r k s → x ∈ r ∨ x ∈ s.
Proof.
  revert k. induction s as [|y s IH]; intros k; cbn [replace_from]; [set_solver|].
  destruct k as [|k]; [|intros H%IH; set_solver]. destruct (starts_with _ _).
  - intros [H|H%IH]%elem_of_app; set_solver.
  - intros [->|H%IH]%elem_of_cons; set_solver.
Qed.
End Substrings.

(** Blanks, then [t]: an occurrence of [p] that begins in the blanks would have to reach
    into [t] with its own blanks only. *)
Definition outside (p t : pystr) : bool :=
  let k := length (take_while is_space p) in
  (k <? length p) && forallb (λ m, negb (compat (drop m p) t)) (seq 1 k).


Lemma take_while_stop {A} (f : A → bool) l :
  length (take_while f l) < length l → ∃ x, l !! length (take_while f l) = Some x ∧ f x = false.
Proof. induction l as [|y l IH]; cbn; [lia|]. destruct (f y) eqn:E; cbn; [intros H; apply IH; lia|eauto]. Qed.

Lemma blanks_pass p t ws l :
  outside p t = true → Forall (λ c, is_space c = true) ws → ∀ j, j < length ws → ¬ p `prefix_of` drop j ws ++ t ++ l.
Proof.
  intros [Hk%Nat.ltb_lt Hm]%andb_true_iff Hws j Hj [k Hp].
  destruct (take_while_stop _ _ Hk) as (x & Hx & Hns).
  destruct (decide (length (take_while is_space p) < length (drop j ws))) as [Hlt|Hge].
  - assert (drop j ws !! length (take_while is_space p) = Some x) as Hin.
    { rewrite <-(lookup_app_l (drop j ws) (t ++ l)) by done. rewrite Hp. by apply lookup_app_l_Some. }
    rewrite lookup_drop in Hin. eapply Forall_lookup_1 in Hws; [|exact Hin]. cbn in Hws. congruence.
  - apply (forallb_seq _ _ _ (length (drop j ws))) in Hm; [|rewrite length_drop in *; lia]. cbv beta in Hm.
    rewrite (prefix_compat _ t l) in Hm; [done|]. exists k. apply (f_equal (drop (length (drop j ws)))) in Hp.
    rewrite drop_app_length, drop_app_le in Hp by lia. done.
Qed.

(** A line with [t] first after its blanks. *)
Lemma lstrip_starts t s :
  (∀ c, c ∈ t → is_space c = false) → t ≠ [] →
  starts_with t (lstrip s) = true ↔ ∃ ws l, s = ws ++ t ++ l ∧ Forall (λ c, is_space c = true) ws.
Proof.
  intros Ht Hne. unfold lstrip. rewrite starts_with_spec. split.
  - intros [l Hl]. exists (take_while is_space s), l. split.
    + rewrite <-Hl. clear. induction s as [|x s IH]; cbn; [done|]. destruct (is_space x); cbn; congruence.
    + clear. induction s as [|x s IH]; cbn; [constructor|]. destruct (is_space x) eqn:E; by constructor.
  - intros (ws & l & -> & Hws). exists l. induction Hws as [|c ws Hc _ IH]; cbn; [|by rewrite Hc].
    destruct t as [|c t]; [done|]. cbn. rewrite Ht by set_solver. done.
Qed.

Lemma rstrip_keep l x r : is_space x = false → rstrip (l ++ x :: r) = l ++ x :: rstrip r.
Proof.
  intros Hx. unfold rstrip. rewrite reverse_app, reverse_cons, <-app_assoc. cbn [app].
  set (q := reverse r). generalize q. clear q. intros q. induction q as [|c q IH]; cbn [app drop_while].
  - rewrite Hx. rewrite reverse_cons, reverse_involutive. done.
  - destruct (is_space c); [done|]. rewrite app_comm_cons, reverse_app, reverse_cons, reverse_involutive, <-app_assoc. done.
Qed.

Lemma elem_of_rstrip c s : c ∈ rstrip s → c ∈ s.
Proof.
  unfold rstrip. rewrite elem_of_reverse. intros H. apply elem_of_reverse. revert H. generalize (reverse s).
  intros l. induction l as [|x l IH]; cbn; [done|]. destruct (is_space x); set_solver.
Qed.

(** *** The automated entry *)

Definition LINUX : pystr := u "linux".
Definition CONSOLE : pystr := u "console=ttyS0".

Lemma split_last {A} (t : list A) : t ≠ [] → ∃ t' x, t = t' ++ [x].
Proof. destruct t as [|y t] using rev_ind; [done|]. eauto. Qed.

Lemma contains_rstrip t s tail :
  t ≠ [] → (∀ c, c ∈ t → is_space c = false) → contains_sub t s = true → contains_sub t (rstrip s ++ tail) = true.
Proof.
  intros Hne Ht (l1 & l2 & ->)%contains_sub_spec. apply contains_sub_spec. destruct (split_last t Hne) as (t' & x & ->).
  rewrite <-app_assoc, app_assoc. cbn [app]. rewrite rstrip_keep by (apply Ht; set_solver).
  exists l1, (rstrip l2 ++ tail). by rewrite <-!app_assoc.
Qed.

Lemma starts_rstrip t s tail :
  t ≠ [] → (∀ c, c ∈ t → is_space c = false) → starts_with t (lstrip s) = true → starts_with t (lstrip (rstrip s ++ tail)) = true.
Proof.
  intros Hne Ht. rewrite !lstrip_starts by done. intros (ws & l & -> & Hws). exists ws, (rstrip l ++ tail). split; [|done].
  destruct (split_last t Hne) as (t' & x & ->). rewrite <-app_assoc, app_assoc. cbn [app].
  rewrite rstrip_keep by (apply Ht; set_solver). by rewrite <-!app_assoc.
Qed.

Lemma replace_starts p r t s :
  t ≠ [] → (∀ c, c ∈ t → is_space c = false) → outside p t = true → apart p t = true →
  starts_with t (lstrip s) = true → starts_with t (lstrip (replace p r s)) = true.
Proof.
  intros Hne Ht Ho Ha. rewrite !lstrip_starts by done. intros (ws & l & -> & Hws). exists ws, (replace p r l). split; [|done].
  unfold replace. rewrite replace_pass by by apply blanks_pass. f_equal. apply replace_pass. by apply apart_pass.
Qed.

Lemma no_space (t : pystr) : forallb (λ c, negb (is_space c)) t = true → ∀ c, c ∈ t → is_space c = false.
Proof. intros H c Hc. rewrite forallb_forall in H. apply negb_true_iff, H. by apply list_elem_of_In. Qed.

Lemma with_console_has line : contains_sub CONSOLE (with_console line) = true.
Proof.
  unfold with_console. destruct (contains_sub (u "console=ttyS0") line) eqn:E; [done|]. apply contains_sub_spec.
  eexists (_ ++ [32%N]), (u ",115200"). rewrite <-app_assoc. reflexivity.
Qed.

Lemma with_console_entry line : is_auto_entry line = true → is_auto_entry (with_console line) = true.
Proof.
  unfold with_console. destruct (contains_sub (u "console=ttyS0") line); [done|]. intros [Ht Hl]%andb_true_iff.
  apply andb_true_iff. split.
  - apply contains_rstrip; [done|by apply no_space|]. by do 2 (apply replace_keeps; [done..|]).
  - apply starts_rstrip; [done|by apply no_space|]. by do 2 (apply replace_starts; [done|by apply no_space|done..|]).
Qed.

Definition no_break (l : pystr) : Prop := Forall (λ c, is_line_break c = false) l.

Lemma no_break_const l : forallb (λ c, negb (is_line_break c)) l = true → no_break l.
Proof. intros H%forallb_Forall. eapply Forall_impl; [exact H|]. intros c. by rewrite negb_true_iff. Qed.
Lemma no_break_elem l c : no_break l → c ∈ l → is_line_break c = false.
Proof. unfold no_break. rewrite Forall_forall. auto. Qed.

Lemma with_console_no_break line : no_break line → no_break (with_console line).
Proof.
  intros Hl. unfold with_console. destruct (contains_sub _ line); [done|]. apply Forall_app.
  split; [|by apply no_break_const]. apply Forall_forall. intros c [Hc|Hc]%elem_of_rstrip%elem_of_replace.
  - by eapply no_break_elem, Hc; apply no_break_const.
  - apply elem_of_replace in Hc as [Hc|Hc]; [|by eapply no_break_elem]. by eapply no_break_elem, Hc; apply no_break_const.
Qed.

(** *** Lines and back *)

Lemma splitlines_cons cur c s :
  splitlines_from cur (c :: s) =
    if decide (c = 13%N) then cur :: splitlines_from [] (match s with d :: s' => if decide (d = 10%N) then s' else s | [] => [] end)
    else if is_line_break c then cur :: splitlines_from [] s else splitlines_from (cur ++ [c]) s.
Proof.
  destruct (decide (c = 13%N)) as [->|Hc].
  - destruct s as [|d s]; [done|]. destruct (decide (d = 10%N)) as [->|Hd]; [done|].
    destruct d as [|p]; [done|]. do 4 (destruct p as [p|p|]; try done).
  - destruct c as [|p]; [done|]. do 4 (destruct p as [p|p|]; try done).
Qed.

Lemma splitlines_no_break s : Forall no_break (splitlines s).
Proof.
  unfold splitlines. assert (no_break []) as H0 by constructor. revert H0. generalize (@nil N) as cur.
  revert s. refine (induction_ltof1 _ (@length N) _ _). unfold ltof. intros [|c s] IH cur Hcur.
  { cbn. destruct cur as [|x cur]; [constructor|by apply Forall_singleton]. }
  rewrite splitlines_cons. destruct (decide (c = 13%N)); [|destruct (is_line_break c) eqn:E].
  - constructor; [done|]. apply IH; [|constructor]. destruct s as [|d s]; [cbn; lia|]. case_decide; cbn; lia.
  - constructor; [done|]. apply IH; [cbn; lia|constructor].
  - apply IH; [cbn; lia|]. apply Forall_app. by repeat constructor.
Qed.

(** A separator [str.splitlines] takes for one line end. *)
Definition is_sep_text (sep : pystr) : Prop := sep = [10%N] ∨ sep = [13; 10]%N.

Lemma splitlines_sep cur l sep s :
  is_sep_text sep → no_break l → splitlines_from cur (l ++ sep ++ s) = (cur ++ l) :: splitlines_from [] s.
Proof.
  intros Hsep Hl. revert cur. induction Hl as [|c l Hc _ IH]; intros cur.
  - rewrite app_nil_r. by destruct Hsep as [->| ->].
  - cbn [app]. rewrite splitlines_cons, Hc. rewrite decide_False by (intros ->; done). rewrite IH. by rewrite <-app_assoc.
Qed.

Lemma splitlines_join sep ls :
  is_sep_text sep → ls ≠ [] → Forall no_break ls → splitlines (join_str sep ls ++ sep) = ls.
Proof.
  intros Hsep Hne Hls. destruct Hls as [|l ls Hl Hls]; [done|]. cbn [join_str]. unfold splitlines.
  enough (∀ cur, splitlines_from cur ((l ++ concat ((λ x, sep ++ x) <$> ls)) ++ sep) = (cur ++ l) :: ls) as H by apply (H []).
  clear Hne. revert l Hl. induction Hls as [|l' ls Hl' _ IH]; intros l Hl cur.
  - cbn [fmap list_fmap concat]. rewrite app_nil_r. rewrite <-(app_nil_r sep) at 1. by rewrite splitlines_sep.
  - cbn [fmap list_fmap concat]. rewrite <-!app_assoc, splitlines_sep by done. f_equal. rewrite app_assoc. by rewrite (IH l' Hl' []).
Qed.

(** A loop that rewrites some lines and notes whether it did. *)
Lemma foldl_patch (hit : pystr → bool) (f : pystr → pystr) ls out seen :
  foldl (λ acc line, if hit line then (acc.1 ++ [f line], true) else (acc.1 ++ [line], acc.2)) (out, seen) ls =
    (out ++ ((λ l, if hit l then f l else l) <$> ls), seen || existsb hit ls).
Proof.
  revert out seen. induction ls as [|l ls IH]; intros out seen; cbn [foldl fmap list_fmap existsb].
  { by rewrite app_nil_r, orb_false_r. }
  destruct (hit l); cbn [fst snd]; rewrite IH, <-app_assoc; cbn [app]; [by rewrite orb_true_r|done].
Qed.

Definition serial_line (l : pystr) : pystr := if is_auto_entry l then with_console l else l.

Lemma serial_line_idemp l : serial_line (serial_line l) = serial_line l.
Proof.
  unfold serial_line. destruct (is_auto_entry l) eqn:E; [|by rewrite E]. rewrite with_console_entry by done.
  unfold with_console at 1. change (u "console=ttyS0") with CONSOLE. by rewrite with_console_has.
Qed.

Lemma grub_lines cfg :
  grub_with_serial_console cfg =
    if existsb is_auto_entry (splitlines cfg) then Ok (join_str [10%N] (serial_line <$> splitlines cfg) ++ [10%N])
    else raise ProxmoxPrepareError [GRUB_CFG_ISO_PATH].
Proof.
  unfold grub_with_serial_console, grub_step. rewrite foldl_patch. cbn [app orb]. by destruct (existsb _ _).
Qed.

(** The serial console is grafted onto the automated entry and nothing else.  A boot
    menu without that entry is refused; of any other the result has the same lines in
    the same order, those of the automated entry carrying the console, and running the
    rewrite on its own result changes nothing. *)
Theorem grub_serial_exact cfg :
  (existsb is_auto_entry (splitlines cfg) = false →
    grub_with_serial_console cfg = raise ProxmoxPrepareError [GRUB_CFG_ISO_PATH]) ∧
  (existsb is_auto_entry (splitlines cfg) = true → ∃ out, grub_with_serial_console cfg = Ok out ∧
    splitlines out = serial_line <$> splitlines cfg ∧
    (∀ l, l ∈ splitlines out → is_auto_entry l = true → contains_sub CONSOLE l = true) ∧
    grub_with_serial_console out = Ok out).
Proof.
  rewrite grub_lines. split; intros Hp; rewrite Hp; [done|]. eexists. split; [done|].
  assert (splitlines (join_str [10%N] (serial_line <$> splitlines cfg) ++ [10%N]) = serial_line <$> splitlines cfg) as Hs.
  { apply splitlines_join; [by left|by destruct (splitlines cfg)|]. apply Forall_fmap.
    eapply Forall_impl; [apply splitlines_no_break|]. intros l Hl. cbn. unfold serial_line.
    destruct (is_auto_entry l); [by apply with_console_no_break|done]. }
  split_and!; [done|..].
  - rewrite Hs. intros l (k & -> & _)%list_elem_of_fmap. unfold serial_line. destruct (is_auto_entry k) eqn:E; [|congruence].
    intros _. apply with_console_has.
  - rewrite grub_lines, Hs. rewrite <-list_fmap_compose.
    rewrite (list_fmap_ext (serial_line ∘ serial_line) serial_line); [|intros; apply serial_line_idemp].
    assert (existsb is_auto_entry (serial_line <$> splitlines cfg) = true) as ->; [|done].
    apply existsb_exists in Hp as (l & Hl & He). apply existsb_exists. exists (serial_line l). split.
    + apply list_elem_of_In, list_elem_of_fmap. exists l. split; [done|by apply list_elem_of_In].
    + unfold serial_line. rewrite He. by apply with_console_entry.
Qed.

(** ** UTF-8 *)

(** Code points that are not surrogates. *)
Definition scalar (c : N) : Prop := (c < 55296 ∨ 57344 ≤ c < 1114112)%N.

Lemma lor_shift a n c : (c < 2 ^ n)%N → N.lor (N.shiftl a n) c = (a * 2 ^ n + c)%N.
Proof.
  intros Hc. rewrite N.shiftl_mul_pow2. rewrite <-N.lxor_lor, <-N.add_nocarry_lxor; [done|..];
    apply N.bits_inj; intros i; rewrite N.land_spec, N.bits_0; destruct (N.lt_ge_cases i n) as [Hi|Hi];
    [rewrite N.mul_pow2_bits_low by done; done| |rewrite N.mul_pow2_bits_low by done; done|];
    rewrite <-(N.mod_small c (2 ^ n)) by done; rewrite N.mod_pow2_bits_high by done; apply andb_false_r.
Qed.

Lemma byte_value n : (n < 256)%N → N_of_ascii (ascii_of_N n) = n.
Proof. apply N_ascii_embedding. Qed.

Lemma low_bits q : (q < 32 → N.land (192 + q) 31 = q)%N ∧ (q < 16 → N.land (224 + q) 15 = q)%N ∧ (q < 8 → N.land (240 + q) 7 = q)%N.
Proof.
  assert (∀ k m a, (a mod 2 ^ m = 0)%N → k = (2 ^ m)%N → (q < k → N.land (a + q) (N.ones m) = q)%N) as H.
  { intros k m a Ha -> Hq. rewrite N.land_ones, <-N.Div0.add_mod_idemp_l, Ha. by apply N.mod_small. }
  split_and!; [apply (H _ 5%N)|apply (H _ 4%N)|apply (H _ 3%N)]; done.
Qed.

Lemma low6_cont r : (r < 64)%N → low6 (ascii_of_N (128 + r)) = r.
Proof.
  intros Hr. unfold low6. rewrite byte_value by lia. change 63%N with (N.ones 6). rewrite N.land_ones.
  rewrite <-N.Div0.add_mod_idemp_l. by apply N.mod_small.
Qed.

Lemma cont_ok lo hi r : (r < 64 → lo ≤ 128 + r ≤ hi → cont_in lo hi (ascii_of_N (128 + r)) = true)%N.
Proof. intros Hr [H1 H2]. unfold cont_in. rewrite byte_value by lia. apply andb_true_iff. by rewrite !N.leb_le. Qed.

Lemma decode_two q r l :
  (2 ≤ q)%N → (q < 32)%N → (r < 64)%N →
  decode_replace (ascii_of_N (192 + q) :: ascii_of_N (128 + r) :: l) = (q * 64 + r)%N :: decode_replace l.
Proof.
  intros Hq1 Hq2 Hr. cbn [decode_replace]. rewrite (byte_value (192 + q)) by lia.
  rewrite (proj2 (N.ltb_ge (192 + q) 128)) by lia.
  rewrite (proj2 (N.leb_le 194 (192 + q))), (proj2 (N.leb_le (192 + q) 223)) by lia. cbn [andb].
  rewrite (cont_ok 128 191 r) by lia. rewrite (proj1 (low_bits q)) by done. rewrite low6_cont, lor_shift by done. done.
Qed.

Lemma decode_three q r1 r2 l :
  (q < 16)%N → (r1 < 64)%N → (r2 < 64)%N → (q = 0 → 32 ≤ r1)%N → (q = 13 → r1 < 32)%N →
  decode_replace (ascii_of_N (224 + q) :: ascii_of_N (128 + r1) :: ascii_of_N (128 + r2) :: l) =
    (q * 4096 + (r1 * 64 + r2))%N :: decode_replace l.
Proof.
  intros Hq Hr1 Hr2 H0 H13. cbn [decode_replace]. rewrite (byte_value (224 + q)) by lia.
  rewrite (proj2 (N.ltb_ge (224 + q) 128)) by lia. rewrite (proj2 (N.leb_gt (224 + q) 223)) by lia. rewrite andb_false_r.
  rewrite (proj2 (N.leb_le 224 (224 + q))), (proj2 (N.leb_le (224 + q) 239)) by lia. cbn [andb].
  rewrite (cont_ok _ _ r1); [|done|].
  2: { unfold second_lo, second_hi. destruct (N.eqb_spec (224 + q) 224), (N.eqb_spec (224 + q) 240), (N.eqb_spec (224 + q) 237),
         (N.eqb_spec (224 + q) 244); lia. }
  rewrite (cont_ok 128 191 r2) by lia. rewrite (proj1 (proj2 (low_bits q))) by done. rewrite !low6_cont by done.
  rewrite (lor_shift r1 6) by done. rewrite (lor_shift q 12); [done|]. change (2 ^ 12)%N with 4096%N. change (2 ^ 6)%N with 64%N. lia.
Qed.

Lemma decode_four q r1 r2 r3 l :
  (q < 5)%N → (r1 < 64)%N → (r2 < 64)%N → (r3 < 64)%N → (q = 0 → 16 ≤ r1)%N → (q = 4 → r1 < 16)%N →
  decode_replace (ascii_of_N (240 + q) :: ascii_of_N (128 + r1) :: ascii_of_N (128 + r2) :: ascii_of_N (128 + r3) :: l) =
    (q * 262144 + (r1 * 4096 + (r2 * 64 + r3)))%N :: decode_replace l.
Proof.
  intros Hq Hr1 Hr2 Hr3 H0 H4. cbn [decode_replace]. rewrite (byte_value (240 + q)) by lia.
  rewrite (proj2 (N.ltb_ge (240 + q) 128)) by lia. rewrite (proj2 (N.leb_gt (240 + q) 223)) by lia. rewrite andb_false_r.
  rewrite (proj2 (N.leb_gt (240 + q) 239)) by lia. rewrite andb_false_r.
  rewrite (proj2 (N.leb_le 240 (240 + q))), (proj2 (N.leb_le (240 + q) 244)) by lia. cbn [andb].
  rewrite (cont_ok _ _ r1); [|done|].
  2: { unfold second_lo, second_hi. destruct (N.eqb_spec (240 + q) 224), (N.eqb_spec (240 + q) 240), (N.eqb_spec (240 + q) 237),
         (N.eqb_spec (240 + q) 244); lia. }
  rewrite (cont_ok 128 191 r2), (cont_ok 128 191 r3) by lia. rewrite (proj2 (proj2 (low_bits q))) by lia. rewrite !low6_cont by done.
  rewrite (lor_shift r2 6) by done.
  rewrite (lor_shift r1 12) by (change (2 ^ 12)%N with 4096%N; change (2 ^ 6)%N with 64%N; lia).
  rewrite (lor_shift q 18); [done|]. change (2 ^ 18)%N with 262144%N. change (2 ^ 12)%N with 4096%N. change (2 ^ 6)%N with 64%N. lia.
Qed.

Lemma decode_utf8_char c l : scalar c → decode_replace (utf8_char c ++ l) = c :: decode_replace l.
Proof.
  intros Hc. unfold utf8_char, scalar in *.
  pose proof (N.mod_lt c 64 ltac:(lia)) as M0. pose proof (N.mod_lt (c / 64) 64 ltac:(lia)) as M1.
  pose proof (N.mod_lt (c / 4096) 64 ltac:(lia)) as M2.
  pose proof (N.div_mod' c 64) as D0. pose proof (N.div_mod' (c / 64) 64) as D1. pose proof (N.div_mod' (c / 4096) 64) as D2.
  rewrite N.Div0.div_div in D1, D2. change (64 * 64)%N with 4096%N in D1. change (4096 * 64)%N with 262144%N in D2.
  set (r0 := (c mod 64)%N) in *. set (r1 := ((c / 64) mod 64)%N) in *. set (r2 := ((c / 4096) mod 64)%N) in *.
  set (q0 := (c / 64)%N) in *. set (q1 := (c / 4096)%N) in *. set (q2 := (c / 262144)%N) in *.
  clearbody r0 r1 r2 q0 q1 q2.
  destruct (N.ltb_spec c 128) as [C0|C0]; [|destruct (N.ltb_spec c 2048) as [C1|C1]; [|destruct (N.ltb_spec c 65536) as [C2|C2]]];
    cbn [fmap list_fmap app].
  - cbn [decode_replace]. rewrite byte_value by lia. by rewrite (proj2 (N.ltb_lt c 128)).
  - rewrite decode_two by lia. f_equal. lia.
  - rewrite decode_three by lia. f_equal. lia.
  - rewrite decode_four by lia. f_equal. lia.
Qed.

Lemma decode_utf8 s : Forall scalar s → decode_replace (utf8 s) = s.
Proof.
  unfold utf8. induction 1 as [|c s Hc _ IH]; [done|]. cbn [fmap list_fmap concat]. by rewrite decode_utf8_char, IH.
Qed.

Lemma cont_value lo hi x :
  cont_in lo hi x = true → (128 ≤ lo → hi ≤ 191 → lo ≤ 128 + low6 x ≤ hi ∧ low6 x < 64)%N.
Proof.
  unfold cont_in, low6. rewrite andb_true_iff, !N.leb_le. intros [H1 H2] Hlo Hhi.
  assert (N.land (N_of_ascii x) 63 = N_of_ascii x - 128)%N as ->; [|lia].
  change 63%N with (N.ones 6). rewrite N.land_ones. change (2 ^ 6)%N with 64%N.
  symmetry. apply (N.mod_unique _ _ 2); lia.
Qed.

Lemma lead_value m a k c : (a mod 2 ^ m = 0 → k = 2 ^ m → a ≤ c → c < a + k → N.land c (N.ones m) = c - a)%N.
Proof.
  intros Ha -> H1 H2. rewrite N.land_ones. replace c with (a + (c - a))%N at 1 by lia.
  rewrite <-N.Div0.add_mod_idemp_l, Ha. apply N.mod_small. lia.
Qed.

Lemma second_bounds c0 : (128 ≤ second_lo c0 ∧ second_hi c0 ≤ 191)%N.
Proof. unfold second_lo, second_hi. repeat case_match; lia. Qed.

Lemma decode_scalar l : Forall scalar (decode_replace l).
Proof.
  assert (scalar REPLACEMENT) as HR by (right; done).
  revert l. refine (induction_ltof1 _ (@length ascii) _ _). unfold ltof. intros [|x0 l1] IH; [constructor|]. cbn [decode_replace].
  destruct (N.ltb_spec (N_of_ascii x0) 128) as [C|C]; [constructor; [left; lia|apply IH; cbn; lia]|].
  destruct ((194 <=? N_of_ascii x0)%N && (N_of_ascii x0 <=? 223)%N) eqn:C1.
  { apply andb_true_iff in C1 as [C1 C2]. rewrite N.leb_le in C1, C2. destruct l1 as [|x1 l2]; [by constructor|].
    destruct (cont_in 128 191 x1) eqn:K; constructor; try done; try (apply IH; cbn; lia).
    apply cont_value in K as [K1 K2]; [|lia..]. rewrite lor_shift by done. change 31%N with (N.ones 5).
    rewrite (lead_value 5 192 32) by (done || lia). left. change (2 ^ 6)%N with 64%N. lia. }
  destruct ((224 <=? N_of_ascii x0)%N && (N_of_ascii x0 <=? 239)%N) eqn:C2.
  { apply andb_true_iff in C2 as [C2 C3]. rewrite N.leb_le in C2, C3. destruct l1 as [|x1 l2]; [by constructor|].
    destruct (second_bounds (N_of_ascii x0)) as [B1 B2].
    destruct (cont_in (second_lo _) _ x1) eqn:K; [|constructor; [done|apply IH; cbn; lia]]. destruct l2 as [|x2 l3]; [by constructor|].
    destruct (cont_in 128 191 x2) eqn:K'; constructor; try done; try (apply IH; cbn; lia).
    apply cont_value in K as [[K1 K2] K3]; [|done..]. apply cont_value in K' as [K4 K5]; [|lia..].
    change 15%N with (N.ones 4). rewrite (lead_value 4 224 16) by (done || lia).
    rewrite (lor_shift (low6 x1) 6) by done. rewrite (lor_shift _ 12) by (change (2 ^ 12)%N with 4096%N; change (2 ^ 6)%N with 64%N; lia).
    change (2 ^ 12)%N with 4096%N. change (2 ^ 6)%N with 64%N. unfold second_hi in K2. unfold scalar.
    destruct (N.eqb_spec (N_of_ascii x0) 237); [left; lia|]. lia. }
  destruct ((240 <=? N_of_ascii x0)%N && (N_of_ascii x0 <=? 244)%N) eqn:C3; [|constructor; [done|apply IH; cbn; lia]].
  apply andb_true_iff in C3 as [C3 C4]. rewrite N.leb_le in C3, C4. destruct l1 as [|x1 l2]; [by constructor|].
  destruct (second_bounds (N_of_ascii x0)) as [B1 B2].
  destruct (cont_in (second_lo _) _ x1) eqn:K; [|constructor; [done|apply IH; cbn; lia]]. destruct l2 as [|x2 l3]; [by constructor|].
  destruct (cont_in 128 191 x2) eqn:K'; [|constructor; [done|apply IH; cbn; lia]]. destruct l3 as [|x3 l4]; [by constructor|].
  destruct (cont_in 128 191 x3) eqn:K''; constructor; try done; try (apply IH; cbn; lia).
  apply cont_value in K as [[K1 K2] K3]; [|done..]. apply cont_value in K' as [K4 K5]; [|lia..]. apply cont_value in K'' as [K6 K7]; [|lia..].
  change 7%N with (N.ones 3). rewrite (lead_value 3 240 8) by (done || lia).
  rewrite (lor_shift (low6 x2) 6) by done. rewrite (lor_shift (low6 x1) 12) by (change (2 ^ 12)%N with 4096%N; change (2 ^ 6)%N with 64%N; lia).
  rewrite (lor_shift _ 18) by (change (2 ^ 18)%N with 262144%N; change (2 ^ 12)%N with 4096%N; change (2 ^ 6)%N with 64%N; lia).
  change (2 ^ 18)%N with 262144%N. change (2 ^ 12)%N with 4096%N. change (2 ^ 6)%N with 64%N. unfold second_lo, second_hi in K1, K2. unfold scalar. right.
  destruct (N.eqb_spec (N_of_ascii x0) 224), (N.eqb_spec (N_of_ascii x0) 240), (N.eqb_spec (N_of_ascii x0) 237), (N.eqb_spec (N_of_ascii x0) 244); lia.
Qed.

(** ** The ESXi boot configurations *)

Lemma splitlines_chars (P : N → Prop) s : Forall P s → Forall (Forall P) (splitlines s).
Proof.
  unfold splitlines. assert (Forall P []) as H0 by constructor. revert H0. generalize (@nil N) as cur.
  revert s. refine (induction_ltof1 _ (@length N) _ _). unfold ltof. intros [|c s] IH cur Hcur Hs.
  { cbn. destruct cur as [|x cur]; [constructor|by apply Forall_singleton]. }
  apply Forall_cons in Hs as [Hc Hs]. rewrite splitlines_cons. destruct (decide (c = 13%N)); [|destruct (is_line_break c) eqn:E].
  - constructor; [done|]. destruct s as [|d s]; [by apply IH; [cbn; lia|constructor..]|].
    case_decide; (apply IH; [cbn; lia|constructor|]); [by apply Forall_cons in Hs as [_ Hs]|done].
  - constructor; [done|]. apply IH; [cbn; lia|constructor|done].
  - apply IH; [cbn; lia| |done]. apply Forall_app. by repeat constructor.
Qed.

Lemma join_str_chars (P : N → Prop) sep ls : Forall P sep → Forall (Forall P) ls → Forall P (join_str sep ls).
Proof.
  intros Hs Hls. destruct Hls as [|l ls Hl Hls]; [constructor|]. cbn [join_str]. apply Forall_app. split; [done|].
  induction Hls as [|l' ls Hl' _ IH]; [constructor|]. cbn [fmap list_fmap concat]. rewrite !Forall_app. auto.
Qed.

Lemma contains_app {A} `{EqDecision A} (p l1 s l2 : list A) : contains_sub p s = true → contains_sub p (l1 ++ s ++ l2) = true.
Proof.
  rewrite !contains_sub_spec. intros (a & c & ->). exists (l1 ++ a), (c ++ l2). by rewrite <-!app_assoc.
Qed.

Lemma contains_join p sep ls l : l ∈ ls → contains_sub p l = true → contains_sub p (join_str sep ls) = true.
Proof.
  destruct ls as [|x ls]; [by intros ?%not_elem_of_nil|]. cbn [join_str]. intros [->|Hl]%elem_of_cons Hp.
  { apply (contains_app _ []). done. }
  apply list_elem_of_split in Hl as (l1 & l2 & ->). rewrite fmap_app, fmap_cons, concat_app. cbn [concat].
  rewrite <-!app_assoc, !app_assoc, <-(app_assoc _ l). by apply contains_app.
Qed.

Definition kernelopt_line (l : pystr) : pystr := if starts_with KERNELOPT l then KERNELOPT_LINE else l.
Definition patched_lines (ls : list pystr) : list pystr :=
  (kernelopt_line <$> ls) ++ (if existsb (starts_with KERNELOPT) ls then [] else [KERNELOPT_LINE]).

Lemma patched_lines_have ls : KERNELOPT_LINE ∈ patched_lines ls.
Proof.
  unfold patched_lines. apply elem_of_app. destruct (existsb (starts_with KERNELOPT) ls) eqn:E; [|right; set_solver]. left.
  apply existsb_exists in E as (l & Hl%list_elem_of_In & He). apply list_elem_of_fmap. exists l. unfold kernelopt_line. by rewrite He.
Qed.

Lemma patched_lines_Forall (P : N → Prop) ls : Forall P KERNELOPT_LINE → Forall (Forall P) ls → Forall (Forall P) (patched_lines ls).
Proof.
  intros Hk Hls. apply Forall_app. split; [|destruct (existsb (starts_with KERNELOPT) ls); [constructor|by apply Forall_singleton]].
  apply Forall_fmap. eapply Forall_impl; [exact Hls|]. intros l Hl. cbn. unfold kernelopt_line. by destruct (starts_with _ l).
Qed.

Lemma patch_bootcfg_lines raw :
  contains_sub KS_SOURCE (decode_replace raw) = false →
  ∃ sep, is_sep_text sep ∧
    decode_replace (patch_bootcfg raw) = join_str sep (patched_lines (splitlines (decode_replace raw))) ++ sep.
Proof.
  intros Hk. unfold patch_bootcfg, bootcfg_step. rewrite Hk, (foldl_patch _ (λ _, KERNELOPT_LINE)). cbn [app orb].
  change (λ l, if starts_with KERNELOPT l then KERNELOPT_LINE else l) with kernelopt_line.
  set (sep := if contains_sub [CR; LF] raw then [13; 10]%N else [10%N]). exists sep.
  assert (is_sep_text sep) as Hsep by (unfold sep, is_sep_text; destruct (contains_sub [CR; LF] raw); [by right|by left]). split; [done|].
  set (ls := splitlines (decode_replace raw)).
  replace (if existsb (starts_with KERNELOPT) ls then _ else _) with (patched_lines ls)
    by (unfold patched_lines; destruct (existsb (starts_with KERNELOPT) ls); [by rewrite app_nil_r|done]).
  apply decode_utf8. assert (Forall scalar sep) as Hs by (destruct Hsep as [->| ->]; repeat constructor).
  apply Forall_app. split; [|done]. apply join_str_chars; [done|]. apply patched_lines_Forall.
  - apply Forall_forall. intros c Hc. left. assert (forallb (λ c, (c <? 128)%N) KERNELOPT_LINE = true) as H by (vm_compute; reflexivity).
    rewrite forallb_forall in H. specialize (H c). rewrite N.ltb_lt in H. pose proof (H (proj1 (list_elem_of_In _ _) Hc)). lia.
  - apply splitlines_chars, decode_scalar.
Qed.

(** A boot configuration is patched where it must be and nowhere else.  The result
    starts the installer from [ks.cfg]; a file that already does is not touched; of any
    other the lines are kept in order, those that set [kernelopt] replaced, and the line
    added at the end when there was none; patching twice is patching once. *)
Theorem bootcfg_exact raw :
  contains_sub KS_SOURCE (decode_replace (patch_bootcfg raw)) = true ∧
  patch_bootcfg (patch_bootcfg raw) = patch_bootcfg raw ∧
  (contains_sub KS_SOURCE (decode_replace raw) = true → patch_bootcfg raw = raw) ∧
  (contains_sub KS_SOURCE (decode_replace raw) = false →
    splitlines (decode_replace (patch_bootcfg raw)) = patched_lines (splitlines (decode_replace raw))).
Proof.
  assert (contains_sub KS_SOURCE (decode_replace raw) = true → patch_bootcfg raw = raw) as Hkeep.
  { intros H. unfold patch_bootcfg. by rewrite H. }
  assert (contains_sub KS_SOURCE (decode_replace (patch_bootcfg raw)) = true) as Hhas.
  { destruct (contains_sub KS_SOURCE (decode_replace raw)) eqn:E; [by rewrite Hkeep|].
    destruct (patch_bootcfg_lines raw E) as (sep & _ & ->). apply (contains_app _ []).
    eapply contains_join; [apply patched_lines_have|]. vm_compute. reflexivity. }
  split_and!; [done| |done|].
  - unfold patch_bootcfg at 1. by rewrite Hhas.
  - intros E. destruct (patch_bootcfg_lines raw E) as (sep & Hsep & ->). apply splitlines_join; [done| |].
    + pose proof (patched_lines_have (splitlines (decode_replace raw))). by destruct (patched_lines _); [apply not_elem_of_nil in H|].
    + apply patched_lines_Forall; [by apply no_break_const|apply splitlines_no_break].
Qed.

(** ** The kickstart on the console *)

(** [%post] runs in the installer: a shell that knows assignments of plain words, the
    [vsish] call that logs a quoted text, and variables in braces. *)
Definition is_header (l : text) : bool := starts_with (b "%") l.
Fixpoint post_section (ls : list text) : list text :=
  match ls with
  | [] => []
  | l :: ls => if starts_with (b "%post") l then take_while (λ l, negb (is_header l)) ls else post_section ls
  end.

Definition name_char (c : ascii) : bool := is_alnum c || bool_decide (c = chr 95).
Fixpoint expand (fuel : nat) (env : list (text * text)) (l : text) : text :=
  match fuel, l with
  | S fuel, c :: l' =>
      if starts_with (b "${") l then
        let name := take_while name_char (drop 2 l) in
        default [] (snd <$> List.find (λ kv, bool_decide (kv.1 = name)) env) ++ expand fuel env (drop (3 + length name) l)
      else c :: expand fuel env l'
  | _, _ => []
  end.

Definition VSISH : text := b "vsish -e set /system/log " ++ dq.
(** The lines the section logs. *)
Fixpoint post_messages (env : list (text * text)) (ls : list text) : list text :=
  match ls with
  | [] => []
  | l :: ls =>
      if starts_with VSISH l then
        let message := take (length l - length VSISH - 1) (drop (length VSISH) l) in
        expand (length message) env message :: post_messages env ls
      else match drop_while name_char l with
      | c :: value => if decide (c = EQUALS) then post_messages ((take_while name_char l, value) :: env) ls else post_messages env ls
      | [] => post_messages env ls
      end
  end.

Example ks_result_logs : post_messages [] (drop 1 ks_result) = [b "TESTRANGE-RESULT: ok"].
Proof. vm_compute. reflexivity. Qed.

Lemma find_cut (p l1 l2 : text) : find NL p = None → find p l1 = None → find p l2 = None → find p (l1 ++ LF :: l2) = None.
Proof.
  intros Hnl H1 H2. apply (proj2 (find_None _ _)). intros j Hp.
  pose proof (pat_after_line p l1 l2 j Hnl H1 Hp) as Hj. pose proof (proj1 (find_None _ _) H2 (j - S (length l1))) as Hn. apply Hn.
  replace j with (length (l1 ++ [LF]) + (j - S (length l1))) in Hp by (rewrite length_app; cbn; lia).
  change (l1 ++ LF :: l2) with (l1 ++ [LF] ++ l2) in Hp. rewrite app_assoc, drop_shift in Hp. done.
Qed.

Lemma find_lines (p : text) ls : p ≠ [] → find NL p = None → Forall (λ l, find p l = None) ls → find p (lines ls) = None.
Proof.
  intros Hp Hnl Hls. destruct Hls as [|l ls Hl Hls]; [by destruct p|]. unfold lines. rewrite join_with_cons.
  revert l Hl. induction Hls as [|l' ls Hl' _ IH]; intros l Hl; cbn [fmap list_fmap concat]; [by rewrite app_nil_r|].
  apply find_cut; [done..|]. by apply IH.
Qed.

(** A text whose first character is not in front of [s]. *)
Lemma find_after (p pre s : text) : Forall (λ c, Some c ≠ head p) pre → find p s = None → find p (pre ++ s) = None.
Proof.
  intros Hpre Hs. induction Hpre as [|c pre Hc _ IH]; [done|]. cbn [app find].
  destruct p as [|x p]; [by destruct s|]. cbn [starts_with].
  rewrite bool_decide_false by (intros ->; done). cbn [andb]. by rewrite IH.
Qed.

Definition silent (t : text) : Prop := find RESULT_MARKER t = None.

Lemma silent_lines ls : forallb (λ l, bool_decide (find RESULT_MARKER l = None)) ls = true → Forall silent ls.
Proof. intros H%forallb_Forall. eapply Forall_impl; [exact H|]. intros l Hl. by apply bool_decide_eq_true in Hl. Qed.

Lemma kickstart_lines_silent pw key lic fwd :
  silent pw → (∀ k, key = Some k → silent k) → (∀ l, lic = Some l → silent l) → Forall silent (kickstart_lines pw key lic fwd).
Proof.
  intros Hpw Hkey Hlic. assert (∀ pre s, forallb (λ c, bool_decide (Some c ≠ head RESULT_MARKER)) (b pre) = true → silent s → silent (b pre ++ s)) as Hpre.
  { intros pre s H Hs. apply find_after; [|done]. apply forallb_Forall in H. eapply Forall_impl; [exact H|].
    intros c Hc. by apply bool_decide_eq_true in Hc. }
  unfold kickstart_lines, ks_install, firstboot. rewrite !Forall_app. split_and!; try (apply silent_lines; vm_compute; reflexivity).
  - destruct lic as [[|c l]|]; [constructor| |constructor]. apply Forall_singleton, (Hpre "serialnum --esx=" (c :: l)); [vm_compute; reflexivity|exact (Hlic _ eq_refl)].
  - constructor; [apply (Hpre "rootpw " pw); [vm_compute; reflexivity|exact Hpw]|]. apply silent_lines. vm_compute. reflexivity.
  - destruct key as [[|c k]|]; [constructor| |constructor]. rewrite !Forall_app. split_and!.
    + do 2 (constructor; [vm_compute; reflexivity|]). constructor; [exact (Hkey _ eq_refl)|]. apply silent_lines. vm_compute. reflexivity.
    + destruct fwd; [|constructor]. apply silent_lines. vm_compute. reflexivity.
    + apply silent_lines. vm_compute. reflexivity.
Qed.

Lemma has_control_lf t : has_control t = false → LF ∉ t.
Proof.
  intros H Hin. apply not_true_iff_false in H. apply H. apply existsb_exists. exists LF. split; [by apply list_elem_of_In|done].
Qed.

Lemma lf_free_lines (ls : list text) : forallb (λ l, bool_decide (LF ∉ l)) ls = true → Forall (λ l, LF ∉ l) ls.
Proof. intros H%forallb_Forall. eapply Forall_impl; [exact H|]. intros l Hl. by apply bool_decide_eq_true in Hl. Qed.

Lemma kickstart_lines_lf pw key lic fwd :
  LF ∉ pw → (∀ k, key = Some k → LF ∉ k) → (∀ l, lic = Some l → LF ∉ l) → Forall (λ l, LF ∉ l) (kickstart_lines pw key lic fwd).
Proof.
  intros Hpw Hkey Hlic. assert (∀ pre (s : text), bool_decide (LF ∉ b pre) = true → LF ∉ s → LF ∉ b pre ++ s) as Hpre.
  { intros pre s H%bool_decide_eq_true Hs. by rewrite not_elem_of_app. }
  unfold kickstart_lines, ks_install, firstboot. rewrite !Forall_app. split_and!; try (apply lf_free_lines; vm_compute; reflexivity).
  - destruct lic as [[|c l]|]; [constructor| |constructor]. apply Forall_singleton, (Hpre "serialnum --esx=" (c :: l)); [vm_compute; reflexivity|exact (Hlic _ eq_refl)].
  - constructor; [apply (Hpre "rootpw " pw); [vm_compute; reflexivity|exact Hpw]|]. apply lf_free_lines. vm_compute. reflexivity.
  - destruct key as [[|c k]|]; [constructor| |constructor]. rewrite !Forall_app. split_and!.
    + do 2 (constructor; [by apply (bool_decide_unpack (_ ∉ _))|]). constructor; [exact (Hkey _ eq_refl)|]. apply lf_free_lines. vm_compute. reflexivity.
    + destruct fwd; [|constructor]. apply lf_free_lines. vm_compute. reflexivity.
    + apply lf_free_lines. vm_compute. reflexivity.
Qed.

(** Of the whole file, [%post] is what runs in the installer. *)
Lemma post_section_kickstart pw key lic fwd :
  post_section (kickstart_lines pw key lic fwd ++ [[]]) = drop 1 ks_result ++ [[]].
Proof. destruct lic as [[|c l]|]; reflexivity. Qed.

Lemma foldM_unit {A} (f : A → res ()) l u : foldM (λ _, f) u l = Ok () → ∀ x, x ∈ l → f x = Ok ().
Proof.
  revert u. induction l as [|y l IH]; intros u; cbn [foldM]; [intros _ x ?%not_elem_of_nil; done|].
  intros ([] & Hy & H)%bind_Ok x [->|Hx]%elem_of_cons; [done|by eapply IH].
Qed.

Lemma root_credential_elem creds root : root_credential creds = Ok root → root ∈ creds.
Proof.
  induction creds as [|c creds IH]; cbn [root_credential]; [done|]. case_decide; [intros [= ->]; set_solver|].
  intros Hin%IH. set_solver.
Qed.

(** What an accepted builder bakes has no control characters. *)
Lemma kickstart_builder_clean bd bd' :
  new_kickstart_builder bd = Ok bd' → ∃ root, root_credential (ek_credentials bd) = Ok root ∧
    has_control (b (default "" (cr_password root))) = false ∧
    (∀ k, cr_ssh_key root = Some k → has_control (b (auth_line k)) = false) ∧
    (∀ l, ek_license bd = Some l → has_control (b l) = false) ∧
    (ek_enable_ssh bd = true → is_Some (cr_ssh_key root)).
Proof.
  unfold new_kickstart_builder, validate_credentials, validate_license, reject_control_chars. intros H.
  apply bind_Ok in H as ([] & Hc & H). apply bind_Ok in H as ([] & Hl & H). apply bind_Ok in H as (root & Hr & H).
  apply bind_Ok in H as ([] & Hs & _). apply bind_Ok in Hc as (root' & Hr' & Hc). rewrite Hr in Hr'. injection Hr' as <-.
  apply bind_Ok in Hc as ([] & _ & Hc). apply bind_Ok in Hc as ([] & Hp & Hc). apply bind_Ok in Hc as ([] & _ & Hc).
  apply bind_Ok in Hc as ([] & Hk & _). exists root. split; [done|]. unfold raise_if in *. split_and!.
  - by destruct (has_control _).
  - intros k Hkey. pose proof (foldM_unit _ _ _ Hk root (root_credential_elem _ _ Hr)) as Hroot. cbv beta in Hroot.
    rewrite Hkey in Hroot. by destruct (has_control (b (auth_line k))).
  - intros l Hlic. rewrite Hlic in Hl. apply bind_Ok in Hl as ([] & Hl & _). by destruct (has_control (b l)).
  - intros He. rewrite He in Hs. cbn [andb] in Hs. destruct (cr_ssh_key root); [done|]. by rewrite bool_decide_true in Hs.
Qed.

Section Console.
Context `{Unicode}.

Lemma parse_silent t final : silent t → parse_build_result t final = Ok None.
Proof. intros Ht. unfold parse_build_result. cbn [marker_offsets]. unfold find_from. change (drop 0 t) with t. unfold silent in Ht. rewrite Ht. done. Qed.

(** The kickstart cannot fake its own verdict.  The installer echoes the whole file to
    the console; for a builder that was accepted and whose password, key and license do
    not spell the marker, the orchestrator reads no result in it, complete or not.  What
    the [%post] section of that same file logs when it runs is read as success, after
    the echo and whatever follows. *)
Theorem kickstart_silent bd root ks post final :
  new_kickstart_builder bd = Ok bd → root_credential (ek_credentials bd) = Ok root → builder_kickstart bd = Ok ks →
  silent (b (default "" (cr_password root))) → (∀ k, cr_ssh_key root = Some k → silent (b (auth_line k))) →
  (∀ l, ek_license bd = Some l → silent (b l)) →
  parse_build_result ks final = Ok None ∧
  parse_build_result (ks ++ lines (post_messages [] (post_section (split_on LF ks))) ++ LF :: post) final =
    Ok (Some (MkBuildResult true None None [])).
Proof.
  intros Hbd Hroot Hks Hpw Hkey Hlic.
  destruct (kickstart_builder_clean _ _ Hbd) as (root' & Hr & Hcp & Hck & Hcl & _). rewrite Hroot in Hr. injection Hr as <-.
  unfold builder_kickstart in Hks. rewrite Hroot in Hks. cbn [mbind result_bind] in Hks. unfold render_kickstart in Hks.
  apply bind_Ok in Hks as ([] & _ & ->%ret_Ok_inv).
  set (key := if ek_enable_ssh bd then b ∘ auth_line <$> cr_ssh_key root else None).
  assert (∀ (P : text → Prop), (∀ k, cr_ssh_key root = Some k → P (b (auth_line k))) → ∀ k, key = Some k → P k) as Hk.
  { intros P HP k. unfold key. destruct (ek_enable_ssh bd); [|done]. intros (x & Hx & ->)%fmap_Some. by apply HP. }
  assert (∀ (P : text → Prop), (∀ l, ek_license bd = Some l → P (b l)) → ∀ l, b <$> ek_license bd = Some l → P l) as Hl.
  { intros P HP l (x & Hx & ->)%fmap_Some. by apply HP. }
  assert (silent (lines (kickstart_lines (b (default "" (cr_password root))) key (b <$> ek_license bd) (ek_allow_tcp_forwarding bd)) ++ [LF])) as Hs.
  { apply (find_cut _ _ []); [done| |done]. apply find_lines; [done|done|]. apply kickstart_lines_silent; [done|by apply Hk|by apply Hl]. }
  split; [by apply parse_silent|].
  rewrite split_lines_end; [|apply kickstart_lines_lf; [by apply has_control_lf|apply Hk|apply Hl]; intros; apply has_control_lf; auto|done].
  rewrite post_section_kickstart.
  change (lines (post_messages [] (drop 1 ks_result ++ [[]]))) with (RESULT_MARKER ++ b " ok").
  rewrite <-(app_assoc RESULT_MARKER). apply parse_ok_record; done.
Qed.
End Console.

(** ** The key of an installed ESXi disk *)

Lemma esxi_hash_lines (pw key lic ks disk fw base side : text) :
  b "root-password:" ++ pw ++ SEP ++ b "ssh-key:" ++ key ++ SEP ++ b "license:" ++ lic ++ SEP ++ b "kickstart:" ++ ks ++ SEP ++
  b "disk:" ++ disk ++ SEP ++ b "firmware:" ++ fw ++ SEP ++ b "kernelopt:" ++ KICKSTART_KERNELOPT ++ SEP ++
  b "base:" ++ base ++ SEP ++ b "sidecar:" ++ side =
  lines [b "root-password:" ++ pw; MARKER; b "ssh-key:" ++ key; MARKER; b "license:" ++ lic; MARKER; b "kickstart:" ++ ks; MARKER;
    b "disk:" ++ disk; MARKER; b "firmware:" ++ fw; MARKER; b "kernelopt:" ++ KICKSTART_KERNELOPT; MARKER;
    b "base:" ++ base; MARKER; b "sidecar:" ++ side].
Proof.
  unfold lines, SEP. rewrite join_with_cons. cbn [fmap list_fmap concat]. rewrite <-?app_assoc.
  rewrite app_nil_r. reflexivity.
Qed.

Lemma lines_inj ls1 ls2 :
  ls1 ≠ [] → ls2 ≠ [] → Forall (λ l, LF ∉ l) ls1 → Forall (λ l, LF ∉ l) ls2 → lines ls1 = lines ls2 → ls1 = ls2.
Proof. intros H1 H2 F1 F2 H%(f_equal (split_on LF)). unfold lines in H. by rewrite !split_on_join in H. Qed.

Record esxi_inputs : Type := MkEsxiInputs {
  ei_builder : ESXiKickstartBuilder;
  ei_spec : VMSpec;
  ei_base_sha : string;
  ei_sidecar_sha : string;
}.

(** An accepted builder, a spec whose firmware is one of the two, and digests. *)
Definition esxi_inputs_ok (i : esxi_inputs) : Prop :=
  new_kickstart_builder (ei_builder i) = Ok (ei_builder i) ∧ firmware (ei_spec i) ∈ FIRMWARES ∧
  LF ∉ b (ei_base_sha i) ∧ LF ∉ b (ei_sidecar_sha i).
Definition esxi_key_text (i : esxi_inputs) : res text :=
  esxi_hash_input (ei_builder i) (ei_spec i) (ei_base_sha i) (ei_sidecar_sha i).
Definition esxi_key (i : esxi_inputs) : res string :=
  esxi_config_hash (ei_builder i) (ei_spec i) (ei_base_sha i) (ei_sidecar_sha i).

Definition digest16 (t : text) : text := take 16 (sha256_chars t).

Lemma digest_no_lf t : LF ∉ digest16 t.
Proof.
  unfold digest16. pose proof (sha256_hex t) as H. generalize dependent (sha256_chars t). intros l Hl Hin.
  eapply Forall_take in Hl. rewrite Forall_forall in Hl. by apply Hl in Hin.
Qed.

Lemma esxi_key_text_inv i t :
  esxi_inputs_ok i → esxi_key_text i = Ok t →
  ∃ root ks os, root_credential (ek_credentials (ei_builder i)) = Ok root ∧ builder_kickstart (ei_builder i) = Ok ks ∧
    os_drive (ei_spec i) = Ok os ∧
    t = lines [b "root-password:" ++ b (default "" (cr_password root)); MARKER;
      b "ssh-key:" ++ b (from_option auth_line "" (cr_ssh_key root)); MARKER;
      b "license:" ++ b (default "None" (ek_license (ei_builder i))); MARKER; b "kickstart:" ++ digest16 ks; MARKER;
      b "disk:" ++ str_int (d_size_gb os); MARKER; b "firmware:" ++ b (firmware (ei_spec i)); MARKER;
      b "kernelopt:" ++ KICKSTART_KERNELOPT; MARKER; b "base:" ++ b (ei_base_sha i); MARKER; b "sidecar:" ++ b (ei_sidecar_sha i)] ∧
    LF ∉ b (default "" (cr_password root)) ∧ LF ∉ b (from_option auth_line "" (cr_ssh_key root)) ∧
    LF ∉ b (default "None" (ek_license (ei_builder i))).
Proof.
  intros (Hbd & _). unfold esxi_key_text, esxi_hash_input. intros (root & Hr & H)%bind_Ok. apply bind_Ok in H as (ks & Hks & H).
  apply bind_Ok in H as (os & Hos & ->%ret_Ok_inv). exists root, ks, os. split_and!; [exact Hr|exact Hks|exact Hos|apply esxi_hash_lines|..].
  all: destruct (kickstart_builder_clean _ _ Hbd) as (root' & Hr' & Hcp & Hck & Hcl & _); rewrite Hr in Hr'; injection Hr' as <-.
  - by apply has_control_lf.
  - destruct (cr_ssh_key root) as [k|]; [|by apply (bool_decide_unpack (_ ∉ _))]. apply has_control_lf. by apply Hck.
  - destruct (ek_license (ei_builder i)) as [l|]; [|by apply (bool_decide_unpack (_ ∉ _))]. apply has_control_lf. by apply Hcl.
Qed.

Lemma lf_free_app pre (t : text) : bool_decide (LF ∉ b pre) = true → LF ∉ t → LF ∉ b pre ++ t.
Proof. intros H%bool_decide_eq_true Ht. by rewrite not_elem_of_app. Qed.

(** The key of an installed ESXi disk covers what is installed.  Two builds of accepted
    builders with the same key have the same kickstart (so the same root password, key,
    license and forwarding), disk size, firmware, installer image and sidecar image,
    unless two different texts that were hashed collide in 16 digits of SHA-256: the two
    key texts, or the two kickstarts. *)
Theorem esxi_hash_covers i j h :
  esxi_inputs_ok i → esxi_inputs_ok j → esxi_key i = Ok h → esxi_key j = Ok h →
  (∃ ks1 ks2, builder_kickstart (ei_builder i) = Ok ks1 ∧ builder_kickstart (ei_builder j) = Ok ks2 ∧
    (ks1 = ks2 ∨ ks1 ≠ ks2 ∧ digest16 ks1 = digest16 ks2) ∧
    d_size_gb <$> os_drive (ei_spec i) = d_size_gb <$> os_drive (ei_spec j) ∧ firmware (ei_spec i) = firmware (ei_spec j) ∧
    ei_base_sha i = ei_base_sha j ∧ ei_sidecar_sha i = ei_sidecar_sha j) ∨
  ∃ t1 t2, esxi_key_text i = Ok t1 ∧ esxi_key_text j = Ok t2 ∧ t1 ≠ t2 ∧ digest16 t1 = digest16 t2.
Proof.
  intros Hi Hj (t1 & H1 & E1%ret_Ok_inv)%bind_Ok (t2 & H2 & E2%ret_Ok_inv)%bind_Ok.
  fold (esxi_key_text i) in H1. fold (esxi_key_text j) in H2. rewrite E1 in E2. apply str_inj in E2.
  destruct (decide (t1 = t2)) as [<-|Hne]; [left|right; by exists t1, t2].
  destruct (esxi_key_text_inv _ _ Hi H1) as (r1 & ks1 & o1 & _ & Hk1 & Ho1 & Ht1 & Hp1 & Hs1 & Hl1).
  destruct (esxi_key_text_inv _ _ Hj H2) as (r2 & ks2 & o2 & _ & Hk2 & Ho2 & Ht2 & Hp2 & Hs2 & Hl2).
  destruct Hi as (_ & Hf1 & Hb1 & Hc1), Hj as (_ & Hf2 & Hb2 & Hc2).
  assert (∀ f, f ∈ FIRMWARES → LF ∉ b f) as Hfw.
  { intros f [->|[->|[]%not_elem_of_nil]%elem_of_cons]%elem_of_cons; by apply (bool_decide_unpack (_ ∉ _)). }
  assert (∀ x, LF ∉ str_int x) as Hint by (intros x; by apply not_in_str_int).
  rewrite Ht1 in Ht2. apply lines_inj in Ht2; [|done|done|..].
  2,3: repeat (constructor; [first [by apply (bool_decide_unpack (_ ∉ _))|apply lf_free_app; [done|]]; auto using digest_no_lf|]); constructor.
  exists ks1, ks2. rewrite Ho1, Ho2. pose proof (λ k, f_equal (lookup k) Ht2) as Hat.
  assert (∀ pre (x y : text), Some (b pre ++ x) = Some (b pre ++ y) → x = y) as Hinj by (intros pre x y [= ?%app_inv_head]; done).
  pose proof (Hinj _ _ _ (Hat 6)) as Hks. pose proof (Hinj _ _ _ (Hat 8)) as Hd%str_int_inj. pose proof (Hinj _ _ _ (Hat 10)) as Hf.
  pose proof (Hinj _ _ _ (Hat 14)) as Hb. pose proof (Hinj _ _ _ (Hat 16)) as Hc. apply chars_inj in Hf, Hb, Hc.
  split_and!; [done|done| |cbn; congruence|done|done|done].
  destruct (decide (ks1 = ks2)); [by left|by right].
Qed.

(** ** The prepared Proxmox image

    [tree data] is the file tree of an image.  Of [xorriso] its documented behaviour is
    used: extracting copies the file, if the image has it, and writes nothing else;
    committing writes the output image only, and on success its tree is the input's with
    the mapped files put in.  Of [mkdtemp]: nothing lies in the directory, and the two
    kinds of directory, one beside the prepared image and one of the system, do not
    contain one another or a file beside them. *)
Section Media.
Context {HT : Host} (tree : bytes → option (gmap string bytes)).

Definition map_args (maps : list (string * string)) : list string := concat ((λ m, ["-map"; m.1; m.2]) <$> maps).
Definition with_maps (w : files) (t : gmap string bytes) (maps : list (string * string)) : gmap string bytes :=
  foldl (λ t m, match w !! m.1 with Some data => <[m.2 := data]> t | None => t end) t maps.

Definition tree_at (w : files) (iso : string) : option (gmap string bytes) := match w !! iso with Some data => tree data | None => None end.
Definition in_image (w : files) (iso path : string) : option bytes := match tree_at w iso with Some t => t !! path | None => None end.

Record xorriso_ok (parent : string) : Prop := {
  xo_fresh : ∀ prefix w p, below (mkdtemp prefix w) p = true → w !! p = None;
  xo_apart : ∀ w w' p, below (mkdtemp (in_dir parent ".tr-prep-") w) p = true →
    below (mkdtemp "testrange-pve-prep-" w') p = false;
  xo_beside : ∀ w name, SLASH ∉ b name → below (mkdtemp (in_dir parent ".tr-prep-") w) (in_dir parent name) = false;
  xo_extract : ∀ x iso path dest w r w', run_program (extract_argv x iso path dest) w = (r, w') →
    (∀ p, p ≠ dest → w' !! p = w !! p) ∧
    (is_ok r = true → w' !! dest = match in_image w iso path with Some data => Some data | None => w !! dest end);
  xo_commit_only : ∀ x vanilla out mode boot args w r w',
    run_program (pve_commit_argv x vanilla out mode boot args) w = (r, w') → ∀ p, p ≠ out → w' !! p = w !! p;
  xo_commit : ∀ x vanilla out mode boot maps w c w',
    run_program (pve_commit_argv x vanilla out mode boot (map_args maps)) w = (Ok c, w') → returncode c = 0%Z →
    ∃ img base, w' !! out = Some img ∧ tree_at w vanilla = Some base ∧
      tree img = Some (with_maps w base ([(mode, "/auto-installer-mode.toml"); (boot, "/proxmox-first-boot")] ++ maps));
}.

(** The tree of the prepared image, from that of the vanilla one. *)
Definition prepared_tree (label script : text) (base : gmap string bytes) (cfg : option pystr) : gmap string bytes :=
  let t := <["/proxmox-first-boot" := script]> (<["/auto-installer-mode.toml" := auto_installer_mode_toml label]> base) in
  match cfg with Some c => <[GRUB_CFG_ISO_PATH := utf8 c]> t | None => t end.
Definition rewritten (base : gmap string bytes) : res (option pystr) :=
  match base !! GRUB_CFG_ISO_PATH with
  | Some data => cfg ← decode_text data ≫= grub_with_serial_console; mret (Some cfg)
  | None => mret None
  end.

Context (parent : string) (Hx : xorriso_ok parent).

Lemma touches_run_checked (P : string → Prop) err argv : touches P (run_program argv) → touches P (run_checked err argv).
Proof.
  intros H. unfold run_checked. apply touches_bind; [|intros; apply touches_lift].
  apply touches_catch; [done|intros; apply touches_lift].
Qed.

Lemma touches_prepare_iso vanilla out label script : touches (λ p, p = out) (pve_prepare_iso vanilla out label script).
Proof using Hx.
  unfold pve_prepare_iso. destruct (which "xorriso") as [x|]; [|apply touches_lift].
  apply touches_bind; [by apply touches_unlink|intros _]. apply touches_tempdir; [apply (xo_fresh _ Hx)|]. intros td.
  apply touches_bind; [apply touches_write; right; apply below_in_dir|intros _].
  apply touches_bind; [apply touches_write; right; apply below_in_dir|intros _].
  apply touches_bind; [|intros found; apply touches_bind].
  - unfold extract_grub_cfg. apply touches_bind; [|intros; apply touches_gets].
    intros w r w' H p Hp. apply (xo_extract _ Hx) in H as [H _]. apply H. intros ->. apply Hp. right. apply below_in_dir.
  - destruct found; [|apply touches_ret]. apply touches_bind; [by intros w r w' [= <- <-]|intros data].
    apply touches_bind; [apply touches_lift|intros cfg]. apply touches_bind; [|intros _; apply touches_ret].
    apply touches_write. right. apply below_in_dir.
  - intros grub_map. apply touches_run_checked. intros w r w' H p Hp. apply (xo_commit_only _ Hx) with (p := p) in H; [done|].
    intros ->. apply Hp. by left.
Qed.

(** On success the image is there; the directory of the temporary files is gone, so
    what they held is read off the run. *)
Lemma prepare_iso_Ok vanilla out label script w w' :
  vanilla ≠ out → is_Some (w !! vanilla) → (∀ w, below (mkdtemp "testrange-pve-prep-" w) out = false) →
  pve_prepare_iso vanilla out label script w = (Ok (), w') →
  ∃ img base cfg, w' !! out = Some img ∧ tree_at w vanilla = Some base ∧ rewritten base = Ok cfg ∧
    tree img = Some (prepared_tree label script base cfg).
Proof using Hx.
  intros Hne Hv Hout. unfold pve_prepare_iso. destruct (which "xorriso") as [x|]; [|discriminate].
  intros [([] & w0 & [= <-] & H)|(e & H & [=])]%act_bind_inv.
  apply with_tempdir_inv in H as (w1 & H & Hw'). set (td := mkdtemp "testrange-pve-prep-" (delete out w)) in *.
  set (w0 := delete out w) in *. specialize (Hw' out). unfold td in Hw' at 1. rewrite Hout in Hw'. rewrite Hw'. clear Hw'.
  assert (∀ p, below td p = true → w0 !! p = None) as Hfr by (intros p; apply (xo_fresh _ Hx)).
  assert (w0 !! vanilla = w !! vanilla) as Hv0 by (unfold w0; by rewrite lookup_delete_ne).
  assert (∀ n, vanilla ≠ in_dir td n) as Hvd.
  { intros n Heq. pose proof (below_in_dir td n) as Hb. rewrite <-Heq in Hb. apply Hfr in Hb. rewrite Hv0 in Hb.
    destruct Hv. congruence. }
  set (mode := in_dir td "auto-installer-mode.toml") in *. set (boot := in_dir td "proxmox-first-boot") in *.
  set (src := in_dir td "grub-orig.cfg") in *. set (dst := in_dir td "grub.cfg") in *.
  assert (mode ≠ boot ∧ mode ≠ src ∧ mode ≠ dst ∧ boot ≠ src ∧ boot ≠ dst ∧ src ≠ dst) as (N1 & N2 & N3 & N4 & N5 & N6)
    by (split_and!; intros [=]%in_dir_inj).
  rewrite (act_bind_Ok _ _ _ () (<[mode := auto_installer_mode_toml label]> w0)) in H by done.
  rewrite (act_bind_Ok _ _ _ () (<[boot := script]> (<[mode := auto_installer_mode_toml label]> w0))) in H by done.
  set (w2 := <[boot := script]> (<[mode := auto_installer_mode_toml label]> w0)) in *.
  assert (w2 !! vanilla = w !! vanilla) as Hv2 by (unfold w2; by rewrite !lookup_insert_ne by (intros Heq; by eapply Hvd)).
  assert (w2 !! src = None) as Hs2.
  { unfold w2. rewrite !lookup_insert_ne by done. apply Hfr, below_in_dir. }
  apply act_bind_inv in H as [(found & w3 & Hex & H)|(e & _ & [=])].
  unfold extract_grub_cfg in Hex. apply act_bind_inv in Hex as [(c & w3' & Hex & [= <- <-])|(e & _ & [=])].
  apply (xo_extract _ Hx) in Hex as [Hkeep Hsrc]. specialize (Hsrc eq_refl). rewrite Hs2 in Hsrc.
  assert (w3' !! mode = Some (auto_installer_mode_toml label : bytes)) as Hm3.
  { rewrite Hkeep by done. unfold w2. rewrite lookup_insert_ne by done. by rewrite lookup_insert_eq. }
  assert (w3' !! boot = Some (script : bytes)) as Hb3 by (rewrite Hkeep by done; unfold w2; by rewrite lookup_insert_eq).
  assert (w3' !! vanilla = w !! vanilla) as Hv3 by (rewrite Hkeep by apply Hvd; done).
  assert (in_image w2 vanilla GRUB_CFG_ISO_PATH = match tree_at w vanilla with Some t => t !! GRUB_CFG_ISO_PATH | None => None end) as Hin.
  { unfold in_image, tree_at. by rewrite Hv2. }
  rewrite Hin in Hsrc. clear Hin. case_bool_decide as Hfound.
  - destruct (tree_at w vanilla) as [base|] eqn:Hbase; [|rewrite Hsrc in Hfound; by destruct Hfound].
    destruct (base !! GRUB_CFG_ISO_PATH) as [data|] eqn:Hg; [|rewrite Hsrc in Hfound; by destruct Hfound].
    apply act_bind_inv in H as [(gm & w4 & Hgm & H)|(e & _ & [=])].
    rewrite (act_bind_Ok _ _ _ data w3') in Hgm by (unfold read_file_at; by rewrite Hsrc).
    apply act_bind_inv in Hgm as [(cfg & w5 & [= Hcfg <-] & Hgm)|(e & _ & [=])].
    injection Hgm as <- <-. apply run_checked_Ok in H as (r & Hrun & Hz).
    change ["-map"; dst; GRUB_CFG_ISO_PATH] with (map_args [(dst, GRUB_CFG_ISO_PATH)]) in Hrun.
    destruct (xo_commit _ Hx _ _ _ _ _ _ _ _ _ Hrun Hz) as (img & base' & Himg & Hb' & Ht).
    unfold tree_at in Hb'. rewrite lookup_insert_ne in Hb' by (intros Heq; by eapply Hvd). rewrite Hv3 in Hb'.
    change (tree_at w vanilla = Some base') in Hb'. rewrite Hbase in Hb'. injection Hb' as <-.
    exists img, base, (Some cfg). split_and!; [done|done| |].
    + unfold rewritten. rewrite Hg, Hcfg. done.
    + rewrite Ht. f_equal. unfold with_maps, prepared_tree. cbn [app foldl fst snd].
      rewrite (lookup_insert_ne w3' dst mode), (lookup_insert_ne w3' dst boot) by done. rewrite Hm3, Hb3, lookup_insert_eq. done.
  - rewrite act_bind_ret in H. apply run_checked_Ok in H as (r & Hrun & Hz).
    change (@nil string) with (map_args []) in Hrun.
    destruct (xo_commit _ Hx _ _ _ _ _ _ _ _ _ Hrun Hz) as (img & base & Himg & Hb' & Ht).
    unfold tree_at in Hb'. rewrite Hv3 in Hb'. change (tree_at w vanilla = Some base) in Hb'. rewrite Hb' in Hsrc.
    exists img, base, None. split_and!; [done|done| |].
    + unfold rewritten. destruct (base !! GRUB_CFG_ISO_PATH); [|done]. destruct Hfound. by rewrite Hsrc.
    + rewrite Ht. f_equal. unfold with_maps, prepared_tree. cbn [app foldl fst snd]. by rewrite Hm3, Hb3.
Qed.

Lemma slash_not_in_name stem bd : SLASH ∉ b stem → SLASH ∉ b (pve_prepared_name stem bd).
Proof.
  intros Hs. unfold pve_prepared_name. generalize (first_boot_digest bd ++ [chr 0] ++ b (pa_partition_label bd) ++ [chr 0] ++ PREPARE_ISO_RECIPE).
  intros t. pose proof (sha256_hex t) as Hh. generalize dependent (sha256_chars t). intros l Hl.
  change b with chars in *. rewrite !chars_app, chars_of_list, !not_elem_of_app.
  split_and!; [done|by apply (bool_decide_unpack (_ ∉ _))| |by apply (bool_decide_unpack (_ ∉ _))].
  intros Hin. eapply Forall_take in Hl. rewrite Forall_forall in Hl. by apply Hl in Hin.
Qed.

(** Preparing a boot medium gives the image it should and leaves no other trace.  For
    an existing medium: no other file of the host changes, however preparation ends, and
    when it raises the prepared path is as it was, so a failed preparation is never taken
    for a finished one.  When it returns, it returns the prepared path; an image that was
    there is kept as it is; a new one has the tree of the medium with the activation
    file, the first-boot script and, if the medium has a boot menu, the rewritten menu. *)
Theorem pve_media_exact stem media bd w r w' :
  is_Some (w !! media) → SLASH ∉ b stem → pve_prepare_boot_media parent stem media bd w = (r, w') →
  let prepared := in_dir parent (pve_prepared_name stem bd) in
  (∀ p, p ≠ prepared → w' !! p = w !! p) ∧
  (∀ e, r = Raise e → w' !! prepared = w !! prepared) ∧
  (∀ path, r = Ok path → path = prepared ∧
    (is_Some (w !! prepared) → w' !! prepared = w !! prepared) ∧
    (w !! prepared = None → ∃ img base cfg, w' !! prepared = Some img ∧ tree_at w media = Some base ∧ rewritten base = Ok cfg ∧
      tree img = Some (prepared_tree (b (pa_partition_label bd)) (first_boot_script bd) base cfg))).
Proof using Hx.
  intros Hmedia Hstem H prepared. unfold pve_prepare_boot_media, prepare_cached in H. fold prepared in H.
  unfold file_exists, act_when in H. rewrite act_bind_gets in H. case_bool_decide as Hthere; cbn [negb] in H.
  { rewrite act_bind_ret in H. injection H as <- <-. split_and!; [done..|]. intros path [= <-]. split_and!; [done..|].
    intros Hn. rewrite Hn in Hthere. by destruct Hthere. }
  assert (w !! prepared = None) as Hnone by (destruct (w !! prepared); [by destruct Hthere|done]).
  set (build := λ tmp, pve_prepare_iso media tmp (b (pa_partition_label bd)) (first_boot_script bd)) in *.
  cut (∀ r1 w1, materialize_prepared parent (pve_prepared_name stem bd) build w = (r1, w1) →
    (∀ p, p ≠ prepared → w1 !! p = w !! p) ∧ (∀ e, r1 = Raise e → w1 !! prepared = w !! prepared) ∧
    (r1 = Ok () → ∃ img base cfg, w1 !! prepared = Some img ∧ tree_at w media = Some base ∧ rewritten base = Ok cfg ∧
      tree img = Some (prepared_tree (b (pa_partition_label bd)) (first_boot_script bd) base cfg))).
  { intros Hm. apply act_bind_inv in H as [([] & w1 & H1 & [= <- <-])|(e & H1 & ->)];
      destruct (Hm _ _ H1) as (Hk & He & Hok); split_and!; try done; [|by intros e' [= <-]; eapply He].
    intros path [= <-]. split_and!; [done|by intros [x Hx']; congruence|]. intros _. by apply Hok. }
  clear H r w'. intros r w' H. unfold materialize_prepared in H. fold prepared in H.
  apply with_tempdir_inv in H as (w1 & H & Hw'). set (T := mkdtemp (in_dir parent ".tr-prep-") w) in *.
  set (tmp := in_dir T (pve_prepared_name stem bd)) in *. pose proof (below_in_dir T (pve_prepared_name stem bd)) as Hbt. fold tmp in Hbt.
  pose proof (xo_beside _ Hx w _ (slash_not_in_name stem bd Hstem)) as Hbp. fold T prepared in Hbp.
  assert (∀ p, below T p = true → w !! p = None) as Hfr by (intros p; apply (xo_fresh _ Hx)).
  assert (tmp ≠ prepared) as Htp by congruence.
  assert (media ≠ tmp) as Hmt by (intros ->; apply Hfr in Hbt; destruct Hmedia; congruence).
  assert (∀ w2 r2 w3, build tmp w2 = (r2, w3) → ∀ p, p ≠ tmp → w3 !! p = w2 !! p) as Hbuild.
  { intros w2 r2 w3 Hb p Hp. by eapply touches_prepare_iso. }
  apply act_bind_inv in H as [([] & w2 & H1 & H2)|(e & H1 & ->)].
  - unfold rename in H2. assert (∀ w3, below (mkdtemp "testrange-pve-prep-" w3) tmp = false) as Hap by (intros w3; by eapply (xo_apart _ Hx)).
    destruct (prepare_iso_Ok media tmp _ _ w w2 Hmt Hmedia Hap H1) as (img & base & cfg & Himg & Hb & Hc & Ht).
    rewrite Himg in H2. injection H2 as <- <-. split_and!; [|done|].
    + intros p Hp. rewrite Hw'. destruct (below T p) eqn:E; [by rewrite Hfr|].
      assert (p ≠ tmp) by congruence. rewrite lookup_insert_ne, lookup_delete_ne by done. by eapply Hbuild.
    + intros _. exists img, base, cfg. by rewrite Hw', Hbp, lookup_insert_eq.
  - split_and!; [..|done].
    + intros p Hp. rewrite Hw'. destruct (below T p) eqn:E; [by rewrite Hfr|]. eapply Hbuild; [exact H1|congruence].
    + intros e' _. rewrite Hw', Hbp. by eapply Hbuild.
Qed.
End Media.

(** ** Instances *)
Module InstallerDemo.

Definition demo_creds : list PosixCred :=
  [MkPosixCred "root" true (Some (str (b "pa" ++ dq ++ b "ss\word" ++ [LF]))) (Some (MkKey "" "" "ecdsa-sha2 AAAA root" "ecdsa")) []].
Definition demo_nic : NetworkIface := MkIface (MkNetworkHandle "lan" "sw") (Some (Static (MkStaticAddr "10.0.0.5/24" None []))).
Definition demo_vm : VMSpec :=
  MkVMSpec "pve1" [CPU 2 true; Memory 4096; OSDrive (MkDisk (MkPoolHandle "p") 64); Nic demo_nic] "uefi".
Definition demo_pve : ProxmoxAnswerBuilder :=
  MkAnswer "pve.iso" demo_creds [Apt "jq"] ["echo done"] "us" "en-us" "UTC" "testrange.local" "root@testrange.local" "ext4" "vda"
    "PROXMOX-AIS" "enp1s0" false.

Lemma answer_reads_back_witness :
  ∃ t root net, build_answer_toml demo_pve demo_vm ∅ = Ok t ∧ read_toml t = Some (answer_document demo_pve demo_vm root net).
Proof.
  destruct (build_answer_toml demo_pve demo_vm ∅) as [t|e] eqn:E; [|by vm_compute in E].
  destruct (answer_reads_back demo_pve demo_vm ∅ t E) as (root & net & _ & _ & H). by exists t, root, net.
Defined.

(** *** A boot menu *)

Definition demo_grub : pystr := u "set default=0" ++ [10%N] ++ u "  linux /boot/linux26 ro quiet splash=silent proxmox-start-auto-installer" ++ [10%N] ++
  u "  initrd /boot/initrd.img" ++ [10%N].
Lemma grub_serial_exact_witness : ∃ out, grub_with_serial_console demo_grub = Ok out ∧ grub_with_serial_console out = Ok out.
Proof.
  destruct (proj2 (grub_serial_exact demo_grub)) as (out & H1 & _ & _ & H2); [vm_compute; reflexivity|]. by exists out.
Defined.
Example grub_patched : grub_with_serial_console demo_grub = Ok (u "set default=0" ++ [10%N] ++
  u "  linux /boot/linux26 ro splash=verbose proxmox-start-auto-installer console=ttyS0,115200" ++ [10%N] ++ u "  initrd /boot/initrd.img" ++ [10%N]).
Proof. vm_compute. reflexivity. Qed.

Example bootcfg_crlf :
  patch_bootcfg (b "title=x" ++ [CR; LF] ++ b "kernelopt=cdromBoot runweasel" ++ [CR; LF]) =
    b "title=x" ++ [CR; LF] ++ b "kernelopt=" ++ KICKSTART_KERNELOPT ++ [CR; LF].
Proof. vm_compute. reflexivity. Qed.

(** *** An ESXi node *)

Definition esxi_root : PosixCred := MkPosixCred "root" true (Some "VMware1!") (Some (MkKey "" "" "ecdsa-sha2 AAAA root" "ecdsa")) [].
Definition demo_esxi : ESXiKickstartBuilder := MkKickstart "esxi.iso" [esxi_root] (Some "AAAAA-BBBBB") true true.
Definition demo_unicode : Unicode := {| u_word := λ _, false; u_digit := λ _, None; u_repr := λ _, [] |}.

Lemma kickstart_silent_witness :
  ∃ ks, builder_kickstart demo_esxi = Ok ks ∧ @parse_build_result demo_unicode ks true = Ok None.
Proof.
  destruct (builder_kickstart demo_esxi) as [ks|e] eqn:E; [|by vm_compute in E]. exists ks. split; [done|].
  destruct (@kickstart_silent demo_unicode demo_esxi esxi_root ks [] true) as [H _]; [vm_compute; reflexivity|reflexivity|exact E|..].
  - vm_compute. reflexivity.
  - intros k [= <-]. vm_compute. reflexivity.
  - intros l [= <-]. vm_compute. reflexivity.
  - exact H.
Defined.

(** Without a key there is nothing in [%firstboot] but the backup and the one reboot:
    no [local.sh] is written, although the builder's description has its MAC-follow block
    there "always". *)
Lemma firstboot_without_key fwd : existsb (contains_sub (b "local.sh")) (firstboot None fwd) = false.
Proof. vm_compute. reflexivity. Qed.

Definition demo_inputs : esxi_inputs := MkEsxiInputs demo_esxi demo_vm "ab" "cd".
Lemma esxi_hash_covers_witness : ∃ h, esxi_key demo_inputs = Ok h ∧
  ((∃ ks1 ks2, builder_kickstart demo_esxi = Ok ks1 ∧ builder_kickstart demo_esxi = Ok ks2 ∧
      (ks1 = ks2 ∨ ks1 ≠ ks2 ∧ digest16 ks1 = digest16 ks2)) ∨
   ∃ t1 t2, esxi_key_text demo_inputs = Ok t1 ∧ esxi_key_text demo_inputs = Ok t2 ∧ t1 ≠ t2).
Proof.
  assert (esxi_inputs_ok demo_inputs) as Hok.
  { split; [vm_compute; reflexivity|]. split; [by apply (bool_decide_unpack (_ ∈ _))|]. split; by apply (bool_decide_unpack (_ ∉ _)). }
  destruct (esxi_key demo_inputs) as [h|e] eqn:E; [|by vm_compute in E]. exists h. split; [done|].
  destruct (esxi_hash_covers demo_inputs demo_inputs h Hok Hok E E) as [(k1 & k2 & H1 & H2 & H3 & _)|(t1 & t2 & H1 & H2 & H3 & _)].
  - left. by exists k1, k2.
  - right. by exists t1, t2.
Defined.

(** *** A host

    Images are encoded trees; [xorriso] follows its arguments; a temporary directory has
    a name longer than every path there is. *)

Fixpoint bits (p : positive) : bytes :=
  match p with xH => [] | xO p => chr 48 :: bits p | xI p => chr 49 :: bits p end.
Fixpoint unbits (l : bytes) : positive :=
  match l with [] => xH | c :: l => if decide (c = chr 48) then xO (unbits l) else xI (unbits l) end.
Lemma unbits_bits p : unbits (bits p) = p.
Proof. induction p as [p IH|p IH|]; cbn; [by rewrite IH..|done]. Qed.

Definition image (t : gmap string bytes) : bytes := bits (encode t).
Definition demo_tree (data : bytes) : option (gmap string bytes) := decode (unbits data).
Lemma demo_tree_image t : demo_tree (image t) = Some t.
Proof. unfold demo_tree, image. by rewrite unbits_bits, decode_encode. Qed.

Fixpoint parse_maps (l : list string) : list (string * string) :=
  match l with
  | _ :: f :: p :: l => (f, p) :: parse_maps l
  | _ => []
  end.
Lemma parse_map_args maps : parse_maps (map_args maps ++ ["-commit"]) = maps.
Proof. induction maps as [|[f p] maps IH]; [done|]. cbn. by f_equal. Qed.

Definition longest (w : files) : nat := map_fold (λ k _ n, length (b k) `max` n) 0 w.
Definition long_name (w : files) : string := str (replicate (S (longest w)) (chr 120)).

Definition demo_run (argv : list string) (w : files) : res Completed * files :=
  match argv with
  | [_; "-osirrox"; "on"; "-indev"; iso; "-extract"; path; dest] =>
      (Ok (MkCompleted 0 "" ""), match in_image demo_tree w iso path with Some data => <[dest := data]> w | None => w end)
  | _ :: "-return_with" :: _ :: _ :: _ :: vanilla :: _ :: out :: _ :: _ :: _ :: _ :: _ :: maps =>
      match tree_at demo_tree w vanilla with
      | Some base => (Ok (MkCompleted 0 "" ""), <[out := image (with_maps w base (parse_maps maps))]> w)
      | None => (Ok (MkCompleted 32 "" "no image"), w)
      end
  | _ => (raise FileNotFoundError argv, w)
  end.

Definition demo_host : Host := {|
  which := λ name, Some ("/usr/bin/" +:+ name);
  run_program := demo_run;
  mkdtemp := λ prefix w, (if decide (prefix = "testrange-pve-prep-") then "/tmp/" else "/cache/") +:+ long_name w;
|}.

Lemma longest_le (w : files) p data : w !! p = Some data → length (b p) ≤ longest w.
Proof.
  unfold longest. revert w. refine (map_fold_weak_ind (λ n (w : files), w !! p = Some data → length (b p) ≤ n) _ _ _ _); [by rewrite lookup_empty|].
  intros k x w n _ IH [[<- _]|[_ Hw]]%lookup_insert_Some; [lia|]. specialize (IH Hw). lia.
Qed.

Lemma long_fresh root w p : below (root +:+ long_name w) p = true → w !! p = None.
Proof.
  intros Hb. destruct (w !! p) as [data|] eqn:Hp; [exfalso|done]. apply longest_le in Hp.
  apply starts_with_spec in Hb as [k Hk]. change b with chars in *. apply (f_equal length) in Hk.
  rewrite chars_app, !length_app in Hk. unfold long_name in Hk. rewrite chars_of_list, length_replicate in Hk. lia.
Qed.

Lemma demo_host_ok : @xorriso_ok demo_host demo_tree "/cache".
Proof.
  split.
  - intros prefix w p. cbn [mkdtemp demo_host]. apply long_fresh.
  - intros w w' p. cbn [mkdtemp demo_host]. rewrite decide_False, decide_True by done. intros [k Hk]%starts_with_spec.
    apply not_true_iff_false. intros [k' Hk']%starts_with_spec. rewrite Hk' in Hk. change b with chars in *. rewrite !chars_app in Hk. discriminate.
  - intros w name Hn. cbn [mkdtemp demo_host]. rewrite decide_False by done. apply not_true_iff_false.
    intros [k Hk]%starts_with_spec. apply Hn. unfold in_dir in Hk. change b with chars in *. rewrite !chars_app in Hk.
    change (chars "/cache" ++ chars "/" ++ chars name = ((chars "/cache/" ++ chars (long_name w)) ++ [SLASH]) ++ k) in Hk.
    rewrite <-!app_assoc in Hk. injection Hk as ->. set_solver.
  - intros x iso path dest w r w' [= <- <-]. split.
    + intros p Hp. destruct (in_image _ _ _ _); [by rewrite lookup_insert_ne|done].
    + intros _. destruct (in_image _ _ _ _); [by rewrite lookup_insert_eq|done].
  - intros x vanilla out mode boot args w r w'. cbn [run_program demo_host demo_run pve_commit_argv app].
    destruct (tree_at _ _ _); intros [= <- <-] p Hp; [by rewrite lookup_insert_ne|done].
  - intros x vanilla out mode boot maps w c w'. cbn [run_program demo_host demo_run pve_commit_argv app].
    destruct (tree_at _ _ _) as [base|]; [|by intros [= <- <-]]. intros [= <- <-] _.
    exists (image (with_maps w base ([(mode, "/auto-installer-mode.toml"); (boot, "/proxmox-first-boot")] ++ maps))), base.
    rewrite lookup_insert_eq. split_and!; [|done|apply demo_tree_image]. cbn [parse_maps]. by rewrite parse_map_args.
Qed.

Definition vanilla_tree : gmap string bytes := {[ GRUB_CFG_ISO_PATH := utf8 demo_grub ]}.
Definition demo_files : files := {[ "/cache/pve.iso" := image vanilla_tree ]}.

Definition demo_run_result : res string * files :=
  @pve_prepare_boot_media demo_host "/cache" "pve" "/cache/pve.iso" demo_pve demo_files.
Lemma demo_prepares : is_ok demo_run_result.1 = true.
Proof. vm_compute. reflexivity. Qed.
Lemma demo_absent : demo_files !! in_dir "/cache" (pve_prepared_name "pve" demo_pve) = None.
Proof. vm_compute. reflexivity. Qed.

Lemma pve_media_exact_witness : ∃ path img base cfg, demo_run_result.1 = Ok path ∧ demo_run_result.2 !! path = Some img ∧
  rewritten base = Ok cfg ∧ demo_tree img = Some (prepared_tree (b "PROXMOX-AIS") (first_boot_script demo_pve) base cfg).
Proof.
  pose proof demo_prepares as Hr. destruct demo_run_result as [r w'] eqn:E. cbn [fst snd] in *.
  destruct (@pve_media_exact demo_host demo_tree "/cache" demo_host_ok "pve" "/cache/pve.iso" demo_pve demo_files r w') as (_ & _ & Hok).
  - by eexists.
  - by apply (bool_decide_unpack (_ ∉ _)).
  - exact E.
  - destruct r as [path|e]; [|done]. destruct (Hok path eq_refl) as (Hp & _ & Hnew).
    destruct (Hnew demo_absent) as (img & base & cfg & H1 & _ & H2 & H3). exists path, img, base, cfg. rewrite Hp. auto.
Defined.
End InstallerDemo.
