(* ===== verification/Profile.v ===== *)
(** * Connection profiles ([connect.py], [drivers/*/_profile.py])

    Reading the table of a profile out of the parsed TOML file, the common [uplinks]
    table, and the three backends' own keys.  A TOML value keeps the texts Python
    prints for floats and dates; reading and parsing the file is [tomllib]'s. *)

From S2P Require Import Prelude Exceptions PyBytes PyDict Ipv4 Devices Url Conn.
From stdpp Require Import options.

Inductive toml : Type :=
  | TStr (s : string)
  | TInt (z : Z)
  | TBool (x : bool)
  | TFloat (text : string) (truncated : Z) (nonzero : bool)
  | TDate (text : string)
  | TArr (l : list toml) (text : string)
  | TTable (d : list (string * toml)) (text : string).

Abbreviation table := (pydict toml).

(** [str(v)], [int(v)], [bool(v)] *)
Definition toml_str (v : toml) : string :=
  match v with
  | TStr s => s
  | TInt z => str (str_int z)
  | TBool true => "True" | TBool false => "False"
  | TFloat t _ _ | TDate t | TArr _ t | TTable _ t => t
  end.
Definition toml_int (v : toml) : res Z :=
  match v with
  | TInt z => mret z
  | TStr s => py_int (b s)
  | TBool x => mret (if x then 1 else 0)%Z
  | TFloat _ z _ => mret z
  | TDate _ | TArr _ _ | TTable _ _ => raise TypeError ["int"]
  end.
Definition toml_bool (v : toml) : bool :=
  match v with
  | TStr s => negb (bool_decide (s = ""))
  | TInt z => negb (bool_decide (z = 0%Z))
  | TBool x => x
  | TFloat _ _ nz => nz
  | TDate _ => true
  | TArr l _ => match l with [] => false | _ => true end
  | TTable d _ => match d with [] => false | _ => true end
  end.

(** [str(table.get(k, d))] and the like *)
Definition get_str (t : table) (k d : string) : string := default d (toml_str <$> dict_get t k).
Definition get_int (t : table) (k : string) (d : Z) : res Z :=
  match dict_get t k with Some v => toml_int v | None => mret d end.
Definition get_bool (t : table) (k : string) (d : bool) : bool := default d (toml_bool <$> dict_get t k).

(** ** The common keys *)

Definition COMMON_KEYS : list string := ["driver"; "uplinks"].

Definition unknown_keys (t : table) (allowed : list string) : list string :=
  sorted_set (list_to_set (filter (λ k, k ∉ allowed) (dict_keys t))).

Definition validate_keys (t : table) (allowed : list string) : res () :=
  let unknown := unknown_keys t (COMMON_KEYS ++ allowed) in
  raise_when (bool_decide (unknown ≠ [])) ProfileError unknown.

Definition as_str (v : toml) : option string := match v with TStr s => Some s | _ => None end.

Definition parse_gateway (name : string) (val : table) : res (option string) :=
  match dict_get val "gateway" with
  | None => mret None
  | Some (TStr g) => mret (Some g)
  | Some _ => raise ProfileError [name; "gateway"]
  end.

Definition parse_dns (name : string) (val : table) : res (list string) :=
  match dict_get val "dns" with
  | None => mret []
  | Some (TArr l _) => match mapM as_str l with Some ds => mret ds | None => raise ProfileError [name; "dns"] end
  | Some _ => raise ProfileError [name; "dns"]
  end.

(** [_parse_uplink_table] *)
Definition parse_uplink_table (name : string) (val : table) : res (string * option StaticAddr) :=
  let unknown := unknown_keys val ["bridge"; "sidecar_addr"; "gateway"; "dns"] in
  raise_when (bool_decide (unknown ≠ [])) ProfileError (name :: unknown);;
  bridge ← (match dict_get val "bridge" ≫= as_str with
    | Some s => if decide (s = "") then raise ProfileError [name; "bridge"] else mret s
    | None => raise ProfileError [name; "bridge"] end : res string);
  match dict_get val "sidecar_addr" with
  | None => mret (bridge, None)
  | Some (TStr addr) =>
      raise_when (negb (contains_char "/" addr)) ProfileError [name; "sidecar_addr"];;
      gateway ← parse_gateway name val;
      dns ← parse_dns name val;
      match new_static_addr addr gateway dns with
      | Ok a => mret (bridge, Some a)
      | Raise e => if isinstance e ValueError then raise ProfileError [name; "addressing"] else Raise e
      end
  | Some _ => raise ProfileError [name; "sidecar_addr"]
  end.

Abbreviation uplink_maps := (gmap string string * gmap string StaticAddr)%type.

(** One turn of the loop of [_parse_uplinks]. *)
Definition parse_uplink (acc : uplink_maps) (entry : string * toml) : res uplink_maps :=
  let '(uplinks, addrs) := acc in
  let '(name, val) := entry in
  match val with
  | TStr s =>
      raise_when (bool_decide (s = "")) ProfileError [name];;
      mret (<[name := s]> uplinks, addrs)
  | TTable t _ =>
      '(bridge, addr) ← parse_uplink_table name t;
      mret (<[name := bridge]> uplinks, match addr with Some a => <[name := a]> addrs | None => addrs end)
  | _ => raise ProfileError [name]
  end.

Definition parse_uplinks (t : table) : res uplink_maps :=
  match dict_get t "uplinks" with
  | None => mret (∅, ∅)
  | Some (TTable raw _) => foldM parse_uplink (∅, ∅) raw
  | Some _ => raise ProfileError ["uplinks"]
  end.

(** ** The backends' tables *)

Record EsxiProfile : Type := MkEsxiProfile { ep_conn : EsxiConn; ep_uplinks : uplink_maps }.

Definition esxi_from_table (t : table) : res EsxiProfile :=
  validate_keys t ["host"; "user"; "password"; "port"; "verify_ssl"; "datastore"];;
  up ← parse_uplinks t;
  port ← get_int t "port" 443;
  let c := MkEsxiConn (get_str t "host" "") (get_str t "user" "root") (get_str t "password" "")
    (get_str t "datastore" "datastore1") (get_bool t "verify_ssl" false) port in
  raise_when (bool_decide (ec_host c = "")) ValueError ["host"];;
  mret (MkEsxiProfile c up).

Record LibvirtProfile : Type := MkLibvirtProfile { lp_uri : string; lp_uplinks : uplink_maps }.

Definition libvirt_from_table (t : table) : res LibvirtProfile :=
  validate_keys t ["uri"];;
  up ← parse_uplinks t;
  mret (MkLibvirtProfile (get_str t "uri" "qemu:///system") up).

Record ProxmoxProfile : Type := MkProxmoxProfile {
  pp_host : string; pp_user : string; pp_password : string; pp_port : Z; pp_verify_ssl : bool; pp_node : string;
  pp_storage : string; pp_ssh_user : option string; pp_ssh_password : option string; pp_ssh_port : Z;
  pp_uplinks : uplink_maps;
}.

Definition proxmox_from_table (t : table) : res ProxmoxProfile :=
  validate_keys t ["host"; "user"; "password"; "port"; "verify_ssl"; "node"; "backing_storage"; "ssh_user";
    "ssh_password"; "ssh_port"];;
  up ← parse_uplinks t;
  port ← get_int t "port" 8006;
  ssh_port ← get_int t "ssh_port" 22;
  raise_when (bool_decide (get_str t "host" "" = "")) ValueError ["host"];;
  mret (MkProxmoxProfile (get_str t "host" "") (get_str t "user" "root@pam") (get_str t "password" "") port
    (get_bool t "verify_ssl" false) (get_str t "node" "") (get_str t "backing_storage" "local")
    (toml_str <$> dict_get t "ssh_user") (toml_str <$> dict_get t "ssh_password") ssh_port up).

(** [ProxmoxProfile.build_driver]: the connection it hands the driver *)
Definition local_part (user : string) : string := str (partition AT (b user)).1.1.
Definition proxmox_conn (p : ProxmoxProfile) : ProxmoxConn :=
  let user := normalize_realm (pp_user p) in
  MkProxmoxConn (pp_host p) (pp_node p) user (pp_password p) (pp_verify_ssl p) (pp_port p) (pp_storage p)
    (match pp_ssh_user p with
     | Some s => if decide (s = "") then local_part user else s
     | None => local_part user end)
    (default (pp_password p) (pp_ssh_password p)) (pp_ssh_port p).

(** [_mask_password] *)
Definition mask_password (p : string) : string := if decide (p = "") then "(unset)" else "***set***".

(** [describe_fields] *)
Definition esxi_describe (p : EsxiProfile) : list (string * string) :=
  let c := ep_conn p in
  [("host", ec_host c); ("port", str (str_int (ec_port c))); ("user", ec_user c); ("datastore", ec_datastore c);
   ("password", mask_password (ec_password c))].
Definition libvirt_describe (p : LibvirtProfile) : list (string * string) := [("uri", lp_uri p)].
Definition proxmox_describe (p : ProxmoxProfile) : list (string * string) :=
  [("host", pp_host p); ("port", str (str_int (pp_port p)))]
  ++ (if decide (pp_node p = "") then [] else [("node", pp_node p)])
  ++ [("user", pp_user p); ("password", mask_password (pp_password p))].

(** ** [load_profile] *)

(** What opening and parsing the file gives. *)
Inductive toml_file : Type := Parsed (data : table) | NotFound | Unreadable | NotToml.

Section Load.
Context {P : Type}.
(** [_PROFILE_BY_SCHEME] *)
Variable by_scheme : gmap string (table → res P).

Definition load_profile (path : string) (file : toml_file) (name : string) : res P :=
  match file with
  | NotFound | Unreadable | NotToml => raise ProfileError [path]
  | Parsed data =>
      match dict_get data name with
      | None => raise ProfileError [path; name]
      | Some (TTable t _) =>
          match dict_get t "driver" ≫= as_str with
          | None => raise ProfileError [path; name; "driver"]
          | Some driver =>
              raise_when (bool_decide (driver = "")) ProfileError [path; name; "driver"];;
              match by_scheme !! driver with
              | None => raise ProfileError [path; name; driver]
              | Some from_table => from_table t
              end
          end
      | Some _ => raise ProfileError [path; name; "not a table"]
      end
  end.
End Load.

(** ** What parsing guarantees *)

Definition profile_error (e : exn) : Prop := exn_class e = ProfileError.

Lemma new_static_addr_spec a g d :
  match new_static_addr a g d with
  | Ok x => x = MkStaticAddr a g d
  | Raise e => exn_class e = ValueError
  end.
Proof.
  unfold new_static_addr. destruct (IPv4Interface a); [|done]. cbn.
  assert (∀ w s e, check_ip w s = Raise e → exn_class e = ValueError) as Hc.
  { intros w s e. unfold check_ip. destruct (IPv4Address s); [done|]. by intros [= <-]. }
  destruct g as [g|]; [destruct (check_ip "gw" g) eqn:Hg; [|by eapply Hc]|]; cbn.
  all: destruct (foldM _ () d) as [[]|e] eqn:Hd; [done|]; apply foldM_Raise in Hd as (? & ? & ? & ? & _ & _ & He); by eapply Hc.
Qed.

(** The address given to a sidecar: a checked one, with an explicit prefix. *)
Definition sidecar_addr_ok (a : StaticAddr) : Prop :=
  contains_char "/" (sa_addr a) = true ∧ new_static_addr (sa_addr a) (gw a) (dns a) = Ok a.

Lemma parse_uplink_table_spec name t :
  match parse_uplink_table name t with
  | Ok (bridge, addr) => bridge ≠ "" ∧ (∀ a, addr = Some a → sidecar_addr_ok a)
  | Raise e => profile_error e
  end.
Proof.
  unfold parse_uplink_table. destruct (bool_decide (unknown_keys t _ ≠ [])); cbn; [done|].
  destruct (dict_get t "bridge" ≫= as_str) as [br|]; cbn; [|done]. destruct (decide (br = "")) as [|Hbr]; cbn; [done|].
  destruct (dict_get t "sidecar_addr") as [[addr| | | | | | ]|]; cbn; [|done..].
  destruct (contains_char "/" addr) eqn:Hs; cbn; [|done].
  assert (∀ e, parse_gateway name t = Raise e → profile_error e) as Hge.
  { intros e. unfold parse_gateway. destruct (dict_get t "gateway") as [[]|]; by intros [= <-]. }
  assert (∀ e, parse_dns name t = Raise e → profile_error e) as Hde.
  { intros e. unfold parse_dns. destruct (dict_get t "dns") as [[]|]; try by intros [= <-].
    destruct (mapM as_str l); by intros [= <-]. }
  destruct (parse_gateway name t) as [g|e]; cbn; [|by apply Hge].
  destruct (parse_dns name t) as [d|e]; cbn; [|by apply Hde].
  pose proof (new_static_addr_spec addr g d) as Hn. destruct (new_static_addr addr g d) as [x|e] eqn:Hx.
  - subst x. split; [done|]. intros a [= <-]. by split.
  - unfold isinstance. rewrite Hn. done.
Qed.

(** What has been read so far. *)
Record uplinks_ok (seen : list (string * toml)) (acc : uplink_maps) : Prop := {
  up_dom : dom acc.1 = list_to_set (dict_keys seen);
  up_bridge : ∀ n br, acc.1 !! n = Some br → br ≠ "";
  up_addr_dom : dom acc.2 ⊆ dom acc.1;
  up_addr : ∀ n a, acc.2 !! n = Some a → sidecar_addr_ok a;
}.

Lemma parse_uplink_spec seen acc entry :
  uplinks_ok seen acc →
  match parse_uplink acc entry with
  | Ok acc' => uplinks_ok (seen ++ [entry]) acc'
  | Raise e => profile_error e
  end.
Proof.
  intros [Hdom Hbr Had Ha]. destruct acc as [up addrs], entry as [n v]. cbn [fst snd] in *.
  assert (∀ br, br ≠ "" → uplinks_ok (seen ++ [(n, v)]) (<[n := br]> up, addrs)) as Hins.
  { intros br Hne. split; cbn [fst snd]; [| |set_solver|done].
    - unfold dict_keys in *. rewrite dom_insert_L, fmap_app, list_to_set_app_L, Hdom. cbn. set_solver.
    - intros m x. rewrite lookup_insert. case_decide; [by intros [= <-]|apply Hbr]. }
  destruct v as [s| | | | | |t]; cbn; try done.
  - destruct (decide (s = "")) as [->|Hs]; [done|]. rewrite bool_decide_false by done. cbn. by apply Hins.
  - pose proof (parse_uplink_table_spec n t) as Ht. destruct (parse_uplink_table n t) as [[br [a|]]|e]; cbn; [| |done].
    + destruct Ht as [Hne Hok]. destruct (Hins br Hne) as [H1 H2 H3 H4]. split; cbn [fst snd] in *; [done|done| |].
      * rewrite dom_insert_L. set_solver.
      * intros m x. rewrite lookup_insert. case_decide; [intros [= <-]; by apply Hok|apply Ha].
    + by apply Hins, Ht.
Qed.

Lemma fold_uplinks_ok l acc : foldM parse_uplink (∅, ∅) l = Ok acc → uplinks_ok l acc.
Proof.
  apply foldM_inv; [split; set_solver|]. intros seen x rest a1 a2 _ Ha Hx.
  pose proof (parse_uplink_spec seen a1 x Ha) as Hs. by rewrite Hx in Hs.
Qed.

Lemma parse_uplinks_error t e : parse_uplinks t = Raise e → profile_error e.
Proof.
  unfold parse_uplinks. destruct (dict_get t "uplinks") as [[]|]; try by intros [= <-].
  intros (l1 & x & l2 & a & _ & E1 & Hx)%foldM_Raise.
  pose proof (parse_uplink_spec l1 a x (fold_uplinks_ok _ _ E1)) as Hs. by rewrite Hx in Hs.
Qed.

(** The uplinks of a profile are checked as a whole.  When reading them succeeds,
    every name of the table is mapped to a non-empty host interface, and the static
    addresses belong to mapped names, carry an explicit prefix and pass the checks of an
    address; when it fails it fails with [ProfileError] and nothing else. *)
Theorem uplinks_parsed t :
  match parse_uplinks t with
  | Ok acc => uplinks_ok (match dict_get t "uplinks" with Some (TTable raw _) => raw | _ => [] end) acc
  | Raise e => profile_error e
  end.
Proof.
  destruct (parse_uplinks t) as [acc|e] eqn:E; [|by eapply parse_uplinks_error]. unfold parse_uplinks in E.
  destruct (dict_get t "uplinks") as [[]|]; try done; [by apply fold_uplinks_ok|].
  injection E as <-. split; set_solver.
Qed.

(** ** Loading *)

Lemma libvirt_from_table_error t e : libvirt_from_table t = Raise e → profile_error e.
Proof.
  unfold libvirt_from_table, validate_keys. destruct (bool_decide _); cbn; [by intros [= <-]|].
  destruct (parse_uplinks t) eqn:E; cbn; [done|]. intros [= <-]. by eapply parse_uplinks_error.
Qed.

(** Loading a profile either gives the backend's profile of the named table or
    raises [ProfileError], for every file and name, as long as the backend's own reader
    does. *)
Theorem load_profile_errors {P} (by_scheme : gmap string (table → res P)) path file name :
  (∀ s f t e, by_scheme !! s = Some f → f t = Raise e → profile_error e) →
  match load_profile by_scheme path file name with
  | Ok p => ∃ data t x driver f, file = Parsed data ∧ dict_get data name = Some (TTable t x) ∧
      dict_get t "driver" = Some (TStr driver) ∧ by_scheme !! driver = Some f ∧ f t = Ok p
  | Raise e => profile_error e
  end.
Proof.
  intros Hf. unfold load_profile. destruct file as [data| | |]; cbn; [|done..].
  destruct (dict_get data name) as [[ | | | | | |t x]|] eqn:Hn; cbn; try done.
  destruct (dict_get t "driver") as [[d| | | | | |]|] eqn:Hd; cbn; try done.
  destruct (bool_decide (d = "")); cbn; [done|]. destruct (by_scheme !! d) as [f|] eqn:Hs; cbn; [|done].
  destruct (f t) as [p|e] eqn:Hft; [|by eapply Hf]. by exists data, t, x, d, f.
Qed.

(** ** Examples *)
Module ProfileDemo.
Definition registry : gmap string (table → res LibvirtProfile) := {[ "libvirt" := libvirt_from_table ]}.
Definition file : table :=
  [("lab", TTable [("driver", TStr "libvirt");
     ("uplinks", TTable [("wan", TStr "br0");
        ("egress", TTable [("bridge", TStr "br1"); ("sidecar_addr", TStr "10.10.10.2/24")] "")] "")] "")].

Lemma load_profile_errors_witness :
  match load_profile registry "connect.toml" (Parsed file) "lab" with
  | Ok p => ∃ data t x driver f, Parsed file = Parsed data ∧ dict_get data "lab" = Some (TTable t x) ∧
      dict_get t "driver" = Some (TStr driver) ∧ registry !! driver = Some f ∧ f t = Ok p
  | Raise e => profile_error e
  end.
Proof.
  apply (load_profile_errors registry "connect.toml" (Parsed file) "lab").
  intros s f t e Hs. unfold registry in Hs. apply lookup_singleton_Some in Hs as [_ <-].
  exact (libvirt_from_table_error t e).
Defined.

Example lab_uplinks :
  (λ p, (lp_uplinks p).1 !! "egress") <$> load_profile registry "connect.toml" (Parsed file) "lab" = Ok (Some "br1").
Proof. vm_compute. reflexivity. Qed.

(** A profile of ESXi or Proxmox without a host fails with [ValueError], which callers
    that handle [ProfileError] do not catch. *)
Lemma missing_host_escapes :
  match load_profile {[ "esxi" := esxi_from_table ]} "connect.toml"
      (Parsed [("lab", TTable [("driver", TStr "esxi")] "")]) "lab" with
  | Raise e => exn_class e = ValueError
  | Ok _ => False
  end.
Proof. vm_compute. reflexivity. Qed.
End ProfileDemo.

(** ** Binding a plan to a backend ([orchestrator/backend.py], [drivers/_registry.py])

    The registry every driver package fills at import time, and the resolver that
    picks the driver a plan runs on.  [D] is the type of driver objects; the class of
    the plan's hypervisor entry is its name. *)

Section Registry.
Context {D : Type}.

Record Registry : Type := MkRegistry {
  from_name : gmap string (string → res D);
  scheme_for_hyp : gmap string string;
}.

Definition empty_registry : Registry := MkRegistry ∅ ∅.

Definition register (hypervisor_cls driver_name scheme : string) (from_uri : string → res D) (g : Registry) : Registry :=
  MkRegistry (<[driver_name := from_uri]> (from_name g)) (<[hypervisor_cls := scheme]> (scheme_for_hyp g)).

Definition registry_driver_for_name (g : Registry) (driver_name uri : string) : res D :=
  match from_name g !! driver_name with
  | None => raise DriverError [driver_name]
  | Some factory => factory uri
  end.

Definition scheme_for_hypervisor (g : Registry) (cls : string) : option string := scheme_for_hyp g !! cls.
Definition is_pinned (g : Registry) (cls : string) : bool := bool_decide (is_Some (scheme_for_hyp g !! cls)).

(** [BackendProfile], as the resolver uses it. *)
Record BackendProfile : Type := MkProfile {
  p_scheme : string;
  p_uplinks : gmap string string;
  p_uplink_addrs : gmap string StaticAddr;
  build_driver : res D;
}.

Record ResolvedBackend : Type := MkResolved {
  rb_driver : D;
  driver_uri : string;
  rb_uplink_addrs : gmap string StaticAddr;
  rb_uplinks : gmap string string;
}.

(** [str(getattr(driver, "uri", ""))] *)
Variable uri_attr : D → option string.
Definition uri_of (d : D) : string := default "" (uri_attr d).

Definition resolve_backend (g : Registry) (cls : string) (profile : option BackendProfile) : res ResolvedBackend :=
  match profile with
  | None =>
      match scheme_for_hypervisor g cls with
      | Some scheme => raise DriverError [cls; scheme; "no profile"]
      | None => raise DriverError [cls; "backend-agnostic"]
      end
  | Some p =>
      raise_when (is_pinned g cls && negb (bool_decide (scheme_for_hypervisor g cls = Some (p_scheme p))))
        DriverError [p_scheme p; cls];;
      driver ← build_driver p;
      mret (MkResolved driver (uri_of driver) (p_uplink_addrs p) (p_uplinks p))
  end.

(** A plan is bound exactly when a profile was given whose scheme the plan's entry
    allows and whose driver could be built; the binding carries the profile's uplinks
    and the driver's own address, unchanged. *)
Theorem resolve_backend_iff g cls profile b :
  resolve_backend g cls profile = Ok b ↔
  ∃ p d, profile = Some p ∧ build_driver p = Ok d ∧
    (∀ s, scheme_for_hypervisor g cls = Some s → s = p_scheme p) ∧
    b = MkResolved d (uri_of d) (p_uplink_addrs p) (p_uplinks p).
Proof.
  unfold resolve_backend, is_pinned, scheme_for_hypervisor. destruct profile as [p|].
  2:{ split; [by destruct (_ !! _)|by intros (? & ? & [=] & _)]. }
  destruct (scheme_for_hyp g !! cls) as [s|] eqn:Hs; cbn.
  - destruct (decide (s = p_scheme p)) as [->|Hne].
    + rewrite bool_decide_true by done. cbn. destruct (build_driver p) as [d|e] eqn:Hd; cbn.
      * split; [intros [= <-]; exists p, d; split_and!; try done; by intros ? [= <-]|intros (? & ? & [= <-] & Hd2 & _ & ->); rewrite Hd in Hd2; by injection Hd2 as <-].
      * split; [done|]. intros (? & ? & [= <-] & ? & _). congruence.
    + rewrite bool_decide_false by naive_solver. cbn. split; [done|].
      intros (? & ? & [= <-] & _ & Hp & _). by destruct Hne; apply Hp.
  - destruct (build_driver p) as [d|e] eqn:Hd; cbn.
    + split; [intros [= <-]; exists p, d; split_and!; try done; by intros ? [= <-]|intros (? & ? & [= <-] & Hd2 & _ & ->); rewrite Hd in Hd2; by injection Hd2 as <-].
    + split; [done|]. intros (? & ? & [= <-] & ? & _). congruence.
Qed.

(** The last registration of a driver name is the one cleanup dispatches to. *)
Lemma driver_for_name_register g h n s f uri :
  registry_driver_for_name (register h n s f g) n uri = f uri.
Proof. unfold registry_driver_for_name, register. cbn. by rewrite lookup_insert_eq. Qed.
End Registry.
Arguments Registry : clear implicits.
Arguments BackendProfile : clear implicits.
Arguments ResolvedBackend : clear implicits.
