(* ===== verification/Context.v ===== *)
(** * The run context and its collaborators ([orchestrator/context.py],
      [drivers/base.py], [cache/manager.py], [builders/base.py],
      [communicators/base.py])

    The driver, the cache, the builders and the communicators are interfaces
    here: classes whose operations act on an arbitrary backend state and may raise
    anything.  [Ctx] is the mutable part of [GraphContext]; [Env] the fixed part. *)

From S2P Require Import Prelude Exceptions Eff PyBytes Ipv4 Devices Hypervisor Ledger Store Cleanup BuildResult PyDict Dashboard.
From stdpp Require Import options.

(** ** Credentials ([credentials/base.py], [credentials/posix.py]) *)

(** A [Credential], and whether it is a [PosixCred]. *)
Record Cred : Type := MkCred { username : string; admin : bool; posix : bool }.

Definition SIDECAR_CRED : Cred := MkCred "root" false true.

(** The reserved index of the build NIC. *)
Definition BUILD_NIC_NIC_IDX : Z := -1.

(** ** The driver's creating operations ([HypervisorDriver]) *)

(** The arguments of [create_vm] beyond the name and the spec. *)
Record vm_refs : Type := MkVmRefs {
  os_disk_ref : string;
  seed_iso_ref : option string;
  network_refs : gmap string string;
  data_disk_refs : list string;
  vr_build_nic : option BuildNic;
  boot_media_ref : option string;
}.

Class Provider (B : Type) : Type := {
  provider_driver :: Driver B;
  compose_resource_name : string → string → string → string;
  compose_mac : string → string → Z → string;
  volume_suffix : string → string;
  native_agent_provision : option string;
  create_switch : Switch → string → op B (option string);
  create_network : Network → Switch → string → string → op B ();
  create_pool : StoragePool → string → op B ();
  upload_to_pool : string → string → op B ();
  write_to_pool : string → bytes → op B ();
  create_blank_volume : string → Z → op B ();
  resize_volume : string → Z → op B ();
  download_from_pool : string → string → op B ();
  create_vm : string → VMSpec → string → vm_refs → op B ();
  start_vm : string → op B ();
  get_vm_power_state : string → op B string;
  (** [native_guest_execute/read_file/write_file(backend, credential)]: obtain the
      callable, then [read_file(path)] *)
  native_guest : string → string → option Cred → op B ();
  guest_read_file : string → string → op B bytes;
  (** [guest_gateway()] *)
  guest_gateway : op B (option string);
  (** the chunks of [read_build_result_sink], each with whether the deadline had
      passed once it was processed *)
  read_build_result_sink : string → op B (list (bytes * bool));
  (** [time.monotonic() >= deadline] *)
  deadline_passed : op B bool;
}.
#[export] Hint Mode Provider ! : typeclass_instances.

(** ** The cache, as its users see it *)
Class Cache (B : Type) : Type := {
  (** [resolve(name, fetch)]: the local path (when fetched) and the sha *)
  cache_resolve : string → bool → op B (option string * string);
  (** [add(path, name).path] *)
  cache_add : string → string → op B string;
  (** the temporary file a capture is staged in, and its removal *)
  make_temp : string → op B string;
  unlink_temp : string → op B ();
  (** [build_sidecar_config_iso] of the four rendered files *)
  build_sidecar_config_iso : string → string → string → string → res bytes;
}.
#[export] Hint Mode Cache ! : typeclass_instances.

(** ** Builders and communicators *)

Inductive comm_kind : Type :=
  | SSHCommunicator (nic_idx : option Z) (username : string)
  | NativeCommunicator
  | OtherCommunicator.

(** What [bind] is handed: the address, login and gateway to reach over SSH, or the
    VM whose native channel to use and its login. *)
Inductive bind_args : Type :=
  | BindSSH (host : pystr) (credential : Cred) (gateway : option string)
  | BindNative (backend : string) (credential : option Cred).

(** [Builder] and [Communicator]: the operations the orchestrator calls. *)
Class Guests (B Bld Com : Type) : Type := {
  os_disk_base : Bld → option string;
  boot_media : Bld → option string;
  prepare_boot_media : Bld → string → op B string;
  (** spec, addressing, base sha, sidecar sha, MACs, build NIC, native agent *)
  config_hash : Bld → VMSpec → gmap string NetworkAddressing → string → string → list string → BuildNic →
    option string → string;
  render_seed : Bld → VMSpec → gmap string NetworkAddressing → list string → BuildNic → option string →
    res (option bytes);
  wait_ready : Bld → VMSpec → Com → op B ();
  credentials : Bld → list Cred;
  (** [isinstance(builder, CloudInitBuilder)] *)
  is_cloud_init : Bld → bool;
  kind_of : Com → comm_kind;
  comm_bind : Com → bind_args → op B ();
  comm_execute : Com → op B ();
}.
#[export] Hint Mode Guests ! - - : typeclass_instances.

(** ** [GraphContext] *)

(** [VMBuildProbe] *)
Record VMBuildProbe (Bld Com : Type) : Type := MkProbe {
  bp_vm : VMRecipe Bld Com;
  bp_config_hash : string;
  bp_macs : list string;
  bp_build_nic : BuildNic;
  bp_native_agent : option string;
  bp_installer_origin : bool;
  bp_base_path : option string;
  bp_boot_media_path : option string;
  bp_roles : list string;
  bp_cached_paths : option (gmap string string);
  bp_paths_resolved : bool;
}.
Arguments MkProbe {Bld Com} _ _ _ _ _ _ _ _ _ _ _.
Arguments bp_vm {Bld Com} _.
Arguments bp_config_hash {Bld Com} _.
Arguments bp_macs {Bld Com} _.
Arguments bp_build_nic {Bld Com} _.
Arguments bp_native_agent {Bld Com} _.
Arguments bp_installer_origin {Bld Com} _.
Arguments bp_base_path {Bld Com} _.
Arguments bp_boot_media_path {Bld Com} _.
Arguments bp_roles {Bld Com} _.
Arguments bp_cached_paths {Bld Com} _.
Arguments bp_paths_resolved {Bld Com} _.

(** [BuildInfraState], when active: the pool, the network and the switch. *)
Record BuildInfra : Type := MkInfra { bi_pool : string; bi_net : string; bi_switch : Switch }.

Record Env (Bld Com : Type) : Type := MkEnv {
  e_hyp : Hypervisor Bld Com;
  e_store : StateStore;
  e_run_id : string;
  e_plan_name : string;
  e_resume : bool;
  e_probe_fetch : bool;
  e_addressing : gmap string NetworkAddressing;
  (** the profile's static uplink addresses *)
  e_uplink_addrs : gmap string StaticAddr;
  (** how many two-second polls fit in the timeouts: sidecar, agent, lease, power-off *)
  e_sidecar_polls : nat;
  e_agent_polls : nat;
  e_lease_polls : nat;
  e_poweroff_polls : nat;
}.
Arguments MkEnv {Bld Com} _ _ _ _ _ _ _ _ _ _ _ _.
Arguments e_hyp {Bld Com} _.
Arguments e_store {Bld Com} _.
Arguments e_run_id {Bld Com} _.
Arguments e_plan_name {Bld Com} _.
Arguments e_resume {Bld Com} _.
Arguments e_probe_fetch {Bld Com} _.
Arguments e_addressing {Bld Com} _.
Arguments e_uplink_addrs {Bld Com} _.
Arguments e_sidecar_polls {Bld Com} _.
Arguments e_agent_polls {Bld Com} _.
Arguments e_lease_polls {Bld Com} _.
Arguments e_poweroff_polls {Bld Com} _.

(** The mutable part: the outside world and the ledgers. *)
Record Ctx (B Bld Com : Type) : Type := MkCtx {
  cx_world : World B;
  pool_backends : gmap string string;
  network_backends : gmap string string;
  switch_backends : gmap string string;
  sidecar_backends : gmap string string;
  built_disk_paths : gmap string (gmap string string);
  node_keys : gmap string string;
  vm_probes : gmap string (VMBuildProbe Bld Com);
  materialized_nodes : gset string;
  realized_nodes : gset string;
  build_infra : option BuildInfra;
  (** the calls made on the dashboard, in order *)
  dash_calls : list dash_call;
}.
Arguments MkCtx {B Bld Com} _ _ _ _ _ _ _ _ _ _ _ _.
Arguments cx_world {B Bld Com} _.
Arguments pool_backends {B Bld Com} _.
Arguments network_backends {B Bld Com} _.
Arguments switch_backends {B Bld Com} _.
Arguments sidecar_backends {B Bld Com} _.
Arguments built_disk_paths {B Bld Com} _.
Arguments node_keys {B Bld Com} _.
Arguments vm_probes {B Bld Com} _.
Arguments materialized_nodes {B Bld Com} _.
Arguments realized_nodes {B Bld Com} _.
Arguments build_infra {B Bld Com} _.
Arguments dash_calls {B Bld Com} _.

Section Updates.
Context {B Bld Com : Type}.
Implicit Types (c : Ctx B Bld Com).

Definition set_world (w : World B) c : Ctx B Bld Com :=
  MkCtx w (pool_backends c) (network_backends c) (switch_backends c) (sidecar_backends c)
    (built_disk_paths c) (node_keys c) (vm_probes c) (materialized_nodes c) (realized_nodes c) (build_infra c) (dash_calls c).
Definition set_pools m c : Ctx B Bld Com :=
  MkCtx (cx_world c) m (network_backends c) (switch_backends c) (sidecar_backends c)
    (built_disk_paths c) (node_keys c) (vm_probes c) (materialized_nodes c) (realized_nodes c) (build_infra c) (dash_calls c).
Definition set_networks m c : Ctx B Bld Com :=
  MkCtx (cx_world c) (pool_backends c) m (switch_backends c) (sidecar_backends c)
    (built_disk_paths c) (node_keys c) (vm_probes c) (materialized_nodes c) (realized_nodes c) (build_infra c) (dash_calls c).
Definition set_switches m c : Ctx B Bld Com :=
  MkCtx (cx_world c) (pool_backends c) (network_backends c) m (sidecar_backends c)
    (built_disk_paths c) (node_keys c) (vm_probes c) (materialized_nodes c) (realized_nodes c) (build_infra c) (dash_calls c).
Definition set_sidecars m c : Ctx B Bld Com :=
  MkCtx (cx_world c) (pool_backends c) (network_backends c) (switch_backends c) m
    (built_disk_paths c) (node_keys c) (vm_probes c) (materialized_nodes c) (realized_nodes c) (build_infra c) (dash_calls c).
Definition set_built m c : Ctx B Bld Com :=
  MkCtx (cx_world c) (pool_backends c) (network_backends c) (switch_backends c) (sidecar_backends c)
    m (node_keys c) (vm_probes c) (materialized_nodes c) (realized_nodes c) (build_infra c) (dash_calls c).
Definition set_keys m c : Ctx B Bld Com :=
  MkCtx (cx_world c) (pool_backends c) (network_backends c) (switch_backends c) (sidecar_backends c)
    (built_disk_paths c) m (vm_probes c) (materialized_nodes c) (realized_nodes c) (build_infra c) (dash_calls c).
Definition set_probes m c : Ctx B Bld Com :=
  MkCtx (cx_world c) (pool_backends c) (network_backends c) (switch_backends c) (sidecar_backends c)
    (built_disk_paths c) (node_keys c) m (materialized_nodes c) (realized_nodes c) (build_infra c) (dash_calls c).
Definition set_marks m r c : Ctx B Bld Com :=
  MkCtx (cx_world c) (pool_backends c) (network_backends c) (switch_backends c) (sidecar_backends c)
    (built_disk_paths c) (node_keys c) (vm_probes c) m r (build_infra c) (dash_calls c).
Definition set_infra i c : Ctx B Bld Com :=
  MkCtx (cx_world c) (pool_backends c) (network_backends c) (switch_backends c) (sidecar_backends c)
    (built_disk_paths c) (node_keys c) (vm_probes c) (materialized_nodes c) (realized_nodes c) i (dash_calls c).
Definition set_dash_calls s c : Ctx B Bld Com :=
  MkCtx (cx_world c) (pool_backends c) (network_backends c) (switch_backends c) (sidecar_backends c)
    (built_disk_paths c) (node_keys c) (vm_probes c) (materialized_nodes c) (realized_nodes c) (build_infra c) s.

(** An action on the world, inside the context. *)
Definition onw {A} (m : act (World B) A) : act (Ctx B Bld Com) A := λ c,
  let '(r, w) := m (cx_world c) in (r, set_world w c).

(** [ledger[k]], a missing key is a [KeyError]. *)
Definition lookup_in (f : Ctx B Bld Com → gmap string string) (k : string) : act (Ctx B Bld Com) string :=
  m ← gets f;
  lift (getitem m k).

(** A use of the driver that creates nothing. *)
Definition use {A} (what name : string) (o : op B A) : act (Ctx B Bld Com) A :=
  onw (perform o (λ _, CUse what name)).
(** A driver call that creates a thing of [kind] named [name]. *)
Definition creates {A} (kind name : string) (o : op B A) : act (Ctx B Bld Com) A :=
  onw (perform o (λ _, CCreate kind name)).

(** A driver call that reclaims a thing of [kind] named [name]. *)
Definition destroys (kind name : string) (o : op B ()) : act (Ctx B Bld Com) () :=
  onw (perform o (λ r, CDestroy kind name (is_ok r))).

Definition set_vm_stage (vm : string) (stage : VMStage) (detail : option string) : act (Ctx B Bld Com) () :=
  modify (λ c, set_dash_calls (dash_calls c ++ [SetStage vm stage detail]) c).
End Updates.
