(* ===== verification/Preflight.v ===== *)
(** * Preflight ([preflight.py])

    The blockers a plan can have before anything is created, the checks they are
    grouped in and the report the orchestrator gates on.  A finding is an object with an
    identity (the report's renderer compares identities); message texts are the values
    they interpolate. *)

From S2P Require Import Prelude Exceptions Eff Devices Hypervisor Cleanup Context.
From stdpp Require Import pretty options.

Local Open Scope Z_scope.

Record PreflightFinding : Type := MkFinding {
  f_id : nat;
  f_code : string;
  f_message : list string;
  f_has_hint : bool;
}.

Inductive CheckStatus : Type := ok | blocked | skipped.

Record PreflightCheck : Type := MkCheck {
  c_name : string;
  c_status : CheckStatus;
  c_findings : list PreflightFinding;
  c_detail : option string;
}.

Record PreflightReport : Type := MkReport {
  findings : list PreflightFinding;
  checks : list PreflightCheck;
}.

(** [PreflightCheck.evaluate], [PreflightCheck.skipped] *)
Definition evaluate (name : string) (fs : list PreflightFinding) (detail : option string) : PreflightCheck :=
  MkCheck name (match fs with [] => ok | _ => blocked end) fs detail.
Definition skipped_check (name detail : string) : PreflightCheck := MkCheck name skipped [] (Some detail).

Definition from_checks (cs : list PreflightCheck) : PreflightReport := MkReport (concat (c_findings <$> cs)) cs.

(** [bool(report)] *)
Definition clean (r : PreflightReport) : bool := bool_decide (findings r = []).

Definition merged (r other : PreflightReport) : PreflightReport :=
  MkReport (findings r ++ findings other) (checks r ++ checks other).

(** The lines of [render] and [render_full]. *)
Inductive line : Type :=
  | LClean
  | LHeader
  | LBlockers (n : nat)
  | LCheck (status : CheckStatus) (name : string) (detail : option string)
  | LFinding (f : PreflightFinding)
  | LFix (f : PreflightFinding)
  | LLoose (f : PreflightFinding).

Definition finding_lines (mk : PreflightFinding → line) (f : PreflightFinding) : list line :=
  mk f :: (if f_has_hint f then [LFix f] else []).

Definition render (r : PreflightReport) : list line :=
  match findings r with
  | [] => [LClean]
  | fs => LHeader :: concat (finding_lines LFinding <$> fs)
  end.

Definition check_lines (c : PreflightCheck) : list line :=
  LCheck (c_status c) (c_name c) (c_detail c) :: concat (finding_lines LFinding <$> c_findings c).

(** The identities shown under a check. *)
Definition covered_ids (r : PreflightReport) : list nat := f_id <$> concat (c_findings <$> checks r).

Definition render_full (r : PreflightReport) : list line :=
  (match findings r with [] => LClean | fs => LBlockers (length fs) end) ::
  concat (check_lines <$> checks r) ++
  concat ((λ f, if decide (f_id f ∈ covered_ids r) then [] else finding_lines LLoose f) <$> findings r).

(** ** Host capacity *)

Record HostCapacity : Type := MkCapacity {
  memory_mb : option Z;
  logical_cpus : option Z;
  storage_free_gb : option Z;
}.

(** [spec.memory.size_mb], [spec.cpu.count] of a spec that passed its constructor *)
Definition spec_memory (s : VMSpec) : Z :=
  default 0 (head (omap (λ d, match d with Memory m => Some m | _ => None end) (devices s))).
Definition spec_cpus (s : VMSpec) : Z :=
  default 0 (head (omap (λ d, match d with CPU n _ => Some n | _ => None end) (devices s))).

Definition sum_Z (l : list Z) : Z := foldr Z.add 0 l.

Section Findings.
Context {Bld Com : Type}.
(** The identity of a finding made by a check, from the check and its subject. *)
Variable new_id : string → string → nat.
Implicit Types (h : Hypervisor Bld Com).

Definition finding (code subject : string) (args : list string) : PreflightFinding :=
  MkFinding (new_id code subject) code (subject :: args) true.

Definition memory_findings h (cap : Z) : list PreflightFinding :=
  omap (λ vm, let m := spec_memory (spec vm) in
    if decide (m > cap) then Some (finding "insufficient-memory" (vm_name vm) [pretty m; pretty cap]) else None)
    (declared_vms h) ++
  (let total := sum_Z ((λ vm, spec_memory (spec vm)) <$> declared_vms h) in
   if decide (declared_vms h ≠ [] ∧ total > cap)
   then [finding "insufficient-memory-aggregate" "" [pretty total; pretty cap]] else []).

Definition cpu_findings h (cap : Z) : list PreflightFinding :=
  omap (λ vm, let n := spec_cpus (spec vm) in
    if decide (n > cap) then Some (finding "insufficient-vcpus" (vm_name vm) [pretty n; pretty cap]) else None)
    (declared_vms h).

Definition storage_findings h (cap : Z) : list PreflightFinding :=
  omap (λ p, if decide (sp_size_gb p > cap)
    then Some (finding "insufficient-storage" (sp_name p) [pretty (sp_size_gb p); pretty cap]) else None)
    (declared_pools h).

Definition resource_findings h (c : HostCapacity) : list PreflightFinding :=
  from_option (memory_findings h) [] (memory_mb c) ++
  from_option (cpu_findings h) [] (logical_cpus c) ++
  from_option (storage_findings h) [] (storage_free_gb c).

(** [describe_capacity] *)
Definition describe_capacity (c : HostCapacity) : string :=
  let parts := from_option (λ m, [pretty m +:+ " MiB RAM"]) [] (memory_mb c)
    ++ from_option (λ n, [pretty n +:+ " vCPUs"]) [] (logical_cpus c)
    ++ from_option (λ g, [pretty g +:+ " GiB free"]) [] (storage_free_gb c) in
  match parts with [] => "no dimensions reported" | _ => Ipv4.join ", " parts end.

Definition resource_check h (c : option HostCapacity) : PreflightCheck :=
  match c with
  | None => skipped_check "host-resources" "host capacity unavailable"
  | Some c => evaluate "host-resources" (resource_findings h c) (Some (describe_capacity c))
  end.

(** ** Switches, builders, firmware *)

Definition preflight_switches h (bs : option Switch) : list Switch :=
  declared_switches h ++ match bs with Some s => [s] | None => [] end.

(** The uplinks of the switches with NAT egress, with what the profile maps them to: those
    that take a physical NIC or bridge of the host. *)
Definition wanted_uplinks (uplinks : gmap string string) (sws : list Switch) : list (string * string) :=
  omap (λ u, (λ p, (u, p)) <$> uplinks !! u) (sorted (remove_dups (omap (λ sw,
    match uplink sw, sidecar sw with
    | Some u, Some sc => if decide (u ≠ "") then if sc_nat sc then Some u else None else None
    | _, _ => None
    end) sws))).

Definition unknown_uplink_findings (sws : list Switch) (uplinks : gmap string string) : list PreflightFinding :=
  omap (λ sw, match uplink sw with
    | Some u => if decide (uplinks !! u = None) then Some (finding "unknown-uplink" (sw_name sw) [u]) else None
    | None => None end) sws.

Definition unsupported_firmware_findings h (supported : list string) (driver_name : string) : list PreflightFinding :=
  omap (λ vm, if decide (firmware (spec vm) ∉ supported)
    then Some (finding "unsupported-firmware" (vm_name vm) [firmware (spec vm); driver_name]) else None) (declared_vms h).

Definition mgmt_unsupported_findings h : list PreflightFinding :=
  omap (λ sw, if mgmt sw then Some (finding "mgmt-unsupported" (sw_name sw) []) else None) (declared_switches h).

Definition builder_origin_findings {B} {G : Guests B Bld Com} h : list PreflightFinding :=
  omap (λ vm, if decide (os_disk_base (Guests := G) (builder vm) = None ∧ boot_media (Guests := G) (builder vm) = None)
    then Some (finding "no-os-disk-origin" (vm_name vm) []) else None) (declared_vms h).

(** ** What passing the gate means *)

Lemma omap_nil {A C} (f : A → option C) l : omap f l = [] ↔ ∀ x, x ∈ l → f x = None.
Proof.
  induction l as [|x l IH]; cbn; [split; [by intros _ x []%not_elem_of_nil|done]|].
  destruct (f x) eqn:Hx; [split; [done|]|].
  - intros H. rewrite (H x) in Hx; [done|by left].
  - rewrite IH. split; [intros H y [->|Hy]%elem_of_cons; auto|]. intros H y Hy. apply H. by right.
Qed.

Lemma memory_findings_nil h cap :
  memory_findings h cap = [] ↔
    (∀ vm, vm ∈ declared_vms h → spec_memory (spec vm) ≤ cap) ∧
    (declared_vms h ≠ [] → sum_Z ((λ vm, spec_memory (spec vm)) <$> declared_vms h) ≤ cap).
Proof.
  unfold memory_findings. rewrite app_nil, omap_nil. cbv zeta. split; intros [H1 H2]; split.
  - intros vm Hvm. specialize (H1 vm Hvm). destruct (decide (spec_memory (spec vm) > cap)); [done|lia].
  - intros Hne. destruct (decide _) as [Hd|Hd] in H2; [done|]. apply not_and_l in Hd as [Hd|Hd]; [done|lia].
  - intros vm Hvm. specialize (H1 vm Hvm). rewrite decide_False by lia. done.
  - rewrite decide_False; [done|]. intros [Hne Ht]. specialize (H2 Hne). lia.
Qed.

(** The resource gate accepts a plan exactly when it fits the host in every
    dimension the host reports: each VM's memory and all of it together, each VM's
    vCPUs, each pool's size; a dimension the host does not report is not checked. *)
Theorem resource_gate_iff h c :
  clean (from_checks [resource_check h (Some c)]) = true ↔
    (∀ cap, memory_mb c = Some cap →
       (∀ vm, vm ∈ declared_vms h → spec_memory (spec vm) ≤ cap) ∧
       (declared_vms h ≠ [] → sum_Z ((λ vm, spec_memory (spec vm)) <$> declared_vms h) ≤ cap)) ∧
    (∀ cap, logical_cpus c = Some cap → ∀ vm, vm ∈ declared_vms h → spec_cpus (spec vm) ≤ cap) ∧
    (∀ cap, storage_free_gb c = Some cap → ∀ p, p ∈ declared_pools h → sp_size_gb p ≤ cap).
Proof.
  unfold clean, from_checks, resource_check. rewrite bool_decide_eq_true. cbn [findings evaluate c_findings fmap list_fmap concat].
  rewrite app_nil_r. unfold resource_findings. rewrite !app_nil.
  split.
  - intros (Hm & Hc & Hs). split_and!; intros cap Hcap.
    + rewrite Hcap in Hm. by apply memory_findings_nil.
    + rewrite Hcap in Hc. cbn in Hc. unfold cpu_findings in Hc. rewrite omap_nil in Hc. intros vm Hvm.
      specialize (Hc vm Hvm). cbv zeta in Hc. case_decide; [done|lia].
    + rewrite Hcap in Hs. cbn in Hs. unfold storage_findings in Hs. rewrite omap_nil in Hs. intros p Hp.
      specialize (Hs p Hp). cbv beta in Hs. case_decide; [done|lia].
  - intros (Hm & Hc & Hs). split_and!.
    + destruct (memory_mb c) as [cap|]; [|done]. by apply memory_findings_nil, Hm.
    + destruct (logical_cpus c) as [cap|]; [|done]. cbn. unfold cpu_findings. apply omap_nil. intros vm Hvm.
      specialize (Hc cap eq_refl vm Hvm). cbv zeta. rewrite decide_False by lia. done.
    + destruct (storage_free_gb c) as [cap|]; [|done]. cbn. unfold storage_findings. apply omap_nil. intros p Hp.
      specialize (Hs cap eq_refl p Hp). rewrite decide_False by lia. done.
Qed.

(** ** No blocker is hidden *)

Lemma finding_lines_here mk f : mk f ∈ finding_lines mk f.
Proof. by left. Qed.

Lemma findings_shown r f :
  f ∈ findings r → (∀ g, f_id g = f_id f → g = f) →
  LFinding f ∈ render_full r ∨ LLoose f ∈ render_full r.
Proof.
  intros Hf Hid. unfold render_full. destruct (decide (f_id f ∈ covered_ids r)) as [Hc|Hc].
  - left. right. apply elem_of_app. left. unfold covered_ids in Hc.
    apply list_elem_of_fmap in Hc as (g & Hg & (l & Hl & Hin)%elem_of_concat). symmetry in Hg. apply Hid in Hg as ->.
    apply list_elem_of_fmap in Hl as (c & -> & Hc). apply elem_of_concat. exists (check_lines c).
    split; [by apply list_elem_of_fmap_2|]. right. apply elem_of_concat. exists (finding_lines LFinding f).
    split; [by apply list_elem_of_fmap_2|apply finding_lines_here].
  - right. right. apply elem_of_app. right. apply elem_of_concat. exists (finding_lines LLoose f).
    split; [|apply finding_lines_here]. apply list_elem_of_fmap. exists f. split; [|done]. by rewrite decide_False.
Qed.
End Findings.
