(* ===== verification/PveClient.v ===== *)
(** * The Proxmox session ([drivers/proxmox/_client.py], [_serial.py], preflight of [driver.py])

    The client that the operations of [Pve] go through: connecting, the lazy SSH session
    and the channels of the transfers, the websocket of a serial console, the console
    generator as its suspended states; and the preflight of the driver.  Handles are
    numbered by when they were opened; opening and closing one is noted, so that
    [client_handles_exact] can say which are open.  Setting the timeout of a websocket does
    not fail; progress reporting is not modelled; a text frame is its UTF-8 encoding. *)

From S2P Require Import Prelude Exceptions Eff PyBytes PyDict Url Conn Naming Ipv4 Devices Hypervisor Context Preflight Remote Pve.
From stdpp Require Import options.

Inductive pc_event : Type :=
  | Asked (what : string)
  | SshOpened (k : nat) | SshClosed (k : nat)
  | SftpOpened (k : nat) | SftpClosed (k : nat)
  | WsOpened (k : nat) | WsClosed (k : nat).

(** The reply of [termproxy]. *)
Record term_ticket : Type := MkTerm { tt_port : text; tt_ticket : text; tt_user : text }.

Class PveSession (E : Type) : Type := {
  ps_import_proxmoxer : ext_op E ();
  ps_import_paramiko : ext_op E ();
  ps_import_websocket : ext_op E ();
  ps_import_requests : ext_op E ();
  ps_login : ext_op E ();
  ps_nodes : ext_op E (list string);
  (** the session of the SDK and its adapter *)
  ps_widen : ext_op E ();
  (** [memory.total] and [cpuinfo.cpus] of the status of a node *)
  ps_status : string → ext_op E (Z * Z);
  ps_storage_content : ext_op E text;
  ps_bridges : string → ext_op E (list string);
  ps_vms : string → ext_op E (list (string * Z));
  ps_tokens : ext_op E text;
  ps_termproxy : string → Z → ext_op E term_ticket;
  ps_ssh_connect : ext_op E ();
  ps_ssh_close : nat → ext_op E ();
  ps_open_sftp : nat → ext_op E ();
  ps_local_size : string → ext_op E Z;
  ps_stat : nat → text → ext_op E ();
  ps_mkdir : nat → text → ext_op E ();
  ps_put : nat → string → text → ext_op E ();
  ps_get : nat → text → string → ext_op E ();
  ps_sftp_close : nat → ext_op E ();
  ps_ws_connect : text → text → text → bool → ext_op E ();
  ps_ws_send : nat → text → ext_op E ();
  ps_ws_recv : nat → ext_op E bytes;
  ps_ws_close : nat → ext_op E ();
  is_ws_timeout : exn → bool;
  is_ws_closed : exn → bool;
  is_ws_error : exn → bool;
  #[global] ps_sleeper :: Sleeper E;
}.
#[export] Hint Mode PveSession ! : typeclass_instances.

(** The console generator: not started; suspended at a [yield]; ended. *)
Inductive pve_sink : Type := WsNew | WsLive (ws : nat) | WsDone.

(** The client: the SDK handle, the SSH session, the node; and the console generators it
    was asked for, by the name of their VM. *)
Record PcState (E : Type) : Type := MkPc {
  pl_ext : E;
  pl_api : bool;
  pl_ssh : option nat;
  pl_node : option string;
  pl_sinks : list (string * pve_sink);
}.
Arguments MkPc {E} _ _ _ _ _.
Arguments pl_ext {E} _.
Arguments pl_api {E} _.
Arguments pl_ssh {E} _.
Arguments pl_node {E} _.
Arguments pl_sinks {E} _.

Definition KEEPALIVE_FRAME : text := b "2".

(** [PurePosixPath(p).parts] without the root: empty components and [.] are dropped *)
Definition path_parts (p : text) : list text := filter (λ c, c ≠ [] ∧ c ≠ b ".") (split_on SLASH p).
(** [PurePosixPath(p).parent] of an absolute path, as its parts *)
Definition parent_parts (p : text) : list text := let l := path_parts p in take (length l - 1) l.

Section Client.
Context {E : Type} {L : PveSession E}.
Variable conn : ProxmoxConn.
Abbreviation W := (Remote pc_event (PcState E)).
Abbreviation R A := (act W A).

Definition set_pc_ext (e : E) (s : PcState E) : PcState E := MkPc e (pl_api s) (pl_ssh s) (pl_node s) (pl_sinks s).
Definition on_pc {A} (o : ext_op E A) : ext_op (PcState E) A := λ s, let '(r, e, dt) := o (pl_ext s) in (r, set_pc_ext e s, dt).
Definition query {A} (what : string) (o : ext_op E A) : R A := rcall (Asked what) (on_pc o).
Definition note (ev : pc_event) : R () := modify (λ s, MkRemote (rm_ext s) (rm_clock s) (rm_sent s ++ [ev])).
Definition upd (f : PcState E → PcState E) : R () := modify (λ s, MkRemote (f (rm_ext s)) (rm_clock s) (rm_sent s)).

(** A call that makes an object: its number, once it is there. *)
Definition opens (what : string) (mk : nat → pc_event) (o : ext_op E ()) : R nat :=
  query what o;; k ← gets (λ s, length (rm_sent s)); note (mk k);; mret k.

Definition imported (what : string) (o : ext_op E ()) : R () :=
  catch (query what o) (λ e, isinstance e ImportError) (λ _, throw DriverError [what]).

(** [client.api] and [client.node], which raise before [connect] *)
Definition need_api : R () := on ← gets (λ s, pl_api (rm_ext s)); throw_when (negb on) DriverError ["connect"].
Definition the_node : R string :=
  n ← gets (λ s, pl_node (rm_ext s)); match n with Some n => mret n | None => throw DriverError ["node"] end.

(** ** Connecting *)

(** [ProxmoxClient(conn)] *)
Definition new_client (e : E) : PcState E := MkPc e false None (if decide (pc_node conn = "") then None else Some (pc_node conn)) [].

Definition resolve_node : R string :=
  if decide (pc_node conn = "") then
    need_api;;
    nodes ← query "nodes" ps_nodes;
    match nodes with [n] => mret n | _ => throw DriverError (pc_host conn :: nodes) end
  else mret (pc_node conn).

Definition widen_session_pool : R () :=
  query "import requests" ps_import_requests;;
  catch (need_api;; query "session" ps_widen)
    (λ e, isinstance e AttributeError || isinstance e KeyError || isinstance e TypeError) (λ _, mret ()).

Definition connect : R () :=
  imported "proxmoxer" ps_import_proxmoxer;;
  query "ProxmoxAPI" ps_login;;
  upd (λ s, MkPc (pl_ext s) true (pl_ssh s) (pl_node s) (pl_sinks s));;
  node ← resolve_node;
  upd (λ s, MkPc (pl_ext s) (pl_api s) (pl_ssh s) (Some node) (pl_sinks s));;
  widen_session_pool;;
  query "status" (ps_status node);;
  mret ().

Definition close : R () :=
  ssh ← gets (λ s, pl_ssh (rm_ext s));
  (match ssh with
   | Some k =>
       catch (rcall (SshClosed k) (on_pc (ps_ssh_close k))) is_exception (λ _, mret ());;
       upd (λ s, MkPc (pl_ext s) (pl_api s) None (pl_node s) (pl_sinks s))
   | None => mret ()
   end);;
  upd (λ s, MkPc (pl_ext s) false (pl_ssh s) (pl_node s) (pl_sinks s)).

(** ** Transfers *)

Definition ensure_ssh : R nat :=
  ssh ← gets (λ s, pl_ssh (rm_ext s));
  match ssh with
  | Some k => mret k
  | None =>
      imported "paramiko" ps_import_paramiko;;
      k ← opens "ssh" SshOpened ps_ssh_connect;
      upd (λ s, MkPc (pl_ext s) (pl_api s) (Some k) (pl_node s) (pl_sinks s));;
      mret k
  end.

Definition close_channel (ch : nat) : R () := rcall (SftpClosed ch) (on_pc (ps_sftp_close ch)).

Definition sftp_get (remote_path : text) (dest_path : string) : R () :=
  c ← ensure_ssh;
  ch ← opens "sftp" SftpOpened (ps_open_sftp c);
  finally (query "get" (ps_get ch remote_path dest_path)) (close_channel ch).

(** [_sftp_makedirs] *)
Definition make_dir (ch : nat) (cur : text) : R () :=
  catch (query "stat" (ps_stat ch cur)) (λ e, isinstance e FileNotFoundError) (λ _,
    catch (query "mkdir" (ps_mkdir ch cur)) (λ e, isinstance e OSError) (λ e,
      catch (query "stat" (ps_stat ch cur)) (λ e, isinstance e FileNotFoundError) (λ _, lift (Raise e)))).
Fixpoint makedirs (ch : nat) (cur : text) (parts : list text) : R () :=
  match parts with
  | [] => mret ()
  | part :: parts => let cur := cur ++ SLASH :: part in make_dir ch cur;; makedirs ch cur parts
  end.

Definition sftp_put (source_path : string) (remote_path : text) : R () :=
  query "size" (ps_local_size source_path);;
  c ← ensure_ssh;
  ch ← opens "sftp" SftpOpened (ps_open_sftp c);
  finally
    (catch (makedirs ch [] (parent_parts remote_path);; query "put" (ps_put ch source_path remote_path)) is_exception (λ _, throw DriverError [source_path]))
    (close_channel ch).

(** ** The serial console *)

Definition websocket_url (node : string) (vmid : Z) (t : term_ticket) : text :=
  b "wss://" ++ b (pc_host conn) ++ COLON :: str_int (pc_port conn) ++ b "/api2/json/nodes/" ++ b node ++ b "/qemu/" ++ str_int vmid ++
  b "/vncwebsocket?" ++ urlencode [(b "port", tt_port t); (b "vncticket", tt_ticket t)].
Definition websocket_origin : text := b "https://" ++ b (pc_host conn) ++ COLON :: str_int (pc_port conn).

Definition close_ws (k : nat) : R () := rcall (WsClosed k) (on_pc (ps_ws_close k)).

Definition open_serial_websocket (vmid : Z) : R nat :=
  imported "websocket" ps_import_websocket;;
  need_api;;
  ticket ← query "get_tokens" ps_tokens;
  throw_when (bool_decide (ticket = [])) DriverError ["ticket"];;
  node ← the_node;
  need_api;;
  resp ← query "termproxy" (ps_termproxy node vmid);
  need_api;;
  ticket ← query "get_tokens" ps_tokens;
  ws ← opens "websocket" WsOpened
         (ps_ws_connect (websocket_url node vmid resp) (b "Cookie: PVEAuthCookie=" ++ ticket) websocket_origin (pc_verify_ssl conn));
  catch
    (query "send" (ps_ws_send ws (tt_user resp ++ COLON :: tt_ticket resp ++ [chr 10]));;
     reply ← query "recv" (ps_ws_recv ws);
     throw_when (negb (starts_with (b "OK") reply)) DriverError [])
    is_exception (λ e, close_ws ws;; lift (Raise e));;
  mret ws.

(** The [finally] of the loop. *)
Definition release_ws (ws : nat) : R () := catch (close_ws ws) is_exception (λ _, mret ()).

(** One turn of the loop: what is yielded, [None] when it returns. *)
Definition console_turn (backend_name : string) (ws : nat) : R (option bytes) := λ w,
  match query "recv" (ps_ws_recv ws) w with
  | (Ok frame, w) => (Ok (Some frame), w)
  | (Raise e, w) =>
      if is_ws_timeout (E:=E) e then
        (catch (query "send" (ps_ws_send ws KEEPALIVE_FRAME)) (is_ws_error (E:=E)) (λ _, throw DriverError [backend_name]);; mret (Some [])) w
      else if is_ws_closed (E:=E) e then (Ok None, w)
      else (Raise e, w)
  end.

Definition set_sink (i : nat) (name : string) (g : pve_sink) : R () :=
  upd (λ s, MkPc (pl_ext s) (pl_api s) (pl_ssh s) (pl_node s) (<[i := (name, g)]> (pl_sinks s))).

(** From one [yield] to the next. *)
Definition console_run (i : nat) (name : string) (ws : nat) : R (option bytes) := λ w,
  match console_turn name ws w with
  | (Ok (Some chunk), w) => (set_sink i name (WsLive ws);; mret (Some chunk)) w
  | (Ok None, w) => (release_ws ws;; mret None) w
  | (Raise e, w) => (release_ws ws;; lift (Raise e)) w
  end.

(** [read_build_result_sink(name)], [next(sink)] ([None]: it is exhausted) and
    [sink.close()]; a generator that raised is ended *)
Definition read_build_result_sink (name : string) : R nat :=
  i ← gets (λ s, length (pl_sinks (rm_ext s)));
  upd (λ s, MkPc (pl_ext s) (pl_api s) (pl_ssh s) (pl_node s) (pl_sinks s ++ [(name, WsNew)]));;
  mret i.

Definition console_next (i : nat) : R (option bytes) :=
  g ← gets (λ s, pl_sinks (rm_ext s) !! i);
  match g with
  | Some (name, WsNew) =>
      set_sink i name WsDone;;
      imported "websocket" ps_import_websocket;;
      need_api;;
      node ← the_node;
      vms ← query "qemu" (ps_vms node);
      match dict_get (named vms) name with
      | None => throw DriverError [name]
      | Some vmid => ws ← open_serial_websocket vmid; console_run i name ws
      end
  | Some (name, WsLive ws) => set_sink i name WsDone;; console_run i name ws
  | _ => mret None
  end.

Definition console_close (i : nat) : R () :=
  g ← gets (λ s, pl_sinks (rm_ext s) !! i);
  match g with
  | Some (name, WsLive ws) => set_sink i name WsDone;; release_ws ws
  | Some (name, WsNew) => set_sink i name WsDone
  | _ => mret ()
  end.

(** ** Operations of the client in any order *)

Inductive pc_op : Type :=
  | PcConnect | PcClose
  | PcGet (remote_path : text) (dest_path : string) | PcPut (source_path : string) (remote_path : text)
  | PcSink (name : string) | PcNext (i : nat) | PcCloseSink (i : nat).

Definition pc_perform (o : pc_op) : R () :=
  match o with
  | PcConnect => connect
  | PcClose => close
  | PcGet r d => sftp_get r d
  | PcPut d r => sftp_put d r
  | PcSink name => read_build_result_sink name;; mret ()
  | PcNext i => console_next i;; mret ()
  | PcCloseSink i => console_close i
  end.
(** A caller that goes on after a failure. *)
Definition pc_run (ops : list pc_op) : R () := forA (λ o, catch (pc_perform o) is_exception (λ _, mret ())) ops.
End Client.

(** ** Preflight ([driver.py]) *)
Section PvePreflight.
Context {B Bld Com : Type} {G : Guests B Bld Com} {E : Type} {L : PveSession E}.
Variable new_id : string → string → nat.
Variable conn : ProxmoxConn.
Variable is_pve_fault : exn → bool.
Implicit Types (h : Hypervisor Bld Com).
Abbreviation R A := (act (Remote pc_event (PcState E)) A).

Definition host_capacity : R (option (Z * Z)) :=
  catch (need_api;; node ← the_node; st ← query "status" (ps_status node); mret (Some (st.1 / (1024 * 1024), st.2)%Z)) is_exception (λ _, mret None).

(** ["import" in {c.strip() for c in content.split(",")}] *)
Definition enables_import (content : text) : bool := bool_decide (b "import" ∈ strip_blanks <$> split_on (chr 44) content).
Definition import_content_findings : R (list PreflightFinding) :=
  need_api;;
  content ← query "storage" ps_storage_content;
  mret (if enables_import content then [] else [finding new_id "proxmox-import-content-missing" (pc_storage conn) []]).

Definition uplink_bridge_findings (uplinks : gmap string string) (sws : list Switch) : R (list PreflightFinding) :=
  match wanted_uplinks uplinks sws with
  | [] => mret []
  | wanted =>
      need_api;;
      node ← the_node;
      bridges ← query "network" (ps_bridges node);
      mret ((λ w, finding new_id "proxmox-uplink-bridge-missing" w.1 (w.2 :: node :: sorted (remove_dups bridges))) <$> filter (λ w, w.2 ∉ bridges) wanted)
  end.

Definition SUPPORTED_FIRMWARES : list string := ["bios"; "uefi"].

Definition preflight (uplinks : gmap string string) h (build_switch : option Switch) : R PreflightReport :=
  catch (
    let switches := preflight_switches h build_switch in
    bridge ← uplink_bridge_findings uplinks switches;
    content ← import_content_findings;
    host ← host_capacity;
    mret (from_checks [
      evaluate "named-uplink-resolution" (unknown_uplink_findings new_id switches uplinks) None;
      evaluate "os-disk-origin" (builder_origin_findings (G := G) new_id h) None;
      evaluate "supported-firmware" (unsupported_firmware_findings new_id h SUPPORTED_FIRMWARES "ProxmoxDriver") None;
      evaluate "uplink-bridge" bridge None;
      evaluate "import-content" content None;
      resource_check new_id h ((λ c, MkCapacity (Some c.1) (Some c.2) None) <$> host)]))
    is_pve_fault (λ _, throw DriverError []).
End PvePreflight.

(** ** Which handles are open *)

Create HintDb still.

Definition handle_step (X : gset nat) (ev : pc_event) : gset nat :=
  match ev with
  | SshOpened k | SftpOpened k | WsOpened k => {[k]} ∪ X
  | SshClosed k | SftpClosed k | WsClosed k => X ∖ {[k]}
  | Asked _ => X
  end.
(** Opened and not closed. *)
Definition open_handles (l : list pc_event) : gset nat := foldl handle_step ∅ l.

Definition sink_handle (g : string * pve_sink) : option nat := match g.2 with WsLive ws => Some ws | _ => None end.
(** What the client and its generators hold. *)
Definition held_list {E} (s : PcState E) : list nat := option_list (pl_ssh s) ++ omap sink_handle (pl_sinks s).

Section Handles.
Context {E : Type} {L : PveSession E}.
Variable conn : ProxmoxConn.
Set Default Proof Using "Type".
Abbreviation W := (Remote pc_event (PcState E)).
Abbreviation R A := (act W A).

(** The handles open are those held and the ones in flight, [X]. *)
Record accounted (X : gset nat) (s : W) : Prop := {
  ac_open : open_handles (rm_sent s) = list_to_set (held_list (rm_ext s)) ∪ X;
  ac_apart : ∀ k, k ∈ held_list (rm_ext s) → k ∉ X;
  ac_once : NoDup (held_list (rm_ext s));
  ac_bound : ∀ k, k ∈ open_handles (rm_sent s) → k < length (rm_sent s);
}.

(** Actions that open, close and hold nothing. *)
Definition still {A} (m : R A) : Prop := ∀ s r s', m s = (r, s') →
  pl_ssh (rm_ext s') = pl_ssh (rm_ext s) ∧ pl_sinks (rm_ext s') = pl_sinks (rm_ext s) ∧
  open_handles (rm_sent s') = open_handles (rm_sent s) ∧ length (rm_sent s) ≤ length (rm_sent s').

Lemma still_ret {A} (a : A) : still (mret a).
Proof. by intros s r s' [= <- <-]. Qed.
Lemma still_lift {A} (r : res A) : still (lift r).
Proof. by intros s r' s' [= <- <-]. Qed.
Lemma still_gets {A} (f : W → A) : still (gets f).
Proof. by intros s r s' [= <- <-]. Qed.
Lemma still_bind {A B} (m : R A) (k : A → R B) : still m → (∀ a, still (k a)) → still (m ≫= k).
Proof.
  intros Hm Hk s r s' [(a & s1 & H1 & H2)|(e & H1 & ->)]%act_bind_inv; destruct (Hm _ _ _ H1) as (E1 & E2 & E3 & E4); [|done].
  destruct (Hk _ _ _ _ H2) as (F1 & F2 & F3 & F4). rewrite F1, F2, F3. split_and!; [done..|lia].
Qed.
Lemma still_catch {A} (m : R A) p h : still m → (∀ e, still (h e)) → still (catch m p h).
Proof.
  intros Hm Hh s r s'. unfold catch. destruct (m s) as [[a|e] s1] eqn:Hs; destruct (Hm _ _ _ Hs) as (E1 & E2 & E3 & E4); [by intros [= <- <-]|].
  destruct (p e); [|by intros [= <- <-]]. intros H. destruct (Hh _ _ _ _ H) as (F1 & F2 & F3 & F4). rewrite F1, F2, F3. split_and!; [done..|lia].
Qed.
Lemma still_query {A} what (o : ext_op E A) : still (query what o : R A).
Proof.
  intros s r s'. unfold query, rcall, on_pc. destruct (o _) as [[x e] dt]. intros [= <- <-]. cbn. unfold open_handles.
  rewrite foldl_app, length_app. cbn. split_and!; [done..|lia].
Qed.
Lemma still_throw_when t c args : still (throw_when t c args : R ()).
Proof. by intros s r s' [= <- <-]. Qed.
Lemma still_upd f : (∀ s, pl_ssh (f s) = pl_ssh s) → (∀ s, pl_sinks (f s) = pl_sinks s) → still (upd f : R ()).
Proof. intros H1 H2 s r s' [= <- <-]. cbn. by rewrite H1, H2. Qed.
Lemma still_imported what o : still (imported what o : R ()).
Proof. apply still_catch; [apply still_query|]. intros e. apply still_lift. Qed.
Lemma still_need : still (need_api : R ()).
Proof. apply still_bind; [apply still_gets|]. intros on. apply still_throw_when. Qed.
Lemma still_node : still (the_node : R string).
Proof. apply still_bind; [apply still_gets|]. intros [n|]; [apply still_ret|apply still_lift]. Qed.

#[local] Hint Resolve still_ret still_lift still_gets still_bind still_catch still_query still_throw_when still_imported still_need still_node : still.

Lemma accounted_still {A} (m : R A) X s r s' : still m → accounted X s → m s = (r, s') → accounted X s'.
Proof.
  intros Hm [H1 H2 H3 H4] (E1 & E2 & E3 & E4)%Hm. unfold held_list in *. split; unfold held_list; rewrite ?E1, ?E2, ?E3; [done..|].
  intros k Hk%H4. lia.
Qed.

(** *** Opening, closing, holding *)

Lemma open_handles_app l ev : open_handles (l ++ [ev]) = handle_step (open_handles l) ev.
Proof. unfold open_handles. by rewrite foldl_app. Qed.

Lemma opens_accounted what mk (o : ext_op E ()) X (s : W) r s' :
  (∀ Y k, handle_step Y (mk k) = {[k]} ∪ Y) → accounted X s → opens what mk o s = (r, s') →
  match r with Ok k => accounted ({[k]} ∪ X) s' ∧ k ∉ X ∧ pl_sinks (rm_ext s') = pl_sinks (rm_ext s) ∧ pl_ssh (rm_ext s') = pl_ssh (rm_ext s) | Raise _ => accounted X s' end.
Proof.
  intros Hmk Ha [([] & s1 & H1 & H2)|(e & H1 & ->)]%act_bind_inv; pose proof (accounted_still _ _ _ _ _ (still_query _ _) Ha H1) as Ha1; [|done].
  rewrite act_bind_gets in H2. injection H2 as <- <-. set (k := length (rm_sent s1)). destruct Ha1 as [A1 A2 A3 A4].
  destruct (still_query what o _ _ _ H1) as (E1 & E2 & _).
  assert (k ∉ open_handles (rm_sent s1)) as Hk by (intros ?%A4; unfold k in *; lia).
  assert (k ∉ held_list (rm_ext s1) ∧ k ∉ X) as [Hk1 Hk2].
  { rewrite A1 in Hk. split; [intros ?; apply Hk, elem_of_union_l, elem_of_list_to_set|]; set_solver. }
  split_and!; [|done..|cbn; congruence|cbn; congruence]. split; cbn [rm_sent rm_ext]; [| |done|].
  - rewrite open_handles_app, Hmk, A1. set_solver.
  - intros k' Hk' [->%elem_of_singleton|?]%elem_of_union; [done|by eapply A2].
  - intros k'. rewrite open_handles_app, Hmk, length_app. cbn. intros [->%elem_of_singleton|?%A4]%elem_of_union; unfold k; lia.
Qed.

Lemma closes_accounted {A} ev (o : ext_op E A) k X (s : W) r s' :
  (∀ Y, handle_step Y ev = Y ∖ {[k]}) → accounted ({[k]} ∪ X) s → k ∉ X → rcall ev (on_pc o) s = (r, s') →
  accounted X s' ∧ pl_sinks (rm_ext s') = pl_sinks (rm_ext s).
Proof.
  intros Hev [A1 A2 A3 A4] Hk. unfold rcall, on_pc. destruct (o _) as [[x e] dt]. intros [= <- <-].
  assert (∀ k', k' ∈ held_list (rm_ext s) → k' ≠ k ∧ k' ∉ X) as Hh by (intros k' ?%A2; set_solver).
  split; [|done]. split; cbn [rm_sent rm_ext]; unfold held_list, set_pc_ext; cbn; fold (held_list (rm_ext s)); [| |done|].
  - rewrite open_handles_app, Hev, A1. apply set_eq. intros k'. specialize (Hh k'). set_solver.
  - intros k' Hk'. by apply Hh.
  - intros k'. rewrite open_handles_app, Hev, length_app. cbn. intros [?%A4 _]%elem_of_difference. lia.
Qed.

Lemma set_sink_inv i name g (s : W) r s' :
  set_sink i name g s = (r, s') → r = Ok () ∧ rm_sent s' = rm_sent s ∧ pl_ssh (rm_ext s') = pl_ssh (rm_ext s) ∧ pl_sinks (rm_ext s') = <[i := (name, g)]> (pl_sinks (rm_ext s)).
Proof. by intros [= <- <-]. Qed.

Lemma omap_insert_split {A B} (f : A → option B) (l : list A) i x y :
  l !! i = Some x → omap f l ≡ₚ option_list (f x) ++ omap f (take i l ++ drop (S i) l) ∧
    omap f (<[i := y]> l) ≡ₚ option_list (f y) ++ omap f (take i l ++ drop (S i) l).
Proof.
  intros Hx. assert (∀ z, omap f (take i l ++ z :: drop (S i) l) ≡ₚ option_list (f z) ++ omap f (take i l ++ drop (S i) l)) as H.
  { intros z. rewrite !omap_app. cbn. destruct (f z); cbn; [|done]. by rewrite <-Permutation_middle. }
  split.
  - rewrite <-(take_drop_middle l i x Hx) at 1. apply H.
  - rewrite insert_take_drop by (by eapply lookup_lt_Some). apply H.
Qed.

(** A handle in flight is taken up, a held one let go. *)
Lemma accounted_take k X (s s' : W) :
  accounted ({[k]} ∪ X) s → k ∉ X → rm_sent s' = rm_sent s → held_list (rm_ext s') ≡ₚ k :: held_list (rm_ext s) → accounted X s'.
Proof.
  intros [A1 A2 A3 A4] Hk Hs Hp. split; rewrite ?Hs, ?Hp; [| | |done].
  - rewrite A1. cbn. set_solver.
  - intros k'. rewrite Hp. intros [->|?%A2]%elem_of_cons; set_solver.
  - constructor; [|done]. intros ?%A2. set_solver.
Qed.
Lemma accounted_drop k X (s s' : W) :
  accounted X s → rm_sent s' = rm_sent s → held_list (rm_ext s) ≡ₚ k :: held_list (rm_ext s') → accounted ({[k]} ∪ X) s' ∧ k ∉ X.
Proof.
  intros [A1 A2 A3 A4] Hs Hp. rewrite Hp in A3. apply NoDup_cons in A3 as [Hk A3]. split; [split; rewrite ?Hs; [| |done..]|].
  - rewrite A1, Hp. cbn. set_solver.
  - intros k' Hk'. assert (k' ∉ X) by (apply A2; rewrite Hp; by right). set_solver.
  - apply A2. rewrite Hp. by left.
Qed.
Lemma accounted_same X (s s' : W) :
  accounted X s → rm_sent s' = rm_sent s → held_list (rm_ext s') ≡ₚ held_list (rm_ext s) → accounted X s'.
Proof. intros [A1 A2 A3 A4] Hs Hp. split; rewrite ?Hs, ?Hp; [done| |done..]. intros k. rewrite Hp. apply A2. Qed.

Lemma set_sink_held i name g0 g (s : W) r s' :
  pl_sinks (rm_ext s) !! i = Some g0 → set_sink i name g s = (r, s') →
  ∃ rest, held_list (rm_ext s) ≡ₚ option_list (sink_handle g0) ++ rest ∧ held_list (rm_ext s') ≡ₚ option_list (sink_handle (name, g)) ++ rest.
Proof.
  intros Hi [_ [_ [H1 H2]]]%set_sink_inv. destruct (omap_insert_split sink_handle _ _ _ (name, g) Hi) as [P1 P2]. unfold held_list. rewrite H1, H2.
  exists (option_list (pl_ssh (rm_ext s)) ++ omap sink_handle (take i (pl_sinks (rm_ext s)) ++ drop (S i) (pl_sinks (rm_ext s)))).
  rewrite P1, P2. split; by rewrite !app_assoc, (Permutation_app_comm (option_list (pl_ssh _))).
Qed.

Lemma sink_yields i name ws g0 X (s : W) r s' :
  accounted ({[ws]} ∪ X) s → ws ∉ X → pl_sinks (rm_ext s) !! i = Some g0 → sink_handle g0 = None → set_sink i name (WsLive ws) s = (r, s') → accounted X s'.
Proof.
  intros Ha Hws Hi Hg H. destruct (set_sink_held _ _ _ _ _ _ _ Hi H) as (rest & P1 & P2). apply set_sink_inv in H as (_ & Hs & _).
  eapply accounted_take; [exact Ha|done..|]. rewrite P2, P1, Hg. done.
Qed.
Lemma sink_resumes i name0 name ws X (s : W) r s' :
  accounted X s → pl_sinks (rm_ext s) !! i = Some (name0, WsLive ws) → set_sink i name WsDone s = (r, s') → accounted ({[ws]} ∪ X) s' ∧ ws ∉ X.
Proof.
  intros Ha Hi H. destruct (set_sink_held _ _ _ _ _ _ _ Hi H) as (rest & P1 & P2). apply set_sink_inv in H as (_ & Hs & _).
  eapply accounted_drop; [exact Ha|done|]. rewrite P1, P2. done.
Qed.
Lemma sink_starts i name g0 X (s : W) r s' :
  accounted X s → pl_sinks (rm_ext s) !! i = Some g0 → sink_handle g0 = None → set_sink i name WsDone s = (r, s') → accounted X s'.
Proof.
  intros Ha Hi Hg H. destruct (set_sink_held _ _ _ _ _ _ _ Hi H) as (rest & P1 & P2). apply set_sink_inv in H as (_ & Hs & _).
  eapply accounted_same; [exact Ha|done|]. rewrite P1, P2, Hg. done.
Qed.

(** *** The operations *)

Lemma ensure_ssh_accounted X (s : W) r s' : accounted X s → ensure_ssh s = (r, s') → accounted X s'.
Proof.
  intros Ha. unfold ensure_ssh. rewrite act_bind_gets. destruct (pl_ssh (rm_ext s)) as [k|] eqn:Hssh; [by intros [= <- <-]|].
  intros [([] & s1 & H1 & H)|(e & H1 & ->)]%act_bind_inv; pose proof (accounted_still _ _ _ _ _ (still_imported _ _) Ha H1) as Ha1; [|done].
  destruct (still_imported _ _ _ _ _ H1) as (E1 & _).
  apply act_bind_inv in H as [(k & s2 & H2 & H)|(e & H2 & ->)]; (eapply opens_accounted in H2; [|done|exact Ha1]); [|exact H2].
  destruct H2 as (Ha2 & Hk & _ & Hs2). injection H as <- <-. eapply (accounted_take k); [exact Ha2|done|done|].
  unfold held_list. cbn [rm_ext pl_ssh pl_sinks]. by rewrite Hs2, E1, Hssh.
Qed.

Lemma channel_accounted X (m : nat → R ()) c (s : W) r s' :
  (∀ ch, still (m ch)) → accounted X s →
  (ch ← opens "sftp" SftpOpened (ps_open_sftp c); finally (m ch) (close_channel ch)) s = (r, s') → accounted X s'.
Proof.
  intros Hm Ha [(ch & s1 & H1 & H)|(e & H1 & ->)]%act_bind_inv; (eapply opens_accounted in H1; [|done|exact Ha]); [|exact H1].
  destruct H1 as (Ha1 & Hk & _). unfold finally in H. destruct (m ch s1) as [r1 s2] eqn:Hs1.
  pose proof (accounted_still _ _ _ _ _ (Hm ch) Ha1 Hs1) as Ha2. destruct (close_channel ch s2) as [r2 s3] eqn:Hs2.
  eapply closes_accounted in Hs2 as [Ha3 _]; [|done|exact Ha2|done]. by destruct r2 as [[]|e]; injection H as <- <-.
Qed.

Lemma still_makedirs ch cur parts : still (makedirs ch cur parts : R ()).
Proof. revert cur. induction parts as [|p parts IH]; intros cur; cbn [makedirs]; unfold make_dir; auto 10 with still. Qed.

Lemma sftp_get_accounted X rp d (s : W) r s' : accounted X s → sftp_get rp d s = (r, s') → accounted X s'.
Proof.
  intros Ha [(c & s1 & H1 & H)|(e & H1 & ->)]%act_bind_inv; apply (ensure_ssh_accounted X) in H1; try done.
  eapply channel_accounted, H; [|done]. intros ch. apply still_query.
Qed.
Lemma sftp_put_accounted X d rp (s : W) r s' : accounted X s → sftp_put d rp s = (r, s') → accounted X s'.
Proof.
  intros Ha [(n & s0 & H0 & H)|(e & H0 & ->)]%act_bind_inv; pose proof (accounted_still _ _ _ _ _ (still_query _ _) Ha H0) as Ha0; [|done].
  apply act_bind_inv in H as [(c & s1 & H1 & H)|(e & H1 & ->)]; apply (ensure_ssh_accounted X) in H1; try done.
  eapply (channel_accounted X (λ ch, catch _ _ _)), H; [|done]. intros ch. apply still_catch; [|intros e; apply still_lift].
  apply still_bind; [apply still_makedirs|]. intros []. apply still_query.
Qed.

(** No interrupt arrives inside the handshake of a console, nor while the session is
    being closed. *)
Record undisturbed : Prop := {
  un_send k t (e : E) x : (ps_ws_send k t e).1.1 = Raise x → is_exception x = true;
  un_recv k (e : E) x : (ps_ws_recv k e).1.1 = Raise x → is_exception x = true;
  un_ssh_close k (e : E) x : (ps_ssh_close k e).1.1 = Raise x → is_exception x = true;
}.
Hypothesis Hun : undisturbed.

Lemma query_raises {A} what (o : ext_op E A) (p : exn → bool) (s : W) e s' :
  (∀ x y, (o x).1.1 = Raise y → p y = true) → query what o s = (Raise e, s') → p e = true.
Proof. intros Ho. unfold query, rcall, on_pc. specialize (Ho (pl_ext (rm_ext s))). destruct (o _) as [[r e0] dt]. intros [= -> _]. by apply Ho. Qed.

(** Actions that return a websocket in flight, or nothing. *)
Definition gives_ws (X : gset nat) (m : R nat) : Prop := ∀ s r s', accounted X s → m s = (r, s') →
  pl_sinks (rm_ext s') = pl_sinks (rm_ext s) ∧ match r with Ok ws => accounted ({[ws]} ∪ X) s' ∧ ws ∉ X | Raise _ => accounted X s' end.
Lemma gives_after {A} (m : R A) (k : A → R nat) X : still m → (∀ a, gives_ws X (k a)) → gives_ws X (m ≫= k).
Proof.
  intros Hm Hk s r s' Ha [(a & s1 & H1 & H)|(e & H1 & ->)]%act_bind_inv; pose proof (accounted_still _ _ _ _ _ Hm Ha H1) as Ha1;
    destruct (Hm _ _ _ H1) as (_ & E1 & _); [|done]. rewrite <-E1. exact (Hk a s1 r s' Ha1 H).
Qed.

Lemma open_ws_accounted vmid X : gives_ws X (open_serial_websocket conn vmid).
Proof using Hun.
  unfold open_serial_websocket. do 9 (apply gives_after; [auto with still|intros ?]).
  intros s r s' Ha [(ws & s1 & H1 & H)|(e & H1 & ->)]%act_bind_inv.
  2:{ assert (pl_sinks (rm_ext s') = pl_sinks (rm_ext s)) as ->; [|split; [done|]; by eapply opens_accounted in H1; [|done|exact Ha]].
      apply act_bind_inv in H1 as [([] & s1 & H1 & H2)|(e' & H1 & _)]; apply still_query in H1 as (_ & E1 & _); [|done].
      rewrite act_bind_gets in H2. by injection H2. }
  eapply opens_accounted in H1; [|done|exact Ha]. destruct H1 as (Ha1 & Hk & Hsk & _). rewrite <-Hsk.
  set (body := query "send" _ ≫= _) in H. assert (still body) as Hb by (unfold body; auto with still).
  assert (∀ t e t', body t = (Raise e, t') → is_exception e = true) as Hraise.
  { intros t e t' [([] & t1 & _ & [(rep & t2 & _ & Ht)|(e' & Ht & [= <-])]%act_bind_inv)|(e' & Ht & [= <-])]%act_bind_inv.
    - unfold throw_when in Ht. injection Ht as Ht _. by apply raise_when_raises in Ht as ->.
    - eapply query_raises, Ht. intros; by eapply un_recv.
    - eapply query_raises, Ht. intros; by eapply un_send. }
  apply act_bind_inv in H as [([] & s2 & H2 & [= <- <-])|(e & H2 & ->)]; unfold catch in H2;
    destruct (body s1) as [[[]|e'] s3] eqn:Hs1; pose proof (accounted_still _ _ _ _ _ Hb Ha1 Hs1) as Ha3; destruct (Hb _ _ _ Hs1) as (_ & E3 & _).
  - injection H2 as <-. done.
  - rewrite (Hraise _ _ _ Hs1) in H2. by apply act_bind_inv in H2 as [([] & s4 & _ & [=])|(? & _ & [=])].
  - done.
  - rewrite (Hraise _ _ _ Hs1) in H2. rewrite <-E3.
    apply act_bind_inv in H2 as [([] & s4 & H4 & [= <- <-])|(? & H4 & [= <-])]; by eapply closes_accounted in H4 as [Ha4 E4]; [|done|exact Ha3|done].
Qed.

Lemma release_accounted ws X (s : W) r s' :
  accounted ({[ws]} ∪ X) s → ws ∉ X → release_ws ws s = (r, s') → accounted X s'.
Proof.
  intros Ha Hws. unfold release_ws, catch. destruct (close_ws ws s) as [[[]|e] s1] eqn:H; eapply closes_accounted in H as [Ha1 _]; try done.
  - by intros [= <- <-].
  - by destruct (is_exception e); intros [= <- <-].
Qed.

Lemma still_turn name ws : still (console_turn name ws : R (option bytes)).
Proof.
  intros s r s'. unfold console_turn. destruct (query "recv" _ s) as [[f|e] s1] eqn:H; apply still_query in H as (E1 & E2 & E3 & E4); [by intros [= <- <-]|].
  destruct (is_ws_timeout e); [|by destruct (is_ws_closed e); intros [= <- <-]].
  intros H. assert (still (catch (query "send" (ps_ws_send ws KEEPALIVE_FRAME)) (is_ws_error (E:=E)) (λ _, throw DriverError [name]);; mret (Some []) : R (option bytes))) as Hst.
  { apply still_bind; [|auto with still]. apply still_catch; [auto with still|]. intros ?. apply still_lift. }
  destruct (Hst _ _ _ H) as (F1 & F2 & F3 & F4). rewrite F1, F2, F3. split_and!; [done..|lia].
Qed.

Lemma console_run_accounted i name ws X (s : W) r s' :
  accounted ({[ws]} ∪ X) s → ws ∉ X → (∃ g, pl_sinks (rm_ext s) !! i = Some g ∧ sink_handle g = None) →
  console_run i name ws s = (r, s') → accounted X s'.
Proof.
  intros Ha Hws (g & Hi & Hg). unfold console_run. destruct (console_turn name ws s) as [[[c|]|e] s1] eqn:Ht;
    pose proof (accounted_still _ _ _ _ _ (still_turn _ _) Ha Ht) as Ha1; destruct (still_turn _ _ _ _ _ Ht) as (_ & E1 & _).
  - intros [([] & s2 & H2 & [= <- <-])|(e & H2 & ->)]%act_bind_inv; (eapply sink_yields; [exact Ha1|done|by rewrite E1|done|exact H2]).
  - intros [([] & s2 & H2 & [= <- <-])|(e & H2 & ->)]%act_bind_inv; (eapply release_accounted; [exact Ha1|done|exact H2]).
  - intros [([] & s2 & H2 & [= <- <-])|(e' & H2 & ->)]%act_bind_inv; (eapply release_accounted; [exact Ha1|done|exact H2]).
Qed.

(** Actions of a running generator that leave nothing in flight. *)
Definition settles {A} (X : gset nat) (i : nat) (name : string) (m : R A) : Prop := ∀ s r s',
  accounted X s → pl_sinks (rm_ext s) !! i = Some (name, WsDone) → m s = (r, s') → accounted X s'.
Lemma settles_after {A B} X i name (m : R A) (k : A → R B) : still m → (∀ a, settles X i name (k a)) → settles X i name (m ≫= k).
Proof.
  intros Hm Hk s r s' Ha Hi [(a & s1 & H1 & H)|(e & H1 & ->)]%act_bind_inv; pose proof (accounted_still _ _ _ _ _ Hm Ha H1) as Ha1; [|done].
  destruct (Hm _ _ _ H1) as (_ & E1 & _). eapply Hk, H; [done|]. by rewrite E1.
Qed.

Lemma console_next_accounted i X (s : W) r s' : accounted X s → console_next conn i s = (r, s') → accounted X s'.
Proof using Hun.
  intros Ha. unfold console_next. rewrite act_bind_gets. destruct (pl_sinks (rm_ext s) !! i) as [[name [|ws|]]|] eqn:Hi; try by intros [= <- <-].
  - intros [([] & s1 & H1 & H)|(e & H1 & _)]%act_bind_inv; [|by apply set_sink_inv in H1 as [[=] _]].
    pose proof (sink_starts _ _ _ _ _ _ _ Ha Hi eq_refl H1) as Ha1. apply set_sink_inv in H1 as (_ & _ & _ & Hs1).
    assert (pl_sinks (rm_ext s1) !! i = Some (name, WsDone)) as Hi1 by (rewrite Hs1; apply list_lookup_insert_eq; by eapply lookup_lt_Some).
    clear Ha Hi Hs1. revert s1 r s' Ha1 Hi1 H. change (settles X i name (
      imported "websocket" ps_import_websocket;; need_api;; node ← the_node; vms ← query "qemu" (ps_vms node);
      match dict_get (named vms) name with None => throw DriverError [name] | Some vmid => ws ← open_serial_websocket conn vmid; console_run i name ws end)).
    do 4 (apply settles_after; [auto with still|intros ?]). intros t r t' Ha Hi. destruct (dict_get _ _) as [vmid|]; [|by intros [= <- <-]].
    intros [(ws & s2 & H2 & H)|(e & H2 & ->)]%act_bind_inv; apply (open_ws_accounted _ X) in H2 as [E2 H2]; try done.
    destruct H2 as [Ha2 Hws]. eapply console_run_accounted in H; [done|exact Ha2|done|]. exists (name, WsDone). by rewrite E2.
  - intros [([] & s1 & H1 & H)|(e & H1 & _)]%act_bind_inv; [|by apply set_sink_inv in H1 as [[=] _]].
    destruct (sink_resumes _ _ _ _ _ _ _ _ Ha Hi H1) as [Ha1 Hws]. apply set_sink_inv in H1 as (_ & _ & _ & Hs1).
    eapply console_run_accounted in H; [done|exact Ha1|done|]. exists (name, WsDone). split; [|done]. rewrite Hs1. apply list_lookup_insert_eq. by eapply lookup_lt_Some.
Qed.

Lemma console_close_accounted i X (s : W) r s' : accounted X s → console_close i s = (r, s') → accounted X s'.
Proof.
  intros Ha. unfold console_close. rewrite act_bind_gets. destruct (pl_sinks (rm_ext s) !! i) as [[name [|ws|]]|] eqn:Hi; try by intros [= <- <-].
  - intros H. by eapply sink_starts in H.
  - intros [([] & s1 & H1 & H)|(e & H1 & _)]%act_bind_inv; [|by apply set_sink_inv in H1 as [[=] _]].
    destruct (sink_resumes _ _ _ _ _ _ _ _ Ha Hi H1) as [Ha1 Hws]. by eapply release_accounted.
Qed.

Lemma close_ssh_accounted k X (s : W) r s' :
  accounted X s → pl_ssh (rm_ext s) = Some k → catch (rcall (SshClosed k) (on_pc (ps_ssh_close k))) is_exception (λ _, mret ()) s = (r, s') →
  r = Ok () ∧ accounted X (MkRemote (MkPc (pl_ext (rm_ext s')) (pl_api (rm_ext s')) None (pl_node (rm_ext s')) (pl_sinks (rm_ext s'))) (rm_clock s') (rm_sent s')).
Proof using Hun.
  intros Ha Hssh H. set (f := λ t : W, MkRemote (MkPc (pl_ext (rm_ext t)) (pl_api (rm_ext t)) None (pl_node (rm_ext t)) (pl_sinks (rm_ext t))) (rm_clock t) (rm_sent t)).
  destruct (accounted_drop k X s (f s)) as [Ha1 Hk]; [done..| |].
  { unfold held_list, f. cbn [rm_ext pl_ssh pl_sinks]. by rewrite Hssh. }
  assert (∀ x, rcall (SshClosed k) (on_pc (ps_ssh_close k)) (f s) = (x, f s') → accounted X (f s')) as Hclose.
  { intros x Hx. by eapply closes_accounted in Hx as [Hx _]; [|done|exact Ha1|done]. }
  unfold catch, rcall, on_pc in *. cbn [rm_ext f] in Hclose. unfold f in Hclose at 1. cbn [rm_ext pl_ext] in Hclose.
  pose proof (un_ssh_close Hun k (pl_ext (rm_ext s))) as Hraise. destruct (ps_ssh_close k _) as [[x e] dt]. cbn in Hraise.
  assert (r = Ok () ∧ s' = MkRemote (set_pc_ext e (rm_ext s)) (rm_clock s + Z.of_nat dt)%Z (rm_sent s ++ [SshClosed k])) as [-> ->].
  { destruct x as [[]|x]; [by injection H as <- <-|]. rewrite (Hraise x eq_refl) in H. by injection H as <- <-. }
  split; [done|]. by apply (Hclose x).
Qed.

Lemma close_accounted X (s : W) r s' : accounted X s → close s = (r, s') → accounted X s'.
Proof using Hun.
  intros Ha. unfold close. rewrite act_bind_gets. intros [([] & s1 & H1 & H)|(e & H1 & ->)]%act_bind_inv.
  - eapply accounted_still; [apply (still_upd (λ s, MkPc (pl_ext s) false (pl_ssh s) (pl_node s) (pl_sinks s)))| |exact H]; [done..|].
    destruct (pl_ssh (rm_ext s)) as [k|] eqn:Hssh; [|by injection H1 as <-].
    apply act_bind_inv in H1 as [([] & s2 & H2 & [= <-])|(e & _ & [=])]. apply (close_ssh_accounted k X) in H2 as [_ H2]; done.
  - destruct (pl_ssh (rm_ext s)) as [k|] eqn:Hssh; [|discriminate].
    apply act_bind_inv in H1 as [([] & s2 & H2 & [=])|(e' & H2 & [= <-])]. by apply (close_ssh_accounted k X) in H2 as [[=] _].
Qed.

Lemma still_connect : still (connect conn : R ()).
Proof.
  assert (still (resolve_node conn : R string)) as Hr.
  { unfold resolve_node. case_decide; [|auto with still]. do 2 (apply still_bind; [auto with still|intros ?]).
    match goal with |- still (match ?l with _ => _ end) => destruct l as [|n [|]] end; first [apply still_ret|apply still_lift]. }
  unfold connect, widen_session_pool. do 2 (apply still_bind; [auto with still|intros ?]). apply still_bind; [by apply still_upd|intros ?].
  apply still_bind; [exact Hr|intros node]. apply still_bind; [by apply still_upd|intros ?]. apply still_bind; auto 10 with still.
Qed.

Lemma perform_accounted o X (s : W) r s' : accounted X s → pc_perform conn o s = (r, s') → accounted X s'.
Proof using Hun.
  intros Ha. destruct o as [| |rp d|d rp|name|i|i]; cbn [pc_perform].
  - apply accounted_still; [apply still_connect|done].
  - by apply close_accounted.
  - by apply sftp_get_accounted.
  - by apply sftp_put_accounted.
  - intros [(i & s1 & H1 & [= <- <-])|(e & H1 & _)]%act_bind_inv; unfold read_build_result_sink in H1; rewrite act_bind_gets in H1; [|discriminate].
    injection H1 as <- <-. eapply accounted_same; [exact Ha|done|]. unfold held_list. cbn [rm_ext pl_ssh pl_sinks]. by rewrite omap_app, app_nil_r.
  - intros [(c & s1 & H1 & [= <- <-])|(e & H1 & ->)]%act_bind_inv; by eapply console_next_accounted.
  - by apply console_close_accounted.
Qed.

(** C28: the client leaks nothing.  Whatever its operations are, in any order and however they
    fail, the handles that are open are exactly the SSH session the client holds and the
    websocket of each console generator that is suspended at a [yield], each once; so that
    none is open when the client was closed and the generators have ended. *)
Theorem client_handles_exact ops (e : E) r s' :
  pc_run conn ops (MkRemote (new_client conn e) 0 []) = (r, s') →
  open_handles (rm_sent s') = list_to_set (held_list (rm_ext s')) ∧ NoDup (held_list (rm_ext s')).
Proof using Hun.
  intros H. enough (accounted ∅ s') as [A1 _ A3 _]; [by rewrite A1, union_empty_r_L|].
  assert (accounted ∅ (MkRemote (new_client conn e) 0 [] : W)) as Ha.
  { split; cbn; [done|set_solver|constructor|set_solver]. }
  revert Ha H. unfold pc_run, forA. generalize (MkRemote (new_client conn e) 0 [] : W). induction ops as [|o ops IH]; cbn [foldA]; intros s Ha; [by intros [= <- <-]|].
  intros [([] & s1 & H1 & H)|(x & H1 & ->)]%act_bind_inv; unfold catch in H1; destruct (pc_perform conn o s) as [[[]|x'] s2] eqn:Hs;
    apply (perform_accounted _ ∅) in Hs; try done.
  - injection H1 as <-. by eapply IH.
  - destruct (is_exception x'); [|discriminate]. injection H1 as <-. by eapply IH.
  - destruct (is_exception x'); [discriminate|]. by injection H1 as <- <-.
Qed.
End Handles.

(** ** A node

    It answers everything; what a console delivers is a list. *)
Module ClientDemo.
Inductive frame : Type := Data (l : bytes) | Idle.
Definition Toy : Type := list frame.
Definition give {A} (a : A) (t : Toy) : res A * Toy * nat := (Ok a, t, 1).
Definition hung_up {A} : res A := raise ValueError ["closed"].
#[local] Instance toy_sleeper : Sleeper Toy := λ _ t, (0, t).
#[local] Instance toy_session : PveSession Toy := {
  ps_import_proxmoxer := give (); ps_import_paramiko := give (); ps_import_websocket := give (); ps_import_requests := give ();
  ps_login := give (); ps_nodes := give ["pve"]; ps_widen := give (); ps_status _ := give (0, 0)%Z; ps_storage_content := give (b "iso, import");
  ps_bridges _ := give ["vmbr0"]; ps_vms _ := give [("web", 100%Z)]; ps_tokens := give (b "PVE:root");
  ps_termproxy _ _ := give (MkTerm (b "5900") (b "T") (b "root@pam"));
  ps_ssh_connect := give (); ps_ssh_close _ := give (); ps_open_sftp _ := give (); ps_local_size _ := give 3%Z;
  ps_stat _ _ t := (raise FileNotFoundError [], t, 1); ps_mkdir _ _ := give (); ps_put _ _ _ t := (raise OSError [], t, 1); ps_get _ _ _ := give (); ps_sftp_close _ := give ();
  ps_ws_connect _ _ _ _ := give (); ps_ws_send _ _ := give ();
  ps_ws_recv _ t := match t with Data l :: t => (Ok l, t, 1) | Idle :: t => (raise ValueError ["idle"], t, 1) | [] => (hung_up, [], 1) end;
  ps_ws_close _ := give ();
  is_ws_timeout e := bool_decide (exn_args e = ["idle"]); is_ws_closed e := bool_decide (exn_args e = ["closed"]); is_ws_error _ := true;
}.
Definition conn : ProxmoxConn := MkProxmoxConn "pve.lab" "" "root@pam" "pw" false 8006 "local" "root" "pw" 22.
Definition frames : Toy := [Data (b "OK"); Data (b "booting"); Idle; Data (b "TESTRANGE-RESULT: ok")].
(** A capture, an upload that fails, a console read to the third piece. *)
Definition ops : list pc_op :=
  [PcConnect; PcGet (b "/var/lib/vz/images/d.qcow2") "d"; PcSink "web"; PcNext 0; PcPut "d" (b "/var/lib/vz/import/d.qcow2"); PcNext 0; PcNext 0].
Definition after (l : list pc_op) : Remote pc_event (PcState Toy) := (pc_run conn l (MkRemote (new_client conn frames) 0 [])).2.

Lemma toy_undisturbed : undisturbed (E:=Toy).
Proof. split; try done. intros k [|[l|] t] x; cbn; try done; by intros [= <-]. Qed.

(** The console of [web] is suspended and the session is up: two handles.  Reading on ends
    the console, and closing the client leaves none. *)
Lemma client_handles_exact_witness :
  open_handles (rm_sent (after ops)) = list_to_set (held_list (rm_ext (after ops))) ∧ length (held_list (rm_ext (after ops))) = 2 ∧
  open_handles (rm_sent (after (ops ++ [PcNext 0; PcClose]))) = ∅.
Proof.
  split; [|split; [vm_compute; reflexivity|]].
  - apply (client_handles_exact conn toy_undisturbed ops frames (pc_run conn ops (MkRemote (new_client conn frames) 0 [])).1). apply surjective_pairing.
  - etrans; [apply (client_handles_exact conn toy_undisturbed (ops ++ [PcNext 0; PcClose]) frames (pc_run conn (ops ++ [PcNext 0; PcClose]) (MkRemote (new_client conn frames) 0 [])).1), surjective_pairing|].
    vm_compute. reflexivity.
Defined.
End ClientDemo.
