(* ===== verification/Libvirt.v ===== *)
(** * The libvirt driver ([drivers/libvirt/_conn.py], [_storage.py], [_net.py], [_vm.py],
      [_serial.py], [driver.py])

    Every operation of the driver as a program over libvirt-python, one operation of
    [LibvirtApi] per call the code makes, each of which may raise anything.  A handle of
    the library is the name of its object; a stream is a number.  Requests that change
    something on the daemon are noted ([lv_request]) with the documents that are sent.
    What the library's classes add to a disk or a NIC of a plan (the bus, the model) is
    given beside the spec, [None] for a portable device. *)

From S2P Require Import Prelude Exceptions Eff PyBytes Url Xml Conn Sha256 Naming Ipv4 Devices Hypervisor Cleanup Context Preflight Remote.
From stdpp Require Import options.

(** [e.get_error_code()], as far as the code tells codes apart. *)
Inductive lv_code : Type :=
  | NO_STORAGE_POOL | NO_STORAGE_VOL | NO_DOMAIN | NO_NETWORK | NO_DOMAIN_SNAPSHOT | OTHER_CODE.
Global Instance lv_code_eq_dec : EqDecision lv_code.
Proof. solve_decision. Defined.

(** A request: a question, or a change. *)
Inductive lv_request : Type :=
  | Asked (what : string)
  | RegisterHandler | RegisterLoop | Open (uri : string) | Close
  | DefinePool (xml : text) | BuildPool (pool : string) | StartPool (pool : string) | StopPool (pool : string)
  | DeletePool (pool : string) | UndefinePool (pool : string) | RefreshPool (pool : string)
  | CreateVol (pool : string) (xml : text) | DeleteVol (pool vol : string) | ResizeVol (pool vol : string) (size : Z)
  | DefineNet (xml : text) | StartNet (net : string) | StopNet (net : string) | UndefineNet (net : string)
  | DefineDomain (xml : text) | StartDomain (dom : string) | ShutdownDomain (dom : string) | StopDomain (dom : string)
  | UndefineDomain (dom : string)
  | CreateSnapshot (dom : string) (xml : text) | DeleteSnapshot (dom snap : string) | Revert (dom snap : string)
  | Upload (stream : nat) (pool vol : string) (size : Z) | Download (stream : nat) (pool vol : string)
  | OpenConsole (stream : nat) (dom : string)
  | Send (stream : nat) (chunk : bytes) | Finish (stream : nat) | Abort (stream : nat).

Class LibvirtApi (E : Type) : Type := {
  lv_import : ext_op E ();
  (** [libvirt.open]: whether it gave a connection *)
  lv_open : string → ext_op E bool;
  lv_pool : string → ext_op E ();
  lv_vol : string → string → ext_op E ();
  lv_domain : string → ext_op E ();
  lv_network : string → ext_op E ();
  lv_snapshot : string → string → ext_op E ();
  lv_volumes : string → ext_op E (list string);
  lv_pool_active : string → ext_op E bool;
  lv_net_active : string → ext_op E bool;
  lv_net_persistent : string → ext_op E bool;
  lv_domain_active : string → ext_op E bool;
  lv_bridge : string → ext_op E string;
  lv_vol_path : string → string → ext_op E string;
  lv_state : string → ext_op E Z;
  lv_snapshots : string → ext_op E (list string);
  lv_snapshot_xml : string → string → ext_op E text;
  (** [getInfo()]: the memory and the processors *)
  lv_info : ext_op E (Z * Z);
  (** a definition gives a handle of what it defined *)
  lv_define : lv_request → ext_op E string;
  lv_change : lv_request → ext_op E ();
  lv_stream : ext_op E nat;
  (** how many bytes [sendAll] asks its handler for; the next piece [recvAll] passes to
      its handler, empty at the end; [recv] on a console, [None] if it would block *)
  lv_asks : nat → ext_op E Z;
  lv_piece : nat → ext_op E bytes;
  lv_recv : nat → ext_op E (option bytes);
  (** the code of a [libvirtError]; [None] for any other exception *)
  lv_error : exn → option lv_code;
  #[global] lv_sleeper :: Sleeper E;
}.
#[export] Hint Mode LibvirtApi ! : typeclass_instances.

(** The process: the library, the connection of the client, the module flags, and the
    driver's map of networks. *)
Record LvState (E : Type) : Type := MkLvState {
  lv_ext : E;
  lv_up : bool;
  lv_handler : bool;
  lv_loop : bool;
  lv_nets : gmap string string;
}.
Arguments MkLvState {E} _ _ _ _ _.
Arguments lv_ext {E} _.
Arguments lv_up {E} _.
Arguments lv_handler {E} _.
Arguments lv_loop {E} _.
Arguments lv_nets {E} _.

Definition GiB : Z := 1024 ^ 3.
Definition CHUNK : Z := 4 * 1024 * 1024.

(** ** Documents *)

Definition vol_format (vol_name : string) : string := if ends_with (b ".iso") (b vol_name) then "raw" else "qcow2".

Definition volume_xml (vol_name : string) (capacity_bytes : Z) (fmt : string) : text :=
  b "<volume>"
  ++ b "<name>" ++ b vol_name ++ b "</name>"
  ++ b "<capacity unit='bytes'>" ++ str_int (Z.max capacity_bytes 1) ++ b "</capacity>"
  ++ b "<target><format type='" ++ b fmt ++ b "'/></target>"
  ++ b "</volume>".

Definition pool_xml (backend_name path : string) : text :=
  b "<pool type='dir'><name>" ++ b backend_name ++ b "</name><target><path>" ++ b path ++ b "</path></target></pool>".

Definition network_xml (backend_name : string) (mgmt_host : option (string * Z)) : text :=
  b "<network><name>" ++ escape (b backend_name) ++ b "</name>"
  ++ b "<bridge name=" ++ quoteattr (b (Lv.bridge_name backend_name)) ++ b " stp='off' delay='0'/>"
  ++ match mgmt_host with
     | Some (host_ip, prefix) => b "<dns enable='no'/>" ++ b "<ip address='" ++ b host_ip ++ b "' prefix='" ++ str_int prefix ++ b "'/>"
     | None => []
     end
  ++ b "</network>".

Definition BUS_PREFIX : gmap string string := list_to_map [("virtio", "vd"); ("sata", "sd"); ("scsi", "sd"); ("ide", "hd")].

Definition cdrom_bus (firmware : string) : string := if decide (firmware ≠ "uefi") then "ide" else "sata".

(** [_dev_name]: the counters after it *)
Definition dev_name (prefix : string) (counters : gmap string nat) : res (string * gmap string nat) :=
  let idx := default 0 (counters !! prefix) in
  raise_when (bool_decide (26 ≤ idx)) DriverError [prefix];;
  mret (str (b prefix ++ [chr (97 + idx)]), <[prefix := S idx]> counters).

(** The [__post_init__] of the libvirt variants of a disk and of a NIC. *)
Definition LIBVIRT_DISK_BUSES : list string := ["virtio"; "sata"; "ide"; "scsi"].
Definition LIBVIRT_NIC_MODELS : list string := ["virtio"; "e1000"; "e1000e"; "rtl8139"].
Definition check_bus (bus : string) : res () := raise_when (bool_decide (bus ∉ LIBVIRT_DISK_BUSES)) ValueError [bus].
Definition check_model (model : string) : res () := raise_when (bool_decide (model ∉ LIBVIRT_NIC_MODELS)) ValueError [model].

(** The bus of a disk and the model of a NIC, from what its class adds. *)
Definition disk_bus (bus : option string) : string := default "virtio" bus.
Definition nic_model (model : option string) : string := default "virtio" model.
Definition build_nic_model (models : list (option string)) : string :=
  match omap id models with m :: _ => m | [] => "virtio" end.

Definition boot_order_xml (boot_order : option Z) : text :=
  match boot_order with Some n => b "<boot order='" ++ str_int n ++ b "'/>" | None => [] end.

Definition disk_xml (path dev bus : string) (boot_order : option Z) : text :=
  b "<disk type='file' device='disk'>"
  ++ b "<driver name='qemu' type='qcow2'/>"
  ++ b "<source file=" ++ quoteattr (b path) ++ b "/>"
  ++ b "<target dev='" ++ b dev ++ b "' bus='" ++ b bus ++ b "'/>"
  ++ boot_order_xml boot_order
  ++ b "</disk>".

Definition cdrom_xml (path dev bus : string) (boot_order : option Z) : text :=
  b "<disk type='file' device='cdrom'>"
  ++ b "<driver name='qemu' type='raw'/>"
  ++ b "<source file=" ++ quoteattr (b path) ++ b "/>"
  ++ b "<target dev='" ++ b dev ++ b "' bus='" ++ b bus ++ b "'/>"
  ++ boot_order_xml boot_order
  ++ b "<readonly/>"
  ++ b "</disk>".

Definition interface_xml (mac network model : string) : text :=
  b "<interface type='network'>"
  ++ b "<source network=" ++ quoteattr (b network) ++ b "/>"
  ++ b "<mac address=" ++ quoteattr (b mac) ++ b "/>"
  ++ b "<model type='" ++ b model ++ b "'/>"
  ++ b "</interface>".

Definition SERIAL_PTY : text := b "<serial type='pty'><target port='0'/></serial>".
Definition QGA_CHANNEL : text :=
  b "<channel type='unix'>" ++ b "<source mode='bind'/>" ++ b "<target type='virtio' name='org.qemu.guest_agent.0'/>" ++ b "</channel>".
Definition VIDEO : text := b "<video><model type='vga'/></video>".

Definition os_xml (firmware : string) (installer : bool) : text :=
  let machine := if decide (firmware = "uefi") then "q35" else "pc" in
  let boot := if installer then [] else b "<boot dev='hd'/>" in
  if decide (firmware = "uefi") then
    b "<os firmware='efi'>"
    ++ b "<type arch='x86_64' machine='" ++ b machine ++ b "'>hvm</type>"
    ++ b "<firmware><feature enabled='no' name='secure-boot'/></firmware>"
    ++ boot ++ b "</os>"
  else b "<os><type arch='x86_64' machine='" ++ b machine ++ b "'>hvm</type>" ++ boot ++ b "</os>".

(** The next device of a bus: its name, and the document [mk] makes of it. *)
Definition next_device (bus : string) (mk : string → text) (counters : gmap string nat) : res (text * gmap string nat) :=
  prefix ← getitem BUS_PREFIX bus;
  dc ← dev_name prefix counters;
  mret (mk dc.1, dc.2).

(** [for i, path in enumerate(data_paths)], with the bus of the drive [i] or of none *)
Fixpoint data_disks (buses : list (option string)) (paths : list string) (counters : gmap string nat)
    : res (list text * gmap string nat) :=
  match paths with
  | [] => mret ([], counters)
  | path :: paths =>
      let bus := disk_bus (default None (head buses)) in
      d ← next_device bus (λ dev, disk_xml path dev bus None) counters;
      rest ← data_disks (tail buses) paths d.2;
      mret (d.1 :: rest.1, rest.2)
  end.

Definition optional_cdrom (path : option string) (bus : string) (boot_order : option Z) (counters : gmap string nat)
    : res (list text * gmap string nat) :=
  match path with
  | None => mret ([], counters)
  | Some path => d ← next_device bus (λ dev, cdrom_xml path dev bus boot_order) counters; mret ([d.1], d.2)
  end.

(** What the driver's device classes add to a spec. *)
Record LvHardware : Type := MkHardware {
  hw_os : option string;
  hw_data : list (option string);
  hw_nics : list (option string);
}.

Definition domain_xml (backend_name : string) (spec : VMSpec) (hw : LvHardware) (os_path : string) (data_paths : list string)
    (seed_path boot_media_path : option string) (nics : list (string * string * string)) : res text :=
  let installer := bool_decide (is_Some boot_media_path) in
  os_drive spec;;
  let os_bus := disk_bus (hw_os hw) in
  os ← next_device os_bus (λ dev, disk_xml os_path dev os_bus (if installer then Some 1%Z else None)) ∅;
  raise_when (25 <? length data_paths) DriverError ["data disks"];;
  data ← data_disks (hw_data hw) data_paths os.2;
  seed ← optional_cdrom seed_path (cdrom_bus (firmware spec)) None data.2;
  media ← optional_cdrom boot_media_path (cdrom_bus (firmware spec)) (Some 2%Z) seed.2;
  mem ← first_memory spec;
  cpus ← first_cpu spec;
  let devices := os.1 :: data.1 ++ seed.1 ++ media.1 ++ ((λ n, interface_xml n.1.1 n.1.2 n.2) <$> nics)
    ++ [SERIAL_PTY; QGA_CHANNEL; VIDEO] in
  mret (
    b "<domain type='kvm'>"
    ++ b "<name>" ++ b backend_name ++ b "</name>"
    ++ b "<memory unit='MiB'>" ++ str_int mem ++ b "</memory>"
    ++ b "<currentMemory unit='MiB'>" ++ str_int mem ++ b "</currentMemory>"
    ++ b "<vcpu>" ++ str_int cpus ++ b "</vcpu>"
    ++ os_xml (firmware spec) installer
    ++ b "<features><acpi/><apic/></features>"
    ++ b "<cpu mode='host-passthrough'/>"
    ++ b "<clock offset='utc'/>"
    ++ b "<on_poweroff>destroy</on_poweroff>"
    ++ b "<on_reboot>restart</on_reboot>"
    ++ b "<on_crash>destroy</on_crash>"
    ++ b "<devices>" ++ concat devices ++ b "</devices>"
    ++ b "</domain>").

Definition snapshot_xml (name description : string) : text :=
  b "<domainsnapshot>" ++ b "<name>" ++ escape (b name) ++ b "</name>"
  ++ (if decide (description = "") then [] else b "<description>" ++ escape (b description) ++ b "</description>")
  ++ b "</domainsnapshot>".

(** [re.search(r"<creationTime>(\d+)</creationTime>", ...)], as a number, [0] if none *)
Definition digits_Z (l : text) : Z := foldl (λ acc c, 10 * acc + (Z.of_nat (nat_of_ascii c) - 48))%Z 0%Z l.
Definition TIME_OPEN : text := b "<creationTime>".
Definition TIME_CLOSE : text := b "</creationTime>".
Definition match_time (l : text) : option Z :=
  if starts_with TIME_OPEN l then
    let l := drop (length TIME_OPEN) l in
    let ds := take_while is_digit l in
    if bool_decide (ds ≠ []) && starts_with TIME_CLOSE (drop_while is_digit l) then Some (digits_Z ds) else None
  else None.
Fixpoint search_time (l : text) : Z :=
  match match_time l with
  | Some t => t
  | None => match l with [] => 0%Z | _ :: l => search_time l end
  end.

Definition split_ref (ref : string) : res (string * string) :=
  let '(pool_name, sep, vol_name) := partition SLASH (b ref) in
  raise_when (negb sep || bool_decide (pool_name = []) || bool_decide (vol_name = [])) DriverError [ref];;
  mret (str pool_name, str vol_name).

Section Libvirt.
Context {E : Type} {L : LibvirtApi E}.
Abbreviation R A := (act (Remote lv_request (LvState E)) A).

(** ** The library *)

Definition set_ext (e : E) (s : LvState E) : LvState E := MkLvState e (lv_up s) (lv_handler s) (lv_loop s) (lv_nets s).
Definition on_ext {A} (o : ext_op E A) : ext_op (LvState E) A := λ s,
  let '(r, e, dt) := o (lv_ext s) in (r, set_ext e s, dt).
#[global] Instance lv_state_sleeper : Sleeper (LvState E) := λ d s,
  let '(extra, e) := oversleep d (lv_ext s) in (extra, set_ext e s).

Definition ask {A} (what : string) (o : ext_op E A) : R A := rcall (Asked what) (on_ext o).
Definition define (q : lv_request) : R string := rcall q (on_ext (lv_define q)).
Definition request (q : lv_request) : R () := rcall q (on_ext (lv_change q)).

Definition update (f : LvState E → LvState E) : R () :=
  modify (λ w, MkRemote (f (rm_ext w)) (rm_clock w) (rm_sent w)).
Definition flag (f : LvState E → bool) : R bool := gets (λ w, f (rm_ext w)).

Definition is_lv_error (e : exn) : bool := bool_decide (is_Some (lv_error (E:=E) e)).
Definition has_code (c : lv_code) (e : exn) : bool := bool_decide (lv_error (E:=E) e = Some c).

(** ** The connection ([LibvirtClient]) *)

Definition set_up (up : bool) (s : LvState E) : LvState E := MkLvState (lv_ext s) up (lv_handler s) (lv_loop s) (lv_nets s).

Definition route_libvirt_errors_to_log : R () :=
  registered ← flag lv_handler;
  if registered : bool then mret ()
  else request RegisterHandler;;
       update (λ s, MkLvState (lv_ext s) (lv_up s) true (lv_loop s) (lv_nets s)).

Definition import_libvirt : R () :=
  catch (ask "import" lv_import) (λ e, isinstance e ImportError) (λ _, throw DriverError ["libvirt"]);;
  route_libvirt_errors_to_log.

Definition ensure_event_loop : R () :=
  running ← flag lv_loop;
  if running : bool then mret ()
  else request RegisterLoop;;
       update (λ s, MkLvState (lv_ext s) (lv_up s) (lv_handler s) true (lv_nets s)).

Definition connect (uri : string) : R () :=
  import_libvirt;;
  ensure_event_loop;;
  conn ← rcall (Open uri) (on_ext (lv_open uri));
  update (set_up conn);;
  throw_when (negb conn) DriverError [uri].

Definition close : R () :=
  up ← flag lv_up;
  if up : bool then request Close;; update (set_up false) else mret ().

Definition raw : R () := up ← flag lv_up; throw_when (negb up) DriverError ["connect"].

(** A lookup: found, or absent when the error has the code of absence. *)
Definition absent_on (c : lv_code) (lookup : R ()) : R bool :=
  catch (lookup;; mret true) (has_code c) (λ _, mret false).

Definition lookup_pool (name : string) : R bool :=
  import_libvirt;; absent_on NO_STORAGE_POOL (raw;; ask "storagePoolLookupByName" (lv_pool name)).
Definition lookup_volume (pool_name vol_name : string) : R bool :=
  import_libvirt;;
  pool ← lookup_pool pool_name;
  if pool : bool then absent_on NO_STORAGE_VOL (ask "storageVolLookupByName" (lv_vol pool_name vol_name)) else mret false.
Definition lookup_domain (name : string) : R bool :=
  import_libvirt;; absent_on NO_DOMAIN (raw;; ask "lookupByName" (lv_domain name)).
Definition lookup_network (name : string) : R bool :=
  import_libvirt;; absent_on NO_NETWORK (raw;; ask "networkLookupByName" (lv_network name)).

(** ** Storage *)

Definition create_pool (backend_name : string) : R string :=
  raw;;
  sp ← define (DefinePool (pool_xml backend_name ("/var/lib/libvirt/images/" +:+ backend_name)));
  request (BuildPool sp);;
  request (StartPool sp);;
  mret ("pool:" +:+ backend_name).

Definition destroy_pool (backend_name : string) : R () :=
  pool ← lookup_pool backend_name;
  if pool : bool then
    vols ← ask "listAllVolumes" (lv_volumes backend_name);
    forA (λ vol, request (DeleteVol backend_name vol)) vols;;
    active ← ask "isActive" (lv_pool_active backend_name);
    (if active : bool then request (StopPool backend_name) else mret ());;
    request (DeletePool backend_name);;
    request (UndefinePool backend_name)
  else mret ().

(** [_replace_volume]: the handle of the new volume *)
Definition replace_volume (ref : string) (capacity_bytes : Z) : R (string * string) :=
  pv ← lift (split_ref ref);
  let '(pool_name, vol_name) := pv in
  pool ← lookup_pool pool_name;
  throw_when (negb pool) DriverError [ref; pool_name];;
  existing ← lookup_volume pool_name vol_name;
  (if existing : bool then request (DeleteVol pool_name vol_name) else mret ());;
  vol ← define (CreateVol pool_name (volume_xml vol_name capacity_bytes (vol_format vol_name)));
  mret (pool_name, vol).

(** [stream.sendAll(_reader)]: the library asks for pieces until it gets none *)
Fixpoint send_all (n : nat) (stream : nat) (data : bytes) : R () :=
  nbytes ← ask "sendAll" (lv_asks stream);
  let chunk := take (Z.to_nat (Z.min nbytes CHUNK)) data in
  match chunk, n with
  | [], _ => mret ()
  | _, 0 => throw OutOfFuel []
  | _, S n => request (Send stream chunk);; send_all n stream (drop (length chunk) data)
  end.
Fixpoint recv_all (n : nat) (stream : nat) (got : bytes) : R bytes :=
  match n with
  | 0 => throw OutOfFuel []
  | S n =>
      data ← ask "recvAll" (lv_piece stream);
      match data with [] => mret got | _ => recv_all n stream (got ++ data) end
  end.

(** [try: ...; stream.finish() / except BaseException: stream.abort(); raise] *)
Definition over_stream {A} (stream : nat) (m : R A) : R A :=
  catch (a ← m; request (Finish stream);; mret a) (λ _, true) (λ e, request (Abort stream);; lift (Raise e)).

Definition stream_in (vol : string * string) (data : bytes) (size : Z) : R () :=
  raw;;
  stream ← ask "newStream" lv_stream;
  request (Upload stream vol.1 vol.2 size);;
  over_stream stream (send_all (length data) stream data).
Definition stream_out (rounds : nat) (pool_name vol_name : string) : R bytes :=
  raw;;
  stream ← ask "newStream" lv_stream;
  request (Download stream pool_name vol_name);;
  over_stream stream (recv_all rounds stream []).

Definition create_blank_volume (target_ref : string) (size_gb : Z) : R string :=
  replace_volume target_ref (size_gb * GiB);;
  mret target_ref.

Definition write_to_pool (target_ref : string) (data : bytes) : R string :=
  vol ← replace_volume target_ref (Z.of_nat (length data));
  stream_in vol data (Z.of_nat (length data));;
  mret target_ref.

(** [size] is what [stat] says of the source, [source] what opening it gives *)
Definition upload_to_pool (target_ref : string) (size : res Z) (source : res bytes) : R string :=
  pv ← lift (split_ref target_ref);
  let '(pool_name, vol_name) := pv in
  present ← lookup_volume pool_name vol_name;
  if present : bool then mret target_ref
  else
    size ← lift size;
    vol ← replace_volume target_ref size;
    data ← lift source;
    stream_in vol data size;;
    pool ← lookup_pool pool_name;
    (if pool : bool then request (RefreshPool pool_name) else mret ());;
    mret target_ref.

Definition resize_volume (target_ref : string) (size_gb : Z) : R string :=
  pv ← lift (split_ref target_ref);
  let '(pool_name, vol_name) := pv in
  vol ← lookup_volume pool_name vol_name;
  throw_when (negb vol) DriverError [target_ref];;
  request (ResizeVol pool_name vol_name (size_gb * GiB));;
  mret target_ref.

(** [opened] is what opening the destination gives; the result is what is written to it *)
Definition download_from_pool (rounds : nat) (vol_ref : string) (opened : res ()) : R bytes :=
  pv ← lift (split_ref vol_ref);
  let '(pool_name, vol_name) := pv in
  vol ← lookup_volume pool_name vol_name;
  throw_when (negb vol) DriverError [vol_ref];;
  lift opened;;
  stream_out rounds pool_name vol_name.

Definition delete_volume (vol_ref : string) : R () :=
  pv ← lift (split_ref vol_ref);
  let '(pool_name, vol_name) := pv in
  vol ← lookup_volume pool_name vol_name;
  if vol : bool then request (DeleteVol pool_name vol_name) else mret ().

(** ** Networks *)

Definition create_switch (switch : Switch) (backend_name : string) (resolved_uplink : option string) : R (option string) :=
  mgmt_host ← (if mgmt switch then
    ip ← lift (mgmt_ip switch); net ← lift (sw_network switch); mret (Some (ip, prefixlen net)) else mret None);
  raw;;
  net ← define (DefineNet (network_xml backend_name mgmt_host));
  request (StartNet net);;
  ask "bridgeName" (lv_bridge net);;
  match uplink switch, sidecar switch with
  | Some u, Some sc =>
      if sc_nat sc then
        match resolved_uplink with None => throw DriverError [backend_name; u] | Some r => mret (Some r) end
      else mret None
  | _, _ => mret None
  end.

Definition destroy_switch (backend_name : string) : R () :=
  net ← lookup_network backend_name;
  if net : bool then
    active ← ask "isActive" (lv_net_active backend_name);
    (if active : bool then request (StopNet backend_name) else mret ());;
    persistent ← ask "isPersistent" (lv_net_persistent backend_name);
    (if persistent : bool then request (UndefineNet backend_name) else mret ())
  else mret ().

(** ** Virtual machines *)

Definition resolve_domain (backend_name : string) : R () :=
  dom ← lookup_domain backend_name; throw_when (negb dom) DriverError [backend_name].

Definition vol_path (ref : string) : R string :=
  let '(pool_name, _, vol_name) := partition SLASH (b ref) in
  vol ← lookup_volume (str pool_name) (str vol_name);
  throw_when (negb vol) DriverError [ref];;
  ask "path" (lv_vol_path (str pool_name) (str vol_name)).
Definition opt_path (ref : option string) : R (option string) :=
  match ref with Some r => p ← vol_path r; mret (Some p) | None => mret None end.
Fixpoint vol_paths (refs : list string) : R (list string) :=
  match refs with [] => mret [] | r :: refs => p ← vol_path r; ps ← vol_paths refs; mret (p :: ps) end.

(** What [create_vm] is asked for. *)
Record VmRequest : Type := MkVmRequest {
  vr_name : string;
  vr_spec : VMSpec;
  vr_hardware : LvHardware;
  vr_plan : string;
  vr_os_disk : string;
  vr_seed : option string;
  vr_networks : gmap string string;
  vr_data : list string;
  vr_build_nic : option BuildNic;
  vr_boot_media : option string;
}.

(** The NICs of the domain: MAC, network and model of each. *)
Fixpoint declared_nics (plan vm : string) (idx : nat) (ns : list NetworkIface) (models : list (option string)) (refs : gmap string string)
    : res (list (string * string * string)) :=
  match ns with
  | [] => mret []
  | n :: ns =>
      net ← getitem refs (nh_name (n_network n));
      rest ← declared_nics plan vm (S idx) ns (tail models) refs;
      mret ((Lv.compose_mac plan vm (Z.of_nat idx), net, nic_model (default None (head models))) :: rest)
  end.
Definition domain_nics (q : VmRequest) : res (list (string * string * string)) :=
  match vr_build_nic q with
  | Some nic => net ← getitem (vr_networks q) (bn_network nic); mret [(bn_mac nic, net, build_nic_model (hw_nics (vr_hardware q)))]
  | None => declared_nics (vr_plan q) (vs_name (vr_spec q)) 0 (nics (vr_spec q)) (hw_nics (vr_hardware q)) (vr_networks q)
  end.

Definition create_vm (q : VmRequest) : R string :=
  os_path ← vol_path (vr_os_disk q);
  data_paths ← vol_paths (vr_data q);
  seed_path ← opt_path (vr_seed q);
  boot_media_path ← opt_path (vr_boot_media q);
  nics ← lift (domain_nics q);
  xml ← lift (domain_xml (vr_name q) (vr_spec q) (vr_hardware q) os_path data_paths seed_path boot_media_path nics);
  raw;;
  define (DefineDomain xml);;
  mret ("vm:" +:+ vr_name q).

Definition start_vm (backend_name : string) : R () :=
  resolve_domain backend_name;;
  active ← ask "isActive" (lv_domain_active backend_name);
  if active : bool then mret () else request (StartDomain backend_name).

Definition POLL_INTERVAL : Z := 1000.
Definition DOMAIN_RUNNING : Z := 1.
Definition DOMAIN_SHUTOFF : Z := 5.

(** [while time.monotonic() - start < timeout: ...], in milliseconds: whether the domain
    was seen shut off *)
Fixpoint shutdown_rounds (n : nat) (timeout start : Z) (dom : string) : R bool :=
  match n with
  | 0 => throw OutOfFuel []
  | S n =>
      now ← gets rm_clock;
      if decide (now - start < timeout)%Z then
        state ← ask "state" (lv_state dom);
        if decide (state = DOMAIN_SHUTOFF) then mret true
        else rsleep POLL_INTERVAL;; shutdown_rounds n timeout start dom
      else mret false
  end.
Definition shutdown_fuel (timeout : Z) : nat := Z.to_nat (timeout / POLL_INTERVAL) + 2.

Definition shutdown_vm (backend_name : string) (timeout : Z) : R () :=
  import_libvirt;;
  resolve_domain backend_name;;
  active ← ask "isActive" (lv_domain_active backend_name);
  if active : bool then
    request (ShutdownDomain backend_name);;
    start ← gets rm_clock;
    off ← shutdown_rounds (shutdown_fuel timeout) timeout start backend_name;
    if off : bool then mret ()
    else
      active ← ask "isActive" (lv_domain_active backend_name);
      if active : bool then request (StopDomain backend_name) else mret ()
  else mret ().

Definition destroy_vm (backend_name : string) : R () :=
  import_libvirt;;
  dom ← lookup_domain backend_name;
  if dom : bool then
    active ← ask "isActive" (lv_domain_active backend_name);
    (if active : bool then request (StopDomain backend_name) else mret ());;
    request (UndefineDomain backend_name)
  else mret ().

Definition get_vm_power_state (backend_name : string) : R string :=
  import_libvirt;;
  resolve_domain backend_name;;
  state ← ask "state" (lv_state backend_name);
  mret (if decide (state = DOMAIN_RUNNING) then "running"
        else if decide (state = DOMAIN_SHUTOFF) then "shutoff"
        else str (b "libvirt-state-" ++ str_int state)).

(** ** Snapshots *)

Definition lookup_snapshot (dom name : string) : R bool :=
  import_libvirt;; absent_on NO_DOMAIN_SNAPSHOT (ask "snapshotLookupByName" (lv_snapshot dom name)).

Definition create_snapshot (vm_backend_name name description : string) (mem : bool) : R () :=
  resolve_domain vm_backend_name;;
  active ← (if mem then ask "isActive" (lv_domain_active vm_backend_name) else mret true);
  throw_when (negb active) DriverError [vm_backend_name];;
  snap ← lookup_snapshot vm_backend_name name;
  throw_when snap DriverError [name; vm_backend_name];;
  request (CreateSnapshot vm_backend_name (snapshot_xml name description)).

(** [sorted(dom.listAllSnapshots(0), key=_creation_time)] *)
Fixpoint creation_times (dom : string) (snaps : list string) : R (list (string * Z)) :=
  match snaps with
  | [] => mret []
  | s :: snaps =>
      desc ← ask "getXMLDesc" (lv_snapshot_xml dom s);
      rest ← creation_times dom snaps;
      mret ((s, search_time desc) :: rest)
  end.
Definition list_snapshots (vm_backend_name : string) : R (list string) :=
  resolve_domain vm_backend_name;;
  snaps ← ask "listAllSnapshots" (lv_snapshots vm_backend_name);
  timed ← creation_times vm_backend_name snaps;
  mret (fst <$> sort_by snd timed).

Definition delete_snapshot (vm_backend_name name : string) : R () :=
  resolve_domain vm_backend_name;;
  snap ← lookup_snapshot vm_backend_name name;
  if snap : bool then request (DeleteSnapshot vm_backend_name name) else mret ().

Definition restore_snapshot (vm_backend_name name : string) : R () :=
  resolve_domain vm_backend_name;;
  snap ← lookup_snapshot vm_backend_name name;
  throw_when (negb snap) DriverError [name; vm_backend_name];;
  request (Revert vm_backend_name name).

(** ** The build-result sink ([_serial.py])

    The generator as its suspended states: not started; waiting to try the console again;
    after a heartbeat or after data of an open console; ended. *)

Inductive sink : Type :=
  | SinkNew | SinkOpening (deadline : Z) | SinkIdle (stream : nat) | SinkMore (stream : nat) | SinkDone.

Definition OPEN_TIMEOUT : Z := 60000.

(** The [finally] of the reading loop. *)
Definition release (stream : nat) : R () :=
  catch (request (Finish stream)) is_lv_error
    (λ _, catch (request (Abort stream)) is_lv_error (λ _, mret ())).

(** One turn of the reading loop: what is yielded, [None] at the end. *)
Definition sink_read (stream : nat) : R (sink * option bytes) := λ w,
  match ask "recv" (lv_recv stream) w with
  | (Ok None, w) => (Ok (SinkIdle stream, Some []), w)
  | (Ok (Some []), w) => (release stream;; mret (SinkDone, None)) w
  | (Ok (Some data), w) => (Ok (SinkMore stream, Some data), w)
  | (Raise e, w) => (release stream;; if is_lv_error e then mret (SinkDone, None) else lift (Raise e)) w
  end.

(** One turn of the opening loop. *)
Definition sink_open (dom : string) (deadline : Z) : R (sink * option bytes) :=
  raw;;
  stream ← ask "newStream" lv_stream;
  opened ← catch (request (OpenConsole stream dom);; mret true) is_lv_error (λ _,
    now ← gets rm_clock;
    throw_when (bool_decide (deadline ≤ now)%Z) DriverError [dom];;
    mret false);
  if opened : bool then sink_read stream else mret (SinkOpening deadline, Some []).

(** [next(sink)]; a generator that raised is [SinkDone]. *)
Definition sink_next (dom : string) (g : sink) : R (sink * option bytes) :=
  match g with
  | SinkNew =>
      import_libvirt;;
      resolve_domain dom;;
      now ← gets rm_clock;
      sink_open dom (now + OPEN_TIMEOUT)
  | SinkOpening deadline => rsleep POLL_INTERVAL;; sink_open dom deadline
  | SinkIdle stream => rsleep POLL_INTERVAL;; sink_read stream
  | SinkMore stream => sink_read stream
  | SinkDone => mret (SinkDone, None)
  end.

(** [sink.close()] *)
Definition sink_close (g : sink) : R () :=
  match g with SinkIdle stream | SinkMore stream => release stream | _ => mret () end.

(** ** The driver *)

(** [_resolve_uplink] *)
Definition resolve_uplink (uplinks : gmap string string) (switch : Switch) : option string :=
  u ← uplink switch; uplinks !! u.

Definition driver_create_switch (uplinks : gmap string string) (switch : Switch) (backend_name : string) : R (option string) :=
  create_switch switch backend_name (resolve_uplink uplinks switch).

(** [create_network]: the network of the switch, noted under the composed name *)
Definition create_network (backend_name switch_backend_name : string) : R string :=
  update (λ s, MkLvState (lv_ext s) (lv_up s) (lv_handler s) (lv_loop s) (<[backend_name := switch_backend_name]> (lv_nets s)));;
  mret switch_backend_name.
Definition destroy_network (backend_name : string) : R () := mret ().

(** [{name: self._libvirt_net_by_network.get(backend, backend) for ...}] *)
Definition resolved_refs (nets refs : gmap string string) : gmap string string :=
  (λ backend, default backend (nets !! backend)) <$> refs.

Definition driver_create_vm (q : VmRequest) : R string :=
  nets ← gets (λ w, lv_nets (rm_ext w));
  create_vm (MkVmRequest (vr_name q) (vr_spec q) (vr_hardware q) (vr_plan q) (vr_os_disk q) (vr_seed q)
    (resolved_refs nets (vr_networks q)) (vr_data q) (vr_build_nic q) (vr_boot_media q)).

(** [host_capacity]: a failed probe is no capacity *)
Definition host_capacity : R (option (Z * Z)) :=
  catch (raw;; info ← ask "getInfo" lv_info; mret (Some info)) is_exception (λ _, mret None).
End Libvirt.

(** ** Reaching the guests of a remote host *)

Section Gateway.
Variable check_bracketed : text → res ().

(** The jump host: its name, user, key and port. *)
Record JumpHost : Type := MkJump { jh_host : string; jh_user : string; jh_pkey : option string; jh_port : Z }.

(** [read_text] reads the key file. *)
Definition guest_gateway (read_text : string → res string) (libvirt_uri : string) : res (option JumpHost) :=
  parsed ← urlparse check_bracketed (b libvirt_uri);
  match hostname parsed with
  | Some host =>
      if starts_with (b "qemu+ssh") (scheme parsed) && bool_decide (host ≠ []) then
        let keyfile := snd <$> head (filter (λ kv, kv.1 = b "keyfile") (parse_qs (query parsed))) in
        pkey ← match keyfile with
               | None | Some [] => mret None
               | Some k => t ← read_text (str k); mret (Some t)
               end;
        port ← port_of parsed;
        mret (Some (MkJump (str host) (str (attr_or (userinfo parsed).1 (b "root"))) pkey (port_or port 22)))
      else mret None
  | None => mret None
  end.
End Gateway.

(** ** Preflight *)

Section Preflight.
Context {B Bld Com : Type} {G : Guests B Bld Com}.
Variable check_bracketed : text → res ().
Variable new_id : string → string → nat.
Implicit Types (h : Hypervisor Bld Com).

(** [_probe_host_nested_kvm]: [read] gives the text of a module's [nested] parameter *)
Fixpoint probe_modules (read : string → res text) (modules : list string) : res (option bool) :=
  match modules with
  | [] => mret None
  | m :: modules =>
      match read m with
      | Raise e => if isinstance e OSError then probe_modules read modules else Raise e
      | Ok t =>
          let head := take 1 (strip_blanks t) in
          if decide (head ∈ [b "Y"; b "1"]) then mret (Some true)
          else if decide (head ∈ [b "N"; b "0"]) then mret (Some false)
          else probe_modules read modules
      end
  end.
Definition probe_host_nested_kvm (read : string → res text) : res (option bool) := probe_modules read ["kvm_intel"; "kvm_amd"].

Definition wants_nested (s : VMSpec) : bool :=
  default false (head (omap (λ d, match d with CPU _ nested => Some nested | _ => None end) (devices s))).

Definition nested_kvm_findings (read : string → res text) (libvirt_uri : string) h : res (list PreflightFinding) :=
  if existsb (λ vm, wants_nested (spec vm)) (declared_vms h) then
    parsed ← urlparse check_bracketed (b libvirt_uri);
    if decide (default [] (hostname parsed) ∈ [[]; b "localhost"]) then
      state ← probe_host_nested_kvm read;
      mret (match state with Some false => [finding new_id "nested-kvm-disabled" "" []] | _ => [] end)
    else mret []
  else mret [].

Definition SUPPORTED_FIRMWARES : list string := ["bios"; "uefi"].

Definition preflight (read : string → res text) (libvirt_uri : string) (uplinks : gmap string string) (capacity : option (Z * Z))
    h (build_switch : option Switch) : res PreflightReport :=
  let switches := preflight_switches h build_switch in
  nested ← nested_kvm_findings read libvirt_uri h;
  mret (from_checks [
    evaluate "named-uplink-resolution" (unknown_uplink_findings new_id switches uplinks) None;
    evaluate "os-disk-origin" (builder_origin_findings (G := G) new_id h) None;
    evaluate "supported-firmware" (unsupported_firmware_findings new_id h SUPPORTED_FIRMWARES "LibvirtDriver") None;
    evaluate "nested-kvm" nested None;
    resource_check new_id h ((λ c, MkCapacity (Some c.1) (Some c.2) None) <$> capacity)]).
End Preflight.
