(* ===== verification/LibvirtSpec.v ===== *)
(** * What the libvirt driver guarantees

    The documents that are sent are read back as what they describe, whatever the values
    have in them; the devices of a domain have names of their own; teardown asks for the
    removal of what the daemon has and of nothing else; streams are ended; what a run
    made is gone after its teardown. *)

From S2P Require Import Prelude Exceptions Eff PyBytes Url Xml Conn Sha256 Naming Ipv4 Devices Hypervisor Remote Libvirt.
From stdpp Require Import options.

(** ** Names of devices *)

Definition PREFIXES : list string := ["vd"; "sd"; "hd"].
Definition device_name (prefix : string) (i : nat) : string := str (b prefix ++ [chr (97 + i)]).

(** The names given out so far, and the counters after them. *)
Record named (counters : gmap string nat) (devs : list string) : Prop := {
  nm_distinct : NoDup devs;
  nm_below d : d ∈ devs → ∃ p i, d = device_name p i ∧ p ∈ PREFIXES ∧ i < 26 ∧ i < default 0 (counters !! p);
}.

Lemma prefix_length p : p ∈ PREFIXES → length (b p) = 2.
Proof. unfold PREFIXES. rewrite !elem_of_cons, elem_of_nil. by intros [->|[->|[->|[]]]]. Qed.

Lemma device_name_inj p q i j :
  p ∈ PREFIXES → q ∈ PREFIXES → i < 26 → j < 26 → device_name p i = device_name q j → p = q ∧ i = j.
Proof.
  intros Hp%prefix_length Hq%prefix_length Hi Hj H%str_inj. apply app_inj_1 in H as [Hpq Hij]; [|congruence].
  split; [by apply (f_equal str) in Hpq; rewrite !str_b in Hpq|].
  injection Hij as Hij. apply (f_equal nat_of_ascii) in Hij. unfold chr in Hij. rewrite !nat_ascii_embedding in Hij by lia. lia.
Qed.

(** A value that needs no quoting. *)
Definition safe (s : string) : Prop := value_ok Single (b s).
Definition plain (c : ascii) : bool := is_alnum c || bool_decide (c ∈ b "_.-:").
Lemma plain_safe l : Forall (λ c, plain c = true) l → value_ok Single l ∧ content_ok Raw l.
Proof.
  intros H. split; (eapply Forall_impl; [exact H|]); intros c Hc; each_char c;
    first [discriminate Hc|split; [reflexivity|by_decide]].
Qed.

Lemma device_name_safe p i : p ∈ PREFIXES → i < 26 → safe (device_name p i).
Proof.
  intros Hp Hi. apply plain_safe. unfold device_name. rewrite b_str, Forall_app, Forall_singleton. split.
  - unfold PREFIXES in Hp. rewrite !elem_of_cons, elem_of_nil in Hp. destruct Hp as [->|[->|[->|[]]]]; by repeat constructor.
  - do 26 (destruct i as [|i]; [reflexivity|]). lia.
Qed.

Lemma bus_prefix_ok bus p : getitem BUS_PREFIX bus = Ok p → p ∈ PREFIXES ∧ safe bus.
Proof.
  rewrite getitem_Ok. unfold BUS_PREFIX. cbn [list_to_map foldr uncurry]. rewrite !lookup_insert_Some, lookup_empty.
  intros H. repeat destruct H as [[<- <-]|[_ H]]; [..|done]; (split; [by_decide|apply plain_safe; by repeat constructor]).
Qed.

Lemma named_empty : named ∅ [].
Proof. split; [constructor|]. by intros d ?%not_elem_of_nil. Qed.

Lemma next_device_Ok bus mk c t c' devs :
  next_device bus mk c = Ok (t, c') → named c devs →
  ∃ dev, t = mk dev ∧ named c' (devs ++ [dev]) ∧ safe dev ∧ safe bus.
Proof.
  unfold next_device, dev_name. intros (p & [Hp Hbus]%bus_prefix_ok & ([dev c1] & H & [= <- <-])%bind_Ok)%bind_Ok [Hd Hb].
  apply bind_Ok in H as ([] & Hlt%raise_if_Ok & [= <- <-]). apply bool_decide_eq_false in Hlt. set (i := default 0 (c !! p)) in *.
  eexists. split; [done|]. fold (device_name p i). split; [|split; [apply device_name_safe; [done|lia]|done]]. split.
  - apply NoDup_app. split; [done|]. split; [|apply NoDup_singleton]. intros d Hin ->%list_elem_of_singleton.
    destruct (Hb _ Hin) as (q & j & Hq & Hq2 & Hj & Hjq). apply device_name_inj in Hq as [<- <-]; [|done|done|lia|done]. lia.
  - intros d [Hin| ->%list_elem_of_singleton]%elem_of_app.
    + destruct (Hb _ Hin) as (q & j & Hq & Hq2 & Hj & Hjq). exists q, j. split_and!; [done..|].
      destruct (decide (q = p)) as [->|Hne]; [rewrite lookup_insert_eq; cbn; fold i in Hjq; lia|by rewrite lookup_insert_ne].
    + exists p, i. split_and!; [done|done|lia|]. rewrite lookup_insert_eq. cbn. lia.
Qed.

(** ** The domain document *)

(** A disk of a domain. *)
Record lv_disk : Type := MkLvDisk {
  ld_cdrom : bool;
  ld_path : string;
  ld_dev : string;
  ld_bus : string;
  ld_order : option Z;
}.

Definition disk_text (d : lv_disk) : text :=
  (if ld_cdrom d then cdrom_xml else disk_xml) (ld_path d) (ld_dev d) (ld_bus d) (ld_order d).

(** What is asked of a disk: all but the name it is given. *)
Definition asked_disk (d : lv_disk) : bool * string * string * option Z := (ld_cdrom d, ld_path d, ld_bus d, ld_order d).

(** The names and the bus of a disk need no quoting. *)
Definition disk_safe (d : lv_disk) : Prop := safe (ld_dev d) ∧ safe (ld_bus d).

Definition asked_data (hw : LvHardware) (paths : list string) : list (bool * string * string * option Z) :=
  imap (λ i path, (false, path, disk_bus (default None (hw_data hw !! i)), None)) paths.
Definition asked_cdrom (path : option string) (fw : string) (order : option Z) : list (bool * string * string * option Z) :=
  match path with Some p => [(true, p, cdrom_bus fw, order)] | None => [] end.

(** The disks a domain is asked to have, in order. *)
Definition asked_disks (spec : VMSpec) (hw : LvHardware) (os_path : string) (data_paths : list string) (seed media : option string)
    : list (bool * string * string * option Z) :=
  (false, os_path, disk_bus (hw_os hw), if decide (is_Some media) then Some 1%Z else None)
  :: asked_data hw data_paths ++ asked_cdrom seed (firmware spec) None ++ asked_cdrom media (firmware spec) (Some 2%Z).

Lemma data_disks_Ok buses paths c ts c' devs :
  data_disks buses paths c = Ok (ts, c') → named c devs →
  ∃ ds, ts = disk_text <$> ds ∧ named c' (devs ++ (ld_dev <$> ds)) ∧
    asked_disk <$> ds = imap (λ i path, (false, path, disk_bus (default None (buses !! i)), None)) paths ∧ Forall disk_safe ds.
Proof.
  revert buses c ts devs. induction paths as [|p paths IH]; intros buses c ts devs; cbn [data_disks].
  { intros [= <- <-] H. exists []. cbn. by rewrite app_nil_r. }
  intros ([t c1] & Hn & ([ts1 c2] & Hr & [= <- <-])%bind_Ok)%bind_Ok Hnm. cbn [fst snd] in *.
  destruct (next_device_Ok _ _ _ _ _ _ Hn Hnm) as (dev & -> & Hnm1 & Hdev & Hbus).
  destruct (IH _ _ _ _ Hr Hnm1) as (ds & -> & Hnm2 & Has & Hsafe). rewrite <-app_assoc in Hnm2.
  exists (MkLvDisk false p dev (disk_bus (default None (head buses))) None :: ds). split; [done|]. split; [done|]. split; [|by constructor].
  cbn [fmap list_fmap imap]. rewrite Has. unfold asked_disk. cbn. f_equal; [by destruct buses|].
  apply imap_ext. intros i x _. cbn. by destruct buses.
Qed.

Lemma optional_cdrom_Ok path bus order c ts c' devs :
  optional_cdrom path bus order c = Ok (ts, c') → named c devs →
  ∃ ds, ts = disk_text <$> ds ∧ named c' (devs ++ (ld_dev <$> ds)) ∧
    asked_disk <$> ds = match path with Some p => [(true, p, bus, order)] | None => [] end ∧ Forall disk_safe ds.
Proof.
  destruct path as [p|]; cbn [optional_cdrom].
  - intros ([t c1] & Hn & [= <- <-])%bind_Ok Hnm. destruct (next_device_Ok _ _ _ _ _ _ Hn Hnm) as (dev & -> & Hnm1 & Hdev & Hbus).
    exists [MkLvDisk true p dev bus order]. split_and!; [done..|]. by repeat constructor.
  - intros [= <- <-] H. exists []. cbn. by rewrite app_nil_r.
Qed.

(** The text of a domain, from its disks and NICs. *)
Definition domain_text (name : string) (mem cpus : Z) (fw : string) (installer : bool) (disks : list lv_disk)
    (nics : list (string * string * string)) : text :=
  b "<domain type='kvm'>"
  ++ b "<name>" ++ b name ++ b "</name>"
  ++ b "<memory unit='MiB'>" ++ str_int mem ++ b "</memory>"
  ++ b "<currentMemory unit='MiB'>" ++ str_int mem ++ b "</currentMemory>"
  ++ b "<vcpu>" ++ str_int cpus ++ b "</vcpu>"
  ++ os_xml fw installer
  ++ b "<features><acpi/><apic/></features>"
  ++ b "<cpu mode='host-passthrough'/>"
  ++ b "<clock offset='utc'/>"
  ++ b "<on_poweroff>destroy</on_poweroff>"
  ++ b "<on_reboot>restart</on_reboot>"
  ++ b "<on_crash>destroy</on_crash>"
  ++ b "<devices>" ++ concat ((disk_text <$> disks) ++ ((λ n, interface_xml n.1.1 n.1.2 n.2) <$> nics) ++ [SERIAL_PTY; QGA_CHANNEL; VIDEO])
  ++ b "</devices>"
  ++ b "</domain>".

Lemma domain_xml_Ok name spec hw os_path data_paths seed media nics x :
  domain_xml name spec hw os_path data_paths seed media nics = Ok x →
  ∃ mem cpus disks, first_memory spec = Ok mem ∧ first_cpu spec = Ok cpus ∧
    asked_disk <$> disks = asked_disks spec hw os_path data_paths seed media ∧ NoDup (ld_dev <$> disks) ∧
    Forall disk_safe disks ∧ x = domain_text name mem cpus (firmware spec) (bool_decide (is_Some media)) disks nics.
Proof.
  unfold domain_xml. cbv zeta. intros (od & _ & H)%bind_Ok.
  apply bind_Ok in H as ([t0 c0] & H0 & H). apply bind_Ok in H as (? & _ & H).
  apply bind_Ok in H as ([t1 c1] & H1 & H). apply bind_Ok in H as ([t2 c2] & H2 & H). apply bind_Ok in H as ([t3 c3] & H3 & H).
  apply bind_Ok in H as (mem & Hmem & H). apply bind_Ok in H as (cpus & Hcpu & H). cbn [fst snd] in *.
  destruct (next_device_Ok _ _ _ _ _ _ H0 named_empty) as (dev & -> & N0 & Hdev & Hbus).
  destruct (data_disks_Ok _ _ _ _ _ _ H1 N0) as (d1 & -> & N1 & A1 & S1).
  destruct (optional_cdrom_Ok _ _ _ _ _ _ _ H2 N1) as (d2 & -> & N2 & A2 & S2).
  destruct (optional_cdrom_Ok _ _ _ _ _ _ _ H3 N2) as (d3 & -> & N3 & A3 & S3).
  set (d0 := MkLvDisk false os_path dev (disk_bus (hw_os hw)) (if bool_decide (is_Some media) then Some 1%Z else None)).
  exists mem, cpus, (d0 :: d1 ++ d2 ++ d3). split; [done|]. split; [done|]. split_and!.
  - rewrite fmap_cons, !fmap_app, A1, A2, A3. unfold asked_disks, asked_data. f_equal. unfold asked_disk. cbn.
    by destruct media.
  - destruct N3 as [N3 _]. rewrite fmap_cons, !fmap_app. by rewrite <-!app_assoc in N3.
  - constructor; [done|]. by rewrite !Forall_app.
  - assert (∀ rest, (disk_text <$> d0 :: d1 ++ d2 ++ d3) ++ rest =
      disk_text d0 :: (disk_text <$> d1) ++ (disk_text <$> d2) ++ (disk_text <$> d3) ++ rest) as Heq.
    { intros rest. rewrite fmap_cons, !fmap_app. cbn [app]. by rewrite <-!app_assoc. }
    injection H as <-. unfold domain_text. by rewrite Heq.
Qed.

(** ** The documents as trees *)

Abbreviation sq k v := (k%string, Single, v).
Abbreviation qa k v := (k%string, Quoteattr, v).

Definition boot_nodes (order : option Z) : list node :=
  match order with Some n => [Leaf "boot" [sq "order" (str_int n)]] | None => [] end.

Definition disk_node (d : lv_disk) : node :=
  Node "disk" [sq "type" (b "file"); sq "device" (b (if ld_cdrom d then "cdrom" else "disk"))]
    ([Leaf "driver" [sq "name" (b "qemu"); sq "type" (b (if ld_cdrom d then "raw" else "qcow2"))];
      Leaf "source" [qa "file" (b (ld_path d))];
      Leaf "target" [sq "dev" (b (ld_dev d)); sq "bus" (b (ld_bus d))]]
     ++ boot_nodes (ld_order d) ++ (if ld_cdrom d then [Leaf "readonly" []] else [])).

Definition interface_node (n : string * string * string) : node :=
  Node "interface" [sq "type" (b "network")]
    [Leaf "source" [qa "network" (b n.1.2)]; Leaf "mac" [qa "address" (b n.1.1)]; Leaf "model" [sq "type" (b n.2)]].

Definition serial_node : node := Node "serial" [sq "type" (b "pty")] [Leaf "target" [sq "port" (b "0")]].
Definition channel_node : node :=
  Node "channel" [sq "type" (b "unix")]
    [Leaf "source" [sq "mode" (b "bind")]; Leaf "target" [sq "type" (b "virtio"); sq "name" (b "org.qemu.guest_agent.0")]].
Definition video_node : node := Node "video" [] [Leaf "model" [sq "type" (b "vga")]].

Definition os_node (fw : string) (installer : bool) : node :=
  let boot := if installer then [] else [Leaf "boot" [sq "dev" (b "hd")]] in
  if decide (fw = "uefi") then
    Node "os" [sq "firmware" (b "efi")]
      (Text "type" [sq "arch" (b "x86_64"); sq "machine" (b "q35")] Raw (b "hvm")
       :: Node "firmware" [] [Leaf "feature" [sq "enabled" (b "no"); sq "name" (b "secure-boot")]] :: boot)
  else Node "os" [] (Text "type" [sq "arch" (b "x86_64"); sq "machine" (b "pc")] Raw (b "hvm") :: boot).

Definition domain_node (name : string) (mem cpus : Z) (fw : string) (installer : bool) (disks : list lv_disk)
    (nics : list (string * string * string)) : node :=
  Node "domain" [sq "type" (b "kvm")]
    [Text "name" [] Raw (b name);
     Text "memory" [sq "unit" (b "MiB")] Raw (str_int mem);
     Text "currentMemory" [sq "unit" (b "MiB")] Raw (str_int mem);
     Text "vcpu" [] Raw (str_int cpus);
     os_node fw installer;
     Node "features" [] [Leaf "acpi" []; Leaf "apic" []];
     Leaf "cpu" [sq "mode" (b "host-passthrough")];
     Leaf "clock" [sq "offset" (b "utc")];
     Text "on_poweroff" [] Raw (b "destroy");
     Text "on_reboot" [] Raw (b "restart");
     Text "on_crash" [] Raw (b "destroy");
     Node "devices" [] ((disk_node <$> disks) ++ (interface_node <$> nics) ++ [serial_node; channel_node; video_node])].

(** Two ways to paste the same text. *)
Ltac same_text :=
  cbn [print_node print_attrs print_attr print_value print_content open_tag close_tag fmap list_fmap concat fst snd app boot_nodes];
  unfold print_attrs, print_attr, print_value, open_tag, close_tag;
  repeat progress (cbn [fmap list_fmap concat fst snd app b String.list_ascii_of_string]; rewrite <-?app_assoc, ?app_nil_r);
  reflexivity.

Lemma disk_text_node d : disk_text d = print_node (disk_node d).
Proof.
  destruct d as [[] path dev bus [n|]]; unfold disk_text, disk_node, cdrom_xml, disk_xml, boot_order_xml;
    cbn [ld_cdrom ld_path ld_dev ld_bus ld_order]; generalize (b path) (b dev) (b bus); intros; same_text.
Qed.

Lemma interface_text_node n : interface_xml n.1.1 n.1.2 n.2 = print_node (interface_node n).
Proof.
  destruct n as [[mac net] model]. unfold interface_xml, interface_node. cbn [fst snd].
  generalize (b mac) (b net) (b model). intros. same_text.
Qed.

Lemma os_text_node fw installer : os_xml fw installer = print_node (os_node fw installer).
Proof. unfold os_xml, os_node. case_decide; destruct installer; reflexivity. Qed.

Lemma concat_nodes {A} (f : A → text) (g : A → node) (l : list A) : (∀ x, f x = print_node (g x)) → f <$> l = print_node <$> (g <$> l).
Proof. intros H. induction l as [|x l IH]; [done|]. rewrite !fmap_cons. by rewrite H, IH. Qed.

Lemma domain_text_node name mem cpus fw installer disks nics :
  domain_text name mem cpus fw installer disks nics = print_node (domain_node name mem cpus fw installer disks nics).
Proof.
  unfold domain_text, domain_node. rewrite (concat_nodes _ _ disks disk_text_node), (concat_nodes _ _ nics interface_text_node).
  rewrite os_text_node. change [SERIAL_PTY; QGA_CHANNEL; VIDEO] with (print_node <$> [serial_node; channel_node; video_node]).
  rewrite <-!fmap_app. generalize ((disk_node <$> disks) ++ (interface_node <$> nics) ++ [serial_node; channel_node; video_node]). intros ds.
  generalize (os_node fw installer) (b name). intros. same_text.
Qed.

(** ** Reading a domain *)

Definition kid (n : string) (x : xml) : option xml := head (kids n x).

(** What a reader finds of a disk: its kind, file, name, bus and boot order. *)
Definition disk_seen (d : xml) : option (text * text * text * text * option text) :=
  kind ← attr "device" d; src ← kid "source" d; path ← attr "file" src;
  tgt ← kid "target" d; dev ← attr "dev" tgt; bus ← attr "bus" tgt;
  Some (kind, path, dev, bus, kid "boot" d ≫= attr "order").
(** Of a NIC: its MAC, network and model. *)
Definition nic_seen (d : xml) : option (text * text * text) :=
  mac ← kid "mac" d ≫= attr "address"; net ← kid "source" d ≫= attr "network"; model ← kid "model" d ≫= attr "type";
  Some (mac, net, model).

Lemma kids_cons n a c x k m :
  kids m (Elem n a c (x :: k)) = if decide (xml_name x = b m) then x :: kids m (Elem n a c k) else kids m (Elem n a c k).
Proof. unfold kids. cbn [xml_children]. by rewrite filter_cons. Qed.

Lemma disk_seen_node d :
  disk_seen (element (disk_node d)) =
  Some (b (if ld_cdrom d then "cdrom" else "disk"), b (ld_path d), b (ld_dev d), b (ld_bus d), str_int <$> ld_order d).
Proof. by destruct d as [[] path dev bus [n|]]. Qed.
Lemma nic_seen_node n : nic_seen (element (interface_node n)) = Some (b n.1.1, b n.1.2, b n.2).
Proof. done. Qed.

Lemma kids_app n a c k1 k2 m : kids m (Elem n a c (k1 ++ k2)) = kids m (Elem n a c k1) ++ kids m (Elem n a c k2).
Proof. apply filter_app. Qed.
Lemma kids_all n a c k m : Forall (λ x, xml_name x = b m) k → kids m (Elem n a c k) = k.
Proof. intros H. unfold kids. cbn. apply filter_all. by rewrite Forall_forall in H. Qed.
Lemma kids_none n a c k m : Forall (λ x, xml_name x ≠ b m) k → kids m (Elem n a c k) = [].
Proof. intros H. unfold kids. cbn. apply filter_none. by rewrite Forall_forall in H. Qed.

Lemma devices_kids (disks : list lv_disk) (nics : list (string * string * string)) :
  let d := element (Node "devices" [] ((disk_node <$> disks) ++ (interface_node <$> nics) ++ [serial_node; channel_node; video_node])) in
  kids "disk" d = element <$> (disk_node <$> disks) ∧ kids "interface" d = element <$> (interface_node <$> nics).
Proof.
  cbn [element]. rewrite !fmap_app.
  assert (Forall (λ x, xml_name x = b "disk") (element <$> (disk_node <$> disks))) as Hd.
  { apply Forall_fmap, Forall_fmap, Forall_true. done. }
  assert (Forall (λ x, xml_name x = b "interface") (element <$> (interface_node <$> nics))) as Hn.
  { apply Forall_fmap, Forall_fmap, Forall_true. done. }
  rewrite !kids_app. split.
  - rewrite (kids_all _ _ _ _ _ Hd), kids_none; [|eapply Forall_impl; [exact Hn|]; cbn; intros x ->; discriminate].
    rewrite kids_none by (repeat constructor; discriminate). by rewrite app_nil_r.
  - rewrite kids_none; [|eapply Forall_impl; [exact Hd|]; cbn; intros x ->; discriminate].
    rewrite (kids_all _ _ _ _ _ Hn). rewrite kids_none by (repeat constructor; discriminate). by rewrite app_nil_r.
Qed.

Lemma str_int_plain n : Forall (λ c, plain c = true) (str_int n).
Proof.
  assert (∀ m, Forall (λ c, plain c = true) (str_nat m)) as H.
  { intros m. eapply Forall_impl; [apply str_nat_digits|]. intros c Hc. unfold plain, is_alnum. by rewrite Hc, orb_true_r. }
  unfold str_int. case_decide; [constructor; [done|]|]; apply H.
Qed.

(** Texts a document can carry: the characters of XML. *)
Definition printable (s : string) : Prop := Forall (λ c, legal c = true) (b s).

Lemma name_plain s : Forall (λ c, name_class c = true) (b s) → content_ok Raw (b s).
Proof.
  intros H. apply plain_safe. eapply Forall_impl; [exact H|]. intros c Hc. each_char c; first [discriminate Hc|reflexivity].
Qed.

(** Goals about the constants of a document. *)
Ltac doc_ok :=
  cbn [node_ok foldr app boot_nodes fst snd ld_cdrom ld_path ld_dev ld_bus ld_order];
  repeat match goal with
  | |- _ ∧ _ => split
  | |- True => exact I
  | |- name_ok _ => unfold name_ok; by_decide
  | |- attrs_ok _ => unfold attrs_ok
  | |- NoDup _ => by_decide
  | |- Forall _ (_ :: _) => constructor; cbn [fst snd]
  | |- Forall _ [] => constructor
  | |- value_ok Single (str_int _) => apply plain_safe, str_int_plain
  | |- content_ok Raw (str_int _) => apply plain_safe, str_int_plain
  | |- value_ok _ (b _) => first [assumption|unfold value_ok; by_decide]
  | |- content_ok _ (b _) => first [assumption|unfold content_ok; by_decide]
  end.

Lemma disk_node_ok d : disk_safe d → printable (ld_path d) → node_ok (disk_node d).
Proof. destruct d as [[] path dev bus [n|]]; intros [Hdev Hbus] Hp; unfold disk_node; doc_ok. Qed.
Lemma interface_node_ok n : printable n.1.1 → printable n.1.2 → safe n.2 → node_ok (interface_node n).
Proof. intros H1 H2 H3. unfold interface_node. doc_ok. Qed.
Lemma os_node_ok fw installer : node_ok (os_node fw installer).
Proof. unfold os_node. case_decide; destruct installer; doc_ok. Qed.
Lemma domain_node_ok name mem cpus fw installer disks nics :
  Forall (λ c, name_class c = true) (b name) → Forall disk_safe disks → Forall (λ d, printable (ld_path d)) disks →
  Forall (λ n, printable n.1.1 ∧ printable n.1.2 ∧ safe n.2) nics → node_ok (domain_node name mem cpus fw installer disks nics).
Proof.
  intros Hn%name_plain Hd Hp Hi. unfold domain_node. pose proof (os_node_ok fw installer) as Hos. set (o := os_node fw installer) in *.
  doc_ok; [exact Hos|]. rewrite nodes_ok, !Forall_app. split_and!.
  - apply Forall_fmap. rewrite Forall_forall in *. intros d Hin. apply disk_node_ok; auto.
  - apply Forall_fmap. rewrite Forall_forall in *. intros d Hin. apply interface_node_ok; by apply Hi.
  - rewrite !Forall_cons. unfold serial_node, channel_node, video_node. doc_ok.
Qed.

Definition nic_fine (n : string * string * string) : Prop := printable n.1.1 ∧ printable n.1.2 ∧ n.2 ∈ LIBVIRT_NIC_MODELS.

Lemma nic_fine_safe n : nic_fine n → printable n.1.1 ∧ printable n.1.2 ∧ safe n.2.
Proof.
  intros (? & ? & Hm). split_and!; [done..|]. unfold LIBVIRT_NIC_MODELS in Hm. rewrite !elem_of_cons, elem_of_nil in Hm.
  destruct Hm as [->|[->|[->|[->|[]]]]]; unfold safe, value_ok; by_decide.
Qed.

(** C21: the domain libvirt reads is the domain that was asked for.  Reading the document of
    a VM with an XML reader gives a domain of the VM's name whose disks are, in order, the
    OS disk, the data disks on the buses chosen for them, the seed and the installer
    medium, each with the path that was staged, whatever characters the paths have, and
    with device names that are all different; its NICs have the MAC addresses, networks
    and models that were asked for.  An installer boots by device order (the OS disk, then
    the medium), any other domain by the boot device of its [os] element. *)
Theorem domain_reads_back name spec hw os_path data_paths seed media nics x :
  domain_xml name spec hw os_path data_paths seed media nics = Ok x →
  Forall (λ c, name_class c = true) (b name) →
  Forall (λ d, printable d.1.1.2) (asked_disks spec hw os_path data_paths seed media) →
  Forall nic_fine nics →
  ∃ (el devices : xml) (disks : list lv_disk), read_xml x = Some el ∧ xml_name el = b "domain" ∧ xml_content <$> kids "name" el = [b name] ∧
    kids "devices" el = [devices] ∧
    asked_disk <$> disks = asked_disks spec hw os_path data_paths seed media ∧ NoDup (ld_dev <$> disks) ∧
    disk_seen <$> kids "disk" devices =
      (λ d, Some (b (if ld_cdrom d then "cdrom" else "disk"), b (ld_path d), b (ld_dev d), b (ld_bus d), str_int <$> ld_order d)) <$> disks ∧
    nic_seen <$> kids "interface" devices = (λ n, Some (b n.1.1, b n.1.2, b n.2)) <$> nics ∧
    (os ← kid "os" el; boot ← kid "boot" os; attr "dev" boot) = (if decide (is_Some media) then None else Some (b "hd" : text)).
Proof.
  intros (mem & cpus & disks & _ & _ & Has & Hnd & Hsafe & ->)%domain_xml_Ok Hname Hpaths Hnics.
  assert (Forall (λ d, printable (ld_path d)) disks) as Hp.
  { rewrite <-Has in Hpaths. by apply (Forall_fmap asked_disk (λ d, printable d.1.1.2)) in Hpaths. }
  assert (Forall (λ n, printable n.1.1 ∧ printable n.1.2 ∧ safe n.2) nics) as Hn.
  { eapply Forall_impl; [exact Hnics|apply nic_fine_safe]. }
  set (installer := bool_decide (is_Some media)).
  pose proof (domain_node_ok name mem cpus (firmware spec) installer disks nics Hname Hsafe Hp Hn) as Hok.
  rewrite domain_text_node. pose proof (read_print _ Hok) as Hread. destruct (devices_kids disks nics) as [Hd Hi].
  match type of Hd with kids _ ?d = _ => eexists _, d, disks end. split; [exact Hread|]. split; [done|]. split; [unfold domain_node, os_node; case_decide; reflexivity|].
  split; [unfold domain_node, os_node; case_decide; reflexivity|]. split; [done|]. split; [done|].
  split; [rewrite Hd|split; [rewrite Hi|]].
  - rewrite <-!list_fmap_compose. apply list_fmap_ext. intros i d _. apply disk_seen_node.
  - rewrite <-!list_fmap_compose. apply list_fmap_ext. intros i d _. apply nic_seen_node.
  - unfold domain_node, os_node, installer. destruct media; case_decide; reflexivity.
Qed.

(** ** The other documents *)

Definition pool_node (name path : string) : node :=
  Node "pool" [sq "type" (b "dir")] [Text "name" [] Raw (b name); Node "target" [] [Text "path" [] Raw (b path)]].
Definition volume_node (name : string) (capacity : Z) (fmt : string) : node :=
  Node "volume" []
    [Text "name" [] Raw (b name); Text "capacity" [sq "unit" (b "bytes")] Raw (str_int (Z.max capacity 1));
     Node "target" [] [Leaf "format" [sq "type" (b fmt)]]].
Definition network_node (name : string) (mgmt_host : option (string * Z)) : node :=
  Node "network" []
    ([Text "name" [] Escaped (b name);
      Leaf "bridge" [qa "name" (b (Lv.bridge_name name)); sq "stp" (b "off"); sq "delay" (b "0")]]
     ++ match mgmt_host with
        | Some (ip, prefix) => [Leaf "dns" [sq "enable" (b "no")]; Leaf "ip" [sq "address" (b ip); sq "prefix" (str_int prefix)]]
        | None => []
        end).
Definition snapshot_node (name description : string) : node :=
  Node "domainsnapshot" []
    (Text "name" [] Escaped (b name)
     :: if decide (description = "") then [] else [Text "description" [] Escaped (b description)]).

Lemma pool_text_node name path : pool_xml name path = print_node (pool_node name path).
Proof. unfold pool_xml, pool_node. generalize (b name) (b path). intros. same_text. Qed.
Lemma volume_text_node name capacity fmt : volume_xml name capacity fmt = print_node (volume_node name capacity fmt).
Proof. unfold volume_xml, volume_node. generalize (b name) (b fmt). intros. same_text. Qed.
Lemma network_text_node name m : network_xml name m = print_node (network_node name m).
Proof.
  unfold network_xml, network_node. generalize (b name) (b (Lv.bridge_name name)). intros n br. destruct m as [[ip prefix]|]; [|same_text].
  generalize (b ip). intros. same_text.
Qed.
Lemma snapshot_text_node name d : snapshot_xml name d = print_node (snapshot_node name d).
Proof. unfold snapshot_xml, snapshot_node. case_decide; generalize (b name); [|generalize (b d)]; intros; same_text. Qed.

(** A text as element content: printable, with no carriage return. *)
Definition prose (s : string) : Prop := Forall (λ c, legal c = true ∧ c ≠ CR) (b s).

(** What a document names: the content of its [name] element. *)
Definition named_in (x : text) : option string :=
  el ← read_xml x; n ← kid "name" el; Some (str (xml_content n)).

Lemma named_in_node n a k x c :
  node_ok (Node n a k) → k = x :: c → xml_name (element x) = b "name" →
  named_in (print_node (Node n a k)) = Some (str (xml_content (element x))).
Proof.
  intros Hok -> Hn. unfold named_in. rewrite read_print by done. cbn [mbind option_bind]. unfold kid.
  cbn [element fmap list_fmap]. rewrite kids_cons, decide_True by done. done.
Qed.

Lemma path_char s : Forall (λ c, name_class c = true) (b s) → content_ok Raw (b ("/var/lib/libvirt/images/" +:+ s)).
Proof.
  intros H. unfold b. fold (chars ("/var/lib/libvirt/images/" +:+ s)). rewrite chars_app. apply Forall_app. split; [by_decide|].
  by apply name_plain.
Qed.

Lemma pool_named name :
  Forall (λ c, name_class c = true) (b name) → named_in (pool_xml name ("/var/lib/libvirt/images/" +:+ name)) = Some name.
Proof.
  intros H. pose proof (path_char _ H) as Hp. apply name_plain in H as Hn. rewrite pool_text_node. unfold pool_node.
  erewrite named_in_node by (done || doc_ok). cbn [element xml_content]. by rewrite str_b.
Qed.
Lemma volume_named name capacity fmt :
  Forall (λ c, name_class c = true) (b name) → fmt ∈ ["raw"; "qcow2"] → named_in (volume_xml name capacity fmt) = Some name.
Proof.
  intros Hn%name_plain Hf. rewrite volume_text_node. unfold volume_node.
  assert (value_ok Single (b fmt)) as Hfmt.
  { rewrite !elem_of_cons, elem_of_nil in Hf. destruct Hf as [->|[->|[]]]; unfold value_ok; by_decide. }
  erewrite named_in_node by (done || doc_ok). cbn [element xml_content]. by rewrite str_b.
Qed.
Lemma snapshot_named name d : prose name → prose d → named_in (snapshot_xml name d) = Some name.
Proof.
  intros Hn Hd. rewrite snapshot_text_node. unfold snapshot_node.
  erewrite named_in_node; [|case_decide; doc_ok|reflexivity|reflexivity]. cbn [element xml_content]. by rewrite str_b.
Qed.
Lemma domain_named name mem cpus fw installer disks nics :
  Forall (λ c, name_class c = true) (b name) → Forall disk_safe disks → Forall (λ d, printable (ld_path d)) disks →
  Forall (λ n, printable n.1.1 ∧ printable n.1.2 ∧ safe n.2) nics →
  named_in (domain_text name mem cpus fw installer disks nics) = Some name.
Proof.
  intros H1 H2 H3 H4. pose proof (domain_node_ok name mem cpus fw installer disks nics H1 H2 H3 H4) as Hok.
  rewrite domain_text_node. unfold domain_node in *. erewrite named_in_node; [|exact Hok|reflexivity|reflexivity]. cbn [element xml_content]. by rewrite str_b.
Qed.

Lemma bridge_printable name : printable (Lv.bridge_name name).
Proof.
  unfold printable, Lv.bridge_name. rewrite b_str. apply Forall_app. split; [by_decide|]. apply Forall_take.
  eapply Forall_impl; [apply sha256_hex|]. intros c Hc. each_char c; first [discriminate Hc|reflexivity].
Qed.

(** The text of an address is digits and dots. *)
Lemma octet_plain k ip : Forall (λ c, plain c = true) (b (print_octet (octet k ip))).
Proof.
  assert (octet k ip ∈ octets) as Ho.
  { apply elem_of_octets. unfold octet.
    pose proof (Z.land_ones (Z.shiftr ip (8 * k)) 8 ltac:(lia)) as Hl. change (Z.ones 8) with 255%Z in Hl. rewrite Hl.
    pose proof (Z.mod_pos_bound (Z.shiftr ip (8 * k)) (2 ^ 8) ltac:(lia)). lia. }
  assert (forallb (λ n, forallb plain (b (print_octet n))) octets = true) as Hall by (vm_compute; reflexivity).
  rewrite forallb_forall in Hall. specialize (Hall _ (proj1 (list_elem_of_In _ _) Ho)). rewrite forallb_forall in Hall.
  apply Forall_forall. intros c Hc. by apply Hall, list_elem_of_In.
Qed.
Lemma print_ip_safe ip : safe (print_ip ip).
Proof.
  apply plain_safe. unfold print_ip. cbn [join]. pose proof (octet_plain 0 ip). pose proof (octet_plain 1 ip).
  pose proof (octet_plain 2 ip). pose proof (octet_plain 3 ip). revert H H0 H1 H2. unfold b.
  generalize (print_octet (octet 0 ip)) (print_octet (octet 1 ip)) (print_octet (octet 2 ip)) (print_octet (octet 3 ip)).
  intros o0 o1 o2 o3 H0 H1 H2 H3. rewrite !chars_app, !Forall_app. split_and!; try done; by_decide.
Qed.

Lemma mgmt_ip_safe sw ip : mgmt_ip sw = Ok ip → safe ip.
Proof.
  unfold mgmt_ip, slot_ip. intros (n & _ & (a & _ & [= <-])%bind_Ok)%bind_Ok. apply print_ip_safe.
Qed.

Lemma network_named name m :
  prose name → match m with Some (ip, _) => safe ip | None => True end → named_in (network_xml name m) = Some name.
Proof.
  intros Hn Hm. pose proof (bridge_printable name) as Hb. rewrite network_text_node. unfold network_node.
  erewrite named_in_node; [|destruct m as [[ip prefix]|]; doc_ok|reflexivity|reflexivity]. cbn [element xml_content]. by rewrite str_b.
Qed.

(** ** The NICs of a domain *)

Lemma lower_hex_legal n : n < 16 → legal (lower_hex n) = true.
Proof. intros H. do 16 (destruct n as [|n]; [reflexivity|]). lia. Qed.

Lemma join_with_Forall {P : ascii → Prop} c ws : P c → Forall (Forall P) ws → Forall P (join_with c ws).
Proof.
  intros Hc. induction 1 as [|w ws Hw Hws IH]; [constructor|]. destruct ws; cbn; [done|]. apply Forall_app. split; [done|]. by constructor.
Qed.

Lemma mac_printable plan vm i : printable (Lv.compose_mac plan vm i).
Proof.
  unfold printable, Lv.compose_mac, mac_text. rewrite b_str. apply join_with_Forall; [done|]. apply Forall_fmap, Forall_forall.
  intros o Ho. assert (o < 256) as Hlt.
  { unfold Lv.mac_octets in Ho. apply elem_of_cons in Ho as [->|(j & -> & _)%list_elem_of_fmap]; [lia|apply digest_byte_lt]. }
  assert (o / 16 < 16) as H1 by (apply Nat.Div0.div_lt_upper_bound; lia). assert (o mod 16 < 16) as H2 by (apply Nat.mod_upper_bound; lia).
  cbn beta. unfold hex2. constructor; [by apply lower_hex_legal|]. constructor; [by apply lower_hex_legal|constructor].
Qed.

(** A request made of a plan: names as the driver composes them, networks that are text,
    models that passed their constructor. *)
Record request_ok (q : VmRequest) : Prop := {
  ro_name : Forall (λ c, name_class c = true) (b (vr_name q));
  ro_nets k net : vr_networks q !! k = Some net → printable net;
  ro_models m : Some m ∈ hw_nics (vr_hardware q) → check_model m = Ok ();
  ro_mac nic : vr_build_nic q = Some nic → printable (bn_mac nic);
}.

Lemma check_model_Ok m : check_model m = Ok () → m ∈ LIBVIRT_NIC_MODELS.
Proof. unfold check_model. rewrite raise_if_Ok, bool_decide_eq_false. apply dec_stable. Qed.
Lemma nic_model_ok (models : list (option string)) m : (∀ m, Some m ∈ models → check_model m = Ok ()) → m ∈ models → nic_model m ∈ LIBVIRT_NIC_MODELS.
Proof. intros H Hm. destruct m as [m|]; cbn; [by apply check_model_Ok, H|by_decide]. Qed.

Lemma declared_nics_fine plan vm i ns models refs l :
  (∀ m, Some m ∈ models → check_model m = Ok ()) → (∀ k net, refs !! k = Some net → printable net) →
  declared_nics plan vm i ns models refs = Ok l → Forall nic_fine l.
Proof.
  intros Hm Hr. revert i models l Hm. induction ns as [|n ns IH]; intros i models l Hm; cbn [declared_nics]; [by intros [= <-]|].
  intros (net & Hnet%getitem_Ok & (rest & H & [= <-])%bind_Ok)%bind_Ok. constructor.
  - split; [apply mac_printable|]. split; [by eapply Hr|]. cbn [snd]. destruct models as [|m models]; [by_decide|].
    apply (nic_model_ok (m :: models)); [done|by left].
  - eapply IH, H. intros m Hin. apply Hm. destruct models; [done|]. by right.
Qed.
Lemma domain_nics_fine q l : request_ok q → domain_nics q = Ok l → Forall nic_fine l.
Proof.
  intros [_ Hn Hm Hmac]. unfold domain_nics. destruct (vr_build_nic q) as [nic|] eqn:Hb.
  - intros (net & Hnet%getitem_Ok & [= <-])%bind_Ok. constructor; [|constructor]. split; [by apply Hmac|]. split; [by eapply Hn|]. cbn [snd]. unfold build_nic_model.
    destruct (omap id (hw_nics (vr_hardware q))) as [|m ms] eqn:Ho; [by_decide|]. apply check_model_Ok, Hm.
    assert (m ∈ omap id (hw_nics (vr_hardware q))) as Hin by (rewrite Ho; by left).
    apply list_elem_of_omap in Hin as (x & Hx & Hid). unfold id in Hid. by rewrite Hid in Hx.
  - by apply declared_nics_fine.
Qed.
