(* ===== verification/LibvirtLaws.v ===== *)
(** * The libvirt daemon, and what the driver's operations do to it

    [Daemon] is what the daemon has: pools with their volumes, networks, domains, open
    streams.  [LvLaws] states what libvirt documents of each call: a lookup finds what is
    there or fails with the code of absence, a document defines the object it names, a
    change has its effect.  Guests stop on their own, so between and during calls the
    running domains may become fewer ([drift]).  [lv_spec] says what each operation of the
    driver is for; [lv_refines] that it does that. *)

From S2P Require Import Prelude Exceptions Eff PyBytes Url Xml Conn Naming Ipv4 Devices Remote Libvirt LibvirtSpec.
From stdpp Require Import options.

(** An open stream: whether it writes, its volume, and the bytes sent or still to come. *)
Record stream : Type := MkStream { st_up : bool; st_pool : string; st_vol : string; st_bytes : bytes }.

(** A pool: whether it is started, and the contents of its volumes. *)
Record pool : Type := MkPool { pl_on : bool; pl_vols : gmap string bytes }.

Record Daemon : Type := MkDaemon {
  pools : gmap string pool;
  nets : gset string;
  nets_on : gset string;
  doms : gset string;
  running : gset string;
  streams : gmap nat stream;
}.

Definition drift (v v' : Daemon) : Prop :=
  pools v' = pools v ∧ nets v' = nets v ∧ nets_on v' = nets_on v ∧ doms v' = doms v ∧
  running v' ⊆ running v ∧ streams v' = streams v.

Global Instance drift_preorder : PreOrder drift.
Proof.
  split; [by intros v|]. intros v1 v2 v3. unfold drift. intros (-> & -> & -> & -> & H1 & ->) (-> & -> & -> & -> & H2 & ->).
  split_and!; try done. set_solver.
Qed.

Definition set_pools (x : gmap string pool) (v : Daemon) : Daemon :=
  MkDaemon x (nets v) (nets_on v) (doms v) (running v) (streams v).
Definition set_nets (x y : gset string) (v : Daemon) : Daemon := MkDaemon (pools v) x y (doms v) (running v) (streams v).
Definition set_doms (x y : gset string) (v : Daemon) : Daemon := MkDaemon (pools v) (nets v) (nets_on v) x y (streams v).
Definition set_streams (x : gmap nat stream) (v : Daemon) : Daemon :=
  MkDaemon (pools v) (nets v) (nets_on v) (doms v) (running v) x.

Definition set_on (on : bool) (p : string) (v : Daemon) : Daemon :=
  set_pools (alter (λ x, MkPool on (pl_vols x)) p (pools v)) v.
Definition change_vols (f : gmap string bytes → gmap string bytes) (p : string) (v : Daemon) : Daemon :=
  set_pools (alter (λ x, MkPool (pl_on x) (f (pl_vols x))) p (pools v)) v.
Definition set_vol (p n : string) (c : bytes) : Daemon → Daemon := change_vols (insert n c) p.
Definition del_vol (p n : string) : Daemon → Daemon := change_vols (delete n) p.
Definition vol_of (v : Daemon) (p n : string) : option bytes := x ← pools v !! p; pl_vols x !! n.

(** Writing from the start of a file: what was beyond stays. *)
Definition overwritten (new old : bytes) : bytes := new ++ drop (length new) old.

(** An upload that is finished is in its volume; a download changes nothing. *)
Definition flushed (x : stream) (v : Daemon) : Daemon :=
  if st_up x then set_vol (st_pool x) (st_vol x) (overwritten (st_bytes x) (default [] (vol_of v (st_pool x) (st_vol x)))) v else v.

(** The effect of a change that succeeded. *)
Definition effect (q : lv_request) (v v' : Daemon) : Prop :=
  match q with
  | StartPool p => drift (set_on true p v) v'
  | StopPool p => drift (set_on false p v) v'
  | UndefinePool p => drift (set_pools (delete p (pools v)) v) v'
  | DeleteVol p n => drift (del_vol p n v) v'
  | ResizeVol p n _ => ∃ c, drift (set_vol p n c v) v'
  | StartNet n => drift (set_nets (nets v) ({[n]} ∪ nets_on v) v) v'
  | StopNet n => drift (set_nets (nets v) (nets_on v ∖ {[n]}) v) v'
  | UndefineNet n => drift (set_nets (nets v ∖ {[n]}) (nets_on v) v) v'
  | StartDomain d => drift (set_doms (doms v) ({[d]} ∪ running v) v) v'
  | StopDomain d => drift (set_doms (doms v) (running v ∖ {[d]}) v) v'
  | UndefineDomain d => drift (set_doms (doms v ∖ {[d]}) (running v) v) v'
  | Upload st p n _ => drift (set_streams (<[st := MkStream true p n []]> (streams v)) v) v'
  | Download st p n => drift (set_streams (<[st := MkStream false p n (default [] (vol_of v p n))]> (streams v)) v) v'
  | Send st chunk => drift (set_streams (alter (λ x, MkStream (st_up x) (st_pool x) (st_vol x) (st_bytes x ++ chunk)) st (streams v)) v) v'
  | Finish st => ∃ x, streams v !! st = Some x ∧ drift (set_streams (delete st (streams v)) (flushed x v)) v'
  | Abort st => True
  | _ => drift v v'
  end.

(** The capacity a volume document asks for, when the volume is a plain file. *)
Definition raw_capacity (x : text) : option Z :=
  el ← read_xml x;
  target ← kid "target" el; fmt ← kid "format" target; ty ← attr "type" fmt;
  if decide (ty = b "raw") then
    c ← kid "capacity" el; match py_int (xml_content c) with Ok k => Some k | Raise _ => None end
  else None.

(** What a document that succeeded to be defined has defined: the object it names. *)
Definition defines (q : lv_request) (h : string) (v v' : Daemon) : Prop :=
  match q with
  | DefinePool x => ∀ n, named_in x = Some n → h = n ∧ ∃ x, drift (set_pools (<[n := x]> (pools v)) v) v'
  | CreateVol p x => ∀ n, named_in x = Some n → h = n ∧ ∃ c, drift (set_vol p n c v) v' ∧ ∀ k, raw_capacity x = Some k → (Z.of_nat (length c) ≤ k)%Z
  | DefineNet x => ∀ n, named_in x = Some n → h = n ∧ drift (set_nets ({[n]} ∪ nets v) (nets_on v) v) v'
  | DefineDomain x => ∀ n, named_in x = Some n → h = n ∧ drift (set_doms ({[n]} ∪ doms v) (running v) v) v'
  | _ => False
  end.

(** A question changes nothing; [P] of what the daemon had and of the answer. *)
Definition answers {E A} (view : E → Daemon) (o : ext_op E A) (P : Daemon → res A → Prop) : Prop :=
  ∀ e r e' dt, o e = (r, e', dt) → drift (view e) (view e') ∧ P (view e) r.
Definition quiet {E A} (view : E → Daemon) (o : ext_op E A) : Prop := answers view o (λ _ _, True).

(** A lookup: there, or the code of absence only if it is not. *)
Definition finds {E} {L : LibvirtApi E} (view : E → Daemon) (o : ext_op E ()) (code : lv_code) (there : Daemon → bool) : Prop :=
  answers view o (λ v r, match r with Ok _ => there v = true | Raise x => lv_error (E:=E) x = Some code → there v = false end).

Class LvLaws (E : Type) {L : LibvirtApi E} : Type := {
  lv_view : E → Daemon;
  law_import : quiet lv_view lv_import;
  law_driver_error args : lv_error (E:=E) (Exn DriverError args) = None;
  law_pool p : finds lv_view (lv_pool p) NO_STORAGE_POOL (λ v, bool_decide (is_Some (pools v !! p)));
  law_vol p n : finds lv_view (lv_vol p n) NO_STORAGE_VOL (λ v, bool_decide (is_Some (vol_of v p n)));
  law_domain d : finds lv_view (lv_domain d) NO_DOMAIN (λ v, bool_decide (d ∈ doms v ∪ running v));
  law_network n : finds lv_view (lv_network n) NO_NETWORK (λ v, bool_decide (n ∈ nets v ∪ nets_on v));
  law_volumes p : answers lv_view (lv_volumes p) (λ v r, ∀ l, r = Ok l → ∀ n, n ∈ l ↔ is_Some (vol_of v p n));
  law_pool_active p : answers lv_view (lv_pool_active p) (λ v r, ∀ x, r = Ok x → x = default false (pl_on <$> pools v !! p));
  law_net_active n : answers lv_view (lv_net_active n) (λ v r, ∀ x, r = Ok x → x = bool_decide (n ∈ nets_on v));
  law_net_persistent n : answers lv_view (lv_net_persistent n) (λ v r, ∀ x, r = Ok x → x = bool_decide (n ∈ nets v));
  law_domain_active d : answers lv_view (lv_domain_active d) (λ v r, ∀ x, r = Ok x → x = bool_decide (d ∈ running v));
  law_state d : answers lv_view (lv_state d) (λ v r, r = Ok DOMAIN_SHUTOFF → d ∉ running v);
  law_bridge n : quiet lv_view (lv_bridge n);
  law_path p n : answers lv_view (lv_vol_path p n) (λ _ r, ∀ path, r = Ok path → printable path);
  law_stream : answers lv_view lv_stream (λ v r, ∀ st, r = Ok st → streams v !! st = None);
  law_asks st : answers lv_view (lv_asks st) (λ _ r, ∀ n, r = Ok n → (0 < n)%Z);
  law_piece st e c e' dt : lv_piece st e = (Ok c, e', dt) → ∃ x rest, streams (lv_view e) !! st = Some x ∧
    st_bytes x = c ++ rest ∧ (c = [] → rest = []) ∧
    drift (set_streams (<[st := MkStream (st_up x) (st_pool x) (st_vol x) rest]> (streams (lv_view e))) (lv_view e)) (lv_view e');
  law_sleep d e : drift (lv_view e) (lv_view (oversleep d e).2);
  law_define q e h e' dt : lv_define q e = (Ok h, e', dt) → defines q h (lv_view e) (lv_view e');
  law_change q e e' dt : lv_change q e = (Ok (), e', dt) → effect q (lv_view e) (lv_view e');
}.

Section Laws.
Context {E : Type} {L : LibvirtApi E} {D : LvLaws E}.
Set Default Proof Using "Type".
Abbreviation W := (Remote lv_request (LvState E)).
Abbreviation R A := (act W A).
Definition view (s : W) : Daemon := lv_view (lv_ext (rm_ext s)).

(** ** What a successful program does to the daemon *)

Abbreviation okay := (okay_on view).

Lemma okay_ask {A} what (o : ext_op E A) P :
  answers lv_view o P → okay (ask what o) (λ v a v', drift v v' ∧ P v (Ok a)).
Proof.
  intros Ho s a s'. unfold ask, rcall, on_ext, view. specialize (Ho (lv_ext (rm_ext s))). destruct (o (lv_ext (rm_ext s))) as [[r e] dt].
  intros [= -> <-]. by eapply Ho.
Qed.
Lemma okay_request q : okay (request q) (λ v _ v', effect q v v').
Proof.
  intros s [] s'. unfold request, rcall, on_ext, view. pose proof (law_change q (lv_ext (rm_ext s))) as Hl.
  destruct (lv_change q (lv_ext (rm_ext s))) as [[r e] dt]. intros [= -> <-]. by eapply Hl.
Qed.
Lemma okay_define q : okay (define q) (λ v h v', defines q h v v').
Proof.
  intros s h s'. unfold define, rcall, on_ext, view. pose proof (law_define q (lv_ext (rm_ext s))) as Hl.
  destruct (lv_define q (lv_ext (rm_ext s))) as [[r e] dt]. intros [= -> <-]. by eapply Hl.
Qed.
Lemma okay_update f : (∀ s, lv_ext (f s) = lv_ext s) → okay (update f : R ()) (λ v _ v', v' = v).
Proof. intros Hf s [] s' [= <-]. unfold view. cbn. by rewrite Hf. Qed.

Lemma okay_import : okay import_libvirt (λ v _ v', drift v v').
Proof.
  unfold import_libvirt, route_libvirt_errors_to_log, flag. eapply okay_weaken.
  - apply okay_bind; [apply okay_catch_throw; [apply okay_ask, law_import|intros e; apply okay_throw]|]. intros ?.
    apply okay_bind; [apply okay_gets|]. intros t. apply okay_if; [apply okay_ret|].
    apply okay_bind; [apply okay_request|]. intros ?. by apply okay_update.
  - intros v [] v' (_ & v1 & [H1 _] & t & v2 & -> & H). destruct t; [by destruct H as [_ ->]|].
    destruct H as (_ & v3 & H3 & ->). cbn in H3. by etransitivity.
Qed.

Lemma okay_raw : okay raw (λ v _ v', v' = v).
Proof.
  eapply okay_weaken; [unfold raw, flag; apply okay_bind; [apply okay_gets|intros t; apply okay_throw_when]|].
  intros v [] v' (t & v1 & -> & _ & ->). done.
Qed.

Lemma has_code_driver c args : has_code (E:=E) c (Exn DriverError args) = false.
Proof using D. unfold has_code. by rewrite law_driver_error. Qed.

Lemma okay_absent what o code there :
  finds lv_view o code there → okay (absent_on code (ask what o)) (λ v x v', drift v v' ∧ x = there v).
Proof.
  intros Ho s x s'. unfold absent_on, catch, mbind, act_bind, ask, rcall, on_ext, view. specialize (Ho (lv_ext (rm_ext s))).
  destruct (o (lv_ext (rm_ext s))) as [[[[]|e] e1] dt]; specialize (Ho _ _ _ eq_refl) as [Hd Hr]; cbn.
  - intros [= <- <-]. done.
  - destruct (has_code code e) eqn:Hc; [|discriminate]. apply bool_decide_eq_true in Hc. intros [= <- <-]. by rewrite Hr.
Qed.
Lemma okay_absent_raw what o code there :
  finds lv_view o code there → okay (absent_on code (raw;; ask what o)) (λ v x v', drift v v' ∧ x = there v).
Proof.
  intros Ho s x s' H. apply (okay_absent what o code there Ho s x s'). revert H. unfold absent_on, raw, flag, catch, mbind, act_bind, gets.
  destruct (lv_up (rm_ext s)); [done|]. cbn. by rewrite has_code_driver.
Qed.

Lemma drift_pools v v' : drift v v' → pools v' = pools v.
Proof. by intros [? _]. Qed.

Lemma okay_lookup_pool p : okay (lookup_pool p) (λ v x v', drift v v' ∧ x = bool_decide (is_Some (pools v !! p))).
Proof.
  eapply okay_weaken; [apply okay_bind; [apply okay_import|intros ?; apply okay_absent_raw, law_pool]|].
  intros v x v' ([] & v1 & H1 & H2 & ->). split; [by etransitivity|]. by rewrite (drift_pools _ _ H1).
Qed.
Lemma okay_lookup_volume p n : okay (lookup_volume p n) (λ v x v', drift v v' ∧ x = bool_decide (is_Some (vol_of v p n))).
Proof.
  eapply okay_weaken.
  - apply okay_bind; [apply okay_import|]. intros ?. apply okay_bind; [apply okay_lookup_pool|]. intros t.
    apply okay_if; [apply okay_absent, law_vol|apply okay_ret].
  - intros v x v' ([] & v1 & H1 & t & v2 & [H2 ->] & H). apply drift_pools in H1 as P1. apply drift_pools in H2 as P2.
    unfold vol_of. rewrite P1 in H. case_bool_decide as Hp.
    + destruct H as [H3 ->]. split; [do 2 (etransitivity; [done|]); done|]. unfold vol_of. by rewrite P2, P1.
    + destruct H as [-> ->]. split; [by etransitivity|]. apply eq_None_not_Some in Hp. by rewrite Hp.
Qed.
Lemma okay_lookup_network n : okay (lookup_network n) (λ v x v', drift v v' ∧ x = bool_decide (n ∈ nets v ∪ nets_on v)).
Proof.
  eapply okay_weaken; [apply okay_bind; [apply okay_import|intros ?; apply okay_absent_raw, law_network]|].
  intros v x v' ([] & v1 & H1 & H2 & ->). split; [by etransitivity|]. by destruct H1 as (_ & -> & -> & _).
Qed.
Lemma okay_lookup_domain d :
  okay (lookup_domain d) (λ v x v', drift v v' ∧ (x = false → d ∉ doms v' ∧ d ∉ running v')).
Proof.
  eapply okay_weaken; [apply okay_bind; [apply okay_import|intros ?; apply okay_absent_raw, law_domain]|].
  intros v x v' ([] & v1 & H1 & H2 & ->). split; [by etransitivity|]. intros Hn%bool_decide_eq_false.
  destruct H2 as (_ & _ & _ & -> & Hr & _). set_solver.
Qed.

(** One step of a program: the rule for its head. *)
Ltac step := match goal with
  | |- okay (mret _) _ => apply okay_ret
  | |- okay (lift _) _ => apply okay_lift
  | |- okay (throw_when _ _ _) _ => apply okay_throw_when
  | |- okay (gets _) _ => apply okay_gets
  | |- okay raw _ => apply okay_raw
  | |- okay import_libvirt _ => apply okay_import
  | |- okay (lookup_pool _) _ => apply okay_lookup_pool
  | |- okay (lookup_volume _ _) _ => apply okay_lookup_volume
  | |- okay (lookup_network _) _ => apply okay_lookup_network
  | |- okay (lookup_domain _) _ => apply okay_lookup_domain
  | |- okay (ask _ (lv_volumes _)) _ => apply okay_ask, law_volumes
  | |- okay (ask _ (lv_pool_active _)) _ => apply okay_ask, law_pool_active
  | |- okay (ask _ (lv_net_active _)) _ => apply okay_ask, law_net_active
  | |- okay (ask _ (lv_net_persistent _)) _ => apply okay_ask, law_net_persistent
  | |- okay (ask _ (lv_domain_active _)) _ => apply okay_ask, law_domain_active
  | |- okay (ask _ (lv_state _)) _ => apply okay_ask, law_state
  | |- okay (ask _ (lv_bridge _)) _ => apply okay_ask, law_bridge
  | |- okay (ask _ (lv_vol_path _ _)) _ => apply okay_ask, law_path
  | |- okay (ask _ lv_stream) _ => apply okay_ask, law_stream
  | |- okay (ask _ (lv_asks _)) _ => apply okay_ask, law_asks
  | |- okay (request _) _ => apply okay_request
  | |- okay (define _) _ => apply okay_define
  | |- okay (_ ≫= _) _ => apply okay_bind; [|intros ?]
  | |- okay (if _ then _ else _) _ => apply okay_if
  end.
Ltac steps := repeat step.

(** The components of the daemons at hand. *)
Ltac components :=
  unfold set_vol, del_vol, set_on in *; unfold change_vols in *; unfold drift, set_pools, set_nets, set_doms, set_streams in *;
  cbn [pools nets nets_on doms running streams pl_on pl_vols] in *.

(** ** Pools and networks *)

Definition good_name (s : string) : Prop := Forall (λ c, name_class c = true) (b s).

Lemma create_pool_okay n :
  good_name n → okay (create_pool n) (λ v _ v', ∃ x, drift (set_pools (<[n := x]> (pools v)) v) v').
Proof.
  intros Hn. eapply okay_weaken; [unfold create_pool; steps|]. cbn [defines effect pools nets nets_on doms running streams pl_on pl_vols].
  intros v a v' (? & v0 & -> & h & v1 & H1 & ? & v2 & H2 & ? & v3 & H3 & -> & ->).
  destruct (H1 n (pool_named n Hn)) as [-> [pl Hx]]. exists (MkPool true (pl_vols pl)).
  components. destruct Hx as (E1 & ? & ? & ? & ? & ?), H2 as (E2 & ? & ? & ? & ? & ?), H3 as (E3 & ? & ? & ? & ? & ?).
  split_and!; try congruence; [|set_solver]. rewrite E3, E2, E1. by rewrite alter_insert_eq.
Qed.

Lemma forA_okay {A} (f : A → R ()) (P : A → Daemon → Daemon → Prop) (I : list A → Daemon → Daemon → Prop) l :
  (∀ a, okay (f a) (λ v _ v', P a v v')) → (∀ v, I [] v v) →
  (∀ done a v0 v v', I done v0 v → P a v v' → I (done ++ [a]) v0 v') → okay (forA f l) (λ v _ v', I l v v').
Proof.
  intros Hf Hnil Hstep s [] s' H. cut (∀ todo done s1, l = done ++ todo → I done (view s) (view s1) →
    foldA (λ _ : (), f) () todo s1 = (Ok (), s') → I l (view s) (view s')).
  { intros Hc. by apply (Hc l [] s). }
  induction todo as [|a todo IH]; intros done s1 Hl HI; cbn [foldA].
  - intros [= <-]. by rewrite Hl, app_nil_r.
  - intros [([] & s2 & H1 & H2)|(e & _ & [=])]%act_bind_inv. apply (IH (done ++ [a]) s2); [by rewrite <-app_assoc| |done].
    eapply Hstep; [done|]. by apply (Hf a s1 ()).
Qed.

(** Volumes deleted one by one. *)
Lemma delete_vols_okay p l :
  okay (forA (λ vol, request (DeleteVol p vol)) l) (λ v _ v', ∃ f, drift (change_vols f p v) v').
Proof.
  apply (forA_okay _ (λ n v v', drift (del_vol p n v) v') (λ _ v v', ∃ f, drift (change_vols f p v) v')).
  - intros n. eapply okay_weaken; [step|]. done.
  - intros v. exists id. components. split_and!; try done. symmetry. apply alter_id. by intros [].
  - intros done n v0 v v' [f Hf] Hd. exists (λ m, delete n (f m)). components.
    destruct Hf as (E1 & ? & ? & ? & ? & ?), Hd as (E2 & ? & ? & ? & ? & ?). split_and!; try congruence; [|set_solver].
    by rewrite E2, E1, alter_alter_eq.
Qed.

Lemma delete_alter_same {A} (f : A → A) i (m : gmap string A) : delete i (alter f i m) = delete i m.
Proof.
  apply map_eq. intros j. destruct (decide (i = j)) as [->|Hne]; [by rewrite !lookup_delete_eq|].
  by rewrite !lookup_delete_ne, lookup_alter_ne by done.
Qed.

Lemma destroy_pool_okay n : okay (destroy_pool n) (λ v _ v', drift (set_pools (delete n (pools v)) v) v').
Proof.
  eapply okay_weaken.
  - unfold destroy_pool. step; [step|]. step; [|step]. step; [step|]. step; [apply delete_vols_okay|]. steps.
  - cbn [defines effect pools nets nets_on doms running streams pl_on pl_vols]. intros v [] v' (t & v1 & [H1 ->] & H). components. case_bool_decide as Hp.
    + destruct H as (l & v2 & [H2 _] & ? & v3 & [f H3] & on & v4 & [H4 _] & ? & v5 & H5 & ? & v6 & H6 & H7).
      assert (∃ g, pools v5 = alter g n (pools v4) ∧ nets v5 = nets v4 ∧ nets_on v5 = nets_on v4 ∧ doms v5 = doms v4 ∧
        running v5 ⊆ running v4 ∧ streams v5 = streams v4) as [g H5'].
      { destruct on; [eexists; exact H5|]. destruct H5 as [_ ->]. exists id. split_and!; try done. symmetry. by apply alter_id. }
      clear H5. destruct_and!. split_and!; try congruence; [|set_solver].
      repeat match goal with E : pools ?a = _ |- context [pools ?a] => rewrite E end. by rewrite !delete_alter_same.
    + destruct H as [_ ->]. destruct_and!. split_and!; try done. rewrite delete_id; [done|]. by apply eq_None_not_Some.
Qed.

Lemma destroy_switch_okay n :
  okay (destroy_switch n) (λ v _ v', drift (set_nets (nets v ∖ {[n]}) (nets_on v ∖ {[n]}) v) v').
Proof.
  eapply okay_weaken; [unfold destroy_switch; steps|].
  cbn [defines effect pools nets nets_on doms running streams pl_on pl_vols]. intros v [] v' (t & v1 & [H1 ->] & H). components. case_bool_decide as Hp.
  - destruct H as (a & v2 & [H2 Ha] & ? & v3 & H3 & p & v4 & [H4 Hpe] & H5). specialize (Ha _ eq_refl). specialize (Hpe _ eq_refl).
    assert (nets v3 = nets v2 ∧ nets_on v3 = nets_on v2 ∖ {[n]} ∧ pools v3 = pools v2 ∧ doms v3 = doms v2 ∧
      running v3 ⊆ running v2 ∧ streams v3 = streams v2) as H3'.
    { destruct a; [naive_solver|]. destruct H3 as [_ ->]. symmetry in Ha. apply bool_decide_eq_false in Ha. destruct_and!.
      split_and!; try done. set_solver. }
    assert (nets v' = nets v4 ∖ {[n]} ∧ nets_on v' = nets_on v4 ∧ pools v' = pools v4 ∧ doms v' = doms v4 ∧
      running v' ⊆ running v4 ∧ streams v' = streams v4) as H5'.
    { destruct p; [naive_solver|]. destruct H5 as [_ ->]. symmetry in Hpe. apply bool_decide_eq_false in Hpe. destruct_and!.
      split_and!; try done. set_solver. }
    clear H3 H5. destruct_and!. split_and!; try congruence; set_solver.
  - destruct H as [_ ->]. destruct_and!. split_and!; try done; set_solver.
Qed.

Lemma create_switch_okay sw n up :
  prose n → okay (create_switch sw n up) (λ v _ v', drift (set_nets ({[n]} ∪ nets v) ({[n]} ∪ nets_on v) v) v').
Proof.
  intros Hn. set (tail := match uplink sw, sidecar sw with
    | Some u, Some sc => if sc_nat sc then match up with None => throw DriverError [n; u] | Some r => mret (Some r) end else mret None
    | _, _ => mret None
    end : R (option string)).
  assert (okay tail (λ v _ v', v' = v)) as Htail.
  { unfold tail. destruct (uplink sw), (sidecar sw) as [sc|]; try (eapply okay_weaken; [step|naive_solver]).
    destruct (sc_nat sc); [|eapply okay_weaken; [step|naive_solver]].
    destruct up; [eapply okay_weaken; [step|naive_solver]|apply okay_throw]. }
  eapply okay_weaken.
  - unfold create_switch. step; [apply okay_if; steps|]. do 4 (step; [step|]). exact Htail.
  - cbn [defines effect pools nets nets_on doms running streams pl_on pl_vols]. intros v a v' (m & v0 & H0 & ? & v1 & -> & h & v2 & H2 & ? & v3 & H3 & ? & v4 & [H4 _] & ->).
    assert (v0 = v ∧ match m with Some (ip, _) => safe ip | None => True end) as [-> Hm].
    { destruct (mgmt sw); [|by destruct H0 as [-> ->]]. destruct H0 as (ip & ? & [Hip ->] & net & ? & [_ ->] & -> & ->).
      split; [done|]. by eapply mgmt_ip_safe. }
    destruct (H2 n (network_named n m Hn Hm)) as [-> Hd]. components. destruct_and!.
    split_and!; try congruence; set_solver.
Qed.

(** ** Volumes *)

Lemma vol_format_ok n : vol_format n ∈ ["raw"; "qcow2"].
Proof. unfold vol_format. destruct (ends_with _ _); set_solver. Qed.

Lemma raw_capacity_volume n k :
  good_name n → (0 ≤ k)%Z → raw_capacity (volume_xml n k "raw") = Some (Z.max k 1).
Proof.
  intros Hn%name_plain Hk. unfold raw_capacity. rewrite volume_text_node. rewrite read_print; [|unfold volume_node; doc_ok].
  unfold volume_node. cbn [mbind option_bind element fmap list_fmap]. unfold kid, attr. rewrite !kids_cons.
  repeat first [rewrite decide_True by done|rewrite decide_False by done]. cbn [head mbind option_bind].
  rewrite kids_cons, decide_True by done. pose proof (Z.le_max_r k 1). generalize dependent (Z.max k 1). intros m Hm.
  cbn. unfold str_int. rewrite decide_False by lia. rewrite py_int_str_nat, Z2Nat.id by lia. reflexivity.
Qed.

(** The volume a reference names is new, and fits its capacity when it is a plain file. *)
Lemma replace_volume_okay ref k p n :
  split_ref ref = Ok (p, n) → good_name n → (0 ≤ k)%Z →
  okay (replace_volume ref k) (λ v h v', h = (p, n) ∧ is_Some (pools v !! p) ∧
    ∃ c, drift (set_vol p n c v) v' ∧ (vol_format n = "raw" → Z.of_nat (length c) ≤ Z.max k 1)%Z).
Proof.
  intros Href Hn Hk. eapply okay_weaken.
  - unfold replace_volume. rewrite Href. apply okay_lift_Ok. steps.
  - cbn [defines effect]. intros v h v' (t & v1 & [H1 ->] & [] & v2 & [Hp ->] & ex & v3 & [H3 _] & [] & v4 & H4
      & vol & v5 & H5 & -> & ->).
    rewrite negb_false_iff in Hp. apply bool_decide_eq_true in Hp.
    destruct (H5 n (volume_named n k (vol_format n) Hn (vol_format_ok n))) as (-> & c & Hc & Hraw).
    split; [done|]. split; [done|]. exists c. split.
    + assert (∃ f, pools v4 = alter (λ x, MkPool (pl_on x) (f (pl_vols x))) p (pools v3) ∧ (∀ m, insert n c (f m) = insert n c m) ∧
        nets v4 = nets v3 ∧ nets_on v4 = nets_on v3 ∧ doms v4 = doms v3 ∧ running v4 ⊆ running v3 ∧ streams v4 = streams v3) as [f Hf].
      { components. destruct ex.
        - destruct_and!. exists (delete n). split_and!; try done. intros m. by rewrite insert_delete_eq.
        - destruct H4 as [_ ->]. exists id. split_and!; try done. symmetry. apply alter_id. by intros []. }
      clear H4 H5. destruct Hf as (Hf & Hins & Hrest). components. destruct_and!. split_and!; try congruence; [|set_solver].
      repeat match goal with Eq : pools ?a = _ |- context [pools ?a] => rewrite Eq end. rewrite alter_alter_eq.
      apply alter_ext. intros x _. cbn. by rewrite Hins.
    + intros Hf. apply Hraw. rewrite Hf. by apply raw_capacity_volume.
Qed.

Lemma CHUNK_pos : (0 < CHUNK)%Z.
Proof. done. Qed.

(** All of the data is sent. *)
Lemma send_all_okay n st data :
  length data ≤ n → okay (send_all n st data) (λ v _ v',
    drift (set_streams (alter (λ x, MkStream (st_up x) (st_pool x) (st_vol x) (st_bytes x ++ data)) st (streams v)) v) v').
Proof.
  revert data. induction n as [|n IH]; intros data Hn; intros s [] s' H; cbn [send_all] in H;
    apply act_bind_inv in H as [(k & s1 & H1 & H)|(e & _ & [=])]; apply (okay_ask _ _ _ (law_asks st)) in H1 as [H1 Hk];
    specialize (Hk _ eq_refl); pose proof CHUNK_pos;
    set (m := Z.to_nat (Z.min k CHUNK)) in *; assert (0 < m) as Hm by lia; clearbody m;
    (destruct (take m data) as [|c cs] eqn:Ht;
      [injection H as <-; assert (data = []) as -> by (destruct data, m; done || lia);
       components; destruct_and!; split_and!; try done; etransitivity; [done|]; symmetry; apply alter_id; intros [] _; cbn; by rewrite app_nil_r|]).
  - destruct data; [by rewrite take_nil in Ht|cbn in Hn; lia].
  - apply act_bind_inv in H as [([] & s2 & H2 & H)|(e & _ & [=])]. apply okay_request in H2. cbn [effect] in H2.
    apply IH in H.
    + rewrite <-Ht in *. components. destruct_and!. split_and!; try congruence; [set_solver|].
      repeat match goal with Eq : streams ?a = _ |- context [streams ?a] => rewrite Eq end. rewrite alter_alter_eq. apply alter_ext.
      intros x _. cbn. rewrite <-app_assoc. rewrite length_take. destruct (decide (m ≤ length data)).
      * rewrite Nat.min_l by lia. by rewrite take_drop.
      * rewrite Nat.min_r, drop_all, app_nil_r, take_ge by lia. done.
    + rewrite length_drop. cbn. lia.
Qed.

(** What comes is what the volume has. *)
Lemma recv_all_okay n st got :
  okay (recv_all n st got) (λ v a v', ∀ x, streams v !! st = Some x → a = got ++ st_bytes x ∧
    drift (set_streams (<[st := MkStream (st_up x) (st_pool x) (st_vol x) []]> (streams v)) v) v').
Proof.
  revert got. induction n as [|n IH]; intros got s a s' H; cbn [recv_all] in H; [done|].
  apply act_bind_inv in H as [(c & s1 & H1 & H)|(e & _ & [=])]. unfold ask, rcall, on_ext in H1.
  destruct (lv_piece st (lv_ext (rm_ext s))) as [[r e1] dt] eqn:Hp. injection H1 as -> <-.
  apply law_piece in Hp as (x & rest & Hx & Hb & Hnil & Hd). intros x' Hx'. unfold view in Hx'. rewrite Hx in Hx'. injection Hx' as <-.
  destruct c as [|c cs].
  - injection H as <- <-. rewrite Hnil in * by done. rewrite Hb. by rewrite app_nil_r.
  - apply IH in H. unfold view at 1 in H. cbn [lv_ext rm_ext set_ext] in H.
    destruct (H (MkStream (st_up x) (st_pool x) (st_vol x) rest)) as [-> Hd2].
    { destruct Hd as (_ & _ & _ & _ & _ & ->). apply lookup_insert_eq. }
    cbn [st_bytes st_up st_pool st_vol] in *. rewrite Hb, <-app_assoc. split; [done|].
    unfold view in *. cbn [lv_ext rm_ext set_ext] in *. components. destruct_and!. split_and!; try congruence; [set_solver|].
    repeat match goal with Eq : streams ?a = _ |- context [streams ?a] => rewrite Eq end. by rewrite insert_insert_eq.
Qed.

Lemma over_stream_okay {A} st (m : R A) P :
  okay m P → okay (over_stream st m) (λ v a v', ∃ v1 x, P v a v1 ∧ streams v1 !! st = Some x ∧
    drift (set_streams (delete st (streams v1)) (flushed x v1)) v').
Proof.
  intros Hm. unfold over_stream. apply okay_catch_throw.
  - eapply okay_weaken; [apply okay_bind; [exact Hm|intros a; steps]|]. cbn [effect].
    intros v a v' (a' & v1 & HP & [] & v2 & (x & Hx & Hd) & -> & ->). eauto.
  - intros e. eapply okay_weaken; [apply okay_bind; [step|intros ?; apply okay_lift]|]. by intros v a v' (? & ? & _ & [=] & _).
Qed.

Lemma stream_in_okay vol data k :
  okay (stream_in vol data k) (λ v _ v', drift (set_vol vol.1 vol.2 (overwritten data (default [] (vol_of v vol.1 vol.2))) v) v').
Proof.
  destruct vol as [p n]. cbn [fst snd].
  eapply okay_weaken; [unfold stream_in; step; [step|]; step; [step|]; step; [step|]; apply over_stream_okay, send_all_okay; done|].
  cbn [effect fst snd]. intros v [] v' ([] & v0 & -> & st & v1 & [H1 Hst] & [] & v2 & H2 & v3 & x & H3 & Hx & Hd).
  specialize (Hst _ eq_refl). destruct (drift_pools _ _ H1).
  assert (streams v3 = <[st := MkStream true p n data]> (streams v)) as Hs3.
  { components. destruct_and!. repeat match goal with Eq : streams ?a = _ |- context [streams ?a] => rewrite Eq end.
    by rewrite alter_insert_eq. }
  rewrite Hs3, lookup_insert_eq in Hx. injection Hx as <-. unfold flushed in Hd. cbn [st_up st_pool st_vol st_bytes] in Hd.
  rewrite Hs3, delete_insert_id in Hd by done.
  assert (pools v3 = pools v) as Hp3 by (components; destruct_and!; congruence).
  unfold vol_of in *. rewrite Hp3 in Hd. components. destruct_and!. split_and!; try congruence. set_solver.
Qed.

Lemma vol_of_set v v' p n c : is_Some (pools v !! p) → drift (set_vol p n c v) v' → vol_of v' p n = Some c.
Proof.
  intros [x Hx] Hd. components. destruct Hd as (Hp & _). unfold vol_of. rewrite Hp, lookup_alter_eq, Hx. cbn. apply lookup_insert_eq.
Qed.
Lemma set_vol_twice v v1 v' p n c c' : drift (set_vol p n c v) v1 → drift (set_vol p n c' v1) v' → drift (set_vol p n c' v) v'.
Proof.
  intros H1 H2. components. destruct_and!. split_and!; try congruence; [|set_solver].
  repeat match goal with Eq : pools ?a = _ |- context [pools ?a] => rewrite Eq end. rewrite alter_alter_eq. apply alter_ext.
  intros x _. cbn. by rewrite insert_insert_eq.
Qed.
Lemma set_vol_drift v v1 v' p n c : drift (set_vol p n c v) v1 → drift v1 v' → drift (set_vol p n c v) v'.
Proof. intros. by etransitivity. Qed.
Lemma drift_set_vol v v1 v' p n c : drift v v1 → drift (set_vol p n c v1) v' → drift (set_vol p n c v) v'.
Proof. intros. components. destruct_and!. split_and!; try congruence. set_solver. Qed.

(** A written volume begins with the data; an image of its own size is exactly the data. *)
Lemma write_to_pool_okay ref data p n :
  split_ref ref = Ok (p, n) → good_name n →
  okay (write_to_pool ref data) (λ v _ v', is_Some (pools v !! p) ∧ ∃ rest, drift (set_vol p n (data ++ rest) v) v' ∧
    (vol_format n = "raw" → data ≠ [] → rest = [])).
Proof.
  intros Href Hn. eapply okay_weaken.
  - unfold write_to_pool. step; [apply (replace_volume_okay _ _ p n Href Hn); lia|]. step; [apply stream_in_okay|step].
  - intros v a v' (h & v1 & (-> & Hp & c & Hc & Hlen) & [] & v2 & H2 & -> & ->). cbn [fst snd] in H2. split; [done|].
    rewrite (vol_of_set _ _ _ _ _ Hp Hc) in H2. cbn [default] in H2. exists (drop (length data) c). split; [by eapply set_vol_twice|].
    intros Hf Hne. specialize (Hlen Hf). apply drop_ge. destruct data; [done|]. cbn [length] in *. lia.
Qed.

Lemma create_blank_volume_okay ref gb p n :
  split_ref ref = Ok (p, n) → good_name n → (0 ≤ gb)%Z →
  okay (create_blank_volume ref gb) (λ v _ v', is_Some (pools v !! p) ∧ ∃ c, drift (set_vol p n c v) v').
Proof.
  intros Href Hn Hgb. eapply okay_weaken.
  - unfold create_blank_volume. step; [apply (replace_volume_okay _ _ p n Href Hn); unfold GiB; lia|]. step.
  - intros v a v' (h & v1 & (-> & Hp & c & Hc & _) & -> & ->). eauto.
Qed.

(** An upload leaves a volume that is there, and otherwise puts the file in place. *)
Lemma upload_to_pool_okay ref size source p n :
  split_ref ref = Ok (p, n) → good_name n → (∀ k, size = Ok k → 0 ≤ k)%Z →
  okay (upload_to_pool ref size source) (λ v _ v',
    (is_Some (vol_of v p n) ∧ drift v v') ∨
    (is_Some (pools v !! p) ∧ vol_of v p n = None ∧ ∃ data rest, source = Ok data ∧ drift (set_vol p n (data ++ rest) v) v')).
Proof.
  intros Href Hn Hsize s a s'. unfold upload_to_pool. rewrite Href.
  intros [([p' n'] & s0 & [= <- <- <-] & H)|(e & [=] & _)]%act_bind_inv.
  apply act_bind_inv in H as [(t & s1 & [H1 ->]%okay_lookup_volume & H)|(e & _ & [=])]. case_bool_decide as Hin.
  { injection H as <- <-. by left. }
  right. destruct size as [k|e]; [|by apply act_bind_inv in H as [(x & s2 & [=] & _)|(x & _ & [=])]].
  rewrite (act_bind_Ok _ _ s1 k s1) in H by done. specialize (Hsize k eq_refl).
  apply act_bind_inv in H as [(h & s2 & H2 & H)|(e & _ & [=])].
  apply (replace_volume_okay _ _ p n Href Hn Hsize) in H2 as (-> & Hp & c & Hc & _).
  destruct source as [data|e]; [|by apply act_bind_inv in H as [(x & s3 & [=] & _)|(x & _ & [=])]].
  rewrite (act_bind_Ok _ _ s2 data s2) in H by done.
  apply act_bind_inv in H as [([] & s3 & H3%stream_in_okay & H)|(e & _ & [=])]. cbn [fst snd] in H3.
  rewrite (vol_of_set _ _ _ _ _ Hp Hc) in H3. rewrite (drift_pools _ _ H1) in Hp. split; [done|]. split; [by apply eq_None_not_Some|].
  exists data, (drop (length data) c). split; [done|].
  assert (okay (pool ← lookup_pool p; (if pool : bool then request (RefreshPool p) else mret ());; mret ref : R string)
    (λ v _ v', drift v v')) as Hlast.
  { eapply okay_weaken; [steps|]. cbn [effect]. intros v x v' (t & v1 & [? _] & ? & v2 & Hr & -> & ->).
    etransitivity; [done|]. destruct t; [done|]. by destruct Hr as [_ ->]. }
  apply Hlast in H. eapply set_vol_drift; [|exact H]. eapply drift_set_vol; [exact H1|]. by eapply set_vol_twice.
Qed.

Lemma resize_volume_okay ref gb p n :
  split_ref ref = Ok (p, n) →
  okay (resize_volume ref gb) (λ v _ v', is_Some (vol_of v p n) ∧ ∃ c, drift (set_vol p n c v) v').
Proof.
  intros Href. eapply okay_weaken; [unfold resize_volume; rewrite Href; apply okay_lift_Ok; steps|]. cbn [effect].
  intros v a v' (t & v1 & [H1 ->] & [] & v2 & [Ht ->] & [] & v3 & [c Hc] & -> & ->).
  apply negb_false_iff, bool_decide_eq_true in Ht. split; [done|]. exists c. by eapply drift_set_vol.
Qed.

Lemma del_vol_absent v p n : vol_of v p n = None → alter (λ x, MkPool (pl_on x) (delete n (pl_vols x))) p (pools v) = pools v.
Proof.
  unfold vol_of. intros Hv. apply alter_id. intros x Hx. rewrite Hx in Hv. cbn in Hv. rewrite delete_id by done. by destruct x.
Qed.
Lemma delete_volume_okay ref p n :
  split_ref ref = Ok (p, n) → okay (delete_volume ref) (λ v _ v', drift (del_vol p n v) v').
Proof.
  intros Href. eapply okay_weaken; [unfold delete_volume; rewrite Href; apply okay_lift_Ok; steps|]. cbn [effect].
  intros v a v' (t & v1 & [H1 ->] & H). case_bool_decide as Hin.
  - components. destruct_and!. split_and!; try congruence. set_solver.
  - destruct H as [_ ->]. apply eq_None_not_Some in Hin. pose proof (del_vol_absent _ _ _ Hin) as Hp.
    components. destruct_and!. split_and!; try congruence. set_solver.
Qed.

(** A download changes nothing and gives the volume's bytes. *)
Lemma download_okay rounds ref opened p n :
  split_ref ref = Ok (p, n) →
  okay (download_from_pool rounds ref opened) (λ v a v', vol_of v p n = Some a ∧ drift v v').
Proof.
  intros Href. eapply okay_weaken.
  - unfold download_from_pool. rewrite Href. apply okay_lift_Ok. do 3 (step; [step|]). unfold stream_out.
    do 3 (step; [step|]). apply over_stream_okay, recv_all_okay.
  - cbn [effect]. intros v a v' (t & v1 & [H1 ->] & [] & v2 & [Ht ->] & [] & v3 & [_ ->] & [] & v4 & -> & st & v5 & [H5 Hst] & [] & v6 & H6
      & v7 & x & H7 & Hx & Hd).
    apply negb_false_iff, bool_decide_eq_true in Ht as [c Hc]. specialize (Hst _ eq_refl).
    assert (vol_of v5 p n = Some c) as Hc5 by (unfold vol_of in *; by rewrite (drift_pools _ _ H5), (drift_pools _ _ H1)).
    rewrite Hc5 in H6. cbn [default] in H6.
    destruct (H7 (MkStream false p n c)) as [-> H7d]; [destruct H6 as (_ & _ & _ & _ & _ & ->); apply lookup_insert_eq|].
    cbn [st_bytes st_up st_pool st_vol app] in *. split; [done|]. clear H7.
    assert (streams v7 = <[st := MkStream false p n []]> (streams v1)) as Hs7.
    { components. destruct_and!. repeat match goal with Eq : streams ?a = _ |- context [streams ?a] => rewrite Eq end.
      by rewrite insert_insert_eq. }
    rewrite Hs7, lookup_insert_eq in Hx. injection Hx as <-. unfold flushed in Hd. cbn [st_up] in Hd.
    rewrite Hs7, delete_insert_id in Hd by done. components. destruct_and!. split_and!; try congruence. set_solver.
Qed.

(** ** Domains *)

Lemma vol_path_okay ref : okay (vol_path ref) (λ v path v', drift v v' ∧ printable path).
Proof.
  unfold vol_path. destruct (partition SLASH (b ref)) as [[p sep] n]. eapply okay_weaken; [steps|].
  intros v a v' (t & v1 & [H1 _] & [] & v2 & [_ ->] & H3 & Hp). split; [by etransitivity|]. by apply Hp.
Qed.
Lemma opt_path_okay ref : okay (opt_path ref) (λ v path v', drift v v' ∧ ∀ p, path = Some p → printable p).
Proof.
  destruct ref as [ref|]; cbn [opt_path]; (eapply okay_weaken; [step; try (apply vol_path_okay); try step|]).
  - intros v a v' (path & v1 & [H1 Hp] & -> & ->). split; [done|]. by intros p [= <-].
  - by intros v a v' [-> ->].
Qed.
Lemma vol_paths_okay refs : okay (vol_paths refs) (λ v paths v', drift v v' ∧ Forall printable paths).
Proof.
  induction refs as [|ref refs IH]; cbn [vol_paths].
  - eapply okay_weaken; [step|]. by intros v a v' [-> ->].
  - eapply okay_weaken; [step; [apply vol_path_okay|]; step; [apply IH|step]|].
    intros v a v' (p & v1 & [H1 Hp] & ps & v2 & [H2 Hps] & -> & ->). split; [by etransitivity|]. by constructor.
Qed.

Lemma asked_disks_printable spec hw os data seed media :
  printable os → Forall printable data → (∀ p, seed = Some p → printable p) → (∀ p, media = Some p → printable p) →
  Forall (λ d : bool * string * string * option Z, printable d.1.1.2) (asked_disks spec hw os data seed media).
Proof.
  intros Ho Hd Hs Hm. unfold asked_disks. constructor; [done|]. rewrite !Forall_app. split_and!.
  - unfold asked_data. apply Forall_lookup. intros i d Hi. rewrite list_lookup_imap in Hi. apply fmap_Some in Hi as (path & Hp & ->).
    cbn. rewrite Forall_lookup in Hd. by eapply Hd.
  - destruct seed; [|constructor]. constructor; [by apply Hs|constructor].
  - destruct media; [|constructor]. constructor; [by apply Hm|constructor].
Qed.

Lemma create_vm_okay q :
  request_ok q → okay (create_vm q) (λ v _ v', drift (set_doms ({[vr_name q]} ∪ doms v) (running v) v) v').
Proof.
  intros Hq. eapply okay_weaken.
  - unfold create_vm. step; [apply vol_path_okay|]. step; [apply vol_paths_okay|]. step; [apply opt_path_okay|].
    step; [apply opt_path_okay|]. steps.
  - cbn [defines]. intros v a v' (os & v1 & [H1 Hos] & data & v2 & [H2 Hdata] & seed & v3 & [H3 Hseed] & media & v4 & [H4 Hmedia]
      & ns & v5 & [Hns ->] & x & v6 & [Hx ->] & [] & v7 & -> & h & v8 & Hdef & -> & ->).
    apply domain_nics_fine in Hns; [|done]. apply domain_xml_Ok in Hx as (mem & cpus & disks & _ & _ & Has & _ & Hsafe & ->).
    assert (Forall (λ d, printable (ld_path d)) disks) as Hp.
    { apply (Forall_fmap asked_disk (λ d, printable d.1.1.2)). rewrite Has. by apply asked_disks_printable. }
    destruct (Hdef (vr_name q)) as [_ Hd].
    { apply domain_named; [apply Hq|done|done|]. eapply Forall_impl; [exact Hns|apply nic_fine_safe]. }
    clear Hdef. components. destruct_and!. split_and!; try congruence. set_solver.
Qed.

Lemma resolve_domain_okay d : okay (resolve_domain d) (λ v _ v', drift v v').
Proof.
  eapply okay_weaken; [unfold resolve_domain; steps|]. by intros v a v' (t & v1 & [H1 _] & _ & ->).
Qed.

Lemma start_vm_okay d :
  okay (start_vm d) (λ v _ v', drift (set_doms (doms v) ({[d]} ∪ running v) v) v').
Proof.
  eapply okay_weaken; [unfold start_vm; step; [apply resolve_domain_okay|steps]|]. cbn [effect].
  intros v [] v' ([] & v1 & H1 & t & v2 & [H2 _] & H3). destruct t.
  - destruct H3 as [_ ->]. components. destruct_and!. split_and!; try congruence. set_solver.
  - components. destruct_and!. split_and!; try congruence. set_solver.
Qed.

Lemma okay_sleep d : okay (rsleep d) (λ v _ v', drift v v').
Proof.
  intros s [] s'. unfold rsleep, view, oversleep, lv_state_sleeper. pose proof (law_sleep d (lv_ext (rm_ext s))) as Hl. unfold oversleep in *.
  destruct (lv_sleeper d (lv_ext (rm_ext s))) as [x e]. intros [= <-]. exact Hl.
Qed.

Lemma shutdown_rounds_okay n timeout start d :
  okay (shutdown_rounds n timeout start d) (λ v off v', drift v v' ∧ (off = true → d ∉ running v')).
Proof.
  induction n as [|n IH]; cbn [shutdown_rounds]; [apply okay_throw|]. intros s a s'. rewrite act_bind_gets. case_decide.
  - intros [(st & s1 & H1 & H2)|(e & _ & [=])]%act_bind_inv. apply (okay_ask _ _ _ (law_state d)) in H1 as [H1 Hst].
    case_decide as Hd.
    + injection H2 as <- <-. split; [done|]. intros _. subst st. specialize (Hst eq_refl). destruct H1 as (_ & _ & _ & _ & Hr & _). set_solver.
    + apply act_bind_inv in H2 as [([] & s2 & H3%okay_sleep & H4)|(e & _ & [=])]. apply IH in H4 as [H4 Hoff].
      split; [|done]. etransitivity; [done|]. by etransitivity.
  - by intros [= <- <-].
Qed.

(** After a shutdown that succeeded the domain is off. *)
Lemma shutdown_vm_okay d timeout :
  okay (shutdown_vm d timeout) (λ v _ v', drift (set_doms (doms v) (running v ∖ {[d]}) v) v').
Proof.
  eapply okay_weaken.
  - unfold shutdown_vm. step; [step|]. step; [apply resolve_domain_okay|]. step; [step|]. apply okay_if; [|step].
    step; [step|]. step; [step|]. step; [apply shutdown_rounds_okay|]. apply okay_if; steps.
  - cbn [effect]. intros v [] v' ([] & v1 & H1 & [] & v2 & H2 & t & v3 & [H3 Ht] & H). specialize (Ht _ eq_refl). destruct t.
    + destruct H as ([] & v4 & H4 & st & v5 & -> & off & v6 & [H6 Hoff] & H). destruct off.
      * destruct H as [_ ->]. specialize (Hoff eq_refl). components. destruct_and!. split_and!; try congruence. set_solver.
      * destruct H as (t & v7 & [H7 Ht7] & H8). specialize (Ht7 _ eq_refl). destruct t.
        { components. destruct_and!. split_and!; try congruence. set_solver. }
        { destruct H8 as [_ ->]. symmetry in Ht7. apply bool_decide_eq_false in Ht7. components. destruct_and!.
          split_and!; try congruence. set_solver. }
    + destruct H as [_ ->]. symmetry in Ht. apply bool_decide_eq_false in Ht. components. destruct_and!. split_and!; try congruence. set_solver.
Qed.

Lemma destroy_vm_okay d :
  okay (destroy_vm d) (λ v _ v', drift (set_doms (doms v ∖ {[d]}) (running v ∖ {[d]}) v) v').
Proof.
  eapply okay_weaken; [unfold destroy_vm; steps|].
  cbn [effect]. intros v [] v' ([] & v0 & H0 & t & v1 & [H1 Hn] & H). destruct t.
  - destruct H as (a & v2 & [H2 Ha] & [] & v3 & H3 & H4). specialize (Ha _ eq_refl).
    assert (drift (set_doms (doms v2) (running v2 ∖ {[d]}) v2) v3) as H3'.
    { destruct a; [done|]. destruct H3 as [_ ->]. symmetry in Ha. apply bool_decide_eq_false in Ha. components. split_and!; try done. set_solver. }
    clear H3 Ha Hn. components. destruct_and!. split_and!; try congruence; set_solver.
  - destruct H as [_ ->]. destruct (Hn eq_refl). components. destruct_and!. split_and!; try congruence; set_solver.
Qed.

(** ** The operations, and what each is for *)

Inductive lv_op : Type :=
  | OpCreatePool (name : string) | OpDestroyPool (name : string)
  | OpCreateSwitch (sw : Switch) (name : string) (uplink : option string) | OpDestroySwitch (name : string)
  | OpBlank (ref : string) (size_gb : Z) | OpWrite (ref : string) (data : bytes)
  | OpUpload (ref : string) (size : res Z) (source : res bytes) | OpResize (ref : string) (size_gb : Z) | OpDeleteVol (ref : string)
  | OpCreateVm (q : VmRequest) | OpStartVm (name : string) | OpShutdownVm (name : string) (timeout : Z) | OpDestroyVm (name : string).

Definition perform_op (o : lv_op) : R () :=
  match o with
  | OpCreatePool n => create_pool n;; mret ()
  | OpDestroyPool n => destroy_pool n
  | OpCreateSwitch sw n u => create_switch sw n u;; mret ()
  | OpDestroySwitch n => destroy_switch n
  | OpBlank ref gb => create_blank_volume ref gb;; mret ()
  | OpWrite ref data => write_to_pool ref data;; mret ()
  | OpUpload ref size source => upload_to_pool ref size source;; mret ()
  | OpResize ref gb => resize_volume ref gb;; mret ()
  | OpDeleteVol ref => delete_volume ref
  | OpCreateVm q => create_vm q;; mret ()
  | OpStartVm n => start_vm n
  | OpShutdownVm n timeout => shutdown_vm n timeout
  | OpDestroyVm n => destroy_vm n
  end.
Definition run_ops (l : list lv_op) : R () := forA perform_op l.

(** The volume a reference names. *)
Definition vol_ref (ref p n : string) : Prop := split_ref ref = Ok (p, n) ∧ good_name n.

(** What a caller owes: names the driver composes, sizes that are not negative. *)
Definition op_ok (o : lv_op) : Prop :=
  match o with
  | OpCreatePool n => good_name n
  | OpCreateSwitch _ n _ => good_name n
  | OpBlank ref gb => (∃ p n, vol_ref ref p n) ∧ (0 ≤ gb)%Z
  | OpWrite ref _ | OpResize ref _ | OpDeleteVol ref => ∃ p n, vol_ref ref p n
  | OpUpload ref size _ => (∃ p n, vol_ref ref p n) ∧ ∀ k, size = Ok k → (0 ≤ k)%Z
  | OpCreateVm q => request_ok q
  | _ => True
  end.

Definition lv_spec (o : lv_op) (v v' : Daemon) : Prop :=
  match o with
  | OpCreatePool n => ∃ x, drift (set_pools (<[n := x]> (pools v)) v) v'
  | OpDestroyPool n => drift (set_pools (delete n (pools v)) v) v'
  | OpCreateSwitch _ n _ => drift (set_nets ({[n]} ∪ nets v) ({[n]} ∪ nets_on v) v) v'
  | OpDestroySwitch n => drift (set_nets (nets v ∖ {[n]}) (nets_on v ∖ {[n]}) v) v'
  | OpBlank ref _ | OpResize ref _ => ∃ p n c, vol_ref ref p n ∧ is_Some (pools v !! p) ∧ drift (set_vol p n c v) v'
  | OpWrite ref data => ∃ p n rest, vol_ref ref p n ∧ is_Some (pools v !! p) ∧ drift (set_vol p n (data ++ rest) v) v' ∧
      (vol_format n = "raw" → data ≠ [] → rest = [])
  | OpUpload ref _ source => ∃ p n, vol_ref ref p n ∧ is_Some (pools v !! p) ∧
      if decide (is_Some (vol_of v p n)) then drift v v'
      else ∃ data rest, source = Ok data ∧ drift (set_vol p n (data ++ rest) v) v'
  | OpDeleteVol ref => ∃ p n, vol_ref ref p n ∧ drift (del_vol p n v) v'
  | OpCreateVm q => drift (set_doms ({[vr_name q]} ∪ doms v) (running v) v) v'
  | OpStartVm n => drift (set_doms (doms v) ({[n]} ∪ running v) v) v'
  | OpShutdownVm n _ => drift (set_doms (doms v) (running v ∖ {[n]}) v) v'
  | OpDestroyVm n => drift (set_doms (doms v ∖ {[n]}) (running v ∖ {[n]}) v) v'
  end.

Lemma okay_then_unit {A} (m : R A) P : okay m (λ v _ v', P v v') → okay (m;; mret ()) (λ v _ v', P v v').
Proof.
  intros Hm. eapply okay_weaken; [apply okay_bind; [exact Hm|intros ?; step]|]. by intros v [] v' (a & v1 & HP & _ & ->).
Qed.

Lemma good_name_prose n : good_name n → prose n.
Proof. intros H. eapply Forall_impl; [exact H|]. intros c Hc. each_char c; first [discriminate Hc|split; [reflexivity|discriminate]]. Qed.
Lemma vol_of_pool v p n : is_Some (vol_of v p n) → is_Some (pools v !! p).
Proof. unfold vol_of. destruct (pools v !! p); [by eexists|]. by intros [? [=]]. Qed.

Lemma upload_spec ref size source p n v v' :
  vol_ref ref p n →
  (is_Some (vol_of v p n) ∧ drift v v') ∨
    (is_Some (pools v !! p) ∧ vol_of v p n = None ∧ ∃ data rest, source = Ok data ∧ drift (set_vol p n (data ++ rest) v) v') →
  lv_spec (OpUpload ref size source) v v'.
Proof.
  intros Hr [[Hv Hd]|(Hp & Hv & H)]; exists p, n; (split; [done|]); (split; [by eauto using vol_of_pool|]); case_decide as Hx; try done.
  rewrite Hv in Hx. by destruct Hx.
Qed.

Lemma perform_op_spec o : op_ok o → okay (perform_op o) (λ v _ v', lv_spec o v v').
Proof.
  destruct o; cbn [op_ok perform_op]; intros Hok.
  - by apply okay_then_unit, create_pool_okay.
  - apply destroy_pool_okay.
  - by apply okay_then_unit, create_switch_okay, good_name_prose.
  - apply destroy_switch_okay.
  - destruct Hok as [(p & n & Hr) Hgb]. apply okay_then_unit. eapply okay_weaken; [by apply (create_blank_volume_okay ref _ p n); apply Hr || done|].
    intros v a v' [Hp [c Hc]]. by exists p, n, c.
  - destruct Hok as (p & n & Hr). apply okay_then_unit. eapply okay_weaken; [by apply (write_to_pool_okay ref _ p n); apply Hr|].
    intros v a v' (Hp & rest & Hd & Hraw). by exists p, n, rest.
  - destruct Hok as [(p & n & Hr) Hsize]. apply okay_then_unit.
    eapply okay_weaken; [by apply (upload_to_pool_okay ref size source p n); [apply Hr..|]|]. intros v a v' H. by eapply upload_spec.
  - destruct Hok as (p & n & Hr). apply okay_then_unit. eapply okay_weaken; [by apply (resize_volume_okay ref _ p n); apply Hr|].
    intros v a v' [Hv [c Hc]]. exists p, n, c. eauto using vol_of_pool.
  - destruct Hok as (p & n & Hr). eapply okay_weaken; [by apply (delete_volume_okay ref p n); apply Hr|]. intros v a v' H. by exists p, n.
  - by apply okay_then_unit, create_vm_okay.
  - apply start_vm_okay.
  - apply shutdown_vm_okay.
  - apply destroy_vm_okay.
Qed.
End Laws.
