(* ===== verification/LibvirtRun.v ===== *)
(** * Runs on libvirt

    What sequences of the driver's operations do to the daemon: they do what their
    specifications say, a run whose objects are all destroyed leaves nothing, a volume
    gives back what was written to it; a shutdown ends; teardown asks for nothing else;
    the streams of the transfers and of the console are ended once. *)

From S2P Require Import Prelude Exceptions Eff PyBytes Url Xml Conn Naming Ipv4 Devices Hypervisor Cleanup Context Remote Libvirt LibvirtSpec LibvirtLaws.
From stdpp Require Import options.

(** The composition of the specifications of a sequence of operations. *)
Fixpoint lv_steps (l : list lv_op) (v v' : Daemon) : Prop :=
  match l with [] => v' = v | o :: l => ∃ v1, lv_spec o v v1 ∧ lv_steps l v1 v' end.

Lemma lv_steps_app l1 l2 v v' : lv_steps (l1 ++ l2) v v' ↔ ∃ v1, lv_steps l1 v v1 ∧ lv_steps l2 v1 v'.
Proof.
  revert v. induction l1 as [|o l1 IH]; intros v; cbn.
  - split; [by exists v|]. by intros (v1 & -> & H).
  - setoid_rewrite IH. naive_solver.
Qed.

(** ** What an operation is about *)

Inductive key : Type := KPool (name : string) | KNet (name : string) | KDom (name : string).
Global Instance key_eq_dec : EqDecision key.
Proof. solve_decision. Defined.

Definition ref_pool (ref : string) : list key := match split_ref ref with Ok (p, _) => [KPool p] | Raise _ => [] end.
Definition op_keys (o : lv_op) : list key :=
  match o with
  | OpCreatePool n | OpDestroyPool n => [KPool n]
  | OpCreateSwitch _ n _ | OpDestroySwitch n => [KNet n]
  | OpBlank ref _ | OpWrite ref _ | OpUpload ref _ _ | OpResize ref _ | OpDeleteVol ref => ref_pool ref
  | OpCreateVm q => [KDom (vr_name q)]
  | OpStartVm n | OpShutdownVm n _ | OpDestroyVm n => [KDom n]
  end.
Definition op_destroys (o : lv_op) : option key :=
  match o with
  | OpDestroyPool n => Some (KPool n) | OpDestroySwitch n => Some (KNet n) | OpDestroyVm n => Some (KDom n) | _ => None
  end.

(** The daemon is the same at a key, or has nothing there. *)
Definition same_at (k : key) (v v' : Daemon) : Prop :=
  match k with
  | KPool n => pools v' !! n = pools v !! n
  | KNet n => (n ∈ nets v' ↔ n ∈ nets v) ∧ (n ∈ nets_on v' ↔ n ∈ nets_on v)
  | KDom n => (n ∈ doms v' ↔ n ∈ doms v) ∧ (n ∈ running v' → n ∈ running v)
  end.
Definition nothing_at (k : key) (v : Daemon) : Prop :=
  match k with
  | KPool n => pools v !! n = None
  | KNet n => n ∉ nets v ∧ n ∉ nets_on v
  | KDom n => n ∉ doms v ∧ n ∉ running v
  end.

Lemma same_at_refl k v : same_at k v v.
Proof. by destruct k. Qed.
Lemma same_at_trans k v1 v2 v3 : same_at k v1 v2 → same_at k v2 v3 → same_at k v1 v3.
Proof. destruct k; cbn; [congruence|naive_solver..]. Qed.
Lemma nothing_same k v v' : nothing_at k v → same_at k v v' → nothing_at k v'.
Proof. destruct k; cbn; [congruence|naive_solver..]. Qed.
Lemma nothing_both k v v' : nothing_at k v → nothing_at k v' → same_at k v v'.
Proof. destruct k; cbn; [congruence|naive_solver..]. Qed.

Lemma set_vol_same p f k v v' : k ≠ KPool p → drift (change_vols f p v) v' → same_at k v v'.
Proof.
  intros Hk Hd. unfold change_vols, set_pools, drift in Hd. cbn in Hd. destruct Hd as (H & H1 & H2 & H3 & H4 & _). destruct k as [n|n|n]; cbn.
  - rewrite H, lookup_alter_ne by congruence. done.
  - by rewrite H1, H2.
  - rewrite H3. set_solver.
Qed.
Lemma drift_same k v v' : drift v v' → same_at k v v'.
Proof. intros (H1 & H2 & H3 & H4 & H5 & H6). destruct k; cbn; [by rewrite H1|by rewrite H2, H3|rewrite H4; set_solver]. Qed.

(** An operation changes what it is about and nothing else. *)
Lemma lv_spec_frame o v v' k : lv_spec o v v' → k ∉ op_keys o → same_at k v v'.
Proof.
  assert (∀ ref p n, vol_ref ref p n → k ∉ ref_pool ref → k ≠ KPool p) as Href.
  { intros ref p n [Hr _]. unfold ref_pool. rewrite Hr. set_solver. }
  destruct o; cbn [lv_spec op_keys]; intros Hs Hk.
  - destruct Hs as [x Hs]. unfold set_pools, drift in Hs. cbn in Hs. destruct Hs as (H & H1 & H2 & H3 & H4 & _). destruct k as [n|n|n]; cbn.
    + rewrite H, lookup_insert_ne by set_solver. done.
    + by rewrite H1, H2.
    + rewrite H3. set_solver.
  - unfold set_pools, drift in Hs. cbn in Hs. destruct Hs as (H & H1 & H2 & H3 & H4 & _). destruct k as [n|n|n]; cbn.
    + rewrite H, lookup_delete_ne by set_solver. done.
    + by rewrite H1, H2.
    + rewrite H3. set_solver.
  - unfold set_nets, drift in Hs. cbn in Hs. destruct Hs as (H & H1 & H2 & H3 & H4 & _). destruct k as [n|n|n]; cbn; [by rewrite H|rewrite H1, H2; set_solver|rewrite H3; set_solver].
  - unfold set_nets, drift in Hs. cbn in Hs. destruct Hs as (H & H1 & H2 & H3 & H4 & _). destruct k as [n|n|n]; cbn; [by rewrite H|rewrite H1, H2; set_solver|rewrite H3; set_solver].
  - destruct Hs as (p & n & c & Hr & _ & Hd). eapply set_vol_same; [by eapply Href|exact Hd].
  - destruct Hs as (p & n & rest & Hr & _ & Hd & _). eapply set_vol_same; [by eapply Href|exact Hd].
  - destruct Hs as (p & n & Hr & _ & Hd). case_decide; [by apply drift_same|]. destruct Hd as (data & rest & _ & Hd).
    eapply set_vol_same; [by eapply Href|exact Hd].
  - destruct Hs as (p & n & c & Hr & _ & Hd). eapply set_vol_same; [by eapply Href|exact Hd].
  - destruct Hs as (p & n & Hr & Hd). eapply set_vol_same; [by eapply Href|exact Hd].
  - unfold set_doms, drift in Hs. cbn in Hs. destruct Hs as (H & H1 & H2 & H3 & H4 & _). destruct k as [n|n|n]; cbn; [by rewrite H|by rewrite H1, H2|rewrite H3; set_solver].
  - unfold set_doms, drift in Hs. cbn in Hs. destruct Hs as (H & H1 & H2 & H3 & H4 & _). destruct k as [n|n|n]; cbn; [by rewrite H|by rewrite H1, H2|rewrite H3; set_solver].
  - unfold set_doms, drift in Hs. cbn in Hs. destruct Hs as (H & H1 & H2 & H3 & H4 & _). destruct k as [n|n|n]; cbn; [by rewrite H|by rewrite H1, H2|rewrite H3; set_solver].
  - unfold set_doms, drift in Hs. cbn in Hs. destruct Hs as (H & H1 & H2 & H3 & H4 & _). destruct k as [n|n|n]; cbn; [by rewrite H|by rewrite H1, H2|rewrite H3; set_solver].
Qed.

Lemma lv_spec_destroys o v v' k : lv_spec o v v' → op_destroys o = Some k → nothing_at k v'.
Proof.
  destruct o; intros Hs [= <-]; cbn [lv_spec nothing_at] in *; unfold set_pools, set_nets, set_doms, drift in Hs; cbn in Hs; destruct Hs as (H & H1 & H2 & H3 & H4 & _).
  - rewrite H. apply lookup_delete_eq.
  - rewrite H1, H2. set_solver.
  - rewrite H3. set_solver.
Qed.

Lemma lv_steps_frame l v v' k : lv_steps l v v' → (∀ o, o ∈ l → k ∉ op_keys o) → same_at k v v'.
Proof.
  revert v. induction l as [|o l IH]; intros v; cbn; [intros ->; intros; apply same_at_refl|]. intros (v1 & H1 & H2) Hl.
  eapply same_at_trans; [eapply lv_spec_frame; [done|apply Hl; by left]|]. apply IH; [done|]. intros; apply Hl. by right.
Qed.

(** Every object a sequence is about is destroyed after its last use. *)
Definition all_destroyed (l : list lv_op) : Prop :=
  ∀ o k, o ∈ l → k ∈ op_keys o → ∃ l1 d l2, l = l1 ++ d :: l2 ∧ op_destroys d = Some k ∧ ∀ x, x ∈ l2 → k ∉ op_keys x.

Section Run.
Context {E : Type} {L : LibvirtApi E} {D : LvLaws E}.
Set Default Proof Using "Type".
Abbreviation W := (Remote lv_request (LvState E)).
Abbreviation R A := (act W A).

Lemma run_ops_steps l (s s' : W) : Forall op_ok l → run_ops l s = (Ok (), s') → lv_steps l (view s) (view s').
Proof.
  unfold run_ops, forA. intros Hok. revert s. induction Hok as [|o l Ho _ IH]; intros s; cbn [foldA lv_steps]; [by intros [= <-]|].
  intros [([] & s1 & H1 & H2)|(e & _ & [=])]%act_bind_inv. exists (view s1). split; [|by apply IH]. by apply (perform_op_spec o Ho s ()).
Qed.

(** C18: the driver implements its contract on a libvirt daemon.  Whenever a sequence of
    operations (pools, switches, volumes, domains, in any order) succeeds, what the daemon
    has afterwards is what the specifications of the operations, one after the other, say:
    each makes, fills, changes or removes exactly its own object, named by the document
    that was sent, and touches no other; only guests that stop on their own make a
    difference. *)
Theorem lv_refines l (s s' : W) :
  Forall op_ok l → run_ops l s = (Ok (), s') → lv_steps l (view s) (view s').
Proof. apply run_ops_steps. Qed.

(** C19: a run on libvirt leaves nothing behind.  When every operation of a run succeeded
    and each pool, switch and domain the run is about is destroyed after its last use, the
    daemon has the pools with their volumes, the networks and the domains it had before,
    no more and no less, and runs no domain it did not run. *)
Theorem lv_run_leaves_nothing l (s s' : W) :
  Forall op_ok l → all_destroyed l → (∀ o k, o ∈ l → k ∈ op_keys o → nothing_at k (view s)) →
  run_ops l s = (Ok (), s') →
  pools (view s') = pools (view s) ∧ nets (view s') = nets (view s) ∧ nets_on (view s') = nets_on (view s) ∧
  doms (view s') = doms (view s) ∧ running (view s') ⊆ running (view s).
Proof.
  intros Hok Hall Hnew Hrun. apply run_ops_steps in Hrun as Hs; [|done].
  assert (∀ k, same_at k (view s) (view s')) as Hsame.
  { intros k. destruct (decide (Exists (λ o, k ∈ op_keys o) l)) as [Hx|Hx].
    - apply Exists_exists in Hx as (o & Ho & Hk). destruct (Hall o k Ho Hk) as (l1 & d & l2 & -> & Hd & Hl2).
      apply lv_steps_app in Hs as (v1 & _ & v2 & H2 & H3). apply nothing_both; [by apply (Hnew o)|].
      eapply nothing_same; [by eapply lv_spec_destroys|]. by eapply lv_steps_frame.
    - eapply lv_steps_frame; [done|]. intros o Ho Hk. apply Hx, Exists_exists. eauto. }
  split_and!.
  - apply map_eq. intros n. apply (Hsame (KPool n)).
  - apply set_eq. intros n. apply (Hsame (KNet n)).
  - apply set_eq. intros n. apply (Hsame (KNet n)).
  - apply set_eq. intros n. apply (Hsame (KDom n)).
  - intros n. apply (Hsame (KDom n)).
Qed.

(** ** Fuel *)

Definition fuelled (e : exn) : bool := negb (bool_decide (exn_class e = OutOfFuel)).

(** The library never raises the exception that stands for a loop without fuel. *)
Record lv_sane : Prop := {
  sane_import (e : E) x : (lv_import e).1.1 = Raise x → fuelled x = true;
  sane_pool p (e : E) x : (lv_pool p e).1.1 = Raise x → fuelled x = true;
  sane_vol p n (e : E) x : (lv_vol p n e).1.1 = Raise x → fuelled x = true;
  sane_domain d (e : E) x : (lv_domain d e).1.1 = Raise x → fuelled x = true;
  sane_active d (e : E) x : (lv_domain_active d e).1.1 = Raise x → fuelled x = true;
  sane_state d (e : E) x : (lv_state d e).1.1 = Raise x → fuelled x = true;
  sane_stream (e : E) x : (lv_stream e).1.1 = Raise x → fuelled x = true;
  sane_asks st (e : E) x : (lv_asks st e).1.1 = Raise x → fuelled x = true;
  sane_piece st (e : E) x : (lv_piece st e).1.1 = Raise x → fuelled x = true;
  sane_define q (e : E) x : (lv_define q e).1.1 = Raise x → fuelled x = true;
  sane_change q (e : E) x : (lv_change q e).1.1 = Raise x → fuelled x = true;
}.
Hypothesis Hsane : lv_sane.

Lemma fuelled_call {A} q (o : ext_op E A) : (∀ e x, (o e).1.1 = Raise x → fuelled x = true) → within fuelled (rcall q (on_ext o) : R A).
Proof.
  intros Ho. apply within_call. intros s x. unfold on_ext. specialize (Ho (lv_ext s)). destruct (o (lv_ext s)) as [[r e] dt]. apply Ho.
Qed.
Lemma fuelled_throw {A} args : within fuelled (throw DriverError args : R A).
Proof. apply within_lift. by intros e [= <-]. Qed.
Lemma fuelled_throw_when t args : within fuelled (throw_when t DriverError args : R ()).
Proof. apply within_lift. unfold raise_if. destruct t; [|done]. by intros e [= <-]. Qed.
Lemma fuelled_update f : within fuelled (update f : R ()).
Proof. intros s r s' [= <- <-]. split; [cbn; lia|done]. Qed.
Lemma fuelled_catch {A} (m : R A) h k : within fuelled m → (∀ e, within fuelled (k e)) → within fuelled (catch m h k).
Proof. intros Hm Hk. eapply within_catch; [exact Hm|done|done]. Qed.

Ltac fuel := repeat match goal with
  | |- within _ (mret _) => apply within_ret
  | |- within _ (gets _) => apply within_gets
  | |- within _ (flag _) => apply within_gets
  | |- within _ (update _) => apply fuelled_update
  | |- within _ (throw _ _) => apply fuelled_throw
  | |- within _ (throw_when _ _ _) => apply fuelled_throw_when
  | |- within _ (request _) => apply fuelled_call, (sane_change Hsane)
  | |- within _ (define _) => apply fuelled_call, (sane_define Hsane)
  | |- within _ (ask _ lv_import) => apply fuelled_call, (sane_import Hsane)
  | |- within _ (ask _ (lv_pool _)) => apply fuelled_call, (sane_pool Hsane)
  | |- within _ (ask _ (lv_vol _ _)) => apply fuelled_call, (sane_vol Hsane)
  | |- within _ (ask _ (lv_domain _)) => apply fuelled_call, (sane_domain Hsane)
  | |- within _ (ask _ (lv_domain_active _)) => apply fuelled_call, (sane_active Hsane)
  | |- within _ (ask _ lv_stream) => apply fuelled_call, (sane_stream Hsane)
  | |- within _ (_ ≫= _) => apply within_bind; [|intros ?]
  | |- within _ (catch _ _ _) => apply fuelled_catch; [|intros ?]
  | |- within _ (if ?t then _ else _) => destruct t
  end.

Lemma fuelled_import : within fuelled (import_libvirt : R ()).
Proof using Hsane. unfold import_libvirt, route_libvirt_errors_to_log. fuel. Qed.
Lemma fuelled_lookup_domain d : within fuelled (lookup_domain d : R bool).
Proof using Hsane. unfold lookup_domain, absent_on, raw. apply within_bind; [apply fuelled_import|intros ?]. fuel. Qed.
Lemma fuelled_lookup_volume p n : within fuelled (lookup_volume p n : R bool).
Proof using Hsane.
  unfold lookup_volume, lookup_pool, absent_on, raw. apply within_bind; [apply fuelled_import|intros ?].
  apply within_bind; [apply within_bind; [apply fuelled_import|intros ?]; fuel|intros ?]. fuel.
Qed.

(** The loop of a shutdown ends within its rounds: each sleeps a second. *)
Lemma fuelled_shutdown_rounds n timeout start d (s : W) r s' :
  (start ≤ rm_clock s)%Z → (timeout ≤ rm_clock s - start + POLL_INTERVAL * (Z.of_nat n - 1))%Z → 0 < n →
  shutdown_rounds n timeout start d s = (r, s') → (rm_clock s ≤ rm_clock s')%Z ∧ ∀ e, r = Raise e → fuelled e = true.
Proof using Hsane.
  revert s. induction n as [|n IH]; intros s Hst Hlt Hn; [lia|]. cbn [shutdown_rounds]. rewrite act_bind_gets. case_decide as Ht.
  - intros [(st & s1 & H1 & H2)|(e & H1 & ->)]%act_bind_inv; apply (fuelled_call _ _ (sane_state Hsane d)) in H1 as [Hc He].
    + case_decide; [injection H2 as <- <-; split; [done|discriminate]|].
      apply act_bind_inv in H2 as [([] & s2 & H2 & H3)|(e & H2 & ->)]; unfold rsleep in H2; destruct (oversleep _ _) as [x e']; [|discriminate].
      injection H2 as <-. unfold POLL_INTERVAL in *. apply IH in H3; cbn [rm_clock] in *; [split; [lia|apply H3]|lia|lia|]. destruct n; lia.
    + split; [done|]. intros e' [= <-]. by apply He.
  - intros [= <- <-]. split; [done|discriminate].
Qed.

(** C23: a shutdown ends, with the domain off.  For any timeout the wait is over after as
    many rounds as it has seconds; whenever [shutdown_vm] returns, the domain no longer
    runs (it shut down, or was stopped after the timeout) and is still defined; what it
    raises instead was raised by the library or is [DriverError]. *)
Theorem lv_shutdown_ends d timeout (s : W) r s' :
  (0 ≤ timeout)%Z → shutdown_vm d timeout s = (r, s') →
  match r with
  | Ok _ => d ∉ running (view s') ∧ doms (view s') = doms (view s)
  | Raise e => fuelled e = true
  end.
Proof using Hsane.
  intros Ht H. destruct r as [[]|e].
  - apply (shutdown_vm_okay d timeout) in H. unfold set_doms, drift in H. cbn in H. destruct H as (_ & _ & _ & H3 & H4 & _). set_solver.
  - unfold shutdown_vm in H. apply act_bind_inv in H as [([] & s1 & _ & H)|(x & H & [= <-])]; [|by apply fuelled_import in H as [_ H]; apply H].
    apply act_bind_inv in H as [([] & s2 & _ & H)|(x & H & [= <-])].
    2:{ assert (within fuelled (resolve_domain d : R ())) as Hr.
        { unfold resolve_domain. apply within_bind; [apply fuelled_lookup_domain|intros ?; fuel]. }
        apply Hr in H as [_ H]. by apply H. }
    apply act_bind_inv in H as [(t & s3 & _ & H)|(x & H & [= <-])]; [|by apply (fuelled_call _ _ (sane_active Hsane d)) in H as [_ H]; apply H].
    destruct t; [|discriminate].
    apply act_bind_inv in H as [([] & s4 & _ & H)|(x & H & [= <-])]; [|by apply (fuelled_call _ _ (sane_change Hsane _)) in H as [_ H]; apply H].
    rewrite act_bind_gets in H. apply act_bind_inv in H as [(off & s5 & _ & H)|(x & H & [= <-])].
    + destruct off; [discriminate|].
      assert (within fuelled (active ← ask "isActive" (lv_domain_active d); if (active : bool) then request (StopDomain d) else mret () : R ())) as Hr
        by fuel.
      apply Hr in H as [_ H]. by apply H.
    + apply fuelled_shutdown_rounds in H as [_ H]; [by apply H|lia| |unfold shutdown_fuel; lia].
      unfold shutdown_fuel, POLL_INTERVAL. pose proof (Z.mul_succ_div_gt timeout 1000 ltac:(lia)).
      pose proof (Z.div_pos timeout 1000 Ht ltac:(lia)). lia.
Qed.

(** A download takes at most one round more than there are bytes. *)
Lemma fuelled_recv_all n st got (s : W) x e s' :
  streams (view s) !! st = Some x → length (st_bytes x) < n → recv_all n st got s = (Raise e, s') → fuelled e = true.
Proof using Hsane.
  revert got s x. induction n as [|n IH]; intros got s x Hx Hn; [lia|]. cbn [recv_all].
  intros [(c & s1 & H1 & H2)|(e' & H1 & [= <-])]%act_bind_inv; [|by apply (fuelled_call _ _ (sane_piece Hsane st)) in H1 as [_ H]; apply H].
  destruct c as [|c cs]; [discriminate|]. unfold ask, rcall, on_ext in H1.
  destruct (lv_piece st (lv_ext (rm_ext s))) as [[r e1] dt] eqn:Hp. injection H1 as -> <-.
  apply law_piece in Hp as (y & rest & Hy & Hb & _ & Hd). unfold view in Hx. rewrite Hx in Hy. injection Hy as <-.
  eapply (IH _ _ (MkStream (st_up x) (st_pool x) (st_vol x) rest)); [| |exact H2].
  - unfold view. cbn [rm_ext lv_ext set_ext]. destruct Hd as (_ & _ & _ & _ & _ & ->). apply lookup_insert_eq.
  - cbn [st_bytes]. rewrite Hb, length_app in Hn. cbn [length] in Hn. lia.
Qed.

Lemma fuelled_download rounds ref p n (s : W) e s' :
  split_ref ref = Ok (p, n) → (∀ c, vol_of (view s) p n = Some c → length c < rounds) →
  download_from_pool rounds ref (Ok ()) s = (Raise e, s') → fuelled e = true.
Proof using Hsane.
  intros Href Hlen. unfold download_from_pool. rewrite Href.
  intros [([p' n'] & s0 & [= <- <- <-] & H)|(x & [=] & _)]%act_bind_inv.
  apply act_bind_inv in H as [(t & s1 & H1 & H)|(x & H & [= <-])]; [|by apply fuelled_lookup_volume in H as [_ H]; apply H].
  apply okay_lookup_volume in H1 as [Hd1 ->].
  apply act_bind_inv in H as [([] & s2 & [= Hf <-] & H)|(x & H & [= <-])]; [|by apply fuelled_throw_when in H as [_ H]; apply H].
  apply raise_if_Ok, negb_false_iff, bool_decide_eq_true in Hf as [c Hc].
  rewrite (act_bind_Ok _ _ s1 () s1) in H by done. unfold stream_out in H.
  apply act_bind_inv in H as [([] & s2 & H2%okay_raw & H)|(x & H & [= <-])].
  2:{ assert (within fuelled (raw : R ())) as Hr by (unfold raw; fuel). apply Hr in H as [_ H]. by apply H. }
  apply act_bind_inv in H as [(st & s3 & H3 & H)|(x & H & [= <-])]; [|by apply (fuelled_call _ _ (sane_stream Hsane)) in H as [_ H]; apply H].
  apply (okay_ask _ _ _ law_stream) in H3 as [Hd3 _].
  apply act_bind_inv in H as [([] & s4 & H4 & H)|(x & H & [= <-])]; [|by apply (fuelled_call _ _ (sane_change Hsane _)) in H as [_ H]; apply H].
  apply okay_request in H4. cbn [effect] in H4.
  assert (vol_of (view s3) p n = Some c) as Hc3.
  { unfold vol_of in *. by rewrite (drift_pools _ _ Hd3), H2, (drift_pools _ _ Hd1). }
  rewrite Hc3 in H4. destruct H4 as (_ & _ & _ & _ & _ & H4).
  unfold over_stream, catch in H.
  destruct ((a ← recv_all rounds st []; request (Finish st);; mret a : R bytes) s4) as [[a|x] s5] eqn:Hm; [discriminate|].
  apply act_bind_inv in H as [([] & s6 & _ & [= <- _])|(y & H & [= <-])]; [|by apply (fuelled_call _ _ (sane_change Hsane _)) in H as [_ H]; apply H].
  apply act_bind_inv in Hm as [(a & s7 & _ & Hm)|(y & Hm & [= <-])].
  - assert (within fuelled (request (Finish st);; mret a : R bytes)) as Hr by fuel. apply Hr in Hm as [_ Hm]. by apply Hm.
  - eapply (fuelled_recv_all _ _ _ _ (MkStream false p n c)); [|by apply Hlen|exact Hm]. rewrite H4. apply lookup_insert_eq.
Qed.

(** C22: a volume gives back what was written to it.  After any operations that are not
    about its pool, downloading a volume that was written ends (it takes one round more
    than there are bytes) and the bytes begin with the data; an image, which is created
    with the size of its data, is the data exactly.  What a transfer raises instead is
    raised by the library. *)
Theorem lv_volume_roundtrip ref p n data l rounds (s : W) a s1 s2 r s3 :
  vol_ref ref p n → write_to_pool ref data s = (Ok a, s1) →
  Forall op_ok l → (∀ o, o ∈ l → KPool p ∉ op_keys o) → run_ops l s1 = (Ok (), s2) →
  (∀ c, vol_of (view s2) p n = Some c → length c < rounds) →
  download_from_pool rounds ref (Ok ()) s2 = (r, s3) →
  match r with
  | Ok got => data `prefix_of` got ∧ (vol_format n = "raw" → data ≠ [] → got = data)
  | Raise e => fuelled e = true
  end.
Proof using Hsane.
  intros [Hr Hn] Hw Hl Hk Hrun Hlen Hd. destruct r as [got|e]; [|by eapply fuelled_download].
  apply (write_to_pool_okay ref data p n Hr Hn) in Hw as (Hp & rest & Hset & Hraw).
  apply run_ops_steps in Hrun; [|done]. apply (lv_steps_frame _ _ _ (KPool p)) in Hrun; [|done]. cbn in Hrun.
  apply (download_okay rounds ref (Ok ()) p n Hr) in Hd as [Hg _]. unfold vol_of in Hg. rewrite Hrun in Hg.
  fold (vol_of (view s1) p n) in Hg. rewrite (vol_of_set _ _ _ _ _ Hp Hset) in Hg. injection Hg as <-.
  split; [by eexists|]. intros Hf Hne. by rewrite Hraw, app_nil_r.
Qed.
End Run.

(** ** What is asked of the daemon *)

Section Trace.
Context {E : Type} {L : LibvirtApi E}.
Set Default Proof Using "Type".
Abbreviation W := (Remote lv_request (LvState E)).
Abbreviation R A := (act W A).

Definition is_change (q : lv_request) : bool := match q with Asked _ | RegisterHandler => false | _ => true end.
Abbreviation changes := (changes_of (E:=LvState E) is_change).
Abbreviation emits := (emits_on (E:=LvState E) is_change).

Lemma emits_call {A} q (o : ext_op E A) :
  emits (rcall q (on_ext o)) (λ r l, l = (if is_change q then [q] else []) ∧ ∃ e e' dt, o e = (r, e', dt)).
Proof.
  eapply emits_weaken; [apply emits_rcall|]. intros r l [-> (s & s' & dt & H)]. split; [done|]. unfold on_ext in H.
  destruct (o (lv_ext s)) as [[r0 e] dt0] eqn:Ho. injection H as -> _ _. eauto.
Qed.
Lemma emits_ask {A} what (o : ext_op E A) : emits (ask what o) (λ r l, l = [] ∧ ∃ e e' dt, o e = (r, e', dt)).
Proof. apply (emits_call (Asked what) o). Qed.
Lemma emits_request q : is_change q = true → emits (request q : R ()) (λ r l, l = [q]).
Proof. intros Hq. eapply emits_weaken; [apply (emits_call q (lv_change q))|]. cbn. rewrite Hq. by intros r l [-> _]. Qed.
Lemma emits_update f : emits (update f : R ()) (λ r l, r = Ok () ∧ l = []).
Proof. intros s x s' [= <- <-]. exists []. by rewrite app_nil_r. Qed.

(** Programs that only ask. *)
Definition silent {A} (m : R A) : Prop := emits m (λ _ l, l = []).
Lemma hush_bind {A B} (m : R A) (k : A → R B) : silent m → (∀ a, silent (k a)) → silent (m ≫= k).
Proof.
  intros Hm Hk. eapply emits_weaken; [apply emits_bind; [exact Hm|exact Hk]|]. by intros r l [(a & l1 & l2 & -> & -> & ->)|(e & -> & ->)].
Qed.
Lemma silent_import : silent import_libvirt.
Proof.
  unfold import_libvirt, route_libvirt_errors_to_log, flag. apply hush_bind; [|intros _; apply hush_bind; [|intros []]].
  - eapply emits_weaken; [apply emits_catch; [apply emits_ask|intros e; apply emits_lift]|].
    intros r l [[[-> _] _]|(e & l1 & l2 & _ & [-> _] & [_ ->] & ->)]; done.
  - eapply emits_weaken; [apply emits_gets|]. by intros r l [_ ->].
  - eapply emits_weaken; [apply emits_ret|]. by intros r l [_ ->].
  - apply hush_bind; [|intros []; eapply emits_weaken; [apply emits_update|]; by intros r l [_ ->]].
    eapply emits_weaken; [apply (emits_call RegisterHandler)|]. by intros r l [-> _].
Qed.

(** A lookup that fails with the code of absence: the library said so. *)
Definition told_absent (o : ext_op E ()) (c : lv_code) : Prop := ∃ e x e' dt, o e = (Raise x, e', dt) ∧ lv_error (E:=E) x = Some c.

Hypothesis driver_error_code : ∀ args, lv_error (E:=E) (Exn DriverError args) = None.

Lemma absent_emits what o c (pre : R ()) :
  emits pre (λ r l, l = [] ∧ ∀ e, r = Raise e → lv_error (E:=E) e = None) →
  emits (absent_on c (pre;; ask what o)) (λ r l, l = [] ∧ (r = Ok false → told_absent o c)).
Proof.
  intros Hpre. eapply emits_weaken.
  - apply emits_catch; [|intros e; apply emits_ret]. apply emits_bind; [|intros ?; apply emits_ret].
    apply emits_bind; [exact Hpre|intros ?; apply emits_ask].
  - intros r l [[H _]|(e & l1 & l2 & Hc & H & [-> ->] & ->)].
    + destruct H as [(a & l1 & l2 & [(u & l3 & l4 & [-> _] & [-> _] & ->)|(e & _ & [=])] & [-> ->] & ->)|(e & [(u & l3 & l4 & [-> _] & [-> _] & ->)|(e' & [-> _] & _)] & ->)];
        (split; [done|discriminate]).
    + apply bool_decide_eq_true in Hc. destruct H as [(a & l3 & l4 & _ & [[=] _] & _)|(e' & H & [= <-])].
      destruct H as [(u & l3 & l4 & [-> _] & [-> Ho] & ->)|(e' & [-> He] & [= <-])].
      * split; [done|]. intros _. destruct Ho as (x0 & x1 & dt & Ho). by exists x0, e, x1, dt.
      * rewrite He in Hc by done. done.
Qed.

Lemma raw_emits : emits (raw : R ()) (λ r l, l = [] ∧ ∀ e, r = Raise e → lv_error (E:=E) e = None).
Proof using driver_error_code.
  unfold raw, flag. eapply emits_weaken; [apply emits_bind; [apply emits_gets|intros t; apply emits_throw_when]|].
  intros r l [(t & l1 & l2 & [_ ->] & [-> ->] & ->)|(e & [[=] _] & _)]. split; [done|]. intros e. destruct t; [discriminate|].
  by intros [= <-].
Qed.
Lemma import_then {A} (m : R A) P : (∀ e, P (Raise e) []) → emits m P → emits (import_libvirt;; m) P.
Proof.
  intros Hr Hm. eapply emits_weaken; [apply emits_bind; [apply silent_import|intros ?; exact Hm]|].
  intros r l [(a & l1 & l2 & -> & H & ->)|(e & -> & ->)]; [done|apply Hr].
Qed.
Lemma lookup_emits what o c :
  emits (import_libvirt;; absent_on c (raw;; ask what o)) (λ r l, l = [] ∧ (r = Ok false → told_absent o c)).
Proof using driver_error_code. apply import_then; [done|]. apply absent_emits, raw_emits. Qed.
Lemma absent_emits_ask what o c : emits (absent_on c (ask what o)) (λ r l, l = [] ∧ (r = Ok false → told_absent o c)).
Proof.
  intros s r s' H. apply (absent_emits what o c (mret ()) ltac:(eapply emits_weaken; [apply emits_ret|]; by intros x l [-> ->]) s r s'). exact H.
Qed.
Lemma lookup_volume_emits p n :
  emits (lookup_volume p n) (λ r l, l = [] ∧ (r = Ok false → told_absent (lv_pool p) NO_STORAGE_POOL ∨ told_absent (lv_vol p n) NO_STORAGE_VOL)).
Proof using driver_error_code.
  unfold lookup_volume. apply import_then; [done|]. eapply emits_weaken; [apply emits_bind; [apply lookup_emits|]|].
  - intros t. instantiate (1 := λ t r l, l = [] ∧ (r = Ok false → t = false ∨ told_absent (lv_vol p n) NO_STORAGE_VOL)).
    destruct t; (eapply emits_weaken; [apply absent_emits_ask||apply emits_ret|]); naive_solver.
  - intros r l [(t & l1 & l2 & [-> Ha] & [-> Hb] & ->)|(e & [-> _] & ->)]; [|done]. split; [done|]. intros Hr.
    destruct (Hb Hr) as [->|?]; [left; by apply Ha|by right].
Qed.

(** One change after a question about it. *)
Lemma if_request (t : bool) q : is_change q = true → emits (if t then request q else mret () : R ()) (λ r l, l = if t then [q] else []).
Proof. intros Hq. destruct t; (eapply emits_weaken; [by apply emits_request||apply emits_ret|]); [done|]. by intros r l [_ ->]. Qed.

(** The question was answered with no. *)
Definition told_no (o : ext_op E bool) : Prop := ∃ e e' dt, o e = (Ok false, e', dt).

(** The requests a teardown may make about an object. *)
Definition about (k : key) (q : lv_request) : Prop :=
  match k, q with
  | KPool n, (DeleteVol p _ | StopPool p | DeletePool p | UndefinePool p) => p = n
  | KNet n, (StopNet p | UndefineNet p) => p = n
  | KDom n, (StopDomain p | UndefineDomain p) => p = n
  | _, _ => False
  end.

Lemma delete_vols_emits n vols :
  emits (forA (λ vol, request (DeleteVol n vol)) vols : R ())
    (λ r l, Forall (about (KPool n)) l ∧ (r = Ok () → l = DeleteVol n <$> vols)).
Proof.
  unfold forA. induction vols as [|v vols IH]; cbn [foldA].
  - eapply emits_weaken; [apply emits_ret|]. by intros r l [-> ->].
  - eapply emits_weaken; [apply emits_bind; [by apply emits_request|intros ?; instantiate (1 := λ _ r l, Forall (about (KPool n)) l ∧ (r = Ok () → l = DeleteVol n <$> vols)); by destruct a]|].
    intros r l [(u & l1 & l2 & -> & [H1 H2] & ->)|(e & -> & ->)].
    + split; [by constructor|]. intros Hr. by rewrite (H2 Hr).
    + split; [by repeat constructor|done].
Qed.

Lemma two_requests q1 q2 :
  is_change q1 = true → is_change q2 = true →
  emits (request q1;; request q2 : R ()) (λ r l, (r = Ok () → l = [q1; q2]) ∧ (l = [q1] ∨ l = [q1; q2])).
Proof.
  intros H1 H2. eapply emits_weaken; [apply emits_bind; [by apply emits_request|intros ?; by apply emits_request]|].
  intros r l [(u & l1 & l2 & -> & -> & ->)|(e & -> & ->)]; [split; [done|by right]|split; [done|by left]].
Qed.
Definition teardown (k : key) : R () :=
  match k with KPool n => destroy_pool n | KNet n => destroy_switch n | KDom n => destroy_vm n end.

(** The library did not know the object of the key. *)
Definition told_gone (k : key) : Prop :=
  match k with
  | KPool n => told_absent (lv_pool n) NO_STORAGE_POOL
  | KNet n => told_absent (lv_network n) NO_NETWORK
  | KDom n => told_absent (lv_domain n) NO_DOMAIN
  end.

(** The requests that take down an object that is there. *)
Definition taken_down (k : key) (l : list lv_request) : Prop :=
  match k with
  | KPool n => ∃ vols (t : bool), (∃ (e e' : E) dt, lv_volumes n e = (Ok vols, e', dt)) ∧ (t = false → told_no (lv_pool_active n)) ∧
      l = (DeleteVol n <$> vols) ++ (if t then [StopPool n] else []) ++ [DeletePool n; UndefinePool n]
  | KNet n => ∃ t u : bool, (t = false → told_no (lv_net_active n)) ∧ (u = false → told_no (lv_net_persistent n)) ∧
      l = (if t then [StopNet n] else []) ++ (if u then [UndefineNet n] else [])
  | KDom n => ∃ t : bool, (t = false → told_no (lv_domain_active n)) ∧
      l = (if t then [StopDomain n] else []) ++ [UndefineDomain n]
  end.

Definition torn_down (k : key) (r : res ()) (l : list lv_request) : Prop :=
  Forall (about k) l ∧ (r = Ok () → (l = [] ∧ told_gone k) ∨ taken_down k l).

(** A lookup, then what there is to do. *)
Lemma look_then k (look : R bool) (todo : R ()) :
  emits look (λ r l, l = [] ∧ (r = Ok false → told_gone k)) →
  emits todo (λ r l, Forall (about k) l ∧ (r = Ok () → taken_down k l)) →
  emits (there ← look; if (there : bool) then todo else mret ()) (torn_down k).
Proof.
  intros Hl Ht. eapply emits_weaken.
  - apply emits_bind; [exact Hl|intros t].
    instantiate (1 := λ t r l, Forall (about k) l ∧ (r = Ok () → if (t : bool) then taken_down k l else l = [])).
    destruct t; [exact Ht|]. eapply emits_weaken; [apply emits_ret|]. by intros r l [-> ->].
  - intros r l [(t & l1 & l2 & [-> Hg] & [Ha Hd] & ->)|(e & [-> _] & ->)]; [|by split].
    split; [done|]. intros Hr. specialize (Hd Hr). destruct t; [by right|left; split; [done|by apply Hg]].
Qed.

(** A guarded request: skipped only when the answer was no. *)
Lemma guarded_emits what (o : ext_op E bool) q :
  is_change q = true →
  emits (t ← ask what o; if (t : bool) then request q else mret ())
    (λ r l, (l = [] ∨ l = [q]) ∧ (r = Ok () → ∃ t : bool, (t = false → told_no o) ∧ l = if t then [q] else [])).
Proof.
  intros Hq. eapply emits_weaken; [apply emits_bind; [apply emits_ask|intros t; by apply if_request]|].
  intros r l [(t & l1 & l2 & [-> Ho] & -> & ->)|(e & [-> _] & ->)]; [|split; [by left|done]].
  split; [destruct t; eauto|]. intros _. exists t. split; [intros ->; exact Ho|done].
Qed.
(** A guarded request before the rest. *)
Lemma guarded_then k what (o : ext_op E bool) q (rest : R ()) (P : list lv_request → Prop) :
  is_change q = true → about k q → emits rest (λ r l, Forall (about k) l ∧ (r = Ok () → P l)) →
  emits (t ← ask what o; (if (t : bool) then request q else mret ());; rest)
    (λ r l, Forall (about k) l ∧ (r = Ok () → ∃ (t : bool) l2, (t = false → told_no o) ∧ P l2 ∧ l = (if t then [q] else []) ++ l2)).
Proof.
  intros Hq Ha Hrest. apply emits_assoc. eapply emits_weaken; [apply emits_bind; [by apply guarded_emits|intros ?; exact Hrest]|].
  assert (∀ l, l = [] ∨ l = [q] → Forall (about k) l) as Hab by (intros ? [->| ->]; by repeat constructor).
  intros r l [(u & l1 & l2 & [H1 Ht] & [H2 Hp] & ->)|(e & [H1 _] & ->)]; [|split; [by apply Hab|done]].
  split; [apply Forall_app; split; [by apply Hab|done]|]. intros Hr. destruct u. destruct (Ht eq_refl) as (t & Hno & ->). exists t, l2. auto.
Qed.

Lemma destroy_vm_emits n : emits (destroy_vm n) (torn_down (KDom n)).
Proof using driver_error_code.
  unfold destroy_vm. apply import_then; [intros e; by split|]. apply look_then; [apply lookup_emits|].
  eapply emits_weaken; [apply (guarded_then (KDom n)); [done|done|]|].
  - instantiate (1 := λ l, l = [UndefineDomain n]). eapply emits_weaken; [by apply emits_request|]. intros r l ->. split; [by repeat constructor|done].
  - intros r l [Hf H]. split; [done|]. intros Hr. destruct (H Hr) as (t & l2 & Hno & -> & ->). by exists t.
Qed.

Lemma destroy_switch_emits n : emits (destroy_switch n) (torn_down (KNet n)).
Proof using driver_error_code.
  unfold destroy_switch. apply look_then; [apply lookup_emits|].
  eapply emits_weaken; [apply (guarded_then (KNet n)); [done|done|]|].
  - instantiate (1 := λ l, ∃ u : bool, (u = false → told_no (lv_net_persistent n)) ∧ l = if u then [UndefineNet n] else []).
    eapply emits_weaken; [by apply guarded_emits|]. intros r l [[->| ->] H]; (split; [by repeat constructor|exact H]).
  - intros r l [Hf H]. split; [done|]. intros Hr. destruct (H Hr) as (t & l2 & Hno & (u & Hu & ->) & ->). by exists t, u.
Qed.

Lemma destroy_pool_emits n : emits (destroy_pool n) (torn_down (KPool n)).
Proof using driver_error_code.
  unfold destroy_pool. apply look_then; [apply lookup_emits|].
  eapply emits_weaken; [apply emits_bind; [apply emits_ask|intros vols]; apply emits_bind; [apply delete_vols_emits|intros ?]|].
  - apply (guarded_then (KPool n)); [done|done|]. instantiate (1 := λ l, l = [DeletePool n; UndefinePool n]).
    eapply emits_weaken; [by apply two_requests|]. intros r l [H1 [->| ->]]; (split; [by repeat constructor|exact H1]).
  - intros r l [(vols & l1 & l2 & [-> Ho] & H & ->)|(e & [-> _] & ->)]; [|by split].
    destruct H as [(u & l3 & l4 & [H3 H3'] & [H4 H4'] & ->)|(e & [H _] & ->)]; [|by split].
    split; [rewrite app_nil_l; apply Forall_app; by split|]. intros Hr. destruct u. destruct (H4' Hr) as (t & l5 & Hno & -> & ->). rewrite (H3' eq_refl). by exists vols, t.
Qed.

(** C20: a teardown does all of its work or is told there is none.  Whatever the library
    answers, a destroy of a domain, network or pool asks for nothing about another object;
    when it returns, either the library answered the lookup with the code of absence and
    nothing was changed, or the object was stopped (unless the library said it was not
    active), a pool's every listed volume was deleted before it, and it was undefined (a
    network unless the library said it was not persistent).  Every other error of the
    library leaves the teardown as an exception. *)
Theorem lv_teardown_exact k (s : W) r s' :
  teardown k s = (r, s') →
  ∃ l, changes s' = changes s ++ l ∧ Forall (about k) l ∧ (r = Ok () → (l = [] ∧ told_gone k) ∨ taken_down k l).
Proof using driver_error_code.
  intros H. destruct k as [n|n|n]; [eapply destroy_pool_emits|eapply destroy_switch_emits|eapply destroy_vm_emits]; exact H.
Qed.
End Trace.

(** ** A libvirt daemon

    A small daemon that satisfies [LvLaws], and runs of the driver on it: the hypotheses
    of the theorems about libvirt hold together. *)

Module LibvirtDemo.

Definition fail {A} (why : string) (v : Daemon) : res A * Daemon * nat := (Raise (Exn OSError [why]), v, 1).
Definition give {A} (a : A) (v : Daemon) : res A * Daemon * nat := (Ok a, v, 1).
Definition seek (there : bool) (why : string) (v : Daemon) : res () * Daemon * nat := if there then give () v else fail why v.

Definition fresh_stream (v : Daemon) : nat := fresh (dom (streams v)).

Definition hand_out (st : nat) (v : Daemon) : res bytes * Daemon * nat :=
  match streams v !! st with
  | Some x => give (take 3 (st_bytes x)) (set_streams (<[st := MkStream (st_up x) (st_pool x) (st_vol x) (drop 3 (st_bytes x))]> (streams v)) v)
  | None => fail "stream" v
  end.

Definition roomy (x : text) : bool := match raw_capacity x with Some k => (0 <=? k)%Z | None => true end.

Definition define_object (q : lv_request) (v : Daemon) : res string * Daemon * nat :=
  match q with
  | DefinePool x => match named_in x with Some n => give n (set_pools (<[n := MkPool false ∅]> (pools v)) v) | None => fail "xml" v end
  | CreateVol p x =>
      match named_in x with
      | Some n => if roomy x then give n (set_vol p n [] v) else fail "xml" v
      | None => fail "xml" v
      end
  | DefineNet x => match named_in x with Some n => give n (set_nets ({[n]} ∪ nets v) (nets_on v) v) | None => fail "xml" v end
  | DefineDomain x => match named_in x with Some n => give n (set_doms ({[n]} ∪ doms v) (running v) v) | None => fail "xml" v end
  | _ => fail "define" v
  end.

Definition change_object (q : lv_request) (v : Daemon) : res () * Daemon * nat :=
  match q with
  | StartPool p => give () (set_on true p v)
  | StopPool p => give () (set_on false p v)
  | UndefinePool p => give () (set_pools (delete p (pools v)) v)
  | DeleteVol p n => give () (del_vol p n v)
  | ResizeVol p n _ => match vol_of v p n with Some c => give () (set_vol p n c v) | None => fail "vol" v end
  | StartNet n => give () (set_nets (nets v) ({[n]} ∪ nets_on v) v)
  | StopNet n => give () (set_nets (nets v) (nets_on v ∖ {[n]}) v)
  | UndefineNet n => give () (set_nets (nets v ∖ {[n]}) (nets_on v) v)
  | StartDomain d => give () (set_doms (doms v) ({[d]} ∪ running v) v)
  | StopDomain d => give () (set_doms (doms v) (running v ∖ {[d]}) v)
  | UndefineDomain d => give () (set_doms (doms v ∖ {[d]}) (running v) v)
  | Upload st p n _ => give () (set_streams (<[st := MkStream true p n []]> (streams v)) v)
  | Download st p n => give () (set_streams (<[st := MkStream false p n (default [] (vol_of v p n))]> (streams v)) v)
  | Send st chunk => give () (set_streams (alter (λ x, MkStream (st_up x) (st_pool x) (st_vol x) (st_bytes x ++ chunk)) st (streams v)) v)
  | Finish st =>
      match streams v !! st with
      | Some x => give () (set_streams (delete st (streams v)) (flushed x v))
      | None => fail "stream" v
      end
  | _ => give () v
  end.

Definition code_of (e : exn) : option lv_code :=
  match exn_args e with
  | [why] => if decide (exn_class e ≠ OSError) then None
             else if decide (why = "pool") then Some NO_STORAGE_POOL else if decide (why = "vol") then Some NO_STORAGE_VOL
             else if decide (why = "domain") then Some NO_DOMAIN else if decide (why = "network") then Some NO_NETWORK else Some OTHER_CODE
  | _ => None
  end.

#[local] Instance daemon_sleeper : Sleeper Daemon := λ _ v, (0, v).
#[local] Instance daemon_api : LibvirtApi Daemon := {
  lv_import := give ();
  lv_open _ := give true;
  lv_pool p v := seek (bool_decide (is_Some (pools v !! p))) "pool" v;
  lv_vol p n v := seek (bool_decide (is_Some (vol_of v p n))) "vol" v;
  lv_domain d v := seek (bool_decide (d ∈ doms v ∪ running v)) "domain" v;
  lv_network n v := seek (bool_decide (n ∈ nets v ∪ nets_on v)) "network" v;
  lv_snapshot _ _ := fail "snapshot";
  lv_volumes p v := give (elements (dom (default ∅ (pl_vols <$> pools v !! p)))) v;
  lv_pool_active p v := give (default false (pl_on <$> pools v !! p)) v;
  lv_net_active n v := give (bool_decide (n ∈ nets_on v)) v;
  lv_net_persistent n v := give (bool_decide (n ∈ nets v)) v;
  lv_domain_active d v := give (bool_decide (d ∈ running v)) v;
  lv_bridge _ := give "virbr0";
  lv_vol_path p n v := if decide (printable (p +:+ "/" +:+ n)) then give (p +:+ "/" +:+ n) v else fail "path" v;
  lv_state d v := give (if decide (d ∈ running v) then DOMAIN_RUNNING else DOMAIN_SHUTOFF) v;
  lv_snapshots _ := give [];
  lv_snapshot_xml _ _ := give [];
  lv_info := give (4096, 4)%Z;
  lv_define := define_object;
  lv_change := change_object;
  lv_stream v := give (fresh_stream v) v;
  lv_asks _ := give 4%Z;
  lv_piece := hand_out;
  lv_recv _ := give None;
  lv_error := code_of;
  lv_sleeper := daemon_sleeper;
}.

Lemma give_answers {A} (f : Daemon → A) (P : Daemon → res A → Prop) : (∀ v, P v (Ok (f v))) → answers (λ v, v) (λ v, give (f v) v) P.
Proof. by intros HP v r v' dt [= <- <- <-]. Qed.
Lemma seek_finds there why c : code_of (Exn OSError [why]) = Some c → finds (λ v, v) (λ v, seek (there v) why v) c there.
Proof. intros Hc v r v' dt. unfold seek. destruct (there v) eqn:Ht; intros [= <- <- <-]; (split; [done|]); done. Qed.

#[local] Instance daemon_laws : LvLaws Daemon.
Proof.
  refine {| lv_view := λ v, v |}.
  - by apply (give_answers (λ _, ())).
  - intros args. cbn. unfold code_of. cbn. destruct args as [|a [|]]; [done| |done]. by rewrite decide_True.
  - intros p. by apply seek_finds.
  - intros p n. by apply seek_finds.
  - intros d. by apply seek_finds.
  - intros n. by apply seek_finds.
  - intros p. apply give_answers. intros v l [= <-] n. rewrite elem_of_elements, elem_of_dom. unfold vol_of. destruct (pools v !! p); [done|].
    cbn. rewrite lookup_empty. done.
  - intros p. apply give_answers. by intros v x [= <-].
  - intros n. apply give_answers. by intros v x [= <-].
  - intros n. apply give_answers. by intros v x [= <-].
  - intros d. apply give_answers. by intros v x [= <-].
  - intros d. apply give_answers. intros v. case_decide; [discriminate|done].
  - intros n. by apply (give_answers (λ _, "virbr0")).
  - intros p n v r v' dt. unfold lv_vol_path, daemon_api. case_decide; intros [= <- <- <-]; (split; [done|]); [by intros ? [= <-]|done].
  - apply give_answers. intros v st [= <-]. apply not_elem_of_dom. exact (is_fresh (dom (streams v))).
  - intros st. apply (give_answers (λ _, 4%Z)). by intros _ n [= <-].
  - intros st v c v' dt. cbn. unfold hand_out. destruct (streams v !! st) as [x|] eqn:Hx; [|discriminate]. intros [= <- <- <-].
    exists x, (drop 3 (st_bytes x)). split; [done|]. split; [by rewrite take_drop|]. split; [by destruct (st_bytes x)|done].
  - done.
  - intros q v h v' dt. cbn. destruct q; cbn [define_object defines]; try discriminate; destruct (named_in xml) as [n|]; try discriminate.
    + intros [= <- <- <-] ? [= <-]. split; [done|]. by eexists.
    + destruct (roomy xml) eqn:Hk; [|discriminate]. intros [= <- <- <-] ? [= <-]. split; [done|]. exists []. split; [done|]. intros k Hc. unfold roomy in Hk. rewrite Hc in Hk.
      by apply Z.leb_le.
    + intros [= <- <- <-] ? [= <-]. done.
    + intros [= <- <- <-] ? [= <-]. done.
  - intros q v v' dt. cbn. destruct q; cbn [change_object effect]; try (intros [= <- <-]; done).
    + destruct (vol_of v pool vol) as [c|]; [|discriminate]. intros [= <- <-]. by exists c.
    + destruct (streams v !! stream) as [x|] eqn:Hx; [|discriminate]. intros [= <- <-]. by exists x.
Defined.

Lemma daemon_sane : lv_sane (E:=Daemon).
Proof.
  assert (∀ there why v x, (seek there why v).1.1 = Raise x → fuelled x = true) as Hs by (intros [] why v x; [done|by intros [= <-]]).
  split; try done; intros.
  - exact (Hs _ _ _ _ H).
  - exact (Hs _ _ _ _ H).
  - exact (Hs _ _ _ _ H).
  - revert H. cbn. unfold hand_out. destruct (streams e !! st); [done|by intros [= <-]].
  - revert H. cbn. destruct q; cbn; try destruct (named_in xml); try destruct (roomy xml); try done; by intros [= <-].
  - revert H. cbn. destruct q; cbn; try done; [destruct (vol_of e pool vol)|destruct (streams e !! stream)]; try done; by intros [= <-].
Qed.

(** A run: a pool with an image and a disk, a switch, a domain on both. *)
Definition nothing : Daemon := MkDaemon ∅ ∅ ∅ ∅ ∅ ∅.
Definition booted : Remote lv_request (LvState Daemon) := MkRemote (MkLvState nothing true true true ∅) 0 [].
Definition lan : Switch := MkSwitch "lan" [] "10.0.0.0/24" None false None.
Definition spec : VMSpec := MkVMSpec "web" [CPU 2 false; Memory 512; OSDrive (MkDisk (MkPoolHandle "p") 10); HardDrive (MkDisk (MkPoolHandle "p") 5)] "uefi".
Definition hardware : LvHardware := MkHardware None [Some "sata"] [].
Definition nic : BuildNic := MkBuildNic "52:54:00:00:00:01" "lan" (MkStaticAddr "10.0.0.10" None []) (MkNetworkAddressing "10.0.0.0/24" 24 false None None).
Definition web : VmRequest :=
  MkVmRequest "tr-web" spec hardware "plan" "tr-p/os.qcow2" (Some "tr-p/seed.iso") {["lan" := "tr-lan"]} ["tr-p/data.qcow2"] (Some nic) None.
Definition ops_up : list lv_op :=
  [OpCreatePool "tr-p"; OpCreateSwitch lan "tr-lan" None; OpWrite "tr-p/os.qcow2" (b "disk image"); OpBlank "tr-p/data.qcow2" 0;
   OpWrite "tr-p/seed.iso" (b "seed"); OpCreateVm web; OpStartVm "tr-web"].
Definition ops_down : list lv_op := [OpShutdownVm "tr-web" 3000; OpDestroyVm "tr-web"; OpDestroySwitch "tr-lan"; OpDestroyPool "tr-p"].

Definition after (l : list lv_op) (s : Remote lv_request (LvState Daemon)) : Remote lv_request (LvState Daemon) := (run_ops l s).2.

Example runs_up : run_ops ops_up booted = (Ok (), after ops_up booted) ∧ running (view (after ops_up booted)) = {["tr-web"]}.
Proof. vm_compute. done. Qed.
Example runs_all : run_ops (ops_up ++ ops_down) booted = (Ok (), after (ops_up ++ ops_down) booted).
Proof. vm_compute. done. Qed.

Lemma web_ok : request_ok web.
Proof.
  split; cbn.
  - by_decide.
  - intros k net [_ <-]%lookup_singleton_Some. unfold printable. by_decide.
  - intros m Hm. by apply elem_of_nil in Hm.
  - intros n [= <-]. unfold printable. by_decide.
Qed.
Lemma in_pool n ref : split_ref ref = Ok ("tr-p", n) → bool_decide (Forall (λ c, name_class c = true) (b n)) = true → ∃ p n, vol_ref ref p n.
Proof. intros Hr Hn. exists "tr-p", n. split; [done|]. by apply bool_decide_eq_true in Hn. Qed.
Lemma ops_ok : Forall op_ok (ops_up ++ ops_down).
Proof.
  assert (good_name "tr-p") by (unfold good_name; by_decide). assert (good_name "tr-lan") by (unfold good_name; by_decide).
  pose proof web_ok. unfold ops_up, ops_down. cbn [app].
  do 11 (constructor; [cbn [op_ok]; first [done|by eapply in_pool|split; [by eapply in_pool|lia]]|]). constructor.
Qed.

Lemma lv_refines_witness : lv_steps (ops_up ++ ops_down) (view booted) (view (after (ops_up ++ ops_down) booted)).
Proof. exact (lv_refines _ _ _ ops_ok runs_all). Defined.

(** The last use of each object is its destruction. *)
Definition demo_keys : list key := [KPool "tr-p"; KNet "tr-lan"; KDom "tr-web"].
Lemma ops_keys o k : o ∈ ops_up ++ ops_down → k ∈ op_keys o → k ∈ demo_keys.
Proof.
  intros Ho Hk. assert (Forall (λ o, Forall (.∈ demo_keys) (op_keys o)) (ops_up ++ ops_down)) as H by by_decide.
  rewrite Forall_forall in H. specialize (H o Ho). rewrite Forall_forall in H. by apply H.
Qed.
Lemma ops_destroyed : all_destroyed (ops_up ++ ops_down).
Proof.
  assert (∀ k l, Forall (λ x, k ∉ op_keys x) l → ∀ x, x ∈ l → k ∉ op_keys x) as Hl by (intros k l H; by apply Forall_forall).
  intros o k Ho Hk. pose proof (ops_keys o k Ho Hk) as H. clear Ho Hk. unfold demo_keys in H. rewrite !elem_of_cons, elem_of_nil in H.
  destruct H as [->|[->|[->|[]]]].
  - exists (take 10 (ops_up ++ ops_down)), (OpDestroyPool "tr-p"), (drop 11 (ops_up ++ ops_down)).
    split; [done|]. split; [done|]. apply Hl. by_decide.
  - exists (take 9 (ops_up ++ ops_down)), (OpDestroySwitch "tr-lan"), (drop 10 (ops_up ++ ops_down)).
    split; [done|]. split; [done|]. apply Hl. by_decide.
  - exists (take 8 (ops_up ++ ops_down)), (OpDestroyVm "tr-web"), (drop 9 (ops_up ++ ops_down)).
    split; [done|]. split; [done|]. apply Hl. by_decide.
Qed.
Lemma lv_run_leaves_nothing_witness : pools (view (after (ops_up ++ ops_down) booted)) = ∅ ∧ running (view (after ops_up booted)) = {["tr-web"]}.
Proof.
  split; [|apply runs_up]. refine (proj1 (lv_run_leaves_nothing _ booted _ ops_ok ops_destroyed _ runs_all)).
  intros o [n|n|n] _ _; cbn; [apply lookup_empty|set_solver|set_solver].
Defined.

Definition quiescent : Remote lv_request (LvState Daemon) := (shutdown_vm "tr-web" 3000 (after ops_up booted)).2.
Lemma lv_shutdown_ends_witness : "tr-web" ∈ running (view (after ops_up booted)) ∧ "tr-web" ∉ running (view quiescent).
Proof.
  split; [apply (bool_decide_unpack _); vm_compute; exact I|].
  apply (lv_shutdown_ends daemon_sane "tr-web" 3000 (after ops_up booted) (Ok ()) quiescent); [lia|vm_compute; reflexivity].
Defined.

(** The image written above, downloaded after the rest of the run. *)
Definition written : Remote lv_request (LvState Daemon) := after (take 4 ops_up) booted.
Definition stored : Remote lv_request (LvState Daemon) := (write_to_pool "tr-p/seed.iso" (b "seed") written).2.
Definition fetched : Remote lv_request (LvState Daemon) := (download_from_pool 10 "tr-p/seed.iso" (Ok ()) (after [OpDestroySwitch "tr-lan"] stored)).2.
Lemma lv_volume_roundtrip_witness :
  ∃ got, download_from_pool 10 "tr-p/seed.iso" (Ok ()) (after [OpDestroySwitch "tr-lan"] stored) = (Ok got, fetched) ∧ b "seed" `prefix_of` got.
Proof.
  exists (b "seed"). split; [vm_compute; reflexivity|].
  apply (lv_volume_roundtrip daemon_sane "tr-p/seed.iso" "tr-p" "seed.iso" (b "seed") [OpDestroySwitch "tr-lan"] 10
    written "tr-p/seed.iso" stored (after [OpDestroySwitch "tr-lan"] stored) (Ok (b "seed")) fetched).
  - split; [reflexivity|]. unfold good_name. by_decide.
  - vm_compute. reflexivity.
  - by repeat constructor.
  - intros o Ho. apply list_elem_of_singleton in Ho as ->. cbn. set_solver.
  - vm_compute. reflexivity.
  - intros c Hc. vm_compute in Hc. injection Hc as <-. cbn. lia.
  - vm_compute. reflexivity.
Defined.

Lemma lv_teardown_exact_witness :
  ∃ l, changes_of is_change (teardown (KPool "tr-p") written).2 = changes_of is_change written ++ l ∧ taken_down (E:=Daemon) (KPool "tr-p") l.
Proof.
  destruct (lv_teardown_exact law_driver_error (KPool "tr-p") written (Ok ()) (teardown (KPool "tr-p") written).2) as (l & Hl & _ & H).
  - vm_compute. reflexivity.
  - exists l. split; [exact Hl|]. destruct (H eq_refl) as [[-> _]|Hd]; [|exact Hd]. exfalso. revert Hl. vm_compute. discriminate.
Defined.

Lemma domain_reads_back_witness :
  ∃ el, read_xml (default [] (match domain_xml "tr-web" spec hardware "/i/a&b.qcow2" ["/i/'c'"] (Some "/i/seed.iso") None [] with Ok x => Some x | Raise _ => None end)) = Some el.
Proof.
  destruct (domain_xml "tr-web" spec hardware "/i/a&b.qcow2" ["/i/'c'"] (Some "/i/seed.iso") None []) as [x|e] eqn:Hx; [|exfalso; revert Hx; vm_compute; discriminate].
  destruct (domain_reads_back "tr-web" spec hardware "/i/a&b.qcow2" ["/i/'c'"] (Some "/i/seed.iso") None [] x Hx) as (el & d & disks & H & _).
  - by_decide.
  - unfold printable. by_decide.
  - constructor.
  - exists el. exact H.
Defined.

End LibvirtDemo.
