(* ===== verification/EsxiDriver.v ===== *)
(** * The ESXi driver ([drivers/esxi/_client.py], [_net.py], [_storage.py], [_vm.py],
      [_serial.py], [devices.py], [driver.py])

    The driver as programs over the vSphere SDK and the datastore's file service: one
    operation of [EsxiApi] per call the code makes, each of which may raise anything.
    Managed objects are numbers; what is asked to change is noted ([es_request]).  The
    files of the orchestrator's host, on which disks are converted, are those of
    [HostTools].  The bus an ESXi data disk adds to the portable one is given beside the
    spec, [None] for a portable disk. *)

From S2P Require Import Prelude Exceptions Eff PyBytes Url Conn Naming Ipv4 Devices Hypervisor Cleanup Context Preflight Remote HostTools.
From stdpp Require Import options.

(** ** Data *)

Inductive power : Type := poweredOn | poweredOff | OtherPower (state : string).
Global Instance power_eq_dec : EqDecision power.
Proof. solve_decision. Defined.

(** [task.info]: [fault.msg or str(fault)] and the messages of [faultMessage] *)
Inductive task_state : Type := TaskPending | TaskDone | TaskError (msg : string) (messages : list string).

(** A node of the snapshot tree. *)
Inductive snap : Type := Snap (id : nat) (name : string) (created : Z) (children : list snap).

(** The devices of a configuration, with the keys they have in it. *)
Inductive es_device : Type :=
  | Controller (kind : string) (key : Z)
  | VDisk (key controller : Z) (ref : string) (unit_number : Z)
  | VCdrom (key controller : Z) (ref : string) (unit_number : Z)
  | VNic (key : Z) (portgroup mac : string)
  | VSerial (key : Z) (ref : string).

Inductive boot_entry : Type := BootDisk (key : Z) | BootCdrom.

Record es_config : Type := MkConfig {
  cf_name : string;
  cf_memory : Z;
  cf_cpus : Z;
  cf_firmware : string;
  cf_path : string;
  cf_devices : list es_device;
  cf_boot : list boot_entry;
}.

Inductive es_request : Type :=
  | EsRead (what : string) | GuestOp (what : string)
  | Login | Logout
  | AddSwitch (name : string) (pnic : option string) | RemoveSwitch (name : string)
  | AddGroup (name vswitch : string) | RemoveGroup (name : string)
  | AddVnic (portgroup ip mask : string) | RemoveVnic (device : string)
  | MakeDirectory (path : string) | DeleteDatastoreFile (path : string)
  | CreateDisk (ref : string) (kb : Z) | ExtendDisk (ref : string) (kb : Z) | CopyDisk (source dest : string) | DeleteDisk (ref : string)
  | HttpPut (url : text) (data : bytes) | HttpDelete (url : text)
  | CreateVM (config : es_config) | PowerOn (vm : nat) | PowerOff (vm : nat) | ShutdownGuest (vm : nat) | DestroyVM (vm : nat)
  | MakeSnapshot (vm : nat) (name description : string) (mem : bool) | RemoveSnapshot (id : nat) | RevertTo (id : nat).

(** A reply of the file service: status, the [Content-Length] header, the pieces of the
    body, and what reading them ends with. *)
Record http_reply : Type := MkReply { hr_status : Z; hr_length : text; hr_chunks : list bytes; hr_end : res () }.
Definition hr_content (r : http_reply) : bytes := concat (hr_chunks r).

Class EsxiApi (E : Type) : Type := {
  es_import : ext_op E ();
  es_import_requests : ext_op E ();
  es_login : ext_op E ();
  es_logout : ext_op E ();
  es_retrieve : ext_op E ();
  es_api_type : ext_op E string;
  es_datacenter : ext_op E ();
  es_datacenter_name : ext_op E string;
  (** [CreateContainerView], [view.view], [view.Destroy] over the host systems *)
  es_view : ext_op E ();
  es_hosts : ext_op E nat;
  es_view_destroy : ext_op E ();
  es_parent : ext_op E ();
  es_resource_pool : ext_op E ();
  es_datastores : ext_op E (list string);
  es_free_space : ext_op E Z;
  (** [hardware.memorySize] and [hardware.cpuInfo.numCpuThreads] *)
  es_hardware : ext_op E (Z * Z);
  es_vms : ext_op E (list nat);
  es_vm_name : nat → ext_op E string;
  es_power : nat → ext_op E power;
  es_snapshot_tree : nat → ext_op E (option (list snap));
  es_vswitches : ext_op E (list string);
  es_portgroups : ext_op E (list (string * string));
  es_vnics : ext_op E (list (string * string));
  es_pnics : ext_op E (list string);
  (** a change that is done when the call returns; a change that is a task *)
  es_do : es_request → ext_op E ();
  es_task : es_request → ext_op E nat;
  es_info : nat → ext_op E task_state;
  (** [requests] on the file service *)
  es_head : text → ext_op E Z;
  es_get : text → option nat → ext_op E http_reply;
  es_put : text → bytes → ext_op E Z;
  es_delete : text → ext_op E Z;
  (** the fault classes an [except] clause names; [_esxi_error_types] *)
  is_file_exists : exn → bool;
  is_file_not_found : exn → bool;
  is_tools_unavailable : exn → bool;
  is_esxi_error : exn → bool;
  #[global] es_sleeper :: Sleeper E;
}.
#[export] Hint Mode EsxiApi ! : typeclass_instances.

(** The process: the SDK and the host behind it, what the client has resolved, the maps of
    the driver, and the local files. *)
Record EsState (E : Type) : Type := MkEsState {
  es_ext : E;
  es_vim : bool;
  es_si : bool;
  es_content : bool;
  es_host : bool;
  es_compute : bool;
  es_pool : bool;
  es_dc : bool;
  es_ds : bool;
  es_vswitch_by_switch : gmap string string;
  es_portgroup_by_network : gmap string string;
  es_files : gmap string bytes;
}.
Arguments MkEsState {E} _ _ _ _ _ _ _ _ _ _ _ _.
Arguments es_ext {E} _.
Arguments es_vim {E} _.
Arguments es_si {E} _.
Arguments es_content {E} _.
Arguments es_host {E} _.
Arguments es_compute {E} _.
Arguments es_pool {E} _.
Arguments es_dc {E} _.
Arguments es_ds {E} _.
Arguments es_vswitch_by_switch {E} _.
Arguments es_portgroup_by_network {E} _.
Arguments es_files {E} _.

Definition TASK_TIMEOUT : Z := 1200000.
Definition TASK_POLL : Z := 1000.

Definition SCSI_KEY : Z := 1000.
Definition SATA_KEY : Z := 15000.
Definition NVME_KEY : Z := 31000.
Definition IDE0_KEY : Z := 200.
Definition IDE1_KEY : Z := 201.
Definition SCSI_RESERVED_UNIT : Z := 7.
Definition SHUTDOWN_POLL : Z := 2000.
Definition KB_PER_GB : Z := 1024 * 1024.

Definition BUS_CONTROLLER_KEY : gmap string Z :=
  list_to_map [("scsi", SCSI_KEY); ("sata", SATA_KEY); ("nvme", NVME_KEY); ("ide", IDE1_KEY)].

Definition ESXI_DISK_BUSES : list string := ["scsi"; "sata"; "ide"; "nvme"].
Definition check_esxi_bus (bus : string) : res () := raise_when (bool_decide (bus ∉ ESXI_DISK_BUSES)) ValueError [bus].

(** ** The devices of a VM ([_vm.py]) *)

Definition make_controller (bus : string) : res es_device :=
  if decide (bus = "sata") then mret (Controller "ahci" SATA_KEY)
  else if decide (bus = "nvme") then mret (Controller "nvme" NVME_KEY)
  else raise AssertionError [bus].

(** [_data_disk_devices]: the loop, from the [i]-th reference on *)
Fixpoint data_disk_devices (spec : VMSpec) (buses : list (option string)) (i : nat) (refs : list string)
    (added : gset string) (next_unit : gmap string Z) : res (list es_device) :=
  match refs with
  | [] => mret []
  | ref :: refs =>
      raise_when (bool_decide (data_drives spec !! i = None)) IndexError ["data_drives"];;
      let bus := default "scsi" (default None (buses !! i)) in
      controller ← (if decide (bus ∈ ["sata"; "nvme"] ∧ bus ∉ added) then c ← make_controller bus; mret [c] else mret []);
      let added := if decide (bus ∈ ["sata"; "nvme"]) then {[bus]} ∪ added else added in
      unit ← getitem next_unit bus;
      let unit := if decide (bus = "scsi" ∧ unit = SCSI_RESERVED_UNIT) then (unit + 1)%Z else unit in
      key ← getitem BUS_CONTROLLER_KEY bus;
      rest ← data_disk_devices spec buses (S i) refs added (<[bus := (unit + 1)%Z]> next_unit);
      mret (controller ++ VDisk (- (110 + Z.of_nat i)) key ref unit :: rest)
  end.
Definition FIRST_UNITS : gmap string Z := list_to_map [("scsi", 1%Z); ("sata", 0%Z); ("nvme", 0%Z); ("ide", 0%Z)].

(** What [create_vm] is asked for. *)
Record EsRequest : Type := MkEsRequest {
  er_name : string;
  er_spec : VMSpec;
  er_buses : list (option string);
  er_plan : string;
  er_os_disk : string;
  er_seed : option string;
  er_networks : gmap string string;
  er_data : list string;
  er_build_nic : option BuildNic;
  er_boot_media : option string;
}.

Definition OS_KEY : Z := -101.

Definition cdrom_devices (boot_media seed : option string) : list es_device :=
  match boot_media with Some m => [VCdrom (-301) IDE0_KEY m 0] | None => [] end ++
  match seed with Some s => [VCdrom (-302) IDE0_KEY s (if decide (is_Some boot_media) then 1 else 0)] | None => [] end.

Fixpoint declared_nic_devices (plan vm : string) (idx : nat) (ns : list NetworkIface) (refs : gmap string string) : res (list es_device) :=
  match ns with
  | [] => mret []
  | n :: ns =>
      group ← getitem refs (nh_name (n_network n));
      rest ← declared_nic_devices plan vm (S idx) ns refs;
      mret (VNic (- (200 + Z.of_nat idx)) group (Esxi.compose_mac plan vm (Z.of_nat idx)) :: rest)
  end.
Definition nic_devices (q : EsRequest) : res (list es_device) :=
  match er_build_nic q with
  | Some nic => group ← getitem (er_networks q) (bn_network nic); mret [VNic (-200) group (bn_mac nic)]
  | None => declared_nic_devices (er_plan q) (vs_name (er_spec q)) 0 (nics (er_spec q)) (er_networks q)
  end.

(** The devices in front of the serial port. *)
Definition front_devices (q : EsRequest) : res (list es_device) :=
  data ← data_disk_devices (er_spec q) (er_buses q) 0 (er_data q) ∅ FIRST_UNITS;
  ns ← nic_devices q;
  mret (Controller "lsilogic" SCSI_KEY :: VDisk OS_KEY SCSI_KEY (er_os_disk q) 0 :: data ++ cdrom_devices (er_boot_media q) (er_seed q) ++ ns).

Definition serial_path (backend_name : string) : string := backend_name +:+ "/serial0.log".

Definition vm_config (datastore : string) (q : EsRequest) (front : list es_device) : res es_config :=
  mem ← first_memory (er_spec q);
  cpus ← first_cpu (er_spec q);
  mret (MkConfig (er_name q) mem cpus (if decide (firmware (er_spec q) = "uefi") then "efi" else "bios")
    ("[" +:+ datastore +:+ "] " +:+ er_name q)
    (front ++ [VSerial (-400) ("[" +:+ datastore +:+ "] " +:+ serial_path (er_name q))])
    (BootDisk OS_KEY :: match er_boot_media q with Some _ => [BootCdrom] | None => [] end)).

(** [_walk_snapshots] *)
Fixpoint walk_snapshots (t : snap) : list snap :=
  match t with Snap _ _ _ kids => t :: concat (walk_snapshots <$> kids) end.
Definition snap_id (t : snap) : nat := match t with Snap i _ _ _ => i end.
Definition snap_name (t : snap) : string := match t with Snap _ n _ _ => n end.
Definition snap_time (t : snap) : Z := match t with Snap _ _ c _ => c end.

Section EsxiDriver.
Context {E : Type} {L : EsxiApi E} {HT : Host}.
Variable conn : EsxiConn.
Abbreviation W := (Remote es_request (EsState E)).
Abbreviation R A := (act W A).

(** ** The SDK *)

Definition set_ext (e : E) (s : EsState E) : EsState E :=
  MkEsState e (es_vim s) (es_si s) (es_content s) (es_host s) (es_compute s) (es_pool s) (es_dc s) (es_ds s)
    (es_vswitch_by_switch s) (es_portgroup_by_network s) (es_files s).
Definition on_ext {A} (o : ext_op E A) : ext_op (EsState E) A := λ s,
  let '(r, e, dt) := o (es_ext s) in (r, set_ext e s, dt).
#[global] Instance es_state_sleeper : Sleeper (EsState E) := λ d s,
  let '(extra, e) := oversleep d (es_ext s) in (extra, set_ext e s).

Definition ask {A} (what : string) (o : ext_op E A) : R A := rcall (EsRead what) (on_ext o).
Definition request (q : es_request) : R () := rcall q (on_ext (es_do q)).
Definition submit (q : es_request) : R nat := rcall q (on_ext (es_task q)).

Definition update (f : EsState E → EsState E) : R () := modify (λ w, MkRemote (f (rm_ext w)) (rm_clock w) (rm_sent w)).
(** A property of the client, which raises before [connect] has set it. *)
Definition need (f : EsState E → bool) : R () := on ← gets (λ w, f (rm_ext w)); throw_when (negb on) DriverError ["connect"].
(** Work on the local files. *)
Definition on_files {A} (m : HostAct A) : R A := λ w,
  let '(r, fs) := m (es_files (rm_ext w)) in
  let s := rm_ext w in
  (r, MkRemote (MkEsState (es_ext s) (es_vim s) (es_si s) (es_content s) (es_host s) (es_compute s) (es_pool s) (es_dc s) (es_ds s)
    (es_vswitch_by_switch s) (es_portgroup_by_network s) fs) (rm_clock w) (rm_sent w)).

(** ** The connection ([EsxiClient]) *)

Definition import_pyvmomi : R () :=
  catch (ask "import pyVmomi" es_import) (λ e, isinstance e ImportError) (λ _, throw DriverError ["pyvmomi"]).
Definition import_requests : R () :=
  catch (ask "import requests" es_import_requests) (λ e, isinstance e ImportError) (λ _, throw DriverError ["requests"]).

Definition set_client (vim si content host compute pool dc ds : bool) (s : EsState E) : EsState E :=
  MkEsState (es_ext s) vim si content host compute pool dc ds (es_vswitch_by_switch s) (es_portgroup_by_network s) (es_files s).
Definition set_vim (s : EsState E) := set_client true (es_si s) (es_content s) (es_host s) (es_compute s) (es_pool s) (es_dc s) (es_ds s) s.
Definition set_si (on : bool) (s : EsState E) := set_client (es_vim s) on (es_content s) (es_host s) (es_compute s) (es_pool s) (es_dc s) (es_ds s) s.
Definition set_content (on : bool) (s : EsState E) := set_client (es_vim s) (es_si s) on (es_host s) (es_compute s) (es_pool s) (es_dc s) (es_ds s) s.
Definition set_dc (s : EsState E) := set_client (es_vim s) (es_si s) (es_content s) (es_host s) (es_compute s) (es_pool s) true (es_ds s) s.
Definition set_host (s : EsState E) := set_client (es_vim s) (es_si s) (es_content s) true (es_compute s) (es_pool s) (es_dc s) (es_ds s) s.
Definition set_compute (s : EsState E) := set_client (es_vim s) (es_si s) (es_content s) (es_host s) true (es_pool s) (es_dc s) (es_ds s) s.
Definition set_pool (s : EsState E) := set_client (es_vim s) (es_si s) (es_content s) (es_host s) (es_compute s) true (es_dc s) (es_ds s) s.
Definition set_ds (s : EsState E) := set_client (es_vim s) (es_si s) (es_content s) (es_host s) (es_compute s) (es_pool s) (es_dc s) true s.

Definition close : R () :=
  si ← gets (λ w, es_si (rm_ext w));
  (if si : bool then import_pyvmomi;; catch (rcall Logout (on_ext es_logout)) is_exception (λ _, mret ()) else mret ());;
  update (set_si false);;
  update (set_content false).

Definition find_datastore (name : string) : R () :=
  need es_host;;
  stores ← ask "datastore" es_datastores;
  if decide (name ∈ stores) then mret ()
  else need es_host;; have ← ask "datastore" es_datastores; throw DriverError (name :: have).

(** [list(self._view(vim.HostSystem))] *)
Definition host_systems : R nat :=
  need es_content;;
  ask "CreateContainerView" es_view;;
  finally (ask "view" es_hosts) (ask "Destroy" es_view_destroy).

Definition resolve_inventory : R () :=
  need es_content;;
  api ← ask "apiType" es_api_type;
  throw_when (bool_decide (api ≠ "HostAgent")) DriverError [ec_host conn; api];;
  ask "childEntity" es_datacenter;;
  update set_dc;;
  need es_vim;;
  hosts ← host_systems;
  throw_when (bool_decide (hosts ≠ 1)) DriverError [ec_host conn];;
  update set_host;;
  ask "parent" es_parent;;
  update set_compute;;
  ask "resourcePool" es_resource_pool;;
  update set_pool;;
  find_datastore (ec_datastore conn);;
  update set_ds.

Definition connect : R () :=
  import_pyvmomi;;
  update set_vim;;
  catch (rcall Login (on_ext es_login)) is_exception (λ _, throw DriverError [ec_host conn; ec_user conn]);;
  update (set_si true);;
  catch (ask "RetrieveContent" es_retrieve;; update (set_content true);; resolve_inventory) is_exception
    (λ e, close;; lift (Raise e)).

(** [find_vm]: the first VM of the name *)
Fixpoint find_named (name : string) (vms : list nat) : R (option nat) :=
  match vms with
  | [] => mret None
  | vm :: vms => n ← ask "name" (es_vm_name vm); if decide (n = name) then mret (Some vm) else find_named name vms
  end.
Definition find_vm (name : string) : R (option nat) :=
  need es_host;;
  vms ← ask "vm" es_vms;
  find_named name vms.
Definition require_vm (name : string) : R nat :=
  vm ← find_vm name;
  match vm with Some vm => mret vm | None => throw DriverError [name] end.

(** What a failed task says. *)
Definition join_semi (l : list string) : string :=
  match l with [] => "" | x :: l => foldl (λ acc y, acc +:+ "; " +:+ y) x l end.
Definition task_message (msg : string) (messages : list string) : string :=
  match filter (λ m, m ≠ "" ∧ m ≠ msg) messages with
  | [] => msg
  | details => msg +:+ " (" +:+ join_semi details +:+ ")"
  end.
Definition task_probe (task : nat) : R (option ()) :=
  state ← ask "info" (es_info task);
  match state with
  | TaskDone => mret (Some ())
  | TaskError msg messages => throw DriverError ["ESXi task failed: " +:+ task_message msg messages]
  | TaskPending => mret None
  end.
Definition wait_for_task (task : nat) : R () :=
  need es_vim;;
  start ← gets rm_clock;
  poll_from TASK_POLL TASK_TIMEOUT start (task_probe task) (Exn DriverError ["ESXi task did not finish"]).
Definition run_task (q : es_request) : R () := task ← submit q; wait_for_task task.

(** *** The file service *)

Definition folder_url (dc_name ds_path : string) : text :=
  b "https://" ++ b (ec_host conn) ++ COLON :: str_int (ec_port conn) ++ b "/folder/"
  ++ quote (λ c, bool_decide (c = SLASH)) (drop_while (λ c, bool_decide (c = SLASH)) (b ds_path))
  ++ QMARK :: urlencode [(b "dcPath", b dc_name); (b "dsName", b (ec_datastore conn))].
Definition url_of (ds_path : string) : R text :=
  need es_dc;;
  dc ← ask "name" es_datacenter_name;
  mret (folder_url dc ds_path).

Definition raise_for_status (status : Z) : res () :=
  raise_when (bool_decide (400 ≤ status < 600)%Z) RequestException [].

(** [except Exception as e: raise DriverError(...)] *)
Definition as_driver_error {A} (what : string) (m : R A) : R A := catch m is_exception (λ _, throw DriverError [what]).

Definition folder_put (source_path ds_path : string) : R () :=
  import_requests;;
  url ← url_of ds_path;
  data ← on_files (read_file_at source_path);
  as_driver_error ds_path (
    import_requests;;
    status ← rcall (HttpPut url data) (on_ext (es_put url data));
    lift (raise_for_status status)).

Definition folder_get (ds_path dest_path : string) : R () :=
  import_requests;;
  url ← url_of ds_path;
  as_driver_error ds_path (
    import_requests;;
    reply ← ask "GET" (es_get url None);
    lift (raise_for_status (hr_status reply));;
    lift (py_int (hr_length reply));;
    on_files (write_file_at dest_path (hr_content reply));;
    lift (hr_end reply)).

Definition folder_exists (ds_path : string) : R bool :=
  import_requests;;
  url ← url_of ds_path;
  import_requests;;
  status ← ask "HEAD" (es_head url);
  if decide (status = 200)%Z then mret true
  else if decide (status ∈ [404; 400]%Z) then mret false
  else lift (raise_for_status status);; mret false.

Definition folder_read_from (ds_path : string) (offset : nat) : R bytes :=
  import_requests;;
  url ← url_of ds_path;
  import_requests;;
  reply ← ask "GET" (es_get url (Some offset));
  if decide (hr_status reply = 206)%Z then mret (hr_content reply)
  else if decide (hr_status reply = 200)%Z then mret (drop offset (hr_content reply))
  else if decide (hr_status reply ∈ [404; 416; 429; 503]%Z) then mret []
  else lift (raise_for_status (hr_status reply));; mret [].

Definition folder_delete (ds_path : string) : R bool :=
  import_requests;;
  url ← url_of ds_path;
  import_requests;;
  status ← rcall (HttpDelete url) (on_ext (es_delete url));
  if decide (status ∈ [404; 400]%Z) then mret false
  else lift (raise_for_status status);; mret true.
(** ** Networks ([_net.py]) *)

Definition vswitch_names : R (list string) := need es_host;; ask "vswitch" es_vswitches.
Definition portgroups : R (list (string * string)) := need es_host;; ask "portgroup" es_portgroups.
Definition vnics : R (list (string * string)) := need es_host;; ask "vnic" es_vnics.
(** A change of the host's network system. *)
Definition network_request (q : es_request) : R () := need es_host;; request q.

Definition add_vswitch (name : string) (pnic : option string) : R () :=
  have ← vswitch_names;
  if decide (name ∈ have) then mret ()
  else need es_vim;; network_request (AddSwitch name pnic).

Definition add_portgroup (name vswitch : string) : R () :=
  have ← portgroups;
  if decide (name ∈ have.*1) then mret ()
  else need es_vim;; network_request (AddGroup name vswitch).

Definition add_mgmt_vmk (portgroup : string) (switch : Switch) : R () :=
  have ← vnics;
  if decide (portgroup ∈ have.*2) then mret ()
  else
    need es_vim;;
    ip ← lift (mgmt_ip switch);
    net ← lift (sw_network switch);
    network_request (AddVnic portgroup ip (print_ip (netmask net))).

Definition net_create_switch (switch : Switch) (backend_name : string) (resolved_uplink : option string) : R (option string) :=
  let vswitch := Esxi.vswitch_name backend_name in
  add_vswitch vswitch None;;
  (if mgmt switch then
     let mgmt_pg := Esxi.mgmt_portgroup_name backend_name in
     add_portgroup mgmt_pg vswitch;; add_mgmt_vmk mgmt_pg switch
   else mret ());;
  match uplink switch, sidecar switch with
  | Some _, Some sc =>
      if sc_nat sc then
        match resolved_uplink with
        | None => throw DriverError [sw_name switch]
        | Some pnic =>
            let up_vswitch := Esxi.uplink_vswitch_name pnic in
            add_vswitch up_vswitch (Some pnic);;
            let up_pg := Esxi.uplink_portgroup_name backend_name in
            add_portgroup up_pg up_vswitch;;
            mret (Some up_pg)
        end
      else mret None
  | _, _ => mret None
  end.

Definition net_create_network (backend_name switch_backend_name : string) : R string :=
  let vswitch := Esxi.vswitch_name switch_backend_name in
  let pg := Esxi.portgroup_name backend_name in
  add_portgroup pg vswitch;;
  mret pg.

Definition net_destroy_network (backend_name : string) : R () :=
  let pg := Esxi.portgroup_name backend_name in
  have ← portgroups;
  if decide (pg ∈ have.*1) then network_request (RemoveGroup pg) else mret ().

Definition remove_vmk_on (portgroup : string) : R () :=
  have ← vnics;
  forA (λ v, if decide (v.2 = portgroup) then network_request (RemoveVnic v.1) else mret ()) have.

(** [{pg.spec.name: pg ...}[name].spec.vswitchName]: the last of the name wins *)
Definition vswitch_of (pgs : list (string * string)) (name : string) : option string :=
  snd <$> last (filter (λ pg, pg.1 = name) pgs).

Definition net_destroy_switch (backend_name : string) : R () :=
  let vswitch := Esxi.vswitch_name backend_name in
  let mgmt_pg := Esxi.mgmt_portgroup_name backend_name in
  let up_pg := Esxi.uplink_portgroup_name backend_name in
  pgs ← portgroups;
  (if decide (mgmt_pg ∈ pgs.*1) then remove_vmk_on mgmt_pg;; network_request (RemoveGroup mgmt_pg) else mret ());;
  match vswitch_of pgs up_pg with
  | Some up_vswitch =>
      network_request (RemoveGroup up_pg);;
      now ← portgroups;
      let remaining := filter (λ pg, pg.2 = up_vswitch ∧ starts_with (b "tr") (b pg.1) = true) now in
      if decide (remaining = []) then
        have ← vswitch_names;
        if decide (up_vswitch ∈ have) then network_request (RemoveSwitch up_vswitch) else mret ()
      else mret ()
  | None => mret ()
  end;;
  now ← portgroups;
  forA (λ pg, if decide (pg.2 = vswitch) then network_request (RemoveGroup pg.1) else mret ()) now;;
  have ← vswitch_names;
  if decide (vswitch ∈ have) then network_request (RemoveSwitch vswitch) else mret ().

(** ** Storage ([_storage.py]) *)

(** [tempfile.NamedTemporaryFile(delete=False)]: a path nothing is at *)
Variable new_temp : files → string.

Definition with_tempdir_r {A} (prefix : string) (body : string → R A) : R A :=
  td ← on_files (gets (mkdtemp prefix));
  finally (body td) (on_files (rmtree td)).

Definition ds_path (ref : string) : R string :=
  dp ← lift (Esxi.parse_volume_ref ref);
  throw_when (bool_decide (dp.1 ≠ ec_datastore conn)) DriverError [ref];;
  mret dp.2.

Definition bracket (path : string) : string := "[" +:+ ec_datastore conn +:+ "] " +:+ path.

Definition create_pool (backend_name : string) : R string :=
  need es_vim;;
  need es_content;; need es_dc;;
  catch (request (MakeDirectory (bracket backend_name))) (is_file_exists (E:=E)) (λ _, mret ());;
  mret ("pool:" +:+ backend_name).

(** [... not in str(e).lower()] *)
Definition says_not_found (e : exn) : bool :=
  existsb (λ a, bool_decide (is_Some (find (b "not found") (to_lower (b a))))) (exn_args e).
Definition destroy_pool (backend_name : string) : R () :=
  need es_vim;;
  catch (catch (need es_content;; need es_dc;; run_task (DeleteDatastoreFile (bracket backend_name)))
           (is_file_not_found (E:=E)) (λ _, mret ()))
    (λ e, isinstance e DriverError && says_not_found e) (λ _, mret ()).

Definition write_to_pool (target_ref : string) (data : bytes) : R string :=
  path ← ds_path target_ref;
  tmp ← on_files (gets new_temp);
  on_files (write_file_at tmp data);;
  finally (folder_put tmp path) (on_files (unlink tmp));;
  mret target_ref.

Definition delete_volume (vol_ref : string) : R () :=
  path ← ds_path vol_ref;
  there ← folder_exists path;
  if there : bool then
    if ends_with (b ".iso") (b path) then folder_delete path;; mret ()
    else need es_content;; need es_dc;; run_task (DeleteDisk vol_ref)
  else mret ().

Definition create_blank_volume (target_ref : string) (size_gb : Z) : R string :=
  path ← ds_path target_ref;
  there ← folder_exists path;
  (if there : bool then delete_volume target_ref else mret ());;
  need es_vim;;
  need es_content;; need es_dc;;
  run_task (CreateDisk target_ref (size_gb * KB_PER_GB));;
  mret target_ref.

Definition resize_volume (target_ref : string) (size_gb : Z) : R string :=
  need es_content;; need es_dc;;
  run_task (ExtendDisk target_ref (size_gb * KB_PER_GB));;
  mret target_ref.

(** [Path.parent], [Path.name], [Path.stem] *)
Definition path_parent (p : string) : string := str (rpartition SLASH (b p)).1.1.
Definition path_name (p : string) : text := let '(_, found, z) := rpartition SLASH (b p) in if found : bool then z else b p.
Definition path_stem (name : text) : text :=
  let '(a, found, z) := rpartition (chr 46) name in
  if (found : bool) && bool_decide (a ≠ []) && bool_decide (z ≠ []) then a else name.

Definition stage_of (path : string) : string := str (stem (b path) ++ b "-stage.vmdk").
Definition flat_of (path : string) : string := str (stem (b path) ++ b "-flat.vmdk").

Definition upload_to_pool (target_ref source_path : string) : R string :=
  path ← ds_path target_ref;
  there ← folder_exists path;
  if there : bool then mret target_ref
  else
    let stage_rel := stage_of path in
    with_tempdir_r (in_dir (path_parent source_path) "tr_esxi_ingest_") (λ tmp,
      let local_vmdk := in_dir tmp "stage.vmdk" in
      on_files (qcow2_to_vmdk source_path local_vmdk "monolithicSparse");;
      folder_put local_vmdk stage_rel);;
    finally
      (need es_vim;; need es_content;; need es_dc;; run_task (CopyDisk (bracket stage_rel) target_ref))
      (folder_delete stage_rel;; folder_delete (flat_of stage_rel);; mret ());;
    mret target_ref.

Definition download_from_pool (vol_ref dest_path : string) : R string :=
  path ← ds_path vol_ref;
  with_tempdir_r (in_dir (path_parent dest_path) "tr_esxi_export_") (λ tmp,
    let local_desc := in_dir tmp (str (path_name path)) in
    let local_flat := in_dir tmp (str (path_stem (path_name path) ++ b "-flat.vmdk")) in
    folder_get path local_desc;;
    folder_get (flat_of path) local_flat;;
    on_files (vmdk_to_qcow2 local_desc dest_path));;
  mret dest_path.

(** ** Virtual machines ([_vm.py]) *)

Definition create_vm (q : EsRequest) : R string :=
  need es_vim;;
  front ← lift (front_devices q);
  folder_delete (serial_path (er_name q));;
  config ← lift (vm_config (ec_datastore conn) q front);
  need es_dc;; need es_pool;; need es_host;;
  run_task (CreateVM config);;
  mret ("vm:" +:+ er_name q).

Definition start_vm (backend_name : string) : R () :=
  vm ← require_vm backend_name;
  state ← ask "powerState" (es_power vm);
  need es_vim;;
  if decide (state = poweredOn) then mret () else run_task (PowerOn vm).

(** [while time.monotonic() < deadline: ...]: whether the VM was seen off *)
Fixpoint shutdown_wait (n : nat) (deadline : Z) (vm : nat) : R bool :=
  match n with
  | 0 => throw OutOfFuel []
  | S n =>
      now ← gets rm_clock;
      if decide (now < deadline)%Z then
        state ← ask "powerState" (es_power vm);
        if decide (state = poweredOff) then mret true
        else rsleep SHUTDOWN_POLL;; shutdown_wait n deadline vm
      else mret false
  end.
Definition shutdown_wait_fuel (timeout : Z) : nat := Z.to_nat (timeout / SHUTDOWN_POLL) + 2.

Definition shutdown_vm (backend_name : string) (timeout : Z) : R () :=
  need es_vim;;
  vm ← require_vm backend_name;
  state ← ask "powerState" (es_power vm);
  if decide (state = poweredOff) then mret ()
  else
    asked ← catch (request (ShutdownGuest vm);; mret true) (is_tools_unavailable (E:=E)) (λ _, run_task (PowerOff vm);; mret false);
    if asked : bool then
      now ← gets rm_clock;
      off ← shutdown_wait (shutdown_wait_fuel timeout) (now + timeout) vm;
      if off : bool then mret ()
      else
        state ← ask "powerState" (es_power vm);
        if decide (state = poweredOff) then mret () else run_task (PowerOff vm)
    else mret ().

Definition destroy_vm (backend_name : string) : R () :=
  need es_vim;;
  found ← find_vm backend_name;
  match found with
  | None => mret ()
  | Some vm =>
      state ← ask "powerState" (es_power vm);
      (if decide (state = poweredOff) then mret () else catch (run_task (PowerOff vm)) is_exception (λ _, mret ()));;
      run_task (DestroyVM vm)
  end.

Definition get_vm_power_state (backend_name : string) : R string :=
  need es_vim;;
  vm ← require_vm backend_name;
  state ← ask "powerState" (es_power vm);
  mret (match state with poweredOff => "shutoff" | poweredOn => "running" | OtherPower s => s end).

Definition snapshot_nodes (vm : nat) : R (list snap) :=
  tree ← ask "snapshot" (es_snapshot_tree vm);
  mret (match tree with None => [] | Some roots => sort_by snap_time (concat (walk_snapshots <$> roots)) end).
Definition find_snapshot (vm : nat) (name : string) : R (option nat) :=
  nodes ← snapshot_nodes vm;
  mret (snap_id <$> head (filter (λ n, snap_name n = name) nodes)).

Definition create_snapshot (vm_backend_name name description : string) (mem : bool) : R () :=
  vm ← require_vm vm_backend_name;
  (if mem then
     state ← ask "powerState" (es_power vm);
     need es_vim;;
     throw_when (bool_decide (state ≠ poweredOn)) DriverError [vm_backend_name]
   else mret ());;
  found ← find_snapshot vm name;
  throw_when (bool_decide (is_Some found)) DriverError [name; vm_backend_name];;
  run_task (MakeSnapshot vm name description mem).

Definition list_snapshots (vm_backend_name : string) : R (list string) :=
  vm ← require_vm vm_backend_name;
  nodes ← snapshot_nodes vm;
  mret (snap_name <$> nodes).

Definition delete_snapshot (vm_backend_name name : string) : R () :=
  vm ← require_vm vm_backend_name;
  found ← find_snapshot vm name;
  match found with None => mret () | Some id => run_task (RemoveSnapshot id) end.

Definition restore_snapshot (vm_backend_name name : string) : R () :=
  vm ← require_vm vm_backend_name;
  found ← find_snapshot vm name;
  match found with None => throw DriverError [name; vm_backend_name] | Some id => run_task (RevertTo id) end.

(** ** The build-result sink ([_serial.py])

    The generator as its suspended states: not started; after a piece of the log; after a
    heartbeat; after the last piece; ended. *)

Inductive es_sink : Type :=
  | SinkNew | SinkMore (offset : nat) | SinkIdle (offset : nat) | SinkLast | SinkDone.

Definition POLL_INTERVAL : Z := 1000.

(** One turn of the loop: what is yielded, [None] at the end. *)
Definition sink_turn (backend_name : string) (offset : nat) : R (es_sink * option bytes) :=
  chunk ← folder_read_from (serial_path backend_name) offset;
  match chunk with
  | _ :: _ => mret (SinkMore (offset + length chunk), Some chunk)
  | [] =>
      found ← find_vm backend_name;
      powered_off ← match found with
                    | None => mret true
                    | Some vm => state ← ask "powerState" (es_power vm); mret (bool_decide (state = poweredOff))
                    end;
      if powered_off : bool then
        tail ← folder_read_from (serial_path backend_name) offset;
        mret (match tail with _ :: _ => (SinkLast, Some tail) | [] => (SinkDone, None) end)
      else mret (SinkIdle offset, Some [])
  end.

(** [next(sink)]; a generator that raised is [SinkDone]. *)
Definition sink_next (backend_name : string) (g : es_sink) : R (es_sink * option bytes) :=
  match g with
  | SinkNew => need es_vim;; sink_turn backend_name 0
  | SinkMore offset => sink_turn backend_name offset
  | SinkIdle offset => rsleep POLL_INTERVAL;; sink_turn backend_name offset
  | SinkLast | SinkDone => mret (SinkDone, None)
  end.

(** ** The driver ([driver.py]) *)

(** [_translates] *)
Definition translates {A} (m : R A) : R A := catch m (is_esxi_error (E:=E)) (λ _, throw DriverError []).

Definition driver_create_switch (uplinks : gmap string string) (switch : Switch) (backend_name : string) : R (option string) :=
  translates (
    resolved ← match uplink switch with
               | None => mret None
               | Some u => match uplinks !! u with Some p => mret (Some p) | None => throw DriverError [sw_name switch; u] end
               end;
    up_pg ← net_create_switch switch backend_name resolved;
    update (λ s, MkEsState (es_ext s) (es_vim s) (es_si s) (es_content s) (es_host s) (es_compute s) (es_pool s) (es_dc s) (es_ds s)
      (<[backend_name := Esxi.vswitch_name backend_name]> (es_vswitch_by_switch s)) (es_portgroup_by_network s) (es_files s));;
    mret up_pg).
Definition driver_destroy_switch (backend_name : string) : R () := translates (net_destroy_switch backend_name).
Definition driver_create_network (backend_name switch_backend_name : string) : R string :=
  translates (
    pg ← net_create_network backend_name switch_backend_name;
    update (λ s, MkEsState (es_ext s) (es_vim s) (es_si s) (es_content s) (es_host s) (es_compute s) (es_pool s) (es_dc s) (es_ds s)
      (es_vswitch_by_switch s) (<[backend_name := pg]> (es_portgroup_by_network s)) (es_files s));;
    mret pg).
Definition driver_destroy_network (backend_name : string) : R () := translates (net_destroy_network backend_name).

Definition portgroup_refs (groups refs : gmap string string) : gmap string string :=
  (λ ref, default ref (groups !! ref)) <$> refs.
Definition driver_create_vm (q : EsRequest) : R string :=
  translates (
    groups ← gets (λ w, es_portgroup_by_network (rm_ext w));
    create_vm (MkEsRequest (er_name q) (er_spec q) (er_buses q) (er_plan q) (er_os_disk q) (er_seed q)
      (portgroup_refs groups (er_networks q)) (er_data q) (er_build_nic q) (er_boot_media q))).

(** [host_capacity]: a failed probe is no capacity *)
Definition host_capacity : R (option (Z * Z)) :=
  catch (need es_host;; hw ← ask "hardware" es_hardware; mret (Some (hw.1 / (1024 * 1024), hw.2)%Z)) is_exception (λ _, mret None).
End EsxiDriver.

(** ** Preflight *)

(** [IPv4Network.overlaps] *)
Definition overlaps (a c : IPv4Network) : bool :=
  in_network (network_address c) a || in_network (broadcast_address c) a ||
  in_network (network_address a) c || in_network (broadcast_address a) c.

Section Preflight.
Context {B Bld Com : Type} {G : Guests B Bld Com} {HT : Host}.
Context {E : Type} {L : EsxiApi E}.
Variable new_id : string → string → nat.
Implicit Types (h : Hypervisor Bld Com).
Abbreviation R A := (act (Remote es_request (EsState E)) A).

Definition uplink_pnic_findings (uplinks : gmap string string) (sws : list Switch) : R (list PreflightFinding) :=
  match wanted_uplinks uplinks sws with
  | [] => mret []
  | wanted =>
      need es_host;;
      pnics ← ask "pnic" es_pnics;
      mret ((λ w, finding new_id "esxi-uplink-pnic-missing" w.1 (w.2 :: sorted (remove_dups pnics))) <$> filter (λ w, w.2 ∉ pnics) wanted)
  end.

(** The division by [1024 ** 3] is exact below 2^53 bytes. *)
Definition datastore_capacity_findings h : R (list PreflightFinding) :=
  let needed_gb := sum_Z (sp_size_gb <$> declared_pools h) in
  need es_ds;;
  free ← ask "freeSpace" es_free_space;
  mret (if decide (needed_gb * 1024 ^ 3 ≤ free)%Z then [] else [finding new_id "esxi-datastore-capacity" "" []]).

Fixpoint overlaps_with (a : Switch) (sws : list Switch) : res (list PreflightFinding) :=
  match sws with
  | [] => mret []
  | c :: sws =>
      na ← sw_network a;
      nc ← sw_network c;
      rest ← overlaps_with a sws;
      mret ((if overlaps na nc then [finding new_id "esxi-cidr-overlap" (sw_name a) [sw_name c]] else []) ++ rest)
  end.
Fixpoint cidr_overlap_findings (sws : list Switch) : res (list PreflightFinding) :=
  match sws with
  | [] => mret []
  | a :: sws => here ← overlaps_with a sws; rest ← cidr_overlap_findings sws; mret (here ++ rest)
  end.

Definition qemu_img_findings h : list PreflightFinding :=
  let needs_convert := existsb (λ vm, bool_decide (is_Some (os_disk_base (Guests := G) (builder vm)))) (declared_vms h)
    || existsb needs_sidecar (declared_switches h) in
  if negb needs_convert || bool_decide (is_Some qemu_img_path) then [] else [finding new_id "esxi-qemu-img-missing" "" []].

Definition SUPPORTED_FIRMWARES : list string := ["bios"; "uefi"].

Definition preflight (uplinks : gmap string string) h (build_switch : option Switch) : R PreflightReport :=
  translates (
    let switches := preflight_switches h build_switch in
    pnic ← uplink_pnic_findings uplinks switches;
    capacity ← datastore_capacity_findings h;
    cidr ← lift (cidr_overlap_findings switches);
    host ← host_capacity;
    mret (from_checks [
      evaluate "named-uplink-resolution" (unknown_uplink_findings new_id switches uplinks) None;
      evaluate "os-disk-origin" (builder_origin_findings (G := G) new_id h) None;
      evaluate "supported-firmware" (unsupported_firmware_findings new_id h SUPPORTED_FIRMWARES "ESXiDriver") None;
      evaluate "uplink-pnic" pnic None;
      evaluate "datastore-capacity" capacity None;
      evaluate "cidr-overlap" cidr None;
      evaluate "qemu-img" (qemu_img_findings h) None;
      resource_check new_id h ((λ c, MkCapacity (Some c.1) (Some c.2) None) <$> host)])).
End Preflight.
