(* ===== verification/EsxiSpec.v ===== *)
(** * What the ESXi driver guarantees

    The devices of a VM fit together; the serial log is delivered exactly; a connection
    that cannot be used is closed; a run's switches leave no object on the host. *)

From S2P Require Import Prelude Exceptions Eff PyBytes Url Conn Naming Ipv4 Devices Hypervisor Cleanup Context Preflight Remote HostTools EsxiDriver.
From stdpp Require Import options.

(** ** The devices of a VM *)

Definition device_key (d : es_device) : Z :=
  match d with Controller _ k | VDisk k _ _ _ | VCdrom k _ _ _ | VNic k _ _ | VSerial k _ => k end.
(** The place a drive takes: its controller and unit. *)
Definition slot (d : es_device) : option (Z * Z) :=
  match d with VDisk _ c _ u | VCdrom _ c _ u => Some (c, u) | _ => None end.
Definition disk_ref (d : es_device) : option string := match d with VDisk _ _ ref _ => Some ref | _ => None end.
Definition nic_of (d : es_device) : option (string * string) := match d with VNic _ pg mac => Some (pg, mac) | _ => None end.

Lemma bus_key bus c : BUS_CONTROLLER_KEY !! bus = Some c → (bus, c) ∈ [("scsi", SCSI_KEY); ("sata", SATA_KEY); ("nvme", NVME_KEY); ("ide", IDE1_KEY)].
Proof. apply elem_of_list_to_map_2. Qed.
Lemma bus_key_inj b1 b2 c : BUS_CONTROLLER_KEY !! b1 = Some c → BUS_CONTROLLER_KEY !! b2 = Some c → b1 = b2.
Proof.
  intros H1%bus_key H2%bus_key. rewrite !elem_of_cons, elem_of_nil in H1, H2. unfold SCSI_KEY, SATA_KEY, NVME_KEY, IDE1_KEY in *.
  naive_solver lia.
Qed.

(** One turn of the loop over the data disks. *)
Lemma data_disk_turn spec buses i ref refs added next ds :
  data_disk_devices spec buses i (ref :: refs) added next = Ok ds →
  ∃ bus n c ctl rest, next !! bus = Some n ∧ BUS_CONTROLLER_KEY !! bus = Some c ∧
    let u := if decide (bus = "scsi" ∧ n = SCSI_RESERVED_UNIT) then (n + 1)%Z else n in
    let added' := if decide (bus ∈ ["sata"; "nvme"]) then {[bus]} ∪ added else added in
    data_disk_devices spec buses (S i) refs added' (<[bus := (u + 1)%Z]> next) = Ok rest ∧
    ds = ctl ++ VDisk (- (110 + Z.of_nat i)) c ref u :: rest ∧
    ((bus ∈ ["sata"; "nvme"] ∧ bus ∉ added ∧ ∃ kind, ctl = [Controller kind c]) ∨ ((bus ∈ ["sata"; "nvme"] → bus ∈ added) ∧ ctl = [])).
Proof.
  cbn [data_disk_devices]. rewrite bind_Ok. intros ([] & _ & H).
  generalize dependent (default "scsi" (default None (buses !! i))). intros bus H. apply bind_Ok in H as (ctl & Hctl & H).
  apply bind_Ok in H as (n & Hn%getitem_Ok & H). apply bind_Ok in H as (c & Hc%getitem_Ok & H). apply bind_Ok in H as (rest & Hrest & [= <-]).
  exists bus, n, c, ctl, rest. split; [done|]. split; [done|]. split; [exact Hrest|]. split; [done|].
  destruct (decide _) as [[Hb Ha]|Hb] in Hctl.
  - left. split; [done|]. split; [done|]. apply bind_Ok in Hctl as (d & Hd & [= <-]). unfold make_controller in Hd. apply bus_key in Hc.
    rewrite !elem_of_cons, elem_of_nil in Hc. clear Hrest. case_decide as H1; [injection Hd as <-; exists "ahci"; unfold SATA_KEY in *; naive_solver|].
    case_decide as H2; [injection Hd as <-; exists "nvme"; unfold NVME_KEY in *; naive_solver|discriminate].
  - right. injection Hctl as <-. split; [|done]. intros Hin. apply dec_stable. naive_solver.
Qed.

(** Every drive is on a controller that is there: one of [have], or added in front of it. *)
Fixpoint carried (have : list Z) (ds : list es_device) : Prop :=
  match ds with
  | [] => True
  | Controller _ k :: ds => carried (k :: have) ds
  | d :: ds => match slot d with Some (c, _) => c ∈ have | None => True end ∧ carried have ds
  end.

(** The devices of the data disks, from the [i]-th on: keys and slots are new and distinct,
    the reserved unit is skipped, a controller comes before what it carries. *)
Record data_fit (i : nat) (refs : list string) (added : gset string) (next : gmap string Z) (ds : list es_device) : Prop := {
  df_slot c u : (c, u) ∈ omap slot ds → ∃ bus n, BUS_CONTROLLER_KEY !! bus = Some c ∧ next !! bus = Some n ∧ (n ≤ u)%Z ∧ ¬ (c = SCSI_KEY ∧ u = SCSI_RESERVED_UNIT);
  df_slots : NoDup (omap slot ds);
  df_key k : k ∈ device_key <$> ds → (∃ j, i ≤ j < i + length refs ∧ k = (- (110 + Z.of_nat j))%Z) ∨
    ∃ bus, bus ∈ ["sata"; "nvme"] ∧ bus ∉ added ∧ BUS_CONTROLLER_KEY !! bus = Some k;
  df_keys : NoDup (device_key <$> ds);
  df_refs : omap disk_ref ds = refs;
  df_nics : omap nic_of ds = [];
  df_carried have : SCSI_KEY ∈ have → IDE1_KEY ∈ have → (∀ bus c, bus ∈ added → BUS_CONTROLLER_KEY !! bus = Some c → c ∈ have) → carried have ds;
}.

Lemma data_fit_nil i added next : data_fit i [] added next [].
Proof. split; try (cbn; set_solver); try constructor; try done. Qed.

Lemma sata_nvme_key bus c : BUS_CONTROLLER_KEY !! bus = Some c → (bus ∈ ["sata"; "nvme"] ↔ c ∈ [SATA_KEY; NVME_KEY]).
Proof.
  intros H%bus_key. rewrite !elem_of_cons, elem_of_nil in H. unfold SCSI_KEY, SATA_KEY, NVME_KEY, IDE1_KEY in *.
  destruct H as [[= -> ->]|[[= -> ->]|[[= -> ->]|[[= -> ->]|[]]]]]; split; intros Hx; by_decide || (exfalso; revert Hx; by_decide).
Qed.
Lemma key_positive bus c : BUS_CONTROLLER_KEY !! bus = Some c → (200 < c)%Z.
Proof.
  intros H%bus_key. rewrite !elem_of_cons, elem_of_nil in H. unfold SCSI_KEY, SATA_KEY, NVME_KEY, IDE1_KEY in *.
  destruct H as [[= -> ->]|[[= -> ->]|[[= -> ->]|[[= -> ->]|[]]]]]; lia.
Qed.
Lemma scsi_key bus : BUS_CONTROLLER_KEY !! bus = Some SCSI_KEY → bus = "scsi".
Proof. intros H. by apply (bus_key_inj bus "scsi" SCSI_KEY). Qed.

Lemma data_fit_step i ref refs (added : gset string) next bus n c ctl rest :
  let u := if decide (bus = "scsi" ∧ n = SCSI_RESERVED_UNIT) then (n + 1)%Z else n in
  let added' := if decide (bus ∈ ["sata"; "nvme"]) then {[bus]} ∪ added else added in
  next !! bus = Some n → BUS_CONTROLLER_KEY !! bus = Some c →
  ((bus ∈ ["sata"; "nvme"] ∧ bus ∉ added ∧ ∃ kind, ctl = [Controller kind c]) ∨ ((bus ∈ ["sata"; "nvme"] → bus ∈ added) ∧ ctl = [])) →
  data_fit (S i) refs added' (<[bus := (u + 1)%Z]> next) rest →
  data_fit i (ref :: refs) added next (ctl ++ VDisk (- (110 + Z.of_nat i)) c ref u :: rest).
Proof.
  intros u added' Hn Hc Hctl [Hslot Hslots Hkey Hkeys Hrefs Hnics Hcar].
  assert (n ≤ u)%Z as Hu by (subst u; case_decide; lia).
  assert (¬ (c = SCSI_KEY ∧ u = SCSI_RESERVED_UNIT)) as Hres.
  { intros [-> Hx]. apply scsi_key in Hc. subst u. unfold SCSI_RESERVED_UNIT in *. case_decide as Hd; [lia|]. naive_solver. }
  assert (omap slot ctl = [] ∧ omap disk_ref ctl = [] ∧ omap nic_of ctl = []) as (Hs0 & Hr0 & Hn0).
  { destruct Hctl as [(_ & _ & kind & ->)|[_ ->]]; done. }
  split.
  - intros c' u'. rewrite omap_app, Hs0. cbn. rewrite elem_of_cons. intros [[= -> ->]|Hin]; [by exists bus, n|].
    apply Hslot in Hin as (bus' & n' & Hb & Hl & Hle & Hx). destruct (decide (bus' = bus)) as [->|Hne].
    + rewrite lookup_insert_eq in Hl. injection Hl as <-. exists bus, n. split_and!; [done|done|lia|done].
    + rewrite lookup_insert_ne in Hl by done. by exists bus', n'.
  - rewrite omap_app, Hs0. cbn. constructor; [|done]. intros Hin. apply Hslot in Hin as (bus' & n' & Hb & Hl & Hle & _).
    rewrite (bus_key_inj _ _ _ Hb Hc), lookup_insert_eq in Hl. injection Hl as <-. lia.
  - intros k. rewrite fmap_app, elem_of_app. cbn. rewrite elem_of_cons. intros [Hk|[->|Hk]].
    + destruct Hctl as [(Hb & Ha & kind & ->)|[_ ->]]; [|by apply elem_of_nil in Hk]. apply list_elem_of_singleton in Hk as ->. right. by exists bus.
    + left. exists i. split; [lia|done].
    + apply Hkey in Hk as [(j & Hj & ->)|(bus' & Hb & Ha & Hb2)]; [left; exists j; split; [lia|done]|right]. exists bus'. split; [done|]. split; [|done].
      subst added'. case_decide; set_solver.
  - rewrite fmap_app. cbn. apply NoDup_app. split_and!.
    + destruct Hctl as [(_ & _ & kind & ->)|[_ ->]]; [apply NoDup_singleton|constructor].
    + destruct Hctl as [(Hb & Ha & kind & ->)|[_ ->]]; [|by intros k Hk%elem_of_nil]. intros k Hk%list_elem_of_singleton. cbn in Hk. subst k.
      pose proof (key_positive _ _ Hc). rewrite elem_of_cons. intros [->|Hk]; [lia|].
      apply Hkey in Hk as [(j & Hj & ->)|(bus' & Hb' & Ha' & Hk)]; [lia|]. rewrite (bus_key_inj _ _ _ Hk Hc) in Ha'.
      subst added'. rewrite decide_True in Ha' by done. set_solver.
    + constructor; [|done]. intros Hk. apply Hkey in Hk as [(j & Hj & Hx)|(bus' & _ & _ & Hk)]; [lia|]. apply key_positive in Hk. lia.
  - rewrite omap_app, Hr0. cbn. by rewrite Hrefs.
  - rewrite omap_app, Hn0. cbn. by rewrite Hnics.
  - intros have Hs Hi Hadd. assert (∀ b' c', b' ∈ added' → BUS_CONTROLLER_KEY !! b' = Some c' → c' ∈ c :: have) as Hadd'.
    { intros b' c' Hb Hk. subst added'. case_decide; [|right; by eapply Hadd]. apply elem_of_union in Hb as [->%elem_of_singleton|Hb].
      - rewrite Hk in Hc. injection Hc as ->. by left.
      - right. by eapply Hadd. }
    destruct Hctl as [(Hb & Ha & kind & ->)|[Hb ->]]; cbn.
    + split; [by left|]. apply Hcar; [by right|by right|done].
    + assert (c ∈ have) as Hch.
      { pose proof Hc as Hk. apply bus_key in Hk. rewrite !elem_of_cons, elem_of_nil in Hk. destruct Hk as [[= -> ->]|[[= -> ->]|[[= -> ->]|[[= -> ->]|[]]]]]; [done| | |done];
          (eapply Hadd; [apply Hb; by_decide|done]). }
      split; [done|]. apply Hcar; [done|done|]. intros b' c' Hb' Hk. specialize (Hadd' b' c' Hb' Hk). apply elem_of_cons in Hadd' as [->|?]; done.
Qed.

Lemma data_devices_fit spec buses i refs added next ds :
  data_disk_devices spec buses i refs added next = Ok ds → data_fit i refs added next ds.
Proof.
  revert i added next ds. induction refs as [|ref refs IH]; intros i added next ds; [intros [= <-]; apply data_fit_nil|].
  intros (bus & n & c & ctl & rest & Hn & Hc & Hrest & -> & Hctl)%data_disk_turn. apply data_fit_step; [done..|]. by apply IH.
Qed.

(** The NICs: where each is attached, and the keys they take. *)
Definition nic_keys (n : nat) : list Z := (λ i, - (200 + Z.of_nat i))%Z <$> seq 0 n.
Definition nic_count (q : EsRequest) : nat := match er_build_nic q with Some _ => 1 | None => length (nics (er_spec q)) end.

Lemma declared_nics_keys plan vm idx ns refs ds :
  declared_nic_devices plan vm idx ns refs = Ok ds →
  device_key <$> ds = (λ i, - (200 + Z.of_nat i))%Z <$> seq idx (length ns) ∧ omap slot ds = [] ∧ omap disk_ref ds = [] ∧
  (∀ have, carried have ds) ∧
  omap nic_of ds = omap (λ p, (λ g, (g, Esxi.compose_mac plan vm (Z.of_nat p.1))) <$> refs !! nh_name (n_network p.2)) (zip (seq idx (length ns)) ns) ∧
  length ds = length ns.
Proof.
  revert idx ds. induction ns as [|n ns IH]; intros idx ds; cbn [declared_nic_devices]; [by intros [= <-]|].
  intros (g & Hg%getitem_Ok & (rest & Hrest & [= <-])%bind_Ok)%bind_Ok. destruct (IH _ _ Hrest) as (H1 & H2 & H3 & H4 & H5 & H6).
  cbn. rewrite Hg, H1, H2, H3, H5. cbn. split_and!; try done. lia.
Qed.

Lemma nic_devices_keys q ds :
  nic_devices q = Ok ds →
  device_key <$> ds = nic_keys (nic_count q) ∧ omap slot ds = [] ∧ omap disk_ref ds = [] ∧ (∀ have, carried have ds) ∧ length (omap nic_of ds) = nic_count q.
Proof.
  unfold nic_devices, nic_count, nic_keys. destruct (er_build_nic q) as [nic|].
  - intros (g & _ & [= <-])%bind_Ok. split_and!; try done.
  - intros H. pose proof (declared_nics_keys _ _ _ _ _ _ H) as (H1 & H2 & H3 & H4 & _ & H6). split_and!; try done.
    clear H1 H2 H3 H4. revert ds H H6. generalize 0. induction (nics (er_spec q)) as [|n ns IH]; intros i ds; cbn [declared_nic_devices]; [by intros [= <-]|].
    intros (g & _ & (rest & Hrest & [= <-])%bind_Ok)%bind_Ok Hlen. cbn in *. by rewrite (IH (S i) rest Hrest ltac:(lia)).
Qed.

Lemma carried_app have ds1 ds2 : carried have ds1 → (∀ have, IDE0_KEY ∈ have → carried have ds2) → IDE0_KEY ∈ have → carried have (ds1 ++ ds2).
Proof.
  intros H1 H2. revert have H1. induction ds1 as [|d ds1 IH]; intros have H1 Hi; [by apply H2|]. destruct d; cbn in *; try (destruct H1 as [Ha H1]; split; [done|by apply IH]).
  apply IH; [done|by right].
Qed.

Lemma cdroms_fit media seed :
  let cd := cdrom_devices media seed in
  NoDup (device_key <$> cd) ∧ (∀ k, k ∈ device_key <$> cd → k = (-301)%Z ∨ k = (-302)%Z) ∧ NoDup (omap slot cd) ∧
  (∀ c u, (c, u) ∈ omap slot cd → c = IDE0_KEY ∧ (0 ≤ u)%Z) ∧ omap disk_ref cd = [] ∧ omap nic_of cd = [] ∧
  (∀ have, IDE0_KEY ∈ have → carried have cd).
Proof.
  destruct media as [m|], seed as [sd|]; cbn; rewrite ?decide_True, ?decide_False by (by intros [? [=]]) || (by eexists);
    (split_and!; [by_decide|intros k; rewrite ?elem_of_cons, ?elem_of_nil; naive_solver|by_decide|intros c u; rewrite ?elem_of_cons, ?elem_of_nil; naive_solver lia|done|done|done]).
Qed.

(** C25: the configuration of a VM fits together.  With at most 90 data disks and 101 NICs
    all devices have different keys; no two drives share a controller and a unit, units
    are not negative and none is the one the SCSI controller has itself; every drive is on
    a controller that the host creates or that the configuration adds, once, in front of
    it; the disks are the OS disk and the data disks in their order, and the boot order
    begins with the OS disk. *)
Theorem esxi_devices_fit ds q front cfg :
  front_devices q = Ok front → vm_config ds q front = Ok cfg →
  length (er_data q) ≤ 90 → nic_count q ≤ 101 →
  NoDup (device_key <$> cf_devices cfg) ∧ NoDup (omap slot (cf_devices cfg)) ∧
  (∀ c u, (c, u) ∈ omap slot (cf_devices cfg) → (0 ≤ u)%Z ∧ (c, u) ≠ (SCSI_KEY, SCSI_RESERVED_UNIT)) ∧
  carried [IDE0_KEY; IDE1_KEY] (cf_devices cfg) ∧
  omap disk_ref (cf_devices cfg) = er_os_disk q :: er_data q ∧
  length (omap nic_of (cf_devices cfg)) = nic_count q ∧
  (∃ boot, cf_boot cfg = BootDisk OS_KEY :: boot) ∧ VDisk OS_KEY SCSI_KEY (er_os_disk q) 0 ∈ cf_devices cfg.
Proof.
  intros (data & Hdata & (ns & Hns & [= <-])%bind_Ok)%bind_Ok (mem & _ & (cpus & _ & [= <-])%bind_Ok)%bind_Ok Hlen Hnic.
  apply data_devices_fit in Hdata as [Hslot Hslots Hkey Hkeys Hrefs Hnics Hcar].
  apply nic_devices_keys in Hns as (Nk & Ns & Nr & Nc & Nn).
  pose proof (cdroms_fit (er_boot_media q) (er_seed q)) as (Ck & Ckeys & Cs & Cslots & Cr & Cn & Cc).
  set (cd := cdrom_devices (er_boot_media q) (er_seed q)) in *. cbn [cf_devices cf_boot].
  assert (∀ k, k ∈ device_key <$> data → (-200 < k ≤ -110)%Z ∨ (k = SATA_KEY ∨ k = NVME_KEY)) as Dk.
  { intros k Hk. apply Hkey in Hk as [(j & Hj & ->)|(bus & Hb & _ & Hk)]; [lia|]. right. apply sata_nvme_key in Hk. apply Hk in Hb. set_solver. }
  assert (∀ k, k ∈ device_key <$> ns → (-301 < k ≤ -200)%Z) as NK.
  { rewrite Nk. unfold nic_keys. intros k (i & -> & Hi%elem_of_seq)%list_elem_of_fmap. lia. }
  unfold SATA_KEY, NVME_KEY in Dk. split_and!.
  - cbn [fmap list_fmap device_key]. rewrite !fmap_app. cbn [fmap list_fmap device_key]. unfold SCSI_KEY, OS_KEY.
    assert (∀ k, k ∈ ((device_key <$> data) ++ (device_key <$> cd) ++ (device_key <$> ns)) ++ [(-400)%Z] → k ≠ 1000%Z ∧ k ≠ (-101)%Z) as Hall.
    { intros k. rewrite !elem_of_app, list_elem_of_singleton. intros [[Hk|[Hk|Hk]]| ->]; [apply Dk in Hk; lia|apply Ckeys in Hk; lia|apply NK in Hk; lia|lia]. }
    constructor; [|constructor; [|]].
    + rewrite elem_of_cons. intros [Hk|Hk]; [lia|apply Hall in Hk; lia].
    + intros Hk. apply Hall in Hk. lia.
    + rewrite !NoDup_app. split_and!; [done| |done| | | |apply NoDup_singleton].
      * intros k Hd. rewrite elem_of_app. intros [Hk|Hk]; [apply Dk in Hd; apply Ckeys in Hk; lia|apply Dk in Hd; apply NK in Hk; lia].
      * intros k Hd Hk. apply Ckeys in Hd. apply NK in Hk. lia.
      * rewrite Nk. unfold nic_keys. apply (NoDup_fmap_2_strong _); [intros i j _ _ Hij; lia|apply NoDup_seq].
      * intros k. rewrite !elem_of_app, list_elem_of_singleton. intros [Hk|[Hk|Hk]] ->; [apply Dk in Hk; lia|apply Ckeys in Hk; lia|apply NK in Hk; lia].
  - cbn. rewrite !omap_app, Ns. cbn. rewrite !app_nil_r. constructor.
    + rewrite elem_of_app. intros [Hin|Hin]; [|apply Cslots in Hin as [Hx _]; done]. apply Hslot in Hin as (bus & n & Hb & Hf & Hle & _). apply scsi_key in Hb as ->.
      vm_compute in Hf. injection Hf as <-. lia.
    + apply NoDup_app. split_and!; [done| |done]. intros [c u] Hd Hin. apply Cslots in Hin as [-> _]. apply Hslot in Hd as (bus & n & Hb & _). apply key_positive in Hb. unfold IDE0_KEY in Hb. lia.
  - cbn. rewrite !omap_app, Ns. cbn. rewrite !app_nil_r. intros c u. rewrite elem_of_cons, elem_of_app. unfold SCSI_KEY, SCSI_RESERVED_UNIT.
    intros [[= -> ->]|[Hin|Hin]]; [done| |apply Cslots in Hin as [-> Hu]; split; [done|by intros [=]]].
    apply Hslot in Hin as (bus & n & _ & Hf & Hle & Hx). split; [|by intros [= -> ->]; apply Hx].
    apply elem_of_list_to_map_2 in Hf. rewrite !elem_of_cons, elem_of_nil in Hf. naive_solver lia.
  - cbn. split; [by left|]. rewrite <-!app_assoc. apply carried_app; [|intros have Hi|by right; left].
    { apply Hcar; [by left|by right; right; left|]. intros bus c Hb. set_solver. }
    apply carried_app; [by apply Cc| |done]. intros have' Hi'. apply carried_app; [apply Nc| |done]. done.
  - cbn. rewrite !omap_app, Hrefs, Cr, Nr. cbn. by rewrite !app_nil_r.
  - cbn. rewrite !omap_app, Hnics, Cn. cbn. by rewrite app_nil_r.
  - by eexists.
  - right. by left.
Qed.

(** ** The serial log *)

Section Sink.
Context {E : Type} {L : EsxiApi E}.
Variable conn : EsxiConn.
Variable vm : string.
Set Default Proof Using "Type".
Abbreviation W := (Remote es_request (EsState E)).
Abbreviation R A := (act W A).

(** The log only grows, and a reply with data has the bytes from the offset on. *)
Definition grows {A} (log : E → bytes) (o : ext_op E A) : Prop := ∀ e r e' dt, o e = (r, e', dt) → log e `prefix_of` log e'.
Record serial_laws (log : E → bytes) : Prop := {
  sl_import : grows log es_import_requests;
  sl_dc : grows log es_datacenter_name;
  sl_vms : grows log es_vms;
  sl_name v : grows log (es_vm_name v);
  sl_power v : grows log (es_power v);
  sl_get url off : grows log (es_get url off);
  sl_sleep d e : log e `prefix_of` log (oversleep d e).2;
  sl_body dc off e reply e' dt : es_get (folder_url conn dc (serial_path vm)) (Some off) e = (Ok reply, e', dt) →
    (hr_status reply = 206%Z → hr_content reply = drop off (log e')) ∧ (hr_status reply = 200%Z → hr_content reply = log e');
}.
(** The service never says that there is nothing while there is something. *)
Definition answers_fully (log : E → bytes) : Prop := ∀ dc off e reply e' dt,
  es_get (folder_url conn dc (serial_path vm)) (Some off) e = (Ok reply, e', dt) →
  hr_status reply ∈ [206; 200]%Z ∨ length (log e') ≤ off ∨ (400 ≤ hr_status reply < 600 ∧ hr_status reply ∉ [404; 416; 429; 503])%Z.

Variable log : E → bytes.
Hypothesis Hlaws : serial_laws log.
Definition log_of (s : W) : bytes := log (es_ext (rm_ext s)).

(** Programs during which the log grows. *)
Definition growing {A} (m : R A) : Prop := ∀ s r s', m s = (r, s') → log_of s `prefix_of` log_of s'.
Lemma growing_ret {A} (a : A) : growing (mret a).
Proof. by intros s r s' [= <- <-]. Qed.
Lemma growing_lift {A} (r : res A) : growing (lift r).
Proof. by intros s r' s' [= <- <-]. Qed.
Lemma growing_bind {A B} (m : R A) (k : A → R B) : growing m → (∀ a, growing (k a)) → growing (m ≫= k).
Proof. intros Hm Hk s r s' [(a & s1 & H1 & H2)|(e & H1 & ->)]%act_bind_inv; [etrans; [by eapply Hm|by eapply Hk]|by eapply Hm]. Qed.
Lemma growing_catch {A} (m : R A) p h : growing m → (∀ e, growing (h e)) → growing (catch m p h).
Proof.
  intros Hm Hh s r s'. unfold catch. destruct (m s) as [[a|e] s1] eqn:Hs; [intros [= <- <-]; by eapply Hm|].
  destruct (p e); [|intros [= <- <-]; by eapply Hm]. intros H. etrans; [by eapply Hm|by eapply Hh].
Qed.
Lemma growing_ask {A} what (o : ext_op E A) : grows log o → growing (ask what o).
Proof.
  intros Ho s r s'. unfold ask, rcall, on_ext, log_of. specialize (Ho (es_ext (rm_ext s))). destruct (o (es_ext (rm_ext s))) as [[r0 e] dt].
  intros [= <- <-]. by eapply Ho.
Qed.
Lemma growing_need f : growing (need f).
Proof. unfold need. apply growing_bind; [by intros s r s' [= <- <-]|intros on]. by intros s r s' [= <- <-]. Qed.
Lemma growing_sleep d : growing (rsleep d : R ()).
Proof using Hlaws.
  intros s r s'. unfold rsleep, oversleep, es_state_sleeper, log_of. pose proof (sl_sleep _ Hlaws d (es_ext (rm_ext s))) as Hs.
  destruct (oversleep d (es_ext (rm_ext s))) as [x e]. intros [= <- <-]. exact Hs.
Qed.
Lemma growing_requests : growing import_requests.
Proof using Hlaws. apply growing_catch; [apply growing_ask, Hlaws|intros e; apply growing_lift]. Qed.
Lemma growing_url p : growing (url_of conn p).
Proof using Hlaws. unfold url_of. apply growing_bind; [apply growing_need|intros _]. apply growing_bind; [apply growing_ask, Hlaws|intros; apply growing_ret]. Qed.
Lemma growing_find name : growing (find_vm name).
Proof using Hlaws.
  unfold find_vm. apply growing_bind; [apply growing_need|intros _]. apply growing_bind; [apply growing_ask, Hlaws|intros vms].
  induction vms as [|v vms IH]; cbn [find_named]; [apply growing_ret|]. apply growing_bind; [apply growing_ask, Hlaws|intros n]. case_decide; [apply growing_ret|exact IH].
Qed.

(** A read of the log: its bytes from the offset on, or nothing. *)
Lemma read_from_exact off s c s' :
  folder_read_from conn (serial_path vm) off s = (Ok c, s') →
  log_of s `prefix_of` log_of s' ∧ ((c = drop off (log_of s')) ∨ (c = [] ∧ (answers_fully log → length (log_of s') ≤ off))).
Proof using Hlaws.
  unfold folder_read_from. intros [([] & s1 & H1%growing_requests & H)|(e & _ & [=])]%act_bind_inv.
  apply act_bind_inv in H as [(url & s2 & Hurl & H)|(e & _ & [=])]. pose proof (growing_url _ _ _ _ Hurl) as H2.
  assert (∃ dc, url = folder_url conn dc (serial_path vm)) as [dc ->].
  { unfold url_of in Hurl. apply act_bind_inv in Hurl as [([] & t1 & _ & Hurl)|(e & _ & [=])].
    apply act_bind_inv in Hurl as [(dc & t2 & _ & [= <- _])|(e & _ & [=])]. by exists dc. }
  apply act_bind_inv in H as [([] & s3 & H3%growing_requests & H)|(e & _ & [=])].
  apply act_bind_inv in H as [(reply & s4 & Hget & H)|(e & _ & [=])].
  assert (log_of s `prefix_of` log_of s4) as Hpre by (etrans; [exact H1|]; etrans; [exact H2|]; etrans; [exact H3|]; eapply growing_ask; [apply (sl_get _ Hlaws)|exact Hget]).
  unfold ask, rcall, on_ext in Hget. destruct (es_get _ _ _) as [[r0 e0] dt] eqn:Hg. injection Hget as -> <-.
  destruct (sl_body _ Hlaws _ _ _ _ _ _ Hg) as [H206 H200]. pose proof (λ Hf : answers_fully log, Hf _ _ _ _ _ _ Hg) as Hfull.
  case_decide as D1; [injection H as <- <-; split; [done|left; by apply H206]|].
  case_decide as D2; [injection H as <- <-; split; [done|left; by rewrite (H200 D2)]|].
  assert (answers_fully log → length (log e0) ≤ off ∨ (400 ≤ hr_status reply < 600 ∧ hr_status reply ∉ [404; 416; 429; 503])%Z) as Hfull'.
  { intros Hf. destruct (Hfull Hf) as [Hx|[Hx|Hx]]; [|by left|by right]. rewrite !elem_of_cons, elem_of_nil in Hx. naive_solver. }
  case_decide as D3.
  - injection H as <- <-. split; [done|]. right. split; [done|]. intros Hf. destruct (Hfull' Hf) as [?|[_ ?]]; done.
  - apply act_bind_inv in H as [([] & s5 & H5 & [= <- <-])|(e & _ & [=])]. unfold raise_for_status, raise_if, lift in H5. case_bool_decide as D4; [discriminate|].
    injection H5 as <-. split; [done|]. right. split; [done|]. intros Hf. destruct (Hfull' Hf) as [?|[? _]]; done.
Qed.

(** What the consumer has got so far, and what the log holds. *)
Definition sink_state (g : es_sink) (got : bytes) (s : W) : Prop :=
  match g with
  | SinkNew => got = []
  | SinkMore off | SinkIdle off => length got = off ∧ got `prefix_of` log_of s
  | SinkLast | SinkDone => got `prefix_of` log_of s ∧ (answers_fully log → got = log_of s)
  end.

Lemma prefix_drop (got l : bytes) : got `prefix_of` l → l = got ++ drop (length got) l.
Proof. intros [k ->]. by rewrite drop_app_length. Qed.

Lemma sink_turn_exact off got s g out s' :
  length got = off → got `prefix_of` log_of s → sink_turn conn vm off s = (Ok (g, out), s') →
  sink_state g (got ++ default [] out) s'.
Proof using Hlaws.
  intros Hoff Hgot. unfold sink_turn. intros [(c & s1 & [Hp1 Hc]%read_from_exact & H)|(e & _ & [=])]%act_bind_inv.
  assert (got `prefix_of` log_of s1) as Hgot1 by (by etrans).
  destruct c as [|x c].
  - apply act_bind_inv in H as [(found & s2 & Hf%growing_find & H)|(e & _ & [=])].
    assert (got `prefix_of` log_of s2) as Hgot2 by (by etrans).
    apply act_bind_inv in H as [(off' & s3 & Hp & H)|(e & _ & [=])].
    assert (got `prefix_of` log_of s3) as Hgot3.
    { destruct found as [v|]; [|by injection Hp as <- <-]. apply act_bind_inv in Hp as [(st & s4 & Hst & [= <- <-])|(e & _ & [=])].
      etrans; [exact Hgot2|]. eapply growing_ask; [apply (sl_power _ Hlaws)|exact Hst]. }
    destruct off'; [|injection H as <- <- <-; cbn; by rewrite app_nil_r].
    apply act_bind_inv in H as [(tail & s4 & [Hp4 Ht]%read_from_exact & [= H <-])|(e & _ & [=])].
    assert (got `prefix_of` log_of s4) as Hgot4 by (by etrans). pose proof (prefix_drop _ _ Hgot4) as Hsplit. rewrite Hoff in Hsplit.
    assert (got ++ tail `prefix_of` log_of s4 ∧ (answers_fully log → got ++ tail = log_of s4)) as Hend.
    { destruct Ht as [->|[-> Hfull]]; [by rewrite <-Hsplit|]. rewrite app_nil_r. split; [done|]. intros Hfu.
      rewrite Hsplit, drop_ge by (by apply Hfull). by rewrite app_nil_r. }
    destruct tail as [|y tail]; injection H as <- <-; exact Hend.
  - injection H as <- <- <-. destruct Hc as [Hc|[[=] _]]. cbn [sink_state default]. split; [by rewrite length_app, Hoff|].
    unfold id. rewrite Hc, <-Hoff. by rewrite <-(prefix_drop _ _ Hgot1).
Qed.

(** [n] times [next(sink)], or up to its end: what it yielded, and where it is. *)
Fixpoint pull (n : nat) (g : es_sink) : R (list bytes * es_sink) :=
  match n with
  | 0 => mret ([], g)
  | S n =>
      r ← sink_next conn vm g;
      match r.2 with
      | None => mret ([], r.1)
      | Some c => rest ← pull n r.1; mret (c :: rest.1, rest.2)
      end
  end.

Lemma sink_next_exact g got s g' out s' :
  sink_state g got s → sink_next conn vm g s = (Ok (g', out), s') → sink_state g' (got ++ default [] out) s'.
Proof using Hlaws.
  destruct g as [|off|off| |]; cbn [sink_next].
  - intros Hg [([] & s1 & H1%growing_need & H)|(e & _ & [=])]%act_bind_inv. cbn in Hg. subst got. eapply sink_turn_exact; [|apply prefix_nil|exact H]. done.
  - intros [Hl Hg] H. by eapply sink_turn_exact.
  - intros [Hl Hg] [([] & s1 & H1%growing_sleep & H)|(e & _ & [=])]%act_bind_inv. eapply sink_turn_exact; [done|by etrans|exact H].
  - intros Hg [= <- <- <-]. cbn. by rewrite app_nil_r.
  - intros Hg [= <- <- <-]. cbn. by rewrite app_nil_r.
Qed.

Lemma pull_exact n g got s outs g' s' :
  sink_state g got s → pull n g s = (Ok (outs, g'), s') → sink_state g' (got ++ concat outs) s'.
Proof using Hlaws.
  revert g got s outs. induction n as [|n IH]; intros g got s outs Hg; cbn [pull]; [intros [= <- <- <-]; cbn; by rewrite app_nil_r|].
  intros [([g1 out] & s1 & H1 & H)|(e & _ & [=])]%act_bind_inv. pose proof (sink_next_exact _ _ _ _ _ _ Hg H1) as Hg1. cbn [fst snd] in H.
  destruct out as [c|]; [|injection H as <- <- <-; exact Hg1].
  apply act_bind_inv in H as [([rest g2] & s2 & H2 & [= <- <- <-])|(e & _ & [=])]. cbn [fst snd concat]. rewrite app_assoc. by eapply IH.
Qed.

(** C26: the sink delivers the serial log.  However the log grows between the polls and
    whatever the file service answers, the pieces the sink has yielded are, joined, the
    beginning of the log: no byte is lost, repeated or out of order; and when the sink has
    ended, on a service that does not refuse a read while there is something to read,
    they are the whole log. *)
Theorem esxi_sink_exact n s outs g s' :
  pull n SinkNew s = (Ok (outs, g), s') →
  concat outs `prefix_of` log_of s' ∧ (g = SinkDone → answers_fully log → concat outs = log_of s').
Proof using Hlaws.
  intros H. pose proof (pull_exact n SinkNew [] s outs g s' eq_refl H) as Hg. rewrite app_nil_l in Hg.
  destruct g; cbn in Hg; [subst; rewrite Hg|destruct Hg|destruct Hg|destruct Hg|destruct Hg]; split; try done. apply prefix_nil.
Qed.
End Sink.

(** ** Sessions *)

Definition is_es_change (q : es_request) : bool := match q with EsRead _ => false | _ => true end.

Section Session.
Context {E : Type} {L : EsxiApi E}.
Variable conn : EsxiConn.
Set Default Proof Using "Type".
Abbreviation W := (Remote es_request (EsState E)).
Abbreviation R A := (act W A).
Abbreviation changes := (changes_of (E:=EsState E) is_es_change).

(** Programs that ask for no change and leave the session as it is. *)
Definition inert {A} (m : R A) : Prop := ∀ s r s', m s = (r, s') → es_si (rm_ext s') = es_si (rm_ext s) ∧ changes s' = changes s.
Lemma inert_lift {A} (r : res A) : inert (lift r).
Proof. by intros s r' s' [= <- <-]. Qed.
Lemma inert_bind {A B} (m : R A) (k : A → R B) : inert m → (∀ a, inert (k a)) → inert (m ≫= k).
Proof.
  intros Hm Hk s r s' [(a & s1 & H1 & H2)|(e & H1 & ->)]%act_bind_inv; destruct (Hm _ _ _ H1) as [Ha Hb]; [|done].
  destruct (Hk _ _ _ _ H2) as [-> ->]. done.
Qed.
Lemma inert_catch {A} (m : R A) p h : inert m → (∀ e, inert (h e)) → inert (catch m p h).
Proof.
  intros Hm Hh s r s'. unfold catch. destruct (m s) as [[a|e] s1] eqn:Hs; destruct (Hm _ _ _ Hs) as [Ha Hb]; [by intros [= <- <-]|].
  destruct (p e); [|by intros [= <- <-]]. intros H. destruct (Hh _ _ _ _ H) as [-> ->]. done.
Qed.
Lemma inert_finally {A} (m : R A) f : inert m → inert f → inert (finally m f).
Proof.
  intros Hm Hf s r s'. unfold finally. destruct (m s) as [r1 s1] eqn:Hs; destruct (Hm _ _ _ Hs) as [Ha Hb].
  destruct (f s1) as [[[]|e] s2] eqn:Hs2; destruct (Hf _ _ _ Hs2) as [Hc Hd]; intros [= <- <-]; rewrite Hc, Hd; done.
Qed.
Lemma inert_ask {A} what (o : ext_op E A) : inert (ask what o).
Proof.
  intros s r s'. unfold ask, rcall, on_ext. destruct (o (es_ext (rm_ext s))) as [[r0 e] dt]. intros [= <- <-]. split; [done|].
  unfold changes_of. cbn [rm_sent]. rewrite filter_app. cbn. by rewrite app_nil_r.
Qed.
Lemma inert_need f : inert (need f).
Proof. unfold need. apply inert_bind; [by intros s r s' [= <- <-]|intros on]. by intros s r s' [= <- <-]. Qed.
Lemma inert_update f : (∀ s, es_si (f s) = es_si s) → inert (update f : R ()).
Proof. intros Hf s r s' [= <- <-]. split; [apply Hf|done]. Qed.
Lemma inert_import : inert (import_pyvmomi : R ()).
Proof. apply inert_catch; [apply inert_ask|intros e; apply inert_lift]. Qed.

Ltac inert := repeat match goal with
  | |- inert (_ ≫= _) => apply inert_bind; [|intros ?]
  | |- inert (ask _ _) => apply inert_ask
  | |- inert (need _) => apply inert_need
  | |- inert (update _) => by apply inert_update
  | |- inert (finally _ _) => apply inert_finally
  | |- inert (mret _) => apply inert_lift
  | |- inert (throw_when _ _ _) => apply inert_lift
  | |- inert (throw _ _) => apply inert_lift
  | |- inert (if _ then _ else _) => case_decide
  end.
Lemma inert_inventory : inert (resolve_inventory conn : R ()).
Proof. unfold resolve_inventory, host_systems, find_datastore. inert. Qed.

(** Everything [connect] resolves is there. *)
Definition client_ready (s : EsState E) : Prop :=
  es_vim s = true ∧ es_si s = true ∧ es_content s = true ∧ es_host s = true ∧ es_compute s = true ∧ es_pool s = true ∧ es_dc s = true ∧ es_ds s = true.

Definition flags (s : W) : bool * bool * bool * bool * bool * bool * bool * bool :=
  let s := rm_ext s in (es_vim s, es_si s, es_content s, es_host s, es_compute s, es_pool s, es_dc s, es_ds s).
Lemma ask_flags {A} what (o : ext_op E A) : okay_on flags (ask what o) (λ v _ v', v' = v).
Proof. intros s r s'. unfold ask, rcall, on_ext. destruct (o (es_ext (rm_ext s))) as [[r0 e] dt]. by intros [= -> <-]. Qed.
Lemma need_flags f : okay_on flags (need f : R ()) (λ v _ v', v' = v).
Proof. eapply okay_weaken; [apply okay_bind; [apply okay_gets|intros on; apply okay_throw_when]|]. by intros v [] v' (on & v1 & -> & _ & ->). Qed.
Lemma finally_flags {A} (m : R A) f :
  okay_on flags m (λ v _ v', v' = v) → okay_on flags f (λ v _ v', v' = v) → okay_on flags (finally m f) (λ v _ v', v' = v).
Proof.
  intros Hm Hf s r s'. unfold finally. destruct (m s) as [[a|x] s1] eqn:Hs; destruct (f s1) as [[[]|y] s2] eqn:Hs2; intros [= <- <-].
  rewrite (Hf _ _ _ Hs2). by apply (Hm _ _ _ Hs).
Qed.
Lemma update_flags f : okay_on flags (update f : R ()) (λ v _ v', ∃ s, v = flags s ∧ v' = flags (MkRemote (f (rm_ext s)) (rm_clock s) (rm_sent s))).
Proof. intros s [] s' [= <-]. by exists s. Qed.

Ltac flag_step := match goal with
  | |- okay_on _ (mret _) _ => apply okay_ret
  | |- okay_on _ (throw_when _ _ _) _ => apply okay_throw_when
  | |- okay_on _ (throw _ _) _ => apply (okay_throw _ _ _ (λ _ _ _, False))
  | |- okay_on _ (ask _ _) _ => apply ask_flags
  | |- okay_on _ (need _) _ => apply need_flags
  | |- okay_on _ (update _) _ => apply update_flags
  | |- okay_on _ (finally _ _) _ => apply finally_flags
  | |- okay_on _ (_ ≫= _) _ => apply okay_bind; [|intros ?]
  | |- okay_on _ (if _ then _ else _) _ => apply okay_if
  end.

Lemma find_datastore_flags name : okay_on flags (find_datastore name : R ()) (λ v _ v', v' = v).
Proof.
  unfold find_datastore. eapply okay_weaken; [apply okay_bind; [apply need_flags|intros ?; apply okay_bind; [apply ask_flags|intros stores]]|].
  - instantiate (1 := λ _ v _ v', v' = v). destruct (decide (name ∈ stores)); [by intros s [] s' [= <-]|].
    eapply okay_weaken; [repeat flag_step|]. cbn beta. intros v [] v' H. naive_solver.
  - cbn beta. naive_solver.
Qed.

Lemma inventory_flags : okay_on flags (resolve_inventory conn : R ()) (λ v _ v',
  let '(vim, si, content, _, _, _, _, _) := v in v' = (vim, si, content, true, true, true, true, true)).
Proof.
  unfold resolve_inventory, host_systems. eapply okay_weaken; [repeat first [apply find_datastore_flags|flag_step]|].
  cbn beta. intros v [] v' H.
  repeat match goal with H : ∃ _, _ |- _ => destruct H as [? H] | H : _ ∧ _ |- _ => destruct H as [? H] end. subst. cbn in *. unfold flags in *. cbn in *. congruence.
Qed.

Lemma close_drops x s r s' :
  (∀ e : E, ∃ e' dt, es_import e = (Ok (), e', dt)) → es_si (rm_ext s) = true → (close;; lift (Raise x) : R ()) s = (r, s') →
  ∃ y, r = Raise y ∧ (is_exception y = true → es_si (rm_ext s') = false ∧ changes s' = changes s ++ [Logout]).
Proof.
  intros Himp Hsi. unfold close.
  assert (∃ s1, import_pyvmomi s = (Ok (), s1)) as [s1 H1].
  { unfold import_pyvmomi, catch, ask, rcall, on_ext. destruct (Himp (es_ext (rm_ext s))) as (e' & dt & ->). by eexists. }
  destruct (inert_import _ _ _ H1) as [_ C1]. intros [([] & s2 & H & [= <- <-])|(e & H & ->)]%act_bind_inv.
  - exists x. split; [done|]. intros _. rewrite act_bind_gets, Hsi in H. apply act_bind_inv in H as [([] & s3 & H3 & H)|(e & _ & [=])].
    injection H as <-. split; [done|]. rewrite (act_bind_Ok _ _ _ _ _ H1) in H3. unfold catch, rcall, on_ext in H3.
    assert (rm_sent s3 = rm_sent s1 ++ [Logout]) as Hs by (destruct (es_logout _) as [[[[]|y] e0] dt]; [by injection H3 as <-|destruct (is_exception y); [by injection H3 as <-|discriminate]]).
    rewrite <-C1. unfold changes_of. cbn [rm_sent]. rewrite Hs, filter_app. done.
  - exists e. split; [done|]. intros Hx. rewrite act_bind_gets, Hsi in H. apply act_bind_inv in H as [([] & s3 & H3 & H)|(y & H3 & [= <-])]; [discriminate|].
    rewrite (act_bind_Ok _ _ _ _ _ H1) in H3. unfold catch, rcall, on_ext in H3.
    destruct (es_logout _) as [[[[]|y] e0] dt]; [discriminate|]. destruct (is_exception y) eqn:Hy; [discriminate|]. injection H3 as <- _. congruence.
Qed.

(** No session is left behind.  When the SDK is installed and the client holds no
    session, [connect] either returns with a session and everything it resolves, or raises
    without one: nothing was opened, the login failed, or the session that was opened was
    closed again, whatever the host answered in between.  (An interrupt is not handled.) *)
Theorem esxi_session_not_leaked s r s' :
  (∀ e : E, ∃ e' dt, es_import e = (Ok (), e', dt)) → es_si (rm_ext s) = false → connect conn s = (r, s') →
  match r with
  | Ok _ => client_ready (rm_ext s') ∧ changes s' = changes s ++ [Login]
  | Raise e => is_exception e = true → es_si (rm_ext s') = false ∧
      ((changes s' = changes s ++ [Login] ∧ ∃ (e0 : E) x e1 dt, es_login e0 = (Raise x, e1, dt)) ∨ changes s' = changes s ++ [Login; Logout])
  end.
Proof.
  intros Himp Hsi. unfold connect.
  assert (∀ t : W, ∃ t', import_pyvmomi t = (Ok (), t')) as Hi.
  { intros t. unfold import_pyvmomi, catch, ask, rcall, on_ext. destruct (Himp (es_ext (rm_ext t))) as (e' & dt & ->). by eexists. }
  destruct (Hi s) as [s1 H1]. rewrite (act_bind_Ok _ _ _ _ _ H1). destruct (inert_import _ _ _ H1) as [Hs1 Hc1].
  set (s2 := MkRemote (set_vim (rm_ext s1)) (rm_clock s1) (rm_sent s1)). rewrite (act_bind_Ok (update set_vim) _ s1 () s2) by done.
  intros [([] & s3 & Hlog & H)|(e & Hlog & ->)]%act_bind_inv.
  - assert (changes s3 = changes s ++ [Login] ∧ flags s3 = flags s2) as [Hc3 Hf3].
    { unfold catch, rcall, on_ext in Hlog. destruct (es_login _) as [[[[]|x] e0] dt]; [|by destruct (is_exception x)].
      injection Hlog as <-. split; [|done]. rewrite <-Hc1. unfold changes_of, s2. cbn [rm_sent]. by rewrite filter_app. }
    set (s4 := MkRemote (set_si true (rm_ext s3)) (rm_clock s3) (rm_sent s3)) in *. rewrite (act_bind_Ok (update (set_si true)) _ s3 () s4) in H by done.
    assert (es_vim (rm_ext s4) = true) as Hv4 by (unfold flags in Hf3; cbn in Hf3; cbn; congruence).
    unfold catch in H. destruct ((ask "RetrieveContent" es_retrieve;; update (set_content true);; resolve_inventory conn) s4) as [[[]|x] s5] eqn:Hm.
    + injection H as <- <-. apply act_bind_inv in Hm as [([] & s6 & Ha & Hm)|(e & _ & [=])]. pose proof (ask_flags _ _ _ _ _ Ha) as F6. destruct (inert_ask _ _ _ _ _ Ha) as [_ C6].
      set (s7 := MkRemote (set_content true (rm_ext s6)) (rm_clock s6) (rm_sent s6)) in *. rewrite (act_bind_Ok (update (set_content true)) _ s6 () s7) in Hm by done.
      pose proof (inventory_flags _ _ _ Hm) as F. destruct (inert_inventory _ _ _ Hm) as [_ C7]. split; [|rewrite C7; change (changes s7) with (changes s6); by rewrite C6].
      assert (es_si (rm_ext s4) = true ∧ es_content (rm_ext s7) = true) as [Hsi4 Hct7] by done. unfold flags in F, F6. simplify_eq/=. unfold client_ready. split_and!; congruence.
    + assert (es_si (rm_ext s5) = true ∧ changes s5 = changes s ++ [Login]) as [Hs5 Hc5].
      { assert (inert (ask "RetrieveContent" es_retrieve;; update (set_content true);; resolve_inventory conn : R ())) as Hin.
        { apply inert_bind; [apply inert_ask|intros _]. apply inert_bind; [by apply inert_update|intros _]. apply inert_inventory. }
        destruct (Hin _ _ _ Hm) as [-> ->]. done. }
      destruct (is_exception x) eqn:Hx; [|injection H as <- <-; congruence]. destruct (close_drops x s5 r s' Himp Hs5 H) as (y & -> & Hy).
      intros Hex. destruct (Hy Hex) as [? Hc]. split; [done|]. right. by rewrite Hc, Hc5, <-app_assoc.
  - intros _. unfold catch, rcall, on_ext in Hlog. destruct (es_login _) as [[[[]|x] e0] dt] eqn:Hl; [discriminate|].
    assert (s' = MkRemote (set_ext e0 (rm_ext s2)) (rm_clock s2 + Z.of_nat dt) (rm_sent s2 ++ [Login])) as -> by (by destruct (is_exception x); injection Hlog as _ <-).
    split; [cbn; congruence|]. left. split; [|eauto]. rewrite <-Hc1. unfold changes_of, s2. cbn [rm_sent]. by rewrite filter_app.
Qed.
End Session.
