(* ===== verification/EsxiNet.v ===== *)
(** * The network fabric of an ESXi host

    [Fabric] is what the host has: standard vSwitches, portgroups on them, VMkernel NICs on
    portgroups.  [FabricLaws] states what vSphere documents of the calls the driver makes.
    The switches of a run that are up are a list ([live]); every operation of [_net.py]
    changes the fabric as it changes that list ([fabric_step]), so that a run whose
    switches are gone leaves the fabric as it was. *)

From S2P Require Import Prelude Exceptions Eff PyBytes Url Conn Sha256 Naming Ipv4 Devices Remote HostTools EsxiDriver EsxiSpec.
From stdpp Require Import infinite options.

Record Fabric : Type := MkFabric {
  vswitches : gset string;
  groups : gmap string string;
  vmks : gmap string string;
}.

Definition fab_switches (x : gset string) (f : Fabric) : Fabric := MkFabric x (groups f) (vmks f).
Definition fab_groups (x : gmap string string) (f : Fabric) : Fabric := MkFabric (vswitches f) x (vmks f).
Definition fab_vmks (x : gmap string string) (f : Fabric) : Fabric := MkFabric (vswitches f) (groups f) x.

(** The effect of a change of the network system that succeeded. *)
Definition effect (q : es_request) (f f' : Fabric) : Prop :=
  match q with
  | AddSwitch n _ => f' = fab_switches ({[n]} ∪ vswitches f) f
  | RemoveSwitch n => f' = fab_switches (vswitches f ∖ {[n]}) f
  | AddGroup n v => f' = fab_groups (<[n := v]> (groups f)) f
  | RemoveGroup n => f' = fab_groups (delete n (groups f)) f
  | AddVnic pg _ _ => ∃ d, vmks f !! d = None ∧ f' = fab_vmks (<[d := pg]> (vmks f)) f
  | RemoveVnic d => f' = fab_vmks (delete d (vmks f)) f
  | _ => True
  end.

Class FabricLaws (E : Type) {L : EsxiApi E} : Type := {
  es_fabric : E → Fabric;
  fl_vswitches e l e' dt : es_vswitches e = (Ok l, e', dt) → es_fabric e' = es_fabric e ∧ ∀ v, v ∈ l ↔ v ∈ vswitches (es_fabric e);
  fl_portgroups e l e' dt : es_portgroups e = (Ok l, e', dt) → es_fabric e' = es_fabric e ∧ ∀ n v, (n, v) ∈ l ↔ groups (es_fabric e) !! n = Some v;
  fl_vnics e l e' dt : es_vnics e = (Ok l, e', dt) → es_fabric e' = es_fabric e ∧ ∀ d p, (d, p) ∈ l ↔ vmks (es_fabric e) !! d = Some p;
  fl_do q e e' dt : es_do q e = (Ok (), e', dt) → effect q (es_fabric e) (es_fabric e');
}.

(** ** What the operations do *)

Section Ops.
Context {E : Type} {L : EsxiApi E} {D : FabricLaws E}.
Set Default Proof Using "Type".
Abbreviation W := (Remote es_request (EsState E)).
Abbreviation R A := (act W A).
Definition fabric (s : W) : Fabric := es_fabric (es_ext (rm_ext s)).
Abbreviation okay := (okay_on fabric).

Lemma okay_need f : okay (need f : R ()) (λ v _ v', v' = v).
Proof. eapply okay_weaken; [apply okay_bind; [apply okay_gets|intros on; apply okay_throw_when]|]. by intros v [] v' (on & v1 & -> & _ & ->). Qed.
Lemma okay_read {A} what (o : ext_op E A) (P : Fabric → A → Prop) :
  (∀ e a e' dt, o e = (Ok a, e', dt) → es_fabric e' = es_fabric e ∧ P (es_fabric e) a) →
  okay (need es_host;; ask what o) (λ f a f', f' = f ∧ P f a).
Proof.
  intros Ho s a s' [([] & s1 & H1%okay_need & H)|(e & _ & [=])]%act_bind_inv. unfold ask, rcall, on_ext in H.
  destruct (o _) as [[r e] dt] eqn:Hs. injection H as -> <-. rewrite <-H1. exact (Ho _ _ _ _ Hs).
Qed.
Lemma okay_vswitches : okay (vswitch_names : R (list string)) (λ f l f', f' = f ∧ ∀ v, v ∈ l ↔ v ∈ vswitches f).
Proof. apply okay_read, fl_vswitches. Qed.
Lemma okay_portgroups : okay (portgroups : R (list (string * string))) (λ f l f', f' = f ∧ ∀ n v, (n, v) ∈ l ↔ groups f !! n = Some v).
Proof. apply okay_read, fl_portgroups. Qed.
Lemma okay_vnics : okay (vnics : R (list (string * string))) (λ f l f', f' = f ∧ ∀ d p, (d, p) ∈ l ↔ vmks f !! d = Some p).
Proof. apply okay_read, fl_vnics. Qed.
Lemma okay_change q : okay (network_request q : R ()) (λ f _ f', effect q f f').
Proof.
  intros s [] s' [([] & s1 & H1%okay_need & H)|(e & _ & [=])]%act_bind_inv. unfold request, rcall, on_ext in H.
  destruct (es_do q _) as [[r e] dt] eqn:Ho. injection H as -> <-. rewrite <-H1. exact (fl_do _ _ _ _ Ho).
Qed.

Lemma listed {V} (l : list (string * V)) (m : gmap string V) n :
  (∀ k v, (k, v) ∈ l ↔ m !! k = Some v) → n ∈ l.*1 ↔ is_Some (m !! n).
Proof.
  intros H. rewrite list_elem_of_fmap. split.
  - intros ([k v] & -> & Hk%H). by eexists.
  - intros [v Hv]. exists (n, v). split; [done|by apply H].
Qed.

Lemma okay_vim_change q : okay (need es_vim;; network_request q : R ()) (λ f _ f', effect q f f').
Proof. intros s [] s' [([] & s1 & H1%okay_need & H)|(e & _ & [=])]%act_bind_inv. rewrite <-H1. by apply okay_change in H. Qed.

Lemma add_vswitch_okay n p : okay (add_vswitch n p : R ()) (λ f _ f', f' = fab_switches ({[n]} ∪ vswitches f) f).
Proof.
  intros s [] s' [(have & s1 & [H1 Hl]%okay_vswitches & H)|(e & _ & [=])]%act_bind_inv. rewrite <-H1 in *. case_decide as Hn.
  - injection H as <-. apply Hl in Hn. destruct (fabric s1) as [vs g k]. unfold fab_switches. cbn in *. f_equal. set_solver.
  - by apply okay_vim_change in H.
Qed.

Definition with_group (g v : string) (f : Fabric) : Fabric := if decide (is_Some (groups f !! g)) then f else fab_groups (<[g := v]> (groups f)) f.
Lemma add_portgroup_okay g v : okay (add_portgroup g v : R ()) (λ f _ f', f' = with_group g v f).
Proof.
  intros s [] s' [(have & s1 & [H1 Hl]%okay_portgroups & H)|(e & _ & [=])]%act_bind_inv. rewrite <-H1 in *.
  pose proof (listed have _ g Hl) as Hi. unfold with_group. case_decide as Hn.
  - injection H as <-. rewrite decide_True; [done|]. by apply Hi.
  - apply okay_vim_change in H. rewrite decide_False; [done|]. by rewrite <-Hi.
Qed.

(** A VMkernel NIC on a portgroup that may have one. *)
Definition with_vmk (pg : string) (f f' : Fabric) : Prop :=
  f' = f ∨ ∃ d, vmks f !! d = None ∧ f' = fab_vmks (<[d := pg]> (vmks f)) f.
Lemma add_mgmt_vmk_okay pg sw : okay (add_mgmt_vmk pg sw : R ()) (λ f _ f', with_vmk pg f f').
Proof.
  intros s [] s' [(have & s1 & [H1 Hl]%okay_vnics & H)|(e & _ & [=])]%act_bind_inv. rewrite <-H1 in *. case_decide as Hn; [injection H as <-; by left|].
  apply act_bind_inv in H as [([] & s2 & H2%okay_need & H)|(e & _ & [=])]. rewrite <-H2 in *.
  apply act_bind_inv in H as [(ip & s3 & [= _ <-] & H)|(e & _ & [=])]. apply act_bind_inv in H as [(net & s4 & [= _ <-] & H)|(e & _ & [=])].
  right. by apply okay_change in H.
Qed.

(** Removing the listed objects that satisfy [P]. *)
Lemma removals_okay (P : string * string → Prop) `{!∀ x, Decision (P x)} (q : string → es_request) (f1 : string → Fabric → Fabric) (key : string * string → string) l :
  (∀ n f f', effect (q n) f f' → f' = f1 n f) →
  okay (forA (λ x, if decide (P x) then network_request (q (key x)) else mret ()) l : R ())
    (λ f _ f', f' = foldl (λ f x, if decide (P x) then f1 (key x) f else f) f l).
Proof.
  intros Hq. unfold forA. induction l as [|x l IH]; intros s [] s'; cbn [foldA foldl]; [by intros [= <-]|].
  intros [([] & s1 & H1 & H2)|(e & _ & [=])]%act_bind_inv. apply IH in H2. rewrite H2. case_decide; [|by injection H1 as <-].
  apply okay_change, Hq in H1. by rewrite H1.
Qed.
End Ops.

(** Deleting from a map the keys a list names is a filter, when the list is the map. *)
Lemma foldl_delete (P : string * string → Prop) `{!∀ x, Decision (P x)} (l : list (string * string)) (m : gmap string string) :
  (∀ k v, (k, v) ∈ l → m !! k = Some v ∨ m !! k = None) →
  foldl (λ m x, if decide (P x) then delete x.1 m else m) m l = filter (λ kv, ¬ (kv ∈ l ∧ P kv)) m.
Proof.
  revert m. induction l as [|[k v] l IH]; intros m Hl; cbn [foldl].
  - symmetry. apply map_filter_id. intros k x _ [Hk _]. by apply elem_of_nil in Hk.
  - rewrite IH.
    + apply map_eq. intros k'. apply option_eq. intros v'. rewrite !map_lookup_filter_Some. cbn [fst snd]. case_decide as Hp.
      * rewrite lookup_delete_Some, elem_of_cons. split.
        { intros [[Hne Hk'] Hx]. split; [done|]. intros [[[= -> ->]|Hin] HP]; [done|by apply Hx]. }
        { intros [Hk' Hx]. assert (k ≠ k') as Hne.
          { intros ->. destruct (Hl k' v) as [Hv|Hv]; [by left|rewrite Hk' in Hv; injection Hv as ->; apply Hx; by split; [left|]|congruence]. }
          split; [done|]. intros [Hin HP]. apply Hx. split; [by right|done]. }
      * rewrite elem_of_cons. split; intros [Hk' Hx]; (split; [done|]); intros [Hin HP]; apply Hx; [|by split; [right|]].
        destruct Hin as [[= -> ->]|Hin]; [done|by split].
    + intros k' v' Hin. case_decide; [|apply Hl; by right]. destruct (decide (k' = k)) as [->|Hne]; [right; apply lookup_delete_eq|].
      rewrite lookup_delete_ne by done. apply Hl. by right.
Qed.

(** ** Names *)

Abbreviation vs := Esxi.vswitch_name.
Abbreviation up_vs := Esxi.uplink_vswitch_name.
Abbreviation mgmt_pg := Esxi.mgmt_portgroup_name.
Abbreviation up_pg := Esxi.uplink_portgroup_name.
Abbreviation net_pg := Esxi.portgroup_name.

#[local] Arguments Esxi.short : simpl never.
#[local] Arguments Esxi.vswitch_name : simpl never.
#[local] Arguments Esxi.uplink_vswitch_name : simpl never.
#[local] Arguments Esxi.mgmt_portgroup_name : simpl never.
#[local] Arguments Esxi.uplink_portgroup_name : simpl never.
#[local] Arguments Esxi.portgroup_name : simpl never.

(** The kind of a name is its prefix; the rest is the hash of what it is for. *)
Lemma short_parts p x : length (b p) = 4 → take 4 (b (Esxi.short p x)) = b p ∧ drop 4 (b (Esxi.short p x)) = take 8 (sha1_chars (b x)).
Proof. intros Hp. unfold Esxi.short. rewrite b_str. split; [by rewrite take_app_length' | by rewrite drop_app_length']. Qed.
Lemma short_kind p p' x y : length (b p) = 4 → length (b p') = 4 → Esxi.short p x = Esxi.short p' y → b p = b p'.
Proof. intros Hp Hp' H. destruct (short_parts p x Hp) as [H1 _], (short_parts p' y Hp') as [H2 _]. rewrite H in H1. congruence. Qed.
Lemma short_same p x y : length (b p) = 4 → Esxi.short p x = Esxi.short p y → take 8 (sha1_chars (b x)) = take 8 (sha1_chars (b y)).
Proof. intros Hp H. destruct (short_parts p x Hp) as [_ H1], (short_parts p y Hp) as [_ H2]. rewrite H in H1. congruence. Qed.
Lemma tr_short p x : length (b p) = 4 → take 2 (b p) = b "tr" → starts_with (b "tr") (b (Esxi.short p x)) = true.
Proof.
  intros Hp Ht. unfold Esxi.short. rewrite b_str. apply starts_with_spec. exists (drop 2 (b p) ++ take 8 (sha1_chars (b x))).
  rewrite app_assoc, <-Ht. by rewrite take_drop.
Qed.
Ltac kinds := match goal with H : ?f ?x = ?g ?y |- _ => exfalso; revert H; intros H%short_kind; [discriminate H|reflexivity|reflexivity] end.

(** ** What [destroy_switch] leaves *)

Definition drop_mgmt (n : string) (f : Fabric) : Fabric :=
  if decide (is_Some (groups f !! mgmt_pg n))
  then MkFabric (vswitches f) (delete (mgmt_pg n) (groups f)) (filter (λ kv, kv.2 ≠ mgmt_pg n) (vmks f)) else f.
Definition tr_on (v : string) (f : Fabric) : Prop := ∃ g, groups f !! g = Some v ∧ starts_with (b "tr") (b g) = true.
Global Instance tr_on_dec v f : Decision (tr_on v f).
Proof.
  refine (cast_if (decide (filter (λ kv, kv.2 = v ∧ starts_with (b "tr") (b kv.1) = true) (groups f) ≠ ∅))).
  - abstract (match goal with H : _ ≠ ∅ |- _ => apply map_choose in H as (g & x & [Hg [Hv Ht]]%map_lookup_filter_Some); cbn in *; subst; by exists g end).
  - abstract (match goal with H : ¬ _ ≠ ∅ |- _ => intros (g & Hg & Ht); apply H; intros He; apply (map_empty (filter _ (groups f)) ) with (i:=g) in He; apply map_lookup_filter_None in He as [He|He]; [congruence|by apply (He v)] end).
Defined.
Definition drop_uplink (n : string) (f : Fabric) : Fabric :=
  match groups f !! up_pg n with
  | Some uv => let f := fab_groups (delete (up_pg n) (groups f)) f in
               if decide (tr_on uv f) then f else fab_switches (vswitches f ∖ {[uv]}) f
  | None => f
  end.
Definition drop_switch (n : string) (f : Fabric) : Fabric :=
  MkFabric (vswitches f ∖ {[vs n]}) (filter (λ kv, kv.2 ≠ vs n) (groups f)) (vmks f).

Lemma without_absent (X : gset string) x : x ∉ X → X ∖ {[x]} = X.
Proof. set_solver. Qed.

(** Removing, one by one, what a listing of the map shows. *)
Lemma listing_removed (l : list (string * string)) (m : gmap string string) (x : string) :
  (∀ k v, (k, v) ∈ l ↔ m !! k = Some v) →
  foldl (λ m kv, if decide (kv.2 = x) then delete kv.1 m else m) m l = filter (λ kv, kv.2 ≠ x) m.
Proof.
  intros Hl. rewrite (foldl_delete (λ kv, kv.2 = x)); [|intros k v Hk; left; by apply Hl].
  apply map_filter_ext. intros k v Hk. cbn. rewrite Hl. naive_solver.
Qed.
Lemma foldl_vmks (P : string * string → Prop) `{!∀ x, Decision (P x)} l f :
  foldl (λ f x, if decide (P x) then fab_vmks (delete x.1 (vmks f)) f else f) f l = fab_vmks (foldl (λ m x, if decide (P x) then delete x.1 m else m) (vmks f) l) f.
Proof. revert f. induction l as [|x l IH]; intros f; cbn [foldl]; [by destruct f|]. rewrite IH. by case_decide. Qed.
Lemma foldl_groups (P : string * string → Prop) `{!∀ x, Decision (P x)} l f :
  foldl (λ f x, if decide (P x) then fab_groups (delete x.1 (groups f)) f else f) f l = fab_groups (foldl (λ m x, if decide (P x) then delete x.1 m else m) (groups f) l) f.
Proof. revert f. induction l as [|x l IH]; intros f; cbn [foldl]; [by destruct f|]. rewrite IH. by case_decide. Qed.

(** [{name: pg ...}[name]], of a listing *)
Lemma vswitch_of_listing l (m : gmap string string) n : (∀ k v, (k, v) ∈ l ↔ m !! k = Some v) → vswitch_of l n = m !! n.
Proof.
  intros Hl. unfold vswitch_of. destruct (m !! n) as [v|] eqn:Hn.
  - assert ((n, v) ∈ filter (λ pg, pg.1 = n) l) as Hin by (apply list_elem_of_filter; split; [done|by apply Hl]).
    destruct (filter (λ pg, pg.1 = n) l) as [|x fl] eqn:Hf using rev_ind; [by apply elem_of_nil in Hin|]. rewrite last_snoc. cbn. f_equal.
    assert (x ∈ filter (λ pg, pg.1 = n) l) as Hx by (rewrite Hf; set_solver). apply list_elem_of_filter in Hx as [Hx1 Hx2]. destruct x as [k w]. cbn in *. subst k.
    apply Hl in Hx2. congruence.
  - destruct (filter (λ pg, pg.1 = n) l) as [|[k w] fl] eqn:Hf; [done|].
    assert ((k, w) ∈ filter (λ pg, pg.1 = n) l) as Hx by (rewrite Hf; by left). apply list_elem_of_filter in Hx as [Hx1 Hx2%Hl]. cbn in Hx1. congruence.
Qed.

Section Destroy.
Context {E : Type} {L : EsxiApi E} {D : FabricLaws E}.
Set Default Proof Using "Type".
Abbreviation W := (Remote es_request (EsState E)).
Abbreviation R A := (act W A).
Abbreviation okay := (okay_on fabric).

Lemma remove_vmk_okay pg : okay (remove_vmk_on pg : R ()) (λ f _ f', f' = fab_vmks (filter (λ kv, kv.2 ≠ pg) (vmks f)) f).
Proof.
  intros s [] s' [(have & s1 & [H1 Hl]%okay_vnics & H)|(e & _ & [=])]%act_bind_inv. rewrite <-H1 in *.
  apply (removals_okay (λ v, v.2 = pg) RemoveVnic (λ d f, fab_vmks (delete d (vmks f)) f) fst) in H; [|done].
  rewrite H, foldl_vmks. by rewrite listing_removed.
Qed.

Lemma destroy_mgmt_okay n pgs :
  okay (if decide (mgmt_pg n ∈ pgs.*1) then remove_vmk_on (mgmt_pg n);; network_request (RemoveGroup (mgmt_pg n)) else mret () : R ())
    (λ f _ f', (∀ k v, (k, v) ∈ pgs ↔ groups f !! k = Some v) → f' = drop_mgmt n f).
Proof.
  intros s [] s' H Hl. pose proof (listed pgs _ (mgmt_pg n) Hl) as Hi. unfold drop_mgmt. case_decide as Hn.
  - apply act_bind_inv in H as [([] & s1 & H1%remove_vmk_okay & H)|(e & _ & [=])]. apply okay_change in H. cbn in H. rewrite decide_True by (by apply Hi).
    rewrite H, H1. done.
  - injection H as <-. rewrite decide_False; [done|]. by rewrite <-Hi.
Qed.

Lemma destroy_uplink_okay n o :
  okay (match o with
        | Some uv =>
            network_request (RemoveGroup (up_pg n));;
            now ← portgroups;
            let remaining := filter (λ pg, pg.2 = uv ∧ starts_with (b "tr") (b pg.1) = true) now in
            if decide (remaining = []) then
              have ← vswitch_names;
              if decide (uv ∈ have) then network_request (RemoveSwitch uv) else mret ()
            else mret ()
        | None => mret ()
        end : R ()) (λ f _ f', o = groups f !! up_pg n → f' = drop_uplink n f).
Proof.
  intros s [] s' H ->. unfold drop_uplink. destruct (groups (fabric s) !! up_pg n) as [uv|]; [|by injection H as <-].
  apply act_bind_inv in H as [([] & s1 & H1%okay_change & H)|(e & _ & [=])]. cbn in H1.
  apply act_bind_inv in H as [(now & s2 & [H2 Hl]%okay_portgroups & H)|(e & _ & [=])]. rewrite <-H2 in *. rewrite <-H1. cbv zeta in H |- *.
  assert (filter (λ pg, pg.2 = uv ∧ starts_with (b "tr") (b pg.1) = true) now = [] ↔ ¬ tr_on uv (fabric s2)) as Hrem.
  { split.
    - intros Hnil (g & Hg & Ht). apply Hl in Hg. assert ((g, uv) ∈ filter (λ pg, pg.2 = uv ∧ starts_with (b "tr") (b pg.1) = true) now) as Hx by (by apply list_elem_of_filter).
      rewrite Hnil in Hx. by apply elem_of_nil in Hx.
    - intros Hno. destruct (filter _ now) as [|[g v] fl] eqn:Hf; [done|]. exfalso. apply Hno.
      assert ((g, v) ∈ filter (λ pg, pg.2 = uv ∧ starts_with (b "tr") (b pg.1) = true) now) as Hx by (rewrite Hf; by left).
      apply list_elem_of_filter in Hx as [[Hv Ht] Hg%Hl]. cbn in *. subst v. by exists g. }
  destruct (decide (filter _ now = [])) as [Hn|Hn].
  - rewrite decide_False by (by apply Hrem). apply act_bind_inv in H as [(have & s3 & [H3 Hv]%okay_vswitches & H)|(e & _ & [=])]. rewrite <-H3 in *.
    case_decide as Hin; [by apply okay_change in H|]. injection H as <-. rewrite Hv in Hin. unfold fab_switches. rewrite without_absent by done. by destruct (fabric s3).
  - injection H as <-. rewrite decide_True; [done|]. apply dec_stable. by rewrite <-Hrem.
Qed.

Lemma net_destroy_switch_okay n : okay (net_destroy_switch n : R ()) (λ f _ f', f' = drop_switch n (drop_uplink n (drop_mgmt n f))).
Proof.
  unfold net_destroy_switch. intros s [] s'. intros [(pgs & s1 & [H1 Hl]%okay_portgroups & H)|(e & _ & [=])]%act_bind_inv. rewrite <-H1 in *.
  apply act_bind_inv in H as [([] & s2 & H2%destroy_mgmt_okay & H)|(e & _ & [=])]. specialize (H2 Hl).
  apply act_bind_inv in H as [([] & s3 & H3%destroy_uplink_okay & H)|(e & _ & [=])].
  assert (vswitch_of pgs (up_pg n) = groups (fabric s2) !! up_pg n) as Hup.
  { rewrite (vswitch_of_listing _ _ _ Hl), H2. unfold drop_mgmt. case_decide; [|done]. cbn. rewrite lookup_delete_ne; [done|]. intros Hx. kinds. }
  specialize (H3 Hup). rewrite <-H2, <-H3. clear H1 H2 H3 Hl Hup.
  apply act_bind_inv in H as [(now & s4 & [H4 Hl]%okay_portgroups & H)|(e & _ & [=])]. rewrite <-H4 in *.
  apply act_bind_inv in H as [([] & s5 & H5 & H)|(e & _ & [=])].
  apply (removals_okay (λ pg, pg.2 = vs n) RemoveGroup (λ g f, fab_groups (delete g (groups f)) f) fst) in H5; [|done].
  rewrite foldl_groups, listing_removed in H5 by done.
  apply act_bind_inv in H as [(have & s6 & [H6 Hv]%okay_vswitches & H)|(e & _ & [=])]. rewrite <-H6 in *. unfold drop_switch. case_decide as Hin.
  - apply okay_change in H. cbn in H. by rewrite H, H5.
  - injection H as <-. rewrite Hv in Hin. rewrite H5 in *. unfold fab_groups in *. cbn in *. by rewrite without_absent.
Qed.
End Destroy.

(** ** The switches of a run *)

(** A switch that is up: its name, whether the host is on it, the physical NIC its uplink
    resolved to, and the networks on it. *)
Record live : Type := MkLive { li_name : string; li_mgmt : bool; li_up : option string; li_nets : list string }.

Definition groups_of (x : live) : list (string * string) :=
  (if li_mgmt x then [(mgmt_pg (li_name x), vs (li_name x))] else []) ++
  match li_up x with Some p => [(up_pg (li_name x), up_vs p)] | None => [] end ++
  ((λ m, (net_pg m, vs (li_name x))) <$> li_nets x).
Definition switches_of (x : live) : list string := vs (li_name x) :: match li_up x with Some p => [up_vs p] | None => [] end.

Lemma elem_groups_of x g v :
  (g, v) ∈ groups_of x ↔ (li_mgmt x = true ∧ g = mgmt_pg (li_name x) ∧ v = vs (li_name x)) ∨
    (∃ p, li_up x = Some p ∧ g = up_pg (li_name x) ∧ v = up_vs p) ∨ (∃ m, m ∈ li_nets x ∧ g = net_pg m ∧ v = vs (li_name x)).
Proof.
  unfold groups_of. rewrite !elem_of_app, list_elem_of_fmap. split.
  - intros [H|[H|(m & [= -> ->] & Hm)]].
    + destruct (li_mgmt x); [|by apply elem_of_nil in H]. apply list_elem_of_singleton in H as [= -> ->]. by left.
    + right. left. destruct (li_up x) as [p|]; [|by apply elem_of_nil in H]. apply list_elem_of_singleton in H as [= -> ->]. by exists p.
    + right. right. by exists m.
  - intros [(Hx & -> & ->)|[(p & Hx & -> & ->)|(m & Hm & -> & ->)]].
    + left. rewrite Hx. by left.
    + right. left. rewrite Hx. by left.
    + right. right. by exists m.
Qed.
Lemma elem_switches_of x v : v ∈ switches_of x ↔ v = vs (li_name x) ∨ ∃ p, li_up x = Some p ∧ v = up_vs p.
Proof. unfold switches_of. rewrite elem_of_cons. destruct (li_up x) as [p|]; [rewrite list_elem_of_singleton|rewrite elem_of_nil]; naive_solver. Qed.

(** What is left, in terms of what there was. *)
Lemma dropped_groups n f g v :
  groups (drop_switch n (drop_uplink n (drop_mgmt n f))) !! g = Some v ↔ groups f !! g = Some v ∧ g ≠ mgmt_pg n ∧ g ≠ up_pg n ∧ v ≠ vs n.
Proof.
  assert (∀ m : gmap string string, filter (λ kv, kv.2 ≠ vs n) m !! g = Some v ↔ m !! g = Some v ∧ v ≠ vs n) as Hf by (intros m; by rewrite map_lookup_filter_Some).
  assert (∀ f0, groups (drop_mgmt n f0) !! g = Some v ↔ groups f0 !! g = Some v ∧ g ≠ mgmt_pg n) as Hm.
  { intros f0. unfold drop_mgmt. case_decide as Hd; cbn [groups]; [rewrite lookup_delete_Some; naive_solver|]. split; [|by intros [? _]]. intros Hg. split; [done|]. intros ->. apply Hd. by eexists. }
  assert (∀ f0, groups (drop_uplink n f0) !! g = Some v ↔ groups f0 !! g = Some v ∧ g ≠ up_pg n) as Hu.
  { intros f0. unfold drop_uplink. destruct (groups f0 !! up_pg n) as [uv|] eqn:Hd.
    - assert (groups (if decide (tr_on uv (fab_groups (delete (up_pg n) (groups f0)) f0)) then fab_groups (delete (up_pg n) (groups f0)) f0
        else fab_switches (vswitches (fab_groups (delete (up_pg n) (groups f0)) f0) ∖ {[uv]}) (fab_groups (delete (up_pg n) (groups f0)) f0)) = delete (up_pg n) (groups f0)) as -> by (by case_decide).
      rewrite lookup_delete_Some. naive_solver.
    - split; [|by intros [? _]]. intros Hg. split; [done|]. intros ->. congruence. }
  unfold drop_switch. cbn [groups]. rewrite Hf, Hu, Hm. tauto.
Qed.

Lemma dropped_vmks n f d p :
  vmks (drop_switch n (drop_uplink n (drop_mgmt n f))) !! d = Some p ↔ vmks f !! d = Some p ∧ (is_Some (groups f !! mgmt_pg n) → p ≠ mgmt_pg n).
Proof.
  assert (∀ f0, vmks (drop_uplink n f0) = vmks f0) as Hu by (intros f0; unfold drop_uplink; destruct (groups f0 !! up_pg n); [by case_decide|done]).
  unfold drop_switch. cbn [vmks]. rewrite Hu. unfold drop_mgmt. case_decide as Hd; cbn [vmks].
  - rewrite map_lookup_filter_Some. naive_solver.
  - naive_solver.
Qed.

Lemma dropped_switches n f v :
  v ∈ vswitches (drop_switch n (drop_uplink n (drop_mgmt n f))) ↔ v ∈ vswitches f ∧ v ≠ vs n ∧
    (groups f !! up_pg n = Some v → ∃ g, groups f !! g = Some v ∧ g ≠ mgmt_pg n ∧ g ≠ up_pg n ∧ starts_with (b "tr") (b g) = true).
Proof.
  assert (vswitches (drop_mgmt n f) = vswitches f ∧ groups (drop_mgmt n f) !! up_pg n = groups f !! up_pg n) as [Hs Hup].
  { unfold drop_mgmt. case_decide; cbn; [|done]. split; [done|]. rewrite lookup_delete_ne; [done|]. intros Hx. kinds. }
  assert (∀ g v, groups (drop_mgmt n f) !! g = Some v ↔ groups f !! g = Some v ∧ g ≠ mgmt_pg n) as Hm.
  { intros g v0. unfold drop_mgmt. case_decide as Hd; cbn [groups]; [rewrite lookup_delete_Some; naive_solver|]. split; [|by intros [? _]]. intros Hg. split; [done|]. intros ->. apply Hd. by eexists. }
  unfold drop_switch. cbn [vswitches]. rewrite elem_of_difference, elem_of_singleton. unfold drop_uplink. rewrite Hup. destruct (groups f !! up_pg n) as [uv|] eqn:Hu.
  - set (f1 := fab_groups (delete (up_pg n) (groups (drop_mgmt n f))) (drop_mgmt n f)).
    assert (tr_on uv f1 ↔ ∃ g, groups f !! g = Some uv ∧ g ≠ mgmt_pg n ∧ g ≠ up_pg n ∧ starts_with (b "tr") (b g) = true) as Ht.
    { unfold tr_on. subst f1. cbn [groups fab_groups]. split.
      - intros (g & Hg & Htr). apply lookup_delete_Some in Hg as [Hne Hg]. apply Hm in Hg as [Hg Hx]. exists g. by split_and!.
      - intros (g & Hg & Hne1 & Hne2 & Htr). exists g. split; [|done]. apply lookup_delete_Some. split; [done|]. by apply Hm. }
    assert (vswitches f1 = vswitches f) as Hf1 by done. case_decide as Hd.
    + rewrite Hf1. rewrite Ht in Hd. split; [intros [? ?]; split_and!; [done|done|by intros [= <-]]|by intros (? & ? & _)].
    + cbn [vswitches fab_switches]. rewrite Hf1, elem_of_difference, elem_of_singleton. rewrite Ht in Hd. split.
      * intros [[? ?] ?]. split_and!; [done|done|]. by intros [= <-].
      * intros (? & ? & Hx). split; [split; [done|]|done]. intros ->. by apply Hd, Hx.
  - rewrite Hs. naive_solver.
Qed.
Section Live.
(** The fabric before the run, and the names the run uses: those of its switches and
    networks, and the physical NICs. *)
Variable base : Fabric.
Variable used : gset string.

(** No two names hash to the same eight digits, and nothing on the host has such a name; a
    shared uplink vSwitch that is there is in use. *)
Record fresh_fabric : Prop := {
  ff_inj x y : x ∈ used → y ∈ used → take 8 (sha1_chars (b x)) = take 8 (sha1_chars (b y)) → x = y;
  ff_vs x : x ∈ used → vs x ∉ vswitches base;
  ff_mgmt x : x ∈ used → groups base !! mgmt_pg x = None;
  ff_up x : x ∈ used → groups base !! up_pg x = None;
  ff_net x : x ∈ used → groups base !! net_pg x = None;
  ff_on x g : x ∈ used → groups base !! g ≠ Some (vs x);
  ff_vmk x d : x ∈ used → vmks base !! d ≠ Some (mgmt_pg x);
  ff_shared p : p ∈ used → up_vs p ∈ vswitches base ↔ tr_on (up_vs p) base;
}.
Hypothesis Hfresh : fresh_fabric.
Set Default Proof Using "Hfresh".

Record live_ok (l : list live) : Prop := {
  lo_name x : x ∈ l → li_name x ∈ used;
  lo_up x p : x ∈ l → li_up x = Some p → p ∈ used;
  lo_nets x m : x ∈ l → m ∈ li_nets x → m ∈ used;
  lo_same x y : x ∈ l → y ∈ l → li_name x = li_name y → x = y;
  lo_owner x y m : x ∈ l → y ∈ l → m ∈ li_nets x → m ∈ li_nets y → x = y;
}.

Record represents (l : list live) (f : Fabric) : Prop := {
  rp_switches v : v ∈ vswitches f ↔ v ∈ vswitches base ∨ ∃ x, x ∈ l ∧ v ∈ switches_of x;
  rp_groups g v : groups f !! g = Some v ↔ groups base !! g = Some v ∨ ∃ x, x ∈ l ∧ (g, v) ∈ groups_of x;
  rp_base d p : vmks base !! d = Some p → vmks f !! d = Some p;
  rp_vmks d p : vmks f !! d = Some p → vmks base !! d = Some p ∨ ∃ x, x ∈ l ∧ li_mgmt x = true ∧ p = mgmt_pg (li_name x);
}.

(** Equal names are the same name. *)
Lemma vs_inj x y : x ∈ used → y ∈ used → vs x = vs y → x = y.
Proof. intros Hx Hy H%short_same; [|done]. by apply (ff_inj Hfresh). Qed.
Lemma mgmt_inj x y : x ∈ used → y ∈ used → mgmt_pg x = mgmt_pg y → x = y.
Proof. intros Hx Hy H%short_same; [|done]. by apply (ff_inj Hfresh). Qed.
Lemma up_inj x y : x ∈ used → y ∈ used → up_pg x = up_pg y → x = y.
Proof. intros Hx Hy H%short_same; [|done]. by apply (ff_inj Hfresh). Qed.
Lemma up_vs_inj x y : x ∈ used → y ∈ used → up_vs x = up_vs y → x = y.
Proof. intros Hx Hy H%short_same; [|done]. by apply (ff_inj Hfresh). Qed.
Lemma net_inj x y : x ∈ used → y ∈ used → net_pg x = net_pg y → x = y.
Proof. intros Hx Hy H%short_same; [|done]. by apply (ff_inj Hfresh). Qed.

Lemma represents_nil f : represents [] f → f = base.
Proof using base.
  clear Hfresh. intros [H1 H2 H3 H4]. destruct f as [vs1 g1 k1], base as [vs2 g2 k2]. cbn in *. f_equal.
  - apply set_eq. intros v. rewrite H1. set_solver.
  - apply map_eq. intros g. apply option_eq. intros v. rewrite H2. set_solver.
  - apply map_eq. intros d. apply option_eq. intros p. split; [|apply H3]. intros Hp. apply H4 in Hp as [?|(x & Hx & _)]; [done|set_solver].
Qed.

(** Whose a group is. *)
Lemma mgmt_owner l x n v : live_ok l → x ∈ l → n ∈ used → (mgmt_pg n, v) ∈ groups_of x → li_name x = n ∧ li_mgmt x = true ∧ v = vs n.
Proof.
  intros Hl Hx Hn [(Hm & Hg & ->)|[(p & _ & Hg & _)|(m & _ & Hg & _)]]%elem_groups_of; [|kinds|kinds].
  apply mgmt_inj in Hg; [|done|by apply (lo_name _ Hl)]. by subst.
Qed.
Lemma up_owner l x n v : live_ok l → x ∈ l → n ∈ used → (up_pg n, v) ∈ groups_of x → li_name x = n ∧ ∃ p, li_up x = Some p ∧ v = up_vs p.
Proof.
  intros Hl Hx Hn [(Hm & Hg & ->)|[(p & Hp & Hg & ->)|(m & _ & Hg & _)]]%elem_groups_of; [kinds| |kinds].
  apply up_inj in Hg; [|done|by apply (lo_name _ Hl)]. subst. split; [done|by exists p].
Qed.
Lemma net_owner l x m v : live_ok l → x ∈ l → m ∈ used → (net_pg m, v) ∈ groups_of x → m ∈ li_nets x ∧ v = vs (li_name x).
Proof.
  intros Hl Hx Hn [(_ & Hg & _)|[(p & _ & Hg & _)|(m' & Hm & Hg & ->)]]%elem_groups_of; [kinds|kinds|].
  apply net_inj in Hg; [|done|by eapply (lo_nets _ Hl)]. by subst.
Qed.


(** *** The list and the fabric change together *)

Lemma represents_destroy l f n :
  live_ok l → n ∈ used → represents l f →
  represents (filter (λ x, li_name x ≠ n) l) (drop_switch n (drop_uplink n (drop_mgmt n f))).
Proof.
  intros Hl Hn [Rs Rg Rb Rv].
  assert (∀ x, x ∈ filter (λ x, li_name x ≠ n) l ↔ li_name x ≠ n ∧ x ∈ l) as Hfil by (intros x; by rewrite list_elem_of_filter).
  split.
  - intros v. rewrite dropped_switches, Rs. setoid_rewrite Hfil. split.
    + intros ([Hv|(x & Hx & Hv)] & Hne & Hup); [by left|]. destruct (decide (li_name x = n)) as [Hxn|Hxn]; [|right; by exists x].
      apply elem_switches_of in Hv as [->|(p & Hp & ->)]; [congruence|].
      destruct Hup as (g & Hg & Hg1 & Hg2 & Ht).
      { apply Rg. right. exists x. split; [done|]. apply elem_groups_of. right. left. exists p. by rewrite Hxn. }
      apply Rg in Hg as [Hg|(z & Hz & Hg)].
      * left. apply (ff_shared Hfresh); [by eapply (lo_up _ Hl)|]. by exists g.
      * right. apply elem_groups_of in Hg as [(_ & _ & Hk)|[(p' & Hp' & -> & Hk)|(m & _ & _ & Hk)]]; [kinds| |kinds].
        exists z. split; [split; [congruence|done]|]. apply elem_switches_of. right. exists p'. by split.
    + intros [Hv|(x & [Hxn Hx] & Hv)].
      * split; [by left|]. split; [intros ->; by apply (ff_vs Hfresh) in Hv|]. intros Hu. apply Rg in Hu as [Hu|(y & Hy & Hu)]; [by rewrite (ff_up Hfresh) in Hu|].
        destruct (up_owner _ _ _ _ Hl Hy Hn Hu) as (_ & p & Hp & ->). apply (ff_shared Hfresh) in Hv as (g & Hg & Ht); [|by eapply (lo_up _ Hl)].
        exists g. split; [apply Rg; by left|]. split_and!; [intros ->; by rewrite (ff_mgmt Hfresh) in Hg|intros ->; by rewrite (ff_up Hfresh) in Hg|done].
      * pose proof (lo_name _ Hl _ Hx) as Hxu. split; [right; by exists x|]. apply elem_switches_of in Hv as [->|(p & Hp & ->)].
        { split; [intros Hk%vs_inj; done|]. intros Hu. apply Rg in Hu as [Hu|(y & Hy & Hu)]; [by rewrite (ff_up Hfresh) in Hu|].
          destruct (up_owner _ _ _ _ Hl Hy Hn Hu) as (_ & p & _ & Hk). kinds. }
        { split; [intros Hk; kinds|]. intros _. exists (up_pg (li_name x)). split; [apply Rg; right; exists x; split; [done|]; apply elem_groups_of; right; left; by exists p|].
          split_and!; [intros Hk; kinds|intros Hk%up_inj; done|by apply tr_short]. }
  - intros g v. rewrite dropped_groups, Rg. setoid_rewrite Hfil. split.
    + intros ([Hg|(x & Hx & Hg)] & H1 & H2 & H3); [by left|]. right. exists x. split; [split; [|done]|done]. intros Hxn. rewrite elem_groups_of, Hxn in Hg. naive_solver.
    + intros [Hg|(x & [Hxn Hx] & Hg)].
      * split; [by left|]. split_and!; [intros ->; by rewrite (ff_mgmt Hfresh) in Hg|intros ->; by rewrite (ff_up Hfresh) in Hg|intros ->; by apply (ff_on Hfresh) in Hg].
      * split; [right; by exists x|]. pose proof (lo_name _ Hl _ Hx) as Hxu. split_and!; intros ->.
        { by destruct (mgmt_owner _ _ _ _ Hl Hx Hn Hg). }
        { by destruct (up_owner _ _ _ _ Hl Hx Hn Hg). }
        { apply elem_groups_of in Hg as [(_ & _ & Hk)|[(p & _ & _ & Hk)|(m & _ & _ & Hk)]]; [by apply vs_inj in Hk|kinds|by apply vs_inj in Hk]. }
  - intros d p Hp. apply dropped_vmks. split; [by apply Rb|]. intros _ ->. by apply (ff_vmk Hfresh) in Hp.
  - intros d p Hp. apply dropped_vmks in Hp as [Hp Hx]. setoid_rewrite Hfil. apply Rv in Hp as [Hp|(x & Hxl & Hm & ->)]; [by left|]. right. exists x.
    split; [split; [|done]|done]. intros Hxn. apply Hx; [|by rewrite Hxn]. exists (vs n). apply Rg. right. exists x. split; [done|]. apply elem_groups_of. left. by rewrite Hxn.
Qed.

(** What a successful [create_switch] has done. *)
Definition created (n : string) (mg : bool) (up : option string) (f f' : Fabric) : Prop :=
  ∃ f1 f2, f1 = fab_switches ({[vs n]} ∪ vswitches f) f ∧
    (if mg then with_vmk (mgmt_pg n) (with_group (mgmt_pg n) (vs n) f1) f2 else f2 = f1) ∧
    f' = match up with Some p => with_group (up_pg n) (up_vs p) (fab_switches ({[up_vs p]} ∪ vswitches f2) f2) | None => f2 end.

Lemma with_group_new g v f : groups f !! g = None → with_group g v f = fab_groups (<[g := v]> (groups f)) f.
Proof using base. clear Hfresh. intros Hg. unfold with_group. rewrite decide_False; [done|]. rewrite Hg. by intros [? [=]]. Qed.

Lemma represents_new l f n : live_ok l → n ∈ used → n ∉ li_name <$> l → represents l f → groups f !! mgmt_pg n = None ∧ groups f !! up_pg n = None.
Proof.
  intros Hl Hn Hnew [_ Rg _ _]. split; apply eq_None_not_Some; intros [v Hv]; apply Rg in Hv as [Hv|(x & Hx & Hv)].
  - by rewrite (ff_mgmt Hfresh) in Hv.
  - destruct (mgmt_owner _ _ _ _ Hl Hx Hn Hv) as [<- _]. apply Hnew, list_elem_of_fmap. by exists x.
  - by rewrite (ff_up Hfresh) in Hv.
  - destruct (up_owner _ _ _ _ Hl Hx Hn Hv) as [<- _]. apply Hnew, list_elem_of_fmap. by exists x.
Qed.

Lemma represents_create l f n mg up f' :
  live_ok l → n ∈ used → n ∉ li_name <$> l → represents l f → created n mg up f f' → represents (MkLive n mg up [] :: l) f'.
Proof.
  intros Hl Hn Hnew Hr (f1 & f2 & -> & Hmg & ->). destruct (represents_new _ _ _ Hl Hn Hnew Hr) as [Gm Gu]. destruct Hr as [Rs Rg Rb Rv].
  set (x := MkLive n mg up []).
  assert (vswitches f2 = {[vs n]} ∪ vswitches f ∧ (∀ g v, groups f2 !! g = Some v ↔ groups f !! g = Some v ∨ (mg = true ∧ g = mgmt_pg n ∧ v = vs n)) ∧
    (∀ d p, vmks f !! d = Some p → vmks f2 !! d = Some p) ∧ (∀ d p, vmks f2 !! d = Some p → vmks f !! d = Some p ∨ (mg = true ∧ p = mgmt_pg n))) as (S2 & G2 & B2 & V2).
  { destruct mg; [|subst f2; cbn; split_and!; naive_solver]. rewrite with_group_new in Hmg by done. cbn in Hmg.
    assert (∀ g v, <[mgmt_pg n := vs n]> (groups f) !! g = Some v ↔ groups f !! g = Some v ∨ true = true ∧ g = mgmt_pg n ∧ v = vs n) as Hi.
    { intros g v. rewrite lookup_insert_Some. split; [naive_solver|]. intros [Hg|(_ & -> & ->)]; [|by left]. right. split; [|done]. intros <-. congruence. }
    destruct Hmg as [->|(d0 & Hd0 & ->)]; cbn in *; (split_and!; [done|exact Hi| |]); [naive_solver|naive_solver| |].
    - intros d p Hp. rewrite lookup_insert_ne; [done|]. intros <-. congruence.
    - intros d p [[<- <-]|[_ Hp]]%lookup_insert_Some; [by right|by left]. }
  assert (groups f2 !! up_pg n = None) as Gu2.
  { apply eq_None_not_Some. intros [v Hv]. apply G2 in Hv as [Hv|(_ & Hk & _)]; [congruence|kinds]. }
  set (f3 := match up with Some p => _ | None => f2 end).
  assert ((∀ v, v ∈ vswitches f3 ↔ v ∈ vswitches f ∨ v ∈ switches_of x) ∧ (∀ g v, groups f3 !! g = Some v ↔ groups f !! g = Some v ∨ (g, v) ∈ groups_of x) ∧ vmks f3 = vmks f2) as (S3 & G3 & V3).
  { subst f3 x. setoid_rewrite elem_switches_of. setoid_rewrite elem_groups_of. cbn [li_name li_mgmt li_up li_nets]. destruct up as [p|].
    - rewrite with_group_new by done. cbn [vswitches groups vmks fab_groups fab_switches]. split_and!; [|intros g v|done].
      + intros v. rewrite S2. set_solver.
      + rewrite lookup_insert_Some, G2. split; [naive_solver|]. intros [Hg|[Hg|[(p' & [= <-] & -> & ->)|(m & Hm & _)]]]; [| |by left|by apply elem_of_nil in Hm].
        * right. split; [|by left]. intros <-. congruence.
        * right. split; [|by right]. intros <-. destruct Hg as (_ & Hk & _). kinds.
    - split_and!; [|intros g v|done]; [rewrite S2; set_solver|]. rewrite G2. split; [naive_solver|]. intros [?|[?|[(p & [=] & _)|(m & Hm & _)]]]; [by left|by right|by apply elem_of_nil in Hm]. }
  split.
  - intros v. rewrite S3, Rs. setoid_rewrite elem_of_cons. naive_solver.
  - intros g v. rewrite G3, Rg. setoid_rewrite elem_of_cons. naive_solver.
  - intros d p Hp. rewrite V3. by apply B2, Rb.
  - intros d p Hp. rewrite V3 in Hp. setoid_rewrite elem_of_cons. apply V2 in Hp as [Hp|[Hm ->]]; [|right; exists x; auto].
    apply Rv in Hp as [?|(y & Hy & ?)]; [by left|right; exists y; auto].
Qed.

Definition set_nets (ms : list string) (x : live) : live := MkLive (li_name x) (li_mgmt x) (li_up x) ms.
Definition add_net (m n : string) (l : list live) : list live := (λ x, if decide (li_name x = n) then set_nets (m :: li_nets x) x else x) <$> l.
Definition del_net (m : string) (l : list live) : list live := (λ x, set_nets (filter (λ k, k ≠ m) (li_nets x)) x) <$> l.

(** A list of switches with the same switches, but for their networks. *)
Lemma represents_nets l l' f f' (g : live → live) :
  l' = g <$> l → (∀ x, switches_of (g x) = switches_of x ∧ li_mgmt (g x) = li_mgmt x ∧ li_name (g x) = li_name x) →
  vswitches f' = vswitches f → vmks f' = vmks f →
  (∀ k v, groups f' !! k = Some v ↔ groups base !! k = Some v ∨ ∃ x, x ∈ l ∧ (k, v) ∈ groups_of (g x)) →
  represents l f → represents l' f'.
Proof using base.
  clear Hfresh. intros -> Hg Hs Hv Hgr [Rs Rg Rb Rv]. split.
  - intros v. rewrite Hs, Rs. setoid_rewrite list_elem_of_fmap. split; (intros [?|H]; [by left|right]).
    + destruct H as (x & Hx & H). exists (g x). split; [by exists x|]. by destruct (Hg x) as [-> _].
    + destruct H as (y & (x & -> & Hx) & H). exists x. split; [done|]. by destruct (Hg x) as [<- _].
  - intros k v. rewrite Hgr. setoid_rewrite list_elem_of_fmap. split; (intros [?|H]; [by left|right]).
    + destruct H as (x & Hx & H). exists (g x). split; [by exists x|done].
    + destruct H as (y & (x & -> & Hx) & H). by exists x.
  - intros d p Hp. rewrite Hv. by apply Rb.
  - intros d p Hp. rewrite Hv in Hp. apply Rv in Hp as [?|(x & Hx & Hm & ->)]; [by left|]. right. exists (g x). destruct (Hg x) as (_ & -> & ->).
    split; [apply list_elem_of_fmap; by exists x|done].
Qed.

Lemma set_nets_same ms x : switches_of (set_nets ms x) = switches_of x ∧ li_mgmt (set_nets ms x) = li_mgmt x ∧ li_name (set_nets ms x) = li_name x.
Proof using base. done. Qed.

Lemma represents_add_net l f m n :
  live_ok l → m ∈ used → n ∈ li_name <$> l → (∀ x, x ∈ l → m ∉ li_nets x) → represents l f →
  represents (add_net m n l) (with_group (net_pg m) (vs n) f).
Proof.
  intros Hl Hm Hn Hnew Hr. pose proof Hr as [Rs Rg Rb Rv].
  assert (groups f !! net_pg m = None) as Hg.
  { apply eq_None_not_Some. intros [v Hv]. apply Rg in Hv as [Hv|(x & Hx & Hv)]; [by rewrite (ff_net Hfresh) in Hv|].
    destruct (net_owner _ _ _ _ Hl Hx Hm Hv) as [Hin _]. by eapply Hnew. }
  rewrite with_group_new by done. eapply (represents_nets l _ f); [reflexivity| |done|done| |done].
  - intros x. cbv beta. case_decide; [apply set_nets_same|done].
  - intros k v. cbn [groups fab_groups]. rewrite lookup_insert_Some, Rg. split.
    + intros [[<- <-]|[Hne [?|(x & Hx & Hk)]]]; [|by left|]; right.
      * apply list_elem_of_fmap in Hn as (x & -> & Hx). exists x. split; [done|]. rewrite decide_True by done. apply elem_groups_of. right. right. exists m. split; [by left|done].
      * exists x. split; [done|]. case_decide; [|done]. rewrite elem_groups_of in Hk |- *. cbn. set_solver.
    + intros [Hk|(x & Hx & Hk)].
      * right. split; [|by left]. intros <-. by rewrite (ff_net Hfresh) in Hk.
      * case_decide as Hxn.
        { apply elem_groups_of in Hk as [Hk|[Hk|(m' & Hm' & -> & ->)]]; cbn in *.
          - right. split; [intros Hx'; destruct Hk as (_ & -> & _); kinds|]. right. exists x. split; [done|]. apply elem_groups_of. by left.
          - right. split; [intros Hx'; destruct Hk as (p & _ & -> & _); kinds|]. right. exists x. split; [done|]. apply elem_groups_of. by right; left.
          - apply elem_of_cons in Hm' as [->|Hm']; [left; by rewrite Hxn|]. right. split.
            + intros Hk. apply net_inj in Hk as ->; [by eapply Hnew|done|by eapply (lo_nets _ Hl)].
            + right. exists x. split; [done|]. apply elem_groups_of. right. right. by exists m'. }
        { right. split; [|right; by exists x]. intros <-. destruct (net_owner _ _ _ _ Hl Hx Hm Hk) as [Hin _]. by eapply Hnew. }
Qed.

Lemma represents_del_net l f m :
  live_ok l → m ∈ used → represents l f → represents (del_net m l) (fab_groups (delete (net_pg m) (groups f)) f).
Proof.
  intros Hl Hm Hr. pose proof Hr as [Rs Rg Rb Rv]. eapply (represents_nets l _ f); [reflexivity|intros x; apply set_nets_same|done|done| |done].
  intros k v. cbn [groups fab_groups]. rewrite lookup_delete_Some, Rg. split.
  - intros [Hne [?|(x & Hx & Hk)]]; [by left|]. right. exists x. split; [done|]. rewrite elem_groups_of in Hk |- *. cbn [li_name li_mgmt li_up li_nets set_nets].
    destruct Hk as [?|[?|(m' & Hm' & -> & ->)]]; [by left|by right; left|]. right. right. exists m'. split; [|done]. apply list_elem_of_filter. split; [congruence|done].
  - intros [Hk|(x & Hx & Hk)].
    + split; [|by left]. intros <-. by rewrite (ff_net Hfresh) in Hk.
    + apply elem_groups_of in Hk. cbn [li_name li_mgmt li_up li_nets set_nets] in Hk. split.
      * intros <-. destruct Hk as [(_ & Hk & _)|[(p & _ & Hk & _)|(m' & Hm' & Hk & _)]]; [kinds|kinds|].
        apply list_elem_of_filter in Hm' as [Hne Hm']. apply net_inj in Hk; [done|done|by eapply (lo_nets _ Hl)].
      * right. exists x. split; [done|]. apply elem_groups_of. destruct Hk as [?|[?|(m' & Hm' & ?)]]; [by left|by right; left|]. apply list_elem_of_filter in Hm' as [_ Hm']. right. right. by exists m'.
Qed.

(** *** The list stays well formed *)

Lemma live_ok_filter l n : live_ok l → live_ok (filter (λ x, li_name x ≠ n) l).
Proof using base.
  clear Hfresh. intros [H1 H2 H3 H4 H5]. assert (∀ x, x ∈ filter (λ x, li_name x ≠ n) l → x ∈ l) as Hf by (intros x Hx; by apply list_elem_of_filter in Hx as [_ ?]).
  split; eauto.
Qed.
Lemma live_ok_cons l n mg up : live_ok l → n ∈ used → (∀ p, up = Some p → p ∈ used) → n ∉ li_name <$> l → live_ok (MkLive n mg up [] :: l).
Proof using base.
  clear Hfresh. intros [H1 H2 H3 H4 H5] Hn Hup Hnew. assert (∀ x, x ∈ l → li_name x ≠ n) as Hne by (intros x Hx <-; apply Hnew, list_elem_of_fmap; by exists x).
  split.
  - intros x [->|Hx]%elem_of_cons; [done|eauto].
  - intros x p [->|Hx]%elem_of_cons; cbn; eauto.
  - intros x m [->|Hx]%elem_of_cons; cbn; [by intros ?%elem_of_nil|eauto].
  - intros x y [->|Hx]%elem_of_cons [->|Hy]%elem_of_cons; cbn; [done| | |eauto]; intros He; exfalso; [by apply (Hne y)|by apply (Hne x)].
  - intros x y m [->|Hx]%elem_of_cons [->|Hy]%elem_of_cons; cbn; [done|by intros ?%elem_of_nil|intros ? ?%elem_of_nil; done|eauto].
Qed.
Lemma live_ok_nets l (ms : live → list string) :
  live_ok l → (∀ x m, x ∈ l → m ∈ ms x → m ∈ used) → (∀ x y m, x ∈ l → y ∈ l → m ∈ ms x → m ∈ ms y → x = y) →
  live_ok ((λ x, set_nets (ms x) x) <$> l).
Proof using base.
  clear Hfresh. intros [H1 H2 H3 H4 H5] Hu Ho. split; setoid_rewrite list_elem_of_fmap.
  - intros x (y & -> & Hy). exact (H1 y Hy).
  - intros x p (y & -> & Hy). exact (H2 y p Hy).
  - intros x m (y & -> & Hy). exact (Hu y m Hy).
  - intros x y (x0 & -> & Hx) (y0 & -> & Hy) He. by rewrite (H4 x0 y0 Hx Hy He).
  - intros x y m (x0 & -> & Hx) (y0 & -> & Hy) Hmx Hmy. cbn in Hmx, Hmy. by rewrite (Ho x0 y0 m Hx Hy Hmx Hmy).
Qed.
Lemma live_ok_del l m : live_ok l → live_ok (del_net m l).
Proof using base.
  clear Hfresh. intros Hl. apply live_ok_nets; [done| |].
  - intros x k Hx Hk. apply list_elem_of_filter in Hk as [_ Hk]. by eapply (lo_nets _ Hl).
  - intros x y k Hx Hy Hkx Hky. apply list_elem_of_filter in Hkx as [_ Hkx]. apply list_elem_of_filter in Hky as [_ Hky]. by eapply (lo_owner _ Hl).
Qed.
Lemma live_ok_add l m n : live_ok l → m ∈ used → (∀ x, x ∈ l → m ∉ li_nets x) → live_ok (add_net m n l).
Proof using base.
  clear Hfresh. intros Hl Hm Hnew.
  assert (add_net m n l = (λ x, set_nets (if decide (li_name x = n) then m :: li_nets x else li_nets x) x) <$> l) as ->.
  { unfold add_net. apply list_fmap_ext. intros i x _. case_decide; [done|by destruct x]. }
  apply live_ok_nets; [done| |].
  - intros x k Hx Hk. case_decide; [apply elem_of_cons in Hk as [->|Hk]; [done|]|]; by eapply (lo_nets _ Hl).
  - intros x y k Hx Hy Hkx Hky. destruct (decide (k = m)) as [->|Hne].
    + apply (lo_same _ Hl); [done|done|]. assert (∀ z, z ∈ l → m ∈ (if decide (li_name z = n) then m :: li_nets z else li_nets z) → li_name z = n) as Hz.
      { intros z Hzl Hzm. case_decide; [done|]. by apply Hnew in Hzm. }
      by rewrite (Hz x Hx Hkx), (Hz y Hy Hky).
    + eapply (lo_owner _ Hl _ _ k); [done|done| |]; repeat case_decide; set_solver.
Qed.
End Live.

(** ** Runs *)

Inductive net_op : Type :=
  | NCreate (sw : Switch) (name : string) | NNetwork (net switch : string) | NDropNetwork (net : string) | NDestroy (name : string).

Section Run.
Context {E : Type} {L : EsxiApi E} {D : FabricLaws E}.
Set Default Proof Using "Type".
Abbreviation W := (Remote es_request (EsState E)).
Abbreviation R A := (act W A).
Abbreviation okay := (okay_on fabric).
Variable uplinks : gmap string string.

Definition perform_net (o : net_op) : R () :=
  match o with
  | NCreate sw n => driver_create_switch uplinks sw n;; mret ()
  | NNetwork m n => driver_create_network m n;; mret ()
  | NDropNetwork m => driver_destroy_network m
  | NDestroy n => driver_destroy_switch n
  end.

(** The physical NIC a switch takes. *)
Definition taken_uplink (sw : Switch) : option string :=
  match uplink sw, sidecar sw with Some u, Some sc => if sc_nat sc then uplinks !! u else None | _, _ => None end.

Definition op_live (o : net_op) (l : list live) : list live :=
  match o with
  | NCreate sw n => MkLive n (mgmt sw) (taken_uplink sw) [] :: l
  | NNetwork m n => add_net m n l
  | NDropNetwork m => del_net m l
  | NDestroy n => filter (λ x, li_name x ≠ n) l
  end.
(** A switch and a network have one name of the run; a network is on a switch that is up. *)
Definition op_allowed (used : gset string) (o : net_op) (l : list live) : Prop :=
  match o with
  | NCreate sw n => n ∈ used ∧ n ∉ li_name <$> l ∧ ∀ p, taken_uplink sw = Some p → p ∈ used
  | NNetwork m n => m ∈ used ∧ n ∈ li_name <$> l ∧ Forall (λ x, m ∉ li_nets x) l
  | NDropNetwork m => m ∈ used
  | NDestroy n => n ∈ used
  end.
Fixpoint ops_allowed (used : gset string) (ops : list net_op) (l : list live) : Prop :=
  match ops with [] => True | o :: ops => op_allowed used o l ∧ ops_allowed used ops (op_live o l) end.

Lemma translates_okay {A} (m : R A) Q : okay m Q → okay (translates m) Q.
Proof. intros Hm. apply okay_catch_throw; [done|]. intros e. by intros s a s' [=]. Qed.
Lemma translates_Ok {A} (m : R A) s a s' : translates m s = (Ok a, s') → m s = (Ok a, s').
Proof. unfold translates, catch. destruct (m s) as [[x|e] s1]; [done|]. by destruct (is_esxi_error e). Qed.
Lemma update_okay f : (∀ s, es_ext (f s) = es_ext s) → okay (update f : R ()) (λ v _ v', v' = v).
Proof. intros Hf s [] s' [= <-]. unfold fabric. cbn. by rewrite Hf. Qed.

Lemma net_create_switch_okay sw n resolved :
  okay (net_create_switch sw n resolved : R (option string))
    (λ f _ f', created n (mgmt sw) (match uplink sw, sidecar sw with Some _, Some sc => if sc_nat sc then resolved else None | _, _ => None end) f f').
Proof.
  unfold net_create_switch. cbv zeta. intros s a s' [([] & s1 & H1%add_vswitch_okay & H)|(e & _ & [=])]%act_bind_inv.
  apply act_bind_inv in H as [([] & s2 & H2 & H)|(e & _ & [=])]. exists (fabric s1), (fabric s2). split; [done|]. split.
  - destruct (mgmt sw); [|by injection H2 as <-]. apply act_bind_inv in H2 as [([] & s3 & H3%add_portgroup_okay & H2%add_mgmt_vmk_okay)|(e & _ & [=])]. by rewrite <-H3.
  - destruct (uplink sw) as [u|]; [|by injection H as _ <-]. destruct (sidecar sw) as [sc|]; [|by injection H as _ <-].
    destruct (sc_nat sc); [|by injection H as _ <-]. destruct resolved as [p|]; [|discriminate].
    apply act_bind_inv in H as [([] & s3 & H3%add_vswitch_okay & H)|(e & _ & [=])].
    apply act_bind_inv in H as [([] & s4 & H4%add_portgroup_okay & [= _ <-])|(e & _ & [=])]. by rewrite H4, H3.
Qed.

Lemma perform_net_step base used o l s s' :
  fresh_fabric base used → live_ok used l → op_allowed used o l → represents base l (fabric s) → perform_net o s = (Ok (), s') →
  live_ok used (op_live o l) ∧ represents base (op_live o l) (fabric s').
Proof.
  intros Hf Hl Ho Hr. destruct o as [sw n|m n|m|n]; cbn [perform_net op_live op_allowed] in *.
  - destruct Ho as (Hn & Hnew & Hp). intros [(a & s1 & H & [= <-])|(e & _ & [=])]%act_bind_inv. split; [by apply live_ok_cons|].
    apply (represents_create base used Hf l (fabric s)); [done..|]. apply translates_Ok in H as Hs.
    apply act_bind_inv in Hs as [(resolved & s3 & H3 & Hs)|(e & _ & [=])].
    assert (s3 = s ∧ taken_uplink sw = match uplink sw, sidecar sw with Some _, Some sc => if sc_nat sc then resolved else None | _, _ => None end) as [-> ->].
    { unfold taken_uplink. destruct (uplink sw) as [u|]; [|by injection H3 as <- <-]. destruct (uplinks !! u); [|discriminate]. by injection H3 as <- <-. }
    apply act_bind_inv in Hs as [(pg & s4 & H4%net_create_switch_okay & Hs)|(e & _ & [=])].
    apply act_bind_inv in Hs as [([] & s5 & H5 & [= _ <-])|(e & _ & [=])]. apply update_okay in H5; [|done]. by rewrite H5.
  - destruct Ho as (Hm & Hn & Hnew). rewrite Forall_forall in Hnew. intros [(a & s1 & H & [= <-])|(e & _ & [=])]%act_bind_inv. split; [by apply live_ok_add|].
    assert (fabric s1 = with_group (net_pg m) (vs n) (fabric s)) as ->; [|by apply (represents_add_net base used)].
    apply translates_Ok in H as Hs. apply act_bind_inv in Hs as [(pg & s3 & H3 & Hs)|(e & _ & [=])]. apply act_bind_inv in Hs as [([] & s4 & H4 & [= _ <-])|(e & _ & [=])].
    apply update_okay in H4; [|done]. rewrite H4. unfold net_create_network in H3. cbv zeta in H3.
    apply act_bind_inv in H3 as [([] & s5 & H5%add_portgroup_okay & [= _ <-])|(e & _ & [=])]. exact H5.
  - intros H. split; [by apply live_ok_del|].
    assert (fabric s' = fab_groups (delete (net_pg m) (groups (fabric s))) (fabric s)) as ->; [|by apply (represents_del_net base used)].
    revert H. unfold driver_destroy_network. apply (translates_okay _ (λ f _ f', f' = fab_groups (delete (net_pg m) (groups f)) f)). clear.
    intros s [] s'. unfold net_destroy_network. cbv zeta. intros [(have & s1 & [H1 Hl]%okay_portgroups & H)|(e & _ & [=])]%act_bind_inv. rewrite <-H1 in *.
    pose proof (listed have _ (net_pg m) Hl) as Hi. case_decide as Hn; [by apply okay_change in H|]. injection H as <-. rewrite Hi in Hn. apply eq_None_not_Some in Hn.
    unfold fab_groups. rewrite delete_id by done. by destruct (fabric s1).
  - intros H. split; [by apply live_ok_filter|].
    assert (fabric s' = drop_switch n (drop_uplink n (drop_mgmt n (fabric s)))) as ->; [|by apply (represents_destroy base used)].
    revert H. unfold driver_destroy_switch. apply (translates_okay _ (λ f _ f', f' = drop_switch n (drop_uplink n (drop_mgmt n f)))), net_destroy_switch_okay.
Qed.

Lemma run_net_steps base used ops l s s' :
  fresh_fabric base used → live_ok used l → ops_allowed used ops l → represents base l (fabric s) → forA perform_net ops s = (Ok (), s') →
  represents base (foldl (λ l o, op_live o l) l ops) (fabric s').
Proof.
  intros Hf. unfold forA. revert l s. induction ops as [|o ops IH]; intros l s Hl Ho Hr; cbn [foldA foldl]; [by intros [= <-]|].
  intros [([] & s1 & H1 & H2)|(e & _ & [=])]%act_bind_inv. destruct Ho as [Ho Hops].
  destruct (perform_net_step _ _ _ _ _ _ Hf Hl Ho Hr H1) as [Hl1 Hr1]. by eapply IH.
Qed.

(** C24: the switches of a run leave no trace on an ESXi host.  Take any sequence of
    creations and destructions of switches and networks that all succeed, in which names
    are used once at a time and after which no switch is up: the vSwitches, the portgroups
    and the VMkernel NICs of the host are exactly those there were before, whatever order
    the switches are destroyed in, however they share an uplink vSwitch, and whether or
    not the networks were destroyed first. *)
Theorem esxi_fabric_restored used ops s s' :
  fresh_fabric (fabric s) used → ops_allowed used ops [] → foldl (λ l o, op_live o l) [] ops = [] →
  forA perform_net ops s = (Ok (), s') → fabric s' = fabric s.
Proof.
  intros Hf Hops Hend Hrun. apply (run_net_steps (fabric s) used ops []) in Hrun; [|exact Hf|split; intros; by match goal with H : _ ∈ [] |- _ => apply elem_of_nil in H end|exact Hops|].
  - rewrite Hend in Hrun. by apply represents_nil in Hrun.
  - split; [intros v; split; [by left|intros [?|(x & Hx & _)]; [done|by apply elem_of_nil in Hx]]..|done|by left].
Qed.
End Run.

(** ** A host

    It satisfies the laws; its file service can be made to refuse every read. *)
Module EsxiDemo.

Record Toy : Type := MkToy { ty_fabric : Fabric; ty_log : bytes; ty_busy : bool; ty_next : nat }.

Definition give {A} (a : A) (t : Toy) : res A * Toy * nat := (Ok a, t, 1).
Definition with_fabric (f : Fabric → Fabric) (t : Toy) : Toy := MkToy (f (ty_fabric t)) (ty_log t) (ty_busy t) (ty_next t).
Definition change (q : es_request) (t : Toy) : res () * Toy * nat :=
  match q with
  | AddSwitch n _ => give () (with_fabric (λ f, fab_switches ({[n]} ∪ vswitches f) f) t)
  | RemoveSwitch n => give () (with_fabric (λ f, fab_switches (vswitches f ∖ {[n]}) f) t)
  | AddGroup n v => give () (with_fabric (λ f, fab_groups (<[n := v]> (groups f)) f) t)
  | RemoveGroup n => give () (with_fabric (λ f, fab_groups (delete n (groups f)) f) t)
  | AddVnic pg _ _ => let d := fresh (dom (vmks (ty_fabric t))) in
      give () (with_fabric (λ f, fab_vmks (<[d := pg]> (vmks f)) f) t)
  | RemoveVnic d => give () (with_fabric (λ f, fab_vmks (delete d (vmks f)) f) t)
  | _ => give () t
  end.
Definition serve (off : option nat) (t : Toy) : http_reply :=
  let off := default 0 off in
  if ty_busy t then MkReply 503 [] [] (Ok ())
  else if decide (off < length (ty_log t)) then MkReply 206 [] [drop off (ty_log t)] (Ok ()) else MkReply 416 [] [] (Ok ()).

#[local] Instance toy_sleeper : Sleeper Toy := λ _ t, (0, t).
#[local] Instance toy_api : EsxiApi Toy := {
  es_import := give (); es_import_requests := give (); es_login := give (); es_logout := give (); es_retrieve := give ();
  es_api_type := give "HostAgent"; es_datacenter := give (); es_datacenter_name := give "ha-datacenter";
  es_view := give (); es_hosts := give 1; es_view_destroy := give (); es_parent := give (); es_resource_pool := give ();
  es_datastores := give ["datastore1"]; es_free_space := give 0%Z; es_hardware := give (0, 1)%Z;
  es_vms := give []; es_vm_name _ := give ""; es_power _ := give poweredOff; es_snapshot_tree _ := give None;
  es_vswitches t := give (elements (vswitches (ty_fabric t))) t;
  es_portgroups t := give (map_to_list (groups (ty_fabric t))) t;
  es_vnics t := give (map_to_list (vmks (ty_fabric t))) t;
  es_pnics := give ["vmnic0"];
  es_do := change;
  es_task _ := give 0;
  es_info _ := give TaskDone;
  es_head _ := give 200%Z;
  es_get _ off t := give (serve off t) t;
  es_put _ _ := give 200%Z;
  es_delete _ := give 200%Z;
  is_file_exists _ := false; is_file_not_found _ := false; is_tools_unavailable _ := false; is_esxi_error _ := false;
  es_sleeper := toy_sleeper;
}.
#[local] Instance toy_fabric : FabricLaws Toy.
Proof.
  refine {| es_fabric := ty_fabric |}.
  - intros t l t' dt [= <- <- <-]. split; [done|]. intros v. apply elem_of_elements.
  - intros t l t' dt [= <- <- <-]. split; [done|]. intros n v. apply elem_of_map_to_list.
  - intros t l t' dt [= <- <- <-]. split; [done|]. intros n v. apply elem_of_map_to_list.
  - intros q t t' dt. destruct q; cbn [es_do toy_api change effect]; intros [= <- <-]; try done.
    eexists. split; [|done]. apply not_elem_of_dom. exact (is_fresh (dom (vmks (ty_fabric t)))).
Defined.

Definition conn : EsxiConn := MkEsxiConn "esx" "root" "" "datastore1" false 443.
Definition start (t : Toy) : Remote es_request (EsState Toy) :=
  MkRemote (MkEsState t false false false false false false false false ∅ ∅ ∅) 0 [].
Definition bare : Fabric := MkFabric {["vSwitch0"]} {["VM Network" := "vSwitch0"]} {["vmk0" := "Management Network"]}.
Definition idle : Remote es_request (EsState Toy) := (connect conn (start (MkToy bare (b "TESTRANGE-RESULT: ok") false 0))).2.

Lemma esxi_session_not_leaked_witness : client_ready (rm_ext idle) ∧ changes_of is_es_change idle = [Login].
Proof.
  destruct (esxi_session_not_leaked conn (start (MkToy bare (b "TESTRANGE-RESULT: ok") false 0)) (Ok ()) idle) as [H1 H2].
  - intros t. by eexists _, _.
  - reflexivity.
  - vm_compute. reflexivity.
  - split; [exact H1|]. rewrite H2. reflexivity.
Defined.

(** The whole log, in two pulls. *)
Definition drained : Remote es_request (EsState Toy) := (pull conn "web" 5 SinkNew idle).2.
Lemma toy_serial : serial_laws conn "web" ty_log.
Proof.
  split; try (by intros t r t' dt [= <- <- <-]); try (by intros v t r t' dt [= <- <- <-]); try done.
  - by intros url off t r t' dt [= <- <- <-].
  - intros dc off t r t' dt [= <- <- <-]. unfold serve. destruct (ty_busy t); [done|]. cbn. case_decide; [|done]. split; [|done]. intros _. unfold hr_content. cbn. by rewrite app_nil_r.
Qed.
Lemma esxi_sink_exact_witness : ∃ outs, pull conn "web" 5 SinkNew idle = (Ok (outs, SinkDone), drained) ∧ concat outs `prefix_of` b "TESTRANGE-RESULT: ok".
Proof.
  exists [b "TESTRANGE-RESULT: ok"]. split; [vm_compute; reflexivity|].
  apply (esxi_sink_exact conn "web" ty_log toy_serial 5 idle [b "TESTRANGE-RESULT: ok"] SinkDone drained). vm_compute. reflexivity.
Defined.

(** A refused final read ends the sink like an empty log: the verdict that is in the log is
    not delivered. *)
Definition refusing : Remote es_request (EsState Toy) := (connect conn (start (MkToy bare (b "TESTRANGE-RESULT: ok") true 0))).2.
Lemma refused_drain_loses_verdict : ∃ s', pull conn "web" 5 SinkNew refusing = (Ok ([], SinkDone), s') ∧ log_of ty_log s' = b "TESTRANGE-RESULT: ok".
Proof. eexists. split; [vm_compute; reflexivity|reflexivity]. Qed.

(** Two NAT switches on one uplink, one with the host on it; the first is destroyed first. *)
Definition nat_switch (mg : bool) : Switch := MkSwitch "sw" [] "10.0.0.0/24" (Some "egress") mg (Some (MkSidecar true true true None)).
Definition ops : list net_op :=
  [NCreate (nat_switch true) "tr-a"; NNetwork "tr-lan" "tr-a"; NCreate (nat_switch false) "tr-b"; NDestroy "tr-a"; NNetwork "tr-dmz" "tr-b"; NDropNetwork "tr-dmz"; NDestroy "tr-b"].
Definition names : list string := ["tr-a"; "tr-b"; "tr-lan"; "tr-dmz"; "vmnic1"].
Definition egress : gmap string string := {["egress" := "vmnic1"]}.
Definition torn_down : Remote es_request (EsState Toy) := (forA (perform_net egress) ops idle).2.

Definition fresh_name (x : string) : bool :=
  bool_decide (vs x ∉ vswitches bare) && bool_decide (groups bare !! mgmt_pg x = None) && bool_decide (groups bare !! up_pg x = None) &&
  bool_decide (groups bare !! net_pg x = None) && bool_decide (vs x ≠ "vSwitch0") && bool_decide (mgmt_pg x ≠ "Management Network") &&
  bool_decide (up_vs x ∉ vswitches bare).
Lemma names_fresh : Forall (λ x, fresh_name x = true) names.
Proof. repeat constructor; vm_compute; reflexivity. Qed.
Lemma names_distinct : NoDup ((λ x, take 8 (sha1_chars (b x))) <$> names).
Proof. apply (bool_decide_unpack _). vm_compute. exact I. Qed.

Lemma toy_fresh : fresh_fabric (fabric idle) (list_to_set names).
Proof.
  assert (fabric idle = bare) as -> by (vm_compute; reflexivity).
  assert (∀ x, x ∈ (list_to_set names : gset string) → fresh_name x = true) as Hx.
  { intros x Hx%elem_of_list_to_set. pose proof names_fresh as H. rewrite Forall_forall in H. by apply H. }
  unfold fresh_name in Hx. setoid_rewrite andb_true_iff in Hx. repeat setoid_rewrite andb_true_iff in Hx. repeat setoid_rewrite bool_decide_eq_true in Hx.
  split; try (intros x Hin; destruct (Hx x Hin) as ((((((H1 & H2) & H3) & H4) & H5) & H6) & H7); done).
  - intros x y Hin%elem_of_list_to_set Hin'%elem_of_list_to_set He. apply list_elem_of_lookup in Hin as [i Hi], Hin' as [j Hj].
    assert (i = j) as <-; [|congruence]. eapply (NoDup_lookup _ _ _ _ names_distinct); rewrite list_lookup_fmap; [by rewrite Hi|]. rewrite Hj. exact (f_equal Some (eq_sym He)).
  - intros x g Hin Hg. destruct (Hx x Hin) as ((((((H1 & H2) & H3) & H4) & H5) & H6) & H7). unfold bare in Hg; cbn [groups vmks] in Hg; apply lookup_singleton_Some in Hg as [_ Hg]. by apply H5.
  - intros x d Hin Hg. destruct (Hx x Hin) as ((((((H1 & H2) & H3) & H4) & H5) & H6) & H7). unfold bare in Hg; cbn [groups vmks] in Hg; apply lookup_singleton_Some in Hg as [_ Hg]. by apply H6.
  - intros x Hin. destruct (Hx x Hin) as ((((((H1 & H2) & H3) & H4) & H5) & H6) & H7). split; [done|]. intros (g & Hg & _). unfold bare in Hg; cbn [groups vmks] in Hg; apply lookup_singleton_Some in Hg as [_ Hg].
    exfalso. apply H7. rewrite <-Hg. unfold bare. cbn [vswitches]. by apply elem_of_singleton_2.
Qed.

Lemma esxi_fabric_restored_witness : fabric torn_down = bare ∧ vswitches (fabric (forA (perform_net egress) (take 3 ops) idle).2) ≠ {["vSwitch0"]}.
Proof.
  split; [|vm_compute; discriminate].
  assert (fabric idle = bare) as Hb by (vm_compute; reflexivity). rewrite <-Hb.
  apply (esxi_fabric_restored egress (list_to_set names) ops idle torn_down).
  - exact toy_fresh.
  - repeat split; try (apply (bool_decide_unpack _); vm_compute; exact I); intros p [= <-]; apply (bool_decide_unpack _); vm_compute; exact I.
  - vm_compute. reflexivity.
  - vm_compute. reflexivity.
Defined.

(** A VM with a SATA, an NVMe, and eight SCSI disks. *)
Definition disks : list Device := HardDrive <$> replicate 10 (MkDisk (MkPoolHandle "p") 5).
Definition big : VMSpec := MkVMSpec "big" ([CPU 2 false; Memory 512; OSDrive (MkDisk (MkPoolHandle "p") 10)] ++ disks) "uefi".
Definition order : EsRequest :=
  MkEsRequest "tr-big" big [Some "sata"; Some "nvme"; Some "sata"] "plan" "[datastore1] p/os.vmdk" (Some "[datastore1] p/seed.iso") ∅
    (replicate 10 "[datastore1] p/d.vmdk") None (Some "[datastore1] p/inst.iso").
Lemma esxi_devices_fit_witness :
  ∃ front cfg, front_devices order = Ok front ∧ vm_config "datastore1" order front = Ok cfg ∧ NoDup (device_key <$> cf_devices cfg).
Proof.
  destruct (front_devices order) as [front|e] eqn:Hf; [|exfalso; revert Hf; vm_compute; discriminate].
  destruct (vm_config "datastore1" order front) as [cfg|e] eqn:Hc; [|exfalso; revert Hc; cbv; discriminate].
  exists front, cfg. split; [reflexivity|]. split; [exact Hc|].
  apply (esxi_devices_fit "datastore1" order front cfg Hf Hc); cbn; lia.
Defined.
End EsxiDemo.
