(* ===== verification/EsxiGuest.v ===== *)
(** * Guest operations over VMware Tools ([drivers/esxi/_guest.py])

    A program started in a guest returns no output, so [execute] hands the command to the
    shell of the guest with its streams redirected to files, polls for the end, reads the
    files back over one-time URLs and deletes them.  [ToolsApi] are the calls of the guest
    operations manager, which may raise anything; [ToolsLaws] is what VMware documents of
    them.  A call that is not streamed raises itself when the body breaks off. *)

From S2P Require Import Prelude Exceptions Eff PyBytes Url Conn Shell Creds Naming Remote HostTools Ssh EsxiDriver.
From stdpp Require Import options.

(** What the guest is given to authenticate with. *)
Record GuestAuth : Type := MkAuth { ga_user : string; ga_password : string }.

Class ToolsApi (E : Type) : Type := {
  (** [content.guestOperationsManager] and its two managers *)
  gt_managers : ext_op E ();
  (** [secrets.token_hex(8)] *)
  gt_token : E → text * E;
  gt_start : nat → GuestAuth → text → text → text → ext_op E nat;
  (** [procs[0].exitCode], [None] when no process is listed *)
  gt_processes : nat → GuestAuth → nat → ext_op E (option (option Z));
  gt_from_guest : nat → GuestAuth → text → ext_op E text;
  gt_to_guest : nat → GuestAuth → text → nat → ext_op E text;
  gt_delete : nat → GuestAuth → text → ext_op E ();
}.
#[export] Hint Mode ToolsApi ! : typeclass_instances.

Definition EXEC_POLL : Z := 500.

(** ** The transfer URL ([EsxiClient._fix_transfer_host]) *)

Definition uses_params : list string :=
  [""; "ftp"; "hdl"; "prospero"; "http"; "https"; "shttp"; "rtsp"; "rtsps"; "rtspu"; "sip"; "sips"; "mms"; "sftp"; "tel"].

(** Parsing splits the parameters off the last segment, unparsing puts them back unless
    they are empty. *)
Definition unparsed_path (scheme path : text) : text :=
  let '(dir, found, segment) := rpartition SLASH path in
  let '(name, _, params) := partition SEMI segment in
  if decide (str scheme ∈ uses_params ∧ segment = name ++ [SEMI] ∧ params = []) then (if found : bool then dir ++ [SLASH] else []) ++ name
  else path.

(** [urlunparse] of a URL with a host *)
Definition urlunparse (scheme netloc path query fragment : text) : text :=
  let path := unparsed_path scheme path in
  let path := if decide (path = [] ∨ head path = Some SLASH) then path else SLASH :: path in
  (match scheme with [] => [] | _ => scheme ++ [COLON] end) ++ b "//" ++ netloc ++ path ++
  (match query with [] => [] | _ => QMARK :: query end) ++ (match fragment with [] => [] | _ => HASHC :: fragment end).

Section Guest.
Context {E : Type} {L : EsxiApi E} {T : ToolsApi E}.
Variable check_bracketed : text → res ().
Variable conn : EsxiConn.
Abbreviation W := (Remote es_request (EsState E)).
Abbreviation R A := (act W A).

Definition fix_transfer_host (url : text) : res text :=
  parsed ← urlparse check_bracketed url;
  nl ← (if decide (hostname parsed = Some (b (ec_host conn)) ∧ ec_host conn ≠ "*") then mret (netloc parsed)
        else port ← port_of parsed;
             mret (b (ec_host conn) ++ COLON :: str_int (port_or port (ec_port conn))));
  mret (urlunparse (scheme parsed) nl (url_path parsed) (query parsed) (cut HASHC (sanitize url)).2).

Definition guest_file_get (url : text) : R bytes :=
  import_requests;;
  fixed ← lift (fix_transfer_host url);
  reply ← ask "GET" (es_get fixed None);
  lift (raise_for_status (hr_status reply));;
  mret (hr_content reply).

Definition guest_file_put (url : text) (data : bytes) : R () :=
  import_requests;;
  fixed ← lift (fix_transfer_host url);
  status ← rcall (HttpPut fixed data) (on_ext (es_put fixed data));
  lift (raise_for_status status).

(** ** The operations *)

Definition guest_op {A} (what : string) (o : ext_op E A) : R A := rcall (GuestOp what) (on_ext o).

Definition as_agent_error {A} (m : R A) : R A := catch m is_exception (λ _, throw GuestAgentError []).

(** [_auth] *)
Definition guest_auth (credential : option PosixCred) (backend_name : string) : R GuestAuth :=
  match credential with
  | None => throw GuestAgentError [backend_name]
  | Some c =>
      match cr_password c with
      | None | Some EmptyString => throw GuestAgentError [cr_username c; backend_name]
      | Some password => need es_vim;; mret (MkAuth (cr_username c) password)
      end
  end.

(** [require_vm], [_auth], [_managers], at the head of the three makers *)
Definition guest_session (credential : option PosixCred) (backend_name : string) : R (nat * GuestAuth) :=
  vm ← require_vm backend_name;
  auth ← guest_auth credential backend_name;
  need es_content;;
  guest_op "managers" gt_managers;;
  mret (vm, auth).

(** [_read], and the body of [_read_file] *)
Definition transfer_from (vm : nat) (auth : GuestAuth) (p : text) : R bytes :=
  as_agent_error (url ← guest_op "InitiateFileTransferFromGuest" (gt_from_guest vm auth p); guest_file_get url).

(** [_delete] *)
Definition guest_delete (vm : nat) (auth : GuestAuth) (p : text) : R () :=
  catch (guest_op "DeleteFileInGuest" (gt_delete vm auth p)) is_exception (λ _, mret ()).

Definition temp_path (token : text) (ext : string) : text := b "/tmp/tr-exec-" ++ token ++ b "." ++ b ext.

(** The script handed to [/bin/sh -c]. *)
Definition wrapper (argv : list text) (out err rc : text) : text :=
  shlex_join argv ++ b " >" ++ out ++ b " 2>" ++ err ++ b "; echo $? >" ++ rc.

Definition token_hex : R text := λ s,
  let '(t, e) := gt_token (es_ext (rm_ext s)) in (Ok t, MkRemote (set_ext e (rm_ext s)) (rm_clock s) (rm_sent s)).

Definition exec_probe (vm : nat) (auth : GuestAuth) (pid : nat) : R (option Z) :=
  procs ← as_agent_error (guest_op "ListProcessesInGuest" (gt_processes vm auth pid));
  mret (default None procs).

(** [rc_raw.isdigit()] and [int(rc_raw)]; [rc_raw] was stripped *)
Definition exec_code (rc_raw : bytes) (exit_code : Z) : Z :=
  if bool_decide (rc_raw ≠ []) && forallb is_digit rc_raw then Z.of_nat (digits_nat rc_raw) else exit_code.

(** [bytes.strip]: the ASCII whitespace *)
Definition strip_space (l : bytes) : bytes :=
  let space c := in_range 9 13 c || bool_decide (c = SPACE) in
  reverse (drop_while space (reverse (drop_while space l))).

Definition tools_execute (vm : nat) (auth : GuestAuth) (argv : list text) (timeout : Z) (cwd : option text) : R ExecResult :=
  start ← gets rm_clock;
  token ← token_hex;
  let out := temp_path token "out" in
  let err := temp_path token "err" in
  let rc := temp_path token "rc" in
  pid ← as_agent_error (guest_op "StartProgramInGuest" (gt_start vm auth (b "/bin/sh") (b "-c " ++ shlex_quote (wrapper argv out err rc)) (default [] cwd)));
  code ← poll_from EXEC_POLL timeout start (exec_probe vm auth pid) (Exn GuestAgentError []);
  output ← transfer_from vm auth out;
  errors ← transfer_from vm auth err;
  rc_raw ← transfer_from vm auth rc;
  forA (guest_delete vm auth) [out; err; rc];;
  now ← gets rm_clock;
  mret (MkExecResult (exec_code (strip_space rc_raw) code) output errors (now - start)).

Definition tools_write_file (vm : nat) (auth : GuestAuth) (p : text) (data : bytes) : R () :=
  as_agent_error (
    url ← guest_op "InitiateFileTransferToGuest" (gt_to_guest vm auth p (length data));
    guest_file_put url data).

(** The makers: the session once, then a closure. *)
Definition make_execute (backend_name : string) (credential : option PosixCred) : R (list text → Z → option text → R ExecResult) :=
  s ← guest_session credential backend_name; need es_vim;; mret (tools_execute s.1 s.2).
Definition make_read_file (backend_name : string) (credential : option PosixCred) : R (text → R bytes) :=
  s ← guest_session credential backend_name; mret (transfer_from s.1 s.2).
Definition make_write_file (backend_name : string) (credential : option PosixCred) : R (text → bytes → R ()) :=
  s ← guest_session credential backend_name; need es_vim;; mret (tools_write_file s.1 s.2).
End Guest.

(** ** How the guest reads the script *)

(** A command and the files its streams go to, then the status into a file. *)
Record job : Type := MkJob { j_argv : list text; j_out : text; j_err : text; j_rc : text }.

Fixpoint split_job (l : list shell_token) : option (list (text * option nat) * text * text * text) :=
  match l with
  | [OutTo; Word out _; ErrTo; Word err _; Semi; Word echo _; LastStatus; OutTo; Word rc _] =>
      if decide (echo = b "echo") then Some ([], out, err, rc) else None
  | Word w q :: l => '(ws, out, err, rc) ← split_job l; Some ((w, q) :: ws, out, err, rc)
  | _ => None
  end.
(** The words are a command of their own, with no variables set in front of it. *)
Definition read_job (script : text) : option job :=
  toks ← shell_tokens script;
  '(ws, out, err, rc) ← split_job toks;
  c ← simple_command ws;
  if decide (c_assigns c = []) then Some (MkJob (c_words c) out err rc) else None.

(** What the arguments of the shell say: the script after [-c]. *)
Definition script_of (args : text) : option text :=
  match shell_tokens args with
  | Some [Word c _; Word script _] => if decide (c = b "-c") then Some script else None
  | _ => None
  end.

Lemma script_of_quoted w : script_of (b "-c " ++ shlex_quote w) = Some w.
Proof.
  unfold script_of, shell_tokens.
  assert (lex Bare None (b "-c " ++ shlex_quote w) = Some [bare_word (b "-c"); arg_word w]) as ->; [|done].
  transitivity (app [bare_word (b "-c")] <$> lex Bare None (shlex_quote w)); [done|].
  rewrite <-(app_nil_r (shlex_quote w)), lex_quote by done. done.
Qed.

(** What follows the command. *)
Definition redirected (out err rc : text) : list shell_token :=
  [OutTo; bare_word out; ErrTo; bare_word err; Semi; bare_word (b "echo"); LastStatus; OutTo; bare_word rc].

Lemma split_job_words ws out err rc :
  split_job ((arg_word <$> ws) ++ redirected out err rc) = Some (as_word <$> ws, out, err, rc).
Proof.
  induction ws as [|w ws IH]; [done|]. cbn [fmap list_fmap app].
  change (split_job (arg_word w :: (arg_word <$> ws) ++ redirected out err rc))
    with ('(ws, out, err, rc) ← split_job ((arg_word <$> ws) ++ redirected out err rc); Some (as_word w :: ws, out, err, rc)).
  by rewrite IH.
Qed.

(** A word of safe characters that is not a number is a word whatever follows. *)
Lemma lex_path w rest :
  Forall (λ c, shell_safe c = true) w → head w = Some SLASH → lex Bare None (w ++ rest) = lex Bare (Some (w, None)) rest.
Proof.
  intros Hw Hh. destruct w as [|c w]; [done|]. injection Hh as ->. apply Forall_cons in Hw as [Hc Hw]. cbn [app].
  rewrite lex_safe_char; [|done|by right; left]. cbn [grow]. by rewrite lex_safe.
Qed.

(** The shell of the guest reads the wrapper as the argument vector with its streams
    redirected, if it takes the first argument for a command word. *)
Lemma wrapper_reads a argv out err rc :
  command_word a = true → Forall (λ p, Forall (λ c, shell_safe c = true) p ∧ head p = Some SLASH) [out; err; rc] →
  read_job (wrapper (a :: argv) out err rc) = Some (MkJob (a :: argv) out err rc).
Proof.
  intros Ha Hp. rewrite !Forall_cons in Hp. destruct Hp as ([So Ho] & [Se He] & [Sr Hr] & _).
  unfold read_job, shell_tokens, wrapper.
  change (b " >" ++ out ++ b " 2>" ++ err ++ b "; echo $? >" ++ rc) with (SPACE :: GT :: out ++ b " 2>" ++ err ++ b "; echo $? >" ++ rc).
  rewrite lex_join_app.
  change (lex Bare None (GT :: out ++ b " 2>" ++ err ++ b "; echo $? >" ++ rc)) with (app [OutTo] <$> lex Bare None (out ++ b " 2>" ++ err ++ b "; echo $? >" ++ rc)).
  rewrite lex_path by done.
  change (lex Bare (Some (out, None)) (b " 2>" ++ err ++ b "; echo $? >" ++ rc)) with (app [bare_word out] <$> (app [ErrTo] <$> lex Bare None (err ++ b "; echo $? >" ++ rc))).
  rewrite lex_path by done.
  change (lex Bare (Some (err, None)) (b "; echo $? >" ++ rc)) with (app [bare_word err; Semi] <$> (app [] <$> (app [bare_word (b "echo")] <$> (app [LastStatus] <$> (app [] <$> (app [OutTo] <$> lex Bare None rc)))))).
  rewrite <-(app_nil_r rc), lex_path, app_nil_r by done. cbn [lex flush fmap option_fmap option_map mbind option_bind].
  change ([OutTo] ++ [bare_word out] ++ _) with (redirected out err rc). rewrite split_job_words. cbn [mbind option_bind].
  rewrite command_of_args by done. cbn [mbind option_bind c_assigns c_words]. by rewrite decide_True.
Qed.

(** ** What the guest does

    [gs_jobs] are the programs started by process number, with the directory they run in;
    [gs_ended] what those that ended left behind.  [gs_files] are the
    files of the guests, as far as nothing but the calls of this driver and the programs
    it started changes them. *)
Record outcome_of : Type := MkOutcome {
  ed_status : option nat;   (** the status of the command, if the script got to write it down *)
  ed_out : option bytes;    (** the files of its output and its errors, *)
  ed_err : option bytes;
  ed_rc : option bytes;     (** the file of the status *)
  ed_shell : Z;             (** what Tools report of the shell *)
}.
Record GuestView : Type := MkGuestView {
  gs_files : gmap (nat * text) bytes;
  gs_jobs : gmap (nat * nat) (job * text);
  gs_ended : gmap (nat * nat) outcome_of;
}.

(** A transfer URL as the host hands it out. *)
Record transfer_url (u host path query : text) : Prop := {
  tu_text : u = b "https://" ++ host ++ path ++ QMARK :: query;
  tu_host : Forall netloc_char host;
  tu_path : ∃ p, path = SLASH :: p;
  tu_path_chars : QMARK ∉ path ∧ HASHC ∉ path ∧ SEMI ∉ path ∧ Forall sane path;
  tu_query : query ≠ [] ∧ HASHC ∉ query ∧ Forall sane query;
}.

(** The files of a job that ended.  A command may end the shell that runs it ([exit]),
    and the file of the status may not take what is written into it (a full disk): only a
    status that was written down is in its file. *)
Definition job_done (j : job) (vm : nat) (o : outcome_of) (files : gmap (nat * text) bytes) : Prop :=
  files !! (vm, j_out j) = ed_out o ∧ files !! (vm, j_err j) = ed_err o ∧ files !! (vm, j_rc j) = ed_rc o ∧
  ∀ n, ed_status o = Some n → ed_rc o = Some (str_nat n ++ [chr 10]).

Class ToolsLaws (E : Type) {L : EsxiApi E} {T : ToolsApi E} : Type := {
  tl_guests : E → GuestView;
  (** what a ticket, the path and query of a transfer URL, is good for *)
  tl_ticket : E → text → text → option (nat * text);
  tl_token (e : E) : Forall (λ c, shell_safe c = true) (gt_token e).1;
  tl_start vm auth args cwd (e : E) pid e' dt script j :
    gt_start vm auth (b "/bin/sh") args cwd e = (Ok pid, e', dt) → script_of args = Some script → read_job script = Some j →
    gs_jobs (tl_guests e') !! (vm, pid) = Some (j, cwd);
  tl_sleep d (e : E) vm pid j : gs_jobs (tl_guests e) !! (vm, pid) = Some j → gs_jobs (tl_guests (oversleep d e).2) !! (vm, pid) = Some j;
  tl_processes vm auth pid (e : E) r e' dt jc :
    gt_processes vm auth pid e = (Ok r, e', dt) → gs_jobs (tl_guests e) !! (vm, pid) = Some jc →
    gs_jobs (tl_guests e') !! (vm, pid) = Some jc ∧
    (∀ z, default None r = Some z →
       ∃ o, gs_ended (tl_guests e') !! (vm, pid) = Some o ∧ ed_shell o = z ∧ job_done jc.1 vm o (gs_files (tl_guests e')));
  tl_from_guest vm auth p (e : E) u e' dt :
    gt_from_guest vm auth p e = (Ok u, e', dt) →
    tl_guests e' = tl_guests e ∧ ∃ h up q, transfer_url u h up q ∧ tl_ticket e' up q = Some (vm, p);
  tl_to_guest vm auth p n (e : E) u e' dt :
    gt_to_guest vm auth p n e = (Ok u, e', dt) →
    tl_guests e' = tl_guests e ∧ ∃ h up q, transfer_url u h up q ∧ tl_ticket e' up q = Some (vm, p);
  tl_import (e : E) e' dt : es_import_requests e = (Ok (), e', dt) → tl_guests e' = tl_guests e ∧ ∀ up q, tl_ticket e' up q = tl_ticket e up q;
  tl_get u h up q (e : E) rep e' dt vm p :
    es_get u None e = (Ok rep, e', dt) → raise_for_status (hr_status rep) = Ok () → transfer_url u h up q → tl_ticket e up q = Some (vm, p) →
    tl_guests e' = tl_guests e ∧ gs_files (tl_guests e) !! (vm, p) = Some (hr_content rep);
  tl_put u h up q data (e : E) status e' dt vm p :
    es_put u data e = (Ok status, e', dt) → raise_for_status status = Ok () → transfer_url u h up q → tl_ticket e up q = Some (vm, p) →
    tl_guests e' = MkGuestView (<[(vm, p) := data]> (gs_files (tl_guests e))) (gs_jobs (tl_guests e)) (gs_ended (tl_guests e));
  tl_delete vm auth p (e : E) r e' dt :
    gt_delete vm auth p e = (r, e', dt) →
    gs_jobs (tl_guests e') = gs_jobs (tl_guests e) ∧ gs_ended (tl_guests e') = gs_ended (tl_guests e) ∧
    gs_files (tl_guests e') = match r with Ok _ => delete (vm, p) (gs_files (tl_guests e)) | Raise _ => gs_files (tl_guests e) end;
}.

Section Transfer.
Variable check : text → res ().
Variable conn : EsxiConn.
Hypothesis Hhost : host_ok (ec_host conn).
Hypothesis Hport : port_ok (ec_port conn).

Lemma transfer_parsed u h up q : transfer_url u h up q → urlparse check u = Ok (MkParsed (b "https") h up q).
Proof using Type.
  intros [-> Hh [p ->] (Hp1 & Hp2 & _ & Hp3) (_ & Hq1 & Hq2)].
  apply (urlparse_built check (b "https") h (SLASH :: p) q); [|done|by right; eexists|done..].
  split_and!; [done..| |]; [by_decide|]. repeat (constructor; [vm_compute; lia|]). constructor.
Qed.

Lemma transfer_fragment u h up q : transfer_url u h up q → (cut HASHC (sanitize u)).2 = [].
Proof using Type.
  intros [-> Hh _ (_ & Hp2 & _ & Hp3) (_ & Hq1 & Hq2)]. rewrite sanitize_id.
  - unfold cut. rewrite partition_none; [done|]. rewrite !elem_of_app, elem_of_cons. intros [H|[H|[H|[H|H]]]]; [|by apply (Forall_not_elem _ HASHC _ Hh); [intros (? & _)|]|done..].
    revert H. by_decide.
  - apply Forall_app. split; [repeat (constructor; [vm_compute; lia|]); constructor|]. apply Forall_app. split; [|apply Forall_app; split; [done|constructor; [vm_compute; lia|done]]].
    eapply Forall_impl; [exact Hh|]. by intros c (_ & _ & _ & ?).
Qed.

Lemma partition_pieces c l a f z : partition c l = (a, f, z) → l = a ++ (if f : bool then c :: z else []).
Proof using Type.
  revert a f z. induction l as [|x l IH]; cbn; intros a f z; [by intros [= <- <- <-]|].
  destruct (decide (x = c)) as [->|Hx]; [by intros [= <- <- <-]|]. destruct (partition c l) as [[a' f'] z'].
  intros [= <- <- <-]. cbn. by rewrite (IH _ _ _ eq_refl) at 1.
Qed.

Lemma unparsed_path_id sc p : SEMI ∉ p → unparsed_path sc p = p.
Proof using Type.
  intros Hp. unfold unparsed_path. destruct (rpartition SLASH p) as [[dir found] seg] eqn:E. destruct (partition SEMI seg) as [[name semi] params].
  rewrite decide_False; [done|]. intros (_ & -> & _). apply Hp. revert E. unfold rpartition.
  destruct (partition SLASH (reverse p)) as [[x y] z] eqn:E. apply partition_pieces in E. destruct y; intros [= _ _ H].
  - apply elem_of_reverse. rewrite E, elem_of_app. left. apply elem_of_reverse. rewrite H, elem_of_app, list_elem_of_singleton. by right.
  - rewrite H, elem_of_app, list_elem_of_singleton. by right.
Qed.

(** The host of the URL becomes the one the client is connected to; the ticket stays. *)
Lemma fixed_url u h up q u' :
  transfer_url u h up q → fix_transfer_host check conn u = Ok u' →
  ∃ h', transfer_url u' h' up q ∧ hostname (MkParsed (b "https") h' up q) = Some (b (ec_host conn)).
Proof using Hhost Hport.
  intros Hu. unfold fix_transfer_host. rewrite (transfer_parsed _ _ _ _ Hu), (transfer_fragment _ _ _ _ Hu). cbn [mbind result_bind scheme netloc url_path query].
  assert (∀ h', Forall netloc_char h' → transfer_url (urlunparse (b "https") h' up q []) h' up q) as Hbuild.
  { destruct Hu as [_ _ [p ->] Hp Hq]. intros h' Hh'. split; [|done|by eexists|done..]. unfold urlunparse. rewrite unparsed_path_id by apply Hp.
    rewrite decide_True by (by right). destruct q; [by destruct Hq|]. cbn [app]. by rewrite app_nil_r. }
  case_decide as Hd.
  - intros [= <-]. exists h. split; [apply Hbuild, Hu|]. exact (proj1 Hd).
  - intros (nl & (port & Hpo & [= <-])%bind_Ok & [= <-])%bind_Ok. set (n := port_or port (ec_port conn)).
    assert (port_ok n) as Hn.
    { unfold n, port_or. unfold port_of in Hpo. destruct (hostinfo _).2 as [t|]; [|by injection Hpo as <-].
      apply bind_Ok in Hpo as ([] & _ & ([] & Hle & [= <-])%bind_Ok). destruct (digits_nat t) as [|m]; [done|].
      unfold raise_when in Hle. destruct (Z.of_nat (S m) <=? 65535)%Z eqn:E; [|done]. apply Z.leb_le in E. unfold port_ok. split; lia. }
    exists (b (ec_host conn) ++ COLON :: str_int n). split.
    + apply Hbuild. pose proof (authority_chars "" "" (ec_host conn) n Hhost Hn) as Ha. unfold authority in Ha. by apply Forall_app in Ha as [_ [_ ?]%Forall_cons].
    + rewrite <-(authority_hostname "" "" (ec_host conn) n Hhost Hn (b "https") up q). unfold hostname, hostinfo. cbn [netloc].
      rewrite authority_at by done. unfold rpartition. rewrite partition_none; [done|]. rewrite elem_of_reverse. apply hostport_not; [done|done|by intros [? _]|done..].
Qed.
End Transfer.

(** ** What the operations do *)

Lemma rc_reads n code : exec_code (strip_space (str_nat n ++ [chr 10])) code = Z.of_nat n.
Proof.
  assert (strip_space (str_nat n ++ [chr 10]) = str_nat n) as ->.
  { unfold strip_space. pose proof (str_nat_digits n) as Hd. pose proof (str_nat_ne n) as Hne.
    assert (∀ c, is_digit c = true → in_range 9 13 c || bool_decide (c = SPACE) = false) as Hsp.
    { refine (forall_bytes (λ c, _ → _) _). vm_compute. reflexivity. }
    set (sp := λ c, _). assert (∀ l r, l ≠ [] → Forall (λ c, is_digit c = true) l → drop_while sp (l ++ r) = l ++ r) as Hdrop.
    { intros [|c l] r Hl Hf; [done|]. apply Forall_cons in Hf as [Hc _]. cbn. unfold sp at 1. by rewrite (Hsp c Hc). }
    rewrite Hdrop by done. rewrite reverse_app. change (drop_while sp (reverse [chr 10] ++ reverse (str_nat n))) with (drop_while sp (reverse (str_nat n))).
    rewrite <-(app_nil_r (reverse (str_nat n))), Hdrop, app_nil_r; [apply reverse_involutive| |by apply Forall_reverse].
    intros Hr. apply (f_equal reverse) in Hr. rewrite reverse_involutive in Hr. done. }
  unfold exec_code. rewrite (forallb_all is_digit) by apply str_nat_digits. rewrite bool_decide_true by apply str_nat_ne. cbn [andb]. by rewrite str_nat_value.
Qed.

Section Exec.
Context {E : Type} {L : EsxiApi E} {T : ToolsApi E} {D : ToolsLaws E}.
Variable check : text → res ().
Variable conn : EsxiConn.
Hypothesis Hhost : host_ok (ec_host conn).
Hypothesis Hport : port_ok (ec_port conn).
Set Default Proof Using "Type".
Abbreviation W := (Remote es_request (EsState E)).
Abbreviation R A := (act W A).
Definition guests (s : W) : GuestView := tl_guests (es_ext (rm_ext s)).
Definition ticket (s : W) : text → text → option (nat * text) := tl_ticket (es_ext (rm_ext s)).

Lemma as_agent_ok {A} (m : R A) s a s' : as_agent_error m s = (Ok a, s') → m s = (Ok a, s').
Proof. unfold as_agent_error, catch. destruct (m s) as [[x|e] s1]; [done|]. by destruct (is_exception e). Qed.

Lemma rcall_on_ext {A} q (o : ext_op E A) s r (s' : W) :
  rcall q (on_ext o) s = (r, s') → ∃ dt, o (es_ext (rm_ext s)) = (r, es_ext (rm_ext s'), dt).
Proof. unfold rcall, on_ext. destruct (o _) as [[x e] dt]. intros [= <- <-]. by exists dt. Qed.

Lemma import_okay (s s' : W) : import_requests s = (Ok (), s') → guests s' = guests s ∧ ∀ up q, ticket s' up q = ticket s up q.
Proof.
  unfold import_requests, catch. destruct (ask _ _ s) as [[[]|e] s1] eqn:H; [|by destruct (isinstance e ImportError)].
  intros [= <-]. apply rcall_on_ext in H as [dt H]. by apply tl_import in H.
Qed.

Lemma get_okay u h up q vm p (s : W) d s' :
  transfer_url u h up q → ticket s up q = Some (vm, p) → guest_file_get check conn u s = (Ok d, s') →
  guests s' = guests s ∧ gs_files (guests s) !! (vm, p) = Some d.
Proof using Hhost Hport.
  intros Hu Ht [([] & s1 & [Hg1 Ht1]%import_okay & H)|(e & _ & [=])]%act_bind_inv.
  apply act_bind_inv in H as [(u' & s2 & [= Hfix <-] & H)|(e & _ & [=])].
  apply act_bind_inv in H as [(rep & s3 & [dt Hr]%rcall_on_ext & H)|(e & _ & [=])].
  apply act_bind_inv in H as [([] & s4 & [= Hst <-] & H)|(e & _ & [=])]. injection H as <- <-.
  destruct (fixed_url check conn Hhost Hport _ _ _ _ _ Hu Hfix) as (h' & Hu' & _).
  rewrite <-Hg1. eapply tl_get in Hr; [|done..|exact Hu'|by rewrite <-Ht, <-Ht1]. done.
Qed.

Lemma put_okay u h up q vm p data (s : W) s' :
  transfer_url u h up q → ticket s up q = Some (vm, p) → guest_file_put check conn u data s = (Ok (), s') →
  guests s' = MkGuestView (<[(vm, p) := data]> (gs_files (guests s))) (gs_jobs (guests s)) (gs_ended (guests s)).
Proof using Hhost Hport.
  intros Hu Ht [([] & s1 & [Hg1 Ht1]%import_okay & H)|(e & _ & [=])]%act_bind_inv.
  apply act_bind_inv in H as [(u' & s2 & [= Hfix <-] & H)|(e & _ & [=])].
  apply act_bind_inv in H as [(st & s3 & [dt Hr]%rcall_on_ext & H)|(e & _ & [=])]. injection H as Hst <-.
  destruct (fixed_url check conn Hhost Hport _ _ _ _ _ Hu Hfix) as (h' & Hu' & _).
  rewrite <-Hg1. eapply tl_put in Hr; [|done..|exact Hu'|by rewrite <-Ht, <-Ht1]. done.
Qed.

Lemma transfer_okay vm auth p (s : W) d s' :
  transfer_from check conn vm auth p s = (Ok d, s') → guests s' = guests s ∧ gs_files (guests s) !! (vm, p) = Some d.
Proof using Hhost Hport.
  intros [(u & s1 & [dt H1]%rcall_on_ext & H)|(e & _ & [=])]%as_agent_ok%act_bind_inv.
  apply tl_from_guest in H1 as (Hg & h & up & q & Hu & Ht). eapply get_okay in H as [Hg2 Hf]; [|done..].
  unfold guests in *. rewrite Hg in *. done.
Qed.

(** A file written into a guest is read back as it was. *)
Theorem tools_file_roundtrip vm auth p data (s s1 s2 : W) d :
  tools_write_file check conn vm auth p data s = (Ok (), s1) → transfer_from check conn vm auth p s1 = (Ok d, s2) →
  d = data ∧ ∀ k, k ≠ (vm, p) → gs_files (guests s2) !! k = gs_files (guests s) !! k.
Proof using Hhost Hport.
  intros [(u & s' & [dt H1]%rcall_on_ext & H)|(e & _ & [=])]%as_agent_ok%act_bind_inv [Hg2 Hf]%transfer_okay.
  apply tl_to_guest in H1 as (Hg & h & up & q & Hu & Ht). eapply put_okay in H; [|done..]. rewrite Hg2 in *. rewrite H in *. cbn in *.
  rewrite lookup_insert_eq in Hf. injection Hf as <-. split; [done|]. intros k Hk. rewrite lookup_insert_ne by done. unfold guests. by rewrite Hg.
Qed.

(** *** Execution *)

Lemma delete_okay vm auth p (s : W) r s' :
  guest_delete vm auth p s = (r, s') → gs_jobs (guests s') = gs_jobs (guests s) ∧ gs_ended (guests s') = gs_ended (guests s).
Proof.
  unfold guest_delete, catch. destruct (guest_op _ _ s) as [x s1] eqn:H. apply rcall_on_ext in H as [dt H].
  apply tl_delete in H as (Hj & He & _). destruct x as [[]|e]; [by intros [= _ <-]|]. by destruct (is_exception e); intros [= _ <-].
Qed.
Lemma deletes_okay vm auth ps (s : W) r s' :
  forA (guest_delete vm auth) ps s = (r, s') → gs_jobs (guests s') = gs_jobs (guests s) ∧ gs_ended (guests s') = gs_ended (guests s).
Proof.
  unfold forA. revert s. induction ps as [|p ps IH]; cbn [foldA]; intros s; [by intros [= _ <-]|].
  intros [([] & s1 & [Hj He]%delete_okay & H)|(e & [Hj He]%delete_okay & _)]%act_bind_inv; [|done].
  apply IH in H as [Hj2 He2]. by rewrite Hj2, He2.
Qed.

(** A job that ended, with its files in place. *)
Definition ended (vm pid : nat) (jc : job * text) (o : outcome_of) (s : W) : Prop :=
  gs_jobs (guests s) !! (vm, pid) = Some jc ∧ gs_ended (guests s) !! (vm, pid) = Some o ∧ job_done jc.1 vm o (gs_files (guests s)).

Lemma poll_ended vm auth pid jc timeout start (s : W) code s' :
  gs_jobs (guests s) !! (vm, pid) = Some jc →
  poll_from EXEC_POLL timeout start (exec_probe vm auth pid) (Exn GuestAgentError []) s = (Ok code, s') → ∃ o, ed_shell o = code ∧ ended vm pid jc o s'.
Proof.
  intros Hj. unfold poll_from.
  apply (poll_inv (λ t, gs_jobs (guests t) !! (vm, pid) = Some jc) (λ _, True) (λ code t, ∃ o, ed_shell o = code ∧ ended vm pid jc o t)); [| |done|exact Hj].
  - intros t r t' Ht [(procs & t1 & H1 & [= <- <-])|(e & H1 & ->)]%act_bind_inv; [|done].
    apply as_agent_ok, rcall_on_ext in H1 as [dt H1]. eapply tl_processes in H1 as [H1 H2]; [|exact Ht].
    destruct (default None procs); [|done]. destruct (H2 _ eq_refl) as (o & Ho & Hz & Hd). exists o. by split_and!.
  - intros t t' Ht. unfold rsleep, oversleep, es_state_sleeper. pose proof (tl_sleep EXEC_POLL _ _ _ _ Ht) as Hs.
    destruct (oversleep _ _) as [extra e] eqn:Ho. intros [= <-]. unfold guests. cbn. exact Hs.
Qed.

(** What the calls may raise: exceptions of the library, and no interrupt. *)
Record tools_raise : Prop := {
  tr_check t e : check t = Raise e → is_exception e = true;
  tr_import (e : E) x : (es_import_requests e).1.1 = Raise x → is_exception x = true;
  tr_get u (e : E) x : (es_get u None e).1.1 = Raise x → is_exception x = true;
  tr_start vm auth a1 a2 a3 (e : E) x : (gt_start vm auth a1 a2 a3 e).1.1 = Raise x → is_exception x = true;
  tr_processes vm auth pid (e : E) x : (gt_processes vm auth pid e).1.1 = Raise x → is_exception x = true;
  tr_from vm auth p (e : E) x : (gt_from_guest vm auth p e).1.1 = Raise x → is_exception x = true;
  tr_delete vm auth p (e : E) x : (gt_delete vm auth p e).1.1 = Raise x → is_exception x = true;
}.
Definition agent_error_only (e : exn) : bool := bool_decide (e = Exn GuestAgentError []).

Lemma within_on_ext {A} (p : exn → bool) q (o : ext_op E A) :
  (∀ e x, (o e).1.1 = Raise x → p x = true) → within p (rcall q (on_ext o) : R A).
Proof. intros Ho. apply within_call. intros s x. unfold on_ext. specialize (Ho (es_ext s)). destruct (o _) as [[r e] dt]. apply Ho. Qed.

Lemma within_agent {A} (m : R A) : within is_exception m → within agent_error_only (as_agent_error m).
Proof.
  intros Hm. eapply within_catch; [exact Hm| |by intros e -> [=]].
  intros e _ _. apply within_lift. by intros x [= <-].
Qed.

Lemma parse_raises u e : tools_raise → urlparse check u = Raise e → is_exception e = true.
Proof.
  intros HT. unfold urlparse. destruct (split_scheme _) as [sc rest].
  intros [H|([nl rest'] & _ & H)]%bind_Raise; [|by destruct (cut QMARK _)].
  destruct rest as [|x [|y rest']]; [done..|]. case_decide; [|done].
  apply bind_Raise in H as [->%raise_when_raises|([] & _ & [H|([] & _ & [=])]%bind_Raise)]; [done|].
  case_decide; [by eapply tr_check|done].
Qed.
Lemma fix_raises u e : tools_raise → fix_transfer_host check conn u = Raise e → is_exception e = true.
Proof.
  intros HT [H|(r & _ & [H|(nl & _ & [=])]%bind_Raise)]%bind_Raise; [by eapply parse_raises|].
  case_decide; [done|]. apply bind_Raise in H as [H|(p & _ & [=])]. unfold port_of in H. destruct (hostinfo r).2; [|done].
  by apply bind_Raise in H as [->%raise_when_raises|([] & _ & [->%raise_when_raises|([] & _ & [=])]%bind_Raise)].
Qed.

Lemma within_transfer vm auth p : tools_raise → within agent_error_only (transfer_from check conn vm auth p : R bytes).
Proof.
  intros HT. apply within_agent, within_bind; [apply within_on_ext, (tr_from HT)|]. intros u. apply within_bind.
  - eapply within_catch; [apply within_on_ext, (tr_import HT)| |by intros].
    intros e _ _. apply within_lift. by intros x [= <-].
  - intros []. apply within_bind; [apply within_lift; intros e; by apply fix_raises|]. intros f.
    apply within_bind; [apply within_on_ext, (tr_get HT)|]. intros rep. apply within_bind; [|intros []; apply within_ret].
    apply within_lift. by intros e ->%raise_when_raises.
Qed.
Lemma within_deletes vm auth ps (p : exn → bool) : tools_raise → within p (forA (guest_delete vm auth) ps : R ()).
Proof.
  intros HT. unfold forA. induction ps as [|x ps IH]; cbn [foldA]; [apply within_ret|]. apply within_bind; [|intros []; exact IH].
  eapply within_catch; [apply within_on_ext, (tr_delete HT)|intros; apply within_ret|by intros e -> [=]].
Qed.
Lemma within_token (p : exn → bool) : within p (token_hex : R text).
Proof. intros s r s'. unfold token_hex. destruct (gt_token _) as [t e]. intros [= <- <-]. split; [cbn; lia|done]. Qed.

Lemma temp_path_safe (s : W) t s' ext :
  token_hex s = (Ok t, s') → Forall (λ c, shell_safe c = true) (b ext) →
  Forall (λ c, shell_safe c = true) (temp_path t ext) ∧ head (temp_path t ext) = Some SLASH.
Proof using D.
  unfold token_hex. pose proof (tl_token (es_ext (rm_ext s))) as Ht. destruct (gt_token _) as [t' e]. intros [= <- <-] He.
  split; [|done]. unfold temp_path. rewrite !Forall_app. split_and!; [|exact Ht| |exact He]; repeat (constructor; [done|]); constructor.
Qed.

Lemma within_execute vm auth argv timeout cwd :
  tools_raise → within agent_error_only (tools_execute check conn vm auth argv timeout cwd : R ExecResult).
Proof.
  intros HT s r s'. unfold tools_execute. rewrite act_bind_gets.
  intros [(t & s1 & H1 & H)|(e & H1 & ->)]%act_bind_inv; apply (within_token (λ _, false)) in H1 as [C1 E1]; [|by specialize (E1 _ eq_refl)].
  apply act_bind_inv in H as [(pid & s2 & H2 & H)|(e & H2 & ->)];
    (apply (within_agent _ (within_on_ext _ _ _ (tr_start HT _ _ _ _ _))) in H2 as [C2 E2]); [|split; [lia|intros e' [= <-]; by apply E2]].
  apply act_bind_inv in H as [(code & s3 & H3 & H)|(e & H3 & ->)];
    (eapply (poll_within _ _ _ _ _ agent_error_only) in H3 as [C3 E3];
      [|apply within_bind; [apply within_agent, within_on_ext, (tr_processes HT)|intros; apply within_ret]|done|done|lia]);
    [|split; [lia|intros e' [= <-]; by apply E3]].
  assert (within agent_error_only (
    output ← transfer_from check conn vm auth (temp_path t "out"); errors ← transfer_from check conn vm auth (temp_path t "err");
    rc_raw ← transfer_from check conn vm auth (temp_path t "rc");
    forA (guest_delete vm auth) [temp_path t "out"; temp_path t "err"; temp_path t "rc"];;
    now ← gets rm_clock; mret (MkExecResult (exec_code (strip_space rc_raw) code) output errors (now - rm_clock s))%Z : R ExecResult)) as Hw.
  { do 3 (apply within_bind; [by apply within_transfer|intros ?]). apply within_bind; [by apply within_deletes|]. intros ?.
    apply within_bind; [apply within_gets|]. intros ?. apply within_ret. }
  destruct (Hw _ _ _ H) as [C4 E4]. split; [lia|done].
Qed.

(** C27: what a command gives is what it gave in the guest.  When the first argument is
    one the shell takes for a command word (neither reserved nor [NAME=...], see C34) and
    [execute] returns, the guest was given exactly the argument vector to run, in the
    directory that was asked for; the output and the errors are what that run left in its
    files, and the exit code is the status of the command where the wrapper wrote it down,
    and what the host reports of the shell where nothing was written, however the host
    writes its transfer URLs.  Otherwise it raises [GuestAgentError]. *)
Theorem tools_execute_exact vm auth a args timeout cwd (s : W) r s' :
  tools_raise → command_word a = true → tools_execute check conn vm auth (a :: args) timeout cwd s = (r, s') →
  match r with
  | Ok x => ∃ pid j o, j_argv j = a :: args ∧ gs_jobs (guests s') !! (vm, pid) = Some (j, default [] cwd) ∧
      gs_ended (guests s') !! (vm, pid) = Some o ∧ ed_out o = Some (stdout x) ∧ ed_err o = Some (stderr x) ∧
      (∀ n, ed_status o = Some n → exit_code x = Z.of_nat n) ∧ (ed_rc o = Some [] → exit_code x = ed_shell o) ∧ (0 ≤ duration x)%Z
  | Raise e => e = Exn GuestAgentError []
  end.
Proof using Hhost Hport.
  intros HT Ha. set (argv := a :: args). destruct r as [x|e].
  2:{ intros H. assert (within agent_error_only (tools_execute check conn vm auth argv timeout cwd : R ExecResult)) as Hw by by apply within_execute.
      destruct (Hw _ _ _ H) as [_ He]. by apply (bool_decide_eq_true_1 _), He. }
  intros H. assert (rm_clock s ≤ rm_clock s')%Z as Hclock.
  { eapply within_execute, H. done. }
  revert H. unfold tools_execute. rewrite act_bind_gets.
  intros [(t & s1 & H1 & H)|(e & _ & [=])]%act_bind_inv. set (j := MkJob argv (temp_path t "out") (temp_path t "err") (temp_path t "rc")).
  assert (read_job (wrapper argv (temp_path t "out") (temp_path t "err") (temp_path t "rc")) = Some j) as Hread.
  { apply wrapper_reads; [exact Ha|]. rewrite !Forall_cons. split_and!; [eapply temp_path_safe; [exact H1|by repeat constructor]..|done]. }
  apply act_bind_inv in H as [(pid & s2 & H2 & H)|(e & _ & [=])]. apply as_agent_ok, rcall_on_ext in H2 as [dt H2].
  eapply tl_start in H2; [|apply script_of_quoted|exact Hread].
  apply act_bind_inv in H as [(code & s3 & H3 & H)|(e & _ & [=])]. eapply poll_ended in H3 as (o & Hz & Hj & Ho & Hfo & Hfe & Hfr & Hst); [|exact H2].
  apply act_bind_inv in H as [(out & s4 & [G4 F4]%transfer_okay & H)|(e & _ & [=])].
  apply act_bind_inv in H as [(err & s5 & [G5 F5]%transfer_okay & H)|(e & _ & [=])].
  apply act_bind_inv in H as [(rc & s6 & [G6 F6]%transfer_okay & H)|(e & _ & [=])].
  apply act_bind_inv in H as [([] & s7 & [J7 E7]%deletes_okay & H)|(e & _ & [=])]. rewrite act_bind_gets in H. injection H as <- <-.
  rewrite G6, G5, G4 in *. cbn [fst j_out j_err j_rc j] in *. rewrite F4 in Hfo. rewrite F5 in Hfe. rewrite F6 in Hfr.
  exists pid, j, o. cbn [stdout stderr exit_code duration]. rewrite J7, E7. split_and!; [done..| | |lia].
  - intros n Hn. apply Hst in Hn. rewrite Hn in Hfr. injection Hfr as ->. apply rc_reads.
  - intros Hn. rewrite Hn in Hfr. by injection Hfr as ->.
Qed.
End Exec.

(** ** A guest

    Programs end when their process is asked about; [echo] gives its arguments, [exit]
    ends the shell, [fill-disk] leaves no room for the status, anything else fails.  The host writes the wildcard into its transfer URLs. *)
Module ToolsDemo.

Record Toy : Type := MkToy { ty_guests : GuestView; ty_tickets : list (nat * text) }.

Definition give {A} (a : A) (t : Toy) : res A * Toy * nat := (Ok a, t, 1).
Definition refuse {A} (t : Toy) : res A * Toy * nat := (raise ValueError [], t, 1).

Definition on_guests (f : GuestView → GuestView) (t : Toy) : Toy := MkToy (f (ty_guests t)) (ty_tickets t).
Definition with_files (f : gmap (nat * text) bytes → gmap (nat * text) bytes) (g : GuestView) : GuestView := MkGuestView (f (gs_files g)) (gs_jobs g) (gs_ended g).

Definition left (status : nat) (out err : bytes) : outcome_of :=
  MkOutcome (Some status) (Some out) (Some err) (Some (str_nat status ++ [chr 10])) 0.
Definition outcome (argv : list text) : outcome_of :=
  match argv with
  | c :: args =>
      if decide (c = b "echo") then left 0 (join_with SPACE args) []
      else if decide (c = b "exit") then MkOutcome None (Some []) (Some []) None 0
      else if decide (c = b "fill-disk") then MkOutcome None (Some []) (Some []) (Some []) 1
      else left 127 [] (c ++ b ": not found")
  | [] => left 127 [] []
  end.

Definition new_ticket (vm : nat) (p : text) (t : Toy) : res text * Toy * nat :=
  (Ok (b "https://" ++ b "*" ++ b "/guestFile" ++ QMARK :: str_nat (length (ty_tickets t))), MkToy (ty_guests t) (ty_tickets t ++ [(vm, p)]), 1).
Definition ticket_of (t : Toy) (up q : text) : option (nat * text) :=
  if decide (up = b "/guestFile") then ty_tickets t !! digits_nat q else None.
Definition ticket_of_url (u : text) (t : Toy) : option (nat * text) :=
  match urlparse (λ _, Ok ()) u with Ok r => ticket_of t (url_path r) (query r) | Raise _ => None end.

Definition finish (vm pid : nat) (jc : job * text) (g : GuestView) : GuestView :=
  let o := outcome (j_argv jc.1) in
  MkGuestView (partial_alter (λ _, ed_out o) (vm, j_out jc.1) (partial_alter (λ _, ed_err o) (vm, j_err jc.1)
    (partial_alter (λ _, ed_rc o) (vm, j_rc jc.1) (gs_files g))))
    (gs_jobs g) (<[(vm, pid) := o]> (gs_ended g)).
Definition separate (j : job) : bool := bool_decide (NoDup [j_out j; j_err j; j_rc j]).

#[local] Instance toy_sleeper : Sleeper Toy := λ _ t, (0, t).
#[local] Instance toy_api : EsxiApi Toy := {
  es_import := give (); es_import_requests := give (); es_login := give (); es_logout := give (); es_retrieve := give ();
  es_api_type := give "HostAgent"; es_datacenter := give (); es_datacenter_name := give "ha-datacenter";
  es_view := give (); es_hosts := give 1; es_view_destroy := give (); es_parent := give (); es_resource_pool := give ();
  es_datastores := give ["datastore1"]; es_free_space := give 0%Z; es_hardware := give (0, 1)%Z;
  es_vms := give []; es_vm_name _ := give ""; es_power _ := give poweredOff; es_snapshot_tree _ := give None;
  es_vswitches := give []; es_portgroups := give []; es_vnics := give []; es_pnics := give [];
  es_do _ := give (); es_task _ := give 0; es_info _ := give TaskDone; es_head _ := give 200%Z;
  es_get u off t := give (match ticket_of_url u t ≫= λ k, gs_files (ty_guests t) !! k with Some c => MkReply 200 [] [c] (Ok ()) | None => MkReply 404 [] [] (Ok ()) end) t;
  es_put u data t := match ticket_of_url u t with Some k => give 200%Z (on_guests (with_files <[k := data]>) t) | None => give 404%Z t end;
  es_delete _ := give 200%Z;
  is_file_exists _ := false; is_file_not_found _ := false; is_tools_unavailable _ := false; is_esxi_error _ := false;
  es_sleeper := toy_sleeper;
}.
#[local] Instance toy_tools : ToolsApi Toy := {
  gt_managers := give ();
  gt_token t := (b "0a1b", t);
  gt_start vm _ _ args cwd t :=
    match script_of args ≫= read_job with
    | Some j => if separate j then give 7 (on_guests (λ g, MkGuestView (gs_files g) (<[(vm, 7) := (j, cwd)]> (gs_jobs g)) (gs_ended g)) t) else refuse t
    | None => refuse t
    end;
  gt_processes vm _ pid t :=
    match gs_jobs (ty_guests t) !! (vm, pid) with
    | Some jc => if separate jc.1 then give (Some (Some (ed_shell (outcome (j_argv jc.1))))) (on_guests (finish vm pid jc) t) else refuse t
    | None => give None t
    end;
  gt_from_guest vm _ p := new_ticket vm p;
  gt_to_guest vm _ p _ := new_ticket vm p;
  gt_delete vm _ p t := give () (on_guests (with_files (delete (vm, p))) t);
}.

Lemma toy_ticket vm p t u t' dt :
  new_ticket vm p t = (Ok u, t', dt) → ty_guests t' = ty_guests t ∧ ∃ h up q, transfer_url u h up q ∧ ticket_of t' up q = Some (vm, p).
Proof.
  intros [= <- <- <-]. split; [done|]. exists (b "*"), (b "/guestFile"), (str_nat (length (ty_tickets t))). split.
  - pose proof (str_nat_digits (length (ty_tickets t))) as Hd. split; [done| |by eexists| |].
    + constructor; [|constructor]. split_and!; [done..|vm_compute; lia].
    + split_and!; [by_decide..|]. repeat (constructor; [vm_compute; lia|]). constructor.
    + split_and!; [apply str_nat_ne|by eapply Forall_not_elem|]. eapply Forall_impl; [exact Hd|]. intros c Hc. by apply unreserved_sane, digit_unreserved.
  - unfold ticket_of. rewrite decide_True by done. rewrite str_nat_value. apply list_lookup_middle. done.
Qed.
Lemma toy_url u h up q t : transfer_url u h up q → ticket_of_url u t = ticket_of t up q.
Proof. intros Hu. unfold ticket_of_url. by rewrite (transfer_parsed _ _ _ _ _ Hu). Qed.

#[local] Instance toy_laws : ToolsLaws Toy.
Proof.
  refine {| tl_guests := ty_guests; tl_ticket := ticket_of |}.
  - intros t. by_decide.
  - intros vm auth args cwd t pid t' dt script j H Hs Hr. cbn in H. rewrite Hs in H. cbn in H. rewrite Hr in H. destruct (separate j); [|discriminate].
    injection H as <- <- <-. apply lookup_insert_eq.
  - done.
  - intros vm auth pid t r t' dt jc H Hj. cbn in H. rewrite Hj in H. destruct (separate jc.1) eqn:Hsep; [|discriminate]. injection H as <- <- <-.
    split; [exact Hj|]. intros z [= <-]. exists (outcome (j_argv jc.1)). split; [apply lookup_insert_eq|]. split; [done|].
    apply bool_decide_eq_true in Hsep. rewrite !NoDup_cons, !elem_of_cons in Hsep. destruct Hsep as (Ho & He & _).
    unfold job_done. cbn [ty_guests on_guests finish gs_files]. split_and!; [apply lookup_partial_alter_eq|..].
    + rewrite lookup_partial_alter_ne by (intros [=]; naive_solver). apply lookup_partial_alter_eq.
    + rewrite !lookup_partial_alter_ne by (intros [=]; naive_solver). apply lookup_partial_alter_eq.
    + intros n. unfold outcome. destruct (j_argv jc.1) as [|c args]; [by intros [= <-]|].
      repeat case_decide; cbn; [by intros [= <-]|done..|by intros [= <-]].
  - intros vm auth p t u t' dt. apply toy_ticket.
  - intros vm auth p n t u t' dt. apply toy_ticket.
  - by intros t t' dt [= <- <-].
  - intros u h up q t rep t' dt vm p H Hst Hu Ht. cbn in H. rewrite (toy_url _ _ _ _ _ Hu), Ht in H. cbn in H. injection H as <- <- <-.
    split; [done|]. destruct (gs_files (ty_guests t) !! (vm, p)) as [c|]; [by cbn; rewrite app_nil_r|discriminate].
  - intros u h up q data t st t' dt vm p H Hst Hu Ht. cbn in H. rewrite (toy_url _ _ _ _ _ Hu), Ht in H. by injection H as <- <- <-.
  - intros vm auth p t r t' dt [= <- <- <-]. done.
Defined.

Definition conn : EsxiConn := MkEsxiConn "esx" "root" "" "datastore1" false 443.
Lemma conn_ok : host_ok (ec_host conn) ∧ port_ok (ec_port conn).
Proof. split; [|unfold port_ok; cbn; lia]. split; [done|]. repeat (constructor; [done|]). constructor. Qed.
Lemma toy_raise : tools_raise (E:=Toy) (λ _, Ok ()).
Proof.
  split; try done.
  - intros vm auth a1 a2 a3 e x. cbn. destruct (_ ≫= _) as [j|]; [destruct (separate j)|]; cbn; try done; by intros [= <-].
  - intros vm auth pid e x. cbn. destruct (_ !! _) as [jc|]; [destruct (separate jc.1)|]; cbn; try done; by intros [= <-].
Qed.

Definition auth : GuestAuth := MkAuth "root" "pw".
Definition here : Remote es_request (EsState Toy) :=
  MkRemote (MkEsState (MkToy (MkGuestView ∅ ∅ ∅) []) true true true true true true true true ∅ ∅ ∅) 0 [].
Definition ran : res ExecResult * Remote es_request (EsState Toy) :=
  tools_execute (λ _, Ok ()) conn 3 auth [b "echo"; b "it's"; b "$HOME"; b ">x"] 60000 None here.

Lemma tools_execute_exact_witness :
  match ran.1 with
  | Ok x => stdout x = b "it's $HOME >x" ∧ ∃ pid j o, j_argv j = [b "echo"; b "it's"; b "$HOME"; b ">x"] ∧
      gs_ended (guests ran.2) !! (3, pid) = Some o ∧ ed_out o = Some (stdout x) ∧ (∀ n, ed_status o = Some n → exit_code x = Z.of_nat n)
  | Raise _ => False
  end.
Proof.
  pose proof (tools_execute_exact (λ _, Ok ()) conn (proj1 conn_ok) (proj2 conn_ok) 3 auth (b "echo") [b "it's"; b "$HOME"; b ">x"] 60000 None
    here ran.1 ran.2 toy_raise eq_refl (surjective_pairing ran)) as H.
  assert (match ran.1 with Ok x => stdout x = b "it's $HOME >x" | Raise _ => False end) as Hout by (vm_compute; done).
  destruct ran.1 as [x|e]; [|done]. destruct H as (pid & j & o & H1 & _ & H2 & H3 & _ & H4 & _). split; [exact Hout|].
  exists pid, j, o. exact (conj H1 (conj H2 (conj H3 H4))).
Defined.

(** The exit code without a status in its file, a command that ends the shell, and an
    argument the shell takes for a variable. *)
Definition runs (argv : list text) : res Z :=
  exit_code <$> (tools_execute (λ _, Ok ()) conn 3 auth argv 60000 None here).1.
Example tools_fallback : runs [b "fill-disk"] = Ok 1%Z.
Proof. vm_compute. done. Qed.
Example tools_exit : runs [b "exit"; b "0"] = raise GuestAgentError [].
Proof. vm_compute. done. Qed.
Example tools_assigns : read_job (wrapper [b "A=1"; b "true"] (b "/o") (b "/e") (b "/r")) = None.
Proof. vm_compute. done. Qed.

(** A file survives the way into the guest and back. *)
Example tools_file_roundtrip_witness :
  (transfer_from (λ _, Ok ()) conn 3 auth (b "/etc/motd") (tools_write_file (λ _, Ok ()) conn 3 auth (b "/etc/motd") (b "hi") here).2).1 = Ok (b "hi").
Proof. vm_compute. done. Qed.
End ToolsDemo.
