(* ===== verification/Provision.v ===== *)
(** * Bringing resources up ([orchestrator/provision.py], [orchestrator/build.py],
      [orchestrator/vm_run.py])

    Every creating driver call is preceded by its [record_intent]. *)

From S2P Require Import Prelude Exceptions Eff PyBytes Ipv4 Devices Hypervisor Ledger Store Dashboard.
From S2P Require Import Cleanup Sidecar Artifacts Context.
From stdpp Require Import options.

(** The code points of a [str]. *)
Definition str_of (s : string) : pystr := N_of_ascii <$> String.list_ascii_of_string s.

Section Provision.
Context `{Provider B, !Cache B, !Guests B Bld Com}.
Variable env : Env Bld Com.
(** [str.lower], for texts beyond ASCII. *)
Variable str_lower : pystr → pystr.
Abbreviation M := (act (Ctx B Bld Com)).

Definition rname (kind name : string) : string := compose_resource_name (B:=B) (e_run_id env) kind name.

Definition mac_for (vm : string) (idx : nat) : string :=
  compose_mac (B:=B) (e_plan_name env) vm (Z.of_nat idx).

(** ** The ledger, from inside the context *)

Definition intend (kind name : string) (plan : option string) (md : gmap string json) : M () :=
  onw (record_intent (e_store env) kind name plan md);; mret ().
Definition confirmed (name : string) (md : gmap string json) : M () := onw (confirm (e_store env) name md).
Definition forgets (name : string) : M () := onw (forget (e_store env) name).

Definition in_pool (pool : string) : gmap string json := {[ "pool_backend" := JStr pool ]}.

(** ** [provision_switch] *)

(** One network of the switch. *)
Definition provision_network (kind_prefix : string) (sw : Switch) (switch_backend : string) (net : Network) : M () :=
  let backend := rname (kind_prefix +:+ "network") (net_name net) in
  intend (kind_prefix +:+ "network") backend (Some (net_name net)) ∅;;
  creates "network" backend (create_network net sw backend switch_backend);;
  confirmed backend ∅;;
  modify (λ c, set_networks (<[net_name net := backend]> (network_backends c)) c).

Definition provision_switch (sw : Switch) (kind_prefix : string) : M () :=
  let switch_backend := rname (kind_prefix +:+ "switch") (sw_name sw) in
  intend (kind_prefix +:+ "switch") switch_backend (Some (sw_name sw)) ∅;;
  uplink_net_backend ← creates "switch" switch_backend (create_switch sw switch_backend);
  confirmed switch_backend ∅;;
  modify (λ c, set_switches (<[sw_name sw := switch_backend]> (switch_backends c)) c);;
  forA (provision_network kind_prefix sw switch_backend) (networks sw);;
  match uplink_net_backend with
  | Some b => modify (λ c, set_networks (<[uplink_network_name sw := b]> (network_backends c)) c)
  | None => mret ()
  end.

(** ** [materialize_sidecar_for] *)

(** [_effective_switch] *)
Definition effective_switch (sw : Switch) : res Switch :=
  match sidecar sw, uplink sw with
  | Some sc, Some up =>
      if sc_nat sc && negb (bool_decide (is_Some (sc_addr sc))) then
        match e_uplink_addrs env !! up with
        | None => mret sw
        | Some a =>
            sc' ← new_sidecar (sc_dhcp sc) (sc_dns sc) (sc_nat sc) (Some a);
            new_switch (sw_name sw) (networks sw) (cidr sw) (uplink sw) (mgmt sw) (Some sc')
        end
      else mret sw
  | _, _ => mret sw
  end.

(** [_sidecar_spec] *)
Definition sidecar_nic (sw : Switch) (spec : string * option string) : res Device :=
  h ← new_network_handle spec.1 (sw_name sw);
  a ← (match spec.2 with
       | Some ip => x ← new_static_addr ip None []; mret (Static x)
       | None => mret DHCPAddr
       end : res addr_mode);
  mret (Nic (MkIface h (Some a))).

Definition sidecar_spec (sw : Switch) (pool_name : string) : res VMSpec :=
  specs ← sidecar_nic_specs sw;
  nics ← foldM (λ acc s, d ← sidecar_nic sw s; mret (acc ++ [d])) [] specs;
  p ← new_pool_handle pool_name;
  new_vm_spec ("__sidecar_" +:+ sw_name sw) ([CPU 1 false; Memory 256; OSDrive (MkDisk p 2)] ++ nics) "bios".

(** The sidecar's home: an explicit pool, or the first declared one. *)
Definition sidecar_home (sw : Switch) (home : option (string * string)) : M (string * string) :=
  match home with
  | Some h => mret h
  | None =>
      match declared_pools (e_hyp env) with
      | [] => throw OrchestratorError [sw_name sw; "no pools"]
      | p :: _ => b ← lookup_in pool_backends (sp_name p); mret (b, sp_name p)
      end
  end.

(** A volume: record, then push its content onto its own reference. *)
Definition new_volume (kind name : string) (plan : option string) (pool : string) (push : string → op B ()) : M string :=
  let ref := compose_volume_ref (B:=B) pool name in
  intend kind name plan (in_pool pool);;
  creates "volume" ref (push ref);;
  confirmed name (in_pool pool);;
  mret ref.

(** [assert info.path is not None] *)
Definition local_path (info : option string * string) : M string :=
  match info.1 with Some p => mret p | None => throw AssertionError ["path"] end.

Definition materialize_sidecar_for (sw : Switch) (kind_prefix : string) (home : option (string * string)) : M () :=
  if needs_sidecar sw then
    sw ← lift (effective_switch sw);
    '(pool_backend, pool_name) ← sidecar_home sw home;
    spec ← lift (sidecar_spec sw pool_name);
    let vm := rname (kind_prefix +:+ "sidecar_vm") (sw_name sw) in
    let disk_name := vm +:+ volume_suffix (B:=B) "sidecar_disk" in
    base ← use "resolve" SIDECAR_CACHE_NAME (cache_resolve SIDECAR_CACHE_NAME true);
    path ← local_path base;
    disk_ref ← new_volume "sidecar_disk" disk_name (Some (sw_name sw)) pool_backend (λ ref, upload_to_pool ref path);
    let cfg_name := vm +:+ "-cfg" +:+ volume_suffix (B:=B) "sidecar_config" in
    dnsmasq ← lift (render_dnsmasq_conf mac_for sw (declared_vms (e_hyp env)));
    interfaces ← lift (render_sidecar_interfaces sw);
    nft ← lift (render_nftables_ruleset sw);
    sysctl ← lift (render_sysctl_conf sw);
    iso ← lift (build_sidecar_config_iso (B:=B) dnsmasq interfaces nft sysctl);
    cfg_ref ← new_volume "sidecar_config" cfg_name (Some (sw_name sw)) pool_backend (λ ref, write_to_pool ref iso);
    specs ← lift (sidecar_nic_specs sw);
    refs ← foldA (λ m s, b ← lookup_in network_backends s.1; mret (<[s.1 := b]> m)) ∅ specs;
    intend "sidecar_vm" vm (Some (sw_name sw)) ∅;;
    creates "vm" vm (create_vm vm spec (e_plan_name env) (MkVmRefs disk_ref (Some cfg_ref) refs [] None None));;
    confirmed vm ∅;;
    use "start_vm" vm (start_vm vm);;
    modify (λ c, set_sidecars (<[sw_name sw := vm]> (sidecar_backends c)) c)
  else mret ().

(** ** [create_pool_backend], [bring_up_vm] *)

Definition create_pool_backend (pool : StoragePool) : M () :=
  let backend := rname "pool" (sp_name pool) in
  intend "pool" backend (Some (sp_name pool)) ∅;;
  creates "pool" backend (create_pool pool backend);;
  confirmed backend ∅;;
  modify (λ c, set_pools (<[sp_name pool := backend]> (pool_backends c)) c).

(** [built[role]] *)
Definition built_path (built : gmap string string) (role : string) : M string := lift (getitem built role).

(** One data disk of a run VM. *)
Definition upload_data_disk (vm vm_backend : string) (built : gmap string string) (refs : list string)
    (ihd : nat * Disk) : M (list string) :=
  pool_backend ← lookup_in pool_backends (ph_name (d_pool ihd.2));
  let role := data_disk_role ihd.1 in
  let name := vm_backend +:+ "-" +:+ role +:+ volume_suffix (B:=B) "data_disk" in
  let ref := compose_volume_ref (B:=B) pool_backend name in
  intend "data_disk" name (Some vm) (in_pool pool_backend);;
  p ← built_path built role;
  creates "volume" ref (upload_to_pool ref p);;
  confirmed name (in_pool pool_backend);;
  mret (refs ++ [ref]).

Definition bring_up_vm (vm : VMRecipe Bld Com) : M () :=
  let name := vm_name vm in
  set_vm_stage name PROVISIONING None;;
  paths ← gets built_disk_paths;
  built ← lift (getitem paths name);
  let vm_backend := rname "vm" name in
  os ← lift (os_drive (spec vm));
  os_pool ← lookup_in pool_backends (ph_name (d_pool os));
  let os_name := vm_backend +:+ volume_suffix (B:=B) "run_disk" in
  let os_ref := compose_volume_ref (B:=B) os_pool os_name in
  intend "run_disk" os_name (Some name) (in_pool os_pool);;
  p ← built_path built "os";
  creates "volume" os_ref (upload_to_pool os_ref p);;
  confirmed os_name (in_pool os_pool);;
  data_refs ← foldA (upload_data_disk name vm_backend built) [] (imap pair (data_drives (spec vm)));
  intend "vm" vm_backend (Some name) ∅;;
  nets ← gets network_backends;
  creates "vm" vm_backend (create_vm vm_backend (spec vm) (e_plan_name env)
    (MkVmRefs os_ref None nets data_refs None None));;
  confirmed vm_backend ∅;;
  use "start_vm" vm_backend (start_vm vm_backend);;
  set_vm_stage name BOOTING None.

(** ** Readiness gates *)

(** [while time.monotonic() < deadline: ...; time.sleep(2.0)]: at most [polls]
    rounds fit, since each sleeps two seconds. *)
Fixpoint poll {A} (polls : nat) (body : M (option A)) : M (option A) :=
  match polls with
  | 0 => mret None
  | S polls =>
      late ← use "monotonic" "" deadline_passed;
      if (late : bool) then mret None
      else
        r ← body;
        match (r : option A) with Some a => mret (Some a) | None => poll polls body end
  end.

Definition wait_sidecar_ready (sw : Switch) : M () :=
  m ← gets sidecar_backends;
  match m !! sw_name sw with
  | None => mret ()
  | Some sidecar_backend =>
      use "native_guest_read_file" sidecar_backend (native_guest "read_file" sidecar_backend (Some SIDECAR_CRED));;
      ready ← poll (e_sidecar_polls env)
        (data ← catch (use "read_file" sidecar_backend (guest_read_file sidecar_backend SIDECAR_DNSMASQ_CONF))
           (λ e, isinstance e GuestAgentError) (λ _, mret []);
         mret (match data with [] => None | _ => Some () end));
      match ready with
      | Some _ => mret ()
      | None => throw OrchestratorError [sw_name sw; "sidecar not ready"]
      end
  end.

Definition wait_communicator_ready (vm : VMRecipe Bld Com) : M () :=
  ready ← poll (e_agent_polls env)
    (catch (use "execute" (vm_name vm) (comm_execute (communicator vm));; mret (Some ()))
       (λ e, isinstance e GuestAgentError || isinstance e CommunicatorError) (λ _, mret None));
  match ready with
  | Some _ => mret ()
  | None => throw OrchestratorError [vm_name vm; "communicator not ready"]
  end.

Definition await_guest_ready (vm : VMRecipe Bld Com) : M () :=
  catch (use "wait_ready" (vm_name vm) (wait_ready (builder vm) (spec vm) (communicator vm)))
    (λ e, isinstance e BuildNotReadyError)
    (λ e, throw BuildNotReadyError (vm_name vm :: exn_args e));;
  set_vm_stage (vm_name vm) READY None.

Definition switch_for_network (network : string) : M Switch :=
  match list_find (λ sw, network ∈ net_name <$> networks sw) (declared_switches (e_hyp env)) with
  | Some (_, sw) => mret sw
  | None => throw OrchestratorError [network]
  end.

Definition wait_for_dhcp_lease (vm network : string) (nic_idx : nat) : M pystr :=
  sw ← switch_for_network network;
  m ← gets sidecar_backends;
  match m !! sw_name sw with
  | None => throw OrchestratorError [vm; network; sw_name sw]
  | Some sidecar_backend =>
      let mac := str_lower (str_of (mac_for vm nic_idx)) in
      use "native_guest_read_file" sidecar_backend (native_guest "read_file" sidecar_backend (Some SIDECAR_CRED));;
      ip ← poll (e_lease_polls env)
        (raw ← catch (use "read_file" sidecar_backend (guest_read_file sidecar_backend LEASEFILE))
           (λ e, isinstance e GuestAgentError) (λ _, mret []);
         mret (match parse_dnsmasq_leases str_lower (decode_replace raw) !! mac with
               | Some [] | None => None
               | Some ip => Some ip
               end));
      match ip with
      | Some ip => mret ip
      | None => throw OrchestratorError [vm; network; "no lease"]
      end
  end.

Definition wait_vm_dhcp_leases (vm : VMRecipe Bld Com) : M () :=
  forA (λ '(idx, nic),
    match n_addr nic with
    | Some DHCPAddr => wait_for_dhcp_lease (vm_name vm) (nh_name (n_network nic)) idx;; mret ()
    | _ => mret ()
    end) (imap pair (nics (spec vm))).

(** [discover_ip] *)
Definition chosen_nic (vm : VMRecipe Bld Com) (nic_idx : option Z) : res (nat * NetworkIface) :=
  let ns := nics (spec vm) in
  match nic_idx with
  | Some i =>
      if decide (0 ≤ i < Z.of_nat (length ns))%Z then
        match ns !! Z.to_nat i with
        | Some nic => raise_when (negb (bool_decide (is_Some (n_addr nic)))) OrchestratorError [vm_name vm; "no address"];;
                      mret (Z.to_nat i, nic)
        | None => raise IndexError []
        end
      else raise OrchestratorError [vm_name vm; "nic_idx"]
  | None =>
      match filter (λ p, is_Some (n_addr p.2)) (imap pair ns) with
      | p :: _ => mret p
      | [] => raise OrchestratorError [vm_name vm; "no NIC has an address"]
      end
  end.

Definition discover_ip (vm : VMRecipe Bld Com) (nic_idx : option Z) : M pystr :=
  '(i, nic) ← lift (chosen_nic vm nic_idx);
  match n_addr nic with
  | Some (Static a) => h ← lift (host a); mret (str_of h)
  | _ => wait_for_dhcp_lease (vm_name vm) (nh_name (n_network nic)) i
  end.

(** [Builder.find_credential] *)
Definition find_credential (b : Bld) (user : string) : option Cred :=
  snd <$> list_find (λ c, username c = user) (credentials (B:=B) (Com:=Com) b).

Definition lookup_credential (vm : VMRecipe Bld Com) : res Cred :=
  match kind_of (B:=B) (Bld:=Bld) (communicator vm) with
  | SSHCommunicator _ user =>
      match find_credential (builder vm) user with
      | None => raise OrchestratorError [vm_name vm; user]
      | Some c => raise_when (negb (posix c)) OrchestratorError [vm_name vm; user; "not a PosixCred"];; mret c
      end
  | _ => raise OrchestratorError [vm_name vm; "communicator is not SSHCommunicator"]
  end.

Definition native_guest_credential (vm : VMRecipe Bld Com) : option Cred :=
  if is_cloud_init (B:=B) (Com:=Com) (builder vm) then
    let creds := credentials (B:=B) (Com:=Com) (builder vm) in
    match filter (λ c, admin c = true) creds, creds with
    | c :: _, _ => Some c
    | [], [c] => Some c
    | [], _ => None
    end
  else None.

Definition bind_communicator_for (vm : VMRecipe Bld Com) : M () :=
  set_vm_stage (vm_name vm) BINDING None;;
  match kind_of (B:=B) (Bld:=Bld) (communicator vm) with
  | SSHCommunicator nic_idx _ =>
      ip ← discover_ip vm nic_idx;
      cred ← lift (lookup_credential vm);
      gateway ← use "guest_gateway" "" guest_gateway;
      use "bind" (vm_name vm) (comm_bind (communicator vm) (BindSSH ip cred gateway))
  | NativeCommunicator =>
      let backend := rname "vm" (vm_name vm) in
      let cred := native_guest_credential vm in
      use "native_guest_execute" backend (native_guest "execute" backend cred);;
      use "native_guest_read_file" backend (native_guest "read_file" backend cred);;
      use "native_guest_write_file" backend (native_guest "write_file" backend cred);;
      use "bind" (vm_name vm) (comm_bind (communicator vm) (BindNative backend cred))
  | OtherCommunicator => mret ()
  end.
End Provision.
