(* ===== verification/VmBuild.v ===== *)
(** * Building a VM's disk set ([orchestrator/vm_build.py])

    The probe of the cache, the shared ephemeral build infrastructure, and the
    build of one VM: provision, boot, wait for the verdict, capture, delete. *)

From S2P Require Import Prelude Exceptions Eff PyBytes Ipv4 Devices Hypervisor Ledger Store Dashboard.
From S2P Require Import Cleanup BuildResult Sidecar Artifacts Context Provision.
From stdpp Require Import options.

Definition BUILD_POOL_NAME : string := "__build".

Section VmBuild.
Context `{Provider B, !Cache B, !Guests B Bld Com, Unicode}.
Variable env : Env Bld Com.
Abbreviation M := (act (Ctx B Bld Com)).
Abbreviation Probe := (VMBuildProbe Bld Com).

(** ** Probing *)

(** [VMBuildProbe.__post_init__] *)
Definition new_probe (bp : Probe) : res Probe :=
  let name := vm_name (bp_vm bp) in
  (if bp_paths_resolved bp then
     raise_when (bp_installer_origin bp && negb (bool_decide (is_Some (bp_boot_media_path bp))))
       OrchestratorError [name; "no boot medium"];;
     raise_when (negb (bp_installer_origin bp) && negb (bool_decide (is_Some (bp_base_path bp))))
       OrchestratorError [name; "no base path"]
   else mret ());;
  raise_when (bool_decide (is_Some (bp_base_path bp)) && bool_decide (is_Some (bp_boot_media_path bp)))
    OrchestratorError [name; "both origins"];;
  mret bp.

Definition build_nic_for (build_switch : Switch) (vm : VMRecipe Bld Com) (vm_index : nat) : res BuildNic :=
  match networks build_switch with
  | [] => raise IndexError []
  | network :: _ =>
      n ← sw_network build_switch;
      offset ← build_ip_offset vm_index;
      ip ← addr_add (network_address n) offset;
      let installer_origin := negb (bool_decide (is_Some (os_disk_base (B:=B) (Com:=Com) (builder vm)))) in
      let mac_idx := if installer_origin && bool_decide (length (nics (spec vm)) ≠ 0)
                     then 0%Z else BUILD_NIC_NIC_IDX in
      addr ← new_static_addr (print_ip ip) None [];
      addressing ← from_switch build_switch;
      mret (MkBuildNic (compose_mac (B:=B) (e_plan_name env) (vm_name vm) mac_idx) (net_name network) addr addressing)
  end.

Definition resolve_sidecar_sha : M string :=
  info ← use "resolve" SIDECAR_CACHE_NAME (cache_resolve SIDECAR_CACHE_NAME false);
  mret info.2.

(** [if fetch: assert info.path is not None] and the path taken from it. *)
Definition fetched_path (fetch : bool) (info : option string * string) : M (option string) :=
  if fetch then p ← local_path info; mret (Some p) else mret None.

(** [resolve_full_set]: any error of the cache on any role is a miss of the whole. *)
Fixpoint resolve_roles (config_hash : string) (fetch : bool) (paths : gmap string string) (roles : list string)
    : M (option (gmap string string)) :=
  match roles with
  | [] => mret (Some paths)
  | role :: roles =>
      let name := built_artifact_name config_hash role in
      info ← catch (i ← use "resolve" name (cache_resolve name fetch); mret (Some i))
        (λ e, isinstance e CacheMissError || isinstance e CacheError) (λ _, mret None);
      match info with
      | None => mret None
      | Some info =>
          p ← fetched_path fetch info;
          resolve_roles config_hash fetch (match p with Some p => <[role := p]> paths | None => paths end) roles
      end
  end.
Definition resolve_full_set (config_hash : string) (roles : list string) (fetch : bool)
    : M (option (gmap string string)) :=
  resolve_roles config_hash fetch ∅ roles.

Definition probe_vm (vm : VMRecipe Bld Com) (vm_index : nat) (sidecar_sha : string) (build_switch : Switch)
    : M Probe :=
  let bld := builder vm in
  let fetch := e_probe_fetch env in
  let base := os_disk_base (B:=B) (Com:=Com) bld in
  '(base_path, boot_media_path, origin_sha) ←
    (match base with
     | Some b =>
         info ← use "resolve" b (cache_resolve b fetch);
         p ← fetched_path fetch info;
         mret (p, None, info.2)
     | None =>
         match boot_media (B:=B) (Com:=Com) bld with
         | None => throw OrchestratorError [vm_name vm; "no origin"]
         | Some b =>
             info ← use "resolve" b (cache_resolve b fetch);
             p ← fetched_path fetch info;
             mret (None, p, info.2)
         end
     end : M (option string * option string * string));
  let macs := imap (λ i _, mac_for (B:=B) env (vm_name vm) i) (nics (spec vm)) in
  build_nic ← lift (build_nic_for build_switch vm vm_index);
  let native_agent :=
    match kind_of (B:=B) (Bld:=Bld) (communicator vm) with
    | NativeCommunicator => native_agent_provision (B:=B)
    | _ => None
    end in
  let h := config_hash (B:=B) (Com:=Com) bld (spec vm) (e_addressing env) origin_sha sidecar_sha macs build_nic
             native_agent in
  let roles := built_artifact_roles (length (data_drives (spec vm))) in
  cached ← resolve_full_set h roles fetch;
  lift (new_probe (MkProbe vm h macs build_nic native_agent (negb (bool_decide (is_Some base)))
    base_path boot_media_path roles cached fetch)).

(** ** The shared build infrastructure *)

(** [os_drive.size_gb + sum(d.size_gb for d in data_drives)] *)
Definition disk_set_gb (bp : Probe) : res Z :=
  os ← os_drive (spec (bp_vm bp));
  mret (d_size_gb os + foldl Z.add 0 (d_size_gb <$> data_drives (spec (bp_vm bp))))%Z.

(** [max(...)] of a non-empty list. *)
Definition max_of (l : list Z) : res Z :=
  match l with [] => raise ValueError ["max"] | x :: l => mret (foldl Z.max x l) end.

Definition create_build_pool (misses : list Probe) : M string :=
  sizes ← lift (mapM disk_set_gb misses);
  size_gb ← lift (max_of sizes);
  let backend := rname (B:=B) env "build_pool" "build" in
  intend env "build_pool" backend None ∅;;
  pool ← lift (new_storage_pool BUILD_POOL_NAME size_gb);
  creates "pool" backend (create_pool pool backend);;
  confirmed env backend ∅;;
  mret backend.

Definition misses_of (probes : gmap string Probe) : list Probe :=
  filter (λ p, bp_cached_paths p = None) (snd <$> map_to_list probes).

Definition ensure_build_infra : M (string * string) :=
  infra ← gets build_infra;
  match infra with
  | Some i => mret (bi_pool i, bi_net i)
  | None =>
      probes ← gets vm_probes;
      let misses := misses_of probes in
      throw_when (bool_decide (length misses = 0)) OrchestratorError ["no cache-missing VM"];;
      pool_backend ← create_build_pool misses;
      build_switch ← lift (resolve_build_switch (Hypervisor.build_switch (e_hyp env)));
      provision_switch env build_switch "build_";;
      net ← lift (match networks build_switch with [] => raise IndexError [] | n :: _ => mret n end);
      net_backend ← lookup_in network_backends (net_name net);
      materialize_sidecar_for env build_switch "build_" (Some (pool_backend, BUILD_POOL_NAME));;
      modify (set_infra (Some (MkInfra pool_backend net_backend build_switch)));;
      mret (pool_backend, net_backend)
  end.

(** [backend = ledger.pop(name, None); if backend is not None: destroy; forget] *)
Definition reclaim (kind : string) (get : Ctx B Bld Com → gmap string string)
    (put : gmap string string → Ctx B Bld Com → Ctx B Bld Com) (del : string → op B ()) (name : string) : M () :=
  m ← gets get;
  modify (put (delete name m));;
  match m !! name with
  | None => mret ()
  | Some backend => destroys kind backend (del backend);; forgets env backend
  end.

Definition teardown_build_infra : M () :=
  infra ← gets build_infra;
  match infra with
  | None => mret ()
  | Some i =>
      let sw := bi_switch i in
      reclaim "vm" sidecar_backends set_sidecars destroy_vm (sw_name sw);;
      forA (λ net, reclaim "network" network_backends set_networks destroy_network (net_name net)) (networks sw);;
      modify (λ c, set_networks (delete (uplink_network_name sw) (network_backends c)) c);;
      reclaim "switch" switch_backends set_switches destroy_switch (sw_name sw);;
      destroys "pool" (bi_pool i) (destroy_pool (bi_pool i));;
      forgets env (bi_pool i);;
      modify (set_infra None)
  end.

(** ** Building one VM *)

(** [_best_effort_delete] *)
Definition best_effort_delete (backend_name : string) (delete : M ()) : M () :=
  ok ← catch (delete;; mret true) is_exception (λ _, mret false);
  act_when ok (forgets env backend_name).

Definition capture_disk (vol_ref config_hash role vm : string) : M string :=
  tmp ← use "mkstemp" vm (make_temp ("tr_built_" +:+ vm +:+ "_" +:+ role +:+ "_"));
  finally
    (use "download_from_pool" vol_ref (download_from_pool vol_ref tmp);;
     use "cache_add" (built_artifact_name config_hash role) (cache_add tmp (built_artifact_name config_hash role)))
    (use "unlink" tmp (unlink_temp tmp)).

(** The sink is read until a verdict; what it would have yielded is a list. *)
Definition await_build_result (backend vm : string) : M () :=
  stream ← use "read_build_result_sink" backend (read_build_result_sink backend);
  out ← lift (wait_for_build_result stream);
  match out with
  | Returned => mret ()
  | BuildFailed _ _ _ => throw BuildFailedError [vm]
  | TimedOut => throw BuildTimeoutError [vm]
  end.

Definition wait_for_poweroff (backend vm : string) : M () :=
  off ← poll (e_poweroff_polls env)
    (s ← use "get_vm_power_state" backend (get_vm_power_state backend);
     mret (if decide (s = "shutoff") then Some () else None));
  match off with
  | Some _ => mret ()
  | None => throw BuildTimeoutError [vm]
  end.

(** One blank data disk: its name and reference. *)
Definition new_data_disk (vm build_vm pool : string) (acc : list (string * string)) (ihd : nat * Disk)
    : M (list (string * string)) :=
  let name := build_vm +:+ "-" +:+ data_disk_role ihd.1 +:+ volume_suffix (B:=B) "data_disk" in
  ref ← new_volume env "data_disk" name (Some vm) pool (λ ref, create_blank_volume ref (d_size_gb ihd.2));
  mret (acc ++ [(name, ref)]).

(** The build VM's OS disk. *)
Definition new_os_disk (bp : Probe) (name pool : string) : M string :=
  let vm := vm_name (bp_vm bp) in
  let ref := compose_volume_ref (B:=B) pool name in
  intend env "build_disk" name (Some vm) (in_pool pool);;
  (if bp_installer_origin bp then
     os ← lift (os_drive (spec (bp_vm bp)));
     creates "volume" ref (create_blank_volume ref (d_size_gb os))
   else
     base ← lift (match bp_base_path bp with Some p => mret p | None => raise AssertionError ["base_path"] end);
     creates "volume" ref (upload_to_pool ref base);;
     os ← lift (os_drive (spec (bp_vm bp)));
     use "resize_volume" ref (resize_volume ref (d_size_gb os)));;
  confirmed env name (in_pool pool);;
  mret ref.

(** The staged install medium, when the probe has one. *)
Definition new_boot_media (bp : Probe) (build_vm pool : string) : M (option (string * string)) :=
  match bp_boot_media_path bp with
  | None => mret None
  | Some path =>
      prepared ← use "prepare_boot_media" path (prepare_boot_media (builder (bp_vm bp)) path);
      let name := build_vm +:+ "-bootmedia" +:+ volume_suffix (B:=B) "boot_iso" in
      ref ← new_volume env "boot_iso" name (Some (vm_name (bp_vm bp))) pool (λ ref, upload_to_pool ref prepared);
      mret (Some (name, ref))
  end.

(** The seed medium, when the builder renders one. *)
Definition new_seed (bp : Probe) (build_vm pool : string) : M (option (string * string)) :=
  seed ← lift (render_seed (B:=B) (Com:=Com) (builder (bp_vm bp)) (spec (bp_vm bp)) (e_addressing env) (bp_macs bp)
                 (bp_build_nic bp) (bp_native_agent bp));
  match seed with
  | None => mret None
  | Some data =>
      let name := build_vm +:+ "-seed" +:+ volume_suffix (B:=B) "build_seed" in
      ref ← new_volume env "build_seed" name (Some (vm_name (bp_vm bp))) pool (λ ref, write_to_pool ref data);
      mret (Some (name, ref))
  end.

Definition delete_vol (nr : string * string) : M () :=
  best_effort_delete nr.1 (destroys "volume" nr.2 (delete_volume nr.2)).

(** [refs_by_role] *)
Definition role_refs (os_ref : string) (data : list (string * string)) : gmap string string :=
  foldl (λ m id, <[data_disk_role id.1 := id.2.2]> m) {[ "os" := os_ref ]} (imap pair data).

Definition build_one_vm (bp : Probe) (pool net : string) : M () :=
  let vm := vm_name (bp_vm bp) in
  throw_when (negb (bp_paths_resolved bp)) OrchestratorError [vm; "metadata-only probe"];;
  set_vm_stage vm BUILDING None;;
  let build_vm := rname (B:=B) env "build_vm" vm in
  let os_name := build_vm +:+ volume_suffix (B:=B) "build_disk" in
  os_ref ← new_os_disk bp os_name pool;
  media ← new_boot_media bp build_vm pool;
  data ← foldA (new_data_disk vm build_vm pool) [] (imap pair (data_drives (spec (bp_vm bp))));
  seed ← new_seed bp build_vm pool;
  intend env "build_vm" build_vm (Some vm) ∅;;
  creates "vm" build_vm (create_vm build_vm (spec (bp_vm bp)) (e_plan_name env)
    (MkVmRefs os_ref (snd <$> seed) {[ bn_network (bp_build_nic bp) := net ]} (snd <$> data)
       (Some (bp_build_nic bp)) (snd <$> media)));;
  confirmed env build_vm ∅;;
  use "start_vm" build_vm (start_vm build_vm);;
  await_build_result build_vm vm;;
  wait_for_poweroff build_vm vm;;
  captured ← foldA (λ acc role,
    ref ← lift (getitem (role_refs os_ref data) role);
    p ← capture_disk ref (bp_config_hash bp) role vm;
    mret (<[role := p]> acc)) ∅ (bp_roles bp);
  modify (λ c, set_built (<[vm := captured]> (built_disk_paths c)) c);;
  best_effort_delete build_vm (destroys "vm" build_vm (destroy_vm build_vm));;
  forA delete_vol (option_list seed);;
  forA delete_vol (option_list media);;
  forA delete_vol data;;
  delete_vol (os_name, os_ref).
End VmBuild.
