(* ===== verification/NodeHooks.v ===== *)
(** * The node hooks and the walks over them ([nodes.py], [orchestrator/executor.py])

    [cache_key], [materialize] and [realize] of each node kind, [_run_hook] with
    its completion stamp, and the walks with one worker, where [parallel_map] runs
    the hooks in line.  The digest is a parameter. *)

From S2P Require Import Prelude Exceptions Eff PyBytes BuildGraph Kahn Ipv4 Devices Hypervisor Dashboard.
From S2P Require Import Hypervisor Ledger Store Cleanup BuildResult Context Provision VmBuild.
From stdpp Require Import pretty options.

(** Python's [str] of a [bool]. *)
Definition str_bool (b : bool) : string := if b then "True" else "False".
Definition NUL : string := String "000" "".

Section Hooks.
Context `{Provider B, !Cache B, !Guests B Bld Com, Unicode}.
Variable env : Env Bld Com.
Variable str_lower : pystr → pystr.
(** [hashlib.sha256(s.encode()).hexdigest()[:16]] and the [repr] of an address. *)
Variable digest16 : string → string.
Variable repr_addr : StaticAddr → string.
Abbreviation M := (act (Ctx B Bld Com)).
Abbreviation node := (PlanNode Bld Com).

(** ** Keys *)

(** [_fold_dependency_keys]: sorted by dependency name. *)
Definition fold_dependency_keys (own_key : string) (deps : gmap string string) : string :=
  if decide (deps = ∅) then own_key
  else digest16 (foldl (λ acc d, acc +:+ NUL +:+ d +:+ "=" +:+ default "" (deps !! d)) own_key (sorted_set (dom deps))).

(** [_hash_inputs] *)
Definition hash_inputs (parts : list string) : string :=
  digest16 (foldl (λ acc p, acc +:+ p +:+ NUL) "" parts).

(** The declared shape of a node that is not a VM. *)
Definition sidecar_shape (sc : Sidecar) : string :=
  "dhcp=" +:+ str_bool (sc_dhcp sc) +:+ ",dns=" +:+ str_bool (sc_dns sc) +:+ ",nat=" +:+ str_bool (sc_nat sc)
  +:+ ",addr=" +:+ match sc_addr sc with None => "None" | Some a => repr_addr a end.

(** [Node.cache_key] of each kind; a VM's probes the cache once and ledgers it. *)
Definition node_cache_key (n : node) (deps : gmap string string) : M string :=
  match n with
  | PoolNode p => mret (fold_dependency_keys (hash_inputs ["pool"; sp_name p; pretty (sp_size_gb p)]) deps)
  | NetworkNode sw =>
      mret (fold_dependency_keys (hash_inputs ["network"; sw_name sw; cidr sw; default "" (uplink sw);
        str_bool (mgmt sw); Ipv4.join "," (net_name <$> networks sw)]) deps)
  | SidecarNode sw =>
      mret (fold_dependency_keys (hash_inputs ["sidecar"; sw_name sw;
        match sidecar sw with None => "" | Some sc => sidecar_shape sc end]) deps)
  | VMNode vm index =>
      probes ← gets vm_probes;
      probe ← (match probes !! plan_node_name n with
        | Some p => mret p
        | None =>
            sha ← resolve_sidecar_sha;
            sw ← lift (resolve_build_switch (Hypervisor.build_switch (e_hyp env)));
            p ← probe_vm env vm index sha sw;
            modify (λ c, set_probes (<[plan_node_name n := p]> (vm_probes c)) c);;
            mret p
        end : M (VMBuildProbe Bld Com));
      mret (fold_dependency_keys (bp_config_hash probe) deps)
  end.

(** ** [materialize] and [realize] *)

Definition node_materialize (n : node) : M () :=
  match n with
  | PoolNode _ | NetworkNode _ | SidecarNode _ => mret ()
  | VMNode vm _ =>
      probes ← gets vm_probes;
      match probes !! plan_node_name n with
      | None => throw OrchestratorError [plan_node_name n; "materialize before the key walk"]
      | Some probe =>
          match bp_cached_paths probe with
          | Some paths => modify (λ c, set_built (<[vm_name vm := paths]> (built_disk_paths c)) c)
          | None => '(pool, net) ← ensure_build_infra env; build_one_vm env probe pool net
          end
      end
  end.

(** [rt.resume and self.name in rt.realized_nodes] *)
Definition reattaching (n : node) : M bool :=
  marks ← gets realized_nodes;
  mret (e_resume env && bool_decide (plan_node_name n ∈ marks)).

Definition node_realize (n : node) : M () :=
  again ← reattaching n;
  match n with
  | PoolNode p =>
      if again : bool then modify (λ c, set_pools (<[sp_name p := rname (B:=B) env "pool" (sp_name p)]> (pool_backends c)) c)
      else create_pool_backend env p
  | NetworkNode sw =>
      if again : bool then
        modify (λ c, set_switches (<[sw_name sw := rname (B:=B) env "switch" (sw_name sw)]> (switch_backends c)) c);;
        forA (λ net, modify (λ c,
          set_networks (<[net_name net := rname (B:=B) env "network" (net_name net)]> (network_backends c)) c)) (networks sw)
      else provision_switch env sw ""
  | SidecarNode sw =>
      (if again : bool then
         modify (λ c, set_sidecars (<[sw_name sw := rname (B:=B) env "sidecar_vm" (sw_name sw)]> (sidecar_backends c)) c)
       else materialize_sidecar_for env sw "" None);;
      wait_sidecar_ready env sw
  | VMNode vm _ =>
      (if again : bool then mret () else bring_up_vm env vm);;
      bind_communicator_for env str_lower vm;;
      wait_communicator_ready env vm;;
      wait_vm_dhcp_leases env str_lower vm;;
      await_guest_ready vm
  end.

(** ** The executor *)

Inductive hook : Type := Materialize | Realize.

Definition hook_body (h : hook) (n : node) : M () :=
  match h with Materialize => node_materialize n | Realize => node_realize n end.

(** [str(e)]: the values the message interpolates. *)
Definition str_exn (e : exn) : string := let '(Exn _ args) := e in Ipv4.join ", " args.

(** [if node.kind == "vm": set_vm_stage(_vm_plan_name(node), FAILED, detail=str(e))] *)
Definition tag_failure (n : node) (e : exn) : M () :=
  match n with VMNode vm _ => set_vm_stage (vm_name vm) FAILED (Some (str_exn e)) | _ => mret () end.

(** The completion stamp, on disk and in memory. *)
Definition stamp (h : hook) (n : node) : M () :=
  let name := plan_node_name n in
  match h with
  | Materialize =>
      onw (mark_node_materialized (e_store env) name);;
      modify (λ c, set_marks ({[ name ]} ∪ materialized_nodes c) (realized_nodes c) c)
  | Realize =>
      onw (mark_node_realized (e_store env) name);;
      modify (λ c, set_marks (materialized_nodes c) ({[ name ]} ∪ realized_nodes c) c)
  end.

(** [_run_hook] *)
Definition run_hook (h : hook) (n : node) : M () :=
  catch (hook_body h n) is_exception (λ e, tag_failure n e;; lift (Raise e));;
  stamp h n.

(** One node of [compute_cache_keys], in the context. *)
Definition key_node (g : BuildGraph node) (keys : gmap string string) (n : node) : M (gmap string string) :=
  cdeps ← lift (content_dependencies_of g (node_name n));
  dk ← foldA (λ acc dep, k ← lift (getitem keys (node_name dep)); mret (<[node_name dep := k]> acc)) ∅ cdeps;
  k ← node_cache_key n dk;
  mret (<[node_name n := k]> keys).

Definition prepare_keys (g : BuildGraph node) : M () :=
  keys ← gets node_keys;
  if decide (keys = ∅) then
    ks ← foldA (key_node g) ∅ (topological_order g);
    modify (set_keys ks)
  else mret ().

(** [probe_misses], sorted *)
Definition probe_misses (g : BuildGraph node) : M (list string) :=
  prepare_keys g;;
  probes ← gets vm_probes;
  mret (sorted (vm_name ∘ bp_vm <$> misses_of probes)).

(** The walks, with one worker. *)
Definition walk_serial (h : hook) (ws : list (list node)) : M () := forA (forA (run_hook h)) ws.

Definition materialize_graph (g : BuildGraph node) : M () :=
  onw (set_phase (e_store env) PHASE_BUILD);;
  prepare_keys g;;
  finally (walk_serial Materialize (content_waves g)) (teardown_build_infra env).

Definition realize_graph (g : BuildGraph node) : M () :=
  onw (set_phase (e_store env) PHASE_RUN);;
  walk_serial Realize (waves g).
End Hooks.
