(* ===== verification/Lifecycle.v ===== *)
(** * The run lifecycle ([orchestrator/runtime.py], [orchestrator/runner.py])

    The [Orchestrator]: preflight, the two walks, tests, teardown, with the driver
    connection and the process's signal handlers as the resources it brackets.
    [Orch] is the orchestrator object together with the signal table of its process;
    an interrupt is a [KeyboardInterrupt] raised by whatever call was in progress. *)

From S2P Require Import Prelude Exceptions Eff PyBytes PyDict Dashboard BuildGraph Devices Hypervisor.
From S2P Require Import Hypervisor Ledger Store Cleanup BuildResult Profile Context Preflight.
From S2P Require Import NodeHooks.
From stdpp Require Import pretty options.

(** ** Signals *)

(** What [signal.signal] installs; a signal with no entry in the table has a handler
    Python does not know ([signal.signal] returns [None] for it). *)
Inductive sig_handler : Type := SIG_DFL | SIG_IGN | PyHandler (owner : string).

Global Instance sig_handler_eq_dec : EqDecision sig_handler.
Proof. solve_decision. Defined.

(** ** The orchestrator *)

Record RunningVM (Com : Type) : Type := MkRunningVM {
  rv_name : string;
  rv_backend : string;
  rv_communicator : Com;
}.
Arguments MkRunningVM {Com} _ _ _.
Arguments rv_name {Com} _.
Arguments rv_backend {Com} _.
Arguments rv_communicator {Com} _.

(** [OrchestratorHandle]: the driver and [leak] are the operations a test has. *)
Record OrchestratorHandle (Com : Type) : Type := MkHandle {
  oh_run_id : string;
  oh_vms : gmap string (RunningVM Com);
}.
Arguments MkHandle {Com} _ _.
Arguments oh_run_id {Com} _.
Arguments oh_vms {Com} _.

Record Orch (B Bld Com : Type) : Type := MkOrch {
  o_ctx : Ctx B Bld Com;
  o_handle : option (OrchestratorHandle Com);
  o_leak : bool;
  (** [_prior_signal_handlers], once set *)
  o_prior : option (pydict (option sig_handler));
  (** the process's handlers *)
  o_signals : gmap string sig_handler;
}.
Arguments MkOrch {B Bld Com} _ _ _ _ _.
Arguments o_ctx {B Bld Com} _.
Arguments o_handle {B Bld Com} _.
Arguments o_leak {B Bld Com} _.
Arguments o_prior {B Bld Com} _.
Arguments o_signals {B Bld Com} _.

(** What is fixed for the life of an orchestrator: the run's environment, the frozen
    graph, the options, the names recorded in the state, and which signals
    [signal.signal] accepts (none outside the main thread). *)
Record Life (Bld Com : Type) : Type := MkLife {
  lf_env : Env Bld Com;
  lf_graph : BuildGraph (PlanNode Bld Com);
  lf_require_cache : bool;
  lf_driver_name : string;
  lf_driver_uri : string;
  lf_win32 : bool;
  lf_can_signal : string → bool;
}.
Arguments MkLife {Bld Com} _ _ _ _ _ _ _.
Arguments lf_env {Bld Com} _.
Arguments lf_graph {Bld Com} _.
Arguments lf_require_cache {Bld Com} _.
Arguments lf_driver_name {Bld Com} _.
Arguments lf_driver_uri {Bld Com} _.
Arguments lf_win32 {Bld Com} _.
Arguments lf_can_signal {Bld Com} _ _.

(** [driver.preflight(plan, cache_manager, build_switch)] *)
Class Preflights (B Bld Com : Type) : Type :=
  drv_preflight : Hypervisor Bld Com → option Switch → op B PreflightReport.
#[export] Hint Mode Preflights ! - - : typeclass_instances.

(** [compatibility_findings] *)
Definition compatibility_findings {P D : Type} (plan : P) (driver : D) : list PreflightFinding := [].

(** ** Construction *)
Section Construct.
Context {B Bld Com D : Type}.
Variable uri_attr : D → option string.
Variable driver_name_of : D → string.

Record Options : Type := MkOptions {
  op_run_id : option string;
  op_require_cache : bool;
  op_resume : bool;
  op_sidecar_polls : nat;
  op_agent_polls : nat;
  op_lease_polls : nat;
  op_poweroff_polls : nat;
}.

(** [{n.name: from_switch(s) for s in declared_switches for n in s.networks}] *)
Definition addressing_of (h : Hypervisor Bld Com) : res (gmap string NetworkAddressing) :=
  foldM (λ acc sw, foldM (λ acc n, a ← from_switch sw; mret (<[net_name n := a]> acc)) acc (networks sw))
    ∅ (declared_switches h).

Definition empty_ctx (w : World B) (dash : list dash_call) : Ctx B Bld Com :=
  MkCtx w ∅ ∅ ∅ ∅ ∅ ∅ ∅ ∅ ∅ None dash.

(** [Orchestrator.__init__], in a process with the given world, signal table and
    signal support; [fresh] is what [new_run_id] and the store's own lock handle are. *)
Definition new_orchestrator (g : Registry D) (cls : string) (plan : Plan Bld Com)
    (profile : option (BackendProfile D)) (o : Options) (fresh : string * nat) (win32 : bool) (can_signal : string → bool)
    (w : World B) (sigs : gmap string sig_handler) : res (Life Bld Com * Orch B Bld Com) :=
  raise_when (op_resume o && bool_decide (op_run_id o = None)) ValueError ["resume"];;
  rb ← resolve_backend uri_attr g cls profile;
  let rid := match op_run_id o with
    | None => fresh.1
    | Some r => if decide (r = "") then fresh.1 else r end in
  addrs ← addressing_of (p_hypervisor plan);
  let env := MkEnv (p_hypervisor plan) (MkStore rid fresh.2) rid (p_name plan) (op_resume o) true addrs
    (rb_uplink_addrs rb) (op_sidecar_polls o) (op_agent_polls o) (op_lease_polls o) (op_poweroff_polls o) in
  mret (MkLife env (p_graph plan) (op_require_cache o) (driver_name_of (rb_driver rb)) (driver_uri rb) win32 can_signal,
    MkOrch (empty_ctx w [Seed (vm_name <$> declared_vms (p_hypervisor plan))]) None false None sigs).
End Construct.

Section Lifecycle.
Context `{Provider B, !Cache B, !Guests B Bld Com, Unicode, !Preflights B Bld Com}.
Variable life : Life Bld Com.
Variable str_lower : pystr → pystr.
Variable digest16 : string → string.
Variable repr_addr : StaticAddr → string.
Abbreviation O := (act (Orch B Bld Com)).
Abbreviation env := (lf_env life).
Implicit Types (o : Orch B Bld Com).

Definition set_ctx (c : Ctx B Bld Com) o : Orch B Bld Com := MkOrch c (o_handle o) (o_leak o) (o_prior o) (o_signals o).
Definition set_handle (h : option (OrchestratorHandle Com)) o : Orch B Bld Com :=
  MkOrch (o_ctx o) h (o_leak o) (o_prior o) (o_signals o).
Definition set_prior (p : option (pydict (option sig_handler))) o : Orch B Bld Com :=
  MkOrch (o_ctx o) (o_handle o) (o_leak o) p (o_signals o).
Definition set_signals (s : gmap string sig_handler) o : Orch B Bld Com :=
  MkOrch (o_ctx o) (o_handle o) (o_leak o) (o_prior o) s.

(** Code of the walks, run on [self.ctx]. *)
Definition inctx {A} (m : act (Ctx B Bld Com) A) : O A := λ o,
  let '(r, c) := m (o_ctx o) in (r, set_ctx c o).
Definition inworld {A} (m : act (World B) A) : O A := inctx (onw m).

(** A call on the dashboard. *)
Definition dash (c : dash_call) : O () := inctx (modify (λ x, set_dash_calls (dash_calls x ++ [c]) x)).

(** [self.leak()] *)
Definition leak : O () := modify (λ o, MkOrch (o_ctx o) (o_handle o) true (o_prior o) (o_signals o)).

(** *** Signal handlers *)

(** [signal.signal(sig, h)]: the previous handler. *)
Definition signal_signal (sig : string) (h : option sig_handler) : O (option sig_handler) :=
  throw_when (negb (lf_can_signal life sig)) ValueError [sig];;
  match h with
  | None => throw TypeError [sig]
  | Some h =>
      prior ← gets (λ o, o_signals o !! sig);
      modify (λ o, set_signals (<[sig := h]> (o_signals o)) o);;
      mret prior
  end.

Definition handled_signals : list string := "SIGTERM" :: (if lf_win32 life then [] else ["SIGHUP"]).

(** The handler that raises [KeyboardInterrupt]. *)
Definition our_handler : sig_handler := PyHandler "testrange".

Definition os_or_value (e : exn) : bool := isinstance e ValueError || isinstance e OSError.

Definition install_one (sig : string) : O () :=
  catch (p ← signal_signal sig (Some our_handler);
         modify (λ o, set_prior (Some (dict_set (default [] (o_prior o)) sig p)) o))
    os_or_value (λ _, mret ()).

Definition install_signal_handlers : O () :=
  modify (set_prior (Some []));;
  forA install_one handled_signals.

Definition restore_one (b : string * option sig_handler) : O () :=
  catch (signal_signal b.1 b.2;; mret ()) os_or_value (λ _, mret ()).

Definition restore_signal_handlers : O () :=
  priors ← gets (λ o, default [] (o_prior o));
  forA restore_one priors.

(** *** Opening *)

(** [for record in state.nodes: ...] *)
Definition seed_one (rec : NodeRecord) : act (Ctx B Bld Com) () :=
  act_when (bool_decide (is_Some (materialized_at rec)))
    (modify (λ c, set_marks ({[ nr_name rec ]} ∪ materialized_nodes c) (realized_nodes c) c));;
  act_when (bool_decide (is_Some (realized_at rec)))
    (modify (λ c, set_marks (materialized_nodes c) ({[ nr_name rec ]} ∪ realized_nodes c) c)).

Definition seed_marks (s : State) : act (Ctx B Bld Com) () := forA seed_one (Ledger.nodes s).

Definition preflight_and_initialize : O () :=
  build_switch ← lift (if lf_require_cache life then Ok None
    else sw ← resolve_build_switch (Hypervisor.build_switch (e_hyp env)); Ok (Some sw));
  report ← inctx (use "preflight" "" (drv_preflight (e_hyp env) build_switch));
  let report := merged report (MkReport (compatibility_findings (e_hyp env) ()) []) in
  throw_when (negb (clean report)) PreflightError (f_code <$> findings report);;
  if e_resume env then
    state ← inworld (reopen (e_store env));
    throw_when (negb (bool_decide (plan_name state = e_plan_name env))) StateError
      [e_run_id env; plan_name state; e_plan_name env];;
    inctx (seed_marks state)
  else
    inworld (initialize (e_store env) (e_run_id env) (e_plan_name env) (lf_driver_name life) (lf_driver_uri life));;
    mret ().

Definition run_materialize : O () := inctx (materialize_graph env str_lower digest16 repr_addr (lf_graph life)).
Definition run_realize : O () := inctx (realize_graph env str_lower (lf_graph life)).
Definition run_teardown : O () := inworld (teardown (e_store env)).

(** [self._restore_signal_handlers(); self.ctx.driver.disconnect()] *)
Definition close : O () := restore_signal_handlers;; inworld disconnect.

(** [try: m / except p: h; raise] *)
Definition on_error {A} (m : O A) (p : exn → bool) (h : O ()) : O A := catch m p (λ e, h;; lift (Raise e)).
Definition any_exn (e : exn) : bool := true.

(** *** [build] *)
Definition build : O () :=
  install_signal_handlers;;
  inworld connect;;
  finally
    (preflight_and_initialize;;
     on_error run_materialize is_exception run_teardown;;
     run_teardown)
    close.

(** *** [__enter__] *)

Definition build_handle : O (OrchestratorHandle Com) :=
  mret (MkHandle (e_run_id env) (list_to_map ((λ vm,
    (vm_name vm, MkRunningVM (vm_name vm) (compose_resource_name (B:=B) (e_run_id env) "vm" (vm_name vm))
      (communicator vm))) <$> reverse (declared_vms (e_hyp env))))).

(** The walks, then the handle. *)
Definition bring_up : O () :=
  (if lf_require_cache life then
     misses ← inctx (probe_misses env digest16 repr_addr (lf_graph life));
     throw_when (bool_decide (misses ≠ [])) BuildRequiredError (pretty (length misses) :: misses);;
     run_materialize
   else run_materialize);;
  run_realize;;
  h ← build_handle;
  modify (set_handle (Some h)).

Definition ABORTED : string := "aborted (run interrupted)".

Definition enter : O (option (OrchestratorHandle Com)) :=
  install_signal_handlers;;
  inworld connect;;
  on_error
    (preflight_and_initialize;;
     on_error bring_up any_exn (dash (Abort ABORTED);; run_teardown);;
     gets o_handle)
    any_exn close.

(** *** [__exit__] *)
Definition exit : O () :=
  finally
    (l ← gets o_leak;
     if l : bool then inworld (set_phase (e_store env) PHASE_LEAKED);; inworld (release (e_store env))
     else run_teardown)
    close.

(** [with self as orch: body]: the exit runs on every way out of the body, and its own
    exception replaces the body's. *)
Definition with_range {A} (body : option (OrchestratorHandle Com) → O A) : O A :=
  h ← enter;
  finally (body h) exit.

(** ** The runner *)

(** A test function: it acts on the backend through the handle, may call [leak()], and
    returns or raises; the last two fields are what the runner measures around it. *)
Record TestRun : Type := MkTestRun {
  t_outcome : res ();
  t_leaks : bool;
  t_elapsed : Z;
  t_error : string;
}.
Record Test : Type := MkTest {
  t_name : string;
  t_body : option (OrchestratorHandle Com) → B → TestRun * B;
}.

Record TestResult : Type := MkTestResult {
  res_name : string;
  res_passed : bool;
  res_error : option string;
  res_duration : Z;
}.

(** [t(orch)] *)
Definition call_test (h : option (OrchestratorHandle Com)) (t : Test) : O TestRun :=
  r ← inctx (use "test" (t_name t) (λ b, let '(x, b') := t_body t h b in (Ok x, b')));
  act_when (t_leaks r) leak;;
  mret r.

(** One turn of the loop: the result, and whether to stop. *)
Definition execute_one (fail_fast : bool) (h : option (OrchestratorHandle Com)) (t : Test) : O (TestResult * bool) :=
  dash (StartTest (t_name t));;
  r ← call_test h t;
  match t_outcome r with
  | Ok _ =>
      dash (FinishTest (t_name t) true (t_elapsed r) None);;
      mret (MkTestResult (t_name t) true None (t_elapsed r), false)
  | Raise e =>
      if is_exception e then
        dash (FinishTest (t_name t) false (t_elapsed r) (Some (t_error r)));;
        mret (MkTestResult (t_name t) false (Some (t_error r)) (t_elapsed r), fail_fast)
      else lift (Raise e)
  end.

Fixpoint execute_tests (fail_fast : bool) (h : option (OrchestratorHandle Com)) (tests : list Test)
    (results : list TestResult) : O (list TestResult) :=
  match tests with
  | [] => mret results
  | t :: tests =>
      '(r, stop) ← execute_one fail_fast h t;
      if stop : bool then mret (results ++ [r]) else execute_tests fail_fast h tests (results ++ [r])
  end.

Definition run_tests (tests : list Test) (fail_fast leak_on_failure : bool) : O (list TestResult) :=
  with_range (λ h,
    results ← execute_tests fail_fast h tests [];
    act_when (leak_on_failure && existsb (negb ∘ res_passed) results) leak;;
    mret results).
End Lifecycle.
