(* ===== verification/RecordSpec.v ===== *)
(** * Record before create

    Every driver call that creates something is preceded by a write of the state
    document that lists a resource whose [destroy] reclaims exactly that thing.
    The proof is compositional: [safe] is closed under the combinators the code
    uses, and the only step that needs an argument is [record_intent] followed by
    its create. *)

From S2P Require Import Prelude Exceptions Eff PyBytes BuildGraph Kahn Devices Hypervisor.
From S2P Require Import Hypervisor Ledger Store StoreSpec Cleanup BuildResult Sidecar Context Provision.
From S2P Require Import VmBuild NodeHooks.
From stdpp Require Import options.

(** ** What the ledger can reclaim *)
Section Targets.
Context `{Driver B}.

(** The thing [destroy] of a resource acts on. *)
Definition target_of (r : Resource) : option (string * string) :=
  let name := backend_name r in
  if decide (metadata r !! "kind" = None ∧ metadata r !! "backend_name" = None ∧ metadata r !! "self" = None) then
    if decide (r_kind r ∈ network_kinds) then Some ("network", name)
    else if decide (r_kind r ∈ pool_kinds) then Some ("pool", name)
    else if decide (r_kind r ∈ vm_kinds) then Some ("vm", name)
    else if decide (r_kind r ∈ volume_kinds) then
      match pool_backend_of (r_kind r) (metadata r) with
      | Ok p => Some ("volume", compose_volume_ref (B:=B) p name)
      | Raise _ => None
      end
    else if decide (r_kind r ∈ switch_kinds) then Some ("switch", name)
    else None
  else None.

(** The driver method that reclaims a thing. *)
Definition reclaim_op (target : string * string) : op B () :=
  match target with
  | ("network", x) => destroy_network x
  | ("pool", x) => destroy_pool x
  | ("vm", x) => destroy_vm x
  | ("volume", x) => delete_volume x
  | ("switch", x) => destroy_switch x
  | (k, _) => fails (Exn NotImplementedError [k])
  end.

Lemma destroy_reaches r tgt : target_of r = Some tgt → destroy_resource r = reclaim_op tgt.
Proof.
  unfold target_of, destroy_resource, destroy_kind. case_decide; [|done].
  repeat (case_decide; [by intros [= <-]|]).
  case_decide; [destruct (pool_backend_of _ _); [by intros [= <-]|done]|]. case_decide; [by intros [= <-]|done].
Qed.

(** The last document written before this point lists a resource for [tgt]. *)
Definition covered (run : string) (tgt : string * string) (t : list event) : Prop :=
  ∃ t0 s r, t = t0 ++ [EvState run (state_to_json s)] ∧ r ∈ resources s ∧ target_of r = Some tgt.

(** Every creation in [t], which happened after [before], was covered when made. *)
Definition recorded (run : string) (before t : list event) : Prop :=
  ∀ t1 k x t2, t = t1 ++ EvCall (CCreate k x) :: t2 → covered run (k, x) (before ++ t1).

Definition no_create (t : list event) : Prop := ∀ k x, EvCall (CCreate k x) ∉ t.

Lemma recorded_no_create run b t : no_create t → recorded run b t.
Proof. intros Hn t1 k x t2 ->. exfalso. apply (Hn k x). apply elem_of_app. right. apply list_elem_of_here. Qed.

Lemma app_eq_cons {A} (a b c d : list A) x :
  a ++ b = c ++ x :: d → (∃ l, a = c ++ x :: l ∧ d = l ++ b) ∨ (∃ l, c = a ++ l ∧ b = l ++ x :: d).
Proof.
  revert c. induction a as [|y a IH]; intros c Hc; [by right; exists c|].
  destruct c as [|z c]; cbn in Hc; injection Hc as -> Hc.
  - left. by exists a.
  - destruct (IH c Hc) as [(l & -> & ->)|(l & -> & ->)]; [left|right]; by exists l.
Qed.

Lemma recorded_app run b t1 t2 : recorded run b t1 → recorded run (b ++ t1) t2 → recorded run b (t1 ++ t2).
Proof.
  intros H1 H2 u k x v [(l & -> & ->)|(l & -> & ->)]%app_eq_cons; [by eapply H1|].
  rewrite app_assoc. by eapply H2.
Qed.
End Targets.

(** ** Actions that are safe to run *)

(** A driver never composes an empty name. *)
Class ProviderNames (B : Type) `{Provider B} : Prop :=
  name_nonempty : ∀ rid kind name, compose_resource_name (B:=B) rid kind name ≠ "".

Section Safe.
Context `{Provider B} {Bld Com : Type}.
Variable run : string.
Implicit Types (pre : option (string * string)).
Abbreviation M := (act (Ctx B Bld Com)).
Abbreviation tr := (λ c : Ctx B Bld Com, trace (cx_world c)).

(** The ledgers hold no empty pool name. *)
Definition pools_named (c : Ctx B Bld Com) : Prop :=
  (∀ k v, pool_backends c !! k = Some v → v ≠ "") ∧ (∀ i, build_infra c = Some i → bi_pool i ≠ "").

Definition holds pre (t : list event) : Prop :=
  match pre with None => True | Some tgt => covered (B:=B) run tgt t end.

(** From a trace where [pre] is covered, every creation is recorded; the value
    returned, if any, satisfies [Q]. *)
Definition safe pre {A} (Q : A → Prop) (m : M A) : Prop := ∀ c r c',
  pools_named c → holds pre (tr c) → m c = (r, c') →
  (∃ t, tr c' = tr c ++ t ∧ recorded (B:=B) run (tr c) t) ∧ pools_named c' ∧ (∀ a, r = Ok a → Q a).

(** Actions that leave the trace and the pool names as they are. *)
Definition quiet {A} (m : M A) : Prop := ∀ c r c', pools_named c → m c = (r, c') →
  tr c' = tr c ∧ pools_named c'.

Abbreviation any := (λ _, True).

Lemma safe_weaken pre {A} (Q : A → Prop) (m : M A) : safe None Q m → safe pre Q m.
Proof. intros Hm c r c' Hi _. by apply Hm. Qed.

Lemma safe_any pre {A} (Q : A → Prop) (m : M A) : safe pre Q m → safe pre any m.
Proof. intros Hm c r c' Hi Hp Hr. by destruct (Hm _ _ _ Hi Hp Hr) as (? & ? & _). Qed.

Lemma safe_quiet pre {A} (m : M A) : quiet m → safe pre any m.
Proof.
  intros Hm c r c' Hi _ Hr. destruct (Hm _ _ _ Hi Hr) as [Ht ?]. split; [|done].
  exists []. rewrite app_nil_r. split; [done|]. apply recorded_no_create.
  intros k x. apply not_elem_of_nil.
Qed.

Lemma safe_lift pre {A} (Q : A → Prop) (x : res A) : (∀ a, x = Ok a → Q a) → safe pre Q (lift x).
Proof.
  intros HQ c r c' Hi _ [= <- <-]. split; [|done].
  exists []. rewrite app_nil_r. split; [done|]. apply recorded_no_create. intros k y. apply not_elem_of_nil.
Qed.

Lemma safe_ret pre {A} (Q : A → Prop) (a : A) : Q a → safe pre Q (mret a).
Proof. intros HQ. apply (safe_lift _ _ (Ok a)). by intros ? [= <-]. Qed.

(** Joining the traces of two consecutive parts. *)
Lemma trace_join (c c1 c2 : Ctx B Bld Com) :
  (∃ t, tr c1 = tr c ++ t ∧ recorded (B:=B) run (tr c) t) →
  (∃ t, tr c2 = tr c1 ++ t ∧ recorded (B:=B) run (tr c1) t) →
  ∃ t, tr c2 = tr c ++ t ∧ recorded (B:=B) run (tr c) t.
Proof.
  intros (t1 & Ht1 & Hr1) (t2 & Ht2 & Hr2). exists (t1 ++ t2). rewrite Ht2, Ht1, app_assoc.
  split; [done|]. apply recorded_app; [done|by rewrite <-Ht1].
Qed.

Lemma safe_bind pre {A C} (Q : A → Prop) (R : C → Prop) (m : M A) (k : A → M C) :
  safe pre Q m → (∀ a, Q a → safe None R (k a)) → safe pre R (m ≫= k).
Proof.
  intros Hm Hk c r c' Hi Hc [(a & c1 & H1 & H2)|(e & H1 & ->)]%act_bind_inv.
  - destruct (Hm _ _ _ Hi Hc H1) as (Ht1 & Hi1 & HQ). destruct (Hk a (HQ a eq_refl) _ _ _ Hi1 I H2) as (Ht2 & Hi2 & HR).
    split; [by eapply trace_join|done].
  - destruct (Hm _ _ _ Hi Hc H1) as (? & ? & _). done.
Qed.

Lemma safe_quiet_bind pre {A C} (R : C → Prop) (m : M A) (k : A → M C) :
  quiet m → (∀ a, safe pre R (k a)) → safe pre R (m ≫= k).
Proof.
  intros Hm Hk c r c' Hi Hc [(a & c1 & H1 & H2)|(e & H1 & ->)]%act_bind_inv.
  - destruct (Hm _ _ _ Hi H1) as [Ht Hi1]. rewrite <-Ht in *. by eapply Hk.
  - by destruct (safe_quiet None m Hm _ _ _ Hi I H1) as (? & ? & _).
Qed.

Lemma safe_lookup_pool pre {C} (R : C → Prop) n (k : string → M C) :
  (∀ b, b ≠ "" → safe pre R (k b)) → safe pre R (lookup_in pool_backends n ≫= k).
Proof.
  intros Hk c r c' Hi Hc. unfold lookup_in, gets, lift, mbind, act_bind, getitem.
  destruct (pool_backends c !! n) as [b|] eqn:E; [apply Hk; [by eapply Hi|done|done]|]. intros [= <- <-].
  split; [|done]. exists []. rewrite app_nil_r. split; [done|]. apply recorded_no_create.
  intros ??. apply not_elem_of_nil.
Qed.

Lemma safe_get_infra pre {C} (R : C → Prop) (k : option BuildInfra → M C) :
  (∀ o, (∀ i, o = Some i → bi_pool i ≠ "") → safe pre R (k o)) → safe pre R (gets build_infra ≫= k).
Proof. intros Hk c r c' Hi Hc Hr. eapply (Hk (build_infra c)); [apply Hi|done..]. Qed.

Lemma safe_catch {A} (Q : A → Prop) (m : M A) p h :
  safe None Q m → (∀ e, safe None Q (h e)) → safe None Q (catch m p h).
Proof.
  intros Hm Hh c r c' Hi _. unfold catch. destruct (m c) as [[a|e] c1] eqn:E.
  - intros [= <- <-]. by eapply Hm.
  - destruct (p e); [|intros [= <- <-]; by eapply Hm]. intros Hr.
    destruct (Hm _ _ _ Hi I E) as (Ht1 & Hi1 & _). destruct (Hh _ _ _ _ Hi1 I Hr) as (Ht2 & Hi2 & ?).
    split; [by eapply trace_join|done].
Qed.

Lemma safe_finally {A} (Q : A → Prop) (m : M A) f : safe None Q m → safe None any f → safe None Q (finally m f).
Proof.
  intros Hm Hf c r c' Hi _. unfold finally. destruct (m c) as [r1 c1] eqn:E. destruct (f c1) as [r2 c2] eqn:E2.
  destruct (Hm _ _ _ Hi I E) as (Ht1 & Hi1 & HQ). destruct (Hf _ _ _ Hi1 I E2) as (Ht2 & Hi2 & _).
  destruct r2; intros [= <- <-]; (split; [by eapply trace_join|done]).
Qed.

Lemma safe_foldA {S A} (I : S → Prop) (f : S → A → M S) l s :
  I s → (∀ s x, I s → safe None I (f s x)) → safe None I (foldA f s l).
Proof.
  intros Hs Hf. revert s Hs. induction l as [|x l IH]; intros s Hs; cbn; [by apply safe_ret|].
  eapply safe_bind; [by apply Hf|]. intros s' Hs'. by apply IH.
Qed.

Lemma safe_fold_any {S A} (f : S → A → M S) l s : (∀ s x, safe None any (f s x)) → safe None any (foldA f s l).
Proof. intros Hf. by apply safe_foldA. Qed.

Lemma safe_forA {A} (f : A → M ()) l : (∀ x, safe None any (f x)) → safe None any (forA f l).
Proof. intros Hf. by apply safe_foldA. Qed.

Lemma safe_act_when (b : bool) (m : M ()) : safe None any m → safe None any (act_when b m).
Proof. destruct b; [done|]. intros _. by apply safe_ret. Qed.

(** *** Leaves *)

Lemma quiet_ret {A} (a : A) : quiet (mret a).
Proof. by intros c r c' Hi [= <- <-]. Qed.
Lemma quiet_lift {A} (x : res A) : quiet (lift x).
Proof. by intros c r c' Hi [= <- <-]. Qed.
Lemma quiet_gets {A} (f : Ctx B Bld Com → A) : quiet (gets f).
Proof. by intros c r c' Hi [= <- <-]. Qed.
Lemma quiet_lookup_in f k : quiet (lookup_in f k).
Proof. by intros c r c' Hi [= <- <-]. Qed.

(** An update of the in-memory ledgers; only those of pools need care. *)
Lemma quiet_modify (f : Ctx B Bld Com → Ctx B Bld Com) :
  (∀ c, cx_world (f c) = cx_world c) → (∀ c, pools_named c → pools_named (f c)) → quiet (modify f).
Proof. intros Hw Hf c r c' Hi [= <- <-]. split; [by rewrite Hw|by apply Hf]. Qed.

Lemma quiet_set_pools n b : b ≠ "" → quiet (modify (λ c, set_pools (<[n := b]> (pool_backends c)) c)).
Proof.
  intros Hb. apply quiet_modify; [done|]. intros c [Hp Hi]. split; [|done]. intros k v. cbn.
  rewrite lookup_insert. case_decide; [by intros [= <-]|apply Hp].
Qed.

Lemma quiet_set_infra o : (∀ i, o = Some i → bi_pool i ≠ "") → quiet (modify (set_infra o)).
Proof. intros Ho. apply quiet_modify; [done|]. intros c [Hp _]. by split. Qed.

Lemma safe_perform {A} (o : op B A) (call : res A → call) :
  (∀ r k x, call r ≠ CCreate k x) → safe None any (onw (perform o call)).
Proof.
  intros Hc c r c' Hi _. unfold onw, perform. destruct (o _) as [r1 b] eqn:E. intros [= <- <-]. cbn.
  split; [|done]. exists [EvCall (call r1)]. split; [done|]. apply recorded_no_create. intros k x Hin.
  apply list_elem_of_singleton in Hin. injection Hin as Hin. by eapply Hc.
Qed.
Lemma safe_use {A} what name (o : op B A) : safe None any (use what name o).
Proof. by apply safe_perform. Qed.
Lemma safe_destroys kind name (o : op B ()) : safe None any (destroys kind name o).
Proof. by apply safe_perform. Qed.

(** A covered create. *)
Lemma safe_creates {A} k x (o : op B A) : safe (Some (k, x)) any (creates k x o).
Proof.
  intros c r c' Hi Hc. unfold creates, onw, perform. destruct (o _) as [r1 b] eqn:E. intros [= <- <-]. cbn.
  split; [|done]. eexists. split; [done|]. intros t1 k' x' t2 Ht. destruct t1 as [|? [|??]]; [|done..].
  rewrite app_nil_r. by injection Ht as <- <-.
Qed.

(** Ledger operations write documents only. *)
Definition call_free {A} (m : act (World B) A) : Prop := ∀ w r w', m w = (r, w') →
  ∃ t, trace w' = trace w ++ t ∧ no_calls t.

Lemma call_free_fs {A} (m : act (World B) A) : fs_act m → call_free m.
Proof. intros Hm w r w' (Ht & _)%Hm. done. Qed.

Lemma call_free_bind {A C} (m : act (World B) A) (k : A → act (World B) C) :
  call_free m → (∀ a, call_free (k a)) → call_free (m ≫= k).
Proof.
  intros Hm Hk w r w' [(a & w1 & H1 & H2)|(e & H1 & ->)]%act_bind_inv; [|by eapply Hm].
  apply Hm in H1 as (t1 & Ht1 & Hq1). apply Hk in H2 as (t2 & Ht2 & Hq2).
  exists (t1 ++ t2). rewrite Ht2, Ht1, app_assoc. split; [done|by apply no_calls_app].
Qed.

Lemma call_free_lift {A} (x : res A) : call_free (lift x).
Proof. intros w r w' [= <- <-]. exists []. rewrite app_nil_r. split; [done|]. intros c. apply not_elem_of_nil. Qed.

Lemma call_free_set_file d n x : call_free (set_file d n x).
Proof. apply call_free_bind; [apply call_free_fs, fs_act_run_dir|intros rd]. apply call_free_fs, fs_act_put_dir. Qed.

Lemma call_free_write_file d n x : call_free (write_file d n x).
Proof.
  apply call_free_bind; [apply call_free_fs, fs_act_run_dir|intros _].
  apply call_free_bind; [|intros _; apply call_free_set_file]. intros w r w'. unfold catch.
  destruct (syscall w) as [[a|e] w1] eqn:E; [intros [= <- <-]; by eapply call_free_fs, E; apply fs_act_syscall|].
  intros Hr. apply fs_act_syscall in E as ((t & Ht & Hq) & _).
  eapply call_free_bind in Hr as (t2 & Ht2 & Hq2); [|apply call_free_set_file|intros _; apply call_free_lift].
  exists (t ++ t2). rewrite Ht2, Ht, app_assoc. split; [done|by apply no_calls_app].
Qed.

Lemma call_free_replace_file d a b : call_free (replace_file d a b).
Proof.
  apply call_free_bind; [apply call_free_fs, fs_act_syscall|intros _].
  apply call_free_bind; [apply call_free_fs, fs_act_run_dir|intros rd].
  destruct (files rd !! a) as [x|]; [|apply call_free_lift].
  apply call_free_bind; [apply call_free_fs, fs_act_put_dir|intros _].
  destruct x; try (apply call_free_lift). destruct (decide _); [|apply call_free_lift].
  intros w r w' [= <- <-]. eexists. split; [done|]. intros c Hc. by apply list_elem_of_singleton in Hc.
Qed.

Lemma call_free_store_read self : call_free (store_read (B:=B) self).
Proof.
  apply call_free_bind; [apply call_free_fs, fs_act_gets|intros ex].
  apply call_free_bind; [apply call_free_lift|intros _]. apply call_free_bind; [|intros []; apply call_free_lift].
  apply call_free_bind; [apply call_free_fs, fs_act_syscall|intros _].
  apply call_free_bind; [apply call_free_fs, fs_act_run_dir|intros rd].
  destruct (files rd !! _); apply call_free_lift.
Qed.

Lemma call_free_rmw self f : call_free (rmw (B:=B) self f).
Proof.
  apply call_free_bind; [apply call_free_store_read|intros s]. apply call_free_bind; [apply call_free_lift|intros s'].
  apply call_free_bind; [apply call_free_write_file|intros _].
  apply call_free_bind; [apply call_free_fs, fs_act_syscall|intros _].
  apply call_free_bind; [apply call_free_replace_file|intros _]. apply call_free_fs, fs_act_syscall.
Qed.

Lemma safe_onw {A} (m : act (World B) A) : call_free m → safe None any (onw m).
Proof.
  intros Hm c r c' Hi _. unfold onw. destruct (m (cx_world c)) as [r1 w] eqn:E. intros [= <- <-]. cbn.
  apply Hm in E as (t & Ht & Hq). split; [|done]. exists t. split; [done|]. apply recorded_no_create. intros k x Hin. by eapply Hq.
Qed.

(** A read-modify-write that succeeds has just replaced the document. *)
Lemma store_read_Ok self w s w' : store_read (B:=B) self w = (Ok s, w') → state_at w (st_run self) = Some s.
Proof.
  unfold store_read, state_at, file_at.
  intros [(ex & w1 & H1 & H2)|(e & _ & ?)]%act_bind_inv; [|done]. injection H1 as <- <-.
  apply act_bind_inv in H2 as [([] & w2 & H2 & H3)|(e & _ & ?)]; [|done]. injection H2 as _ <-.
  apply act_bind_inv in H3 as [(x & w3 & H3 & H4)|(e & _ & ?)]; [|done]. unfold read_file in H3.
  apply act_bind_inv in H3 as [([] & w4 & H5 & H6)|(e & _ & ?)]; [|done].
  apply syscall_inv in H5 as (Hd & _). unfold run_dir, mbind, act_bind in H6. rewrite Hd in H6.
  destruct (run_dirs w !! st_run self) as [rd|]; cbn in *; [|done].
  change state_json with "state.json" in *. destruct (files rd !! "state.json") as [y|]; cbn in *; [|done].
  injection H6 as -> ->. destruct x as [j|?|]; cbn in H4; [|done..]. by injection H4 as ->.
Qed.

Lemma rmw_Ok self f w w' :
  (∀ s s', f s = Ok s' → schema_version s = SCHEMA_VERSION → schema_version s' = SCHEMA_VERSION) →
  rmw (B:=B) self f w = (Ok (), w') →
  ∃ s s', f s = Ok s' ∧ trace w' = trace w ++ [EvState (st_run self) (state_to_json s')].
Proof.
  intros Hv Hr. pose proof Hr as Hr'. unfold rmw in Hr'.
  apply act_bind_inv in Hr' as [(s & w1 & H1%store_read_Ok & _)|(e & _ & ?)]; [|done].
  eapply rmw_inv in Hr as (_ & _ & [(s' & Hs' & _ & _ & Ht)|(e & ? & _)]); [|done|exact H1|].
  - by exists s, s'.
  - intros s' Hs. eapply Hv; [done|]. by eapply state_at_version.
Qed.
End Safe.
Abbreviation any := (λ _, True).

(** ** The code *)
Section Code.
Set Default Proof Using "All".
Context `{Provider B, !ProviderNames B, !Cache B, !Guests B Bld Com, Unicode}.
Variable env : Env Bld Com.
Variable str_lower : pystr → pystr.
Variable digest16 : string → string.
Variable repr_addr : StaticAddr → string.
Abbreviation M := (act (Ctx B Bld Com)).
Abbreviation safely := (safe (B:=B) (Bld:=Bld) (Com:=Com) (st_run (e_store env))).

(** [record_intent], then the rest, which may create what was recorded. *)
Lemma safe_intend_bind {C} (R : C → Prop) kind name plan md tgt (k : () → M C) :
  (∀ t, target_of (B:=B) (MkResource kind name plan t None md) = Some tgt) →
  (∀ u, safely (Some tgt) R (k u)) → safely None R (intend env kind name plan md ≫= k).
Proof.
  intros Htgt Hk c r c' Hi _.
  assert (safely None any (intend env kind name plan md)) as Hint.
  { eapply safe_bind; [apply safe_onw|intros; by apply safe_ret].
    apply call_free_bind; [apply call_free_fs, fs_act_gets|intros t].
    apply call_free_bind; [apply call_free_rmw|intros _; apply call_free_lift]. }
  intros [([] & c1 & H1 & H2)|(e & H1 & ->)]%act_bind_inv;
    destruct (Hint _ _ _ Hi I H1) as (Ht1 & Hi1 & _); [|done].
  assert (holds (B:=B) (st_run (e_store env)) (Some tgt) (trace (cx_world c1))) as Hcov.
  { unfold intend, onw, record_intent, gets, mbind, act_bind in H1.
    destruct (rmw _ _ _) as [[[]|e] w] eqn:E; [|done]. injection H1 as <-. cbn.
    apply rmw_Ok in E as (s & s' & [= <-] & Ht); [|by intros ? ? [= <-]].
    eexists _, _, _. split; [exact Ht|]. split; [|apply Htgt]. cbn. apply elem_of_app. right. apply list_elem_of_here. }
  destruct (Hk tt _ _ _ Hi1 Hcov H2) as (Ht2 & Hi2 & ?). split; [by eapply trace_join|done].
Qed.

Lemma safe_confirmed name md : safely None any (confirmed env name md).
Proof. apply safe_onw. apply call_free_bind; [apply call_free_fs, fs_act_gets|intros t]. apply call_free_rmw. Qed.
Lemma safe_forgets name : safely None any (forgets env name).
Proof. apply safe_onw, call_free_rmw. Qed.

(** The volume kinds a volume is recorded under. *)
Lemma volume_target kind name plan t p :
  kind ∈ volume_kinds → p ≠ "" →
  target_of (B:=B) (MkResource kind name plan t None (in_pool p)) = Some ("volume", compose_volume_ref (B:=B) p name).
Proof.
  intros Hk Hp. unfold volume_kinds in Hk. repeat (apply elem_of_cons in Hk as [->|Hk]); [..|by apply not_elem_of_nil in Hk];
    unfold target_of; cbn; by destruct p.
Qed.

(** The kinds reclaimed by name alone. *)
Definition plain_kind (kind : string) : option string :=
  if decide (kind ∈ network_kinds) then Some "network"
  else if decide (kind ∈ pool_kinds) then Some "pool"
  else if decide (kind ∈ vm_kinds) then Some "vm"
  else if decide (kind ∈ volume_kinds) then None
  else if decide (kind ∈ switch_kinds) then Some "switch" else None.

Lemma plain_target kind name plan t k :
  plain_kind kind = Some k → target_of (B:=B) (MkResource kind name plan t None ∅) = Some (k, name).
Proof.
  unfold plain_kind, target_of. cbn [r_kind metadata backend_name]. rewrite (decide_True (P:=_ ∧ _)) by done.
  repeat case_decide; intros [= <-]; done.
Qed.

(** Nothing that only talks to the world or the in-memory ledgers needs a record. *)
Ltac quiet_tac :=
  first [ apply quiet_ret | apply quiet_lift | apply quiet_gets | apply quiet_lookup_in
        | apply quiet_set_pools; apply name_nonempty
        | apply quiet_modify; [done|by intros ? ?] ].
Ltac volume_tac := apply volume_target; [by apply (bool_decide_unpack _)|done].
Ltac safe_step :=
  match goal with
  | |- safe _ _ _ (let _ := _ in _) => cbv zeta
  | |- safe _ None _ (intend _ _ _ _ _ ≫= _) =>
      eapply safe_intend_bind; [intros ?; first [apply plain_target; vm_compute; reflexivity|volume_tac]|intros _]
  | |- safe _ _ _ (lookup_in pool_backends _ ≫= _) => apply safe_lookup_pool; intros ? ?
  | |- safe _ (Some _) _ (creates _ _ _) => apply safe_creates
  | |- safe _ (Some _) _ (creates _ _ _ ≫= _) => eapply safe_bind; [apply safe_creates|intros ? _]
  | |- safe _ _ _ (mret _) => by apply safe_ret
  | |- safe _ _ _ (_ ≫= _) => apply safe_quiet_bind; [quiet_tac|intros ?]
  | |- safe _ None _ (_ ≫= _) => eapply safe_bind; [by eauto with safe|intros ? ?]
  | |- safe _ _ _ (match ?x with _ => _ end) => destruct x
  | |- safe _ _ _ _ => by eauto with safe
  | |- safe _ _ _ _ => apply safe_quiet; quiet_tac
  end.
Ltac safe_tac := repeat safe_step.

Create HintDb safe.
Hint Resolve safe_use safe_destroys safe_confirmed safe_forgets safe_creates : safe.

Lemma safe_set_vm_stage vm st d : safely None any (set_vm_stage vm st d).
Proof. apply safe_quiet. quiet_tac. Qed.
Hint Resolve safe_set_vm_stage : safe.

(** *** [provision.py], [vm_run.py] *)

Lemma safe_provision_network p sw sb net : p = "" ∨ p = "build_" → safely None any (provision_network env p sw sb net).
Proof. intros Hp. unfold provision_network. destruct Hp as [->| ->]; safe_tac. Qed.
Hint Resolve safe_provision_network : safe.
Hint Extern 1 (_ ∈ volume_kinds) => by apply (bool_decide_unpack _) : safe.
Hint Extern 1 (safe _ None _ (foldA _ _ _)) => apply safe_fold_any; intros; progress safe_tac : safe.
Hint Extern 1 (safe _ None _ (forA _ _)) => apply safe_forA; intros; progress safe_tac : safe.

Lemma safe_local_path pre info : safely pre any (local_path info).
Proof. unfold local_path. destruct (info.1); [by apply safe_ret|by apply safe_lift]. Qed.
Hint Resolve safe_local_path : safe.

Lemma safe_provision_switch sw p : p = "" ∨ p = "build_" → safely None any (provision_switch env sw p).
Proof.
  intros Hp. unfold provision_switch.
  assert (∀ sb, safely None any (forA (provision_network env p sw sb) (networks sw))) as Hn
    by (intros sb; apply safe_forA; eauto with safe).
  destruct Hp as [->| ->]; safe_tac.
Qed.
Hint Resolve safe_provision_switch : safe.

Lemma safe_new_volume kind name plan pool push :
  kind ∈ volume_kinds → pool ≠ "" → safely None any (new_volume env kind name plan pool push).
Proof.
  intros Hk Hp. unfold new_volume. cbv zeta. eapply safe_intend_bind; [intros t; by apply volume_target|intros _]. safe_tac.
Qed.

Hint Resolve safe_new_volume : safe.

Lemma safe_sidecar_home sw home :
  (∀ h, home = Some h → h.1 ≠ "") → safely None (λ h, h.1 ≠ "") (sidecar_home env sw home).
Proof.
  intros Hh. unfold sidecar_home. destruct home as [h|]; [apply safe_ret; by apply Hh|].
  destruct (declared_pools (e_hyp env)); [by apply safe_lift|safe_tac].
Qed.

Lemma safe_materialize_sidecar_for sw p home :
  p = "" ∨ p = "build_" → (∀ h, home = Some h → h.1 ≠ "") → safely None any (materialize_sidecar_for env sw p home).
Proof.
  intros Hp Hh. unfold materialize_sidecar_for. destruct (needs_sidecar sw); [|by apply safe_ret].
  apply safe_quiet_bind; [quiet_tac|intros sw']. eapply safe_bind; [by apply safe_sidecar_home|].
  intros [pool pname] Hpool. cbn in Hpool. safe_tac.
Qed.
Hint Resolve safe_materialize_sidecar_for : safe.

Lemma safe_create_pool_backend pool : safely None any (create_pool_backend env pool).
Proof. unfold create_pool_backend. safe_tac. Qed.

Lemma safe_upload_data_disk vm vb built refs ihd : safely None any (upload_data_disk env vm vb built refs ihd).
Proof. unfold upload_data_disk, built_path. safe_tac. Qed.

Lemma safe_bring_up_vm vm : safely None any (bring_up_vm env vm).
Proof.
  pose proof safe_upload_data_disk. unfold bring_up_vm, built_path. safe_tac.
Qed.

(** *** Readiness gates: no creation at all *)

Lemma safe_poll {A} n (body : M (option A)) : safely None any body → safely None any (poll n body).
Proof. intros Hb. induction n as [|n IH]; cbn [poll]; safe_tac. Qed.
Hint Extern 1 (safe _ None _ (poll _ _)) => apply safe_poll; progress safe_tac : safe.
Hint Extern 1 (safe _ None _ (catch _ _ _)) => apply safe_catch; [|intros ?]; progress safe_tac : safe.
Hint Extern 1 (safe _ None _ (throw _ _)) => by apply safe_lift : safe.

Lemma safe_wait_sidecar_ready sw : safely None any (wait_sidecar_ready env sw).
Proof. unfold wait_sidecar_ready. safe_tac. Qed.

Lemma safe_wait_communicator_ready vm : safely None any (wait_communicator_ready env vm).
Proof. unfold wait_communicator_ready. safe_tac. Qed.

Lemma safe_await_guest_ready vm : safely None any (await_guest_ready vm).
Proof. unfold await_guest_ready. safe_tac. Qed.

Lemma safe_wait_for_dhcp_lease vm net i : safely None any (wait_for_dhcp_lease env str_lower vm net i).
Proof.
  unfold wait_for_dhcp_lease. eapply safe_bind; [|intros sw _; safe_tac].
  unfold switch_for_network. destruct (list_find _ _) as [[? ?]|]; safe_tac.
Qed.
Hint Resolve safe_wait_for_dhcp_lease : safe.

Lemma safe_wait_vm_dhcp_leases vm : safely None any (wait_vm_dhcp_leases env str_lower vm).
Proof. unfold wait_vm_dhcp_leases. apply safe_forA. intros [i nic]. safe_tac. Qed.

Lemma safe_discover_ip vm i : safely None any (discover_ip env str_lower vm i).
Proof. unfold discover_ip. safe_tac. Qed.
Hint Resolve safe_discover_ip : safe.

Lemma safe_bind_communicator_for vm : safely None any (bind_communicator_for env str_lower vm).
Proof. unfold bind_communicator_for. safe_tac. Qed.
Hint Resolve safe_create_pool_backend safe_bring_up_vm safe_wait_sidecar_ready safe_wait_communicator_ready
  safe_await_guest_ready safe_wait_vm_dhcp_leases safe_bind_communicator_for : safe.

(** *** [vm_build.py] *)

Lemma safe_fetched_path fetch info : safely None any (fetched_path fetch info).
Proof. unfold fetched_path. safe_tac. Qed.
Hint Resolve safe_fetched_path : safe.

Lemma safe_resolve_roles h fetch paths roles : safely None any (resolve_roles h fetch paths roles).
Proof. revert paths. induction roles as [|role roles IH]; intros paths; cbn [resolve_roles]; safe_tac. Qed.
Hint Resolve safe_resolve_roles : safe.

Lemma safe_probe_vm vm i sha sw : safely None any (probe_vm env vm i sha sw).
Proof.
  unfold probe_vm. eapply safe_bind.
  - destruct (os_disk_base _); [safe_tac|]. destruct (boot_media _); safe_tac.
  - intros [[bp mp] osha] _. unfold resolve_full_set. safe_tac.
Qed.

Lemma safe_create_build_pool misses : safely None (λ b, b ≠ "") (create_build_pool env misses).
Proof. unfold create_build_pool. safe_tac. apply safe_ret, name_nonempty. Qed.

Lemma safe_ensure_build_infra : safely None (λ b, b.1 ≠ "") (ensure_build_infra env).
Proof.
  unfold ensure_build_infra. apply safe_get_infra. intros [i|] Hi; [apply safe_ret; by apply Hi|].
  do 2 safe_step. eapply safe_bind; [apply safe_create_build_pool|]. intros pool Hpool.
  do 4 safe_step. eapply safe_bind; [apply safe_materialize_sidecar_for; [by right|by intros ? [= <-]]|]. intros _ _.
  apply safe_quiet_bind; [apply quiet_set_infra; by intros ? [= <-]|]. intros _. by apply safe_ret.
Qed.

Lemma safe_reclaim kind get put del name :
  (∀ m c, cx_world (put m c) = cx_world c) → (∀ m c, pools_named c → pools_named (put m c)) →
  safely None any (reclaim env kind get put del name).
Proof.
  intros Hw Hp. unfold reclaim. safe_step. apply safe_quiet_bind; [apply quiet_modify; [apply Hw|apply Hp]|]. intros _. safe_tac.
Qed.

Lemma safe_teardown_build_infra : safely None any (teardown_build_infra env).
Proof.
  unfold teardown_build_infra. apply safe_get_infra. intros [i|] Hi; [|by apply safe_ret]. cbv zeta.
  eapply safe_bind; [by apply safe_reclaim|intros _ _].
  eapply safe_bind; [apply safe_forA; intros net; by apply safe_reclaim|intros _ _].
  safe_step. eapply safe_bind; [by apply safe_reclaim|intros _ _].
  do 2 safe_step. apply safe_quiet. by apply quiet_set_infra.
Qed.

Lemma safe_best_effort_delete name d : safely None any d → safely None any (best_effort_delete env name d).
Proof. intros Hd. unfold best_effort_delete. safe_step. apply safe_act_when. safe_tac. Qed.

Lemma safe_capture_disk ref h role vm : safely None any (capture_disk ref h role vm).
Proof. unfold capture_disk. safe_step. apply safe_finally; safe_tac. Qed.

Lemma safe_await_build_result b vm : safely None any (await_build_result b vm).
Proof. unfold await_build_result. safe_tac. Qed.

Lemma safe_wait_for_poweroff b vm : safely None any (wait_for_poweroff env b vm).
Proof. unfold wait_for_poweroff. safe_tac. Qed.

Lemma safe_new_data_disk vm bvm pool acc ihd :
  pool ≠ "" → safely None any (new_data_disk env vm bvm pool acc ihd).
Proof. intros Hp. unfold new_data_disk. safe_tac. Qed.

Lemma safe_new_os_disk bp name pool : pool ≠ "" → safely None any (new_os_disk env bp name pool).
Proof.
  intros Hp. unfold new_os_disk. safe_step. eapply safe_bind; [|intros _ _; safe_tac].
  destruct (bp_installer_origin bp); safe_tac.
Qed.

Lemma safe_new_boot_media bp bvm pool : pool ≠ "" → safely None any (new_boot_media env bp bvm pool).
Proof. intros Hp. unfold new_boot_media. safe_tac. Qed.

Lemma safe_new_seed bp bvm pool : pool ≠ "" → safely None any (new_seed env bp bvm pool).
Proof. intros Hp. unfold new_seed. safe_tac. Qed.

Lemma safe_delete_vol nr : safely None any (delete_vol env nr).
Proof. apply safe_best_effort_delete. safe_tac. Qed.
Hint Resolve safe_probe_vm safe_best_effort_delete safe_capture_disk safe_await_build_result safe_wait_for_poweroff
  safe_new_data_disk safe_new_os_disk safe_new_boot_media safe_new_seed safe_delete_vol safe_teardown_build_infra : safe.

Lemma safe_build_one_vm bp pool net : pool ≠ "" → safely None any (build_one_vm env bp pool net).
Proof. intros Hp. unfold build_one_vm. safe_tac. Qed.

(** *** [nodes.py], [executor.py] *)

Lemma safe_node_cache_key n deps : safely None any (node_cache_key env digest16 repr_addr n deps).
Proof.
  destruct n as [p|sw|sw|vm i]; cbn [node_cache_key]; try by apply safe_ret.
  safe_step. eapply (safe_bind _ _ any); [|intros p _; safe_tac]. destruct (_ !! _); [by apply safe_ret|].
  unfold resolve_sidecar_sha. eapply (safe_bind _ _ any); [safe_tac|intros sha _]. safe_tac.
Qed.

Lemma safe_node_materialize n : safely None any (node_materialize env n).
Proof.
  destruct n as [p|sw|sw|vm i]; cbn [node_materialize]; try by apply safe_ret.
  safe_step. destruct (_ !! _) as [probe|]; [|safe_tac]. destruct (bp_cached_paths probe); [safe_tac|].
  eapply safe_bind; [apply safe_ensure_build_infra|]. intros [pool net] Hp. by apply safe_build_one_vm.
Qed.

Lemma safe_node_realize n : safely None any (node_realize env str_lower n).
Proof.
  unfold node_realize, reattaching. eapply (safe_bind _ _ any); [safe_tac|]. intros again _.
  destruct n as [p|sw|sw|vm i]; [| |eapply (safe_bind _ _ any); [|intros _ _]|eapply (safe_bind _ _ any); [|intros _ _]]; destruct again;
    safe_tac.
Qed.
Hint Resolve safe_node_cache_key safe_node_materialize safe_node_realize : safe.

Lemma safe_run_hook h n : safely None any (run_hook env str_lower h n).
Proof.
  unfold run_hook. eapply (safe_bind _ _ any).
  - apply safe_catch; [destruct h; cbn [hook_body]; safe_tac|intros e]. eapply (safe_bind _ _ any); [|intros _ _; by apply safe_lift].
    destruct n; cbn [tag_failure]; safe_tac.
  - intros _ _. destruct h; cbn [stamp]; cbv zeta; (eapply safe_bind; [apply safe_onw|intros _ _; safe_tac]);
      (apply call_free_bind; [apply call_free_fs, fs_act_gets|intros t; apply call_free_rmw]).
Qed.

Lemma safe_prepare_keys g : safely None any (prepare_keys env digest16 repr_addr g).
Proof.
  unfold prepare_keys. safe_step. destruct (decide _); [|safe_tac]. eapply (safe_bind _ _ any); [|intros ks _; safe_tac].
  apply safe_fold_any. intros ks n. unfold key_node. safe_tac.
Qed.

Lemma safe_walk h ws : safely None any (walk_serial env str_lower h ws).
Proof. apply safe_forA. intros w. apply safe_forA. intros n. apply safe_run_hook. Qed.

Lemma safe_set_phase p : safely None any (onw (set_phase (e_store env) p)).
Proof. apply safe_onw, call_free_rmw. Qed.

Lemma safe_materialize_graph g : safely None any (materialize_graph env str_lower digest16 repr_addr g).
Proof.
  unfold materialize_graph. eapply safe_bind; [apply safe_set_phase|intros _ _].
  eapply safe_bind; [apply safe_prepare_keys|intros _ _]. apply safe_finally; [apply safe_walk|safe_tac].
Qed.

Lemma safe_realize_graph g : safely None any (realize_graph env str_lower g).
Proof. unfold realize_graph. eapply safe_bind; [apply safe_set_phase|intros _ _]. apply safe_walk. Qed.
End Code.
