(* ===== verification/RunSpec.v ===== *)
(** * What a build captures

    A disk set enters the cache only behind a success verdict and a powered-off
    VM, and then completely. *)

From S2P Require Import Prelude Exceptions Eff PyBytes Devices Hypervisor Ledger Store StoreSpec Cleanup BuildResult Artifacts Context Provision VmBuild RecordSpec BuildGraph Kahn BuildResultSpec Sidecar NodeHooks.
From stdpp Require Import options.

Section Capture.
Context `{Provider B, !Cache B, !Guests B Bld Com, Unicode}.
Variable env : Env Bld Com.
Abbreviation M := (act (Ctx B Bld Com)).
Implicit Types (c : Ctx B Bld Com).

(** Nothing was added to the cache and no disk set was ledgered. *)
Definition no_capture (t : list event) : Prop := ∀ n, EvCall (CUse "cache_add" n) ∉ t.
Definition calm c c' : Prop :=
  (∃ t, trace (cx_world c') = trace (cx_world c) ++ t ∧ no_capture t) ∧ built_disk_paths c' = built_disk_paths c.
Definition idle {A} (m : M A) : Prop := ∀ c r c', m c = (r, c') → calm c c'.

Lemma calm_trans c1 c2 c3 : calm c1 c2 → calm c2 c3 → calm c1 c3.
Proof.
  intros ((t1 & Ht1 & Hn1) & Hb1) ((t2 & Ht2 & Hn2) & Hb2). split; [|congruence].
  exists (t1 ++ t2). rewrite Ht2, Ht1, app_assoc. split; [done|]. intros n [?|?]%elem_of_app; [by eapply Hn1|by eapply Hn2].
Qed.

Lemma calm_same c c' :
  trace (cx_world c') = trace (cx_world c) → built_disk_paths c' = built_disk_paths c → calm c c'.
Proof. intros Ht Hb. split; [|done]. exists []. rewrite app_nil_r. split; [done|]. intros n. apply not_elem_of_nil. Qed.

Lemma idle_bind {A C} (m : M A) (k : A → M C) : idle m → (∀ a, idle (k a)) → idle (m ≫= k).
Proof.
  intros Hm Hk c r c' [(a & c1 & H1 & H2)|(e & H1 & ->)]%act_bind_inv; [|by eapply Hm].
  eapply calm_trans; [by eapply Hm|by eapply Hk].
Qed.

(** The next part of a sequence, when nothing was captured so far nor by it. *)
Lemma idle_bind_inv {A C} c0 (m : M A) (k : A → M C) c r c' :
  calm c0 c → (m ≫= k) c = (r, c') → idle m →
  (calm c0 c' ∧ is_ok r = false) ∨ ∃ a c1, m c = (Ok a, c1) ∧ calm c0 c1 ∧ k a c1 = (r, c').
Proof.
  intros Hc [(a & c1 & H1 & H2)|(e & H1 & ->)]%act_bind_inv Hm; [right|left].
  - exists a, c1. split_and!; [done|eapply calm_trans; [done|by eapply Hm]|done].
  - split; [eapply calm_trans; [done|by eapply Hm]|done].
Qed.

Lemma idle_catch {A} (m : M A) p h : idle m → (∀ e, idle (h e)) → idle (catch m p h).
Proof.
  intros Hm Hh c r c'. unfold catch. destruct (m c) as [[a|e] c1] eqn:E; [intros [= <- <-]; by eapply Hm|].
  destruct (p e); [|intros [= <- <-]; by eapply Hm]. intros Hr. eapply calm_trans; [by eapply Hm|by eapply Hh].
Qed.

Lemma idle_foldA {S A} (f : S → A → M S) l s : (∀ s x, idle (f s x)) → idle (foldA f s l).
Proof.
  intros Hf. revert s. induction l as [|x l IH]; intros s; cbn; [|by apply idle_bind].
  intros c r c' [= <- <-]. by apply calm_same.
Qed.
Lemma idle_forA {A} (f : A → M ()) l : (∀ x, idle (f x)) → idle (forA f l).
Proof. intros Hf. by apply idle_foldA. Qed.

Lemma idle_lift {A} (x : res A) : idle (lift x).
Proof. intros c r c' [= <- <-]. by apply calm_same. Qed.
Lemma idle_ret {A} (a : A) : idle (mret a).
Proof. apply (idle_lift (Ok a)). Qed.

Lemma idle_perform {A} (o : op B A) (call : res A → call) :
  (∀ r n, call r ≠ CUse "cache_add" n) → idle (onw (perform o call)).
Proof.
  intros Hc c r c'. unfold onw, perform. destruct (o _) as [r1 b] eqn:E. intros [= <- <-]. split; [|done].
  exists [EvCall (call r1)]. split; [done|]. intros n Hin. apply list_elem_of_singleton in Hin. by eapply Hc; injection Hin.
Qed.
Lemma idle_use {A} what name (o : op B A) : what ≠ "cache_add" → idle (use what name o).
Proof. intros Hw. apply idle_perform. by intros _ n [= ?]. Qed.
Lemma idle_creates {A} k x (o : op B A) : idle (creates k x o).
Proof. by apply idle_perform. Qed.
Lemma idle_destroys k x (o : op B ()) : idle (destroys k x o).
Proof. by apply idle_perform. Qed.
Lemma idle_onw {A} (m : act (World B) A) : call_free m → idle (onw m).
Proof.
  intros Hm c r c'. unfold onw. destruct (m (cx_world c)) as [r1 w] eqn:E. intros [= <- <-]. split; [|done].
  apply Hm in E as (t & Ht & Hq). exists t. split; [done|]. intros n Hin. by eapply Hq.
Qed.
Lemma idle_stage vm st d : idle (set_vm_stage vm st d).
Proof. intros c r c' [= <- <-]. by apply calm_same. Qed.
Lemma idle_intend kind name plan md : idle (intend env kind name plan md).
Proof.
  apply idle_bind; [apply idle_onw|intros; apply idle_ret].
  apply call_free_bind; [apply call_free_fs, fs_act_gets|intros t].
  apply call_free_bind; [apply call_free_rmw|intros _; apply call_free_lift].
Qed.
Lemma idle_confirmed name md : idle (confirmed env name md).
Proof. apply idle_onw, call_free_bind; [apply call_free_fs, fs_act_gets|intros t]. apply call_free_rmw. Qed.
Lemma idle_forgets name : idle (forgets env name).
Proof. apply idle_onw, call_free_rmw. Qed.

Create HintDb idle.
Hint Resolve idle_lift idle_ret idle_creates idle_destroys idle_stage idle_intend idle_confirmed idle_forgets : idle.
Hint Extern 1 (idle (use _ _ _)) => by apply idle_use : idle.
Hint Extern 1 (idle (throw_when _ _ _)) => apply idle_lift : idle.
Hint Extern 1 (idle (throw _ _)) => apply idle_lift : idle.
Hint Extern 2 (idle (_ ≫= _)) => apply idle_bind; [|intros ?] : idle.
Hint Extern 2 (idle (catch _ _ _)) => apply idle_catch; [|intros ?] : idle.
Hint Extern 2 (idle (match ?x with _ => _ end)) => destruct x : idle.

Lemma idle_poll {A} n (body : M (option A)) : idle body → idle (poll n body).
Proof. intros Hb. induction n as [|n IH]; cbn [poll]; eauto 8 with idle. Qed.

Lemma idle_new_volume kind name plan pool push : idle (new_volume env kind name plan pool push).
Proof. unfold new_volume. cbv zeta. eauto 8 with idle. Qed.
Hint Resolve idle_new_volume : idle.

Lemma idle_new_os_disk bp name pool : idle (new_os_disk env bp name pool).
Proof. unfold new_os_disk. cbv zeta. eauto 10 with idle. Qed.
Lemma idle_new_data_disk vm bvm pool acc ihd : idle (new_data_disk env vm bvm pool acc ihd).
Proof. unfold new_data_disk. cbv zeta. eauto 8 with idle. Qed.
Lemma idle_new_boot_media bp bvm pool : idle (new_boot_media env bp bvm pool).
Proof. unfold new_boot_media. cbv zeta. eauto 8 with idle. Qed.
Lemma idle_new_seed bp bvm pool : idle (new_seed env bp bvm pool).
Proof. unfold new_seed. cbv zeta. eauto 8 with idle. Qed.
Lemma idle_best_effort name d : idle d → idle (best_effort_delete env name d).
Proof. intros Hd. unfold best_effort_delete, act_when. eauto 8 with idle. Qed.
Lemma idle_delete_vol nr : idle (delete_vol env nr).
Proof. apply idle_best_effort. eauto with idle. Qed.
Hint Resolve idle_new_os_disk idle_new_data_disk idle_new_boot_media idle_new_seed idle_best_effort idle_delete_vol
  idle_foldA idle_forA : idle.

(** ** The gates before the capture *)

Lemma await_build_result_Ok b vm c c' :
  await_build_result b vm c = (Ok (), c') →
  ∃ (bk : B) s bk', read_build_result_sink b bk = (Ok s, bk') ∧ wait_for_build_result s = Ok Returned.
Proof.
  unfold await_build_result, use, onw, perform.
  intros [(s & c1 & H1 & H2)|(e & _ & ?)]%act_bind_inv; [|done].
  destruct (read_build_result_sink b _) as [[s'|e] bk'] eqn:E; [|done]. injection H1 as -> <-.
  apply act_bind_inv in H2 as [(out & c2 & H3 & H4)|(e & _ & ?)]; [|done]. injection H3 as H3 <-.
  destruct out; [|done..]. by eexists _, _, _.
Qed.

Lemma poll_Some {A} n (body : M (option A)) c a c' :
  poll n body c = (Ok (Some a), c') → ∃ c1 c2, body c1 = (Ok (Some a), c2).
Proof.
  revert c. induction n as [|n IH]; intros c; cbn [poll]; [done|].
  intros [(late & c1 & _ & H2)|(e & _ & ?)]%act_bind_inv; [|done]. destruct late; [done|].
  apply act_bind_inv in H2 as [([x|] & c2 & H3 & H4)|(e & _ & ?)]; [| |done].
  - injection H4 as -> ->. by eexists _, _.
  - by eapply IH.
Qed.

Lemma wait_for_poweroff_Ok b vm c c' :
  wait_for_poweroff env b vm c = (Ok (), c') → ∃ (bk : B) bk', get_vm_power_state b bk = (Ok "shutoff", bk').
Proof.
  unfold wait_for_poweroff. intros [(o & c1 & H1 & H2)|(e & _ & ?)]%act_bind_inv; [|done].
  destruct o as [[]|]; [|done]. apply poll_Some in H1 as (c2 & c3 & H1).
  apply act_bind_inv in H1 as [(s & c4 & H3 & H4)|(e & _ & ?)]; [|done]. unfold use, onw, perform in H3.
  destruct (get_vm_power_state b _) as [[s'|e] bk'] eqn:E; [|done]. injection H3 as -> <-.
  case_decide; [subst|done]. by eexists _, _.
Qed.

Lemma idle_await_build_result b vm : idle (await_build_result b vm).
Proof. unfold await_build_result. eauto 8 with idle. Qed.
Lemma idle_wait_for_poweroff b vm : idle (wait_for_poweroff env b vm).
Proof. unfold wait_for_poweroff. apply idle_bind; [apply idle_poll|intros []]; eauto 8 with idle. Qed.

(** A loop that fills a dict fills exactly its keys. *)
Lemma fold_insert_dom (f : gmap string string → string → M (gmap string string)) roles m c m' c' :
  (∀ m x c m' c', f m x c = (Ok m', c') → dom m' = {[ x ]} ∪ dom m) →
  foldA f m roles c = (Ok m', c') → dom m' = list_to_set roles ∪ dom m.
Proof.
  intros Hf. revert m c. induction roles as [|role roles IH]; intros m c; cbn [foldA].
  - intros [= <- <-]. cbn. by rewrite (left_id_L ∅ (∪)).
  - intros [(m1 & c1 & H1%Hf & H2%IH)|(e & _ & ?)]%act_bind_inv; [|done].
    rewrite H2, H1. cbn. by rewrite !(assoc_L (∪)), (comm_L (∪) (list_to_set roles)).
Qed.

Lemma captured_step refs h vm (m : gmap string string) role c m' c' :
  (ref ← lift (getitem refs role); p ← capture_disk ref h role vm; mret (<[role := p]> m)) c = (Ok m', c') →
  dom m' = {[ role ]} ∪ dom m.
Proof.
  intros [(ref & c1 & _ & Hr)|(e & _ & ?)]%act_bind_inv; [|done].
  apply act_bind_inv in Hr as [(p & c2 & _ & [= <- <-])|(e & _ & ?)]; [|done]. apply dom_insert_L.
Qed.

Ltac step H Hc :=
  let Hc' := fresh in
  eapply (idle_bind_inv _ _ _ _ _ _ Hc) in H as [?|(? & ? & ? & Hc' & H)];
  [by left|clear Hc; rename Hc' into Hc|by eauto 6 with idle].

(** C7: a build never caches a disk set without proof of success.  Whenever
    [build_one_vm] adds anything to the cache or ledgers a disk set, the guest's
    console had delivered a verdict that counts as success and the VM had been
    seen powered off; and when it returns, the ledger has a path for every role of
    the VM, no more. *)
Theorem capture_only_after_ok bp pool net c r c' :
  build_one_vm env bp pool net c = (r, c') →
  let name := rname (B:=B) env "build_vm" (vm_name (bp_vm bp)) in
  (calm c c' ∧ is_ok r = false) ∨
  ((∃ (bk : B) s bk', read_build_result_sink name bk = (Ok s, bk') ∧ wait_for_build_result s = Ok Returned) ∧
   (∃ (bk : B) bk', get_vm_power_state name bk = (Ok "shutoff", bk')) ∧
   (r = Ok () → ∃ paths, built_disk_paths c' !! vm_name (bp_vm bp) = Some paths ∧
                  dom paths = list_to_set (bp_roles bp))).
Proof.
  cbv zeta. unfold build_one_vm. cbv zeta. intros Hr.
  assert (calm c c) as Hc by by apply calm_same. do 10 (step Hr Hc).
  eapply (idle_bind_inv _ _ _ _ _ _ Hc) in Hr as [?|([] & c2 & Hok%await_build_result_Ok & Hc2 & Hr)]; [by left| |apply idle_await_build_result].
  eapply (idle_bind_inv _ _ _ _ _ _ Hc2) in Hr as [?|([] & c3 & Hoff%wait_for_poweroff_Ok & _ & Hr)]; [by left| |apply idle_wait_for_poweroff].
  right. split_and!; [done..|]. intros ->.
  apply act_bind_inv in Hr as [(paths & c4 & Hdom & Hr)|(e & _ & ?)]; [|done].
  apply fold_insert_dom in Hdom; [|apply captured_step].
  apply act_bind_inv in Hr as [([] & c5 & [= <-] & Hr)|(e & _ & ?)]; [|done].
  exists paths. split; [|by rewrite Hdom, dom_empty_L, (right_id_L ∅ (∪))].
  match type of Hr with ?m _ = _ => assert (idle m) as Hi by eauto 12 with idle end.
  apply Hi in Hr as [_ ->]. cbn. by rewrite lookup_insert_eq.
Qed.
End Capture.

(** ** A whole run: building, then bringing the plan up

    The claim about the ledger over a whole run, and a small concrete plan on a
    concrete backend, on which the run is executed. *)

Section Run.
Context `{Provider B, !ProviderNames B, !Cache B, !Guests B Bld Com, Unicode}.
Variable env : Env Bld Com.
Variable str_lower : pystr → pystr.
Variable digest16 : string → string.
Variable repr_addr : StaticAddr → string.

(** [build] then [run] on the plan's graph. *)
Definition build_and_run (g : BuildGraph (PlanNode Bld Com)) : act (Ctx B Bld Com) () :=
  materialize_graph env str_lower digest16 repr_addr g;;
  realize_graph env str_lower g.

(** C1: record before create.  Whatever the driver, the cache, the builders and
    the communicators do, and wherever system calls fail: in a run over any graph
    (one worker), each driver call that creates something is made when the
    document last written to [state.json] lists a resource whose [destroy] is
    exactly the reclamation of that thing.  So a run that dies at any point leaves
    nothing on the backend that the ledger does not name. *)
Theorem record_before_create g (c : Ctx B Bld Com) r c' :
  pool_backends c = ∅ → build_infra c = None → build_and_run g c = (r, c') →
  ∃ t, trace (cx_world c') = trace (cx_world c) ++ t ∧
    ∀ t1 kind x t2, t = t1 ++ EvCall (CCreate kind x) :: t2 →
      ∃ t0 s res, trace (cx_world c) ++ t1 = t0 ++ [EvState (st_run (e_store env)) (state_to_json s)] ∧
        res ∈ resources s ∧ target_of (B:=B) res = Some (kind, x) ∧ destroy_resource res = reclaim_op (B:=B) (kind, x).
Proof using All.
  intros Hp Hb Hr.
  assert (safe (B:=B) (st_run (e_store env)) None (λ _, True) (build_and_run g)) as Hs.
  { eapply safe_bind; [exact (safe_materialize_graph env str_lower digest16 repr_addr g)|intros _ _].
    exact (safe_realize_graph env str_lower digest16 repr_addr g). }
  destruct (Hs c r c') as ((t & Ht & Hrec) & _); [|done..|].
  { split; [intros k v; by rewrite Hp, lookup_empty|intros i; by rewrite Hb]. }
  exists t. split; [done|]. intros t1 kind x t2 Heq.
  destruct (Hrec t1 kind x t2 Heq) as (t0 & s & res & H1 & H2 & H3). exists t0, s, res.
  split_and!; [done..|by apply destroy_reaches].
Qed.
End Run.

(** ** A plan with a NAT switch and one VM, built and brought up *)
Module RunDemo.
Import BuildDemo.

(** The backend is the list of driver methods that fail; those prefixed with a caret
    are interrupted. *)
Abbreviation Bad := (list string).
Definition fail_only {A} (what : string) (a : A) : op Bad A := λ bad,
  ((if decide (what ∈ bad) then raise DriverError [what] else Ok a), bad).
Definition may {A} (what : string) (a : A) : op Bad A := λ bad,
  if decide ("^" +:+ what ∈ bad) then (raise KeyboardInterrupt [what], bad) else fail_only what a bad.

#[export] Instance demo_driver : Driver Bad := {|
  driver_for_name := λ _ _, Ok ();
  drv_connect := may "connect" ();
  drv_disconnect := may "disconnect" ();
  compose_volume_ref := λ p n, p +:+ "/" +:+ n;
  destroy_switch := λ _, fail_only "destroy_switch" ();
  destroy_network := λ _, fail_only "destroy_network" ();
  destroy_pool := λ _, fail_only "destroy_pool" ();
  destroy_vm := λ _, fail_only "destroy_vm" ();
  delete_volume := λ _, fail_only "delete_volume" ();
|}.

#[export] Instance demo_provider : Provider Bad := {|
  provider_driver := demo_driver;
  compose_resource_name := λ rid kind name, "tr-" +:+ rid +:+ "-" +:+ kind +:+ "-" +:+ name;
  compose_mac := λ _ _ _, "52:54:00:00:00:01";
  volume_suffix := λ _, ".img";
  native_agent_provision := None;
  create_switch := λ sw n, may "create_switch" (match sidecar sw with
    | Some sc => if sc_nat sc then Some (n +:+ "-up") else None | None => None end);
  create_network := λ _ _ _ _, may "create_network" ();
  create_pool := λ _ _, may "create_pool" ();
  upload_to_pool := λ _ _, may "upload_to_pool" ();
  write_to_pool := λ _ _, may "write_to_pool" ();
  create_blank_volume := λ _ _, may "create_blank_volume" ();
  resize_volume := λ _ _, may "resize_volume" ();
  download_from_pool := λ _ _, may "download_from_pool" ();
  create_vm := λ _ _ _ _, may "create_vm" ();
  start_vm := λ _, may "start_vm" ();
  get_vm_power_state := λ _, may "get_vm_power_state" "shutoff";
  native_guest := λ _ _ _, may "native_guest" ();
  guest_read_file := λ _ _, may "guest_read_file" (b "conf");
  guest_gateway := may "guest_gateway" None;
  read_build_result_sink := λ _, may "sink" [(b "TESTRANGE-RESULT: ok" ++ NL, false)];
  deadline_passed := λ bad, (Ok false, bad);
|}.

#[export] Instance demo_names : ProviderNames Bad.
Proof. done. Qed.

(** Base images are cached, built disks are not. *)
#[export] Instance demo_cache : Cache Bad := {|
  cache_resolve := λ n _ bad,
    ((if String.prefix "_built_" n then raise CacheMissError [n] else Ok (Some ("/cache/" +:+ n), "sha-" +:+ n)), bad);
  cache_add := λ _ n, may "cache_add" ("/cache/" +:+ n);
  make_temp := λ p, may "make_temp" ("/cache/tmp/" +:+ p);
  unlink_temp := λ _, may "unlink_temp" ();
  build_sidecar_config_iso := λ _ _ _ _, Ok [];
|}.

#[export] Instance demo_guests : Guests Bad () comm_kind := {|
  os_disk_base := λ _, Some "debian-12";
  boot_media := λ _, None;
  prepare_boot_media := λ _ p, may "prepare" p;
  config_hash := λ _ _ _ _ _ _ _ _, "0123456789abcdef";
  render_seed := λ _ _ _ _ _ _, Ok (Some []);
  wait_ready := λ _ _ _, may "wait_ready" ();
  credentials := λ _, [];
  is_cloud_init := λ _, true;
  kind_of := λ k, k;
  comm_bind := λ _ _, may "bind" ();
  comm_execute := λ _, may "execute" ();
|}.

Definition sw1 : Switch := MkSwitch "sw1" [MkNetwork "lan"] "10.0.0.0/24" (Some "wan") false
  (Some (MkSidecar true true true None)).
Definition web : VMRecipe () comm_kind :=
  MkRecipe (MkVMSpec "web" [CPU 1 false; Memory 512; OSDrive (MkDisk (MkPoolHandle "p1") 10);
    HardDrive (MkDisk (MkPoolHandle "p1") 5);
    Nic (MkIface (MkNetworkHandle "lan" "sw1") (Some (Static (MkStaticAddr "10.0.0.100" None []))))] "bios")
    () NativeCommunicator.
Definition hyp : Hypervisor () comm_kind :=
  MkHypervisor None [MkStoragePool "p1" 100] [sw1] [web] {[ "lan" := MkNetworkHandle "lan" "sw1" ]} [] true.

Definition env (resume : bool) : Env () comm_kind :=
  MkEnv hyp (MkStore "r1" 1) "r1" "demo" resume true ∅ ∅ 3 3 3 3.

Definition graph : BuildGraph (PlanNode () comm_kind) :=
  match assemble_graph "demo" hyp with Ok g => g | Raise _ => MkBuildGraph "" [] [] ∅ ∅ ∅ [] [] end.

Definition start_state : State := MkState SCHEMA_VERSION "r1" "demo" "d" "u" PHASE_PREFLIGHT "t0" [] [].
Definition ctx (bad : Bad) (realized : gset string) : Ctx Bad () comm_kind :=
  MkCtx (MkWorld {[ "r1" := MkRunDir {[ state_json := Doc (state_to_json start_state) ]} (Some 1) ]} [] "t1" 7 bad [])
    ∅ ∅ ∅ ∅ ∅ ∅ ∅ ∅ realized None [].

Definition go (bad : Bad) : res () * Ctx Bad () comm_kind :=
  build_and_run (env false) id id sa_addr graph (ctx bad ∅).

Definition created (t : list event) : list (string * string) :=
  omap (λ e, match e with EvCall (CCreate k x) => Some (k, x) | _ => None end) t.
Definition reclaimed (t : list event) : list (string * string) :=
  omap (λ e, match e with EvCall (CDestroy k x true) => Some (k, x) | _ => None end) t.
Definition still_listed (w : World Bad) : list (string * string) :=
  match state_at w "r1" with Some s => (λ r, (r_kind r, backend_name r)) <$> resources s | None => [] end.

(** The run succeeds; nineteen things are created and the eight of the build
    reclaimed. *)
Example demo_run :
  (go []).1 = Ok () ∧ length (created (trace (cx_world (go []).2))) = 19 ∧
  length (reclaimed (trace (cx_world (go []).2))) = 8.
Proof. vm_compute. auto. Qed.

Lemma record_before_create_witness :
  ("vm", "tr-r1-vm-web") ∈ created (trace (cx_world (go []).2)) ∧
  ∃ t, trace (cx_world (go []).2) = [] ++ t ∧
    ∀ t1 kind x t2, t = t1 ++ EvCall (CCreate kind x) :: t2 →
      ∃ t0 s res, [] ++ t1 = t0 ++ [EvState "r1" (state_to_json s)] ∧
        res ∈ resources s ∧ target_of (B:=Bad) res = Some (kind, x) ∧
        destroy_resource res = reclaim_op (B:=Bad) (kind, x).
Proof.
  split; [apply list_elem_of_In; vm_compute; tauto|].
  exact (record_before_create (env false) id id sa_addr graph (ctx [] ∅) (go []).1 (go []).2
    eq_refl eq_refl (surjective_pairing (go []))).
Defined.

(** The context after the key walk, and the probe it ledgered. *)
Definition keyed : Ctx Bad () comm_kind := (prepare_keys (env false) id sa_addr graph (ctx [] ∅)).2.
Definition probe : option (VMBuildProbe () comm_kind) := vm_probes keyed !! "vm:web".

Lemma capture_only_after_ok_witness :
  match probe with
  | Some bp =>
      let '(r, c') := build_one_vm (env false) bp "pool" "net" keyed in
      r = Ok () ∧ ∃ paths, built_disk_paths c' !! "web" = Some paths ∧ dom paths = list_to_set ["os"; "data0"]
  | None => False
  end.
Proof.
  destruct probe as [bp|] eqn:Hp; [|vm_compute in Hp; discriminate].
  destruct (build_one_vm (env false) bp "pool" "net" keyed) as [r c'] eqn:E.
  assert (r = Ok () ∧ vm_name (bp_vm bp) = "web" ∧ bp_roles bp = ["os"; "data0"]) as (Hr & Hn & Hroles).
  { vm_compute in Hp. injection Hp as <-. vm_compute in E. injection E as <- _. auto. }
  split; [exact Hr|].
  destruct (capture_only_after_ok (env false) bp "pool" "net" keyed r c' E) as [[_ Hbad]|(_ & _ & Hcap)].
  - rewrite Hr in Hbad. discriminate.
  - rewrite <-Hn, <-Hroles. exact (Hcap Hr).
Defined.

(** A resumed run whose switch was realized but not its sidecar: reattaching the
    switch does not restore the segment of its uplink, and the sidecar's bring-up
    fails on it with a [KeyError]. *)
Lemma resume_loses_uplink :
  (realize_graph (env true) id graph (ctx [] {["pool:p1"; "network:sw1"]})).1 = raise KeyError ["__uplink__sw1"].
Proof. vm_compute. reflexivity. Qed.

(** A build infrastructure that fails to come up half-way is not torn down at the
    end of the walk: the pool and the switch stay. *)
Lemma failed_infra_survives_walk :
  (go ["create_network"]).1 = raise DriverError ["create_network"] ∧
  created (trace (cx_world (go ["create_network"]).2)) =
    [("pool", "tr-r1-build_pool-build"); ("switch", "tr-r1-build_switch-__build"); ("network", "tr-r1-build_network-build")] ∧
  reclaimed (trace (cx_world (go ["create_network"]).2)) = [].
Proof. vm_compute. auto. Qed.
End RunDemo.
