(* ===== verification/LifecycleSpec.v ===== *)
(** * The run lifecycle: correctness *)

From S2P Require Import Prelude Exceptions Eff PyBytes PyDict Dashboard BuildGraph Devices Hypervisor Ledger Store StoreSpec Cleanup TeardownSpec BuildResult Profile Context Preflight NodeHooks Lifecycle RecordSpec BuildResultSpec RunSpec.
From stdpp Require Import pretty options.
From stdpp Require Import options.

Section Spec.
Context `{Provider B, !Cache B, !Guests B Bld Com, Unicode, !Preflights B Bld Com}.
Variable life : Life Bld Com.
Variable str_lower : pystr → pystr.
Variable digest16 : string → string.
Variable repr_addr : StaticAddr → string.
Set Default Proof Using "Type".
Abbreviation O := (act (Orch B Bld Com)).
Abbreviation env := (lf_env life).
Abbreviation test := (Test (B:=B) (Com:=Com)).
Abbreviation world := (λ o : Orch B Bld Com, cx_world (o_ctx o)).
Implicit Types (o : Orch B Bld Com).

(** ** What the work leaves alone

    Nothing but the two bracketing operations touches the signal table, and only
    [leak] the leak flag: [f] is a part of the object that code run on the context
    does not see. *)
Section Keeps.
Context {X : Type} (f : Orch B Bld Com → X).
Hypothesis f_ctx : ∀ c o, f (set_ctx c o) = f o.
Hypothesis f_handle : ∀ h o, f (set_handle h o) = f o.

Definition keeps {A} (m : O A) : Prop := ∀ o r o', m o = (r, o') → f o' = f o.

Lemma keeps_inctx {A} (m : act (Ctx B Bld Com) A) : keeps (inctx m).
Proof using f_ctx. intros o r o'. unfold inctx. destruct (m (o_ctx o)). intros [= <- <-]. apply f_ctx. Qed.

Lemma keeps_sigs_bind {A C} (m : O A) (k : A → O C) : keeps m → (∀ a, keeps (k a)) → keeps (m ≫= k).
Proof.
  intros Hm Hk o r o' [(a & o1 & H1 & H2)|(e & H1 & ->)]%act_bind_inv; [|by eapply Hm].
  rewrite (Hk _ _ _ _ H2). by eapply Hm.
Qed.

Lemma keeps_catch {A} (m : O A) p h : keeps m → (∀ e, keeps (h e)) → keeps (catch m p h).
Proof.
  intros Hm Hh o r o'. unfold catch. destruct (m o) as [[a|e] o1] eqn:E; [by intros [= <- <-]; eapply Hm|].
  apply Hm in E. destruct (p e); [|by intros [= <- <-]]. intros Hr%Hh. congruence.
Qed.

Lemma keeps_lift {A} (x : res A) : keeps (lift x).
Proof. by intros o r o' [= <- <-]. Qed.
Lemma keeps_sigs_ret {A} (a : A) : keeps (mret a).
Proof. by intros o r o' [= <- <-]. Qed.
Lemma keeps_gets {A} (g : Orch B Bld Com → A) : keeps (gets g).
Proof. by intros o r o' [= <- <-]. Qed.
Lemma keeps_set_handle h : keeps (modify (set_handle h)).
Proof using f_handle. intros o r o' [= <- <-]. apply f_handle. Qed.
Lemma keeps_when (b : bool) (m : O ()) : keeps m → keeps (act_when b m).
Proof. destruct b; [done|]. intros _. exact (keeps_sigs_ret ()). Qed.
Hint Resolve keeps_inctx keeps_sigs_bind keeps_catch keeps_lift keeps_gets keeps_set_handle keeps_when keeps_sigs_ret : keeps.

Lemma keeps_preflight : keeps (preflight_and_initialize life).
Proof using f_ctx.
  unfold preflight_and_initialize, inworld, throw_when. apply keeps_sigs_bind; [auto with keeps|intros bs].
  apply keeps_sigs_bind; [auto with keeps|intros rep]. cbv zeta. apply keeps_sigs_bind; [auto with keeps|intros _].
  destruct (e_resume env); auto 10 with keeps.
Qed.

Lemma keeps_bring_up : keeps (bring_up life str_lower digest16 repr_addr).
Proof using f_ctx f_handle.
  unfold bring_up, run_materialize, run_realize, build_handle, throw_when.
  apply keeps_sigs_bind; [destruct (lf_require_cache life); auto 10 with keeps|]. auto 10 with keeps.
Qed.

Lemma keeps_execute ff h ts rs :
  keeps leak → keeps (execute_tests (B:=B) (Bld:=Bld) ff h ts rs).
Proof using f_ctx.
  intros Hleak. revert rs. induction ts as [|t ts IH]; intros rs; cbn; [auto with keeps|].
  apply keeps_sigs_bind; [|intros [x [|]]; auto with keeps].
  unfold execute_one, call_test, dash. apply keeps_sigs_bind; [auto with keeps|intros _].
  apply keeps_sigs_bind; [auto 10 with keeps|intros x]. destruct (t_outcome x); [auto with keeps|].
  destruct (is_exception _); auto with keeps.
Qed.
End Keeps.
#[local] Hint Resolve keeps_inctx keeps_sigs_bind keeps_catch keeps_lift keeps_gets keeps_set_handle keeps_when keeps_sigs_ret : keeps.

(** The signal table and what was saved of it. *)
Definition sigs o := (o_signals o, o_prior o).
Lemma sigs_leak : keeps sigs leak.
Proof. by intros o r o' [= <- <-]. Qed.

(** Python knows the handlers it replaces. *)
Definition known_handlers o : Prop := ∀ sig, sig ∈ handled_signals life → is_Some (o_signals o !! sig).

Lemma install_one_eq sig o :
  install_one life sig o = (Ok (), if lf_can_signal life sig
    then set_prior (Some (dict_set (default [] (o_prior o)) sig (o_signals o !! sig)))
      (set_signals (<[sig := our_handler]> (o_signals o)) o)
    else o).
Proof. unfold install_one, signal_signal, catch. by destruct (lf_can_signal life sig). Qed.

Lemma restore_one_eq sig h o :
  lf_can_signal life sig = true →
  restore_one life (sig, Some h) o = (Ok (), set_signals (<[sig := h]> (o_signals o)) o).
Proof. intros Hc. unfold restore_one, signal_signal, catch. cbn [fst snd]. by rewrite Hc. Qed.

(** Installing always succeeds, and what it saved restores the table as it was. *)
Lemma install_restore o :
  known_handlers o →
  ∃ o1, install_signal_handlers life o = (Ok (), o1) ∧ o_ctx o1 = o_ctx o ∧ o_leak o1 = o_leak o ∧
    ∀ o2, sigs o2 = sigs o1 → restore_signal_handlers life o2 = (Ok (), set_signals (o_signals o) o2).
Proof.
  intros Hk. unfold known_handlers, handled_signals in Hk.
  assert (∃ h, o_signals o !! "SIGTERM" = Some h) as [h1 Hh1] by (apply Hk; left).
  assert (lf_win32 life = false → ∃ h, o_signals o !! "SIGHUP" = Some h) as Hh2.
  { intros Hw. apply Hk. rewrite Hw. right. left. }
  unfold install_signal_handlers, restore_signal_handlers, handled_signals, forA.
  destruct o as [c hd lk pr s]. cbn [o_signals] in *.
  destruct (lf_win32 life); [|destruct (Hh2 eq_refl) as [h2 Hh2']];
    destruct (lf_can_signal life "SIGTERM") eqn:E1; destruct (lf_can_signal life "SIGHUP") eqn:E2;
    cbn [foldA]; (eexists; split;
      [erewrite act_bind_Ok by reflexivity; repeat (erewrite act_bind_Ok by apply install_one_eq); reflexivity|]);
    rewrite ?E1, ?E2; cbn; rewrite ?(decide_False (P := "SIGHUP" = "SIGTERM")) by done; (split; [done|]); (split; [done|]);
    intros [c2 hd2 lk2 pr2 s2]; intros [= -> ->];
    rewrite act_bind_gets; cbn [o_prior default from_option id foldA];
    rewrite ?Hh1, ?lookup_insert_ne, ?Hh2' by done;
    repeat (erewrite act_bind_Ok by (by apply restore_one_eq)); unfold mret, act_ret, set_signals; cbn; repeat f_equal;
    try done.
  - by rewrite insert_insert_eq, insert_id.
  - by rewrite insert_insert_eq, insert_id.
  - rewrite (insert_insert_ne _ "SIGTERM" "SIGHUP"), !insert_insert_eq by done.
    rewrite (insert_id _ "SIGTERM") by done. by apply insert_id.
  - by rewrite insert_insert_eq, insert_id.
  - by rewrite insert_insert_eq, insert_id.
Qed.

(** ** The parts of a run *)

Definition opening : O () :=
  install_signal_handlers life;;
  inworld connect;;
  preflight_and_initialize life.

Definition work (tests : list test) (fail_fast leak_on_failure : bool) : O (list TestResult) :=
  bring_up life str_lower digest16 repr_addr;;
  h ← gets o_handle;
  results ← execute_tests fail_fast h tests [];
  act_when (leak_on_failure && existsb (negb ∘ res_passed) results) leak;;
  mret results.

Lemma inworld_inv {A} (m : act (World B) A) o r o' :
  inworld m o = (r, o') → ∃ w', m (world o) = (r, w') ∧ o' = set_ctx (set_world w' (o_ctx o)) o.
Proof. unfold inworld, inctx, onw. destruct (m (world o)) as [r1 w1]. intros [= <- <-]. eauto. Qed.

(** Every call on the way out, and the table as it was. *)
Lemma close_inv o o0 o1 r o' :
  (∀ o2, sigs o2 = sigs o1 → restore_signal_handlers life o2 = (Ok (), set_signals (o_signals o0) o2)) →
  sigs o = sigs o1 → close life o = (r, o') →
  o_signals o' = o_signals o0 ∧ trace (world o') = trace (world o) ++ [EvCall CDisconnect] ∧
  r = (drv_disconnect (backend (world o))).1 ∧ run_dirs (world o') = run_dirs (world o).
Proof.
  intros Hres Hs. unfold close. erewrite act_bind_Ok by (by apply Hres).
  intros (w' & Hw & ->)%inworld_inv. unfold disconnect, perform in Hw. cbn in Hw |- *.
  destruct (drv_disconnect (backend (world o))) as [r1 b1]. by injection Hw as <- <-.
Qed.

Lemma run_teardown_inv o r o' s :
  uninterrupted (B:=B) → state_at (world o) (st_run (e_store env)) = Some s → run_teardown life o = (r, o') →
  r = Ok () ∧ ∃ t, trace (world o') = trace (world o) ++ t ∧
    (destroy_calls t = resource_id <$> reverse (resources s) ∨ true ∈ faults (world o) ∧ destroy_calls t = []).
Proof.
  intros Hun Hs (w' & Hw & ->)%inworld_inv. destruct (teardown_attempts_all _ _ _ _ _ Hun Hs Hw) as (-> & t & Ht & Hd).
  split; [done|]. by exists t.
Qed.

(** Leaving a leaked range: no driver call but the disconnect. *)
Definition leave_leaked : O () :=
  inworld (set_phase (e_store env) PHASE_LEAKED);; inworld (release (e_store env)).

Lemma leave_leaked_inv o r o' :
  leave_leaked o = (r, o') →
  ∃ t, trace (world o') = trace (world o) ++ t ∧ no_calls t.
Proof.
  intros Hl. unfold leave_leaked in Hl.
  apply act_bind_inv in Hl as [([] & o1 & H1 & H2)|(e & H1 & ->)];
    apply inworld_inv in H1 as (w1 & H1 & ->);
    apply call_free_rmw in H1 as (t1 & Ht1 & Hn1); [|by exists t1].
  apply inworld_inv in H2 as (w2 & H2 & ->). apply fs_act_release in H2 as ((t2 & Ht2 & Hn2) & _).
  exists (t1 ++ t2). cbn in *. rewrite Ht2, Ht1, app_assoc. split; [done|by apply no_calls_app].
Qed.

(** What a run does once its work ended, however it ended. *)
Definition wind_down (failed_up : bool) : O () :=
  if failed_up then dash (Abort ABORTED);; run_teardown life
  else l ← gets o_leak; if l : bool then leave_leaked else run_teardown life.

Lemma wind_down_inv b o r o' s :
  uninterrupted (B:=B) → state_at (world o) (st_run (e_store env)) = Some s →
  wind_down b o = (r, o') →
  (b = true ∨ o_leak o = false → r = Ok ()) ∧
  ∃ t, trace (world o') = trace (world o) ++ t ∧
    (if negb b && o_leak o then destroy_calls t = []
     else destroy_calls t = resource_id <$> reverse (resources s) ∨ true ∈ faults (world o) ∧ destroy_calls t = []).
Proof.
  intros Hun Hs. unfold wind_down. destruct b; cbn [negb andb].
  - intros [([] & o1 & H1 & H2)|(e & H1 & ->)]%act_bind_inv; [|done].
    injection H1 as <-. cbn in H2. apply (run_teardown_inv _ _ _ s Hun) in H2 as (-> & Ht); [|done].
    split; [done|]. exact Ht.
  - rewrite act_bind_gets. destruct (o_leak o).
    + intros (t & Ht & Hn)%leave_leaked_inv. split; [by intros []|].
      exists t. split; [done|]. apply quiet_destroy_calls, no_calls_quiet, Hn.
    + intros Hr. apply (run_teardown_inv _ _ _ s Hun) in Hr as (-> & Ht); [|done].
      split; [done|]. exact Ht.
Qed.

(** A run is its opening, its work, the winding down and the closing. *)
Lemma run_tests_steps tests ff lof o r o' o1 r2 o2 :
  run_tests life str_lower digest16 repr_addr tests ff lof o = (r, o') →
  opening o = (Ok (), o1) → work tests ff lof o1 = (r2, o2) →
  ∃ b r3 o3 r4, wind_down b o2 = (r3, o3) ∧ close life o3 = (r4, o') ∧
    (b = true → ∃ e, bring_up life str_lower digest16 repr_addr o1 = (Raise e, o2)) ∧
    r = match r4, r3 with Ok _, Ok _ => r2 | Ok _, Raise e => Raise e | Raise e, _ => Raise e end.
Proof.
  intros Hr Hop Hw. unfold opening in Hop. apply act_bind_inv in Hop as [([] & oa & Hi & Hop)|(e & _ & [=])].
  apply act_bind_inv in Hop as [([] & ob & Hc & Hp)|(e & _ & [=])].
  unfold run_tests, with_range in Hr. unfold work in Hw.
  destruct (bring_up life str_lower digest16 repr_addr o1) as [[[]|eb] ou] eqn:Hb.
  - (* the range is up *)
    erewrite act_bind_Ok, act_bind_gets in Hw by exact Hb.
    erewrite act_bind_Ok in Hr.
    2:{ unfold enter. erewrite act_bind_Ok by exact Hi. erewrite act_bind_Ok by exact Hc.
        unfold on_error, catch. erewrite act_bind_Ok by exact Hp.
        erewrite act_bind_Ok by (by rewrite Hb). reflexivity. }
    unfold finally at 1 in Hr. rewrite Hw in Hr. unfold exit in Hr.
    change (λ l : bool, if l then _ else _) with (λ l : bool, if l then leave_leaked else run_teardown life) in Hr.
    unfold finally in Hr. destruct (wind_down false o2) as [r3 o3] eqn:Hwd. unfold wind_down in Hwd. rewrite Hwd in Hr.
    destruct (close life o3) as [r4 o4] eqn:Hcl. exists false, r3, o3, r4.
    destruct r4 as [[]|e4]; [destruct r3 as [[]|e3]|]; injection Hr as <- <-; done.
  - (* bring-up failed *)
    erewrite act_bind_Raise in Hw by exact Hb. injection Hw as <- <-.
    destruct (wind_down true ou) as [r3 o3] eqn:Hwd. destruct (close life o3) as [r4 o4] eqn:Hcl.
    exists true, r3, o3, r4. unfold wind_down in Hwd.
    erewrite act_bind_Raise in Hr.
    2:{ unfold enter. erewrite act_bind_Ok by exact Hi. erewrite act_bind_Ok by exact Hc.
        unfold on_error at 1, catch. erewrite act_bind_Ok by exact Hp. erewrite act_bind_Raise.
        2:{ unfold on_error, catch. rewrite Hb. cbn [any_exn]. unfold mbind at 1, act_bind at 1. rewrite Hwd. 
            instantiate (1 := o3). instantiate (1 := match r3 with Ok _ => eb | Raise e => e end). by destruct r3 as [[]|]. }
        cbn [any_exn]. unfold mbind at 1, act_bind at 1. rewrite Hcl.
        instantiate (1 := o4). instantiate (1 := match r4, r3 with Ok _, Ok _ => eb | Ok _, Raise e => e | Raise e, _ => e end).
        by destruct r4 as [[]|]. }
    injection Hr as <- <-. split_and!; [done..|eauto|]. by destruct r4 as [[]|], r3 as [[]|].
Qed.

Lemma sigs_work tests ff lof : keeps sigs (work tests ff lof).
Proof.
  unfold work. apply keeps_sigs_bind; [by apply keeps_bring_up|intros _]. apply keeps_sigs_bind; [auto with keeps|intros h].
  apply keeps_sigs_bind; [apply keeps_execute; [done|apply sigs_leak]|intros rs]. auto using sigs_leak with keeps.
Qed.

Lemma sigs_wind_down b : keeps sigs (wind_down b).
Proof.
  unfold wind_down, run_teardown, leave_leaked, inworld, dash. destruct b; [auto with keeps|].
  apply keeps_sigs_bind; [auto with keeps|intros [|]]; auto with keeps.
Qed.

(** Opening installs the handlers first, and keeps what restores them. *)
Lemma opening_inv o o1 :
  known_handlers o → opening o = (Ok (), o1) →
  o_leak o1 = o_leak o ∧ ∀ o2, sigs o2 = sigs o1 →
    restore_signal_handlers life o2 = (Ok (), set_signals (o_signals o) o2).
Proof.
  intros Hk Hop. destruct (install_restore o Hk) as (oa & Hi & _ & Hla & Hres). unfold opening in Hop.
  erewrite act_bind_Ok in Hop by exact Hi.
  assert (∀ X (f : Orch B Bld Com → X), (∀ c o, f (set_ctx c o) = f o) → f o1 = f oa) as Hf.
  { intros X f Hf. refine (keeps_sigs_bind f _ _ _ _ _ _ _ Hop); [by apply keeps_inctx|intros _; by apply keeps_preflight]. }
  split; [rewrite (Hf _ o_leak) by done; exact Hla|]. intros o2 Hs. rewrite (Hf _ sigs) in Hs by done.
  by apply Hres.
Qed.

(** C13: once the driver is connected, a run gives everything back: whatever happens to
    preflight, the walks, the tests or the teardown, the last thing it does to the
    backend is to disconnect, and the process's SIGTERM and SIGHUP handlers are the ones
    it had before. *)
Theorem run_releases tests ff lof o r o' :
  known_handlers o → run_tests life str_lower digest16 repr_addr tests ff lof o = (r, o') →
  (∃ e, r = Raise e ∧ (drv_connect (backend (world o))).1 = Raise e) ∨
  (o_signals o' = o_signals o ∧ last (trace (world o')) = Some (EvCall CDisconnect)).
Proof.
  intros Hk Hr. destruct (install_restore o Hk) as (oa & Hi & Hca & Hla & Hres).
  destruct (inworld connect oa) as [[[]|e] ob] eqn:Hc.
  2:{ left. exists e. unfold run_tests, with_range, enter in Hr. erewrite act_bind_Raise in Hr.
      2:{ erewrite act_bind_Ok by exact Hi. by erewrite act_bind_Raise by exact Hc. }
      split; [by injection Hr as <- <-|]. apply inworld_inv in Hc as (w' & Hw & _).
      unfold connect, perform in Hw. rewrite Hca in Hw. destruct (drv_connect _). by injection Hw as <- <-. }
  right. assert (sigs ob = sigs oa) as Hsb by (by eapply keeps_inctx).
  assert (∀ oc r4, sigs oc = sigs oa → close life oc = (r4, o') →
    o_signals o' = o_signals o ∧ last (trace (world o')) = Some (EvCall CDisconnect)) as Hclose.
  { intros oc r4 Hs Hcl. destruct (close_inv _ _ _ _ _ Hres Hs Hcl) as (H1 & H2 & _). split; [done|]. rewrite H2. apply last_snoc. }
  destruct (preflight_and_initialize life ob) as [[[]|e] o1] eqn:Hp;
    (assert (sigs o1 = sigs oa) as Hs1 by (rewrite <-Hsb; by eapply keeps_preflight)).
  - destruct (work tests ff lof o1) as [r2 o2] eqn:Hw.
    destruct (run_tests_steps _ _ _ _ _ _ o1 r2 o2 Hr) as (b & r3 & o3 & r4 & Hwd & Hcl & _); [|done|].
    { unfold opening. erewrite act_bind_Ok by exact Hi. by erewrite act_bind_Ok by exact Hc. }
    eapply (Hclose o3); [|done]. rewrite (sigs_wind_down _ _ _ _ Hwd), (sigs_work _ _ _ _ _ _ Hw). done.
  - destruct (close life o1) as [r4 o4] eqn:Hcl. eapply (Hclose o1 r4); [done|]. rewrite Hcl. f_equal.
    assert (enter life str_lower digest16 repr_addr o = (Raise (match r4 with Ok _ => e | Raise e4 => e4 end), o4)) as He.
    { unfold enter. erewrite act_bind_Ok by exact Hi. erewrite act_bind_Ok by exact Hc. unfold on_error at 1, catch.
      erewrite act_bind_Raise by exact Hp. cbn [any_exn]. unfold mbind at 1, act_bind at 1. rewrite Hcl. by destruct r4. }
    unfold run_tests, with_range in Hr. erewrite act_bind_Raise in Hr by exact He. by injection Hr as _ <-.
Qed.

(** C2: a range never outlives its run unless it was asked to.  When the walks or the
    tests end, for whatever reason (an interrupt included), every resource recorded in
    the ledger at that point is destroyed, newest first, each exactly once, before the
    driver disconnects; after [leak()] none is.  Only a ledger that cannot be read is
    left as it is, and what the run raises is what its work raised, or else what the
    disconnect raised. *)
Theorem range_is_torn_down tests ff lof o r o' o1 r2 o2 s :
  uninterrupted (B:=B) → known_handlers o → o_leak o = false →
  run_tests life str_lower digest16 repr_addr tests ff lof o = (r, o') →
  opening o = (Ok (), o1) → work tests ff lof o1 = (r2, o2) →
  state_at (world o2) (st_run (e_store env)) = Some s →
  ∃ t (b : B), trace (world o') = trace (world o2) ++ t ++ [EvCall CDisconnect] ∧
    (if o_leak o2 then destroy_calls t = []
     else (destroy_calls t = resource_id <$> reverse (resources s) ∨ true ∈ faults (world o2) ∧ destroy_calls t = []) ∧
       r = match (drv_disconnect b).1 with Ok _ => r2 | Raise e => Raise e end).
Proof.
  intros Hun Hk Hlk Hr Hop Hw Hs. destruct (opening_inv _ _ Hk Hop) as [Hl1 Hres].
  destruct (run_tests_steps _ _ _ _ _ _ _ _ _ Hr Hop Hw) as (b & r3 & o3 & r4 & Hwd & Hcl & Hb & ->).
  assert (b = true → o_leak o2 = false) as Hbl.
  { intros [e He]%Hb. rewrite (keeps_bring_up o_leak (λ _ _, eq_refl) (λ _ _, eq_refl) _ _ _ He). congruence. }
  destruct (close_inv o3 o o1 r4 o') as (_ & Ht4 & Hr4 & Hd4); [done| |done|].
  { rewrite (sigs_wind_down _ _ _ _ Hwd). by apply sigs_work in Hw. }
  destruct (wind_down_inv b o2 r3 o3 s Hun Hs Hwd) as (Hr3 & t & Ht & Hd).
  exists t, (backend (world o3)). rewrite Ht4, Ht, app_assoc. split; [done|]. rewrite <-Hr4. destruct (o_leak o2) eqn:Hl.
  - destruct b; [by discriminate Hbl|]. exact Hd.
  - rewrite andb_false_r in Hd. split; [exact Hd|]. rewrite Hr3 by (by right). by destruct r4.
Qed.

(** A build leaves nothing behind either: once the state is open, whether the
    materialize walk succeeded or failed with an [Exception], every resource still in
    the ledger is destroyed, newest first, before the driver disconnects, and the
    walk's own outcome is what the caller gets unless the disconnect raises. *)
Theorem build_is_torn_down o r o' o1 r2 o2 s :
  uninterrupted (B:=B) → known_handlers o →
  build life str_lower digest16 repr_addr o = (r, o') →
  opening o = (Ok (), o1) → run_materialize life str_lower digest16 repr_addr o1 = (r2, o2) →
  (∀ e, r2 = Raise e → is_exception e = true) →
  state_at (world o2) (st_run (e_store env)) = Some s →
  ∃ t (b : B), trace (world o') = trace (world o2) ++ t ++ [EvCall CDisconnect] ∧ o_signals o' = o_signals o ∧
    (destroy_calls t = resource_id <$> reverse (resources s) ∨ true ∈ faults (world o2) ∧ destroy_calls t = []) ∧
    r = match (drv_disconnect b).1 with Ok _ => r2 | Raise e => Raise e end.
Proof.
  intros Hun Hk Hr Hop Hm Hexn Hs. destruct (opening_inv _ _ Hk Hop) as [_ Hres]. unfold opening in Hop.
  apply act_bind_inv in Hop as [([] & oa & Hi & Hop)|(e & _ & [=])].
  apply act_bind_inv in Hop as [([] & ob & Hc & Hp)|(e & _ & [=])].
  unfold build in Hr. erewrite act_bind_Ok in Hr by exact Hi. erewrite act_bind_Ok in Hr by exact Hc.
  destruct (run_teardown life o2) as [r3 o3] eqn:Ht. pose proof Ht as Ht'.
  apply (run_teardown_inv _ _ _ s Hun Hs) in Ht' as (-> & t & Htr & Hd).
  apply finally_inv in Hr as (rb & o4 & Hbody & Hfin). erewrite act_bind_Ok in Hbody by exact Hp.
  assert (rb = r2 ∧ o4 = o3) as [-> ->].
  { destruct r2 as [[]|e].
    - erewrite act_bind_Ok in Hbody; [rewrite Ht in Hbody; by injection Hbody as <- <-|].
      unfold on_error, catch. by rewrite Hm.
    - erewrite act_bind_Raise in Hbody; [by injection Hbody as <- <-|].
      unfold on_error, catch. rewrite Hm, (Hexn e eq_refl). unfold mbind, act_bind. by rewrite Ht. }
  destruct (close life o3) as [r4 o4] eqn:Hcl.
  assert (o4 = o' ∧ r = match r4 with Ok _ => r2 | Raise e => Raise e end) as [-> ->].
  { destruct Hfin as [[[= -> ->] ->]|(e & [= -> ->] & ->)]; done. }
  destruct (close_inv o3 o o1 r4 o') as (Hsig & Ht4 & Hr4 & _); [done| |done|].
  { assert (keeps sigs (run_teardown life)) as Hkt by (unfold run_teardown, inworld; auto with keeps).
    rewrite (Hkt _ _ _ Ht). eapply keeps_inctx; [done|exact Hm]. }
  exists t, (backend (world o3)). rewrite Ht4, Htr, app_assoc, <-Hr4. split_and!; done.
Qed.

(** ** The runner *)

(** The result a test function's outcome becomes, and what the dashboard is told. *)
Definition result_of (t : test) (x : TestRun) : TestResult :=
  match t_outcome x with
  | Ok _ => MkTestResult (t_name t) true None (t_elapsed x)
  | Raise _ => MkTestResult (t_name t) false (Some (t_error x)) (t_elapsed x)
  end.
Definition told (x : TestResult) : list dash_call :=
  [StartTest (res_name x); FinishTest (res_name x) (res_passed x) (res_duration x) (res_error x)].

(** [new] reports a prefix of [tests], in order. *)
Record reports (ff : bool) (h : option (OrchestratorHandle Com)) (tests : list test)
    (new : list TestResult) : Prop := {
  rp_each : Forall2 (λ t x, ∃ b, x = result_of t (t_body t h b).1) (take (length new) tests) new;
  rp_all : ff = false → length new = length tests;
  rp_stop : ff = true → ∀ l x, new = l ++ [x] → Forall (λ y, res_passed y = true) l;
  rp_early : length new < length tests → ∃ l x, new = l ++ [x] ∧ res_passed x = false;
}.

(** One turn of the loop. *)
Lemma execute_one_inv ff h (t : test) o r o' :
  execute_one (Bld:=Bld) ff h t o = (r, o') →
  match r with
  | Ok (x, stop) => (∃ b, x = result_of t (t_body t h b).1) ∧ stop = ff && negb (res_passed x) ∧
      dash_calls (o_ctx o') = dash_calls (o_ctx o) ++ told x
  | Raise e => is_exception e = false
  end.
Proof.
  unfold execute_one. intros [([] & o1 & H1 & H2)|(e & H1 & ->)]%act_bind_inv; [injection H1 as <-|done].
  unfold call_test in H2. apply act_bind_inv in H2 as [(x & o2 & H1 & H2)|(e & H1 & ->)].
  - assert (∃ b, x = (t_body t h b).1) as [b Hx].
    { apply act_bind_inv in H1 as [(y & o3 & H1 & H3)|(e & _ & [=])].
      assert (y = x) as -> by (by destruct (t_leaks y); injection H3 as <- <-).
      unfold inctx, use, onw, perform in H1. cbn in H1. exists (backend (world o)).
      destruct (t_body t h (backend (world o))). by injection H1 as <- <-. }
    assert (dash_calls (o_ctx o2) = dash_calls (o_ctx o) ++ [StartTest (t_name t)]) as Hd.
    { apply act_bind_inv in H1 as [(y & o3 & H1 & H3)|(e & _ & [=])].
      assert (o_ctx o2 = o_ctx o3) as -> by (by destruct (t_leaks y); injection H3 as <- <-).
      unfold inctx, use, onw, perform in H1. cbn in H1. destruct (t_body t h (backend (world o))). by injection H1 as <- <-. }
    clear H1. destruct (t_outcome x) as [[]|e] eqn:Ho.
    + injection H2 as <- <-. split; [|split; [by rewrite andb_false_r|]].
      * exists b. unfold result_of. by rewrite <-Hx, Ho.
      * cbn. rewrite Hd, <-app_assoc. done.
    + destruct (is_exception e) eqn:He; [|by injection H2 as <- <-]. injection H2 as <- <-.
      split; [|split; [by rewrite andb_true_r|]].
      * exists b. unfold result_of. by rewrite <-Hx, Ho.
      * cbn. rewrite Hd, <-app_assoc. done.
  - apply act_bind_inv in H1 as [(y & o3 & H1 & H3)|(e' & H1 & [= ->])]; [by destruct (t_leaks y)|].
    unfold inctx, use, onw, perform in H1. cbn in H1. by destruct (t_body t h (backend (world o))).
Qed.

Lemma execute_tests_inv ff h (tests : list test) rs o r o' :
  execute_tests (Bld:=Bld) ff h tests rs o = (r, o') →
  match r with
  | Ok out => ∃ new, out = rs ++ new ∧ reports ff h tests new ∧
      dash_calls (o_ctx o') = dash_calls (o_ctx o) ++ concat (told <$> new)
  | Raise e => is_exception e = false
  end.
Proof.
  revert rs o. induction tests as [|t tests IH]; intros rs o; cbn [execute_tests].
  { intros [= <- <-]. exists []. rewrite !app_nil_r. split_and!; [done| |done].
    split; [constructor|done|by intros _ [] ? [=]|by intros ?%Nat.nlt_0_r]. }
  intros [([x stop] & o1 & H1 & H2)|(e & H1 & ->)]%act_bind_inv; apply execute_one_inv in H1; [|done].
  destruct H1 as ((b & Hx) & -> & Hd). destruct (ff && negb (res_passed x)) eqn:Hst.
  - injection H2 as <- <-. apply andb_true_iff in Hst as [-> Hf]. exists [x]. split_and!; [done| |exact Hd].
    split; [|done| |].
    + cbn. rewrite take_0. repeat constructor. eauto.
    + intros _ l y Hl. destruct l as [|? [|??]]; [constructor|done..].
    + intros _. exists [], x. by destruct (res_passed x).
  - apply IH in H2. destruct r as [out|e]; [|done]. destruct H2 as (new & -> & [Heach Hall Hstop Hearly] & Hd2).
    exists (x :: new). rewrite Hd2, Hd, <-!app_assoc. split_and!; [done| |done]. split.
    + cbn. constructor; eauto.
    + intros Hff. cbn. by rewrite Hall.
    + intros Hff l y Hl. destruct l as [|z l]; [constructor|]. injection Hl as <- Hl. constructor; [|by eapply Hstop].
      rewrite Hff in Hst. by destruct (res_passed x).
    + cbn. intros (l & y & -> & Hy)%Nat.succ_lt_mono%Hearly. by exists (x :: l), y.
Qed.

(** The runner reports the tests in order, each passed exactly when its function
    returned, and tells the dashboard the same.  Without fail-fast every test runs;
    with it the run stops at the first failure and nowhere else.  Only an interrupt
    makes the loop itself raise. *)
Theorem runner_reports ff h (tests : list test) o :
  match execute_tests (Bld:=Bld) ff h tests [] o with
  | (Ok new, o') => reports ff h tests new ∧ dash_calls (o_ctx o') = dash_calls (o_ctx o) ++ concat (told <$> new)
  | (Raise e, _) => is_exception e = false
  end.
Proof.
  destruct (execute_tests ff h tests [] o) as [r o'] eqn:E. apply execute_tests_inv in E. destruct r as [new|e]; [|done].
  by destruct E as (new' & -> & ? & ?).
Qed.

(** ** The gate and the resume *)

(** A driver call changes the backend and the trace only. *)
Lemma inworld_perform_inv {A} (op : op B A) c o r o' :
  inworld (perform op c) o = (r, o') →
  run_dirs (world o') = run_dirs (world o) ∧ faults (world o') = faults (world o) ∧
  trace (world o') = trace (world o) ++ [EvCall (c r)] ∧ r = (op (backend (world o))).1 ∧
  backend (world o') = (op (backend (world o))).2 ∧ o' = set_ctx (set_world (world o') (o_ctx o)) o.
Proof.
  intros (w' & Hw & ->)%inworld_inv. unfold perform in Hw. cbn. destruct (op (backend (world o))) as [r1 b1].
  injection Hw as <- <-. done.
Qed.

(** The gate.  When the driver's preflight reports a blocker, the run raises
    [PreflightError] (or what the disconnect raises) having called nothing but connect, preflight and disconnect, and
    without touching any run's files. *)
Theorem blocked_plan_touches_nothing tests ff lof o r o' bs rep b1 b2 :
  known_handlers o →
  (if lf_require_cache life then Ok None else sw ← resolve_build_switch (Hypervisor.build_switch (e_hyp env)); Ok (Some sw))
    = Ok bs →
  drv_connect (backend (world o)) = (Ok (), b1) → drv_preflight (e_hyp env) bs b1 = (Ok rep, b2) →
  findings rep ≠ [] →
  run_tests life str_lower digest16 repr_addr tests ff lof o = (r, o') →
  r = match (drv_disconnect b2).1 with Ok _ => raise PreflightError (f_code <$> findings rep) | Raise e => Raise e end ∧
  run_dirs (world o') = run_dirs (world o) ∧
  trace (world o') = trace (world o) ++ [EvCall CConnect; EvCall (CUse "preflight" ""); EvCall CDisconnect].
Proof.
  intros Hk Hbs Hb1 Hb2 Hrep Hr. destruct (install_restore o Hk) as (oa & Hi & Hca & _ & Hres).
  destruct (inworld connect oa) as [rc ob] eqn:Hc. pose proof Hc as Hc'. unfold connect in Hc'.
  apply inworld_perform_inv in Hc' as (Hd1 & _ & Ht1 & -> & Hbk & _). rewrite Hca in *. rewrite Hb1 in *. cbn [fst snd] in *.
  destruct (inctx (use "preflight" "" (drv_preflight (e_hyp env) bs)) ob) as [rp oc] eqn:Hp. pose proof Hp as Hp'.
  apply (inworld_perform_inv _ (λ _, CUse "preflight" "")) in Hp' as (Hd2 & _ & Ht2 & -> & Hbk2 & _). rewrite Hbk, Hb2 in *. cbn [fst snd] in *.
  destruct (close life oc) as [r4 o4] eqn:Hcl.
  destruct (close_inv oc o oa r4 o4) as (_ & Ht4 & Hr4 & Hd4); [done| |done|].
  { rewrite (keeps_inctx sigs (λ _ _, eq_refl) _ _ _ _ Hp). eapply keeps_inctx; [done|exact Hc]. }
  set (e0 := Exn PreflightError (f_code <$> findings rep)).
  assert (preflight_and_initialize life ob = (Raise e0, oc)) as Hpre.
  { unfold preflight_and_initialize. rewrite Hbs. erewrite act_bind_Ok by reflexivity. erewrite act_bind_Ok by exact Hp.
    cbv zeta. unfold compatibility_findings, merged, clean. cbn [findings]. rewrite app_nil_r.
    by rewrite bool_decide_false by done. }
  assert (enter life str_lower digest16 repr_addr o = (Raise (match r4 with Ok _ => e0 | Raise e4 => e4 end), o4)) as He.
  { unfold enter. erewrite act_bind_Ok by exact Hi. erewrite act_bind_Ok by exact Hc. unfold on_error at 1, catch.
    erewrite act_bind_Raise by exact Hpre. cbn [any_exn]. unfold mbind at 1, act_bind at 1. rewrite Hcl. by destruct r4. }
  unfold run_tests, with_range in Hr. erewrite act_bind_Raise in Hr by exact He. injection Hr as <- <-.
  rewrite Ht4, Ht2, Ht1, Hd4, Hd2, Hd1, <-!app_assoc. rewrite Hbk2 in Hr4. rewrite <-Hr4. by destruct r4.
Qed.

Definition stamped (stamp : NodeRecord → option string) (s : State) : gset string :=
  list_to_set (nr_name <$> filter (λ n, is_Some (stamp n)) (Ledger.nodes s)).

Lemma seed_one_eq n (c : Ctx B Bld Com) :
  seed_one n c = (Ok (), set_marks
    ((if decide (is_Some (materialized_at n)) then {[ nr_name n ]} else ∅) ∪ materialized_nodes c)
    ((if decide (is_Some (realized_at n)) then {[ nr_name n ]} else ∅) ∪ realized_nodes c) c).
Proof.
  unfold seed_one. destruct c, (materialized_at n), (realized_at n);
    unfold set_marks, decide; cbn; by rewrite ?(left_id_L ∅ (∪)).
Qed.

Lemma seed_marks_eq s (c : Ctx B Bld Com) :
  seed_marks s c = (Ok (), set_marks (stamped materialized_at s ∪ materialized_nodes c)
    (stamped realized_at s ∪ realized_nodes c) c).
Proof.
  clear digest16 str_lower repr_addr. unfold seed_marks, stamped, forA. generalize (Ledger.nodes s) as l. intros l. revert c.
  induction l as [|n l IH]; intros c; [destruct c; cbn; by rewrite !(left_id_L ∅ (∪))|]. cbn [foldA].
  erewrite act_bind_Ok by apply seed_one_eq. rewrite IH, !filter_cons. f_equal. destruct c. unfold set_marks. cbn.
  f_equal; case_decide; cbn; set_solver.
Qed.

(** A resume picks up where the ledger says the run stopped: when opening succeeds,
    the run reopened belongs to this plan, and the nodes it will skip are exactly those
    the ledger has stamped. *)
Theorem resume_seeds_marks o o1 :
  known_handlers o → e_resume env = true → opening o = (Ok (), o1) →
  ∃ w s w', run_dirs w = run_dirs (world o) ∧ reopen (e_store env) w = (Ok s, w') ∧ world o1 = w' ∧
    plan_name s = e_plan_name env ∧
    materialized_nodes (o_ctx o1) = stamped materialized_at s ∪ materialized_nodes (o_ctx o) ∧
    realized_nodes (o_ctx o1) = stamped realized_at s ∪ realized_nodes (o_ctx o).
Proof.
  intros Hk Hres Hop. destruct (install_restore o Hk) as (oa & Hi & Hca & _). unfold opening in Hop.
  erewrite act_bind_Ok in Hop by exact Hi. apply act_bind_inv in Hop as [([] & ob & Hc & Hp)|(e & _ & [=])].
  unfold connect in Hc. apply inworld_perform_inv in Hc as (Hd1 & _ & _ & _ & _ & Hob).
  unfold preflight_and_initialize in Hp. apply act_bind_inv in Hp as [(bs & ob' & [= _ <-] & Hp)|(e & _ & [=])].
  apply act_bind_inv in Hp as [(rep & oc & Hpf & Hp)|(e & _ & [=])].
  apply (inworld_perform_inv _ (λ _, CUse "preflight" "")) in Hpf as (Hd2 & _ & _ & _ & _ & Hoc).
  cbv zeta in Hp. apply act_bind_inv in Hp as [([] & oc' & [= _ <-] & Hp)|(e & _ & [=])]. rewrite Hres in Hp.
  apply act_bind_inv in Hp as [(s & od & Hre & Hp)|(e & _ & [=])]. apply inworld_inv in Hre as (w' & Hre & Hod).
  apply act_bind_inv in Hp as [([] & od' & [= Hpl <-] & Hp)|(e & _ & [=])].
  unfold inctx in Hp. rewrite seed_marks_eq in Hp. injection Hp as <-.
  exists (world oc), s, w'. split_and!; [congruence|done| | | |].
  - by rewrite Hod.
  - unfold raise_when in Hpl. by destruct (bool_decide_reflect (plan_name s = e_plan_name env)).
  - cbn. rewrite Hod. cbn. rewrite Hoc. cbn. rewrite Hob. cbn. by rewrite Hca.
  - cbn. rewrite Hod. cbn. rewrite Hoc. cbn. rewrite Hob. cbn. by rewrite Hca.
Qed.
End Spec.

(** ** The lifecycle on a concrete plan

    The plan and the backend of the run demonstration, under the whole lifecycle. *)

Module LifecycleDemo.
Import BuildDemo RunDemo.

Definition blocker : PreflightFinding := MkFinding 1 "no-bridge" ["br0"] false.

#[export] Instance demo_preflight : Preflights Bad () comm_kind := λ _ _ bad,
  (Ok (from_checks [evaluate "bridges" (if decide ("preflight" ∈ bad) then [blocker] else []) None]), bad).

Lemma life_uninterrupted : uninterrupted (B := Bad).
Proof.
  intros r b e b'. unfold destroy_resource, destroy_kind, fails, pool_backend_of, raise, mret, result_ret.
  cbn. unfold fail_only, raise. repeat case_match; intros; simplify_eq; done.
Qed.

Definition life (resume : bool) : Life () comm_kind :=
  MkLife (env resume) graph false "d" "u" false (λ _, true).
Definition table : gmap string sig_handler := {[ "SIGTERM" := SIG_DFL; "SIGHUP" := SIG_IGN ]}.
Definition orch (dirs : gmap string RunDir) (bad : Bad) : Orch Bad () comm_kind :=
  MkOrch (empty_ctx (MkWorld dirs [] "t1" 7 bad []) [Seed ["web"]]) None false None table.

Definition passing (n : string) : Test (B:=Bad) (Com:=comm_kind) := MkTest n (λ _ b, (MkTestRun (Ok ()) false 1 "", b)).
Definition failing (n : string) : Test (B:=Bad) (Com:=comm_kind) :=
  MkTest n (λ _ b, (MkTestRun (raise AssertionError []) false 2 "boom", b)).
Definition tests : list (Test (B:=Bad) (Com:=comm_kind)) := [passing "t1"; failing "t2"; passing "t3"].

Definition session (ff lof : bool) (bad : Bad) : res (list TestResult) * Orch Bad () comm_kind :=
  run_tests (life false) id id sa_addr tests ff lof (orch ∅ bad).

Lemma known bad dirs : known_handlers (life false) (orch dirs bad).
Proof. intros sig Hsig. cbn in Hsig. vm_compute. by repeat (apply elem_of_cons in Hsig as [->|Hsig]; [eexists; reflexivity|]); apply not_elem_of_nil in Hsig. Qed.

(** Three tests, one failing; everything is torn down and the run's directory gone. *)
Example session_runs :
  (res_passed <$> match (session false false []).1 with Ok l => l | Raise _ => [] end) = [true; false; true] ∧
  run_dirs (cx_world (o_ctx (session false false []).2)) !! "r1" = None.
Proof. vm_compute. auto. Qed.

Example session_stops :
  (res_name <$> match (session true false []).1 with Ok l => l | Raise _ => [] end) = ["t1"; "t2"].
Proof. vm_compute. auto. Qed.

Example session_leaks :
  length (still_listed (cx_world (o_ctx (session false true []).2))) = 11 ∧
  phase <$> state_at (cx_world (o_ctx (session false true []).2)) "r1" = Some PHASE_LEAKED.
Proof. vm_compute. auto. Qed.

Lemma run_releases_witness :
  let o' := (session false false ["create_vm"]).2 in
  o_signals o' = table ∧ last (trace (cx_world (o_ctx o'))) = Some (EvCall CDisconnect).
Proof.
  cbv zeta. destruct (run_releases (life false) id id sa_addr tests false false (orch ∅ ["create_vm"])
    (session false false ["create_vm"]).1 (session false false ["create_vm"]).2 (known _ _)
    (surjective_pairing _)) as [(e & _ & He)|Hr].
  - vm_compute in He. discriminate He.
  - exact Hr.
Defined.

(** The state when bring-up fails at the VM's creation. *)
Definition opened : Orch Bad () comm_kind := (opening (life false) (orch ∅ ["create_vm"])).2.
Definition stopped : res (list TestResult) * Orch Bad () comm_kind :=
  work (life false) id id sa_addr tests false false opened.
Definition left_over : State := default start_state (state_at (cx_world (o_ctx stopped.2)) "r1").

Lemma range_is_torn_down_witness :
  length (resources left_over) = 6 ∧
  ∃ t (b : Bad), trace (cx_world (o_ctx (session false false ["create_vm"]).2)) =
      trace (cx_world (o_ctx stopped.2)) ++ t ++ [EvCall CDisconnect] ∧
    (destroy_calls t = resource_id <$> reverse (resources left_over) ∨ true ∈ @nil bool ∧ destroy_calls t = []).
Proof.
  split; [vm_compute; reflexivity|].
  destruct (range_is_torn_down (life false) id id sa_addr tests false false (orch ∅ ["create_vm"])
    (session false false ["create_vm"]).1 (session false false ["create_vm"]).2 opened stopped.1 stopped.2 left_over)
    as (t & b & Ht & Hd).
  - exact life_uninterrupted.
  - apply known.
  - reflexivity.
  - apply surjective_pairing.
  - vm_compute. reflexivity.
  - apply surjective_pairing.
  - vm_compute. reflexivity.
  - exists t, b. split; [exact Ht|]. vm_compute (o_leak stopped.2) in Hd. destruct Hd as [Hd _].
    vm_compute (faults (cx_world (o_ctx stopped.2))) in Hd. exact Hd.
Defined.

Definition built (bad : Bad) : res () * Orch Bad () comm_kind := build (life false) id id sa_addr (orch ∅ bad).
Definition walked (bad : Bad) : res () * Orch Bad () comm_kind :=
  run_materialize (life false) id id sa_addr (opening (life false) (orch ∅ bad)).2.
Definition in_ledger (bad : Bad) : State := default start_state (state_at (cx_world (o_ctx (walked bad).2)) "r1").

Lemma build_is_torn_down_witness :
  length (resources (in_ledger ["create_network"])) = 3 ∧
  ∃ t (b : Bad), trace (cx_world (o_ctx (built ["create_network"]).2)) =
      trace (cx_world (o_ctx (walked ["create_network"]).2)) ++ t ++ [EvCall CDisconnect] ∧
    o_signals (built ["create_network"]).2 = table.
Proof.
  split; [vm_compute; reflexivity|].
  destruct (build_is_torn_down (life false) id id sa_addr (orch ∅ ["create_network"])
    (built ["create_network"]).1 (built ["create_network"]).2 (opening (life false) (orch ∅ ["create_network"])).2
    (walked ["create_network"]).1 (walked ["create_network"]).2 (in_ledger ["create_network"])) as (t & b & Ht & Hs & _).
  - exact life_uninterrupted.
  - apply known.
  - apply surjective_pairing.
  - vm_compute. reflexivity.
  - apply surjective_pairing.
  - intros e. vm_compute. intros [= <-]. reflexivity.
  - vm_compute. reflexivity.
  - exists t, b. split; [exact Ht|exact Hs].
Defined.

Lemma blocked_plan_touches_nothing_witness :
  let '(r, o') := session false false ["preflight"] in
  r = raise PreflightError ["no-bridge"] ∧ run_dirs (cx_world (o_ctx o')) = ∅ ∧
  trace (cx_world (o_ctx o')) = [] ++ [EvCall CConnect; EvCall (CUse "preflight" ""); EvCall CDisconnect].
Proof.
  destruct (session false false ["preflight"]) as [r o'] eqn:E.
  destruct default_build_switch as [sw|e] eqn:Hsw; [|vm_compute in Hsw; discriminate Hsw].
  destruct (blocked_plan_touches_nothing (life false) id id sa_addr tests false false (orch ∅ ["preflight"]) r o'
    (Some sw) (from_checks [evaluate "bridges" [blocker] None]) ["preflight"] ["preflight"]) as (H1 & H2 & H3).
  - apply known.
  - vm_compute in Hsw |- *. injection Hsw as <-. reflexivity.
  - reflexivity.
  - reflexivity.
  - discriminate.
  - exact E.
  - split; [rewrite H1; vm_compute; reflexivity|]. split; [exact H2|exact H3].
Defined.

(** A run that died after its pool was realized. *)
Definition dead_state : State :=
  MkState SCHEMA_VERSION "r1" "demo" "d" "u" PHASE_RUN "t0" [] [MkNodeRecord "pool:p1" (Some "t0") (Some "t0"); MkNodeRecord "vm:web" (Some "t0") None].
Definition dead_dirs : gmap string RunDir :=
  {[ "r1" := MkRunDir {[ state_json := Doc (state_to_json dead_state); state_lock := Text "" ]} None ]}.

Lemma resume_seeds_marks_witness :
  let o1 := (opening (life true) (orch dead_dirs [])).2 in
  realized_nodes (o_ctx o1) = {["pool:p1"]} ∧
  ∃ (w : World Bad) s w', run_dirs w = dead_dirs ∧ reopen (e_store (env true)) w = (Ok s, w') ∧
    realized_nodes (o_ctx o1) = stamped realized_at s ∪ ∅.
Proof.
  cbv zeta. split; [vm_compute; reflexivity|].
  destruct (resume_seeds_marks (life true) (orch dead_dirs []) (opening (life true) (orch dead_dirs [])).2)
    as (w & s & w' & H1 & H2 & _ & _ & _ & H3).
  - apply known.
  - reflexivity.
  - vm_compute. reflexivity.
  - exists w, s, w'. split; [exact H1|]. split; [exact H2|]. exact H3.
Defined.

(** An interrupt during the materialize walk of [build] skips its teardown: the pool,
    switch and network stay, listed in the ledger, with the lock of the run held. *)
Lemma build_interrupt_skips_teardown :
  (built ["^create_network"]).1 = raise KeyboardInterrupt ["create_network"] ∧
  reclaimed (trace (cx_world (o_ctx (built ["^create_network"]).2))) = [] ∧
  length (still_listed (cx_world (o_ctx (built ["^create_network"]).2))) = 3 ∧
  holder_at (cx_world (o_ctx (built ["^create_network"]).2)) "r1" = Some 1.
Proof. vm_compute. auto. Qed.

(** A connect that fails leaves the process's handlers rewired. *)
Lemma failed_connect_keeps_handlers :
  o_signals (session false false ["connect"]).2 !! "SIGTERM" = Some (PyHandler "testrange").
Proof. vm_compute. reflexivity. Qed.

(** A resume refused because the plan differs leaves the run's lock held. *)
Lemma refused_resume_keeps_lock :
  let dirs := {[ "r1" := MkRunDir {[ state_json := Doc (state_to_json
    (MkState SCHEMA_VERSION "r1" "other" "d" "u" PHASE_RUN "t0" [] [])); state_lock := Text "" ]} None ]} in
  let '(r, o') := run_tests (life true) id id sa_addr tests false false (orch dirs []) in
  r = raise StateError ["r1"; "other"; "demo"] ∧ holder_at (cx_world (o_ctx o')) "r1" = Some 1.
Proof. vm_compute. auto. Qed.
End LifecycleDemo.
