(* ===== verification/Cli.v ===== *)
(** * The command line ([testrange/cli.py])

    The verbs of [testrange] as they compose the library: what each loads, which calls
    it makes, which exceptions it turns into which exit code, and the data it prints.
    A verb gives its exit code and what it wrote to stdout ([None] when it only wrote an
    error); what escapes it is a traceback.  The layout of the printed text and the live
    dashboard are not modelled. *)

From S2P Require Import Prelude Exceptions Eff PyBytes PyDict Sha256 CacheNames CacheDisk LocalCache HttpCache CacheFrame CacheSpec CacheOps.
From S2P Require Import Url Conn Naming BuildGraph CliGraph Devices Hypervisor Ledger Store StoreSpec Cleanup TeardownSpec CleanupRun BuildResult BuildResultSpec.
From S2P Require Import Profile Context Preflight VmBuild NodeHooks Lifecycle RecordSpec RunSpec LifecycleSpec.
From stdpp Require Import pretty options.

(** ** Exit codes *)

Inductive Exit : Type := OK | FAILURE | USAGE | CLEANUP_ERRORS | INTERRUPTED.

Definition exit_code (x : Exit) : Z :=
  match x with OK => 0 | FAILURE => 1 | USAGE => 2 | CLEANUP_ERRORS => 3 | INTERRUPTED => 130 end.

Global Instance Exit_eq_dec : EqDecision Exit.
Proof. solve_decision. Defined.

(** The [except] clauses of a verb, in order; the first that matches gives the code. *)
Fixpoint handler_of (clauses : list (exc_class * Exit)) (e : exn) : option Exit :=
  match clauses with
  | [] => None
  | (c, x) :: clauses => if isinstance e c then Some x else handler_of clauses e
  end.

(** The code of a verb, and what it printed. *)
Abbreviation verb W X := (act W (Exit * option X)).

Definition try_verb {W X} (clauses : list (exc_class * Exit)) (m : verb W X) : verb W X := λ w,
  match m w with
  | (Raise e, w') => match handler_of clauses e with Some x => (Ok (x, None), w') | None => (Raise e, w') end
  | done => done
  end.

(** [_err(...); return Exit.USAGE], and [sys.exit(Exit.USAGE)] where no handler is active *)
Definition usage {W X} : verb W X := mret (USAGE, None).

(** [int(rc or 0)] of what a verb returned *)
Definition main_code {X} (r : Exit * option X) : Z := exit_code r.1.

(** ** Arguments *)

Definition COLON : ascii := ":"%char.
Definition DEFAULT_PROFILE_FILE : string := "connect.toml".

(** [(filename, name)] of a [--profile] value *)
Definition parse_profile_spec (spec : string) : string * string :=
  let '(filename, found, name) := rpartition COLON (b spec) in
  if found : bool then (if decide (filename = []) then DEFAULT_PROFILE_FILE else str filename, str name)
  else (DEFAULT_PROFILE_FILE, spec).

(** [if not spec: return None ... except ProfileError: sys.exit(USAGE)] *)
Definition with_profile {W X P} (by_scheme : gmap string (table → res P)) (read : string → toml_file)
    (spec : option string) (k : option P → verb W X) : verb W X :=
  match spec with
  | None | Some "" => k None
  | Some spec =>
      let '(path, name) := parse_profile_spec spec in
      match load_profile by_scheme path (read path) name with
      | Ok p => k (Some p)
      | Raise e => if isinstance e ProfileError then usage else lift (Raise e)
      end
  end.

(** [_jobs_arg]: an [ArgumentTypeError] is [None]. *)
Definition jobs_arg (value : string) : option Z :=
  match Url.py_int (b value) with
  | Ok n => if (n <? 0)%Z then None else Some n
  | Raise _ => None
  end.

(** ** Plans *)

(** A parameter of a signature, and whether it has a default. *)
Inductive param_kind : Type := Positional | VarPositional | KeywordOnly | VarKeyword.
Record param : Type := MkParam { pk : param_kind; has_default : bool }.

(** A parameter that may be left unbound. *)
Definition optional_param (p : param) : bool :=
  match pk p with VarPositional | VarKeyword => true | Positional | KeywordOnly => has_default p end.

(** [sig.bind(x)] succeeds; [None] is a callable that cannot be introspected. *)
Definition accepts_one_arg (sig : option (list param)) : bool :=
  match sig with
  | None => true
  | Some [] => false
  | Some (p :: ps) =>
      match pk p with Positional | VarPositional => forallb optional_param ps | KeywordOnly | VarKeyword => false end
  end.

(** An entry of [TESTS]: whether it is callable, its signature, the function. *)
Record test_entry (T : Type) : Type := MkEntry { te_callable : bool; te_sig : option (list param); te_fn : T }.
Arguments MkEntry {T} _ _ _.
Arguments te_callable {T} _.
Arguments te_sig {T} _.
Arguments te_fn {T} _.

(** The value of [TESTS]; [None] is one that is not a list. *)
Definition validate_tests {T} (raw : option (list (test_entry T))) : option (list T) :=
  match raw with
  | None => None
  | Some l => if forallb (λ t, te_callable t && accepts_one_arg (te_sig t)) l then Some (te_fn <$> l) else None
  end.

(** A plan file: whether it exists, whether a loader was found, what executing it gives:
    its [PLAN] when that is a [Plan], and its [TESTS] ([[]] when it has none). *)
Record PlanFile (P T : Type) : Type := MkPlanFile {
  pf_exists : bool;
  pf_loader : bool;
  pf_exec : res (option P * option (list (test_entry T)));
}.
Arguments MkPlanFile {P T} _ _ _.
Arguments pf_exists {P T} _.
Arguments pf_loader {P T} _.
Arguments pf_exec {P T} _.

Definition with_plan {W X P T} (f : PlanFile P T) (k : P → list T → verb W X) : verb W X :=
  if negb (pf_exists f) then usage
  else if negb (pf_loader f) then usage
  else match pf_exec f with
    | Raise e => if isinstance e TestRangeError then usage else if is_exception e then usage else lift (Raise e)
    | Ok (None, _) => usage
    | Ok (Some plan, raw) => match validate_tests raw with None => usage | Some tests => k plan tests end
    end.

(** ** [testrange cleanup] *)

Record CleanupArgs : Type := MkCleanupArgs {
  a_forget : bool;
  a_all : bool;
  a_list : bool;
  a_dry_run : bool;
  a_run_id : option string;
}.

Inductive CleanupOut : Type :=
  | Forgot (run : string) (dropped : list string)
  | RunList (runs : list RunInfo)
  | NoRuns
  | Cleaned (results : list CleanupResult).

Definition cleanup_clauses : list (exc_class * Exit) :=
  [(StateLockedError, FAILURE); (StateError, USAGE); (KeyboardInterrupt, INTERRUPTED); (TestRangeError, CLEANUP_ERRORS)].

(** [if not args.run_id] *)
Definition given_run (a : CleanupArgs) : option string :=
  match a_run_id a with Some "" => None | r => r end.

Definition has_errors (r : CleanupResult) : bool := negb (bool_decide (errors r = [])).

(** The code of a cleanup. *)
Definition cleaned (rs : list CleanupResult) : Exit * option CleanupOut :=
  (if existsb has_errors rs then CLEANUP_ERRORS else OK, Some (Cleaned rs)).

Section CleanupVerb.
Context `{Driver B}.

(** [fresh] is the lock handle of the stores the verb opens. *)
Definition cleanup_verb (fresh : nat) (a : CleanupArgs) : verb (World B) CleanupOut :=
  try_verb cleanup_clauses
    (if a_forget a then
       if a_all a || a_list a || a_dry_run a then usage
       else match given_run a with
         | None => usage
         | Some run => dropped ← forget_run (MkStore run fresh); mret (OK, Some (Forgot run dropped))
         end
     else if a_list a then runs ← list_runs fresh; mret (OK, Some (RunList runs))
     else if a_all a then
       results ← cleanup_all fresh (a_dry_run a);
       match results with [] => mret (OK, Some NoRuns) | _ => mret (cleaned results) end
     else match given_run a with
       | None => usage
       | Some run => r ← cleanup_run (MkStore run fresh) (a_dry_run a); mret (cleaned [r])
       end).
End CleanupVerb.

(** ** [testrange build], [run], [repl], [preflight] and [graph] *)

Definition build_clauses : list (exc_class * Exit) :=
  [(DriverError, USAGE); (PreflightError, USAGE); (CacheMissError, USAGE); (CacheError, FAILURE);
   (BuildFailedError, FAILURE); (BuilderError, FAILURE); (OrchestratorError, FAILURE); (KeyboardInterrupt, INTERRUPTED)].
Definition run_clauses : list (exc_class * Exit) :=
  [(DriverError, USAGE); (BuildRequiredError, USAGE); (StateLockedError, FAILURE); (StateError, USAGE);
   (PreflightError, USAGE); (CacheMissError, USAGE); (CacheError, FAILURE); (BuildFailedError, FAILURE);
   (BuilderError, FAILURE); (OrchestratorError, FAILURE); (KeyboardInterrupt, INTERRUPTED)].
Definition repl_clauses : list (exc_class * Exit) :=
  [(DriverError, USAGE); (PreflightError, USAGE); (BuilderError, FAILURE); (OrchestratorError, FAILURE);
   (KeyboardInterrupt, INTERRUPTED)].
Definition preflight_clauses : list (exc_class * Exit) := [(DriverError, USAGE); (KeyboardInterrupt, INTERRUPTED)].
Definition graph_clauses : list (exc_class * Exit) := [(DriverError, USAGE); (CacheMissError, FAILURE); (CacheError, FAILURE)].

(** What [run] prints: the report lines of these results, and the tally. *)
Record RunOut : Type := MkRunOut { printed : list TestResult; tally : option (nat * nat) }.

Definition run_out (dashboard_active : bool) (results : list TestResult) : RunOut :=
  let passed := length (filter (λ r, res_passed r = true) results) in
  MkRunOut (if dashboard_active then filter (λ r, res_passed r = false) results else results)
    (if dashboard_active && negb (bool_decide (results = [])) then Some (passed, length results - passed) else None).

Inductive GraphOut : Type :=
  | Dot (lines : list string)
  | Order (waves : list (list string))
  | Forest (forest : list tree) (nodes edges waves : nat).

Section Ranges.
Context `{Provider B, !Cache B, !Guests B Bld Com, Unicode, !Preflights B Bld Com}.
Context {D : Type} (uri_attr : D → option string) (driver_name_of : D → string) (registry : Registry D).
Variables (str_lower : pystr → pystr) (digest16 : string → string) (repr_addr : StaticAddr → string).
(** The profile classes and the files of the current directory; the class of the plan's
    hypervisor entry; whether the process is on Windows; the
    signals [signal.signal] accepts; the run id and lock handle a fresh run gets. *)
Variables (by_scheme : gmap string (table → res (BackendProfile D))) (read : string → toml_file).
Variables (cls : string) (win32 : bool) (can_signal : string → bool) (fresh : string * nat).

(** The process: the world and its signal handlers. *)
Abbreviation Proc := (World B * gmap string sig_handler)%type.
Abbreviation O := (act (Orch B Bld Com)).

(** The options of a run that may resume another; the polls are those of [o]. *)
Definition run_options (require_cache : bool) (resume_run_id : option string) (o : Options) : Options :=
  MkOptions resume_run_id require_cache (bool_decide (is_Some resume_run_id))
    (op_sidecar_polls o) (op_agent_polls o) (op_lease_polls o) (op_poweroff_polls o).

(** [Orchestrator(plan, ...)] *)
Definition construct (plan : Plan Bld Com) (profile : option (BackendProfile D)) (o : Options)
    : act Proc (Life Bld Com * Orch B Bld Com) := λ p,
  (new_orchestrator uri_attr driver_name_of registry cls plan profile o fresh win32 can_signal p.1 p.2, p).

(** A method of the orchestrator, in the process it was made in. *)
Definition on_orch {A} (o : Orch B Bld Com) (m : O A) : act Proc A := λ _,
  let '(r, o') := m o in (r, (cx_world (o_ctx o'), o_signals o')).

(** [build_range] *)
Definition build_range (plan : Plan Bld Com) (profile : option (BackendProfile D)) (o : Options) : act Proc string :=
  '(life, orch) ← construct plan profile (run_options false None o);
  on_orch orch (build life str_lower digest16 repr_addr);;
  mret (e_run_id (lf_env life)).

Definition build_verb (f : PlanFile (Plan Bld Com) (Test (B:=B) (Com:=Com))) (spec : option string)
    (o : Options) : verb Proc string :=
  with_plan f (λ plan _, with_profile by_scheme read spec (λ profile,
    try_verb build_clauses (run_id ← build_range plan profile o; mret (OK, Some run_id)))).

(** [run_tests], from the construction on *)
Definition run_range (tests : list (Test (B:=B) (Com:=Com))) (plan : Plan Bld Com) (profile : option (BackendProfile D))
    (o : Options) (require_cache : bool) (resume_run_id : option string) (fail_fast leak_on_failure : bool)
    : act Proc (list TestResult) :=
  '(life, orch) ← construct plan profile (run_options require_cache resume_run_id o);
  on_orch orch (run_tests life str_lower digest16 repr_addr tests fail_fast leak_on_failure).

Definition run_verb (f : PlanFile (Plan Bld Com) (Test (B:=B) (Com:=Com))) (spec : option string)
    (o : Options) (require_cache : bool) (resume : option string) (fail_fast leak_on_failure dashboard_active : bool)
    : verb Proc RunOut :=
  with_plan f (λ plan tests, with_profile by_scheme read spec (λ profile,
    try_verb run_clauses
      (results ← run_range tests plan profile o require_cache resume fail_fast leak_on_failure;
       mret (if forallb res_passed results then OK else FAILURE, Some (run_out dashboard_active results))))).

(** [repl]; [session] is what the user types at the prompt.  What it prints of the plan
    beforehand is not modelled. *)
Definition repl_verb (f : PlanFile (Plan Bld Com) (Test (B:=B) (Com:=Com))) (spec : option string)
    (o : Options) (session : option (OrchestratorHandle Com) → O ()) : verb Proc () :=
  with_plan f (λ plan _, with_profile by_scheme read spec (λ profile,
    c ← catch (lo ← construct plan profile (run_options false None o); mret (Some lo)) (λ e, isinstance e DriverError) (λ _, mret None);
    match (c : option (Life Bld Com * Orch B Bld Com)) with
    | None => usage
    | Some (life, orch) =>
        try_verb repl_clauses (on_orch orch (with_range life str_lower digest16 repr_addr session);; mret (OK, Some ()))
    end)).

(** Code that leaves the signal handlers alone. *)
Definition on_world {A} (m : act (World B) A) : act Proc A := λ p, let '(r, w) := m p.1 in (r, (w, p.2)).

(** The sweep of [preflight] on a connected driver. *)
Definition sweep (h : Hypervisor Bld Com) (build_switch : Switch) : act (World B) PreflightReport :=
  connect;;
  finally (perform (drv_preflight h (Some build_switch)) (λ _, CUse "preflight" "")) disconnect.

(** [preflight]: the report it prints. *)
Definition preflight_verb (f : PlanFile (Plan Bld Com) (Test (B:=B) (Com:=Com))) (spec : option string)
    : verb Proc PreflightReport :=
  with_plan f (λ plan _, with_profile by_scheme read spec (λ profile,
    c ← catch (rb ← lift (resolve_backend uri_attr registry cls profile); mret (Some rb))
          (λ e, isinstance e DriverError) (λ _, mret None);
    match (c : option (ResolvedBackend D)) with
    | None => usage
    | Some _ =>
        let h := p_hypervisor plan in
        build_switch ← lift (resolve_build_switch (Hypervisor.build_switch h));
        on_world (try_verb preflight_clauses
          (report ← sweep h build_switch;
           let report := merged report (from_checks [evaluate "portability-lint" (compatibility_findings h ()) None]) in
           mret (if clean report then OK else USAGE, Some report)))
    end)).

(** [_inspect_ctx]: nothing is fetched and no lease is awaited; [o] gives the polls the
    key walk never makes. *)
Definition inspect_env (plan : Plan Bld Com) (rb : ResolvedBackend D) (o : Options) (addrs : gmap string NetworkAddressing)
    : Env Bld Com :=
  MkEnv (p_hypervisor plan) (MkStore "inspect" fresh.2) "inspect" (p_name plan) false false addrs
    (rb_uplink_addrs rb) (op_sidecar_polls o) (op_agent_polls o) 0 (op_poweroff_polls o).

(** The keys and the VMs a build would miss. *)
Definition graph_keys (plan : Plan Bld Com) (profile : BackendProfile D) (o : Options)
    : act (World B) (gmap string string * gset string) := λ w,
  match resolve_backend uri_attr registry cls (Some profile) with
  | Raise e => (Raise e, w)
  | Ok rb =>
      match addressing_of (p_hypervisor plan) with
      | Raise e => (Raise e, w)
      | Ok addrs =>
          let env := inspect_env plan rb o addrs in
          let '(r, c) := foldA (key_node env digest16 repr_addr (p_graph plan)) ∅ (topological_order (p_graph plan))
            (empty_ctx w []) in
          (keys ← r;
           mret (keys, list_to_set ((λ p, "vm:" +:+ vm_name (bp_vm p)) <$> misses_of (vm_probes c))), cx_world c)
      end
  end.

Definition graph_verb (f : PlanFile (Plan Bld Com) (Test (B:=B) (Com:=Com))) (spec : option string)
    (o : Options) (dot order cache_keys : bool) : verb (World B) GraphOut :=
  with_plan f (λ plan _,
    let g := p_graph plan in
    let render keys misses : verb (World B) GraphOut :=
      forest ← lift (graph_tree g keys misses cache_keys);
      mret (OK, Some (Forest forest (length (bg_nodes g)) (length (bg_edges g)) (length (waves g)))) in
    if dot then mret (OK, Some (Dot (render_dot g)))
    else if order then mret (OK, Some (Order ((λ wave : list (PlanNode Bld Com), node_name <$> wave) <$> waves g)))
    else if cache_keys then
      with_profile by_scheme read spec (λ profile,
        match profile with
        | None => usage
        | Some p => λ w,
            match graph_keys plan p o w with
            | (Ok (keys, misses), w') => render keys misses w'
            | (Raise e, w') => match handler_of graph_clauses e with Some x => (Ok (x, None), w') | None => (Raise e, w') end
            end
        end)
    else render ∅ ∅).
End Ranges.

(** ** [testrange cache] *)

(** [round(a / d)], ties to even *)
Definition round_even (a d : Z) : Z :=
  let q := (a / d)%Z in
  let r := (2 * (a mod d))%Z in
  if (r <? d)%Z then q else if (d <? r)%Z then (q + 1)%Z else if Z.even q then q else (q + 1)%Z.

(** [float(n)]: 53 significant bits *)
Definition to_float (n : Z) : Z :=
  let k := (Z.log2 (Z.abs n) - 52)%Z in
  if (k <=? 0)%Z then n else (round_even n (2 ^ k) * 2 ^ k)%Z.

(** [f"{f / scale:.1f}"], of a positive size *)
Definition tenths (f scale : Z) : Z := round_even (10 * f) scale.
Definition one_decimal (f scale : Z) : string :=
  pretty (tenths f scale / 10)%Z +:+ "." +:+ pretty (tenths f scale mod 10)%Z.

(** Dividing by 1024 is exact, so the size stays [f / scale]. *)
Fixpoint in_units (f scale : Z) (units : list string) : string :=
  match units with
  | [] => one_decimal f scale +:+ " PiB"
  | unit :: units =>
      if (f <? 1024 * scale)%Z then one_decimal f scale +:+ " " +:+ unit else in_units f (1024 * scale) units
  end.
Definition format_size (n : Z) : string :=
  let f := to_float n in
  if (f <? 1024)%Z then pretty f +:+ " B" else in_units f 1024 ["KiB"; "MiB"; "GiB"; "TiB"].

Definition short_sha (info : CacheEntryInfo) : string := String.substring 0 16 (LocalCache.sha info).

Inductive CacheOut : Type :=
  | Digest (sha : string)
  | Entries (l : list CacheEntryInfo)
  | Deleted (short : string)
  | NamesNow (short : string) (ns : list string)
  | Pushed (short : string)
  | Pulled (short : string)
  | NothingToPurge
  | WouldPurge (l : list CacheEntryInfo) (total : string) (hint : bool)
  | Purged (n : nat) (total : string).

Definition cache_clauses : list (exc_class * Exit) :=
  [(CacheMissError, USAGE); (CacheError, FAILURE); (TestRangeError, FAILURE)].

Section CacheVerbs.
Context {R : Type} {HT : Http R} {PE : PyEnv}.
(** Whether [requests] is installed, and the value of [--cache]. *)
Variables (requests : bool) (cache_url : option string).

(** [_build_manager]: the base URL, and whether there is an HTTP tier. *)
Definition build_manager : res (string * bool) :=
  match cache_url with
  | None | Some "" => Ok ("", false)
  | Some url => base ← HttpCache_init url; Ok (base, true)
  end.

Definition cache_verb (m : string → bool → verb (CWorld R) CacheOut) : verb (CWorld R) CacheOut :=
  try_verb cache_clauses ('(base, http) ← lift build_manager; m base http).

Definition cache_add_verb (source : string) (name descr : option string) : verb (CWorld R) CacheOut :=
  cache_verb (λ base http, info ← manager_add base requests http source name descr;
    mret (OK, Some (Digest (LocalCache.sha info)))).
Definition cache_list_verb : verb (CWorld R) CacheOut :=
  cache_verb (λ _ _, l ← list_entries; mret (OK, Some (Entries l))).
Definition cache_del_verb (identifier : string) : verb (CWorld R) CacheOut :=
  cache_verb (λ base http, info ← manager_delete base requests http identifier;
    mret (OK, Some (Deleted (short_sha info)))).
Definition cache_rename_verb (identifier new_name : string) : verb (CWorld R) CacheOut :=
  cache_verb (λ base http, info ← manager_add_name base requests http identifier new_name;
    mret (OK, Some (NamesNow (short_sha info) (LocalCache.names info)))).
Definition cache_forget_name_verb (name : string) : verb (CWorld R) CacheOut :=
  cache_verb (λ base http, info ← manager_forget_name base requests http name;
    mret (OK, Some (NamesNow (short_sha info) (LocalCache.names info)))).
Definition cache_push_verb (identifier : string) : verb (CWorld R) CacheOut :=
  cache_verb (λ base http, info ← manager_push base requests http identifier;
    mret (OK, Some (Pushed (short_sha info)))).
Definition cache_pull_verb (identifier : string) : verb (CWorld R) CacheOut :=
  cache_verb (λ base http, info ← manager_pull base requests http identifier;
    mret (OK, Some (Pulled (short_sha info)))).

Definition cache_purge_verb (dry_run yes : bool) : verb (CWorld R) CacheOut :=
  cache_verb (λ _ _,
    entries ← list_entries;
    if decide (entries = []) then mret (OK, Some NothingToPurge)
    else
      let total := format_size (sum_Z (entry_size <$> entries)) in
      if dry_run || negb yes then mret (OK, Some (WouldPurge entries total (negb dry_run)))
      else removed ← manager_purge; mret (OK, Some (Purged (length removed) total))).
End CacheVerbs.

(** ** What the verbs guarantee *)

Lemma try_verb_Some {W X} clauses (m : verb W X) w code out w' :
  try_verb clauses m w = (Ok (code, Some out), w') ↔ m w = (Ok (code, Some out), w').
Proof.
  unfold try_verb. destruct (m w) as [[x|e] w1]; [done|]. split; [|done]. destruct (handler_of clauses e); intros [=].
Qed.

(** What escapes a verb is in none of the classes it catches. *)
Lemma try_verb_escapes {W X} clauses (m : verb W X) w e w' c x :
  try_verb clauses m w = (Raise e, w') → (c, x) ∈ clauses → isinstance e c = false.
Proof.
  intros H Hin. assert (handler_of clauses e = None) as Hn.
  { unfold try_verb in H. destruct (m w) as [[y|e1] w1]; [done|]. destruct (handler_of clauses e1) eqn:Hh; [done|]. congruence. }
  clear H. induction clauses as [|[c1 x1] cs IH]; [by apply not_elem_of_nil in Hin|].
  cbn [handler_of] in Hn. destruct (isinstance e c1) eqn:Hc; [done|]. apply elem_of_cons in Hin as [[= -> ->]|Hin]; auto.
Qed.

(** *** Arguments *)

(** The split is at the last colon, so a name never has one and a file may. *)
Theorem profile_spec_splits file name :
  COLON ∉ b name →
  parse_profile_spec (file +:+ ":" +:+ name) = (if decide (file = "") then DEFAULT_PROFILE_FILE else file, name).
Proof.
  intros Hn. unfold parse_profile_spec. rewrite !chars_app.
  change (rpartition COLON _) with (rpartition COLON (b file ++ COLON :: b name)).
  rewrite rpartition_app by done. rewrite !str_b.
  f_equal. apply decide_ext, b_nil.
Qed.

(** *** Plans *)

(** A plan reaches the library exactly when its file loads, defines a [Plan] and every
    entry of [TESTS] can be called with the handle; everything else is a usage error. *)
Lemma with_plan_Some {W X P T} (f : PlanFile P T) (k : P → list T → verb W X) w code out w' :
  with_plan f k w = (Ok (code, Some out), w') ↔
  ∃ plan raw tests, pf_exists f = true ∧ pf_loader f = true ∧ pf_exec f = Ok (Some plan, raw) ∧
    validate_tests raw = Some tests ∧ k plan tests w = (Ok (code, Some out), w').
Proof.
  unfold with_plan, usage. destruct (pf_exists f), (pf_loader f); cbn [negb]; try (split; [intros [=]|naive_solver]).
  destruct (pf_exec f) as [[[plan|] raw]|e]; [|split; [intros [=]|naive_solver]|].
  - destruct (validate_tests raw) as [tests|] eqn:Hv; [|split; [intros [=]|intros (? & ? & ? & _ & _ & [= <- <-] & ? & _); congruence]].
    split; [intros Hk; by exists plan, raw, tests|intros (? & ? & ? & _ & _ & [= <- <-] & ? & ?)]. congruence.
  - split; [|naive_solver]. destruct (isinstance e TestRangeError); [intros [=]|]. destruct (is_exception e); intros [=].
Qed.

Lemma with_plan_ok {W X P T} (f : PlanFile P T) (k : P → list T → verb W X) plan raw tests :
  pf_exists f = true → pf_loader f = true → pf_exec f = Ok (Some plan, raw) → validate_tests raw = Some tests →
  with_plan f k = k plan tests.
Proof. intros H1 H2 H3 H4. unfold with_plan. by rewrite H1, H2, H3, H4. Qed.

(** The profile a verb goes on with, the same for every verb. *)
Lemma with_profile_Some {W X P} by_scheme read spec (k : option P → verb W X) w code out w' :
  with_profile by_scheme read spec k w = (Ok (code, Some out), w') →
  ∃ p, k p w = (Ok (code, Some out), w') ∧
    ∀ Y (k' : option P → verb W Y), with_profile by_scheme read spec k' = k' p.
Proof.
  unfold with_profile. destruct spec as [[|c s]|]; [by exists None| |by exists None].
  destruct (parse_profile_spec _) as [path name]. destruct (load_profile _ _ _ _) as [p|e]; [by exists (Some p)|].
  destruct (isinstance e ProfileError); intros [=].
Qed.

(** *** [cleanup] *)

Lemma no_failed_destroy t :
  failed_names t = [] → destroyed_names t = snd <$> destroy_calls t.
Proof.
  unfold failed_names, destroyed_names, destroy_calls. induction (omap destroy_call t) as [|[[k n] ok] l IH]; [done|].
  cbn. destruct ok; cbn; [|done]. intros H. by rewrite IH.
Qed.

Section CleanupHonest.
Context `{Driver B}.

Definition clean_one (run : string) : CleanupArgs := MkCleanupArgs false false false false (Some run).

(** C11: the exit code of [cleanup] tells what happened.  On a dead run with a non-empty
    ledger, whose backend can be reached, when no file operation fails and no destroy of
    the driver is interrupted, every resource of the ledger is attempted, newest first, and
    the verb exits 0 exactly when every destroy returned; then the ledger is gone.
    Otherwise it exits 3, naming every resource whose destroy raised, and the ledger keeps
    exactly the resources that were not destroyed. *)
Theorem cleanup_exit_truthful fresh run (w : World B) s rd :
  run ≠ "" → uninterrupted (B:=B) → reachable s (backend w) → faults w = [] → state_at w run = Some s →
  run_dirs w !! run = Some rd → holder rd = None → resources s ≠ [] →
  ∃ w' t res code, cleanup_verb fresh (clean_one run) w = (Ok (code, Some (Cleaned [res])), w') ∧
    trace w' = trace w ++ t ∧ destroy_calls t = resource_id <$> reverse (resources s) ∧
    (errors res).*1 = failed_names t ∧
    code = (if decide (failed_names t = []) then OK else CLEANUP_ERRORS) ∧
    (code = OK → state_at w' run = None) ∧
    (code = CLEANUP_ERRORS → ∃ s', state_at w' run = Some s' ∧
      resources s' = filter (λ r, backend_name r ∉ destroyed_names t) (resources s)).
Proof.
  intros Hrun Hun Hre Hnf Hs Hd Hh Hne.
  destruct (cleanup_run_accounts (MkStore run fresh) w s rd) as (w' & t & res & Hr & Ht & Hc & Hds & He & _ & Hend); try done.
  exists w', t, res, (if decide (failed_names t = []) then OK else CLEANUP_ERRORS).
  assert (has_errors res = negb (bool_decide (failed_names t = []))) as Hhas.
  { unfold has_errors. f_equal. apply bool_decide_ext. rewrite <-He. by destruct (errors res). }
  split_and!; try done.
  - unfold cleanup_verb, clean_one, given_run. cbn -[cleanup_run]. destruct run as [|c run]; [done|].
    unfold try_verb. erewrite act_bind_Ok by exact Hr. unfold cleaned. cbn -[has_errors]. rewrite Hhas, orb_false_r.
    by destruct (decide (failed_names t = [])); [rewrite bool_decide_true|rewrite bool_decide_false].
  - destruct (decide (failed_names t = [])) as [Hf|]; [|done]. intros _.
    assert (filter (λ r, backend_name r ∉ destroyed_names t) (resources s) = []) as Hleft.
    { apply elem_of_nil_inv. intros r [Hn Hin]%list_elem_of_filter. apply Hn. rewrite no_failed_destroy, Hc by done.
      rewrite <-list_fmap_compose. apply (list_elem_of_fmap_2 (snd ∘ resource_id) _ r). by apply elem_of_reverse. }
    assert (errors res = []) as Hnil by (rewrite Hf in He; by apply fmap_nil_inv in He).
    rewrite Hleft, Hnil in Hend. cbn in Hend. unfold state_at, file_at. rewrite Hend.
    case_decide; [done|]. cbn. unfold foreign_files. rewrite map_lookup_filter_None_2; [done|].
    right. intros x _ Hx. apply Hx. unfold own_files. set_solver.
  - destruct (decide (failed_names t = [])) as [|Hf]; [done|]. intros _. assert (errors res ≠ []) as Hne2 by (intros Hn; by rewrite Hn in He).
    destruct (filter _ (resources s)) as [|x l]; [destruct (errors res); [done|]|]; eexists; split; [exact Hend|done|exact Hend|done].
Qed.
End CleanupHonest.

(** *** [run] *)

Section RunHonest.
Context `{Provider B, !Cache B, !Guests B Bld Com, Unicode, !Preflights B Bld Com}.
Context {D : Type} (uri_attr : D → option string) (driver_name_of : D → string) (registry : Registry D).
Variables (str_lower : pystr → pystr) (digest16 : string → string) (repr_addr : StaticAddr → string).
Variables (by_scheme : gmap string (table → res (BackendProfile D))) (read : string → toml_file).
Variables (cls : string) (win32 : bool) (can_signal : string → bool) (fresh : string * nat).
Abbreviation test := (Test (B:=B) (Com:=Com)).
Abbreviation run_it := (run_verb uri_attr driver_name_of registry str_lower digest16 repr_addr by_scheme read cls win32 can_signal fresh).

(** A run that returns results returns those of its test loop. *)
Lemma run_tests_results (life : Life Bld Com) (tests : list test) ff lof (o : Orch B Bld Com) results o' :
  run_tests life str_lower digest16 repr_addr tests ff lof o = (Ok results, o') →
  ∃ (h : option (OrchestratorHandle Com)), reports ff h tests results.
Proof.
  unfold run_tests, with_range. intros [(h & o1 & _ & Hr)|(e & _ & [=])]%act_bind_inv.
  apply finally_inv in Hr as (r1 & o2 & Hb & [[_ <-]|(e & _ & [=])]).
  apply act_bind_inv in Hb as [(new & o3 & Hx & Hb)|(e & _ & [=])].
  apply act_bind_inv in Hb as [(u & o4 & _ & [= -> _])|(e & _ & [=])].
  apply execute_tests_inv in Hx as (new' & -> & Hrep & _). by exists h.
Qed.

Lemma result_passed (t : test) x : res_passed (result_of t x) = true ↔ t_outcome x = Ok ().
Proof. unfold result_of. destruct (t_outcome x) as [[]|e]; by split. Qed.

(** [x] reports a call of [t] that returned. *)
Definition returned (h : option (OrchestratorHandle Com)) (t : test) (x : TestResult) : Prop :=
  ∃ c, x = result_of t (t_body t h c).1 ∧ t_outcome (t_body t h c).1 = Ok ().

Lemma reports_all_passed ff h (tests : list test) new :
  reports ff h tests new → forallb res_passed new = true ↔ Forall2 (returned h) tests new.
Proof.
  intros [Heach Hall Hstop Hearly]. split.
  - intros Hp. assert (length new = length tests) as Hlen.
    { apply Forall2_length in Heach. rewrite length_take in Heach.
      destruct (decide (length new < length tests)) as [Hlt|]; [|lia].
      destruct (Hearly Hlt) as (l & x & -> & Hx). rewrite forallb_app in Hp. cbn in Hp. rewrite Hx in Hp.
      by rewrite andb_false_r in Hp. }
    rewrite Hlen, firstn_all in Heach. clear - Heach Hp.
    induction Heach as [|t x tests new (c & ->) _ IH]; [constructor|]. cbn [forallb] in Hp.
    apply andb_true_iff in Hp as [Hx Hp]. constructor; [|by apply IH]. exists c. split; [done|]. by apply result_passed in Hx.
  - clear. intros Hf. induction Hf as [|t x tests new (c & -> & Hc) _ IH]; [done|]. cbn [forallb].
    apply andb_true_iff. split; [by apply result_passed|done].
Qed.

(** C10: the exit code of [run] tells whether the tests passed.  When the verb prints its
    report, the results are those of the tests of the plan, in order; it exits 0 exactly
    when every test of the plan was called and returned, and 1 otherwise, whatever
    [--fail-fast] skipped. *)
Theorem run_exit_truthful f spec o rc resume ff lof dash p code out p' :
  run_it f spec o rc resume ff lof dash p = (Ok (code, Some out), p') →
  ∃ plan raw tests h results, pf_exec f = Ok (Some plan, raw) ∧ validate_tests raw = Some tests ∧
    reports ff h tests results ∧ out = run_out dash results ∧
    (code = OK ∨ code = FAILURE) ∧ (code = OK ↔ Forall2 (returned h) tests results).
Proof.
  intros (plan & raw & tests & _ & _ & Hex & Hv & Hk)%with_plan_Some.
  apply with_profile_Some in Hk as (profile & Hk & _). rewrite try_verb_Some in Hk.
  apply act_bind_inv in Hk as [(results & p1 & Hr & Hk)|(e & _ & [=])].
  unfold run_range in Hr. apply act_bind_inv in Hr as [([life orch] & p2 & _ & Hr)|(e & _ & [=])].
  unfold on_orch in Hr. destruct (run_tests _ _ _ _ _ _ _ orch) as [r o'] eqn:E. injection Hr as -> <-.
  apply run_tests_results in E as [h Hrep]. injection Hk as Hcode Hout _. exists plan, raw, tests, h, results.
  pose proof (reports_all_passed ff h tests results Hrep) as Hall.
  split_and!; [done..|by destruct (forallb _ _); subst; auto|]. rewrite <-Hall. destruct (forallb _ _); subst; naive_solver.
Qed.

(** *** [preflight] *)

Abbreviation preflight_it := (preflight_verb uri_attr registry by_scheme read cls).

(** What the sweep calls, when it returns a report. *)
Lemma sweep_inv (h : Hypervisor Bld Com) sw (w : World B) report w' :
  sweep h sw w = (Ok report, w') →
  ∃ b1 b2, drv_connect (backend w) = (Ok (), b1) ∧ drv_preflight h (Some sw) b1 = (Ok report, b2) ∧
    (drv_disconnect b2).1 = Ok () ∧
    trace w' = trace w ++ [EvCall CConnect; EvCall (CUse "preflight" ""); EvCall CDisconnect].
Proof.
  unfold sweep. intros [([] & w1 & (_ & _ & _ & Ht1 & Hc)%perform_inv & Hr)|(e & _ & [=])]%act_bind_inv.
  apply finally_inv in Hr as (r1 & w2 & (_ & _ & _ & Ht2 & Hp)%perform_inv & [[Hd <-]|(e & _ & [=])]).
  apply perform_inv in Hd as (_ & _ & _ & Ht3 & Hd). exists (backend w1), (backend w2). split_and!; [done..|by rewrite Hd|].
  by rewrite Ht3, Ht2, Ht1, <-!app_assoc.
Qed.

(** What the constructor makes of a bound plan. *)
Lemma construct_Ok plan profile o resume (p : World B * gmap string sig_handler) rb addrs :
  resolve_backend uri_attr registry cls profile = Ok rb → addressing_of (p_hypervisor plan) = Ok addrs →
  ∃ (life : Life Bld Com) (orch : Orch B Bld Com),
    construct uri_attr driver_name_of registry cls win32 can_signal fresh plan profile (run_options false resume o) p
      = (Ok (life, orch), p) ∧
    lf_require_cache life = false ∧ e_hyp (lf_env life) = p_hypervisor plan ∧ lf_win32 life = win32 ∧
    cx_world (o_ctx orch) = p.1 ∧ o_signals orch = p.2.
Proof.
  intros Hrb Ha. unfold construct, new_orchestrator. rewrite Hrb, Ha.
  destruct resume as [rid|]; cbn -[addressing_of]; do 2 eexists; (split; [reflexivity|done]).
Qed.

End RunHonest.

(** *** [cache purge] *)

Section PurgeAsks.
Context {R : Type} {HT : Http R} {PE : PyEnv}.

(** Nothing is deleted without [--yes], nor with [--dry-run]; what the verb then shows is
    still there.  With [--yes] every entry it removed is gone and no other is. *)
Theorem purge_asks url dry yes (w : CWorld R) r w' :
  cache_ok (fs w) → cache_purge_verb url dry yes w = (r, w') →
  (dry || negb yes = true → fs w' = fs w) ∧
  ∀ code out, r = Ok (code, Some out) → code = OK ∧
    match out with
    | NothingToPurge => fs w' = fs w
    | WouldPurge l _ hint => dry || negb yes = true ∧ hint = negb dry ∧ ∀ info, info ∈ l → view (fs w') (LocalCache.sha info) = Some info
    | Purged n _ => dry || negb yes = false ∧ ∃ l, n = length l ∧
        (∀ info, info ∈ l → view (fs w) (LocalCache.sha info) = Some info) ∧
        ∀ h, view (fs w') h = if decide (h ∈ LocalCache.sha <$> l) then None else view (fs w) h
    | _ => False
    end.
Proof.
  intros Hok. unfold cache_purge_verb, cache_verb, try_verb.
  destruct (build_manager url) as [[base http]|e0]; cbn [lift mbind act_bind].
  2:{ intros Hr. change ((lift (Raise e0) ≫= _) w) with (@Raise exn (Exit * option CacheOut) e0, w) in Hr. cbv iota beta in Hr.
      destruct (handler_of cache_clauses e0); injection Hr as <- <-; done. }
  change ((lift (Ok (base, http)) ≫= ?k) w) with (k (base, http) w). cbv iota beta.
  destruct (list_entries w) as [[l|e] w1] eqn:Hl; pose proof (silent_list_entries _ _ _ Hl) as Hf.
  2:{ erewrite act_bind_Raise by exact Hl. destruct (handler_of cache_clauses e); intros [= <- <-]; done. }
  erewrite act_bind_Ok by exact Hl. destruct (decide (l = [])) as [->|Hne]; [intros [= <- <-]; naive_solver|].
  destruct (dry || negb yes) eqn:Hdry.
  { intros [= <- <-]. split; [done|]. intros ? ? [= <- <-]. split_and!; [done..|]. rewrite Hf. by apply list_entries_Ok with w1. }
  intros Hr. split; [done|]. intros code out ->.
  destruct (manager_purge w1) as [[removed|e] w2] eqn:Hp.
  2:{ erewrite act_bind_Raise in Hr by exact Hp. by destruct (handler_of cache_clauses e). }
  erewrite act_bind_Ok in Hr by exact Hp. injection Hr as <- <- <-. split; [done|]. split; [done|].
  rewrite <-Hf in Hok. apply purge_spec in Hp as (_ & l' & k & Hl' & Hr & Hv); [|done].
  destruct (Hr _ eq_refl) as [-> ->]. rewrite Hf in Hl', Hv. exists l'. split_and!; [done..|]. intros h. rewrite Hv. by rewrite firstn_all.
Qed.
End PurgeAsks.

(** *** Sizes *)

Lemma round_even_close a d : (0 < d)%Z → (2 * Z.abs (round_even a d * d - a) ≤ d)%Z.
Proof.
  intros Hd. unfold round_even. pose proof (Z.div_mod a d ltac:(lia)). pose proof (Z.mod_pos_bound a d Hd).
  assert (a / d * d - a = - (a mod d))%Z as H1 by lia. assert ((a / d + 1) * d - a = d - a mod d)%Z as H2 by lia.
  destruct (Z.ltb_spec (2 * (a mod d)) d); [rewrite H1; lia|].
  destruct (Z.ltb_spec d (2 * (a mod d))); [rewrite H2; lia|]. destruct (Z.even _); [rewrite H1|rewrite H2]; lia.
Qed.

Lemma to_float_small n : (0 ≤ n < 2 ^ 53)%Z → to_float n = n.
Proof.
  intros Hn. unfold to_float. rewrite Z.abs_eq by lia. destruct (Z.leb_spec (Z.log2 n - 52) 0) as [|Hk]; [done|].
  destruct (decide (n = 0)%Z) as [->|]; [done|]. assert (Z.log2 n < 53)%Z by (apply Z.log2_lt_pow2; lia). lia.
Qed.

Lemma in_units_scale f scale units :
  (0 < scale ≤ f)%Z →
  ∃ k unit, in_units f scale units = one_decimal f (1024 ^ Z.of_nat k * scale) +:+ " " +:+ unit ∧
    (1024 ^ Z.of_nat k * scale ≤ f)%Z ∧
    (units !! k = Some unit ∧ (f < 1024 * (1024 ^ Z.of_nat k * scale))%Z ∨ k = length units ∧ unit = "PiB").
Proof.
  revert scale. induction units as [|u units IH]; intros scale Hs; cbn [in_units].
  - exists 0, "PiB". rewrite Z.pow_0_r, Z.mul_1_l. split_and!; [done|lia|by right].
  - destruct (Z.ltb_spec f (1024 * scale)) as [Hlt|Hge].
    + exists 0, u. rewrite Z.pow_0_r, Z.mul_1_l. split_and!; [done|lia|by left].
    + destruct (IH (1024 * scale)%Z) as (k & unit & -> & Hle & Hk); [lia|]. exists (S k), unit.
      rewrite Nat2Z.inj_succ, Z.pow_succ_r by lia. rewrite (Z.mul_comm 1024 (1024 ^ _)), <-Z.mul_assoc.
      split_and!; [done|done|]. destruct Hk as [[Hu Hf]|[-> ->]]; [left|right]; done.
Qed.

(** A printed size is right to half a tenth of its unit, in the largest unit that does
    not exceed it.  (Sizes up to 8 PiB are exact as floats.) *)
Theorem format_size_close n :
  (1024 ≤ n < 2 ^ 53)%Z →
  ∃ k unit, format_size n = one_decimal n (1024 ^ Z.of_nat (S k)) +:+ " " +:+ unit ∧
    (1024 ^ Z.of_nat (S k) ≤ n)%Z ∧
    (["KiB"; "MiB"; "GiB"; "TiB"] !! k = Some unit ∧ (n < 1024 ^ Z.of_nat (S (S k)))%Z ∨ k = 4 ∧ unit = "PiB") ∧
    (2 * Z.abs (tenths n (1024 ^ Z.of_nat (S k)) * 1024 ^ Z.of_nat (S k) - 10 * n) ≤ 1024 ^ Z.of_nat (S k))%Z.
Proof.
  intros Hn. unfold format_size. rewrite to_float_small by lia. destruct (Z.ltb_spec n 1024); [lia|].
  destruct (in_units_scale n 1024 ["KiB"; "MiB"; "GiB"; "TiB"]) as (k & unit & -> & Hle & Hk); [lia|].
  assert (1024 ^ Z.of_nat k * 1024 = 1024 ^ Z.of_nat (S k))%Z as Hpow by (rewrite Nat2Z.inj_succ, Z.pow_succ_r by lia; lia).
  rewrite Hpow in *. exists k, unit. split_and!; [done|done| |].
  - destruct Hk as [[Hu Hlt]|[-> ->]]; [left|by right]. split; [done|].
    rewrite (Nat2Z.inj_succ (S k)), Z.pow_succ_r by lia. done.
  - apply round_even_close. lia.
Qed.

(** ** Concrete invocations *)

Module CleanupVerbDemo.
Import DriverDemo CleanupDemo.

Example cleanup_codes :
  (λ bad, match (cleanup_verb 9 (clean_one "r2") (world bad)).1 with Ok (x, _) => Some x | Raise _ => None end) <$>
    [[]; ["n"]; ["connect"]] = [Some OK; Some CLEANUP_ERRORS; Some CLEANUP_ERRORS].
Proof. vm_compute. reflexivity. Qed.

Lemma cleanup_exit_truthful_witness :
  ∃ w' res, cleanup_verb 9 (clean_one "r2") (world ["n"]) = (Ok (CLEANUP_ERRORS, Some (Cleaned [res])), w') ∧
    (errors res).*1 = ["n"].
Proof.
  destruct (cleanup_exit_truthful 9 "r2" (world ["n"]) demo_state (dead demo_state))
    as (w' & t & res & code & H1 & H2 & _ & H3 & H4 & _).
  - discriminate.
  - exact demo_uninterrupted.
  - split; [vm_compute; reflexivity|vm_compute; reflexivity|intros c; reflexivity].
  - reflexivity.
  - vm_compute. reflexivity.
  - vm_compute. reflexivity.
  - reflexivity.
  - discriminate.
  - exists w', res. assert (cleanup_verb 9 (clean_one "r2") (world ["n"]) = (Ok (code, Some (Cleaned [res])), w')) as Hx by exact H1.
    vm_compute in Hx. injection Hx as <- <- <-. split; [|reflexivity]. vm_compute. reflexivity.
Defined.
End CleanupVerbDemo.

Module RunVerbDemo.
Import BuildDemo RunDemo LifecycleDemo.

Definition registry : Registry () := MkRegistry ∅ ∅.
Definition by_scheme : gmap string (pydict toml → res (BackendProfile ())) := {[ "demo" := λ _, Ok (MkProfile "demo" ∅ ∅ (Ok ())) ]}.
Definition read (path : string) : toml_file :=
  if decide (path = "lab.toml") then Parsed [("a", TTable [("driver", TStr "demo")] "")] else NotFound.
Definition plan : Plan () comm_kind := MkPlan "demo" hyp graph.
Definition one_arg : option (list param) := Some [MkParam Positional false; MkParam KeywordOnly true].
Definition file (ts : list (Test (B:=Bad) (Com:=comm_kind))) : PlanFile (Plan () comm_kind) (Test (B:=Bad) (Com:=comm_kind)) :=
  MkPlanFile true true (Ok (Some plan, Some (MkEntry true one_arg <$> ts))).
Definition opts : Options := MkOptions None false false 3 3 3 3.
Definition process (bad : Bad) : World Bad * gmap string sig_handler := (MkWorld ∅ [] "t1" 7 bad [], table).

Definition run_demo ts bad :=
  run_verb (λ _, None) (λ _, "d") registry id id sa_addr by_scheme read "Hypervisor" false (λ _, true) ("r1", 1)
    (file ts) (Some "lab.toml:a") opts false None false false false (process bad).
Definition preflight_demo bad :=
  preflight_verb (λ _, None) registry by_scheme read "Hypervisor" (file []) (Some "lab.toml:a") (process bad).
Definition code_of {X} (r : res (Exit * option X)) : option Z := match r with Ok x => Some (main_code x) | Raise _ => None end.

Example run_codes :
  [code_of (run_demo [passing "t1"] []).1; code_of (run_demo tests []).1; code_of (run_demo tests ["preflight"]).1;
   code_of (run_demo tests ["create_vm"]).1; code_of (run_demo tests ["^create_vm"]).1] =
  [Some 0; Some 1; Some 2; Some 2; Some 130]%Z.
Proof. vm_compute. reflexivity. Qed.

Example bad_profile_usage :
  code_of (run_verb (λ _, None) (λ _, "d") registry id id sa_addr by_scheme read "Hypervisor" false (λ _, true) ("r1", 1)
    (file tests) (Some "lab.toml:b") opts false None false false false (process [])).1 = Some 2%Z.
Proof. vm_compute. reflexivity. Qed.

(** Two tests that return: exit 0, and both ran. *)
Lemma run_exit_truthful_witness :
  let two := [passing "t1"; passing "t2"] in
  code_of (run_demo two []).1 = Some 0%Z ∧ ∃ h rs, Forall2 (returned h) two rs ∧ length rs = 2.
Proof.
  cbv zeta. destruct (run_demo [passing "t1"; passing "t2"] []) as [r p'] eqn:E.
  assert (∃ out, r = Ok (OK, Some out)) as [out ->].
  { assert (r = (run_demo [passing "t1"; passing "t2"] []).1) as -> by (rewrite E; reflexivity). eexists. vm_compute. reflexivity. }
  split; [reflexivity|].
  destruct (run_exit_truthful (λ _, None) (λ _, "d") registry id id sa_addr by_scheme read "Hypervisor" false (λ _, true) ("r1", 1)
    (file [passing "t1"; passing "t2"]) (Some "lab.toml:a") opts false None false false false (process []) OK out p' E)
    as (pl & raw & ts & h & rs & Hex & Hv & _ & _ & _ & Hall).
  injection Hex as <- <-. injection Hv as <-. exists h, rs. pose proof (proj1 Hall eq_refl) as Hf. split; [exact Hf|].
  pose proof (Forall2_length _ _ _ Hf) as Hlen. symmetry. exact Hlen.
Defined.


(** The plan's graph, as [graph --order] and [graph --cache] show it. *)
Example graph_shown :
  let shown dot order keys := (graph_verb (λ _, None) registry id sa_addr by_scheme read "Hypervisor" ("r1", 1) (file []) (Some "lab.toml:a") opts dot order keys
    (process []).1).1 in
  shown false true false = Ok (OK, Some (Order [["network:sw1"; "pool:p1"]; ["sidecar:sw1"]; ["vm:web"]])) ∧
  match shown false false true with
  | Ok (OK, Some (Forest [Branch x label _ _] n e k)) => x = "vm:web" ∧ last label = Some "  MISS (would build)" ∧ n = 4
  | _ => False
  end.
Proof. vm_compute. auto. Qed.

(** A cache that holds nothing. *)
Definition empty_cache : Cache Bad := {|
  cache_resolve := λ n _ bad, (raise CacheMissError [n], bad);
  cache_add := λ _ n, may "cache_add" ("/cache/" +:+ n);
  make_temp := λ p, may "make_temp" ("/cache/tmp/" +:+ p);
  unlink_temp := λ _, may "unlink_temp" ();
  build_sidecar_config_iso := λ _ _ _ _, Ok [];
|}.

(** A base image that is not in the cache is a usage error of [run], and escapes [repl]
    as a traceback. *)
Lemma repl_cache_miss_escapes :
  code_of (run_verb (Cache0 := empty_cache) (λ _, None) (λ _, "d") registry id id sa_addr by_scheme read "Hypervisor" false (λ _, true) ("r1", 1)
    (file []) (Some "lab.toml:a") opts false None false false false (process [])).1 = Some 2%Z ∧
  match (repl_verb (Cache0 := empty_cache) (λ _, None) (λ _, "d") registry id id sa_addr by_scheme read "Hypervisor" false (λ _, true) ("r1", 1)
    (file []) (Some "lab.toml:a") opts (λ _, mret ()) (process [])).1 with
  | Raise e => exn_class e = CacheMissError
  | Ok _ => False
  end.
Proof. vm_compute. auto. Qed.
End RunVerbDemo.
